(* ===== verification/_CoqProject ===== *)
-Q . S2P
Prelude.v
Collections.v
RustStr.v
Float.v
FloatOrder.v
Capabilities.v
Placement.v
Blob.v
BlobProps.v
Task.v
Queue.v
QueueOps.v
QueueInv.v
QueueCore.v
QueueBook.v
QueueAcct.v
QueueSteps.v
Samples.v
QueueProps.v
QueueLife.v
QueueViews.v
Registry.v
RegistryProps.v
Scheduler.v
SchedulerInv.v
SchedulerProps.v
Master.v
Interleave.v
Stranded.v
PassProps.v
Waiters.v
SubmitAwait.v
SubmitAwaitProps.v
Protocol.v
ProtocolProps.v
BlobTransfer.v
BlobStore.v
BlobStoreInv.v
BlobStoreProps.v
BlobEvict.v
BlobRoundTrip.v
ClusterAuth.v
ClusterAuthProps.v
Auth.v
AuthProps.v
MapReduce.v
MapReduceProps.v
Mesh.v
MeshProps.v
Arbitrage.v
ArbitrageProps.v
WorkerTasks.v
WorkerTasksInv.v
WorkerTasksProps.v
WorkerLane.v
WorkerLaneProps.v
Discovery.v
DiscoveryAddr.v
DiscoveryHosts.v
DiscoveryProps.v
BlobCache.v
BlobCacheProps.v
Staging.v
StagingProps.v
StagingInputs.v
BlobClient.v
BlobClientProps.v
BlobFetch.v
BlobFetchProps.v
Process.v
BuiltinTest.v
Sandbox.v
SandboxPaths.v
SandboxProps.v
Runner.v
RunnerProps.v
Gpu.v
McpOutput.v
McpCalls.v
McpServer.v
