(* ===== verification/Prelude.v ===== *)
(** * OxideSwarm: a verification library for the compute grid

    OxideSwarm runs tasks on a grid of workers.  A master keeps a queue of tasks and a
    registry of connected workers; a scheduler places queued tasks on workers; the
    connection handlers apply what workers report; clients submit, wait and cancel.
    Inputs and outputs are content-addressed blobs in a bounded store on the master, and
    all connections run over an authenticated, encrypted record layer.  This library is
    a shallow embedding of that program: its data are records and inductive types, its
    functions are Rocq functions, code under a lock is a function of the state the lock
    guards, and concurrency is the interleaving of lock holds.

    ** Parts, files and sources (under [src/crates])

    Shared.
    - [Prelude]: machine widths, saturating arithmetic, the result monad, tactics and hints.
    - [Collections]: [BTreeSet] as sorted lists ([OrdKey], [OrdLaws]), sums over maps.
    - [RustStr]: strings, UTF-8, trimming, splitting, lines.  [Float], [FloatOrder]:
      IEEE-754 arithmetic and when it is totally ordered.

    Data model, [core/src].
    - [Capabilities] ([capabilities.rs]), [Placement] ([placement.rs]), [Task] ([task.rs]),
      [Blob] and [BlobProps] ([blob.rs]): what a task, a worker, a constraint, a blob, a
      manifest and an output pattern are, and their validation.

    The task queue, [master/src/queue.rs].
    - [Queue]: its state and retry policy; [QueueOps]: one function per method.
    - [QueueInv], [QueueCore], [QueueBook], [QueueAcct]: the representation invariant and
      that every operation keeps it.  [QueueSteps]: runs of the queue as a step relation.
    - [QueueProps], [QueueLife], [QueueViews]: its theorems.  [Samples]: concrete data.

    Registry, scheduler and handlers, [master/src].
    - [Registry], [RegistryProps] ([registry.rs], [liveness.rs]).
    - [Scheduler], [SchedulerInv], [SchedulerProps] ([scheduler.rs]): the placement engine.
    - [Master] ([server.rs], [reaper.rs] and the pass of [scheduler.rs]): the handlers that
      change queue, registry and waiters together.
    - [Interleave], [Stranded], [PassProps], [Waiters]: what holds of the handlers
      interleaved, of a scheduling pass, and of waiting clients.

    Wire and storage.
    - [Protocol], [ProtocolProps] ([core/src/protocol.rs]): encrypted record sessions,
      message framing, transports, capability negotiation.
    - [ClusterAuth], [ClusterAuthProps] ([core/src/cluster_auth.rs]): the shared secret and
      the mutual handshake that keys the record layer.
    - [Auth], [AuthProps] ([master/src/auth.rs]): scopes, tokens, the dashboard's middleware.
    - [BlobTransfer] ([core/src/blob_transfer.rs]), [BlobStore] ([master/src/blob_store.rs])
      with [BlobStoreInv], [BlobStoreProps], [BlobEvict], [BlobRoundTrip].
    - [MapReduce], [MapReduceProps] ([master/src/mapreduce.rs], [core/src/mapreduce.rs]).
    - [SubmitAwait], [SubmitAwaitProps] ([master/src/mapreduce.rs]): the call that submits a
      task of a job and awaits it, over the shared master.

    The worker, [worker/src].
    - [WorkerTasks], [WorkerTasksInv], [WorkerTasksProps] ([client.rs], [blob_client.rs],
      [heartbeat.rs]): slots, the runs of tasks, their cancellation and their reports.
    - [WorkerLane], [WorkerLaneProps] ([client.rs]): the loop that writes to the master, and
      results too large for a frame.
    - [BlobCache], [BlobCacheProps] ([blob_cache.rs]): the cache of blobs, its guards and its
      eviction.  [Staging], [StagingProps], [StagingInputs] ([staging.rs]): a task's files in
      and out of its sandbox.
    - [BlobClient], [BlobClientProps], [BlobFetch], [BlobFetchProps] ([blob_client.rs]): blob
      requests over a session, fetching inputs, uploading outputs.
    - [Sandbox], [SandboxPaths], [SandboxProps] ([sandbox.rs]): the private directory of a task,
      which paths may name a file in it, and its staged files.
    - [Process], [Runner], [RunnerProps] ([runner.rs]): the capture of output,
      the verdict on an exit, the environment of a child, and the workloads that run a process
      (command, script, compilation) from the sandbox's creation to its removal.
      [BuiltinTest]: the built-in computation and its checkpoints.
    - [Gpu] ([gpu.rs] and its callers): what a device's limits admit, what a worker claims.

    The MCP server, [cli/src/mcp.rs], through which an assistant uses the cluster.
    - [McpOutput]: how much of a task's output a reply shows.  [McpCalls]: the arguments of the
      tools, the pooled connection to the master, submit, cancel and task_result.
    - [McpServer]: the loop that reads requests, runs calls beside it and cancels them.

    Coordination.
    - [Arbitrage], [ArbitrageProps] ([core/src/arbitrage.rs]): who may coordinate, elections,
      lease tickets.
    - [Discovery], [DiscoveryAddr], [DiscoveryHosts], [DiscoveryProps] ([core/src/discovery.rs],
      the routes of [master/src/web_ui.rs]): beacons, leases, probes, the text of addresses.
    - [Mesh], [MeshProps] ([agent_mesh/src/protocol.rs], [agent_mesh/src/hub.rs]): envelopes
      and the relay hub, whose state is shared by all sockets.

    ** What the theorems show

    - Queue: every reachable state satisfies the invariant (table, ready queue, backoff
      queue, assignments, byte totals and retention agree); each step follows the task
      state machine; reports of workers that do not own a task change nothing; a lost
      session's tasks are requeued, delayed or failed, each within its retry budget.
    - Scheduler and pass: a placement passes every gate, respects every worker's limits and
      picks the least loaded candidate; the shortcuts (stop rule, memo of dead shapes, held
      back workers) lose nothing; a pass terminates and assigns what the queue holds.
    - Registry: sessions are unique and increasing; a superseded session has no power.
    - Handlers: interleaved lock by lock, no running task is left without a live session or
      a handler that will requeue it ([Stranded.no_task_stranded]); every waiter is answered
      or waits for an unfinished task ([Waiters.waiters_served]).
    - Record layer: a reader delivers a prefix of what was written, nonces never repeat,
      both ends stay in step.  Handshake: agreement of peers and keys against an active
      network.  Dashboard: a protected route is reached only with authority.
    - Blob store: the index matches the directory and the pins in every interleaving;
      eviction takes least recently used unpinned blobs and stops at its bound; an upload
      downloads as the same bytes, and no peer can make a download yield others.
    - Map/reduce: a job's result is a function of its tasks' answers, not of their timing.
      A task of a job is answered or cleaned up in every interleaving with the handlers,
      unless its call is dropped in the middle of its own clean-up, for which is stated what
      it can leave ([SubmitAwaitProps.nothing_left_behind]).
    - Worker: permits and runs add up to the slots; a cancellation reaches every run of its
      task, also when it overtakes the assignment; a task has one run at a time; a run the
      worker stops reports nothing; the end of a session leaves nothing running unnoticed;
      a lane writes what was queued, in order.
    - Worker data: what leaves a sandbox is exactly what the output patterns select, reached
      through directories and never through a link; what enters is exactly the inputs, with
      verified content, where nothing was; inputs and outputs are pinned in the cache from
      the moment they enter it, and eviction never takes a pinned blob; replies to blob
      requests reach the call that asked.
    - Worker processes: a path the worker accepts stays below the sandbox, and worker and
      validator read it alike; a process starts in a sandbox that holds exactly what the
      workload wrote, the staged files and the inputs; captured output does not depend on how it was read, and what is
      cut carries the marker; exit code 130 is kept for cancelled tasks; nothing a task
      returns depends on the worker's secrets; success means that the process the task asks
      for exited with 0, the declared artifacts and the outputs; no
      sandbox is left; a computation resumed elsewhere from a checkpoint has the same digest.
    - GPU: a job that passes the limits fits the device; a worker claims only what it has.
    - MCP server: every request is answered once, with its id, unless it was cancelled, which
      it then stays; a cancellation reaches only tasks of the request it names; one submission
      submits one task and cancels it if it is cancelled itself; replies stay within their
      budget and say when standard output was cut, by the worker or by the budget.
    - Elections have one winner; a lease ticket binds all its fields, verifies until it
      expires, and two coordinators never step down for each other.
    - Relay hub: a node id belongs to one live connection, nobody sends under an id it did not
      register, and what is held for a peer stays within its budget.
    - Discovery: no two uses of the cluster secret authenticate the same bytes; a client with
      the secret follows only signed addresses; what is reflected is canonical and safe.

    ** Modelling decisions

    - Unsigned integers are [N]; widths are written out where the code saturates, wraps or
      checks ([saturating_add], [u64_max]); counters that only grow are unbounded.  Byte
      totals have the premise that they fit, which the limits of the program give.
    - [Instant::now()] and epoch times are arguments.  The iteration order of a [HashMap]
      or [HashSet] is an argument, a permutation of its elements.  Channels, abort handles,
      clocks and oneshots are names.  Log lines and metrics are left out, and the texts of
      error messages are constructors.
    - Third-party code is an interface, a class of operations with its documented laws:
      [UuidApi] (uuid), [ManifestCodec] and [Wire] (serde encodings), [Aead] (ring's AEAD
      and HMAC), [BlobHash] (BLAKE3), [Sha256] (sha2), [Json], [BeaconJson], [MeshJson],
      [McpJson], [JsonEscape] (serde_json).  Each has a concrete instance that satisfies the laws, on which the
      witnesses evaluate.  Cryptography is symbolic: the premises [unforged] and [unforged_tag]
      say that nobody makes up a record or a tag without the key, and nonces are not drawn
      twice.
    - A handler, once begun, runs to its end in the interleavings of [Stranded]: a task aborted
      between two of its locks is left out.  The requests of one connection are answered one
      after the other, which is what makes an upload's temporary file its own ([Upload],
      [hold_ok]).  Names of environment variables are compared as on Unix.
    - A file-system refusal is a value of [Io]; a peer's frame or reply is an argument; what a
      process writes, how it ends and what it leaves in its sandbox is the argument [Host].

    ** Fuel

    Loops that are not structural take fuel, and the theorems show the fuel given is enough:
    [wildcard_fuel] (pattern and name lengths), [scan_fuel] (the pass's scan limit plus one),
    eviction (one round per entry), [upload_fuel] and the download's fuel (chunks left), the
    walk of a sandbox (its nodes).

    ** Not modelled

    Sockets, TLS, QUIC and P2P plumbing; what the operating system does with a process and its
    process tree, 3D, rigging and GPU kernels on the worker; the command line and developer
    modes; the MCP server's status and doctor tools; the mesh client and bridge, the Android
    bindings, the dashboard's HTML and HTTP responses; probing of the host; serde's
    representations of the message types; the rules of Windows in [sandbox.rs] and
    [runner.rs].  They are input and output, or third-party formats, around the logic above. *)

From stdpp Require Export prelude gmap sorting strings.

(** ** Machine-width arithmetic

    Unsigned Rust integers are values of [N]; [saturating_sub] is then [N.sub].
    The [saturating_add] family is written out with the width's maximum. *)

Definition u8_max : N := 2 ^ 8 - 1.
Definition u32_max : N := 2 ^ 32 - 1.
Definition u64_max : N := 2 ^ 64 - 1.
(** The targets of the repository are 64-bit: [usize] has the range of [u64]. *)
Definition usize_max : N := u64_max.

Definition saturating_add (max a b : N) : N := N.min (a + b) max.
Definition saturating_mul (max a b : N) : N := N.min (a * b) max.

Lemma saturating_add_exact max a b :
  (a + b <= max)%N -> saturating_add max a b = (a + b)%N.
Proof. unfold saturating_add. lia. Qed.

Lemma saturating_add_le max a b : (saturating_add max a b <= max)%N.
Proof. unfold saturating_add. lia. Qed.

(** ** Results

    [Result<T, E>] of Rust, with the [?] operator as a bind notation. *)

Inductive result (E A : Type) : Type :=
| Ok (a : A)
| Err (e : E).
Arguments Ok {E A} a.
Arguments Err {E A} e.

Definition result_bind {E A B} (r : result E A) (f : A -> result E B) : result E B :=
  match r with
  | Ok a => f a
  | Err e => Err e
  end.

Definition result_map {E A B} (f : A -> B) (r : result E A) : result E B :=
  match r with
  | Ok a => Ok (f a)
  | Err e => Err e
  end.

Definition map_err {E F A} (f : E -> F) (r : result E A) : result F A :=
  match r with
  | Ok a => Ok a
  | Err e => Err (f e)
  end.

Definition is_ok {E A} (r : result E A) : bool :=
  match r with Ok _ => true | Err _ => false end.

Definition ok_or {E A} (e : E) (o : option A) : result E A :=
  match o with Some a => Ok a | None => Err e end.

Declare Scope result_scope.
Delimit Scope result_scope with result.
Notation "x <-? c1 ; c2" := (result_bind c1 (fun x => c2))
  (at level 20, c1 at level 100, c2 at level 200, right associativity) : result_scope.
Notation "'check' c1 ; c2" := (result_bind c1 (fun _ => c2))
  (at level 20, c1 at level 100, c2 at level 200, right associativity) : result_scope.

Lemma result_bind_Ok {E A B} (r : result E A) (f : A -> result E B) b :
  result_bind r f = Ok b <-> exists a, r = Ok a /\ f a = Ok b.
Proof. destruct r; naive_solver. Qed.

(** ** Tactics and hints *)

Create HintDb swarm discriminated.

(** Case analysis on every [match]/[if] of the goal or of a hypothesis that
    blocks reduction, keeping the equations. *)
Ltac break_match :=
  match goal with
  | |- context [match ?x with _ => _ end] => destruct x eqn:?
  | H : context [match ?x with _ => _ end] |- _ => destruct x eqn:?
  end.

(** The same, restricted to hypotheses. *)
Ltac break_match_hyp :=
  match goal with
  | H : context [match ?x with _ => _ end] |- _ => destruct x eqn:?
  end.

Ltac simp := repeat (simplify_eq/= || destruct_and? || case_bool_decide).
