(* ===== verification/Collections.v ===== *)
(** * Collections: ordered sets and sums over finite maps

    The standard-library containers the master relies on.

    - [BTreeSet<K>] is a strictly sorted list ([bt_insert], [bt_remove]); the
      [Ord] implementations of the key types are instances of [OrdKey], and
      [OrdLaws] is what [BTreeSet] demands of them.
    - [HashMap]/[HashSet] are stdpp's [gmap]/[gset]; [map_sum] adds up a size
      over a map, which is what the queue's byte counters stand for. *)

From S2P Require Import Prelude.

(** ** Total orders given by a three-way comparison *)

Class OrdKey (K : Type) := ocmp : K -> K -> comparison.

Class OrdLaws (K : Type) `{OrdKey K} := {
  ocmp_eq : forall x y, ocmp x y = Eq <-> x = y;
  ocmp_opp : forall x y, ocmp y x = CompOpp (ocmp x y);
  ocmp_trans : forall x y z, ocmp x y = Lt -> ocmp y z = Lt -> ocmp x z = Lt
}.

(** [Ordering::then_with]. *)
Definition then_with (c d : comparison) : comparison :=
  match c with Eq => d | _ => c end.

Lemma then_with_opp c d : CompOpp (then_with c d) = then_with (CompOpp c) (CompOpp d).
Proof. by destruct c, d. Qed.

Lemma then_with_eq c d : then_with c d = Eq <-> c = Eq /\ d = Eq.
Proof. destruct c, d; naive_solver. Qed.

Lemma then_with_lt c d : then_with c d = Lt <-> c = Lt \/ (c = Eq /\ d = Lt).
Proof. destruct c, d; naive_solver. Qed.

#[global] Instance N_ord : OrdKey N := N.compare.
#[global] Instance N_ord_laws : OrdLaws N.
Proof.
  split; unfold ocmp, N_ord.
  - apply N.compare_eq_iff.
  - intros; apply N.compare_antisym.
  - intros x y z; rewrite !N.compare_lt_iff; lia.
Qed.

Section ord.
Context {K} `{OrdLaws K}.

Lemma ocmp_refl x : ocmp x x = Eq.
Proof. by apply ocmp_eq. Qed.

Lemma ocmp_gt_lt x y : ocmp x y = Gt <-> ocmp y x = Lt.
Proof. rewrite (ocmp_opp x y). destruct (ocmp x y); naive_solver. Qed.

Lemma ocmp_lt_irrefl x : ~ ocmp x x = Lt.
Proof. by rewrite ocmp_refl. Qed.

Lemma ocmp_lt_neq x y : ocmp x y = Lt -> x <> y.
Proof. intros Hlt ->. by apply (ocmp_lt_irrefl y). Qed.
End ord.

(** ** [BTreeSet] *)

Section btree.
Context {K} `{OrdKey K}.

(** [BTreeSet::insert]: an equal key already present is kept. *)
Fixpoint bt_insert (x : K) (l : list K) : list K :=
  match l with
  | [] => [x]
  | y :: l' =>
      match ocmp x y with
      | Lt => x :: y :: l'
      | Eq => y :: l'
      | Gt => y :: bt_insert x l'
      end
  end.

(** [BTreeSet::remove]. *)
Fixpoint bt_remove (x : K) (l : list K) : list K :=
  match l with
  | [] => []
  | y :: l' =>
      match ocmp x y with
      | Lt => y :: l'
      | Eq => l'
      | Gt => y :: bt_remove x l'
      end
  end.

(** [BTreeSet::range((Excluded(after), Unbounded))], or the whole set. *)
Fixpoint bt_range_after (x : K) (l : list K) : list K :=
  match l with
  | [] => []
  | y :: l' => match ocmp x y with Lt => y :: l' | _ => bt_range_after x l' end
  end.

Definition bt_lt (x y : K) : Prop := ocmp x y = Lt.
Definition bt_wf (l : list K) : Prop := StronglySorted bt_lt l.
End btree.

Section btree_laws.
Context {K} `{OrdLaws K}.
Implicit Types (x y : K) (l : list K).

Lemma bt_wf_nil : bt_wf [].
Proof. constructor. Qed.

Lemma bt_wf_cons x l : bt_wf (x :: l) <-> bt_wf l /\ Forall (bt_lt x) l.
Proof. split; [by inversion 1|]. intros [??]; by constructor. Qed.

Lemma elem_of_bt_insert x y l : y ∈ bt_insert x l <-> y = x \/ y ∈ l.
Proof.
  induction l as [|z l IH]; simpl; [set_solver|].
  destruct (ocmp x z) eqn:E; [apply ocmp_eq in E as ->| |]; set_solver.
Qed.

Lemma bt_insert_wf x l : bt_wf l -> bt_wf (bt_insert x l).
Proof.
  unfold bt_wf. induction 1 as [|z l Hs IH Hall]; simpl; [repeat constructor|].
  destruct (ocmp x z) eqn:E.
  - by constructor.
  - constructor; [by constructor|]. constructor; [done|].
    eapply Forall_impl; [exact Hall|]. intros w Hw. by eapply ocmp_trans.
  - constructor; [done|]. apply Forall_forall. intros w Hw.
    apply elem_of_bt_insert in Hw as [->|Hw].
    + by apply ocmp_gt_lt.
    + rewrite Forall_forall in Hall. auto.
Qed.

Lemma elem_of_bt_remove x y l : bt_wf l -> y ∈ bt_remove x l <-> y <> x /\ y ∈ l.
Proof.
  induction l as [|z l IH]; simpl; [set_solver|].
  intros [Hl Hall]%bt_wf_cons. rewrite Forall_forall in Hall.
  assert (Hz : forall w, w ∈ l -> w <> z).
  { intros w Hw ->. by apply (ocmp_lt_irrefl z), Hall. }
  destruct (ocmp x z) eqn:E.
  - apply ocmp_eq in E as ->. set_solver.
  - assert (x <> z) by (by apply ocmp_lt_neq).
    assert (x ∉ l). { intros Hx. apply (ocmp_lt_irrefl x). eapply ocmp_trans; [done|]. by apply Hall. }
    set_solver.
  - assert (x <> z). { apply ocmp_gt_lt in E. by apply not_eq_sym, ocmp_lt_neq. }
    rewrite !elem_of_cons, IH by done. naive_solver.
Qed.

Lemma bt_remove_wf x l : bt_wf l -> bt_wf (bt_remove x l).
Proof.
  induction l as [|z l IH]; simpl; [done|].
  intros Hwf. pose proof Hwf as [Hl Hall]%bt_wf_cons.
  destruct (ocmp x z); [done..|]. apply bt_wf_cons. split; [auto|].
  rewrite Forall_forall in Hall |- *. intros w [_ Hw]%elem_of_bt_remove; auto.
Qed.

Lemma elem_of_bt_range_after x y l :
  bt_wf l -> y ∈ bt_range_after x l <-> bt_lt x y /\ y ∈ l.
Proof.
  induction l as [|z l IH]; simpl; [set_solver|].
  intros [Hl Hall]%bt_wf_cons. rewrite Forall_forall in Hall.
  destruct (ocmp x z) eqn:E.
  - apply ocmp_eq in E as ->. rewrite IH, elem_of_cons by done.
    split; [naive_solver|]. intros [Hlt [->|?]]; [|done].
    by apply ocmp_lt_irrefl in Hlt.
  - split; [|naive_solver]. intros Hy. split; [|done].
    apply elem_of_cons in Hy as [->|Hy]; [done|].
    eapply ocmp_trans; [done|]. by apply Hall.
  - rewrite IH, elem_of_cons by done. split; [naive_solver|].
    intros [Hlt [->|?]]; [|done]. unfold bt_lt in Hlt. congruence.
Qed.

Lemma bt_range_after_suffix x l : bt_range_after x l `suffix_of` l.
Proof.
  induction l as [|z l IH]; simpl; [done|].
  destruct (ocmp x z); [by apply suffix_cons_r..|done|by apply suffix_cons_r].
Qed.

Lemma bt_wf_suffix l k : k `suffix_of` l -> bt_wf l -> bt_wf k.
Proof.
  intros [p ->]. induction p as [|z p IH]; simpl; [done|]. intros [? _]%bt_wf_cons. auto.
Qed.

(** Continuing after an element of the set is exactly the part behind it. *)
Lemma bt_range_after_app l1 x l2 : bt_wf (l1 ++ x :: l2) -> bt_range_after x (l1 ++ x :: l2) = l2.
Proof.
  induction l1 as [|z l1 IH]; simpl; intros [Hl Hall]%bt_wf_cons.
  - rewrite ocmp_refl. destruct l2 as [|w l2]; simpl; [done|].
    apply Forall_cons in Hall as [Hw _]. unfold bt_lt in Hw. by rewrite Hw.
  - assert (ocmp x z = Gt) as ->.
    { apply ocmp_gt_lt. rewrite Forall_forall in Hall. apply Hall. set_solver. }
    auto.
Qed.

Lemma bt_wf_NoDup l : bt_wf l -> NoDup l.
Proof.
  induction 1 as [|x l Hs IH Hall]; constructor; [|done].
  intros Hx. rewrite Forall_forall in Hall. by apply (ocmp_lt_irrefl x), Hall.
Qed.

(** A sorted list is determined by its members. *)
Lemma bt_wf_ext l k : bt_wf l -> bt_wf k -> (forall x, x ∈ l <-> x ∈ k) -> l = k.
Proof.
  intros Hl. revert k. induction Hl as [|x l Hs IH Hall]; intros [|y k] Hk Hext.
  - done.
  - exfalso. eapply not_elem_of_nil, Hext, list_elem_of_here.
  - exfalso. eapply not_elem_of_nil, Hext, list_elem_of_here.
  - apply bt_wf_cons in Hk as [Hk Hky]. rewrite Forall_forall in Hall, Hky.
    assert (x = y) as ->.
    { assert (x ∈ y :: k) as [->|Hx]%elem_of_cons by (apply Hext; left); [done|].
      assert (y ∈ x :: l) as [->|Hy]%elem_of_cons by (apply Hext; left); [done|].
      exfalso. apply (ocmp_lt_irrefl x). eapply ocmp_trans; [by apply Hall|by apply Hky]. }
    f_equal. apply IH; [done|]. intros z. specialize (Hext z).
    rewrite !elem_of_cons in Hext.
    split; intros Hz.
    + destruct (proj1 Hext (or_intror Hz)) as [->|]; [|done].
      by apply Hall, ocmp_lt_irrefl in Hz.
    + destruct (proj2 Hext (or_intror Hz)) as [->|]; [|done].
      by apply Hky, ocmp_lt_irrefl in Hz.
Qed.
End btree_laws.

#[export] Hint Resolve bt_wf_nil bt_insert_wf bt_remove_wf : swarm.

(** ** Sums over finite maps *)

Section map_sum.
Context {K : Type} `{Countable K} {A : Type}.
Implicit Types (f g : A -> N) (m : gmap K A).
Local Open Scope N_scope.

Definition map_sum f m : N := map_fold (fun _ x acc => f x + acc) 0 m.

Lemma map_sum_empty f : map_sum f ∅ = 0.
Proof. apply map_fold_empty. Qed.

Lemma map_sum_insert f m k x : m !! k = None -> map_sum f (<[k:=x]> m) = f x + map_sum f m.
Proof. intros. unfold map_sum. rewrite map_fold_insert_L; [done|intros; lia|done]. Qed.

Lemma map_sum_delete f m k x : m !! k = Some x -> map_sum f m = f x + map_sum f (delete k m).
Proof.
  intros Hk. rewrite <-(insert_delete_id m k x Hk) at 1.
  apply map_sum_insert, lookup_delete_eq.
Qed.

Lemma map_sum_insert_Some f m k x y :
  m !! k = Some x -> map_sum f (<[k:=y]> m) + f x = f y + map_sum f m.
Proof.
  intros Hk. rewrite <-insert_delete_eq, map_sum_insert by apply lookup_delete_eq.
  rewrite (map_sum_delete f m k x Hk). lia.
Qed.

Lemma map_sum_lookup_le f m k x : m !! k = Some x -> f x <= map_sum f m.
Proof. intros Hk. rewrite (map_sum_delete f m k x Hk). lia. Qed.

Lemma map_sum_delete_le f m k : map_sum f (delete k m) <= map_sum f m.
Proof.
  destruct (m !! k) as [x|] eqn:Hk.
  - rewrite (map_sum_delete f m k x Hk). lia.
  - by rewrite delete_id.
Qed.

Lemma map_sum_subseteq f m1 m2 : m1 ⊆ m2 -> map_sum f m1 <= map_sum f m2.
Proof.
  revert m2. induction m1 as [|k x m1 Hk IH] using map_ind; intros m2 Hsub.
  - rewrite map_sum_empty. lia.
  - assert (m2 !! k = Some x) as Hk2.
    { eapply lookup_weaken; [|exact Hsub]. apply lookup_insert_eq. }
    rewrite map_sum_insert, (map_sum_delete f m2 k x Hk2) by done.
    apply N.add_le_mono_l, IH.
    rewrite <-(delete_insert_id m1 k x Hk). by apply delete_mono.
Qed.
End map_sum.

(** Pointwise comparison of two maps of different value types. *)
Lemma map_sum_le {K} `{Countable K} {A B} (f : A -> N) (g : B -> N) (m1 : gmap K A) (m2 : gmap K B) :
  (forall k x, m1 !! k = Some x -> exists y, m2 !! k = Some y /\ (f x <= g y)%N) ->
  (map_sum f m1 <= map_sum g m2)%N.
Proof.
  revert m2. induction m1 as [|k x m1 Hk IH] using map_ind; intros m2 Hle.
  - rewrite map_sum_empty. lia.
  - destruct (Hle k x) as (y & Hy & Hxy); [apply lookup_insert_eq|].
    rewrite map_sum_insert, (map_sum_delete g m2 k y Hy) by done.
    apply N.add_le_mono; [done|]. apply IH. intros k' x' Hk'.
    assert (k <> k') by congruence.
    destruct (Hle k' x') as (y' & Hy' & ?); [by rewrite lookup_insert_ne|].
    exists y'. by rewrite lookup_delete_ne.
Qed.

(** Sums of two maps that agree where they are not zero. *)
Lemma map_sum_agree {K} `{Countable K} {A B} (f : A -> N) (g : B -> N) (m1 : gmap K A) (m2 : gmap K B) :
  (forall k, match m1 !! k with Some x => f x | None => 0%N end = match m2 !! k with Some y => g y | None => 0%N end) ->
  map_sum f m1 = map_sum g m2.
Proof.
  revert m2. induction m1 as [|k x m1 Hk IH] using map_ind; intros m2 Heq.
  - rewrite map_sum_empty. symmetry. induction m2 as [|k y m2 Hk IH] using map_ind; [apply map_sum_empty|].
    rewrite map_sum_insert by done. pose proof (Heq k) as Hgk. rewrite lookup_empty, lookup_insert_eq in Hgk.
    rewrite <-Hgk, IH; [done|]. intros k'. rewrite lookup_empty. destruct (decide (k' = k)) as [->|].
    + by rewrite Hk.
    + specialize (Heq k'). by rewrite lookup_empty, lookup_insert_ne in Heq by done.
  - rewrite map_sum_insert by done. pose proof (Heq k) as Hxk. rewrite lookup_insert_eq in Hxk.
    rewrite (IH (delete k m2)).
    + rewrite Hxk. destruct (m2 !! k) as [y|] eqn:Hy.
      * by rewrite (map_sum_delete g m2 k y Hy).
      * by rewrite delete_id.
    + intros k'. destruct (decide (k' = k)) as [->|].
      * by rewrite Hk, lookup_delete_eq.
      * rewrite lookup_delete_ne by done. specialize (Heq k'). by rewrite lookup_insert_ne in Heq by done.
Qed.
