(* ===== verification/RustStr.v ===== *)
(** * RustStr: the parts of [str], [String] and [char] the program uses

    A [String] is the list of its Unicode scalar values (so [chars()] is the
    list itself), a byte buffer is a list of values below 256.  [str_len] is
    [str::len], the length of the UTF-8 encoding.  Comparison of strings is
    lexicographic on scalar values, which is the byte order of their UTF-8
    encodings. *)

From S2P Require Import Prelude Collections.
From Stdlib Require Import Ascii.
Local Open Scope N_scope.

Abbreviation char := N (only parsing).
Abbreviation Str := (list N) (only parsing).
Abbreviation Bytes := (list N) (only parsing).

(** A string literal of the source (all of them used here are ASCII). *)
Fixpoint str (s : string) : Str :=
  match s with
  | String.EmptyString => []
  | String.String a s' => N_of_ascii a :: str s'
  end.

Definition chr (s : string) : char := default 0 (head (str s)).
Arguments str : simpl never.
Arguments chr : simpl never.

(** Decides equations between literals. *)
Ltac decide_literals :=
  repeat match goal with
  | |- context [bool_decide (str ?a = str ?b)] =>
      let v := eval vm_compute in (bool_decide (str a = str b)) in
      change (bool_decide (str a = str b)) with v; cbv iota
  end.

(** ** UTF-8 *)

Definition utf8_char_len (c : char) : N :=
  if c <? 128 then 1 else if c <? 2048 then 2 else if c <? 65536 then 3 else 4.

Definition str_len (s : Str) : N := foldr (fun c acc => utf8_char_len c + acc) 0 s.

Definition blen (b : Bytes) : N := N.of_nat (length b).

Definition utf8_encode_char (c : char) : Bytes :=
  if c <? 128 then [c]
  else if c <? 2048 then [192 + c / 64; 128 + c mod 64]
  else if c <? 65536 then [224 + c / 4096; 128 + c / 64 mod 64; 128 + c mod 64]
  else [240 + c / 262144; 128 + c / 4096 mod 64; 128 + c / 64 mod 64; 128 + c mod 64].

Definition utf8_encode (s : Str) : Bytes := c ← s; utf8_encode_char c.

(** Unicode scalar values: code points without the surrogates. *)
Definition is_scalar (c : char) : bool :=
  (c <? 55296) || ((57343 <? c) && (c <? 1114112)).

Definition is_cont (b : N) : bool := (128 <=? b) && (b <? 192).

Definition replacement_char : char := 65533.

(** The range the second byte of a sequence must lie in, by its first byte
    (excludes overlong forms, surrogates and values above U+10FFFF). *)
Definition second_ok (b0 b1 : N) : bool :=
  if b0 =? 224 then (160 <=? b1) && (b1 <? 192)
  else if b0 =? 237 then (128 <=? b1) && (b1 <? 160)
  else if b0 =? 240 then (144 <=? b1) && (b1 <? 192)
  else if b0 =? 244 then (128 <=? b1) && (b1 <? 144)
  else is_cont b1.

(** [String::from_utf8_lossy]: every maximal invalid prefix of a sequence
    becomes one U+FFFD. *)
Fixpoint from_utf8_lossy (b : Bytes) : Str :=
  match b with
  | [] => []
  | b0 :: r0 =>
      if b0 <? 128 then b0 :: from_utf8_lossy r0
      else if (194 <=? b0) && (b0 <? 224) then
        match r0 with
        | b1 :: r1 =>
            if is_cont b1 then ((b0 - 192) * 64 + (b1 - 128)) :: from_utf8_lossy r1
            else replacement_char :: from_utf8_lossy r0
        | [] => [replacement_char]
        end
      else if (224 <=? b0) && (b0 <? 240) then
        match r0 with
        | b1 :: r1 =>
            if second_ok b0 b1 then
              match r1 with
              | b2 :: r2 =>
                  if is_cont b2 then
                    ((b0 - 224) * 4096 + (b1 - 128) * 64 + (b2 - 128)) :: from_utf8_lossy r2
                  else replacement_char :: from_utf8_lossy r1
              | [] => [replacement_char]
              end
            else replacement_char :: from_utf8_lossy r0
        | [] => [replacement_char]
        end
      else if (240 <=? b0) && (b0 <? 245) then
        match r0 with
        | b1 :: r1 =>
            if second_ok b0 b1 then
              match r1 with
              | b2 :: r2 =>
                  if is_cont b2 then
                    match r2 with
                    | b3 :: r3 =>
                        if is_cont b3 then
                          ((b0 - 240) * 262144 + (b1 - 128) * 4096 + (b2 - 128) * 64 + (b3 - 128))
                            :: from_utf8_lossy r3
                        else replacement_char :: from_utf8_lossy r2
                    | [] => [replacement_char]
                    end
                  else replacement_char :: from_utf8_lossy r1
              | [] => [replacement_char]
              end
            else replacement_char :: from_utf8_lossy r0
        | [] => [replacement_char]
        end
      else replacement_char :: from_utf8_lossy r0
  end.

(** ** Characters *)

(** [char::is_whitespace]: the Unicode property [White_Space]. *)
Definition is_whitespace (c : char) : bool :=
  ((9 <=? c) && (c <=? 13)) || (c =? 32) || (c =? 133) || (c =? 160) || (c =? 5760)
  || ((8192 <=? c) && (c <=? 8202)) || (c =? 8232) || (c =? 8233) || (c =? 8239)
  || (c =? 8287) || (c =? 12288).

Definition ascii_lower (c : char) : char := if (65 <=? c) && (c <=? 90) then c + 32 else c.
Definition ascii_upper (c : char) : char := if (97 <=? c) && (c <=? 122) then c - 32 else c.

(** ** Strings *)

Definition to_ascii_lowercase (s : Str) : Str := map ascii_lower s.
Definition to_ascii_uppercase (s : Str) : Str := map ascii_upper s.
Definition eq_ignore_ascii_case (a b : Str) : bool :=
  bool_decide (to_ascii_lowercase a = to_ascii_lowercase b).

Fixpoint trim_start_matches (p : char -> bool) (s : Str) : Str :=
  match s with
  | [] => []
  | c :: s' => if p c then trim_start_matches p s' else s
  end.

Definition trim_end_matches (p : char -> bool) (s : Str) : Str :=
  reverse (trim_start_matches p (reverse s)).

Definition trim (s : Str) : Str := trim_end_matches is_whitespace (trim_start_matches is_whitespace s).

Definition is_empty {A} (l : list A) : bool := match l with [] => true | _ => false end.

Fixpoint strip_prefix (p s : Str) : option Str :=
  match p, s with
  | [], _ => Some s
  | c :: p', d :: s' => if c =? d then strip_prefix p' s' else None
  | _ :: _, [] => None
  end.

Definition starts_with (p s : Str) : bool := match strip_prefix p s with Some _ => true | None => false end.

Definition ends_with (suffix s : Str) : bool := starts_with (reverse suffix) (reverse s).

(** [str::contains] with a string pattern. *)
Fixpoint contains (p s : Str) : bool :=
  starts_with p s || match s with [] => false | _ :: s' => contains p s' end.

Definition contains_char (c : char) (s : Str) : bool := existsb (N.eqb c) s.

(** [s.replace(c, d)] for two one-character patterns. *)
Definition replace_char (c d : char) (s : Str) : Str := map (fun x => if x =? c then d else x) s.

(** [s.split(c)]: the pieces between the separators, at least one. *)
Fixpoint split (c : char) (s : Str) : list Str :=
  match s with
  | [] => [[]]
  | x :: s' =>
      if x =? c then [] :: split c s'
      else match split c s' with
           | [] => [[x]]
           | p :: ps => (x :: p) :: ps
           end
  end.

(** [join] of a slice of strings with a separator. *)
Fixpoint join_with (sep : Str) (parts : list Str) : Str :=
  match parts with [] => [] | [p] => p | p :: parts => p ++ sep ++ join_with sep parts end.

(** [s.split_once(c)]. *)
Fixpoint split_once (c : char) (s : Str) : option (Str * Str) :=
  match s with
  | [] => None
  | x :: s' =>
      if x =? c then Some ([], s')
      else match split_once c s' with
           | Some (a, b) => Some (x :: a, b)
           | None => None
           end
  end.

(** [parts.join(sep)] for a one-character separator. *)
Fixpoint join (c : char) (parts : list Str) : Str :=
  match parts with
  | [] => []
  | [p] => p
  | p :: ps => p ++ c :: join c ps
  end.

(** [str::lines]: the text between newlines, without a carriage return at the end
    of a line; nothing follows a final newline. *)
Definition strip_cr (l : Str) : Str := match last l with Some 13 => removelast l | _ => l end.
Definition lines (text : Str) : list Str :=
  let parts := split 10 text in
  map strip_cr (match last parts with Some [] => removelast parts | _ => parts end).

(** ** Numbers *)

Fixpoint parse_digits (max acc : N) (s : Str) : option N :=
  match s with
  | [] => Some acc
  | c :: s' =>
      if (48 <=? c) && (c <=? 57) then
        let acc' := acc * 10 + (c - 48) in
        if acc' <=? max then parse_digits max acc' s' else None
      else None
  end.

(** [s.parse::<usize>()]: an optional leading [+], then at least one digit. *)
Definition parse_usize (s : Str) : option N :=
  match s with
  | [] => None
  | c :: s' =>
      let digits := if c =? 43 then s' else s in
      if is_empty digits then None else parse_digits usize_max 0 digits
  end.

Fixpoint show_uint (d : Decimal.uint) : Str :=
  match d with
  | Decimal.Nil => []
  | Decimal.D0 d => 48 :: show_uint d
  | Decimal.D1 d => 49 :: show_uint d
  | Decimal.D2 d => 50 :: show_uint d
  | Decimal.D3 d => 51 :: show_uint d
  | Decimal.D4 d => 52 :: show_uint d
  | Decimal.D5 d => 53 :: show_uint d
  | Decimal.D6 d => 54 :: show_uint d
  | Decimal.D7 d => 55 :: show_uint d
  | Decimal.D8 d => 56 :: show_uint d
  | Decimal.D9 d => 57 :: show_uint d
  end.

(** [Display] of an unsigned integer. *)
Definition show_N (n : N) : Str := show_uint (N.to_uint n).

(** ** Ordering *)

Fixpoint str_cmp (a b : Str) : comparison :=
  match a, b with
  | [], [] => Eq
  | [], _ :: _ => Lt
  | _ :: _, [] => Gt
  | x :: a', y :: b' => then_with (N.compare x y) (str_cmp a' b')
  end.

#[global] Instance Str_ord : OrdKey Str := str_cmp.

#[global] Instance Str_ord_laws : OrdLaws Str.
Proof.
  split; unfold ocmp, Str_ord.
  - induction x as [|c x IH]; intros [|d y]; simpl; [naive_solver..|].
    rewrite then_with_eq, N.compare_eq_iff, IH. naive_solver.
  - induction x as [|c x IH]; intros [|d y]; simpl; [naive_solver..|].
    by rewrite then_with_opp, <-IH, N.compare_antisym.
  - induction x as [|c x IH]; intros [|d y] [|e z]; simpl; try done.
    rewrite !then_with_lt, !N.compare_lt_iff, !N.compare_eq_iff.
    intros [?|[-> ?]] [?|[-> ?]]; [left; lia|left; lia|left; lia|right; eauto].
Qed.

(** [Vec::sort] and [Vec::dedup] on strings (equal strings are
    indistinguishable, so the sorting algorithm does not matter). *)
Fixpoint insert_sorted (x : Str) (l : list Str) : list Str :=
  match l with
  | [] => [x]
  | y :: l' => match str_cmp x y with Gt => y :: insert_sorted x l' | _ => x :: l end
  end.

Definition sort_strs (l : list Str) : list Str := foldr insert_sorted [] l.

Fixpoint dedup (l : list Str) : list Str :=
  match l with
  | [] => []
  | x :: l' =>
      match dedup l' with
      | [] => [x]
      | y :: r => if bool_decide (x = y) then y :: r else x :: y :: r
      end
  end.

(** ** Facts *)

Ltac n_cases :=
  repeat match goal with
  | |- context [?a <? ?b] => destruct (N.ltb_spec a b)
  | |- context [?a <=? ?b] => destruct (N.leb_spec a b)
  | |- context [?a =? ?b] => destruct (N.eqb_spec a b)
  end.

Ltac n_cases_hyp H :=
  repeat match type of H with
  | context [?a <? ?b] => destruct (N.ltb_spec a b)
  | context [?a <=? ?b] => destruct (N.leb_spec a b)
  | context [?a =? ?b] => destruct (N.eqb_spec a b)
  end.

Ltac div_lia := Z.to_euclidean_division_equations; lia.
Ltac n_div_lia := zify; div_lia.

Lemma utf8_encode_char_len c : blen (utf8_encode_char c) = utf8_char_len c.
Proof. unfold utf8_encode_char, utf8_char_len. by n_cases. Qed.

Lemma utf8_encode_len s : blen (utf8_encode s) = str_len s.
Proof.
  induction s as [|c s IH]; [done|].
  change (str_len (c :: s)) with (utf8_char_len c + str_len s).
  rewrite <-IH, <-utf8_encode_char_len. unfold blen, utf8_encode.
  rewrite bind_cons, length_app. lia.
Qed.

Lemma str_len_cons c s : str_len (c :: s) = utf8_char_len c + str_len s.
Proof. done. Qed.

Lemma str_len_app s t : str_len (s ++ t) = str_len s + str_len t.
Proof. induction s as [|c s IH]; simpl; [done|]. rewrite IH. lia. Qed.

(** Decides the comparisons of a goal whose outcome [lia] knows, splits the rest. *)
Ltac n_decide :=
  repeat (match goal with
  | |- context [?a <? ?b] =>
      first [rewrite (proj2 (N.ltb_lt a b)) by lia | rewrite (proj2 (N.ltb_ge a b)) by lia
            | destruct (N.ltb_spec a b)]
  | |- context [?a <=? ?b] =>
      first [rewrite (proj2 (N.leb_le a b)) by lia | rewrite (proj2 (N.leb_gt a b)) by lia
            | destruct (N.leb_spec a b)]
  | |- context [?a =? ?b] =>
      first [rewrite (proj2 (N.eqb_neq a b)) by lia | destruct (N.eqb_spec a b)]
  end; cbn [andb orb]).

Lemma lossy_1 b0 r : b0 < 128 -> from_utf8_lossy (b0 :: r) = b0 :: from_utf8_lossy r.
Proof. intros. cbn [from_utf8_lossy]. by rewrite (proj2 (N.ltb_lt b0 128)) by lia. Qed.

Lemma lossy_2 b0 b1 r :
  194 <= b0 < 224 -> is_cont b1 = true ->
  from_utf8_lossy (b0 :: b1 :: r) = ((b0 - 192) * 64 + (b1 - 128)) :: from_utf8_lossy r.
Proof.
  intros ? H1. cbn [from_utf8_lossy]. rewrite (proj2 (N.ltb_ge b0 128)) by lia.
  rewrite (proj2 (N.leb_le 194 b0)), (proj2 (N.ltb_lt b0 224)) by lia. cbn [andb].
  by rewrite H1.
Qed.

Lemma lossy_3 b0 b1 b2 r :
  224 <= b0 < 240 -> second_ok b0 b1 = true -> is_cont b2 = true ->
  from_utf8_lossy (b0 :: b1 :: b2 :: r)
  = ((b0 - 224) * 4096 + (b1 - 128) * 64 + (b2 - 128)) :: from_utf8_lossy r.
Proof.
  intros ? H1 H2. cbn [from_utf8_lossy]. rewrite (proj2 (N.ltb_ge b0 128)) by lia.
  rewrite (proj2 (N.leb_le 194 b0)), (proj2 (N.ltb_ge b0 224)) by lia. cbn [andb].
  rewrite (proj2 (N.leb_le 224 b0)), (proj2 (N.ltb_lt b0 240)) by lia. cbn [andb].
  by rewrite H1, H2.
Qed.

Lemma lossy_4 b0 b1 b2 b3 r :
  240 <= b0 < 245 -> second_ok b0 b1 = true -> is_cont b2 = true -> is_cont b3 = true ->
  from_utf8_lossy (b0 :: b1 :: b2 :: b3 :: r)
  = ((b0 - 240) * 262144 + (b1 - 128) * 4096 + (b2 - 128) * 64 + (b3 - 128)) :: from_utf8_lossy r.
Proof.
  intros ? H1 H2 H3. cbn [from_utf8_lossy]. rewrite (proj2 (N.ltb_ge b0 128)) by lia.
  rewrite (proj2 (N.leb_le 194 b0)), (proj2 (N.ltb_ge b0 224)) by lia. cbn [andb].
  rewrite (proj2 (N.leb_le 224 b0)), (proj2 (N.ltb_ge b0 240)) by lia. cbn [andb].
  rewrite (proj2 (N.leb_le 240 b0)), (proj2 (N.ltb_lt b0 245)) by lia. cbn [andb].
  by rewrite H1, H2, H3.
Qed.

Lemma is_cont_low a : a < 64 -> is_cont (128 + a) = true.
Proof. intros. unfold is_cont. by n_decide. Qed.

Lemma from_utf8_lossy_encode_char c r :
  is_scalar c = true -> from_utf8_lossy (utf8_encode_char c ++ r) = c :: from_utf8_lossy r.
Proof.
  unfold is_scalar. intros Hc. unfold utf8_encode_char.
  destruct (N.ltb_spec c 128) as [H1|H1]; [|destruct (N.ltb_spec c 2048) as [H2|H2];
    [|destruct (N.ltb_spec c 65536) as [H3|H3]]]; cbn [app].
  - by apply lossy_1.
  - rewrite lossy_2 by (first [apply is_cont_low|idtac]; n_div_lia). f_equal. n_div_lia.
  - assert (Hs : c < 55296 \/ 57343 < c) by (n_cases_hyp Hc; simpl in Hc; [lia..|done]).
    clear Hc. rewrite lossy_3; [f_equal; n_div_lia|n_div_lia| |apply is_cont_low; n_div_lia].
    assert (Ha : c / 4096 < 16) by n_div_lia.
    assert (Hb : c / 64 mod 64 < 64) by n_div_lia.
    assert (He : c / 4096 * 4096 + c / 64 mod 64 * 64 + c mod 64 = c) by n_div_lia.
    assert (Hd : c mod 64 < 64) by n_div_lia.
    revert Ha Hb Hd He.
    generalize (c / 4096) (c / 64 mod 64) (c mod 64); intros a b d Ha Hb Hd He.
    unfold second_ok, is_cont. n_decide; try lia; done.
  - assert (Hs : c < 1114112) by (n_cases_hyp Hc; simpl in Hc; try lia; done).
    clear Hc. rewrite lossy_4; [f_equal; n_div_lia|n_div_lia| |apply is_cont_low; n_div_lia..].
    assert (Ha : c / 262144 < 5) by n_div_lia.
    assert (Hb : c / 4096 mod 64 < 64) by n_div_lia.
    assert (He : c / 262144 * 262144 + c / 4096 mod 64 * 4096 + c mod 4096 = c) by n_div_lia.
    assert (Hd : c mod 4096 < 4096) by n_div_lia.
    revert Ha Hb Hd He. generalize (c / 262144) (c / 4096 mod 64) (c mod 4096).
    intros a b d Ha Hb Hd He. unfold second_ok, is_cont. n_decide; try lia; done.
Qed.

(** Decoding the UTF-8 form of a string gives the string back. *)
Lemma from_utf8_lossy_encode s :
  Forall (fun c => is_scalar c = true) s -> from_utf8_lossy (utf8_encode s) = s.
Proof.
  induction 1 as [|c s Hc Hs IH]; [done|].
  change (utf8_encode (c :: s)) with (utf8_encode_char c ++ utf8_encode s).
  by rewrite from_utf8_lossy_encode_char, IH.
Qed.

Lemma strip_prefix_Some p s r : strip_prefix p s = Some r <-> s = p ++ r.
Proof.
  revert s. induction p as [|c p IH]; intros [|d s]; simpl; [naive_solver..|].
  destruct (N.eqb_spec c d) as [->|]; [rewrite IH|]; naive_solver.
Qed.

Lemma strip_prefix_app p s : strip_prefix p (p ++ s) = Some s.
Proof. by apply strip_prefix_Some. Qed.

Lemma starts_with_spec p s : starts_with p s = true <-> p `prefix_of` s.
Proof.
  unfold starts_with, prefix. destruct (strip_prefix p s) as [r|] eqn:E.
  - apply strip_prefix_Some in E. naive_solver.
  - split; [done|]. intros [r Hr]. apply strip_prefix_Some in Hr. congruence.
Qed.

Lemma contains_char_spec c s : contains_char c s = true <-> c ∈ s.
Proof.
  unfold contains_char. rewrite existsb_exists. setoid_rewrite N.eqb_eq.
  setoid_rewrite <-list_elem_of_In. naive_solver.
Qed.

Lemma split_not_nil c s : split c s <> [].
Proof. destruct s as [|x s]; simpl; [done|]. repeat case_match; done. Qed.

Lemma split_no_sep c s p : p ∈ split c s -> c ∉ p.
Proof.
  revert p. induction s as [|x s IH]; simpl; intros p.
  - rewrite list_elem_of_singleton. intros ->. apply not_elem_of_nil.
  - destruct (N.eqb_spec x c) as [->|Hx].
    + rewrite elem_of_cons. intros [->|Hp]; [apply not_elem_of_nil|auto].
    + destruct (split c s) as [|q qs] eqn:E; [by destruct (split_not_nil c s)|].
      rewrite elem_of_cons. intros [->|Hp]; [|apply IH; by right].
      intros [->|Hc]%elem_of_cons; [done|]. by apply (IH q); [left|].
Qed.

Lemma join_cons c p ps : ps <> [] -> join c (p :: ps) = p ++ c :: join c ps.
Proof. by destruct ps. Qed.

Lemma join_split c s : join c (split c s) = s.
Proof.
  induction s as [|x s IH]; simpl; [done|].
  destruct (N.eqb_spec x c) as [->|Hx].
  - rewrite join_cons by apply split_not_nil. by rewrite IH.
  - destruct (split c s) as [|p [|q ps]] eqn:E; [by destruct (split_not_nil c s)|..];
      simpl in *; congruence.
Qed.

Lemma split_no_sep_id c s : c ∉ s -> split c s = [s].
Proof.
  induction s as [|x s IH]; simpl; [done|]. rewrite not_elem_of_cons. intros [? ?].
  destruct (N.eqb_spec x c); [congruence|]. by rewrite IH.
Qed.

Lemma split_app_sep c p s : c ∉ p -> split c (p ++ c :: s) = p :: split c s.
Proof.
  induction p as [|x p IH]; simpl; [by rewrite N.eqb_refl|].
  rewrite not_elem_of_cons. intros [? ?].
  destruct (N.eqb_spec x c); [congruence|]. by rewrite IH.
Qed.

Lemma split_join c ps : ps <> [] -> Forall (fun p => c ∉ p) ps -> split c (join c ps) = ps.
Proof.
  intros Hne Hall. induction Hall as [|p ps Hp Hall IH]; [done|].
  destruct ps as [|q ps].
  - simpl. by apply split_no_sep_id.
  - rewrite join_cons, split_app_sep, IH by done. done.
Qed.

Lemma split_once_app c a b : c ∉ a -> split_once c (a ++ c :: b) = Some (a, b).
Proof.
  induction a as [|x a IH]; simpl; [by rewrite N.eqb_refl|].
  rewrite not_elem_of_cons. intros [? ?].
  destruct (N.eqb_spec x c); [congruence|]. by rewrite IH.
Qed.

Lemma trim_start_suffix p s : trim_start_matches p s `suffix_of` s.
Proof. induction s as [|c s IH]; simpl; [done|]. case_match; [by apply suffix_cons_r|done]. Qed.

Lemma trim_start_head p s c : head (trim_start_matches p s) = Some c -> p c = false.
Proof. induction s as [|d s IH]; simpl; [done|]. destruct (p d) eqn:E; naive_solver. Qed.

Lemma trim_start_id p s : (forall c, head s = Some c -> p c = false) -> trim_start_matches p s = s.
Proof. destruct s as [|c s]; simpl; [done|]. intros H. by rewrite H. Qed.

Lemma trim_end_prefix p s : trim_end_matches p s `prefix_of` s.
Proof.
  unfold trim_end_matches. destruct (trim_start_suffix p (reverse s)) as [k Hk].
  exists (reverse k). rewrite <-reverse_app, <-Hk. by rewrite reverse_involutive.
Qed.

Lemma trim_end_last p s c : last (trim_end_matches p s) = Some c -> p c = false.
Proof. unfold trim_end_matches. rewrite last_reverse. apply trim_start_head. Qed.

Lemma trim_end_id p s : (forall c, last s = Some c -> p c = false) -> trim_end_matches p s = s.
Proof.
  intros H. unfold trim_end_matches.
  rewrite trim_start_id; [apply reverse_involutive|]. intros c. rewrite <-last_reverse.
  rewrite reverse_involutive. apply H.
Qed.

(** A trimmed string neither starts nor ends with white space. *)
Lemma trim_last s c : last (trim s) = Some c -> is_whitespace c = false.
Proof. apply trim_end_last. Qed.

Lemma trim_head s c : head (trim s) = Some c -> is_whitespace c = false.
Proof.
  unfold trim. intros Hc. apply (trim_start_head is_whitespace s).
  destruct (trim_end_prefix is_whitespace (trim_start_matches is_whitespace s)) as [k ->].
  by destruct (trim_end_matches _ _); simplify_eq/=.
Qed.

Lemma trim_id s :
  (forall c, head s = Some c -> is_whitespace c = false) ->
  (forall c, last s = Some c -> is_whitespace c = false) -> trim s = s.
Proof. intros Hh Hl. unfold trim. rewrite (trim_start_id _ s Hh). by apply trim_end_id. Qed.

Lemma trim_trim s : trim (trim s) = trim s.
Proof. apply trim_id; [apply trim_head|apply trim_last]. Qed.

Lemma trim_elem_of s c : c ∈ trim s -> c ∈ s.
Proof.
  unfold trim. intros Hc.
  destruct (trim_end_prefix is_whitespace (trim_start_matches is_whitespace s)) as [k Hk].
  destruct (trim_start_suffix is_whitespace s) as [k' Hk'].
  rewrite Hk', Hk. set_solver.
Qed.

(** ** Sorting *)

Definition str_le (x y : Str) : Prop := str_cmp x y <> Gt.

Lemma str_le_trans x y z : str_le x y -> str_le y z -> str_le x z.
Proof.
  unfold str_le. destruct (str_cmp x y) eqn:E1; [|destruct (str_cmp y z) eqn:E2|]; try done.
  - apply (ocmp_eq x y) in E1 as ->. done.
  - apply (ocmp_eq y z) in E2 as ->. by rewrite E1.
  - intros _ _. by rewrite (ocmp_trans x y z : str_cmp x y = Lt -> _ -> str_cmp x z = Lt).
Qed.

Lemma elem_of_insert_sorted x y l : y ∈ insert_sorted x l <-> y = x \/ y ∈ l.
Proof. induction l as [|z l IH]; simpl; [set_solver|]. case_match; set_solver. Qed.

Lemma insert_sorted_sorted x l :
  StronglySorted str_le l -> StronglySorted str_le (insert_sorted x l).
Proof.
  induction 1 as [|y l Hl IH Hall]; simpl; [repeat constructor|].
  destruct (str_cmp x y) eqn:E.
  3: { constructor; [done|]. apply Forall_forall. intros z [->|Hz]%elem_of_insert_sorted.
       - apply (ocmp_gt_lt x y) in E. by rewrite <-(@ocmp_gt_lt _ _ _ x y), ocmp_gt_lt in E;
           unfold str_le; rewrite (E : str_cmp y x = Lt).
       - rewrite Forall_forall in Hall. auto. }
  all: assert (Hxy : str_le x y) by (unfold str_le; congruence).
  all: constructor; [by constructor|]; constructor; [done|].
  all: eapply Forall_impl; [exact Hall|]; intros z Hz; by eapply str_le_trans.
Qed.

Lemma sort_strs_sorted l : StronglySorted str_le (sort_strs l).
Proof. induction l as [|x l IH]; simpl; [constructor|]. by apply insert_sorted_sorted. Qed.

Lemma elem_of_sort_strs l x : x ∈ sort_strs l <-> x ∈ l.
Proof.
  induction l as [|y l IH]; simpl; [done|].
  by rewrite elem_of_insert_sorted, elem_of_cons, IH.
Qed.

Lemma elem_of_dedup l x : x ∈ dedup l <-> x ∈ l.
Proof.
  induction l as [|z k IH]; [done|]. simpl. destruct (dedup k) as [|w r] eqn:E.
  - rewrite !elem_of_cons, <-IH. done.
  - case_bool_decide as Hzw; [subst w|]; rewrite !elem_of_cons, <-IH, !elem_of_cons; naive_solver.
Qed.

Lemma dedup_wf l : StronglySorted str_le l -> bt_wf (dedup l).
Proof.
  induction 1 as [|x l Hl IH Hall]; [constructor|]. simpl.
  destruct (dedup l) as [|y r] eqn:E; [repeat constructor|].
  case_bool_decide as Hxy; [done|].
  rewrite Forall_forall in Hall.
  assert (Hlt : forall z, z ∈ y :: r -> z <> x -> bt_lt x z).
  { intros z Hz Hne. rewrite <-E in Hz. apply elem_of_dedup, Hall in Hz.
    unfold bt_lt, ocmp, Str_ord, str_le in *. destruct (str_cmp x z) eqn:Ez; [|done..].
    apply (ocmp_eq x z) in Ez. congruence. }
  apply bt_wf_cons. split; [done|]. pose proof IH as [_ Hy]%bt_wf_cons.
  assert (Hxy' : bt_lt x y) by (apply Hlt; [by left|congruence]).
  constructor; [done|]. eapply Forall_impl; [exact Hy|]. intros z Hz. by eapply ocmp_trans.
Qed.

(** [sort] followed by [dedup] yields the ordered set of the elements ... *)
Lemma sort_dedup_wf l : bt_wf (dedup (sort_strs l)).
Proof. apply dedup_wf, sort_strs_sorted. Qed.

Lemma elem_of_sort_dedup l x : x ∈ dedup (sort_strs l) <-> x ∈ l.
Proof. by rewrite elem_of_dedup, elem_of_sort_strs. Qed.

(** ... and leaves an ordered set alone. *)
Lemma sort_dedup_id l : bt_wf l -> dedup (sort_strs l) = l.
Proof. intros Hl. apply bt_wf_ext; [apply sort_dedup_wf|done|apply elem_of_sort_dedup]. Qed.
