(* ===== verification/Float.v ===== *)
(** * Float: the IEEE-754 arithmetic of the scheduler and the retry policy

    [f64] and [f32] are values of the kernel-independent [spec_float] of the
    core library, rounded to the precision of the type.  The conversions follow
    Rust: integer-to-float rounds to nearest even, float-to-integer [as] casts
    truncate and saturate (NaN gives 0), [round] rounds half away from zero,
    and [powi] is the square-and-multiply loop of the compiler runtime. *)

From S2P Require Import Prelude.
From Stdlib Require Import SpecFloat.
Local Open Scope Z_scope.

Abbreviation f64 := spec_float (only parsing).
Abbreviation f32 := spec_float (only parsing).

Definition f64_of_N (n : N) : f64 := binary_normalize 53 1024 (Z.of_N n) 0 false.
Definition f64_mul (a b : f64) : f64 := SFmul 53 1024 a b.
Definition f64_add (a b : f64) : f64 := SFadd 53 1024 a b.
Definition f64_div (a b : f64) : f64 := SFdiv 53 1024 a b.
Definition f64_one : f64 := f64_of_N 1.
Definition f64_two : f64 := f64_of_N 2.
Definition f64_half : f64 := f64_div f64_one f64_two.
Definition f32_of_N (n : N) : f32 := binary_normalize 24 128 (Z.of_N n) 0 false.

(** [x as f64] of an [f32]: exact, every [f32] is an [f64]. *)
Definition f64_of_f32 (x : f32) : f64 :=
  match x with
  | S754_finite s m e => binary_round 53 1024 s m e
  | _ => x
  end.

(** [x > y], false when either is NaN. *)
Definition f_gt (x y : spec_float) : bool := SFltb y x.
Definition f_partial_cmp (x y : spec_float) : option comparison := SFcompare x y.

(** [f32::max(x, 0.0)]: the other operand when one is NaN. *)
Definition f32_max0 (x : f32) : f32 :=
  match x with
  | S754_nan => S754_zero false
  | _ => if SFltb (S754_zero false) x then x else S754_zero false
  end.

(** The integer part of a finite [m * 2^e], rounded down, with the flags
    "exact" and "at least half". *)
Definition floor_frac (m : positive) (e : Z) : Z * bool * bool :=
  if 0 <=? e then (Z.pos m * 2 ^ e, true, false)
  else
    let d := 2 ^ (- e) in
    let r := Z.pos m mod d in
    (Z.pos m / d, r =? 0, d <=? 2 * r).

Definition clamp_u64 (z : Z) : N := Z.to_N (Z.min (Z.max z 0) (Z.of_N u64_max)).

(** [x.round() as u64]. *)
Definition f64_round_as_u64 (x : f64) : N :=
  match x with
  | S754_nan | S754_zero _ => 0%N
  | S754_infinity s => if s then 0%N else u64_max
  | S754_finite s m e =>
      let '(fl, _, half) := floor_frac m e in
      let r := if half then fl + 1 else fl in
      clamp_u64 (if s then - r else r)
  end.

(** [x.ceil() as usize]. *)
Definition f64_ceil_as_usize (x : f64) : N :=
  match x with
  | S754_nan | S754_zero _ => 0%N
  | S754_infinity s => if s then 0%N else usize_max
  | S754_finite s m e =>
      let '(fl, exact, _) := floor_frac m e in
      if s then 0%N else clamp_u64 (if exact then fl else fl + 1)
  end.

(** The loop of [powi] over the bits of the exponent's absolute value. *)
Fixpoint powi_pos (r a : f64) (b : positive) : f64 :=
  match b with
  | xH => f64_mul r a
  | xO b' => powi_pos r (f64_mul a a) b'
  | xI b' => powi_pos (f64_mul r a) (f64_mul a a) b'
  end.

(** [f64::powi]. *)
Definition f64_powi (a : f64) (b : Z) : f64 :=
  match b with
  | Z0 => f64_one
  | Zpos p => powi_pos f64_one a p
  | Zneg p => f64_div f64_one (powi_pos f64_one a p)
  end.

(** [n as i32] of a [u32]: wraps around. *)
Definition u32_as_i32 (n : N) : Z :=
  if (n <? 2 ^ 31)%N then Z.of_N n else Z.of_N n - 2 ^ 32.

Lemma clamp_u64_le z : (clamp_u64 z <= u64_max)%N.
Proof. unfold clamp_u64, u64_max. lia. Qed.

Lemma f64_round_as_u64_le x : (f64_round_as_u64 x <= u64_max)%N.
Proof.
  destruct x as [| [] | | s m e]; simpl; try (unfold u64_max; lia).
  destruct (floor_frac m e) as [[fl ex] half]. apply clamp_u64_le.
Qed.
