(* ===== verification/FloatOrder.v ===== *)
(** * FloatOrder: the scheduler's load ratios are totally ordered

    [sort_by] demands a total order and [partial_cmp] is none on NaN.  The lemmas
    here show that the arithmetic of a load ratio (a quotient by a machine integer
    and a weighted, clamped percentage) never yields NaN, and that [partial_cmp] is
    a total preorder on the values it does yield. *)

From S2P Require Import Prelude Collections Float.
From Stdlib Require Import SpecFloat.
Local Open Scope Z_scope.

(** ** Comparisons that are total preorders on a domain *)

Record cmp_laws {A} (P : A -> Prop) (cmp : A -> A -> comparison) : Prop := {
  cl_opp : forall x y, P x -> P y -> cmp y x = CompOpp (cmp x y);
  cl_trans : forall x y z, P x -> P y -> P z -> cmp x y <> Gt -> cmp y z <> Gt -> cmp x z <> Gt
}.

Lemma cmp_laws_refl {A} (P : A -> Prop) cmp x : cmp_laws P cmp -> P x -> cmp x x = Eq.
Proof. intros Hl Hx. pose proof (cl_opp _ _ Hl x x Hx Hx) as He. by destruct (cmp x x). Qed.

Lemma cmp_laws_lt_trans {A} (P : A -> Prop) cmp x y z : cmp_laws P cmp -> P x -> P y -> P z ->
  cmp x y = Lt -> cmp y z <> Gt -> cmp x z = Lt.
Proof.
  intros Hl Hx Hy Hz Hxy Hyz. destruct (cmp x z) eqn:Hxz; [| done|]; exfalso.
  all: assert (Hzx : cmp z x <> Gt) by (rewrite (cl_opp _ _ Hl x z) by done; by rewrite Hxz).
  all: pose proof (cl_trans _ _ Hl y z x Hy Hz Hx Hyz Hzx) as Hyx; rewrite (cl_opp _ _ Hl x y) in Hyx by done; by rewrite Hxy in Hyx.
Qed.

Lemma cmp_laws_lt_trans_r {A} (P : A -> Prop) cmp x y z : cmp_laws P cmp -> P x -> P y -> P z ->
  cmp x y <> Gt -> cmp y z = Lt -> cmp x z = Lt.
Proof.
  intros Hl Hx Hy Hz Hxy Hyz. destruct (cmp x z) eqn:Hxz; [| done|]; exfalso.
  all: assert (Hzx : cmp z x <> Gt) by (rewrite (cl_opp _ _ Hl x z) by done; by rewrite Hxz).
  all: pose proof (cl_trans _ _ Hl z x y Hz Hx Hy Hzx Hxy) as Hzy; rewrite (cl_opp _ _ Hl y z) in Hzy by done; by rewrite Hyz in Hzy.
Qed.

Lemma cmp_laws_then {A} (P : A -> Prop) c1 c2 :
  cmp_laws P c1 -> cmp_laws P c2 -> cmp_laws P (fun x y => then_with (c1 x y) (c2 x y)).
Proof.
  intros H1 H2. split.
  - intros x y Hx Hy. rewrite then_with_opp. by rewrite (cl_opp _ _ H1 x y), (cl_opp _ _ H2 x y).
  - intros x y z Hx Hy Hz Hxy Hyz. destruct (c1 x y) eqn:Exy; [| |done].
    + destruct (c1 y z) eqn:Eyz; [| |done]; cbn in *.
      * assert (Hxz : c1 x z = Eq).
        { assert (c1 x z <> Gt) by (apply (cl_trans _ _ H1 x y z); congruence).
          assert (c1 z x <> Gt) as Hzx.
          { apply (cl_trans _ _ H1 z y x); try done.
            - by rewrite (cl_opp _ _ H1 y z), Eyz.
            - by rewrite (cl_opp _ _ H1 x y), Exy. }
          rewrite (cl_opp _ _ H1 x z) in Hzx by done. by destruct (c1 x z). }
        rewrite Hxz. cbn. by apply (cl_trans _ _ H2 x y z).
      * rewrite (cmp_laws_lt_trans_r P c1 x y z) by (done || congruence). done.
    + assert (Hyz' : c1 y z <> Gt) by (by destruct (c1 y z)).
      by rewrite (cmp_laws_lt_trans P c1 x y z).
Qed.

Lemma cmp_laws_key {A B} (P : A -> Prop) (Q : B -> Prop) (f : A -> B) cmp :
  (forall x, P x -> Q (f x)) -> cmp_laws Q cmp -> cmp_laws P (fun x y => cmp (f x) (f y)).
Proof. intros Hf [H1 H2]. split; eauto. Qed.

Lemma cmp_laws_flip {A} (P : A -> Prop) cmp : cmp_laws P cmp -> cmp_laws P (fun x y => cmp y x).
Proof. intros [H1 H2]. split; [auto|]. intros x y z Hx Hy Hz Hxy Hyz. by apply (H2 z y x). Qed.

Lemma cmp_laws_N (P : N -> Prop) : cmp_laws P N.compare.
Proof.
  split; [intros; apply N.compare_antisym|]. intros x y z _ _ _. rewrite !N.compare_gt_iff. lia.
Qed.

Lemma cmp_laws_Z (P : Z -> Prop) : cmp_laws P Z.compare.
Proof.
  split; [intros; apply Z.compare_antisym|]. intros x y z _ _ _. rewrite !Z.compare_gt_iff. lia.
Qed.

(** ** [partial_cmp] *)

(** The lexicographic key a comparison of floats inspects. *)
Definition f_key (x : spec_float) : Z * Z * Z :=
  match x with
  | S754_nan | S754_zero _ => (0, 0, 0)
  | S754_infinity s => (if s then -2 else 2, 0, 0)
  | S754_finite s m e => if s then (-1, - e, - Z.pos m) else (1, e, Z.pos m)
  end.

Definition key_cmp (a b : Z * Z * Z) : comparison :=
  then_with (Z.compare a.1.1 b.1.1) (then_with (Z.compare a.1.2 b.1.2) (Z.compare a.2 b.2)).

Lemma f_partial_cmp_key x y : x <> S754_nan -> y <> S754_nan -> f_partial_cmp x y = Some (key_cmp (f_key x) (f_key y)).
Proof.
  intros Hx Hy. destruct x as [|[] | |[] mx ex], y as [|[] | |[] my ey]; try done; unfold f_partial_cmp, SFcompare, key_cmp, f_key; cbn [fst snd]; f_equal.
  - change (-1 ?= -1) with Eq. cbn [then_with]. rewrite !Z.compare_opp. rewrite (Z.compare_antisym ex ey).
    destruct (ex ?= ey); cbn; try done. change (Pos.compare_cont Eq mx my) with (mx ?= my)%positive.
    by rewrite <-Pos.compare_antisym.
  - change (1 ?= 1) with Eq. cbn [then_with]. destruct (ex ?= ey); done.
Qed.

Lemma f_cmp_laws : cmp_laws (fun x => x <> S754_nan) (fun x y => default Eq (f_partial_cmp x y)).
Proof.
  assert (Hk : cmp_laws (fun _ => True) key_cmp).
  { unfold key_cmp. repeat apply cmp_laws_then; apply (cmp_laws_key _ (fun _ => True)); try done; apply cmp_laws_Z. }
  split.
  - intros x y Hx Hy. rewrite !f_partial_cmp_key by done. by apply (cl_opp _ _ Hk).
  - intros x y z Hx Hy Hz. rewrite !f_partial_cmp_key by done. by apply (cl_trans _ _ Hk).
Qed.

(** ** Values that are neither NaN nor negative *)

Definition nonneg_float (x : spec_float) : Prop :=
  match x with
  | S754_nan => False
  | S754_zero s | S754_infinity s | S754_finite s _ _ => s = false
  end.

Lemma nonneg_not_nan x : nonneg_float x -> x <> S754_nan.
Proof. by destruct x. Qed.

Lemma shr_1_half r : 0 <= shr_m r -> shr_m (shr_1 r) = shr_m r / 2.
Proof.
  destruct r as [[|p|p] b1 b2]; cbn [shr_m]; intros Hm; [done| |lia].
  destruct p as [p|p|]; cbn [shr_1 shr_m]; [| |done].
  - apply (Z.div_unique _ _ _ 1); lia.
  - apply (Z.div_unique _ _ _ 0); lia.
Qed.

Lemma iter_shr p : forall r, 0 <= shr_m r -> shr_m (iter_pos shr_1 p r) = shr_m r / 2 ^ Z.pos p.
Proof.
  assert (Hnn : forall a k, 0 <= a -> 0 <= k -> 0 <= a / 2 ^ k) by (intros; apply Z.div_pos; [done|by apply Z.pow_pos_nonneg]).
  induction p as [p IH|p IH|]; intros r Hr; cbn [iter_pos].
  - pose proof (shr_1_half r Hr) as H1. assert (0 <= shr_m (shr_1 r)) by (rewrite H1; apply Z.div_pos; lia).
    rewrite IH, IH by (rewrite ?IH; auto using Hnn with lia). rewrite H1, !Z.div_div by lia. f_equal.
    rewrite <-Z.pow_add_r, <-Z.pow_succ_r by lia. f_equal. lia.
  - rewrite IH, IH by (rewrite ?IH; auto using Hnn with lia). rewrite Z.div_div by lia. f_equal.
    rewrite <-Z.pow_add_r by lia. f_equal. lia.
  - apply shr_1_half. done.
Qed.

Lemma shr_record_of_loc_m m l : shr_m (shr_record_of_loc m l) = m.
Proof. by destruct l as [|[]]. Qed.

(** A shift by [n] halves the mantissa [n] times. *)
Lemma shr_spec m l e n : 0 <= m ->
  shr_m (shr (shr_record_of_loc m l) e n).1 = m / 2 ^ Z.max n 0 /\ (shr (shr_record_of_loc m l) e n).2 = e + Z.max n 0.
Proof.
  intros Hm. destruct n as [|p|p]; cbn [shr fst snd].
  - rewrite shr_record_of_loc_m. cbn. by rewrite Z.div_1_r, Z.add_0_r.
  - rewrite iter_shr by (by rewrite shr_record_of_loc_m). by rewrite shr_record_of_loc_m.
  - rewrite shr_record_of_loc_m. cbn. by rewrite Z.div_1_r, Z.add_0_r.
Qed.

Lemma round_even_range m l : m <= round_nearest_even m l <= m + 1.
Proof. destruct l as [|[]]; cbn; try case_match; lia. Qed.

Lemma binary_round_aux_nonneg prec emax m e l : 0 <= m -> nonneg_float (binary_round_aux prec emax false m e l).
Proof.
  intros Hm. unfold binary_round_aux, shr_fexp. set (n1 := _ - e). pose proof (shr_spec m l e n1 Hm) as [H1 _].
  destruct (shr _ e n1) as [r1 e1]. cbn [fst] in H1.
  assert (Hr1 : 0 <= shr_m r1) by (rewrite H1; apply Z.div_pos; [done|apply Z.pow_pos_nonneg; lia]).
  pose proof (round_even_range (shr_m r1) (loc_of_shr_record r1)) as Hre. set (m2 := round_nearest_even _ _) in *.
  set (n2 := _ - e1). pose proof (shr_spec m2 loc_Exact e1 n2 ltac:(lia)) as [H2 _]. destruct (shr _ e1 n2) as [r2 e2]. cbn [fst] in H2.
  assert (Hr2 : 0 <= shr_m r2) by (rewrite H2; apply Z.div_pos; [lia|apply Z.pow_pos_nonneg; lia]).
  destruct (shr_m r2); [done| |lia]. by case_match.
Qed.

Lemma binary_round_nonneg prec emax m e : nonneg_float (binary_round prec emax false m e).
Proof. unfold binary_round. destruct (shl_align _ _ _). by apply binary_round_aux_nonneg. Qed.

Lemma f64_of_N_nonneg n : nonneg_float (f64_of_N n).
Proof. destruct n; [done|]. apply binary_round_nonneg. Qed.

Lemma f64_add_nonneg x y : nonneg_float x -> nonneg_float y -> nonneg_float (f64_add x y).
Proof.
  destruct x as [s|s| |s m e], y as [s'|s'| |s' m' e']; cbn [nonneg_float]; intros Hs Hs'; subst; try done.
  unfold f64_add, SFadd. cbn [cond_Zopp]. cbn [Z.add binary_normalize]. apply binary_round_nonneg.
Qed.

Lemma f64_mul_nonneg x m e : nonneg_float x -> nonneg_float (f64_mul (S754_finite false m e) x).
Proof. destruct x as [s|s| |s m' e']; cbn [nonneg_float]; intros Hs; subst; try done. by apply binary_round_aux_nonneg. Qed.

Lemma f64_div_nonneg x m e : nonneg_float x -> nonneg_float (f64_div x (S754_finite false m e)).
Proof.
  destruct x as [s|s| |s m' e']; cbn [nonneg_float]; intros Hs; subst; try done.
  unfold f64_div, SFdiv. unfold SFdiv_core_binary. cbn [xorb]. set (num := match _ with Z0 => _ | _ => _ end).
  assert (Hnum : 0 <= num) by (unfold num; case_match; [done|apply Z.shiftl_nonneg; done|done]).
  pose proof (Z_div_mod num (Z.pos m) ltac:(lia)) as Hq. destruct (Z.div_eucl num (Z.pos m)) as [q r].
  apply binary_round_aux_nonneg. nia.
Qed.

Lemma f64_of_f32_max0_nonneg x : nonneg_float (f64_of_f32 (f32_max0 x)).
Proof.
  destruct x as [s|s| |s m e]; cbn; try done.
  - by destruct s.
  - destruct s; cbn; [done|]. apply binary_round_nonneg.
Qed.

(** ** Machine integers convert to finite, non-zero floats *)

Lemma digits2_bounds p : 2 ^ (Z.pos (digits2_pos p) - 1) <= Z.pos p < 2 ^ Z.pos (digits2_pos p).
Proof.
  induction p as [p IH|p IH|]; [| |done].
  all: cbn [digits2_pos]; rewrite Pos2Z.inj_succ, Z.pow_succ_r by lia.
  all: replace (Z.succ (Z.pos (digits2_pos p)) - 1) with (Z.succ (Z.pos (digits2_pos p) - 1)) by lia.
  all: rewrite Z.pow_succ_r by lia; lia.
Qed.

Lemma digits2_le p k : 0 <= k -> Z.pos p < 2 ^ k -> Z.pos (digits2_pos p) <= k.
Proof.
  intros Hk Hp. destruct (Z.le_gt_cases (Z.pos (digits2_pos p)) k) as [|Hgt]; [done|].
  pose proof (digits2_bounds p) as [Hlo _]. pose proof (Z.pow_le_mono_r 2 k (Z.pos (digits2_pos p) - 1)). lia.
Qed.

(** Dropping the digits beyond the 53rd leaves at least one. *)
Lemma drop_digits_pos p : 1 <= Z.pos p / 2 ^ Z.max (Z.pos (digits2_pos p) - 53) 0.
Proof.
  pose proof (digits2_bounds p) as [Hlo _].
  apply Z.div_le_lower_bound; [apply Z.pow_pos_nonneg; lia|]. rewrite Z.mul_1_r.
  etransitivity; [|exact Hlo]. apply Z.pow_le_mono_r; lia.
Qed.

(** The precision of an [f64] is the excess over 53 digits in this range. *)
Lemma fexp_excess p e : -53 <= e <= 11 -> fexp 53 1024 (Z.pos (digits2_pos p) + e) - e = Z.pos (digits2_pos p) - 53.
Proof. intros He. unfold fexp, emin. lia. Qed.

Lemma round_aux_finite m e : Z.pos m < 2 ^ 64 -> -53 <= e <= 0 ->
  exists m' e', binary_round_aux 53 1024 false (Z.pos m) e loc_Exact = S754_finite false m' e'.
Proof.
  intros Hm He. unfold binary_round_aux, shr_fexp. cbn [Zdigits2]. rewrite fexp_excess by lia.
  pose proof (digits2_le m 64 ltac:(lia) Hm) as Hd. set (n1 := Z.pos (digits2_pos m) - 53) in *.
  pose proof (shr_spec (Z.pos m) loc_Exact e n1 ltac:(lia)) as [H1 He1].
  destruct (shr _ e n1) as [r1 e1]. cbn [fst snd] in H1, He1.
  assert (Hlo1 : 1 <= shr_m r1) by (rewrite H1; apply drop_digits_pos).
  assert (Hhi1 : shr_m r1 <= Z.pos m).
  { rewrite H1. apply Z.div_le_upper_bound; [apply Z.pow_pos_nonneg; lia|].
    pose proof (Z.pow_pos_nonneg 2 (Z.max n1 0)). nia. }
  pose proof (round_even_range (shr_m r1) (loc_of_shr_record r1)) as Hre. set (m2 := round_nearest_even _ _) in *.
  destruct m2 as [|p2|p2]; try lia. cbn [Zdigits2].
  assert (Hd2 : Z.pos (digits2_pos p2) <= 65) by (apply digits2_le; lia).
  rewrite fexp_excess by lia. pose proof (shr_spec (Z.pos p2) loc_Exact e1 (Z.pos (digits2_pos p2) - 53) ltac:(lia)) as [H2 He2].
  destruct (shr _ e1 _) as [r2 e2]. cbn [fst snd] in H2, He2. pose proof (drop_digits_pos p2) as Hlo2. rewrite <-H2 in Hlo2.
  destruct (shr_m r2) as [|m'|m']; try lia. destruct (Z.leb_spec e2 (1024 - 53)); [by eexists _, _|lia].
Qed.

Lemma iter_xO m d : Z.pos (Pos.iter xO m d) = Z.pos m * 2 ^ Z.pos d.
Proof.
  induction d as [|d IH] using Pos.peano_ind; [cbn; lia|].
  rewrite Pos.iter_succ, Pos2Z.inj_succ, Z.pow_succ_r by lia. rewrite Pos2Z.inj_xO, IH. lia.
Qed.

Lemma f64_of_N_finite n : (1 <= n < 2 ^ 64)%N -> exists m e, f64_of_N n = S754_finite false m e.
Proof.
  intros Hn. destruct n as [|p]; [lia|]. unfold f64_of_N. cbn [Z.of_N binary_normalize]. unfold binary_round.
  assert (Hp : Z.pos p < 2 ^ 64) by lia. pose proof (digits2_le p 64 ltac:(lia) Hp) as Hd.
  pose proof (fexp_excess p 0 ltac:(lia)) as Hf. rewrite Z.sub_0_r in Hf. rewrite Hf. unfold shl_align. rewrite Z.sub_0_r.
  pose proof (digits2_bounds p) as [_ Hhi].
  destruct (Z.pos (digits2_pos p) - 53) as [|d|d] eqn:Hs; try (apply round_aux_finite; lia).
  apply round_aux_finite; [|lia]. rewrite iter_xO.
  apply Z.lt_le_trans with (2 ^ Z.pos (digits2_pos p) * 2 ^ Z.pos d); [apply Z.mul_lt_mono_pos_r; lia|].
  rewrite <-Z.pow_add_r by lia. apply Z.pow_le_mono_r; lia.
Qed.
