(* ===== verification/Capabilities.v ===== *)
(** * Capabilities: worker hardware descriptors and mobile load shedding

    Models the data of [crates/core/src/capabilities.rs] and the battery and
    thermal rules that cap the concurrency of a phone, and the feature bit set
    of [crates/core/src/protocol.rs].  A [Duration] is a number of nanoseconds.
    Host probing (subprocesses, sysfs) is not modelled. *)

From S2P Require Import Prelude Collections RustStr Float.
Local Open Scope N_scope.

Abbreviation Duration := N (only parsing).
Definition duration_max : Duration := u64_max * 10 ^ 9 + 999999999.
Definition from_secs (s : N) : Duration := s * 10 ^ 9.
Definition from_millis (ms : N) : Duration := ms * 10 ^ 6.
Definition duration_mul (d : Duration) (k : N) : Duration := saturating_mul duration_max d k.

(** ** Tiers *)

Inductive BatteryTier := BatNormal | BatLow | BatSubLow | BatCritical.
Inductive ThermalTier := ThermNormal | ThermWarm | ThermHot | ThermCritical.

#[global] Instance BatteryTier_eq : EqDecision BatteryTier.
Proof. solve_decision. Defined.
#[global] Instance ThermalTier_eq : EqDecision ThermalTier.
Proof. solve_decision. Defined.

Record MobileCapabilities := {
  mob_os_version : Str;
  mob_soc_model : Str;
  mob_battery_pct : option N;
  mob_is_charging : option bool;
  mob_thermal_throttled : bool
}.

#[global] Instance MobileCapabilities_eq : EqDecision MobileCapabilities.
Proof. solve_decision. Defined.

Record MobileLiveStatus := {
  live_battery_pct : option N;
  live_is_charging : option bool;
  live_thermal_throttled : bool;
  live_battery_temperature : option f32;
  live_network_type : option Str;
  live_battery_tier : option BatteryTier;
  live_thermal_tier : option ThermalTier
}.

Definition with_live_status (m : MobileCapabilities) (s : MobileLiveStatus) : MobileCapabilities := {|
  mob_os_version := mob_os_version m;
  mob_soc_model := mob_soc_model m;
  mob_battery_pct := live_battery_pct s;
  mob_is_charging := live_is_charging s;
  mob_thermal_throttled := live_thermal_throttled s
|}.

Definition live_status (m : MobileCapabilities) : MobileLiveStatus := {|
  live_battery_pct := mob_battery_pct m;
  live_is_charging := mob_is_charging m;
  live_thermal_throttled := mob_thermal_throttled m;
  live_battery_temperature := None;
  live_network_type := None;
  live_battery_tier := None;
  live_thermal_tier := None
|}.

Definition compute_battery_tier (pct : option N) (is_charging : option bool) : BatteryTier :=
  if default false is_charging then BatNormal
  else match pct with
       | Some p =>
           if 50 <=? p then BatNormal
           else if 30 <=? p then BatLow
           else if 15 <=? p then BatSubLow
           else BatCritical
       | None => BatNormal
       end.

Definition compute_thermal_tier (temp : option f32) (thermal_throttled : bool) : ThermalTier :=
  match temp with
  | Some t =>
      if f_gt t (f32_of_N 42) then ThermCritical
      else if f_gt t (f32_of_N 40) then ThermHot
      else if f_gt t (f32_of_N 37) || thermal_throttled then ThermWarm
      else ThermNormal
  | None => if thermal_throttled then ThermWarm else ThermNormal
  end.

Definition calculate_effective_concurrency (max_cores : N) (bat : BatteryTier) (therm : ThermalTier) : N :=
  let c_bat := match bat with
    | BatNormal => max_cores
    | BatLow => N.max (max_cores / 2) 1
    | BatSubLow => 1
    | BatCritical => 0
    end in
  let c_therm := match therm with
    | ThermNormal => max_cores
    | ThermWarm => N.max (max_cores / 2) 1
    | ThermHot => 1
    | ThermCritical => 0
    end in
  N.min c_bat c_therm.

Definition effective_concurrency (s : MobileLiveStatus) (max_cores : N) : N :=
  let bat := default (compute_battery_tier (live_battery_pct s) (live_is_charging s))
                     (live_battery_tier s) in
  let therm := default (compute_thermal_tier (live_battery_temperature s) (live_thermal_throttled s))
                       (live_thermal_tier s) in
  calculate_effective_concurrency max_cores bat therm.

(** The substrings that mark a cellular network (both copies of the list). *)
Definition cellular_markers : list Str :=
  [str "cellular"; str "mobile"; str "lte"; str "5g"; str "4g"; str "3g"; str "cgnat"].

Definition is_cellular_network (net : Str) : bool :=
  let n := to_ascii_lowercase net in existsb (fun p => contains p n) cellular_markers.

Definition calculate_keepalive_interval (network_type : Str) (active_tasks : N) : Duration :=
  if is_cellular_network network_type then
    if 0 <? active_tasks then from_secs 10 else from_secs 25
  else from_secs 60.

Definition recommended_keepalive_interval (s : MobileLiveStatus) (active_tasks : N) : Duration :=
  let is_cellular := match live_network_type s with
    | Some net => is_cellular_network net
    | None => false
    end in
  if is_cellular then
    if 0 <? active_tasks then from_secs 10 else from_secs 25
  else from_secs 60.

(** ** Workers *)

Record WorkerCapabilities := {
  cap_name : Str;
  cap_cpu_cores : N;
  cap_ram_mb : N;
  cap_has_gpu : bool;
  cap_is_simulated_gpu : bool;
  cap_gpu_device_name : option Str;
  cap_tags : list Str;
  cap_mobile : option MobileCapabilities;
  cap_has_blender : bool;
  cap_blender_version : option Str;
  cap_vram_mb : option N;
  cap_has_cuda : bool
}.

Definition can_execute_gpu (c : WorkerCapabilities) : bool := cap_has_gpu c || cap_is_simulated_gpu c.

(** [WorkerCapabilities { mobile, ..c }]. *)
Definition set_mobile (m : option MobileCapabilities) (c : WorkerCapabilities) : WorkerCapabilities := {|
  cap_name := cap_name c; cap_cpu_cores := cap_cpu_cores c; cap_ram_mb := cap_ram_mb c;
  cap_has_gpu := cap_has_gpu c; cap_is_simulated_gpu := cap_is_simulated_gpu c;
  cap_gpu_device_name := cap_gpu_device_name c; cap_tags := cap_tags c; cap_mobile := m;
  cap_has_blender := cap_has_blender c; cap_blender_version := cap_blender_version c;
  cap_vram_mb := cap_vram_mb c; cap_has_cuda := cap_has_cuda c
|}.

(** ** Negotiated protocol features, a [u64] bit set *)

Abbreviation ProtocolCapabilities := N (only parsing).
Definition FILE_STAGING : ProtocolCapabilities := 2 ^ 6.
Definition BLOB_TRANSFER : ProtocolCapabilities := 2 ^ 9.
Definition features_contain (have want : ProtocolCapabilities) : bool := N.land have want =? want.
Definition features_insert (f g : ProtocolCapabilities) : ProtocolCapabilities := N.lor f g.

Lemma features_contain_bit have want i :
  features_contain have want = true -> N.testbit want i = true -> N.testbit have i = true.
Proof.
  unfold features_contain. rewrite N.eqb_eq. intros <-. rewrite N.land_spec. by intros [? _]%andb_true_iff.
Qed.

(** The cap never exceeds the core count of a device with at least one core. *)
Lemma calculate_effective_concurrency_le cores bat therm :
  1 <= cores -> calculate_effective_concurrency cores bat therm <= cores.
Proof.
  intros. unfold calculate_effective_concurrency.
  assert (cores / 2 <= cores) by (apply N.Div0.div_le_upper_bound; lia).
  destruct bat, therm; lia.
Qed.

(** Zero exactly in a critical tier (of a device with at least one core). *)
Lemma calculate_effective_concurrency_zero cores bat therm :
  1 <= cores ->
  calculate_effective_concurrency cores bat therm = 0 <-> bat = BatCritical \/ therm = ThermCritical.
Proof.
  intros. unfold calculate_effective_concurrency.
  destruct bat, therm; split; intros; try lia; naive_solver lia.
Qed.
