(* ===== verification/Placement.v ===== *)
(** * Placement: task placement constraints and worker tags

    Models [crates/core/src/placement.rs].  The [uuid] crate is an interface:
    [UuidApi] gives its printing and parsing, [UuidLaws] the documented facts
    used about them. *)

From S2P Require Import Prelude Collections RustStr Float Capabilities.
Local Open Scope N_scope.

Abbreviation Uuid := N (only parsing).

(** Printing and parsing of UUIDs (crate [uuid]). *)
Class UuidApi := {
  uuid_to_string : Uuid -> Str;
  uuid_parse : Str -> option Uuid
}.

(** The hyphenated form has 36 characters and parses back. *)
Class UuidLaws `{UuidApi} := {
  uuid_to_string_len : forall u, str_len (uuid_to_string u) = 36;
  uuid_parse_to_string : forall u, u < 2 ^ 128 -> uuid_parse (uuid_to_string u) = Some u
}.

Definition REQUIRE_PREFIX : Str := str "require:".
Definition OS_TAG_PREFIX : Str := str "os:".
Definition ARCH_TAG_PREFIX : Str := str "arch:".
Definition SLOTS_TAG_PREFIX : Str := str "slots:".
Definition LINK_TAG_PREFIX : Str := str "link:".
Definition ID_TAG_PREFIX : Str := str "id:".
Definition STATE_TAG_PREFIX : Str := str "state:".
Definition RESERVED_TAG_PREFIXES : list Str :=
  [OS_TAG_PREFIX; ARCH_TAG_PREFIX; SLOTS_TAG_PREFIX; LINK_TAG_PREFIX; ID_TAG_PREFIX; STATE_TAG_PREFIX].
Definition MAX_USER_TAG_LEN : N := 64.

(** Why a worker tag or a constraint is refused (one constructor per message). *)
Inductive TagError :=
| TagEmpty
| TagTooLong
| TagIllegalChar
| TagReservedPrefix (prefix : Str).

Inductive PlacementError :=
| NotKeyValue (tag : Str)
| EmptyValue (tag : Str)
| BadUserTag (tag : Str) (e : TagError)
| UnknownKey (key tag : Str)
| GivenTwice (key : Str).

Definition validate_user_tag (tag : Str) : result TagError unit :=
  if is_empty tag then Err TagEmpty
  else if MAX_USER_TAG_LEN <? str_len tag then Err TagTooLong
  else if existsb (fun c => is_whitespace c || (c =? chr "=") || (c =? chr ",")) tag then Err TagIllegalChar
  else match List.find (fun p => starts_with p tag) RESERVED_TAG_PREFIXES with
       | Some prefix => Err (TagReservedPrefix prefix)
       | None => Ok tt
       end.

(** The value of the first tag that starts with [prefix]. *)
Fixpoint tag_value (tags : list Str) (prefix : Str) : option Str :=
  match tags with
  | [] => None
  | t :: tags' => match strip_prefix prefix t with Some v => Some v | None => tag_value tags' prefix end
  end.

Definition advertised_slots (caps : WorkerCapabilities) : option N :=
  match tag_value (cap_tags caps) SLOTS_TAG_PREFIX ≫= parse_usize with
  | Some n => if 1 <=? n then Some n else None
  | None => None
  end.

Definition str_in (s : Str) (l : list string) : bool := bool_decide (s ∈ (str <$> l)).

Definition normalize_os (value : Str) : Str :=
  let lower := to_ascii_lowercase value in
  if str_in lower ["mac"; "darwin"; "osx"; "macosx"] then str "macos"
  else if str_in lower ["win"; "win32"; "win64"] then str "windows"
  else lower.

Definition normalize_arch (value : Str) : Str :=
  let lower := to_ascii_lowercase value in
  if str_in lower ["amd64"; "x64"; "x86-64"] then str "x86_64"
  else if str_in lower ["arm64"] then str "aarch64"
  else if str_in lower ["i386"; "i686"] then str "x86"
  else lower.

Record Placement := {
  pl_os : option Str;
  pl_arch : option Str;
  pl_worker : option Str;
  pl_tags : list Str
}.

#[global] Instance Placement_eq : EqDecision Placement.
Proof. solve_decision. Defined.

Definition placement_default : Placement := {| pl_os := None; pl_arch := None; pl_worker := None; pl_tags := [] |}.

Definition is_none {A} (o : option A) : bool := match o with None => true | Some _ => false end.

Definition placement_is_empty (p : Placement) : bool :=
  is_none (pl_os p) && is_none (pl_arch p) && is_none (pl_worker p) && is_empty (pl_tags p).

(** One iteration of the loop of [from_task_tags]. *)
Definition placement_step (p : Placement) (tag : Str) : result PlacementError Placement :=
  match strip_prefix REQUIRE_PREFIX tag with
  | None => Ok p
  | Some constraint =>
      match split_once (chr "=") constraint with
      | None => Err (NotKeyValue tag)
      | Some (key, value) =>
          if is_empty value then Err (EmptyValue tag)
          else if bool_decide (key = str "os") then
            match pl_os p with
            | Some _ => Err (GivenTwice key)
            | None => Ok {| pl_os := Some (normalize_os value); pl_arch := pl_arch p;
                            pl_worker := pl_worker p; pl_tags := pl_tags p |}
            end
          else if bool_decide (key = str "arch") then
            match pl_arch p with
            | Some _ => Err (GivenTwice key)
            | None => Ok {| pl_os := pl_os p; pl_arch := Some (normalize_arch value);
                            pl_worker := pl_worker p; pl_tags := pl_tags p |}
            end
          else if bool_decide (key = str "worker") then
            match pl_worker p with
            | Some _ => Err (GivenTwice key)
            | None => Ok {| pl_os := pl_os p; pl_arch := pl_arch p;
                            pl_worker := Some value; pl_tags := pl_tags p |}
            end
          else if bool_decide (key = str "tag") then
            match validate_user_tag value with
            | Err e => Err (BadUserTag tag e)
            | Ok _ => Ok {| pl_os := pl_os p; pl_arch := pl_arch p; pl_worker := pl_worker p;
                            pl_tags := pl_tags p ++ [value] |}
            end
          else Err (UnknownKey key tag)
      end
  end.

Fixpoint placement_fold (p : Placement) (task_tags : list Str) : result PlacementError Placement :=
  match task_tags with
  | [] => Ok p
  | t :: ts => match placement_step p t with Ok p' => placement_fold p' ts | Err e => Err e end
  end.

Definition from_task_tags (task_tags : list Str) : result PlacementError Placement :=
  match placement_fold placement_default task_tags with
  | Ok p => Ok {| pl_os := pl_os p; pl_arch := pl_arch p; pl_worker := pl_worker p;
                  pl_tags := dedup (sort_strs (pl_tags p)) |}
  | Err e => Err e
  end.

Definition to_task_tags (p : Placement) : list Str :=
  (match pl_os p with Some os => [REQUIRE_PREFIX ++ str "os=" ++ os] | None => [] end)
  ++ (match pl_arch p with Some arch => [REQUIRE_PREFIX ++ str "arch=" ++ arch] | None => [] end)
  ++ (match pl_worker p with Some w => [REQUIRE_PREFIX ++ str "worker=" ++ w] | None => [] end)
  ++ map (fun tag => REQUIRE_PREFIX ++ str "tag=" ++ tag) (pl_tags p).

(** The closure [has_value] of [Placement::matches]. *)
Definition has_value (worker_tags : list Str) (prefix wanted : Str) (normalize : Str -> Str) : bool :=
  existsb (fun v => bool_decide (normalize v = wanted)) (omap (strip_prefix prefix) worker_tags).

Definition placement_matches `{UuidApi} (p : Placement) (worker_id : Uuid) (worker_name : Str)
    (worker_tags : list Str) : bool :=
  (match pl_os p with Some os => has_value worker_tags OS_TAG_PREFIX os normalize_os | None => true end)
  && (match pl_arch p with Some arch => has_value worker_tags ARCH_TAG_PREFIX arch normalize_arch | None => true end)
  && (match pl_worker p with
      | Some w => bool_decide (uuid_parse w = Some worker_id) || eq_ignore_ascii_case worker_name w
      | None => true
      end)
  && forallb (fun wanted => bool_decide (wanted ∈ worker_tags)) (pl_tags p).

Definition listed_worker_id `{UuidApi} (caps : WorkerCapabilities) : option Uuid :=
  tag_value (cap_tags caps) ID_TAG_PREFIX ≫= uuid_parse.

Definition matches_listed `{UuidApi} (p : Placement) (caps : WorkerCapabilities) : bool :=
  placement_matches p (default 0 (listed_worker_id caps)) (cap_name caps) (cap_tags caps).

(** ** Facts *)

(** The placements [from_task_tags] can produce: canonical names, sorted valid
    tags without duplicates. *)
Record placement_wf (p : Placement) : Prop := {
  wf_os : forall os, pl_os p = Some os -> os <> [] /\ normalize_os os = os;
  wf_arch : forall a, pl_arch p = Some a -> a <> [] /\ normalize_arch a = a;
  wf_worker : forall w, pl_worker p = Some w -> w <> [];
  wf_tags_valid : Forall (fun t => validate_user_tag t = Ok tt) (pl_tags p)
}.

Lemma ascii_lower_idem c : ascii_lower (ascii_lower c) = ascii_lower c.
Proof.
  unfold ascii_lower at 2 3.
  destruct (N.leb_spec 65 c), (N.leb_spec c 90); cbn [andb]; unfold ascii_lower; n_decide; lia.
Qed.

Lemma to_ascii_lowercase_idem s : to_ascii_lowercase (to_ascii_lowercase s) = to_ascii_lowercase s.
Proof. unfold to_ascii_lowercase. rewrite map_map. apply map_ext, ascii_lower_idem. Qed.

Lemma str_in_false s l : str_in s l = false -> s ∉ (str <$> l).
Proof. unfold str_in. by case_bool_decide. Qed.

Lemma normalize_os_idem v : normalize_os (normalize_os v) = normalize_os v.
Proof.
  unfold normalize_os. destruct (str_in (to_ascii_lowercase v) _) eqn:E1; [done|].
  destruct (str_in (to_ascii_lowercase v) ["win"; _; _]) eqn:E2; [done|].
  by rewrite to_ascii_lowercase_idem, E1, E2.
Qed.

Lemma normalize_arch_idem v : normalize_arch (normalize_arch v) = normalize_arch v.
Proof.
  unfold normalize_arch. destruct (str_in (to_ascii_lowercase v) _) eqn:E1; [done|].
  destruct (str_in (to_ascii_lowercase v) ["arm64"]) eqn:E2; [done|].
  destruct (str_in (to_ascii_lowercase v) ["i386"; _]) eqn:E3; [done|].
  by rewrite to_ascii_lowercase_idem, E1, E2, E3.
Qed.

Lemma to_ascii_lowercase_nil s : to_ascii_lowercase s = [] -> s = [].
Proof. by destruct s. Qed.

Lemma normalize_os_nil v : normalize_os v = [] -> v = [].
Proof. unfold normalize_os. repeat case_match; [done..|apply to_ascii_lowercase_nil]. Qed.

Lemma normalize_arch_nil v : normalize_arch v = [] -> v = [].
Proof. unfold normalize_arch. repeat case_match; [done..|apply to_ascii_lowercase_nil]. Qed.

Lemma is_empty_false {A} (l : list A) : is_empty l = false <-> l <> [].
Proof. by destruct l. Qed.

Lemma placement_step_wf p t p' : placement_wf p -> placement_step p t = Ok p' -> placement_wf p'.
Proof.
  intros [] Hs. unfold placement_step in Hs.
  repeat case_match; simplify_eq; split; simpl; try done; intros; simplify_eq;
    try (split; [|by apply normalize_os_idem || by apply normalize_arch_idem]);
    try (intros ?%normalize_os_nil || intros ?%normalize_arch_nil; subst; done);
    try by apply is_empty_false.
  apply Forall_app. split; [done|]. constructor; [|done].
  match goal with H : validate_user_tag _ = Ok ?u |- _ => by destruct u end.
Qed.

Lemma placement_fold_wf p ts p' : placement_wf p -> placement_fold p ts = Ok p' -> placement_wf p'.
Proof.
  revert p. induction ts as [|t ts IH]; simpl; intros p Hwf; [naive_solver|].
  destruct (placement_step p t) as [q|e] eqn:E; [|done]. intros. eapply IH; [|done].
  by eapply placement_step_wf.
Qed.

Lemma placement_default_wf : placement_wf placement_default.
Proof. by split. Qed.

Lemma from_task_tags_wf ts p : from_task_tags ts = Ok p -> placement_wf p /\ bt_wf (pl_tags p).
Proof.
  unfold from_task_tags. destruct (placement_fold _ _) as [q|] eqn:E; [|done]. intros; simplify_eq/=.
  apply placement_fold_wf in E as [Hos Harch Hw Ht]; [|apply placement_default_wf].
  split; [|apply sort_dedup_wf]. split; simpl; [exact Hos|exact Harch|exact Hw|].
  rewrite Forall_forall in Ht |- *. intros x. rewrite elem_of_sort_dedup. apply Ht.
Qed.

Lemma placement_fold_app p ts us :
  placement_fold p (ts ++ us)
  = match placement_fold p ts with Ok q => placement_fold q us | Err e => Err e end.
Proof.
  revert p. induction ts as [|t ts IH]; simpl; intros p; [done|].
  destruct (placement_step p t); [apply IH|done].
Qed.

(** How [from_task_tags] reads one tag that [to_task_tags] wrote. *)
Lemma placement_step_require p key v :
  chr "=" ∉ str key -> v <> [] ->
  placement_step p (REQUIRE_PREFIX ++ str key ++ [chr "="] ++ v)
  = if bool_decide (str key = str "os") then
      match pl_os p with Some _ => Err (GivenTwice (str key)) | None =>
        Ok {| pl_os := Some (normalize_os v); pl_arch := pl_arch p; pl_worker := pl_worker p; pl_tags := pl_tags p |} end
    else if bool_decide (str key = str "arch") then
      match pl_arch p with Some _ => Err (GivenTwice (str key)) | None =>
        Ok {| pl_os := pl_os p; pl_arch := Some (normalize_arch v); pl_worker := pl_worker p; pl_tags := pl_tags p |} end
    else if bool_decide (str key = str "worker") then
      match pl_worker p with Some _ => Err (GivenTwice (str key)) | None =>
        Ok {| pl_os := pl_os p; pl_arch := pl_arch p; pl_worker := Some v; pl_tags := pl_tags p |} end
    else if bool_decide (str key = str "tag") then
      match validate_user_tag v with
      | Err e => Err (BadUserTag (REQUIRE_PREFIX ++ str key ++ [chr "="] ++ v) e)
      | Ok _ => Ok {| pl_os := pl_os p; pl_arch := pl_arch p; pl_worker := pl_worker p; pl_tags := pl_tags p ++ [v] |}
      end
    else Err (UnknownKey (str key) (REQUIRE_PREFIX ++ str key ++ [chr "="] ++ v)).
Proof.
  intros Hk Hv. unfold placement_step. rewrite strip_prefix_app.
  change ([chr "="] ++ v) with (chr "=" :: v). rewrite split_once_app by done.
  apply is_empty_false in Hv. by rewrite Hv.
Qed.

Lemma fold_os p v :
  pl_os p = None -> v <> [] -> normalize_os v = v ->
  placement_step p (REQUIRE_PREFIX ++ str "os=" ++ v)
  = Ok {| pl_os := Some v; pl_arch := pl_arch p; pl_worker := pl_worker p; pl_tags := pl_tags p |}.
Proof.
  intros Hn Hv Hnorm. change (str "os=" ++ v) with (str "os" ++ [chr "="] ++ v).
  rewrite placement_step_require by (done || by apply (bool_decide_unpack _)).
  decide_literals. by rewrite Hn, Hnorm.
Qed.

Lemma fold_arch p v :
  pl_arch p = None -> v <> [] -> normalize_arch v = v ->
  placement_step p (REQUIRE_PREFIX ++ str "arch=" ++ v)
  = Ok {| pl_os := pl_os p; pl_arch := Some v; pl_worker := pl_worker p; pl_tags := pl_tags p |}.
Proof.
  intros Hn Hv Hnorm. change (str "arch=" ++ v) with (str "arch" ++ [chr "="] ++ v).
  rewrite placement_step_require by (done || by apply (bool_decide_unpack _)).
  decide_literals. by rewrite Hn, Hnorm.
Qed.

Lemma fold_worker p v :
  pl_worker p = None -> v <> [] ->
  placement_step p (REQUIRE_PREFIX ++ str "worker=" ++ v)
  = Ok {| pl_os := pl_os p; pl_arch := pl_arch p; pl_worker := Some v; pl_tags := pl_tags p |}.
Proof.
  intros Hn Hv. change (str "worker=" ++ v) with (str "worker" ++ [chr "="] ++ v).
  rewrite placement_step_require by (done || by apply (bool_decide_unpack _)).
  decide_literals. by rewrite Hn.
Qed.

Lemma fold_user_tags p tags :
  Forall (fun t => validate_user_tag t = Ok tt) tags ->
  placement_fold p (map (fun tag => REQUIRE_PREFIX ++ str "tag=" ++ tag) tags)
  = Ok {| pl_os := pl_os p; pl_arch := pl_arch p; pl_worker := pl_worker p; pl_tags := pl_tags p ++ tags |}.
Proof.
  intros Hall. revert p. induction Hall as [|t ts Ht Hall IH]; intros p; cbn [map placement_fold].
  - rewrite app_nil_r. by destruct p.
  - assert (t <> []) by (intros ->; done).
    change (str "tag=" ++ t) with (str "tag" ++ [chr "="] ++ t).
    rewrite placement_step_require by (done || by apply (bool_decide_unpack _)).
    decide_literals. rewrite Ht, IH. cbn. by rewrite <-app_assoc.
Qed.

(** Reading the tags written for a well-formed placement gives it back, also
    behind unrelated task tags. *)
Lemma from_to_task_tags p other :
  placement_wf p -> bt_wf (pl_tags p) ->
  Forall (fun t => strip_prefix REQUIRE_PREFIX t = None) other ->
  from_task_tags (other ++ to_task_tags p) = Ok p.
Proof.
  intros [Hos Harch Hw Ht] Hsort Hother.
  assert (Hskip : forall q, placement_fold q other = Ok q).
  { clear -Hother. induction Hother as [|t ts Ht Hall IH]; intros q; simpl; [done|].
    unfold placement_step. by rewrite Ht. }
  unfold from_task_tags. rewrite placement_fold_app, Hskip. unfold to_task_tags.
  destruct p as [os arch w tags]; cbn [pl_os pl_arch pl_worker pl_tags] in *.
  destruct os as [os|]; [destruct (Hos os) as [? Hos']; [done|]|];
  (destruct arch as [arch|]; [destruct (Harch arch) as [? Harch']; [done|]|]);
  (destruct w as [w|]; [specialize (Hw w eq_refl)|]); cbn [app placement_fold];
  repeat (first [rewrite fold_os by done | rewrite fold_arch by done | rewrite fold_worker by done];
          cbn [app placement_fold]);
  rewrite fold_user_tags by done; simpl; rewrite sort_dedup_id by done; congruence.
Qed.

(** A tag an operator may set never carries a reserved prefix. *)
Lemma validate_user_tag_not_reserved t prefix :
  validate_user_tag t = Ok tt -> prefix ∈ RESERVED_TAG_PREFIXES -> strip_prefix prefix t = None.
Proof.
  unfold validate_user_tag. repeat case_match; try done. intros _ Hp.
  match goal with H : List.find _ _ = None |- _ => rename H into Hf end.
  apply list_elem_of_In in Hp. eapply List.find_none in Hf; [|exact Hp].
  unfold starts_with in Hf. by case_match.
Qed.
