(* ===== verification/Blob.v ===== *)
(** * Blob: content-addressed inputs, output patterns and tree manifests

    Models [crates/core/src/blob.rs] (and the hexadecimal helpers of
    [cluster_auth.rs] it uses): blob ids, canonical paths, directory manifests,
    task inputs and the glob patterns that select output files.  BLAKE3 and
    bincode are parameters.  Reading files and hashing streams is not modelled. *)

From S2P Require Import Prelude Collections RustStr.
Local Open Scope N_scope.

(** ** Hexadecimal *)

Definition hex_digit (d : N) : char := if d <? 10 then 48 + d else 87 + d.

Fixpoint hex_encode (bytes : Bytes) : Str :=
  match bytes with
  | [] => []
  | b :: r => hex_digit (N.shiftr b 4) :: hex_digit (N.land b 15) :: hex_encode r
  end.

Definition nibble (c : N) : option N :=
  if (48 <=? c) && (c <=? 57) then Some (c - 48)
  else if (97 <=? c) && (c <=? 102) then Some (c - 97 + 10)
  else if (65 <=? c) && (c <=? 70) then Some (c - 65 + 10)
  else None.

(** The pairs of [chunks_exact(2)], collected; a last odd byte is dropped by
    [chunks_exact], but the caller has refused odd lengths. *)
Fixpoint hex_pairs (raw : Bytes) : option Bytes :=
  match raw with
  | a :: b :: r =>
      x ← nibble a; y ← nibble b; rest ← hex_pairs r; Some (N.lor (N.shiftl x 4) y :: rest)
  | _ => Some []
  end.

Definition hex_decode (text : Str) : option Bytes :=
  let raw := utf8_encode text in
  if N.odd (blen raw) then None else hex_pairs raw.

(** ** Blob ids: 32 bytes *)

Abbreviation BlobId := Bytes (only parsing).

Definition blob_to_hex (id : BlobId) : Str := hex_encode id.

Definition blob_from_hex (text : Str) : option BlobId :=
  match hex_decode (trim text) with
  | Some bytes => if blen bytes =? 32 then Some bytes else None
  | None => None
  end.

(** ** Paths *)

Definition MAX_MANIFEST_BYTES : N := 64 * 1024 * 1024.
Definition MAX_TREE_FILES : N := 500000.
Definition MAX_TASK_INPUTS : N := 1024.
Definition MAX_OUTPUT_PATTERNS : N := 256.
Definition MAX_BLOB_PATH_BYTES : N := 4096.
Definition MAX_PATH_SEGMENT_BYTES : N := 255.
Definition SANDBOX_ROOT : Str := str ".".
Definition SLASH : char := chr "/".

Inductive BlobPathError :=
| BPEmpty
| BPTooLong
| BPAbsolute
| BPIllegalChar (c : char)
| BPEmptySegment
| BPDotSegment (seg : Str)
| BPSegmentTooLong.

(** The body of the segment loop of [validate_blob_path]. *)
Definition check_segment (seg : Str) : result BlobPathError unit :=
  if bool_decide (seg = []) then Err BPEmptySegment
  else if bool_decide (seg = str ".") || bool_decide (seg = str "..") then Err (BPDotSegment seg)
  else if MAX_PATH_SEGMENT_BYTES <? str_len seg then Err BPSegmentTooLong
  else Ok tt.

Fixpoint check_segments (segs : list Str) : result BlobPathError unit :=
  match segs with
  | [] => Ok tt
  | s :: ss => match check_segment s with Ok _ => check_segments ss | Err e => Err e end
  end.

Definition illegal_path_char (c : char) : bool := (c =? 92) || (c =? 58) || (c =? 0).

Definition validate_blob_path (path : Str) : result BlobPathError unit :=
  if is_empty path then Err BPEmpty
  else if MAX_BLOB_PATH_BYTES <? str_len path then Err BPTooLong
  else if starts_with [SLASH] path then Err BPAbsolute
  else match List.find illegal_path_char path with
       | Some c => Err (BPIllegalChar c)
       | None => check_segments (split SLASH path)
       end.

Definition join_blob_path (base path : Str) : Str :=
  if bool_decide (base = SANDBOX_ROOT) then path else base ++ SLASH :: path.

(** ** Directory manifests *)

Record BlobFile := {
  bf_path : Str;
  bf_id : BlobId;
  bf_size : N;
  bf_executable : bool
}.

#[global] Instance BlobFile_eq : EqDecision BlobFile.
Proof. solve_decision. Defined.

Inductive ManifestError :=
| TooManyFiles
| BadPath (path : Str) (e : BlobPathError)
| ListedTwice (path : Str)
| FileAndDirectory (parent path : Str)
| ManifestTooLarge
| UnknownHeader
| CorruptManifest
| NotSorted.

(** Stable insertion by path, as [sort_by(|a, b| a.path.cmp(&b.path))]. *)
Fixpoint insert_file (f : BlobFile) (l : list BlobFile) : list BlobFile :=
  match l with
  | [] => [f]
  | g :: l' => match str_cmp (bf_path f) (bf_path g) with Gt => g :: insert_file f l' | _ => f :: l end
  end.

Definition sort_files (l : list BlobFile) : list BlobFile := foldr insert_file [] l.

(** The prefixes of a path that end before one of its slashes: its parents. *)
Fixpoint parents_from (acc path : Str) : list Str :=
  match path with
  | [] => []
  | c :: path' =>
      (if c =? SLASH then [acc] else []) ++ parents_from (acc ++ [c]) path'
  end.
Definition parents (path : Str) : list Str := parents_from [] path.

(** First loop of [TreeManifest::validate]: valid and distinct paths. *)
Fixpoint check_paths (seen : list Str) (files : list BlobFile) : result ManifestError (list Str) :=
  match files with
  | [] => Ok seen
  | f :: fs =>
      match validate_blob_path (bf_path f) with
      | Err e => Err (BadPath (bf_path f) e)
      | Ok _ =>
          if bool_decide (bf_path f ∈ seen) then Err (ListedTwice (bf_path f))
          else check_paths (bf_path f :: seen) fs
      end
  end.

(** Second loop: no file is the directory of another one. *)
Fixpoint check_parents (paths : list Str) (files : list BlobFile) : result ManifestError unit :=
  match files with
  | [] => Ok tt
  | f :: fs =>
      match List.find (fun p => bool_decide (p ∈ paths)) (parents (bf_path f)) with
      | Some parent => Err (FileAndDirectory parent (bf_path f))
      | None => check_parents paths fs
      end
  end.

Definition manifest_validate (files : list BlobFile) : result ManifestError unit :=
  if MAX_TREE_FILES <? N.of_nat (length files) then Err TooManyFiles
  else match check_paths [] files with
       | Err e => Err e
       | Ok paths => check_parents paths files
       end.

Definition manifest_new (files : list BlobFile) : result ManifestError (list BlobFile) :=
  let sorted := sort_files files in
  match manifest_validate sorted with Ok _ => Ok sorted | Err e => Err e end.

Definition MANIFEST_MAGIC : Bytes := str "oxideswarm-tree/1" ++ [10].

(** [files.windows(2).any(|w| w[0].path >= w[1].path)]. *)
Fixpoint out_of_order (files : list BlobFile) : bool :=
  match files with
  | f :: ((g :: _) as rest) =>
      (match str_cmp (bf_path f) (bf_path g) with Lt => false | _ => true end) || out_of_order rest
  | _ => false
  end.

(** bincode's encoding of the file list. *)
Class ManifestCodec := {
  bincode_ser : list BlobFile -> Bytes;
  bincode_de : Bytes -> option (list BlobFile)
}.
Class ManifestCodecLaws `{ManifestCodec} :=
  bincode_de_ser : forall files, bincode_de (bincode_ser files) = Some files.

Definition manifest_encode `{ManifestCodec} (files : list BlobFile) : Bytes :=
  MANIFEST_MAGIC ++ bincode_ser files.

Definition manifest_decode `{ManifestCodec} (bytes : Bytes) : result ManifestError (list BlobFile) :=
  if MAX_MANIFEST_BYTES <? blen bytes then Err ManifestTooLarge
  else match strip_prefix MANIFEST_MAGIC bytes with
       | None => Err UnknownHeader
       | Some body =>
           match bincode_de body with
           | None => Err CorruptManifest
           | Some files =>
               if out_of_order files then Err NotSorted
               else match manifest_validate files with Ok _ => Ok files | Err e => Err e end
           end
       end.

(** ** Task inputs *)

Inductive InputSource :=
| InputFile (id : BlobId) (size : N) (executable : bool)
| InputTree (manifest : BlobId) (manifest_size : N).

Record TaskInput := { ti_path : Str; ti_source : InputSource }.

Inductive InputError :=
| TooManyInputs
| InputBadPath (e : BlobPathError)
| InputUsedTwice (path : Str).

Definition task_input_validate (i : TaskInput) : result InputError unit :=
  let is_tree := match ti_source i with InputTree _ _ => true | _ => false end in
  if is_tree && bool_decide (ti_path i = SANDBOX_ROOT) then Ok tt
  else map_err InputBadPath (validate_blob_path (ti_path i)).

Fixpoint check_inputs (seen : list Str) (inputs : list TaskInput) : result InputError unit :=
  match inputs with
  | [] => Ok tt
  | i :: rest =>
      match task_input_validate i with
      | Err e => Err e
      | Ok _ =>
          if bool_decide (ti_path i ∈ seen) then Err (InputUsedTwice (ti_path i))
          else check_inputs (ti_path i :: seen) rest
      end
  end.

Definition validate_task_inputs (inputs : list TaskInput) : result InputError unit :=
  if MAX_TASK_INPUTS <? N.of_nat (length inputs) then Err TooManyInputs else check_inputs [] inputs.

(** ** Output patterns *)

Inductive PatternSegment :=
| Literal (name : Str)
| Wildcard (pat : Str)
| AnyDepth.

#[global] Instance PatternSegment_eq : EqDecision PatternSegment.
Proof. solve_decision. Defined.

Record OutputPattern := { op_text : Str; op_segments : list PatternSegment }.

Inductive PatternError :=
| PatEmpty
| PatTooLong
| PatNul
| PatAbsolute
| PatColon
| PatDotDot
| PatSandboxItself
| TooManyPatterns.

Definition STAR : char := chr "*".
Definition QMARK : char := chr "?".

(** The loop over the segments of a pattern; [acc] holds the segments so far. *)
Fixpoint parse_segments (acc : list PatternSegment) (raws : list Str) : result PatternError (list PatternSegment) :=
  match raws with
  | [] => Ok acc
  | raw :: rs =>
      if bool_decide (raw = []) || bool_decide (raw = str ".") then parse_segments acc rs
      else if bool_decide (raw = str "..") then Err PatDotDot
      else if bool_decide (raw = str "**") then
        parse_segments (if bool_decide (last acc = Some AnyDepth) then acc else acc ++ [AnyDepth]) rs
      else if contains_char STAR raw || contains_char QMARK raw then
        parse_segments (acc ++ [Wildcard raw]) rs
      else parse_segments (acc ++ [Literal raw]) rs
  end.

Definition pattern_parse (pattern : Str) : result PatternError OutputPattern :=
  let text := trim pattern in
  if is_empty text then Err PatEmpty
  else if MAX_BLOB_PATH_BYTES <? str_len text then Err PatTooLong
  else if contains_char 0 text then Err PatNul
  else
    let normalized := replace_char 92 SLASH text in
    if starts_with [SLASH] normalized then Err PatAbsolute
    else if contains_char 58 normalized then Err PatColon
    else match parse_segments [] (split SLASH normalized) with
         | Err e => Err e
         | Ok segments =>
             if is_empty segments then Err PatSandboxItself
             else Ok {| op_text := text; op_segments := segments |}
         end.

(** [wildcard_match]: the loop over two indices with a single backtracking
    point.  The fuel [wildcard_fuel] is enough for every input
    ([wildcard_loop_fuel] below). *)
Fixpoint wildcard_loop (fuel : nat) (pattern name : Str) (p n : nat) (star : option (nat * nat)) : option bool :=
  match fuel with
  | O => None
  | S fuel' =>
      if Nat.ltb n (length name) then
        if match pattern !! p, name !! n with
           | Some c, Some x => (c =? QMARK) || (c =? x)
           | _, _ => false
           end
        then wildcard_loop fuel' pattern name (S p) (S n) star
        else if match pattern !! p with Some c => c =? STAR | None => false end
        then wildcard_loop fuel' pattern name (S p) n (Some (p, n))
        else match star with
             | Some (star_p, star_n) =>
                 wildcard_loop fuel' pattern name (S star_p) (S star_n) (Some (star_p, S star_n))
             | None => Some false
             end
      else Some (forallb (fun c => c =? STAR) (drop p pattern))
  end.

Definition wildcard_fuel (pattern name : Str) : nat :=
  let l := S (S (length name)) in S (S (length pattern) * (l * l)).

Definition wildcard_match (pattern name : Str) : bool :=
  default false (wildcard_loop (wildcard_fuel pattern name) pattern name 0 0 None).

Definition match_segment (segment : PatternSegment) (name : Str) : bool :=
  match segment with
  | Literal literal => bool_decide (literal = name)
  | Wildcard wildcard => wildcard_match wildcard name
  | AnyDepth => true
  end.

Fixpoint match_segments (pattern : list PatternSegment) (path : list Str) : bool :=
  match pattern with
  | [] => is_empty path
  | AnyDepth :: rest =>
      existsb (fun skip => match_segments rest (drop skip path)) (seq 0 (S (length path)))
  | segment :: rest =>
      match path with
      | name :: tail => match_segment segment name && match_segments rest tail
      | [] => false
      end
  end.

Definition pattern_selects (pat : OutputPattern) (path : Str) : bool :=
  let parts := split SLASH path in
  existsb (fun len => match_segments (op_segments pat) (take len parts)) (seq 1 (length parts)).

Definition is_literal_segment (s : PatternSegment) : bool := match s with Literal _ => true | _ => false end.

Definition pattern_is_literal (pat : OutputPattern) : bool := forallb is_literal_segment (op_segments pat).

Fixpoint literal_names (segs : list PatternSegment) : list Str :=
  match segs with Literal name :: rest => name :: literal_names rest | _ => [] end.
Definition literal_prefix (pat : OutputPattern) : Str := join SLASH (literal_names (op_segments pat)).

Fixpoint validate_output_patterns_loop (patterns : list Str) : result PatternError unit :=
  match patterns with
  | [] => Ok tt
  | p :: ps => match pattern_parse p with Ok _ => validate_output_patterns_loop ps | Err e => Err e end
  end.

Definition validate_output_patterns (patterns : list Str) : result PatternError unit :=
  if MAX_OUTPUT_PATTERNS <? N.of_nat (length patterns) then Err TooManyPatterns
  else validate_output_patterns_loop patterns.
