(* ===== verification/BlobProps.v ===== *)
(** * BlobProps: correctness of the blob layer

    The matcher of output patterns against its reference definition, canonical
    paths, manifests and hexadecimal ids. *)

From S2P Require Import Prelude Collections RustStr Blob.
Local Open Scope N_scope.

(** ** Reference definition of [*]/[?] matching *)

(** [*] stands for any run of characters, [?] for one, anything else for
    itself. *)
Fixpoint glob (p : Str) : Str -> bool :=
  match p with
  | [] => is_empty
  | c :: p' =>
      if c =? STAR then
        fix skip (n : Str) : bool := glob p' n || match n with [] => false | _ :: n' => skip n' end
      else fun n => match n with x :: n' => ((c =? QMARK) || (c =? x)) && glob p' n' | [] => false end
  end.

Section wildcard.
Implicit Types (p n : Str).
Local Open Scope nat_scope.

Lemma glob_star p n : glob (STAR :: p) n = true <-> exists k, k <= length n /\ glob p (drop k n) = true.
Proof.
  cbn [glob]. rewrite N.eqb_refl.
  induction n as [|x n IH]; cbn -[glob]; rewrite orb_true_iff.
  - split; [intros [?|?]; [by exists 0|done]|]. intros (k & ? & Hk). left. by destruct k.
  - rewrite IH. split.
    + intros [?|(k & ? & ?)]; [exists 0|exists (S k)]; split; [lia|done|lia|done].
    + intros ([|k] & ? & ?); [by left|]. right. exists k. split; [lia|done].
Qed.

Lemma glob_char c p x n :
  c <> STAR -> glob (c :: p) (x :: n) = ((c =? QMARK) || (c =? x))%N && glob p n.
Proof. intros Hc. cbn [glob]. by rewrite (proj2 (N.eqb_neq c STAR)). Qed.

Lemma glob_char_nil c p : c <> STAR -> glob (c :: p) [] = false.
Proof. intros Hc. cbn [glob]. by rewrite (proj2 (N.eqb_neq c STAR)). Qed.

Lemma glob_nil_r p : glob p [] = forallb (fun c => c =? STAR)%N p.
Proof.
  induction p as [|c p IH]; [done|]. cbn [forallb]. destruct (N.eqb_spec c STAR) as [->|Hc].
  - cbn [glob andb]. by rewrite N.eqb_refl, IH, orb_false_r.
  - by apply glob_char_nil.
Qed.

(** A star-free prefix of the pattern consumes one character per position. *)
Lemma glob_star_free_app s p n :
  STAR ∉ s -> glob (s ++ p) n = true ->
  length s <= length n /\ glob p (drop (length s) n) = true.
Proof.
  revert n. induction s as [|c s IH]; intros n; [by rewrite drop_0; simpl; split; [lia|]|].
  rewrite not_elem_of_cons. intros [Hc Hs]. destruct n as [|x n].
  - cbn [app]. by rewrite glob_char_nil.
  - cbn [app]. rewrite glob_char by done. intros [_ [? ?]%IH]%andb_true_iff; [|done].
    simpl. split; [lia|done].
Qed.

Lemma glob_star_drop p n i j :
  i <= j -> glob (STAR :: p) (drop j n) = true -> glob (STAR :: p) (drop i n) = true.
Proof.
  intros Hij (k & Hk & Hg)%glob_star. apply glob_star.
  destruct (decide (j <= length n)) as [Hj|Hj].
  - exists (j - i + k). rewrite drop_drop in *. rewrite length_drop in *. split; [lia|].
    by replace (i + (j - i + k)) with (j + k) by lia.
  - exists (length n - i). rewrite drop_drop in *. rewrite length_drop in *. split; [lia|].
    rewrite drop_ge in Hg by lia. by rewrite drop_ge by lia.
Qed.

Section loop.
Context (pattern name : Str) (Hname : STAR ∉ name).

(** What the backtracking point remembers. *)
Definition star_inv (p n : nat) (star : option (nat * nat)) : Prop :=
  match star with
  | None => True
  | Some (sp, sn) =>
      pattern !! sp = Some STAR /\ sp < p /\ n = sn + (p - S sp) /\ sn <= n
      /\ forall i, sp < i < p -> pattern !! i <> Some STAR
  end.

Definition backtrack (star : option (nat * nat)) : Prop :=
  match star with
  | None => False
  | Some (sp, sn) => exists k, sn < k <= length name /\ glob (drop (S sp) pattern) (drop k name) = true
  end.

Definition loop_value (p n : nat) (star : option (nat * nat)) : Prop :=
  glob (drop p pattern) (drop n name) = true \/ backtrack star.

Definition fuel_measure (n : nat) (star : option (nat * nat)) : nat :=
  let l := S (S (length name)) in
  let '(sp, sn) := match star with None => (0, 0) | Some (sp, sn) => (S sp, sn) end in
  (length pattern - sp) * (l * l) + (S (length name) - sn) * l + (S (length name) - n).

(** The part of the pattern between the backtracking point and [p]. *)
Lemma segment_split (sp p : nat) :
  sp < p -> p <= length pattern ->
  (forall i, sp < i < p -> pattern !! i <> Some STAR) ->
  exists s, drop (S sp) pattern = s ++ drop p pattern /\ length s = p - S sp /\ STAR ∉ s.
Proof.
  intros Hlt Hle Hfree. exists (take (p - S sp) (drop (S sp) pattern)).
  split_and!.
  - rewrite <-(take_drop (p - S sp) (drop (S sp) pattern)) at 1.
    rewrite drop_drop. by replace (S sp + (p - S sp)) with p by lia.
  - rewrite length_take, length_drop. lia.
  - intros (i & Hi)%list_elem_of_lookup. rewrite lookup_take_Some, lookup_drop in Hi.
    destruct Hi as [Hi Hp]. by apply (Hfree (S sp + i)); [lia|].
Qed.

(** A fresh star makes the older backtracking point redundant. *)
Lemma backtrack_subsumed (p n : nat) star :
  star_inv p n star -> p <= length pattern -> backtrack star ->
  forall rest, drop p pattern = STAR :: rest -> glob (STAR :: rest) (drop n name) = true.
Proof.
  destruct star as [[sp sn]|]; [|by intros ?? []].
  intros (_ & Hlt & Hn & Hsn & Hfree) Hle (k & Hk & Hg) rest Hrest.
  destruct (segment_split sp p Hlt Hle Hfree) as (s & Hs & Hlen & Hstar).
  rewrite Hs in Hg. apply glob_star_free_app in Hg as [_ Hg]; [|done].
  rewrite Hrest, drop_drop in Hg. eapply glob_star_drop; [|exact Hg]. lia.
Qed.

(** No character is left for an older backtracking point at the end. *)
Lemma backtrack_dead (p n : nat) star :
  star_inv p n star -> p <= length pattern -> length name <= n -> ~ backtrack star.
Proof.
  destruct star as [[sp sn]|]; [|by intros ??? []].
  intros (_ & Hlt & Hn & Hsn & Hfree) Hle Hend (k & Hk & Hg).
  destruct (segment_split sp p Hlt Hle Hfree) as (s & Hs & Hlen & Hstar).
  rewrite Hs in Hg. apply glob_star_free_app in Hg as [Hl _]; [|done].
  rewrite length_drop in Hl. lia.
Qed.

(** Neither a match nor a star: the reference fails here too. *)
Lemma glob_mismatch (p n : nat) x :
  name !! n = Some x ->
  (forall c, pattern !! p = Some c -> c <> STAR /\ ((c =? QMARK) || (c =? x))%N = false) ->
  glob (drop p pattern) (drop n name) = false.
Proof.
  intros Hx Hc. rewrite (drop_S name x n Hx). destruct (pattern !! p) as [c|] eqn:Hp.
  - destruct (Hc c) as [HcS Hno]; [done|]. by rewrite (drop_S pattern c p Hp), glob_char, Hno.
  - apply lookup_ge_None in Hp. by rewrite drop_ge.
Qed.

(** Values of the loop before and after each kind of iteration. *)
Lemma value_star (p n : nat) star rest :
  star_inv p n star -> p <= length pattern -> n <= length name ->
  drop p pattern = STAR :: rest -> drop (S p) pattern = rest ->
  loop_value (S p) n (Some (p, n)) <-> loop_value p n star.
Proof.
  intros Hinv Hp Hn Hd Hd'. unfold loop_value. rewrite Hd. cbn [backtrack]. rewrite Hd'. split.
  - intros Hv. left. apply glob_star. destruct Hv as [Hg|(k & Hk & Hg)].
    + exists 0. rewrite drop_0. split; [lia|done].
    + exists (k - n). rewrite drop_drop, length_drop. split; [lia|].
      by replace (n + (k - n)) with k by lia.
  - intros Hv. assert (glob (STAR :: rest) (drop n name) = true) as (k & Hk & Hg)%glob_star.
    { destruct Hv as [?|Hbt]; [done|]. by eapply backtrack_subsumed. }
    rewrite drop_drop in Hg. rewrite length_drop in Hk.
    destruct k as [|k]; [left; by rewrite Nat.add_0_r in Hg|].
    right. exists (n + S k). split; [lia|done].
Qed.

Lemma value_backtrack (p n sp sn : nat) :
  glob (drop p pattern) (drop n name) = false -> sn < length name ->
  loop_value (S sp) (S sn) (Some (sp, S sn)) <-> loop_value p n (Some (sp, sn)).
Proof.
  intros Hno Hsn. unfold loop_value. rewrite Hno. cbn [backtrack]. split.
  - intros [Hg|(k & Hk & Hg)]; right; [exists (S sn)|exists k]; (split; [lia|done]).
  - intros [?|(k & Hk & Hg)]; [done|].
    destruct (decide (k = S sn)) as [->|]; [by left|]. right. exists k. split; [lia|done].
Qed.

Lemma star_inv_fresh (p n : nat) : pattern !! p = Some STAR -> star_inv (S p) n (Some (p, n)).
Proof. intros. split_and!; [done|lia|lia|lia|]. intros i Hi. lia. Qed.

Lemma loop_correct fuel (p n : nat) star :
  star_inv p n star -> p <= length pattern -> n <= length name ->
  fuel_measure n star < fuel ->
  exists b, wildcard_loop fuel pattern name p n star = Some b /\ (b = true <-> loop_value p n star).
Proof.
  revert p n star. induction fuel as [|fuel IH]; intros p n star Hinv Hp Hn Hfuel; [lia|].
  cbn [wildcard_loop]. destruct (Nat.ltb_spec n (length name)) as [Hlt|Hge].
  2: { eexists. split; [done|]. unfold loop_value. rewrite (drop_ge name n) by lia.
       rewrite glob_nil_r. pose proof (backtrack_dead p n star Hinv Hp Hge). naive_solver. }
  destruct (lookup_lt_is_Some_2 name n Hlt) as [x Hx]. rewrite Hx.
  assert (x <> STAR) as HxS by (intros ->; apply Hname, list_elem_of_lookup; eauto).
  destruct (match pattern !! p with Some c => ((c =? QMARK) || (c =? x))%N | None => false end) eqn:Em.
  - destruct (pattern !! p) as [c|] eqn:Hc; [|done]. pose proof (lookup_lt_Some _ _ _ Hc).
    assert (c <> STAR) as HcS.
    { intros ->. apply orb_true_iff in Em as [Em|Em%N.eqb_eq]; [done|congruence]. }
    destruct (IH (S p) (S n) star) as (b & -> & Hb); [|lia|lia| |].
    + destruct star as [[sp sn]|]; [|done]. destruct Hinv as (? & ? & ? & ? & Hfree).
      split_and!; [done|lia|lia|lia|]. intros i Hi.
      destruct (decide (i = p)) as [->|]; [congruence|]. apply Hfree. lia.
    + unfold fuel_measure in *. destruct star as [[sp sn]|]; lia.
    + eexists. split; [done|]. rewrite Hb. unfold loop_value.
      by rewrite (drop_S pattern c p Hc), (drop_S name x n Hx), glob_char, Em by done.
  - destruct (match pattern !! p with Some c => (c =? STAR)%N | None => false end) eqn:Es.
    + destruct (pattern !! p) as [c|] eqn:Hc; [|done]. apply N.eqb_eq in Es as ->.
      pose proof (lookup_lt_Some _ _ _ Hc).
      destruct (IH (S p) n (Some (p, n))) as (b & -> & Hb); [by apply star_inv_fresh|lia|lia| |].
      * unfold fuel_measure in *. destruct star as [[sp sn]|]; [destruct Hinv as (_ & ? & _)|]; nia.
      * eexists. split; [done|]. rewrite Hb.
        by eapply value_star; [..|apply drop_S|].
    + assert (glob (drop p pattern) (drop n name) = false) as Hno.
      { eapply glob_mismatch; [done|]. intros c Hc. rewrite Hc in *. by apply N.eqb_neq in Es. }
      destruct star as [[sp sn]|].
      2: { eexists. split; [done|]. unfold loop_value. rewrite Hno. naive_solver. }
      destruct Hinv as (Hsp & ? & ? & ? & _). pose proof (lookup_lt_Some _ _ _ Hsp).
      destruct (IH (S sp) (S sn) (Some (sp, S sn))) as (b & -> & Hb);
        [by apply star_inv_fresh|lia|lia|unfold fuel_measure in *; nia|].
      eexists. split; [done|]. rewrite Hb. apply value_backtrack; [done|lia].
Qed.
End loop.
End wildcard.

(** *** Termination of the matcher's loop *)

Section wildcard_total.
Context (pattern name : Str).
Local Open Scope nat_scope.

Definition star_bounds (p n : nat) (star : option (nat * nat)) : Prop :=
  match star with None => True | Some (sp, sn) => sp < p /\ sn <= n end.

Lemma wildcard_loop_total fuel (p n : nat) star :
  star_bounds p n star -> p <= length pattern -> n <= length name ->
  fuel_measure pattern name n star < fuel ->
  is_Some (wildcard_loop fuel pattern name p n star).
Proof.
  revert p n star. induction fuel as [|fuel IH]; intros p n star Hinv Hp Hn Hfuel; [lia|].
  cbn [wildcard_loop]. destruct (Nat.ltb_spec n (length name)) as [Hlt|Hge]; [|eauto].
  assert (Hpat : forall c, pattern !! p = Some c -> p < length pattern)
    by (intros; by eapply lookup_lt_Some).
  match goal with |- context [if ?b then _ else _] => destruct b eqn:E1 end.
  - destruct (pattern !! p) as [c|] eqn:Hc; [|done]. specialize (Hpat c eq_refl).
    apply IH; [|lia|lia|]; unfold fuel_measure, star_bounds in *; destruct star as [[sp sn]|]; lia.
  - match goal with |- context [if ?b then _ else _] => destruct b eqn:E2 end.
    + destruct (pattern !! p) as [c|] eqn:Hc; [|done]. specialize (Hpat c eq_refl).
      apply IH; [simpl; lia|lia|lia|].
      unfold fuel_measure, star_bounds in *. destruct star as [[sp sn]|]; nia.
    + destruct star as [[sp sn]|]; [|eauto]. destruct Hinv as [? ?].
      apply IH; [simpl; lia|lia|lia|]. unfold fuel_measure in *. nia.
Qed.

Lemma fuel_measure_init : fuel_measure pattern name 0 None < wildcard_fuel pattern name.
Proof. unfold fuel_measure, wildcard_fuel. nia. Qed.
End wildcard_total.

(** ** Canonical paths *)

Lemma check_segments_Ok segs :
  check_segments segs = Ok tt <-> Forall (fun s => check_segment s = Ok tt) segs.
Proof.
  induction segs as [|s ss IH]; simpl; [done|]. rewrite Forall_cons.
  destruct (check_segment s) as [[]|e]; naive_solver.
Qed.

Lemma check_segment_Ok s :
  check_segment s = Ok tt <-> s <> [] /\ s <> str "." /\ s <> str ".." /\ str_len s <= MAX_PATH_SEGMENT_BYTES.
Proof.
  unfold check_segment. destruct (bool_decide_reflect (s = [])) as [|H1]; [naive_solver|].
  destruct (bool_decide_reflect (s = str ".")) as [|H2]; [naive_solver|].
  destruct (bool_decide_reflect (s = str "..")) as [|H3]; [naive_solver|]. simpl.
  destruct (N.ltb_spec MAX_PATH_SEGMENT_BYTES (str_len s)); naive_solver lia.
Qed.

Lemma validate_blob_path_Ok path :
  validate_blob_path path = Ok tt ->
  path <> [] /\ str_len path <= MAX_BLOB_PATH_BYTES
  /\ Forall (fun c => illegal_path_char c = false) path
  /\ Forall (fun s => check_segment s = Ok tt) (split SLASH path).
Proof.
  unfold validate_blob_path. destruct path as [|c path]; [done|]. cbn [is_empty].
  destruct (N.ltb_spec MAX_BLOB_PATH_BYTES (str_len (c :: path))); [done|].
  destruct (starts_with _ _); [done|].
  destruct (List.find illegal_path_char (c :: path)) eqn:Hf; [done|]. intros Hs.
  split_and!; [done|done| |by apply check_segments_Ok].
  apply Forall_forall. intros x Hx%list_elem_of_In. by eapply List.find_none in Hf.
Qed.

(** ** Manifests *)

Lemma elem_of_insert_file f g l : g ∈ insert_file f l <-> g = f \/ g ∈ l.
Proof. induction l as [|h l IH]; simpl; [set_solver|]. case_match; set_solver. Qed.

Lemma insert_file_perm f l : insert_file f l ≡ₚ f :: l.
Proof.
  induction l as [|g l IH]; simpl; [done|]. case_match; [done..|].
  rewrite IH. apply Permutation_swap.
Qed.

Lemma sort_files_perm l : sort_files l ≡ₚ l.
Proof. induction l as [|f l IH]; simpl; [done|]. by rewrite insert_file_perm, IH. Qed.

Lemma insert_file_paths f l :
  map bf_path (insert_file f l) = insert_sorted (bf_path f) (map bf_path l).
Proof. induction l as [|g l IH]; simpl; [done|]. case_match; simpl; congruence. Qed.

Lemma sort_files_paths l : map bf_path (sort_files l) = sort_strs (map bf_path l).
Proof. induction l as [|f l IH]; simpl; [done|]. by rewrite insert_file_paths, IH. Qed.

Lemma check_paths_Ok seen files paths :
  check_paths seen files = Ok paths ->
  paths = reverse (map bf_path files) ++ seen
  /\ Forall (fun f => validate_blob_path (bf_path f) = Ok tt) files
  /\ NoDup (map bf_path files) /\ Forall (fun f => bf_path f ∉ seen) files.
Proof.
  revert seen. induction files as [|f fs IH]; intros seen; simpl.
  - intros; simplify_eq. repeat split; constructor.
  - destruct (validate_blob_path (bf_path f)) as [[]|e] eqn:Hv; [|done].
    case_bool_decide as Hin; [done|]. intros (-> & Hval & Hnd & Hns)%IH.
    rewrite reverse_cons, <-app_assoc. simpl. split_and!; [done|by constructor| |].
    + constructor; [|done]. intros (g & Hg & Hgin)%list_elem_of_fmap.
      rewrite Forall_forall in Hns. apply (Hns g Hgin). rewrite <-Hg. by left.
    + constructor; [done|]. eapply Forall_impl; [exact Hns|]. set_solver.
Qed.

Lemma check_parents_Ok paths files :
  check_parents paths files = Ok tt <->
  Forall (fun f => forall p, p ∈ parents (bf_path f) -> p ∉ paths) files.
Proof.
  induction files as [|f fs IH]; simpl; [done|]. rewrite Forall_cons, <-IH.
  destruct (List.find _ _) as [p|] eqn:Hf.
  - apply List.find_some in Hf as [Hp%list_elem_of_In Hin%bool_decide_eq_true]. naive_solver.
  - split; [|naive_solver]. intros ?. split; [|done]. intros p Hp%list_elem_of_In.
    eapply List.find_none in Hf; [|exact Hp]. by apply bool_decide_eq_false in Hf.
Qed.

(** The parents of [a/b] are [a] and the parents of [a]; every prefix that
    ends before a slash is one. *)
Lemma elem_of_parents_from acc path p :
  p ∈ parents_from acc path <-> exists a b, path = a ++ SLASH :: b /\ p = acc ++ a.
Proof.
  revert acc. induction path as [|c path IH]; intros acc; simpl.
  - split; [set_solver|]. intros ([|??] & b & ? & _); done.
  - rewrite elem_of_app, IH. split.
    + intros [H|(a & b & -> & ->)].
      * destruct (N.eqb_spec c SLASH) as [->|]; [|set_solver].
        apply list_elem_of_singleton in H as ->. exists [], path. by rewrite app_nil_r.
      * exists (c :: a), b. by rewrite <-app_assoc.
    + intros ([|d a] & b & Heq & ->); simplify_eq/=.
      * left. rewrite app_nil_r. left.
      * right. exists a, b. by rewrite <-app_assoc.
Qed.

Lemma elem_of_parents path p : p ∈ parents path <-> exists b, path = p ++ SLASH :: b.
Proof. unfold parents. rewrite elem_of_parents_from. naive_solver. Qed.

(** What a checked manifest guarantees. *)
Record manifest_wf (files : list BlobFile) : Prop := {
  mwf_count : N.of_nat (length files) <= MAX_TREE_FILES;
  mwf_paths : Forall (fun f => validate_blob_path (bf_path f) = Ok tt) files;
  mwf_nodup : NoDup (map bf_path files);
  mwf_dirs : forall f g, f ∈ files -> g ∈ files -> forall b, bf_path g <> bf_path f ++ SLASH :: b
}.

Lemma manifest_validate_Ok files : manifest_validate files = Ok tt <-> manifest_wf files.
Proof.
  unfold manifest_validate. split.
  - destruct (N.ltb_spec MAX_TREE_FILES (N.of_nat (length files))); [done|].
    destruct (check_paths [] files) as [paths|] eqn:Hp; [|done].
    apply check_paths_Ok in Hp as (-> & Hval & Hnd & _).
    intros Hpar%check_parents_Ok. split; [lia|done|done|].
    intros f g Hf Hg b Heq. rewrite Forall_forall in Hpar. apply (Hpar g Hg (bf_path f)).
    + apply elem_of_parents. eauto.
    + rewrite app_nil_r, elem_of_reverse. by apply list_elem_of_fmap_2.
  - intros [Hc Hval Hnd Hdirs].
    destruct (N.ltb_spec MAX_TREE_FILES (N.of_nat (length files))); [lia|].
    assert (Hcp : forall seen, Forall (fun f => bf_path f ∉ seen) files ->
      check_paths seen files = Ok (reverse (map bf_path files) ++ seen)).
    { clear Hdirs Hc H. induction files as [|f fs IH]; intros seen Hns; [done|].
      apply Forall_cons in Hval as [Hv Hval]. apply Forall_cons in Hns as [Hf Hns].
      simpl in Hnd. apply NoDup_cons in Hnd as [Hfn Hnd]. simpl. rewrite Hv.
      rewrite bool_decide_eq_false_2 by done. rewrite IH; [|done..|].
      - by rewrite reverse_cons, <-app_assoc.
      - rewrite Forall_forall in Hns |- *. intros g Hg. apply not_elem_of_cons. split; [|auto].
        intros Heq. apply Hfn. rewrite <-Heq. by apply list_elem_of_fmap_2. }
    rewrite Hcp by (apply Forall_forall; set_solver). apply check_parents_Ok.
    apply Forall_forall. intros g Hg p (b & Hb)%elem_of_parents.
    rewrite app_nil_r, elem_of_reverse. intros (f & -> & Hf)%list_elem_of_fmap. exact (Hdirs f g Hf Hg b Hb).
Qed.

Lemma manifest_wf_perm l k : l ≡ₚ k -> manifest_wf l -> manifest_wf k.
Proof.
  intros Hp []. split.
  - by rewrite <-Hp.
  - by rewrite <-Hp.
  - by rewrite <-Hp.
  - intros f g. rewrite <-Hp. auto.
Qed.

Lemma out_of_order_sorted files :
  StronglySorted str_le (map bf_path files) -> NoDup (map bf_path files) -> out_of_order files = false.
Proof.
  induction files as [|f [|g fs] IH]; [done|done|].
  intros Hs Hnd. cbn [map] in *. inversion Hs as [|? ? Hs' Hall]; subst.
  apply NoDup_cons in Hnd as [Hf Hnd].
  change (out_of_order (f :: g :: fs)) with
    ((match str_cmp (bf_path f) (bf_path g) with Lt => false | _ => true end) || out_of_order (g :: fs)).
  rewrite IH, orb_false_r by done. apply Forall_cons in Hall as [Hle _]. unfold str_le in Hle.
  destruct (str_cmp (bf_path f) (bf_path g)) eqn:E; [|done..].
  apply (ocmp_eq (bf_path f) (bf_path g)) in E. set_solver.
Qed.

(** ** Hexadecimal ids *)

Lemma nibble_hex_digit d : d < 16 -> nibble (hex_digit d) = Some d.
Proof.
  intros. unfold hex_digit. destruct (N.ltb_spec d 10); unfold nibble; n_decide; f_equal; lia.
Qed.

Lemma hex_digit_range d : d < 16 -> 48 <= hex_digit d < 103.
Proof. intros. unfold hex_digit. n_decide; lia. Qed.

Lemma nibbles_of_byte b : b < 256 ->
  N.shiftr b 4 < 16 /\ N.land b 15 < 16 /\ N.lor (N.shiftl (N.shiftr b 4) 4) (N.land b 15) = b.
Proof.
  intros Hb. change 15 with (N.ones 4). rewrite N.land_ones, N.shiftr_div_pow2. split_and!; [n_div_lia..|].
  rewrite <-N.shiftr_div_pow2. apply N.bits_inj. intros i. rewrite N.lor_spec, <-N.land_ones, N.land_spec.
  destruct (N.ltb_spec i 4).
  - rewrite N.shiftl_spec_low, N.ones_spec_low by lia. by rewrite andb_true_r.
  - rewrite N.shiftl_spec_high', N.shiftr_spec', N.ones_spec_high by lia.
    rewrite andb_false_r, orb_false_r. f_equal. lia.
Qed.

Lemma hex_encode_range id : Forall (fun b => b < 256) id -> Forall (fun c => 48 <= c < 103) (hex_encode id).
Proof.
  induction 1 as [|b id Hb Hall IH]; simpl; [constructor|].
  destruct (nibbles_of_byte b Hb) as (? & ? & _). repeat (constructor; [by apply hex_digit_range|]). done.
Qed.

Lemma utf8_encode_ascii s : Forall (fun c => c < 128) s -> utf8_encode s = s.
Proof.
  induction 1 as [|c s Hc Hall IH]; [done|].
  change (utf8_encode (c :: s)) with (utf8_encode_char c ++ utf8_encode s).
  rewrite IH. unfold utf8_encode_char. by rewrite (proj2 (N.ltb_lt c 128)).
Qed.

Lemma hex_pairs_encode id : Forall (fun b => b < 256) id -> hex_pairs (hex_encode id) = Some id.
Proof.
  induction 1 as [|b id Hb Hall IH]; [done|]. cbn [hex_encode hex_pairs].
  destruct (nibbles_of_byte b Hb) as (? & ? & Hj).
  rewrite !nibble_hex_digit by done. simpl. rewrite IH. simpl. by rewrite Hj.
Qed.

Lemma length_hex_encode id : length (hex_encode id) = (2 * length id)%nat.
Proof. induction id as [|b id IH]; simpl; lia. Qed.

Lemma hex_no_whitespace c : 48 <= c < 103 -> is_whitespace c = false.
Proof. intros. unfold is_whitespace. by n_decide. Qed.

Lemma trim_hex id : Forall (fun b => b < 256) id -> trim (hex_encode id) = hex_encode id.
Proof.
  intros Hr%hex_encode_range. rewrite Forall_forall in Hr. apply trim_id; intros c Hc; apply hex_no_whitespace, Hr.
  - by apply head_Some_elem_of.
  - by apply last_Some_elem_of.
Qed.

Lemma hex_decode_encode id : Forall (fun b => b < 256) id -> hex_decode (hex_encode id) = Some id.
Proof.
  intros Hb. unfold hex_decode. rewrite utf8_encode_ascii.
  2: { eapply Forall_impl; [by apply hex_encode_range|]. simpl. lia. }
  unfold blen. rewrite length_hex_encode, hex_pairs_encode by done.
  replace (N.odd (N.of_nat (2 * length id))) with false; [done|]. rewrite Nat2N.inj_mul. by rewrite N.odd_mul.
Qed.

(** ** Output patterns *)

Lemma match_literals names path :
  match_segments (map Literal names) path = true <-> path = names.
Proof.
  revert path. induction names as [|a names IH]; intros path; simpl.
  - destruct path; naive_solver.
  - destruct path as [|b path]; [naive_solver|]. rewrite andb_true_iff, IH, bool_decide_eq_true. naive_solver.
Qed.

Lemma literal_segments segs :
  forallb is_literal_segment segs = true -> exists names, segs = map Literal names.
Proof.
  induction segs as [|[a| |] segs IH]; simpl; [by exists []| |done..].
  intros (names & ->)%IH. by exists (a :: names).
Qed.

Lemma map_Literal_inj a b : map Literal a = map Literal b -> a = b.
Proof. revert b. induction a as [|x a IH]; intros [|y b] H; simplify_eq/=; f_equal; auto. Qed.

(** The single-backtracking matcher of output patterns agrees with the
    reference definition of [*] and [?], for every pattern and every file name
    without a literal [*], and its loop always ends within its fuel. *)
Theorem wildcard_match_is_glob pattern name :
  STAR ∉ name ->
  wildcard_match pattern name = glob pattern name
  /\ is_Some (wildcard_loop (wildcard_fuel pattern name) pattern name 0 0 None).
Proof.
  intros Hname. destruct (loop_correct pattern name Hname (wildcard_fuel pattern name) 0 0 None)
    as (b & Hb & Hv); [done|lia..|apply fuel_measure_init|].
  unfold wildcard_match. rewrite Hb. split; [|eauto]. simpl. unfold loop_value in Hv.
  rewrite !drop_0 in Hv. destruct b, (glob pattern name) eqn:E; naive_solver.
Qed.

Lemma wildcard_match_is_glob_witness :
  wildcard_match (str "a*b?.txt") (str "axxbbc.txt") = true.
Proof.
  destruct (wildcard_match_is_glob (str "a*b?.txt") (str "axxbbc.txt")) as [Heq _];
    [by apply (bool_decide_unpack _)|].
  rewrite Heq. vm_compute. reflexivity.
Defined.

(** The matcher compares characters before it looks for a star, so a star of
    the pattern that meets a literal [*] in a name is consumed as an ordinary
    character: ["*"] does not select a file called ["*a"]. *)
Theorem wildcard_star_in_name_missed :
  wildcard_match (str "*") (str "*a") = false /\ glob (str "*") (str "*a") = true.
Proof. vm_compute. done. Qed.

(** For any pattern and any name the matcher's loop terminates. *)
Theorem wildcard_match_terminates pattern name :
  is_Some (wildcard_loop (wildcard_fuel pattern name) pattern name 0 0 None).
Proof. apply wildcard_loop_total; [done|lia..|apply fuel_measure_init]. Qed.

(** A pattern without wildcards selects exactly the file it names and the
    files below the directory it names. *)
Theorem literal_pattern_selects pat path :
  pattern_is_literal pat = true -> op_segments pat <> [] ->
  pattern_selects pat path = true <->
  exists names rest, op_segments pat = map Literal names /\ split SLASH path = names ++ rest.
Proof.
  intros (names & Hn)%literal_segments Hne. unfold pattern_selects. rewrite Hn in *.
  rewrite existsb_exists. split.
  - intros (len & _ & Hm%match_literals). exists names, (drop len (split SLASH path)).
    split; [done|]. by rewrite <-Hm, take_drop.
  - intros (names' & rest & Heq & Hs). apply map_Literal_inj in Heq as <-.
    exists (length names). rewrite match_literals, Hs, take_app_length.
    split; [|done]. apply in_seq. rewrite length_app. destruct names; [done|]. simpl. lia.
Qed.

Lemma literal_pattern_selects_witness :
  pattern_selects {| op_text := str "out"; op_segments := [Literal (str "out")] |} (str "out/a.bin") = true.
Proof.
  apply (literal_pattern_selects {| op_text := str "out"; op_segments := [Literal (str "out")] |}); [done|done|].
  exists [str "out"], [str "a.bin"]. split; vm_compute; reflexivity.
Defined.

(** [TreeManifest::new] accepts exactly the file lists with at most
    [MAX_TREE_FILES] files, canonical and pairwise distinct paths and no file
    that is the directory of another one; it returns them sorted by path. *)
Theorem manifest_new_spec files :
  (forall out, manifest_new files = Ok out ->
     manifest_wf files /\ out ≡ₚ files /\ StronglySorted str_le (map bf_path out))
  /\ (manifest_wf files -> manifest_new files = Ok (sort_files files)).
Proof.
  unfold manifest_new. split.
  - destruct (manifest_validate (sort_files files)) as [[]|] eqn:Hv; [|done].
    intros out [= <-]. apply manifest_validate_Ok in Hv. split_and!.
    + eapply manifest_wf_perm; [apply sort_files_perm|done].
    + apply sort_files_perm.
    + rewrite sort_files_paths. apply sort_strs_sorted.
  - intros Hwf. eapply manifest_wf_perm in Hwf; [|symmetry; apply sort_files_perm].
    by apply manifest_validate_Ok in Hwf as ->.
Qed.

(** Round trip of the manifest codec: what [TreeManifest::new] built, encoded
    and within the size limit, decodes to the same manifest. *)
Theorem manifest_roundtrip `{ManifestCodecLaws} files out :
  manifest_new files = Ok out -> blen (manifest_encode out) <= MAX_MANIFEST_BYTES ->
  manifest_decode (manifest_encode out) = Ok out.
Proof.
  intros Hnew Hlen. unfold manifest_decode.
  rewrite (proj2 (N.ltb_ge MAX_MANIFEST_BYTES (blen (manifest_encode out)))) by done.
  unfold manifest_encode. rewrite strip_prefix_app, bincode_de_ser.
  unfold manifest_new in Hnew. destruct (manifest_validate (sort_files files)) as [[]|] eqn:Hv; [|done].
  simplify_eq. rewrite Hv. apply manifest_validate_Ok in Hv as [_ _ Hnd _].
  rewrite out_of_order_sorted; [done| |done]. rewrite sort_files_paths. apply sort_strs_sorted.
Qed.

(** A toy codec that satisfies the law: one file per record, all lengths in
    unary, used to show that the round trip has instances. *)
Module ToyCodec.
Fixpoint de_all (fuel : nat) (b : Bytes) : option (list BlobFile) :=
  match fuel with
  | O => None
  | S fuel =>
      match b with
      | [] => Some []
      | np :: ni :: size :: ex :: rest =>
          let p := N.to_nat np in let i := N.to_nat ni in
          fs ← de_all fuel (drop (p + i) rest);
          Some ({| bf_path := take p rest; bf_id := take i (drop p rest); bf_size := size;
                   bf_executable := ex =? 1 |} :: fs)
      | _ => None
      end
  end.
Definition ser_one (f : BlobFile) : Bytes :=
  [blen (bf_path f); blen (bf_id f); bf_size f; if bf_executable f then 1 else 0]
  ++ bf_path f ++ bf_id f.
#[global] Instance codec : ManifestCodec := {
  bincode_ser fs := fs ≫= ser_one;
  bincode_de b := de_all (S (length b)) b
}.
#[global] Instance laws : ManifestCodecLaws.
Proof.
  intros files. cbn [bincode_ser bincode_de codec].
  assert (forall fuel, (length (files ≫= ser_one) < fuel)%nat -> de_all fuel (files ≫= ser_one) = Some files)
    as Hd; [|by apply Hd; lia].
  induction files as [|[p i sz ex] files IH]; intros [|fuel] Hf; [lia|done|lia|].
  rewrite bind_cons in Hf |- *. rewrite length_app in Hf.
  set (rest := files ≫= ser_one) in *. cbn -[N.of_nat] in Hf |- *. unfold blen.
  rewrite !Nat2N.id, <-!app_assoc, drop_app_add', take_app_length, !drop_app_length, take_app_length by done.
  rewrite IH by lia. simpl. by destruct ex.
Qed.
End ToyCodec.

Definition sample_files : list BlobFile :=
  [{| bf_path := str "src/main.rs"; bf_id := [1]; bf_size := 12; bf_executable := false |};
   {| bf_path := str "build.sh"; bf_id := [2]; bf_size := 3; bf_executable := true |}].

Lemma manifest_roundtrip_witness :
  @manifest_decode ToyCodec.codec (@manifest_encode ToyCodec.codec (sort_files sample_files))
  = Ok (sort_files sample_files).
Proof.
  apply (@manifest_roundtrip ToyCodec.codec ToyCodec.laws sample_files);
    [vm_compute; reflexivity|vm_compute; discriminate].
Defined.

(** The hexadecimal form of a blob id parses back to the id. *)
Theorem blob_hex_roundtrip id :
  length id = 32%nat -> Forall (fun b => b < 256) id -> blob_from_hex (blob_to_hex id) = Some id.
Proof.
  intros Hlen Hb. unfold blob_from_hex, blob_to_hex. rewrite trim_hex, hex_decode_encode by done.
  unfold blen. by rewrite Hlen.
Qed.

Lemma blob_hex_roundtrip_witness : blob_from_hex (blob_to_hex (replicate 32 171)) = Some (replicate 32 171).
Proof. apply blob_hex_roundtrip; [done|]. by repeat constructor. Defined.
