(* ===== verification/Task.v ===== *)
(** * Task: the task data model and its validation

    Models [crates/core/src/task.rs]: requirements, the seven task
    specifications, sandbox path normalisation, task validation, results and
    the client-visible status automaton; and the two capability checks of
    [capabilities.rs] that look at tasks.  A map keyed by strings is a [gmap], a
    [PathBuf] its [OsStr] bytes.  Error messages are constructors. *)

From S2P Require Import Prelude Collections RustStr Float Capabilities Placement Blob.
Local Open Scope N_scope.

Abbreviation TaskId := N (only parsing).

(** ** Requirements *)

Record TaskRequirements := {
  req_cpu_cores : N;
  req_ram_mb : N;
  req_gpu_required : bool;
  req_timeout_secs : N;
  req_max_retries : option N
}.

Definition requirements_default : TaskRequirements := {|
  req_cpu_cores := 1; req_ram_mb := 512; req_gpu_required := false;
  req_timeout_secs := 60; req_max_retries := None
|}.

(** ** 3D engines *)

Inductive Engine3D := EngAuto | EngSdf | EngTripoSr | EngTrellis.

#[global] Instance Engine3D_eq : EqDecision Engine3D.
Proof. solve_decision. Defined.

Definition engine_as_str (e : Engine3D) : Str :=
  match e with
  | EngAuto => str "auto" | EngSdf => str "sdf"
  | EngTripoSr => str "triposr" | EngTrellis => str "trellis"
  end.

Definition engine_requires_gpu (e : Engine3D) : bool :=
  match e with EngAuto => false | EngSdf => false | EngTripoSr => false | EngTrellis => false end.

Definition engine_parse (s : Str) : option Engine3D :=
  let t := to_ascii_lowercase (trim s) in
  if str_in t ["auto"; ""] then Some EngAuto
  else if str_in t ["sdf"; "tier0_sdf"; "tier0"; "tier-0"; "procedural"; "procedural_sdf"] then Some EngSdf
  else if str_in t ["triposr"; "tripo_sr"; "triposr-cuda"; "triposr-cpu"; "tripo"] then Some EngTripoSr
  else if str_in t ["trellis"] then Some EngTrellis
  else None.

Record Generative3DSpec := {
  g3_prompt : option Str;
  g3_image_data : option Bytes;
  g3_quality : Str;
  g3_engine_preference : option Str;
  g3_export_texture : bool
}.

Definition try_engine (s : Generative3DSpec) : option Engine3D :=
  match g3_engine_preference s with
  | Some raw => engine_parse raw
  | None => Some EngAuto
  end.

Definition engine (s : Generative3DSpec) : Engine3D := default EngAuto (try_engine s).

Record AutoRigSpec := {
  ar_input_mesh : Bytes;
  ar_rig_preset : Str;
  ar_embed_animations : list Str;
  ar_preferred_provider : option Str
}.

(** ** Specifications *)

Inductive TaskSpec :=
| Command (program : Str) (args : list Str) (env : gmap Str Str) (working_dir : option Bytes) (stdin : option Bytes)
| ShellScript (script : Str) (interpreter : option Str) (env : gmap Str Str)
| RustCompilation (crate_name : Str) (source_files : gmap Str Str) (compiler_flags : list Str) (target_dir : option Bytes)
| GpuCompute (kernel_name : Str) (input_data : Bytes) (work_group_size simulated_matrix_dim compute_intensity : N)
| BuiltinTest (test_name : Str) (iterations duration_ms : N) (should_fail require_gpu : bool)
| Generative3D (spec : Generative3DSpec)
| AutoRig (spec : AutoRigSpec).

Inductive TaskError :=
| EmptyProgram | EmptyScript | EmptyCrateName | NoSourceFiles | EmptyKernelName
| No3DInput | EmptyQuality | UnknownEngine | TrellisUnsupported | AutoEngineNoImage | SdfNoImage
| EmptyMesh | EmptyRigPreset
| ZeroTimeout | GpuMismatch
| TaskBadPlacement (e : PlacementError)
| StagedSizeMismatch | StagedFileTooLarge | StagedAggregateTooLarge
| BadSandboxPath
| BlobsNotSupported
| TaskBadInput (e : InputError)
| TaskBadPattern (e : PatternError).

Definition requirements_validate (r : TaskRequirements) : result TaskError unit :=
  if req_timeout_secs r =? 0 then Err ZeroTimeout else Ok tt.

Definition generative_validate (spec : Generative3DSpec) : result TaskError unit :=
  let has_prompt := match g3_prompt spec with Some p => negb (is_empty (trim p)) | None => false end in
  let has_image := match g3_image_data spec with Some img => negb (is_empty img) | None => false end in
  if negb has_prompt && negb has_image then Err No3DInput
  else if is_empty (trim (g3_quality spec)) then Err EmptyQuality
  else match try_engine spec with
       | None => Err UnknownEngine
       | Some EngTrellis => Err TrellisUnsupported
       | Some e =>
           if has_image then
             match e with
             | EngAuto => Err AutoEngineNoImage
             | EngSdf => Err SdfNoImage
             | EngTripoSr | EngTrellis => Ok tt
             end
           else Ok tt
       end.

Definition spec_validate (spec : TaskSpec) : result TaskError unit :=
  match spec with
  | Command program _ _ _ _ => if is_empty (trim program) then Err EmptyProgram else Ok tt
  | ShellScript script _ _ => if is_empty (trim script) then Err EmptyScript else Ok tt
  | RustCompilation crate_name source_files _ _ =>
      if is_empty (trim crate_name) then Err EmptyCrateName
      else if bool_decide (source_files = ∅) then Err NoSourceFiles else Ok tt
  | GpuCompute kernel_name _ _ _ _ => if is_empty (trim kernel_name) then Err EmptyKernelName else Ok tt
  | BuiltinTest _ _ _ _ _ => Ok tt
  | Generative3D spec => generative_validate spec
  | AutoRig spec =>
      if is_empty (ar_input_mesh spec) then Err EmptyMesh
      else if is_empty (trim (ar_rig_preset spec)) then Err EmptyRigPreset else Ok tt
  end.

Definition spec_requires_gpu (spec : TaskSpec) : bool :=
  match spec with
  | GpuCompute _ _ _ _ _ => true
  | BuiltinTest _ _ _ _ require_gpu => require_gpu
  | Generative3D spec => engine_requires_gpu (engine spec)
  | AutoRig _ => false
  | _ => false
  end.

(** The specifications throttled mobile workers must not receive. *)
Definition is_heavy (spec : TaskSpec) : bool :=
  match spec with RustCompilation _ _ _ _ | GpuCompute _ _ _ _ _ => true | _ => false end.

Record CheckpointData := { cp_sequence : N; cp_delta_state : Bytes; cp_timestamp : N }.

Definition MAX_STAGED_FILE_BYTES : N := 32 * 1024 * 1024.
Definition MAX_AGGREGATE_STAGED_BYTES : N := 32 * 1024 * 1024.

Definition WINDOWS_RESERVED_DEVICE_NAMES : list Str :=
  str <$> ["CON"; "PRN"; "AUX"; "NUL"; "COM1"; "COM2"; "COM3"; "COM4"; "COM5"; "COM6"; "COM7"; "COM8";
           "COM9"; "LPT1"; "LPT2"; "LPT3"; "LPT4"; "LPT5"; "LPT6"; "LPT7"; "LPT8"; "LPT9"].

(** ** Sandbox paths *)

Inductive SandboxPathError :=
| SPEmpty | SPNull | SPAbsolute | SPColon | SPUnc | SPTraversal | SPDotsOnly | SPReserved | SPNothingLeft.

Definition is_dot_or_space (c : char) : bool := (c =? 32) || (c =? 46).

(** One segment: skipped ([Ok None]), kept trimmed ([Ok (Some s)]) or refused. *)
Definition sandbox_segment (seg : Str) : result SandboxPathError (option Str) :=
  let seg_trimmed := trim seg in
  if is_empty seg_trimmed || bool_decide (seg_trimmed = str ".") then Ok None
  else if bool_decide (seg_trimmed = str "..") then Err SPTraversal
  else
    let cleaned := trim_end_matches is_dot_or_space seg_trimmed in
    if is_empty cleaned then Err SPDotsOnly
    else
      let base_name := to_ascii_uppercase (trim_end_matches is_dot_or_space
                         (default cleaned (head (split 46 cleaned)))) in
      if bool_decide (base_name ∈ WINDOWS_RESERVED_DEVICE_NAMES) then Err SPReserved
      else Ok (Some seg_trimmed).

Fixpoint sandbox_segments (segs : list Str) : result SandboxPathError (list Str) :=
  match segs with
  | [] => Ok []
  | seg :: rest =>
      match sandbox_segment seg with
      | Err e => Err e
      | Ok o =>
          match sandbox_segments rest with
          | Err e => Err e
          | Ok kept => Ok (match o with Some s => s :: kept | None => kept end)
          end
      end
  end.

Definition validate_relative_sandbox_path (raw : Str) : result SandboxPathError Str :=
  if is_empty raw then Err SPEmpty
  else if contains_char 0 raw then Err SPNull
  else if starts_with [47] raw || starts_with [92] raw then Err SPAbsolute
  else if contains_char 58 raw then Err SPColon
  else
    let normalized := replace_char 92 47 raw in
    let trimmed := trim normalized in
    if is_empty trimmed then Err SPEmpty
    else if starts_with [47] trimmed then Err SPAbsolute
    else if starts_with [47; 47] trimmed then Err SPUnc
    else match sandbox_segments (split 47 trimmed) with
         | Err e => Err e
         | Ok segments =>
             if is_empty segments then Err SPNothingLeft else Ok (join 47 segments)
         end.

(** ** Tasks *)

Record StagedFile := {
  sf_path : Str;
  sf_size : N;
  sf_sha256 : Bytes;
  sf_executable : bool;
  sf_data : Bytes
}.

Record OutputArtifact := { oa_path : Str; oa_size : N; oa_sha256 : Bytes; oa_data : Bytes }.

Record Task := {
  task_id : TaskId;
  task_spec : TaskSpec;
  task_requirements : TaskRequirements;
  task_created_at_utc : N;
  task_tags : list Str;
  task_latest_checkpoint : option CheckpointData;
  task_staged_files : list StagedFile;
  task_expected_outputs : list Str;
  task_inputs : list TaskInput;
  task_output_globs : list Str
}.

Definition uses_blobs (t : Task) : bool := negb (is_empty (task_inputs t)) || negb (is_empty (task_output_globs t)).

Definition task_placement (t : Task) : result PlacementError Placement := from_task_tags (task_tags t).

Definition update_checkpoint (cp : CheckpointData) (t : Task) : Task := {|
  task_id := task_id t; task_spec := task_spec t; task_requirements := task_requirements t;
  task_created_at_utc := task_created_at_utc t; task_tags := task_tags t;
  task_latest_checkpoint := Some cp; task_staged_files := task_staged_files t;
  task_expected_outputs := task_expected_outputs t; task_inputs := task_inputs t;
  task_output_globs := task_output_globs t
|}.

(** The loop over the staged files; [total] is the size so far. *)
Fixpoint check_staged (total : N) (files : list StagedFile) : result TaskError unit :=
  match files with
  | [] => Ok tt
  | f :: fs =>
      if negb (blen (sf_data f) =? sf_size f) then Err StagedSizeMismatch
      else if MAX_STAGED_FILE_BYTES <? sf_size f then Err StagedFileTooLarge
      else
        let total' := saturating_add u64_max total (sf_size f) in
        if MAX_AGGREGATE_STAGED_BYTES <? total' then Err StagedAggregateTooLarge
        else match validate_relative_sandbox_path (sf_path f) with
             | Err _ => Err BadSandboxPath
             | Ok _ => check_staged total' fs
             end
  end.

Fixpoint check_expected (outputs : list Str) : result TaskError unit :=
  match outputs with
  | [] => Ok tt
  | o :: os => match validate_relative_sandbox_path o with Ok _ => check_expected os | Err _ => Err BadSandboxPath end
  end.

Definition sandboxed_spec (spec : TaskSpec) : bool :=
  match spec with Command _ _ _ _ _ | ShellScript _ _ _ | RustCompilation _ _ _ _ => true | _ => false end.

Open Scope result_scope.

Definition task_validate (t : Task) : result TaskError unit :=
  check spec_validate (task_spec t);
  check requirements_validate (task_requirements t);
  check (if spec_requires_gpu (task_spec t) && negb (req_gpu_required (task_requirements t))
         then Err GpuMismatch else Ok tt);
  check map_err TaskBadPlacement (task_placement t);
  check check_staged 0 (task_staged_files t);
  check check_expected (task_expected_outputs t);
  if uses_blobs t then
    check (if sandboxed_spec (task_spec t) then Ok tt else Err BlobsNotSupported);
    check map_err TaskBadInput (validate_task_inputs (task_inputs t));
    check map_err TaskBadPattern (validate_output_patterns (task_output_globs t));
    Ok tt
  else Ok tt.

Close Scope result_scope.

(** ** Results *)

Record TaskResult := {
  res_worker_id : Uuid;
  res_task_id : TaskId;
  res_exit_code : Z;
  res_stdout : Bytes;
  res_stderr : Bytes;
  res_execution_time_ms : N;
  res_is_gpu_executed : bool;
  res_device_name : option Str;
  res_error : option Str;
  res_asset_bytes : option Bytes;
  res_artifacts : list OutputArtifact;
  res_outputs : list BlobFile
}.

Definition is_success (r : TaskResult) : bool := (res_exit_code r =? 0)%Z && is_none (res_error r).

Definition result_failure (worker_id : Uuid) (tid : TaskId) (exit_code : Z) (stdout stderr : Bytes)
    (execution_time_ms : N) (error : option Str) : TaskResult := {|
  res_worker_id := worker_id; res_task_id := tid; res_exit_code := exit_code;
  res_stdout := stdout; res_stderr := stderr; res_execution_time_ms := execution_time_ms;
  res_is_gpu_executed := false; res_device_name := None; res_error := error;
  res_asset_bytes := None; res_artifacts := []; res_outputs := []
|}.

Definition result_success (worker_id : Uuid) (tid : TaskId) (stdout : Bytes)
    (execution_time_ms : N) (is_gpu_executed : bool) : TaskResult := {|
  res_worker_id := worker_id; res_task_id := tid; res_exit_code := 0;
  res_stdout := stdout; res_stderr := []; res_execution_time_ms := execution_time_ms;
  res_is_gpu_executed := is_gpu_executed; res_device_name := None; res_error := None;
  res_asset_bytes := None; res_artifacts := []; res_outputs := []
|}.

(** ** The client-visible status *)

Inductive TaskStatus :=
| StQueued | StAssigned | StRunning | StCompleted | StFailed | StRetried | StTimedOut | StCancelled.

#[global] Instance TaskStatus_eq : EqDecision TaskStatus.
Proof. solve_decision. Defined.

Definition status_is_terminal (s : TaskStatus) : bool :=
  match s with StCompleted | StFailed | StTimedOut | StCancelled => true | _ => false end.

Definition status_is_active (s : TaskStatus) : bool :=
  match s with StAssigned | StRunning => true | _ => false end.

Definition status_can_transition_to (s next : TaskStatus) : bool :=
  match s with
  | StQueued => match next with StAssigned | StCancelled => true | _ => false end
  | StAssigned =>
      match next with StRunning | StQueued | StRetried | StFailed | StTimedOut | StCancelled => true | _ => false end
  | StRunning => match next with StCompleted | StFailed | StRetried | StTimedOut | StCancelled => true | _ => false end
  | StRetried => match next with StQueued | StFailed => true | _ => false end
  | StCompleted | StFailed | StTimedOut | StCancelled => false
  end.

(** ** Capability checks against tasks *)

Definition cap_satisfies (c : WorkerCapabilities) (r : TaskRequirements) : bool :=
  if req_gpu_required r && negb (can_execute_gpu c) then false
  else if (0 <? req_cpu_cores r) && (cap_cpu_cores c <? req_cpu_cores r) then false
  else if (0 <? req_ram_mb r) && (cap_ram_mb c <? req_ram_mb r) then false
  else true.

Definition is_task_eligible (spec : TaskSpec) (bat : BatteryTier) (therm : ThermalTier) (is_charging : bool) : bool :=
  if calculate_effective_concurrency 8 bat therm =? 0 then false
  else
    let heavy := is_heavy spec in
    let bat_ok := match bat with
      | BatCritical => false
      | BatSubLow | BatLow => negb heavy
      | BatNormal => true
      end in
    let therm_ok := match therm with
      | ThermCritical => false
      | ThermHot => negb heavy
      | ThermWarm => negb (heavy && negb is_charging)
      | ThermNormal => true
      end in
    bat_ok && therm_ok.
