(* ===== verification/Queue.v ===== *)
(** * Queue: the master's task queue and its life-cycle automaton

    Models [crates/master/src/queue.rs]: the eight-state automaton, the retry
    policy, the in-memory table with its ready queue, backoff queue, worker
    assignments and byte accounting, and every operation on it.

    Each public method of [TaskQueue] takes the write (or read) lock for its whole
    body, so it is one function [TaskQueueInner -> ... * TaskQueueInner].
    [Instant::now()] and [Utc::now()] are arguments ([now] in nanoseconds,
    [epoch] in seconds).  A [HashSet] is iterated in the order of the argument
    [iter], any enumeration of the set.  Counters are unbounded [N]: the
    theorems of [QueueProps] bound them far below their widths.  Byte sums are
    capped at [usize_max] where the source saturates. *)

From S2P Require Import Prelude Collections RustStr Float Capabilities Placement Blob Task.
Local Open Scope N_scope.

Abbreviation Instant := N (only parsing).

(** ** States *)

Inductive TaskState := Submitted | Queued | Scheduled | Running | Completed | Failed | Cancelled | Retrying.

#[global] Instance TaskState_eq : EqDecision TaskState.
Proof. solve_decision. Defined.

Definition can_transition_to (s next : TaskState) : bool :=
  match s with
  | Submitted => match next with Queued | Cancelled | Failed => true | _ => false end
  | Queued => match next with Scheduled | Cancelled | Failed => true | _ => false end
  | Scheduled =>
      match next with Running | Completed | Failed | Retrying | Queued | Cancelled => true | _ => false end
  | Running => match next with Completed | Failed | Retrying | Queued | Cancelled => true | _ => false end
  | Retrying => match next with Queued | Failed | Cancelled => true | _ => false end
  | Completed | Failed | Cancelled => false
  end.

Definition is_terminal (s : TaskState) : bool :=
  match s with Completed | Failed | Cancelled => true | _ => false end.

Definition is_active (s : TaskState) : bool :=
  match s with Scheduled | Running => true | _ => false end.

Definition state_to_status (s : TaskState) : TaskStatus :=
  match s with
  | Submitted | Queued => StQueued
  | Scheduled => StAssigned
  | Running => StRunning
  | Completed => StCompleted
  | Failed => StFailed
  | Cancelled => StCancelled
  | Retrying => StRetried
  end.

Definition status_to_state (s : TaskStatus) : TaskState :=
  match s with
  | StQueued => Queued
  | StAssigned => Scheduled
  | StRunning => Running
  | StCompleted => Completed
  | StFailed | StTimedOut => Failed
  | StRetried => Retrying
  | StCancelled => Cancelled
  end.

(** ** Keys of the two ordered sets *)

Record QueueOrderKey := { qk_priority : N; qk_sequence : N; qk_task_id : TaskId }.

(** [Reverse(priority)], then the sequence, then the task id. *)
#[global] Instance QueueOrderKey_ord : OrdKey QueueOrderKey := fun a b =>
  then_with (N.compare (qk_priority b) (qk_priority a))
    (then_with (N.compare (qk_sequence a) (qk_sequence b)) (N.compare (qk_task_id a) (qk_task_id b))).

Record DelayedRetryKey := { dk_retry_after : Instant; dk_task_id : TaskId }.

#[global] Instance DelayedRetryKey_ord : OrdKey DelayedRetryKey := fun a b =>
  then_with (N.compare (dk_retry_after a) (dk_retry_after b)) (N.compare (dk_task_id a) (dk_task_id b)).

(** ** Retry policy *)

Definition DEFAULT_MAX_FAILOVERS : N := 10.
Definition MAX_WORKER_REJECTIONS_PER_TASK : N := 3.

Record RetryPolicy := {
  rp_max_retries : N;
  rp_max_failovers : N;
  rp_initial_backoff_ms : N;
  rp_max_backoff_ms : N;
  rp_backoff_multiplier : f64;
  rp_retry_on_execution_failure : bool;
  rp_retry_on_worker_disconnect : bool
}.

Definition retry_policy_default : RetryPolicy := {|
  rp_max_retries := 3;
  rp_max_failovers := DEFAULT_MAX_FAILOVERS;
  rp_initial_backoff_ms := 500;
  rp_max_backoff_ms := 30000;
  rp_backoff_multiplier := f64_two;
  rp_retry_on_execution_failure := false;
  rp_retry_on_worker_disconnect := true
|}.

Definition calculate_backoff (p : RetryPolicy) (attempt : N) : N :=
  if attempt =? 0 then 0
  else
    let exp := u32_as_i32 (attempt - 1) in
    let factor := f64_powi (rp_backoff_multiplier p) exp in
    let delay := f64_round_as_u64 (f64_mul (f64_of_N (rp_initial_backoff_ms p)) factor) in
    N.min delay (rp_max_backoff_ms p).

(** ** Entries *)

Record RetryAttempt := {
  ra_attempt : N;
  ra_timestamp_utc : N;
  ra_failed_worker_id : option Uuid;
  ra_reason : Str;
  ra_exit_code : option Z;
  ra_error : option Str
}.

Record TaskEntry := {
  te_task : Task;
  te_priority : N;
  te_sequence : N;
  te_state : TaskState;
  te_assigned_worker_id : option Uuid;
  te_submitted_at_utc : N;
  te_submitted_instant : Instant;
  te_scheduled_instant : option Instant;
  te_started_instant : option Instant;
  te_retry_after_instant : option Instant;
  te_retry_count : N;
  te_failover_count : N;
  te_rejection_count : N;
  te_avoid_workers : list Uuid;
  te_assigned_session : option N;
  te_retry_history : list RetryAttempt;
  te_result : option TaskResult;
  te_error_message : option Str
}.

(** Entry updates: [e with state], [e with assignment], ... *)
Definition upd_entry (e : TaskEntry) (st : TaskState) (wid : option Uuid) (ses : option N)
    (sch sta rta : option Instant) (rc fc rj : N) (av : list Uuid) (hist : list RetryAttempt)
    (res : option TaskResult) (err : option Str) : TaskEntry := {|
  te_task := te_task e; te_priority := te_priority e; te_sequence := te_sequence e;
  te_state := st; te_assigned_worker_id := wid;
  te_submitted_at_utc := te_submitted_at_utc e; te_submitted_instant := te_submitted_instant e;
  te_scheduled_instant := sch; te_started_instant := sta; te_retry_after_instant := rta;
  te_retry_count := rc; te_failover_count := fc; te_rejection_count := rj; te_avoid_workers := av;
  te_assigned_session := ses; te_retry_history := hist; te_result := res; te_error_message := err
|}.

Definition set_task (t : Task) (e : TaskEntry) : TaskEntry := {|
  te_task := t; te_priority := te_priority e; te_sequence := te_sequence e;
  te_state := te_state e; te_assigned_worker_id := te_assigned_worker_id e;
  te_submitted_at_utc := te_submitted_at_utc e; te_submitted_instant := te_submitted_instant e;
  te_scheduled_instant := te_scheduled_instant e; te_started_instant := te_started_instant e;
  te_retry_after_instant := te_retry_after_instant e; te_retry_count := te_retry_count e;
  te_failover_count := te_failover_count e; te_rejection_count := te_rejection_count e;
  te_avoid_workers := te_avoid_workers e; te_assigned_session := te_assigned_session e;
  te_retry_history := te_retry_history e; te_result := te_result e; te_error_message := te_error_message e
|}.

(** [RetryPolicy::failover_budget]: may the entry be re-run after an
    infrastructure failure, and under which cap. *)
Definition failover_budget (p : RetryPolicy) (e : TaskEntry) : bool * N :=
  match req_max_retries (task_requirements (te_task e)) with
  | Some limit => (te_retry_count e <? limit, limit)
  | None =>
      let cap := if rp_max_retries p =? 0 then 0 else N.max (rp_max_failovers p) (rp_max_retries p) in
      (te_failover_count e <? cap, cap)
  end.

Record TaskInfo := {
  in_task_id : TaskId;
  in_state : TaskState;
  in_priority : N;
  in_gpu_required : bool;
  in_assigned_worker_id : option Uuid;
  in_retry_count : N;
  in_submitted_at_utc : N;
  in_execution_time_ms : option N;
  in_exit_code : option Z;
  in_error_message : option Str
}.

Definition to_info (e : TaskEntry) : TaskInfo := {|
  in_task_id := task_id (te_task e);
  in_state := te_state e;
  in_priority := te_priority e;
  in_gpu_required := req_gpu_required (task_requirements (te_task e)) || spec_requires_gpu (task_spec (te_task e));
  in_assigned_worker_id := te_assigned_worker_id e;
  in_retry_count := te_retry_count e;
  in_submitted_at_utc := te_submitted_at_utc e;
  in_execution_time_ms := res_execution_time_ms <$> te_result e;
  in_exit_code := res_exit_code <$> te_result e;
  in_error_message := te_error_message e
|}.

Record QueueStats := {
  qs_total : N; qs_queued : N; qs_scheduled : N; qs_running : N; qs_retrying : N;
  qs_completed : N; qs_failed : N; qs_cancelled : N; qs_active_bytes : N; qs_max_active_bytes : N
}.

Definition cluster_buckets (s : QueueStats) : N * N * N * N :=
  (qs_queued s + qs_retrying s, qs_scheduled s + qs_running s, qs_completed s, qs_failed s + qs_cancelled s).

Definition DEFAULT_MAX_TERMINAL_TASKS : N := 10000.
Definition DEFAULT_MAX_TERMINAL_BYTES : N := 256 * 1024 * 1024.
Definition DEFAULT_MAX_ACTIVE_BYTES : N := 256 * 1024 * 1024.
Definition RETAINED_ENTRY_OVERHEAD_BYTES : N := 1024.
Definition BLOB_REF_BYTES : N := 48.

(** ** Scheduling views *)

Record TaskView := {
  tv_task_id : TaskId;
  tv_requirements : TaskRequirements;
  tv_requires_gpu : bool;
  tv_heavy : bool;
  tv_required_features : ProtocolCapabilities;
  tv_avoid : list Uuid;
  tv_placement : result PlacementError Placement
}.

Definition required_features (t : Task) : ProtocolCapabilities :=
  let f := if negb (is_empty (task_staged_files t)) || negb (is_empty (task_expected_outputs t))
           then features_insert 0 FILE_STAGING else 0 in
  if uses_blobs t then features_insert f BLOB_TRANSFER else f.

Definition view_of (t : Task) (avoid : list Uuid) : TaskView := {|
  tv_task_id := task_id t;
  tv_requirements := task_requirements t;
  tv_requires_gpu := req_gpu_required (task_requirements t) || spec_requires_gpu (task_spec t);
  tv_heavy := is_heavy (task_spec t);
  tv_required_features := required_features t;
  tv_avoid := avoid;
  tv_placement := task_placement t
|}.

Record AssignedLoad := { al_tasks : N; al_slots : N; al_unstarted_ram_mb : N }.
Definition load_default : AssignedLoad := {| al_tasks := 0; al_slots := 0; al_unstarted_ram_mb := 0 |}.

(** ** Outcomes and errors *)

Inductive ResultDisposition := Terminal | Requeued | Late | Stale.

Record ResultOutcome := { ro_disposition : ResultDisposition; ro_state : TaskState; ro_rejected : bool }.

Record CancelOutcome := {
  co_newly_cancelled : bool;
  co_worker_to_notify : option Uuid;
  co_result : option TaskResult
}.

(** The variants of [GridError] these operations return. *)
Inductive GridError :=
| TaskNotFound (id : TaskId)
| InvalidTaskState (id : TaskId) (current attempted : TaskState)
| NotAssignedHere (id : TaskId) (current attempted : TaskState)
| QueueFull (capacity : N)
| QueueByteLimitExceeded (task_bytes in_use_bytes max_bytes : N)
| ConfigInvalid (e : TaskError)
| ConfigDuplicate (id : TaskId) (st : TaskState).

(** ** Worker rejections *)

Definition WORKER_REJECTION_MARKERS : list Str :=
  [str "rejected by worker"; str "exceed worker capabilities";
   str "capabilities insufficient"; str "lacks gpu capability"].

Definition is_worker_rejection (r : TaskResult) : bool :=
  if (res_exit_code r =? 0)%Z || (res_exit_code r =? 130)%Z
     || negb (res_execution_time_ms r =? 0) || negb (is_empty (res_stdout r))
  then false
  else
    let text := default [] (res_error r) ++ [32] ++ from_utf8_lossy (res_stderr r) in
    let text := to_ascii_lowercase text in
    existsb (fun m => contains m text) WORKER_REJECTION_MARKERS.

(** [owned_by]: assigned to the worker and, if both sides know it, the session. *)
Definition owned_by (e : TaskEntry) (worker_id : Uuid) (session_id : option N) : bool :=
  bool_decide (te_assigned_worker_id e = Some worker_id)
  && match session_id, te_assigned_session e with
     | Some claimed, Some assigned => claimed =? assigned
     | _, _ => true
     end.

(** ** Byte accounting *)

Definition sum_by {A} (f : A -> N) (l : list A) : N := foldr (fun x acc => f x + acc) 0 l.
Definition opt_len {A} (f : A -> N) (o : option A) : N := match o with Some x => f x | None => 0 end.
Definition env_bytes (env : gmap Str Str) : N :=
  map_fold (fun k v acc => str_len k + str_len v + acc) 0 env.

Definition spec_bytes (s : TaskSpec) : N :=
  match s with
  | Command program args env working_dir stdin =>
      str_len program + sum_by str_len args + env_bytes env + opt_len blen working_dir + opt_len blen stdin
  | ShellScript script interpreter env => str_len script + opt_len str_len interpreter + env_bytes env
  | RustCompilation crate_name source_files compiler_flags target_dir =>
      str_len crate_name + env_bytes source_files + sum_by str_len compiler_flags + opt_len blen target_dir
  | GpuCompute kernel_name input_data _ _ _ => str_len kernel_name + blen input_data
  | BuiltinTest test_name _ _ _ _ => str_len test_name
  | Generative3D s =>
      opt_len str_len (g3_prompt s) + opt_len blen (g3_image_data s) + str_len (g3_quality s)
      + opt_len str_len (g3_engine_preference s)
  | AutoRig s =>
      blen (ar_input_mesh s) + str_len (ar_rig_preset s) + sum_by str_len (ar_embed_animations s)
      + opt_len str_len (ar_preferred_provider s)
  end.

Definition checkpoint_bytes (t : Task) : N := opt_len (fun c => blen (cp_delta_state c)) (task_latest_checkpoint t).

Definition task_active_bytes (t : Task) : N :=
  RETAINED_ENTRY_OVERHEAD_BYTES
  + spec_bytes (task_spec t)
  + sum_by (fun f => str_len (sf_path f) + blen (sf_data f)) (task_staged_files t)
  + sum_by str_len (task_expected_outputs t)
  + (sum_by (fun i => str_len (ti_path i) + BLOB_REF_BYTES) (task_inputs t) + sum_by str_len (task_output_globs t))
  + checkpoint_bytes t
  + sum_by str_len (task_tags t).

Definition result_bytes (r : TaskResult) : N :=
  blen (res_stdout r) + blen (res_stderr r) + opt_len str_len (res_error r)
  + opt_len str_len (res_device_name r) + opt_len blen (res_asset_bytes r)
  + sum_by (fun a => str_len (oa_path a) + blen (oa_data a)) (res_artifacts r)
  + sum_by (fun o => str_len (bf_path o) + BLOB_REF_BYTES) (res_outputs r).

Definition retained_bytes (e : TaskEntry) : N :=
  task_active_bytes (te_task e)
  + opt_len result_bytes (te_result e)
  + sum_by (fun a => str_len (ra_reason a) + opt_len str_len (ra_error a)) (te_retry_history e)
  + opt_len str_len (te_error_message e).

(** ** The queue *)

Record TaskQueueInner := {
  tasks : gmap TaskId TaskEntry;
  ready_queue : list QueueOrderKey;
  delayed_retries : list DelayedRetryKey;
  worker_assignments : gmap Uuid (gset TaskId);
  next_sequence : N;
  retry_policy : RetryPolicy;
  capacity : option N;
  max_terminal_tasks : N;
  max_terminal_bytes : N;
  max_active_bytes : N;
  terminal_order : list TaskId;
  terminal_sizes : gmap TaskId N;
  terminal_bytes : N;
  active_sizes : gmap TaskId N;
  active_bytes : N
}.

Definition with_retention_limits (policy : RetryPolicy) (cap : option N) (mtt mtb mab : N) : TaskQueueInner := {|
  tasks := ∅; ready_queue := []; delayed_retries := []; worker_assignments := ∅; next_sequence := 1;
  retry_policy := policy; capacity := cap; max_terminal_tasks := mtt; max_terminal_bytes := mtb;
  max_active_bytes := mab; terminal_order := []; terminal_sizes := ∅; terminal_bytes := 0;
  active_sizes := ∅; active_bytes := 0
|}.

(** Field updates. *)
Definition set_tasks f q := {|
  tasks := f (tasks q); ready_queue := ready_queue q; delayed_retries := delayed_retries q;
  worker_assignments := worker_assignments q; next_sequence := next_sequence q; retry_policy := retry_policy q;
  capacity := capacity q; max_terminal_tasks := max_terminal_tasks q; max_terminal_bytes := max_terminal_bytes q;
  max_active_bytes := max_active_bytes q; terminal_order := terminal_order q; terminal_sizes := terminal_sizes q;
  terminal_bytes := terminal_bytes q; active_sizes := active_sizes q; active_bytes := active_bytes q |}.
Definition set_ready f q := {|
  tasks := tasks q; ready_queue := f (ready_queue q); delayed_retries := delayed_retries q;
  worker_assignments := worker_assignments q; next_sequence := next_sequence q; retry_policy := retry_policy q;
  capacity := capacity q; max_terminal_tasks := max_terminal_tasks q; max_terminal_bytes := max_terminal_bytes q;
  max_active_bytes := max_active_bytes q; terminal_order := terminal_order q; terminal_sizes := terminal_sizes q;
  terminal_bytes := terminal_bytes q; active_sizes := active_sizes q; active_bytes := active_bytes q |}.
Definition set_delayed f q := {|
  tasks := tasks q; ready_queue := ready_queue q; delayed_retries := f (delayed_retries q);
  worker_assignments := worker_assignments q; next_sequence := next_sequence q; retry_policy := retry_policy q;
  capacity := capacity q; max_terminal_tasks := max_terminal_tasks q; max_terminal_bytes := max_terminal_bytes q;
  max_active_bytes := max_active_bytes q; terminal_order := terminal_order q; terminal_sizes := terminal_sizes q;
  terminal_bytes := terminal_bytes q; active_sizes := active_sizes q; active_bytes := active_bytes q |}.
Definition set_assignments f q := {|
  tasks := tasks q; ready_queue := ready_queue q; delayed_retries := delayed_retries q;
  worker_assignments := f (worker_assignments q); next_sequence := next_sequence q; retry_policy := retry_policy q;
  capacity := capacity q; max_terminal_tasks := max_terminal_tasks q; max_terminal_bytes := max_terminal_bytes q;
  max_active_bytes := max_active_bytes q; terminal_order := terminal_order q; terminal_sizes := terminal_sizes q;
  terminal_bytes := terminal_bytes q; active_sizes := active_sizes q; active_bytes := active_bytes q |}.
Definition set_next_sequence f q := {|
  tasks := tasks q; ready_queue := ready_queue q; delayed_retries := delayed_retries q;
  worker_assignments := worker_assignments q; next_sequence := f (next_sequence q); retry_policy := retry_policy q;
  capacity := capacity q; max_terminal_tasks := max_terminal_tasks q; max_terminal_bytes := max_terminal_bytes q;
  max_active_bytes := max_active_bytes q; terminal_order := terminal_order q; terminal_sizes := terminal_sizes q;
  terminal_bytes := terminal_bytes q; active_sizes := active_sizes q; active_bytes := active_bytes q |}.
Definition set_limits mtt mtb q := {|
  tasks := tasks q; ready_queue := ready_queue q; delayed_retries := delayed_retries q;
  worker_assignments := worker_assignments q; next_sequence := next_sequence q; retry_policy := retry_policy q;
  capacity := capacity q; max_terminal_tasks := mtt; max_terminal_bytes := mtb;
  max_active_bytes := max_active_bytes q; terminal_order := terminal_order q; terminal_sizes := terminal_sizes q;
  terminal_bytes := terminal_bytes q; active_sizes := active_sizes q; active_bytes := active_bytes q |}.
Definition set_terminal order sizes bytes q := {|
  tasks := tasks q; ready_queue := ready_queue q; delayed_retries := delayed_retries q;
  worker_assignments := worker_assignments q; next_sequence := next_sequence q; retry_policy := retry_policy q;
  capacity := capacity q; max_terminal_tasks := max_terminal_tasks q; max_terminal_bytes := max_terminal_bytes q;
  max_active_bytes := max_active_bytes q; terminal_order := order; terminal_sizes := sizes;
  terminal_bytes := bytes; active_sizes := active_sizes q; active_bytes := active_bytes q |}.
Definition set_active sizes bytes q := {|
  tasks := tasks q; ready_queue := ready_queue q; delayed_retries := delayed_retries q;
  worker_assignments := worker_assignments q; next_sequence := next_sequence q; retry_policy := retry_policy q;
  capacity := capacity q; max_terminal_tasks := max_terminal_tasks q; max_terminal_bytes := max_terminal_bytes q;
  max_active_bytes := max_active_bytes q; terminal_order := terminal_order q; terminal_sizes := terminal_sizes q;
  terminal_bytes := terminal_bytes q; active_sizes := sizes; active_bytes := bytes |}.
