(* ===== verification/QueueOps.v ===== *)
(** * QueueOps: the operations of the task queue

    Models the methods of [TaskQueueInner] and [TaskQueue] in
    [crates/master/src/queue.rs].  A method that holds the write lock is a
    function returning its result and the new queue; a method that holds the read
    lock is a function of the queue.  The queue returned with an error is the one
    the method leaves behind, also when it changed something before failing. *)

From S2P Require Import Prelude Collections RustStr Float Capabilities Placement Blob Task Queue.
Local Open Scope N_scope.

(** ** Shared steps *)

Definition entry_key (e : TaskEntry) (tid : TaskId) : QueueOrderKey :=
  {| qk_priority := te_priority e; qk_sequence := te_sequence e; qk_task_id := tid |}.

(** [worker_assignments.get_mut(wid)] and [remove(tid)] if it is there. *)
Definition unassign (wid : Uuid) (tid : TaskId) : TaskQueueInner -> TaskQueueInner :=
  set_assignments (alter (fun s => s ∖ {[tid]}) wid).

(** [worker_assignments.entry(wid).or_default().insert(tid)]. *)
Definition assign (wid : Uuid) (tid : TaskId) : TaskQueueInner -> TaskQueueInner :=
  set_assignments (partial_alter (fun o => Some (default ∅ o ∪ {[tid]})) wid).

Definition put_entry (tid : TaskId) (e : TaskEntry) : TaskQueueInner -> TaskQueueInner :=
  set_tasks <[tid := e]>.

(** ** Retention bookkeeping *)

Definition untrack_active_task (tid : TaskId) (q : TaskQueueInner) : TaskQueueInner :=
  match active_sizes q !! tid with
  | Some size => set_active (delete tid (active_sizes q)) (active_bytes q - size) q
  | None => q
  end.

Definition update_active_task (tid : TaskId) (q : TaskQueueInner) : TaskQueueInner :=
  let q := untrack_active_task tid q in
  match tasks q !! tid with
  | Some e =>
      if is_terminal (te_state e) then q
      else
        let size := retained_bytes e in
        set_active (<[tid := size]> (active_sizes q)) (saturating_add usize_max (active_bytes q) size) q
  | None => q
  end.

Definition remove_retained (tid : TaskId) (q : TaskQueueInner) : TaskQueueInner :=
  let q := set_tasks (delete tid) q in
  let q := untrack_active_task tid q in
  match terminal_sizes q !! tid with
  | Some size => set_terminal (terminal_order q) (delete tid (terminal_sizes q)) (terminal_bytes q - size) q
  | None => q
  end.

Definition holds_terminal (q : TaskQueueInner) (tid : TaskId) : bool :=
  match tasks q !! tid with Some e => is_terminal (te_state e) | None => false end.

Definition evict_oldest_terminal (q : TaskQueueInner) : bool * TaskQueueInner :=
  match terminal_order q with
  | [] => (false, q)
  | oldest :: rest =>
      let q := set_terminal rest (terminal_sizes q) (terminal_bytes q) q in
      if holds_terminal q oldest then (true, remove_retained oldest q)
      else (true, set_terminal rest (delete oldest (terminal_sizes q)) (terminal_bytes q) q)
  end.

Definition over_count (q : TaskQueueInner) : bool :=
  max_terminal_tasks q <? N.of_nat (length (terminal_order q)).

Definition over_bytes (q : TaskQueueInner) : bool :=
  (max_terminal_bytes q <? terminal_bytes q) && (1 <? N.of_nat (length (terminal_order q))).

(** A [while cond { if !evict_oldest_terminal() { break } }] loop.  Every round
    pops one element of [terminal_order], so its length is fuel enough. *)
Fixpoint evict_while (cond : TaskQueueInner -> bool) (fuel : nat) (q : TaskQueueInner) : TaskQueueInner :=
  match fuel with
  | O => q
  | S fuel =>
      if cond q then
        match evict_oldest_terminal q with
        | (true, q') => evict_while cond fuel q'
        | (false, q') => q'
        end
      else q
  end.

Definition enforce_terminal_limits (q : TaskQueueInner) : TaskQueueInner :=
  let q := evict_while over_count (length (terminal_order q)) q in
  evict_while over_bytes (length (terminal_order q)) q.

Definition track_terminal_task (tid : TaskId) (q : TaskQueueInner) : TaskQueueInner :=
  let q := untrack_active_task tid q in
  match terminal_sizes q !! tid with
  | Some _ => q
  | None =>
      let size := match tasks q !! tid with Some e => retained_bytes e | None => 0 end in
      enforce_terminal_limits
        (set_terminal (terminal_order q ++ [tid]) (<[tid := size]> (terminal_sizes q)) (terminal_bytes q + size) q)
  end.

Fixpoint evict_terminal_loop (max_retained : N) (fuel : nat) (evicted : N) (q : TaskQueueInner)
    : N * TaskQueueInner :=
  match fuel with
  | O => (evicted, q)
  | S fuel =>
      if max_retained <? N.of_nat (length (terminal_order q)) then
        let had_entry := match head (terminal_order q) with Some id => holds_terminal q id | None => false end in
        match evict_oldest_terminal q with
        | (false, q') => (evicted, q')
        | (true, q') => evict_terminal_loop max_retained fuel (if had_entry then evicted + 1 else evicted) q'
        end
      else (evicted, q)
  end.

Definition evict_terminal_tasks (max_retained : N) (q : TaskQueueInner) : N * TaskQueueInner :=
  evict_terminal_loop max_retained (length (terminal_order q)) 0 q.

Definition set_max_terminal_tasks (limit : N) (q : TaskQueueInner) : TaskQueueInner :=
  enforce_terminal_limits (set_limits limit (max_terminal_bytes q) q).

Definition set_max_terminal_bytes (limit : N) (q : TaskQueueInner) : TaskQueueInner :=
  enforce_terminal_limits (set_limits (max_terminal_tasks q) limit q).

(** ** Submission *)

Definition active_count (q : TaskQueueInner) : N :=
  map_sum (fun e => if is_terminal (te_state e) then 0 else 1) (tasks q).

Definition capacity_check (q : TaskQueueInner) : result GridError unit :=
  match capacity q with
  | Some cap => if cap <=? active_count q then Err (QueueFull cap) else Ok tt
  | None => Ok tt
  end.

Definition bytes_check (bytes : N) (q : TaskQueueInner) : result GridError unit :=
  if max_active_bytes q <? saturating_add usize_max (active_bytes q) bytes
  then Err (QueueByteLimitExceeded bytes (active_bytes q) (max_active_bytes q))
  else Ok tt.

Definition check_room (task_bytes : N) (q : TaskQueueInner) : result GridError unit :=
  result_bind (capacity_check q) (fun _ => bytes_check task_bytes q).

Definition new_entry (t : Task) (priority sequence now epoch : N) : TaskEntry := {|
  te_task := t; te_priority := priority; te_sequence := sequence; te_state := Queued;
  te_assigned_worker_id := None; te_submitted_at_utc := epoch; te_submitted_instant := now;
  te_scheduled_instant := None; te_started_instant := None; te_retry_after_instant := None;
  te_retry_count := 0; te_failover_count := 0; te_rejection_count := 0; te_avoid_workers := [];
  te_assigned_session := None; te_retry_history := []; te_result := None; te_error_message := None
|}.

(** The four statements that end both submission methods. *)
Definition accept_entry (tid : TaskId) (e : TaskEntry) (bytes : N) (q : TaskQueueInner) : TaskQueueInner :=
  let q := put_entry tid e q in
  let q := set_active (<[tid := bytes]> (active_sizes q)) (saturating_add usize_max (active_bytes q) bytes) q in
  set_ready (bt_insert (entry_key e tid)) q.

Section uuid.
Context `{UuidApi}.

Definition submit_with_priority (now epoch : N) (t : Task) (priority : N) (q : TaskQueueInner)
    : result GridError TaskId * TaskQueueInner :=
  match task_validate t with
  | Err e => (Err (ConfigInvalid e), q)
  | Ok _ =>
  match tasks q !! task_id t with
  | Some existing => (Err (ConfigDuplicate (task_id t) (te_state existing)), q)
  | None =>
  match capacity_check q with
  | Err e => (Err e, q)
  | Ok _ =>
      let tid := task_id t in
      let e := new_entry t priority (next_sequence q) now epoch in
      let q := set_next_sequence (N.add 1) q in
      let entry_bytes := retained_bytes e in
      match bytes_check entry_bytes q with
      | Err err => (Err err, q)
      | Ok _ => (Ok tid, accept_entry tid e entry_bytes q)
      end
  end end end.

Definition submit (now epoch : N) (t : Task) (q : TaskQueueInner) := submit_with_priority now epoch t 0 q.

(** [try_submit_slot] of the slot [Some t]; the slot is left in place exactly
    when an error is returned.  [q_read] is the queue [check_room] saw under its
    read lock, [q] the queue when the write lock was taken. *)
Definition try_submit_slot (now epoch : N) (slot : option Task) (q_read q : TaskQueueInner)
    : result (option GridError) TaskId * option Task * TaskQueueInner :=
  match slot with
  | None => (Err None, None, q)
  | Some t =>
  match task_validate t with
  | Err e => (Err (Some (ConfigInvalid e)), slot, q)
  | Ok _ =>
  let entry_bytes := task_active_bytes t in
  match check_room entry_bytes q_read with
  | Err e => (Err (Some e), slot, q)
  | Ok _ =>
  match tasks q !! task_id t with
  | Some existing => (Err (Some (ConfigDuplicate (task_id t) (te_state existing))), slot, q)
  | None =>
  match result_bind (capacity_check q) (fun _ => bytes_check entry_bytes q) with
  | Err e => (Err (Some e), slot, q)
  | Ok _ =>
      let tid := task_id t in
      let e := new_entry t 0 (next_sequence q) now epoch in
      (Ok tid, None, accept_entry tid e entry_bytes (set_next_sequence (N.add 1) q))
  end end end end end.

(** ** Scheduling *)

Definition queued_entry (q : TaskQueueInner) (tid : TaskId) : option TaskEntry :=
  match tasks q !! tid with
  | Some e => if bool_decide (te_state e = Queued) then Some e else None
  | None => None
  end.

Definition get_schedulable_tasks (q : TaskQueueInner) : list Task :=
  omap (fun k => te_task <$> queued_entry q (qk_task_id k)) (ready_queue q).

Definition entry_view (e : TaskEntry) : TaskView := view_of (te_task e) (te_avoid_workers e).

(** The loop of [ready_views] over the remaining keys; [n] views were pushed.
    [limit] is compared after each push, as in the source. *)
Fixpoint ready_views_loop (q : TaskQueueInner) (limit n : N) (keys : list QueueOrderKey)
    : list TaskView * option QueueOrderKey :=
  match keys with
  | [] => ([], None)
  | key :: keys =>
      match queued_entry q (qk_task_id key) with
      | None => ready_views_loop q limit n keys
      | Some e =>
          if limit <=? n + 1 then ([entry_view e], Some key)
          else let '(vs, next) := ready_views_loop q limit (n + 1) keys in (entry_view e :: vs, next)
      end
  end.

Definition ready_views (after : option QueueOrderKey) (limit : N) (q : TaskQueueInner)
    : list TaskView * option QueueOrderKey :=
  let keys := match after with Some key => bt_range_after key (ready_queue q) | None => ready_queue q end in
  ready_views_loop q limit 0 keys.

Definition ready_task_ids (limit : nat) (q : TaskQueueInner) : list TaskId :=
  take limit (qk_task_id <$> filter (fun k => is_Some (queued_entry q (qk_task_id k))) (ready_queue q)).

Definition any_queued (pred : Task -> bool) (q : TaskQueueInner) : bool :=
  existsb (fun k => match queued_entry q (qk_task_id k) with Some e => pred (te_task e) | None => false end)
    (ready_queue q).

(** One task of a worker's assignment set in [assigned_loads]. *)
Definition add_load (q : TaskQueueInner) (tid : TaskId) (load : AssignedLoad) : AssignedLoad :=
  match tasks q !! tid with
  | None => load
  | Some e =>
      if is_active (te_state e) then
        let r := task_requirements (te_task e) in
        {| al_tasks := al_tasks load + 1;
           al_slots := al_slots load + N.max (req_cpu_cores r) 1;
           al_unstarted_ram_mb :=
             if bool_decide (te_state e = Scheduled) then al_unstarted_ram_mb load + req_ram_mb r
             else al_unstarted_ram_mb load |}
      else load
  end.

Definition assigned_loads (q : TaskQueueInner) : gmap Uuid AssignedLoad :=
  omap (fun ids =>
          let load := set_fold (add_load q) load_default ids in
          if 0 <? al_tasks load then Some load else None)
    (worker_assignments q).

Definition avoided_workers_for (ids : list TaskId) (q : TaskQueueInner) : gmap TaskId (list Uuid) :=
  foldl (fun m id =>
           match tasks q !! id with
           | Some e => if is_empty (te_avoid_workers e) then m else <[id := te_avoid_workers e]> m
           | None => m
           end) ∅ ids.

(** The entry once assigned to a worker. *)
Definition to_scheduled (now : N) (worker_id : Uuid) (session : option N) (e : TaskEntry) : TaskEntry :=
  upd_entry e Scheduled (Some worker_id) session (Some now) (te_started_instant e) (te_retry_after_instant e)
    (te_retry_count e) (te_failover_count e) (te_rejection_count e) (te_avoid_workers e)
    (te_retry_history e) (te_result e) (te_error_message e).

(** The steps [pop_and_schedule], [schedule_task] and [schedule_batch_inner] share. *)
Definition take_ready (now : N) (key : QueueOrderKey) (e : TaskEntry) (worker_id : Uuid) (session : option N)
    (q : TaskQueueInner) : TaskQueueInner :=
  let tid := qk_task_id key in
  assign worker_id tid (put_entry tid (to_scheduled now worker_id session e) (set_ready (bt_remove key) q)).

Definition pop_and_schedule (now : N) (worker_id : Uuid) (predicate : TaskRequirements -> bool) (q : TaskQueueInner)
    : option Task * TaskQueueInner :=
  let wanted k := match queued_entry q (qk_task_id k) with
                  | Some e => predicate (task_requirements (te_task e))
                  | None => false
                  end in
  match List.find wanted (ready_queue q) with
  | None => (None, q)
  | Some key =>
      match tasks q !! qk_task_id key with
      | None => (None, set_ready (bt_remove key) q)
      | Some e => (Some (te_task e), take_ready now key e worker_id None q)
      end
  end.

Definition schedule_task (now : N) (tid : TaskId) (worker_id : Uuid) (q : TaskQueueInner)
    : option Task * TaskQueueInner :=
  match tasks q !! tid with
  | None => (None, q)
  | Some e =>
      if bool_decide (te_state e = Queued)
      then (Some (te_task e), take_ready now (entry_key e tid) e worker_id None q)
      else (None, q)
  end.

(** One iteration of the loop of [schedule_batch_inner]. *)
Definition schedule_one (now : N) (a : TaskId * Uuid * option N) (q : TaskQueueInner)
    : option (TaskId * Uuid * Task) * TaskQueueInner :=
  let '(tid, worker_id, session) := a in
  match tasks q !! tid with
  | None => (None, q)
  | Some e =>
      if bool_decide (te_state e = Queued)
      then (Some (tid, worker_id, te_task e), take_ready now (entry_key e tid) e worker_id session q)
      else (None, set_ready (bt_remove (entry_key e tid)) q)
  end.

Fixpoint schedule_batch_inner (now : N) (assignments : list (TaskId * Uuid * option N)) (q : TaskQueueInner)
    : list (TaskId * Uuid * Task) * TaskQueueInner :=
  match assignments with
  | [] => ([], q)
  | a :: rest =>
      let '(o, q1) := schedule_one now a q in
      let '(scheduled, q2) := schedule_batch_inner now rest q1 in
      (match o with Some x => x :: scheduled | None => scheduled end, q2)
  end.

Definition schedule_tasks_batch (now : N) (assignments : list (TaskId * Uuid)) (q : TaskQueueInner) :=
  schedule_batch_inner now ((fun '(t, w) => (t, w, None)) <$> assignments) q.

Definition schedule_tasks_batch_in_sessions (now : N) (assignments : list (TaskId * Uuid * N)) (q : TaskQueueInner) :=
  schedule_batch_inner now ((fun '(t, w, s) => (t, w, Some s)) <$> assignments) q.

(** ** Putting tasks back *)

(** The entry back in the ready queue, its assignment cleared. *)
Definition to_requeued (e : TaskEntry) : TaskEntry :=
  upd_entry e Queued None None None (te_started_instant e) (te_retry_after_instant e)
    (te_retry_count e) (te_failover_count e) (te_rejection_count e) (te_avoid_workers e)
    (te_retry_history e) (te_result e) (te_error_message e).

Definition requeue_task (tid : TaskId) (q : TaskQueueInner) : result GridError unit * TaskQueueInner :=
  match tasks q !! tid with
  | None => (Err (TaskNotFound tid), q)
  | Some e =>
      if is_terminal (te_state e) then (Err (InvalidTaskState tid (te_state e) Queued), q)
      else
        let q := match te_assigned_worker_id e with Some wid => unassign wid tid q | None => q end in
        let q := put_entry tid (to_requeued e) q in
        (Ok tt, set_ready (bt_insert (entry_key e tid)) q)
  end.

(** [deliver_if_scheduled]: whether [deliver] runs. *)
Definition deliver_if_scheduled {R} (tid : TaskId) (worker_id : Uuid) (session_id : N) (deliver : R)
    (q : TaskQueueInner) : option R :=
  match tasks q !! tid with
  | None => None
  | Some e =>
      if negb (bool_decide (te_state e = Scheduled)) || negb (owned_by e worker_id (Some session_id)) then None
      else Some deliver
  end.

Definition requeue_dispatch_failure (tid : TaskId) (worker_id : Uuid) (session_id : N) (q : TaskQueueInner)
    : result GridError bool * TaskQueueInner :=
  match tasks q !! tid with
  | None => (Err (TaskNotFound tid), q)
  | Some e =>
      if negb (bool_decide (te_state e = Scheduled)) || negb (owned_by e worker_id (Some session_id))
      then (Ok false, q)
      else
        let q := put_entry tid (to_requeued e) q in
        let q := unassign worker_id tid q in
        (Ok true, set_ready (bt_insert (entry_key e tid)) q)
  end.

(** ** Progress and checkpoints *)

Definition to_running (now : N) (e : TaskEntry) : TaskEntry :=
  upd_entry e Running (te_assigned_worker_id e) (te_assigned_session e) (te_scheduled_instant e) (Some now)
    (te_retry_after_instant e) (te_retry_count e) (te_failover_count e) (te_rejection_count e)
    (te_avoid_workers e) (te_retry_history e) (te_result e) (te_error_message e).

Definition mark_running_from (now : N) (worker_id : Uuid) (session_id : option N) (tid : TaskId) (q : TaskQueueInner)
    : result GridError unit * TaskQueueInner :=
  match tasks q !! tid with
  | None => (Err (TaskNotFound tid), q)
  | Some e =>
      if negb (owned_by e worker_id session_id) then (Err (NotAssignedHere tid (te_state e) Running), q)
      else if negb (can_transition_to (te_state e) Running) then (Err (InvalidTaskState tid (te_state e) Running), q)
      else (Ok tt, put_entry tid (to_running now e) q)
  end.

Definition mark_running (now : N) (tid : TaskId) (worker_id : Uuid) (q : TaskQueueInner) :=
  mark_running_from now worker_id None tid q.

Definition is_newer_checkpoint (e : TaskEntry) (cp : CheckpointData) : bool :=
  match task_latest_checkpoint (te_task e) with
  | Some existing => cp_sequence existing <? cp_sequence cp
  | None => true
  end.

Definition checkpoint_exceeds_active_cap (e : TaskEntry) (cp : CheckpointData) (active_bytes max_active_bytes : N)
    : option N :=
  if negb (is_newer_checkpoint e cp) then None
  else
    let old_cp := checkpoint_bytes (te_task e) in
    let new_cp := blen (cp_delta_state cp) in
    if (old_cp <? new_cp) && (max_active_bytes <? saturating_add usize_max (active_bytes - old_cp) new_cp)
    then Some (saturating_add usize_max (retained_bytes e - old_cp) new_cp)
    else None.

Definition apply_checkpoint (e : TaskEntry) (cp : CheckpointData) : bool * TaskEntry :=
  if is_newer_checkpoint e cp then (true, set_task (update_checkpoint cp (te_task e)) e) else (false, e).

(** The common tail of the two [record_checkpoint] methods. *)
Definition store_checkpoint (tid : TaskId) (e : TaskEntry) (cp : CheckpointData) (q : TaskQueueInner)
    : result GridError bool * TaskQueueInner :=
  match checkpoint_exceeds_active_cap e cp (active_bytes q) (max_active_bytes q) with
  | Some task_bytes => (Err (QueueByteLimitExceeded task_bytes (active_bytes q) (max_active_bytes q)), q)
  | None =>
      let '(applied, e') := apply_checkpoint e cp in
      if applied then (Ok true, update_active_task tid (put_entry tid e' q)) else (Ok false, q)
  end.

Definition record_checkpoint (tid : TaskId) (cp : CheckpointData) (q : TaskQueueInner)
    : result GridError unit * TaskQueueInner :=
  match tasks q !! tid with
  | None => (Err (TaskNotFound tid), q)
  | Some e =>
      if is_terminal (te_state e) then (Ok tt, q)
      else let '(r, q') := store_checkpoint tid e cp q in (result_map (fun _ => tt) r, q')
  end.

Definition record_checkpoint_from (worker_id : Uuid) (session_id : option N) (tid : TaskId) (cp : CheckpointData)
    (q : TaskQueueInner) : result GridError bool * TaskQueueInner :=
  match tasks q !! tid with
  | None => (Err (TaskNotFound tid), q)
  | Some e =>
      if negb (is_active (te_state e)) || negb (owned_by e worker_id session_id) then (Ok false, q)
      else store_checkpoint tid e cp q
  end.

Definition get_checkpoint (tid : TaskId) (q : TaskQueueInner) : option CheckpointData :=
  tasks q !! tid ≫= fun e => task_latest_checkpoint (te_task e).

(** ** Results *)

Definition to_completed (r : TaskResult) (e : TaskEntry) : TaskEntry :=
  upd_entry e Completed (te_assigned_worker_id e) (te_assigned_session e) (te_scheduled_instant e)
    (te_started_instant e) (te_retry_after_instant e) (te_retry_count e) (te_failover_count e)
    (te_rejection_count e) (te_avoid_workers e) (te_retry_history e) (Some r) (te_error_message e).

(** [Cancelled] or [Failed] with a recorded result and message. *)
Definition to_ended (st : TaskState) (wid : option Uuid) (ses : option N) (r : option TaskResult) (msg : option Str)
    (e : TaskEntry) : TaskEntry :=
  upd_entry e st wid ses (te_scheduled_instant e) (te_started_instant e) (te_retry_after_instant e)
    (te_retry_count e) (te_failover_count e) (te_rejection_count e) (te_avoid_workers e)
    (te_retry_history e) r msg.

Definition REJECTION_REASON : Str := str "Worker rejected the task without running it".
Definition EXECUTION_FAILURE_REASON : Str := str "Non-zero exit code execution failure".

Definition to_rejected (epoch : N) (worker_id : Uuid) (r : TaskResult) (e : TaskEntry) : TaskEntry :=
  let retry_count := te_retry_count e + 1 in
  let avoid := if bool_decide (worker_id ∈ te_avoid_workers e) then te_avoid_workers e
               else te_avoid_workers e ++ [worker_id] in
  upd_entry e Queued None None None None (te_retry_after_instant e)
    retry_count (te_failover_count e + 1) (te_rejection_count e + 1) avoid
    (te_retry_history e ++ [{| ra_attempt := retry_count; ra_timestamp_utc := epoch;
        ra_failed_worker_id := Some worker_id; ra_reason := REJECTION_REASON;
        ra_exit_code := Some (res_exit_code r); ra_error := res_error r |}])
    (te_result e) (te_error_message e).

Definition to_execution_retry (retry_after epoch : N) (worker_id : Uuid) (r : TaskResult) (e : TaskEntry) : TaskEntry :=
  let retry_count := te_retry_count e + 1 in
  upd_entry e Retrying None None (te_scheduled_instant e) (te_started_instant e) (Some retry_after)
    retry_count (te_failover_count e) (te_rejection_count e) (te_avoid_workers e)
    (te_retry_history e ++ [{| ra_attempt := retry_count; ra_timestamp_utc := epoch;
        ra_failed_worker_id := Some worker_id; ra_reason := EXECUTION_FAILURE_REASON;
        ra_exit_code := Some (res_exit_code r); ra_error := res_error r |}])
    (te_result e) (te_error_message e).

(** What the branches of [record_result_from] decide: the new entry, the key to
    insert and the disposition; [None] is the refused completion. *)
Definition decide_result (policy : RetryPolicy) (now epoch : N) (worker_id : Uuid) (tid : TaskId) (r : TaskResult)
    (e : TaskEntry) : option (TaskEntry * option DelayedRetryKey * option QueueOrderKey * ResultDisposition) :=
  if is_success r then
    if negb (can_transition_to (te_state e) Completed) then None
    else Some (to_completed r e, None, None, Terminal)
  else if (res_exit_code r =? 130)%Z then
    let msg := match res_error r with Some m => Some m | None => Some (str "Cancelled") end in
    Some (to_ended Cancelled (te_assigned_worker_id e) (te_assigned_session e) (Some r) msg e, None, None, Terminal)
  else if is_worker_rejection r && rp_retry_on_worker_disconnect policy
          && (te_rejection_count e <? MAX_WORKER_REJECTIONS_PER_TASK) && (failover_budget policy e).1 then
    Some (to_rejected epoch worker_id r e, None, Some (entry_key e tid), Requeued)
  else if rp_retry_on_execution_failure policy
          && (te_retry_count e - te_failover_count e <? rp_max_retries policy) then
    let retry_after := now + from_millis (calculate_backoff policy (te_retry_count e + 1)) in
    Some (to_execution_retry retry_after epoch worker_id r e,
          Some {| dk_retry_after := retry_after; dk_task_id := tid |}, None, Requeued)
  else
    Some (to_ended Failed (te_assigned_worker_id e) (te_assigned_session e) (Some r) (res_error r) e, None, None, Terminal).

Definition record_result_from (now epoch : N) (worker_id : Uuid) (session_id : option N) (r : TaskResult)
    (q : TaskQueueInner) : result GridError ResultOutcome * TaskQueueInner :=
  let tid := res_task_id r in
  match tasks q !! tid with
  | None => (Err (TaskNotFound tid), q)
  | Some e =>
      let outcome d st rej := Ok {| ro_disposition := d; ro_state := st; ro_rejected := rej |} in
      if negb (owned_by e worker_id session_id) then (outcome Stale (te_state e) false, q)
      else
        let policy := retry_policy q in
        let q := unassign worker_id tid q in
        if is_terminal (te_state e) then (outcome Late (te_state e) false, q)
        else
          match decide_result policy now epoch worker_id tid r e with
          | None => (Err (InvalidTaskState tid (te_state e) Completed), q)
          | Some (e', delay_key, ready_key, d) =>
              let q := put_entry tid e' q in
              let q := match delay_key with Some k => set_delayed (bt_insert k) q | None => q end in
              let q := match ready_key with Some k => set_ready (bt_insert k) q | None => q end in
              let q := if is_terminal (te_state e') then track_terminal_task tid q else update_active_task tid q in
              (outcome d (te_state e') (is_worker_rejection r), q)
          end
  end.

Definition record_result (now epoch : N) (r : TaskResult) (q : TaskQueueInner) : result GridError TaskState * TaskQueueInner :=
  let '(o, q') := record_result_from now epoch (res_worker_id r) None r q in (result_map ro_state o, q').

Definition fail_unsendable_assignment (worker_id : Uuid) (session_id : option N) (r : TaskResult) (q : TaskQueueInner)
    : result GridError ResultDisposition * TaskQueueInner :=
  let tid := res_task_id r in
  match tasks q !! tid with
  | None => (Err (TaskNotFound tid), q)
  | Some e =>
      if negb (owned_by e worker_id session_id) then (Ok Stale, q)
      else
        let q := unassign worker_id tid q in
        if is_terminal (te_state e) then (Ok Late, q)
        else if negb (can_transition_to (te_state e) Failed) then (Err (InvalidTaskState tid (te_state e) Failed), q)
        else
          let e' := to_ended Failed (te_assigned_worker_id e) (te_assigned_session e) (Some r) (res_error r) e in
          (Ok Terminal, track_terminal_task tid (put_entry tid e' q))
  end.

(** ** Failover *)

Definition worker_evicted_error (reason : Str) : Str := str "Worker evicted (" ++ reason ++ str ")".

Definition retries_exhausted_error (cap used : N) (worker_id : Uuid) (reason : Str) : Str :=
  str "Task execution failed: maximum retry limit (" ++ show_N cap
  ++ str ") reached after worker eviction (Worker disconnected and retries exhausted (" ++ show_N used
  ++ str "/" ++ show_N cap ++ str "), last failure on worker " ++ uuid_to_string worker_id
  ++ str ": " ++ reason ++ str ")".

Definition failover_attempt (epoch : N) (worker_id : Uuid) (reason : Str) (e : TaskEntry) : RetryAttempt := {|
  ra_attempt := te_retry_count e + 1; ra_timestamp_utc := epoch; ra_failed_worker_id := Some worker_id;
  ra_reason := reason; ra_exit_code := None; ra_error := Some (worker_evicted_error reason)
|}.

Definition to_failover_now (epoch : N) (worker_id : Uuid) (reason : Str) (e : TaskEntry) : TaskEntry :=
  upd_entry e Queued None None None None None
    (te_retry_count e + 1) (te_failover_count e + 1) (te_rejection_count e) (te_avoid_workers e)
    (te_retry_history e ++ [failover_attempt epoch worker_id reason e]) (te_result e) (te_error_message e).

Definition to_failover_later (retry_after epoch : N) (worker_id : Uuid) (reason : Str) (e : TaskEntry) : TaskEntry :=
  upd_entry e Retrying None None (te_scheduled_instant e) (te_started_instant e) (Some retry_after)
    (te_retry_count e + 1) (te_failover_count e + 1) (te_rejection_count e) (te_avoid_workers e)
    (te_retry_history e ++ [failover_attempt epoch worker_id reason e]) (te_result e) (te_error_message e).

(** Where a swept task goes: the three local vectors of the loop. *)
Inductive SweepTarget := ToDelayed (k : DelayedRetryKey) | ToReady (k : QueueOrderKey) | ToTerminal (t : TaskId).

Definition session_matches (session_id : option N) (e : TaskEntry) : bool :=
  match session_id, te_assigned_session e with
  | Some swept, Some assigned => assigned <=? swept
  | _, _ => true
  end.

Definition failover_entry (policy : RetryPolicy) (now epoch : N) (worker_id : Uuid) (reason : Str)
    (immediate : bool) (tid : TaskId) (e : TaskEntry) : TaskEntry * SweepTarget :=
  let '(budget_left, cap) := failover_budget policy e in
  if rp_retry_on_worker_disconnect policy && budget_left then
    let delay_ms := if immediate then 0 else calculate_backoff policy (te_failover_count e + 1) in
    if delay_ms =? 0 then (to_failover_now epoch worker_id reason e, ToReady (entry_key e tid))
    else
      let retry_after := now + from_millis delay_ms in
      (to_failover_later retry_after epoch worker_id reason e,
       ToDelayed {| dk_retry_after := retry_after; dk_task_id := tid |})
  else
    let used := match req_max_retries (task_requirements (te_task e)) with
                | Some _ => te_retry_count e
                | None => te_failover_count e
                end in
    let msg := retries_exhausted_error cap used worker_id reason in
    (to_ended Failed None None (Some (result_failure worker_id tid 1 [] [] 0 (Some msg))) (Some msg) e,
     ToTerminal tid).

(** One iteration of the sweep; [None] when the task is skipped. *)
Definition sweep_one (now epoch : N) (worker_id : Uuid) (session_id : option N) (reason : Str) (immediate : bool)
    (tid : TaskId) (q : TaskQueueInner) : option SweepTarget * TaskQueueInner :=
  match tasks q !! tid with
  | None => (None, q)
  | Some e =>
      if negb (is_active (te_state e)) || negb (bool_decide (te_assigned_worker_id e = Some worker_id))
         || negb (session_matches session_id e)
      then (None, q)
      else
        let '(e', target) := failover_entry (retry_policy q) now epoch worker_id reason immediate tid e in
        (Some target, put_entry tid e' (unassign worker_id tid q))
  end.

(** The loop: the affected ids and the targets, in order. *)
Fixpoint sweep_loop (now epoch : N) (worker_id : Uuid) (session_id : option N) (reason : Str) (immediate : bool)
    (ids : list TaskId) (q : TaskQueueInner) : list TaskId * list SweepTarget * TaskQueueInner :=
  match ids with
  | [] => ([], [], q)
  | tid :: ids =>
      let '(o, q1) := sweep_one now epoch worker_id session_id reason immediate tid q in
      let '(affected, targets, q2) := sweep_loop now epoch worker_id session_id reason immediate ids q1 in
      match o with
      | Some t => (tid :: affected, t :: targets, q2)
      | None => (affected, targets, q2)
      end
  end.

Definition delays_of (ts : list SweepTarget) : list DelayedRetryKey :=
  omap (fun t => match t with ToDelayed k => Some k | _ => None end) ts.
Definition readies_of (ts : list SweepTarget) : list QueueOrderKey :=
  omap (fun t => match t with ToReady k => Some k | _ => None end) ts.
Definition terminals_of (ts : list SweepTarget) : list TaskId :=
  omap (fun t => match t with ToTerminal k => Some k | _ => None end) ts.

Definition insert_delayed (k : DelayedRetryKey) (q : TaskQueueInner) : TaskQueueInner :=
  update_active_task (dk_task_id k) (set_delayed (bt_insert k) q).
Definition insert_ready (k : QueueOrderKey) (q : TaskQueueInner) : TaskQueueInner :=
  update_active_task (qk_task_id k) (set_ready (bt_insert k) q).

(** The tasks a sweep of [worker_id] looks at. *)
Definition sweep_candidates (worker_id : Uuid) (q : TaskQueueInner) : gset TaskId :=
  default ∅ (worker_assignments q !! worker_id)
  ∪ dom (filter (fun '(_, e) => te_assigned_worker_id e = Some worker_id /\ is_active (te_state e) = true) (tasks q)).

Definition drop_empty_assignment (worker_id : Uuid) (q : TaskQueueInner) : TaskQueueInner :=
  match worker_assignments q !! worker_id with
  | Some s => if bool_decide (s = ∅) then set_assignments (delete worker_id) q else q
  | None => q
  end.

Definition handle_session_disconnected (iter : gset TaskId -> list TaskId) (now epoch : N) (worker_id : Uuid)
    (session_id : option N) (reason : Str) (immediate : bool) (q : TaskQueueInner)
    : list TaskId * TaskQueueInner :=
  let assigned := iter (sweep_candidates worker_id q) in
  let '(affected, targets, q) := sweep_loop now epoch worker_id session_id reason immediate assigned q in
  let q := drop_empty_assignment worker_id q in
  let q := foldl (fun q k => insert_delayed k q) q (delays_of targets) in
  let q := foldl (fun q k => insert_ready k q) q (readies_of targets) in
  let q := foldl (fun q t => track_terminal_task t q) q (terminals_of targets) in
  (affected, q).

Definition handle_worker_disconnected iter now epoch worker_id reason immediate q :=
  handle_session_disconnected iter now epoch worker_id None reason immediate q.

(** ** Backoff *)

(** [while let Some(key) = delayed_retries.first()]: the due prefix is removed. *)
Fixpoint pop_due (now : N) (delayed : list DelayedRetryKey) : list TaskId * list DelayedRetryKey :=
  match delayed with
  | [] => ([], [])
  | key :: rest =>
      if dk_retry_after key <=? now
      then let '(ids, later) := pop_due now rest in (dk_task_id key :: ids, later)
      else ([], delayed)
  end.

Definition to_backoff_over (e : TaskEntry) : TaskEntry :=
  upd_entry e Queued (te_assigned_worker_id e) (te_assigned_session e) (te_scheduled_instant e)
    (te_started_instant e) None (te_retry_count e) (te_failover_count e) (te_rejection_count e)
    (te_avoid_workers e) (te_retry_history e) (te_result e) (te_error_message e).

Definition release_retry (tid : TaskId) (q : TaskQueueInner) : TaskQueueInner :=
  match tasks q !! tid with
  | Some e =>
      if bool_decide (te_state e = Retrying)
      then set_ready (bt_insert (entry_key e tid)) (put_entry tid (to_backoff_over e) q)
      else q
  | None => q
  end.

Definition process_delayed_retries (now : N) (q : TaskQueueInner) : N * TaskQueueInner :=
  let '(ready_tasks, later) := pop_due now (delayed_retries q) in
  (N.of_nat (length ready_tasks),
   foldl (fun q t => release_retry t q) (set_delayed (fun _ => later) q) ready_tasks).

(** ** Cancellation *)

Definition cancel_task_detailed (tid : TaskId) (reason : option Str) (q : TaskQueueInner)
    : result GridError CancelOutcome * TaskQueueInner :=
  match tasks q !! tid with
  | None => (Err (TaskNotFound tid), q)
  | Some e =>
      if is_terminal (te_state e) then
        (Ok {| co_newly_cancelled := false; co_worker_to_notify := None; co_result := te_result e |}, q)
      else
        let '(worker_to_notify, q) :=
          match te_state e with
          | Queued => (None, set_ready (bt_remove (entry_key e tid)) q)
          | Retrying =>
              (None, match te_retry_after_instant e with
                     | Some after => set_delayed (bt_remove {| dk_retry_after := after; dk_task_id := tid |}) q
                     | None => q
                     end)
          | Scheduled | Running =>
              (te_assigned_worker_id e,
               match te_assigned_worker_id e with Some wid => unassign wid tid q | None => q end)
          | _ => (None, q)
          end in
        let cancel_reason := match reason with Some r => Some r | None => Some (str "Cancelled by user") end in
        let cancel_result := result_failure (default 0 (te_assigned_worker_id e)) tid 130 [] [] 0 cancel_reason in
        let recorded := match te_result e with Some r => Some r | None => Some cancel_result end in
        let e' := to_ended Cancelled (te_assigned_worker_id e) (te_assigned_session e) recorded cancel_reason e in
        (Ok {| co_newly_cancelled := true; co_worker_to_notify := worker_to_notify; co_result := recorded |},
         track_terminal_task tid (put_entry tid e' q))
  end.

Definition cancel_task (tid : TaskId) (reason : option Str) (q : TaskQueueInner)
    : result GridError (option Uuid) * TaskQueueInner :=
  let '(r, q') := cancel_task_detailed tid reason q in (result_map co_worker_to_notify r, q').

End uuid.

(** ** Queries *)

Definition get_task (tid : TaskId) (q : TaskQueueInner) : option TaskInfo := to_info <$> tasks q !! tid.
Definition get_task_spec (tid : TaskId) (q : TaskQueueInner) : option Task := te_task <$> tasks q !! tid.
Definition get_state (tid : TaskId) (q : TaskQueueInner) : option TaskState := te_state <$> tasks q !! tid.
Definition get_result (tid : TaskId) (q : TaskQueueInner) : option TaskResult := tasks q !! tid ≫= te_result.

(** [recent_tasks] over the table's values in the order [entries];
    [select k l] is [select_nth_unstable_by_key(k, |e| Reverse(e.sequence))] and
    the sort is by descending sequence. *)
Definition newer (a b : TaskEntry) : Prop := te_sequence b <= te_sequence a.
#[global] Instance newer_dec a b : Decision (newer a b).
Proof. unfold newer. apply _. Defined.

Definition recent_tasks (select : nat -> list TaskEntry -> list TaskEntry) (entries : list TaskEntry)
    (accept : TaskEntry -> bool) (offset limit : nat) : list TaskInfo :=
  let matching := List.filter accept entries in
  let wanted := N.to_nat (saturating_add usize_max (N.of_nat offset) (N.of_nat limit)) in
  let matching := if (wanted <? length matching)%nat && (0 <? wanted)%nat
                  then take wanted (select (wanted - 1)%nat matching) else matching in
  to_info <$> take limit (drop offset (merge_sort newer matching)).

Definition count_state (s : TaskState) (q : TaskQueueInner) : N :=
  map_sum (fun e => if bool_decide (te_state e = s) then 1 else 0) (tasks q).

Definition stats (q : TaskQueueInner) : QueueStats := {|
  qs_total := N.of_nat (size (tasks q));
  qs_queued := count_state Queued q; qs_scheduled := count_state Scheduled q;
  qs_running := count_state Running q; qs_retrying := count_state Retrying q;
  qs_completed := count_state Completed q; qs_failed := count_state Failed q;
  qs_cancelled := count_state Cancelled q;
  qs_active_bytes := active_bytes q; qs_max_active_bytes := max_active_bytes q
|}.

Definition terminal_retained_bytes (q : TaskQueueInner) : N := terminal_bytes q.
Definition active_retained_bytes (q : TaskQueueInner) : N := active_bytes q.
