(* ===== verification/QueueInv.v ===== *)
(** * QueueInv: the invariant of the task queue

    The representation invariant of [TaskQueueInner] and the lemmas that carry it
    through the operations of [QueueOps].  It has two independent halves:

    - [core_inv]: the table, the ready queue, the backoff queue and the worker
      assignments describe the same life-cycle states, entry by entry;
    - [book_inv]: the byte accounting and the retention order match the table.

    Operations change one task at a time, so the first half is proved with a
    framing relation [touches tid q q'] (nothing but [tid] changes). *)

From S2P Require Import Prelude Collections RustStr Float Capabilities Placement Blob Task Queue QueueOps.
Local Open Scope N_scope.

(** ** The key orders are linear *)

#[global] Instance QueueOrderKey_laws : OrdLaws QueueOrderKey.
Proof.
  split; unfold ocmp, QueueOrderKey_ord.
  - intros [p s t] [p' s' t']; simpl. rewrite !then_with_eq, !N.compare_eq_iff. naive_solver.
  - intros [p s t] [p' s' t']; simpl.
    by rewrite !then_with_opp, <-!N.compare_antisym.
  - intros [p s t] [p' s' t'] [p'' s'' t'']; simpl.
    rewrite !then_with_lt, !N.compare_lt_iff, !N.compare_eq_iff. intros; lia.
Qed.

#[global] Instance DelayedRetryKey_laws : OrdLaws DelayedRetryKey.
Proof.
  split; unfold ocmp, DelayedRetryKey_ord.
  - intros [r t] [r' t']; simpl. rewrite !then_with_eq, !N.compare_eq_iff. naive_solver.
  - intros [r t] [r' t']; simpl. by rewrite !then_with_opp, <-!N.compare_antisym.
  - intros [r t] [r' t'] [r'' t'']; simpl.
    rewrite !then_with_lt, !N.compare_lt_iff, !N.compare_eq_iff. intros; lia.
Qed.

(** ** Well-formed entries *)

Record entry_wf (p : RetryPolicy) (e : TaskEntry) : Prop := {
  wf_not_submitted : te_state e <> Submitted;
  wf_active_assigned : is_active (te_state e) = true -> is_Some (te_assigned_worker_id e);
  wf_waiting_free : te_state e = Queued \/ te_state e = Retrying -> te_assigned_worker_id e = None;
  wf_unfinished : is_terminal (te_state e) = false -> te_result e = None /\ te_error_message e = None;
  wf_finished : is_terminal (te_state e) = true -> is_Some (te_result e);
  wf_failover_le : te_failover_count e <= te_retry_count e;
  wf_rejection_le : te_rejection_count e <= te_failover_count e;
  wf_rejection_max : te_rejection_count e <= MAX_WORKER_REJECTIONS_PER_TASK;
  wf_execution_max :
    te_retry_count e - te_failover_count e <= if rp_retry_on_execution_failure p then rp_max_retries p else 0;
  wf_failover_max : te_failover_count e <= if rp_retry_on_worker_disconnect p then (failover_budget p e).2 else 0;
  wf_history : N.of_nat (length (te_retry_history e)) = te_retry_count e;
  wf_avoid : NoDup (te_avoid_workers e) /\ N.of_nat (length (te_avoid_workers e)) <= te_rejection_count e
}.

(** ** The core invariant *)

Definition assigned_in (m : gmap Uuid (gset TaskId)) (w : Uuid) (t : TaskId) : Prop :=
  exists s, m !! w = Some s /\ t ∈ s.

Abbreviation assigned_at q := (assigned_in (worker_assignments q)) (only parsing).

Definition delayed_key (r : N) (t : TaskId) : DelayedRetryKey := {| dk_retry_after := r; dk_task_id := t |}.

Definition slot_ok (q : TaskQueueInner) (tid : TaskId) : Prop :=
  match tasks q !! tid with
  | None =>
      (forall k, k ∈ ready_queue q -> qk_task_id k <> tid) /\ (forall w, ~ assigned_at q w tid)
  | Some e =>
      entry_wf (retry_policy q) e /\ task_id (te_task e) = tid /\ te_sequence e < next_sequence q /\
      (forall k, qk_task_id k = tid -> (k ∈ ready_queue q <-> te_state e = Queued /\ k = entry_key e tid)) /\
      (forall w, assigned_at q w tid <-> is_active (te_state e) = true /\ te_assigned_worker_id e = Some w) /\
      (te_state e = Retrying -> exists r, te_retry_after_instant e = Some r /\ delayed_key r tid ∈ delayed_retries q)
  end.

Definition keys_wf (q : TaskQueueInner) : Prop := bt_wf (ready_queue q) /\ bt_wf (delayed_retries q).

Definition sequences_unique (q : TaskQueueInner) : Prop :=
  forall t1 t2 e1 e2, tasks q !! t1 = Some e1 -> tasks q !! t2 = Some e2 ->
    te_sequence e1 = te_sequence e2 -> t1 = t2.

Record core_inv (q : TaskQueueInner) : Prop := {
  ci_keys : keys_wf q;
  ci_slots : forall tid, slot_ok q tid;
  ci_sequences : sequences_unique q
}.

(** ** Framing *)

Record frame (tid : TaskId) (q q' : TaskQueueInner) : Prop := {
  fr_tasks : forall t, t <> tid -> tasks q' !! t = tasks q !! t;
  fr_ready : forall k, qk_task_id k <> tid -> (k ∈ ready_queue q' <-> k ∈ ready_queue q);
  fr_delayed : forall k, dk_task_id k <> tid -> (k ∈ delayed_retries q' <-> k ∈ delayed_retries q);
  fr_assigned : forall w t, t <> tid -> (assigned_at q' w t <-> assigned_at q w t);
  fr_policy : retry_policy q' = retry_policy q;
  fr_sequence : next_sequence q <= next_sequence q'
}.

(** Nothing but [tid] changes, and sorted keys stay sorted. *)
Definition touches (tid : TaskId) (q q' : TaskQueueInner) : Prop :=
  keys_wf q -> keys_wf q' /\ frame tid q q'.

Lemma touches_refl tid q : touches tid q q.
Proof. intros Hwf; split; [done|]. by split. Qed.

Lemma touches_trans tid q1 q2 q3 : touches tid q1 q2 -> touches tid q2 q3 -> touches tid q1 q3.
Proof.
  intros H12 H23 Hwf. destruct (H12 Hwf) as [Hwf2 [A1 B1 C1 D1 E1 F1]], (H23 Hwf2) as [Hwf3 [A2 B2 C2 D2 E2 F2]].
  split; [done|]. split; intros.
  - by rewrite A2, A1.
  - by rewrite B2, B1.
  - by rewrite C2, C1.
  - by rewrite D2, D1.
  - congruence.
  - lia.
Qed.

Lemma assigned_alter m w t w' t' :
  assigned_in (alter (fun s => s ∖ {[t]}) w m) w' t' <-> assigned_in m w' t' /\ ~ (w' = w /\ t' = t).
Proof.
  unfold assigned_in. destruct (decide (w' = w)) as [->|Hw].
  - rewrite lookup_alter_eq. destruct (m !! w) as [s|]; simpl; [|naive_solver].
    split; [intros (?&[= <-]&?)|intros [(?&[= <-]&?) ?]]; [split; [exists s|]|eexists; split; [done|]]; set_solver.
  - rewrite lookup_alter_ne by done. naive_solver.
Qed.

Lemma assigned_partial_alter m w t w' t' :
  assigned_in (partial_alter (fun o => Some (default ∅ o ∪ {[t]})) w m) w' t'
  <-> assigned_in m w' t' \/ (w' = w /\ t' = t).
Proof.
  unfold assigned_in. destruct (decide (w' = w)) as [->|Hw].
  - rewrite lookup_partial_alter_eq. destruct (m !! w) as [s|]; simpl.
    + split; [intros (?&[= <-]&[?|?%elem_of_singleton]%elem_of_union); eauto|].
      intros [(?&[= <-]&?)|[_ ->]]; eexists; (split; [done|]); set_solver.
    + split; [intros (?&[= <-]&?); right; set_solver|].
      intros [(?&[=]&?)|[_ ->]]; eexists; (split; [done|]); set_solver.
  - rewrite lookup_partial_alter_ne by done. naive_solver.
Qed.

(** Projections of an updated queue. *)
Ltac queue_cbn :=
  cbn [set_tasks set_ready set_delayed set_assignments set_next_sequence set_limits set_terminal set_active
       put_entry unassign assign tasks ready_queue delayed_retries worker_assignments next_sequence retry_policy
       capacity max_terminal_tasks max_terminal_bytes max_active_bytes terminal_order terminal_sizes terminal_bytes
       active_sizes active_bytes qk_task_id qk_sequence qk_priority entry_key].

Ltac frame_tac :=
  intros [Hr Hd]; split; [split; cbn; first [assumption | by apply bt_insert_wf | by apply bt_remove_wf]|split; cbn; try reflexivity; try (intros; reflexivity)].

Lemma put_entry_touches tid e q : touches tid q (put_entry tid e q).
Proof. frame_tac. intros. by rewrite lookup_insert_ne. Qed.
Lemma delete_task_touches tid q : touches tid q (set_tasks (delete tid) q).
Proof. frame_tac. intros. by rewrite lookup_delete_ne. Qed.
Lemma insert_ready_touches tid k q : qk_task_id k = tid -> touches tid q (set_ready (bt_insert k) q).
Proof. intros <-. frame_tac. intros k' Hk. rewrite elem_of_bt_insert. naive_solver. Qed.
Lemma remove_ready_touches tid k q : qk_task_id k = tid -> touches tid q (set_ready (bt_remove k) q).
Proof. intros <-. frame_tac. intros k' Hk. rewrite elem_of_bt_remove by done. naive_solver. Qed.
Lemma insert_delayed_touches tid k q : dk_task_id k = tid -> touches tid q (set_delayed (bt_insert k) q).
Proof. intros <-. frame_tac. intros k' Hk. rewrite elem_of_bt_insert. naive_solver. Qed.
Lemma remove_delayed_touches tid k q : dk_task_id k = tid -> touches tid q (set_delayed (bt_remove k) q).
Proof. intros <-. frame_tac. intros k' Hk. rewrite elem_of_bt_remove by done. naive_solver. Qed.
Lemma unassign_touches w tid q : touches tid q (unassign w tid q).
Proof. frame_tac. intros. rewrite assigned_alter. naive_solver. Qed.
Lemma assign_touches w tid q : touches tid q (assign w tid q).
Proof. frame_tac. intros. rewrite assigned_partial_alter. naive_solver. Qed.
Lemma set_active_touches tid s b q : touches tid q (set_active s b q).
Proof. frame_tac. Qed.
Lemma set_terminal_touches tid o s b q : touches tid q (set_terminal o s b q).
Proof. frame_tac. Qed.
Lemma set_limits_touches tid a b q : touches tid q (set_limits a b q).
Proof. frame_tac. Qed.
Lemma bump_sequence_touches tid q : touches tid q (set_next_sequence (N.add 1) q).
Proof. frame_tac. lia. Qed.
Lemma option_touches {A} tid (o : option A) f q :
  (forall a, touches tid q (f a)) -> touches tid q (match o with Some a => f a | None => q end).
Proof. destruct o; auto using touches_refl. Qed.

Create HintDb frames discriminated.
#[export] Hint Resolve put_entry_touches delete_task_touches insert_ready_touches
  remove_ready_touches insert_delayed_touches remove_delayed_touches unassign_touches assign_touches
  set_active_touches set_terminal_touches set_limits_touches bump_sequence_touches : frames.

(** Peels the setters of a composite state, outermost first. *)
Ltac touch :=
  lazymatch goal with
  | |- touches _ ?q ?q => apply touches_refl
  | |- touches _ _ (match ?o with Some _ => _ | None => _ end) => destruct o; touch
  | |- touches _ _ (if ?b then _ else _) => destruct b; touch
  | |- touches _ _ _ => eapply touches_trans; [|by eauto 2 with frames]; touch
  end.

(** The invariant after a change of one task: that task's slot is checked, and
    its entry keeps its sequence number or got a fresh one. *)
Lemma core_inv_touch tid q q' :
  core_inv q -> touches tid q q' ->
  (keys_wf q -> keys_wf q' -> slot_ok q tid -> slot_ok q' tid) ->
  (forall e', tasks q' !! tid = Some e' ->
     (exists e, tasks q !! tid = Some e /\ te_sequence e' = te_sequence e) \/ next_sequence q <= te_sequence e') ->
  core_inv q'.
Proof.
  intros [Hk Hs Hu] Ht Hslot Hseq. destruct (Ht Hk) as [Hk' Hf].
  assert (Hother : forall t, t <> tid -> slot_ok q' t).
  { intros t Hne. specialize (Hs t). unfold slot_ok in *.
    rewrite (fr_tasks _ _ _ Hf), (fr_policy _ _ _ Hf) by done.
    pose proof (fr_sequence _ _ _ Hf). destruct (tasks q !! t) as [e|].
    - destruct Hs as (? & ? & ? & HR & HA & HD). split_and!; [done|done|lia|..].
      + intros k Hkt. rewrite <-HR by done. apply (fr_ready _ _ _ Hf). congruence.
      + intros w. rewrite <-HA. by apply (fr_assigned _ _ _ Hf).
      + intros Hst. destruct (HD Hst) as (r & ? & ?). exists r. split; [done|].
        by apply (fr_delayed _ _ _ Hf).
    - destruct Hs as [HR HA]. split.
      + intros k Hin Hkt. apply (HR k); [|done]. apply (fr_ready _ _ _ Hf); congruence.
      + intros w Hw. apply (HA w). by apply (fr_assigned _ _ _ Hf). }
  assert (Hfresh : forall t e, t <> tid -> tasks q' !! t = Some e -> te_sequence e < next_sequence q).
  { intros t e Hne He. specialize (Hs t). unfold slot_ok in Hs.
    rewrite <-(fr_tasks _ _ _ Hf), He in Hs by done. naive_solver. }
  split; [done| |].
  - intros t. destruct (decide (t = tid)) as [->|]; auto.
  - intros t1 t2 e1 e2 H1 H2 Heq.
    destruct (decide (t1 = tid)) as [->|N1], (decide (t2 = tid)) as [->|N2]; [done| | |].
    + destruct (Hseq _ H1) as [(e & He & ?)|?]; [|specialize (Hfresh _ _ N2 H2); lia].
      rewrite (fr_tasks _ _ _ Hf) in H2 by done. eapply Hu; eauto. congruence.
    + destruct (Hseq _ H2) as [(e & He & ?)|?]; [|specialize (Hfresh _ _ N1 H1); lia].
      rewrite (fr_tasks _ _ _ Hf) in H1 by done. eapply Hu; eauto. congruence.
    + rewrite (fr_tasks _ _ _ Hf) in H1, H2 by done. eauto.
Qed.

(** Only bookkeeping fields differ. *)
Definition same_core (q q' : TaskQueueInner) : Prop :=
  tasks q' = tasks q /\ ready_queue q' = ready_queue q /\ delayed_retries q' = delayed_retries q /\
  worker_assignments q' = worker_assignments q /\ retry_policy q' = retry_policy q /\
  next_sequence q' = next_sequence q.

Lemma same_core_refl q : same_core q q.
Proof. done. Qed.

Lemma same_core_trans q1 q2 q3 : same_core q1 q2 -> same_core q2 q3 -> same_core q1 q3.
Proof. unfold same_core. intuition congruence. Qed.

(** Equal up to bookkeeping and up to worker sets that are empty. *)
Lemma core_inv_equiv q q' :
  tasks q' = tasks q -> ready_queue q' = ready_queue q -> delayed_retries q' = delayed_retries q ->
  (forall w t, assigned_at q' w t <-> assigned_at q w t) -> retry_policy q' = retry_policy q ->
  next_sequence q' = next_sequence q -> core_inv q -> core_inv q'.
Proof.
  intros Ht Hr Hd Ha Hp Hn [[??] Hs Hu]. split.
  - unfold keys_wf. by rewrite Hr, Hd.
  - intros tid. specialize (Hs tid). unfold slot_ok in *. rewrite Ht, Hr, Hd, Hp, Hn.
    destruct (tasks q !! tid); [|by setoid_rewrite Ha].
    destruct Hs as (?&?&?&?&HA&?). split_and!; try done. intros w. by rewrite Ha.
  - unfold sequences_unique. by rewrite Ht.
Qed.

Lemma core_inv_same q q' : same_core q q' -> core_inv q -> core_inv q'.
Proof.
  intros (Ht & Hr & Hd & Ha & Hp & Hn). apply core_inv_equiv; try done. by rewrite Ha.
Qed.

Lemma untrack_same tid q : same_core q (untrack_active_task tid q).
Proof. unfold untrack_active_task. by destruct (active_sizes q !! tid). Qed.

Lemma update_active_same tid q : same_core q (update_active_task tid q).
Proof.
  unfold update_active_task, untrack_active_task. destruct (active_sizes q !! tid); cbn.
  all: destruct (tasks q !! tid) as [e|]; [|done]; by destruct (is_terminal (te_state e)).
Qed.

Lemma slot_lookup q tid e : core_inv q -> tasks q !! tid = Some e ->
  entry_wf (retry_policy q) e /\ task_id (te_task e) = tid /\ te_sequence e < next_sequence q /\
  (forall k, qk_task_id k = tid -> (k ∈ ready_queue q <-> te_state e = Queued /\ k = entry_key e tid)) /\
  (forall w, assigned_at q w tid <-> is_active (te_state e) = true /\ te_assigned_worker_id e = Some w) /\
  (te_state e = Retrying -> exists r, te_retry_after_instant e = Some r /\ delayed_key r tid ∈ delayed_retries q).
Proof. intros [_ Hs _] He. specialize (Hs tid). unfold slot_ok in Hs. by rewrite He in Hs. Qed.

Lemma core_inv_entry_wf q tid e : core_inv q -> tasks q !! tid = Some e -> entry_wf (retry_policy q) e.
Proof. intros Hi He. by apply (slot_lookup q tid e Hi He). Qed.

(** An existing entry replaced by [e'], with its keys and assignment. *)
Lemma core_inv_put tid q q' e e' :
  core_inv q -> tasks q !! tid = Some e -> touches tid q q' -> tasks q' !! tid = Some e' ->
  te_sequence e' = te_sequence e -> te_priority e' = te_priority e ->
  task_id (te_task e') = task_id (te_task e) -> entry_wf (retry_policy q) e' ->
  (forall k, qk_task_id k = tid -> (k ∈ ready_queue q' <-> te_state e' = Queued /\ k = entry_key e tid)) ->
  (forall w, assigned_at q' w tid <-> is_active (te_state e') = true /\ te_assigned_worker_id e' = Some w) ->
  (te_state e' = Retrying -> exists r, te_retry_after_instant e' = Some r /\ delayed_key r tid ∈ delayed_retries q') ->
  core_inv q'.
Proof.
  intros Hi He Ht He' Hseq Hprio Hid Hwf HR HA HD.
  destruct (slot_lookup q tid e Hi He) as (_ & Htid & Hlt & _).
  destruct (Ht (ci_keys _ Hi)) as [_ Hf].
  eapply core_inv_touch; [done|done| |].
  - intros _ _ _. unfold slot_ok. rewrite He', (fr_policy _ _ _ Hf).
    pose proof (fr_sequence _ _ _ Hf). split_and!; try done; [congruence|lia|].
    intros k Hk. rewrite HR by done. unfold entry_key. by rewrite Hseq, Hprio.
  - intros e2 He2. left. exists e. naive_solver.
Qed.

(** Keys of the task itself after the ready-queue updates. *)
Lemma ready_inserted q tid e k : core_inv q -> tasks q !! tid = Some e -> qk_task_id k = tid ->
  k ∈ bt_insert (entry_key e tid) (ready_queue q) <-> k = entry_key e tid.
Proof.
  intros Hi He Hk. destruct (slot_lookup q tid e Hi He) as (_ & _ & _ & HR & _).
  rewrite elem_of_bt_insert, HR by done. naive_solver.
Qed.

Lemma ready_removed q tid e k : core_inv q -> tasks q !! tid = Some e -> qk_task_id k = tid ->
  k ∉ bt_remove (entry_key e tid) (ready_queue q).
Proof.
  intros Hi He Hk. destruct (slot_lookup q tid e Hi He) as (_ & _ & _ & HR & _).
  rewrite elem_of_bt_remove by apply (ci_keys _ Hi). rewrite HR by done. naive_solver.
Qed.

Lemma ready_absent q tid e k : core_inv q -> tasks q !! tid = Some e -> qk_task_id k = tid ->
  te_state e <> Queued -> k ∉ ready_queue q.
Proof.
  intros Hi He Hk Hst. destruct (slot_lookup q tid e Hi He) as (_ & _ & _ & HR & _).
  rewrite HR by done. naive_solver.
Qed.

(** Assignments of the task itself. *)
Lemma unassigned_free q tid e w : core_inv q -> tasks q !! tid = Some e ->
  is_active (te_state e) = false -> ~ assigned_at q w tid.
Proof.
  intros Hi He Hst. destruct (slot_lookup q tid e Hi He) as (_ & _ & _ & _ & HA & _).
  rewrite HA. intros [? _]. congruence.
Qed.

Lemma unassign_free q tid e wid w : core_inv q -> tasks q !! tid = Some e ->
  te_assigned_worker_id e = Some wid -> ~ assigned_in (alter (fun s => s ∖ {[tid]}) wid (worker_assignments q)) w tid.
Proof.
  intros Hi He Hw. destruct (slot_lookup q tid e Hi He) as (_ & _ & _ & _ & HA & _).
  rewrite assigned_alter, HA. intros [[_ ?] []]. split; congruence.
Qed.
