(* ===== verification/QueueCore.v ===== *)
(** * QueueCore: the operations preserve the core invariant

    For each operation of [QueueOps], that [core_inv] survives its changes to the
    table, the two key sets and the assignments.  Retention is in [QueueBook]. *)

From S2P Require Import Prelude Collections RustStr Float Capabilities Placement Blob Task Queue QueueOps QueueInv.
Local Open Scope N_scope.

(** ** The new entries are well formed *)

Ltac entry_cbn :=
  cbn [upd_entry set_task new_entry to_scheduled to_requeued to_running to_completed to_ended to_rejected
       to_execution_retry to_failover_now to_failover_later to_backoff_over
       te_task te_priority te_sequence te_state te_assigned_worker_id te_retry_after_instant te_result
       te_error_message te_failover_count te_retry_count te_rejection_count te_avoid_workers te_retry_history
       te_assigned_session is_active is_terminal].

(** Fields that the update copies, or that its state makes void. *)
Ltac wf_entry :=
  split; entry_cbn; try assumption; try (intros; discriminate); try (intros [?|?]; discriminate);
  try (intros; by eexists); try (by intros; auto).

Lemma new_entry_wf p t prio seq now epoch : entry_wf p (new_entry t prio seq now epoch).
Proof.
  wf_entry; try lia; try done. split; [constructor|cbn; lia].
Qed.

Lemma nonterminal_active s : is_active s = true -> is_terminal s = false.
Proof. by destruct s. Qed.

Lemma to_scheduled_wf p now w s e : entry_wf p e -> te_state e = Queued -> entry_wf p (to_scheduled now w s e).
Proof. intros [] Hst. wf_entry. intros _. apply wf_unfinished. by rewrite Hst. Qed.

Lemma to_requeued_wf p e : entry_wf p e -> is_terminal (te_state e) = false -> entry_wf p (to_requeued e).
Proof. intros [] Hst. wf_entry. Qed.

Lemma to_running_wf p now e : entry_wf p e -> is_active (te_state e) = true -> entry_wf p (to_running now e).
Proof. intros [] Hst. wf_entry. intros _. by apply wf_unfinished, nonterminal_active. Qed.

Lemma set_checkpoint_wf p cp e : entry_wf p e -> entry_wf p (set_task (update_checkpoint cp (te_task e)) e).
Proof. intros []. wf_entry. Qed.

Lemma to_completed_wf p r e : entry_wf p e -> entry_wf p (to_completed r e).
Proof. intros []. wf_entry. Qed.

Lemma to_ended_wf p st w s r m e : entry_wf p e -> is_terminal st = true -> entry_wf p (to_ended st w s (Some r) m e).
Proof. intros [] Hst. wf_entry; by destruct st; try (intros [?|?]). Qed.

Lemma to_backoff_over_wf p e : entry_wf p e -> te_state e = Retrying -> entry_wf p (to_backoff_over e).
Proof. intros [] Hst. wf_entry. intros _. apply wf_unfinished. by rewrite Hst. Qed.

(** Spending from the failover budget leaves the count within it. *)
Lemma failover_budget_spend p e : (failover_budget p e).1 = true -> te_failover_count e <= te_retry_count e ->
  te_failover_count e + 1 <= (failover_budget p e).2.
Proof.
  unfold failover_budget. destruct (req_max_retries _) as [limit|]; cbn; rewrite N.ltb_lt; lia.
Qed.

Lemma budget_upd p e st wid ses sch sta rta rc fc rj av hist res err :
  (failover_budget p (upd_entry e st wid ses sch sta rta rc fc rj av hist res err)).2 = (failover_budget p e).2.
Proof. unfold failover_budget. cbn. by destruct (req_max_retries _). Qed.

(** A failover: both counts grow by one and the history by one attempt. *)
Lemma failover_wf p e st rta sch sta a :
  entry_wf p e -> is_active (te_state e) = true -> rp_retry_on_worker_disconnect p = true ->
  (failover_budget p e).1 = true -> st = Queued \/ st = Retrying ->
  entry_wf p (upd_entry e st None None sch sta rta (te_retry_count e + 1) (te_failover_count e + 1)
                (te_rejection_count e) (te_avoid_workers e) (te_retry_history e ++ [a]) (te_result e) (te_error_message e)).
Proof.
  intros [] Hst Hd Hb Hs. pose proof (failover_budget_spend p e Hb wf_failover_le).
  apply nonterminal_active in Hst. rewrite Hd in wf_failover_max.
  wf_entry; try done; try lia; try (by destruct Hs as [-> | ->]).
  - rewrite Hd, budget_upd. lia.
  - rewrite length_app. cbn. lia.
Qed.

Lemma to_rejected_wf p epoch w r e :
  entry_wf p e -> is_active (te_state e) = true -> rp_retry_on_worker_disconnect p = true ->
  (failover_budget p e).1 = true -> te_rejection_count e < MAX_WORKER_REJECTIONS_PER_TASK ->
  entry_wf p (to_rejected epoch w r e).
Proof.
  intros [] Hst Hd Hb Hrj. pose proof (failover_budget_spend p e Hb wf_failover_le).
  apply nonterminal_active in Hst. rewrite Hd in wf_failover_max.
  wf_entry; try done; try lia.
  - unfold to_rejected. rewrite Hd, budget_upd. lia.
  - rewrite length_app. cbn. lia.
  - destruct wf_avoid as [Hnd Hlen]. case_bool_decide; [split; [done|lia]|].
    split; [|rewrite length_app; cbn; lia].
    apply NoDup_app. split_and!; [done| |apply NoDup_singleton]. set_solver.
Qed.

Lemma to_execution_retry_wf p ra epoch w r e :
  entry_wf p e -> is_active (te_state e) = true -> rp_retry_on_execution_failure p = true ->
  te_retry_count e - te_failover_count e < rp_max_retries p ->
  entry_wf p (to_execution_retry ra epoch w r e).
Proof.
  intros [] Hst Hx Hlt. apply nonterminal_active in Hst.
  wf_entry; try done; try lia.
  - rewrite Hx. lia.
  - unfold to_execution_retry. destruct (rp_retry_on_worker_disconnect p); rewrite ?budget_upd; lia.
  - rewrite length_app. cbn. lia.
Qed.

(** ** Scheduling *)

(** The side conditions of [core_inv_put] that do not depend on the operation. *)
Ltac put_core He :=
  eapply core_inv_put;
  [eassumption | exact He | touch | cbn; apply lookup_insert_eq | reflexivity | reflexivity | reflexivity | ..].

Lemma core_take_ready q now tid e w s :
  core_inv q -> tasks q !! tid = Some e -> te_state e = Queued ->
  core_inv (take_ready now (entry_key e tid) e w s q).
Proof.
  intros Hi He Hst. pose proof (core_inv_entry_wf q tid e Hi He) as Hwf. unfold take_ready.
  cbn [qk_task_id entry_key]. put_core He.
  - by apply to_scheduled_wf.
  - intros k Hk. cbn. split; [|by intros [??]]. intros Hin. by eapply ready_removed in Hin.
  - intros w'. cbn. rewrite assigned_partial_alter. split.
    + intros [Ha|[-> _]]; [|done]. by eapply unassigned_free in Ha; [|done..|by rewrite Hst].
    + intros [_ [= ->]]. by right.
  - done.
Qed.

Lemma queued_entry_Some q tid e :
  queued_entry q tid = Some e <-> tasks q !! tid = Some e /\ te_state e = Queued.
Proof.
  unfold queued_entry. destruct (tasks q !! tid) as [e'|]; [|naive_solver].
  case_bool_decide; naive_solver.
Qed.

(** Every ready key is the key of a queued entry. *)
Lemma ready_key_entry q k : core_inv q -> k ∈ ready_queue q ->
  exists e, queued_entry q (qk_task_id k) = Some e /\ k = entry_key e (qk_task_id k).
Proof.
  intros Hi Hin. pose proof (ci_slots _ Hi (qk_task_id k)) as Hs. unfold slot_ok in Hs.
  destruct (tasks q !! qk_task_id k) as [e|] eqn:He.
  - destruct Hs as (_ & _ & _ & HR & _). pose proof (proj1 (HR k eq_refl) Hin) as Hk.
    destruct Hk. exists e. by rewrite queued_entry_Some.
  - destruct Hs as [HR _]. by destruct (HR _ Hin).
Qed.

Lemma queued_entry_ready q tid e : core_inv q -> queued_entry q tid = Some e -> entry_key e tid ∈ ready_queue q.
Proof.
  intros Hi [He Hst]%queued_entry_Some.
  destruct (slot_lookup q tid e Hi He) as (_ & _ & _ & HR & _). by apply HR.
Qed.

Lemma core_pop_and_schedule q now w pred : core_inv q -> core_inv (pop_and_schedule now w pred q).2.
Proof.
  intros Hi. unfold pop_and_schedule. destruct (List.find _ _) as [k|] eqn:Hf; [|done].
  apply List.find_some in Hf as [Hin%list_elem_of_In _].
  destruct (ready_key_entry q k Hi Hin) as (e & [He Hst]%queued_entry_Some & ->).
  cbn [qk_task_id entry_key] in *. rewrite He. by apply core_take_ready.
Qed.

Lemma core_schedule_task q now tid w : core_inv q -> core_inv (schedule_task now tid w q).2.
Proof.
  intros Hi. unfold schedule_task. destruct (tasks q !! tid) as [e|] eqn:He; [|done].
  case_bool_decide; [|done]. by apply core_take_ready.
Qed.

(** Removing a key that is not there. *)
Lemma bt_remove_absent {K} `{OrdLaws K} (x : K) l : bt_wf l -> x ∉ l -> bt_remove x l = l.
Proof.
  intros Hwf Hx. apply bt_wf_ext; [by apply bt_remove_wf|done|].
  intros y. rewrite elem_of_bt_remove by done. naive_solver.
Qed.

Lemma set_ready_id q : set_ready (fun l => l) q = q.
Proof. by destruct q. Qed.

Lemma remove_stale_ready q tid e : core_inv q -> tasks q !! tid = Some e -> te_state e <> Queued ->
  set_ready (bt_remove (entry_key e tid)) q = q.
Proof.
  intros Hi He Hst. rewrite <-(set_ready_id q) at 2. unfold set_ready. f_equal.
  apply bt_remove_absent; [apply (ci_keys _ Hi)|]. by eapply ready_absent.
Qed.

Lemma core_schedule_one q now a : core_inv q -> core_inv (schedule_one now a q).2.
Proof.
  intros Hi. destruct a as [[tid w] s]. unfold schedule_one.
  destruct (tasks q !! tid) as [e|] eqn:He; [|done].
  case_bool_decide; [by apply core_take_ready|]. cbn. by rewrite remove_stale_ready.
Qed.

Lemma core_schedule_batch now l q : core_inv q -> core_inv (schedule_batch_inner now l q).2.
Proof.
  revert q. induction l as [|a l IH]; intros q Hi; [done|]. cbn.
  pose proof (core_schedule_one q now a Hi) as H1. destruct (schedule_one now a q) as [o q1].
  specialize (IH q1 H1). by destruct (schedule_batch_inner now l q1).
Qed.

(** ** Putting back and progress *)

Lemma core_requeue_task q tid : core_inv q -> core_inv (requeue_task tid q).2.
Proof.
  intros Hi. unfold requeue_task. destruct (tasks q !! tid) as [e|] eqn:He; [|done].
  pose proof (core_inv_entry_wf q tid e Hi He) as Hwf.
  destruct (is_terminal (te_state e)) eqn:Hst; [done|]. cbn [snd]. put_core He.
  - by apply to_requeued_wf.
  - intros k Hk. destruct (te_assigned_worker_id e); cbn; rewrite ready_inserted by done; naive_solver.
  - intros w'. destruct (te_assigned_worker_id e) as [wid|] eqn:Hw; cbn; split; try by intros [].
    + intros Ha. by eapply unassign_free in Ha.
    + intros Ha. eapply unassigned_free in Ha; [done..|].
      destruct (is_active (te_state e)) eqn:Hact; [|done].
      destruct (wf_active_assigned _ _ Hwf Hact). congruence.
  - done.
Qed.

Lemma owned_by_assigned e w s : owned_by e w s = true -> te_assigned_worker_id e = Some w.
Proof. unfold owned_by. case_bool_decide; naive_solver. Qed.

Lemma core_requeue_dispatch q tid w s : core_inv q -> core_inv (requeue_dispatch_failure tid w s q).2.
Proof.
  intros Hi. unfold requeue_dispatch_failure. destruct (tasks q !! tid) as [e|] eqn:He; [|done].
  pose proof (core_inv_entry_wf q tid e Hi He) as Hwf.
  case_bool_decide as Hst; cbn [negb orb]; [|done].
  destruct (owned_by e w (Some s)) eqn:Ho; cbn [negb snd]; [|done]. apply owned_by_assigned in Ho. put_core He.
  - apply to_requeued_wf; [done|by rewrite Hst].
  - intros k Hk. cbn. rewrite ready_inserted by done. naive_solver.
  - intros w'. cbn. split; [|by intros []]. intros Ha. by eapply unassign_free in Ha.
  - done.
Qed.

Lemma core_mark_running q now w s tid : core_inv q -> core_inv (mark_running_from now w s tid q).2.
Proof.
  intros Hi. unfold mark_running_from. destruct (tasks q !! tid) as [e|] eqn:He; [|done].
  destruct (slot_lookup q tid e Hi He) as (Hwf & _ & _ & HR & HA & _).
  destruct (owned_by e w s); cbn [negb]; [|done].
  destruct (can_transition_to (te_state e) Running) eqn:Hc; cbn [negb snd]; [|done].
  assert (Hst : te_state e = Scheduled).
  { pose proof (wf_not_submitted _ _ Hwf). by destruct (te_state e). }
  put_core He.
  - apply to_running_wf; [done|by rewrite Hst].
  - intros k Hk. cbn. rewrite HR, Hst by done. naive_solver.
  - intros w'. cbn. rewrite HA, Hst. done.
  - done.
Qed.

Lemma core_store_checkpoint q tid e cp :
  core_inv q -> tasks q !! tid = Some e -> core_inv (store_checkpoint tid e cp q).2.
Proof.
  intros Hi He. destruct (slot_lookup q tid e Hi He) as (Hwf & _ & _ & HR & HA & HD).
  unfold store_checkpoint, apply_checkpoint. destruct (checkpoint_exceeds_active_cap _ _ _ _); [done|].
  destruct (is_newer_checkpoint e cp); [|done]. cbn [snd].
  eapply core_inv_same; [apply update_active_same|]. put_core He; try done.
  by apply set_checkpoint_wf.
Qed.

(** ** Submission *)

Lemma core_bump_sequence q : core_inv q -> core_inv (set_next_sequence (N.add 1) q).
Proof.
  intros Hi. apply (core_inv_touch 0 q); [done|touch| |].
  - intros _ _. unfold slot_ok. queue_cbn. destruct (tasks q !! 0) as [e|]; [|done].
    intros (? & ? & ? & ? & ? & ?). split_and!; try done. lia.
  - cbn. intros e He. left. by exists e.
Qed.

Lemma core_accept_entry q t prio now epoch bytes :
  core_inv q -> tasks q !! task_id t = None ->
  core_inv (accept_entry (task_id t) (new_entry t prio (next_sequence q) now epoch) bytes
              (set_next_sequence (N.add 1) q)).
Proof.
  intros Hi Hnone. apply (core_inv_touch (task_id t) q); [done|unfold accept_entry; touch| |].
  - intros _ _. unfold slot_ok, accept_entry. queue_cbn. rewrite Hnone, lookup_insert_eq. entry_cbn. intros [HR HA].
    split_and!; try done; [apply new_entry_wf|lia| |].
    + intros k Hk. rewrite elem_of_bt_insert. split; [|naive_solver].
      intros [->|Hin]; [done|]. by destruct (HR k).
    + intros w. split; [|by intros []]. intros Ha. by destruct (HA w).
  - cbn. rewrite lookup_insert_eq. intros e' [= <-]. right. entry_cbn. lia.
Qed.

Section uuid.
Context `{UuidApi}.

Lemma core_submit q now epoch t prio : core_inv q -> core_inv (submit_with_priority now epoch t prio q).2.
Proof.
  intros Hi. unfold submit_with_priority.
  destruct (task_validate t); [|done]. destruct (tasks q !! task_id t) eqn:Ht; [done|].
  destruct (capacity_check q); [|done].
  destruct (bytes_check _ _); [by apply core_accept_entry|by apply core_bump_sequence].
Qed.

Lemma core_try_submit_slot q_read q now epoch slot : core_inv q -> core_inv (try_submit_slot now epoch slot q_read q).2.
Proof.
  intros Hi. unfold try_submit_slot. destruct slot as [t|]; [|done].
  destruct (task_validate t); [|done]. destruct (check_room _ _); [|done].
  destruct (tasks q !! task_id t) eqn:Ht; [done|].
  destruct (result_bind _ _); [by apply core_accept_entry|done].
Qed.

(** ** Eviction *)

Lemma core_remove_terminal q tid e :
  core_inv q -> tasks q !! tid = Some e -> is_terminal (te_state e) = true -> core_inv (set_tasks (delete tid) q).
Proof.
  intros Hi He Hst. assert (te_state e <> Queued) by (by intros Heq; rewrite Heq in Hst).
  assert (is_active (te_state e) = false) by (by destruct (te_state e)).
  apply (core_inv_touch tid q); [done|touch| |].
  - intros _ _ _. unfold slot_ok. cbn. rewrite lookup_delete_eq. split.
    + intros k Hin Hk. by eapply ready_absent in Hin.
    + intros w Ha. by eapply unassigned_free in Ha.
  - cbn. rewrite lookup_delete_eq. done.
Qed.

Lemma remove_retained_same tid q : same_core (set_tasks (delete tid) q) (remove_retained tid q).
Proof.
  unfold remove_retained. pose proof (untrack_same tid (set_tasks (delete tid) q)) as Hs.
  by destruct (terminal_sizes _ !! tid).
Qed.

Lemma core_evict_oldest q : core_inv q -> core_inv (evict_oldest_terminal q).2.
Proof.
  intros Hi. unfold evict_oldest_terminal. destruct (terminal_order q) as [|oldest rest]; [done|].
  assert (Hi' : core_inv (set_terminal rest (terminal_sizes q) (terminal_bytes q) q)) by (by apply (core_inv_same q)).
  destruct (holds_terminal _ _) eqn:Hh; cbn [snd]; [|by apply (core_inv_same q)].
  unfold holds_terminal in Hh. cbn in Hh. destruct (tasks q !! oldest) as [e|] eqn:He; [|done].
  eapply core_inv_same; [apply remove_retained_same|]. by eapply core_remove_terminal.
Qed.

Lemma core_evict_while cond fuel q : core_inv q -> core_inv (evict_while cond fuel q).
Proof.
  revert q. induction fuel as [|fuel IH]; intros q Hi; cbn; [done|]. destruct (cond q); [|done].
  pose proof (core_evict_oldest q Hi). destruct (evict_oldest_terminal q) as [[] q']; auto.
Qed.

Lemma core_evict_terminal_loop m fuel n q : core_inv q -> core_inv (evict_terminal_loop m fuel n q).2.
Proof.
  revert n q. induction fuel as [|fuel IH]; intros n q Hi; cbn; [done|]. destruct (_ <? _); [|done].
  pose proof (core_evict_oldest q Hi). destruct (evict_oldest_terminal q) as [[] q']; auto.
Qed.

Lemma core_enforce q : core_inv q -> core_inv (enforce_terminal_limits q).
Proof. intros. by apply core_evict_while, core_evict_while. Qed.

Lemma core_track_terminal tid q : core_inv q -> core_inv (track_terminal_task tid q).
Proof.
  intros Hi. unfold track_terminal_task.
  assert (core_inv (untrack_active_task tid q)) by (by eapply core_inv_same; [apply untrack_same|]).
  destruct (terminal_sizes _ !! tid); [done|]. apply core_enforce. by apply (core_inv_same (untrack_active_task tid q)).
Qed.

(** ** Results *)

(** A task that ends: no key, no assignment. *)
Lemma core_end_task q q' tid e e' :
  core_inv q -> tasks q !! tid = Some e -> te_state e <> Queued -> touches tid q q' ->
  tasks q' !! tid = Some e' -> te_sequence e' = te_sequence e -> te_priority e' = te_priority e ->
  te_task e' = te_task e -> entry_wf (retry_policy q) e' -> is_terminal (te_state e') = true ->
  ready_queue q' = ready_queue q -> (forall w, ~ assigned_at q' w tid) -> core_inv q'.
Proof.
  intros Hi He Hst Ht He' Hs Hp Htk Hwf Hterm HR HA.
  eapply core_inv_put; try done; [congruence|..].
  - intros k Hk. rewrite HR. split; [intros Hin; by eapply ready_absent in Hin|].
    intros [Hq _]. by rewrite Hq in Hterm.
  - intros w. split; [intros Ha; by destruct (HA w)|]. intros [Hact _]. by destruct (te_state e').
  - intros Hr. by rewrite Hr in Hterm.
Qed.

Ltac end_core Hi He :=
  eapply core_end_task;
  [exact Hi | exact He | assumption | touch | apply lookup_insert_eq | reflexivity | reflexivity | reflexivity
  | | reflexivity | reflexivity | assumption].

Lemma owned_nonterminal_active p e w s : entry_wf p e -> owned_by e w s = true -> is_terminal (te_state e) = false ->
  is_active (te_state e) = true.
Proof.
  intros Hwf Ho%owned_by_assigned Ht. destruct Hwf. destruct (te_state e) eqn:Hst; try done.
  all: rewrite wf_waiting_free in Ho by auto; done.
Qed.

Lemma active_not_queued s : is_active s = true -> s <> Queued.
Proof. by destruct s. Qed.

Lemma core_record_result q now epoch w s r : core_inv q -> core_inv (record_result_from now epoch w s r q).2.
Proof.
  intros Hi. unfold record_result_from. set (tid := res_task_id r).
  destruct (tasks q !! tid) as [e|] eqn:He; [|done].
  destruct (slot_lookup q tid e Hi He) as (Hwf & _ & _ & HR & HA & _).
  destruct (owned_by e w s) eqn:Ho; cbn [negb]; [|done].
  pose proof (owned_by_assigned e w s Ho) as Hw.
  destruct (is_terminal (te_state e)) eqn:Hterm.
  { cbn [snd]. eapply core_inv_put; [done|done|touch|done|done|done|done|done| | |].
    - intros k Hk. cbn. by apply HR.
    - intros w'. cbn. rewrite assigned_alter, HA. destruct (te_state e); naive_solver.
    - by destruct (te_state e). }
  pose proof (owned_nonterminal_active _ _ _ _ Hwf Ho Hterm) as Hact.
  pose proof (active_not_queued _ Hact) as Hnq.
  assert (Hun : forall w', ~ assigned_at (unassign w tid q) w' tid) by (intros w'; by eapply unassign_free).
  unfold decide_result. destruct (is_success r).
  { destruct (can_transition_to (te_state e) Completed) eqn:Hc; [|by destruct (te_state e)]. cbn [negb snd].
    apply core_track_terminal. end_core Hi He.
    by apply to_completed_wf. }
  destruct (res_exit_code r =? 130)%Z.
  { cbn [snd]. apply core_track_terminal. end_core Hi He.
    by apply to_ended_wf. }
  destruct (_ && _ && _ && _) eqn:Hrej.
  { rewrite !andb_true_iff, N.ltb_lt in Hrej. destruct Hrej as [[[? ?] ?] ?]. cbn [snd].
    eapply core_inv_same; [apply update_active_same|]. put_core He.
    - by apply to_rejected_wf.
    - intros k Hk. cbn. rewrite ready_inserted by done. naive_solver.
    - intros w'. cbn. split; [|by intros []]. intros Ha. by destruct (Hun w').
    - done. }
  destruct (rp_retry_on_execution_failure _ && _) eqn:Hx.
  { rewrite andb_true_iff, N.ltb_lt in Hx. destruct Hx. cbn [snd].
    eapply core_inv_same; [apply update_active_same|]. put_core He.
    - by apply to_execution_retry_wf.
    - intros k Hk. cbn. split; [intros Hin; by eapply ready_absent in Hin|naive_solver].
    - intros w'. cbn. split; [|by intros []]. intros Ha. by destruct (Hun w').
    - intros _. eexists. split; [done|]. cbn. rewrite elem_of_bt_insert. by left. }
  cbn [snd]. apply core_track_terminal. end_core Hi He.
  by apply to_ended_wf.
Qed.

Lemma core_fail_unsendable q w s r : core_inv q -> core_inv (fail_unsendable_assignment w s r q).2.
Proof.
  intros Hi. unfold fail_unsendable_assignment. set (tid := res_task_id r).
  destruct (tasks q !! tid) as [e|] eqn:He; [|done].
  destruct (slot_lookup q tid e Hi He) as (Hwf & _ & _ & HR & HA & _).
  destruct (owned_by e w s) eqn:Ho; cbn [negb]; [|done].
  pose proof (owned_by_assigned e w s Ho) as Hw.
  destruct (is_terminal (te_state e)) eqn:Hterm.
  { cbn [snd]. eapply core_inv_put; [done|done|touch|done|done|done|done|done| | |].
    - intros k Hk. cbn. by apply HR.
    - intros w'. cbn. rewrite assigned_alter, HA. destruct (te_state e); naive_solver.
    - by destruct (te_state e). }
  pose proof (owned_nonterminal_active _ _ _ _ Hwf Ho Hterm) as Hact.
  pose proof (active_not_queued _ Hact) as Hnq.
  assert (Hun : forall w', ~ assigned_at (unassign w tid q) w' tid) by (intros w'; by eapply unassign_free).
  destruct (can_transition_to (te_state e) Failed) eqn:Hc; [|by destruct (te_state e)]. cbn [negb snd].
  apply core_track_terminal. end_core Hi He. by apply to_ended_wf.
Qed.

(** ** Cancellation *)

Lemma cancel_active q tid e wid e' :
  core_inv q -> tasks q !! tid = Some e -> te_assigned_worker_id e = Some wid ->
  is_active (te_state e) = true -> entry_wf (retry_policy q) e' -> is_terminal (te_state e') = true ->
  te_sequence e' = te_sequence e -> te_priority e' = te_priority e -> te_task e' = te_task e ->
  core_inv (put_entry tid e' (unassign wid tid q)).
Proof.
  intros Hi He Hw Hact Hwf Hterm ? ? ?. eapply core_end_task;
    [done|done|by apply active_not_queued|touch|by apply lookup_insert_eq|done..|].
  intros w'. by eapply unassign_free.
Qed.

Lemma core_cancel q tid reason : core_inv q -> core_inv (cancel_task_detailed tid reason q).2.
Proof.
  intros Hi. unfold cancel_task_detailed. destruct (tasks q !! tid) as [e|] eqn:He; [|done].
  destruct (slot_lookup q tid e Hi He) as (Hwf & _ & _ & HR & HA & _).
  destruct (is_terminal (te_state e)) eqn:Hterm; [done|].
  pose proof (wf_not_submitted _ _ Hwf) as Hns.
  destruct (wf_unfinished _ _ Hwf Hterm) as [-> _].
  set (cr := match reason with Some _ => _ | None => _ end).
  destruct (te_state e) eqn:Hst; try done; cbn [snd]; apply core_track_terminal.
  - put_core He; [by apply to_ended_wf| | |done].
    + intros k Hk. cbn. split; [|naive_solver]. intros Hin. by eapply ready_removed in Hin.
    + intros w. cbn. split; [|by intros []]. intros Ha. by apply HA in Ha as [??].
  - destruct (wf_active_assigned _ _ Hwf) as [wid Hw]; [by rewrite Hst|]. rewrite Hw.
    apply (cancel_active q tid e wid); [done|done|done|by rewrite Hst|by apply to_ended_wf|done..].
  - destruct (wf_active_assigned _ _ Hwf) as [wid Hw]; [by rewrite Hst|]. rewrite Hw.
    apply (cancel_active q tid e wid); [done|done|done|by rewrite Hst|by apply to_ended_wf|done..].
  - assert (Hq : te_state e <> Queued) by (by rewrite Hst).
    assert (Hn : forall w, ~ assigned_at q w tid).
    { intros w Ha. by apply HA in Ha as [??]. }
    destruct (te_retry_after_instant e); (end_core Hi He; by apply to_ended_wf).
Qed.

(** ** Failover *)

Definition settle_keys (ts : list SweepTarget) (q : TaskQueueInner) : TaskQueueInner :=
  set_ready (fun l => foldl (fun l k => bt_insert k l) l (readies_of ts))
    (set_delayed (fun l => foldl (fun l k => bt_insert k l) l (delays_of ts)) q).

Lemma settle_nil q : settle_keys [] q = q.
Proof. by destruct q. Qed.

Lemma settle_ready k q : settle_keys [ToReady k] q = set_ready (bt_insert k) q.
Proof. by destruct q. Qed.
Lemma settle_delayed k q : settle_keys [ToDelayed k] q = set_delayed (bt_insert k) q.
Proof. by destruct q. Qed.
Lemma settle_terminal t q : settle_keys [ToTerminal t] q = q.
Proof. by destruct q. Qed.

Lemma settle_cons t ts q : settle_keys (t :: ts) q = settle_keys ts (settle_keys [t] q).
Proof. by destruct t. Qed.

(** The sweep reads and writes neither key set. *)
Lemma sweep_one_settle now epoch w s reason imm tid ts q :
  sweep_one now epoch w s reason imm tid (settle_keys ts q)
  = let '(o, q') := sweep_one now epoch w s reason imm tid q in (o, settle_keys ts q').
Proof.
  unfold sweep_one. cbn [settle_keys set_ready set_delayed tasks retry_policy].
  destruct (tasks q !! tid) as [e|]; [|done]. destruct (_ || _); [done|].
  by destruct (failover_entry _ _ _ _ _ _ _ _).
Qed.

Lemma sweep_loop_settle now epoch w s reason imm ids ts q :
  sweep_loop now epoch w s reason imm ids (settle_keys ts q)
  = let '(a, t, q') := sweep_loop now epoch w s reason imm ids q in (a, t, settle_keys ts q').
Proof.
  revert q. induction ids as [|tid ids IH]; intros q; cbn [sweep_loop]; [done|].
  rewrite sweep_one_settle. destruct (sweep_one _ _ _ _ _ _ _ q) as [o q1]. rewrite IH.
  destruct (sweep_loop _ _ _ _ _ _ ids q1) as [[a t] q2]. by destruct o.
Qed.

Definition target_list (o : option SweepTarget) : list SweepTarget :=
  match o with Some t => [t] | None => [] end.

(** What one iteration changed, when it changed something. *)
Lemma sweep_one_cases now epoch w s reason imm tid q :
  core_inv q ->
  sweep_one now epoch w s reason imm tid q = (None, q) \/
  exists e e' t, tasks q !! tid = Some e /\ is_active (te_state e) = true /\
    te_assigned_worker_id e = Some w /\ session_matches s e = true /\
    failover_entry (retry_policy q) now epoch w reason imm tid e = (e', t) /\
    sweep_one now epoch w s reason imm tid q = (Some t, put_entry tid e' (unassign w tid q)).
Proof.
  intros Hi. unfold sweep_one. destruct (tasks q !! tid) as [e|] eqn:He; [|by left].
  destruct (is_active (te_state e)) eqn:Hact; cbn [negb orb]; [|by left].
  case_bool_decide as Hw; cbn [negb orb]; [|by left].
  destruct (session_matches s e) eqn:Hs; cbn [negb]; [|by left]. right.
  destruct (failover_entry _ _ _ _ _ _ _ _) as [e' t] eqn:Hf. by exists e, e', t.
Qed.

(** The three ways a swept entry goes on. *)
Lemma failover_entry_cases p now epoch w reason imm tid e e' t :
  failover_entry p now epoch w reason imm tid e = (e', t) ->
  rp_retry_on_worker_disconnect p = true /\ (failover_budget p e).1 = true /\
    (e' = to_failover_now epoch w reason e /\ t = ToReady (entry_key e tid) \/
     exists ra, now < ra /\ imm = false /\ e' = to_failover_later ra epoch w reason e /\ t = ToDelayed (delayed_key ra tid)) \/
  (rp_retry_on_worker_disconnect p && (failover_budget p e).1 = false) /\ t = ToTerminal tid /\
    exists r m, e' = to_ended Failed None None (Some r) m e.
Proof.
  unfold failover_entry. destruct (failover_budget p e) as [b cap]. cbn [fst].
  destruct (rp_retry_on_worker_disconnect p && b) eqn:Hb.
  - apply andb_true_iff in Hb as [-> ->]. intros Heq. left. split_and!; [done..|].
    destruct (_ =? 0) eqn:Hz; simplify_eq; [by left|]. right.
    destruct imm; [done|]. eexists. split_and!; [|done..].
    apply N.eqb_neq in Hz. unfold from_millis. lia.
  - intros [= <- <-]. right. split_and!; eauto.
Qed.

Lemma core_sweep_one now epoch w s reason imm tid q :
  core_inv q ->
  core_inv (settle_keys (target_list (sweep_one now epoch w s reason imm tid q).1)
              (sweep_one now epoch w s reason imm tid q).2).
Proof.
  intros Hi. destruct (sweep_one_cases now epoch w s reason imm tid q Hi)
    as [->|(e & e' & t & He & Hact & Hw & _ & Hf & ->)]; cbn [fst snd target_list]; [by rewrite settle_nil|].
  pose proof (core_inv_entry_wf q tid e Hi He) as Hwf. pose proof (active_not_queued _ Hact) as Hnq.
  assert (Hun : forall w', ~ assigned_at (unassign w tid q) w' tid) by (intros w'; by eapply unassign_free).
  apply failover_entry_cases in Hf as
    [(Hd & Hb & [[-> ->]|(ra & _ & _ & -> & ->)])|(_ & -> & r & m & ->)].
  - rewrite settle_ready. put_core He.
    + apply failover_wf; auto.
    + intros k Hk. cbn. rewrite ready_inserted by done. naive_solver.
    + intros w'. cbn. split; [|by intros []]. intros Ha. by destruct (Hun w').
    + done.
  - rewrite settle_delayed. put_core He.
    + apply failover_wf; auto.
    + intros k Hk. cbn. split; [intros Hin; by eapply ready_absent in Hin|naive_solver].
    + intros w'. cbn. split; [|by intros []]. intros Ha. by destruct (Hun w').
    + intros _. exists ra. split; [done|]. cbn. rewrite elem_of_bt_insert. by left.
  - rewrite settle_terminal. end_core Hi He. by apply to_ended_wf.
Qed.

Lemma core_sweep_loop now epoch w s reason imm ids q affected ts q' :
  core_inv q -> sweep_loop now epoch w s reason imm ids q = (affected, ts, q') -> core_inv (settle_keys ts q').
Proof.
  revert q affected ts q'. induction ids as [|tid ids IH]; intros q affected ts q' Hi; cbn [sweep_loop].
  { intros [= <- <- <-]. by rewrite settle_nil. }
  pose proof (core_sweep_one now epoch w s reason imm tid q Hi) as H1.
  destruct (sweep_one _ _ _ _ _ _ _ q) as [o q1]. cbn [fst snd] in H1.
  pose proof (sweep_loop_settle now epoch w s reason imm ids (target_list o) q1) as Hc.
  destruct (sweep_loop _ _ _ _ _ _ ids q1) as [[a t] q2]. specialize (IH _ _ _ _ H1 Hc).
  destruct o as [t0|]; intros [= <- <- <-].
  - by rewrite settle_cons.
  - by rewrite settle_nil in IH.
Qed.

Lemma core_drop_empty w q : core_inv q -> core_inv (drop_empty_assignment w q).
Proof.
  unfold drop_empty_assignment. destruct (worker_assignments q !! w) as [s|] eqn:Hw; [|done].
  case_bool_decide as Hs; [subst|done]. apply core_inv_equiv; try done.
  intros w' t. cbn. unfold assigned_in. destruct (decide (w' = w)) as [->|].
  - rewrite lookup_delete_eq, Hw. split; [naive_solver|]. intros (?&[= <-]&?). set_solver.
  - by rewrite lookup_delete_ne.
Qed.

Lemma settle_drop_empty w ts q : drop_empty_assignment w (settle_keys ts q) = settle_keys ts (drop_empty_assignment w q).
Proof.
  unfold drop_empty_assignment. cbn. destruct (worker_assignments q !! w); [|done]. by case_bool_decide.
Qed.

Lemma same_core_set_delayed f q q' : same_core q q' -> same_core (set_delayed f q) (set_delayed f q').
Proof. unfold same_core. cbn. intuition congruence. Qed.
Lemma same_core_set_ready f q q' : same_core q q' -> same_core (set_ready f q) (set_ready f q').
Proof. unfold same_core. cbn. intuition congruence. Qed.

Lemma insert_delayed_all ks q :
  same_core (set_delayed (fun l => foldl (fun l k => bt_insert k l) l ks) q) (foldl (fun q k => insert_delayed k q) q ks).
Proof.
  revert q. induction ks as [|k ks IH]; intros q; cbn [foldl]; [by destruct q|].
  eapply same_core_trans; [|apply IH].
  exact (same_core_set_delayed (fun l => foldl (fun l k => bt_insert k l) l ks) _ _
           (update_active_same _ (set_delayed (bt_insert k) q))).
Qed.

Lemma insert_ready_all ks q :
  same_core (set_ready (fun l => foldl (fun l k => bt_insert k l) l ks) q) (foldl (fun q k => insert_ready k q) q ks).
Proof.
  revert q. induction ks as [|k ks IH]; intros q; cbn [foldl]; [by destruct q|].
  eapply same_core_trans; [|apply IH].
  exact (same_core_set_ready (fun l => foldl (fun l k => bt_insert k l) l ks) _ _
           (update_active_same _ (set_ready (bt_insert k) q))).
Qed.

Lemma insert_keys_all ts q :
  same_core (settle_keys ts q)
    (foldl (fun q k => insert_ready k q) (foldl (fun q k => insert_delayed k q) q (delays_of ts)) (readies_of ts)).
Proof.
  eapply same_core_trans; [|apply insert_ready_all]. apply same_core_set_ready, insert_delayed_all.
Qed.

Lemma core_track_all ts q : core_inv q -> core_inv (foldl (fun q t => track_terminal_task t q) q ts).
Proof. revert q. induction ts as [|t ts IH]; intros q Hi; cbn [foldl]; [done|]. by apply IH, core_track_terminal. Qed.

Lemma core_session_disconnected iter now epoch w s reason imm q :
  core_inv q -> core_inv (handle_session_disconnected iter now epoch w s reason imm q).2.
Proof.
  intros Hi. unfold handle_session_disconnected.
  destruct (sweep_loop _ _ _ _ _ _ _ q) as [[a ts] q1] eqn:Hl. cbn [snd].
  apply core_track_all. eapply core_inv_same; [apply insert_keys_all|].
  rewrite <-settle_drop_empty. apply core_drop_empty. by eapply core_sweep_loop.
Qed.

(** ** Backoff *)

Lemma pop_due_app now l : (pop_due now l).1 = dk_task_id <$> take (length l - length (pop_due now l).2) l /\
  l = take (length l - length (pop_due now l).2) l ++ (pop_due now l).2.
Proof.
  induction l as [|k l [IH1 IH2]]; cbn [pop_due]; [done|].
  destruct (_ <=? _); [|cbn [fst snd]; by rewrite Nat.sub_diag].
  destruct (pop_due now l) as [ids later]. cbn [fst snd] in *.
  assert (length later <= length l)%nat by (rewrite IH2, length_app; lia).
  cbn [length]. rewrite Nat.sub_succ_l by done. cbn [take fmap list_fmap app]. by rewrite <-IH1, <-IH2.
Qed.

Lemma pop_due_elem now l k : k ∈ l -> dk_task_id k ∈ (pop_due now l).1 \/ k ∈ (pop_due now l).2.
Proof.
  destruct (pop_due_app now l) as [-> Heq]. rewrite Heq at 1. rewrite elem_of_app.
  intros [Hin|Hin]; [left|by right]. by apply list_elem_of_fmap_2.
Qed.

Lemma pop_due_suffix now l : (pop_due now l).2 `suffix_of` l.
Proof. destruct (pop_due_app now l) as [_ Heq]. by eexists. Qed.

Lemma release_retry_set_delayed f t q : release_retry t (set_delayed f q) = set_delayed f (release_retry t q).
Proof.
  unfold release_retry. cbn [set_delayed tasks]. destruct (tasks q !! t); [|done]. by case_bool_decide.
Qed.

Lemma release_all_set_delayed f ids q :
  foldl (fun q t => release_retry t q) (set_delayed f q) ids = set_delayed f (foldl (fun q t => release_retry t q) q ids).
Proof.
  revert q. induction ids as [|t ids IH]; intros q; cbn [foldl]; [done|].
  by rewrite release_retry_set_delayed, IH.
Qed.

Lemma core_release_retry t q : core_inv q -> core_inv (release_retry t q).
Proof.
  intros Hi. unfold release_retry. destruct (tasks q !! t) as [e|] eqn:He; [|done].
  case_bool_decide as Hst; [|done]. destruct (slot_lookup q t e Hi He) as (Hwf & _ & _ & HR & HA & _).
  put_core He.
  - by apply to_backoff_over_wf.
  - intros k Hk. cbn. rewrite ready_inserted by done. naive_solver.
  - intros w. cbn. rewrite HA, Hst. done.
  - done.
Qed.

Lemma core_release_all ids q : core_inv q -> core_inv (foldl (fun q t => release_retry t q) q ids).
Proof. revert q. induction ids as [|t ids IH]; intros q Hi; cbn [foldl]; [done|]. by apply IH, core_release_retry. Qed.

(** What a release does to the table. *)
Lemma release_retry_lookup t q t' :
  tasks (release_retry t q) !! t' =
    if bool_decide (t' = t) then (fun e => if bool_decide (te_state e = Retrying) then to_backoff_over e else e) <$> tasks q !! t'
    else tasks q !! t'.
Proof.
  unfold release_retry. case_bool_decide as Ht; [subst|].
  - destruct (tasks q !! t) as [e|] eqn:He; cbn; [|done].
    case_bool_decide; cbn; [by rewrite lookup_insert_eq|done].
  - destruct (tasks q !! t) as [e|] eqn:He; [|done]. case_bool_decide; cbn; [by rewrite lookup_insert_ne|done].
Qed.

Lemma release_all_lookup ids q t :
  tasks (foldl (fun q t => release_retry t q) q ids) !! t =
    if bool_decide (t ∈ ids) then (fun e => if bool_decide (te_state e = Retrying) then to_backoff_over e else e) <$> tasks q !! t
    else tasks q !! t.
Proof.
  revert q. induction ids as [|t' ids IH]; intros q; cbn [foldl]; [done|].
  rewrite IH, release_retry_lookup. destruct (decide (t = t')) as [->|Hne].
  - rewrite (bool_decide_true (t' = t')), (bool_decide_true (t' ∈ t' :: ids)) by (set_solver || done).
    case_bool_decide; [|done]. destruct (tasks q !! t') as [e|]; [|done]. cbn.
    by repeat case_bool_decide.
  - rewrite (bool_decide_false (t = t')) by done.
    case_bool_decide as H1; case_bool_decide as H2; try done; set_solver.
Qed.

Lemma core_process_delayed now q : core_inv q -> core_inv (process_delayed_retries now q).2.
Proof.
  intros Hi. unfold process_delayed_retries.
  pose proof (pop_due_elem now (delayed_retries q)) as Hel. pose proof (pop_due_suffix now (delayed_retries q)) as Hsuf.
  destruct (pop_due now (delayed_retries q)) as [ids later]. cbn [fst snd] in *.
  rewrite release_all_set_delayed.
  pose proof (core_release_all ids q Hi) as Hi'. pose proof (release_all_lookup ids q) as Hlk.
  set (q' := foldl _ q ids) in *.
  assert (Hd : delayed_retries q' = delayed_retries q).
  { subst q'. clear. revert q. induction ids as [|t ids IH]; intros q; cbn [foldl]; [done|].
    rewrite IH. unfold release_retry. destruct (tasks q !! t); [|done]. by case_bool_decide. }
  destruct Hi' as [[Hr Hdw] Hs Hu]. split; [|intros t|done].
  - split; [done|]. cbn. rewrite Hd in Hdw. by eapply bt_wf_suffix.
  - specialize (Hs t). unfold slot_ok in *. queue_cbn. destruct (tasks q' !! t) as [e|] eqn:He; [|done].
    destruct Hs as (?&?&?&?&?&HD). split_and!; try done. intros Hst.
    destruct (HD Hst) as (r & ? & Hin). exists r. split; [done|]. rewrite Hd in Hin.
    destruct (Hel _ Hin) as [Hids|]; [|done]. exfalso. cbn in Hids. rewrite Hlk, bool_decide_true in He by done.
    destruct (tasks q !! t) as [e0|]; [|done]. cbn in He. case_bool_decide; simplify_eq; done.
Qed.

(** ** Limits *)

Lemma core_set_limits a b q : core_inv q -> core_inv (set_limits a b q).
Proof. by apply core_inv_same. Qed.
End uuid.
