(* ===== verification/QueueBook.v ===== *)
(** * QueueBook: byte accounting and retention

    The second half of the queue's invariant: the sizes charged for active and
    finished tasks are the sizes of the table's entries, the byte totals are their
    sums, the retention order lists exactly the finished tasks, and the retention
    limits hold.  [dirty] is the set of tasks whose entry was just changed and
    whose charge is not yet updated. *)

From S2P Require Import Prelude Collections RustStr Float Capabilities Placement Blob Task Queue QueueOps QueueInv QueueCore.
Local Open Scope N_scope.

Definition active_size_of (o : option TaskEntry) : option N :=
  match o with Some e => if is_terminal (te_state e) then None else Some (retained_bytes e) | None => None end.
Definition terminal_size_of (o : option TaskEntry) : option N :=
  match o with Some e => if is_terminal (te_state e) then Some (retained_bytes e) else None | None => None end.

Record book_inv (dirty : gset TaskId) (q : TaskQueueInner) : Prop := {
  bk_active : forall t, t ∉ dirty -> active_sizes q !! t = active_size_of (tasks q !! t);
  bk_terminal : forall t, t ∉ dirty -> terminal_sizes q !! t = terminal_size_of (tasks q !! t);
  bk_dirty : forall t, t ∈ dirty -> terminal_sizes q !! t = None;
  bk_nodup : NoDup (terminal_order q);
  bk_order : forall t, t ∈ terminal_order q <-> is_Some (terminal_sizes q !! t);
  bk_bytes : terminal_bytes q = map_sum id (terminal_sizes q)
}.

(** The running total has not lost anything to saturation. *)
Definition active_exact (q : TaskQueueInner) : Prop := active_bytes q = map_sum id (active_sizes q).

Definition within_limits (q : TaskQueueInner) : Prop :=
  N.of_nat (length (terminal_order q)) <= max_terminal_tasks q /\
  (terminal_bytes q <= max_terminal_bytes q \/ (length (terminal_order q) <= 1)%nat).

(** The entries fit in half of the address space. *)
Definition fits (q : TaskQueueInner) : Prop := 2 * map_sum retained_bytes (tasks q) <= usize_max.

Definition same_book (q q' : TaskQueueInner) : Prop :=
  tasks q' = tasks q /\ active_sizes q' = active_sizes q /\ active_bytes q' = active_bytes q /\
  terminal_order q' = terminal_order q /\ terminal_sizes q' = terminal_sizes q /\
  terminal_bytes q' = terminal_bytes q /\ max_terminal_tasks q' = max_terminal_tasks q /\
  max_terminal_bytes q' = max_terminal_bytes q.

Lemma book_inv_same D q q' : same_book q q' -> book_inv D q -> book_inv D q'.
Proof.
  intros (Ht & Ha & _ & Ho & Hs & Hb & _) []. split; rewrite ?Ht, ?Ha, ?Ho, ?Hs, ?Hb; done.
Qed.

Lemma active_exact_same q q' : same_book q q' -> active_exact q -> active_exact q'.
Proof. unfold active_exact. by intros (_ & -> & -> & _). Qed.

Lemma within_limits_same q q' : same_book q q' -> within_limits q -> within_limits q'.
Proof. unfold within_limits. by intros (_ & _ & _ & -> & _ & -> & -> & ->). Qed.

(** ** Active charges *)

Lemma untrack_sizes tid q : active_sizes (untrack_active_task tid q) = delete tid (active_sizes q).
Proof.
  unfold untrack_active_task. destruct (active_sizes q !! tid) eqn:Hs; cbn; [done|]. by rewrite delete_id.
Qed.

Lemma untrack_exact tid q : active_exact q -> active_exact (untrack_active_task tid q).
Proof.
  unfold active_exact, untrack_active_task. destruct (active_sizes q !! tid) as [n|] eqn:Hs; cbn; [|done].
  intros ->. rewrite (map_sum_delete id _ tid n Hs). unfold id. lia.
Qed.

Lemma untrack_fields tid q :
  tasks (untrack_active_task tid q) = tasks q /\ terminal_order (untrack_active_task tid q) = terminal_order q /\
  terminal_sizes (untrack_active_task tid q) = terminal_sizes q /\
  terminal_bytes (untrack_active_task tid q) = terminal_bytes q /\
  max_terminal_tasks (untrack_active_task tid q) = max_terminal_tasks q /\
  max_terminal_bytes (untrack_active_task tid q) = max_terminal_bytes q.
Proof. unfold untrack_active_task. by destruct (active_sizes q !! tid). Qed.

Lemma update_fields tid q :
  tasks (update_active_task tid q) = tasks q /\ terminal_order (update_active_task tid q) = terminal_order q /\
  terminal_sizes (update_active_task tid q) = terminal_sizes q /\
  terminal_bytes (update_active_task tid q) = terminal_bytes q /\
  max_terminal_tasks (update_active_task tid q) = max_terminal_tasks q /\
  max_terminal_bytes (update_active_task tid q) = max_terminal_bytes q.
Proof.
  unfold update_active_task. pose proof (untrack_fields tid q) as Hu.
  destruct (tasks _ !! tid) as [e|]; [|done]. by destruct (is_terminal (te_state e)).
Qed.

Lemma update_sizes tid q t :
  active_sizes (update_active_task tid q) !! t =
    if decide (t = tid) then active_size_of (tasks q !! tid) else active_sizes q !! t.
Proof.
  unfold update_active_task. destruct (untrack_fields tid q) as (Ht & _). rewrite Ht.
  unfold active_size_of. destruct (tasks q !! tid) as [e|]; [destruct (is_terminal (te_state e))|]; cbn.
  all: rewrite ?untrack_sizes; case_decide; subst;
    rewrite ?lookup_insert_eq, ?lookup_insert_ne, ?lookup_delete_eq, ?lookup_delete_ne by done; done.
Qed.

Lemma update_exact tid q :
  active_exact q -> map_sum id (active_sizes (update_active_task tid q)) <= usize_max ->
  active_exact (update_active_task tid q).
Proof.
  intros Hx%(untrack_exact tid). unfold update_active_task, active_exact in *.
  pose proof (untrack_sizes tid q) as Hs. set (q1 := untrack_active_task tid q) in *.
  destruct (tasks q1 !! tid) as [e|]; [|done]. destruct (is_terminal (te_state e)); [done|].
  cbn. rewrite Hx. rewrite map_sum_insert by (rewrite Hs; apply lookup_delete_eq).
  change (id (retained_bytes e)) with (retained_bytes e). intros. rewrite saturating_add_exact by lia. lia.
Qed.

Lemma update_book D tid e q :
  book_inv D q -> tasks q !! tid = Some e -> is_terminal (te_state e) = false ->
  book_inv (D ∖ {[tid]}) (update_active_task tid q).
Proof.
  intros [bka bkt bkd bkn bko bkb] He Hst. destruct (update_fields tid q) as (Ht & Ho & Hs & Hb & _).
  split; rewrite ?Ht, ?Ho, ?Hs, ?Hb; try done.
  - intros t Hd. rewrite update_sizes. case_decide; [by subst|]. apply bka. set_solver.
  - intros t Hd. destruct (decide (t = tid)) as [->|]; [|apply bkt; set_solver].
    destruct (decide (tid ∈ D)); [|by apply bkt]. rewrite bkd by done. rewrite He. cbn. by rewrite Hst.
  - intros t Hd. apply bkd. set_solver.
Qed.

(** ** Changing an entry *)

Lemma put_entry_dirty D tid e q :
  book_inv D q -> terminal_sizes q !! tid = None -> book_inv (D ∪ {[tid]}) (put_entry tid e q).
Proof.
  intros [bka bkt bkd bkn bko bkb] Hn. split; cbn; try done.
  - intros t Hd. rewrite lookup_insert_ne by set_solver. apply bka. set_solver.
  - intros t Hd. rewrite lookup_insert_ne by set_solver. apply bkt. set_solver.
  - intros t [Hd| ->%elem_of_singleton]%elem_of_union; [by apply bkd|done].
Qed.

(** An entry whose charge does not change. *)
Lemma put_entry_clean D tid e e' q :
  book_inv D q -> tasks q !! tid = Some e -> is_terminal (te_state e') = is_terminal (te_state e) ->
  retained_bytes e' = retained_bytes e -> book_inv D (put_entry tid e' q).
Proof.
  intros [bka bkt bkd bkn bko bkb] He Hst Hr. split; cbn; try done.
  - intros t Hd. rewrite bka by done. destruct (decide (t = tid)) as [->|].
    + rewrite lookup_insert_eq, He. cbn. by rewrite Hst, Hr.
    + by rewrite lookup_insert_ne.
  - intros t Hd. rewrite bkt by done. destruct (decide (t = tid)) as [->|].
    + rewrite lookup_insert_eq, He. cbn. by rewrite Hst, Hr.
    + by rewrite lookup_insert_ne.
Qed.

Lemma book_nonterminal D q tid e : book_inv D q -> tasks q !! tid = Some e -> is_terminal (te_state e) = false ->
  terminal_sizes q !! tid = None.
Proof.
  intros [bka bkt bkd bkn bko bkb] He Hst. destruct (decide (tid ∈ D)); [by apply bkd|].
  rewrite bkt by done. rewrite He. cbn. by rewrite Hst.
Qed.

(** ** Eviction *)

(** [q'] is [q] without the finished tasks [l], the oldest ones. *)
Record evicts (l : list TaskId) (q q' : TaskQueueInner) : Prop := {
  ev_order : terminal_order q = l ++ terminal_order q';
  ev_tasks : forall t, tasks q' !! t = if decide (t ∈ l) then None else tasks q !! t;
  ev_finished : forall t, t ∈ l -> exists e, tasks q !! t = Some e /\ is_terminal (te_state e) = true;
  ev_active : active_sizes q' = active_sizes q /\ active_bytes q' = active_bytes q;
  ev_limits : max_terminal_tasks q' = max_terminal_tasks q /\ max_terminal_bytes q' = max_terminal_bytes q;
  ev_rest : ready_queue q' = ready_queue q /\ delayed_retries q' = delayed_retries q /\
    worker_assignments q' = worker_assignments q /\ next_sequence q' = next_sequence q /\
    retry_policy q' = retry_policy q /\ capacity q' = capacity q /\ max_active_bytes q' = max_active_bytes q
}.

Lemma evicts_nil q : evicts [] q q.
Proof. split; try done; set_solver. Qed.

Lemma evicts_trans l1 l2 q1 q2 q3 : evicts l1 q1 q2 -> evicts l2 q2 q3 -> evicts (l1 ++ l2) q1 q3.
Proof.
  intros [O1 T1 F1 A1 L1 R1] [O2 T2 F2 A2 L2 R2]. split; try (intuition congruence).
  - by rewrite O1, O2, app_assoc.
  - intros t. rewrite T2, T1. repeat case_decide; set_solver.
  - intros t [Ht|Ht]%elem_of_app; [by apply F1|]. destruct (F2 t Ht) as (e & He & ?). exists e.
    rewrite T1 in He. by case_decide.
Qed.

Lemma evict_oldest_spec D q o rest :
  book_inv D q -> terminal_order q = o :: rest ->
  exists q', evict_oldest_terminal q = (true, q') /\ evicts [o] q q' /\ book_inv D q'.
Proof.
  intros Hb Ho. pose proof Hb as [bka bkt bkd bkn bko bkb].
  assert (Hin : o ∈ terminal_order q) by (rewrite Ho; left).
  apply bko in Hin as [n Hn].
  assert (HD : o ∉ D) by (intros Hd; rewrite bkd in Hn; done).
  pose proof Hn as Hsz. rewrite bkt in Hsz by done. pose proof (bka o HD) as Hact.
  destruct (tasks q !! o) as [e|] eqn:He; [|done]. cbn in Hsz, Hact.
  destruct (is_terminal (te_state e)) eqn:Hterm; [|done].
  unfold evict_oldest_terminal. rewrite Ho. unfold holds_terminal. queue_cbn. rewrite He, Hterm.
  eexists. split; [done|]. unfold remove_retained, untrack_active_task. queue_cbn. rewrite Hact. queue_cbn. rewrite Hn.
  rewrite Ho in bkn. apply NoDup_cons in bkn as [Hnin Hnd].
  split; split; queue_cbn; try done.
  - intros t. destruct (decide (t = o)) as [->|].
    + rewrite lookup_delete_eq. case_decide; [done|set_solver].
    + rewrite lookup_delete_ne by done. case_decide; [set_solver|done].
  - intros t ->%list_elem_of_singleton. eauto.
  - intros t Hd. destruct (decide (t = o)) as [->|].
    + by rewrite Hact, lookup_delete_eq.
    + rewrite lookup_delete_ne by done. auto.
  - intros t Hd. destruct (decide (t = o)) as [->|].
    + by rewrite !lookup_delete_eq.
    + rewrite !lookup_delete_ne by done. auto.
  - intros t Hd. rewrite lookup_delete_ne by set_solver. auto.
  - intros t. destruct (decide (t = o)) as [->|].
    + rewrite lookup_delete_eq. split; [done|by intros []].
    + rewrite lookup_delete_ne, <-bko, Ho by done. set_solver.
  - rewrite bkb, (map_sum_delete id _ o n Hn). unfold id at 1. lia.
Qed.

(** The loop stops because its condition became false, never for lack of fuel. *)
Lemma evict_while_spec D cond fuel q :
  (forall q', cond q' = true -> terminal_order q' <> []) ->
  book_inv D q -> (length (terminal_order q) <= fuel)%nat ->
  exists l, evicts l q (evict_while cond fuel q) /\ book_inv D (evict_while cond fuel q) /\
    cond (evict_while cond fuel q) = false /\
    (forall l1 x l2, l = l1 ++ x :: l2 -> exists q1, evicts l1 q q1 /\ book_inv D q1 /\ cond q1 = true).
Proof.
  intros Hc. revert q. induction fuel as [|fuel IH]; intros q Hb Hlen; cbn [evict_while].
  - exists []. split_and!; [apply evicts_nil|done| |by intros []].
    destruct (cond q) eqn:E; [|done]. apply Hc in E. by destruct (terminal_order q); cbn in *; [|lia].
  - destruct (cond q) eqn:E; [|exists []; split_and!; [apply evicts_nil|done|done|by intros []]].
    pose proof (Hc q E) as Hne. destruct (terminal_order q) as [|o rest] eqn:Ho; [done|].
    destruct (evict_oldest_spec D q o rest Hb Ho) as (q' & -> & Hev & Hb').
    pose proof (ev_order _ _ _ Hev) as Ho'. rewrite Ho in Ho'. injection Ho' as Ho'.
    destruct (IH q' Hb') as (l & Hl & ? & ? & Hpre); [cbn in Hlen; rewrite <-Ho'; lia|].
    exists (o :: l). split_and!; [by apply (evicts_trans [o] l _ q')|done|done|].
    intros [|y l1] x l2 [= -> Heq]; [exists q; split_and!; [apply evicts_nil|done|done]|].
    destruct (Hpre _ _ _ Heq) as (q1 & Hq1 & ? & ?). exists q1. split_and!; [|done..].
    by apply (evicts_trans [y] l1 _ q').
Qed.

Lemma over_count_nonempty q : over_count q = true -> terminal_order q <> [].
Proof. unfold over_count. intros Hc Heq. rewrite Heq in Hc. apply N.ltb_lt in Hc. cbn in Hc. lia. Qed.
Lemma over_bytes_nonempty q : over_bytes q = true -> terminal_order q <> [].
Proof.
  unfold over_bytes. intros [_ Hc]%andb_true_iff Heq. rewrite Heq in Hc. by apply N.ltb_lt in Hc.
Qed.

Lemma within_limits_spec q : within_limits q <-> over_count q = false /\ over_bytes q = false.
Proof.
  unfold within_limits, over_count, over_bytes. rewrite andb_false_iff, !N.ltb_ge. lia.
Qed.

Lemma enforce_spec D q :
  book_inv D q ->
  exists l, evicts l q (enforce_terminal_limits q) /\ book_inv D (enforce_terminal_limits q) /\
    within_limits (enforce_terminal_limits q) /\
    (1 <= max_terminal_tasks q -> terminal_order q <> [] -> terminal_order (enforce_terminal_limits q) <> []).
Proof.
  intros Hb. unfold enforce_terminal_limits. set (q1 := evict_while over_count _ q).
  destruct (evict_while_spec D over_count (length (terminal_order q)) q over_count_nonempty Hb)
    as (l1 & He1 & Hb1 & Hc1 & Hp1); [lia|]. fold q1 in He1, Hb1, Hc1.
  destruct (evict_while_spec D over_bytes (length (terminal_order q1)) q1 over_bytes_nonempty Hb1)
    as (l2 & He2 & Hb2 & Hc2 & Hp2); [lia|].
  set (q2 := evict_while over_bytes _ q1) in *.
  assert (Ho2 := ev_order _ _ _ He2). assert (Ho1 := ev_order _ _ _ He1).
  destruct (ev_limits _ _ _ He1) as [Hm1 _], (ev_limits _ _ _ He2) as [Hm2 _].
  exists (l1 ++ l2). split_and!; [by eapply evicts_trans|done| |].
  - apply within_limits_spec. split; [|done]. unfold over_count in *. rewrite N.ltb_ge in *.
    rewrite Hm2. rewrite Ho2, length_app in Hc1. lia.
  - intros Hmax Hne Hnil.
    assert (Hne1 : terminal_order q1 <> []).
    { intros Hn1. rewrite Hn1, app_nil_r in Ho1. destruct l1 as [|x l1 _] using rev_ind; [congruence|].
      destruct (Hp1 l1 x [] eq_refl) as (q' & Hev & _ & Hc).
      assert (Hl := ev_order _ _ _ Hev). destruct (ev_limits _ _ _ Hev) as [Hm _].
      rewrite Ho1 in Hl. apply app_inv_head in Hl. unfold over_count in Hc.
      rewrite N.ltb_lt, <-Hl, Hm in Hc. cbn in Hc. lia. }
    rewrite Hnil, app_nil_r in Ho2. destruct l2 as [|x l2 _] using rev_ind; [congruence|].
    destruct (Hp2 l2 x [] eq_refl) as (q' & Hev & _ & Hc).
    assert (Hl := ev_order _ _ _ Hev). rewrite Ho2 in Hl. apply app_inv_head in Hl.
    unfold over_bytes in Hc. rewrite <-Hl, andb_true_iff in Hc. cbn in Hc. by destruct Hc.
Qed.

(** ** Tracking a finished task *)

Record tracks (tid : TaskId) (l : list TaskId) (q q' : TaskQueueInner) : Prop := {
  tr_order : terminal_order q ++ [tid] = l ++ terminal_order q';
  tr_tasks : forall t, tasks q' !! t = if decide (t ∈ l) then None else tasks q !! t;
  tr_finished : forall t, t ∈ l -> exists e, tasks q !! t = Some e /\ is_terminal (te_state e) = true;
  tr_active : active_sizes q' = delete tid (active_sizes q);
  tr_exact : active_exact q -> active_exact q';
  tr_limits : max_terminal_tasks q' = max_terminal_tasks q /\ max_terminal_bytes q' = max_terminal_bytes q;
  tr_within : within_limits q';
  tr_kept : 1 <= max_terminal_tasks q -> tid ∉ l;
  tr_rest : ready_queue q' = ready_queue q /\ delayed_retries q' = delayed_retries q /\
    worker_assignments q' = worker_assignments q /\ next_sequence q' = next_sequence q /\
    retry_policy q' = retry_policy q /\ capacity q' = capacity q /\ max_active_bytes q' = max_active_bytes q
}.

(** The state [track_terminal_task] hands to [enforce_terminal_limits]. *)
Definition push_terminal (tid : TaskId) (e : TaskEntry) (q : TaskQueueInner) : TaskQueueInner :=
  let q := untrack_active_task tid q in
  set_terminal (terminal_order q ++ [tid]) (<[tid := retained_bytes e]> (terminal_sizes q))
    (terminal_bytes q + retained_bytes e) q.

Lemma push_terminal_book D tid e q :
  book_inv D q -> tid ∈ D -> tasks q !! tid = Some e -> is_terminal (te_state e) = true ->
  book_inv (D ∖ {[tid]}) (push_terminal tid e q).
Proof.
  intros [bka bkt bkd bkn bko bkb] HD He Hst. destruct (untrack_fields tid q) as (Ht & Ho & Hs & Hb & _).
  pose proof (bkd tid HD) as Hnone. unfold push_terminal.
  split; queue_cbn; rewrite ?Ht, ?Ho, ?Hs, ?Hb, ?untrack_sizes.
  - intros t Hd. destruct (decide (t = tid)) as [->|].
    + rewrite lookup_delete_eq, He. cbn. by rewrite Hst.
    + rewrite lookup_delete_ne by done. apply bka. set_solver.
  - intros t Hd. destruct (decide (t = tid)) as [->|].
    + rewrite lookup_insert_eq, He. cbn. by rewrite Hst.
    + rewrite lookup_insert_ne by done. apply bkt. set_solver.
  - intros t Hd. rewrite lookup_insert_ne by set_solver. apply bkd. set_solver.
  - apply NoDup_app. split_and!; [done| |apply NoDup_singleton].
    intros t Hin ->%list_elem_of_singleton. apply bko in Hin. rewrite Hnone in Hin. by destruct Hin.
  - intros t. rewrite elem_of_app, bko, list_elem_of_singleton. destruct (decide (t = tid)) as [->|].
    + rewrite lookup_insert_eq. split; [eauto|by right].
    + rewrite lookup_insert_ne by done. naive_solver.
  - rewrite map_sum_insert by done. rewrite bkb. unfold id at 2. lia.
Qed.

Lemma track_spec D tid e q :
  book_inv D q -> tid ∈ D -> tasks q !! tid = Some e -> is_terminal (te_state e) = true ->
  exists l, tracks tid l q (track_terminal_task tid q) /\ book_inv (D ∖ {[tid]}) (track_terminal_task tid q).
Proof.
  intros Hb HD He Hst. pose proof (push_terminal_book D tid e q Hb HD He Hst) as Hp.
  destruct (untrack_fields tid q) as (Ht & Ho & Hs & Hby & Hm1 & Hm2).
  assert (Heq : track_terminal_task tid q = enforce_terminal_limits (push_terminal tid e q)).
  { unfold track_terminal_task, push_terminal. by rewrite Hs, (bk_dirty _ _ Hb tid HD), Ht, He. }
  rewrite Heq. destruct (enforce_spec _ _ Hp) as (l & Hev & Hb' & Hw & Hk). exists l. split; [|done].
  destruct Hev as [EO ET EF [EA1 EA2] EL ER].
  assert (HPo : terminal_order (push_terminal tid e q) = terminal_order q ++ [tid]).
  { unfold push_terminal. queue_cbn. by rewrite Ho. }
  assert (HPt : tasks (push_terminal tid e q) = tasks q) by exact Ht.
  assert (HPa : active_sizes (push_terminal tid e q) = delete tid (active_sizes q)).
  { unfold push_terminal. queue_cbn. apply untrack_sizes. }
  split; try done.
  - by rewrite <-EO.
  - intros t. by rewrite ET, HPt.
  - intros t Hin. by rewrite <-HPt; apply EF.
  - by rewrite EA1.
  - intros Hx%(untrack_exact tid). unfold active_exact in *. by rewrite EA1, EA2.
  - split; [by rewrite (proj1 EL)|by rewrite (proj2 EL)].
  - intros Hmax Hin. rewrite <-Hm1 in Hmax.
    assert (Hne : terminal_order (enforce_terminal_limits (push_terminal tid e q)) <> []).
    { apply Hk; [done|]. rewrite HPo. by destruct (terminal_order q). }
    pose proof (bk_nodup _ _ Hp) as Hnd. rewrite EO in Hnd.
    rewrite HPo in EO. destruct (terminal_order (enforce_terminal_limits _)) as [|x k _] using rev_ind; [done|].
    rewrite app_assoc in EO. apply app_inj_tail in EO as [_ ->].
    apply NoDup_app in Hnd as (_ & Hnd & _). apply (Hnd _ Hin). set_solver.
  - clear -ER. unfold push_terminal, untrack_active_task in *. by destruct (active_sizes q !! tid).
Qed.
