(* ===== verification/QueueAcct.v ===== *)
(** * QueueAcct: the operations preserve the accounting

    Carries [acct_inv] (charges, totals, retention limits, capacity) through the
    operations of [QueueOps]. *)

From S2P Require Import Prelude Collections RustStr Float Capabilities Placement Blob Task Queue QueueOps QueueInv QueueCore QueueBook.
Local Open Scope N_scope.

Definition capacity_ok (q : TaskQueueInner) : Prop :=
  match capacity q with Some cap => active_count q <= cap | None => True end.

Record acct_inv (q : TaskQueueInner) : Prop := {
  ai_book : book_inv ∅ q;
  ai_exact : active_exact q;
  ai_limits : within_limits q;
  ai_capacity : capacity_ok q
}.

(** ** Counting and bounding *)

(** No entry turns active that was not. *)
Definition no_revival (q q' : TaskQueueInner) : Prop :=
  forall t e', tasks q' !! t = Some e' -> is_terminal (te_state e') = false ->
    exists e, tasks q !! t = Some e /\ is_terminal (te_state e) = false.

Lemma no_revival_refl q : no_revival q q.
Proof. intros t e' He' Hst. by exists e'. Qed.

Lemma no_revival_trans q1 q2 q3 : no_revival q1 q2 -> no_revival q2 q3 -> no_revival q1 q3.
Proof. intros H12 H23 t e' He' Hst. destruct (H23 t e' He' Hst) as (e & He & Hs). by apply (H12 t e). Qed.

Lemma map_sum_pointwise {A B} (f : A -> N) (g : B -> N) (m1 : gmap TaskId A) (m2 : gmap TaskId B) :
  (forall k x, m1 !! k = Some x -> f x <> 0 -> exists y, m2 !! k = Some y /\ f x <= g y) ->
  map_sum f m1 <= map_sum g m2.
Proof.
  revert m2. induction m1 as [|k x m1 Hk IH] using map_ind; intros m2 Hle; [rewrite map_sum_empty; lia|].
  rewrite map_sum_insert by done.
  assert (Hrest : forall m, (forall k', k' <> k -> m !! k' = m2 !! k') -> map_sum f m1 <= map_sum g m).
  { intros m Hm. apply IH. intros k' x' Hk' Hne. assert (k' <> k) by congruence.
    rewrite Hm by done. apply (Hle k' x'); [by rewrite lookup_insert_ne|done]. }
  destruct (N.eq_dec (f x) 0) as [->|Hnz]; [rewrite N.add_0_l; by apply Hrest|].
  destruct (Hle k x) as (y & Hy & ?); [by rewrite lookup_insert_eq|done|].
  rewrite (map_sum_delete g m2 k y Hy). apply N.add_le_mono; [done|]. apply Hrest.
  intros. by apply lookup_delete_ne.
Qed.

Lemma no_revival_count q q' : no_revival q q' -> active_count q' <= active_count q.
Proof.
  intros Hn. unfold active_count. apply map_sum_pointwise. intros t e' He'.
  destruct (is_terminal (te_state e')) eqn:Hst; [done|]. intros _.
  destruct (Hn t e' He' Hst) as (e & He & Hs). exists e. rewrite Hs. by split.
Qed.

Lemma no_revival_capacity q q' : no_revival q q' -> capacity q' = capacity q -> capacity_ok q -> capacity_ok q'.
Proof.
  intros Hn%no_revival_count Hc. unfold capacity_ok. rewrite Hc. destruct (capacity q); [lia|done].
Qed.

Lemma active_sum_bound q : book_inv ∅ q -> map_sum id (active_sizes q) <= map_sum retained_bytes (tasks q).
Proof.
  intros Hb. apply map_sum_le. intros t n Hn. rewrite (bk_active _ _ Hb) in Hn by set_solver.
  destruct (tasks q !! t) as [e|]; [|done]. cbn in Hn. exists e. split; [done|].
  destruct (is_terminal (te_state e)); simplify_eq. unfold id. lia.
Qed.

Lemma fits_active q : book_inv ∅ q -> fits q -> 2 * map_sum id (active_sizes q) <= usize_max.
Proof. intros Hb%active_sum_bound. unfold fits. lia. Qed.

(** ** One entry, same charge *)

Lemma acct_same q q' : same_book q q' -> capacity q' = capacity q -> acct_inv q -> acct_inv q'.
Proof.
  intros Hs Hc [Hb Hx Hl Hcap]. split.
  - by eapply book_inv_same.
  - by eapply active_exact_same.
  - by eapply within_limits_same.
  - destruct Hs as [Ht _]. unfold capacity_ok, active_count in *. by rewrite Hc, Ht.
Qed.

Lemma put_no_revival q tid e e' : tasks q !! tid = Some e ->
  (is_terminal (te_state e) = true -> is_terminal (te_state e') = true) -> no_revival q (put_entry tid e' q).
Proof.
  intros He Hst t e2. queue_cbn. destruct (decide (t = tid)) as [->|].
  - rewrite lookup_insert_eq. intros [= <-] Hf. exists e. split; [done|].
    destruct (is_terminal (te_state e)); [|done]. by rewrite Hst in Hf.
  - rewrite lookup_insert_ne by done. intros. by exists e2.
Qed.

Lemma acct_put_clean q q' tid e e' :
  acct_inv q -> tasks q !! tid = Some e -> is_terminal (te_state e') = is_terminal (te_state e) ->
  retained_bytes e' = retained_bytes e -> same_book (put_entry tid e' q) q' -> capacity q' = capacity q ->
  acct_inv q'.
Proof.
  intros [Hb Hx Hl Hcap] He Hst Hr Hs Hc.
  apply (acct_same (put_entry tid e' q)); [done|done|]. split; [by eapply put_entry_clean|done|done|].
  apply (no_revival_capacity q); [|done|done]. eapply put_no_revival; [done|]. by rewrite Hst.
Qed.

(** ** One entry, charge updated *)

Lemma acct_put_update q q1 tid e e' :
  acct_inv q -> tasks q !! tid = Some e -> is_terminal (te_state e) = false -> is_terminal (te_state e') = false ->
  same_book (put_entry tid e' q) q1 -> capacity q1 = capacity q -> fits (update_active_task tid q1) ->
  acct_inv (update_active_task tid q1).
Proof.
  intros [Hb Hx Hl Hcap] He Hst Hst' Hs Hc Hfit.
  assert (Hb1 : book_inv (∅ ∪ {[tid]}) q1).
  { eapply book_inv_same; [done|]. apply put_entry_dirty; [done|]. by eapply book_nonterminal. }
  assert (He1 : tasks q1 !! tid = Some e') by (rewrite (proj1 Hs); apply lookup_insert_eq).
  pose proof (update_book _ tid e' q1 Hb1 He1 Hst') as Hb2.
  replace ((∅ ∪ {[tid]}) ∖ {[tid]}) with (∅ : gset TaskId) in Hb2 by set_solver.
  pose proof (update_fields tid q1) as (Ht & Ho & Hsz & Hby & Hm1 & Hm2). split; [done| | |].
  - apply update_exact; [by eapply active_exact_same|]. pose proof (fits_active _ Hb2 Hfit). lia.
  - unfold within_limits in *. rewrite Ho, Hby, Hm1, Hm2. by apply (within_limits_same (put_entry tid e' q)).
  - apply (no_revival_capacity q); [| |done].
    + intros t e2. rewrite Ht, (proj1 Hs). by eapply put_no_revival; [done|]; rewrite Hst.
    + pose proof (update_active_same tid q1). unfold update_active_task, untrack_active_task.
      rewrite <-Hc. destruct (active_sizes q1 !! tid); queue_cbn; (destruct (tasks q1 !! tid) as [e0|]; [|done]);
      by destruct (is_terminal (te_state e0)).
Qed.

(** ** One entry that ends *)

Lemma tracks_no_revival tid l q q' : tracks tid l q q' -> no_revival q q'.
Proof. intros Htr t e' He' Hst. rewrite (tr_tasks _ _ _ _ Htr) in He'. case_decide; [done|]. by exists e'. Qed.

Lemma acct_put_track q q1 tid e e' :
  acct_inv q -> tasks q !! tid = Some e -> is_terminal (te_state e) = false -> is_terminal (te_state e') = true ->
  same_book (put_entry tid e' q) q1 -> capacity q1 = capacity q ->
  acct_inv (track_terminal_task tid q1) /\ exists l, tracks tid l q1 (track_terminal_task tid q1).
Proof.
  intros [Hb Hx Hl Hcap] He Hst Hst' Hs Hc.
  assert (Hb1 : book_inv (∅ ∪ {[tid]}) q1).
  { eapply book_inv_same; [done|]. apply put_entry_dirty; [done|]. by eapply book_nonterminal. }
  assert (He1 : tasks q1 !! tid = Some e') by (rewrite (proj1 Hs); apply lookup_insert_eq).
  destruct (track_spec _ tid e' q1 Hb1) as (l & Htr & Hb2); [set_solver|done|done|].
  replace ((∅ ∪ {[tid]}) ∖ {[tid]}) with (∅ : gset TaskId) in Hb2 by set_solver.
  split; [|by exists l]. split; [done| |apply (tr_within _ _ _ _ Htr)|].
  - apply (tr_exact _ _ _ _ Htr). by apply (active_exact_same (put_entry tid e' q)).
  - apply (no_revival_capacity q); [| |done].
    + eapply no_revival_trans; [|by eapply tracks_no_revival].
      intros t e2. rewrite (proj1 Hs). by eapply put_no_revival; [done|]; rewrite Hst.
    + rewrite <-Hc. apply (tr_rest _ _ _ _ Htr).
Qed.

(** ** Scheduling, requeueing, progress *)

Ltac clean_acct Hi He e' :=
  eapply (acct_put_clean _ _ _ _ e'); [exact Hi | exact He | entry_cbn | reflexivity | repeat split | reflexivity].

Lemma acct_take_ready q now tid e w s :
  acct_inv q -> tasks q !! tid = Some e -> te_state e = Queued ->
  acct_inv (take_ready now (entry_key e tid) e w s q).
Proof. intros Hi He Hst. clean_acct Hi He (to_scheduled now w s e). by rewrite Hst. Qed.

Lemma acct_pop_and_schedule q now w pred :
  core_inv q -> acct_inv q -> acct_inv (pop_and_schedule now w pred q).2.
Proof.
  intros Hc Hi. unfold pop_and_schedule. destruct (List.find _ _) as [k|] eqn:Hf; [|done].
  apply List.find_some in Hf as [Hin%list_elem_of_In _].
  destruct (ready_key_entry q k Hc Hin) as (e & [He Hst]%queued_entry_Some & ->).
  cbn [qk_task_id entry_key] in *. rewrite He. by apply acct_take_ready.
Qed.

Lemma acct_schedule_task q now tid w : acct_inv q -> acct_inv (schedule_task now tid w q).2.
Proof.
  intros Hi. unfold schedule_task. destruct (tasks q !! tid) as [e|] eqn:He; [|done].
  case_bool_decide; [|done]. by apply acct_take_ready.
Qed.

Lemma acct_schedule_one q now a : acct_inv q -> acct_inv (schedule_one now a q).2.
Proof.
  intros Hi. destruct a as [[tid w] s]. unfold schedule_one.
  destruct (tasks q !! tid) as [e|] eqn:He; [|done].
  case_bool_decide; [by apply acct_take_ready|]. by apply (acct_same q).
Qed.

Lemma acct_schedule_batch now l q : acct_inv q -> acct_inv (schedule_batch_inner now l q).2.
Proof.
  revert q. induction l as [|a l IH]; intros q Hi; [done|]. cbn.
  pose proof (acct_schedule_one q now a Hi) as H1. destruct (schedule_one now a q) as [o q1].
  specialize (IH q1 H1). by destruct (schedule_batch_inner now l q1).
Qed.

Lemma acct_requeue_task q tid : acct_inv q -> acct_inv (requeue_task tid q).2.
Proof.
  intros Hi. unfold requeue_task. destruct (tasks q !! tid) as [e|] eqn:He; [|done].
  destruct (is_terminal (te_state e)) eqn:Hst; [done|]. cbn [snd].
  destruct (te_assigned_worker_id e); clean_acct Hi He (to_requeued e); by rewrite Hst.
Qed.

Lemma acct_requeue_dispatch q tid w s : acct_inv q -> acct_inv (requeue_dispatch_failure tid w s q).2.
Proof.
  intros Hi. unfold requeue_dispatch_failure. destruct (tasks q !! tid) as [e|] eqn:He; [|done].
  case_bool_decide as Hst; cbn [negb orb]; [|done]. destruct (owned_by _ _ _); [|done]. cbn [negb snd].
  clean_acct Hi He (to_requeued e). by rewrite Hst.
Qed.

Lemma acct_mark_running q now w s tid : acct_inv q -> acct_inv (mark_running_from now w s tid q).2.
Proof.
  intros Hi. unfold mark_running_from. destruct (tasks q !! tid) as [e|] eqn:He; [|done].
  destruct (owned_by e w s); cbn [negb]; [|done].
  destruct (can_transition_to (te_state e) Running) eqn:Hc; cbn [negb snd]; [|done].
  clean_acct Hi He (to_running now e). by destruct (te_state e).
Qed.

Lemma acct_release_retry t q : acct_inv q -> acct_inv (release_retry t q).
Proof.
  intros Hi. unfold release_retry. destruct (tasks q !! t) as [e|] eqn:He; [|done].
  case_bool_decide as Hst; [|done]. clean_acct Hi He (to_backoff_over e). by rewrite Hst.
Qed.

Lemma acct_process_delayed now q : acct_inv q -> acct_inv (process_delayed_retries now q).2.
Proof.
  intros Hi. unfold process_delayed_retries. destruct (pop_due _ _) as [ids later]. cbn [snd].
  assert (Hi' : acct_inv (set_delayed (fun _ => later) q)) by (by apply (acct_same q)). revert Hi'.
  generalize (set_delayed (fun _ => later) q). induction ids as [|t ids IH]; intros q0 H0; cbn [foldl]; [done|].
  by apply IH, acct_release_retry.
Qed.

(** ** Checkpoints, results, cancellation *)

Lemma acct_store_checkpoint q tid e cp :
  acct_inv q -> tasks q !! tid = Some e -> is_terminal (te_state e) = false ->
  fits (store_checkpoint tid e cp q).2 -> acct_inv (store_checkpoint tid e cp q).2.
Proof.
  intros Hi He Hst. unfold store_checkpoint, apply_checkpoint.
  destruct (checkpoint_exceeds_active_cap _ _ _ _); [done|]. destruct (is_newer_checkpoint e cp); [|done]. cbn [snd].
  by apply (acct_put_update q _ tid e (set_task (update_checkpoint cp (te_task e)) e)).
Qed.

Lemma acct_record_checkpoint q tid cp : acct_inv q ->
  fits (record_checkpoint tid cp q).2 -> acct_inv (record_checkpoint tid cp q).2.
Proof.
  intros Hi. unfold record_checkpoint. destruct (tasks q !! tid) as [e|] eqn:He; [|done].
  destruct (is_terminal (te_state e)) eqn:Hst; [done|].
  pose proof (acct_store_checkpoint q tid e cp Hi He Hst). by destruct (store_checkpoint _ _ _ _).
Qed.

Lemma acct_record_checkpoint_from q w s tid cp : acct_inv q ->
  fits (record_checkpoint_from w s tid cp q).2 -> acct_inv (record_checkpoint_from w s tid cp q).2.
Proof.
  intros Hi. unfold record_checkpoint_from. destruct (tasks q !! tid) as [e|] eqn:He; [|done].
  destruct (is_active (te_state e)) eqn:Hst; cbn [negb orb]; [|done]. destruct (owned_by e w s); cbn [negb]; [|done].
  apply acct_store_checkpoint; [done|done|by apply nonterminal_active].
Qed.

(** What [decide_result] produces for an active entry. *)
Lemma decide_result_active p now epoch w tid r e :
  is_active (te_state e) = true ->
  exists e' dk rk d, decide_result p now epoch w tid r e = Some (e', dk, rk, d) /\
    can_transition_to (te_state e) (te_state e') = true /\
    (is_terminal (te_state e') = true <-> d = Terminal) /\ (d = Terminal \/ d = Requeued) /\
    (is_terminal (te_state e') = true -> te_result e' = Some r).
Proof.
  intros Hact. unfold decide_result. destruct (is_success r).
  { destruct (can_transition_to _ _) eqn:Hc; [|by destruct (te_state e)]. cbn [negb].
    eexists _, _, _, _. split_and!; try done. by left. }
  destruct (_ =? _)%Z; [|destruct (_ && _ && _ && _); [|destruct (rp_retry_on_execution_failure p && _)]].
  all: eexists _, _, _, _; split; [done|]; entry_cbn; split_and!; try done; try (by left); try (by right).
  all: by destruct (te_state e).
Qed.

Lemma acct_unassign w tid q : acct_inv q -> acct_inv (unassign w tid q).
Proof. by apply acct_same. Qed.

Lemma acct_record_result q now epoch w s r :
  core_inv q -> acct_inv q -> fits (record_result_from now epoch w s r q).2 ->
  acct_inv (record_result_from now epoch w s r q).2.
Proof.
  intros Hc Hi. unfold record_result_from. set (tid := res_task_id r).
  destruct (tasks q !! tid) as [e|] eqn:He; [|done].
  destruct (owned_by e w s) eqn:Ho; cbn [negb]; [|done].
  destruct (is_terminal (te_state e)) eqn:Hterm; [intros _; by apply acct_unassign|].
  pose proof (owned_nonterminal_active _ _ _ _ (core_inv_entry_wf q tid e Hc He) Ho Hterm) as Hact.
  destruct (decide_result_active (retry_policy q) now epoch w tid r e Hact)
    as (e' & dk & rk & d & -> & _). cbn [snd].
  destruct (is_terminal (te_state e')) eqn:Ht'.
  - intros _. apply (acct_put_track q _ tid e e'); try done; by destruct dk, rk.
  - apply (acct_put_update q _ tid e e'); try done; by destruct dk, rk.
Qed.

Lemma acct_fail_unsendable q w s r :
  core_inv q -> acct_inv q -> acct_inv (fail_unsendable_assignment w s r q).2.
Proof.
  intros Hc Hi. unfold fail_unsendable_assignment. set (tid := res_task_id r).
  destruct (tasks q !! tid) as [e|] eqn:He; [|done].
  destruct (owned_by e w s) eqn:Ho; cbn [negb]; [|done].
  destruct (is_terminal (te_state e)) eqn:Hterm; [by apply acct_unassign|].
  destruct (can_transition_to _ _); cbn [negb]; [|by apply acct_unassign].
  by eapply (acct_put_track q _ tid e (to_ended Failed _ _ (Some r) (res_error r) e)).
Qed.

Lemma acct_cancel q tid reason : acct_inv q -> acct_inv (cancel_task_detailed tid reason q).2.
Proof.
  intros Hi. unfold cancel_task_detailed. destruct (tasks q !! tid) as [e|] eqn:He; [|done].
  destruct (is_terminal (te_state e)) eqn:Hterm; [done|].
  destruct (te_state e) eqn:Hst; try done; cbn [snd].
  all: destruct (te_assigned_worker_id e), (te_retry_after_instant e);
    (eapply (acct_put_track q _ tid e (to_ended Cancelled _ _ _ _ e)); [exact Hi|exact He|by rewrite Hst|done|done|done]).
Qed.

(** ** Submission *)

Lemma active_count_insert q tid e : tasks q !! tid = None -> is_terminal (te_state e) = false ->
  map_sum (fun e => if is_terminal (te_state e) then 0 else 1) (<[tid := e]> (tasks q)) = 1 + active_count q.
Proof. intros Hn Hst. rewrite map_sum_insert by done. by rewrite Hst. Qed.

Lemma acct_accept_entry q tid e bytes :
  acct_inv q -> tasks q !! tid = None -> is_terminal (te_state e) = false -> bytes = retained_bytes e ->
  capacity_check q = Ok tt -> fits (accept_entry tid e bytes q) -> acct_inv (accept_entry tid e bytes q).
Proof.
  intros [Hb Hx Hl Hcap] Hn Hst -> Hcc Hfit. pose proof Hb as [bka bkt bkd bkn bko bkb].
  assert (Ha : active_sizes q !! tid = None) by (rewrite bka by set_solver; by rewrite Hn).
  assert (Hb' : book_inv ∅ (accept_entry tid e (retained_bytes e) q)).
  { unfold accept_entry. split; queue_cbn; try done.
    - intros t Hd. destruct (decide (t = tid)) as [->|].
      + rewrite !lookup_insert_eq. cbn. by rewrite Hst.
      + rewrite !lookup_insert_ne by done. auto.
    - intros t Hd. rewrite bkt by done. destruct (decide (t = tid)) as [->|].
      + rewrite lookup_insert_eq, Hn. cbn. by rewrite Hst.
      + by rewrite lookup_insert_ne. }
  split; [done| |done|].
  - pose proof (fits_active _ Hb' Hfit) as Hf. unfold accept_entry, active_exact in *. queue_cbn.
    cbn [accept_entry set_ready set_active put_entry set_tasks active_sizes] in Hf.
    rewrite map_sum_insert in Hf |- * by done. rewrite Hx.
    change (id (retained_bytes e)) with (retained_bytes e) in *. rewrite saturating_add_exact by lia. lia.
  - unfold capacity_ok, accept_entry, active_count. queue_cbn. rewrite active_count_insert by done.
    unfold capacity_check in Hcc. destruct (capacity q) as [cap|]; [|done].
    destruct (cap <=? active_count q) eqn:Hle; [done|]. apply N.leb_gt in Hle. lia.
Qed.

Lemma retained_new_entry t prio seq now epoch : retained_bytes (new_entry t prio seq now epoch) = task_active_bytes t.
Proof. unfold retained_bytes. entry_cbn. cbn [opt_len sum_by foldr]. lia. Qed.

Lemma capacity_check_bump q : capacity_check (set_next_sequence (N.add 1) q) = capacity_check q.
Proof. done. Qed.

Section uuid.
Context `{UuidApi}.

Lemma acct_submit q now epoch t prio : acct_inv q ->
  fits (submit_with_priority now epoch t prio q).2 -> acct_inv (submit_with_priority now epoch t prio q).2.
Proof.
  intros Hi. assert (Hi' : acct_inv (set_next_sequence (N.add 1) q)) by (by apply (acct_same q)).
  unfold submit_with_priority. destruct (task_validate t); [|done]. destruct (tasks q !! task_id t) eqn:Ht; [done|].
  destruct (capacity_check q) as [[]|] eqn:Hc; [|done]. destruct (bytes_check _ _); [|done].
  cbn [snd]. by apply acct_accept_entry.
Qed.

Lemma acct_try_submit_slot q_read q now epoch slot : acct_inv q ->
  fits (try_submit_slot now epoch slot q_read q).2 -> acct_inv (try_submit_slot now epoch slot q_read q).2.
Proof.
  intros Hi. assert (Hi' : acct_inv (set_next_sequence (N.add 1) q)) by (by apply (acct_same q)).
  unfold try_submit_slot. destruct slot as [t|]; [|done].
  destruct (task_validate t); [|done]. destruct (check_room _ _); [|done].
  destruct (tasks q !! task_id t) eqn:Ht; [done|].
  destruct (capacity_check q) as [[]|] eqn:Hc; cbn [result_bind]; [|done].
  destruct (bytes_check _ _); [|done]. cbn [snd].
  apply acct_accept_entry; try done. by rewrite retained_new_entry.
Qed.

(** ** Limits *)

Lemma evicts_acct l q q' :
  evicts l q q' -> book_inv ∅ q' -> within_limits q' -> acct_inv q -> acct_inv q'.
Proof.
  intros Hev Hb Hw [_ Hx _ Hcap]. split; [done| |done|].
  - unfold active_exact. destruct (ev_active _ _ _ Hev) as [-> ->]. done.
  - apply (no_revival_capacity q); [|apply (ev_rest _ _ _ Hev)|done].
    intros t e' He' Hst. rewrite (ev_tasks _ _ _ Hev) in He'. case_decide; [done|]. by exists e'.
Qed.

Lemma acct_set_max_terminal_tasks n q : acct_inv q -> acct_inv (set_max_terminal_tasks n q).
Proof.
  intros Hi. destruct (enforce_spec ∅ (set_limits n (max_terminal_bytes q) q)) as (l & Hev & Hb & Hw & _).
  { apply (book_inv_same ∅ (set_limits n (max_terminal_bytes q) q)); [done|]. by destruct (ai_book _ Hi). }
  unfold set_max_terminal_tasks. pose proof Hi as [? Hx ? Hcap]. split; [done| |done|].
  - unfold active_exact. by destruct (ev_active _ _ _ Hev) as [-> ->].
  - apply (no_revival_capacity q); [|apply (ev_rest _ _ _ Hev)|done].
    intros t e' He' Hst. rewrite (ev_tasks _ _ _ Hev) in He'. case_decide; [done|]. by exists e'.
Qed.

Lemma acct_set_max_terminal_bytes n q : acct_inv q -> acct_inv (set_max_terminal_bytes n q).
Proof.
  intros Hi. destruct (enforce_spec ∅ (set_limits (max_terminal_tasks q) n q)) as (l & Hev & Hb & Hw & _).
  { by destruct (ai_book _ Hi). }
  unfold set_max_terminal_bytes. pose proof Hi as [? Hx ? Hcap]. split; [done| |done|].
  - unfold active_exact. by destruct (ev_active _ _ _ Hev) as [-> ->].
  - apply (no_revival_capacity q); [|apply (ev_rest _ _ _ Hev)|done].
    intros t e' He' Hst. rewrite (ev_tasks _ _ _ Hev) in He'. case_decide; [done|]. by exists e'.
Qed.

(** The public eviction: how many go, and which. *)
Lemma evict_loop_spec m fuel n q :
  book_inv ∅ q -> (length (terminal_order q) <= fuel)%nat ->
  exists l, evicts l q (evict_terminal_loop m fuel n q).2 /\ book_inv ∅ (evict_terminal_loop m fuel n q).2 /\
    (evict_terminal_loop m fuel n q).1 = n + N.of_nat (length l) /\
    length l = (length (terminal_order q) - N.to_nat m)%nat.
Proof.
  revert n q. induction fuel as [|fuel IH]; intros n q Hb Hlen; cbn [evict_terminal_loop].
  { exists []. split_and!; [apply evicts_nil|done|cbn; lia|cbn; lia]. }
  destruct (m <? _) eqn:Hm; [apply N.ltb_lt in Hm|apply N.ltb_ge in Hm].
  2: { exists []. split_and!; [apply evicts_nil|done|cbn; lia|cbn; lia]. }
  destruct (terminal_order q) as [|o rest] eqn:Ho; [cbn in Hm; lia|].
  destruct (evict_oldest_spec ∅ q o rest Hb Ho) as (q' & -> & Hev & Hb').
  pose proof (ev_order _ _ _ Hev) as Ho'. rewrite Ho in Ho'. injection Ho' as Ho'.
  destruct (ev_finished _ _ _ Hev o) as (e & He & Hst); [set_solver|].
  cbn [head]. unfold holds_terminal. rewrite He, Hst.
  destruct (IH (n + 1) q' Hb') as (l & Hl & ? & Hn & Hll); [cbn in Hlen; rewrite <-Ho'; lia|].
  exists (o :: l). split_and!; [by apply (evicts_trans [o] l _ q')|done| |].
  - rewrite Hn. cbn [length]. lia.
  - cbn [length] in *. rewrite Hll, <-Ho'. lia.
Qed.

Lemma evict_terminal_spec m q :
  book_inv ∅ q ->
  exists l, evicts l q (evict_terminal_tasks m q).2 /\ book_inv ∅ (evict_terminal_tasks m q).2 /\
    (evict_terminal_tasks m q).1 = N.of_nat (length l) /\
    length l = (length (terminal_order q) - N.to_nat m)%nat.
Proof. intros Hb. by apply evict_loop_spec. Qed.

Lemma evicts_terminal_bytes l q q' : evicts l q q' -> book_inv ∅ q -> book_inv ∅ q' -> terminal_bytes q' <= terminal_bytes q.
Proof.
  intros Hev Hb Hb'. rewrite (bk_bytes _ _ Hb), (bk_bytes _ _ Hb'). apply map_sum_subseteq.
  apply map_subseteq_spec. intros t n. rewrite (bk_terminal _ _ Hb'), (bk_terminal _ _ Hb) by set_solver.
  rewrite (ev_tasks _ _ _ Hev). by case_decide.
Qed.

Lemma acct_evict_terminal m q : acct_inv q -> acct_inv (evict_terminal_tasks m q).2.
Proof.
  intros Hi. destruct (evict_terminal_spec m q (ai_book _ Hi)) as (l & Hev & Hb & _).
  eapply evicts_acct; [done|done| |done].
  pose proof (evicts_terminal_bytes _ _ _ Hev (ai_book _ Hi) Hb).
  destruct (ai_limits _ Hi) as [H1 H2]. destruct (ev_limits _ _ _ Hev) as [L1 L2].
  unfold within_limits. rewrite L1, L2. rewrite (ev_order _ _ _ Hev), length_app in H1, H2.
  split; [lia|]. destruct H2; [left|right]; lia.
Qed.

(** ** Failover *)

(** The entries a sweep of [w], session [s], moves. *)
Definition sweepable (w : Uuid) (s : option N) (o : option TaskEntry) : bool :=
  match o with
  | Some e => is_active (te_state e) && bool_decide (te_assigned_worker_id e = Some w) && session_matches s e
  | None => false
  end.

Lemma sweepable_Some w s o : sweepable w s o = true <->
  exists e, o = Some e /\ is_active (te_state e) = true /\ te_assigned_worker_id e = Some w /\ session_matches s e = true.
Proof.
  unfold sweepable. destruct o as [e|]; [|naive_solver].
  rewrite !andb_true_iff, bool_decide_eq_true. naive_solver.
Qed.

(** The table after the sweep loop, entry by entry. *)
Definition swept_entry p now epoch w reason imm (t : TaskId) (o : option TaskEntry) : option TaskEntry :=
  (fun e => (failover_entry p now epoch w reason imm t e).1) <$> o.

Record sweeps (now epoch : N) (w : Uuid) (s : option N) (reason : Str) (imm : bool) (ids : list TaskId)
    (q : TaskQueueInner) (affected : list TaskId) (ts : list SweepTarget) (q' : TaskQueueInner) : Prop := {
  sw_affected : affected = filter (fun t => sweepable w s (tasks q !! t) = true) ids;
  sw_tasks : forall t, tasks q' !! t =
    if decide (t ∈ affected) then swept_entry (retry_policy q) now epoch w reason imm t (tasks q !! t) else tasks q !! t;
  sw_targets : ts = omap (fun t => (fun e => (failover_entry (retry_policy q) now epoch w reason imm t e).2) <$> tasks q !! t) affected;
  sw_active : active_sizes q' = active_sizes q /\ active_bytes q' = active_bytes q;
  sw_terminal : terminal_order q' = terminal_order q /\ terminal_sizes q' = terminal_sizes q /\
    terminal_bytes q' = terminal_bytes q;
  sw_config : max_terminal_tasks q' = max_terminal_tasks q /\ max_terminal_bytes q' = max_terminal_bytes q /\
    capacity q' = capacity q /\ retry_policy q' = retry_policy q /\ max_active_bytes q' = max_active_bytes q
}.

Lemma omap_ext_in {A B} (f g : A -> option B) (l : list A) : (forall x, x ∈ l -> f x = g x) -> omap f l = omap g l.
Proof.
  induction l as [|x l IH]; intros Hfg; [done|]. cbn. rewrite Hfg by set_solver.
  rewrite IH; [done|]. intros y Hy. apply Hfg. set_solver.
Qed.

Lemma filter_ext_in {A} (P Q : A -> Prop) `{!forall x, Decision (P x), !forall x, Decision (Q x)} (l : list A) :
  (forall x, x ∈ l -> (P x <-> Q x)) -> filter P l = filter Q l.
Proof.
  induction l as [|x l IH]; intros Hpq; [done|]. rewrite !filter_cons, IH by (intros; apply Hpq; set_solver).
  destruct (Hpq x) as [Hx1 Hx2]; [set_solver|]. repeat case_decide; naive_solver.
Qed.

Lemma sweep_loop_spec now epoch w s reason imm ids q affected ts q' :
  NoDup ids -> sweep_loop now epoch w s reason imm ids q = (affected, ts, q') ->
  sweeps now epoch w s reason imm ids q affected ts q'.
Proof.
  revert q affected ts q'. induction ids as [|tid ids IH]; intros q affected ts q' Hnd; cbn [sweep_loop].
  { intros [= <- <- <-]. split; try done. }
  apply NoDup_cons in Hnd as [Hnin Hnd].
  destruct (sweep_one now epoch w s reason imm tid q) as [o q1] eqn:Hone.
  destruct (sweep_loop now epoch w s reason imm ids q1) as [[a1 t1] q2] eqn:Hloop.
  specialize (IH _ _ _ _ Hnd Hloop) as [IA IT ITS IAc ITe IC].
  assert (Hcase : (o = None /\ q1 = q /\ sweepable w s (tasks q !! tid) = false) \/
    exists e, tasks q !! tid = Some e /\ sweepable w s (tasks q !! tid) = true /\
      o = Some (failover_entry (retry_policy q) now epoch w reason imm tid e).2 /\
      q1 = put_entry tid (failover_entry (retry_policy q) now epoch w reason imm tid e).1 (unassign w tid q)).
  { unfold sweep_one in Hone. unfold sweepable. destruct (tasks q !! tid) as [e|] eqn:He; [|left; by simplify_eq].
    destruct (is_active (te_state e)), (bool_decide _), (session_matches s e); cbn in Hone |- *; simplify_eq; auto.
    right. exists e. destruct (failover_entry _ _ _ _ _ _ _ _). by simplify_eq. }
  destruct Hcase as [(-> & -> & Hs)|(e & He & Hs & -> & ->)]; intros [= <- <- <-].
  - split; try done. rewrite filter_cons. case_decide; [congruence|done].
  - cbn in IAc, ITe, IC.
    assert (Hsame : forall t, t <> tid -> tasks (put_entry tid (failover_entry (retry_policy q) now epoch w reason imm tid e).1 (unassign w tid q)) !! t = tasks q !! t).
    { intros t Hne. cbn. by rewrite lookup_insert_ne. }
    assert (Ha1 : a1 = filter (fun t => sweepable w s (tasks q !! t) = true) ids).
    { rewrite IA. apply filter_ext_in. intros t Ht. by rewrite Hsame by congruence. }
    assert (Hn1 : tid ∉ a1) by (rewrite Ha1, list_elem_of_filter; tauto).
    split; try done.
    + rewrite filter_cons. case_decide; [by rewrite Ha1|done].
    + intros t. rewrite IT. destruct (decide (t = tid)) as [->|Hne].
      * rewrite (decide_False (P := tid ∈ a1)) by done. rewrite decide_True by set_solver.
        cbn. by rewrite lookup_insert_eq, He.
      * rewrite Hsame by done. repeat case_decide; set_solver.
    + cbn [omap list_omap]. rewrite He. cbn. f_equal. rewrite ITS. apply omap_ext_in.
      intros t Ht. by rewrite Hsame by congruence.
Qed.

(** Updating the charges of a list of tasks whose table entries stay put. *)
Section fold_update.
Context {K} (kid : K -> TaskId) (g : K -> TaskQueueInner -> TaskQueueInner).
Context (Hg : forall k q, same_book q (g k q) /\ capacity (g k q) = capacity q).
Context (T : gmap TaskId TaskEntry) (A : gmap TaskId N).

Definition from_tables (q : TaskQueueInner) : Prop :=
  forall t n, active_sizes q !! t = Some n -> A !! t = Some n \/ active_size_of (T !! t) = Some n.

Lemma update_step k q :
  tasks q = T -> from_tables q ->
  let q' := update_active_task (kid k) (g k q) in
  tasks q' = T /\ from_tables q' /\ terminal_order q' = terminal_order q /\ terminal_bytes q' = terminal_bytes q /\
  max_terminal_tasks q' = max_terminal_tasks q /\ max_terminal_bytes q' = max_terminal_bytes q /\
  capacity q' = capacity q.
Proof.
  intros HT Hfrom. destruct (Hg k q) as [Hs Hcap]. cbn. set (q1 := g k q) in *.
  pose proof Hs as (Ht & Ha & _ & Ho & _ & Hby & Hm1 & Hm2).
  destruct (update_fields (kid k) q1) as (Ut & Uo & _ & Uby & Um1 & Um2).
  split_and!; [congruence| |congruence..|].
  - intros t n. rewrite update_sizes, Ht, HT, Ha. case_decide; [subst; by right|apply Hfrom].
  - rewrite <-Hcap. unfold update_active_task, untrack_active_task.
    destruct (active_sizes q1 !! kid k); queue_cbn; (destruct (tasks q1 !! kid k) as [e0|]; [|done]);
    by destruct (is_terminal (te_state e0)).
Qed.

Lemma fold_update ks D q :
  book_inv D q -> tasks q = T -> from_tables q ->
  (forall k, k ∈ ks -> exists e, T !! kid k = Some e /\ is_terminal (te_state e) = false) ->
  let q' := foldl (fun q k => update_active_task (kid k) (g k q)) q ks in
  book_inv (D ∖ list_to_set (kid <$> ks)) q' /\ tasks q' = T /\ from_tables q' /\
  terminal_order q' = terminal_order q /\ terminal_bytes q' = terminal_bytes q /\
  max_terminal_tasks q' = max_terminal_tasks q /\ max_terminal_bytes q' = max_terminal_bytes q /\
  capacity q' = capacity q.
Proof.
  revert D q. induction ks as [|k ks IH]; intros D q Hb HT Hfrom Hks; cbn [foldl].
  { split_and!; try done. by replace (D ∖ list_to_set (kid <$> [])) with D by set_solver. }
  destruct (Hks k) as (e & He & Hst); [left|]. destruct (Hg k q) as [Hs _].
  destruct (update_step k q HT Hfrom) as (Ut & Uf & Uo & Uby & Um1 & Um2 & Uc).
  assert (Hb1 : book_inv (D ∖ {[kid k]}) (update_active_task (kid k) (g k q))).
  { eapply update_book; [by eapply book_inv_same|by rewrite (proj1 Hs), HT|done]. }
  destruct (IH _ _ Hb1 Ut Uf) as (B1 & B3 & B4 & B5 & B6 & B7 & B8 & B9); [intros; apply Hks; by right|].
  split_and!; [|done|done|congruence..].
  replace (D ∖ list_to_set (kid <$> k :: ks)) with (D ∖ {[kid k]} ∖ list_to_set (kid <$> ks)) by set_solver. done.
Qed.

(** If no mixture of the two tables overflows, no total saturates. *)
Lemma fold_update_exact ks q :
  (forall m : gmap TaskId N,
     (forall t n, m !! t = Some n -> A !! t = Some n \/ active_size_of (T !! t) = Some n) -> map_sum id m <= usize_max) ->
  active_exact q -> tasks q = T -> from_tables q ->
  active_exact (foldl (fun q k => update_active_task (kid k) (g k q)) q ks).
Proof.
  intros Hbound. revert q. induction ks as [|k ks IH]; intros q Hx HT Hfrom; cbn [foldl]; [done|].
  destruct (update_step k q HT Hfrom) as (Ut & Uf & _). apply IH; [|done|done].
  apply update_exact; [eapply active_exact_same; [apply Hg|done]|]. by apply Hbound.
Qed.
End fold_update.

(** Tracking a list of finished tasks. *)
Record tracks_all (ks l : list TaskId) (q q' : TaskQueueInner) : Prop := {
  ta_order : terminal_order q ++ ks = l ++ terminal_order q';
  ta_tasks : forall t, tasks q' !! t = if decide (t ∈ l) then None else tasks q !! t;
  ta_finished : forall t, t ∈ l -> exists e, tasks q !! t = Some e /\ is_terminal (te_state e) = true;
  ta_exact : active_exact q -> active_exact q';
  ta_limits : max_terminal_tasks q' = max_terminal_tasks q /\ max_terminal_bytes q' = max_terminal_bytes q;
  ta_within : within_limits q -> within_limits q';
  ta_rest : ready_queue q' = ready_queue q /\ delayed_retries q' = delayed_retries q /\
    worker_assignments q' = worker_assignments q /\ next_sequence q' = next_sequence q /\
    retry_policy q' = retry_policy q /\ capacity q' = capacity q /\ max_active_bytes q' = max_active_bytes q
}.

Lemma fold_track ks D q :
  book_inv D q -> NoDup ks ->
  (forall t, t ∈ ks -> t ∈ D /\ exists e, tasks q !! t = Some e /\ is_terminal (te_state e) = true) ->
  let q' := foldl (fun q t => track_terminal_task t q) q ks in
  exists l, tracks_all ks l q q' /\ book_inv (D ∖ list_to_set ks) q'.
Proof.
  revert D q. induction ks as [|k ks IH]; intros D q Hb Hnd Hks; cbn [foldl].
  { exists []. split; [split; try done|].
    - by rewrite app_nil_r.
    - set_solver.
    - by replace (D ∖ list_to_set []) with D by set_solver. }
  apply NoDup_cons in Hnd as [Hnin Hnd]. destruct (Hks k) as (HD & e & He & Hst); [left|].
  destruct (track_spec D k e q Hb HD He Hst) as (l1 & [TO TT TF TA TX TL TW TK TR] & Hb1).
  set (q1 := track_terminal_task k q) in *.
  destruct (IH (D ∖ {[k]}) q1 Hb1 Hnd) as (l2 & [AO AT AF AX AL AW AR] & Hb2).
  { intros t Ht. destruct (Hks t) as (HtD & et & Het & Hstt); [by right|].
    assert (t <> k) by congruence. split; [set_solver|]. exists et. split; [|done].
    rewrite TT, decide_False; [done|]. intros Hl. assert (Hin : t ∈ terminal_order q ++ [k]) by (rewrite TO; set_solver).
    apply elem_of_app in Hin as [Hin|Hin]; [|set_solver].
    apply (bk_order _ _ Hb) in Hin. rewrite (bk_dirty _ _ Hb t HtD) in Hin. by destruct Hin. }
  exists (l1 ++ l2). split; [split|].
  - change (k :: ks) with ([k] ++ ks). by rewrite app_assoc, TO, <-!app_assoc, AO.
  - intros t. rewrite AT, TT. repeat case_decide; set_solver.
  - intros t [Ht|Ht]%elem_of_app; [by apply TF|]. destruct (AF t Ht) as (et & Het & ?). exists et.
    rewrite TT in Het. by case_decide.
  - auto.
  - destruct AL as [-> ->]. done.
  - auto.
  - destruct AR as (-> & -> & -> & -> & -> & -> & ->). done.
  - replace (D ∖ list_to_set (k :: ks)) with (D ∖ {[k]} ∖ list_to_set ks) by set_solver. done.
Qed.

(** Sizes taken from either of two tables sum to at most both sums. *)
Lemma map_sum_either (A : gmap TaskId N) (T : gmap TaskId TaskEntry) (f : TaskEntry -> N) (m : gmap TaskId N) :
  (forall t n, m !! t = Some n -> A !! t = Some n \/ exists e, T !! t = Some e /\ f e = n) ->
  map_sum id m <= map_sum id A + map_sum f T.
Proof.
  revert A T. induction m as [|k n m Hk IH] using map_ind; intros A T Hor; [rewrite map_sum_empty; lia|].
  rewrite map_sum_insert by done. change (id n) with n.
  destruct (Hor k n) as [HA|(e & HT & Hf)]; [by rewrite lookup_insert_eq|..].
  - rewrite (map_sum_delete id A k n HA). change (id n) with n. rewrite <-N.add_assoc. apply N.add_le_mono_l, IH.
    intros t n' Ht. assert (k <> t) by congruence. rewrite lookup_delete_ne by done. apply Hor. by rewrite lookup_insert_ne.
  - rewrite (map_sum_delete f T k e HT), Hf.
    assert (map_sum id m <= map_sum id A + map_sum f (delete k T)); [|lia]. apply IH.
    intros t n' Ht. assert (k <> t) by congruence. rewrite lookup_delete_ne by done. apply Hor. by rewrite lookup_insert_ne.
Qed.

Definition target_id (t : SweepTarget) : TaskId :=
  match t with ToDelayed k => dk_task_id k | ToReady k => qk_task_id k | ToTerminal t => t end.

(** The target names the entry's new state. *)
Definition target_state (t : SweepTarget) : TaskState :=
  match t with ToDelayed _ => Retrying | ToReady _ => Queued | ToTerminal _ => Failed end.

Lemma failover_entry_target p now epoch w reason imm tid e :
  let '(e', t) := failover_entry p now epoch w reason imm tid e in
  target_id t = tid /\ te_state e' = target_state t /\ te_sequence e' = te_sequence e /\ te_task e' = te_task e.
Proof.
  destruct (failover_entry p now epoch w reason imm tid e) as [e' t] eqn:Hf.
  apply failover_entry_cases in Hf as [(_ & _ & [[-> ->]|(ra & _ & _ & -> & ->)])|(_ & -> & r & m & ->)]; done.
Qed.

Lemma sw_target_ids now epoch w s reason imm ids q affected ts q' :
  sweeps now epoch w s reason imm ids q affected ts q' -> target_id <$> ts = affected.
Proof.
  intros [IA _ -> _ _ _].
  assert (Hs : forall t, t ∈ affected -> is_Some (tasks q !! t)).
  { intros t Ht. rewrite IA in Ht. apply list_elem_of_filter in Ht as [(e & -> & _)%sweepable_Some _]. eauto. }
  clear IA. induction affected as [|t l IH]; [done|]. cbn [omap list_omap].
  destruct (Hs t) as [e He]; [left|]. rewrite He. cbn.
  pose proof (failover_entry_target (retry_policy q) now epoch w reason imm t e) as Ht.
  destruct (failover_entry (retry_policy q) now epoch w reason imm t e) as [e' x]. destruct Ht as [Hid _].
  cbn. rewrite Hid. f_equal. apply IH.
  intros t' Ht'. apply Hs. by right.
Qed.

(** Every target describes the entry it stands for. *)
Lemma sw_target_entry now epoch w s reason imm ids q affected ts q' t :
  sweeps now epoch w s reason imm ids q affected ts q' -> t ∈ ts ->
  target_id t ∈ affected /\ exists e', tasks q' !! target_id t = Some e' /\ te_state e' = target_state t.
Proof.
  intros [IA IT -> _ _ _] Ht. apply list_elem_of_omap in Ht as (tid & Hin & Hf).
  destruct (tasks q !! tid) as [e|] eqn:He; [|done]. cbn in Hf. injection Hf as Hf.
  pose proof (failover_entry_target (retry_policy q) now epoch w reason imm tid e) as Hx.
  destruct (failover_entry (retry_policy q) now epoch w reason imm tid e) as [e' t'] eqn:Hfe. cbn in Hf. subst t'.
  destruct Hx as (-> & Hst & _). split; [done|]. exists e'. split; [|done].
  rewrite IT, decide_True by done. unfold swept_entry. rewrite He. cbn. by rewrite Hfe.
Qed.

Lemma elem_of_delays k ts : k ∈ delays_of ts <-> ToDelayed k ∈ ts.
Proof.
  unfold delays_of. rewrite list_elem_of_omap. split.
  - intros ([] & Hin & Hx); naive_solver.
  - intros Hin. by exists (ToDelayed k).
Qed.
Lemma elem_of_readies k ts : k ∈ readies_of ts <-> ToReady k ∈ ts.
Proof.
  unfold readies_of. rewrite list_elem_of_omap. split.
  - intros ([] & Hin & Hx); naive_solver.
  - intros Hin. by exists (ToReady k).
Qed.
Lemma elem_of_terminals k ts : k ∈ terminals_of ts <-> ToTerminal k ∈ ts.
Proof.
  unfold terminals_of. rewrite list_elem_of_omap. split.
  - intros ([] & Hin & Hx); naive_solver.
  - intros Hin. by exists (ToTerminal k).
Qed.
Lemma terminals_sublist ts : terminals_of ts `sublist_of` (target_id <$> ts).
Proof. induction ts as [|[] ts IH]; cbn; [constructor|by constructor..]. Qed.

(** A sweep, summarised: the affected tasks, their new entries, and what the
    retention of the failed ones pushed out. *)
Record disconnects (now epoch : N) (w : Uuid) (s : option N) (reason : Str) (imm : bool)
    (q : TaskQueueInner) (affected : list TaskId) (evicted : list TaskId) (q' : TaskQueueInner) : Prop := {
  dc_affected : forall t, t ∈ affected <-> sweepable w s (tasks q !! t) = true;
  dc_nodup : NoDup affected;
  dc_tasks : forall t, tasks q' !! t =
    if decide (t ∈ evicted) then None
    else if decide (t ∈ affected) then swept_entry (retry_policy q) now epoch w reason imm t (tasks q !! t)
    else tasks q !! t;
  dc_evicted : forall t, t ∈ evicted -> t ∈ terminal_order q \/
    (t ∈ affected /\ te_state <$> swept_entry (retry_policy q) now epoch w reason imm t (tasks q !! t) = Some Failed)
}.

Lemma sweep_candidates_sweepable w s q t : sweepable w s (tasks q !! t) = true -> t ∈ sweep_candidates w q.
Proof.
  intros (e & He & Hact & Hw & _)%sweepable_Some. unfold sweep_candidates. apply elem_of_union. right.
  apply elem_of_dom. exists e. by apply map_lookup_filter_Some.
Qed.

Lemma sweep_book now epoch w s reason imm ids q affected ts q1 :
  sweeps now epoch w s reason imm ids q affected ts q1 -> book_inv ∅ q ->
  book_inv (list_to_set affected) q1.
Proof.
  intros [IA IT _ [IAs _] [ITo [ITs ITb]] _] [bka bkt bkd bkn bko bkb].
  split; rewrite ?IAs, ?ITo, ?ITs, ?ITb; try done.
  - intros t Hd. rewrite bka, IT by set_solver. rewrite decide_False; [done|set_solver].
  - intros t Hd. rewrite bkt, IT by set_solver. rewrite decide_False; [done|set_solver].
  - intros t Hd%elem_of_list_to_set. rewrite IA in Hd.
    apply list_elem_of_filter in Hd as [(e & He & Hact & _)%sweepable_Some _].
    rewrite bkt by set_solver. rewrite He. cbn. by rewrite nonterminal_active.
Qed.

Lemma drop_empty_book w q : same_book q (drop_empty_assignment w q) /\ capacity (drop_empty_assignment w q) = capacity q.
Proof. unfold drop_empty_assignment. destruct (_ !! w); [|done]. by case_bool_decide. Qed.

(** The three insertion loops of the sweep, on the state the first loop left. *)
Definition sweep_settle (ts : list SweepTarget) (q : TaskQueueInner) : TaskQueueInner :=
  foldl (fun q k => insert_ready k q) (foldl (fun q k => insert_delayed k q) q (delays_of ts)) (readies_of ts).

Lemma insert_delayed_book (k : DelayedRetryKey) q :
  same_book q (set_delayed (bt_insert k) q) /\ capacity (set_delayed (bt_insert k) q) = capacity q.
Proof. done. Qed.
Lemma insert_ready_book (k : QueueOrderKey) q :
  same_book q (set_ready (bt_insert k) q) /\ capacity (set_ready (bt_insert k) q) = capacity q.
Proof. done. Qed.

(** What is left after the first two loops are the failed tasks. *)
Lemma targets_split (T : gmap TaskId TaskEntry) ts :
  (forall t, t ∈ ts -> exists e', T !! target_id t = Some e' /\ te_state e' = target_state t) ->
  list_to_set (target_id <$> ts) ∖ list_to_set (dk_task_id <$> delays_of ts) ∖ list_to_set (qk_task_id <$> readies_of ts)
  =@{gset TaskId} list_to_set (terminals_of ts).
Proof.
  intros Htgt. apply set_eq. intros t. rewrite !elem_of_difference, !elem_of_list_to_set, !list_elem_of_fmap.
  split.
  - intros [[([k|k|k] & -> & Hin) Hd] Hr].
    + destruct Hd. exists k. by rewrite elem_of_delays.
    + destruct Hr. exists k. by rewrite elem_of_readies.
    + by apply elem_of_terminals.
  - intros Hin%elem_of_terminals. destruct (Htgt _ Hin) as (e & He & Hst). cbn in He, Hst.
    split_and!; [by exists (ToTerminal t)|..].
    + intros (k & -> & Hk%elem_of_delays). destruct (Htgt _ Hk) as (e' & He' & Hst'). cbn in He', Hst'. congruence.
    + intros (k & -> & Hk%elem_of_readies). destruct (Htgt _ Hk) as (e' & He' & Hst'). cbn in He', Hst'. congruence.
Qed.

Lemma sweep_settle_book A T ts affected q :
  book_inv (list_to_set affected) q -> tasks q = T -> from_tables T A q -> target_id <$> ts = affected ->
  (forall t, t ∈ ts -> exists e', T !! target_id t = Some e' /\ te_state e' = target_state t) ->
  let q' := sweep_settle ts q in
  book_inv (list_to_set (terminals_of ts)) q' /\ tasks q' = T /\
  terminal_order q' = terminal_order q /\ terminal_bytes q' = terminal_bytes q /\
  max_terminal_tasks q' = max_terminal_tasks q /\ max_terminal_bytes q' = max_terminal_bytes q /\
  capacity q' = capacity q.
Proof.
  intros Hb HT Hfrom Hids Htgt. unfold sweep_settle.
  destruct (fold_update dk_task_id (fun k => set_delayed (bt_insert k)) insert_delayed_book T A
              (delays_of ts) _ q Hb HT Hfrom) as (B1 & T1 & F1 & O1 & Y1 & M1 & N1 & C1).
  { intros k Hk%elem_of_delays. destruct (Htgt _ Hk) as (e' & ? & Hst). exists e'. by rewrite Hst. }
  set (q1 := foldl _ q (delays_of ts)) in *.
  change (foldl (fun q k => insert_delayed k q) q (delays_of ts)) with q1.
  destruct (fold_update qk_task_id (fun k => set_ready (bt_insert k)) insert_ready_book T A
              (readies_of ts) _ q1 B1 T1 F1) as (B2 & T2 & F2 & O2 & Y2 & M2 & N2 & C2).
  { intros k Hk%elem_of_readies. destruct (Htgt _ Hk) as (e' & ? & Hst). exists e'. by rewrite Hst. }
  set (q2 := foldl _ q1 (readies_of ts)) in *.
  change (foldl (fun q k => insert_ready k q) q1 (readies_of ts)) with q2.
  split_and!; [|done|congruence..]. rewrite <-(targets_split T ts Htgt), Hids. exact B2.
Qed.

Lemma sweep_settle_exact A T ts q :
  (forall m : gmap TaskId N,
     (forall t n, m !! t = Some n -> A !! t = Some n \/ active_size_of (T !! t) = Some n) -> map_sum id m <= usize_max) ->
  active_exact q -> tasks q = T -> from_tables T A q -> active_exact (sweep_settle ts q).
Proof.
  intros Hbound Hx HT Hfrom. unfold sweep_settle.
  assert (H1 : forall ks q, tasks q = T -> from_tables T A q ->
    tasks (foldl (fun q k => insert_delayed k q) q ks) = T /\ from_tables T A (foldl (fun q k => insert_delayed k q) q ks)).
  { intros ks. induction ks as [|k ks IH]; intros q0 H0 F0; cbn [foldl]; [done|].
    destruct (update_step dk_task_id (fun k => set_delayed (bt_insert k)) insert_delayed_book T A k q0 H0 F0) as (? & ? & _).
    by apply IH. }
  destruct (H1 (delays_of ts) q HT Hfrom) as [T1 F1].
  apply (fold_update_exact qk_task_id (fun k => set_ready (bt_insert k)) insert_ready_book T A); [done| |done|done].
  by apply (fold_update_exact dk_task_id (fun k => set_delayed (bt_insert k)) insert_delayed_book T A).
Qed.

(** The phases of a sweep, each with its specification. *)
Record phases (now epoch : N) (w : Uuid) (s : option N) (reason : Str) (imm : bool) (ids : list TaskId)
    (q : TaskQueueInner) (affected : list TaskId) (ts : list SweepTarget) (q1 q3 : TaskQueueInner)
    (l : list TaskId) (q' : TaskQueueInner) : Prop := {
  ph_nodup : NoDup ids;
  ph_sweep : sweeps now epoch w s reason imm ids q affected ts q1;
  ph_settled : q3 = sweep_settle ts (drop_empty_assignment w q1);
  ph_tasks : tasks q3 = tasks q1;
  ph_order : terminal_order q3 = terminal_order q;
  ph_within : within_limits q -> within_limits q3;
  ph_capacity : capacity q3 = capacity q;
  ph_track : tracks_all (terminals_of ts) l q3 q';
  ph_book : book_inv ∅ q'
}.

Lemma disconnect_phases iter now epoch w s reason imm q :
  (forall X : gset TaskId, iter X ≡ₚ elements X) -> book_inv ∅ q ->
  let '(affected, q') := handle_session_disconnected iter now epoch w s reason imm q in
  exists ts q1 q3 l, phases now epoch w s reason imm (iter (sweep_candidates w q)) q affected ts q1 q3 l q'.
Proof.
  intros Hiter Hb. unfold handle_session_disconnected. set (ids := iter (sweep_candidates w q)).
  assert (Hnd : NoDup ids) by (subst ids; rewrite Hiter; apply NoDup_elements).
  destruct (sweep_loop now epoch w s reason imm ids q) as [[affected ts] q1] eqn:Hloop.
  pose proof (sweep_loop_spec _ _ _ _ _ _ _ _ _ _ _ Hnd Hloop) as Hsw.
  pose proof (sw_target_ids _ _ _ _ _ _ _ _ _ _ _ Hsw) as Hids.
  assert (Htgt : forall t, t ∈ ts -> exists e', tasks q1 !! target_id t = Some e' /\ te_state e' = target_state t).
  { intros t Ht. by apply (sw_target_entry _ _ _ _ _ _ _ _ _ _ _ t Hsw). }
  pose proof (sweep_book _ _ _ _ _ _ _ _ _ _ _ Hsw Hb) as Hb1.
  destruct (drop_empty_book w q1) as [Hs2 Hc2]. set (q2 := drop_empty_assignment w q1) in *.
  pose proof Hs2 as (Dt & Da & Dab & Do & Ds & Db & Dm1 & Dm2).
  destruct (sweep_settle_book (active_sizes q2) (tasks q1) ts affected q2) as (B3 & T3 & O3 & Y3 & M3 & N3 & C3);
    [by eapply book_inv_same|done|by left|done|done|].
  fold (sweep_settle ts q2). set (q3 := sweep_settle ts q2) in *.
  assert (HndT : NoDup (terminals_of ts)).
  { eapply sublist_NoDup; [|apply terminals_sublist]. rewrite Hids, (sw_affected _ _ _ _ _ _ _ _ _ _ _ Hsw). by apply NoDup_filter. }
  destruct (fold_track (terminals_of ts) (list_to_set (terminals_of ts)) q3) as (l & Hta & B4); [done|done| |].
  { intros t Ht. split; [by apply elem_of_list_to_set|]. apply elem_of_terminals in Ht.
    destruct (Htgt _ Ht) as (e & He & Hst). exists e. rewrite T3. cbn in He, Hst. by rewrite Hst. }
  exists ts, q1, q3, l. destruct (sw_terminal _ _ _ _ _ _ _ _ _ _ _ Hsw) as (ITo & _ & ITb).
  destruct (sw_config _ _ _ _ _ _ _ _ _ _ _ Hsw) as (IC1 & IC2 & IC3 & _).
  split; try done; [congruence| |congruence|].
  - unfold within_limits. by rewrite O3, Y3, M3, N3, Do, Db, Dm1, Dm2, ITo, ITb, IC1, IC2.
  - by replace (list_to_set (terminals_of ts) ∖ list_to_set (terminals_of ts)) with (∅ : gset TaskId) in B4 by set_solver.
Qed.

(** Entries that are still running or waiting survive into the final table. *)
Lemma phases_active now epoch w s reason imm ids q affected ts q1 q3 l q' t e :
  phases now epoch w s reason imm ids q affected ts q1 q3 l q' ->
  tasks q1 !! t = Some e -> is_terminal (te_state e) = false -> tasks q' !! t = Some e.
Proof.
  intros Hp He Hst. pose proof (ph_track _ _ _ _ _ _ _ _ _ _ _ _ _ _ Hp) as Hta.
  rewrite (ta_tasks _ _ _ _ Hta), (ph_tasks _ _ _ _ _ _ _ _ _ _ _ _ _ _ Hp). rewrite decide_False; [done|].
  intros Hl. destruct (ta_finished _ _ _ _ Hta t Hl) as (e' & He' & Hst').
  rewrite (ph_tasks _ _ _ _ _ _ _ _ _ _ _ _ _ _ Hp) in He'. congruence.
Qed.

Lemma phases_acct now epoch w s reason imm ids q affected ts q1 q3 l q' :
  phases now epoch w s reason imm ids q affected ts q1 q3 l q' ->
  acct_inv q -> fits q -> fits q' -> acct_inv q'.
Proof.
  intros Hp [Hb Hx Hl Hcap] Hfit Hfit'. pose proof (fun t e => phases_active _ _ _ _ _ _ _ _ _ _ _ _ _ _ t e Hp) as Hact.
  destruct Hp as [_ [IA IT _ [IAs IAb] _ (_ & _ & IC3 & _)] -> T3 O3 W3 C3 [AO AT AF AX AL AW AR] B4].
  destruct (drop_empty_book w q1) as [(Dt & Da & Dab & _) _].
  split; [done| |by auto|].
  - apply AX. apply (sweep_settle_exact (active_sizes q) (tasks q1)); [| |done|].
    + intros m Hm. pose proof (fits_active q Hb Hfit). unfold fits in Hfit'.
      assert (map_sum id m <= map_sum id (active_sizes q) + map_sum retained_bytes (tasks q')); [|lia].
      apply map_sum_either. intros t n Hn. destruct (Hm t n Hn) as [HA|HT]; [by left|right].
      destruct (tasks q1 !! t) as [e|] eqn:He; [|done]. cbn in HT.
      destruct (is_terminal (te_state e)) eqn:Hst; [done|]. exists e. split; [by apply Hact|congruence].
    + unfold active_exact. by rewrite Dab, Da, IAs, IAb.
    + intros t n Hn. left. by rewrite <-IAs, <-Da.
  - apply (no_revival_capacity q); [| |done].
    + intros t e' He' Hst. rewrite AT, T3 in He'. case_decide; [done|]. rewrite IT in He'.
      case_decide as Ht; [|by exists e']. rewrite IA in Ht.
      apply list_elem_of_filter in Ht as [(e & He & Ha & _)%sweepable_Some _].
      exists e. split; [done|by apply nonterminal_active].
    + destruct AR as (_ & _ & _ & _ & _ & -> & _). exact C3.
Qed.

Lemma phases_disconnects now epoch w s reason imm iter q affected ts q1 q3 l q' :
  (forall X : gset TaskId, iter X ≡ₚ elements X) ->
  phases now epoch w s reason imm (iter (sweep_candidates w q)) q affected ts q1 q3 l q' ->
  disconnects now epoch w s reason imm q affected l q'.
Proof.
  intros Hiter Hp. pose proof (fun t => sw_target_entry _ _ _ _ _ _ _ _ _ _ _ t (ph_sweep _ _ _ _ _ _ _ _ _ _ _ _ _ _ Hp)) as Htgt.
  destruct Hp as [Hnd [IA IT _ _ _ _] _ T3 O3 _ _ [AO AT AF _ _ _ _] _]. split.
  - intros t. rewrite IA, list_elem_of_filter. split; [by intros []|]. intros Hs. split; [done|].
    rewrite Hiter. apply elem_of_elements. by eapply sweep_candidates_sweepable.
  - rewrite IA. by apply NoDup_filter.
  - intros t. by rewrite AT, T3, IT.
  - intros t Ht. assert (Hin : t ∈ terminal_order q3 ++ terminals_of ts) by (rewrite AO; set_solver).
    apply elem_of_app in Hin as [Hin|Hin]; [left; by rewrite <-O3|right].
    apply elem_of_terminals in Hin. destruct (Htgt _ Hin) as (Ha & e & He & Hst). cbn in Ha, He, Hst.
    split; [done|]. rewrite IT, decide_True in He by done. rewrite He. cbn. by rewrite Hst.
Qed.
End uuid.
