(* ===== verification/QueueSteps.v ===== *)
(** * QueueSteps: runs of the task queue

    The operations of [QueueOps] as one type of steps, the states reachable from
    an empty queue, the invariant of all of them, and what a step may do to an
    entry. *)

From S2P Require Import Prelude Collections RustStr Float Capabilities Placement Blob Task Queue QueueOps QueueInv QueueCore QueueBook QueueAcct.
Local Open Scope N_scope.

Inductive QueueOp :=
| OpSubmit (now epoch : N) (t : Task) (priority : N)
| OpTrySubmit (now epoch : N) (slot : option Task) (q_read : TaskQueueInner)
| OpPop (now : N) (w : Uuid) (pred : TaskRequirements -> bool)
| OpSchedule (now : N) (tid : TaskId) (w : Uuid)
| OpScheduleBatch (now : N) (assignments : list (TaskId * Uuid * option N))
| OpRequeue (tid : TaskId)
| OpDispatchFailed (tid : TaskId) (w : Uuid) (session : N)
| OpRunning (now : N) (w : Uuid) (session : option N) (tid : TaskId)
| OpCheckpoint (tid : TaskId) (cp : CheckpointData)
| OpCheckpointFrom (w : Uuid) (session : option N) (tid : TaskId) (cp : CheckpointData)
| OpResult (now epoch : N) (w : Uuid) (session : option N) (r : TaskResult)
| OpUnsendable (w : Uuid) (session : option N) (r : TaskResult)
| OpDisconnect (iter : gset TaskId -> list TaskId) (now epoch : N) (w : Uuid) (session : option N)
    (reason : Str) (immediate : bool)
| OpBackoff (now : N)
| OpCancel (tid : TaskId) (reason : option Str)
| OpMaxTerminalTasks (limit : N)
| OpMaxTerminalBytes (limit : N)
| OpEvict (max_retained : N).

Section uuid.
Context `{UuidApi}.

Definition run (op : QueueOp) (q : TaskQueueInner) : TaskQueueInner :=
  match op with
  | OpSubmit now epoch t prio => (submit_with_priority now epoch t prio q).2
  | OpTrySubmit now epoch slot q_read => (try_submit_slot now epoch slot q_read q).2
  | OpPop now w pred => (pop_and_schedule now w pred q).2
  | OpSchedule now tid w => (schedule_task now tid w q).2
  | OpScheduleBatch now l => (schedule_batch_inner now l q).2
  | OpRequeue tid => (requeue_task tid q).2
  | OpDispatchFailed tid w s => (requeue_dispatch_failure tid w s q).2
  | OpRunning now w s tid => (mark_running_from now w s tid q).2
  | OpCheckpoint tid cp => (record_checkpoint tid cp q).2
  | OpCheckpointFrom w s tid cp => (record_checkpoint_from w s tid cp q).2
  | OpResult now epoch w s r => (record_result_from now epoch w s r q).2
  | OpUnsendable w s r => (fail_unsendable_assignment w s r q).2
  | OpDisconnect iter now epoch w s reason imm => (handle_session_disconnected iter now epoch w s reason imm q).2
  | OpBackoff now => (process_delayed_retries now q).2
  | OpCancel tid reason => (cancel_task_detailed tid reason q).2
  | OpMaxTerminalTasks n => set_max_terminal_tasks n q
  | OpMaxTerminalBytes n => set_max_terminal_bytes n q
  | OpEvict n => (evict_terminal_tasks n q).2
  end.

(** A hash set is iterated in some order. *)
Definition op_ok (op : QueueOp) : Prop :=
  match op with OpDisconnect iter _ _ _ _ _ _ => forall X, iter X ≡ₚ elements X | _ => True end.

Inductive reachable : TaskQueueInner -> Prop :=
| reach_init policy cap mtt mtb mab : reachable (with_retention_limits policy cap mtt mtb mab)
| reach_step q op : reachable q -> op_ok op -> fits (run op q) -> reachable (run op q).

Record queue_inv (q : TaskQueueInner) : Prop := { qi_core : core_inv q; qi_acct : acct_inv q; qi_fits : fits q }.

Lemma init_inv policy cap mtt mtb mab : queue_inv (with_retention_limits policy cap mtt mtb mab).
Proof.
  split; [split|split|].
  - split; constructor.
  - intros tid. unfold slot_ok. cbn. rewrite lookup_empty. split; [set_solver|].
    intros w (s & Hs & _). by rewrite lookup_empty in Hs.
  - intros t1 t2 e1 e2 H1. cbn in H1. by rewrite lookup_empty in H1.
  - split; cbn; try done; try constructor.
    + set_solver.
    + intros [? Hs]. by rewrite lookup_empty in Hs.
  - done.
  - split; cbn; [lia|left; lia].
  - unfold capacity_ok, active_count. cbn. destruct cap; [|done]. rewrite map_sum_empty. lia.
  - unfold fits. cbn. rewrite map_sum_empty. unfold usize_max. lia.
Qed.

Lemma run_core op q : core_inv q -> core_inv (run op q).
Proof.
  intros Hi. destruct op; cbn [run].
  - by apply core_submit.
  - by apply core_try_submit_slot.
  - by apply core_pop_and_schedule.
  - by apply core_schedule_task.
  - by apply core_schedule_batch.
  - by apply core_requeue_task.
  - by apply core_requeue_dispatch.
  - by apply core_mark_running.
  - unfold record_checkpoint. destruct (tasks q !! tid) as [e|] eqn:He; [|done]. destruct (is_terminal _); [done|].
    pose proof (core_store_checkpoint q tid e cp Hi He). by destruct (store_checkpoint _ _ _ _).
  - unfold record_checkpoint_from. destruct (tasks q !! tid) as [e|] eqn:He; [|done].
    destruct (_ || _); [done|]. by apply core_store_checkpoint.
  - by apply core_record_result.
  - by apply core_fail_unsendable.
  - by apply core_session_disconnected.
  - by apply core_process_delayed.
  - by apply core_cancel.
  - by apply core_enforce, core_set_limits.
  - by apply core_enforce, core_set_limits.
  - by apply core_evict_terminal_loop.
Qed.

Lemma run_acct op q : queue_inv q -> op_ok op -> fits (run op q) -> acct_inv (run op q).
Proof.
  intros [Hc Hi Hf] Hok. destruct op; cbn [run]; intros Hfit.
  - by apply acct_submit.
  - by apply acct_try_submit_slot.
  - by apply acct_pop_and_schedule.
  - by apply acct_schedule_task.
  - by apply acct_schedule_batch.
  - by apply acct_requeue_task.
  - by apply acct_requeue_dispatch.
  - by apply acct_mark_running.
  - by apply acct_record_checkpoint.
  - by apply acct_record_checkpoint_from.
  - by apply acct_record_result.
  - by apply acct_fail_unsendable.
  - pose proof (disconnect_phases iter now epoch w session reason immediate q Hok (ai_book _ Hi)) as Hp.
    destruct (handle_session_disconnected _ _ _ _ _ _ _ q) as [affected q'].
    destruct Hp as (ts & q1 & q3 & l & Hp). by eapply phases_acct.
  - by apply acct_process_delayed.
  - by apply acct_cancel.
  - by apply acct_set_max_terminal_tasks.
  - by apply acct_set_max_terminal_bytes.
  - by apply acct_evict_terminal.
Qed.

Lemma reachable_queue_inv q : reachable q -> queue_inv q.
Proof.
  induction 1 as [|q op Hr IH Hok Hf]; [apply init_inv|].
  split; [apply run_core, IH|by apply run_acct|done].
Qed.

(** ** What a step may do to an entry *)

(** The same job: only its checkpoint may differ. *)
Definition same_job (e e' : TaskEntry) : Prop :=
  (te_task e' = te_task e \/ exists cp, te_task e' = update_checkpoint cp (te_task e)) /\
  te_priority e' = te_priority e /\ te_sequence e' = te_sequence e /\
  te_submitted_at_utc e' = te_submitted_at_utc e /\ te_submitted_instant e' = te_submitted_instant e.

Record good_move (e e' : TaskEntry) : Prop := {
  gm_edge : te_state e' = te_state e \/ can_transition_to (te_state e) (te_state e') = true;
  gm_final : is_terminal (te_state e) = true -> e' = e;
  gm_job : same_job e e'
}.

(** An entry may appear (queued), move along an edge, or be evicted. *)
Definition entry_move (keep : bool) (o o' : option TaskEntry) : Prop :=
  match o, o' with
  | None, None => True
  | None, Some e' => te_state e' = Queued /\ te_retry_count e' = 0
  | Some e, Some e' => good_move e e'
  | Some e, None => is_terminal (te_state e) = true \/ keep = false \/ is_active (te_state e) = true
  end.

Definition moves (q q' : TaskQueueInner) : Prop :=
  forall t, entry_move (1 <=? max_terminal_tasks q) (tasks q !! t) (tasks q' !! t).

Lemma same_job_refl e : same_job e e.
Proof. repeat split; by left. Qed.

Lemma good_move_refl e : good_move e e.
Proof. split; [by left|done|apply same_job_refl]. Qed.

Lemma entry_move_refl k o : entry_move k o o.
Proof. destruct o; cbn; [apply good_move_refl|done]. Qed.

Lemma moves_same q q' : tasks q' = tasks q -> moves q q'.
Proof. intros Ht t. rewrite Ht. apply entry_move_refl. Qed.

(** A move along an edge, from a state that is not final. *)
Lemma good_edge e e' : can_transition_to (te_state e) (te_state e') = true -> same_job e e' -> good_move e e'.
Proof. intros He Hj. split; [by right| |done]. intros Ht. by destruct (te_state e). Qed.

Lemma moves_put q q' tid e e' :
  tasks q !! tid = Some e -> tasks q' = <[tid := e']> (tasks q) -> good_move e e' -> moves q q'.
Proof.
  intros He Ht Hg t. rewrite Ht. destruct (decide (t = tid)) as [->|].
  - rewrite lookup_insert_eq, He. exact Hg.
  - rewrite lookup_insert_ne by done. apply entry_move_refl.
Qed.

(** The same with an eviction behind it. *)
Lemma moves_put_track q q1 q' tid l e e' :
  tasks q !! tid = Some e -> tasks q1 = <[tid := e']> (tasks q) -> max_terminal_tasks q1 = max_terminal_tasks q ->
  good_move e e' -> tracks tid l q1 q' -> moves q q'.
Proof.
  intros He Ht Hm Hg [_ TT TF _ _ _ _ TK _] t. rewrite TT, Ht. destruct (decide (t = tid)) as [->|Hne].
  - rewrite lookup_insert_eq, He. case_decide as Hl; [|exact Hg].
    cbn. right; left. apply N.leb_gt. destruct (decide (1 <= max_terminal_tasks q)); [|lia].
    destruct TK; [by rewrite Hm|done].
  - rewrite lookup_insert_ne by done. case_decide as Hl; [|apply entry_move_refl].
    destruct (TF t Hl) as (e2 & He2 & Hst). rewrite Ht, lookup_insert_ne in He2 by done. rewrite He2. by left.
Qed.

Lemma moves_evicts l q q' : evicts l q q' -> moves q q'.
Proof.
  intros [_ ET EF _ _ _] t. rewrite ET. case_decide as Hl; [|apply entry_move_refl].
  destruct (EF t Hl) as (e & -> & Hst). by left.
Qed.

(** ** Every step is a move *)

Ltac same_job_tac := repeat split; by left.

Lemma moves_take_ready q now tid e w s :
  tasks q !! tid = Some e -> te_state e = Queued -> moves q (take_ready now (entry_key e tid) e w s q).
Proof.
  intros He Hst. eapply moves_put; [exact He|reflexivity|].
  apply good_edge; [entry_cbn; by rewrite Hst|same_job_tac].
Qed.

(** The table after a batch: an entry is untouched or went from queued to
    scheduled on the worker and session of one of the requests. *)
Lemma schedule_batch_lookup now l q t :
  tasks (schedule_batch_inner now l q).2 !! t = tasks q !! t \/
  exists e w s, tasks q !! t = Some e /\ te_state e = Queued /\ (t, w, s) ∈ l /\
    tasks (schedule_batch_inner now l q).2 !! t = Some (to_scheduled now w s e).
Proof.
  revert q. induction l as [|[[tid w] s] l IH]; intros q; cbn [schedule_batch_inner]; [by left|].
  assert (Hone : tasks (schedule_one now (tid, w, s) q).2 !! t = tasks q !! t \/
    exists e, t = tid /\ tasks q !! t = Some e /\ te_state e = Queued /\
      tasks (schedule_one now (tid, w, s) q).2 !! t = Some (to_scheduled now w s e)).
  { unfold schedule_one. destruct (tasks q !! tid) as [e|] eqn:He; [|by left].
    case_bool_decide as Hst; [|by left]. cbn. destruct (decide (t = tid)) as [->|].
    - right. exists e. rewrite lookup_insert_eq. done.
    - left. by rewrite lookup_insert_ne. }
  destruct (schedule_one now (tid, w, s) q) as [o q1]. cbn [snd] in Hone.
  specialize (IH q1). destruct (schedule_batch_inner now l q1) as [sch q2]. cbn [snd] in *.
  destruct Hone as [H1|(e & -> & He & Hst & H1)].
  - rewrite H1 in IH. destruct IH as [IH|(e & w' & s' & ? & ? & ? & ?)]; [by left|right].
    exists e, w', s'. split_and!; [done..|by right|done].
  - rewrite H1 in IH. right. exists e, w, s. split_and!; [done..|by left|].
    destruct IH as [->|(e' & w' & s' & [= <-] & Hs & _)]; done.
Qed.

Lemma moves_store_checkpoint q tid e cp :
  tasks q !! tid = Some e -> is_terminal (te_state e) = false -> moves q (store_checkpoint tid e cp q).2.
Proof.
  intros He Hst. unfold store_checkpoint, apply_checkpoint.
  destruct (checkpoint_exceeds_active_cap _ _ _ _); [by apply moves_same|].
  destruct (is_newer_checkpoint e cp); [|by apply moves_same]. cbn [snd].
  eapply moves_put; [exact He| |].
  - destruct (update_active_same tid (put_entry tid (set_task (update_checkpoint cp (te_task e)) e) q)) as [-> _]. reflexivity.
  - split; [by left|by rewrite Hst|]. repeat split. right. by exists cp.
Qed.

Lemma decide_result_job p now epoch w tid r e e' dk rk d :
  decide_result p now epoch w tid r e = Some (e', dk, rk, d) -> same_job e e'.
Proof.
  unfold decide_result. destruct (is_success r); [destruct (negb _); [done|]|].
  2: destruct (_ =? _)%Z; [|destruct (_ && _ && _ && _); [|destruct (rp_retry_on_execution_failure p && _)]].
  all: intros [= <- <- <- <-]; same_job_tac.
Qed.

Lemma moves_record_result q now epoch w s r :
  queue_inv q -> moves q (record_result_from now epoch w s r q).2.
Proof.
  intros [Hc Ha _]. unfold record_result_from. set (tid := res_task_id r).
  destruct (tasks q !! tid) as [e|] eqn:He; [|by apply moves_same].
  destruct (owned_by e w s) eqn:Ho; cbn [negb]; [|by apply moves_same].
  destruct (is_terminal (te_state e)) eqn:Hterm; [by apply moves_same|].
  pose proof (owned_nonterminal_active _ _ _ _ (core_inv_entry_wf q tid e Hc He) Ho Hterm) as Hact.
  destruct (decide_result_active (retry_policy q) now epoch w tid r e Hact)
    as (e' & dk & rk & d & Hd & Hedge & _).
  rewrite Hd. cbn [snd]. pose proof (decide_result_job _ _ _ _ _ _ _ _ _ _ _ Hd) as Hj.
  set (q1 := match rk with Some _ => _ | None => _ end).
  assert (Ht1 : tasks q1 = <[tid := e']> (tasks q)) by (subst q1; by destruct dk, rk).
  destruct (is_terminal (te_state e')) eqn:Ht'.
  - destruct (acct_put_track q q1 tid e e') as (_ & l & Htr); try done; [by subst q1; destruct dk, rk..|].
    apply (moves_put_track q q1 _ tid l e e'); [exact He|exact Ht1|by subst q1; destruct dk, rk|by apply good_edge|exact Htr].
  - eapply moves_put; [exact He| |by apply good_edge].
    destruct (update_active_same tid q1) as [-> _]. done.
Qed.

Lemma moves_fail_unsendable q w s r : queue_inv q -> moves q (fail_unsendable_assignment w s r q).2.
Proof.
  intros [Hc Ha _]. unfold fail_unsendable_assignment. set (tid := res_task_id r).
  destruct (tasks q !! tid) as [e|] eqn:He; [|by apply moves_same].
  destruct (owned_by e w s) eqn:Ho; cbn [negb]; [|by apply moves_same].
  destruct (is_terminal (te_state e)) eqn:Hterm; [by apply moves_same|].
  destruct (can_transition_to _ _) eqn:Hedge; cbn [negb snd]; [|by apply moves_same].
  set (e' := to_ended _ _ _ _ _ _). set (q1 := put_entry _ _ _).
  destruct (acct_put_track q q1 tid e e') as (_ & l & Htr); try done.
  apply (moves_put_track q q1 _ tid l e e'); [done..| |done]. apply good_edge; [done|same_job_tac].
Qed.

Lemma moves_cancel q tid reason : queue_inv q -> moves q (cancel_task_detailed tid reason q).2.
Proof.
  intros [Hc Ha _]. unfold cancel_task_detailed. destruct (tasks q !! tid) as [e|] eqn:He; [|by apply moves_same].
  destruct (is_terminal (te_state e)) eqn:Hterm; [by apply moves_same|].
  set (pr := match te_state e with Submitted => _ | _ => _ end).
  set (e' := to_ended _ _ _ _ _ _). destruct pr as [w q1] eqn:Hpr. cbn [snd].
  assert (Hs : same_book q q1 /\ capacity q1 = capacity q).
  { subst pr. destruct (te_state e), (te_assigned_worker_id e), (te_retry_after_instant e); by simplify_eq. }
  destruct Hs as [Hs Hcap]. destruct (acct_put_track q (put_entry tid e' q1) tid e e') as (_ & l & Htr); try done.
  { destruct Hs as (Hs1 & Hs2). repeat split; queue_cbn; try apply Hs2. by rewrite Hs1. }
  apply (moves_put_track q (put_entry tid e' q1) _ tid l e e'); [exact He|queue_cbn; by rewrite (proj1 Hs)|queue_cbn; by apply Hs| |exact Htr].
  apply good_edge; [by destruct (te_state e)|same_job_tac].
Qed.

Lemma moves_disconnect iter now epoch w s reason imm q :
  (forall X, iter X ≡ₚ elements X) -> queue_inv q -> moves q (handle_session_disconnected iter now epoch w s reason imm q).2.
Proof.
  intros Hiter [Hc Ha _].
  pose proof (disconnect_phases iter now epoch w s reason imm q Hiter (ai_book _ Ha)) as Hp.
  destruct (handle_session_disconnected _ _ _ _ _ _ _ q) as [affected q'].
  destruct Hp as (ts & q1 & q3 & l & Hp). cbn [snd].
  pose proof (phases_disconnects _ _ _ _ _ _ _ _ _ _ _ _ _ _ Hiter Hp) as [DA _ DT DE].
  intros t. rewrite DT. case_decide as Hl.
  { destruct (DE t Hl) as [Hin|[Haf _]].
    - apply (bk_order _ _ (ai_book _ Ha)) in Hin as [n Hn]. rewrite (bk_terminal _ _ (ai_book _ Ha)) in Hn by set_solver.
      destruct (tasks q !! t) as [e|]; [|done]. cbn in Hn. left. by destruct (is_terminal (te_state e)).
    - apply DA, sweepable_Some in Haf as (e & -> & Hact & _). by right; right. }
  case_decide as Haf; [|apply entry_move_refl]. apply DA, sweepable_Some in Haf as (e & -> & Hact & _).
  cbn. pose proof (failover_entry_cases (retry_policy q) now epoch w reason imm t e) as Hf.
  destruct (failover_entry _ _ _ _ _ _ _ _) as [e' x]. specialize (Hf e' x eq_refl).
  destruct Hf as [(_ & _ & [[-> ->]|(ra & _ & _ & -> & ->)])|(_ & -> & r & m & ->)].
  all: apply good_edge; [entry_cbn; by destruct (te_state e)|same_job_tac].
Qed.

Lemma moves_process now q : moves q (process_delayed_retries now q).2.
Proof.
  unfold process_delayed_retries. destruct (pop_due _ _) as [ids later]. cbn [snd]. intros t.
  rewrite release_all_lookup. cbn [set_delayed tasks]. case_bool_decide; [|apply entry_move_refl].
  destruct (tasks q !! t) as [e|]; [|done]. cbn. case_bool_decide as Hst; [|apply good_move_refl].
  apply good_edge; [entry_cbn; by rewrite Hst|same_job_tac].
Qed.

Lemma moves_accept q tid e b q0 :
  tasks q0 = tasks q -> tasks q !! tid = None -> te_state e = Queued -> te_retry_count e = 0 -> moves q (accept_entry tid e b q0).
Proof.
  intros Ht Hn Hst Hrc t. unfold accept_entry. queue_cbn. rewrite Ht. destruct (decide (t = tid)) as [->|].
  - by rewrite lookup_insert_eq, Hn.
  - rewrite lookup_insert_ne by done. apply entry_move_refl.
Qed.

Lemma run_moves op q : queue_inv q -> op_ok op -> moves q (run op q).
Proof.
  intros Hi Hok. destruct op; cbn [run].
  - unfold submit_with_priority. repeat case_match; try by apply moves_same. by apply moves_accept.
  - unfold try_submit_slot. repeat case_match; try by apply moves_same. by apply moves_accept.
  - unfold pop_and_schedule. destruct (List.find _ _) as [k|] eqn:Hf; [|by apply moves_same].
    apply List.find_some in Hf as [Hin%list_elem_of_In _].
    destruct (ready_key_entry q k (qi_core _ Hi) Hin) as (e & [He Hst]%queued_entry_Some & ->).
    cbn [qk_task_id entry_key] in *. rewrite He. by apply moves_take_ready.
  - unfold schedule_task. destruct (tasks q !! tid) as [e|] eqn:He; [|by apply moves_same].
    case_bool_decide; [by apply moves_take_ready|by apply moves_same].
  - intros t. destruct (schedule_batch_lookup now assignments q t) as [->|(e & w & s & -> & Hst & _ & ->)].
    + apply entry_move_refl.
    + apply good_edge; [entry_cbn; by rewrite Hst|same_job_tac].
  - unfold requeue_task. destruct (tasks q !! tid) as [e|] eqn:He; [|by apply moves_same].
    pose proof (core_inv_entry_wf q tid e (qi_core _ Hi) He) as Hwf. pose proof (wf_not_submitted _ _ Hwf).
    destruct (is_terminal (te_state e)) eqn:Hst; [by apply moves_same|]. cbn [snd].
    eapply moves_put; [exact He|by destruct (te_assigned_worker_id e)|].
    split; [|by rewrite Hst|same_job_tac]. entry_cbn. destruct (te_state e); auto; done.
  - unfold requeue_dispatch_failure. destruct (tasks q !! tid) as [e|] eqn:He; [|by apply moves_same].
    case_bool_decide as Hst; cbn [negb orb]; [|by apply moves_same].
    destruct (owned_by _ _ _); cbn [negb snd]; [|by apply moves_same].
    eapply moves_put; [exact He|reflexivity|]. apply good_edge; [entry_cbn; by rewrite Hst|same_job_tac].
  - unfold mark_running_from. destruct (tasks q !! tid) as [e|] eqn:He; [|by apply moves_same].
    destruct (owned_by _ _ _); cbn [negb]; [|by apply moves_same].
    destruct (can_transition_to (te_state e) Running) eqn:Hedge; cbn [negb snd]; [|by apply moves_same].
    eapply moves_put; [exact He|reflexivity|]. apply good_edge; [done|same_job_tac].
  - unfold record_checkpoint. destruct (tasks q !! tid) as [e|] eqn:He; [|by apply moves_same].
    destruct (is_terminal (te_state e)) eqn:Hst; [by apply moves_same|].
    pose proof (moves_store_checkpoint q tid e cp He Hst). by destruct (store_checkpoint _ _ _ _).
  - unfold record_checkpoint_from. destruct (tasks q !! tid) as [e|] eqn:He; [|by apply moves_same].
    destruct (is_active (te_state e)) eqn:Hst; cbn [negb orb]; [|by apply moves_same].
    destruct (owned_by _ _ _); cbn [negb]; [|by apply moves_same].
    by apply moves_store_checkpoint, nonterminal_active.
  - by apply moves_record_result.
  - by apply moves_fail_unsendable.
  - by apply moves_disconnect.
  - apply moves_process.
  - by apply moves_cancel.
  - destruct (enforce_spec ∅ (set_limits limit (max_terminal_bytes q) q)) as (l & Hev & _);
      [by destruct (ai_book _ (qi_acct _ Hi))|].
    intros t. rewrite (ev_tasks _ _ _ Hev). pose proof (ev_finished _ _ _ Hev t) as Hf. queue_cbn.
    case_decide; [|apply entry_move_refl]. destruct Hf as (e & He & Hst); [done|].
    cbn [set_limits tasks] in He. rewrite He. by left.
  - destruct (enforce_spec ∅ (set_limits (max_terminal_tasks q) limit q)) as (l & Hev & _);
      [by destruct (ai_book _ (qi_acct _ Hi))|].
    intros t. rewrite (ev_tasks _ _ _ Hev). pose proof (ev_finished _ _ _ Hev t) as Hf. queue_cbn.
    case_decide; [|apply entry_move_refl]. destruct Hf as (e & He & Hst); [done|].
    cbn [set_limits tasks] in He. rewrite He. by left.
  - destruct (evict_terminal_spec max_retained q (ai_book _ (qi_acct _ Hi))) as (l & Hev & _).
    by eapply moves_evicts.
Qed.
End uuid.
