(* ===== verification/Samples.v ===== *)
(** * Samples: concrete data for evaluating the model

    A concrete rendering of UUIDs (the hyphenated hexadecimal form of the [uuid]
    crate) that satisfies the laws the model assumes, and a few tasks, results and
    queues on which the operations are evaluated. *)

From S2P Require Import Prelude Collections RustStr Float Capabilities Placement Blob BlobProps Task Queue QueueOps.
Local Open Scope N_scope.

(** ** UUIDs *)

Module HexUuid.
Fixpoint hex_digits (k : nat) (u : N) : Str :=
  match k with
  | O => []
  | S k => hex_digits k (u / 16) ++ [hex_digit (u mod 16)]
  end.

Definition to_string (u : Uuid) : Str :=
  let d := hex_digits 32 u in
  take 8 d ++ [45] ++ take 4 (drop 8 d) ++ [45] ++ take 4 (drop 12 d) ++ [45] ++ take 4 (drop 16 d) ++ [45] ++ drop 20 d.

Definition value (d : Str) : option N :=
  foldl (fun acc c => a ← acc; n ← nibble c; Some (16 * a + n)) (Some 0) d.

Definition parse (s : Str) : option Uuid :=
  let d := filter (fun c => c <> 45) s in
  if bool_decide (length d = 32%nat) then value d else None.

#[global] Instance api : UuidApi := { uuid_to_string := to_string; uuid_parse := parse }.

Lemma length_hex_digits k u : length (hex_digits k u) = k.
Proof. revert u. induction k as [|k IH]; intros u; cbn; [done|]. rewrite length_app, IH. cbn. lia. Qed.

Lemma hex_digits_range k u : Forall (fun c => 48 <= c < 103) (hex_digits k u).
Proof.
  revert u. induction k as [|k IH]; intros u; cbn; [constructor|].
  apply Forall_app. split; [apply IH|]. repeat constructor; apply hex_digit_range, N.mod_lt; lia.
Qed.

Lemma value_hex_digits k u : u < 16 ^ N.of_nat k -> value (hex_digits k u) = Some u.
Proof.
  revert u. induction k as [|k IH]; intros u Hu; cbn [hex_digits].
  - cbn in Hu. by replace u with 0 by lia.
  - unfold value. rewrite foldl_app. fold (value (hex_digits k (u / 16))).
    rewrite Nat2N.inj_succ, N.pow_succ_r' in Hu.
    rewrite IH by (apply N.Div0.div_lt_upper_bound; lia). cbn.
    rewrite nibble_hex_digit by (apply N.mod_lt; lia). cbn. f_equal. symmetry. apply N.div_mod. lia.
Qed.

Lemma filter_digits (l : Str) : Forall (fun c => 48 <= c < 103) l -> filter (fun c => c <> 45) l = l.
Proof. induction 1; [done|]. rewrite filter_cons_True by lia. by f_equal. Qed.

Lemma split_32 (d : Str) : length d = 32%nat ->
  d = take 8 d ++ take 4 (drop 8 d) ++ take 4 (drop 12 d) ++ take 4 (drop 16 d) ++ drop 20 d.
Proof. intros Hd. do 32 (destruct d as [|? d]; [done|]). by destruct d. Qed.

Lemma to_string_digits u : filter (fun c => c <> 45) (to_string u) = hex_digits 32 u.
Proof.
  unfold to_string. pose proof (length_hex_digits 32 u) as Hl. pose proof (hex_digits_range 32 u) as Hr.
  set (d := hex_digits 32 u) in *.
  rewrite !filter_app. change (filter (fun c => c <> 45) [45]) with (@nil N). cbn [app].
  rewrite !filter_digits by (try apply Forall_take; try apply Forall_drop; done). symmetry. by apply split_32.
Qed.

Lemma str_len_ascii (l : Str) : Forall (fun c => c < 128) l -> str_len l = N.of_nat (length l).
Proof.
  induction 1 as [|c l Hc _ IH]; [done|]. change (str_len (c :: l)) with (utf8_char_len c + str_len l).
  rewrite IH. unfold utf8_char_len. rewrite (proj2 (N.ltb_lt c 128)) by done. cbn [length]. lia.
Qed.

#[global] Instance laws : UuidLaws.
Proof.
  split.
  - intros u. cbn [uuid_to_string api]. unfold to_string.
    pose proof (length_hex_digits 32 u) as Hl.
    assert (Hr : Forall (fun c => c < 128) (hex_digits 32 u)).
    { eapply Forall_impl; [apply hex_digits_range|]. cbn. lia. }
    set (d := hex_digits 32 u) in *. rewrite str_len_ascii.
    + rewrite !length_app, !length_take, !length_drop, Hl. done.
    + repeat (apply Forall_app; split); try apply Forall_take; try apply Forall_drop; try done; by repeat constructor.
  - intros u Hu. cbn [uuid_to_string uuid_parse api]. unfold parse.
    rewrite to_string_digits, length_hex_digits. apply value_hex_digits. exact Hu.
Qed.
End HexUuid.

(** ** Tasks *)

Definition sample_task (id : TaskId) : Task := {|
  task_id := id;
  task_spec := Command (str "echo") [str "hi"] ∅ None None;
  task_requirements := requirements_default;
  task_created_at_utc := 0; task_tags := []; task_latest_checkpoint := None;
  task_staged_files := []; task_expected_outputs := []; task_inputs := []; task_output_globs := []
|}.

(** Two tasks submitted, the second one more urgent, on a queue that keeps at
    most one finished task. *)
Definition sample_queue : TaskQueueInner :=
  let q := with_retention_limits retry_policy_default (Some 4) 1 1000000 1000000 in
  let q := (submit_with_priority 10 1 (sample_task 1) 0 q).2 in
  (submit_with_priority 11 1 (sample_task 2) 5 q).2.

(** Task 2 scheduled on worker 70, session 3, and running. *)
Definition sample_running : TaskQueueInner :=
  let q := (schedule_batch_inner 12 [(2, 70, Some 3)] sample_queue).2 in
  (mark_running_from 13 70 (Some 3) 2 q).2.

Definition sample_failure : TaskResult := result_failure 70 2 1 [] [] 5 (Some (str "boom")).
