(* ===== verification/QueueProps.v ===== *)
(** * QueueProps: what the task queue guarantees

    The properties of the master's queue, over every state reachable from an empty
    queue by its operations. *)

From S2P Require Import Prelude Collections RustStr Float Capabilities Placement Blob Task Queue QueueOps QueueInv QueueCore QueueBook QueueAcct QueueSteps Samples.
Local Open Scope N_scope.

(** ** Sample runs *)

Lemma sample_queue_reachable : reachable sample_queue.
Proof.
  change sample_queue with
    (run (OpSubmit 11 1 (sample_task 2) 5) (run (OpSubmit 10 1 (sample_task 1) 0)
       (with_retention_limits retry_policy_default (Some 4) 1 1000000 1000000))).
  apply reach_step; [apply reach_step; [apply reach_init|done|]|done|]; vm_compute; discriminate.
Qed.

Lemma sample_running_reachable : reachable sample_running.
Proof.
  change sample_running with
    (run (OpRunning 13 70 (Some 3) 2) (run (OpScheduleBatch 12 [(2, 70, Some 3)]) sample_queue)).
  apply reach_step; [apply reach_step; [apply sample_queue_reachable|done|]|done|]; vm_compute; discriminate.
Qed.

Definition sample_entry : TaskEntry := to_running 13 (to_scheduled 12 70 (Some 3) (new_entry (sample_task 2) 5 2 11 1)).

Lemma sample_running_entry : tasks sample_running !! 2 = Some sample_entry.
Proof. vm_compute. reflexivity. Qed.

Section uuid.
Context `{UuidApi}.

(** ** The invariant *)

(** C1 In every reachable queue the table, the ready set, the backoff set, the
    worker assignments, the byte totals, the retention order and the capacity
    agree: an entry is in the ready set iff it is queued (under its own priority
    and sequence), assigned to a worker iff it is active there, has a backoff key
    if it is retrying, and is charged exactly its retained bytes. *)
Theorem reachable_invariant q : reachable q -> queue_inv q.
Proof. apply reachable_queue_inv. Qed.

(** C2 A step moves an entry only along an edge of the state machine, never
    changes a finished entry, never changes what the job is (only its checkpoint),
    and removes an entry only if it was finished -- or if retention is configured
    to keep nothing, or the step itself failed the entry. *)
Theorem step_follows_state_machine q op : reachable q -> op_ok op -> moves q (run op q).
Proof. intros Hr Hok. apply run_moves; [by apply reachable_queue_inv|done]. Qed.

(** The number of re-runs of a task is bounded: worker rejections by three,
    failovers by the task's own limit or the policy's cap, execution retries by the
    policy's [max_retries]; and the recorded history has one entry per re-run. *)
Theorem reruns_bounded q t e :
  reachable q -> tasks q !! t = Some e ->
  te_rejection_count e <= 3 /\
  te_failover_count e <= (match req_max_retries (task_requirements (te_task e)) with
                          | Some limit => limit
                          | None => N.max (rp_max_failovers (retry_policy q)) (rp_max_retries (retry_policy q))
                          end) /\
  te_retry_count e <= te_failover_count e + rp_max_retries (retry_policy q) /\
  N.of_nat (length (te_retry_history e)) = te_retry_count e.
Proof.
  intros Hr He. destruct (core_inv_entry_wf q t e (qi_core _ (reachable_queue_inv q Hr)) He). split_and!; try done.
  - revert wf_failover_max. unfold failover_budget.
    destruct (rp_retry_on_worker_disconnect _), (req_max_retries _); cbn; try lia. destruct (_ =? 0); lia.
  - destruct (rp_retry_on_execution_failure (retry_policy q)); lia.
Qed.

(** Retention is exact: the retention order lists every finished task once and
    no other, the bytes charged are the sum of the retained sizes, there are at
    most [max_terminal_tasks] of them, and the byte budget is exceeded by at most
    a single task. *)
Theorem retention_exact q :
  reachable q ->
  NoDup (terminal_order q) /\
  (forall t, t ∈ terminal_order q <-> exists e, tasks q !! t = Some e /\ is_terminal (te_state e) = true) /\
  terminal_bytes q = map_sum (fun e => if is_terminal (te_state e) then retained_bytes e else 0) (tasks q) /\
  N.of_nat (length (terminal_order q)) <= max_terminal_tasks q /\
  (terminal_bytes q <= max_terminal_bytes q \/ (length (terminal_order q) <= 1)%nat).
Proof.
  intros Hr. destruct (qi_acct _ (reachable_queue_inv q Hr)) as [[bka bkt bkd bkn bko bkb] _ Hl _].
  assert (Ht : forall t, terminal_sizes q !! t = terminal_size_of (tasks q !! t)) by (intros; apply bkt; set_solver).
  split_and!; [done| | |apply Hl..].
  - intros t. rewrite bko, Ht. unfold terminal_size_of. destruct (tasks q !! t) as [e|].
    + destruct (is_terminal (te_state e)) eqn:Hst; split; [eauto|eauto|by intros []|]. intros (? & [= <-] & ?). congruence.
    + split; [by intros []|by intros (? & [=] & _)].
  - rewrite bkb. apply map_sum_agree. intros t. rewrite Ht. unfold terminal_size_of.
    destruct (tasks q !! t) as [e|]; [|done]. by destruct (is_terminal (te_state e)).
Qed.

(** The active bytes the queue reports are exactly the bytes its unfinished
    tasks retain (the saturating counter never drifts), and the number of
    unfinished tasks never exceeds the configured capacity. *)
Theorem active_accounting_exact q :
  reachable q ->
  active_bytes q = map_sum (fun e => if is_terminal (te_state e) then 0 else retained_bytes e) (tasks q) /\
  (forall cap, capacity q = Some cap -> active_count q <= cap).
Proof.
  intros Hr. destruct (qi_acct _ (reachable_queue_inv q Hr)) as [[bka _ _ _ _ _] Hx _ Hc]. split.
  - rewrite Hx. apply map_sum_agree. intros t. rewrite bka by set_solver. unfold active_size_of.
    destruct (tasks q !! t) as [e|]; [|done]. by destruct (is_terminal (te_state e)).
  - intros cap Hcap. unfold capacity_ok in Hc. by rewrite Hcap in Hc.
Qed.
End uuid.

Theorem reachable_invariant_witness : queue_inv sample_running.
Proof. apply reachable_invariant. apply sample_running_reachable. Defined.

Theorem step_follows_state_machine_witness :
  moves sample_running (run (OpResult 20 2 70 (Some 3) sample_failure) sample_running) /\
  get_state 2 (run (OpResult 20 2 70 (Some 3) sample_failure) sample_running) = Some Failed.
Proof.
  split; [|vm_compute; reflexivity].
  apply step_follows_state_machine; [apply sample_running_reachable|exact I].
Defined.

Theorem reruns_bounded_witness : te_rejection_count sample_entry <= 3.
Proof. apply (reruns_bounded sample_running 2 sample_entry sample_running_reachable). apply sample_running_entry. Defined.

Theorem retention_exact_witness : NoDup (terminal_order sample_running).
Proof. apply (retention_exact sample_running sample_running_reachable). Defined.

Theorem active_accounting_exact_witness : active_count sample_running <= 4.
Proof.
  apply (active_accounting_exact sample_running sample_running_reachable). vm_compute. reflexivity.
Defined.
