(* ===== verification/QueueLife.v ===== *)
(** * QueueLife: the life of a task

    What submission, results, cancellation, checkpoints, disconnects and the
    backoff timer do to a task, on every branch. *)

From S2P Require Import Prelude Collections RustStr Float Capabilities Placement Blob Task Queue QueueOps QueueInv QueueCore QueueBook QueueAcct QueueSteps Samples QueueProps.
Local Open Scope N_scope.










(** A slot that is not active is assigned to nobody. *)
Lemma inactive_unassigned q t w :
  core_inv q -> (forall e, tasks q !! t = Some e -> is_active (te_state e) = false) -> ~ assigned_at q w t.
Proof.
  intros Hi Hin Ha. pose proof (ci_slots _ Hi t) as Hs. unfold slot_ok in Hs.
  destruct (tasks q !! t) as [e|] eqn:He; [|by destruct Hs as [_ Hn]; destruct (Hn w)].
  destruct Hs as (_ & _ & _ & _ & HA & _). apply HA in Ha as [Ha _]. by rewrite (Hin e eq_refl) in Ha.
Qed.

Section uuid.
Context `{UuidApi}.

(** ** Ownership *)

(** C9 A worker or session that does not own a task can neither finish, fail,
    checkpoint nor start it: every report is refused and the queue is unchanged. *)
Theorem foreign_report_ignored q t e now epoch w s r cp :
  tasks q !! t = Some e -> owned_by e w s = false -> res_task_id r = t ->
  record_result_from now epoch w s r q
    = (Ok {| ro_disposition := Stale; ro_state := te_state e; ro_rejected := false |}, q) /\
  fail_unsendable_assignment w s r q = (Ok Stale, q) /\
  record_checkpoint_from w s t cp q = (Ok false, q) /\
  mark_running_from now w s t q = (Err (NotAssignedHere t (te_state e) Running), q).
Proof.
  intros He Ho <-. unfold record_result_from, fail_unsendable_assignment, record_checkpoint_from, mark_running_from.
  rewrite He, Ho. cbn [negb]. rewrite orb_true_r. done.
Qed.

(** A finished entry stays in the table unless retention keeps nothing. *)
Lemma tracked_lookup q1 q' tid l e' :
  tracks tid l q1 q' -> tasks q1 !! tid = Some e' ->
  tasks q' !! tid = Some e' \/ (tasks q' !! tid = None /\ max_terminal_tasks q1 = 0).
Proof.
  intros Htr He. rewrite (tr_tasks _ _ _ _ Htr), He. case_decide as Hl; [right|by left].
  split; [done|]. destruct (decide (1 <= max_terminal_tasks q1)); [|lia]. by destruct (tr_kept _ _ _ _ Htr).
Qed.



(** ** Submission *)

(** What a submission needs. *)
Definition submittable (q : TaskQueueInner) (t : Task) : Prop :=
  task_validate t = Ok tt /\ tasks q !! task_id t = None /\
  (forall cap, capacity q = Some cap -> active_count q < cap) /\
  saturating_add usize_max (active_bytes q) (task_active_bytes t) <= max_active_bytes q.

(** A submission succeeds exactly when the task is valid, its id is not in the
    table, an unfinished slot is free and its bytes fit; the task is then queued
    under the given priority, behind everything submitted before.  A refused
    submission changes no task. *)
Theorem submit_spec q now epoch t prio :
  let r := (submit_with_priority now epoch t prio q).1 in
  let q' := (submit_with_priority now epoch t prio q).2 in
  (submittable q t <-> r = Ok (task_id t)) /\
  (r = Ok (task_id t) -> tasks q' = <[task_id t := new_entry t prio (next_sequence q) now epoch]> (tasks q)) /\
  (r <> Ok (task_id t) -> tasks q' = tasks q /\ ready_queue q' = ready_queue q /\ active_bytes q' = active_bytes q).
Proof.
  unfold submit_with_priority, submittable. destruct (task_validate t) as [[]|] eqn:Hv.
  2: { cbn. split_and!; [split; [by intros [? _]|done]|done..]. }
  destruct (tasks q !! task_id t) eqn:Ht.
  { cbn. split_and!; [split; [by intros (_ & ? & _)|done]|done..]. }
  assert (Hcap : (forall cap, capacity q = Some cap -> active_count q < cap) <-> capacity_check q = Ok tt).
  { unfold capacity_check. destruct (capacity q) as [cap|]; [|split; done].
    destruct (cap <=? active_count q) eqn:Hle; [apply N.leb_le in Hle|apply N.leb_gt in Hle].
    - split; [intros Hx; specialize (Hx cap eq_refl); lia|done].
    - split; [done|]. intros _ cap' [= <-]. done. }
  rewrite Hcap. destruct (capacity_check q) as [[]|].
  2: { cbn. split_and!; [split; [by intros (_ & _ & ? & _)|done]|done..]. }
  unfold bytes_check. rewrite retained_new_entry. queue_cbn.
  destruct (N.ltb_spec (max_active_bytes q) (saturating_add usize_max (active_bytes q) (task_active_bytes t))).
  - cbn. split_and!; [split; [intros (_ & _ & _ & ?); lia|done]|done..].
  - cbn [fst snd]. split_and!; [done|done|]. intros Hx. by destruct Hx.
Qed.

(** ** Cancellation *)

(** Cancelling a finished task changes nothing.  Cancelling an unfinished one
    ends it as [Cancelled] with exit code 130, takes it out of the ready set and of
    every worker's assignments, names the worker to notify exactly if one is
    running it, and makes the worker's own later report a no-op on the table. *)
Theorem cancel_spec q t e reason :
  reachable q -> tasks q !! t = Some e ->
  (is_terminal (te_state e) = true ->
     cancel_task_detailed t reason q
     = (Ok {| co_newly_cancelled := false; co_worker_to_notify := None; co_result := te_result e |}, q)) /\
  (is_terminal (te_state e) = false ->
     exists q' r, cancel_task_detailed t reason q
       = (Ok {| co_newly_cancelled := true;
                co_worker_to_notify := if is_active (te_state e) then te_assigned_worker_id e else None;
                co_result := Some r |}, q') /\
       res_exit_code r = 130%Z /\
       (forall k, k ∈ ready_queue q' -> qk_task_id k <> t) /\ (forall w, ~ assigned_at q' w t) /\
       (1 <= max_terminal_tasks q ->
          exists e', tasks q' !! t = Some e' /\ te_state e' = Cancelled /\ te_result e' = Some r /\
          forall now epoch w s r', owned_by e w s = true -> res_task_id r' = t ->
            (record_result_from now epoch w s r' q').1
              = Ok {| ro_disposition := Late; ro_state := Cancelled; ro_rejected := false |} /\
            tasks (record_result_from now epoch w s r' q').2 = tasks q')).
Proof.
  intros Hr He. pose proof (reachable_queue_inv q Hr) as [Hc Ha _].
  destruct (slot_lookup q t e Hc He) as (Hwf & _). split; intros Hterm.
  { unfold cancel_task_detailed. by rewrite He, Hterm. }
  pose proof (core_cancel q t reason Hc) as Hc'. revert Hc'.
  unfold cancel_task_detailed. rewrite He, Hterm. destruct (wf_unfinished _ _ Hwf Hterm) as [-> _].
  set (cr := match reason with Some _ => _ | None => _ end).
  set (pr := match te_state e with Submitted => _ | _ => _ end).
  set (res := result_failure _ _ _ _ _ _ _). set (e' := to_ended _ _ _ _ _ _).
  destruct pr as [wn q1] eqn:Hpr. cbn [fst snd]. intros Hc'.
  assert (Hs : same_book q q1 /\ capacity q1 = capacity q /\
    wn = if is_active (te_state e) then te_assigned_worker_id e else None).
  { pose proof (wf_not_submitted _ _ Hwf). subst pr.
    destruct (te_state e), (te_assigned_worker_id e), (te_retry_after_instant e); by simplify_eq. }
  destruct Hs as (Hs & Hcap & ->).
  destruct (acct_put_track q (put_entry t e' q1) t e e') as (_ & l & Htr); try done.
  { destruct Hs as (Hs1 & Hs2). repeat split; queue_cbn; try apply Hs2. by rewrite Hs1. }
  set (q' := track_terminal_task t (put_entry t e' q1)) in *. exists q', res. split; [done|]. split; [done|].
  assert (Hlk := tracked_lookup _ _ t l e' Htr (lookup_insert_eq _ _ _)).
  assert (Hst : forall e2, tasks q' !! t = Some e2 -> e2 = e') by (intros e2 He2; destruct Hlk as [?|[? _]]; congruence).
  split_and!.
  - intros k Hk Hid. pose proof (ready_key_entry q' k Hc' Hk) as (e2 & [He2 Hq]%queued_entry_Some & _).
    rewrite Hid in He2. apply Hst in He2. by subst e2.
  - intros w. apply inactive_unassigned; [done|]. intros e2 He2%Hst. by subst e2.
  - intros Hm. exists e'. destruct Hlk as [Hlk|[_ Hz]].
    2: { queue_cbn. cbn [put_entry set_tasks max_terminal_tasks] in Hz. destruct Hs as (_&_&_&_&_&_&Hmm&_). lia. }
    split_and!; [done..|]. intros now epoch w s r' Ho Htid. unfold record_result_from. rewrite Htid, Hlk.
    assert (owned_by e' w s = true) as -> by exact Ho. done.
Qed.

(** ** Checkpoints *)

Lemma retained_checkpoint cp e :
  retained_bytes (set_task (update_checkpoint cp (te_task e)) e) + checkpoint_bytes (te_task e)
  = retained_bytes e + blen (cp_delta_state cp).
Proof.
  unfold retained_bytes, task_active_bytes, checkpoint_bytes.
  cbn [set_task te_task te_result te_retry_history te_error_message update_checkpoint task_spec task_staged_files
       task_expected_outputs task_inputs task_output_globs task_latest_checkpoint task_tags].
  cbn [opt_len]. lia.
Qed.

(** A checkpoint is stored exactly when it is strictly newer than the stored
    one and comes from the owner of an active task; storing one that grows the task
    never takes the active bytes over the limit.  Otherwise nothing changes. *)
Theorem checkpoint_monotone q t e w s cp :
  reachable q -> tasks q !! t = Some e ->
  let '(r, q') := record_checkpoint_from w s t cp q in
  (r = Ok true /\ is_active (te_state e) = true /\ owned_by e w s = true /\ get_checkpoint t q' = Some cp /\
     (forall old, get_checkpoint t q = Some old -> cp_sequence old < cp_sequence cp) /\
     (active_bytes q' <= max_active_bytes q \/ blen (cp_delta_state cp) <= checkpoint_bytes (te_task e))) \/
  (r <> Ok true /\ q' = q).
Proof.
  intros Hr He. pose proof (reachable_queue_inv q Hr) as [Hc Ha _].
  unfold record_checkpoint_from. rewrite He.
  destruct (is_active (te_state e)) eqn:Hact; cbn [negb orb]; [|by right].
  destruct (owned_by e w s) eqn:Ho; cbn [negb]; [|by right].
  unfold store_checkpoint, apply_checkpoint. destruct (checkpoint_exceeds_active_cap _ _ _ _) eqn:Hcap; [by right|].
  destruct (is_newer_checkpoint e cp) eqn:Hnew; [|by right]. left.
  set (e' := set_task _ _). split_and!; [done|done|done| | |].
  - unfold get_checkpoint. destruct (update_active_same t (put_entry t e' q)) as [-> _].
    cbn. by rewrite lookup_insert_eq.
  - intros old Hold. unfold get_checkpoint in Hold. rewrite He in Hold. cbn in Hold.
    unfold is_newer_checkpoint in Hnew. rewrite Hold in Hnew. by apply N.ltb_lt in Hnew.
  - assert (Hsz : active_sizes q !! t = Some (retained_bytes e)).
    { rewrite (bk_active _ _ (ai_book _ Ha)) by set_solver. rewrite He. cbn. by rewrite nonterminal_active. }
    assert (Hle : retained_bytes e <= active_bytes q).
    { rewrite (ai_exact _ Ha). exact (map_sum_lookup_le id _ t _ Hsz). }
    assert (Hre : retained_bytes e' + checkpoint_bytes (te_task e) = retained_bytes e + blen (cp_delta_state cp)) by apply retained_checkpoint.
    assert (Hck : checkpoint_bytes (te_task e) <= retained_bytes e) by (unfold retained_bytes, task_active_bytes; lia).
    unfold checkpoint_exceeds_active_cap in Hcap. rewrite Hnew in Hcap. cbn [negb] in Hcap.
    destruct (N.ltb_spec (checkpoint_bytes (te_task e)) (blen (cp_delta_state cp))); [|by right]. left.
    destruct (N.ltb_spec (max_active_bytes q)
      (saturating_add usize_max (active_bytes q - checkpoint_bytes (te_task e)) (blen (cp_delta_state cp)))); [done|].
    unfold update_active_task, untrack_active_task. queue_cbn. rewrite Hsz. queue_cbn. rewrite lookup_insert_eq.
    entry_cbn. rewrite (nonterminal_active _ Hact : is_terminal (te_state e') = false). queue_cbn.
    unfold saturating_add in *. lia.
Qed.
(** ** Disconnects *)

(** C10 Sweeping a worker finds every task it runs on the swept session, an older
    one or an unknown one, and no other; each of them is re-queued, put into
    backoff, or failed when its budget is spent (charging exactly one failover);
    afterwards the worker holds nothing but tasks of newer sessions, and the tasks
    of everybody else are untouched. *)
Theorem disconnect_complete q iter now epoch w s reason imm :
  reachable q -> (forall X, iter X ≡ₚ elements X) ->
  let '(affected, q') := handle_session_disconnected iter now epoch w s reason imm q in
  NoDup affected /\
  (forall t, t ∈ affected <-> exists e, tasks q !! t = Some e /\ is_active (te_state e) = true /\
     te_assigned_worker_id e = Some w /\ session_matches s e = true) /\
  (forall t e e', t ∈ affected -> tasks q !! t = Some e -> tasks q' !! t = Some e' ->
     te_assigned_worker_id e' = None /\
     if rp_retry_on_worker_disconnect (retry_policy q) && (failover_budget (retry_policy q) e).1
     then te_failover_count e' = te_failover_count e + 1 /\ te_retry_count e' = te_retry_count e + 1 /\
          (te_state e' = Queued \/ te_state e' = Retrying /\ imm = false)
     else te_state e' = Failed) /\
  (forall t e', tasks q' !! t = Some e' -> is_active (te_state e') = true -> te_assigned_worker_id e' = Some w ->
     exists swept newer, s = Some swept /\ te_assigned_session e' = Some newer /\ swept < newer) /\
  (forall t e, t ∉ affected -> tasks q !! t = Some e -> is_terminal (te_state e) = false -> tasks q' !! t = Some e).
Proof.
  intros Hr Hiter. pose proof (reachable_queue_inv q Hr) as [Hc Ha _].
  pose proof (disconnect_phases iter now epoch w s reason imm q Hiter (ai_book _ Ha)) as Hp.
  destruct (handle_session_disconnected _ _ _ _ _ _ _ q) as [affected q']. destruct Hp as (ts & q1 & q3 & l & Hp).
  pose proof (phases_disconnects _ _ _ _ _ _ _ _ _ _ _ _ _ _ Hiter Hp) as [DA DN DT DE].
  assert (Hentry : forall t e e', t ∈ affected -> tasks q !! t = Some e -> tasks q' !! t = Some e' ->
    e' = (failover_entry (retry_policy q) now epoch w reason imm t e).1).
  { intros t e e' Ht He. rewrite DT, He. case_decide; [done|]. rewrite decide_True by done. cbn. by intros [= <-]. }
  split_and!; [done| | | |].
  - intros t. by rewrite DA, sweepable_Some.
  - intros t e e' Ht He He'. rewrite (Hentry t e e' Ht He He').
    pose proof (failover_entry_cases (retry_policy q) now epoch w reason imm t e) as Hf.
    destruct (failover_entry _ _ _ _ _ _ _ _) as [e2 x]. specialize (Hf e2 x eq_refl). cbn [fst].
    destruct Hf as [(-> & -> & [[-> _]|(ra & _ & Him & -> & _)])|(-> & _ & r & m & ->)]; cbn; intuition.
  - intros t e' He' Hact Hw. destruct (decide (t ∈ affected)) as [Ht|Ht].
    + pose proof Ht as (e & He & _)%DA%sweepable_Some. rewrite (Hentry t e e' Ht He He') in Hact.
      pose proof (failover_entry_target (retry_policy q) now epoch w reason imm t e) as Hx.
      destruct (failover_entry _ _ _ _ _ _ _ _) as [e2 x]. destruct Hx as (_ & Hst & _). cbn in Hact.
      rewrite Hst in Hact. by destruct x.
    + rewrite DT in He'. case_decide; [done|]. case_decide; [done|].
      rewrite DA in Ht. unfold sweepable in Ht. rewrite He', Hact, bool_decide_true in Ht by done. cbn [andb] in Ht.
      unfold session_matches in Ht. destruct s as [swept|]; [|by destruct Ht].
      destruct (te_assigned_session e') as [newer|]; [|by destruct Ht]. exists swept, newer.
      split_and!; [done..|]. apply N.leb_gt. by destruct (newer <=? swept); [destruct Ht|].
  - intros t e Ht He Hst. rewrite DT, He. rewrite (decide_False (P := t ∈ affected)) by done.
    case_decide as Hl; [|done]. destruct (DE t Hl) as [Hin|[Haf _]]; [|done].
    apply (bk_order _ _ (ai_book _ Ha)) in Hin as [n Hn].
    rewrite (bk_terminal _ _ (ai_book _ Ha)), He in Hn by set_solver. cbn in Hn. by rewrite Hst in Hn.
Qed.

(** ** Backoff *)

(** Keys before a key that is not due are due. *)
Lemma pop_due_later now l k : bt_wf l -> k ∈ (pop_due now l).2 -> now < dk_retry_after k.
Proof.
  induction l as [|x l IH]; cbn [pop_due]; intros Hwf; [by intros ?%not_elem_of_nil|].
  apply bt_wf_cons in Hwf as [Hl Hall]. destruct (dk_retry_after x <=? now) eqn:Hle.
  - destruct (pop_due now l) as [ids later]. cbn [snd] in *. auto.
  - cbn [snd]. apply N.leb_gt in Hle. intros [->|Hin]%elem_of_cons; [done|].
    rewrite Forall_forall in Hall. specialize (Hall k Hin). unfold bt_lt, ocmp, DelayedRetryKey_ord in Hall.
    apply then_with_lt in Hall. rewrite N.compare_lt_iff, N.compare_eq_iff in Hall. lia.
Qed.

(** When the backoff timer runs, every retrying task whose delay has elapsed is
    queued again, tasks that remain in backoff are not due yet, and the delay a
    policy hands out never exceeds its ceiling. *)
Theorem backoff_elapses q now :
  reachable q ->
  let q' := (process_delayed_retries now q).2 in
  (forall t e r, tasks q !! t = Some e -> te_state e = Retrying -> te_retry_after_instant e = Some r -> r <= now ->
     tasks q' !! t = Some (to_backoff_over e) /\ entry_key e t ∈ ready_queue q') /\
  (forall t e', tasks q' !! t = Some e' -> te_state e' = Retrying ->
     exists r, te_retry_after_instant e' = Some r /\ now < r) /\
  (forall attempt, calculate_backoff (retry_policy q) attempt <= rp_max_backoff_ms (retry_policy q)).
Proof.
  intros Hr. pose proof (reachable_queue_inv q Hr) as [Hc Ha _].
  pose proof (core_process_delayed now q Hc) as Hc'. cbn zeta.
  assert (Hlater : forall k, k ∈ delayed_retries (process_delayed_retries now q).2 -> now < dk_retry_after k).
  { intros k. unfold process_delayed_retries.
    pose proof (pop_due_later now (delayed_retries q) k (proj2 (ci_keys _ Hc))) as Hl.
    destruct (pop_due now (delayed_retries q)) as [ids later]. cbn [snd] in *. rewrite release_all_set_delayed. exact Hl. }
  assert (Hrest : forall t e', tasks (process_delayed_retries now q).2 !! t = Some e' -> te_state e' = Retrying ->
     exists r, te_retry_after_instant e' = Some r /\ now < r).
  { intros t e' He' Hst. destruct (slot_lookup _ t e' Hc' He') as (_ & _ & _ & _ & _ & HD).
    destruct (HD Hst) as (r & Hra & Hin). exists r. split; [done|]. exact (Hlater _ Hin). }
  split_and!; [|done|].
  - intros t e r He Hst Hra Hle.
    assert (Hlk : tasks (process_delayed_retries now q).2 !! t = Some (to_backoff_over e)).
    { revert Hrest. unfold process_delayed_retries. destruct (pop_due _ _) as [ids later]. cbn [snd].
      intros Hrest. specialize (Hrest t e). rewrite release_all_lookup in *. cbn [set_delayed tasks] in *.
      rewrite He in *. cbn in Hrest |- *. rewrite (bool_decide_true (te_state e = Retrying)) in * by done.
      case_bool_decide; [done|]. destruct (Hrest eq_refl Hst) as (r' & ? & ?). simplify_eq. lia. }
    split; [done|]. apply (queued_entry_ready _ t (to_backoff_over e) Hc'). by apply queued_entry_Some.
  - intros a. unfold calculate_backoff. destruct (a =? 0); lia.
Qed.

(** ** Batches *)

(** A batch schedules a task only out of the queued state, so no task is ever
    handed out twice: the ids it returns are distinct, each was queued, and each is
    now scheduled on the worker (and session) it was returned for. *)
Theorem batch_exclusive q now l :
  reachable q ->
  let '(out, q') := schedule_batch_inner now l q in
  NoDup out.*1.*1 /\
  (forall t w task, (t, w, task) ∈ out ->
     exists e s, tasks q !! t = Some e /\ te_state e = Queued /\ task = te_task e /\ (t, w, s) ∈ l /\
       tasks q' !! t = Some (to_scheduled now w s e) /\ assigned_at q' w t).
Proof.
  intros Hr. pose proof (qi_core _ (reachable_queue_inv q Hr)) as Hc. clear Hr.
  revert q Hc. induction l as [|a l IH]; intros q Hc; cbn [schedule_batch_inner].
  { split; [constructor|]. intros ??? Hin. by apply not_elem_of_nil in Hin. }
  pose proof (core_schedule_one q now a Hc) as Hc1. pose proof (core_schedule_batch now l _ Hc1) as Hc2.
  destruct a as [[tid wid] ses]. destruct (schedule_one now (tid, wid, ses) q) as [o q1] eqn:Hone. cbn [snd] in Hc1, Hc2.
  pose proof (schedule_batch_lookup now l q1) as Hlk. specialize (IH q1 Hc1).
  destruct (schedule_batch_inner now l q1) as [out q2]. cbn [snd] in *. destruct IH as [IH1 IH2].
  unfold schedule_one in Hone. destruct (tasks q !! tid) as [e|] eqn:He.
  2: { simplify_eq. split; [done|]. intros t w task Hin. destruct (IH2 t w task Hin) as (e & s & ?&?&?&?&?&?).
       exists e, s. split_and!; try done. by right. }
  case_bool_decide as Hst; simplify_eq.
  2: { split; [done|]. intros t w task Hin. destruct (IH2 t w task Hin) as (e2 & s & ?&?&?&?&?&?).
       exists e2, s. split_and!; try done. by right. }
  assert (Hq1 : tasks (take_ready now (entry_key e tid) e wid ses q) !! tid = Some (to_scheduled now wid ses e))
    by apply lookup_insert_eq.
  assert (Hq2 : tasks q2 !! tid = Some (to_scheduled now wid ses e)).
  { destruct (Hlk tid) as [->|(e2 & w2 & s2 & He2 & Hq & _)]; [done|]. rewrite Hq1 in He2. by simplify_eq. }
  split.
  - cbn. apply NoDup_cons. split; [|done]. intros ([t' w'] & -> & ([[t2 w2] task] & [= -> ->] & Hin)%list_elem_of_fmap)%list_elem_of_fmap.
    destruct (IH2 _ _ _ Hin) as (e2 & s2 & He2 & Hq & _). cbn [fst] in *. rewrite Hq1 in He2. by simplify_eq.
  - intros t w task [[= -> -> ->]|Hin]%elem_of_cons.
    + exists e, ses. split_and!; try done; [by left|].
      destruct (slot_lookup q2 tid _ Hc2 Hq2) as (_ & _ & _ & _ & HA & _). by apply HA.
    + destruct (IH2 t w task Hin) as (e2 & s & He2 & ?&?&?&?&?).
      destruct (decide (t = tid)) as [->|Hne]; [rewrite Hq1 in He2; by simplify_eq|].
      exists e2, s. split_and!; try done; [|by right]. rewrite <-He2. symmetry. by apply lookup_insert_ne.
Qed.
End uuid.

Theorem foreign_report_ignored_witness :
  record_result_from 20 2 71 None sample_failure sample_running
  = (Ok {| ro_disposition := Stale; ro_state := Running; ro_rejected := false |}, sample_running).
Proof.
  apply (foreign_report_ignored sample_running 2 sample_entry 20 2 71 None sample_failure
    {| cp_sequence := 0; cp_delta_state := []; cp_timestamp := 0 |}).
  - apply sample_running_entry.
  - vm_compute. reflexivity.
  - reflexivity.
Defined.


Theorem cancel_spec_witness :
  exists q' r, cancel_task_detailed 2 None sample_running
    = (Ok {| co_newly_cancelled := true; co_worker_to_notify := Some 70; co_result := Some r |}, q').
Proof.
  destruct (cancel_spec sample_running 2 sample_entry None sample_running_reachable sample_running_entry) as [_ Hc].
  destruct Hc as (q' & r & Hq & _); [reflexivity|]. exists q', r. exact Hq.
Defined.

Definition sample_checkpoint (n : N) : CheckpointData :=
  {| cp_sequence := n; cp_delta_state := [1; 2; 3]; cp_timestamp := 0 |}.

Theorem checkpoint_monotone_witness :
  exists q', record_checkpoint_from 70 (Some 3) 2 (sample_checkpoint 4) sample_running = (Ok true, q') /\
    get_checkpoint 2 q' = Some (sample_checkpoint 4).
Proof.
  pose proof (checkpoint_monotone sample_running 2 sample_entry 70 (Some 3) (sample_checkpoint 4)
    sample_running_reachable sample_running_entry) as Hm.
  assert (Hr : (record_checkpoint_from 70 (Some 3) 2 (sample_checkpoint 4) sample_running).1 = Ok true)
    by (vm_compute; reflexivity).
  destruct (record_checkpoint_from _ _ _ _ _) as [r q']. cbn [fst] in Hr. subst r. exists q'. split; [reflexivity|].
  destruct Hm as [(_ & _ & _ & Hcp & _)|[Hne _]]; [exact Hcp|]. destruct Hne; reflexivity.
Defined.

Theorem disconnect_complete_witness :
  NoDup (handle_session_disconnected elements 20 2 70 (Some 3) (str "lost") true sample_running).1 /\
  get_state 2 (handle_session_disconnected elements 20 2 70 (Some 3) (str "lost") true sample_running).2 = Some Queued.
Proof.
  split; [|vm_compute; reflexivity].
  pose proof (disconnect_complete sample_running elements 20 2 70 (Some 3) (str "lost") true
    sample_running_reachable (fun X => reflexivity _)) as Hd.
  destruct (handle_session_disconnected elements 20 2 70 (Some 3) (str "lost") true sample_running) as [affected q'].
  exact (proj1 Hd).
Defined.

(** Task 2 lost with its worker and in backoff until instant 500000020. *)
Definition sample_backoff : TaskQueueInner :=
  (handle_session_disconnected elements 20 2 70 (Some 3) (str "lost") false sample_running).2.

Lemma sample_backoff_reachable : reachable sample_backoff.
Proof.
  change sample_backoff with (run (OpDisconnect elements 20 2 70 (Some 3) (str "lost") false) sample_running).
  apply reach_step; [apply sample_running_reachable|by intros X|vm_compute; discriminate].
Qed.

Theorem backoff_elapses_witness :
  get_state 2 sample_backoff = Some Retrying /\
  exists e, tasks (process_delayed_retries 500000020 sample_backoff).2 !! 2 = Some (to_backoff_over e).
Proof.
  split; [vm_compute; reflexivity|].
  destruct (tasks sample_backoff !! 2) as [e|] eqn:He; [|vm_compute in He; discriminate]. exists e.
  apply (proj1 (backoff_elapses sample_backoff 500000020 sample_backoff_reachable) 2 e 500000020 He).
  - vm_compute in He. injection He as <-. reflexivity.
  - vm_compute in He. injection He as <-. reflexivity.
  - apply N.le_refl.
Defined.

Theorem batch_exclusive_witness :
  NoDup (schedule_batch_inner 12 [(2, 70, Some 3); (2, 71, Some 4)] sample_queue).1.*1.*1 /\
  (schedule_batch_inner 12 [(2, 70, Some 3); (2, 71, Some 4)] sample_queue).1.*1 = [(2, 70)].
Proof.
  split; [|vm_compute; reflexivity].
  pose proof (batch_exclusive sample_queue 12 [(2, 70, Some 3); (2, 71, Some 4)] sample_queue_reachable) as Hb.
  destruct (schedule_batch_inner 12 [(2, 70, Some 3); (2, 71, Some 4)] sample_queue) as [out q']. exact (proj1 Hb).
Defined.

(** ** Two divergences *)

(** A task that allows itself no re-run ([max_retries = Some 0]) is re-run after an
    execution failure: that branch consults only the policy's limit. *)
Theorem execution_retry_ignores_task_limit :
  let r := {| req_cpu_cores := 1; req_ram_mb := 512; req_gpu_required := false; req_timeout_secs := 60;
              req_max_retries := Some 0 |} in
  let t := {| task_id := 9; task_spec := Command (str "false") [] ∅ None None; task_requirements := r;
              task_created_at_utc := 0; task_tags := []; task_latest_checkpoint := None; task_staged_files := [];
              task_expected_outputs := []; task_inputs := []; task_output_globs := [] |} in
  let p := {| rp_max_retries := 3; rp_max_failovers := 10; rp_initial_backoff_ms := 500; rp_max_backoff_ms := 30000;
              rp_backoff_multiplier := f64_two; rp_retry_on_execution_failure := true;
              rp_retry_on_worker_disconnect := true |} in
  let q := (submit_with_priority 0 0 t 0 (with_retention_limits p None 10 1000000 1000000)).2 in
  let q := (schedule_batch_inner 1 [(9, 70, None)] q).2 in
  let q := (record_result_from 2 0 70 None (result_failure 70 9 1 [] [] 5 None) q).2 in
  get_state 9 q = Some Retrying.
Proof. vm_compute. reflexivity. Qed.

(** Requeueing a task by hand leaves its backoff key behind; the timer counts the
    key although it re-queues nothing. *)
Theorem stale_backoff_key_counted :
  let q := (requeue_task 2 sample_backoff).2 in
  get_state 2 q = Some Queued /\ (process_delayed_retries 500000020 q).1 = 1 /\
  tasks (process_delayed_retries 500000020 q).2 = tasks q.
Proof. vm_compute. split; [|split]; reflexivity. Qed.
