(* ===== verification/QueueViews.v ===== *)
(** * QueueViews: what the scheduler and the clients see of the queue

    Priority-FIFO order, paging over the backlog, the load of each worker, the
    statistics and the list of recent tasks, against their plain definitions. *)

From S2P Require Import Prelude Collections RustStr Float Capabilities Placement Blob Task Queue QueueOps QueueInv QueueCore QueueBook QueueAcct QueueSteps Samples QueueProps.
Local Open Scope N_scope.

(** More urgent, or as urgent and submitted earlier. *)
Definition goes_before (a b : TaskEntry) : Prop :=
  te_priority b < te_priority a \/ (te_priority a = te_priority b /\ te_sequence a < te_sequence b).

Definition ready_entries (q : TaskQueueInner) : list TaskEntry :=
  omap (fun k => queued_entry q (qk_task_id k)) (ready_queue q).

Lemma omap_fmap_l {A B C} (f : A -> option B) (g : B -> C) (l : list A) :
  omap (fun x => g <$> f x) l = g <$> omap f l.
Proof. induction l as [|x l IH]; [done|]. cbn. destruct (f x); cbn; by rewrite IH. Qed.

Lemma find_omap {A B} (f : A -> option B) (g : B -> bool) (l : list A) :
  (forall x, x ∈ l -> is_Some (f x)) ->
  List.find g (omap f l) = match List.find (fun x => match f x with Some b => g b | None => false end) l with
                           | Some x => f x | None => None end.
Proof.
  induction l as [|x l IH]; intros Hf; [done|]. cbn. destruct (Hf x) as [b Hb]; [left|]. rewrite Hb. cbn.
  destruct (g b); [done|]. apply IH. intros; apply Hf; by right.
Qed.

Lemma find_fmap {A B} (f : A -> B) (g : B -> bool) (l : list A) :
  List.find g (f <$> l) = f <$> List.find (fun x => g (f x)) l.
Proof. induction l as [|x l IH]; [done|]. cbn. by destruct (g (f x)). Qed.

Section uuid.
Context `{UuidApi}.

Lemma elem_of_ready_entries q e : core_inv q ->
  e ∈ ready_entries q <-> exists t, tasks q !! t = Some e /\ te_state e = Queued.
Proof.
  intros Hc. unfold ready_entries. rewrite list_elem_of_omap. split.
  - intros (k & _ & [He Hst]%queued_entry_Some). eauto.
  - intros (t & He & Hst). assert (Hq : queued_entry q t = Some e) by (by apply queued_entry_Some).
    exists (entry_key e t). split; [by apply queued_entry_ready|done].
Qed.

Lemma ready_entries_sorted q : core_inv q -> StronglySorted goes_before (ready_entries q).
Proof.
  intros Hc. assert (Hsub : forall k, k ∈ ready_queue q -> k ∈ ready_queue q) by done. revert Hsub.
  pose proof (proj1 (ci_keys _ Hc)) as Hwf. unfold bt_wf, ready_entries in *.
  generalize Hwf. generalize (ready_queue q) at 1 2 4 as ks. intros ks Hs.
  induction Hs as [|k ks Hs IH Hall]; intros Hsub; [constructor|]. cbn.
  assert (Hrest : forall k', k' ∈ ks -> k' ∈ ready_queue q) by (intros; apply Hsub; by right).
  destruct (ready_key_entry q k Hc) as (e & He & Hk); [apply Hsub; left|]. rewrite He.
  constructor; [by apply IH|]. apply Forall_forall. intros e2 Hin.
  apply list_elem_of_omap in Hin as (k2 & Hk2 & He2). rewrite Forall_forall in Hall. specialize (Hall k2 Hk2).
  destruct (ready_key_entry q k2 Hc (Hrest _ Hk2)) as (e2' & He2' & Hk2'). rewrite He2 in He2'. injection He2' as <-.
  rewrite Hk, Hk2' in Hall. unfold bt_lt, ocmp, QueueOrderKey_ord in Hall. cbn in Hall.
  rewrite !then_with_lt, !N.compare_lt_iff, !N.compare_eq_iff in Hall. unfold goes_before.
  destruct Hall as [?|[? [?|[Hseq Hid]]]]; [by left|by right|].
  apply queued_entry_Some in He as [He _], He2 as [He2 _].
  pose proof (ci_sequences _ Hc _ _ _ _ He He2 Hseq). lia.
Qed.

(** The schedulable tasks are exactly the queued ones, most urgent first and in
    submission order within a priority. *)
Theorem schedulable_priority_fifo q :
  reachable q ->
  exists es, get_schedulable_tasks q = te_task <$> es /\ StronglySorted goes_before es /\
    (forall e, e ∈ es <-> exists t, tasks q !! t = Some e /\ te_state e = Queued).
Proof.
  intros Hr. pose proof (qi_core _ (reachable_queue_inv q Hr)) as Hc. exists (ready_entries q). split_and!.
  - unfold get_schedulable_tasks, ready_entries. apply omap_fmap_l.
  - by apply ready_entries_sorted.
  - intros e. by apply elem_of_ready_entries.
Qed.

(** [pop_and_schedule] hands out the first schedulable task the predicate
    accepts, nothing if there is none, and leaves exactly that task scheduled on
    the worker. *)
Theorem pop_takes_first q now w pred :
  reachable q ->
  let '(r, q') := pop_and_schedule now w pred q in
  r = List.find (fun t => pred (task_requirements t)) (get_schedulable_tasks q) /\
  match r with
  | None => q' = q
  | Some task => exists e, tasks q !! task_id task = Some e /\ te_task e = task /\
      tasks q' = <[task_id task := to_scheduled now w None e]> (tasks q)
  end.
Proof.
  intros Hr. pose proof (qi_core _ (reachable_queue_inv q Hr)) as Hc.
  assert (Hg : get_schedulable_tasks q = te_task <$> ready_entries q) by apply omap_fmap_l.
  assert (Hf : List.find (fun e => pred (task_requirements (te_task e))) (ready_entries q) =
    match List.find (fun k => match queued_entry q (qk_task_id k) with
                              | Some e => pred (task_requirements (te_task e)) | None => false end) (ready_queue q) with
    | Some k => queued_entry q (qk_task_id k) | None => None end).
  { apply find_omap. intros k Hk. destruct (ready_key_entry q k Hc Hk) as (e & -> & _). eauto. }
  rewrite Hg, find_fmap, Hf. unfold pop_and_schedule.
  destruct (List.find _ (ready_queue q)) as [k|] eqn:Hfind; [|done].
  apply List.find_some in Hfind as [Hin%list_elem_of_In _].
  destruct (ready_key_entry q k Hc Hin) as (e & Hq & Hk). rewrite Hq.
  apply queued_entry_Some in Hq as [He Hst]. rewrite He. split; [done|]. exists e.
  destruct (slot_lookup q _ e Hc He) as (_ & Hid & _). rewrite Hid. split_and!; [done..|]. done.
Qed.

(** ** Paging *)

(** Reading the backlog page by page, as a scheduling pass does. *)
Fixpoint all_pages (fuel : nat) (limit : N) (after : option QueueOrderKey) (q : TaskQueueInner) : list TaskView :=
  let '(views, next) := ready_views after limit q in
  match fuel, next with
  | S fuel, Some k => views ++ all_pages fuel limit (Some k) q
  | _, _ => views
  end.

Definition views_of (q : TaskQueueInner) (ks : list QueueOrderKey) : list TaskView :=
  omap (fun k => entry_view <$> queued_entry q (qk_task_id k)) ks.

Lemma ready_views_loop_spec q limit n ks :
  let '(vs, next) := ready_views_loop q limit n ks in
  match next with
  | None => vs = views_of q ks
  | Some k => exists k1 k2, ks = k1 ++ k :: k2 /\ vs = views_of q (k1 ++ [k])
  end.
Proof.
  revert n. induction ks as [|k ks IH]; intros n; cbn [ready_views_loop]; [done|].
  destruct (queued_entry q (qk_task_id k)) as [e|] eqn:He.
  - destruct (limit <=? n + 1).
    + exists [], ks. split; [done|]. cbn. by rewrite He.
    + specialize (IH (n + 1)). destruct (ready_views_loop q limit (n + 1) ks) as [vs [k'|]].
      * destruct IH as (k1 & k2 & -> & ->). exists (k :: k1), k2. split; [done|]. cbn. by rewrite He.
      * subst vs. cbn. by rewrite He.
  - specialize (IH n). destruct (ready_views_loop q limit n ks) as [vs [k'|]].
    + destruct IH as (k1 & k2 & -> & ->). exists (k :: k1), k2. split; [done|]. cbn. by rewrite He.
    + subst vs. cbn. by rewrite He.
Qed.

Lemma ready_views_loop_length q limit n ks :
  n < limit -> N.of_nat (length (ready_views_loop q limit n ks).1) <= limit - n.
Proof.
  revert n. induction ks as [|k ks IH]; intros n Hn; cbn [ready_views_loop]; [cbn; lia|].
  destruct (queued_entry q (qk_task_id k)); [|by apply IH].
  destruct (N.leb_spec limit (n + 1)); [cbn; lia|].
  specialize (IH (n + 1)). destruct (ready_views_loop q limit (n + 1) ks). cbn [fst length] in *. lia.
Qed.

Lemma views_of_app q k1 k2 : views_of q (k1 ++ k2) = views_of q k1 ++ views_of q k2.
Proof. apply omap_app. Qed.

Lemma all_pages_rest q limit fuel l1 l2 k :
  bt_wf (l1 ++ k :: l2) -> ready_queue q = l1 ++ k :: l2 -> (length l2 <= fuel)%nat ->
  all_pages fuel limit (Some k) q = views_of q l2.
Proof.
  revert l1 k l2. induction fuel as [|fuel IH]; intros l1 k l2 Hwf Hq Hlen; cbn [all_pages]; unfold ready_views.
  all: rewrite Hq, bt_range_after_app by done; pose proof (ready_views_loop_spec q limit 0 l2) as Hs.
  - destruct l2; [|cbn in Hlen; lia]. done.
  - destruct (ready_views_loop q limit 0 l2) as [vs [k'|]]; [|done]. destruct Hs as (k1 & k2 & -> & ->).
    rewrite (IH (l1 ++ k :: k1) k' k2).
    + rewrite <-views_of_app, <-app_assoc. done.
    + by rewrite <-app_assoc.
    + by rewrite Hq, <-app_assoc.
    + rewrite length_app in Hlen. cbn in Hlen. lia.
Qed.

(** A pass that reads the backlog page by page sees every queued task exactly
    once, in the same order as one that reads it at once, whatever the page size;
    and no page exceeds its limit. *)
Theorem paging_complete q limit :
  reachable q -> 1 <= limit ->
  all_pages (length (ready_queue q)) limit None q = entry_view <$> ready_entries q /\
  (forall after, N.of_nat (length (ready_views after limit q).1) <= limit).
Proof.
  intros Hr Hlim. pose proof (qi_core _ (reachable_queue_inv q Hr)) as Hc. split.
  - assert (Hv : views_of q (ready_queue q) = entry_view <$> ready_entries q) by apply omap_fmap_l. rewrite <-Hv.
    pose proof (proj1 (ci_keys _ Hc)) as Hwf. pose proof (ready_views_loop_spec q limit 0 (ready_queue q)) as Hs.
    destruct (length (ready_queue q)) as [|fuel] eqn:Hlen; cbn [all_pages]; unfold ready_views.
    + destruct (ready_queue q); [done|]. by cbn in Hlen.
    + destruct (ready_views_loop q limit 0 (ready_queue q)) as [vs [k|]]; [|done].
      destruct Hs as (k1 & k2 & Hq & ->). rewrite Hq in Hwf, Hlen |- *.
      rewrite (all_pages_rest q limit fuel k1 k2 k Hwf Hq).
      * rewrite <-views_of_app, <-app_assoc. done.
      * rewrite length_app in Hlen. cbn in Hlen. lia.
  - intros after. unfold ready_views. etrans; [apply ready_views_loop_length; lia|lia].
Qed.

(** ** Loads *)

(** What an entry adds to the load of worker [w]. *)
Definition runs_on (w : Uuid) (e : TaskEntry) : bool :=
  is_active (te_state e) && bool_decide (te_assigned_worker_id e = Some w).

Definition worker_load (w : Uuid) (q : TaskQueueInner) : AssignedLoad := {|
  al_tasks := map_sum (fun e => if runs_on w e then 1 else 0) (tasks q);
  al_slots := map_sum (fun e => if runs_on w e then N.max (req_cpu_cores (task_requirements (te_task e))) 1 else 0) (tasks q);
  al_unstarted_ram_mb :=
    map_sum (fun e => if runs_on w e && bool_decide (te_state e = Scheduled)
                      then req_ram_mb (task_requirements (te_task e)) else 0) (tasks q)
|}.

(** The fold over a set of task ids, field by field. *)
Definition load_over (q : TaskQueueInner) (X : gset TaskId) (f : TaskEntry -> N) : N :=
  map_sum f (filter (fun '(t, _) => t ∈ X) (tasks q)).

Lemma load_over_empty q f : load_over q ∅ f = 0.
Proof.
  unfold load_over. rewrite <-(map_sum_empty (K := TaskId) f). apply map_sum_agree. intros t. rewrite lookup_empty.
  destruct (filter _ (tasks q) !! t) as [e|] eqn:E; [|done]. apply map_lookup_filter_Some in E. set_solver.
Qed.

Lemma load_over_insert q X t f : t ∉ X ->
  load_over q ({[t]} ∪ X) f = match tasks q !! t with Some e => f e | None => 0 end + load_over q X f.
Proof.
  intros Hn. unfold load_over. destruct (tasks q !! t) as [e|] eqn:He.
  - rewrite <-(map_sum_insert f _ t e).
    + f_equal. apply map_eq. intros t'. destruct (decide (t' = t)) as [->|Hne].
      * rewrite lookup_insert_eq. apply map_lookup_filter_Some. split; [done|set_solver].
      * rewrite lookup_insert_ne by done. apply option_eq. intros e'.
        rewrite !map_lookup_filter_Some. set_solver.
    + apply map_lookup_filter_None. right. intros e' _. done.
  - rewrite N.add_0_l. apply map_sum_agree. intros t'.
    assert (filter (fun '(t0, _) => t0 ∈ {[t]} ∪ X) (tasks q) !! t' = filter (fun '(t0, _) => t0 ∈ X) (tasks q) !! t') as ->; [|done].
    apply option_eq. intros e'. rewrite !map_lookup_filter_Some. destruct (decide (t' = t)) as [->|]; set_solver.
Qed.

Definition load_task (e : TaskEntry) : N := if is_active (te_state e) then 1 else 0.
Definition load_slots (e : TaskEntry) : N :=
  if is_active (te_state e) then N.max (req_cpu_cores (task_requirements (te_task e))) 1 else 0.
Definition load_ram (e : TaskEntry) : N :=
  if bool_decide (te_state e = Scheduled) then req_ram_mb (task_requirements (te_task e)) else 0.

Lemma set_fold_load q X :
  set_fold (add_load q) load_default X =
  {| al_tasks := load_over q X load_task; al_slots := load_over q X load_slots; al_unstarted_ram_mb := load_over q X load_ram |}.
Proof.
  apply (set_fold_ind_L (fun l X => l = {| al_tasks := load_over q X load_task; al_slots := load_over q X load_slots;
    al_unstarted_ram_mb := load_over q X load_ram |})).
  - by rewrite !load_over_empty.
  - intros t Y l Hn ->. rewrite !load_over_insert by done. unfold add_load, load_task, load_slots, load_ram.
    destruct (tasks q !! t) as [e|]; [|done].
    destruct (is_active (te_state e)) eqn:Hact; cbn [al_tasks al_slots al_unstarted_ram_mb].
    + case_bool_decide; f_equal; lia.
    + rewrite bool_decide_false by (by intros Heq; rewrite Heq in Hact). done.
Qed.

Lemma assigned_set q w X t e : core_inv q -> worker_assignments q !! w = Some X -> tasks q !! t = Some e ->
  t ∈ X <-> runs_on w e = true.
Proof.
  intros Hc HX He. destruct (slot_lookup q t e Hc He) as (_ & _ & _ & _ & HA & _).
  unfold runs_on. rewrite andb_true_iff, bool_decide_eq_true, <-HA. unfold assigned_in. rewrite HX. naive_solver.
Qed.

(** A sum over a worker's assignment set is a sum over what runs on it. *)
Lemma load_over_worker q w X f g : core_inv q -> worker_assignments q !! w = Some X ->
  (forall e, runs_on w e = true -> f e = g e) -> (forall e, runs_on w e = false -> g e = 0) ->
  load_over q X f = map_sum g (tasks q).
Proof.
  intros Hc HX Hon Hoff. apply map_sum_agree. intros t.
  destruct (tasks q !! t) as [e|] eqn:He.
  - pose proof (assigned_set q w X t e Hc HX He) as Hin. destruct (runs_on w e) eqn:Hr.
    + assert (filter (fun '(t0, _) => t0 ∈ X) (tasks q) !! t = Some e) as ->; [|by apply Hon].
      apply map_lookup_filter_Some. split; [done|by apply Hin].
    + assert (filter (fun '(t0, _) => t0 ∈ X) (tasks q) !! t = None) as ->; [|by rewrite Hoff].
      apply map_lookup_filter_None. right. intros e2 He2 Hx. by apply Hin in Hx.
  - assert (filter (fun '(t0, _) => t0 ∈ X) (tasks q) !! t = None) as ->; [|done].
    apply map_lookup_filter_None. by left.
Qed.

Lemma worker_load_zero q w :
  (forall t e, tasks q !! t = Some e -> runs_on w e = false) -> worker_load w q = load_default.
Proof.
  intros Hno.
  assert (Hz : forall f : TaskEntry -> N, (forall e, runs_on w e = false -> f e = 0) -> map_sum f (tasks q) = 0).
  { intros f Hf. rewrite <-(map_sum_empty (K := TaskId) f). apply map_sum_agree. intros t. rewrite lookup_empty.
    destruct (tasks q !! t) as [e|] eqn:He; [|done]. by apply Hf, (Hno t). }
  unfold worker_load. rewrite !Hz; [done|..]; intros e Hr; by rewrite Hr.
Qed.

(** The load the scheduler is given for a worker counts exactly the tasks that
    are scheduled or running on it: their number, their slots (at least one each)
    and the memory of those not started yet. *)
Theorem assigned_loads_exact q w :
  reachable q -> default load_default (assigned_loads q !! w) = worker_load w q.
Proof.
  intros Hr. pose proof (qi_core _ (reachable_queue_inv q Hr)) as Hc.
  unfold assigned_loads. rewrite lookup_omap. destruct (worker_assignments q !! w) as [X|] eqn:HX; cbn.
  2: { symmetry. apply worker_load_zero. intros t e He.
       destruct (slot_lookup q t e Hc He) as (_ & _ & _ & _ & HA & _).
       destruct (runs_on w e) eqn:Hrun; [|done]. unfold runs_on in Hrun. rewrite andb_true_iff, bool_decide_eq_true in Hrun.
       apply HA in Hrun as (X & HX' & _). congruence. }
  rewrite set_fold_load. assert (Hl : {| al_tasks := load_over q X load_task; al_slots := load_over q X load_slots;
    al_unstarted_ram_mb := load_over q X load_ram |} = worker_load w q).
  { unfold worker_load. f_equal; apply (load_over_worker q w X); try done.
    all: intros e Hrun; rewrite ?Hrun; try done; unfold runs_on in Hrun; apply andb_true_iff in Hrun as [Hact _];
      unfold load_task, load_slots, load_ram; by rewrite Hact. }
  rewrite Hl. destruct (0 <? al_tasks (worker_load w q)) eqn:H0; cbn [default from_option]; [done|].
  apply N.ltb_ge in H0.
  assert (Hno : forall t e, tasks q !! t = Some e -> runs_on w e = false).
  { intros t e He. destruct (runs_on w e) eqn:Hrun; [|done].
    pose proof (map_sum_lookup_le (fun e => if runs_on w e then 1 else 0) (tasks q) t e He) as Hle.
    cbn in Hle, H0. rewrite Hrun in Hle. cbn in H0. lia. }
  symmetry. by apply worker_load_zero.
Qed.

(** ** Statistics *)

Lemma map_sum_plus {A} (f g : A -> N) (m : gmap TaskId A) : map_sum (fun x => f x + g x) m = map_sum f m + map_sum g m.
Proof.
  induction m as [|k x m Hk IH] using map_ind; [by rewrite !map_sum_empty|].
  rewrite !map_sum_insert, IH by done. lia.
Qed.

Lemma map_sum_size {A} (m : gmap TaskId A) : N.of_nat (size m) = map_sum (fun _ => 1) m.
Proof.
  induction m as [|k x m Hk IH] using map_ind; [by rewrite map_sum_empty, map_size_empty|].
  rewrite map_sum_insert, map_size_insert_None by done. lia.
Qed.

(** The four buckets the cluster reports (waiting, active, completed, failed or
    cancelled) partition the tasks of the table: they add up to the total. *)
Theorem stats_partition q :
  reachable q ->
  let '(waiting, active, completed, failed) := cluster_buckets (stats q) in
  waiting + active + completed + failed = qs_total (stats q).
Proof.
  intros Hr. pose proof (qi_core _ (reachable_queue_inv q Hr)) as Hc.
  cbn [cluster_buckets stats qs_total qs_queued qs_scheduled qs_running qs_retrying qs_completed qs_failed qs_cancelled].
  rewrite map_sum_size. unfold count_state. rewrite <-!map_sum_plus. apply map_sum_agree. intros t.
  destruct (tasks q !! t) as [e|] eqn:He; [|done].
  pose proof (wf_not_submitted _ _ (core_inv_entry_wf q t e Hc He)). by destruct (te_state e).
Qed.

(** ** Recent tasks *)

(** [select_nth_unstable_by_key(k, Reverse(sequence))]: a permutation whose first
    [k + 1] elements are at least as recent as the others. *)
Definition selects (select : nat -> list TaskEntry -> list TaskEntry) : Prop :=
  forall k l, (k < length l)%nat -> select k l ≡ₚ l /\
    forall a b, a ∈ take (S k) (select k l) -> b ∈ drop (S k) (select k l) -> newer a b.

#[global] Instance newer_trans : Transitive newer.
Proof. unfold newer. intros ???. lia. Qed.
#[global] Instance newer_total : Total newer.
Proof. unfold newer. intros ??. lia. Qed.

Lemma StronglySorted_join {A} (R : A -> A -> Prop) l1 l2 :
  StronglySorted R l1 -> StronglySorted R l2 -> (forall a b, a ∈ l1 -> b ∈ l2 -> R a b) -> StronglySorted R (l1 ++ l2).
Proof.
  induction 1 as [|x l1 Hs IH Hall]; intros H2 Hx; [done|]. cbn. constructor.
  - apply IH; [done|]. intros; apply Hx; [by right|done].
  - apply Forall_app. split; [done|]. apply Forall_forall. intros. apply Hx; [left|done].
Qed.

(** Sorting only the selected part yields the front of the sorted whole. *)
Lemma partial_sort select (l : list TaskEntry) w :
  selects select -> (forall a b, a ∈ l -> b ∈ l -> te_sequence a = te_sequence b -> a = b) ->
  (0 < w < length l)%nat ->
  merge_sort newer (take w (select (w - 1)%nat l)) = take w (merge_sort newer l).
Proof.
  intros Hsel Huniq Hw. destruct (Hsel (w - 1)%nat l) as [Hp Hsplit]; [lia|].
  replace (S (w - 1)) with w in Hsplit by lia. set (s := select (w - 1)%nat l) in *.
  assert (Heq : merge_sort newer l = merge_sort newer (take w s) ++ merge_sort newer (drop w s)).
  { apply (StronglySorted_unique_strong newer).
    - intros a b Ha Hb Hab Hba. apply Huniq.
      + by rewrite merge_sort_Permutation in Ha.
      + rewrite !merge_sort_Permutation, take_drop, Hp in Hb. done.
      + unfold newer in *. lia.
    - apply (StronglySorted_merge_sort newer).
    - apply StronglySorted_join; [apply (StronglySorted_merge_sort newer)..|].
      intros a b Ha Hb. rewrite merge_sort_Permutation in Ha, Hb. auto.
    - by rewrite !merge_sort_Permutation, take_drop. }
  rewrite Heq, take_app_length'; [done|].
  rewrite (Permutation_length (merge_sort_Permutation newer _)), length_take, (Permutation_length Hp). lia.
Qed.

(** The page of recent tasks is the page of the whole filtered table sorted by
    descending submission, although only the needed part is selected and sorted. *)
Theorem recent_tasks_sorted q select entries accept offset limit :
  reachable q -> selects select -> entries ≡ₚ (map_to_list (tasks q)).*2 ->
  N.of_nat (length entries) <= usize_max ->
  recent_tasks select entries accept offset limit =
    to_info <$> take limit (drop offset (merge_sort newer (List.filter accept entries))).
Proof.
  intros Hr Hsel Hent Hlen. pose proof (qi_core _ (reachable_queue_inv q Hr)) as Hc.
  unfold recent_tasks. set (l := List.filter accept entries).
  set (w := N.to_nat (saturating_add usize_max (N.of_nat offset) (N.of_nat limit))).
  destruct (Nat.ltb_spec w (length l)) as [Hw|]; cbn [andb]; [|done].
  destruct (Nat.ltb_spec 0 w) as [Hw0|Hw0]; [|done].
  assert (Hll : (length l <= length entries)%nat) by apply List.filter_length_le.
  assert (Hwe : w = (offset + limit)%nat) by (unfold w, saturating_add in *; lia).
  rewrite partial_sort; [|done| |lia].
  - rewrite Hwe, skipn_firstn_comm, take_take. do 2 f_equal. lia.
  - assert (Hmem : forall a, a ∈ l -> exists t, tasks q !! t = Some a).
    { intros a Ha%list_elem_of_In. apply List.filter_In in Ha as [Ha%list_elem_of_In _]. rewrite Hent in Ha.
      apply list_elem_of_fmap in Ha as ([t a'] & -> & Ha). exists t. by apply elem_of_map_to_list. }
    intros a b Ha Hb Heq. destruct (Hmem a Ha) as [ta Hta], (Hmem b Hb) as [tb Htb].
    pose proof (ci_sequences _ Hc _ _ _ _ Hta Htb Heq). subst tb. congruence.
Qed.
End uuid.

Theorem schedulable_priority_fifo_witness :
  (task_id <$> get_schedulable_tasks sample_queue) = [2; 1] /\
  exists es, get_schedulable_tasks sample_queue = te_task <$> es /\ StronglySorted goes_before es.
Proof.
  split; [vm_compute; reflexivity|].
  destruct (schedulable_priority_fifo sample_queue sample_queue_reachable) as (es & He & Hs & _). exists es. split; assumption.
Defined.

Theorem pop_takes_first_witness :
  (pop_and_schedule 12 70 (fun _ => true) sample_queue).1
  = List.find (fun t => (fun _ => true) (task_requirements t)) (get_schedulable_tasks sample_queue).
Proof.
  pose proof (pop_takes_first sample_queue 12 70 (fun _ => true) sample_queue_reachable) as Hp.
  destruct (pop_and_schedule 12 70 (fun _ => true) sample_queue) as [r q']. exact (proj1 Hp).
Defined.

Theorem paging_complete_witness :
  all_pages (length (ready_queue sample_queue)) 1 None sample_queue = entry_view <$> ready_entries sample_queue.
Proof. apply (paging_complete sample_queue 1 sample_queue_reachable). apply N.le_refl. Defined.

Theorem assigned_loads_exact_witness :
  default load_default (assigned_loads sample_running !! 70) = worker_load 70 sample_running.
Proof. apply assigned_loads_exact. apply sample_running_reachable. Defined.

Theorem stats_partition_witness :
  let '(waiting, active, completed, failed) := cluster_buckets (stats sample_running) in
  waiting + active + completed + failed = qs_total (stats sample_running).
Proof. apply stats_partition. apply sample_running_reachable. Defined.

(** Sorting is one way to select. *)
Lemma sort_selects : selects (fun _ l => merge_sort newer l).
Proof.
  intros k l Hk. split; [apply merge_sort_Permutation|]. intros a b Ha Hb.
  pose proof (StronglySorted_merge_sort newer l) as Hs. rewrite <-(take_drop (S k) (merge_sort newer l)) in Hs.
  by eapply (StronglySorted_app_1_elem_of newer).
Qed.

Theorem recent_tasks_sorted_witness :
  let entries := (map_to_list (tasks sample_queue)).*2 in
  recent_tasks (fun _ l => merge_sort newer l) entries (fun _ => true) 0 1
  = to_info <$> take 1 (drop 0 (merge_sort newer (List.filter (fun _ => true) entries))).
Proof.
  intros entries. apply (recent_tasks_sorted sample_queue).
  - apply sample_queue_reachable.
  - apply sort_selects.
  - reflexivity.
  - vm_compute. discriminate.
Defined.
