(* ===== verification/Registry.v ===== *)
(** * Registry: the master's worker registry

    Models [crates/master/src/registry.rs] and the receive clock of
    [crates/master/src/liveness.rs].  A method that takes the registry's lock is a
    function of [WorkerRegistryInner]; [Instant::now()] and [Utc::now()] are
    arguments.  A channel sender, an abort handle and a clock are names: aborting a
    connection task is returned as the list of handles aborted, and the clocks live
    in a store of their own because the connection's reader advances them while the
    registry holds a reference.  [current] is the handle of the calling task. *)

From S2P Require Import Prelude Collections RustStr Float Capabilities Placement Blob Task.
Local Open Scope N_scope.

Abbreviation ClockId := N (only parsing).
Abbreviation ChannelId := N (only parsing).
Abbreviation AbortHandle := N (only parsing).

(** ** Receive clocks *)

Record RxClock := { rx_epoch : N; rx_last_nanos : N }.

Definition rx_new (now : N) : RxClock := {| rx_epoch := now; rx_last_nanos := 0 |}.
Definition rx_touch (now : N) (c : RxClock) : RxClock :=
  {| rx_epoch := rx_epoch c; rx_last_nanos := N.max (rx_last_nanos c) (N.min (now - rx_epoch c) u64_max) |}.
Definition last_rx (c : RxClock) : N := rx_epoch c + rx_last_nanos c.

(** A read of [n] bytes through the stamped stream. *)
Definition stamped_read (now n : N) (c : RxClock) : RxClock := if 0 <? n then rx_touch now c else c.

Abbreviation Clocks := (gmap ClockId RxClock) (only parsing).

(** ** Constants *)

Definition RX_LIVENESS_CEILING_FACTOR : N := 60.
Definition REJECTION_COOLDOWN_BASE : Duration := from_secs 5.
Definition REJECTION_COOLDOWN_MAX : Duration := from_secs 60.

(** ** Workers *)

Inductive WorkerStatus := Connected | Busy | Disconnected.

#[global] Instance WorkerStatus_eq : EqDecision WorkerStatus.
Proof. solve_decision. Defined.

Definition worker_status_str (s : WorkerStatus) : Str :=
  match s with Connected => str "connected" | Busy => str "busy" | Disconnected => str "disconnected" end.

Record WorkerEntry := {
  we_worker_id : Uuid;
  we_session_id : N;
  we_capabilities : WorkerCapabilities;
  we_status : WorkerStatus;
  we_last_heartbeat_instant : N;
  we_last_heartbeat_timestamp : N;
  we_registered_at_instant : N;
  we_registered_timestamp : N;
  we_active_tasks : N;
  we_reported_active_tasks : N;
  we_remote_addr : Str;
  we_sender : ChannelId;
  we_abort_handle : option AbortHandle;
  we_cpu_usage_pct : f32;
  we_ram_available_mb : N;
  we_rx_clock : option ClockId;
  we_consecutive_rejections : N;
  we_excluded_until : option N;
  we_heartbeat_interval : option Duration;
  we_features : ProtocolCapabilities
}.

Record WorkerInfo := {
  wi_worker_id : Uuid;
  wi_session_id : N;
  wi_capabilities : WorkerCapabilities;
  wi_status : WorkerStatus;
  wi_last_heartbeat_timestamp : N;
  wi_registered_timestamp : N;
  wi_active_tasks : N;
  wi_remote_addr : Str;
  wi_cpu_usage_pct : f32;
  wi_ram_available_mb : N;
  wi_features : ProtocolCapabilities
}.

Definition calculate_master_dead_peer_window (tau : Duration) : Duration :=
  N.max (from_secs 2) (duration_mul tau 4).

Definition visible_active_tasks (e : WorkerEntry) : N := N.max (we_active_tasks e) (we_reported_active_tasks e).

Definition is_silent (clocks : Clocks) (e : WorkerEntry) (now : N) (timeout : Duration) : bool :=
  let effective_timeout := match we_heartbeat_interval e with
    | Some tau => calculate_master_dead_peer_window tau
    | None => timeout
    end in
  let since_heartbeat := now - we_last_heartbeat_instant e in
  if since_heartbeat <=? effective_timeout then false
  else match we_rx_clock e ≫= fun id => clocks !! id with
       | Some clock =>
           (effective_timeout <? now - last_rx clock)
           || (duration_mul effective_timeout RX_LIVENESS_CEILING_FACTOR <? since_heartbeat)
       | None => true
       end.

Definition entry_to_info (e : WorkerEntry) : WorkerInfo := {|
  wi_worker_id := we_worker_id e; wi_session_id := we_session_id e; wi_capabilities := we_capabilities e;
  wi_status := we_status e; wi_last_heartbeat_timestamp := we_last_heartbeat_timestamp e;
  wi_registered_timestamp := we_registered_timestamp e; wi_active_tasks := visible_active_tasks e;
  wi_remote_addr := we_remote_addr e; wi_cpu_usage_pct := we_cpu_usage_pct e;
  wi_ram_available_mb := we_ram_available_mb e; wi_features := we_features e
|}.

Record Registration := { reg_session_id : N; reg_superseded_session : option N }.

Inductive HeartbeatOutcome := Applied | Revived | StaleSession.

Inductive RegistryError := WorkerNotFound (id : Uuid) | ConnectionClosed.

Record WorkerRegistryInner := { workers : gmap Uuid WorkerEntry; next_session_id : N }.

Definition registry_new : WorkerRegistryInner := {| workers := ∅; next_session_id := 1 |}.

Definition set_workers f r := {| workers := f (workers r); next_session_id := next_session_id r |}.
Definition put_worker (id : Uuid) (e : WorkerEntry) : WorkerRegistryInner -> WorkerRegistryInner :=
  set_workers <[id := e]>.

(** [abort_unless_current]. *)
Definition abort_unless_current (current : option AbortHandle) (h : option AbortHandle) : list AbortHandle :=
  match h with
  | Some h => if bool_decide (current = Some h) then [] else [h]
  | None => []
  end.

(** The heartbeat interval of a fresh registration. *)
Definition initial_heartbeat_interval (c : WorkerCapabilities) : option Duration :=
  (fun m => recommended_keepalive_interval (live_status m) 0) <$> cap_mobile c.

(** ** Registration *)

(** The entry of a registration; [registered] is when the worker first registered
    and [cpu] its last telemetry, both kept on a rebind. *)
Definition registered_entry (now epoch : N) (id : Uuid) (session : N) (c : WorkerCapabilities)
    (features : ProtocolCapabilities) (addr : Str) (sender : ChannelId) (abort : option AbortHandle)
    (registered : N * N) (cpu : f32) : WorkerEntry := {|
  we_worker_id := id; we_session_id := session; we_capabilities := c; we_status := Connected;
  we_last_heartbeat_instant := now; we_last_heartbeat_timestamp := epoch;
  we_registered_at_instant := registered.1; we_registered_timestamp := registered.2;
  we_active_tasks := 0; we_reported_active_tasks := 0; we_remote_addr := addr; we_sender := sender;
  we_abort_handle := abort; we_cpu_usage_pct := cpu; we_ram_available_mb := cap_ram_mb c;
  we_rx_clock := None; we_consecutive_rejections := 0; we_excluded_until := None;
  we_heartbeat_interval := initial_heartbeat_interval c; we_features := features
|}.

Definition register_session (current : option AbortHandle) (now epoch : N) (id : Uuid) (c : WorkerCapabilities)
    (features : ProtocolCapabilities) (addr : Str) (sender : ChannelId) (abort : option AbortHandle)
    (r : WorkerRegistryInner) : Registration * list AbortHandle * WorkerRegistryInner :=
  let session := next_session_id r in
  let r := {| workers := workers r; next_session_id := session + 1 |} in
  match workers r !! id with
  | Some existing =>
      let superseded := if bool_decide (we_status existing = Disconnected) then None
                        else Some (we_session_id existing) in
      let e := registered_entry now epoch (we_worker_id existing) session c features addr sender abort
                 (we_registered_at_instant existing, we_registered_timestamp existing) (we_cpu_usage_pct existing) in
      ({| reg_session_id := session; reg_superseded_session := superseded |},
       abort_unless_current current (we_abort_handle existing), put_worker id e r)
  | None =>
      let e := registered_entry now epoch id session c features addr sender abort (now, epoch) (f32_of_N 0) in
      ({| reg_session_id := session; reg_superseded_session := None |}, [], put_worker id e r)
  end.

Definition register current now epoch id c addr sender abort r : N * list AbortHandle * WorkerRegistryInner :=
  let '(reg, aborted, r') := register_session current now epoch id c 0 addr sender abort r in
  (reg_session_id reg, aborted, r').

(** Field updates used by the methods below. *)
Definition upd_worker (e : WorkerEntry) (st : WorkerStatus) (act rep : N) (abort : option AbortHandle)
    (clock : option ClockId) (rej : N) (excl : option N) : WorkerEntry := {|
  we_worker_id := we_worker_id e; we_session_id := we_session_id e; we_capabilities := we_capabilities e;
  we_status := st; we_last_heartbeat_instant := we_last_heartbeat_instant e;
  we_last_heartbeat_timestamp := we_last_heartbeat_timestamp e;
  we_registered_at_instant := we_registered_at_instant e; we_registered_timestamp := we_registered_timestamp e;
  we_active_tasks := act; we_reported_active_tasks := rep; we_remote_addr := we_remote_addr e;
  we_sender := we_sender e; we_abort_handle := abort; we_cpu_usage_pct := we_cpu_usage_pct e;
  we_ram_available_mb := we_ram_available_mb e; we_rx_clock := clock; we_consecutive_rejections := rej;
  we_excluded_until := excl; we_heartbeat_interval := we_heartbeat_interval e; we_features := we_features e
|}.

Definition with_status (st : WorkerStatus) (act rep : N) (abort : option AbortHandle) (e : WorkerEntry) : WorkerEntry :=
  upd_worker e st act rep abort (we_rx_clock e) (we_consecutive_rejections e) (we_excluded_until e).

Definition set_rx_clock (id : Uuid) (session_id : N) (clock : ClockId) (r : WorkerRegistryInner) : WorkerRegistryInner :=
  match workers r !! id with
  | Some e =>
      if we_session_id e =? session_id
      then put_worker id (upd_worker e (we_status e) (we_active_tasks e) (we_reported_active_tasks e)
             (we_abort_handle e) (Some clock) (we_consecutive_rejections e) (we_excluded_until e)) r
      else r
  | None => r
  end.

(** [if let Some(expected) = expected_session { if entry.session_id != expected }]. *)
Definition stale (expected : option N) (e : WorkerEntry) : bool :=
  match expected with Some s => negb (we_session_id e =? s) | None => false end.

Definition to_disconnected (e : WorkerEntry) : WorkerEntry := with_status Disconnected 0 0 None e.

Definition unregister (current : option AbortHandle) (id : Uuid) (expected : option N) (r : WorkerRegistryInner)
    : bool * list AbortHandle * WorkerRegistryInner :=
  match workers r !! id with
  | Some e =>
      if stale expected e then (false, [], r)
      else if bool_decide (we_status e = Disconnected) then (false, [], r)
      else (true, abort_unless_current current (we_abort_handle e), put_worker id (to_disconnected e) r)
  | None => (false, [], r)
  end.

Definition mark_disconnected current id r := unregister current id None r.

Definition remove_worker (current : option AbortHandle) (id : Uuid) (r : WorkerRegistryInner)
    : option WorkerInfo * list AbortHandle * WorkerRegistryInner :=
  match workers r !! id with
  | Some e => (Some (entry_to_info e), abort_unless_current current (we_abort_handle e), set_workers (delete id) r)
  | None => (None, [], r)
  end.

(** A disconnected worker last heard of [stale_timeout] ago. *)
Definition prunable (now : N) (stale_timeout : Duration) (e : WorkerEntry) : bool :=
  bool_decide (we_status e = Disconnected) && (stale_timeout <=? now - we_last_heartbeat_instant e).

Definition prune_stale_workers (current : option AbortHandle) (now : N) (stale_timeout : Duration)
    (r : WorkerRegistryInner) : N * list AbortHandle * WorkerRegistryInner :=
  let gone := filter (fun '(_, e) => prunable now stale_timeout e = true) (workers r) in
  (N.of_nat (size gone),
   concat ((fun '(_, e) => abort_unless_current current (we_abort_handle e)) <$> map_to_list gone),
   set_workers (filter (fun '(_, e) => ~ prunable now stale_timeout e = true)) r).

Definition set_status (id : Uuid) (st : WorkerStatus) (expected : option N) (r : WorkerRegistryInner)
    : result RegistryError unit * WorkerRegistryInner :=
  match workers r !! id with
  | None => (Err (WorkerNotFound id), r)
  | Some e =>
      if stale expected e then (Ok tt, r)
      else (Ok tt, put_worker id (with_status st (we_active_tasks e) (we_reported_active_tasks e) (we_abort_handle e) e) r)
  end.

(** ** Heartbeats and telemetry *)

Definition set_telemetry (e : WorkerEntry) (now timestamp reported : N) (cpu : f32) (ram : N)
    (interval : option Duration) (c : WorkerCapabilities) (st : WorkerStatus) : WorkerEntry := {|
  we_worker_id := we_worker_id e; we_session_id := we_session_id e; we_capabilities := c;
  we_status := st; we_last_heartbeat_instant := now; we_last_heartbeat_timestamp := timestamp;
  we_registered_at_instant := we_registered_at_instant e; we_registered_timestamp := we_registered_timestamp e;
  we_active_tasks := we_active_tasks e; we_reported_active_tasks := reported; we_remote_addr := we_remote_addr e;
  we_sender := we_sender e; we_abort_handle := we_abort_handle e; we_cpu_usage_pct := cpu;
  we_ram_available_mb := ram; we_rx_clock := we_rx_clock e;
  we_consecutive_rejections := we_consecutive_rejections e; we_excluded_until := we_excluded_until e;
  we_heartbeat_interval := interval; we_features := we_features e
|}.

(** The interval a heartbeat leaves behind. *)
Definition heartbeat_interval_after (e : WorkerEntry) : option Duration :=
  match cap_mobile (we_capabilities e) with
  | None => we_heartbeat_interval e
  | Some mob =>
      let live := live_status mob in
      let is_cellular := match live_network_type live with Some net => is_cellular_network net | None => false end
        || match we_heartbeat_interval e with Some d => d <? from_secs 60 | None => false end in
      if is_cellular then Some (recommended_keepalive_interval live (we_active_tasks e))
      else match we_heartbeat_interval e with None => Some (from_secs 60) | Some d => Some d end
  end.

Definition record_heartbeat_session (now : N) (id : Uuid) (active_tasks timestamp : N) (cpu : f32) (ram : N)
    (expected : option N) (r : WorkerRegistryInner) : result RegistryError HeartbeatOutcome * WorkerRegistryInner :=
  match workers r !! id with
  | None => (Err (WorkerNotFound id), r)
  | Some e =>
      if stale expected e then (Ok StaleSession, r)
      else
        let revive := bool_decide (we_status e = Disconnected) && bool_decide (is_Some expected) in
        let visible := N.max (we_active_tasks e) active_tasks in
        let st := if negb (bool_decide (we_status e = Disconnected)) || revive
                  then if 0 <? visible then Busy else Connected
                  else we_status e in
        let e' := set_telemetry e now timestamp active_tasks cpu ram (heartbeat_interval_after e) (we_capabilities e) st in
        (Ok (if revive then Revived else Applied), put_worker id e' r)
  end.

Definition record_heartbeat now id active timestamp cpu ram expected r : result RegistryError unit * WorkerRegistryInner :=
  let '(o, r') := record_heartbeat_session now id active timestamp cpu ram expected r in (result_map (fun _ => tt) o, r').

Definition update_mobile_telemetry (id : Uuid) (expected : option N) (status : MobileLiveStatus) (r : WorkerRegistryInner)
    : result RegistryError bool * WorkerRegistryInner :=
  match workers r !! id with
  | None => (Err (WorkerNotFound id), r)
  | Some e =>
      if stale expected e then (Ok false, r)
      else
        let updated := match cap_mobile (we_capabilities e) with
          | Some current => with_live_status current status
          | None => {| mob_os_version := str "unknown"; mob_soc_model := str "unknown";
                       mob_battery_pct := live_battery_pct status; mob_is_charging := live_is_charging status;
                       mob_thermal_throttled := live_thermal_throttled status |}
          end in
        let changed := negb (bool_decide (cap_mobile (we_capabilities e) = Some updated)) in
        let e' := set_telemetry e (we_last_heartbeat_instant e) (we_last_heartbeat_timestamp e)
                    (we_reported_active_tasks e) (we_cpu_usage_pct e) (we_ram_available_mb e)
                    (Some (recommended_keepalive_interval status (we_active_tasks e)))
                    (set_mobile (Some updated) (we_capabilities e)) (we_status e) in
        (Ok changed, put_worker id e' r)
  end.

(** ** Dispatch slots *)

(** One more task; a connected worker becomes busy. *)
Definition add_active (e : WorkerEntry) : WorkerEntry :=
  with_status (if bool_decide (we_status e = Connected) then Busy else we_status e)
    (we_active_tasks e + 1) (we_reported_active_tasks e) (we_abort_handle e) e.

(** One task less; a busy worker without tasks becomes connected. *)
Definition drop_active (e : WorkerEntry) : WorkerEntry :=
  let active := we_active_tasks e - 1 in
  with_status (if bool_decide (we_status e = Busy) && (N.max active (we_reported_active_tasks e) =? 0)
               then Connected else we_status e)
    active (we_reported_active_tasks e) (we_abort_handle e) e.

Definition reserve_dispatch (id : Uuid) (session_id : N) (r : WorkerRegistryInner)
    : result RegistryError ChannelId * WorkerRegistryInner :=
  match workers r !! id with
  | None => (Err (WorkerNotFound id), r)
  | Some e =>
      if negb (we_session_id e =? session_id) || bool_decide (we_status e = Disconnected)
      then (Err ConnectionClosed, r)
      else (Ok (we_sender e), put_worker id (add_active e) r)
  end.

Definition release_dispatch (id : Uuid) (session_id : N) (r : WorkerRegistryInner) : WorkerRegistryInner :=
  match workers r !! id with
  | Some e => if we_session_id e =? session_id then put_worker id (drop_active e) r else r
  | None => r
  end.

Definition increment_active_tasks (id : Uuid) (r : WorkerRegistryInner) : result RegistryError N * WorkerRegistryInner :=
  match workers r !! id with
  | None => (Err (WorkerNotFound id), r)
  | Some e => (Ok (we_active_tasks e + 1), put_worker id (add_active e) r)
  end.

Definition decrement_active_tasks (id : Uuid) (r : WorkerRegistryInner) : result RegistryError N * WorkerRegistryInner :=
  match workers r !! id with
  | None => (Err (WorkerNotFound id), r)
  | Some e => (Ok (we_active_tasks e - 1), put_worker id (drop_active e) r)
  end.

(** ** Rejections *)

Definition rejection_cooldown (consecutive : N) : Duration :=
  let doublings := N.min (consecutive - 1) 16 in
  N.min (duration_mul REJECTION_COOLDOWN_BASE (N.shiftl 1 doublings)) REJECTION_COOLDOWN_MAX.

Definition with_rejections (n : N) (until : option N) (e : WorkerEntry) : WorkerEntry :=
  upd_worker e (we_status e) (we_active_tasks e) (we_reported_active_tasks e) (we_abort_handle e) (we_rx_clock e) n until.

Definition record_rejection (now : N) (id : Uuid) (expected : option N) (r : WorkerRegistryInner)
    : option Duration * WorkerRegistryInner :=
  match workers r !! id with
  | None => (None, r)
  | Some e =>
      if stale expected e then (None, r)
      else
        let n := saturating_add u32_max (we_consecutive_rejections e) 1 in
        let cooldown := rejection_cooldown n in
        (Some cooldown, put_worker id (with_rejections n (Some (now + cooldown)) e) r)
  end.

(** [q_read] is the registry under the read lock of the check. *)
Definition clear_rejections (id : Uuid) (r_read r : WorkerRegistryInner) : WorkerRegistryInner :=
  let has_streak := match workers r_read !! id with
    | Some e => (0 <? we_consecutive_rejections e) || bool_decide (is_Some (we_excluded_until e))
    | None => false
    end in
  if has_streak then
    match workers r !! id with
    | Some e => put_worker id (with_rejections 0 None e) r
    | None => r
    end
  else r.

Definition exclusion_remaining (now : N) (id : Uuid) (r : WorkerRegistryInner) : option Duration :=
  e ← workers r !! id; until ← we_excluded_until e;
  if now <=? until then Some (until - now) else None.

(** ** Listings: the entries of a snapshot, in the map's iteration order *)

Definition get_worker (id : Uuid) (r : WorkerRegistryInner) : option WorkerInfo := entry_to_info <$> workers r !! id.

Definition list_where (p : WorkerEntry -> bool) (r : WorkerRegistryInner) : list WorkerInfo :=
  entry_to_info <$> List.filter p (map_to_list (workers r)).*2.

Definition live_worker (e : WorkerEntry) : bool := negb (bool_decide (we_status e = Disconnected)).

Definition list_all_workers := list_where (fun _ => true).
Definition list_active_workers := list_where live_worker.
Definition list_schedulable_workers (now : N) :=
  list_where (fun e => live_worker e && negb (match we_excluded_until e with Some until => now <? until | None => false end)).
Definition list_available_workers := list_where (fun e => bool_decide (we_status e = Connected)).
Definition list_gpu_workers := list_where (fun e => live_worker e && can_execute_gpu (we_capabilities e)).
Definition list_non_gpu_workers := list_where (fun e => live_worker e && negb (can_execute_gpu (we_capabilities e))).
Definition find_eligible_workers (q : TaskRequirements) :=
  list_where (fun e => live_worker e && cap_satisfies (we_capabilities e) q).

Definition counts (r : WorkerRegistryInner) : N * N * N :=
  let count p := N.of_nat (length (List.filter p (map_to_list (workers r)).*2)) in
  (N.of_nat (size (workers r)), count live_worker, count (fun e => live_worker e && can_execute_gpu (we_capabilities e))).

(** The channel [send_to_worker] sends on. *)
Definition send_channel (id : Uuid) (r : WorkerRegistryInner) : result RegistryError ChannelId :=
  match workers r !! id with
  | None => Err (WorkerNotFound id)
  | Some e => if bool_decide (we_status e = Disconnected) then Err ConnectionClosed else Ok (we_sender e)
  end.

(** [broadcast]; [accepts c] is whether the send on channel [c] succeeds. *)
Definition broadcast (current : option AbortHandle) (accepts : ChannelId -> bool) (r : WorkerRegistryInner)
    : N * WorkerRegistryInner :=
  let senders := (fun '(id, e) => (id, we_sender e)) <$> List.filter (fun '(_, e) => live_worker e) (map_to_list (workers r)) in
  foldl (fun '(sent, r) '(id, c) =>
           if accepts c then (sent + 1, r) else (sent, (unregister current id None r).2)) (0, r) senders.

(** ** Reaping *)

(** [reap_stale_sessions]: phase 1 looks for candidates in [r_read] at [now1] under
    the read lock, phase 2 re-checks each in [r] at [now2] under the write lock. *)
Definition reap_candidate (clocks : Clocks) (now : N) (timeout : Duration) (e : WorkerEntry) : bool :=
  live_worker e && is_silent clocks e now timeout.

Definition reap_one (current : option AbortHandle) (clocks : Clocks) (now : N) (timeout : Duration) (id : Uuid)
    (r : WorkerRegistryInner) : option (Uuid * N) * list AbortHandle * WorkerRegistryInner :=
  match workers r !! id with
  | Some e =>
      if reap_candidate clocks now timeout e
      then (Some (id, we_session_id e), abort_unless_current current (we_abort_handle e), put_worker id (to_disconnected e) r)
      else (None, [], r)
  | None => (None, [], r)
  end.

Fixpoint reap_all (current : option AbortHandle) (clocks : Clocks) (now : N) (timeout : Duration) (ids : list Uuid)
    (r : WorkerRegistryInner) : list (Uuid * N) * list AbortHandle * WorkerRegistryInner :=
  match ids with
  | [] => ([], [], r)
  | id :: ids =>
      let '(o, a1, r1) := reap_one current clocks now timeout id r in
      let '(reaped, a2, r2) := reap_all current clocks now timeout ids r1 in
      (match o with Some x => x :: reaped | None => reaped end, a1 ++ a2, r2)
  end.

Definition reap_stale_sessions (current : option AbortHandle) (clocks1 clocks2 : Clocks) (now1 now2 : N)
    (timeout : Duration) (r_read r : WorkerRegistryInner) : list (Uuid * N) * list AbortHandle * WorkerRegistryInner :=
  let candidates := we_worker_id <$> List.filter (reap_candidate clocks1 now1 timeout) (map_to_list (workers r_read)).*2 in
  reap_all current clocks2 now2 timeout candidates r.

Definition reap_stale_workers current c1 c2 now1 now2 timeout r_read r : list Uuid :=
  (reap_stale_sessions current c1 c2 now1 now2 timeout r_read r).1.1.*1.
