(* ===== verification/RegistryProps.v ===== *)
(** * RegistryProps: what the worker registry guarantees *)

From S2P Require Import Prelude Collections RustStr Float Capabilities Placement Blob Task Registry.
Local Open Scope N_scope.

(** ** Runs *)

Inductive RegistryOp :=
| RegRegister (current : option AbortHandle) (now epoch : N) (id : Uuid) (c : WorkerCapabilities)
    (features : ProtocolCapabilities) (addr : Str) (sender : ChannelId) (abort : option AbortHandle)
| RegRxClock (id : Uuid) (session : N) (clock : ClockId)
| RegUnregister (current : option AbortHandle) (id : Uuid) (expected : option N)
| RegRemove (current : option AbortHandle) (id : Uuid)
| RegPrune (current : option AbortHandle) (now : N) (stale_timeout : Duration)
| RegHeartbeat (now : N) (id : Uuid) (active timestamp : N) (cpu : f32) (ram : N) (expected : option N)
| RegTelemetry (id : Uuid) (expected : option N) (status : MobileLiveStatus)
| RegReserve (id : Uuid) (session : N)
| RegRelease (id : Uuid) (session : N)
| RegIncrement (id : Uuid)
| RegDecrement (id : Uuid)
| RegReject (now : N) (id : Uuid) (expected : option N)
| RegClear (id : Uuid) (r_read : WorkerRegistryInner)
| RegReap (current : option AbortHandle) (clocks1 clocks2 : Clocks) (now1 now2 : N) (timeout : Duration)
    (r_read : WorkerRegistryInner).

(** The operations of the registry; [set_status], which the master never calls, is
    left out because it stores whatever status it is given. *)
Definition reg_run (op : RegistryOp) (r : WorkerRegistryInner) : WorkerRegistryInner :=
  match op with
  | RegRegister cur now epoch id c f addr s a => (register_session cur now epoch id c f addr s a r).2
  | RegRxClock id s c => set_rx_clock id s c r
  | RegUnregister cur id s => (unregister cur id s r).2
  | RegRemove cur id => (remove_worker cur id r).2
  | RegPrune cur now t => (prune_stale_workers cur now t r).2
  | RegHeartbeat now id a ts cpu ram s => (record_heartbeat_session now id a ts cpu ram s r).2
  | RegTelemetry id s st => (update_mobile_telemetry id s st r).2
  | RegReserve id s => (reserve_dispatch id s r).2
  | RegRelease id s => release_dispatch id s r
  | RegIncrement id => (increment_active_tasks id r).2
  | RegDecrement id => (decrement_active_tasks id r).2
  | RegReject now id s => (record_rejection now id s r).2
  | RegClear id r_read => clear_rejections id r_read r
  | RegReap cur c1 c2 n1 n2 t r_read => (reap_stale_sessions cur c1 c2 n1 n2 t r_read r).2
  end.

Inductive reg_reachable : WorkerRegistryInner -> Prop :=
| reg_init : reg_reachable registry_new
| reg_step r op : reg_reachable r -> reg_reachable (reg_run op r).

(** ** The invariant *)

Record worker_wf (next : N) (id : Uuid) (e : WorkerEntry) : Prop := {
  ww_id : we_worker_id e = id;
  ww_session : we_session_id e < next;
  ww_status : we_status e <> Disconnected -> (we_status e = Busy <-> 0 < visible_active_tasks e);
  ww_rejections : is_Some (we_excluded_until e) <-> 0 < we_consecutive_rejections e
}.

Record reg_inv (r : WorkerRegistryInner) : Prop := {
  ri_workers : forall id e, workers r !! id = Some e -> worker_wf (next_session_id r) id e;
  ri_sessions : forall id1 id2 e1 e2, workers r !! id1 = Some e1 -> workers r !! id2 = Some e2 ->
    we_session_id e1 = we_session_id e2 -> id1 = id2
}.

(** An entry replaced on the same session. *)
Lemma reg_inv_put r id e e' :
  reg_inv r -> workers r !! id = Some e -> we_session_id e' = we_session_id e ->
  (worker_wf (next_session_id r) id e -> worker_wf (next_session_id r) id e') -> reg_inv (put_worker id e' r).
Proof.
  intros [Hw Hs] He Hses Hwf. split; cbn.
  - intros id2 e2. destruct (decide (id2 = id)) as [->|].
    + rewrite lookup_insert_eq. intros [= <-]. auto.
    + rewrite lookup_insert_ne by done. apply Hw.
  - intros id1 id2 e1 e2. destruct (decide (id1 = id)) as [->|], (decide (id2 = id)) as [->|];
      rewrite ?lookup_insert_eq, ?lookup_insert_ne by done; [done| | |apply Hs].
    + intros [= <-] H2 Heq. eapply Hs; eauto. congruence.
    + intros H1 [= <-] Heq. eapply Hs; eauto. congruence.
Qed.

(** Fewer workers. *)
Lemma reg_inv_sub r (m : gmap Uuid WorkerEntry) :
  reg_inv r -> m ⊆ workers r -> reg_inv {| workers := m; next_session_id := next_session_id r |}.
Proof.
  intros [Hw Hs] Hsub. split; cbn.
  - intros id e He. apply Hw. by eapply lookup_weaken.
  - intros id1 id2 e1 e2 H1 H2. apply Hs; by eapply lookup_weaken.
Qed.

Lemma to_disconnected_wf next id e : worker_wf next id e -> worker_wf next id (to_disconnected e).
Proof. intros []. by split. Qed.

Lemma add_active_wf next id e : worker_wf next id e -> worker_wf next id (add_active e).
Proof.
  intros []. split; [done|done| |done]. unfold add_active, visible_active_tasks in *. cbn.
  intros Hd. case_bool_decide; [split; [lia|done]|]. split; [lia|]. intros _. by destruct (we_status e).
Qed.

Lemma drop_active_wf next id e : worker_wf next id e -> worker_wf next id (drop_active e).
Proof.
  intros []. split; [done|done| |done]. unfold drop_active, visible_active_tasks in *. cbn.
  intros Hd. case_bool_decide as Hb; cbn [andb] in *.
  - destruct (N.eqb_spec (N.max (we_active_tasks e - 1) (we_reported_active_tasks e)) 0); [split; [done|lia]|].
    rewrite Hb. split; [lia|done].
  - specialize (ww_status0 Hd). destruct (we_status e); try done. split; [done|]. intros.
    destruct ww_status0 as [_ Hx]. apply Hx. lia.
Qed.

Lemma with_rejections_wf next id e n until :
  worker_wf next id e -> (is_Some until <-> 0 < n) -> worker_wf next id (with_rejections n until e).
Proof. intros [] Hr. by split. Qed.

Lemma reap_one_inv cur c now t id r : reg_inv r -> reg_inv (reap_one cur c now t id r).2.
Proof.
  intros Hi. unfold reap_one. destruct (workers r !! id) as [e|] eqn:He; [|done].
  destruct (reap_candidate c now t e); [|done]. eapply reg_inv_put; [done|done|done|apply to_disconnected_wf].
Qed.

Lemma reap_all_inv cur c now t ids r : reg_inv r -> reg_inv (reap_all cur c now t ids r).2.
Proof.
  revert r. induction ids as [|id ids IH]; intros r Hi; cbn [reap_all]; [done|].
  pose proof (reap_one_inv cur c now t id r Hi) as H1. destruct (reap_one cur c now t id r) as [[o a1] r1].
  specialize (IH r1 H1). by destruct (reap_all cur c now t ids r1) as [[reaped a2] r2].
Qed.

Lemma register_inv cur now epoch id c f addr s a r : reg_inv r -> reg_inv (register_session cur now epoch id c f addr s a r).2.
Proof.
  intros [Hw Hs].
  assert (Hput : forall e reg cpu, e = registered_entry now epoch id (next_session_id r) c f addr s a reg cpu ->
    reg_inv {| workers := <[id := e]> (workers r); next_session_id := next_session_id r + 1 |}).
  { intros e reg cpu ->. split; cbn.
    - intros id2 e2. destruct (decide (id2 = id)) as [->|].
      + rewrite lookup_insert_eq. intros [= <-]. split; cbn; [done|lia| |].
        * unfold visible_active_tasks. cbn. intros _. split; [done|lia].
        * split; [by intros []|lia].
      + rewrite lookup_insert_ne by done. intros H2. destruct (Hw id2 e2 H2). split; [done|lia|done|done].
    - intros id1 id2 e1 e2. destruct (decide (id1 = id)) as [->|], (decide (id2 = id)) as [->|];
        rewrite ?lookup_insert_eq, ?lookup_insert_ne by done; [done| | |apply Hs].
      + intros [= <-] H2 Heq. cbn in Heq. destruct (Hw id2 e2 H2). lia.
      + intros H1 [= <-] Heq. cbn in Heq. destruct (Hw id1 e1 H1). lia. }
  unfold register_session. cbn [workers next_session_id].
  destruct (workers r !! id) as [e|] eqn:He; cbn [snd]; [|by eapply Hput].
  destruct (Hw id e He). rewrite ww_id0. by eapply Hput.
Qed.

Lemma heartbeat_inv now id a ts cpu ram s r : reg_inv r -> reg_inv (record_heartbeat_session now id a ts cpu ram s r).2.
Proof.
  intros Hi. unfold record_heartbeat_session. destruct (workers r !! id) as [e|] eqn:He; [|done].
  destruct (stale s e); [done|]. cbn [snd]. eapply reg_inv_put; [done|done|done|].
  intros []. split; [done|done| |done]. unfold visible_active_tasks in *. cbn.
  destruct (negb _ || _) eqn:Hl.
  - intros _. destruct (N.ltb_spec 0 (N.max (we_active_tasks e) a)); split; intros; try done; lia.
  - rewrite orb_false_iff, negb_false_iff, bool_decide_eq_true in Hl. by destruct Hl.
Qed.

Lemma reg_run_inv op r : reg_inv r -> reg_inv (reg_run op r).
Proof.
  intros Hi. destruct op; cbn [reg_run].
  - by apply register_inv.
  - unfold set_rx_clock. destruct (workers r !! id) as [e|] eqn:He; [|done]. destruct (_ =? _); [|done].
    eapply reg_inv_put; [done|done|done|]. intros []. by split.
  - unfold unregister. destruct (workers r !! id) as [e|] eqn:He; [|done]. destruct (stale expected e); [done|].
    case_bool_decide; [done|]. eapply reg_inv_put; [done|done|done|apply to_disconnected_wf].
  - unfold remove_worker. destruct (workers r !! id) as [e|]; [|done]. apply reg_inv_sub; [done|apply delete_subseteq].
  - apply reg_inv_sub; [done|apply map_filter_subseteq].
  - by apply heartbeat_inv.
  - unfold update_mobile_telemetry. destruct (workers r !! id) as [e|] eqn:He; [|done]. destruct (stale expected e); [done|].
    eapply reg_inv_put; [done|done|done|]. intros []. by split.
  - unfold reserve_dispatch. destruct (workers r !! id) as [e|] eqn:He; [|done]. destruct (_ || _); [done|].
    eapply reg_inv_put; [done|done|done|apply add_active_wf].
  - unfold release_dispatch. destruct (workers r !! id) as [e|] eqn:He; [|done]. destruct (_ =? _); [|done].
    eapply reg_inv_put; [done|done|done|apply drop_active_wf].
  - unfold increment_active_tasks. destruct (workers r !! id) as [e|] eqn:He; [|done].
    eapply reg_inv_put; [done|done|done|apply add_active_wf].
  - unfold decrement_active_tasks. destruct (workers r !! id) as [e|] eqn:He; [|done].
    eapply reg_inv_put; [done|done|done|apply drop_active_wf].
  - unfold record_rejection. destruct (workers r !! id) as [e|] eqn:He; [|done]. destruct (stale expected e); [done|].
    eapply reg_inv_put; [done|done|done|]. intros Hwf. apply with_rejections_wf; [done|].
    split; [intros _|by eauto]. unfold saturating_add, u32_max. lia.
  - unfold clear_rejections. set (b := match workers r_read !! id with Some _ => _ | None => _ end). destruct b; [|done].
    destruct (workers r !! id) as [e|] eqn:He; [|done]. eapply reg_inv_put; [done|done|done|].
    intros Hwf. apply with_rejections_wf; [done|]. split; [by intros []|lia].
  - by apply reap_all_inv.
Qed.

Lemma reg_reachable_inv r : reg_reachable r -> reg_inv r.
Proof. induction 1; [by split|by apply reg_run_inv]. Qed.

(** In every reachable registry each worker is stored under its own id with a
    session id that was really issued and that no other worker holds, a live worker
    is busy exactly when it has (or reports) tasks, and it is cooling down exactly
    when it has a rejection streak. *)
Theorem registry_invariant r : reg_reachable r -> reg_inv r.
Proof. apply reg_reachable_inv. Qed.

(** ** Sessions *)

(** C11 A superseded session is powerless: its unregister, heartbeat, telemetry,
    rejection, clock, reservation and release all leave the registry as it is. *)
Theorem stale_session_powerless r id e s cur now a ts cpu ram st clock :
  workers r !! id = Some e -> we_session_id e <> s ->
  unregister cur id (Some s) r = (false, [], r) /\
  record_heartbeat_session now id a ts cpu ram (Some s) r = (Ok StaleSession, r) /\
  update_mobile_telemetry id (Some s) st r = (Ok false, r) /\
  record_rejection now id (Some s) r = (None, r) /\
  set_rx_clock id s clock r = r /\
  reserve_dispatch id s r = (Err ConnectionClosed, r) /\
  release_dispatch id s r = r.
Proof.
  intros He Hs. unfold unregister, record_heartbeat_session, update_mobile_telemetry, record_rejection, set_rx_clock,
    reserve_dispatch, release_dispatch, stale. rewrite He. apply N.eqb_neq in Hs. by rewrite Hs.
Qed.

(** A registration gets a session id larger than any the registry holds, names
    the session it replaces exactly if that worker was still live, aborts the old
    connection (unless that is the caller), starts with an empty, connected, not
    excluded entry, and touches no other worker. *)
Theorem registration_supersedes r cur now epoch id c f addr s a :
  reg_reachable r ->
  let '(reg, aborted, r') := register_session cur now epoch id c f addr s a r in
  (forall id' e', workers r !! id' = Some e' -> we_session_id e' < reg_session_id reg) /\
  reg_superseded_session reg =
    match workers r !! id with
    | Some e => if bool_decide (we_status e = Disconnected) then None else Some (we_session_id e)
    | None => None
    end /\
  aborted = (match workers r !! id with Some e => abort_unless_current cur (we_abort_handle e) | None => [] end) /\
  (exists e', workers r' !! id = Some e' /\ we_session_id e' = reg_session_id reg /\ we_status e' = Connected /\
     we_active_tasks e' = 0 /\ we_capabilities e' = c /\ we_features e' = f /\ we_excluded_until e' = None) /\
  (forall id', id' <> id -> workers r' !! id' = workers r !! id').
Proof.
  intros Hr. destruct (reg_reachable_inv r Hr) as [Hw _].
  assert (Hlt : forall id' e', workers r !! id' = Some e' -> we_session_id e' < next_session_id r).
  { intros id' e' He'. by destruct (Hw id' e' He'). }
  unfold register_session. cbn [workers next_session_id].
  destruct (workers r !! id) as [e|] eqn:He; split_and!; try done.
  all: cbn; try (eexists; split; [apply lookup_insert_eq|done]); intros id' Hne; by apply lookup_insert_ne.
Qed.

(** ** Liveness *)

(** The window within which a heartbeat is expected. *)
Definition liveness_window (e : WorkerEntry) (timeout : Duration) : Duration :=
  match we_heartbeat_interval e with Some tau => calculate_master_dead_peer_window tau | None => timeout end.

(** A worker that sent a heartbeat within its window is never declared silent;
    past it, bytes received within the window keep it alive, but never for more
    than sixty windows; a negotiated window is at least two seconds. *)
Theorem silence_bounds clocks e now timeout :
  let w := liveness_window e timeout in
  let since := now - we_last_heartbeat_instant e in
  (since <= w -> is_silent clocks e now timeout = false) /\
  (w < since -> we_rx_clock e = None -> is_silent clocks e now timeout = true) /\
  (forall id clock, we_rx_clock e = Some id -> clocks !! id = Some clock ->
     w < since -> since <= duration_mul w 60 -> now - last_rx clock <= w -> is_silent clocks e now timeout = false) /\
  (w < since -> duration_mul w 60 < since -> is_silent clocks e now timeout = true) /\
  (is_Some (we_heartbeat_interval e) -> from_secs 2 <= w).
Proof.
  cbn zeta. unfold is_silent. fold (liveness_window e timeout).
  set (w := liveness_window e timeout). set (since := now - we_last_heartbeat_instant e).
  change RX_LIVENESS_CEILING_FACTOR with 60. split_and!.
  - intros Hle. by rewrite (proj2 (N.leb_le _ _) Hle).
  - intros Hlt ->. by rewrite (proj2 (N.leb_gt _ _) Hlt).
  - intros id clock -> Hc Hlt Hmul Hrx. rewrite (proj2 (N.leb_gt _ _) Hlt). cbn. rewrite Hc.
    by rewrite (proj2 (N.ltb_ge _ _) Hrx), (proj2 (N.ltb_ge _ _) Hmul).
  - intros Hlt Hmul. rewrite (proj2 (N.leb_gt _ _) Hlt), (proj2 (N.ltb_lt _ _) Hmul).
    destruct (_ ≫= _); [by rewrite orb_true_r|done].
  - intros [tau Htau]. subst w. unfold liveness_window, calculate_master_dead_peer_window. rewrite Htau. lia.
Qed.

Lemma reap_one_lookup cur c now t id r id' :
  workers (reap_one cur c now t id r).2 !! id' =
    match workers r !! id' with
    | Some e => if bool_decide (id' = id) && reap_candidate c now t e then Some (to_disconnected e) else Some e
    | None => None
    end.
Proof.
  unfold reap_one. destruct (workers r !! id) as [e|] eqn:He.
  - destruct (reap_candidate c now t e) eqn:Hc; cbn [snd].
    + cbn. destruct (decide (id' = id)) as [->|].
      * rewrite lookup_insert_eq, He, bool_decide_true, Hc by done. done.
      * rewrite lookup_insert_ne, bool_decide_false by done. by destruct (workers r !! id').
    + destruct (workers r !! id') as [e'|] eqn:He'; [|done]. case_bool_decide; [|done]. simplify_eq. by rewrite Hc.
  - cbn. destruct (workers r !! id') as [e'|] eqn:He'; [|done]. case_bool_decide; [|done]. congruence.
Qed.

Lemma to_disconnected_not_candidate c now t e : reap_candidate c now t (to_disconnected e) = false.
Proof. done. Qed.

Lemma reap_all_lookup cur c now t ids r id :
  workers (reap_all cur c now t ids r).2 !! id =
    match workers r !! id with
    | Some e => if bool_decide (id ∈ ids) && reap_candidate c now t e then Some (to_disconnected e) else Some e
    | None => None
    end.
Proof.
  revert r. induction ids as [|x ids IH]; intros r; cbn [reap_all].
  { cbn [snd]. rewrite bool_decide_false by set_solver. by destruct (workers r !! id). }
  pose proof (reap_one_lookup cur c now t x r id) as H1. destruct (reap_one cur c now t x r) as [[o a1] r1]. cbn [snd] in H1.
  specialize (IH r1). destruct (reap_all cur c now t ids r1) as [[reaped a2] r2]. cbn [snd] in *. rewrite IH, H1.
  destruct (workers r !! id) as [e|]; [|done]. destruct (reap_candidate c now t e) eqn:Hc.
  - rewrite !andb_true_r. destruct (decide (id = x)) as [->|Hne].
    + rewrite (bool_decide_true (x = x)), (bool_decide_true (x ∈ x :: ids)) by (done || left).
      by rewrite to_disconnected_not_candidate, andb_false_r.
    + rewrite (bool_decide_false (id = x)), Hc, andb_true_r by done.
      rewrite (bool_decide_ext (id ∈ x :: ids) (id ∈ ids)); [done|]. rewrite elem_of_cons. naive_solver.
  - by rewrite !andb_false_r, Hc, andb_false_r.
Qed.

Lemma reap_all_reaped cur c now t ids r id s :
  (id, s) ∈ (reap_all cur c now t ids r).1.1 <->
  id ∈ ids /\ exists e, workers r !! id = Some e /\ reap_candidate c now t e = true /\ s = we_session_id e.
Proof.
  revert r. induction ids as [|x ids IH]; intros r; cbn [reap_all]; [set_solver|].
  pose proof (reap_one_lookup cur c now t x r id) as H1.
  destruct (reap_one cur c now t x r) as [[o a1] r1] eqn:Hone. cbn [snd] in H1.
  specialize (IH r1). destruct (reap_all cur c now t ids r1) as [[reaped a2] r2]. cbn [fst] in *.
  assert (Ho : (match o with Some y => y :: reaped | None => reaped end) = match o with Some y => [y] | None => [] end ++ reaped)
    by (by destruct o).
  rewrite Ho, elem_of_app, IH, H1.
  assert (Hx : (id, s) ∈ (match o with Some y => [y] | None => [] end) <->
    id = x /\ exists e, workers r !! id = Some e /\ reap_candidate c now t e = true /\ s = we_session_id e).
  { unfold reap_one in Hone. destruct (workers r !! x) as [e|] eqn:He.
    - destruct (reap_candidate c now t e) eqn:Hc; simplify_eq.
      + rewrite list_elem_of_singleton. split.
        * intros [= -> ->]. split; [done|]. by exists e.
        * intros [-> (e' & He' & _ & ->)]. by simplify_eq.
      + split; [by intros ?%not_elem_of_nil|]. intros [-> (e' & He' & ? & _)]. simplify_eq. congruence.
    - simplify_eq. split; [by intros ?%not_elem_of_nil|]. intros [-> (e' & He' & _)]. congruence. }
  rewrite Hx, elem_of_cons. destruct (workers r !! id) as [e|]; [|naive_solver].
  destruct (decide (id = x)) as [->|Hne]; [|rewrite bool_decide_false by done; cbn [andb]; naive_solver].
  rewrite bool_decide_true by done. cbn [andb]. destruct (reap_candidate c now t e) eqn:Hc; [|naive_solver].
  split; [|naive_solver]. intros [[_ ?]|[Hin (e' & [= <-] & Hf & _)]]; [by split; [left|]|].
  by rewrite to_disconnected_not_candidate in Hf.
Qed.

(** The reaper reports exactly the candidates that are still live and silent
    when it holds the write lock (a heartbeat in between saves a worker), with the
    session they had; they are disconnected and own no task afterwards, and nobody
    else changes. *)
Theorem reap_exact cur c1 c2 now1 now2 timeout r_read r :
  let '(reaped, _, r') := reap_stale_sessions cur c1 c2 now1 now2 timeout r_read r in
  (forall id s, (id, s) ∈ reaped <->
     (exists e0, e0 ∈ (map_to_list (workers r_read)).*2 /\ reap_candidate c1 now1 timeout e0 = true /\ we_worker_id e0 = id) /\
     exists e, workers r !! id = Some e /\ reap_candidate c2 now2 timeout e = true /\ s = we_session_id e) /\
  (forall id e, workers r !! id = Some e ->
     workers r' !! id = Some (if bool_decide (id ∈ reaped.*1) then to_disconnected e else e)).
Proof.
  unfold reap_stale_sessions. set (ids := we_worker_id <$> _).
  pose proof (reap_all_lookup cur c2 now2 timeout ids r) as Hlk.
  pose proof (reap_all_reaped cur c2 now2 timeout ids r) as Hre.
  destruct (reap_all cur c2 now2 timeout ids r) as [[reaped aborted] r']. cbn [fst snd] in *. split.
  - intros id s. rewrite Hre. subst ids. rewrite list_elem_of_fmap. apply and_iff_compat_r.
    split; intros (e0 & H1 & H2).
    + apply list_elem_of_In, List.filter_In in H2 as [H2%list_elem_of_In ?]. by exists e0.
    + destruct H2 as [? <-]. exists e0. split; [done|]. by apply list_elem_of_In, List.filter_In; rewrite <-list_elem_of_In.
  - intros id e He. rewrite Hlk, He. f_equal.
    assert (Hiff : id ∈ reaped.*1 <-> id ∈ ids /\ reap_candidate c2 now2 timeout e = true).
    { rewrite list_elem_of_fmap. split.
      - intros ([id' s] & -> & Hin). apply Hre in Hin as (? & e' & He' & ? & _). cbn in *. by simplify_eq.
      - intros [Hin Hc]. exists (id, we_session_id e). split; [done|]. apply Hre. split; [done|]. by exists e. }
    rewrite (bool_decide_ext _ _ Hiff). destruct (reap_candidate c2 now2 timeout e).
    + rewrite andb_true_r, (bool_decide_ext (id ∈ ids /\ true = true) (id ∈ ids)) by naive_solver. by case_bool_decide.
    + by rewrite andb_false_r, bool_decide_false by naive_solver.
Qed.

(** ** Rejections *)

Lemma rejection_cooldown_bounds n : REJECTION_COOLDOWN_BASE <= rejection_cooldown n <= REJECTION_COOLDOWN_MAX.
Proof.
  unfold rejection_cooldown. split; [|lia]. apply N.min_glb; [|apply N.leb_le; vm_compute; reflexivity].
  unfold duration_mul, saturating_mul. apply N.min_glb; [|apply N.leb_le; vm_compute; reflexivity].
  rewrite <-(N.mul_1_r REJECTION_COOLDOWN_BASE) at 1. apply N.mul_le_mono_l.
  rewrite N.shiftl_1_l. pose proof (N.pow_nonzero 2 (N.min (n - 1) 16) ltac:(done)). lia.
Qed.

Lemma elem_of_list_where p r w : w ∈ list_where p r <-> exists id e, workers r !! id = Some e /\ p e = true /\ w = entry_to_info e.
Proof.
  unfold list_where. rewrite list_elem_of_fmap. split.
  - intros (e & -> & Hin). apply list_elem_of_In, List.filter_In in Hin as [Hin%list_elem_of_In Hp].
    apply list_elem_of_fmap in Hin as ([id e'] & -> & Hin). exists id, e'. by rewrite elem_of_map_to_list in Hin.
  - intros (id & e & He & Hp & ->). exists e. split; [done|]. apply list_elem_of_In, List.filter_In. split; [|done].
    apply list_elem_of_In, list_elem_of_fmap. exists (id, e). split; [done|]. by apply elem_of_map_to_list.
Qed.

(** A worker that hands a task back unrun is excluded from scheduling for five
    to sixty seconds, five doubling with each consecutive rejection; it stays
    registered, is not offered while the cooldown lasts, and is offered again right
    after if it is live. *)
Theorem rejection_excludes r now id e :
  reg_reachable r -> workers r !! id = Some e ->
  let n := saturating_add u32_max (we_consecutive_rejections e) 1 in
  exists r', record_rejection now id None r = (Some (rejection_cooldown n), r') /\
    from_secs 5 <= rejection_cooldown n <= from_secs 60 /\
    (n <= 4 -> rejection_cooldown n = from_secs 5 * 2 ^ (n - 1)) /\
    (forall t w, now <= t < now + rejection_cooldown n -> w ∈ list_schedulable_workers t r' -> wi_worker_id w <> id) /\
    (forall t, now + rejection_cooldown n <= t -> we_status e <> Disconnected ->
       exists w, w ∈ list_schedulable_workers t r' /\ wi_worker_id w = id).
Proof.
  intros Hr He n. pose proof (reg_run_inv (RegReject now id None) r (reg_reachable_inv r Hr)) as Hi'. cbn [reg_run] in Hi'.
  unfold record_rejection in *. rewrite He in *. cbn [stale snd] in *. fold n in Hi' |- *.
  set (e' := with_rejections _ _ e) in *. eexists. split; [reflexivity|].
  assert (He' : workers (put_worker id e' r) !! id = Some e') by apply lookup_insert_eq. split_and!.
  - apply rejection_cooldown_bounds.
  - apply rejection_cooldown_bounds.
  - intros Hn. assert (Hpos : 1 <= n) by (subst n; unfold saturating_add, u32_max; lia).
    assert (Hcases : n = 1 \/ n = 2 \/ n = 3 \/ n = 4) by lia. clearbody n.
    destruct Hcases as [->|[->|[->| ->]]]; reflexivity.
  - intros t w Ht Hin Hid. apply elem_of_list_where in Hin as (id2 & e2 & He2 & Hp & ->).
    pose proof (ww_id _ _ _ (ri_workers _ Hi' id2 e2 He2)) as Hid2. cbn in Hid. rewrite Hid in Hid2. subst id2.
    assert (e2 = e') as -> by congruence. unfold e' in Hp. cbn in Hp.
    rewrite (proj2 (N.ltb_lt t (now + rejection_cooldown n))) in Hp by lia. by rewrite andb_false_r in Hp.
  - intros t Ht Hlive. exists (entry_to_info e'). split.
    + apply elem_of_list_where. exists id, e'. split_and!; [done| |done]. unfold live_worker. cbn.
      rewrite bool_decide_false by done. cbn. by rewrite (proj2 (N.ltb_ge t (now + rejection_cooldown n))) by lia.
    + apply (ww_id _ _ _ (ri_workers _ (reg_reachable_inv r Hr) id e He)).
Qed.

(** ** Samples and a divergence *)

Definition sample_caps : WorkerCapabilities := {|
  cap_name := str "phone"; cap_cpu_cores := 4; cap_ram_mb := 4096; cap_has_gpu := false; cap_is_simulated_gpu := false;
  cap_gpu_device_name := None; cap_tags := []; cap_mobile := None; cap_has_blender := false;
  cap_blender_version := None; cap_vram_mb := None; cap_has_cuda := false
|}.

Definition sample_registry : WorkerRegistryInner :=
  reg_run (RegRegister None 100 1 70 sample_caps 0 (str "10.0.0.7:9") 1 (Some 11)) registry_new.

Lemma sample_registry_reachable : reg_reachable sample_registry.
Proof. apply reg_step, reg_init. Qed.

Definition sample_worker : WorkerEntry :=
  registered_entry 100 1 70 1 sample_caps 0 (str "10.0.0.7:9") 1 (Some 11) (100, 1) (f32_of_N 0).

Lemma sample_worker_entry : workers sample_registry !! 70 = Some sample_worker.
Proof. apply lookup_insert_eq. Qed.

(** A phone that reports a cellular network gets the 25 second interval (dead-peer
    window 100 s); its very next heartbeat puts it back to 60 seconds (window
    240 s), because the stored snapshot has no network type. *)
Theorem cellular_interval_forgotten :
  let status := {| live_battery_pct := Some 80; live_is_charging := Some false; live_thermal_throttled := false;
                   live_battery_temperature := None; live_network_type := Some (str "LTE");
                   live_battery_tier := None; live_thermal_tier := None |} in
  let r1 := reg_run (RegTelemetry 70 (Some 1) status) sample_registry in
  let r2 := reg_run (RegHeartbeat 200 70 0 2 (f32_of_N 0) 4096 (Some 1)) r1 in
  (we_heartbeat_interval <$> workers r1 !! 70) = Some (Some (from_secs 25)) /\
  (we_heartbeat_interval <$> workers r2 !! 70) = Some (Some (from_secs 60)).
Proof. vm_compute. split; reflexivity. Qed.

Theorem registry_invariant_witness : reg_inv sample_registry.
Proof. apply registry_invariant. apply sample_registry_reachable. Defined.

Theorem stale_session_powerless_witness :
  unregister None 70 (Some 9) sample_registry = (false, [], sample_registry).
Proof.
  apply (stale_session_powerless sample_registry 70 sample_worker 9 None 0 0 0 (f32_of_N 0) 0 (live_status
    {| mob_os_version := []; mob_soc_model := []; mob_battery_pct := None; mob_is_charging := None;
       mob_thermal_throttled := false |}) 0).
  - apply sample_worker_entry.
  - discriminate.
Defined.

Theorem registration_supersedes_witness :
  reg_superseded_session (register_session None 300 3 70 sample_caps 0 [] 2 None sample_registry).1.1 = Some 1 /\
  forall id', id' <> 70 ->
    workers (register_session None 300 3 70 sample_caps 0 [] 2 None sample_registry).2 !! id' = workers sample_registry !! id'.
Proof.
  pose proof (registration_supersedes sample_registry None 300 3 70 sample_caps 0 [] 2 None sample_registry_reachable) as Hs.
  split; [vm_compute; reflexivity|].
  destruct (register_session None 300 3 70 sample_caps 0 [] 2 None sample_registry) as [[reg aborted] r'].
  destruct Hs as (_ & _ & _ & _ & Hs). exact Hs.
Defined.

Theorem rejection_excludes_witness :
  exists r', record_rejection 500 70 None sample_registry = (Some (from_secs 5), r').
Proof.
  destruct (rejection_excludes sample_registry 500 70 sample_worker sample_registry_reachable sample_worker_entry)
    as (r' & Hr & _). exists r'. exact Hr.
Defined.
