(* ===== verification/Scheduler.v ===== *)
(** * Scheduler: the placement engine

    Models the pure part of [crates/master/src/scheduler.rs]: the configuration,
    the capacity of a worker, the [Engine] that places task views in queue order and
    [matchmake].  The scheduling pass over the live queue is in [Master].

    A worker is referred to by its index in the engine's seats, as in the source;
    slot and task counts are unbounded naturals.  [sort_by] followed by [\[0\]] is a
    stable insertion sort.  The message of a verdict is a constructor with the values
    the message prints. *)

From S2P Require Import Prelude Collections RustStr Float Capabilities Placement Blob Task Queue Registry.
Local Open Scope N_scope.

(** ** Configuration *)

Inductive SchedulingPolicy := LeastLoaded | WeightedLeastLoaded | RoundRobin.

#[global] Instance SchedulingPolicy_eq : EqDecision SchedulingPolicy.
Proof. solve_decision. Defined.

Definition policy_as_str (p : SchedulingPolicy) : Str :=
  match p with
  | WeightedLeastLoaded => str "weighted"
  | LeastLoaded => str "least-loaded"
  | RoundRobin => str "round-robin"
  end.

(** [FromStr]; the error carries the normalised text. *)
Definition policy_from_str (s : Str) : result Str SchedulingPolicy :=
  let t := replace_char (chr "_") (chr "-") (to_ascii_lowercase (trim s)) in
  if str_in t ["weighted"; "weighted-least-loaded"] then Ok WeightedLeastLoaded
  else if str_in t ["least-loaded"; "leastloaded"] then Ok LeastLoaded
  else if str_in t ["round-robin"; "roundrobin"; "rr"] then Ok RoundRobin
  else Err t.

Record SchedulerConfig := {
  sc_policy : SchedulingPolicy;
  sc_core_concurrency_multiplier : f64;
  sc_max_tasks_per_worker : option N;
  sc_preserve_gpu_for_gpu_tasks : bool;
  sc_gpu_reserved_slots : N;
  sc_gpu_demand_window : Duration;
  sc_fail_unfulfillable_tasks : bool;
  sc_mobile_min_battery_pct : N;
  sc_max_host_cpu_pct : f32;
  sc_min_vram_fast_mb : N;
  sc_min_vram_standard_mb : N;
  sc_min_vram_high_mb : N;
  sc_tick_interval : Duration;
  sc_micro_batch_window : Duration;
  sc_max_batch_size : N;
  sc_max_scan_per_pass : N
}.

Definition scheduler_config_default : SchedulerConfig := {|
  sc_policy := WeightedLeastLoaded;
  sc_core_concurrency_multiplier := f64_one;
  sc_max_tasks_per_worker := None;
  sc_preserve_gpu_for_gpu_tasks := true;
  sc_gpu_reserved_slots := 1;
  sc_gpu_demand_window := from_secs 30;
  sc_fail_unfulfillable_tasks := false;
  sc_mobile_min_battery_pct := 15;
  sc_max_host_cpu_pct := f32_of_N 85;
  sc_min_vram_fast_mb := 2048;
  sc_min_vram_standard_mb := 4096;
  sc_min_vram_high_mb := 6144;
  sc_tick_interval := from_millis 100;
  sc_micro_batch_window := from_millis 5;
  sc_max_batch_size := 128;
  sc_max_scan_per_pass := 20000
|}.

Definition cap_limit (cap : option N) (limit : N) : N :=
  match cap with Some cap => N.min limit cap | None => limit end.

Definition effective_max_concurrency (c : SchedulerConfig) (w : WorkerInfo) : N :=
  let cores := N.max (cap_cpu_cores (wi_capabilities w)) 1 in
  let by_multiplier := f64_ceil_as_usize (f64_mul (f64_of_N cores) (sc_core_concurrency_multiplier c)) in
  cap_limit (sc_max_tasks_per_worker c) (N.max by_multiplier 1).

Definition effective_max_tasks (c : SchedulerConfig) (w : WorkerInfo) : N :=
  cap_limit (sc_max_tasks_per_worker c)
    (match advertised_slots (wi_capabilities w) with
     | Some slots => slots
     | None => effective_max_concurrency c w
     end).

Definition engine_is_cpu_capable (e : Engine3D) : bool := negb (engine_requires_gpu e).

Definition required_vram_mb (c : SchedulerConfig) (t : Task) : N :=
  match task_spec t with
  | Generative3D spec =>
      if engine_is_cpu_capable (engine spec) then 0
      else if bool_decide (g3_quality spec = str "fast") then sc_min_vram_fast_mb c
      else if bool_decide (g3_quality spec = str "high") then sc_min_vram_high_mb c
      else sc_min_vram_standard_mb c
  | _ => 0
  end.

(** ** Reports *)

Record ScheduleAssignment := { sa_task_id : TaskId; sa_worker_id : Uuid; sa_session_id : N; sa_task : Task }.

(** The messages of [ClusterLacksCapability] and [unfulfillable]. *)
Inductive LackReason :=
| InvalidPlacement (e : PlacementError)
| LacksGpuWorkers
| LacksFeatures (names : Str)
| NoPlacementMatch (p : Placement).

Inductive ScheduleSkipReason :=
| NoEligibleWorkers
| NoGpuWorkersAvailable
| AllEligibleWorkersSaturated
| MobileThrottledOrLowBattery
| ClusterLacksCapability (reason : LackReason).

Record ScheduleReport := {
  sr_assignments : list ScheduleAssignment;
  sr_skipped : list (TaskId * ScheduleSkipReason);
  sr_unfulfillable : list (TaskId * LackReason)
}.

Definition report_default : ScheduleReport := {| sr_assignments := []; sr_skipped := []; sr_unfulfillable := [] |}.
Definition push_assignment (a : ScheduleAssignment) (r : ScheduleReport) : ScheduleReport :=
  {| sr_assignments := sr_assignments r ++ [a]; sr_skipped := sr_skipped r; sr_unfulfillable := sr_unfulfillable r |}.
Definition push_skipped (t : TaskId) (reason : ScheduleSkipReason) (r : ScheduleReport) : ScheduleReport :=
  {| sr_assignments := sr_assignments r; sr_skipped := sr_skipped r ++ [(t, reason)]; sr_unfulfillable := sr_unfulfillable r |}.
Definition push_unfulfillable (t : TaskId) (reason : LackReason) (r : ScheduleReport) : ScheduleReport :=
  {| sr_assignments := sr_assignments r; sr_skipped := sr_skipped r; sr_unfulfillable := sr_unfulfillable r ++ [(t, reason)] |}.

(** ** Shapes and static checks *)

Record Shape := {
  sh_requires_gpu : bool;
  sh_heavy : bool;
  sh_required_features : ProtocolCapabilities;
  sh_cpu_cores : N;
  sh_ram_mb : N;
  sh_placement : Placement
}.

#[global] Instance Shape_eq : EqDecision Shape.
Proof. solve_decision. Defined.

Definition shape_of (v : TaskView) (p : Placement) : Shape := {|
  sh_requires_gpu := tv_requires_gpu v;
  sh_heavy := tv_heavy v;
  sh_required_features := tv_required_features v;
  sh_cpu_cores := req_cpu_cores (tv_requirements v);
  sh_ram_mb := req_ram_mb (tv_requirements v);
  sh_placement := p
|}.

(** [names.join(" and ")]. *)
Definition feature_names (f : ProtocolCapabilities) : Str :=
  match features_contain f FILE_STAGING, features_contain f BLOB_TRANSFER with
  | true, true => str "FILE_STAGING and BLOB_TRANSFER"
  | true, false => str "FILE_STAGING"
  | false, true => str "BLOB_TRANSFER"
  | false, false => []
  end.

Definition statically_fits (r : TaskRequirements) (w : WorkerInfo) : bool :=
  ((req_cpu_cores r =? 0) || (req_cpu_cores r <=? cap_cpu_cores (wi_capabilities w)))
  && ((req_ram_mb r =? 0) || (req_ram_mb r <=? cap_ram_mb (wi_capabilities w))).

(** [Iterator::min_by_key]: the first of the least keys. *)
Fixpoint min_by_key {A} (key : A -> N * N) (l : list A) : option A :=
  match l with
  | [] => None
  | x :: l =>
      match min_by_key key l with
      | None => Some x
      | Some y =>
          let '(a, b) := key x in
          let '(c, d) := key y in
          if (a <? c) || ((a =? c) && (b <=? d)) then Some x else Some y
      end
  end.

(** Stable [sort_by]. *)
Fixpoint sort_insert {A} (cmp : A -> A -> comparison) (x : A) (l : list A) : list A :=
  match l with
  | [] => [x]
  | y :: l' => match cmp x y with Gt => y :: sort_insert cmp x l' | _ => x :: y :: l' end
  end.
Definition sort_by {A} (cmp : A -> A -> comparison) (l : list A) : list A := foldr (sort_insert cmp) [] l.

Definition bool_cmp (a b : bool) : comparison :=
  match a, b with false, true => Lt | true, false => Gt | _, _ => Eq end.

(** ** Seats *)

Record Seat := {
  seat_worker : WorkerInfo;
  seat_max_slots : N;
  seat_max_tasks : N;
  seat_base : AssignedLoad;
  seat_placed : AssignedLoad
}.

Definition used_slots (s : Seat) : N := al_slots (seat_base s) + al_slots (seat_placed s).
Definition seat_load (s : Seat) : N := al_tasks (seat_base s) + al_tasks (seat_placed s).
Definition remaining_slots (s : Seat) : N :=
  if seat_max_tasks s <=? seat_load s then 0 else seat_max_slots s - used_slots s.

(** [seat.placed] after one more task. *)
Definition seat_place (weight ram : N) (s : Seat) : Seat := {|
  seat_worker := seat_worker s; seat_max_slots := seat_max_slots s; seat_max_tasks := seat_max_tasks s;
  seat_base := seat_base s;
  seat_placed := {| al_tasks := al_tasks (seat_placed s) + 1;
                    al_slots := al_slots (seat_placed s) + weight;
                    al_unstarted_ram_mb := al_unstarted_ram_mb (seat_placed s) + ram |}
|}.

Definition seat_gpu (s : Seat) : bool := can_execute_gpu (wi_capabilities (seat_worker s)).
Definition real_gpu (s : Seat) : bool :=
  cap_has_gpu (wi_capabilities (seat_worker s)) && negb (cap_is_simulated_gpu (wi_capabilities (seat_worker s))).

Inductive Verdict :=
| Placed (idx : nat)
| Skip (reason : ScheduleSkipReason)
| Unfulfillable (reason : LackReason).

Record Engine := {
  en_config : SchedulerConfig;
  en_seats : list Seat;
  en_rr_cursor : N;
  en_gpu_waiting : bool;
  en_gpu_recent : bool;
  en_any_gpu_worker : bool;
  en_dead : list Shape;
  en_free_slots : N;
  en_reserved : list bool
}.

(** ** Mobile tiers *)

Definition has_tag (w : WorkerInfo) (names : list string) : bool :=
  existsb (fun t => str_in t names) (cap_tags (wi_capabilities w)).

Definition effective_scheduler_battery_tier (w : WorkerInfo) (m : MobileCapabilities) (live : MobileLiveStatus)
    : BatteryTier :=
  let raw := default (compute_battery_tier (live_battery_pct live) (live_is_charging live)) (live_battery_tier live) in
  if bool_decide (raw = BatCritical) then BatCritical
  else
    let os := to_ascii_lowercase (mob_os_version m) in
    let is_mobile_os := contains (str "android") os || contains (str "ios") os || has_tag w ["os:android"; "os:ios"] in
    let is_laptop_os := negb is_mobile_os
      && (starts_with (str "macos") os || starts_with (str "linux") os || starts_with (str "windows") os
          || has_tag w ["os:macos"; "os:windows"; "os:linux"]) in
    if is_laptop_os then BatNormal else raw.

(** The tiers of a worker with mobile telemetry, as [new] and [candidates] compute them. *)
Definition worker_tiers (w : WorkerInfo) (m : MobileCapabilities) : BatteryTier * ThermalTier :=
  let live := live_status m in
  (effective_scheduler_battery_tier w m live,
   default (compute_thermal_tier (live_battery_temperature live) (live_thermal_throttled live)) (live_thermal_tier live)).

Definition effective_tiers_concurrency (w : WorkerInfo) (m : MobileCapabilities) : N :=
  let '(bat, therm) := worker_tiers w m in
  calculate_effective_concurrency (cap_cpu_cores (wi_capabilities w)) bat therm.

Section uuid.
Context `{UuidApi}.

Definition placement_admits (p : Placement) (w : WorkerInfo) : bool :=
  placement_matches p (wi_worker_id w) (cap_name (wi_capabilities w)) (cap_tags (wi_capabilities w)).

Definition view_fits (v : TaskView) (w : WorkerInfo) : bool :=
  statically_fits (tv_requirements v) w
  && match tv_placement v with Ok p => placement_admits p w | Err _ => false end.

(** ** The engine *)

Definition new_seat (c : SchedulerConfig) (loads : option (gmap Uuid AssignedLoad)) (w : WorkerInfo) : Seat :=
  let base := match loads with
    | Some loads => default load_default (loads !! wi_worker_id w)
    | None => {| al_tasks := wi_active_tasks w; al_slots := wi_active_tasks w; al_unstarted_ram_mb := 0 |}
    end in
  let shed n := match cap_mobile (wi_capabilities w) with
    | Some m => N.min n (effective_tiers_concurrency w m)
    | None => n
    end in
  {| seat_worker := w; seat_max_slots := shed (effective_max_concurrency c w);
     seat_max_tasks := shed (effective_max_tasks c w); seat_base := base; seat_placed := load_default |}.

Definition sum_N (l : list N) : N := foldr N.add 0 l.

Definition seat_live (s : Seat) : bool := negb (bool_decide (wi_status (seat_worker s) = Disconnected)).

Definition engine_new (c : SchedulerConfig) (workers : list WorkerInfo) (loads : option (gmap Uuid AssignedLoad))
    (gpu_waiting gpu_recent : bool) : Engine :=
  let seats := new_seat c loads <$> workers in
  {| en_config := c; en_seats := seats; en_rr_cursor := 0;
     en_gpu_waiting := gpu_waiting; en_gpu_recent := gpu_recent || gpu_waiting;
     en_any_gpu_worker := existsb (fun w => can_execute_gpu (wi_capabilities w)) workers;
     en_dead := []; en_free_slots := sum_N (remaining_slots <$> List.filter seat_live seats);
     en_reserved := (fun _ => false) <$> seats |}.

(** [self.reserved\[idx\]]: the index is one of a seat, so it is in range. *)
Definition reserved_at (e : Engine) (idx : nat) : bool := default false (en_reserved e !! idx).

Definition weight_of (v : TaskView) : N := N.max (req_cpu_cores (tv_requirements v)) 1.

(** Stage 2: the free RAM check. *)
Definition ram_short (v : TaskView) (s : Seat) : bool :=
  let ram := req_ram_mb (tv_requirements v) in
  let available := wi_ram_available_mb (seat_worker s) in
  (0 <? ram) && (0 <? available)
  && (available - (al_unstarted_ram_mb (seat_base s) + al_unstarted_ram_mb (seat_placed s)) <? ram).

(** Stage 4: the environmental constraints that refuse the task. *)
Definition mobile_refuses (c : SchedulerConfig) (v : TaskView) (w : WorkerInfo) : bool :=
  let caps := wi_capabilities w in
  let wide := 1 <? req_cpu_cores (tv_requirements v) in
  let heavy := tv_heavy v in
  let is_thermal_throttled := has_tag w ["thermal_throttled"]
    || match cap_mobile caps with Some m => mob_thermal_throttled m | None => false end in
  let is_low_battery := has_tag w ["low_battery"]
    || match cap_mobile caps with
       | Some m => match mob_battery_pct m with Some pct => pct <? sc_mobile_min_battery_pct c | None => false end
                   && bool_decide (mob_is_charging m = Some false)
       | None => false
       end in
  if is_thermal_throttled && (wide || heavy) then true
  else if is_low_battery && heavy then true
  else match cap_mobile caps with
       | None => false
       | Some m =>
           let '(bat, therm) := worker_tiers w m in
           let is_charging := default false (live_is_charging (live_status m)) in
           if calculate_effective_concurrency (cap_cpu_cores caps) bat therm =? 0 then true
           else
             match bat with
             | BatCritical => true
             | BatSubLow => wide || heavy
             | BatLow => heavy
             | BatNormal => false
             end
             || match therm with
                | ThermCritical => true
                | ThermHot => wide || heavy
                | ThermWarm => heavy && negb is_charging
                | ThermNormal => false
                end
       end.

(** Stages 1 to 4 for one seat: everything but free slots. *)
Definition seat_eligible (e : Engine) (v : TaskView) (avoided : list Uuid) (idx : nat) (s : Seat) : bool :=
  let w := seat_worker s in
  if reserved_at e idx then false
  else if bool_decide (wi_status w = Disconnected) || bool_decide (wi_worker_id w ∈ avoided) then false
  else if negb (view_fits v w) then false
  else if f_gt (wi_cpu_usage_pct w) (sc_max_host_cpu_pct (en_config e)) then false
  else if ram_short v s then false
  else if tv_requires_gpu v && negb (can_execute_gpu (wi_capabilities w)) then false
  else if negb (features_contain (wi_features w) (tv_required_features v)) then false
  else negb (mobile_refuses (en_config e) v w).

(** Stage 5. *)
Definition saturated (weight : N) (s : Seat) : bool :=
  (seat_max_tasks s <=? seat_load s) || ((0 <? used_slots s) && (seat_max_slots s <? used_slots s + weight)).

(** The loop of [candidates]: the seats found and those that are full. *)
Fixpoint scan_seats (e : Engine) (v : TaskView) (avoided : list Uuid) (idx : nat) (seats : list Seat)
    : list nat * list nat :=
  match seats with
  | [] => ([], [])
  | s :: seats =>
      let '(found, full) := scan_seats e v avoided (S idx) seats in
      if seat_eligible e v avoided idx s then
        if saturated (weight_of v) s then (found, idx :: full) else (idx :: found, full)
      else (found, full)
  end.

(** A predicate on the seat an index of the engine names. *)
Definition at_seat (e : Engine) (p : Seat -> bool) (idx : nat) : bool :=
  match en_seats e !! idx with Some s => p s | None => false end.

(** Stage 6, the spill-over rule: what must stay free on a GPU worker. *)
Definition spill_ok (c : SchedulerConfig) (weight : N) (s : Seat) : bool :=
  if negb (seat_gpu s) then true
  else
    let reserve := N.min (N.min (sc_gpu_reserved_slots c) (seat_max_slots s - 1)) (seat_max_tasks s - 1) in
    (reserve <=? seat_max_slots s - (used_slots s + weight)) && (reserve <=? seat_max_tasks s - (seat_load s + 1)).

Definition preserve_gpu (e : Engine) (v : TaskView) (found : list nat) : list nat :=
  if negb (tv_requires_gpu v) && sc_preserve_gpu_for_gpu_tasks (en_config e) && (en_gpu_waiting e || en_gpu_recent e)
  then
    let cpu_only := at_seat e (fun s => negb (seat_gpu s)) in
    if en_gpu_waiting e && existsb cpu_only found then List.filter cpu_only found
    else List.filter (at_seat e (spill_ok (en_config e) (weight_of v))) found
  else found.

(** Stage 7. *)
Definition prefer_real_gpu (e : Engine) (v : TaskView) (found : list nat) : list nat :=
  if tv_requires_gpu v && existsb (at_seat e (fun s => real_gpu s && (used_slots s =? 0))) found
  then List.filter (at_seat e real_gpu) found
  else found.

Definition candidates (e : Engine) (v : TaskView) (avoided : list Uuid) : list nat * list nat :=
  let '(found, full) := scan_seats e v avoided 0 (en_seats e) in
  (prefer_real_gpu e v (preserve_gpu e v found), full).

Definition slots_to_free (weight : N) (s : Seat) : N :=
  if seat_max_slots s <? weight then used_slots s else used_slots s + weight - seat_max_slots s.

Definition set_slots (free : N) (reserved : list bool) (dead : list Shape) (e : Engine) : Engine := {|
  en_config := en_config e; en_seats := en_seats e; en_rr_cursor := en_rr_cursor e;
  en_gpu_waiting := en_gpu_waiting e; en_gpu_recent := en_gpu_recent e; en_any_gpu_worker := en_any_gpu_worker e;
  en_dead := dead; en_free_slots := free; en_reserved := reserved
|}.

Definition hold_back (full : list nat) (weight : N) (e : Engine) : Engine :=
  let key idx := match en_seats e !! idx with
    | Some s => (slots_to_free weight s, N.of_nat idx)
    | None => (0, N.of_nat idx)
    end in
  match min_by_key key full with
  | None => e
  | Some idx =>
      let left_over := match en_seats e !! idx with Some s => remaining_slots s | None => 0 end in
      set_slots (en_free_slots e - left_over) (<[idx := true]> (en_reserved e)) (en_dead e) e
  end.

(** ** Ranking *)

Definition gpu_pref (c : SchedulerConfig) (v : TaskView) (a b : Seat) : comparison :=
  if sc_preserve_gpu_for_gpu_tasks c && negb (tv_requires_gpu v) then bool_cmp (seat_gpu a) (seat_gpu b)
  else if tv_requires_gpu v then bool_cmp (real_gpu b) (real_gpu a)
  else Eq.

Definition seat_cores (s : Seat) : N := cap_cpu_cores (wi_capabilities (seat_worker s)).
Definition seat_id (s : Seat) : Uuid := wi_worker_id (seat_worker s).

Definition tie_break (c : SchedulerConfig) (v : TaskView) (a b : Seat) : comparison :=
  then_with (gpu_pref c v a b)
    (then_with (N.compare (seat_cores b) (seat_cores a)) (N.compare (seat_id a) (seat_id b))).

Definition load_ratio (s : Seat) : f64 :=
  f64_add (f64_div (f64_of_N (seat_load s)) (f64_of_N (N.max (seat_cores s) 1)))
    (f64_mul f64_half (f64_div (f64_of_f32 (f32_max0 (wi_cpu_usage_pct (seat_worker s)))) (f64_of_N 100))).

Definition least_loaded_cmp (c : SchedulerConfig) (v : TaskView) (a b : Seat) : comparison :=
  then_with (N.compare (seat_load a) (seat_load b)) (tie_break c v a b).

Definition weighted_cmp (c : SchedulerConfig) (v : TaskView) (a b : Seat) : comparison :=
  then_with (default Eq (f_partial_cmp (load_ratio a) (load_ratio b))) (tie_break c v a b).

(** A comparison of the seats two indices name. *)
Definition by_seat (e : Engine) (cmp : Seat -> Seat -> comparison) (i j : nat) : comparison :=
  match en_seats e !! i, en_seats e !! j with
  | Some a, Some b => cmp a b
  | _, _ => Eq
  end.

Definition set_rr (n : N) (e : Engine) : Engine := {|
  en_config := en_config e; en_seats := en_seats e; en_rr_cursor := n;
  en_gpu_waiting := en_gpu_waiting e; en_gpu_recent := en_gpu_recent e; en_any_gpu_worker := en_any_gpu_worker e;
  en_dead := en_dead e; en_free_slots := en_free_slots e; en_reserved := en_reserved e
|}.

Definition wrapping_succ (n : N) : N := (n + 1) mod 2 ^ 64.

(** [None] where the source would panic: an empty candidate list. *)
Definition rr_pick (e : Engine) (cands : list nat) : option nat :=
  match cands with
  | [] => None
  | _ => cands !! N.to_nat (en_rr_cursor e mod N.of_nat (length cands))
  end.

Definition rank (e : Engine) (v : TaskView) (cands : list nat) : option nat * Engine :=
  match sc_policy (en_config e) with
  | RoundRobin =>
      let real := List.filter (at_seat e real_gpu) cands in
      (rr_pick e (if tv_requires_gpu v && negb (is_empty real) then real else cands),
       set_rr (wrapping_succ (en_rr_cursor e)) e)
  | LeastLoaded => (head (sort_by (by_seat e (least_loaded_cmp (en_config e) v)) cands), e)
  | WeightedLeastLoaded => (head (sort_by (by_seat e (weighted_cmp (en_config e) v)) cands), e)
  end.

(** [engine.gpu_waiting = true; engine.gpu_recent = true]. *)
Definition note_gpu_waiting (e : Engine) : Engine := {|
  en_config := en_config e; en_seats := en_seats e; en_rr_cursor := en_rr_cursor e;
  en_gpu_waiting := true; en_gpu_recent := true; en_any_gpu_worker := en_any_gpu_worker e;
  en_dead := en_dead e; en_free_slots := en_free_slots e; en_reserved := en_reserved e
|}.

(** ** Placing one task *)

Definition put_on_seat (idx : nat) (s : Seat) (weight ram : N) (e : Engine) : Engine :=
  let s' := seat_place weight ram s in
  {| en_config := en_config e; en_seats := <[idx := s']> (en_seats e); en_rr_cursor := en_rr_cursor e;
     en_gpu_waiting := en_gpu_waiting e; en_gpu_recent := en_gpu_recent e; en_any_gpu_worker := en_any_gpu_worker e;
     en_dead := en_dead e; en_free_slots := en_free_slots e - (remaining_slots s - remaining_slots s');
     en_reserved := en_reserved e |}.

(** [None] marks a panic (an index out of range); [place_total] shows there is none. *)
Definition choose (v : TaskView) (cands : list nat) (e : Engine) : option Verdict * Engine :=
  let '(o, e1) := rank e v cands in
  match o with
  | None => (None, e1)
  | Some chosen =>
      match en_seats e1 !! chosen with
      | None => (None, e1)
      | Some s => (Some (Placed chosen), put_on_seat chosen s (weight_of v) (req_ram_mb (tv_requirements v)) e1)
      end
  end.

Definition nobody_has_features (e : Engine) (v : TaskView) : bool :=
  negb (tv_required_features v =? 0)
  && negb (existsb (fun s => features_contain (wi_features (seat_worker s)) (tv_required_features v)) (en_seats e)).

Definition nobody_matches (e : Engine) (p : Placement) : bool :=
  negb (placement_is_empty p) && negb (existsb (fun s => placement_admits p (seat_worker s)) (en_seats e)).

Definition skip_reason_of (e : Engine) (v : TaskView) (p : Placement) : ScheduleSkipReason :=
  if tv_requires_gpu v then NoGpuWorkersAvailable
  else if nobody_has_features e v then ClusterLacksCapability (LacksFeatures (feature_names (tv_required_features v)))
  else if nobody_matches e p then ClusterLacksCapability (NoPlacementMatch p)
  else AllEligibleWorkersSaturated.

(** The candidates, without the avoided workers if that leaves any. *)
Definition candidates_or_avoided (e : Engine) (v : TaskView) : list nat * list nat :=
  let '(cands, full) := candidates e v (tv_avoid v) in
  if is_empty cands && negb (is_empty (tv_avoid v)) then candidates e v [] else (cands, full).

Definition place (v : TaskView) (e : Engine) : option Verdict * Engine :=
  match tv_placement v with
  | Err err => (Some (Unfulfillable (InvalidPlacement err)), e)
  | Ok p =>
      let fail := sc_fail_unfulfillable_tasks (en_config e) in
      if tv_requires_gpu v && fail && negb (en_any_gpu_worker e) then (Some (Unfulfillable LacksGpuWorkers), e)
      else if nobody_has_features e v && fail then
        (Some (Unfulfillable (LacksFeatures (feature_names (tv_required_features v)))), e)
      else if nobody_matches e p && fail then (Some (Unfulfillable (NoPlacementMatch p)), e)
      else
        let skip := Some (Skip (skip_reason_of e v p)) in
        let shape := shape_of v p in
        if bool_decide (shape ∈ en_dead e) then (skip, e)
        else
          let '(cands, full) := candidates_or_avoided e v in
          if is_empty cands then
            let e1 := hold_back full (weight_of v) e in
            (skip, set_slots (en_free_slots e1) (en_reserved e1) (shape :: en_dead e1) e1)
          else choose v cands e
  end.

(** ** Matchmaking *)

(** [matchmake_with_avoid]'s view of a task. *)
Definition avoid_view (avoid : gmap TaskId (list Uuid)) (t : Task) : TaskView :=
  view_of t (default [] (avoid !! task_id t)).

Definition assignment_at (e : Engine) (idx : nat) (t : Task) : option ScheduleAssignment :=
  (fun s => {| sa_task_id := task_id t; sa_worker_id := wi_worker_id (seat_worker s);
               sa_session_id := wi_session_id (seat_worker s); sa_task := t |}) <$> en_seats e !! idx.

(** The loop over the tasks; [None] marks a panic. *)
Fixpoint matchmake_loop (avoid : gmap TaskId (list Uuid)) (tasks : list Task) (e : Engine) (r : ScheduleReport)
    : option (ScheduleReport * Engine) :=
  match tasks with
  | [] => Some (r, e)
  | t :: tasks =>
      let '(verdict, e1) := place (avoid_view avoid t) e in
      match verdict with
      | None => None
      | Some (Placed idx) => a ← assignment_at e1 idx t; matchmake_loop avoid tasks e1 (push_assignment a r)
      | Some (Skip reason) => matchmake_loop avoid tasks e1 (push_skipped (task_id t) reason r)
      | Some (Unfulfillable reason) => matchmake_loop avoid tasks e1 (push_unfulfillable (task_id t) reason r)
      end
  end.

Definition matchmake_with_avoid (c : SchedulerConfig) (tasks : list Task) (workers : list WorkerInfo)
    (avoid : gmap TaskId (list Uuid)) : option ScheduleReport :=
  if is_empty tasks || is_empty workers
  then Some (foldl (fun r t => push_skipped (task_id t) NoEligibleWorkers r) report_default tasks)
  else
    let gpu_waiting := existsb (fun t => tv_requires_gpu (avoid_view avoid t)) tasks in
    fst <$> matchmake_loop avoid tasks (engine_new c workers None gpu_waiting false) report_default.

Definition matchmake (c : SchedulerConfig) (tasks : list Task) (workers : list WorkerInfo) : option ScheduleReport :=
  matchmake_with_avoid c tasks workers ∅.

End uuid.
