(* ===== verification/SchedulerInv.v ===== *)
(** * SchedulerInv: the invariant of a scheduling pass

    What the candidate scan finds, the outcomes of one placement, the tightening
    order (a pass only takes options away, so an empty candidate list stays empty)
    and [engine_inv], the invariant of every engine a pass goes through. *)

From S2P Require Import Prelude Collections RustStr Float Capabilities Placement Blob Task Queue Registry Scheduler.
Local Open Scope N_scope.

Section uuid.
Context `{UuidApi}.
Implicit Types (e : Engine) (v : TaskView) (s : Seat).

(** ** The candidate scan *)

Lemma scan_seats_elem e v avoided : forall seats k i,
  (i ∈ (scan_seats e v avoided k seats).1 <->
     exists j s, i = (k + j)%nat /\ seats !! j = Some s /\ seat_eligible e v avoided i s = true /\ saturated (weight_of v) s = false) /\
  (i ∈ (scan_seats e v avoided k seats).2 <->
     exists j s, i = (k + j)%nat /\ seats !! j = Some s /\ seat_eligible e v avoided i s = true /\ saturated (weight_of v) s = true).
Proof.
  induction seats as [|s seats IH]; intros k i; cbn [scan_seats].
  { split; (split; [set_solver|]); intros (j & s & _ & Hj & _); by rewrite lookup_nil in Hj. }
  specialize (IH (S k) i). destruct (scan_seats e v avoided (S k) seats) as [found full]. cbn [fst snd] in IH. destruct IH as [IH1 IH2].
  assert (Hsplit : forall b, (exists j s', i = (k + j)%nat /\ (s :: seats) !! j = Some s' /\
             seat_eligible e v avoided i s' = true /\ saturated (weight_of v) s' = b) <->
           (i = k /\ seat_eligible e v avoided k s = true /\ saturated (weight_of v) s = b) \/
           (exists j s', i = (S k + j)%nat /\ seats !! j = Some s' /\
             seat_eligible e v avoided i s' = true /\ saturated (weight_of v) s' = b)).
  { intros b. split.
    - intros ([|j] & s' & -> & Hj & He & Hs).
      + left. cbn in Hj. injection Hj as ->. by rewrite Nat.add_0_r in *.
      + right. exists j, s'. split_and!; [lia|done..].
    - intros [(-> & He & Hs)|(j & s' & -> & Hj & He & Hs)].
      + exists 0%nat, s. rewrite Nat.add_0_r. done.
      + exists (S j), s'. split_and!; [lia|done..]. }
  rewrite (Hsplit false), (Hsplit true), <-IH1, <-IH2.
  destruct (seat_eligible e v avoided k s) eqn:He, (saturated (weight_of v) s) eqn:Hs; cbn [fst snd];
    rewrite ?elem_of_cons; naive_solver.
Qed.

(** The seats that can take the task now. *)
Definition seat_takes e v avoided (i : nat) : Prop :=
  exists s, en_seats e !! i = Some s /\ seat_eligible e v avoided i s = true /\ saturated (weight_of v) s = false.

(** The seats that could if they had free slots. *)
Definition seat_full e v avoided (i : nat) : Prop :=
  exists s, en_seats e !! i = Some s /\ seat_eligible e v avoided i s = true /\ saturated (weight_of v) s = true.

Lemma scan_found e v avoided i : i ∈ (scan_seats e v avoided 0 (en_seats e)).1 <-> seat_takes e v avoided i.
Proof.
  rewrite (proj1 (scan_seats_elem e v avoided (en_seats e) 0 i)). unfold seat_takes. cbn [Nat.add]. split.
  - intros (j & s & -> & Hs). by exists s.
  - intros (s & Hs). by exists i, s.
Qed.

Lemma scan_full e v avoided i : i ∈ (scan_seats e v avoided 0 (en_seats e)).2 <-> seat_full e v avoided i.
Proof.
  rewrite (proj2 (scan_seats_elem e v avoided (en_seats e) 0 i)). unfold seat_full. cbn [Nat.add]. split.
  - intros (j & s & -> & Hs). by exists s.
  - intros (s & Hs). by exists i, s.
Qed.

Lemma elem_of_bfilter {A} (p : A -> bool) l x : x ∈ List.filter p l <-> p x = true /\ x ∈ l.
Proof. rewrite !list_elem_of_In, List.filter_In. tauto. Qed.

Lemma preserve_gpu_sub e v found i : i ∈ preserve_gpu e v found -> i ∈ found.
Proof. unfold preserve_gpu. repeat case_match; rewrite ?elem_of_bfilter; tauto. Qed.

Lemma prefer_real_gpu_sub e v found i : i ∈ prefer_real_gpu e v found -> i ∈ found.
Proof. unfold prefer_real_gpu. case_match; rewrite ?elem_of_bfilter; tauto. Qed.

Lemma candidates_sound e v avoided i : i ∈ (candidates e v avoided).1 -> seat_takes e v avoided i.
Proof.
  rewrite <-scan_found. unfold candidates. destruct (scan_seats _ _ _ _ _) as [found full]. cbn [fst].
  intros Hi%prefer_real_gpu_sub%preserve_gpu_sub. done.
Qed.

Lemma candidates_full e v avoided i : i ∈ (candidates e v avoided).2 <-> seat_full e v avoided i.
Proof. rewrite <-scan_full. unfold candidates. by destruct (scan_seats _ _ _ _ _) as [found full]. Qed.

(** Stage 6 in one condition: whether any candidate survives it. *)
Definition spill_allows e v (i : nat) : bool :=
  negb (negb (tv_requires_gpu v) && sc_preserve_gpu_for_gpu_tasks (en_config e) && (en_gpu_waiting e || en_gpu_recent e))
  || at_seat e (spill_ok (en_config e) (weight_of v)) i.

Lemma is_empty_spec {A} (l : list A) : is_empty l = true <-> forall x, x ∉ l.
Proof.
  destruct l as [|x l]; cbn; split; try done; [set_solver|]. intros Hl. destruct (Hl x). apply list_elem_of_here.
Qed.

Lemma existsb_elem {A} (p : A -> bool) l : existsb p l = true <-> exists x, x ∈ l /\ p x = true.
Proof. rewrite List.existsb_exists. setoid_rewrite list_elem_of_In. done. Qed.

Lemma existsb_elem_false {A} (p : A -> bool) l : existsb p l = false <-> forall x, x ∈ l -> p x = false.
Proof.
  rewrite <-not_true_iff_false, existsb_elem. split.
  - intros Hn x Hx. apply not_true_iff_false. intros Hp. apply Hn. by exists x.
  - intros Hall (x & Hx & Hp). by rewrite (Hall x Hx) in Hp.
Qed.

Lemma prefer_real_gpu_empty e v found : is_empty (prefer_real_gpu e v found) = is_empty found.
Proof.
  unfold prefer_real_gpu. destruct (_ && _) eqn:Hb; [|done]. apply andb_true_iff in Hb as [_ (i & Hi & Hp)%existsb_elem].
  assert (Hreal : at_seat e real_gpu i = true).
  { unfold at_seat in *. destruct (en_seats e !! i); [|done]. by apply andb_true_iff in Hp as [? _]. }
  apply eq_bool_prop_intro. rewrite !Is_true_true, !is_empty_spec. split; intros Hx.
  - exfalso. apply (Hx i). by rewrite elem_of_bfilter.
  - by destruct (Hx i).
Qed.

Lemma preserve_gpu_empty e v found :
  (forall i, i ∈ found -> is_Some (en_seats e !! i)) ->
  is_empty (preserve_gpu e v found) = true <-> forall i, i ∈ found -> spill_allows e v i = false.
Proof.
  intros Hin. unfold preserve_gpu, spill_allows. destruct (negb _ && _ && _) eqn:Hc; cbn [negb orb].
  2:{ rewrite is_empty_spec. split; [intros Hx i Hi; by destruct (Hx i)|]. intros Hx i Hi. by specialize (Hx i Hi). }
  assert (Hcpu : forall i, at_seat e (fun s => negb (seat_gpu s)) i = true ->
                   at_seat e (spill_ok (en_config e) (weight_of v)) i = true).
  { intros i. unfold at_seat. destruct (en_seats e !! i); [|done]. unfold spill_ok. intros ->. done. }
  destruct (en_gpu_waiting e && existsb _ _) eqn:Hw; rewrite is_empty_spec; setoid_rewrite elem_of_bfilter.
  - apply andb_true_iff in Hw as [_ (i & Hi & Hp)%existsb_elem]. split; intros Hx.
    + by destruct (Hx i).
    + specialize (Hx i Hi). by rewrite (Hcpu i Hp) in Hx.
  - split; intros Hx i.
    + intros Hi. apply not_true_iff_false. intros Hs. by apply (Hx i).
    + intros [Hs Hi]. by rewrite (Hx i Hi) in Hs.
Qed.

Lemma candidates_empty e v avoided :
  is_empty (candidates e v avoided).1 = true <-> forall i, seat_takes e v avoided i -> spill_allows e v i = false.
Proof.
  unfold candidates. pose proof (scan_found e v avoided) as Hf. destruct (scan_seats _ _ _ _ _) as [found full]. cbn [fst] in *.
  rewrite prefer_real_gpu_empty, preserve_gpu_empty; [by setoid_rewrite Hf|].
  intros i (s & Hs & _)%Hf. by exists s.
Qed.

(** ** Ranking *)

Lemma sort_insert_perm {A} (cmp : A -> A -> comparison) x l : sort_insert cmp x l ≡ₚ x :: l.
Proof.
  induction l as [|y l IH]; cbn; [done|]. destruct (cmp x y); try done. rewrite IH. constructor.
Qed.

Lemma sort_by_perm {A} (cmp : A -> A -> comparison) l : sort_by cmp l ≡ₚ l.
Proof. induction l as [|x l IH]; [done|]. cbn. rewrite sort_insert_perm. by f_equiv. Qed.

Lemma sort_by_head {A} (cmp : A -> A -> comparison) l : l <> [] -> exists x, head (sort_by cmp l) = Some x /\ x ∈ l.
Proof.
  intros Hl. pose proof (sort_by_perm cmp l) as Hp. destruct (sort_by cmp l) as [|x l'] eqn:E.
  - by apply Permutation_nil_l in Hp.
  - exists x. split; [done|]. rewrite <-Hp. apply list_elem_of_here.
Qed.

Lemma rr_pick_in e cands : cands <> [] -> exists i, rr_pick e cands = Some i /\ i ∈ cands.
Proof.
  intros Hc. destruct (lookup_lt_is_Some_2 cands (N.to_nat (en_rr_cursor e mod N.of_nat (length cands)))) as [i Hi].
  { destruct cands; [done|]. pose proof (N.mod_lt (en_rr_cursor e) (N.of_nat (length (n :: cands)))). cbn [length] in *. lia. }
  exists i. split; [|by eapply list_elem_of_lookup_2]. unfold rr_pick. by destruct cands.
Qed.

Lemma rank_in e v cands : cands <> [] ->
  exists i n, rank e v cands = (Some i, set_rr n e) /\ i ∈ cands.
Proof.
  intros Hc. assert (Hself : set_rr (en_rr_cursor e) e = e) by (by destruct e).
  unfold rank. destruct (sc_policy (en_config e)).
  - destruct (sort_by_head (by_seat e (least_loaded_cmp (en_config e) v)) cands Hc) as (i & -> & Hi).
    exists i, (en_rr_cursor e). by rewrite Hself.
  - destruct (sort_by_head (by_seat e (weighted_cmp (en_config e) v)) cands Hc) as (i & -> & Hi).
    exists i, (en_rr_cursor e). by rewrite Hself.
  - set (l := if _ && _ then _ else _). assert (Hl : l <> [] /\ forall i, i ∈ l -> i ∈ cands).
    { unfold l. destruct (_ && _) eqn:Hb; [|done]. apply andb_true_iff in Hb as [_ Hb]. split.
      - intros E. by rewrite E in Hb.
      - intros i Hi. by apply elem_of_bfilter in Hi as [_ Hi]. }
    destruct (rr_pick_in e l (proj1 Hl)) as (i & -> & Hi). exists i, (wrapping_succ (en_rr_cursor e)).
    split; [done|]. by apply Hl.
Qed.

Lemma choose_spec e v cands : cands <> [] -> (forall i, i ∈ cands -> is_Some (en_seats e !! i)) ->
  exists i s n, i ∈ cands /\ en_seats e !! i = Some s /\
    choose v cands e = (Some (Placed i), put_on_seat i s (weight_of v) (req_ram_mb (tv_requirements v)) (set_rr n e)).
Proof.
  intros Hc Hin. destruct (rank_in e v cands Hc) as (i & n & Hr & Hi). destruct (Hin i Hi) as [s Hs].
  exists i, s, n. split_and!; [done..|]. unfold choose. rewrite Hr. cbn [en_seats set_rr]. by rewrite Hs.
Qed.

(** ** One placement *)

Lemma seat_takes_weaken e v av i : seat_takes e v av i -> seat_takes e v [] i.
Proof.
  intros (s & Hs & He & Hsat). exists s. split_and!; [done| |done]. unfold seat_eligible in *.
  repeat (case_match; try done). all: repeat case_bool_decide; cbn in *; congruence || set_solver.
Qed.

Lemma candidates_or_avoided_sound e v i : i ∈ (candidates_or_avoided e v).1 -> seat_takes e v [] i.
Proof.
  unfold candidates_or_avoided. destruct (candidates e v (tv_avoid v)) as [cands full] eqn:Hc.
  destruct (is_empty cands && _).
  - apply candidates_sound.
  - cbn [fst]. intros Hi. eapply seat_takes_weaken, candidates_sound. by rewrite Hc.
Qed.

(** When nothing is found the avoided workers were tried too, and [full] is from that scan. *)
Lemma candidates_or_avoided_empty e v :
  is_empty (candidates_or_avoided e v).1 = true ->
  is_empty (candidates e v []).1 = true /\ (candidates_or_avoided e v).2 = (candidates e v []).2.
Proof.
  unfold candidates_or_avoided. destruct (candidates e v (tv_avoid v)) as [cands full] eqn:Hc.
  destruct (is_empty cands) eqn:He; cbn [andb]; [|intros Hx; cbn in Hx; congruence].
  destruct (tv_avoid v) eqn:Ha; cbn [is_empty negb]; [|done]. by rewrite Hc.
Qed.

(** The outcomes of [place]. *)
Variant place_outcome v e : option Verdict * Engine -> Prop :=
| OutUnfulfillable reason : place_outcome v e (Some (Unfulfillable reason), e)
| OutDead p : tv_placement v = Ok p -> shape_of v p ∈ en_dead e ->
    place_outcome v e (Some (Skip (skip_reason_of e v p)), e)
| OutNone p : tv_placement v = Ok p -> is_empty (candidates e v []).1 = true ->
    let e1 := hold_back (candidates e v []).2 (weight_of v) e in
    place_outcome v e (Some (Skip (skip_reason_of e v p)),
                       set_slots (en_free_slots e1) (en_reserved e1) (shape_of v p :: en_dead e1) e1)
| OutPlaced p i s n : tv_placement v = Ok p -> seat_takes e v [] i -> en_seats e !! i = Some s ->
    place_outcome v e (Some (Placed i), put_on_seat i s (weight_of v) (req_ram_mb (tv_requirements v)) (set_rr n e)).

Lemma place_cases v e : place_outcome v e (place v e).
Proof.
  unfold place. destruct (tv_placement v) as [p|err] eqn:Hp; [|constructor].
  do 3 (case_match; [constructor|]). case_bool_decide as Hdead; [by constructor|].
  pose proof (candidates_or_avoided_empty e v) as Hempty. pose proof (candidates_or_avoided_sound e v) as Hsound.
  destruct (candidates_or_avoided e v) as [cands full]. cbn [fst snd] in *.
  destruct (is_empty cands) eqn:Hc.
  - destruct (Hempty eq_refl) as [Hnone ->]. by constructor.
  - assert (Hne : cands <> []) by (by intros ->).
    destruct (choose_spec e v cands Hne) as (i & s & n & Hi & Hs & ->).
    { intros i Hi. destruct (Hsound i Hi) as (s & Hs & _). by exists s. }
    econstructor; eauto.
Qed.

(** ** Tightening: what changes in a pass only takes options away *)

Record seat_grows (s s' : Seat) : Prop := {
  sg_worker : seat_worker s' = seat_worker s;
  sg_max_slots : seat_max_slots s' = seat_max_slots s;
  sg_max_tasks : seat_max_tasks s' = seat_max_tasks s;
  sg_base : seat_base s' = seat_base s;
  sg_tasks : al_tasks (seat_placed s) <= al_tasks (seat_placed s');
  sg_slots : al_slots (seat_placed s) <= al_slots (seat_placed s');
  sg_ram : al_unstarted_ram_mb (seat_placed s) <= al_unstarted_ram_mb (seat_placed s')
}.

Record tighter e e' : Prop := {
  ti_config : en_config e' = en_config e;
  ti_seats : Forall2 seat_grows (en_seats e) (en_seats e');
  ti_reserved : forall i, reserved_at e i = true -> reserved_at e' i = true;
  ti_demand : en_gpu_waiting e || en_gpu_recent e = true -> en_gpu_waiting e' || en_gpu_recent e' = true
}.

Lemma seat_grows_refl s : seat_grows s s.
Proof. split; done || lia. Qed.

Lemma seat_grows_list_refl l : Forall2 seat_grows l l.
Proof. induction l; constructor; [apply seat_grows_refl|done]. Qed.

Lemma seat_grows_list_trans l1 l2 l3 : Forall2 seat_grows l1 l2 -> Forall2 seat_grows l2 l3 -> Forall2 seat_grows l1 l3.
Proof.
  intros Ha. revert l3. induction Ha as [|s1 s2 l1 l2 H12 _ IH]; intros l3 Hb; inversion Hb; subst; constructor; [|auto].
  match goal with Hg : seat_grows s2 _ |- _ => destruct H12, Hg end. split; congruence || lia.
Qed.

Lemma saturated_mono weight s s' : seat_grows s s' -> saturated weight s' = false -> saturated weight s = false.
Proof.
  intros [Hw Hms Hmt Hb Ht Hsl _]. unfold saturated, seat_load, used_slots. rewrite Hms, Hmt, Hb.
  rewrite !orb_false_iff, !andb_false_iff, !N.leb_gt, !N.ltb_ge. lia.
Qed.

Lemma spill_ok_mono c weight s s' : seat_grows s s' -> spill_ok c weight s' = true -> spill_ok c weight s = true.
Proof.
  intros [Hw Hms Hmt Hb Ht Hsl _]. unfold spill_ok, seat_gpu, seat_load, used_slots. rewrite Hw, Hms, Hmt, Hb.
  case_match; [done|]. rewrite !andb_true_iff, !N.leb_le. lia.
Qed.

Lemma ram_short_mono v s s' : seat_grows s s' -> ram_short v s' = false -> ram_short v s = false.
Proof.
  intros [Hw Hms Hmt Hb Ht Hsl Hr]. unfold ram_short. rewrite Hw, Hb.
  destruct (0 <? req_ram_mb (tv_requirements v)), (0 <? wi_ram_available_mb (seat_worker s)); cbn; try done.
  rewrite !N.ltb_ge. lia.
Qed.

Lemma seat_eligible_mono e e' v av i s s' :
  tighter e e' -> seat_grows s s' -> seat_eligible e' v av i s' = true -> seat_eligible e v av i s = true.
Proof.
  intros Ht Hg. unfold seat_eligible. rewrite (ti_config _ _ Ht), (sg_worker _ _ Hg).
  destruct (reserved_at e' i) eqn:Hr'; [done|].
  destruct (reserved_at e i) eqn:Hr; [by rewrite (ti_reserved _ _ Ht i Hr) in Hr'|].
  repeat (case_match; [done|]).
  destruct (ram_short v s') eqn:Hram; [done|]. by rewrite (ram_short_mono v s s' Hg Hram).
Qed.

Lemma candidates_empty_mono e e' v av :
  tighter e e' -> is_empty (candidates e v av).1 = true -> is_empty (candidates e' v av).1 = true.
Proof.
  intros Ht. rewrite !candidates_empty. intros Hall i (s' & Hs' & He' & Hsat').
  destruct (Forall2_lookup_r _ _ _ _ _ (ti_seats _ _ Ht) Hs') as (s & Hs & Hg).
  specialize (Hall i). ospecialize (Hall _).
  { exists s. split_and!; [done|by eapply seat_eligible_mono|by eapply saturated_mono]. }
  unfold spill_allows, at_seat in *. rewrite Hs in Hall. rewrite Hs', (ti_config _ _ Ht).
  apply orb_false_iff in Hall as [Ha Hb]. apply negb_false_iff in Ha.
  apply andb_true_iff in Ha as [Ha Hd%(ti_demand _ _ Ht)]. rewrite Ha, Hd. cbn.
  destruct (spill_ok _ _ s') eqn:Hsp; [|done]. by rewrite (spill_ok_mono _ _ s s' Hg Hsp) in Hb.
Qed.

(** Two views of one shape have the same candidates. *)
Lemma candidates_empty_shape e v v' p :
  tv_placement v = Ok p -> tv_placement v' = Ok p -> shape_of v p = shape_of v' p ->
  is_empty (candidates e v []).1 = true -> is_empty (candidates e v' []).1 = true.
Proof.
  intros Hp Hp' [= Hgpu Hheavy Hfeat Hcpu Hram]. rewrite !candidates_empty. intros Hall i Hi.
  assert (Hw : weight_of v' = weight_of v) by (unfold weight_of; by rewrite Hcpu).
  assert (Hsame : forall s, seat_eligible e v' [] i s = seat_eligible e v [] i s).
  { intros s. unfold seat_eligible, view_fits, statically_fits, ram_short, mobile_refuses.
    by rewrite Hp, Hp', <-Hgpu, <-Hheavy, <-Hfeat, <-Hcpu, <-Hram. }
  unfold seat_takes in Hi. setoid_rewrite Hsame in Hi. rewrite Hw in Hi. specialize (Hall i Hi).
  unfold spill_allows in *. by rewrite Hw, <-Hgpu.
Qed.

(** ** The invariant of a pass *)

(** Slots still free on a seat that later tasks may use. *)
Definition open_slots_at (s : Seat) (reserved : bool) : N :=
  if seat_live s && negb reserved then remaining_slots s else 0.
Definition open_slots e : N := sum_N (zip_with open_slots_at (en_seats e) (en_reserved e)).

(** The books of a seat: untouched since the start of the pass, or within the
    worker's limits, except that an idle worker may have been given one task wider
    than its slot budget. *)
Record seat_ok (s : Seat) : Prop := {
  so_weights : al_tasks (seat_placed s) <= al_slots (seat_placed s);
  so_zero : seat_max_slots s = 0 -> seat_max_tasks s = 0;
  so_tasks : 0 < al_tasks (seat_placed s) -> seat_load s <= seat_max_tasks s;
  so_slots : 0 < al_tasks (seat_placed s) ->
    used_slots s <= seat_max_slots s \/ (al_slots (seat_base s) = 0 /\ al_tasks (seat_placed s) = 1);
  so_untouched : al_tasks (seat_placed s) = 0 -> al_slots (seat_placed s) = 0
}.

Record engine_inv (c : SchedulerConfig) (loads : option (gmap Uuid AssignedLoad)) (ws : list WorkerInfo) e : Prop := {
  ei_config : en_config e = c;
  ei_seats : Forall2 seat_grows (new_seat c loads <$> ws) (en_seats e);
  ei_ok : Forall seat_ok (en_seats e);
  ei_reserved : length (en_reserved e) = length (en_seats e);
  ei_any_gpu : en_any_gpu_worker e = existsb (fun w => can_execute_gpu (wi_capabilities w)) ws;
  ei_free : en_free_slots e = open_slots e;
  ei_dead : forall v p, tv_placement v = Ok p -> shape_of v p ∈ en_dead e -> is_empty (candidates e v []).1 = true
}.

Lemma sum_N_insert l i x y : l !! i = Some y -> sum_N (<[i := x]> l) + y = sum_N l + x.
Proof.
  revert i. induction l as [|z l IH]; intros [|i] Hi; try done; [cbn in *; injection Hi as ->; lia|].
  specialize (IH i Hi). change (z + sum_N (<[i := x]> l) + y = z + sum_N l + x). lia.
Qed.

Lemma max_slots_zero c loads w : seat_max_slots (new_seat c loads w) = 0 -> seat_max_tasks (new_seat c loads w) = 0.
Proof.
  cbn. unfold effective_max_concurrency, effective_max_tasks, cap_limit. repeat case_match; lia.
Qed.

Lemma engine_new_inv c loads ws waiting recent : engine_inv c loads ws (engine_new c ws loads waiting recent).
Proof.
  split; try done.
  - apply seat_grows_list_refl.
  - apply Forall_fmap, Forall_forall. intros w _. split; [done|apply max_slots_zero|by intros|by intros|done].
  - cbn. by rewrite length_fmap.
  - unfold open_slots. cbn [en_seats en_reserved en_free_slots engine_new]. induction (new_seat c loads <$> ws) as [|s l IH]; [done|].
    change (sum_N (remaining_slots <$> (if seat_live s then s :: List.filter seat_live l else List.filter seat_live l)) =
            open_slots_at s false + sum_N (zip_with open_slots_at l ((fun _ => false) <$> l))).
    rewrite <-IH. unfold open_slots_at. by destruct (seat_live s).
  - cbn. set_solver.
Qed.

Lemma seat_grows_place w r s : seat_grows s (seat_place w r s).
Proof. split; cbn; done || lia. Qed.

Lemma seat_ok_place w r s : 1 <= w -> saturated w s = false -> seat_ok s -> seat_ok (seat_place w r s).
Proof.
  unfold saturated. rewrite orb_false_iff, andb_false_iff, N.leb_gt, N.ltb_ge, N.ltb_ge. unfold seat_load, used_slots.
  intros Hw [Hload Hslots] [H1 H2 H3 H4 H5]. unfold seat_load, used_slots in *.
  split; unfold seat_load, used_slots; cbn in *; try lia.
Qed.

Lemma weight_pos v : 1 <= weight_of v.
Proof. unfold weight_of. lia. Qed.

Lemma put_on_seat_tighter i s n w r e :
  en_seats e !! i = Some s -> tighter e (put_on_seat i s w r (set_rr n e)).
Proof.
  intros Hs. split; cbn; try done. apply Forall2_same_length_lookup_2; [by rewrite length_insert|].
  intros j x y Hx Hy. destruct (decide (i = j)) as [<-|Hj].
  - rewrite list_lookup_insert_eq in Hy by (by eapply lookup_lt_Some). simplify_eq. apply seat_grows_place.
  - rewrite list_lookup_insert_ne in Hy by done. simplify_eq. apply seat_grows_refl.
Qed.

Lemma seat_takes_open e v av i s : seat_takes e v av i -> en_seats e !! i = Some s -> seat_live s = true /\ reserved_at e i = false.
Proof.
  intros (s' & Hs' & He & _) Hs. simplify_eq. unfold seat_eligible in He. unfold seat_live.
  destruct (reserved_at e i); [done|]. by case_bool_decide.
Qed.

Lemma reserved_lookup c loads ws e i s :
  engine_inv c loads ws e -> en_seats e !! i = Some s -> en_reserved e !! i = Some (reserved_at e i).
Proof.
  intros He Hs%lookup_lt_Some. rewrite <-(ei_reserved _ _ _ _ He) in Hs.
  destruct (lookup_lt_is_Some_2 _ _ Hs) as [b Hb]. unfold reserved_at. by rewrite Hb.
Qed.

Lemma remaining_slots_place w r s : remaining_slots (seat_place w r s) <= remaining_slots s.
Proof. unfold remaining_slots, seat_load, used_slots. cbn. repeat case_match; rewrite ?N.leb_le, ?N.leb_gt in *; lia. Qed.

Lemma put_on_seat_inv c loads ws e v i s n :
  engine_inv c loads ws e -> seat_takes e v [] i -> en_seats e !! i = Some s ->
  engine_inv c loads ws (put_on_seat i s (weight_of v) (req_ram_mb (tv_requirements v)) (set_rr n e)).
Proof.
  intros He Ht Hs. pose proof (put_on_seat_tighter i s n (weight_of v) (req_ram_mb (tv_requirements v)) e Hs) as Htight.
  destruct (seat_takes_open _ _ _ _ _ Ht Hs) as [Hlive Hres]. destruct Ht as (s0 & Hs0 & _ & Hsat). assert (s0 = s) as -> by congruence.
  pose proof (reserved_lookup _ _ _ _ _ _ He Hs) as Hr. rewrite Hres in Hr. destruct He as [H1 H2 H3 H4 H5 H6 H7].
  pose proof (Forall_lookup_1 _ _ _ _ H3 Hs) as Hok. split; try done.
  - eapply seat_grows_list_trans; [exact H2|apply (ti_seats _ _ Htight)].
  - apply Forall_insert; [done|]. apply seat_ok_place; [apply weight_pos|done..].
  - cbn. by rewrite length_insert.
  - cbn [en_free_slots put_on_seat set_rr open_slots en_seats en_reserved]. unfold open_slots in *. cbn [en_seats en_reserved put_on_seat set_rr].
    rewrite <-(list_insert_id (en_reserved e) i false Hr), <-insert_zip_with.
    assert (Hz : zip_with open_slots_at (en_seats e) (en_reserved e) !! i = Some (remaining_slots s)).
    { rewrite lookup_zip_with, Hs, Hr. cbn. unfold open_slots_at. by rewrite Hlive. }
    unfold open_slots_at at 1. change (seat_live (seat_place _ _ s)) with (seat_live s). rewrite Hlive. cbn [andb negb].
    pose proof (sum_N_insert _ _ (remaining_slots (seat_place (weight_of v) (req_ram_mb (tv_requirements v)) s)) _ Hz) as Hsum.
    pose proof (remaining_slots_place (weight_of v) (req_ram_mb (tv_requirements v)) s). lia.
  - intros v' p' Hp' Hd. cbn in Hd. eapply candidates_empty_mono; [exact Htight|]. by eapply H7.
Qed.

(** ** Holding back *)

Definition key_le (a b : N * N) : Prop := a.1 < b.1 \/ (a.1 = b.1 /\ a.2 <= b.2).

Lemma min_by_key_spec {A} (key : A -> N * N) l :
  match min_by_key key l with
  | None => l = []
  | Some x => x ∈ l /\ forall y, y ∈ l -> key_le (key x) (key y)
  end.
Proof.
  induction l as [|x l IH]; cbn; [done|]. destruct (min_by_key key l) as [y|].
  - destruct IH as [Hy Hmin]. destruct (key x) as [a b] eqn:Hx, (key y) as [c d] eqn:Hk.
    destruct ((a <? c) || _) eqn:Hb; (split; [set_solver|]); intros z [->|Hz]%elem_of_cons.
    + rewrite Hx. right. cbn. lia.
    + rewrite Hx. specialize (Hmin z Hz). destruct (key z) as [c' d'].
      rewrite orb_true_iff, andb_true_iff, N.ltb_lt, N.eqb_eq, N.leb_le in Hb. unfold key_le in *. cbn in *. lia.
    + rewrite Hx, Hk. rewrite orb_false_iff, andb_false_iff, N.ltb_ge, N.eqb_neq, N.leb_gt in Hb. unfold key_le. cbn. lia.
    + rewrite Hk. auto.
  - subst l. split; [set_solver|]. intros y ->%list_elem_of_singleton. right. lia.
Qed.

(** What holding back does, given the full seats of a scan. *)
Lemma hold_back_cases e full weight :
  (forall i, i ∈ full -> is_Some (en_seats e !! i)) ->
  (full = [] /\ hold_back full weight e = e) \/
  exists i s, i ∈ full /\ en_seats e !! i = Some s /\
    hold_back full weight e = set_slots (en_free_slots e - remaining_slots s) (<[i := true]> (en_reserved e)) (en_dead e) e /\
    forall j s', j ∈ full -> en_seats e !! j = Some s' -> slots_to_free weight s <= slots_to_free weight s'.
Proof.
  intros Hin. unfold hold_back. set (key := fun idx => match en_seats e !! idx with Some s => _ | None => _ end).
  pose proof (min_by_key_spec key full) as Hk. destruct (min_by_key key full) as [i|]; [|by left].
  destruct Hk as [Hi Hmin]. right. destruct (Hin i Hi) as [s Hs]. exists i, s. rewrite Hs. split_and!; try done.
  intros j s' Hj Hs'. specialize (Hmin j Hj). unfold key in Hmin. rewrite Hs, Hs' in Hmin. unfold key_le in Hmin. cbn in Hmin. lia.
Qed.

Lemma reserve_tighter e i free dead :
  tighter e (set_slots free (<[i := true]> (en_reserved e)) dead e).
Proof.
  split; try done; [apply seat_grows_list_refl|]. unfold reserved_at. cbn. intros j Hj.
  destruct (decide (i = j)) as [<-|Hne]; [|by rewrite list_lookup_insert_ne].
  destruct (en_reserved e !! i) eqn:E; [|done]. by rewrite list_lookup_insert_eq by (by eapply lookup_lt_Some).
Qed.

Lemma tighter_refl e : tighter e e.
Proof. split; try done. apply seat_grows_list_refl. Qed.

Lemma seat_full_open e v av i s : seat_full e v av i -> en_seats e !! i = Some s -> seat_live s = true /\ reserved_at e i = false.
Proof.
  intros (s' & Hs' & He & _) Hs. simplify_eq. unfold seat_eligible in He. unfold seat_live.
  destruct (reserved_at e i); [done|]. by case_bool_decide.
Qed.

(** The engine after a task found nobody. *)
Definition after_skip e v p : Engine :=
  let e1 := hold_back (candidates e v []).2 (weight_of v) e in
  set_slots (en_free_slots e1) (en_reserved e1) (shape_of v p :: en_dead e1) e1.

Lemma after_skip_cases e v p :
  ((forall i, ~ seat_full e v [] i) /\ after_skip e v p = set_slots (en_free_slots e) (en_reserved e) (shape_of v p :: en_dead e) e) \/
  exists i s, seat_full e v [] i /\ en_seats e !! i = Some s /\
    after_skip e v p = set_slots (en_free_slots e - remaining_slots s) (<[i := true]> (en_reserved e)) (shape_of v p :: en_dead e) e /\
    forall j s', seat_full e v [] j -> en_seats e !! j = Some s' -> slots_to_free (weight_of v) s <= slots_to_free (weight_of v) s'.
Proof.
  unfold after_skip. destruct (hold_back_cases e (candidates e v []).2 (weight_of v)) as [[Hf ->]|(i & s & Hi & Hs & -> & Hmin)].
  - intros i (s & Hs & _)%candidates_full. by exists s.
  - left. split; [|done]. intros i Hi%candidates_full. rewrite Hf in Hi. set_solver.
  - right. exists i, s. rewrite <-candidates_full. split_and!; try done. intros j s' Hj. apply Hmin. by apply candidates_full.
Qed.

Lemma after_skip_tighter e v p : tighter e (after_skip e v p).
Proof.
  destruct (after_skip_cases e v p) as [[_ ->]|(i & s & _ & _ & -> & _)]; [|apply reserve_tighter].
  split; try done. apply seat_grows_list_refl.
Qed.

Lemma after_skip_inv c loads ws e v p :
  engine_inv c loads ws e -> tv_placement v = Ok p -> is_empty (candidates e v []).1 = true ->
  engine_inv c loads ws (after_skip e v p).
Proof.
  intros He Hp Hnone. pose proof (after_skip_tighter e v p) as Ht.
  assert (Hdead : forall v' p', tv_placement v' = Ok p' -> shape_of v' p' ∈ shape_of v p :: en_dead e ->
            is_empty (candidates (after_skip e v p) v' []).1 = true).
  { intros v' p' Hp' [Heq|Hd]%elem_of_cons; eapply candidates_empty_mono; try exact Ht.
    - pose proof (f_equal sh_placement Heq) as Hpl. cbn in Hpl. subst p'. by eapply (candidates_empty_shape e v v').
    - by eapply ei_dead. }
  destruct (after_skip_cases e v p) as [[_ Heq]|(i & s & Hfull & Hs & Heq & _)]; rewrite Heq in *.
  - destruct He. by split.
  - destruct (seat_full_open _ _ _ _ _ Hfull Hs) as [Hlive Hres].
    pose proof (reserved_lookup _ _ _ _ _ _ He Hs) as Hr. rewrite Hres in Hr. destruct He as [H1 H2 H3 H4 H5 H6 H7].
    split; try done; [cbn; by rewrite length_insert|]. cbn [en_free_slots set_slots]. rewrite H6. unfold open_slots.
    cbn [en_seats en_reserved set_slots]. rewrite <-(list_insert_id (en_seats e) i s Hs) at 2. rewrite <-insert_zip_with.
    assert (Hz : zip_with open_slots_at (en_seats e) (en_reserved e) !! i = Some (remaining_slots s)).
    { rewrite lookup_zip_with, Hs, Hr. cbn. unfold open_slots_at. by rewrite Hlive. }
    pose proof (sum_N_insert _ _ (open_slots_at s true) _ Hz) as Hsum.
    assert (Hzero : open_slots_at s true = 0) by (unfold open_slots_at; by rewrite andb_false_r). lia.
Qed.

Lemma place_inv c loads ws v e : engine_inv c loads ws e -> engine_inv c loads ws (place v e).2.
Proof.
  intros He. destruct (place_cases v e) as [reason|p Hp Hd|p Hp Hnone|p i s n Hp Ht Hs]; cbn [snd]; try done.
  - by apply (after_skip_inv c loads ws e v p).
  - by apply put_on_seat_inv.
Qed.

(** ** Passes *)

(** The engines of a scheduling pass: the initial one with any round-robin cursor,
    after each placement, and after the pass notices waiting GPU work. *)
Inductive pass_reachable (c : SchedulerConfig) (loads : option (gmap Uuid AssignedLoad)) (ws : list WorkerInfo) : Engine -> Prop :=
| pass_start waiting recent n : pass_reachable c loads ws (set_rr n (engine_new c ws loads waiting recent))
| pass_place v e : pass_reachable c loads ws e -> pass_reachable c loads ws (place v e).2
| pass_gpu e : pass_reachable c loads ws e -> pass_reachable c loads ws (note_gpu_waiting e).

Lemma note_gpu_tighter e : tighter e (note_gpu_waiting e).
Proof. split; try done. apply seat_grows_list_refl. Qed.

Lemma pass_inv c loads ws e : pass_reachable c loads ws e -> engine_inv c loads ws e.
Proof.
  induction 1 as [waiting recent n|v e _ IH|e _ IH].
  - destruct (engine_new_inv c loads ws waiting recent) as [H1 H2 H3 H4 H5 H6 H7]. split; [exact H1|exact H2|exact H3|exact H4|exact H5|exact H6|cbn; set_solver].
  - by apply place_inv.
  - pose proof (note_gpu_tighter e) as Ht. destruct IH as [H1 H2 H3 H4 H5 H6 H7]. split; try done.
    intros v p Hp Hd. eapply candidates_empty_mono; [exact Ht|]. by eapply H7.
Qed.
End uuid.
