(* ===== verification/SchedulerProps.v ===== *)
(** * SchedulerProps: what the placement engine guarantees

    No verdict breaks a gate, the limits of a worker hold throughout a pass, the
    free-slot counter is the sum it stands for and stopping at zero loses nothing,
    the memo of dead shapes is sound, a worker is only held back for a task that
    needs it, and [matchmake] accounts for every task. *)

From S2P Require Import Prelude Collections RustStr Float FloatOrder Capabilities Placement Blob Task Queue Registry Scheduler SchedulerInv Samples.
Local Open Scope N_scope.

(** What a worker must be for a task to land on it. *)
Record may_run `{UuidApi} (c : SchedulerConfig) (v : TaskView) (w : WorkerInfo) : Prop := {
  mr_live : wi_status w <> Disconnected;
  mr_gpu : tv_requires_gpu v = true ->
    cap_has_gpu (wi_capabilities w) = true \/ cap_is_simulated_gpu (wi_capabilities w) = true;
  mr_cores : req_cpu_cores (tv_requirements v) <= cap_cpu_cores (wi_capabilities w);
  mr_ram : req_ram_mb (tv_requirements v) <= cap_ram_mb (wi_capabilities w);
  mr_placement : exists p, tv_placement v = Ok p /\
    placement_matches p (wi_worker_id w) (cap_name (wi_capabilities w)) (cap_tags (wi_capabilities w)) = true;
  mr_features : forall bit, N.testbit (tv_required_features v) bit = true -> N.testbit (wi_features w) bit = true;
  mr_cpu : f_gt (wi_cpu_usage_pct w) (sc_max_host_cpu_pct c) = false;
  mr_battery : forall m, cap_mobile (wi_capabilities w) = Some m ->
    compute_battery_tier (mob_battery_pct m) (mob_is_charging m) <> BatCritical;
  mr_throttled : forall m, cap_mobile (wi_capabilities w) = Some m -> mob_thermal_throttled m = true ->
    tv_heavy v = false /\ req_cpu_cores (tv_requirements v) <= 1
}.

Section uuid.
Context `{UuidApi}.
Implicit Types (e : Engine) (v : TaskView) (s : Seat).

Lemma mobile_refuses_battery c v w m :
  mobile_refuses c v w = false -> cap_mobile (wi_capabilities w) = Some m ->
  compute_battery_tier (mob_battery_pct m) (mob_is_charging m) <> BatCritical.
Proof.
  unfold mobile_refuses, worker_tiers, effective_scheduler_battery_tier. intros Hm Hc Hcrit. rewrite Hc in Hm.
  cbn [default live_status live_battery_pct live_is_charging live_battery_tier] in Hm. rewrite Hcrit in Hm.
  repeat (case_match; try done).
Qed.

Lemma mobile_refuses_throttled c v w m :
  mobile_refuses c v w = false -> cap_mobile (wi_capabilities w) = Some m -> mob_thermal_throttled m = true ->
  tv_heavy v = false /\ req_cpu_cores (tv_requirements v) <= 1.
Proof.
  unfold mobile_refuses. intros Hm Hc Ht. rewrite Hc, Ht, orb_true_r in Hm. cbn [andb] in Hm.
  destruct (1 <? _) eqn:Hwide; [done|]. destruct (tv_heavy v); [done|]. split; [done|]. by apply N.ltb_ge.
Qed.

Lemma seat_takes_may_run c loads ws e v i :
  engine_inv c loads ws e -> seat_takes e v [] i -> exists w, ws !! i = Some w /\ may_run c v w.
Proof.
  intros He (s & Hs & Hel & _). destruct (Forall2_lookup_r _ _ _ _ _ (ei_seats _ _ _ _ He) Hs) as (s0 & Hs0 & Hg).
  apply list_lookup_fmap_Some in Hs0 as (w & -> & Hw). exists w. split; [done|].
  unfold seat_eligible in Hel. rewrite (sg_worker _ _ Hg), (ei_config _ _ _ _ He) in Hel. cbn [seat_worker new_seat] in Hel.
  destruct (reserved_at e i); [done|].
  destruct (bool_decide (wi_status w = Disconnected) || _) eqn:H1; [done|]. apply orb_false_iff in H1 as [H1%bool_decide_eq_false _].
  destruct (negb (view_fits v w)) eqn:H2; [done|]. apply negb_false_iff, andb_true_iff in H2 as [Hfit Hpl].
  destruct (f_gt _ _) eqn:H3; [done|]. destruct (ram_short v s); [done|].
  destruct (tv_requires_gpu v && _) eqn:H4; [done|].
  destruct (negb (features_contain _ _)) eqn:H5; [done|]. apply negb_false_iff in H5. apply negb_true_iff in Hel.
  apply andb_true_iff in Hfit as [Hcpu Hram]. rewrite orb_true_iff, N.eqb_eq, N.leb_le in Hcpu, Hram. split; try done.
  - intros Hgpu. rewrite Hgpu in H4. cbn in H4. apply negb_false_iff in H4. unfold can_execute_gpu in H4. by apply orb_true_iff.
  - lia.
  - lia.
  - destruct (tv_placement v) as [p|]; [|done]. by exists p.
  - intros bit. by apply features_contain_bit.
  - intros m. by apply (mobile_refuses_battery c v).
  - intros m. by apply (mobile_refuses_throttled c).
Qed.

(** The outcome of a verdict [Placed]. *)
Lemma placed_inv v e i : (place v e).1 = Some (Placed i) ->
  exists s n, seat_takes e v [] i /\ en_seats e !! i = Some s /\
    (place v e).2 = put_on_seat i s (weight_of v) (req_ram_mb (tv_requirements v)) (set_rr n e).
Proof.
  destruct (place_cases v e) as [reason|p Hp Hd|p Hp Hnone|p j s n Hp Ht Hs]; cbn [fst snd]; intros [=]. subst j. by exists s, n.
Qed.

(** C6 Gating.  In any scheduling pass, a task is only ever placed on a live worker
    that has a GPU if the task needs one, enough cores and memory in total, the
    placement constraints of the task, every protocol feature it needs, a host CPU
    load within the configured bound, and, for a device with telemetry, a battery
    above critical; a thermally throttled device gets no heavy or multi-core task. *)
Theorem placement_respects_gates c loads ws e v i :
  pass_reachable c loads ws e -> (place v e).1 = Some (Placed i) ->
  exists w, ws !! i = Some w /\ may_run c v w.
Proof.
  intros Hr%pass_inv (s & n & Ht & _)%placed_inv. by eapply seat_takes_may_run.
Qed.


Lemma sum_N_zero l : sum_N l = 0 -> Forall (fun x => x = 0) l.
Proof. induction l as [|x l IH]; intros Hs; constructor; change (x + sum_N l = 0) in Hs; [lia|apply IH; lia]. Qed.

(** Stopping.  The engine's free-slot counter is exactly the sum of the free slots
    of the live workers that are not held back; when it is zero no task of any kind
    can be placed, so ending the pass there gives up nothing. *)
Theorem stop_rule_sound c loads ws e :
  pass_reachable c loads ws e ->
  en_free_slots e = open_slots e /\
  (en_free_slots e = 0 -> forall v i, (place v e).1 <> Some (Placed i)).
Proof.
  intros Hr%pass_inv. split; [apply (ei_free _ _ _ _ Hr)|]. intros Hzero v i (s & n & Ht & Hs & _)%placed_inv.
  rewrite (ei_free _ _ _ _ Hr) in Hzero. destruct (seat_takes_open _ _ _ _ _ Ht Hs) as [Hlive Hres].
  pose proof (reserved_lookup _ _ _ _ _ _ Hr Hs) as Hrl. rewrite Hres in Hrl.
  assert (Hz : open_slots_at s false = 0).
  { refine (Forall_lookup_1 _ _ i _ (sum_N_zero _ Hzero) _). by rewrite lookup_zip_with, Hs, Hrl. }
  pose proof (so_zero _ (Forall_lookup_1 _ _ _ _ (ei_ok _ _ _ _ Hr) Hs)) as Hmax.
  destruct Ht as (s0 & Hs0 & _ & Hsat). assert (s0 = s) as -> by congruence.
  unfold saturated in Hsat. unfold open_slots_at, remaining_slots in Hz. rewrite Hlive in Hz. cbn [andb negb] in Hz.
  rewrite orb_false_iff, andb_false_iff, N.leb_gt, !N.ltb_ge in Hsat. destruct Hsat as [Hlt Hsat].
  rewrite (proj2 (N.leb_gt _ _) Hlt) in Hz. pose proof (weight_pos v). lia.
Qed.

(** The memo of dead shapes.  A task skipped because an earlier task of the same
    shape found nobody would itself have found nobody, at that moment, on any worker
    and whatever its list of avoided workers. *)
Theorem dead_shape_sound c loads ws e v p :
  pass_reachable c loads ws e -> tv_placement v = Ok p -> shape_of v p ∈ en_dead e ->
  (candidates_or_avoided e v).1 = [].
Proof.
  intros Hr%pass_inv Hp Hd. pose proof (ei_dead _ _ _ _ Hr v p Hp Hd) as Hnone. rewrite candidates_empty in Hnone.
  assert (Hav : forall av, is_empty (candidates e v av).1 = true).
  { intros av. apply candidates_empty. intros i Hi. apply Hnone. by eapply seat_takes_weaken. }
  unfold candidates_or_avoided. destruct (candidates e v (tv_avoid v)) as [cands full] eqn:Hc.
  pose proof (Hav (tv_avoid v)) as Hempty. rewrite Hc in Hempty. cbn [fst] in Hempty. rewrite Hempty. cbn [andb].
  destruct (negb _); [specialize (Hav []); destruct (candidates e v []) as [cs f]|]; cbn in *; by destruct cs || destruct cands.
Qed.

(** Holding back.  A skip leaves every worker's load alone and withdraws at most
    one worker from the rest of the pass: one that passes every check for the task
    except free slots, and that needs no more slots to free up than any other such
    worker. *)
Theorem skip_holds_back_one v e reason e' :
  place v e = (Some (Skip reason), e') ->
  en_seats e' = en_seats e /\
  (en_reserved e' = en_reserved e \/
   exists i s, en_reserved e' = <[i := true]> (en_reserved e) /\ en_seats e !! i = Some s /\
     seat_eligible e v [] i s = true /\ saturated (weight_of v) s = true /\
     forall j s', seat_full e v [] j -> en_seats e !! j = Some s' -> slots_to_free (weight_of v) s <= slots_to_free (weight_of v) s').
Proof.
  intros Hpl. pose proof (place_cases v e) as Hc. rewrite Hpl in Hc.
  inversion Hc as [|p Hp Hd Hx|p Hp Hnone e1 Hx|]; subst; [by split; [|left]|].
  change (en_seats (after_skip e v p) = en_seats e /\
    (en_reserved (after_skip e v p) = en_reserved e \/
     exists i s, en_reserved (after_skip e v p) = <[i := true]> (en_reserved e) /\ en_seats e !! i = Some s /\
     seat_eligible e v [] i s = true /\ saturated (weight_of v) s = true /\
     forall j s', seat_full e v [] j -> en_seats e !! j = Some s' -> slots_to_free (weight_of v) s <= slots_to_free (weight_of v) s')).
  destruct (after_skip_cases e v p) as [[_ ->]|(i & s & (s0 & Hs0 & He & Hsat) & Hs & -> & Hmin)]; (split; [done|]); [by left|].
  assert (s0 = s) as -> by congruence. right. exists i, s. by split_and!.
Qed.

(** Work conservation.  A task is skipped only when no worker can take it: every
    worker that passes the checks and has room is a GPU worker whose last slots are
    kept for GPU work that is waiting or was seen recently, and the task needs none. *)
Theorem skip_means_nobody c loads ws e v reason :
  pass_reachable c loads ws e -> (place v e).1 = Some (Skip reason) ->
  forall i s, en_seats e !! i = Some s -> seat_eligible e v [] i s = true -> saturated (weight_of v) s = false ->
    tv_requires_gpu v = false /\ seat_gpu s = true /\ sc_preserve_gpu_for_gpu_tasks c = true /\
    en_gpu_waiting e || en_gpu_recent e = true /\ spill_ok c (weight_of v) s = false.
Proof.
  intros Hr%pass_inv Hv i s Hs Hel Hsat.
  assert (Hnone : is_empty (candidates e v []).1 = true).
  { destruct (place_cases v e) as [|p Hp Hd|p Hp Hnone|]; try done. by eapply ei_dead. }
  rewrite candidates_empty in Hnone. assert (Ht : seat_takes e v [] i) by (by exists s). specialize (Hnone i Ht).
  unfold spill_allows, at_seat in Hnone. rewrite Hs, (ei_config _ _ _ _ Hr) in Hnone.
  apply orb_false_iff in Hnone as [Ha Hb]. rewrite negb_false_iff, !andb_true_iff, negb_true_iff in Ha.
  destruct Ha as [[Ha1 Ha2] Ha3]. split_and!; try done. unfold spill_ok in Hb. by destruct (seat_gpu s).
Qed.

(** ** Matchmaking *)

Definition report_ids (r : ScheduleReport) : list TaskId :=
  (sa_task_id <$> sr_assignments r) ++ (sr_skipped r).*1 ++ (sr_unfulfillable r).*1.

(** An assignment of one of [tasks] to one of [ws] that may run it. *)
Definition sound_assignment (c : SchedulerConfig) (avoid : gmap TaskId (list Uuid)) (tasks : list Task) (ws : list WorkerInfo)
    (a : ScheduleAssignment) : Prop :=
  sa_task a ∈ tasks /\ sa_task_id a = task_id (sa_task a) /\
  exists w, w ∈ ws /\ sa_worker_id a = wi_worker_id w /\ sa_session_id a = wi_session_id w /\
    may_run c (avoid_view avoid (sa_task a)) w.

Lemma report_ids_assigned a r : report_ids (push_assignment a r) ≡ₚ sa_task_id a :: report_ids r.
Proof. unfold report_ids. cbn. rewrite fmap_app, <-app_assoc. cbn. by rewrite <-Permutation_middle. Qed.

Lemma report_ids_skipped t reason r : report_ids (push_skipped t reason r) ≡ₚ t :: report_ids r.
Proof.
  unfold report_ids. cbn. rewrite fmap_app, <-app_assoc. cbn. by rewrite <-!Permutation_middle.
Qed.

Lemma report_ids_unfulfillable t reason r : report_ids (push_unfulfillable t reason r) ≡ₚ t :: report_ids r.
Proof. unfold report_ids. cbn. rewrite fmap_app, !app_assoc, Permutation_app_comm. done. Qed.

Lemma placed_assignment c ws avoid t tasks e i :
  engine_inv c None ws e -> t ∈ tasks -> (place (avoid_view avoid t) e).1 = Some (Placed i) ->
  exists a, assignment_at (place (avoid_view avoid t) e).2 i t = Some a /\ sound_assignment c avoid tasks ws a /\ sa_task a = t.
Proof.
  intros He Ht Hp. destruct (placed_inv _ _ _ Hp) as (s & n & Htake & Hs & ->).
  destruct (seat_takes_may_run _ _ _ _ _ _ He Htake) as (w & Hw & Hrun).
  assert (Hsw : seat_worker s = w).
  { destruct (Forall2_lookup_r _ _ _ _ _ (ei_seats _ _ _ _ He) Hs) as (s0 & Hs0 & Hg).
    apply list_lookup_fmap_Some in Hs0 as (w' & -> & Hw'). rewrite (sg_worker _ _ Hg). cbn. congruence. }
  unfold assignment_at. cbn [en_seats put_on_seat set_rr].
  rewrite list_lookup_insert_eq by (by eapply lookup_lt_Some). eexists. split; [reflexivity|]. split; [|done].
  split_and!; [done..|]. exists w. cbn. rewrite Hsw. split_and!; try done. by eapply list_elem_of_lookup_2.
Qed.

Lemma matchmake_loop_accounts c ws avoid all : forall tasks e r,
  engine_inv c None ws e -> (forall t, t ∈ tasks -> t ∈ all) -> Forall (sound_assignment c avoid all ws) (sr_assignments r) ->
  exists r' e', matchmake_loop avoid tasks e r = Some (r', e') /\
    report_ids r' ≡ₚ report_ids r ++ (task_id <$> tasks) /\ Forall (sound_assignment c avoid all ws) (sr_assignments r').
Proof.
  induction tasks as [|t tasks IH]; intros e r He Hsub Hr; cbn [matchmake_loop].
  { exists r, e. cbn. by rewrite app_nil_r. }
  assert (Hsub' : forall t', t' ∈ tasks -> t' ∈ all) by set_solver.
  pose proof (place_inv c None ws (avoid_view avoid t) e He) as He'. pose proof (placed_assignment c ws avoid t all e) as Hass.
  assert (Htotal : is_Some (place (avoid_view avoid t) e).1) by (destruct (place_cases (avoid_view avoid t) e); by eexists).
  destruct (place (avoid_view avoid t) e) as [verdict e1]. cbn [fst snd] in *. destruct Htotal as [verd ->].
  cbn [fmap list_fmap]. change (task_id <$> t :: tasks) with (task_id t :: (task_id <$> tasks)).
  assert (Hstep : forall r1, report_ids r1 ≡ₚ task_id t :: report_ids r ->
            Forall (sound_assignment c avoid all ws) (sr_assignments r1) ->
            exists r' e', matchmake_loop avoid tasks e1 r1 = Some (r', e') /\
              report_ids r' ≡ₚ report_ids r ++ task_id t :: (task_id <$> tasks) /\
              Forall (sound_assignment c avoid all ws) (sr_assignments r')).
  { intros r1 Hids Hr1. destruct (IH e1 r1 He' Hsub' Hr1) as (r' & e' & -> & Hp & Hf). exists r', e'.
    split_and!; [done| |done]. rewrite Hp, Hids. cbn. by rewrite Permutation_middle. }
  destruct verd as [i|reason|reason].
  - destruct (Hass i He ltac:(set_solver) eq_refl) as (a & -> & Hsound & Ha). cbn. apply Hstep.
    + rewrite report_ids_assigned. destruct Hsound as (_ & -> & _). by rewrite Ha.
    + cbn. apply Forall_app. by split; [|constructor].
  - apply Hstep; [apply report_ids_skipped|done].
  - apply Hstep; [apply report_ids_unfulfillable|done].
Qed.

(** Matchmaking.  [matchmake_with_avoid] always returns; its report mentions every
    task exactly as often as it was given, as assigned, skipped or unfulfillable; and
    each assignment names the current session of a worker of the snapshot that may
    run the task. *)
Theorem matchmake_accounts c tasks ws avoid :
  exists r, matchmake_with_avoid c tasks ws avoid = Some r /\
    report_ids r ≡ₚ task_id <$> tasks /\ Forall (sound_assignment c avoid tasks ws) (sr_assignments r).
Proof.
  unfold matchmake_with_avoid. destruct (is_empty tasks || is_empty ws).
  - set (f := fun r t => push_skipped (task_id t) NoEligibleWorkers r). eexists. split; [reflexivity|].
    assert (Hf : forall l r, report_ids (foldl f r l) ≡ₚ report_ids r ++ (task_id <$> l) /\ sr_assignments (foldl f r l) = sr_assignments r).
    { induction l as [|t l IH]; intros r; cbn; [by rewrite app_nil_r|]. destruct (IH (f r t)) as [-> ->]. split; [|done].
      unfold f at 1. rewrite report_ids_skipped. cbn. by rewrite Permutation_middle. }
    destruct (Hf tasks report_default) as [-> ->]. split; [done|constructor].
  - destruct (matchmake_loop_accounts c ws avoid tasks tasks
      (engine_new c ws None (existsb (fun t => tv_requires_gpu (avoid_view avoid t)) tasks) false) report_default) as (r & e' & -> & Hp & Hf).
    + apply engine_new_inv.
    + done.
    + constructor.
    + exists r. by split_and!.
Qed.

(** ** Ranking *)

(** A worker's core count is a machine integer. *)
Definition machine_cores (s : Seat) : Prop := seat_cores s < 2 ^ 64.

Lemma load_ratio_not_nan s : machine_cores s -> load_ratio s <> SpecFloat.S754_nan.
Proof.
  intros Hm. apply nonneg_not_nan. unfold load_ratio.
  destruct (f64_of_N_finite (N.max (seat_cores s) 1)) as (m & ex & ->); [unfold machine_cores in Hm; lia|].
  destruct (f64_of_N_finite 100) as (m' & ex' & ->); [lia|].
  apply f64_add_nonneg; [apply f64_div_nonneg, f64_of_N_nonneg|].
  apply f64_mul_nonneg, f64_div_nonneg, f64_of_f32_max0_nonneg.
Qed.

Lemma bool_cmp_laws (P : bool -> Prop) : cmp_laws P bool_cmp.
Proof. split; [by intros [] []|]. by intros [] [] []. Qed.

Lemma gpu_pref_laws c v P : cmp_laws P (gpu_pref c v).
Proof.
  unfold gpu_pref. destruct (_ && _); [|destruct (tv_requires_gpu v)].
  - apply (cmp_laws_key _ (fun _ => True)); [done|apply bool_cmp_laws].
  - apply cmp_laws_flip. apply (cmp_laws_key _ (fun _ => True)); [done|apply bool_cmp_laws].
  - by split.
Qed.

Lemma tie_break_laws c v P : cmp_laws P (tie_break c v).
Proof.
  unfold tie_break. apply cmp_laws_then; [apply gpu_pref_laws|]. apply cmp_laws_then.
  - apply (cmp_laws_flip P (fun x y => N.compare (seat_cores x) (seat_cores y))), (cmp_laws_key _ (fun _ => True)); [done|apply cmp_laws_N].
  - apply (cmp_laws_key _ (fun _ => True)); [done|apply cmp_laws_N].
Qed.

Lemma least_loaded_laws c v P : cmp_laws P (least_loaded_cmp c v).
Proof.
  unfold least_loaded_cmp. apply cmp_laws_then; [|apply tie_break_laws].
  apply (cmp_laws_key _ (fun _ => True)); [done|apply cmp_laws_N].
Qed.

Lemma weighted_laws c v : cmp_laws machine_cores (weighted_cmp c v).
Proof.
  unfold weighted_cmp. apply cmp_laws_then; [|apply tie_break_laws].
  apply (cmp_laws_key machine_cores (fun x => x <> SpecFloat.S754_nan) load_ratio (fun x y => default Eq (f_partial_cmp x y))).
  - apply load_ratio_not_nan.
  - apply f_cmp_laws.
Qed.

(** The head of a sorted list is least. *)
Lemma sort_by_least {A} (P : A -> Prop) cmp l x : cmp_laws P cmp -> Forall P l ->
  head (sort_by cmp l) = Some x -> P x /\ forall y, y ∈ l -> cmp x y <> Gt.
Proof.
  intros Hl. revert x. induction l as [|a l IH]; intros x Hp; [done|]. apply Forall_cons in Hp as [Ha Hp]. cbn [sort_by foldr].
  fold (sort_by cmp l). pose proof (sort_by_perm cmp l) as Hperm.
  destruct (sort_by cmp l) as [|h m]; cbn [sort_insert head].
  { apply Permutation_nil_l in Hperm. subst l. intros [= ->]. split; [done|]. intros y ->%list_elem_of_singleton. by rewrite (cmp_laws_refl P). }
  destruct (IH h Hp eq_refl) as [Hh Hmin]. destruct (cmp a h) eqn:Hah; cbn; intros [= ->]; (split; [done|]);
    intros y [->|Hy]%elem_of_cons; try (by rewrite (cmp_laws_refl P)).
  - rewrite Forall_forall in Hp. apply (cl_trans _ _ Hl x h y); auto. congruence.
  - rewrite Forall_forall in Hp. apply (cl_trans _ _ Hl x h y); auto. congruence.
  - rewrite (cl_opp _ _ Hl a x) by done. by rewrite Hah.
  - auto.
Qed.

Lemma by_seat_laws e cmp (P : Seat -> Prop) : cmp_laws P cmp ->
  cmp_laws (fun i => exists s, en_seats e !! i = Some s /\ P s) (by_seat e cmp).
Proof.
  intros [Ho Ht]. unfold by_seat. split.
  - intros i j (s & -> & Hs) (s' & -> & Hs'). auto.
  - intros i j k (s1 & -> & Hs1) (s2 & -> & Hs2) (s3 & -> & Hs3). eauto.
Qed.

Lemma tie_break_id c v a b : tie_break c v a b = Eq -> seat_id a = seat_id b.
Proof. unfold tie_break. rewrite !then_with_eq. intros (_ & _ & Hid). by apply N.compare_eq_iff. Qed.

Lemma head_least e cmp P cands i : cmp_laws P cmp ->
  (forall j, j ∈ cands -> exists s, en_seats e !! j = Some s /\ P s) -> head (sort_by (by_seat e cmp) cands) = Some i ->
  exists si, en_seats e !! i = Some si /\ forall j sj, j ∈ cands -> en_seats e !! j = Some sj -> cmp si sj <> Gt.
Proof.
  intros Hl Hin Hh. apply Forall_forall in Hin.
  destruct (sort_by_least _ _ _ _ (by_seat_laws e cmp P Hl) Hin Hh) as [(si & Hsi & _) Hmin]. exists si. split; [done|].
  intros j sj Hj Hsj. specialize (Hmin j Hj). unfold by_seat in Hmin. by rewrite Hsi, Hsj in Hmin.
Qed.

(** Ranking.  Among the candidates the load-based policies pick the worker with
    the least load (the least floating-point load ratio, which is never NaN, for the
    weighted policy), with a strict preference over every other worker, so the choice
    does not depend on the sort or the order of the candidates; round robin takes the
    candidate the cursor points to (of the real-GPU ones for a GPU task, if any) and
    advances the cursor. *)
Theorem rank_picks_least e v cands i e' :
  (forall j, j ∈ cands -> exists s, en_seats e !! j = Some s /\ machine_cores s) ->
  (forall j k sj sk, en_seats e !! j = Some sj -> en_seats e !! k = Some sk -> seat_id sj = seat_id sk -> j = k) ->
  rank e v cands = (Some i, e') ->
  match sc_policy (en_config e) with
  | LeastLoaded => exists si, en_seats e !! i = Some si /\ forall j sj, j ∈ cands -> en_seats e !! j = Some sj ->
      seat_load si <= seat_load sj /\ (j <> i -> least_loaded_cmp (en_config e) v si sj = Lt)
  | WeightedLeastLoaded => exists si, en_seats e !! i = Some si /\ forall j sj, j ∈ cands -> en_seats e !! j = Some sj ->
      (f_partial_cmp (load_ratio si) (load_ratio sj) = Some Lt \/ f_partial_cmp (load_ratio si) (load_ratio sj) = Some Eq) /\
      (j <> i -> weighted_cmp (en_config e) v si sj = Lt)
  | RoundRobin =>
      let real := List.filter (at_seat e real_gpu) cands in
      let l := if tv_requires_gpu v && negb (is_empty real) then real else cands in
      l !! N.to_nat (en_rr_cursor e mod N.of_nat (length l)) = Some i /\ en_rr_cursor e' = (en_rr_cursor e + 1) mod 2 ^ 64
  end.
Proof.
  intros Hin Hids Hr. unfold rank in Hr. destruct (sc_policy (en_config e)); injection Hr as Hr <-.
  - destruct (head_least e _ machine_cores cands i (least_loaded_laws (en_config e) v machine_cores) Hin Hr) as (si & Hsi & Hmin).
    exists si. split; [done|]. intros j sj Hj Hsj. specialize (Hmin j sj Hj Hsj). unfold least_loaded_cmp in *.
    destruct (N.compare_spec (seat_load si) (seat_load sj)) as [Heq|Hlt|Hgt]; [|split; [lia|done]|done].
    split; [lia|]. intros Hne. cbn in *. destruct (tie_break _ _ _ _) eqn:Ht; [|done..].
    destruct Hne. symmetry. eapply Hids; [done..|]. by eapply tie_break_id.
  - destruct (head_least e _ machine_cores cands i (weighted_laws (en_config e) v) Hin Hr) as (si & Hsi & Hmin).
    exists si. split; [done|]. intros j sj Hj Hsj. specialize (Hmin j sj Hj Hsj). unfold weighted_cmp in Hmin |- *.
    assert (Hi : i ∈ cands).
    { destruct (sort_by_head (by_seat e (weighted_cmp (en_config e) v)) cands) as (i' & Hi' & Hin'); [by intros ->|].
      rewrite Hr in Hi'. by simplify_eq. }
    destruct (Hin i Hi) as (si' & Hsi' & Hmi). destruct (Hin j Hj) as (sj' & Hsj' & Hmj). simplify_eq.
    rewrite f_partial_cmp_key in Hmin |- * by (by apply load_ratio_not_nan). cbn [default] in Hmin |- *.
    destruct (key_cmp _ _) eqn:Hk; [|by split; [left|]|done]. split; [by right|]. intros Hne. cbn in *.
    destruct (tie_break _ _ _ _) eqn:Ht; [|done..]. destruct Hne. symmetry. eapply Hids; [done..|]. by eapply tie_break_id.
  - split; [|done]. revert Hr.
    generalize (if tv_requires_gpu v && negb (is_empty (List.filter (at_seat e real_gpu) cands))
                then List.filter (at_seat e real_gpu) cands else cands).
    intros l Hr. by destruct l.
Qed.
End uuid.

(** ** A cluster of two: a phone and a GPU workstation *)

Definition sample_info (id : Uuid) (gpu : bool) (m : option MobileCapabilities) : WorkerInfo := {|
  wi_worker_id := id; wi_session_id := 7;
  wi_capabilities := {| cap_name := str "node"; cap_cpu_cores := 4; cap_ram_mb := 4096; cap_has_gpu := gpu;
    cap_is_simulated_gpu := false; cap_gpu_device_name := None; cap_tags := []; cap_mobile := m;
    cap_has_blender := false; cap_blender_version := None; cap_vram_mb := None; cap_has_cuda := gpu |};
  wi_status := Connected; wi_last_heartbeat_timestamp := 0; wi_registered_timestamp := 0; wi_active_tasks := 0;
  wi_remote_addr := []; wi_cpu_usage_pct := f32_of_N 20; wi_ram_available_mb := 4096; wi_features := 0
|}.

Definition sample_phone : WorkerInfo := sample_info 70 false (Some {| mob_os_version := str "Android 14"; mob_soc_model := [];
  mob_battery_pct := Some 40; mob_is_charging := Some false; mob_thermal_throttled := false |}).
Definition sample_cluster : list WorkerInfo := [sample_phone; sample_info 80 true None].
Definition sample_view : TaskView := view_of (sample_task 1) [].
Definition sample_engine : Engine := set_rr 0 (engine_new scheduler_config_default sample_cluster None false false).

(** A task that asks for four cores and a GPU. *)
Definition gpu_view (cores : N) : TaskView := {|
  tv_task_id := 9; tv_requirements := {| req_cpu_cores := cores; req_ram_mb := 512; req_gpu_required := true;
    req_timeout_secs := 60; req_max_retries := None |};
  tv_requires_gpu := true; tv_heavy := true; tv_required_features := 0; tv_avoid := []; tv_placement := Ok placement_default
|}.

Lemma sample_engine_reachable : pass_reachable scheduler_config_default None sample_cluster sample_engine.
Proof. apply pass_start. Qed.

(** After a wide GPU task the GPU worker is full; the next one is skipped. *)
Definition sample_busy : Engine := (place (gpu_view 4) sample_engine).2.
Definition sample_blocked : Engine := (place (gpu_view 4) sample_busy).2.

Lemma sample_blocked_reachable : pass_reachable scheduler_config_default None sample_cluster sample_blocked.
Proof. apply pass_place, pass_place, sample_engine_reachable. Qed.

Theorem placement_respects_gates_witness :
  exists w, sample_cluster !! 1%nat = Some w /\ may_run scheduler_config_default (gpu_view 4) w.
Proof.
  apply (placement_respects_gates scheduler_config_default None sample_cluster sample_engine).
  - apply sample_engine_reachable.
  - vm_compute. reflexivity.
Defined.


Theorem stop_rule_sound_witness : en_free_slots sample_blocked = open_slots sample_blocked.
Proof. apply (stop_rule_sound scheduler_config_default None sample_cluster). apply sample_blocked_reachable. Defined.

Theorem dead_shape_sound_witness : (candidates_or_avoided sample_blocked (gpu_view 4)).1 = [].
Proof.
  apply (dead_shape_sound scheduler_config_default None sample_cluster sample_blocked (gpu_view 4) placement_default).
  - apply sample_blocked_reachable.
  - reflexivity.
  - apply (bool_decide_eq_true_1 _). vm_compute. reflexivity.
Defined.

Theorem skip_holds_back_one_witness : en_seats sample_blocked = en_seats sample_busy.
Proof.
  apply (skip_holds_back_one (gpu_view 4) sample_busy NoGpuWorkersAvailable sample_blocked). vm_compute. reflexivity.
Defined.

(** An idle GPU worker with four slots, GPU work waiting, and a CPU task of four cores. *)
Definition sample_gpu_only : Engine :=
  set_rr 0 (engine_new scheduler_config_default [sample_info 80 true None] None true true).
Definition wide_view : TaskView := {|
  tv_task_id := 9; tv_requirements := {| req_cpu_cores := 4; req_ram_mb := 512; req_gpu_required := false;
    req_timeout_secs := 60; req_max_retries := None |};
  tv_requires_gpu := false; tv_heavy := false; tv_required_features := 0; tv_avoid := []; tv_placement := Ok placement_default
|}.

Theorem skip_means_nobody_witness :
  spill_ok scheduler_config_default 4 (new_seat scheduler_config_default None (sample_info 80 true None)) = false.
Proof.
  apply (skip_means_nobody scheduler_config_default None [sample_info 80 true None] sample_gpu_only wide_view AllEligibleWorkersSaturated) with 0%nat.
  - apply pass_start.
  - vm_compute. reflexivity.
  - reflexivity.
  - vm_compute. reflexivity.
  - vm_compute. reflexivity.
Defined.

Theorem rank_picks_least_witness : exists i, rank sample_engine sample_view [0%nat; 1%nat] = (Some i, sample_engine) /\
  forall j sj, j ∈ [0%nat; 1%nat] -> en_seats sample_engine !! j = Some sj -> j <> i ->
    exists si, en_seats sample_engine !! i = Some si /\ weighted_cmp scheduler_config_default sample_view si sj = Lt.
Proof.
  exists 0%nat. assert (Hr : rank sample_engine sample_view [0%nat; 1%nat] = (Some 0%nat, sample_engine)) by (vm_compute; reflexivity).
  split; [exact Hr|]. pose proof (rank_picks_least sample_engine sample_view [0%nat; 1%nat] 0%nat sample_engine) as Hl.
  cbn [sc_policy en_config sample_engine set_rr engine_new scheduler_config_default] in Hl. destruct Hl as (si & Hsi & Hmin).
  - intros j Hj. destruct j as [|[|j]]; [| |exfalso; clear -Hj; set_solver].
    + exists (new_seat scheduler_config_default None sample_phone). split; [reflexivity|]. apply (bool_decide_eq_true_1 _). vm_compute. reflexivity.
    + exists (new_seat scheduler_config_default None (sample_info 80 true None)). split; [reflexivity|]. apply (bool_decide_eq_true_1 _). vm_compute. reflexivity.
  - intros [|[|j]] [|[|k]] sj sk [= <-] [= <-] Hid; first [reflexivity | discriminate Hid].
  - exact Hr.
  - intros j sj Hj Hsj Hne. exists si. split; [exact Hsi|]. apply (Hmin j sj Hj Hsj). exact Hne.
Defined.

(** Every 3D engine counts as CPU capable, so the configured minimum VRAM of a
    quality level never applies: no task requires any VRAM. *)
Theorem required_vram_always_zero c t : required_vram_mb c t = 0.
Proof.
  unfold required_vram_mb. destruct (task_spec t); try reflexivity.
  unfold engine_is_cpu_capable. by destruct (engine spec).
Qed.
