(* ===== verification/Master.v ===== *)
(** * Master: the handlers that tie queue, registry, scheduler and clients together

    Models the message handlers of [crates/master/src/server.rs] (results, progress,
    telemetry, cancellation, registration, disconnection, client waits), the reaper
    pass of [crates/master/src/reaper.rs] and the scheduling pass and dispatch of
    [crates/master/src/scheduler.rs].  A handler is a function of the master's shared
    state and runs to its end before the next one; [Instant::now()] and [Utc::now()]
    are arguments read once per handler.  A oneshot sender is a name; what was sent on
    it is logged in [m_sent], and the assignments handed to a connection's channel in
    [m_outbox].  The waiter map is the one [MasterServer] shares with the scheduler
    and the reaper.  Blob pins, dashboard broadcasts and logging are left out. *)

From S2P Require Import Prelude Collections RustStr Float Capabilities Placement Blob Task Queue QueueOps Registry Scheduler.
Local Open Scope N_scope.

Abbreviation WaiterId := N (only parsing).

(** ** Shared state *)

Record GpuDemand := { gd_last_seen : option N; gd_last_probe : option N; gd_last_waiting : bool }.
Definition gpu_demand_default : GpuDemand := {| gd_last_seen := None; gd_last_probe := None; gd_last_waiting := false |}.

(** The messages a dispatch sends. *)
Inductive AssignMessage :=
| AssignTask (task : Task)
| AssignTaskWithCheckpoint (task : Task) (latest_checkpoint : option CheckpointData).

Record Master := {
  m_queue : TaskQueueInner;
  m_registry : WorkerRegistryInner;
  m_waiters : gmap TaskId (list WaiterId);
  m_sent : list (WaiterId * TaskResult);
  m_outbox : list (ChannelId * AssignMessage);
  m_gpu_demand : GpuDemand;
  m_rr_cursor : N;
  m_notified : bool
}.

Definition upd_master (m : Master) (q : TaskQueueInner) (r : WorkerRegistryInner) (w : gmap TaskId (list WaiterId))
    (sent : list (WaiterId * TaskResult)) (out : list (ChannelId * AssignMessage)) (notified : bool) : Master := {|
  m_queue := q; m_registry := r; m_waiters := w; m_sent := sent; m_outbox := out;
  m_gpu_demand := m_gpu_demand m; m_rr_cursor := m_rr_cursor m; m_notified := notified
|}.

Definition set_queue (q : TaskQueueInner) (m : Master) : Master :=
  upd_master m q (m_registry m) (m_waiters m) (m_sent m) (m_outbox m) (m_notified m).
Definition set_registry (r : WorkerRegistryInner) (m : Master) : Master :=
  upd_master m (m_queue m) r (m_waiters m) (m_sent m) (m_outbox m) (m_notified m).
(** [scheduler_notify.notify_one()]. *)
Definition notify_one (m : Master) : Master :=
  upd_master m (m_queue m) (m_registry m) (m_waiters m) (m_sent m) (m_outbox m) true.
Definition set_waiters (w : gmap TaskId (list WaiterId)) (m : Master) : Master :=
  upd_master m (m_queue m) (m_registry m) w (m_sent m) (m_outbox m) (m_notified m).
Definition push_outbox (c : ChannelId) (msg : AssignMessage) (m : Master) : Master :=
  upd_master m (m_queue m) (m_registry m) (m_waiters m) (m_sent m) (m_outbox m ++ [(c, msg)]) (m_notified m).

(** ** Waiters *)

(** [if let Some(senders) = lock.remove(task_id) { for tx in senders { tx.send(..) } }]. *)
Definition wake (tid : TaskId) (r : TaskResult) (m : Master) : Master :=
  match m_waiters m !! tid with
  | Some senders =>
      upd_master m (m_queue m) (m_registry m) (delete tid (m_waiters m))
        (m_sent m ++ ((fun tx => (tx, r)) <$> senders)) (m_outbox m) (m_notified m)
  | None => m
  end.

(** [lock.entry(task_id).or_default().push(tx)]. *)
Definition push_waiter (tid : TaskId) (tx : WaiterId) (m : Master) : Master :=
  set_waiters (<[tid := default [] (m_waiters m !! tid) ++ [tx]]> (m_waiters m)) m.

Definition prune_closed_waiters (closed : WaiterId -> bool) (tid : TaskId) (m : Master) : Master :=
  match m_waiters m !! tid with
  | Some senders =>
      let senders := List.filter (fun tx => negb (closed tx)) senders in
      set_waiters (if is_empty senders then delete tid (m_waiters m) else <[tid := senders]> (m_waiters m)) m
  | None => m
  end.

(** Who waits for a task, and who was sent a result. *)
Definition awaited (m : Master) (t : TaskId) : Prop := is_Some (m_waiters m !! t).
Definition waiting (m : Master) (t : TaskId) (tx : WaiterId) : Prop := exists l, m_waiters m !! t = Some l /\ tx ∈ l.
Definition answered (m : Master) (tx : WaiterId) : Prop := exists r, (tx, r) ∈ m_sent m.

Definition terminal_result (tid : TaskId) (fallback_worker : option Uuid) (q : TaskQueueInner) : option TaskResult :=
  info ← get_task tid q;
  if negb (is_terminal (in_state info)) then None
  else Some (match get_result tid q with
             | Some r => r
             | None =>
                 result_failure (default 0 (match in_assigned_worker_id info with Some w => Some w | None => fallback_worker end))
                   tid (if bool_decide (in_state info = Cancelled) then 130 else 1)%Z [] [] 0
                   (match in_error_message info with Some msg => Some msg | None => Some (str "Task terminated") end)
             end).

Definition resolve_one (fallback_worker : option Uuid) (m : Master) (tid : TaskId) : Master :=
  match terminal_result tid fallback_worker (m_queue m) with
  | Some r => wake tid r m
  | None => m
  end.

Definition resolve_terminal_waiters (tids : list TaskId) (fallback_worker : option Uuid) (m : Master) : Master :=
  foldl (resolve_one fallback_worker) m tids.

(** What [wait_task] does before it suspends: [q_fast] is the queue of the fast
    path, the master is the one whose waiter lock was then taken. *)
Inductive WaitOutcome := WaitNotFound | WaitDone (r : TaskResult) | WaitSuspended.

Definition wait_task (tid : TaskId) (tx : WaiterId) (q_fast : TaskQueueInner) (m : Master) : WaitOutcome * Master :=
  match get_task tid q_fast with
  | None => (WaitNotFound, m)
  | Some _ =>
      match terminal_result tid None q_fast with
      | Some r => (WaitDone r, m)
      | None =>
          match terminal_result tid None (m_queue m) with
          | Some r => (WaitDone r, m)
          | None => (WaitSuspended, push_waiter tid tx m)
          end
      end
  end.

Section uuid.
Context `{UuidApi}.

(** ** Clients *)

(** [ClientMessage::SubmitTask]: [admitted] is whether [admit_blob_task] lets the
    task in, [tx] the oneshot of a [wait = true] client and [closed] the waiters
    whose receiver is gone when the submission is refused, besides the client's own,
    which the handler drops first. *)
Inductive SubmitOutcome := NotAdmitted | Refused (e : GridError) | TaskSubmitted.

Definition submit_task (now epoch : N) (t : Task) (tx : option WaiterId) (admitted : bool) (closed : WaiterId -> bool)
    (m : Master) : SubmitOutcome * Master :=
  let known := bool_decide (is_Some (get_task (task_id t) (m_queue m))) in
  if negb known && negb admitted then (NotAdmitted, m)
  else
    let m1 := match tx with Some tx => push_waiter (task_id t) tx m | None => m end in
    let '(o, q) := submit now epoch t (m_queue m1) in
    let m2 := set_queue q m1 in
    match o with
    | Err e => (Refused e, prune_closed_waiters (fun x => closed x || bool_decide (tx = Some x)) (task_id t) m2)
    | Ok _ => (TaskSubmitted, notify_one m2)
    end.

Definition cancel_task_and_notify (tid : TaskId) (reason : Str) (m : Master) : result GridError bool * Master :=
  let '(o, q) := cancel_task_detailed tid (Some reason) (m_queue m) in
  let m := set_queue q m in
  match o with
  | Err e => (Err e, m)
  | Ok outcome =>
      if negb (co_newly_cancelled outcome) then (Ok false, m)
      else
        let r := match co_result outcome with
          | Some r => r
          | None => result_failure (default 0 (co_worker_to_notify outcome)) tid 130 [] [] 0 (Some reason)
          end in
        (Ok true, notify_one (wake tid r m))
  end.

(** ** Worker reports *)

Definition with_worker (w : Uuid) (error : option Str) (r : TaskResult) : TaskResult := {|
  res_worker_id := w; res_task_id := res_task_id r; res_exit_code := res_exit_code r;
  res_stdout := res_stdout r; res_stderr := res_stderr r; res_execution_time_ms := res_execution_time_ms r;
  res_is_gpu_executed := res_is_gpu_executed r; res_device_name := res_device_name r; res_error := error;
  res_asset_bytes := res_asset_bytes r; res_artifacts := res_artifacts r; res_outputs := res_outputs r
|}.

(** The error of a result whose output files the master lacks ([problem]). *)
Definition amended_error (error problem : option Str) : option Str :=
  match problem with
  | None => error
  | Some p => Some (match error with Some e => e ++ str "; " ++ p | None => p end)
  end.

(** [apply_task_result]; [problem] is what [pin_result_outputs] reports. *)
Definition apply_task_result (now epoch : N) (w : Uuid) (session : option N) (r : TaskResult) (problem : option Str)
    (m : Master) : Master :=
  let r := with_worker w (amended_error (res_error r) problem) r in
  let tid := res_task_id r in
  let '(o, q) := record_result_from now epoch w session r (m_queue m) in
  let m := set_queue q m in
  match o with
  | Err _ => m
  | Ok outcome =>
      match ro_disposition outcome with
      | Stale => m
      | d =>
          let reg := (decrement_active_tasks w (m_registry m)).2 in
          let reg := if ro_rejected outcome then (record_rejection now w session reg).2
                     else match d with Late => reg | _ => clear_rejections w reg reg end in
          let m := set_registry reg m in
          let m := match d with Terminal => wake tid r m | _ => m end in
          notify_one m
      end
  end.

(** [handle_oversized_master_message] for an assignment of [tid]; [reason] and
    [banner] are the formatted message and its bytes. *)
Definition handle_oversized_assignment (w : Uuid) (session : N) (tid : TaskId) (reason : Str) (banner : Bytes)
    (m : Master) : Master :=
  let r := result_failure w tid 1 [] banner 0 (Some reason) in
  let '(o, q) := fail_unsendable_assignment w (Some session) r (m_queue m) in
  let m := set_queue q m in
  match o with
  | Err _ | Ok Stale => m
  | Ok d =>
      let m := set_registry (decrement_active_tasks w (m_registry m)).2 m in
      let m := match d with Terminal => wake tid r m | _ => m end in
      notify_one m
  end.

Definition apply_task_progress (now : N) (w : Uuid) (session : option N) (tid : TaskId) (status : TaskStatus)
    (m : Master) : Master :=
  if bool_decide (status = StRunning) then set_queue (mark_running_from now w session tid (m_queue m)).2 m else m.

Definition apply_checkpoint_message (w : Uuid) (session : N) (tid : TaskId) (cp : CheckpointData) (m : Master) : Master :=
  set_queue (record_checkpoint_from w (Some session) tid cp (m_queue m)).2 m.

Definition apply_mobile_telemetry (w : Uuid) (session : N) (status : MobileLiveStatus) (m : Master) : Master :=
  let '(o, reg) := update_mobile_telemetry w (Some session) status (m_registry m) in
  let m := set_registry reg m in
  match o with Ok true => notify_one m | _ => m end.

(** ** Disconnection and registration *)

Definition failover_session_tasks (iter : gset TaskId -> list TaskId) (now epoch : N) (w : Uuid) (session : option N)
    (reason : Str) (immediate : bool) (m : Master) : Master :=
  let '(affected, q) := handle_session_disconnected iter now epoch w session reason immediate (m_queue m) in
  let m := set_queue q m in
  if is_empty affected then m
  else notify_one (resolve_terminal_waiters affected (Some w) m).

Definition handle_worker_disconnect (current : option AbortHandle) (iter : gset TaskId -> list TaskId) (now epoch : N)
    (w : Uuid) (session : option N) (reason : Str) (immediate : bool) (m : Master) : Master :=
  let '(unregistered, _, reg) := unregister current w session (m_registry m) in
  let m := set_registry reg m in
  if unregistered then failover_session_tasks iter now epoch w session reason immediate m else m.

Definition failover_superseded_session (iter : gset TaskId -> list TaskId) (now epoch : N) (w : Uuid) (old_session : N)
    (m : Master) : Master :=
  failover_session_tasks iter now epoch w (Some old_session) (str "Superseded by a new session of the same worker") true m.

(** The registration step of a worker's handshake; [None] is the refusal of a
    worker without cores.  [features] is the negotiated set, [acked] whether the
    acknowledgement could be sent. *)
Definition register_worker (current : option AbortHandle) (iter : gset TaskId -> list TaskId) (now epoch : N) (w : Uuid)
    (c : WorkerCapabilities) (features : ProtocolCapabilities) (addr : Str) (sender : ChannelId)
    (abort : option AbortHandle) (clock : ClockId) (acked : bool) (m : Master) : option N * Master :=
  if cap_cpu_cores c =? 0 then (None, m)
  else
    let '(registration, _, reg) := register_session current now epoch w c features addr sender abort (m_registry m) in
    let session := reg_session_id registration in
    let m := set_registry (set_rx_clock w session clock reg) m in
    let m := match reg_superseded_session registration with
      | Some old => failover_superseded_session iter now epoch w old m
      | None => m
      end in
    if acked then (Some session, m)
    else (None, handle_worker_disconnect current iter now epoch w (Some session) (str "RegisterAck delivery failed") true m).

(** ** The reaper *)

Record ReaperConfig := { rc_scan_interval : Duration; rc_timeout : Duration; rc_stale_worker_timeout : option Duration }.
Definition reaper_config_default : ReaperConfig :=
  {| rc_scan_interval := from_secs 1; rc_timeout := from_secs 10; rc_stale_worker_timeout := Some (from_secs 3600) |}.

Definition reaper_reason : Str := str "Heartbeat timeout (reaper detected)".

(** The loop over the reaped sessions; the number of tasks failed over. *)
Fixpoint reaper_failover (iter : gset TaskId -> list TaskId) (now epoch : N) (reaped : list (Uuid * N)) (m : Master)
    : N * Master :=
  match reaped with
  | [] => (0, m)
  | (w, session) :: reaped =>
      let '(affected, q) := handle_session_disconnected iter now epoch w (Some session) reaper_reason false (m_queue m) in
      let m := resolve_terminal_waiters affected (Some w) (set_queue q m) in
      let '(n, m) := reaper_failover iter now epoch reaped m in
      (N.of_nat (length affected) + n, m)
  end.

(** One tick of the reaper. *)
Definition reaper_pass (current : option AbortHandle) (iter : gset TaskId -> list TaskId) (clocks : Clocks) (now epoch : N)
    (config : ReaperConfig) (m : Master) : Master :=
  let '(reaped, _, reg) := reap_stale_sessions current clocks clocks now now (rc_timeout config) (m_registry m) (m_registry m) in
  let reg := match rc_stale_worker_timeout config with
    | Some stale => (prune_stale_workers current now stale reg).2
    | None => reg
    end in
  let m := set_registry reg m in
  if is_empty reaped then m
  else
    let '(total, m) := reaper_failover iter now epoch reaped m in
    if 0 <? total then notify_one m else m.

(** ** The scheduling pass *)

Definition SCAN_PAGE : N := 256.
Definition GPU_PROBE_INTERVAL : Duration := from_secs 1.

Definition set_demand (d : GpuDemand) (rr : N) (m : Master) : Master := {|
  m_queue := m_queue m; m_registry := m_registry m; m_waiters := m_waiters m; m_sent := m_sent m; m_outbox := m_outbox m;
  m_gpu_demand := d; m_rr_cursor := rr; m_notified := m_notified m
|}.

Definition note_gpu_demand (now : N) (d : GpuDemand) : GpuDemand :=
  {| gd_last_seen := Some now; gd_last_probe := gd_last_probe d; gd_last_waiting := gd_last_waiting d |}.

(** The predicate of the probe: a GPU task some GPU worker could run. *)
Definition gpu_task_placeable (gpu_workers : list WorkerInfo) (t : Task) : bool :=
  (req_gpu_required (task_requirements t) || spec_requires_gpu (task_spec t))
  && match task_placement t with
     | Ok p => existsb (fun w => statically_fits (task_requirements t) w && placement_admits p w) gpu_workers
     | Err _ => false
     end.

Definition gpu_demand (c : SchedulerConfig) (now : N) (workers : list WorkerInfo) (q : TaskQueueInner) (d : GpuDemand)
    : bool * bool * GpuDemand :=
  if negb (sc_preserve_gpu_for_gpu_tasks c) then (false, false, d)
  else
    let gpu_workers := List.filter (fun w => can_execute_gpu (wi_capabilities w)) workers in
    if is_empty gpu_workers then (false, false, d)
    else
      let probe_due := match gd_last_probe d with Some probe => GPU_PROBE_INTERVAL <=? now - probe | None => true end in
      let '(waiting, d) :=
        if probe_due then
          let found := any_queued (gpu_task_placeable gpu_workers) q in
          (found, {| gd_last_seen := if found then Some now else gd_last_seen d;
                     gd_last_probe := Some now; gd_last_waiting := found |})
        else (gd_last_waiting d, d) in
      let recent := match gd_last_seen d with Some seen => now - seen <? sc_gpu_demand_window c | None => false end in
      (waiting, recent || waiting, d).

(** The variables of the scan. *)
Record Pass := {
  ps_engine : Engine;
  ps_report : ScheduleReport;
  ps_placements : list (TaskId * nat);
  ps_demand : GpuDemand
}.

Definition count_of {A} (l : list A) : N := N.of_nat (length l).

(** The loop over the views of a page: whether the scan ends ([break 'scan]).
    [None] marks a panic of [place]. *)
Fixpoint scan_views (now max_batch : N) (views : list TaskView) (ps : Pass) : option (bool * Pass) :=
  match views with
  | [] => Some (false, ps)
  | v :: views =>
      let '(verdict, e) := place v (ps_engine ps) in
      match verdict with
      | None => None
      | Some (Placed idx) =>
          let ps := {| ps_engine := e; ps_report := ps_report ps; ps_placements := ps_placements ps ++ [(tv_task_id v, idx)];
                       ps_demand := if tv_requires_gpu v then note_gpu_demand now (ps_demand ps) else ps_demand ps |} in
          if (max_batch <=? count_of (ps_placements ps)) || (en_free_slots e =? 0) then Some (true, ps)
          else scan_views now max_batch views ps
      | Some (Skip reason) =>
          let ps := {| ps_engine := e;
                       ps_report := if count_of (sr_skipped (ps_report ps)) <? max_batch
                                    then push_skipped (tv_task_id v) reason (ps_report ps) else ps_report ps;
                       ps_placements := ps_placements ps; ps_demand := ps_demand ps |} in
          if en_free_slots e =? 0 then Some (true, ps) else scan_views now max_batch views ps
      | Some (Unfulfillable reason) =>
          scan_views now max_batch views
            {| ps_engine := e; ps_report := push_unfulfillable (tv_task_id v) reason (ps_report ps);
               ps_placements := ps_placements ps; ps_demand := ps_demand ps |}
      end
  end.

(** The page's views may show GPU work nobody knew of. *)
Definition notice_gpu (c : SchedulerConfig) (now : N) (workers : list WorkerInfo) (views : list TaskView) (ps : Pass) : Pass :=
  if negb (en_gpu_waiting (ps_engine ps)) && sc_preserve_gpu_for_gpu_tasks c
     && existsb (fun v => tv_requires_gpu v
                          && existsb (fun w => can_execute_gpu (wi_capabilities w) && view_fits v w) workers) views
  then {| ps_engine := note_gpu_waiting (ps_engine ps); ps_report := ps_report ps; ps_placements := ps_placements ps;
          ps_demand := note_gpu_demand now (ps_demand ps) |}
  else ps.

(** The scan: page [k] is read from the queue [pages k], which other handlers may
    have changed since the previous page.  [None] is a panic or running out of
    [fuel]; one unit per scanned task and one for the last page are enough. *)
Fixpoint scan_pages (fuel : nat) (c : SchedulerConfig) (now max_batch : N) (workers : list WorkerInfo)
    (pages : nat -> TaskQueueInner) (k : nat) (cursor : option QueueOrderKey) (scanned : N) (ps : Pass) : option Pass :=
  match fuel with
  | O => None
  | S fuel =>
      let page_limit := N.min SCAN_PAGE (N.max (sc_max_scan_per_pass c) 1 - scanned) in
      if page_limit =? 0 then Some ps
      else
        let '(views, next) := ready_views cursor page_limit (pages k) in
        match scan_views now max_batch views (notice_gpu c now workers views ps) with
        | None => None
        | Some (true, ps) => Some ps
        | Some (false, ps) =>
            match next with
            | Some key => scan_pages fuel c now max_batch workers pages (S k) (Some key) (scanned + count_of views) ps
            | None => Some ps
            end
        end
  end.

Definition scan_fuel (c : SchedulerConfig) : nat := S (N.to_nat (N.max (sc_max_scan_per_pass c) 1)).

(** [workers.sort_by_key(|w| w.worker_id)]. *)
Definition sorted_workers (ws : list WorkerInfo) : list WorkerInfo :=
  sort_by (fun a b => N.compare (wi_worker_id a) (wi_worker_id b)) ws.

Definition assignment_triples (e : Engine) (placements : list (TaskId * nat)) : list (TaskId * Uuid * N) :=
  omap (fun '(tid, idx) => (fun s => (tid, wi_worker_id (seat_worker s), wi_session_id (seat_worker s))) <$> en_seats e !! idx)
    placements.

(** [scheduled.remove(&task_id)] for each triple, over the map of the scheduled
    tasks (the last of several for one id). *)
Fixpoint take_scheduled (triples : list (TaskId * Uuid * N)) (scheduled : gmap TaskId Task) : list ScheduleAssignment :=
  match triples with
  | [] => []
  | (tid, w, s) :: triples =>
      match scheduled !! tid with
      | Some t => {| sa_task_id := tid; sa_worker_id := w; sa_session_id := s; sa_task := t |}
                  :: take_scheduled triples (delete tid scheduled)
      | None => take_scheduled triples scheduled
      end
  end.

Definition scheduled_map (l : list (TaskId * Uuid * Task)) : gmap TaskId Task :=
  foldl (fun m '(tid, _, t) => <[tid := t]> m) ∅ l.

Definition without_checkpoint (t : Task) : Task := {|
  task_id := task_id t; task_spec := task_spec t; task_requirements := task_requirements t;
  task_created_at_utc := task_created_at_utc t; task_tags := task_tags t;
  task_latest_checkpoint := None; task_staged_files := task_staged_files t;
  task_expected_outputs := task_expected_outputs t; task_inputs := task_inputs t;
  task_output_globs := task_output_globs t
|}.

Definition assign_message (t : Task) : AssignMessage :=
  match task_latest_checkpoint t with
  | Some cp => AssignTaskWithCheckpoint (without_checkpoint t) (Some cp)
  | None => AssignTask t
  end.

Definition dispatch_failure_reason : Str := str "Failed to deliver AssignTask message".

(** [dispatch]; [open] tells whether the session's channel still has a receiver. *)
Definition dispatch (current : option AbortHandle) (iter : gset TaskId -> list TaskId) (now epoch : N)
    (open : ChannelId -> bool) (a : ScheduleAssignment) (m : Master) : Master :=
  let tid := sa_task_id a in let w := sa_worker_id a in let session := sa_session_id a in
  let '(o, reg) := reserve_dispatch w session (m_registry m) in
  let m := set_registry reg m in
  match o with
  | Err _ => set_queue (requeue_dispatch_failure tid w session (m_queue m)).2 m
  | Ok sender =>
      if open sender then
        match deliver_if_scheduled tid w session (assign_message (sa_task a)) (m_queue m) with
        | Some msg => push_outbox sender msg m
        | None => set_registry (release_dispatch w session (m_registry m)) m
        end
      else
        let m := set_registry (decrement_active_tasks w (m_registry m)).2 m in
        let m := set_queue (requeue_dispatch_failure tid w session (m_queue m)).2 m in
        handle_worker_disconnect current iter now epoch w (Some session) dispatch_failure_reason false m
  end.

(** The scan and the batch transition of [schedule_batch] (steps 1 to 4). *)
Definition plan_batch (c : SchedulerConfig) (now max_batch : N) (m : Master) : option (ScheduleReport * Master) :=
  let m := set_queue (process_delayed_retries now (m_queue m)).2 m in
  let workers := list_schedulable_workers now (m_registry m) in
  if is_empty workers then
    Some (foldl (fun r tid => push_skipped tid NoEligibleWorkers r) report_default
            (ready_task_ids (N.to_nat max_batch) (m_queue m)), m)
  else
    let workers := sorted_workers workers in
    let loads := assigned_loads (m_queue m) in
    let '(gpu_waiting, gpu_recent, demand) := gpu_demand c now workers (m_queue m) (m_gpu_demand m) in
    let e := set_rr (m_rr_cursor m) (engine_new c workers (Some loads) gpu_waiting gpu_recent) in
    let start := {| ps_engine := e; ps_report := report_default; ps_placements := []; ps_demand := demand |} in
    ps ← (if (0 <? en_free_slots e) && (0 <? max_batch)
          then scan_pages (scan_fuel c) c now max_batch workers (fun _ => m_queue m) 0 None 0 start
          else Some start);
    let m := set_demand (ps_demand ps) (en_rr_cursor (ps_engine ps)) m in
    if is_empty (ps_placements ps) then Some (ps_report ps, m)
    else
      let triples := assignment_triples (ps_engine ps) (ps_placements ps) in
      let '(scheduled, q) := schedule_tasks_batch_in_sessions now triples (m_queue m) in
      let assignments := take_scheduled triples (scheduled_map scheduled) in
      Some ({| sr_assignments := sr_assignments (ps_report ps) ++ assignments; sr_skipped := sr_skipped (ps_report ps);
               sr_unfulfillable := sr_unfulfillable (ps_report ps) |}, set_queue q m).

Definition schedule_batch (c : SchedulerConfig) (current : option AbortHandle) (iter : gset TaskId -> list TaskId)
    (now epoch : N) (open : ChannelId -> bool) (max_batch : N) (m : Master) : option (ScheduleReport * Master) :=
  '(report, m) ← plan_batch c now max_batch m;
  Some (report, foldl (fun m a => dispatch current iter now epoch open a m) m (sr_assignments report)).

Definition schedule_once (c : SchedulerConfig) (current : option AbortHandle) (iter : gset TaskId -> list TaskId)
    (now epoch : N) (open : ChannelId -> bool) (m : Master) : option (ScheduleReport * Master) :=
  schedule_batch c current iter now epoch open (sc_max_batch_size c) m.

End uuid.
