(* ===== verification/Interleave.v ===== *)
(** * Interleave: what the operations of queue and registry do to running tasks

    The frame lemmas behind the interleaving of the master's handlers
    ([Stranded.v]): which queue operations start no task, that retention only ever
    deletes entries, that a sweep leaves nothing of its session active, which triple
    of a batch decides where a task goes, and which registry operations keep every
    live session live. *)

From S2P Require Import Prelude Collections RustStr Float Capabilities Placement Blob Task Queue QueueOps QueueInv QueueCore QueueBook QueueAcct QueueSteps Registry RegistryProps Scheduler Master.
Local Open Scope N_scope.

(** ** What a queue operation does to the active entries *)

(** Every active entry of [q'] was active in [q], in the same state and place. *)
Definition no_new_active (q q' : TaskQueueInner) : Prop :=
  forall t e', tasks q' !! t = Some e' -> is_active (te_state e') = true ->
  exists e, tasks q !! t = Some e /\ te_state e = te_state e' /\
    te_assigned_worker_id e = te_assigned_worker_id e' /\ te_assigned_session e = te_assigned_session e'.

Lemma no_new_active_sub q q' : tasks q' ⊆ tasks q -> no_new_active q q'.
Proof. intros Hs t e He _. exists e. split; [by eapply lookup_weaken|done]. Qed.

Lemma no_new_active_same q q' : tasks q' = tasks q -> no_new_active q q'.
Proof. intros Ht. apply no_new_active_sub. by rewrite Ht. Qed.

Lemma no_new_active_trans q1 q2 q3 : no_new_active q1 q2 -> no_new_active q2 q3 -> no_new_active q1 q3.
Proof.
  intros H12 H23 t e He Hact. destruct (H23 t e He Hact) as (e2 & He2 & S2 & W2 & P2).
  destruct (H12 t e2 He2) as (e1 & He1 & ?&?&?); [by rewrite S2|]. exists e1. split_and!; congruence.
Qed.

(** One entry replaced by an inactive one, or by one in the same place. *)
Lemma no_new_active_put q q' tid e' :
  tasks q' ⊆ <[tid := e']> (tasks q) ->
  (is_active (te_state e') = true -> exists e, tasks q !! tid = Some e /\ te_state e = te_state e' /\
     te_assigned_worker_id e = te_assigned_worker_id e' /\ te_assigned_session e = te_assigned_session e') ->
  no_new_active q q'.
Proof.
  intros Hs Hx t e He Hact. pose proof (lookup_weaken _ _ _ _ He Hs) as Hl.
  destruct (decide (t = tid)) as [->|Hne].
  - rewrite lookup_insert_eq in Hl. simplify_eq. by apply Hx.
  - rewrite lookup_insert_ne in Hl by done. by exists e.
Qed.

(** ** Retention only deletes entries *)

Lemma remove_retained_sub tid q : tasks (remove_retained tid q) ⊆ tasks q.
Proof. destruct (remove_retained_same tid q) as [-> _]. apply delete_subseteq. Qed.

Lemma evict_oldest_sub q : tasks (evict_oldest_terminal q).2 ⊆ tasks q.
Proof.
  unfold evict_oldest_terminal. destruct (terminal_order q) as [|t ts]; [done|].
  destruct (holds_terminal _ t); [|done]. apply (remove_retained_sub t (set_terminal ts (terminal_sizes q) (terminal_bytes q) q)).
Qed.

Lemma evict_while_sub cond fuel q : tasks (evict_while cond fuel q) ⊆ tasks q.
Proof.
  revert q. induction fuel as [|fuel IH]; intros q; cbn [evict_while]; [done|].
  destruct (cond q); [|done]. pose proof (evict_oldest_sub q) as Hs.
  destruct (evict_oldest_terminal q) as [[] q']; [|done]. etrans; [apply IH|done].
Qed.

Lemma enforce_sub q : tasks (enforce_terminal_limits q) ⊆ tasks q.
Proof. unfold enforce_terminal_limits. etrans; apply evict_while_sub. Qed.

Lemma track_sub tid q : tasks (track_terminal_task tid q) ⊆ tasks q.
Proof.
  unfold track_terminal_task. destruct (untrack_active_task tid q) as [] eqn:Hu.
  pose proof (untrack_same tid q) as [Ht _]. rewrite Hu in Ht. cbn in Ht |- *. rewrite <-Ht.
  case_match; [done|]. etrans; [apply enforce_sub|done].
Qed.

Lemma track_all_sub l q : tasks (foldl (fun q t => track_terminal_task t q) q l) ⊆ tasks q.
Proof.
  revert q. induction l as [|t l IH]; intros q; [done|]. cbn. etrans; [apply IH|apply track_sub].
Qed.

Lemma evict_loop_sub m fuel n q : tasks (evict_terminal_loop m fuel n q).2 ⊆ tasks q.
Proof.
  revert n q. induction fuel as [|fuel IH]; intros n q; cbn [evict_terminal_loop]; [done|].
  destruct (_ <? _); [|done]. pose proof (evict_oldest_sub q) as Hs.
  destruct (evict_oldest_terminal q) as [[] q']; [|done]. etrans; [apply IH|done].
Qed.

(** ** The operations that start nothing *)

Definition passive (op : QueueOp) : bool :=
  match op with
  | OpPop _ _ _ | OpSchedule _ _ _ | OpScheduleBatch _ _ | OpRunning _ _ _ _ | OpDisconnect _ _ _ _ _ _ _ => false
  | _ => true
  end.

Section uuid.
Context `{UuidApi}.

Lemma accept_no_new_active q q0 tid e b :
  tasks q0 = tasks q -> te_state e = Queued -> no_new_active q (accept_entry tid e b q0).
Proof.
  intros Ht Hst. apply (no_new_active_put q _ tid e); [|by rewrite Hst]. unfold accept_entry. queue_cbn. by rewrite Ht.
Qed.

Lemma store_checkpoint_no_new_active q tid e cp :
  tasks q !! tid = Some e -> no_new_active q (store_checkpoint tid e cp q).2.
Proof.
  intros He. unfold store_checkpoint, apply_checkpoint.
  destruct (checkpoint_exceeds_active_cap _ _ _ _); [by apply no_new_active_same|].
  destruct (is_newer_checkpoint e cp); [|by apply no_new_active_same]. cbn [snd].
  set (e' := set_task _ e). apply (no_new_active_put q _ tid e'); [|intros _; by exists e].
  destruct (update_active_same tid (put_entry tid e' q)) as [-> _]. done.
Qed.

Lemma record_result_no_new_active q now epoch w s r :
  core_inv q -> no_new_active q (record_result_from now epoch w s r q).2.
Proof.
  intros Hc. unfold record_result_from. set (tid := res_task_id r).
  destruct (tasks q !! tid) as [e|] eqn:He; [|by apply no_new_active_same].
  destruct (owned_by e w s) eqn:Ho; cbn [negb]; [|by apply no_new_active_same].
  destruct (is_terminal (te_state e)) eqn:Hterm; [by apply no_new_active_same|].
  pose proof (owned_nonterminal_active _ _ _ _ (core_inv_entry_wf q tid e Hc He) Ho Hterm) as Hact.
  destruct (decide_result_active (retry_policy q) now epoch w tid r e Hact) as (e' & dk & rk & d & Hd & Hedge & _).
  rewrite Hd. cbn [snd]. set (q1 := match rk with Some _ => _ | None => _ end).
  assert (Ht1 : tasks q1 = <[tid := e']> (tasks q)) by (subst q1; by destruct dk, rk).
  apply (no_new_active_put q _ tid e').
  - destruct (is_terminal (te_state e')).
    + rewrite <-Ht1. apply track_sub.
    + by destruct (update_active_same tid q1) as [-> _]; rewrite Ht1.
  - intros Hact'. revert Hd. unfold decide_result.
    destruct (is_success r); [destruct (negb _); [done|]|].
    2: destruct (_ =? _)%Z; [|destruct (_ && _ && _ && _); [|destruct (rp_retry_on_execution_failure _ && _)]].
    all: intros [= <- <- <- <-]; by entry_cbn.
Qed.

Lemma end_no_new_active q q1 tid e' :
  tasks q1 = tasks q -> is_terminal (te_state e') = true -> no_new_active q (track_terminal_task tid (put_entry tid e' q1)).
Proof.
  intros Ht Hst. apply (no_new_active_put q _ tid e').
  - etrans; [apply track_sub|]. queue_cbn. by rewrite Ht.
  - intros Hact. by apply nonterminal_active in Hact as [=]; congruence.
Qed.

Lemma passive_no_new_active op q : core_inv q -> passive op = true -> no_new_active q (run op q).
Proof.
  intros Hc Hp. destruct op; try done; cbn [run].
  - unfold submit_with_priority. repeat case_match; try by apply no_new_active_same. by apply accept_no_new_active.
  - unfold try_submit_slot. repeat case_match; try by apply no_new_active_same. by apply accept_no_new_active.
  - unfold requeue_task. destruct (tasks q !! tid) as [e|]; [|by apply no_new_active_same].
    destruct (is_terminal _); [by apply no_new_active_same|].
    apply (no_new_active_put q _ tid (to_requeued e)); [|done]. by destruct (te_assigned_worker_id e).
  - unfold requeue_dispatch_failure. destruct (tasks q !! tid) as [e|]; [|by apply no_new_active_same].
    destruct (negb _ || negb _); [by apply no_new_active_same|]. by apply (no_new_active_put q _ tid (to_requeued e)).
  - unfold record_checkpoint. destruct (tasks q !! tid) as [e|] eqn:He; [|by apply no_new_active_same].
    pose proof (store_checkpoint_no_new_active q tid e cp He). repeat case_match; try by apply no_new_active_same. done.
  - unfold record_checkpoint_from. destruct (tasks q !! tid) as [e|] eqn:He; [|by apply no_new_active_same].
    pose proof (store_checkpoint_no_new_active q tid e cp He). repeat case_match; try by apply no_new_active_same. done.
  - by apply record_result_no_new_active.
  - unfold fail_unsendable_assignment. repeat case_match; try by apply no_new_active_same. by apply end_no_new_active.
  - intros t e He Hact. unfold process_delayed_retries in He. destruct (pop_due _ _) as [ids later]. cbn [snd] in He.
    rewrite release_all_lookup in He. cbn [set_delayed tasks] in He. case_bool_decide; [|by exists e].
    destruct (tasks q !! t) as [e0|]; [|done]. injection He as <-. revert Hact. case_bool_decide; [done|by exists e0].
  - unfold cancel_task_detailed. repeat case_match; try by apply no_new_active_same.
    all: simplify_eq; by apply end_no_new_active.
  - apply no_new_active_sub. exact (enforce_sub (set_limits limit (max_terminal_bytes q) q)).
  - apply no_new_active_sub. exact (enforce_sub (set_limits (max_terminal_tasks q) limit q)).
  - apply no_new_active_sub, evict_loop_sub.
Qed.

(** A sweep leaves no active entry it covers, and starts none. *)
Lemma insert_targets_tasks ts q : tasks (sweep_settle ts q) = tasks q.
Proof.
  unfold sweep_settle. transitivity (tasks (foldl (fun q k => insert_delayed k q) q (delays_of ts))).
  - generalize (foldl (fun q k => insert_delayed k q) q (delays_of ts)). intros q0.
    revert q0. induction (readies_of ts) as [|k ks IH]; intros q0; [done|]. cbn. rewrite IH.
    unfold insert_ready. destruct (update_active_same (qk_task_id k) (set_ready (bt_insert k) q0)) as [-> _]. done.
  - revert q. induction (delays_of ts) as [|k ks IH]; intros q; [done|]. cbn. rewrite IH.
    unfold insert_delayed. destruct (update_active_same (dk_task_id k) (set_delayed (bt_insert k) q)) as [-> _]. done.
Qed.

Lemma failover_entry_inactive p now epoch w reason imm t e :
  is_active (te_state (failover_entry p now epoch w reason imm t e).1) = false.
Proof.
  pose proof (failover_entry_cases p now epoch w reason imm t e) as Hf.
  destruct (failover_entry _ _ _ _ _ _ _ _) as [e' x]. specialize (Hf e' x eq_refl).
  by destruct Hf as [(_ & _ & [[-> ->]|(ra & _ & _ & -> & ->)])|(_ & -> & r & m & ->)].
Qed.

Lemma sweep_no_new_active iter now epoch w s reason imm q :
  (forall X, iter X ≡ₚ elements X) ->
  let q' := (handle_session_disconnected iter now epoch w s reason imm q).2 in
  no_new_active q q' /\ (forall t, sweepable w s (tasks q' !! t) = false).
Proof.
  intros Hiter. unfold handle_session_disconnected. set (ids := iter (sweep_candidates w q)).
  assert (Hnd : NoDup ids) by (subst ids; rewrite Hiter; apply NoDup_elements).
  destruct (sweep_loop now epoch w s reason imm ids q) as [[affected ts] q1] eqn:Hloop.
  destruct (sweep_loop_spec _ _ _ _ _ _ _ _ _ _ _ Hnd Hloop) as [IA IT _ _ _ _]. cbn [snd].
  fold (sweep_settle ts (drop_empty_assignment w q1)).
  set (q' := foldl _ _ (terminals_of ts)).
  assert (Hsub : tasks q' ⊆ tasks q1).
  { subst q'. etrans; [apply track_all_sub|]. rewrite insert_targets_tasks. by destruct (drop_empty_book w q1) as [[-> _] _]. }
  assert (Hold : forall t e, tasks q' !! t = Some e -> is_active (te_state e) = true -> t ∉ affected /\ tasks q !! t = Some e).
  { intros t e He Hact. pose proof (lookup_weaken _ _ _ _ He Hsub) as H1. rewrite IT in H1.
    case_decide; [|done]. unfold swept_entry in H1. destruct (tasks q !! t) as [e0|]; [|done]. injection H1 as <-.
    by rewrite failover_entry_inactive in Hact. }
  split.
  - intros t e He Hact. exists e. by destruct (Hold t e He Hact).
  - intros t. destruct (sweepable w s (tasks q' !! t)) eqn:Hs; [|done]. exfalso.
    pose proof Hs as (e & He & Hact & _)%sweepable_Some. destruct (Hold t e He Hact) as [Hn Ht]. destruct Hn.
    rewrite IA. apply list_elem_of_filter. rewrite Ht, <-He. split; [done|].
    subst ids. rewrite Hiter. apply elem_of_elements. apply (sweep_candidates_sweepable w s). by rewrite Ht, <-He.
Qed.

(** ** A batch, exactly *)

Definition first_for {S} (t : TaskId) (l : list (TaskId * Uuid * S)) : option (TaskId * Uuid * S) :=
  List.find (fun a => a.1.1 =? t) l.

Definition batch_at (now : N) (l : list (TaskId * Uuid * option N)) (q : TaskQueueInner)
    (out : list (TaskId * Uuid * Task)) (q' : TaskQueueInner) (t : TaskId) : Prop :=
  match queued_entry q t, first_for t l with
  | Some e, Some (_, w, s) => tasks q' !! t = Some (to_scheduled now w s e) /\ (t, w, te_task e) ∈ out
  | _, _ => tasks q' !! t = tasks q !! t
  end /\ (forall w task, (t, w, task) ∈ out -> exists e, queued_entry q t = Some e /\ task = te_task e).

Lemma schedule_batch_exact now l q t :
  batch_at now l q (schedule_batch_inner now l q).1 (schedule_batch_inner now l q).2 t.
Proof.
  revert q. induction l as [|[[tid w] s] l IH]; intros q; cbn [schedule_batch_inner].
  { split; [by destruct (queued_entry q t)|]. intros ?? Hin. by apply not_elem_of_nil in Hin. }
  unfold schedule_one. destruct (queued_entry q tid) as [e|] eqn:Hq.
  - apply queued_entry_Some in Hq as [He Hst]. rewrite He, bool_decide_true by done.
    set (q1 := take_ready now (entry_key e tid) e w s q). specialize (IH q1).
    destruct (schedule_batch_inner now l q1) as [out q2]. cbn [fst snd] in *. unfold batch_at, first_for in *. cbn [find fst].
    destruct (tid =? t) eqn:Heq.
    + apply N.eqb_eq in Heq as ->. destruct IH as [IH1 IH2].
      assert (Hq1 : tasks q1 !! t = Some (to_scheduled now w s e)) by apply lookup_insert_eq.
      assert (Hn : queued_entry q1 t = None) by (unfold queued_entry; by rewrite Hq1).
      rewrite Hn in IH1, IH2. assert (queued_entry q t = Some e) as -> by (unfold queued_entry; by rewrite He, bool_decide_true).
      split; [split; [by rewrite IH1, Hq1|by left]|].
      intros w' task [[= -> ->]|Hin]%elem_of_cons; [by exists e|]. by destruct (IH2 _ _ Hin) as (? & ? & _).
    + apply N.eqb_neq in Heq. assert (Hq1 : tasks q1 !! t = tasks q !! t) by (by apply lookup_insert_ne).
      assert (Hqe : queued_entry q1 t = queued_entry q t) by (unfold queued_entry; by rewrite Hq1).
      rewrite Hqe, Hq1 in IH. destruct IH as [IH1 IH2]. split.
      * repeat case_match; try done. destruct IH1. split; [done|by right].
      * intros w' task [[= -> -> ->]|Hin]%elem_of_cons; [done|]. by apply (IH2 w').
  - assert (Hone : exists q1, tasks q1 = tasks q /\ (match tasks q !! tid with
      | Some e => if bool_decide (te_state e = Queued) then (Some (tid, w, te_task e), take_ready now (entry_key e tid) e w s q)
                  else (None, set_ready (bt_remove (entry_key e tid)) q)
      | None => (None, q) end) = (None, q1)).
    { revert Hq. unfold queued_entry. destruct (tasks q !! tid) as [e|]; [|by exists q]. case_bool_decide; [done|].
      by exists (set_ready (bt_remove (entry_key e tid)) q). }
    destruct Hone as (q1 & Ht1 & ->). specialize (IH q1). destruct (schedule_batch_inner now l q1) as [out q2]. cbn [fst snd] in *.
    unfold batch_at, queued_entry in *. rewrite Ht1 in IH. unfold first_for in *. cbn [find fst].
    destruct (tid =? t) eqn:Heq; [|done]. apply N.eqb_eq in Heq as ->. rewrite Hq in *. done.
Qed.
End uuid.

Lemma scheduled_map_elem l t task : scheduled_map l !! t = Some task -> exists w, (t, w, task) ∈ l.
Proof.
  unfold scheduled_map. induction l as [|[[t' w] x] l IH] using rev_ind; [done|].
  rewrite foldl_snoc. destruct (decide (t = t')) as [->|Hne].
  - rewrite lookup_insert_eq. intros [= ->]. exists w. set_solver.
  - rewrite lookup_insert_ne by done. intros (w' & Hw)%IH. exists w'. set_solver.
Qed.

Lemma scheduled_map_present l t w task : (t, w, task) ∈ l -> is_Some (scheduled_map l !! t).
Proof.
  unfold scheduled_map. induction l as [|[[t' w'] x] l IH] using rev_ind; [by intros ?%not_elem_of_nil|].
  rewrite foldl_snoc, elem_of_app, list_elem_of_singleton. destruct (decide (t = t')) as [->|Hne].
  - intros _. rewrite lookup_insert_eq. by eexists.
  - rewrite lookup_insert_ne by done. intros [Hin|[= -> -> ->]]; [by apply IH|done].
Qed.

Lemma take_scheduled_first triples m t task t' w s :
  m !! t = Some task -> first_for t triples = Some (t', w, s) ->
  {| sa_task_id := t; sa_worker_id := w; sa_session_id := s; sa_task := task |} ∈ take_scheduled triples m.
Proof.
  revert m. induction triples as [|[[t2 w2] s2] l IH]; intros m Hm; unfold first_for; cbn [find fst]; [done|].
  cbn [take_scheduled]. destruct (N.eqb_spec t2 t) as [->|Hne].
  - intros [= -> -> ->]. rewrite Hm. by left.
  - intros Hf. destruct (m !! t2); [right|]; apply IH; try done. by rewrite lookup_delete_ne.
Qed.

(** ** Live sessions *)

Definition live (r : WorkerRegistryInner) (w : Uuid) (s : N) : Prop :=
  exists e, workers r !! w = Some e /\ we_session_id e = s /\ we_status e <> Disconnected.

Definition keeps_live (r r' : WorkerRegistryInner) : Prop := forall w s, live r w s -> live r' w s.

Lemma keeps_live_put r id e e' :
  workers r !! id = Some e -> we_session_id e' = we_session_id e ->
  (we_status e <> Disconnected -> we_status e' <> Disconnected) -> keeps_live r (put_worker id e' r).
Proof.
  intros He Hs Hst w s (e0 & He0 & <- & Hd). unfold live. cbn. destruct (decide (w = id)) as [->|].
  - exists e'. rewrite lookup_insert_eq. simplify_eq. by auto.
  - exists e0. by rewrite lookup_insert_ne.
Qed.

Definition reg_passive (op : RegistryOp) : bool :=
  match op with
  | RegRegister _ _ _ _ _ _ _ _ _ | RegUnregister _ _ _ | RegRemove _ _ | RegReap _ _ _ _ _ _ _ => false
  | _ => true
  end.

Lemma status_add_active e : we_status e <> Disconnected -> we_status (add_active e) <> Disconnected.
Proof. cbn. by case_bool_decide. Qed.
Lemma status_drop_active e : we_status e <> Disconnected -> we_status (drop_active e) <> Disconnected.
Proof. cbn. by case_match. Qed.

Lemma passive_keeps_live op r : reg_passive op = true -> keeps_live r (reg_run op r).
Proof.
  intros Hp. assert (Hrefl : keeps_live r r) by (intros ??; exact id). destruct op; try done; cbn [reg_run].
  - unfold set_rx_clock. destruct (workers r !! id) as [e|] eqn:He; [|done]. destruct (_ =? _); [|done].
    by eapply keeps_live_put.
  - intros w s (e & He & Hs & Hd). exists e. split; [|done]. apply map_lookup_filter_Some. split; [done|].
    unfold prunable. by rewrite bool_decide_false.
  - unfold record_heartbeat_session. destruct (workers r !! id) as [e|] eqn:He; [|done].
    destruct (stale expected e); [done|]. eapply keeps_live_put; [done|done|].
    intros Hd. cbn. rewrite bool_decide_false by done. cbn. by case_match.
  - unfold update_mobile_telemetry. destruct (workers r !! id) as [e|] eqn:He; [|done].
    destruct (stale expected e); [done|]. by eapply keeps_live_put.
  - unfold reserve_dispatch. destruct (workers r !! id) as [e|] eqn:He; [|done]. destruct (_ || _); [done|].
    eapply keeps_live_put; [done|done|apply status_add_active].
  - unfold release_dispatch. destruct (workers r !! id) as [e|] eqn:He; [|done]. destruct (_ =? _); [|done].
    eapply keeps_live_put; [done|done|apply status_drop_active].
  - unfold increment_active_tasks. destruct (workers r !! id) as [e|] eqn:He; [|done].
    eapply keeps_live_put; [done|done|apply status_add_active].
  - unfold decrement_active_tasks. destruct (workers r !! id) as [e|] eqn:He; [|done].
    eapply keeps_live_put; [done|done|apply status_drop_active].
  - unfold record_rejection. destruct (workers r !! id) as [e|] eqn:He; [|done]. destruct (stale expected e); [done|].
    by eapply keeps_live_put.
  - unfold clear_rejections. set (b := match workers r_read !! id with Some _ => _ | None => _ end). destruct b; [|done].
    destruct (workers r !! id) as [e|] eqn:He; [|done]. by eapply keeps_live_put.
Qed.
