(* ===== verification/Stranded.v ===== *)
(** * Stranded: the master's handlers interleaved lock by lock

    The handlers of [crates/master/src/server.rs], the reaper and the scheduler take
    the registry lock and the queue lock one after the other and await in between, so
    other handlers run between their steps.  A [Sys] is the registry, the queue and
    what the running handlers still have to do: the dispatches of a scheduling pass
    ([dispatch] of [scheduler.rs]) and the sweeps owed to sessions that are gone
    ([handle_worker_disconnect], [failover_superseded_session], the loop of the
    reaper).  [sys_step] is one locked step of some handler.  The theorems: no active
    task is ever stranded on a session nobody will sweep, and the handlers of
    [Master.v] are sequences of these steps. *)

From S2P Require Import Prelude Collections RustStr Float Capabilities Placement Blob Task Queue QueueOps QueueInv QueueCore QueueBook QueueAcct QueueSteps Samples Registry RegistryProps Scheduler Master Interleave.
Local Open Scope N_scope.

(** ** The interleaved system *)

(** Where a [dispatch] call is: before [reserve_dispatch], bound for
    [requeue_dispatch_failure], or waiting for room in the session's channel. *)
Inductive Stage := ToReserve | ToRequeue | ToDeliver (sender : ChannelId).

Record Sys := {
  sy_queue : TaskQueueInner;
  sy_registry : WorkerRegistryInner;
  sy_dispatch : list (ScheduleAssignment * Stage);
  sy_failover : list (Uuid * option N)
}.

Definition sys (q : TaskQueueInner) (r : WorkerRegistryInner) (d : list (ScheduleAssignment * Stage))
    (f : list (Uuid * option N)) : Sys :=
  {| sy_queue := q; sy_registry := r; sy_dispatch := d; sy_failover := f |}.

(** A dispatch whose session is not (or no longer) known to be live. *)
Definition undelivered (st : Stage) : Prop := match st with ToDeliver _ => False | _ => True end.

(** No dispatch of task [t] is still to be delivered: a worker only reports progress
    on a task it was sent. *)
Definition was_sent (d : list (ScheduleAssignment * Stage)) (t : TaskId) : Prop :=
  forall a st, (a, st) ∈ d -> sa_task_id a = t -> ~ undelivered st.

Definition reserved_stage (o : result RegistryError ChannelId) : Stage :=
  match o with Ok sender => ToDeliver sender | Err _ => ToRequeue end.

Definition superseded_sweep (w : Uuid) (registration : Registration) : list (Uuid * option N) :=
  match reg_superseded_session registration with Some old => [(w, Some old)] | None => [] end.

(** What a pass hands to [dispatch] after its batch transition. *)
Definition planned (triples : list (TaskId * Uuid * N)) (out : list (TaskId * Uuid * Task)) : list (ScheduleAssignment * Stage) :=
  (fun a => (a, ToReserve)) <$> take_scheduled triples (scheduled_map out).

Section uuid.
Context `{UuidApi}.

(** One lock-sized step of one of the handlers.  A handler that has begun always goes on: that a
    newer registration aborts the older connection's task between two of its locks is left
    out, and so is a panic. *)
Inductive sys_step : Sys -> Sys -> Prop :=
| ss_queue op q r d f : passive op = true -> sys_step (sys q r d f) (sys (run op q) r d f)
| ss_running now w s t q r d f : was_sent d t ->
    sys_step (sys q r d f) (sys (run (OpRunning now w s t) q) r d f)
| ss_registry op q r d f : reg_passive op = true -> sys_step (sys q r d f) (sys q (reg_run op r) d f)
| ss_plan now triples q r d f :
    sys_step (sys q r d f)
      (sys (schedule_tasks_batch_in_sessions now triples q).2 r
         (d ++ planned triples (schedule_tasks_batch_in_sessions now triples q).1) f)
| ss_reserve a q r d1 d2 f :
    sys_step (sys q r (d1 ++ (a, ToReserve) :: d2) f)
      (sys q (reserve_dispatch (sa_worker_id a) (sa_session_id a) r).2
         (d1 ++ (a, reserved_stage (reserve_dispatch (sa_worker_id a) (sa_session_id a) r).1) :: d2) f)
| ss_requeue a q r d1 d2 f :
    sys_step (sys q r (d1 ++ (a, ToRequeue) :: d2) f)
      (sys (requeue_dispatch_failure (sa_task_id a) (sa_worker_id a) (sa_session_id a) q).2 r (d1 ++ d2) f)
| ss_deliver a c msg q r d1 d2 f :
    deliver_if_scheduled (sa_task_id a) (sa_worker_id a) (sa_session_id a) (assign_message (sa_task a)) q = Some msg ->
    sys_step (sys q r (d1 ++ (a, ToDeliver c) :: d2) f) (sys q r (d1 ++ d2) f)
| ss_release a c q r d1 d2 f :
    deliver_if_scheduled (sa_task_id a) (sa_worker_id a) (sa_session_id a) (assign_message (sa_task a)) q = None ->
    sys_step (sys q r (d1 ++ (a, ToDeliver c) :: d2) f)
      (sys q (release_dispatch (sa_worker_id a) (sa_session_id a) r) (d1 ++ d2) f)
| ss_closed a c q r d1 d2 f :
    sys_step (sys q r (d1 ++ (a, ToDeliver c) :: d2) f)
      (sys q (decrement_active_tasks (sa_worker_id a) r).2 (d1 ++ (a, ToRequeue) :: d2) f)
| ss_unregister cur w s q r d f :
    sys_step (sys q r d f)
      (sys q (unregister cur w s r).2 d (f ++ if (unregister cur w s r).1.1 then [(w, s)] else []))
| ss_register cur now epoch w c features addr sender abort q r d f :
    let reg := register_session cur now epoch w c features addr sender abort r in
    sys_step (sys q r d f) (sys q reg.2 d (f ++ superseded_sweep w reg.1.1))
| ss_reap cur c1 c2 now1 now2 timeout r_read q r d f :
    let reap := reap_stale_sessions cur c1 c2 now1 now2 timeout r_read r in
    sys_step (sys q r d f) (sys q reap.2 d (f ++ ((fun '(w, s) => (w, Some s)) <$> reap.1.1)))
| ss_sweep iter now epoch w s reason imm q r d f1 f2 : (forall X, iter X ≡ₚ elements X) ->
    sys_step (sys q r d (f1 ++ (w, s) :: f2))
      (sys (handle_session_disconnected iter now epoch w s reason imm q).2 r d (f1 ++ f2)).

Inductive sys_reachable : Sys -> Prop :=
| sr_init policy cap mtt mtb mab : sys_reachable (sys (with_retention_limits policy cap mtt mtb mab) registry_new [] [])
| sr_step σ σ' : sys_reachable σ -> sys_step σ σ' -> sys_reachable σ'.

(** ** Who looks after a running task *)

Definition pending_dispatch (d : list (ScheduleAssignment * Stage)) (t : TaskId) (w : Uuid) (s : N) : Prop :=
  exists a st, (a, st) ∈ d /\ undelivered st /\ sa_task_id a = t /\ sa_worker_id a = w /\ sa_session_id a = s.

Definition pending_sweep (f : list (Uuid * option N)) (w : Uuid) (s : N) : Prop :=
  exists so, (w, so) ∈ f /\ match so with Some upto => s <= upto | None => True end.

Definition looked_after (r : WorkerRegistryInner) (d : list (ScheduleAssignment * Stage)) (f : list (Uuid * option N))
    (t : TaskId) (e : TaskEntry) : Prop :=
  exists w s, te_assigned_worker_id e = Some w /\ te_assigned_session e = Some s /\
    (live r w s \/ pending_sweep f w s \/ (te_state e = Scheduled /\ pending_dispatch d t w s)).

Definition none_stranded (σ : Sys) : Prop :=
  forall t e, tasks (sy_queue σ) !! t = Some e -> is_active (te_state e) = true ->
  looked_after (sy_registry σ) (sy_dispatch σ) (sy_failover σ) t e.

(** ** Preservation, step by step *)

Lemma looked_after_place r d f t e e' : te_state e = te_state e' ->
  te_assigned_worker_id e = te_assigned_worker_id e' -> te_assigned_session e = te_assigned_session e' ->
  looked_after r d f t e -> looked_after r d f t e'.
Proof. unfold looked_after. by intros -> -> ->. Qed.

Lemma looked_after_mono r d f r' d' f' t e :
  keeps_live r r' -> f ⊆ f' -> (forall w s, pending_dispatch d t w s -> pending_dispatch d' t w s) ->
  looked_after r d f t e -> looked_after r' d' f' t e.
Proof.
  intros Hr Hf Hd (w & s & Hw & Hs & Hc). exists w, s. split_and!; [done..|].
  destruct Hc as [Hl|[(so & Hin & Hso)|[Hst Hp]]]; [left; by apply Hr|right; left|right; right; auto].
  exists so. split; [by apply Hf|done].
Qed.

Lemma keeps_live_refl r : keeps_live r r.
Proof. by intros ??. Qed.

Lemma stranded_queue q q' r d f : no_new_active q q' -> none_stranded (sys q r d f) -> none_stranded (sys q' r d f).
Proof.
  intros Hq Hn t e He Hact. destruct (Hq t e He Hact) as (e0 & He0 & Hst & Hw & Hs).
  eapply looked_after_place; [done..|]. apply (Hn t e0); [done|by rewrite Hst].
Qed.

Lemma stranded_context q r d f r' d' f' :
  keeps_live r r' -> f ⊆ f' -> (forall t w s, pending_dispatch d t w s -> pending_dispatch d' t w s) ->
  none_stranded (sys q r d f) -> none_stranded (sys q r' d' f').
Proof. intros Hr Hf Hd Hn t e He Hact. eapply looked_after_mono; [done|done|by apply Hd|]. by apply (Hn t e). Qed.

Lemma pending_app_l d d' t w s : pending_dispatch d t w s -> pending_dispatch (d ++ d') t w s.
Proof. intros (a & st & Hin & ?). exists a, st. split; [set_solver|done]. Qed.

(** A dispatch dropped or advanced: only its own task loses its cover. *)
Lemma pending_replace d1 d2 a st l t w s :
  pending_dispatch (d1 ++ (a, st) :: d2) t w s ->
  pending_dispatch (d1 ++ l ++ d2) t w s \/
  (undelivered st /\ sa_task_id a = t /\ sa_worker_id a = w /\ sa_session_id a = s).
Proof.
  intros (a' & st' & [Hin|[[= -> ->]|Hin]%elem_of_cons]%elem_of_app & Hu & Hx); [left|by right|left].
  all: exists a', st'; split; [set_solver|done].
Qed.

Lemma stranded_running now w s t q r d f :
  was_sent d t -> none_stranded (sys q r d f) -> none_stranded (sys (run (OpRunning now w s t) q) r d f).
Proof.
  intros Hsent Hn t' e' He' Hact. cbn [run sy_queue sys] in He'. unfold mark_running_from in He'.
  destruct (tasks q !! t) as [e|] eqn:He; [|by apply (Hn t' e')].
  destruct (negb (owned_by e w s)); [by apply (Hn t' e')|].
  destruct (negb _) eqn:Hedge; [by apply (Hn t' e')|]. cbn in He'. destruct (decide (t' = t)) as [->|Hne].
  2: { rewrite lookup_insert_ne in He' by done. by apply (Hn t' e'). }
  rewrite lookup_insert_eq in He'. injection He' as <-.
  destruct (Hn t e He) as (w' & s' & Hw & Hs & Hc); [by revert Hedge; destruct (te_state e)|].
  exists w', s'. entry_cbn. split_and!; [done..|]. destruct Hc as [?|[?|[_ Hp]]]; [by left|by right; left|].
  destruct Hp as (a & st & Hin & Hu & Ha & _). by destruct (Hsent a st Hin Ha).
Qed.

Lemma stranded_plan now triples q r d f :
  let b := schedule_tasks_batch_in_sessions now triples q in
  none_stranded (sys q r d f) -> none_stranded (sys b.2 r (d ++ planned triples b.1) f).
Proof.
  intros b Hn t e He Hact. cbn [sy_queue sy_registry sy_dispatch sy_failover sys] in *.
  set (l := (fun '(t, w, s) => (t, w, Some s)) <$> triples : list (TaskId * Uuid * option N)) in *.
  pose proof (schedule_batch_exact now l q t) as [Hx Ho]. fold b in Hx, Ho. unfold schedule_tasks_batch_in_sessions in b.
  fold l in b. change (schedule_batch_inner now l q) with b in Hx, Ho.
  assert (Hold : tasks b.2 !! t = tasks q !! t -> looked_after r (d ++ planned triples b.1) f t e).
  { intros Heq. rewrite Heq in He.
    eapply looked_after_mono; [apply keeps_live_refl|done|intros ??; apply pending_app_l|by apply (Hn t e)]. }
  destruct (queued_entry q t) as [e0|] eqn:Hq; [|by apply Hold].
  destruct (first_for t l) as [[[t1 w] so]|] eqn:Hf; [|by apply Hold]. destruct Hx as [Hx Hout].
  rewrite He in Hx. injection Hx as ->.
  assert (Hf2 : exists s, first_for t triples = Some (t1, w, s) /\ so = Some s).
  { clear -Hf. unfold l, first_for in *. induction triples as [|[[t2 w2] s2] tr IH]; [done|].
    cbn in Hf |- *. destruct (t2 =? t); [injection Hf as <- <- <-; by eexists|by apply IH]. }
  destruct Hf2 as (s & Hf2 & ->). exists w, s. split_and!; [done..|]. right; right. split; [done|].
  destruct (scheduled_map_present _ _ _ _ Hout) as [task Htask].
  pose proof (take_scheduled_first triples _ t task t1 w s Htask Hf2) as Hin.
  eexists _, ToReserve. split; [apply elem_of_app; right; apply list_elem_of_fmap; by eexists|done].
Qed.

Lemma stranded_reserve a q r d1 d2 f :
  let o := reserve_dispatch (sa_worker_id a) (sa_session_id a) r in
  none_stranded (sys q r (d1 ++ (a, ToReserve) :: d2) f) ->
  none_stranded (sys q o.2 (d1 ++ (a, reserved_stage o.1) :: d2) f).
Proof.
  intros o Hn t e He Hact. cbn [sy_queue sy_registry sy_dispatch sy_failover sys] in *.
  destruct (Hn t e He Hact) as (w & s & Hw & Hs & Hc). cbn in Hc. exists w, s. split_and!; [done..|].
  assert (Hk : keeps_live r o.2) by (apply (passive_keeps_live (RegReserve (sa_worker_id a) (sa_session_id a))); done).
  destruct Hc as [?|[?|[Hst Hp]]]; [left; by apply Hk|by right; left|].
  apply (pending_replace _ _ _ _ [(a, reserved_stage o.1)]) in Hp as [Hp|(_ & <- & <- & <-)]; [by right; right|].
  subst o. destruct (reserve_dispatch (sa_worker_id a) (sa_session_id a) r) as [o r'] eqn:Hr. cbn [fst snd] in *.
  destruct o as [c|x]; cbn [reserved_stage].
  - left. apply Hk. unfold reserve_dispatch in Hr. destruct (workers r !! sa_worker_id a) as [we|] eqn:Hwe; [|done].
    destruct (_ || _) eqn:Hor; [done|]. rewrite orb_false_iff, negb_false_iff, bool_decide_eq_false, N.eqb_eq in Hor.
    exists we. split; [done|apply Hor].
  - right; right. split; [done|]. exists a, ToRequeue. split; [set_solver|done].
Qed.

Lemma requeue_not_active q t e w s :
  tasks (requeue_dispatch_failure t w s q).2 !! t = Some e -> te_state e = Scheduled ->
  te_assigned_worker_id e = Some w -> te_assigned_session e = Some s -> False.
Proof.
  unfold requeue_dispatch_failure. destruct (tasks q !! t) as [e0|] eqn:He0; [|cbn; congruence].
  destruct (negb _ || negb _) eqn:Hg; cbn [snd].
  - rewrite He0. intros [= ->] Hst Hw Hs. revert Hg. rewrite Hst. cbn. unfold owned_by. rewrite Hw, Hs.
    rewrite bool_decide_true by done. cbn. by rewrite ?N.eqb_refl, ?bool_decide_true.
  - cbn. rewrite lookup_insert_eq. by intros [= <-].
Qed.

Lemma stranded_requeue a q r d1 d2 f : core_inv q ->
  none_stranded (sys q r (d1 ++ (a, ToRequeue) :: d2) f) ->
  none_stranded (sys (requeue_dispatch_failure (sa_task_id a) (sa_worker_id a) (sa_session_id a) q).2 r (d1 ++ d2) f).
Proof.
  intros Hc Hn t e He Hact. cbn [sy_queue sy_registry sy_dispatch sy_failover sys] in *.
  pose proof (passive_no_new_active (OpDispatchFailed (sa_task_id a) (sa_worker_id a) (sa_session_id a)) q Hc eq_refl) as Hq.
  destruct (stranded_queue _ _ _ _ _ Hq Hn t e He Hact) as (w & s & Hw & Hs & Hcov). cbn in Hcov.
  exists w, s. split_and!; [done..|]. destruct Hcov as [?|[?|[Hst Hp]]]; [by left|by right; left|right; right].
  split; [done|]. apply (pending_replace _ _ _ _ []) in Hp as [Hp|(_ & <- & <- & <-)]; [done|].
  by destruct (requeue_not_active _ _ _ _ _ He).
Qed.

Lemma pending_delivered d1 d2 a c t w s :
  pending_dispatch (d1 ++ (a, ToDeliver c) :: d2) t w s -> pending_dispatch (d1 ++ d2) t w s.
Proof. intros Hp. by apply (pending_replace _ _ _ _ []) in Hp as [Hp|[[] _]]. Qed.

(** The registry loses a live session and the sweep list gains it. *)
Definition sweeps_lost (r r' : WorkerRegistryInner) (f' : list (Uuid * option N)) : Prop :=
  forall w s, live r w s -> live r' w s \/ pending_sweep f' w s.

Lemma stranded_lost q r d f r' f' :
  sweeps_lost r r' f' -> none_stranded (sys q r d f) -> none_stranded (sys q r' d (f ++ f')).
Proof.
  intros Hl Hn t e He Hact. destruct (Hn t e He Hact) as (w & s & Hw & Hs & Hc). cbn in *.
  exists w, s. split_and!; [done..|].
  destruct Hc as [Hlive|[(so & Hin & Hso)|Hp]]; [|right; left; exists so; set_solver|by right; right].
  destruct (Hl w s Hlive) as [?|(so & Hin & Hso)]; [by left|]. right; left. exists so. set_solver.
Qed.

Lemma lost_unregister cur w s r :
  sweeps_lost r (unregister cur w s r).2 (if (unregister cur w s r).1.1 then [(w, s)] else []).
Proof.
  intros w' s' (e & He & <- & Hd). unfold unregister. destruct (workers r !! w) as [e0|] eqn:He0; [|by left; exists e].
  destruct (stale s e0) eqn:Hs; [by left; exists e|]. case_bool_decide as Hst; [by left; exists e|]. cbn [fst snd].
  destruct (decide (w' = w)) as [->|Hne]; [right|left; exists e; cbn; by rewrite lookup_insert_ne].
  simplify_eq. exists s. split; [by left|]. destruct s as [s|]; [|done]. cbn in Hs.
  apply negb_false_iff, N.eqb_eq in Hs. lia.
Qed.

Lemma lost_register cur now epoch w c features addr sender abort r :
  let reg := register_session cur now epoch w c features addr sender abort r in
  sweeps_lost r reg.2 (superseded_sweep w reg.1.1).
Proof.
  intros reg w' s' (e & He & <- & Hd). subst reg. unfold register_session, superseded_sweep. cbn [workers next_session_id].
  destruct (decide (w' = w)) as [->|Hne].
  - rewrite He. rewrite bool_decide_false by done. right. eexists. split; [by left|]. cbn. lia.
  - left. exists e. destruct (workers r !! w); cbn; by rewrite lookup_insert_ne.
Qed.

Lemma lost_reap cur c1 c2 now1 now2 timeout r_read r :
  let reap := reap_stale_sessions cur c1 c2 now1 now2 timeout r_read r in
  sweeps_lost r reap.2 ((fun '(w, s) => (w, Some s)) <$> reap.1.1).
Proof.
  intros reap w s (e & He & <- & Hd). subst reap. unfold reap_stale_sessions. set (ids := we_worker_id <$> _).
  pose proof (reap_all_lookup cur c2 now2 timeout ids r w) as Hl. rewrite He in Hl.
  pose proof (reap_all_reaped cur c2 now2 timeout ids r w (we_session_id e)) as Hr.
  destruct (bool_decide (w ∈ ids) && reap_candidate c2 now2 timeout e) eqn:Hb; [right|left; by exists e].
  apply andb_true_iff in Hb as [Hin%bool_decide_eq_true Hc]. exists (Some (we_session_id e)). split; [|lia].
  apply list_elem_of_fmap. exists (w, we_session_id e). split; [done|]. apply Hr. split; [done|]. by exists e.
Qed.

Lemma stranded_sweep iter now epoch w s reason imm q r d f1 f2 : (forall X, iter X ≡ₚ elements X) ->
  none_stranded (sys q r d (f1 ++ (w, s) :: f2)) ->
  none_stranded (sys (handle_session_disconnected iter now epoch w s reason imm q).2 r d (f1 ++ f2)).
Proof.
  intros Hiter Hn t e He Hact. destruct (sweep_no_new_active iter now epoch w s reason imm q Hiter) as [Hq Hsw].
  cbn [sy_queue sy_registry sy_dispatch sy_failover sys] in *.
  destruct (stranded_queue _ _ _ _ _ Hq Hn t e He Hact) as (w' & s' & Hw & Hs & Hcov). cbn in Hcov.
  exists w', s'. split_and!; [done..|].
  destruct Hcov as [?|[(so & Hin & Hso)|?]]; [by left|right; left|by right; right].
  apply elem_of_app in Hin as [Hin|[[= -> ->]|Hin]%elem_of_cons]; [exists so; set_solver| |exists so; set_solver].
  specialize (Hsw t). rewrite He in Hsw. unfold sweepable in Hsw. rewrite Hact, Hw, bool_decide_true in Hsw by done.
  unfold session_matches in Hsw. rewrite Hs in Hsw. destruct s as [s|]; [|done]. cbn in Hsw.
  apply N.leb_gt in Hsw. lia.
Qed.

Definition sys_inv (σ : Sys) : Prop := core_inv (sy_queue σ) /\ reg_inv (sy_registry σ) /\ none_stranded σ.

Lemma sys_step_inv σ σ' : sys_step σ σ' -> sys_inv σ -> sys_inv σ'.
Proof.
  intros Hst (Hc & Hr & Hn). unfold sys_inv. destruct Hst; cbn [sy_queue sy_registry sys] in *.
  - split_and!; [by apply run_core|done|]. eapply stranded_queue; [|done]. by apply passive_no_new_active.
  - split_and!; [by apply run_core|done|]. by apply stranded_running.
  - split_and!; [done|by apply reg_run_inv|]. eapply stranded_context; [by apply passive_keeps_live|done|done|done].
  - split_and!; [apply (run_core (OpScheduleBatch now _) q Hc)|done|by apply stranded_plan].
  - split_and!; [done|apply (reg_run_inv (RegReserve _ _) r Hr)|by apply stranded_reserve].
  - split_and!; [apply (run_core (OpDispatchFailed _ _ _) q Hc)|done|by apply stranded_requeue].
  - split_and!; [done..|]. eapply stranded_context; [apply keeps_live_refl|done|intros ???; apply pending_delivered|done].
  - split_and!; [done|apply (reg_run_inv (RegRelease _ _) r Hr)|].
    eapply stranded_context; [apply (passive_keeps_live (RegRelease _ _)); done|done|intros ???; apply pending_delivered|done].
  - split_and!; [done|apply (reg_run_inv (RegDecrement _) r Hr)|].
    eapply stranded_context; [apply (passive_keeps_live (RegDecrement _)); done|done| |done].
    intros t w s (a' & st & Hin & Hu & Hx). exists a', st. split; [|done].
    apply elem_of_app in Hin as [?|[[= -> ->]|?]%elem_of_cons]; [set_solver|done|set_solver].
  - split_and!; [done|apply (reg_run_inv (RegUnregister cur w s) r Hr)|]. eapply stranded_lost; [apply lost_unregister|done].
  - split_and!; [done|apply (reg_run_inv (RegRegister cur now epoch w c features addr sender abort) r Hr)|].
    eapply stranded_lost; [apply lost_register|done].
  - split_and!; [done|apply (reg_run_inv (RegReap cur c1 c2 now1 now2 timeout r_read) r Hr)|].
    eapply stranded_lost; [apply lost_reap|done].
  - split_and!; [|done|by apply stranded_sweep]. apply (run_core (OpDisconnect iter now epoch w s reason imm) q Hc).
Qed.

Lemma sys_reachable_inv σ : sys_reachable σ -> sys_inv σ.
Proof.
  induction 1 as [policy cap mtt mtb mab|σ σ' _ IH Hst]; [|by eapply sys_step_inv].
  split_and!; [apply init_inv|by split|]. by intros t e.
Qed.

(** ** The handlers of [Master.v] as sequences of steps *)

(** The whole handlers, each run alone.  [closed] are the waiters whose client has
    hung up meanwhile; a client's own oneshot is fresh. *)
Inductive handler_step (closed : WaiterId -> bool) : Master -> Master -> Prop :=
| hs_submit now epoch t tx admitted m : (forall x t', tx = Some x -> ~ waiting m t' x) ->
    handler_step closed m (submit_task now epoch t tx admitted closed m).2
| hs_cancel tid reason m : handler_step closed m (cancel_task_and_notify tid reason m).2
| hs_wait tid tx q_fast m : handler_step closed m (wait_task tid tx q_fast m).2
| hs_result now epoch w s r problem m : handler_step closed m (apply_task_result now epoch w s r problem m)
| hs_oversized w s tid reason banner m : handler_step closed m (handle_oversized_assignment w s tid reason banner m)
| hs_progress now w s tid status m : handler_step closed m (apply_task_progress now w s tid status m)
| hs_checkpoint w s tid cp m : handler_step closed m (apply_checkpoint_message w s tid cp m)
| hs_telemetry w s status m : handler_step closed m (apply_mobile_telemetry w s status m)
| hs_disconnect cur iter now epoch w s reason imm m : (forall X, iter X ≡ₚ elements X) ->
    handler_step closed m (handle_worker_disconnect cur iter now epoch w s reason imm m)
| hs_register cur iter now epoch w c features addr sender abort clock acked m : (forall X, iter X ≡ₚ elements X) ->
    handler_step closed m (register_worker cur iter now epoch w c features addr sender abort clock acked m).2
| hs_reaper cur iter clocks now epoch config m : (forall X, iter X ≡ₚ elements X) ->
    handler_step closed m (reaper_pass cur iter clocks now epoch config m)
| hs_schedule c cur iter now epoch open max_batch report m m' : (forall X, iter X ≡ₚ elements X) ->
    schedule_batch c cur iter now epoch open max_batch m = Some (report, m') -> handler_step closed m m'.

(** A master with dispatches [d] and sweeps [f] under way. *)
Definition mid (m : Master) (d : list (ScheduleAssignment * Stage)) (f : list (Uuid * option N)) : Sys :=
  sys (m_queue m) (m_registry m) d f.
Definition quiet (m : Master) : Sys := mid m [] [].

(** The parts of a master the system sees. *)
Definition same_sys (m m' : Master) : Prop := m_queue m' = m_queue m /\ m_registry m' = m_registry m.

Lemma same_sys_steps m m' d f : same_sys m m' -> rtc sys_step (mid m d f) (mid m' d f).
Proof. unfold mid. by intros [-> ->]. Qed.

Lemma wake_same tid r m : same_sys m (wake tid r m).
Proof. unfold wake. by destruct (m_waiters m !! tid). Qed.

Lemma resolve_same tids w m : same_sys m (resolve_terminal_waiters tids w m).
Proof.
  revert m. induction tids as [|t tids IH]; intros m; [done|].
  change (same_sys m (resolve_terminal_waiters tids w (resolve_one w m t))).
  assert (H1 : same_sys m (resolve_one w m t)).
  { unfold resolve_one. destruct (terminal_result t w (m_queue m)); [apply wake_same|done]. }
  destruct (IH (resolve_one w m t)) as [IH1 IH2]. destruct H1 as [H1 H2]. split; congruence.
Qed.

Lemma queue_steps op m d f : passive op = true -> rtc sys_step (mid m d f) (mid (set_queue (run op (m_queue m)) m) d f).
Proof. intros Hp. apply rtc_once. by apply ss_queue. Qed.

Lemma registry_steps op m d f :
  reg_passive op = true -> rtc sys_step (mid m d f) (mid (set_registry (reg_run op (m_registry m)) m) d f).
Proof. intros Hp. apply rtc_once. by apply ss_registry. Qed.

Lemma sweep_steps iter now epoch w s reason imm m d f : (forall X, iter X ≡ₚ elements X) ->
  rtc sys_step (mid m d ((w, s) :: f))
    (mid (set_queue (handle_session_disconnected iter now epoch w s reason imm (m_queue m)).2 m) d f).
Proof. intros Hiter. apply rtc_once. by apply (ss_sweep iter now epoch w s reason imm _ _ d [] f). Qed.

Lemma failover_steps iter now epoch w s reason imm m d : (forall X, iter X ≡ₚ elements X) ->
  rtc sys_step (mid m d [(w, s)]) (mid (failover_session_tasks iter now epoch w s reason imm m) d []).
Proof.
  intros Hiter. unfold failover_session_tasks. pose proof (sweep_steps iter now epoch w s reason imm m d [] Hiter) as Hs.
  destruct (handle_session_disconnected _ _ _ _ _ _ _ _) as [affected q']. cbn [snd] in Hs.
  destruct (is_empty affected); [done|]. etrans; [exact Hs|]. apply same_sys_steps.
  exact (resolve_same affected (Some w) (set_queue q' m)).
Qed.

Lemma disconnect_steps cur iter now epoch w s reason imm m d : (forall X, iter X ≡ₚ elements X) ->
  rtc sys_step (mid m d []) (mid (handle_worker_disconnect cur iter now epoch w s reason imm m) d []).
Proof.
  intros Hiter. unfold handle_worker_disconnect.
  assert (H1 : sys_step (mid m d []) (sys (m_queue m) (unregister cur w s (m_registry m)).2 d
    ([] ++ if (unregister cur w s (m_registry m)).1.1 then [(w, s)] else []))) by apply ss_unregister.
  destruct (unregister cur w s (m_registry m)) as [[[] aborted] reg]; cbn [fst snd app] in H1.
  - eapply rtc_l; [exact H1|]. by apply (failover_steps iter now epoch w s reason imm (set_registry reg m) d).
  - by apply rtc_once.
Qed.

Lemma register_steps cur iter now epoch w c features addr sender abort clock acked m : (forall X, iter X ≡ₚ elements X) ->
  rtc sys_step (quiet m) (quiet (register_worker cur iter now epoch w c features addr sender abort clock acked m).2).
Proof.
  intros Hiter. unfold register_worker. destruct (_ =? 0); [done|].
  pose proof (ss_register cur now epoch w c features addr sender abort (m_queue m) (m_registry m) [] []) as H1.
  cbn zeta in H1. destruct (register_session _ _ _ _ _ _ _ _ _ _) as [[registration aborted] reg]. cbn [fst snd app] in H1.
  set (m1 := set_registry (set_rx_clock _ _ clock reg) m). set (m2 := match reg_superseded_session registration with Some _ => _ | None => _ end).
  assert (H2 : rtc sys_step (quiet m) (quiet m2)).
  { eapply rtc_l; [exact H1|]. unfold superseded_sweep.
    etrans; [apply (registry_steps (RegRxClock w (reg_session_id registration) clock) (set_registry reg m)); done|].
    subst m2. destruct (reg_superseded_session registration) as [old|]; [|done].
    by apply (failover_steps iter now epoch w (Some old) _ true m1 []). }
  destruct acked; [done|]. etrans; [exact H2|]. by apply disconnect_steps.
Qed.

Lemma reaper_failover_steps iter now epoch reaped m : (forall X, iter X ≡ₚ elements X) ->
  rtc sys_step (mid m [] ((fun '(w, s) => (w, Some s)) <$> reaped)) (quiet (reaper_failover iter now epoch reaped m).2).
Proof.
  intros Hiter. revert m. induction reaped as [|[w s] reaped IH]; intros m; cbn [reaper_failover fmap list_fmap]; [done|].
  pose proof (sweep_steps iter now epoch w (Some s) reaper_reason false m []) as Hs.
  destruct (handle_session_disconnected _ _ _ _ _ _ _ _) as [affected q']. cbn [snd] in Hs.
  specialize (IH (resolve_terminal_waiters affected (Some w) (set_queue q' m))).
  destruct (reaper_failover iter now epoch reaped _) as [n m']. cbn [snd] in *.
  etrans; [by apply Hs|]. etrans; [|exact IH]. apply same_sys_steps. exact (resolve_same affected (Some w) (set_queue q' m)).
Qed.

Lemma reaper_steps cur iter clocks now epoch config m : (forall X, iter X ≡ₚ elements X) ->
  rtc sys_step (quiet m) (quiet (reaper_pass cur iter clocks now epoch config m)).
Proof.
  intros Hiter. unfold reaper_pass.
  pose proof (ss_reap cur clocks clocks now now (rc_timeout config) (m_registry m) (m_queue m) (m_registry m) [] []) as H1.
  cbn zeta in H1. destruct (reap_stale_sessions _ _ _ _ _ _ _ _) as [[reaped aborted] reg]. cbn [fst snd app] in H1.
  set (reg' := match rc_stale_worker_timeout config with Some _ => _ | None => _ end).
  set (f := (fun '(w, s) => (w, Some s)) <$> reaped) in H1.
  assert (H2 : rtc sys_step (quiet m) (mid (set_registry reg' m) [] f)).
  { eapply rtc_l; [exact H1|]. subst reg'. destruct (rc_stale_worker_timeout config) as [t|]; [|done].
    by apply (registry_steps (RegPrune cur now t) (set_registry reg m)). }
  etrans; [exact H2|]. subst f. destruct reaped as [|x reaped]; [done|]. cbn [is_empty].
  pose proof (reaper_failover_steps iter now epoch (x :: reaped) (set_registry reg' m) Hiter) as H3.
  destruct (reaper_failover iter now epoch (x :: reaped) _) as [total m']. cbn [snd] in H3.
  by destruct (0 <? total).
Qed.

Lemma dispatch_steps cur iter now epoch open a m d : (forall X, iter X ≡ₚ elements X) ->
  rtc sys_step (mid m ((a, ToReserve) :: d) []) (mid (dispatch cur iter now epoch open a m) d []).
Proof.
  intros Hiter. unfold dispatch. set (w := sa_worker_id a). set (s := sa_session_id a). set (t := sa_task_id a).
  pose proof (ss_reserve a (m_queue m) (m_registry m) [] d []) as H1. fold w s in H1. cbn [app] in H1.
  destruct (reserve_dispatch w s (m_registry m)) as [o reg]. cbn [fst snd] in H1.
  eapply rtc_l; [exact H1|]. clear H1. destruct o as [c|x]; cbn [reserved_stage].
  2: { apply rtc_once. apply (ss_requeue a (m_queue m) reg [] d []). }
  destruct (open c).
  - change (m_queue (set_registry reg m)) with (m_queue m).
    destruct (deliver_if_scheduled t w s (assign_message (sa_task a)) (m_queue m)) as [msg|] eqn:Hd.
    + apply rtc_once. by apply (ss_deliver a c msg (m_queue m) reg [] d []).
    + apply rtc_once. by apply (ss_release a c (m_queue m) reg [] d []).
  - eapply rtc_l; [apply (ss_closed a c (m_queue m) reg [] d [])|].
    eapply rtc_l; [apply (ss_requeue a (m_queue m) (decrement_active_tasks w reg).2 [] d [])|].
    cbn [app]. set (m2 := set_queue _ _). exact (disconnect_steps cur iter now epoch w (Some s) dispatch_failure_reason false m2 d Hiter).
Qed.

Lemma dispatch_all_steps cur iter now epoch open l m : (forall X, iter X ≡ₚ elements X) ->
  rtc sys_step (mid m ((fun a => (a, ToReserve)) <$> l) [])
    (quiet (foldl (fun m a => dispatch cur iter now epoch open a m) m l)).
Proof.
  intros Hiter. revert m. induction l as [|a l IH]; intros m; [done|]. cbn [fmap list_fmap foldl].
  etrans; [by apply dispatch_steps|]. apply IH.
Qed.

Lemma scan_views_assignments now mb vs ps b ps' : scan_views now mb vs ps = Some (b, ps') ->
  sr_assignments (ps_report ps') = sr_assignments (ps_report ps).
Proof.
  revert ps. induction vs as [|v vs IH]; intros ps; cbn [scan_views]; [by intros [= <- <-]|].
  destruct (place v (ps_engine ps)) as [[[i|reason|reason]|] e]; [| | |done].
  - destruct (_ || _); [by intros [= <- <-]|]. by intros ->%IH.
  - assert (Hr : forall b : bool, sr_assignments (if b then push_skipped (tv_task_id v) reason (ps_report ps) else ps_report ps)
      = sr_assignments (ps_report ps)) by (by intros []).
    destruct (_ =? 0); [intros [= <- <-]; apply Hr|]. intros ->%IH. apply Hr.
  - by intros ->%IH.
Qed.

Lemma scan_pages_assignments fuel c now mb ws pages k cur n ps ps' :
  scan_pages fuel c now mb ws pages k cur n ps = Some ps' ->
  sr_assignments (ps_report ps') = sr_assignments (ps_report ps).
Proof.
  revert k cur n ps. induction fuel as [|fuel IH]; intros k cur n ps; cbn [scan_pages]; [done|].
  destruct (_ =? 0); [by intros [= <-]|]. destruct (ready_views _ _ _) as [vs next].
  assert (Hn : ps_report (notice_gpu c now ws vs ps) = ps_report ps) by (unfold notice_gpu; by case_match).
  destruct (scan_views _ _ _ _) as [[b ps1]|] eqn:Hs; [|done]. apply scan_views_assignments in Hs. rewrite Hn in Hs.
  destruct b; [by intros [= <-]|]. destruct next; [|by intros [= <-]]. intros ->%IH. done.
Qed.

Lemma plan_steps c now max_batch m report m' :
  plan_batch c now max_batch m = Some (report, m') ->
  rtc sys_step (quiet m) (mid m' ((fun a => (a, ToReserve)) <$> sr_assignments report) []).
Proof.
  unfold plan_batch. set (m1 := set_queue (process_delayed_retries now (m_queue m)).2 m).
  assert (H1 : rtc sys_step (quiet m) (quiet m1)) by (by apply (queue_steps (OpBackoff now) m)).
  destruct (is_empty _).
  { intros [= <- <-]. assert (Hs : forall l r, sr_assignments (foldl (fun r tid => push_skipped tid NoEligibleWorkers r) r l) = sr_assignments r).
    { intros l. induction l as [|t l IH]; intros r; [done|]. cbn. by rewrite IH. }
    rewrite Hs. exact H1. }
  destruct (gpu_demand _ _ _ _ _) as [[waiting recent] demand]. set (e := set_rr _ _). set (start := Build_Pass _ _ _ _).
  intros (ps & Hps & Hx)%bind_Some. assert (Hr : sr_assignments (ps_report ps) = []).
  { destruct (_ && _); [by apply scan_pages_assignments in Hps|by injection Hps as <-]. }
  revert Hx. destruct (is_empty (ps_placements ps)).
  { intros [= <- <-]. rewrite Hr. exact H1. }
  set (triples := assignment_triples _ _).
  pose proof (ss_plan now triples (m_queue m1) (m_registry m1) [] []) as H2. cbn [set_demand m_queue].
  destruct (schedule_tasks_batch_in_sessions now triples (m_queue m1)) as [out q]. cbn [fst snd app] in H2.
  intros [= <- <-]. cbn [sr_assignments]. rewrite Hr. eapply rtc_r; [exact H1|exact H2].
Qed.

Lemma result_steps now epoch w s r problem m : rtc sys_step (quiet m) (quiet (apply_task_result now epoch w s r problem m)).
Proof.
  unfold apply_task_result. set (r' := with_worker _ _ _).
  pose proof (queue_steps (OpResult now epoch w s r') m [] [] eq_refl) as H1. cbn [run] in H1.
  destruct (record_result_from now epoch w s r' (m_queue m)) as [[o|x] q]; cbn [snd] in H1; [|exact H1].
  set (reg1 := (decrement_active_tasks w (m_registry (set_queue q m))).2).
  set (reg2 d := if ro_rejected o then (record_rejection now w s reg1).2
                 else match d with Late => reg1 | _ => clear_rejections w reg1 reg1 end).
  assert (H2 : forall d, rtc sys_step (quiet m) (quiet (set_registry (reg2 d) (set_queue q m)))).
  { intros d. etrans; [exact H1|]. etrans; [apply (registry_steps (RegDecrement w) (set_queue q m)); done|].
    subst reg2. cbn beta. destruct (ro_rejected o); [by apply (registry_steps (RegReject now w s) (set_registry reg1 (set_queue q m)))|].
    destruct d; try done; by apply (registry_steps (RegClear w reg1) (set_registry reg1 (set_queue q m))). }
  destruct (ro_disposition o); [|exact (H2 Requeued)|exact (H2 Late)|exact H1].
  etrans; [exact (H2 Terminal)|]. apply same_sys_steps.
  exact (wake_same (res_task_id r') r' (set_registry (reg2 Terminal) (set_queue q m))).
Qed.

Lemma oversized_steps w s tid reason banner m :
  rtc sys_step (quiet m) (quiet (handle_oversized_assignment w s tid reason banner m)).
Proof.
  unfold handle_oversized_assignment. set (r := result_failure _ _ _ _ _ _ _).
  pose proof (queue_steps (OpUnsendable w (Some s) r) m [] [] eq_refl) as H1. cbn [run] in H1.
  destruct (fail_unsendable_assignment w (Some s) r (m_queue m)) as [[d|x] q]; cbn [snd] in H1; [|exact H1].
  pose proof (registry_steps (RegDecrement w) (set_queue q m) [] [] eq_refl) as H2. cbn [reg_run] in H2.
  destruct d; try done; (etrans; [exact H1|]); (etrans; [exact H2|]); [|done..].
  apply same_sys_steps. exact (wake_same tid r (set_registry (decrement_active_tasks w (m_registry (set_queue q m))).2 (set_queue q m))).
Qed.

(** C3 No active task is ever stranded.  However the handlers interleave, every task
    that is scheduled or running is on a session that is live, or on one a sweep is
    still owed to, or its dispatch is still to find the session gone and put the task
    back; once no handler is under way, every active task is on a live session. *)
Theorem no_task_stranded σ :
  sys_reachable σ ->
  none_stranded σ /\
  (sy_dispatch σ = [] -> sy_failover σ = [] ->
   forall t e, tasks (sy_queue σ) !! t = Some e -> is_active (te_state e) = true ->
   exists w s, te_assigned_worker_id e = Some w /\ te_assigned_session e = Some s /\ live (sy_registry σ) w s).
Proof.
  intros Hr. destruct (sys_reachable_inv σ Hr) as (_ & _ & Hn). split; [done|]. intros Hd Hf t e He Hact.
  destruct (Hn t e He Hact) as (w & s & Hw & Hs & Hc). rewrite Hd, Hf in Hc. exists w, s. split_and!; [done..|].
  destruct Hc as [?|[(so & Hin%not_elem_of_nil & _)|[_ (a & st & Hin%not_elem_of_nil & _)]]]; done.
Qed.

Lemma handler_sys_steps closed m m' : handler_step closed m m' -> rtc sys_step (quiet m) (quiet m').
Proof.
  destruct 1.
  - unfold submit_task. destruct (negb _ && negb _); [done|]. set (m1 := match tx with Some _ => _ | None => _ end).
    pose proof (queue_steps (OpSubmit now epoch t 0) m1 [] [] eq_refl) as H1. cbn [run] in H1. unfold submit.
    assert (Hs1 : same_sys m m1) by (subst m1; by destruct tx).
    destruct (submit_with_priority now epoch t 0 (m_queue m1)) as [[o|e] q]; cbn [snd] in *.
    all: etrans; [apply (same_sys_steps m m1 [] [] Hs1)|]; etrans; [exact H1|]; apply same_sys_steps.
    { done. }
    unfold prune_closed_waiters. by destruct (m_waiters _ !! _).
  - unfold cancel_task_and_notify. pose proof (queue_steps (OpCancel tid (Some reason)) m [] [] eq_refl) as H1. cbn [run] in H1.
    destruct (cancel_task_detailed tid (Some reason) (m_queue m)) as [[o|e] q]; cbn [snd] in *; [|done].
    destruct (negb _); [done|]. cbn [snd]. etrans; [exact H1|]. apply same_sys_steps.
    match goal with |- same_sys _ (notify_one (wake ?t ?r ?m)) => exact (wake_same t r m) end.
  - unfold wait_task. repeat case_match; try done; by apply same_sys_steps.
  - apply result_steps.
  - apply oversized_steps.
  - unfold apply_task_progress. case_bool_decide; [|done]. apply rtc_once.
    apply (ss_running now w s tid (m_queue m) (m_registry m) [] []). by intros a st Hin%not_elem_of_nil.
  - by apply (queue_steps (OpCheckpointFrom w (Some s) tid cp) m).
  - unfold apply_mobile_telemetry. pose proof (registry_steps (RegTelemetry w (Some s) status) m [] [] eq_refl) as H1. cbn [reg_run] in H1.
    destruct (update_mobile_telemetry w (Some s) status (m_registry m)) as [[[]|e] reg]; done.
  - by apply disconnect_steps.
  - by apply register_steps.
  - by apply reaper_steps.
  - unfold schedule_batch in *. match goal with H : (_ ← _; _) = _ |- _ => apply bind_Some in H as ([report' m1] & Hp & Hx) end.
    injection Hx as <- <-. etrans; [eapply plan_steps; exact Hp|]. by apply dispatch_all_steps.
Qed.

(** C14 Every handler of the master (submission, cancellation, waiting, worker
    reports, registration, disconnection, the reaper's tick, a scheduling pass with
    its dispatches) is a sequence of the locked steps, and leaves none of its
    dispatches or sweeps undone. *)
Theorem handlers_are_interleavings closed m m' : handler_step closed m m' -> rtc sys_step (quiet m) (quiet m').
Proof. apply handler_sys_steps. Qed.
End uuid.

(** ** Samples *)

(** Worker 70 registers, task 1 is planned on its session 1, and the session is lost
    before the dispatch reserves its slot. *)
Definition sample_sys_regs : WorkerRegistryInner :=
  (register_session None 100 1 70 sample_caps 0 (str "10.0.0.7:9") 1 (Some 11) registry_new).2.
Definition sample_batch : list (TaskId * Uuid * Task) * TaskQueueInner :=
  schedule_tasks_batch_in_sessions 12 [(1, 70, 1)] sample_queue.
Definition sample_sys : Sys :=
  sys sample_batch.2 (unregister None 70 (Some 1) sample_sys_regs).2 (planned [(1, 70, 1)] sample_batch.1) [(70, Some 1)].

Lemma sample_sys_reachable : sys_reachable sample_sys.
Proof.
  assert (R0 : sys_reachable (sys sample_queue registry_new [] [])).
  { apply (sr_step (sys (submit_with_priority 10 1 (sample_task 1) 0
      (with_retention_limits retry_policy_default (Some 4) 1 1000000 1000000)).2 registry_new [] [])).
    2: apply (ss_queue (OpSubmit 11 1 (sample_task 2) 5)); done.
    eapply sr_step; [apply (sr_init retry_policy_default (Some 4) 1 1000000 1000000)|].
    apply (ss_queue (OpSubmit 10 1 (sample_task 1) 0)); done. }
  assert (R1 : sys_reachable (sys sample_queue sample_sys_regs [] [])).
  { eapply sr_step; [exact R0|]. exact (ss_register None 100 1 70 sample_caps 0 (str "10.0.0.7:9") 1 (Some 11) _ _ [] []). }
  eapply sr_step; [eapply sr_step; [exact R1|exact (ss_plan 12 [(1, 70, 1)] sample_queue _ [] [])]|].
  exact (ss_unregister None 70 (Some 1) _ _ _ []).
Qed.

Theorem no_task_stranded_witness :
  exists e, tasks (sy_queue sample_sys) !! 1 = Some e /\ te_state e = Scheduled /\
    looked_after (sy_registry sample_sys) (sy_dispatch sample_sys) (sy_failover sample_sys) 1 e.
Proof.
  eexists. split; [vm_compute; reflexivity|]. split; [vm_compute; reflexivity|].
  apply (proj1 (no_task_stranded sample_sys sample_sys_reachable) 1); vm_compute; reflexivity.
Defined.

Definition sample_master : Master := {|
  m_queue := sample_batch.2; m_registry := sample_sys_regs; m_waiters := ∅; m_sent := []; m_outbox := [];
  m_gpu_demand := gpu_demand_default; m_rr_cursor := 0; m_notified := false
|}.

Theorem handlers_are_interleavings_witness :
  let m' := handle_worker_disconnect None elements 20 2 70 (Some 1) (str "gone") true sample_master in
  get_state 1 (m_queue m') = Some Queued /\ rtc sys_step (quiet sample_master) (quiet m').
Proof.
  intros m'. split; [vm_compute; reflexivity|]. apply (handlers_are_interleavings (fun _ => false)). apply hs_disconnect. done.
Defined.
