(* ===== verification/PassProps.v ===== *)
(** * PassProps: what a scheduling pass guarantees end to end

    [plan_batch] composes the queue (backoff release, paged views, batch transition),
    the registry (schedulable workers) and the placement engine.  It always returns,
    assigns at most its batch size, and every assignment is sound for the task as the
    queue holds it and the worker as the registry holds it. *)

From S2P Require Import Prelude Collections RustStr Float Capabilities Placement Blob Task Queue QueueOps QueueInv QueueCore QueueBook QueueAcct QueueSteps Samples QueueProps QueueViews Registry RegistryProps Scheduler SchedulerInv SchedulerProps Master Interleave Stranded.
Local Open Scope N_scope.

Section uuid.
Context `{UuidApi}.

(** ** The scan *)

(** A full page ends with the cursor of its last view. *)
Lemma ready_views_full q limit n ks k :
  n < limit -> (ready_views_loop q limit n ks).2 = Some k ->
  n + count_of (ready_views_loop q limit n ks).1 = limit.
Proof.
  revert n. induction ks as [|k0 ks IH]; intros n Hn; cbn [ready_views_loop]; [done|].
  destruct (queued_entry q (qk_task_id k0)); [|by apply IH].
  destruct (N.leb_spec limit (n + 1)); [intros _; unfold count_of; cbn [fst length]; lia|].
  specialize (IH (n + 1)). destruct (ready_views_loop q limit (n + 1) ks). cbn [fst snd] in *.
  intros Hk. unfold count_of in *. cbn [length]. specialize (IH ltac:(lia) Hk). lia.
Qed.

(** The views of a page show queued entries. *)
Lemma ready_views_queued q after limit v :
  core_inv q -> v ∈ (ready_views after limit q).1 ->
  exists e, queued_entry q (tv_task_id v) = Some e /\ v = entry_view e.
Proof.
  intros Hc Hv. unfold ready_views in Hv. set (ks := match after with Some _ => _ | None => _ end) in Hv.
  assert (Hin : exists k, v ∈ views_of q k).
  { pose proof (ready_views_loop_spec q limit 0 ks) as Hs. destruct (ready_views_loop q limit 0 ks) as [vs [k|]].
    - destruct Hs as (k1 & k2 & _ & ->). by exists (k1 ++ [k]).
    - subst vs. by exists ks. }
  destruct Hin as (k & (x & _ & Hx)%list_elem_of_omap). destruct (queued_entry q (qk_task_id x)) as [e|] eqn:He; [|done].
  injection Hx as <-. exists e. split; [|done]. pose proof He as [Ht Hst]%queued_entry_Some.
  destruct (slot_lookup q _ e Hc Ht) as (_ & Hid & _). cbn. by rewrite Hid.
Qed.

Section pass.
Context (c : SchedulerConfig) (loads : option (gmap Uuid AssignedLoad)) (ws : list WorkerInfo).
Context (Seen : TaskView -> Prop) (max_batch : N).

Record good_pass (ps : Pass) : Prop := {
  gp_engine : pass_reachable c loads ws (ps_engine ps);
  gp_placed : forall t i, (t, i) ∈ ps_placements ps ->
    exists v w, Seen v /\ tv_task_id v = t /\ ws !! i = Some w /\ may_run c v w;
  gp_count : count_of (ps_placements ps) <= max_batch
}.

Lemma scan_views_good now vs ps :
  good_pass ps -> count_of (ps_placements ps) < max_batch -> (forall v, v ∈ vs -> Seen v) ->
  exists b ps', scan_views now max_batch vs ps = Some (b, ps') /\ good_pass ps' /\
    (b = false -> count_of (ps_placements ps') < max_batch).
Proof.
  revert ps. induction vs as [|v vs IH]; intros ps [Ge Gp Gc] Hlt Hseen; cbn [scan_views].
  { exists false, ps. split_and!; done. }
  pose proof (pass_place c loads ws v _ Ge) as Ge'. pose proof (placed_inv v (ps_engine ps)) as Hpl.
  pose proof (place_cases v (ps_engine ps)) as Hsome. destruct (place v (ps_engine ps)) as [verdict e].
  cbn [fst snd] in Ge', Hpl. destruct verdict as [[i|reason|reason]|].
  - set (ps1 := Build_Pass _ _ _ _). destruct (Hpl i eq_refl) as (s & n & Ht & _ & _).
    destruct (seat_takes_may_run c loads ws _ v i (pass_inv _ _ _ _ Ge) Ht) as (w & Hw & Hmay).
    assert (G1 : good_pass ps1).
    { split; [done| |].
      - intros t j [Hin|[= -> ->]%list_elem_of_singleton]%elem_of_app; [by apply Gp|].
        exists v, w. split_and!; try done. apply Hseen. by left.
      - unfold count_of in *. cbn [ps_placements ps1]. rewrite length_app. cbn. lia. }
    destruct ((max_batch <=? _) || _) eqn:Hstop; [by exists true, ps1|].
    apply orb_false_iff in Hstop as [Hb%N.leb_gt _]. apply IH; [done|done|]. intros v' Hv'. apply Hseen. by right.
  - set (ps1 := Build_Pass _ _ _ _). assert (G1 : good_pass ps1) by done.
    destruct (_ =? 0); [by exists true, ps1|]. apply IH; [done|done|]. intros v' Hv'. apply Hseen. by right.
  - apply IH; [done|done|]. intros v' Hv'. apply Hseen. by right.
  - inversion Hsome.
Qed.

Lemma notice_gpu_good now vs ps : good_pass ps -> good_pass (notice_gpu c now ws vs ps).
Proof. intros [Ge Gp Gc]. unfold notice_gpu. destruct (_ && _); [|done]. split; [by apply pass_gpu|done|done]. Qed.

(** The scan ends within its fuel, whatever other handlers do to the queue between
    two pages. *)
Lemma scan_pages_good fuel now pages k cur scanned ps :
  (forall k after limit v, v ∈ (ready_views after limit (pages k)).1 -> Seen v) ->
  (N.to_nat (N.max (sc_max_scan_per_pass c) 1 - scanned) < fuel)%nat ->
  good_pass ps -> count_of (ps_placements ps) < max_batch ->
  exists ps', scan_pages fuel c now max_batch ws pages k cur scanned ps = Some ps' /\ good_pass ps'.
Proof.
  intros Hseen. revert k cur scanned ps. induction fuel as [|fuel IH]; intros k cur scanned ps Hf Hg Hlt; [lia|].
  cbn [scan_pages]. set (limit := N.min SCAN_PAGE _). destruct (N.eqb_spec limit 0) as [_|Hl]; [by exists ps|].
  pose proof (Hseen k cur limit) as Hv.
  assert (Hfull : forall key, (ready_views cur limit (pages k)).2 = Some key -> count_of (ready_views cur limit (pages k)).1 = limit).
  { intros key Hk. unfold ready_views in *. eapply (ready_views_full _ limit 0) in Hk; lia. }
  destruct (ready_views cur limit (pages k)) as [vs next]. cbn [fst snd] in Hv, Hfull.
  destruct (scan_views_good now vs (notice_gpu c now ws vs ps)) as (b & ps1 & -> & Hg1 & Hb);
    [by apply notice_gpu_good|unfold notice_gpu; by destruct (_ && _)|done|].
  destruct b; [by exists ps1|]. destruct next as [key|]; [|by exists ps1].
  apply IH; [|done|by apply Hb]. rewrite (Hfull key eq_refl). lia.
Qed.
End pass.

(** ** The batch *)

Lemma take_scheduled_elem triples m a :
  a ∈ take_scheduled triples m ->
  m !! sa_task_id a = Some (sa_task a) /\
  first_for (sa_task_id a) triples = Some (sa_task_id a, sa_worker_id a, sa_session_id a).
Proof.
  revert m. induction triples as [|[[t w] s] l IH]; intros m; cbn [take_scheduled]; [by intros ?%not_elem_of_nil|].
  unfold first_for. cbn [find fst]. destruct (m !! t) as [task|] eqn:Hm.
  - intros [->|Hin]%elem_of_cons; cbn [sa_task_id sa_task sa_worker_id sa_session_id].
    { by rewrite N.eqb_refl. }
    destruct (IH _ Hin) as [H1 H2]. destruct (N.eqb_spec t (sa_task_id a)) as [->|Hne].
    + by rewrite lookup_delete_eq in H1.
    + by rewrite lookup_delete_ne in H1.
  - intros Hin. destruct (IH _ Hin) as [H1 H2]. destruct (N.eqb_spec t (sa_task_id a)) as [->|Hne]; [congruence|done].
Qed.

Lemma take_scheduled_NoDup triples m : NoDup (sa_task_id <$> take_scheduled triples m).
Proof.
  revert m. induction triples as [|[[t w] s] l IH]; intros m; cbn [take_scheduled]; [constructor|].
  destruct (m !! t); [|apply IH]. cbn. apply NoDup_cons. split; [|apply IH].
  intros (a & Ha & Hin)%list_elem_of_fmap. apply take_scheduled_elem in Hin as [Hm _]. by rewrite <-Ha, lookup_delete_eq in Hm.
Qed.

Lemma take_scheduled_length triples m : (length (take_scheduled triples m) <= length triples)%nat.
Proof.
  revert m. induction triples as [|[[t w] s] l IH]; intros m; cbn [take_scheduled length]; [lia|].
  destruct (m !! t); cbn [length]; [specialize (IH (delete t m))|specialize (IH m)]; lia.
Qed.

Lemma triples_length e l : (length (assignment_triples e l) <= length l)%nat.
Proof.
  unfold assignment_triples. induction l as [|[t i] l IH]; [done|]. cbn [omap list_omap]. case_match; cbn [length]; lia.
Qed.

Lemma first_for_elem {S} t (l : list (TaskId * Uuid * S)) a : first_for t l = Some a -> a ∈ l /\ a.1.1 = t.
Proof. intros [Hin%list_elem_of_In Ht%N.eqb_eq]%List.find_some. done. Qed.

Lemma first_for_sessions t (l : list (TaskId * Uuid * N)) :
  first_for t ((fun '(t, w, s) => (t, w, Some s)) <$> l) = (fun '(t, w, s) => (t, w, Some s)) <$> first_for t l.
Proof. induction l as [|[[t0 w] s] l IH]; [done|]. unfold first_for in *. cbn. by destruct (t0 =? t). Qed.

(** The worker behind a triple is the one the pass placed the task on. *)
Lemma triple_worker c loads ws e l t w s :
  engine_inv c loads ws e -> (t, w, s) ∈ assignment_triples e l ->
  exists i wi, (t, i) ∈ l /\ ws !! i = Some wi /\ w = wi_worker_id wi /\ s = wi_session_id wi.
Proof.
  intros He ([t' i] & Hin & Hx)%list_elem_of_omap. destruct (en_seats e !! i) as [seat|] eqn:Hs; [|done]. cbn in Hx. injection Hx as -> <- <-.
  destruct (Forall2_lookup_r _ _ _ _ _ (ei_seats _ _ _ _ He) Hs) as (s0 & Hs0 & Hg).
  apply list_lookup_fmap_Some in Hs0 as (wi & -> & Hw). exists i, wi. rewrite (sg_worker _ _ Hg). done.
Qed.

Lemma schedulable_worker now r wi :
  reg_inv r -> wi ∈ list_schedulable_workers now r ->
  exists e, workers r !! wi_worker_id wi = Some e /\ wi = entry_to_info e /\ we_status e <> Disconnected /\
    (forall until, we_excluded_until e = Some until -> until <= now).
Proof.
  intros Hi (id & e & He & Hp & ->)%elem_of_list_where. apply andb_true_iff in Hp as [Hl Hx].
  exists e. change (wi_worker_id (entry_to_info e)) with (we_worker_id e).
  rewrite (ww_id _ _ _ (ri_workers _ Hi id e He)). split_and!; [done|done| |].
  - unfold live_worker in Hl. by apply negb_true_iff, bool_decide_eq_false in Hl.
  - intros u Hu. rewrite Hu in Hx. by apply negb_true_iff, N.ltb_ge in Hx.
Qed.

(** An assignment a pass may make: the task was queued and is now scheduled on the
    worker's current session, and the worker is live, not cooling down, and fit. *)
Record sound_plan (c : SchedulerConfig) (now : N) (r : WorkerRegistryInner) (q q' : TaskQueueInner)
    (a : ScheduleAssignment) (e : TaskEntry) (we : WorkerEntry) : Prop := {
  sp_queued : queued_entry q (sa_task_id a) = Some e;
  sp_task : sa_task a = te_task e;
  sp_scheduled : tasks q' !! sa_task_id a = Some (to_scheduled now (sa_worker_id a) (Some (sa_session_id a)) e);
  sp_worker : workers r !! sa_worker_id a = Some we;
  sp_session : we_session_id we = sa_session_id a;
  sp_live : we_status we <> Disconnected;
  sp_cool : forall until, we_excluded_until we = Some until -> until <= now;
  sp_fit : may_run c (entry_view e) (entry_to_info we)
}.

Lemma batch_sound c now loads r q ps mb triples :
  core_inv q -> reg_inv r -> triples = assignment_triples (ps_engine ps) (ps_placements ps) ->
  good_pass c loads (sorted_workers (list_schedulable_workers now r))
    (fun v => exists e, queued_entry q (tv_task_id v) = Some e /\ v = entry_view e) mb ps ->
  let b := schedule_tasks_batch_in_sessions now triples q in
  let l := take_scheduled triples (scheduled_map b.1) in
  count_of l <= mb /\
  (forall a, a ∈ l -> exists e we, sound_plan c now r q b.2 a e we) /\
  (forall t, t ∉ sa_task_id <$> l -> tasks b.2 !! t = tasks q !! t).
Proof.
  intros Hc Hi Htr [Ge Gp Gc] b l. pose proof (pass_inv _ _ _ _ Ge) as He. split_and!.
  - pose proof (take_scheduled_length triples (scheduled_map b.1)). pose proof (triples_length (ps_engine ps) (ps_placements ps)).
    rewrite <-Htr in *. unfold count_of in *. subst l. lia.
  - intros a [Hm Hf]%take_scheduled_elem.
    apply scheduled_map_elem in Hm as (w' & Hout). set (t := sa_task_id a) in *.
    pose proof (schedule_batch_exact now ((fun '(t, w, s) => (t, w, Some s)) <$> triples) q t) as [Hx Ho].
    destruct (Ho w' _ Hout) as (e & Hq & Htask). rewrite Hq, first_for_sessions, Hf in Hx. destruct Hx as [Hx _].
    apply first_for_elem in Hf as [Hin _]. rewrite Htr in Hin.
    destruct (triple_worker _ _ _ _ _ _ _ _ He Hin) as (i & wi & Hi' & Hw & Hwid & Hwses).
    destruct (Gp t i Hi') as (v & wi' & (e' & Hq' & Hv) & Hvt & Hw' & Hmay). rewrite Hvt in Hq'.
    assert (e' = e) as -> by congruence. assert (wi' = wi) as -> by congruence.
    destruct (schedulable_worker now r wi Hi) as (we & Hwe & Hinfo & Hst & Hcool).
    { apply list_elem_of_lookup_2 in Hw. unfold sorted_workers in Hw. by rewrite sort_by_perm in Hw. }
    exists e, we. split; try done; [by rewrite Hwid| |].
    + rewrite Hwses, Hinfo. done.
    + rewrite <-Hinfo, <-Hv. done.
  - intros t Ht. pose proof (schedule_batch_exact now ((fun '(t, w, s) => (t, w, Some s)) <$> triples) q t) as [Hx _].
    destruct (queued_entry q t) as [e|]; [|done]. rewrite first_for_sessions in Hx.
    destruct (first_for t triples) as [[[t1 w] s]|] eqn:Hf; [|done]. cbn in Hx. destruct Hx as [_ Hout]. destruct Ht.
    destruct (scheduled_map_present _ _ _ _ Hout) as [task Htask].
    apply list_elem_of_fmap. eexists. split; [|by eapply take_scheduled_first]. done.
Qed.

(** What a pass over the queue [q] leaves behind. *)
Record plan_outcome (c : SchedulerConfig) (now max_batch : N) (r : WorkerRegistryInner) (q : TaskQueueInner)
    (report : ScheduleReport) (m' : Master) : Prop := {
  po_registry : m_registry m' = r;
  po_count : count_of (sr_assignments report) <= max_batch;
  po_distinct : NoDup (sa_task_id <$> sr_assignments report);
  po_sound : forall a, a ∈ sr_assignments report -> exists e we, sound_plan c now r q (m_queue m') a e we;
  po_rest : forall t, t ∉ sa_task_id <$> sr_assignments report -> tasks (m_queue m') !! t = tasks q !! t
}.

Lemma plan_nothing c now max_batch report m' :
  sr_assignments report = [] -> plan_outcome c now max_batch (m_registry m') (m_queue m') report m'.
Proof.
  intros Hr. split; rewrite ?Hr; [done|apply N.le_0_l|constructor|by intros a ?%not_elem_of_nil|done].
Qed.

Lemma skipped_assignments l r reason :
  sr_assignments (foldl (fun r tid => push_skipped tid reason r) r l) = sr_assignments r.
Proof. revert r. induction l as [|t l IH]; intros r; [done|]. cbn. by rewrite IH. Qed.

(** The scan of a pass from a fresh engine. *)
Lemma plan_scan c now max_batch loads ws q start :
  core_inv q -> ps_placements start = [] -> pass_reachable c loads ws (ps_engine start) ->
  exists ps, (if (0 <? en_free_slots (ps_engine start)) && (0 <? max_batch)
      then scan_pages (scan_fuel c) c now max_batch ws (fun _ => q) 0 None 0 start else Some start) = Some ps /\
    good_pass c loads ws (fun v => exists e, queued_entry q (tv_task_id v) = Some e /\ v = entry_view e) max_batch ps /\
    sr_assignments (ps_report ps) = sr_assignments (ps_report start).
Proof.
  intros Hc Hp He. set (Seen := fun v : TaskView => exists e, _).
  assert (G0 : good_pass c loads ws Seen max_batch start).
  { split; rewrite ?Hp; [done|by intros t i ?%not_elem_of_nil|apply N.le_0_l]. }
  destruct (0 <? en_free_slots _); cbn [andb]; [|by exists start].
  destruct (N.ltb_spec 0 max_batch) as [Hmb|_]; [|by exists start].
  destruct (scan_pages_good c loads ws Seen max_batch (scan_fuel c) now (fun _ => q) 0 None 0 start)
    as (ps & Hps & Hg); [|unfold scan_fuel; lia|done|by rewrite Hp|].
  - intros k after limit v Hv. by eapply ready_views_queued.
  - exists ps. split_and!; [done|done|]. by apply scan_pages_assignments in Hps.
Qed.

(** C5 A scheduling pass always returns.  Each of its assignments takes a task that
    was queued (backoffs that have run out included), hands it to the current session
    of a worker that is live, not cooling down and able to run it, and records
    exactly that in the queue; there are at most [max_batch] of them, for distinct
    tasks; every other task and the whole registry stay as they were. *)
Theorem plan_batch_sound c now max_batch m :
  core_inv (m_queue m) -> reg_inv (m_registry m) ->
  exists report m', plan_batch c now max_batch m = Some (report, m') /\
    plan_outcome c now max_batch (m_registry m) (process_delayed_retries now (m_queue m)).2 report m'.
Proof.
  intros Hc0 Hi. set (q := (process_delayed_retries now (m_queue m)).2). assert (Hc : core_inv q) by (by apply core_process_delayed).
  unfold plan_batch. fold q. set (m1 := set_queue q m). destruct (is_empty _).
  { eexists _, _. split; [reflexivity|]. apply (plan_nothing c now max_batch _ m1). apply skipped_assignments. }
  destruct (gpu_demand _ _ _ _ _) as [[waiting recent] demand].
  set (ws := sorted_workers _). set (loads := assigned_loads _). set (start := Build_Pass _ _ _ _).
  destruct (plan_scan c now max_batch (Some loads) ws q start Hc eq_refl) as (ps & Hps & Hg & Hr); [apply pass_start|].
  change (m_queue m1) with q. change (ps_engine start) with (set_rr (m_rr_cursor m1) (engine_new c ws (Some loads) waiting recent)) in Hps.
  rewrite Hps. cbn [mbind option_bind]. destruct (is_empty (ps_placements ps)).
  { eexists _, _. split; [reflexivity|].
    apply (plan_nothing c now max_batch _ (set_demand (ps_demand ps) (en_rr_cursor (ps_engine ps)) m1)). by rewrite Hr. }
  cbn [set_demand m_queue set_queue upd_master m1]. set (triples := assignment_triples _ _).
  pose proof (batch_sound c now (Some loads) (m_registry m) q ps max_batch triples Hc Hi eq_refl Hg) as Hb. cbn zeta in Hb.
  destruct (schedule_tasks_batch_in_sessions now triples q) as [out q']. cbn [fst snd] in Hb.
  eexists _, _. split; [reflexivity|]. destruct Hb as (Hb1 & Hb2 & Hb3).
  split; cbn [sr_assignments]; rewrite ?Hr; cbn [app]; try done. apply take_scheduled_NoDup.
Qed.
End uuid.

(** The sample master with task 1 back in the queue: the pass gives it and task 2
    to worker 70. *)
Definition sample_idle : Master := set_queue sample_queue sample_master.

Theorem plan_batch_sound_witness :
  exists report m', plan_batch scheduler_config_default 12 64 sample_idle = Some (report, m') /\
    (sa_task_id <$> sr_assignments report) = [2; 1] /\
    plan_outcome scheduler_config_default 12 64 sample_sys_regs (process_delayed_retries 12 sample_queue).2 report m'.
Proof.
  destruct (plan_batch_sound scheduler_config_default 12 64 sample_idle) as (report & m' & Hp & Ho).
  - exact (qi_core _ (reachable_queue_inv _ sample_queue_reachable)).
  - apply reg_reachable_inv. exact sample_registry_reachable.
  - exists report, m'. split_and!; [exact Hp| |exact Ho].
    assert (Hv : (fun '(r, _) => sa_task_id <$> sr_assignments r) <$> plan_batch scheduler_config_default 12 64 sample_idle = Some [2; 1])
      by (vm_compute; reflexivity).
    rewrite Hp in Hv. by injection Hv.
Defined.
