(* ===== verification/Waiters.v ===== *)
(** * Waiters: nobody who waits for a task is forgotten

    A client of [crates/master/src/server.rs] that waits for a task has a oneshot in
    the waiter map, and the handler that finishes the task wakes it.  The theorem:
    as long as retention keeps the tasks somebody waits for, every handler leaves
    each waiter registered for an unfinished task or answered.  Where retention does
    not, two runs show a waiter that is never answered. *)

From S2P Require Import Prelude Collections RustStr Float Capabilities Placement Blob Task Queue QueueOps QueueInv QueueCore QueueBook QueueAcct QueueSteps Samples Registry RegistryProps Scheduler Master Interleave Stranded.
Local Open Scope N_scope.

(** ** Which tasks an operation finishes *)

Definition unfinished (q : TaskQueueInner) (t : TaskId) : Prop :=
  exists e, tasks q !! t = Some e /\ is_terminal (te_state e) = false.

(** Only the tasks of [ids] may have finished between [q] and [q'], and no task
    appeared or was revived. *)
Record finishes (q q' : TaskQueueInner) (ids : list TaskId) : Prop := {
  fi_terminal : forall t e', tasks q' !! t = Some e' -> is_terminal (te_state e') = true ->
    t ∈ ids \/ exists e, tasks q !! t = Some e /\ is_terminal (te_state e) = true;
  fi_known : forall t, is_Some (tasks q' !! t) -> is_Some (tasks q !! t);
  fi_back : forall t, unfinished q' t -> unfinished q t
}.

Lemma finishes_sub q q' ids : tasks q' ⊆ tasks q -> finishes q q' ids.
Proof.
  intros Hs. split; [|intros t []; by eexists; eapply lookup_weaken|].
  2: { intros t (e & He & Hst). exists e. split; [by eapply lookup_weaken|done]. }
  intros t e He Hst. right. exists e. split; [by eapply lookup_weaken|done].
Qed.

Lemma finishes_same q q' ids : tasks q' = tasks q -> finishes q q' ids.
Proof. intros Ht. apply finishes_sub. by rewrite Ht. Qed.

Lemma finishes_put q q' tid e e' ids :
  tasks q !! tid = Some e -> tasks q' ⊆ <[tid := e']> (tasks q) ->
  (is_terminal (te_state e') = true -> tid ∈ ids \/ is_terminal (te_state e) = true) ->
  (is_terminal (te_state e') = false -> is_terminal (te_state e) = false) -> finishes q q' ids.
Proof.
  intros He Hs Hx Hb. split.
  - intros t e0 He0 Hst. pose proof (lookup_weaken _ _ _ _ He0 Hs) as Hl. destruct (decide (t = tid)) as [->|Hne].
    + rewrite lookup_insert_eq in Hl. simplify_eq. destruct (Hx Hst); [by left|right; by exists e].
    + rewrite lookup_insert_ne in Hl by done. right. by exists e0.
  - intros t [e0 He0]. pose proof (lookup_weaken _ _ _ _ He0 Hs) as Hl. destruct (decide (t = tid)) as [->|Hne]; [by exists e|].
    rewrite lookup_insert_ne in Hl by done. by exists e0.
  - intros t (e0 & He0 & Hst). pose proof (lookup_weaken _ _ _ _ He0 Hs) as Hl. destruct (decide (t = tid)) as [->|Hne].
    + rewrite lookup_insert_eq in Hl. simplify_eq. exists e. auto.
    + rewrite lookup_insert_ne in Hl by done. by exists e0.
Qed.

Lemma finishes_trans q1 q2 q3 ids ids' : finishes q1 q2 ids -> finishes q2 q3 ids' -> finishes q1 q3 (ids ++ ids').
Proof.
  intros [H1 K1 B1] [H2 K2 B2]. split; [|by auto..]. intros t e He Hst. rewrite elem_of_app.
  destruct (H2 t e He Hst) as [?|(e2 & He2 & Hst2)]; [by left; right|].
  destruct (H1 t e2 He2 Hst2) as [?|?]; [by left; left|by right].
Qed.

Section uuid.
Context `{UuidApi}.

Definition finished_by (d : ResultDisposition) (tid : TaskId) : list TaskId :=
  match d with Terminal => [tid] | _ => [] end.

Lemma record_result_finishes q now epoch w s r :
  core_inv q ->
  match record_result_from now epoch w s r q with
  | (Ok o, q') => finishes q q' (finished_by (ro_disposition o) (res_task_id r))
  | (Err _, q') => finishes q q' []
  end.
Proof.
  intros Hc. unfold record_result_from. set (tid := res_task_id r).
  destruct (tasks q !! tid) as [e|] eqn:He; [|by apply finishes_same].
  destruct (owned_by e w s) eqn:Ho; cbn [negb]; [|by apply finishes_same].
  destruct (is_terminal (te_state e)) eqn:Hterm; [by apply finishes_same|].
  pose proof (owned_nonterminal_active _ _ _ _ (core_inv_entry_wf q tid e Hc He) Ho Hterm) as Hact.
  destruct (decide_result_active (retry_policy q) now epoch w tid r e Hact) as (e' & dk & rk & d & Hd & _ & Hdt & _).
  rewrite Hd. cbn [ro_disposition]. set (q1 := match rk with Some _ => _ | None => _ end).
  assert (Ht1 : tasks q1 = <[tid := e']> (tasks q)) by (subst q1; by destruct dk, rk).
  apply (finishes_put q _ tid e e'); [done| | |done].
  - destruct (is_terminal (te_state e')); [rewrite <-Ht1; apply track_sub|].
    by destruct (update_active_same tid q1) as [-> _]; rewrite Ht1.
  - intros Hst. left. apply Hdt in Hst as ->. by left.
Qed.

Lemma fail_unsendable_finishes q w s r :
  match fail_unsendable_assignment w s r q with
  | (Ok d, q') => finishes q q' (finished_by d (res_task_id r))
  | (Err _, q') => finishes q q' []
  end.
Proof.
  unfold fail_unsendable_assignment. set (tid := res_task_id r).
  destruct (tasks q !! tid) as [e|] eqn:He; [|by apply finishes_same].
  destruct (owned_by e w s); cbn [negb]; [|by apply finishes_same].
  destruct (is_terminal (te_state e)); [by apply finishes_same|].
  destruct (can_transition_to _ _); cbn [negb]; [|by apply finishes_same].
  set (e' := to_ended _ _ _ _ _ _). apply (finishes_put q _ tid e e'); [done| |by left; left|done].
  exact (track_sub tid (put_entry tid e' (unassign w tid q))).
Qed.

Lemma cancel_finishes q tid reason :
  match cancel_task_detailed tid reason q with
  | (Ok o, q') => finishes q q' (if co_newly_cancelled o then [tid] else [])
  | (Err _, q') => finishes q q' []
  end.
Proof.
  unfold cancel_task_detailed. destruct (tasks q !! tid) as [e|] eqn:He; [|by apply finishes_same].
  destruct (is_terminal (te_state e)) eqn:Hterm; [by apply finishes_same|].
  set (pr := match te_state e with Submitted => _ | _ => _ end). set (e' := to_ended _ _ _ _ _ _).
  destruct pr as [w q1] eqn:Hpr. cbn [co_newly_cancelled].
  assert (Hs : tasks q1 = tasks q).
  { subst pr. destruct (te_state e), (te_assigned_worker_id e), (te_retry_after_instant e); by simplify_eq. }
  apply (finishes_put q _ tid e e'); [done| |by left; left|done].
  etrans; [apply track_sub|]. queue_cbn. by rewrite Hs.
Qed.

Lemma sweep_finishes iter now epoch w s reason imm q :
  (forall X, iter X ≡ₚ elements X) ->
  finishes q (handle_session_disconnected iter now epoch w s reason imm q).2
    (handle_session_disconnected iter now epoch w s reason imm q).1.
Proof.
  intros Hiter. unfold handle_session_disconnected. set (ids := iter (sweep_candidates w q)).
  assert (Hnd : NoDup ids) by (subst ids; rewrite Hiter; apply NoDup_elements).
  destruct (sweep_loop now epoch w s reason imm ids q) as [[affected ts] q1] eqn:Hloop.
  destruct (sweep_loop_spec _ _ _ _ _ _ _ _ _ _ _ Hnd Hloop) as [IA IT _ _ _ _]. cbn [fst snd].
  fold (sweep_settle ts (drop_empty_assignment w q1)). set (q' := foldl _ _ (terminals_of ts)).
  assert (Hsub : tasks q' ⊆ tasks q1).
  { subst q'. etrans; [apply track_all_sub|]. rewrite insert_targets_tasks. by destruct (drop_empty_book w q1) as [[-> _] _]. }
  split.
  - intros t e He Hst. pose proof (lookup_weaken _ _ _ _ He Hsub) as H1. rewrite IT in H1.
    case_decide; [by left|right; by exists e].
  - intros t [e He]. pose proof (lookup_weaken _ _ _ _ He Hsub) as H1. rewrite IT in H1.
    case_decide; [|by exists e]. unfold swept_entry in H1. by destruct (tasks q !! t).
  - intros t (e & He & Hst). pose proof (lookup_weaken _ _ _ _ He Hsub) as H1. rewrite IT in H1.
    case_decide as Hin; [|by exists e]. rewrite IA in Hin. apply list_elem_of_filter in Hin as [(e0 & He0 & Hact & _)%sweepable_Some _].
    exists e0. split; [done|]. by destruct (te_state e0).
Qed.

(** The operations that finish nothing. *)
Lemma running_finishes q now w s tid : finishes q (mark_running_from now w s tid q).2 [].
Proof.
  unfold mark_running_from. destruct (tasks q !! tid) as [e|] eqn:He; [|by apply finishes_same].
  destruct (negb _); [by apply finishes_same|]. destruct (can_transition_to _ _) eqn:Hc; cbn [negb]; [|by apply finishes_same].
  apply (finishes_put q _ tid e (to_running now e)); [done..|]. by destruct (te_state e).
Qed.

Lemma checkpoint_finishes q w s tid cp : finishes q (record_checkpoint_from w s tid cp q).2 [].
Proof.
  unfold record_checkpoint_from. destruct (tasks q !! tid) as [e|] eqn:He; [|by apply finishes_same].
  destruct (_ || _); [by apply finishes_same|]. unfold store_checkpoint, apply_checkpoint.
  destruct (checkpoint_exceeds_active_cap _ _ _ _); [by apply finishes_same|].
  destruct (is_newer_checkpoint e cp); [|by apply finishes_same]. cbn [snd].
  set (e' := set_task _ e). apply (finishes_put q _ tid e e'); [done| |by right|done].
  by destruct (update_active_same tid (put_entry tid e' q)) as [-> _].
Qed.

Lemma requeue_finishes q tid w s : finishes q (requeue_dispatch_failure tid w s q).2 [].
Proof.
  unfold requeue_dispatch_failure. destruct (tasks q !! tid) as [e|] eqn:He; [|by apply finishes_same].
  destruct (negb (bool_decide _) || _) eqn:Hs; [by apply finishes_same|].
  apply (finishes_put q _ tid e (to_requeued e)); [done..|]. apply orb_false_iff in Hs as [Hs _]. by destruct (te_state e).
Qed.

Lemma backoff_finishes q now : finishes q (process_delayed_retries now q).2 [].
Proof.
  unfold process_delayed_retries. destruct (pop_due _ _) as [ids later]. cbn [snd]. split.
  - intros t e. rewrite release_all_lookup. cbn [set_delayed tasks]. case_bool_decide; [|by right; exists e].
    destruct (tasks q !! t) as [e0|]; [|done]. intros [= <-]. case_bool_decide; [done|]. right. by exists e0.
  - intros t. rewrite release_all_lookup. cbn [set_delayed tasks]. case_bool_decide; [|done].
    destruct (tasks q !! t); [by eexists|by intros []].
  - intros t (e & He & Hst). rewrite release_all_lookup in He. cbn [set_delayed tasks] in He. case_bool_decide; [|by exists e].
    destruct (tasks q !! t) as [e0|] eqn:He0; [|done]. injection He as <-. exists e0. split; [done|].
    case_bool_decide as Hr; [by rewrite Hr|done].
Qed.

Lemma batch_finishes q now l : finishes q (schedule_batch_inner now l q).2 [].
Proof.
  split.
  - intros t e He Hst. destruct (schedule_batch_lookup now l q t) as [Hl|(e0 & w & s & He0 & Hq & _ & Hl)]; rewrite Hl in He.
    + right. by exists e.
    + by injection He as <-.
  - intros t [e He]. destruct (schedule_batch_lookup now l q t) as [Hl|(e0 & w & s & He0 & _)]; [|by exists e0].
    rewrite <-Hl. by exists e.
  - intros t (e & He & Hst). destruct (schedule_batch_lookup now l q t) as [Hl|(e0 & w & s & He0 & Hq & _ & Hl)]; rewrite Hl in He.
    + by exists e.
    + exists e0. split; [done|]. by rewrite Hq.
Qed.

(** ** Serving the waiters *)

(** Nobody starts to wait, and whoever is newly answered waited for a task nobody waits
    for any more. *)
Record answers_once (m m' : Master) : Prop := {
  ao_waiting : forall t tx, waiting m' t tx -> waiting m t tx;
  ao_answered : forall tx, answered m' tx -> answered m tx \/ exists t, waiting m t tx /\ ~ awaited m' t
}.

Lemma waiting_awaited m t tx : waiting m t tx -> awaited m t.
Proof. intros (l & Hl & _). by exists l. Qed.

(** From [m] to [m'] no waiter is lost, and whoever still waits in [m'] waits for a
    task that did not finish. *)
Record serves (m m' : Master) : Prop := {
  sv_awaited : forall t, awaited m' t -> awaited m t;
  sv_kept : forall t tx, waiting m t tx -> waiting m' t tx \/ answered m' tx;
  sv_answered : forall tx, answered m tx -> answered m' tx;
  sv_once : answers_once m m';
  sv_back : forall t, unfinished (m_queue m') t -> unfinished (m_queue m) t;
  sv_known : forall t, is_Some (tasks (m_queue m') !! t) -> is_Some (tasks (m_queue m) !! t);
  sv_unfinished : forall t, awaited m' t -> unfinished (m_queue m) t -> is_Some (tasks (m_queue m') !! t) ->
    unfinished (m_queue m') t
}.

#[global] Instance serves_preorder : PreOrder serves.
Proof.
  split.
  - intros m. split; auto. split; auto.
  - intros m1 m2 m3 [A1 K1 N1 [W1 O1] B1 P1 U1] [A2 K2 N2 [W2 O2] B2 P2 U2]. split; auto.
    + intros t tx [Hw|Hn]%K1; [by apply K2|right; by apply N2].
    + split; [by auto|]. intros tx [[?|(t & Hw & Hn)]%O1|(t & Hw & Hn)]%O2; [by left| |]; right; exists t; auto.
Qed.

(** The waiters of a master untouched, the queue moved on without finishing. *)
Lemma serves_queue m m' :
  m_waiters m' = m_waiters m -> m_sent m' = m_sent m -> finishes (m_queue m) (m_queue m') [] -> serves m m'.
Proof.
  intros Hw Hs [Hf Hk Hb]. unfold awaited, waiting, answered. split; unfold awaited, waiting, answered; rewrite ?Hw, ?Hs; auto.
  { split; unfold waiting, answered; rewrite ?Hw, ?Hs; auto. }
  intros t _ (e & He & Hst) [e' He']. exists e'. split; [done|].
  destruct (is_terminal (te_state e')) eqn:Hst'; [|done].
  destruct (Hf t e' He' Hst') as [?%not_elem_of_nil|(e0 & He0 & ?)]; [done|]. congruence.
Qed.

Lemma serves_same m m' :
  m_waiters m' = m_waiters m -> m_sent m' = m_sent m -> m_queue m' = m_queue m -> serves m m'.
Proof. intros Hw Hs Hq. apply serves_queue; [done..|]. rewrite Hq. by apply finishes_same. Qed.

(** [wake] answers everybody who waits for the task and touches no one else. *)
Lemma wake_spec t r m :
  m_queue (wake t r m) = m_queue m /\ m_waiters (wake t r m) = delete t (m_waiters m) /\
  (forall tx, answered m tx -> answered (wake t r m) tx) /\
  (forall tx, waiting m t tx -> answered (wake t r m) tx) /\
  (forall tx, answered (wake t r m) tx -> answered m tx \/ waiting m t tx).
Proof.
  unfold wake, answered, waiting. destruct (m_waiters m !! t) as [l|] eqn:Hl; cbn.
  - split_and!; [done|done| | |].
    + intros tx [r' Hr]. exists r'. set_solver.
    + intros tx (l' & [= <-] & Hin). exists r. apply elem_of_app. right. apply list_elem_of_fmap. by exists tx.
    + intros tx [r' [Hr|(x & [= -> ->] & Hin)%list_elem_of_fmap]%elem_of_app]; [left; by exists r'|right; by exists l].
  - split_and!; [done|by rewrite delete_id|done| |by left]. by intros tx (l & ? & _).
Qed.

Lemma wake_once t r m : answers_once m (wake t r m).
Proof.
  destruct (wake_spec t r m) as (_ & Ew & _ & _ & Eo). split.
  - intros t' tx. unfold waiting. rewrite Ew. intros (l & Hl & Hin). exists l. split; [|done].
    destruct (decide (t' = t)) as [->|Hne]; [by rewrite lookup_delete_eq in Hl|by rewrite lookup_delete_ne in Hl].
  - intros tx [?|Hw]%Eo; [by left|right]. exists t. split; [done|]. unfold awaited. rewrite Ew, lookup_delete_eq. by intros [].
Qed.

(** Between masters with the same waiters and answers. *)
Lemma answers_once_same m m1 m' : m_waiters m1 = m_waiters m -> m_sent m1 = m_sent m -> answers_once m1 m' -> answers_once m m'.
Proof.
  intros Hw Hs [A B]. unfold waiting, answered in *. split; unfold waiting, answered.
  - intros t tx Ht. specialize (A t tx Ht). by rewrite Hw in A.
  - intros tx Ht. specialize (B tx Ht). by rewrite Hw, Hs in B.
Qed.

(** A queue that finished [t], then the wake-up of [t]. *)
Lemma serves_wake m m1 t r :
  m_waiters m1 = m_waiters m -> m_sent m1 = m_sent m -> finishes (m_queue m) (m_queue m1) [t] -> serves m (wake t r m1).
Proof.
  intros Hw Hs [Hf Hk Hb]. destruct (wake_spec t r m1) as (Eq & Ew & Ea & Ek & _).
  pose proof (answers_once_same m m1 _ Hw Hs (wake_once t r m1)) as Ho.
  split; [| | |exact Ho|by rewrite Eq| |]; unfold awaited; rewrite ?Eq, ?Ew, ?Hw.
  - intros t'. destruct (decide (t' = t)) as [->|]; [rewrite lookup_delete_eq; by intros []|by rewrite lookup_delete_ne].
  - intros t' tx Hwt. destruct (decide (t' = t)) as [->|Hne].
    + right. apply Ek. unfold waiting in *. by rewrite Hw.
    + left. unfold waiting. rewrite Ew, Hw, lookup_delete_ne by done. exact Hwt.
  - intros tx Ha. apply Ea. unfold answered in *. by rewrite Hs.
  - done.
  - intros t' Haw (e & He & Hst) [e' He']. exists e'. split; [done|].
    destruct (is_terminal (te_state e')) eqn:Hst'; [|done].
    destruct (Hf t' e' He' Hst') as [->%list_elem_of_singleton|(e0 & He0 & ?)]; [|congruence].
    rewrite lookup_delete_eq in Haw. by destruct Haw.
Qed.

Lemma serves_notify m m' : serves m m' -> serves m (notify_one m').
Proof. intros Hs. etrans; [exact Hs|]. by apply serves_same. Qed.

(** Resolving the tasks of a sweep. *)
Lemma resolve_spec tids w m :
  let m' := resolve_terminal_waiters tids w m in
  m_queue m' = m_queue m /\
  (forall t, awaited m' t -> awaited m t /\ (t ∈ tids -> terminal_result t w (m_queue m) = None)) /\
  (forall t tx, waiting m t tx -> waiting m' t tx \/ answered m' tx) /\
  (forall tx, answered m tx -> answered m' tx) /\ answers_once m m'.
Proof.
  revert m. induction tids as [|t0 tids IH]; intros m; cbn zeta.
  { split_and!; auto; [|by split; auto]. intros t Ha. split; [done|]. by intros ?%not_elem_of_nil. }
  change (resolve_terminal_waiters (t0 :: tids) w m) with (resolve_terminal_waiters tids w (resolve_one w m t0)).
  destruct (IH (resolve_one w m t0)) as (Iq & Ia & Ik & In & Io). set (m' := resolve_terminal_waiters tids w (resolve_one w m t0)) in *.
  unfold resolve_one in *. destruct (terminal_result t0 w (m_queue m)) as [r|] eqn:Hr.
  - destruct (wake_spec t0 r m) as (Eq & Ew & Ea & Ek & _). rewrite Eq in *. split_and!; [done| | |by auto|].
    + intros t [Ha Ht]%Ia. unfold awaited in *. rewrite Ew in Ha. destruct (decide (t = t0)) as [->|Hne].
      { rewrite lookup_delete_eq in Ha. by destruct Ha. }
      rewrite lookup_delete_ne in Ha by done. split; [done|]. by intros [->|?]%elem_of_cons; [|apply Ht].
    + intros t tx Hwt. destruct (decide (t = t0)) as [->|Hne]; [right; by apply In, Ek|]. apply Ik.
      unfold waiting. rewrite Ew, lookup_delete_ne by done. exact Hwt.
    + destruct (wake_once t0 r m) as [Aw Ao]. destruct Io as [Bw Bo]. split; [by auto|].
      intros tx [[?|(t & Hw & Hn)]%Ao|(t & Hw & Hn)]%Bo; [by left| |]; right; exists t; (split; [by auto|]); [|done].
      intros [Ha _]%Ia. done.
  - split_and!; [done| |done|done|done]. intros t [Ha Ht]%Ia. split; [done|]. by intros [->|?]%elem_of_cons; [|apply Ht].
Qed.

Lemma terminal_result_none t w q e : tasks q !! t = Some e -> terminal_result t w q = None -> is_terminal (te_state e) = false.
Proof. unfold terminal_result, get_task. intros ->. cbn. by destruct (is_terminal (te_state e)). Qed.

Lemma serves_resolve m m1 tids w :
  m_waiters m1 = m_waiters m -> m_sent m1 = m_sent m -> finishes (m_queue m) (m_queue m1) tids ->
  serves m (resolve_terminal_waiters tids w m1).
Proof.
  intros Hw Hs [Hf Hk Hb]. destruct (resolve_spec tids w m1) as (Eq & Ea & Ek & En & Eo). set (m' := resolve_terminal_waiters tids w m1) in *.
  split; [| | |exact (answers_once_same m m1 _ Hw Hs Eo)|by rewrite Eq| |]; rewrite ?Eq.
  - intros t [Ha _]%Ea. unfold awaited in *. by rewrite <-Hw.
  - intros t tx Hwt. apply Ek. unfold waiting in *. by rewrite Hw.
  - intros tx Ha. apply En. unfold answered in *. by rewrite Hs.
  - done.
  - intros t [_ Ht]%Ea (e & He & Hst) [e' He']. exists e'. split; [done|].
    destruct (is_terminal (te_state e')) eqn:Hst'; [|done].
    destruct (Hf t e' He' Hst') as [Hin|(e0 & He0 & ?)]; [|congruence].
    rewrite (terminal_result_none t w _ e' He' (Ht Hin)) in Hst'. done.
Qed.

Lemma serves_failover iter now epoch w s reason imm m : (forall X, iter X ≡ₚ elements X) ->
  serves m (failover_session_tasks iter now epoch w s reason imm m).
Proof.
  intros Hiter. unfold failover_session_tasks.
  pose proof (sweep_finishes iter now epoch w s reason imm (m_queue m) Hiter) as Hf.
  destruct (handle_session_disconnected _ _ _ _ _ _ _ _) as [affected q']. cbn [fst snd] in Hf.
  destruct affected as [|t l]; cbn [is_empty]; [by apply serves_queue|]. apply serves_notify.
  by apply (serves_resolve m (set_queue q' m)).
Qed.

Lemma serves_disconnect cur iter now epoch w s reason imm m : (forall X, iter X ≡ₚ elements X) ->
  serves m (handle_worker_disconnect cur iter now epoch w s reason imm m).
Proof.
  intros Hiter. unfold handle_worker_disconnect. destruct (unregister cur w s (m_registry m)) as [[[] aborted] reg].
  - etrans; [|by apply serves_failover]. by apply serves_same.
  - by apply serves_same.
Qed.

Lemma serves_register cur iter now epoch w c features addr sender abort clock acked m : (forall X, iter X ≡ₚ elements X) ->
  serves m (register_worker cur iter now epoch w c features addr sender abort clock acked m).2.
Proof.
  intros Hiter. unfold register_worker. destruct (_ =? 0); [done|].
  destruct (register_session _ _ _ _ _ _ _ _ _ _) as [[registration aborted] reg].
  set (m1 := set_registry (set_rx_clock _ _ clock reg) m). set (m2 := match reg_superseded_session registration with Some _ => _ | None => _ end).
  assert (H2 : serves m m2).
  { subst m2. etrans; [by apply (serves_same m m1)|]. destruct (reg_superseded_session registration); [|done]. by apply serves_failover. }
  destruct acked; [done|]. etrans; [exact H2|]. by apply serves_disconnect.
Qed.

Lemma serves_reaper_failover iter now epoch reaped m : (forall X, iter X ≡ₚ elements X) ->
  serves m (reaper_failover iter now epoch reaped m).2.
Proof.
  intros Hiter. revert m. induction reaped as [|[w s] reaped IH]; intros m; cbn [reaper_failover]; [done|].
  pose proof (sweep_finishes iter now epoch w (Some s) reaper_reason false (m_queue m) Hiter) as Hf.
  destruct (handle_session_disconnected _ _ _ _ _ _ _ _) as [affected q']. cbn [fst snd] in Hf.
  specialize (IH (resolve_terminal_waiters affected (Some w) (set_queue q' m))).
  destruct (reaper_failover iter now epoch reaped _) as [n m']. cbn [snd] in *.
  etrans; [|exact IH]. by apply (serves_resolve m (set_queue q' m)).
Qed.

Lemma serves_reaper cur iter clocks now epoch config m : (forall X, iter X ≡ₚ elements X) ->
  serves m (reaper_pass cur iter clocks now epoch config m).
Proof.
  intros Hiter. unfold reaper_pass. destruct (reap_stale_sessions _ _ _ _ _ _ _ _) as [[reaped aborted] reg].
  set (reg' := match rc_stale_worker_timeout config with Some _ => _ | None => _ end).
  assert (H1 : serves m (set_registry reg' m)) by (by apply serves_same).
  destruct (is_empty reaped); [done|].
  pose proof (serves_reaper_failover iter now epoch reaped (set_registry reg' m) Hiter) as H3.
  destruct (reaper_failover iter now epoch reaped _) as [total m']. cbn [snd] in H3.
  destruct (0 <? total); [apply serves_notify|]; by etrans.
Qed.

Lemma serves_dispatch cur iter now epoch open a m : (forall X, iter X ≡ₚ elements X) ->
  serves m (dispatch cur iter now epoch open a m).
Proof.
  intros Hiter. unfold dispatch. destruct (reserve_dispatch _ _ _) as [[c|x] reg].
  2: { etrans; [by apply (serves_same m (set_registry reg m))|]. apply serves_queue; [done..|]. apply requeue_finishes. }
  destruct (open c).
  - destruct (deliver_if_scheduled _ _ _ _ _); by apply serves_same.
  - etrans; [|by apply serves_disconnect]. set (m1 := set_registry _ _).
    etrans; [by apply (serves_same m m1)|]. apply serves_queue; [done..|]. apply requeue_finishes.
Qed.

Lemma serves_plan c now mb m report m' : plan_batch c now mb m = Some (report, m') -> serves m m'.
Proof.
  unfold plan_batch. set (m1 := set_queue (process_delayed_retries now (m_queue m)).2 m).
  assert (H1 : serves m m1) by (apply serves_queue; [done..|apply backoff_finishes]).
  destruct (is_empty _); [by intros [= <- <-]|].
  destruct (gpu_demand _ _ _ _ _) as [[waiting' recent] demand]. intros (ps & _ & Hx)%bind_Some. revert Hx.
  set (m2 := set_demand _ _ m1). assert (H2 : serves m m2) by (etrans; [exact H1|by apply serves_same]).
  destruct (is_empty (ps_placements ps)); [by intros [= <- <-]|]. set (triples := assignment_triples _ _).
  pose proof (batch_finishes (m_queue m2) now ((fun '(t, w, s) => (t, w, Some s)) <$> triples)) as Hb.
  unfold schedule_tasks_batch_in_sessions. destruct (schedule_batch_inner _ _ _) as [out q]. intros [= <- <-].
  etrans; [exact H2|]. by apply serves_queue.
Qed.

Lemma serves_result now epoch w s r problem m : core_inv (m_queue m) -> serves m (apply_task_result now epoch w s r problem m).
Proof.
  intros Hc. unfold apply_task_result. set (r' := with_worker _ _ _).
  pose proof (record_result_finishes (m_queue m) now epoch w s r' Hc) as Hf.
  destruct (record_result_from now epoch w s r' (m_queue m)) as [[o|x] q]; [|by apply serves_queue].
  destruct (ro_disposition o); cbn [finished_by] in Hf; try apply serves_notify; try by apply serves_queue.
  set (m1 := set_registry _ _). by apply (serves_wake m m1).
Qed.

Lemma serves_oversized w s tid reason banner m : serves m (handle_oversized_assignment w s tid reason banner m).
Proof.
  unfold handle_oversized_assignment. set (r := result_failure _ _ _ _ _ _ _).
  pose proof (fail_unsendable_finishes (m_queue m) w (Some s) r) as Hf.
  destruct (fail_unsendable_assignment w (Some s) r (m_queue m)) as [[d|x] q]; [|by apply serves_queue].
  destruct d; cbn [finished_by] in Hf; try apply serves_notify; try by apply serves_queue.
  set (m1 := set_registry _ _). by apply (serves_wake m m1).
Qed.

Lemma serves_cancel tid reason m : serves m (cancel_task_and_notify tid reason m).2.
Proof.
  unfold cancel_task_and_notify. pose proof (cancel_finishes (m_queue m) tid (Some reason)) as Hf.
  destruct (cancel_task_detailed tid (Some reason) (m_queue m)) as [[o|x] q]; [|by apply serves_queue].
  destruct (co_newly_cancelled o); cbn [negb]; [|by apply serves_queue]. cbn [snd]. apply serves_notify.
  by apply (serves_wake m (set_queue q m)).
Qed.

Lemma serves_schedule c cur iter now epoch open mb m report m' : (forall X, iter X ≡ₚ elements X) ->
  schedule_batch c cur iter now epoch open mb m = Some (report, m') -> serves m m'.
Proof.
  intros Hiter ([r m1] & Hp & Hx)%bind_Some. injection Hx as <- <-. etrans; [by eapply serves_plan|]. clear Hp.
  revert m1. induction (sr_assignments r) as [|a l IH]; intros m1; [done|]. cbn [foldl]. etrans; [by apply serves_dispatch|apply IH].
Qed.

(** ** Registering a waiter *)

Definition live_waiters (m : Master) : Prop := forall t, awaited m t -> unfinished (m_queue m) t.
Definition no_waiter_lost (closed : WaiterId -> bool) (m m' : Master) : Prop :=
  forall t tx, waiting m t tx -> waiting m' t tx \/ answered m' tx \/ closed tx = true.

Lemma push_waiter_spec t tx m t' :
  (awaited (push_waiter t tx m) t' <-> t' = t \/ awaited m t') /\
  (forall x, waiting (push_waiter t tx m) t' x <-> waiting m t' x \/ (t' = t /\ x = tx)).
Proof.
  unfold awaited, waiting, push_waiter. cbn. destruct (decide (t' = t)) as [->|Hne].
  - rewrite lookup_insert_eq. split; [split; [by left|by eexists]|]. intros x. split.
    + intros (l & [= <-] & [Hin|Hin%list_elem_of_singleton]%elem_of_app); [left|by right].
      destruct (m_waiters m !! t) as [l|]; [by exists l|]. by apply not_elem_of_nil in Hin.
    + intros [(l & -> & Hin)|[_ ->]]; eexists; (split; [done|]); set_solver.
  - rewrite lookup_insert_ne by done. split; [naive_solver|]. intros x. naive_solver.
Qed.

Lemma prune_spec closed t m t' :
  let m' := prune_closed_waiters closed t m in
  m_queue m' = m_queue m /\ (awaited m' t' -> awaited m t' /\ (t' = t -> exists x, waiting m t x /\ closed x = false)) /\
  (forall x, waiting m t' x -> waiting m' t' x \/ closed x = true).
Proof.
  cbn zeta. unfold prune_closed_waiters. destruct (m_waiters m !! t) as [l|] eqn:Hl.
  2: { split_and!; [done| |by left]. intros Ha. split; [done|]. intros ->. unfold awaited in Ha. rewrite Hl in Ha. by destruct Ha. }
  set (l' := List.filter (fun tx => negb (closed tx)) l). split; [by destruct (is_empty l')|]. unfold awaited, waiting. cbn.
  destruct (decide (t' = t)) as [->|Hne]; destruct l' as [|x0 l0] eqn:Hl'; cbn [is_empty].
  all: rewrite ?lookup_delete_eq, ?lookup_insert_eq, ?lookup_delete_ne, ?lookup_insert_ne by done.
  - split; [by intros []|]. intros x (l1 & [= <-]%(eq_trans (eq_sym Hl)) & Hin). right.
    destruct (closed x) eqn:Hx; [done|]. assert (Hf : x ∈ l') by (unfold l'; apply list_elem_of_In, List.filter_In; rewrite <-list_elem_of_In; by rewrite Hx).
    rewrite Hl' in Hf. by apply not_elem_of_nil in Hf.
  - rewrite Hl. split.
    + intros _. split; [done|]. intros _. assert (Hin : x0 ∈ l') by (rewrite Hl'; by left).
      apply list_elem_of_In, List.filter_In in Hin as [Hin%list_elem_of_In Hx]. exists x0. split; [by exists l|by apply negb_true_iff].
    + intros x (l1 & [= <-] & Hin). destruct (closed x) eqn:Hx; [by right|left]. eexists. split; [done|]. rewrite <-Hl'.
      apply list_elem_of_In, List.filter_In. rewrite <-list_elem_of_In. by rewrite Hx.
  - split; [by intros Ha; split|by left].
  - split; [by intros Ha; split|by left].
Qed.

Lemma submit_tasks now epoch t q :
  match submit now epoch t q with
  | (Ok _, q') => exists e, te_state e = Queued /\ tasks q' = <[task_id t := e]> (tasks q)
  | (Err _, q') => tasks q' = tasks q
  end.
Proof.
  unfold submit, submit_with_priority. repeat case_match; simplify_eq; try done.
  all: eexists; (split; [|reflexivity]); done.
Qed.

Lemma served_submit closed now epoch t tx admitted m :
  (forall x t', tx = Some x -> ~ waiting m t' x) -> live_waiters m ->
  let m' := (submit_task now epoch t tx admitted closed m).2 in
  live_waiters m' /\ no_waiter_lost closed m m'.
Proof.
  intros Hfresh Hlive. cbn zeta. unfold submit_task. destruct (negb _ && negb _); [split; [done|by left]|].
  set (m1 := match tx with Some _ => _ | None => _ end).
  assert (Hq1 : m_queue m1 = m_queue m) by (subst m1; by destruct tx).
  assert (Ha1 : forall t', awaited m1 t' -> awaited m t' \/ (t' = task_id t /\ is_Some tx)).
  { subst m1. destruct tx as [x|]; [|by left]. intros t' [->|?]%push_waiter_spec; [by right|by left]. }
  assert (Hw1 : forall t' x, waiting m1 t' x <-> waiting m t' x \/ (t' = task_id t /\ tx = Some x)).
  { subst m1. intros t' x. destruct tx as [y|]; [|naive_solver]. rewrite (proj2 (push_waiter_spec _ _ _ _)). naive_solver. }
  pose proof (submit_tasks now epoch t (m_queue m1)) as Hs. rewrite Hq1 in *.
  destruct (submit now epoch t (m_queue m)) as [[o|x] q]; cbn [snd].
  - destruct Hs as (e & Hst & Ht). split.
    + intros t' Ha. unfold unfinished. cbn. rewrite Ht. destruct (decide (t' = task_id t)) as [->|Hne].
      { exists e. rewrite lookup_insert_eq, Hst. done. }
      rewrite lookup_insert_ne by done. apply Hlive. by destruct (Ha1 t' Ha) as [?|[? _]].
    + intros t' x Hwt. left. apply Hw1. by left.
  - set (closed' := fun y => closed y || bool_decide (tx = Some y)). set (m2 := set_queue q m1).
    split.
    + intros t' Ha. destruct (prune_spec closed' (task_id t) m2 t') as (Hq & Hp & _). destruct (Hp Ha) as [Ha2 Hx].
      unfold unfinished. rewrite Hq. cbn. rewrite Hs. apply Hlive.
      destruct (Ha1 t' Ha2) as [?|[-> _]]; [done|]. destruct (Hx eq_refl) as (y & [Hy|[_ Hy]]%Hw1 & Hc).
      * destruct Hy as (l & Hl & _). by exists l.
      * unfold closed' in Hc. rewrite Hy, bool_decide_true, orb_true_r in Hc by done. done.
    + intros t' y Hwt. destruct (prune_spec closed' (task_id t) m2 t') as (_ & _ & Hk).
      destruct (Hk y) as [?|Hc]; [apply Hw1; by left|by left|right; right]. unfold closed' in Hc.
      apply orb_true_iff in Hc as [?|Hc%bool_decide_eq_true]; [done|]. by destruct (Hfresh y t' Hc).
Qed.

Lemma served_wait closed tid tx q_fast m :
  (awaited (wait_task tid tx q_fast m).2 tid -> is_Some (tasks (m_queue m) !! tid)) -> live_waiters m ->
  let m' := (wait_task tid tx q_fast m).2 in live_waiters m' /\ no_waiter_lost closed m m'.
Proof.
  intros Hp Hlive. unfold wait_task in *. destruct (get_task tid q_fast); [|by split; [|left]].
  destruct (terminal_result tid None q_fast); [by split; [|left]|].
  destruct (terminal_result tid None (m_queue m)) eqn:Hr; [by split; [|left]|]. cbn [snd] in *. split.
  - intros t' [->|Ha]%push_waiter_spec; [|by apply Hlive].
    destruct Hp as [e He]; [apply push_waiter_spec; by left|]. exists e. split; [done|].
    by eapply terminal_result_none.
  - intros t' x Hw. left. apply push_waiter_spec. by left.
Qed.

(** C4 Nobody who waits is forgotten.  If retention evicts no task somebody waits
    for, then after any handler of the master every waiter is still registered or was
    sent a result (or its client hung up), and whoever is registered waits for a task
    that is still in the table and unfinished. *)
Theorem waiters_served closed m m' :
  core_inv (m_queue m) -> live_waiters m -> handler_step closed m m' ->
  (forall t, awaited m t \/ awaited m' t -> is_Some (tasks (m_queue m') !! t)) ->
  live_waiters m' /\ no_waiter_lost closed m m'.
Proof.
  intros Hc Hlive Hh Hkeep.
  assert (Hserves : serves m m' -> live_waiters m' /\ no_waiter_lost closed m m').
  { intros [A K _ _ _ _ U]. split.
    - intros t Ha. apply U; [done|by apply Hlive, A|]. apply Hkeep. by right.
    - intros t tx [?|?]%K; [by left|by right; left]. }
  destruct Hh.
  - by apply served_submit.
  - apply Hserves, serves_cancel.
  - apply served_wait; [|done]. intros Ha. unfold wait_task in *. specialize (Hkeep tid (or_intror Ha)).
    by repeat case_match.
  - by apply Hserves, serves_result.
  - apply Hserves, serves_oversized.
  - apply Hserves. unfold apply_task_progress. case_bool_decide; [|done]. apply serves_queue; [done..|apply running_finishes].
  - apply Hserves. apply serves_queue; [done..|apply checkpoint_finishes].
  - apply Hserves. unfold apply_mobile_telemetry. repeat case_match; by apply serves_same.
  - by apply Hserves, serves_disconnect.
  - by apply Hserves, serves_register.
  - by apply Hserves, serves_reaper.
  - apply Hserves. by eapply serves_schedule.
Qed.
End uuid.

(** ** Samples, and where retention forgets a waiter *)

(** A queue that never re-runs a lost task and keeps one finished task; tasks 1 and 2
    run on session 1 of worker 70 and a client waits for each. *)
Definition no_rerun_policy : RetryPolicy := {|
  rp_max_retries := 0; rp_max_failovers := 0; rp_initial_backoff_ms := 0; rp_max_backoff_ms := 0;
  rp_backoff_multiplier := rp_backoff_multiplier retry_policy_default; rp_retry_on_worker_disconnect := false;
  rp_retry_on_execution_failure := false
|}.

Definition sample_waited (max_terminal : N) : Master :=
  let q := with_retention_limits no_rerun_policy None max_terminal 1000000 1000000 in
  let q := (submit 10 1 (sample_task 1) q).2 in
  let q := (submit 11 1 (sample_task 2) q).2 in
  let q := (schedule_tasks_batch_in_sessions 12 [(1, 70, 1); (2, 70, 1)] q).2 in
  {| m_queue := q; m_registry := sample_sys_regs; m_waiters := {[ 1 := [501]; 2 := [502] ]}; m_sent := []; m_outbox := [];
     m_gpu_demand := gpu_demand_default; m_rr_cursor := 0; m_notified := false |}.

Definition sample_lost (max_terminal : N) : Master :=
  handle_worker_disconnect None elements 20 2 70 (Some 1) (str "gone") true (sample_waited max_terminal).

Lemma sample_waited_core n : core_inv (m_queue (sample_waited n)).
Proof.
  unfold sample_waited. cbn [m_queue]. unfold schedule_tasks_batch_in_sessions, submit.
  apply core_schedule_batch, core_submit, core_submit, init_inv.
Qed.

Theorem waiters_served_witness :
  live_waiters (sample_lost 2) /\ no_waiter_lost (fun _ => false) (sample_waited 2) (sample_lost 2) /\ answered (sample_lost 2) 502.
Proof.
  assert (Hs : m_sent (sample_lost 2) <> [] /\ exists r rest, m_sent (sample_lost 2) = (502, r) :: rest).
  { split; [vm_compute; discriminate|]. eexists _, _. vm_compute. reflexivity. }
  destruct (waiters_served (fun _ => false) (sample_waited 2) (sample_lost 2)) as [Hl Hk].
  - apply sample_waited_core.
  - intros t [l Hl]. cbn in Hl. apply lookup_insert_Some in Hl as [[<- _]|[_ [<- _]%lookup_singleton_Some]].
    all: eexists; split; [vm_compute; reflexivity|reflexivity].
  - unfold sample_lost. exact (hs_disconnect (fun _ => false) None elements 20 2 70 (Some 1) (str "gone") true (sample_waited 2) (fun X => reflexivity _)).
  - intros t [[l Hl]|[l Hl]].
    + cbn in Hl. apply lookup_insert_Some in Hl as [[<- _]|[_ [<- _]%lookup_singleton_Some]]; vm_compute; by eexists.
    + assert (Hnone : m_waiters (sample_lost 2) = ∅) by (vm_compute; reflexivity). rewrite Hnone in Hl. exfalso. clear -Hl. rewrite lookup_empty in Hl. discriminate Hl.
  - split; [exact Hl|split; [exact Hk|]]. destruct Hs as (_ & r & rest & Hr). exists r. rewrite Hr. by left.
Defined.

(** A sweep that fails more tasks than retention keeps evicts some of them before
    [resolve_terminal_waiters] looks: task 2 is gone, its client still waits, and
    nothing was sent to it. *)
Theorem swept_waiter_forgotten :
  let m' := sample_lost 1 in
  waiting m' 2 502 /\ tasks (m_queue m') !! 2 = None /\ ~ answered m' 502.
Proof.
  cbn zeta. split_and!; [eexists; split; [vm_compute; reflexivity|by left]|vm_compute; reflexivity|].
  intros [r Hr]. assert (Hs : Forall (fun p => p.1 <> 502) (m_sent (sample_lost 1))).
  { vm_compute. repeat constructor. discriminate. }
  rewrite Forall_forall in Hs. by apply (Hs _ Hr).
Qed.

(** A task that finishes and is evicted between the two checks of [wait_task] leaves
    the caller suspended on a task that no longer exists. *)
Theorem late_waiter_suspended :
  let q_fast := m_queue (sample_waited 1) in
  let q := (cancel_task_detailed 2 None (cancel_task_detailed 1 None q_fast).2).2 in
  let m := set_waiters ∅ (set_queue q (sample_waited 1)) in
  (wait_task 1 503 q_fast m).1 = WaitSuspended /\ tasks (m_queue m) !! 1 = None.
Proof. cbn zeta. split; vm_compute; reflexivity. Qed.
