(* ===== verification/SubmitAwait.v ===== *)
(** * SubmitAwait: a task of a job, from its submission to its answer

    Models [submit_and_await], [cancel_abandoned] and the drop guard of
    [crates/master/src/mapreduce.rs] over the shared master of [Master].  The future is
    a state machine: each function below runs it from one await point to the next, and
    [call_drop] is what dropping it at an await point does.  The clean-up that follows is
    a list of locked actions.  [now] is [Instant::now()] and [last] the job's progress
    clock, when there is one. *)

From S2P Require Import Prelude Collections RustStr Float Capabilities Placement Blob Task Queue QueueOps Registry Scheduler Master.
Local Open Scope N_scope.

(** ** Time *)

Definition ms : N := 1000000.
Definition queue_wait_start : Duration := 25 * ms.
Definition next_queue_wait_backoff (current : Duration) : Duration := N.min (current * 2) (from_secs 1).

(** [timeout.saturating_sub(idle_since.elapsed())], with
    [idle_since = progress.map_or(start, |p| p.last().max(start))]. *)
Definition remaining (timeout now start : N) (last : option N) : N :=
  timeout - (now - from_option (fun l => N.max l start) start last).

(** [GridError::is_transient] of the errors the queue returns. *)
Definition is_transient (e : GridError) : bool :=
  match e with
  | QueueFull capacity => 0 <? capacity
  | QueueByteLimitExceeded task_bytes _ max_bytes => (task_bytes <=? max_bytes) && (0 <? max_bytes)
  | _ => false
  end.

(** ** The call *)

Inductive CallError := SubmitRefused (e : option GridError) | NoRoom (e : GridError) | NoAnswer | ConnectionClosed.

(** What cleaning up still has to do, one lock at a time. *)
Inductive Cleanup := DoPrune | DoCancel (reason : Str).

#[global] Instance Cleanup_eq : EqDecision Cleanup.
Proof. solve_decision. Defined.

(** A clean-up runs inside the call, which then returns, or in the background after the
    call was dropped. *)
Inductive CallPhase :=
| CallStart
| WaitRoom
| WaitResult
| CleaningUp (todo : list Cleanup) (result : option (result CallError TaskResult))
| Ended (result : option (result CallError TaskResult)).

Record Call := {
  ca_task : Task;
  ca_slot : option Task;
  ca_tx : WaiterId;
  ca_rx_open : bool;
  ca_armed : bool;
  ca_waiter_registered : bool;
  ca_wait_start : N;
  ca_own_start : N;
  ca_backoff : Duration;
  ca_phase : CallPhase
}.

Definition ca_id (c : Call) : TaskId := task_id (ca_task c).

Definition call_new (t : Task) (tx : WaiterId) : Call := {|
  ca_task := t; ca_slot := Some t; ca_tx := tx; ca_rx_open := true; ca_armed := false; ca_waiter_registered := false;
  ca_wait_start := 0; ca_own_start := 0; ca_backoff := queue_wait_start; ca_phase := CallStart
|}.

(** Disarming the guard, with or without dropping the receiver, and going on. *)
Definition disarm (rx_open : bool) (phase : CallPhase) (c : Call) : Call := {|
  ca_task := ca_task c; ca_slot := ca_slot c; ca_tx := ca_tx c; ca_rx_open := rx_open; ca_armed := false; ca_waiter_registered := false;
  ca_wait_start := ca_wait_start c; ca_own_start := ca_own_start c; ca_backoff := ca_backoff c; ca_phase := phase
|}.

(** [lock.entry(task_id).or_default().push(tx)], then the clock of the wait for room. *)
Definition call_register (now : N) (c : Call) (m : Master) : Call * Master :=
  ({| ca_task := ca_task c; ca_slot := ca_slot c; ca_tx := ca_tx c; ca_rx_open := ca_rx_open c; ca_armed := ca_armed c;
      ca_waiter_registered := true; ca_wait_start := now; ca_own_start := ca_own_start c; ca_backoff := ca_backoff c; ca_phase := WaitRoom |},
   push_waiter (ca_id c) (ca_tx c) m).

(** The receiver is dropped and the waiter table pruned before the error is returned. *)
Definition call_fail (e : CallError) (c : Call) : Call := disarm false (CleaningUp [DoPrune] (Some (Err e))) c.

Section uuid.
Context `{UuidApi}.

(** One round of the submission loop. *)
Definition call_submit (now epoch timeout : N) (last : option N) (q_read : TaskQueueInner) (c : Call) (m : Master) : Call * Master :=
  let '(o, slot, q) := try_submit_slot now epoch (ca_slot c) q_read (m_queue m) in
  let m := set_queue q m in
  match o with
  | Ok _ =>
      ({| ca_task := ca_task c; ca_slot := slot; ca_tx := ca_tx c; ca_rx_open := ca_rx_open c; ca_armed := true;
          ca_waiter_registered := ca_waiter_registered c; ca_wait_start := ca_wait_start c; ca_own_start := now; ca_backoff := ca_backoff c;
          ca_phase := WaitResult |}, notify_one m)
  | Err None => (call_fail (SubmitRefused None) c, m)
  | Err (Some e) =>
      if negb (is_transient e) then (call_fail (SubmitRefused (Some e)) c, m)
      else
        match e with
        | QueueByteLimitExceeded _ _ _ | QueueFull _ =>
            if remaining timeout now (ca_wait_start c) last =? 0 then (call_fail (NoRoom e) c, m)
            else
              ({| ca_task := ca_task c; ca_slot := slot; ca_tx := ca_tx c; ca_rx_open := ca_rx_open c; ca_armed := ca_armed c;
                  ca_waiter_registered := ca_waiter_registered c; ca_wait_start := ca_wait_start c; ca_own_start := ca_own_start c;
                  ca_backoff := next_queue_wait_backoff (ca_backoff c); ca_phase := WaitRoom |}, m)
        | _ => (call_fail (SubmitRefused (Some e)) c, m)
        end
  end.

(** What the receiver of the oneshot [tx] sees. *)
Inductive Received := Got (r : TaskResult) | SenderGone | Pending.
Definition receive (tid : TaskId) (tx : WaiterId) (m : Master) : Received :=
  match List.find (fun p => p.1 =? tx) (m_sent m) with
  | Some p => Got p.2
  | None => if bool_decide (tx ∈ default [] (m_waiters m !! tid)) then Pending else SenderGone
  end.

Definition abandon_reason_timeout : Str := str "MapReduce wait timed out".
Definition abandon_reason_drop : Str := str "MapReduce job abandoned".

(** One round of the wait for the result. *)
Definition call_poll (now timeout : N) (last : option N) (c : Call) (m : Master) : Call :=
  if remaining timeout now (ca_own_start c) last =? 0 then
    disarm false (CleaningUp [DoPrune; DoPrune; DoCancel abandon_reason_timeout] (Some (Err NoAnswer))) c
  else
    match receive (ca_id c) (ca_tx c) m with
    | Got r => disarm (ca_rx_open c) (Ended (Some (Ok r))) c
    | SenderGone => disarm (ca_rx_open c) (Ended (Some (Err ConnectionClosed))) c
    | Pending => c
    end.

(** The waiters whose receiver is gone: those of other clients, and the call's own. *)
Definition closed_with (closed : WaiterId -> bool) (c : Call) (x : WaiterId) : bool :=
  closed x || (bool_decide (x = ca_tx c) && negb (ca_rx_open c)).

(** [cancel_abandoned] after its prune: through the registry when the engine has one. *)
Definition cancel_abandoned (has_registry : bool) (tid : TaskId) (reason : Str) (m : Master) : Master :=
  if has_registry then (cancel_task_and_notify tid reason m).2 else set_queue (cancel_task tid (Some reason) (m_queue m)).2 m.

Definition run_cleanup (has_registry : bool) (closed : WaiterId -> bool) (a : Cleanup) (c : Call) (m : Master) : Master :=
  match a with
  | DoPrune => prune_closed_waiters (closed_with closed c) (ca_id c) m
  | DoCancel reason => cancel_abandoned has_registry (ca_id c) reason m
  end.

Definition with_phase (p : CallPhase) (c : Call) : Call := {|
  ca_task := ca_task c; ca_slot := ca_slot c; ca_tx := ca_tx c; ca_rx_open := ca_rx_open c; ca_armed := ca_armed c;
  ca_waiter_registered := ca_waiter_registered c; ca_wait_start := ca_wait_start c; ca_own_start := ca_own_start c;
  ca_backoff := ca_backoff c; ca_phase := p
|}.

(** The next action of a clean-up. *)
Definition call_cleanup (has_registry : bool) (closed : WaiterId -> bool) (c : Call) (m : Master) : Call * Master :=
  match ca_phase c with
  | CleaningUp (a :: todo) res =>
      (with_phase (if is_empty todo then Ended res else CleaningUp todo res) c, run_cleanup has_registry closed a c m)
  | _ => (c, m)
  end.

(** Dropping the future: the receiver goes first, then the guard acts on its flags. *)
Definition call_drop (c : Call) : Call := {|
  ca_task := ca_task c; ca_slot := ca_slot c; ca_tx := ca_tx c; ca_rx_open := false; ca_armed := ca_armed c;
  ca_waiter_registered := ca_waiter_registered c; ca_wait_start := ca_wait_start c; ca_own_start := ca_own_start c; ca_backoff := ca_backoff c;
  ca_phase :=
    if negb (ca_armed c) && negb (ca_waiter_registered c) then Ended None
    else if ca_armed c then CleaningUp [DoPrune; DoCancel abandon_reason_drop] None
    else CleaningUp [DoPrune] None
|}.
End uuid.
