(* ===== verification/SubmitAwaitProps.v ===== *)
(** * SubmitAwaitProps: a call of [submit_and_await] leaves nothing behind

    The call interleaved with the handlers of the master: while it waits it is registered
    or answered, and when it ends, by its answer, an error, a timeout or because its job
    dropped it, its oneshot is out of the waiter table and a task it gave up on is not
    left to run for nobody.  A call dropped in the middle of its own clean-up is the
    exception: what it leaves then is stated too. *)

From S2P Require Import Prelude Collections RustStr Float Capabilities Placement Blob Task Queue QueueOps QueueInv QueueCore QueueBook QueueAcct QueueSteps Samples Registry RegistryProps Scheduler Master Interleave Stranded Waiters SubmitAwait.
Local Open Scope N_scope.

Section uuid.
Context `{UuidApi}.

(** ** What the other handlers do to a waiter and its task *)

Lemma submit_fresh now epoch t q o q' : submit now epoch t q = (Ok o, q') -> tasks q !! task_id t = None.
Proof. unfold submit, submit_with_priority. intros Hs. repeat case_match; by simplify_eq. Qed.

Lemma prune_sent closed t m : m_sent (prune_closed_waiters closed t m) = m_sent m.
Proof. unfold prune_closed_waiters. by destruct (m_waiters m !! t). Qed.

Lemma submit_task_sent now epoch t tx adm closed m : m_sent (submit_task now epoch t tx adm closed m).2 = m_sent m.
Proof.
  unfold submit_task. destruct (negb _ && negb _); [done|]. destruct (submit _ _ _ _) as [[o|e] q]; cbn [snd].
  - by destruct tx.
  - rewrite prune_sent. by destruct tx.
Qed.

Lemma wait_task_sent tid tx qf m : m_sent (wait_task tid tx qf m).2 = m_sent m /\ m_queue (wait_task tid tx qf m).2 = m_queue m.
Proof. unfold wait_task. repeat case_match; done. Qed.

(** Every handler but the two that register waiters serves. *)
Lemma handler_cases closed m m' :
  core_inv (m_queue m) -> handler_step closed m m' ->
  serves m m' \/ (exists now epoch t tx adm, (forall x t', tx = Some x -> ~ waiting m t' x) /\ m' = (submit_task now epoch t tx adm closed m).2) \/
  (exists tid tx qf, m' = (wait_task tid tx qf m).2).
Proof.
  intros Hc. destruct 1; [right; left; eauto 10| |right; right; eauto| | | | | | | | |]; left.
  - apply serves_cancel.
  - by apply serves_result.
  - apply serves_oversized.
  - unfold apply_task_progress. case_bool_decide; [|done]. apply serves_queue; [done..|apply running_finishes].
  - apply serves_queue; [done..|apply checkpoint_finishes].
  - unfold apply_mobile_telemetry. repeat case_match; by apply serves_same.
  - by apply serves_disconnect.
  - by apply serves_register.
  - by apply serves_reaper.
  - by eapply serves_schedule.
Qed.

Lemma handler_back closed m m' t :
  core_inv (m_queue m) -> handler_step closed m m' -> (is_Some (tasks (m_queue m') !! t) -> is_Some (tasks (m_queue m) !! t)) ->
  unfinished (m_queue m') t -> unfinished (m_queue m) t.
Proof.
  intros Hc Hh Hk Hu. destruct (handler_cases closed m m' Hc Hh) as [Hs|[(now & epoch & t0 & tx & adm & _ & ->)|(tid & tx & qf & ->)]].
  - by apply (sv_back m m').
  - unfold submit_task in *. destruct (negb _ && negb _); [done|]. set (m1 := match tx with Some _ => _ | None => _ end) in *.
    assert (Hq1 : m_queue m1 = m_queue m) by (subst m1; by destruct tx). rewrite Hq1 in *.
    pose proof (submit_tasks now epoch t0 (m_queue m)) as Hs. pose proof (submit_fresh now epoch t0 (m_queue m)) as Hf.
    destruct (submit now epoch t0 (m_queue m)) as [[o|e] q]; cbn [snd] in *.
    + destruct Hs as (e & _ & Ht). unfold unfinished in *. cbn in Hu, Hk. rewrite Ht in Hu, Hk.
      destruct (decide (t = task_id t0)) as [->|Hne]; [|by rewrite lookup_insert_ne in Hu].
      rewrite lookup_insert_eq in Hk. destruct Hk as [e0 He0]; [by eexists|]. by rewrite (Hf o q eq_refl) in He0.
    + unfold unfinished in *. match type of Hu with context [prune_closed_waiters ?c ?i ?mm] => destruct (prune_spec c i mm t) as (Hq & _) end.
      rewrite Hq in Hu. cbn in Hu. by rewrite Hs in Hu.
  - destruct (wait_task_sent tid tx qf m) as [_ Hq]. by rewrite Hq in Hu.
Qed.

Lemma handler_answers closed m m' tx :
  core_inv (m_queue m) -> handler_step closed m m' -> answered m' tx -> answered m tx \/ exists t, waiting m t tx /\ ~ awaited m' t.
Proof.
  intros Hc Hh Ha. destruct (handler_cases closed m m' Hc Hh) as [Hs|[(now & epoch & t0 & tx0 & adm & _ & ->)|(tid & tx0 & qf & ->)]].
  - by apply (ao_answered m m' (sv_once m m' Hs)).
  - left. unfold answered in *. by rewrite submit_task_sent in Ha.
  - left. unfold answered in *. destruct (wait_task_sent tid tx0 qf m) as [Hq _]. by rewrite Hq in Ha.
Qed.

Lemma handler_keeps closed m m' t tx :
  core_inv (m_queue m) -> handler_step closed m m' -> closed tx = false -> waiting m t tx -> waiting m' t tx \/ answered m' tx.
Proof.
  intros Hc Hh Hx Hw. destruct (handler_cases closed m m' Hc Hh) as [Hs|[(now & epoch & t0 & tx0 & adm & Hfresh & ->)|(tid & tx0 & qf & ->)]].
  - by apply (sv_kept m m' Hs).
  - left. unfold submit_task. destruct (negb _ && negb _); [done|]. set (m1 := match tx0 with Some _ => _ | None => _ end).
    assert (Hw1 : waiting m1 t tx) by (subst m1; destruct tx0; [apply push_waiter_spec; by left|done]).
    destruct (submit _ _ _ _) as [[o|e] q]; cbn [snd]; [done|].
    match goal with |- waiting (prune_closed_waiters ?c ?i ?mm) _ _ => destruct (prune_spec c i mm t) as (_ & _ & Hp) end.
    destruct (Hp tx) as [?|Hc']; [done|done|]. apply orb_true_iff in Hc' as [?|Hb%bool_decide_eq_true]; [congruence|].
    by destruct (Hfresh tx t Hb).
  - left. unfold wait_task. repeat case_match; cbn [snd]; try done. apply push_waiter_spec. by left.
Qed.

Lemma handler_answered_stays closed m m' tx : core_inv (m_queue m) -> handler_step closed m m' -> answered m tx -> answered m' tx.
Proof.
  intros Hc Hh Ha. destruct (handler_cases closed m m' Hc Hh) as [Hs|[(now & epoch & t0 & tx0 & adm & _ & ->)|(tid & tx0 & qf & ->)]].
  - by apply (sv_answered m m' Hs).
  - unfold answered in *. by rewrite submit_task_sent.
  - unfold answered in *. destruct (wait_task_sent tid tx0 qf m) as [Hq _]. by rewrite Hq.
Qed.

(** ** The call among the handlers *)

(** The call may be dropped wherever it waits: for a lock, for room, for its answer, and while
    it cleans up before it returns.  After it was dropped or has returned it is gone. *)
Definition droppable (p : CallPhase) : bool := match p with CallStart | WaitRoom | WaitResult | CleaningUp _ (Some _) => true | _ => false end.

(** A step of another handler, which does not use the call's oneshot and submits no task
    under its id, or a step of the call. *)
Inductive call_step (has_registry : bool) (timeout : N) : Master * Call -> Master * Call -> Prop :=
| cl_handler closed m m' c : handler_step closed m m' -> (ca_rx_open c = true -> closed (ca_tx c) = false) ->
    (forall t, waiting m' t (ca_tx c) -> waiting m t (ca_tx c)) ->
    (is_Some (tasks (m_queue m') !! ca_id c) -> is_Some (tasks (m_queue m) !! ca_id c)) ->
    call_step has_registry timeout (m, c) (m', c)
| cl_register now m c : ca_phase c = CallStart ->
    call_step has_registry timeout (m, c) ((call_register now c m).2, (call_register now c m).1)
| cl_submit now epoch last q_read m c : ca_phase c = WaitRoom ->
    let r := call_submit now epoch timeout last q_read c m in call_step has_registry timeout (m, c) (r.2, r.1)
| cl_poll now last m c : ca_phase c = WaitResult -> call_step has_registry timeout (m, c) (m, call_poll now timeout last c m)
| cl_cleanup closed m c : let r := call_cleanup has_registry closed c m in call_step has_registry timeout (m, c) (r.2, r.1)
| cl_drop m c : droppable (ca_phase c) = true -> call_step has_registry timeout (m, c) (m, call_drop c).

(** Whether the call was dropped in the middle of its own clean-up, and which error it was about
    to return. *)
Definition cut_short (cut : option CallError) (c c' : Call) : option CallError :=
  match ca_phase c, ca_phase c' with CleaningUp _ (Some (Err e)), Ended None => Some e | _, _ => cut end.

Inductive call_reachable (has_registry : bool) (timeout : N) : option CallError -> Master * Call -> Prop :=
| cr_start m t tx : sys_reachable (quiet m) -> (forall t', ~ waiting m t' tx) -> ~ answered m tx -> tasks (m_queue m) !! task_id t = None ->
    call_reachable has_registry timeout None (m, call_new t tx)
| cr_step cut s s' : call_reachable has_registry timeout cut s -> call_step has_registry timeout s s' ->
    call_reachable has_registry timeout (cut_short cut s.2 s'.2) s'.

(** What holds at each await point. *)
Definition phase_inv (m : Master) (c : Call) : Prop :=
  let id := ca_id c in let tx := ca_tx c in
  match ca_phase c with
  | CallStart =>
      ca_slot c = Some (ca_task c) /\ ca_rx_open c = true /\ ca_armed c = false /\ ca_waiter_registered c = false /\
      (forall t, ~ waiting m t tx) /\ ~ answered m tx /\ tasks (m_queue m) !! id = None
  | WaitRoom =>
      ca_slot c = Some (ca_task c) /\ ca_rx_open c = true /\ ca_armed c = false /\ ca_waiter_registered c = true /\
      (waiting m id tx \/ answered m tx) /\ tasks (m_queue m) !! id = None
  | WaitResult =>
      ca_rx_open c = true /\ ca_armed c = true /\ ca_waiter_registered c = true /\ (waiting m id tx \/ answered m tx)
  | CleaningUp todo res =>
      todo <> [] /\ ca_rx_open c = false /\ (DoPrune ∈ todo \/ ~ waiting m id tx) /\
      ((exists reason, DoCancel reason ∈ todo) \/ ~ unfinished (m_queue m) id) /\
      match res with
      | Some (Ok _) | Some (Err ConnectionClosed) => False
      | Some (Err e) => ca_armed c = false /\ ca_waiter_registered c = false /\ (e <> NoAnswer -> ~ unfinished (m_queue m) id)
      | None => True
      end
  | Ended res =>
      ~ waiting m id tx /\
      match res with Some (Ok _) => answered m tx | Some (Err ConnectionClosed) => False | _ => ~ unfinished (m_queue m) id end
  end.

Record call_inv (s : Master * Call) : Prop := {
  ci_sys : sys_reachable (quiet s.1);
  ci_here : forall t, waiting s.1 t (ca_tx s.2) -> t = ca_id s.2;
  ci_once : answered s.1 (ca_tx s.2) -> ~ waiting s.1 (ca_id s.2) (ca_tx s.2);
  ci_phase : phase_inv s.1 s.2
}.

Lemma sys_reachable_rtc σ σ' : sys_reachable σ -> rtc sys_step σ σ' -> sys_reachable σ'.
Proof. intros Hr Hs. induction Hs as [|σ1 σ2 σ3 H1 _ IH]; [done|]. apply IH. by eapply sr_step. Qed.

Lemma sys_core m : sys_reachable (quiet m) -> core_inv (m_queue m).
Proof. intros Hr. destruct (sys_reachable_inv _ Hr) as (Hq & _ & _). exact Hq. Qed.

(** Another handler's step. *)
Lemma handler_inv closed m m' c :
  call_inv (m, c) -> handler_step closed m m' -> (ca_rx_open c = true -> closed (ca_tx c) = false) ->
  (forall t, waiting m' t (ca_tx c) -> waiting m t (ca_tx c)) ->
  (is_Some (tasks (m_queue m') !! ca_id c) -> is_Some (tasks (m_queue m) !! ca_id c)) -> call_inv (m', c).
Proof.
  intros [Hsys Hhere Honce Hph] Hh Hcl Hnew Hknown. cbn [fst snd] in *. pose proof (sys_core m Hsys) as Hc.
  assert (Hkeep : ca_rx_open c = true -> waiting m (ca_id c) (ca_tx c) \/ answered m (ca_tx c) ->
    waiting m' (ca_id c) (ca_tx c) \/ answered m' (ca_tx c)).
  { intros Hrx [Hw|Ha]; [by apply (handler_keeps closed m); auto|right; by eapply handler_answered_stays]. }
  assert (Hnone : tasks (m_queue m) !! ca_id c = None -> tasks (m_queue m') !! ca_id c = None).
  { intros Hn. destruct (tasks (m_queue m') !! ca_id c) as [e|] eqn:He; [|done]. destruct Hknown as [? Hx]; [by eexists|].
    by rewrite Hn in Hx. }
  assert (Hback : unfinished (m_queue m') (ca_id c) -> unfinished (m_queue m) (ca_id c)) by (by apply (handler_back closed m m' (ca_id c) Hc Hh)).
  split; cbn [fst snd].
  - eapply sys_reachable_rtc; [exact Hsys|]. by eapply handler_sys_steps.
  - intros t Hw. by apply Hhere, Hnew.
  - intros Ha Hw. destruct (handler_answers closed m m' _ Hc Hh Ha) as [Ha'|(t & Hw' & Hn)].
    + by apply Honce; [|apply Hnew].
    + apply Hn. rewrite (Hhere t Hw'). by eapply waiting_awaited.
  - unfold phase_inv in *. destruct (ca_phase c) as [| | |todo res|res].
    + destruct Hph as (? & ? & ? & ? & Hnw & Hna & ?). split_and!; auto.
      * intros t Hw. by apply (Hnw t), Hnew.
      * intros [Ha'|(t & Hw' & _)]%(handler_answers closed m m' _ Hc Hh); [done|by apply (Hnw t)].
    + destruct Hph as (? & ? & ? & ? & ? & ?). split_and!; auto.
    + destruct Hph as (? & ? & ? & ?). split_and!; auto.
    + destruct Hph as (? & ? & Hw & Hu & Hres). split_and!; [done|done|destruct Hw; auto|destruct Hu as [?|Hu]; [by left|right; auto]|].
      destruct res as [[r|[]]|]; try done; destruct Hres as (? & ? & Hne); (split_and!; [done|done|intros He Hx; by apply (Hne He), Hback]).
    + destruct Hph as [Hw Hr]. split; [by auto|]. destruct res as [[r|[]]|]; auto. by eapply handler_answered_stays.
Qed.

Lemma same_sys_reachable m m' : m_queue m' = m_queue m -> m_registry m' = m_registry m -> sys_reachable (quiet m) -> sys_reachable (quiet m').
Proof. unfold quiet, mid. by intros -> ->. Qed.

Lemma queue_sys_reachable op m m' :
  passive op = true -> m_queue m' = run op (m_queue m) -> m_registry m' = m_registry m -> sys_reachable (quiet m) -> sys_reachable (quiet m').
Proof. unfold quiet, mid. intros Hp -> -> Hr. eapply sr_step; [exact Hr|]. by apply ss_queue. Qed.

Lemma register_call_inv now m c : call_inv (m, c) -> ca_phase c = CallStart -> call_inv ((call_register now c m).2, (call_register now c m).1).
Proof.
  intros [Hsys Hhere Honce Hph] Hst. cbn [fst snd] in *. unfold phase_inv in Hph. rewrite Hst in Hph.
  destruct Hph as (Hsl & Hrx & Har & Hre & Hnw & Hna & Hn). split; cbn [fst snd call_register ca_tx ca_id ca_task].
  - by apply (same_sys_reachable m).
  - intros t [Hw|[-> _]]%push_waiter_spec; [by destruct (Hnw t)|done].
  - intros Ha _. by apply Hna.
  - unfold phase_inv. cbn. split_and!; try done. left. apply push_waiter_spec. by right.
Qed.

(** Failing before the task was accepted. *)
Lemma fail_inv m c e : call_inv (m, c) -> tasks (m_queue m) !! ca_id c = None -> e <> ConnectionClosed -> call_inv (m, call_fail e c).
Proof.
  intros [Hsys Hhere Honce Hph] Hn He. cbn [fst snd] in *. split; try done. unfold phase_inv. cbn. split_and!; try done.
  - left. set_solver.
  - right. intros (e0 & He0 & _). unfold ca_id in *. cbn in He0. by rewrite Hn in He0.
  - assert (Hu : ~ unfinished (m_queue m) (ca_id c)) by (intros (e0 & He0 & _); by rewrite Hn in He0). by destruct e.
Qed.

Lemma try_submit_slot_cases now epoch t q_read q :
  match try_submit_slot now epoch (Some t) q_read q with
  | (Ok _, _, q') => exists e, te_state e = Queued /\ tasks q' = <[task_id t := e]> (tasks q)
  | (Err _, slot, q') => slot = Some t /\ q' = q
  end.
Proof. unfold try_submit_slot. repeat case_match; simplify_eq; try done. all: eexists; (split; [|reflexivity]); done. Qed.

Lemma set_queue_id m : set_queue (m_queue m) m = m.
Proof. by destruct m. Qed.

Lemma submit_inv now epoch timeout last q_read m c :
  call_inv (m, c) -> ca_phase c = WaitRoom ->
  let r := call_submit now epoch timeout last q_read c m in call_inv (r.2, r.1).
Proof.
  intros Hi Hst. pose proof Hi as [Hsys Hhere Honce Hph]. cbn [fst snd] in *. unfold phase_inv in Hph. rewrite Hst in Hph.
  destruct Hph as (Hsl & Hrx & Har & Hre & Hw & Hn). cbn zeta. unfold call_submit. rewrite Hsl.
  pose proof (try_submit_slot_cases now epoch (ca_task c) q_read (m_queue m)) as Hcases.
  pose proof (queue_sys_reachable (OpTrySubmit now epoch (Some (ca_task c)) q_read) m) as Hop. cbn [run passive] in Hop.
  destruct (try_submit_slot now epoch (Some (ca_task c)) q_read (m_queue m)) as [[[o|e] slot] q]; cbn [snd] in Hop.
  - destruct Hcases as (e & He & Ht). split; cbn [fst snd].
    + by apply Hop.
    + exact Hhere.
    + exact Honce.
    + unfold phase_inv. cbn. by split_and!.
  - destruct Hcases as [-> ->]. rewrite set_queue_id.
    destruct e as [e|]; [|by apply fail_inv]. destruct (is_transient e) eqn:Htr; cbn [negb]; [|by apply fail_inv].
    assert (Hagain : call_inv (m, {| ca_task := ca_task c; ca_slot := Some (ca_task c); ca_tx := ca_tx c; ca_rx_open := ca_rx_open c;
      ca_armed := ca_armed c; ca_waiter_registered := ca_waiter_registered c; ca_wait_start := ca_wait_start c; ca_own_start := ca_own_start c;
      ca_backoff := next_queue_wait_backoff (ca_backoff c); ca_phase := WaitRoom |})).
    { split; try done; unfold phase_inv; cbn; by split_and!. }
    destruct e; try done; (destruct (_ =? 0); [by apply fail_inv|exact Hagain]).
Qed.

(** ** Waiting and cleaning up *)

Lemma receive_got tid tx m r : receive tid tx m = Got r -> answered m tx.
Proof.
  unfold receive. destruct (List.find _ _) as [[x r']|] eqn:Hf; [|by case_bool_decide]. intros [= <-].
  apply List.find_some in Hf as [Hin Hx]. cbn in Hx. apply N.eqb_eq in Hx as ->. exists r'. by apply list_elem_of_In.
Qed.

Lemma receive_gone tid tx m : waiting m tid tx \/ answered m tx -> receive tid tx m <> SenderGone.
Proof.
  unfold receive, waiting, answered. intros Hw. destruct (List.find _ _) as [p|] eqn:Hf; [done|].
  case_bool_decide as Hb; [done|]. destruct Hw as [(l & Hl & Hin)|[r Hin]].
  - rewrite Hl in Hb. by destruct Hb.
  - pose proof (List.find_none _ _ Hf (tx, r)) as Hx. cbn in Hx. rewrite N.eqb_refl in Hx. by rewrite <-list_elem_of_In in Hx; specialize (Hx Hin).
Qed.

Lemma poll_inv now timeout last m c : call_inv (m, c) -> ca_phase c = WaitResult -> call_inv (m, call_poll now timeout last c m).
Proof.
  intros Hi Hst. pose proof Hi as [Hsys Hhere Honce Hph]. cbn [fst snd] in *. unfold phase_inv in Hph. rewrite Hst in Hph.
  destruct Hph as (Hrx & Har & Hre & Hw). unfold call_poll. destruct (_ =? 0).
  { split; try done. unfold phase_inv. cbn. split_and!; [done|done|left; set_solver|left|done|done|done]. exists abandon_reason_timeout. set_solver. }
  destruct (receive _ _ _) as [r| |] eqn:Hr; [|by apply receive_gone in Hr|done].
  apply receive_got in Hr. split; try done. unfold phase_inv. cbn. split; [|done]. by apply Honce.
Qed.

(** A prune takes the call's oneshot out once its receiver is gone. *)
Lemma prune_out closed m c : ca_rx_open c = false -> ~ waiting (prune_closed_waiters (closed_with closed c) (ca_id c) m) (ca_id c) (ca_tx c).
Proof.
  intros Hrx. unfold prune_closed_waiters, waiting. destruct (m_waiters m !! ca_id c) as [l|] eqn:Hl.
  2: { intros (l & Hl' & _). by rewrite Hl in Hl'. }
  set (l' := List.filter _ l). assert (Hno : ca_tx c ∉ l').
  { intros Hin%list_elem_of_In. apply List.filter_In in Hin as [_ Hx]. unfold closed_with in Hx.
    rewrite Hrx, bool_decide_true, orb_true_r in Hx by done. done. }
  destruct (is_empty l') eqn:He; cbn.
  - rewrite lookup_delete_eq. by intros (? & ? & _).
  - rewrite lookup_insert_eq. by intros (? & [= <-] & ?).
Qed.

Lemma prune_waiting closed t m t' x : waiting (prune_closed_waiters closed t m) t' x -> waiting m t' x.
Proof.
  unfold prune_closed_waiters, waiting. destruct (m_waiters m !! t) as [l|] eqn:Hl; [|done].
  set (l' := List.filter _ l). assert (Hsub : forall y, y ∈ l' -> y ∈ l).
  { intros y Hy%list_elem_of_In. apply list_elem_of_In. by apply List.filter_In in Hy as [? _]. }
  destruct (decide (t' = t)) as [->|Hne]; destruct (is_empty l') eqn:He; cbn.
  all: rewrite ?lookup_delete_eq, ?lookup_insert_eq, ?lookup_delete_ne, ?lookup_insert_ne by done; try done.
  - by intros (? & ? & _).
  - intros (? & [= <-] & Hin). exists l. auto.
Qed.

(** After a cancellation the task is not left unfinished. *)
Lemma cancel_done tid reason q : ~ unfinished (cancel_task_detailed tid reason q).2 tid.
Proof.
  unfold unfinished, cancel_task_detailed. destruct (tasks q !! tid) as [e|] eqn:He.
  2: { cbn. intros (e & He' & _). by rewrite He in He'. }
  destruct (is_terminal (te_state e)) eqn:Ht.
  { cbn. intros (e' & He' & Hst). rewrite He in He'. simplify_eq. congruence. }
  set (pr := match te_state e with Submitted => _ | _ => _ end). set (e' := to_ended _ _ _ _ _ _). destruct pr as [w q1]. cbn [snd].
  intros (e0 & He0 & Hst). pose proof (lookup_weaken _ _ _ _ He0 (track_sub tid (put_entry tid e' q1))) as Hl.
  revert Hl. queue_cbn. rewrite lookup_insert_eq. intros [= <-]. done.
Qed.

Lemma cancel_queue tid reason m : m_queue (cancel_task_and_notify tid reason m).2 = (cancel_task_detailed tid (Some reason) (m_queue m)).2.
Proof.
  unfold cancel_task_and_notify. destruct (cancel_task_detailed _ _ _) as [[o|e] q]; cbn [snd]; [|done].
  destruct (negb _); [done|]. cbn [snd]. match goal with |- m_queue (notify_one (wake ?t ?r ?mm)) = _ => destruct (wake_same t r mm) as [Hq _]; exact Hq end.
Qed.

Lemma cancel_registry tid reason m : m_registry (cancel_task_and_notify tid reason m).2 = m_registry m.
Proof.
  unfold cancel_task_and_notify. destruct (cancel_task_detailed _ _ _) as [[o|e] q]; cbn [snd]; [|done].
  destruct (negb _); [done|]. cbn [snd]. match goal with |- m_registry (notify_one (wake ?t ?r ?mm)) = _ => destruct (wake_same t r mm) as [_ Hq]; exact Hq end.
Qed.

Lemma cancel_abandoned_queue has_registry tid reason m :
  m_queue (cancel_abandoned has_registry tid reason m) = (cancel_task_detailed tid (Some reason) (m_queue m)).2 /\
  m_registry (cancel_abandoned has_registry tid reason m) = m_registry m /\ answers_once m (cancel_abandoned has_registry tid reason m).
Proof.
  unfold cancel_abandoned. destruct has_registry.
  - split; [apply cancel_queue|]. split; [apply cancel_registry|]. apply sv_once, serves_cancel.
  - unfold cancel_task. destruct (cancel_task_detailed _ _ _) as [o q]. cbn. split; [done|]. split; [done|]. by split; auto.
Qed.

(** One action of a clean-up: what it keeps. *)
Lemma cleanup_frame has_registry closed a c m :
  let m' := run_cleanup has_registry closed a c m in
  (sys_reachable (quiet m) -> sys_reachable (quiet m')) /\ answers_once m m' /\
  (~ unfinished (m_queue m) (ca_id c) -> ~ unfinished (m_queue m') (ca_id c)).
Proof.
  cbn zeta. destruct a as [|reason]; cbn [run_cleanup].
  - destruct (prune_spec (closed_with closed c) (ca_id c) m (ca_id c)) as (Hq & _ & _). split_and!.
    + apply same_sys_reachable; [done|]. unfold prune_closed_waiters. by destruct (m_waiters m !! _).
    + split; [intros t tx; apply prune_waiting|]. intros tx. unfold answered. rewrite prune_sent. by left.
    + by rewrite Hq.
  - destruct (cancel_abandoned_queue has_registry (ca_id c) reason m) as (Hq & Hr & Ho). split_and!; [|done|].
    + by apply (queue_sys_reachable (OpCancel (ca_id c) (Some reason))).
    + intros _. rewrite Hq. apply cancel_done.
Qed.

Lemma cleanup_inv has_registry closed m c :
  call_inv (m, c) -> let r := call_cleanup has_registry closed c m in call_inv (r.2, r.1).
Proof.
  intros Hi. cbn zeta. unfold call_cleanup. destruct (ca_phase c) as [| | |todo res|res] eqn:Hst; try done.
  pose proof Hi as [Hsys Hhere Honce Hph]. cbn [fst snd] in *. unfold phase_inv in Hph. rewrite Hst in Hph.
  destruct todo as [|a todo]; [done|]. destruct Hph as (_ & Hrx & Hw & Hu & Hres). cbn [fst snd].
  destruct (cleanup_frame has_registry closed a c m) as (Hsys' & [Hwait Hans] & Hun). set (m' := run_cleanup has_registry closed a c m) in *.
  assert (Hw' : DoPrune ∈ todo \/ ~ waiting m' (ca_id c) (ca_tx c)).
  { destruct Hw as [[Ha|?]%elem_of_cons|Hw]; [right|by left|right; by intros ?%Hwait]. subst m' a. by apply prune_out. }
  assert (Hu' : (exists reason, DoCancel reason ∈ todo) \/ ~ unfinished (m_queue m') (ca_id c)).
  { destruct Hu as [(reason & [Ha|?]%elem_of_cons)|Hu]; [right|left; by exists reason|right; by apply Hun]. subst m' a.
    cbn [run_cleanup]. destruct (cancel_abandoned_queue has_registry (ca_id c) reason m) as (-> & _). apply cancel_done. }
  split; cbn [fst snd with_phase ca_tx]; change (ca_id (with_phase _ c)) with (ca_id c).
  - by apply Hsys'.
  - intros t Ht. by apply Hhere, Hwait.
  - intros [Ha|(t & Ht & Hn)]%Hans Hx; [by apply Honce; [|apply Hwait]|]. apply Hn. rewrite (Hhere t Ht). by eapply waiting_awaited.
  - unfold phase_inv. cbn [ca_phase with_phase ca_tx ca_rx_open]. change (ca_id (with_phase _ c)) with (ca_id c).
    destruct todo as [|b todo]; cbn [is_empty].
    2: { split_and!; try done. destruct res as [[r|[]]|]; try done; destruct Hres as (? & ? & Hne); (split_and!; [done|done|intros He; by apply Hun, Hne]). }
    + destruct Hw' as [Hx%not_elem_of_nil|Hw']; [done|]. destruct Hu' as [(reason & Hx%not_elem_of_nil)|Hu']; [done|].
      split; [done|]. by destruct res as [[r|[]]|].
Qed.

(** What is left of a call that was dropped in the middle of its own clean-up. *)
Record cut_inv (e : CallError) (s : Master * Call) : Prop := {
  cu_sys : sys_reachable (quiet s.1);
  cu_phase : ca_phase s.2 = Ended None;
  cu_here : forall t, waiting s.1 t (ca_tx s.2) -> t = ca_id s.2;
  cu_task : e <> NoAnswer -> ~ unfinished (m_queue s.1) (ca_id s.2)
}.

Definition path_inv (cut : option CallError) (s : Master * Call) : Prop := match cut with None => call_inv s | Some e => cut_inv e s end.

Lemma drop_inv m c : call_inv (m, c) -> droppable (ca_phase c) = true -> path_inv (cut_short None c (call_drop c)) (m, call_drop c).
Proof.
  intros [Hsys Hhere Honce Hph] Hd. cbn [fst snd] in *.
  assert (Hnone : tasks (m_queue m) !! ca_id c = None -> ~ unfinished (m_queue m) (ca_id c)).
  { intros Hn (e & He & _). by rewrite Hn in He. }
  destruct c as [task slot tx rx armed reg ws os bo phase]. unfold phase_inv, cut_short, call_drop, path_inv, ca_id in *. cbn in *.
  destruct phase as [| | |todo [[r|e]|]|]; try done.
  - destruct Hph as (_ & _ & -> & -> & Hnw & _ & Hn). split; try done. unfold phase_inv. cbn. auto.
  - destruct Hph as (_ & _ & -> & -> & _ & Hn). split; try done. unfold phase_inv. cbn. split_and!; [done|done|left; set_solver|right; auto|done].
  - destruct Hph as (_ & -> & -> & _). split; try done. unfold phase_inv. cbn. split_and!; [done|done|left; set_solver|left|done]. exists abandon_reason_drop. set_solver.
  - by destruct Hph as (_ & _ & _ & _ & []).
  - destruct Hph as (_ & _ & _ & _ & He). assert (Hx : armed = false /\ reg = false /\ (e <> NoAnswer -> ~ unfinished (m_queue m) (task_id task))) by (by destruct e).
    destruct Hx as (-> & -> & Hx). cbn. by split.
Qed.

Lemma cut_step has_registry timeout e s s' : cut_inv e s -> call_step has_registry timeout s s' -> cut_inv e s'.
Proof.
  intros [Hsys Hph Hhere Hu] Hst. destruct Hst as [closed m m' c Hh _ Hnew Hknown|now m c Hp|now epoch last q m c Hp|now last m c Hp|closed m c|m c Hp]; cbn [fst snd] in *; try congruence.
  - split; cbn [fst snd]; [|done| |].
    + eapply sys_reachable_rtc; [exact Hsys|]. by eapply handler_sys_steps.
    + intros t Hw. by apply Hhere, Hnew.
    + intros He Hun. apply (Hu He). by apply (handler_back closed m m' (ca_id c) (sys_core m Hsys) Hh).
  - unfold r, call_cleanup. rewrite Hph. by split.
  - by rewrite Hph in Hp.
Qed.

Lemma cut_short_none c c' : (match ca_phase c with CleaningUp _ (Some _) => match ca_phase c' with Ended None => False | _ => True end | _ => True end) -> cut_short None c c' = None.
Proof. unfold cut_short. by destruct (ca_phase c) as [| | |? [[]|]|], (ca_phase c') as [| | | |[]]. Qed.

Lemma cleanup_phase has_registry closed c m : match ca_phase c with
  CleaningUp _ (Some _) => match ca_phase (call_cleanup has_registry closed c m).1 with Ended None => False | _ => True end | _ => True end.
Proof. unfold call_cleanup. destruct (ca_phase c) as [| | |[|a todo] [res|]|] eqn:E; cbn [fst]; rewrite ?E; try done. cbn. by destruct (is_empty todo). Qed.

Lemma call_step_inv has_registry timeout s s' : call_inv s -> call_step has_registry timeout s s' -> path_inv (cut_short None s.2 s'.2) s'.
Proof.
  intros Hi Hst. destruct Hst as [closed m m' c Hh Hcl Hnew Hknown|now m c Hp|now epoch last q m c Hp|now last m c Hp|closed m c|m c Hp]; cbn [fst snd] in *.
  - rewrite cut_short_none by (by destruct (ca_phase c) as [| | |? []|]). by eapply handler_inv.
  - rewrite cut_short_none by (by rewrite Hp). by apply register_call_inv.
  - rewrite cut_short_none by (by rewrite Hp). by apply submit_inv.
  - rewrite cut_short_none by (by rewrite Hp). by apply poll_inv.
  - unfold r. rewrite cut_short_none by apply cleanup_phase. by apply cleanup_inv.
  - by apply drop_inv.
Qed.

Lemma cut_stays e c c' : ca_phase c = Ended None -> cut_short (Some e) c c' = Some e.
Proof. unfold cut_short. by intros ->. Qed.

Lemma call_reachable_inv has_registry timeout cut s : call_reachable has_registry timeout cut s -> path_inv cut s.
Proof.
  induction 1 as [m t tx Hsys Hnw Hna Hn|cut s s' _ IH Hst].
  - split; cbn [fst snd]; [done|by intros t' Hw; destruct (Hnw t')|done|]. unfold phase_inv. cbn. by split_and!.
  - destruct cut as [e|]; cbn [path_inv] in IH; [|by eapply call_step_inv]. rewrite cut_stays by apply IH. by eapply cut_step.
Qed.

(** C36 What a call of [submit_and_await] leaves, however it is interleaved with the handlers
    of the master and wherever it is dropped.  If it was not dropped in the middle of its own
    clean-up: while it waits for its result, its oneshot is registered or has been sent a
    result, so it never ends because its sender vanished; and when it has ended, whether it
    got its result, was refused, timed out or was dropped while it waited, its oneshot is out
    of the waiter table, and unless it got a result, no unfinished task of its id is in the
    queue.  If it was dropped while it cleaned up after the error [e]: its oneshot is
    registered for its own task at most, and an unfinished task is left only if the call had
    timed out waiting for the result. *)
Theorem nothing_left_behind has_registry timeout cut m c :
  call_reachable has_registry timeout cut (m, c) ->
  match cut with
  | None =>
      match ca_phase c with
      | WaitResult => waiting m (ca_id c) (ca_tx c) \/ answered m (ca_tx c)
      | Ended (Some (Ok _)) => answered m (ca_tx c) /\ ~ waiting m (ca_id c) (ca_tx c)
      | Ended (Some (Err ConnectionClosed)) => False
      | Ended _ => (forall t, ~ waiting m t (ca_tx c)) /\ ~ unfinished (m_queue m) (ca_id c)
      | _ => True
      end
  | Some e => ca_phase c = Ended None /\ (forall t, waiting m t (ca_tx c) -> t = ca_id c) /\ (e <> NoAnswer -> ~ unfinished (m_queue m) (ca_id c))
  end.
Proof.
  intros Hr. pose proof (call_reachable_inv _ _ _ _ Hr) as Hp. destruct cut as [e|]; [by destruct Hp|]. destruct Hp as [_ Hhere _ Hph]. unfold phase_inv in Hph. cbn [fst snd] in *.
  assert (Hall : ~ waiting m (ca_id c) (ca_tx c) -> forall t, ~ waiting m t (ca_tx c)) by (intros Hn t Hw; by pose proof (Hhere t Hw); subst t).
  destruct (ca_phase c) as [| | |todo res|[[r|[]]|]]; try done; try (by destruct Hph; auto).
  by destruct Hph as (_ & _ & _ & ?).
Qed.
End uuid.

(** ** Samples, and a drop at the wrong moment *)

Definition fresh_master : Master := {|
  m_queue := with_retention_limits retry_policy_default (Some 4) 8 1000000 1000000; m_registry := registry_new; m_waiters := ∅; m_sent := [];
  m_outbox := []; m_gpu_demand := gpu_demand_default; m_rr_cursor := 0; m_notified := false
|}.

(** The call registers its waiter at time 100 and its task is accepted. *)
Definition sample_registered : Call * Master := call_register 100 (call_new (sample_task 1) 5) fresh_master.
Definition sample_submitted : Call * Master :=
  call_submit 100 1 60 (Some 100) (m_queue fresh_master) sample_registered.1 sample_registered.2.

Lemma sample_submitted_reachable has_registry : call_reachable has_registry 60 None (sample_submitted.2, sample_submitted.1).
Proof.
  apply (cr_step _ _ None (sample_registered.2, sample_registered.1)); [apply (cr_step _ _ None (fresh_master, call_new (sample_task 1) 5)); [apply (cr_start _ _ fresh_master (sample_task 1) 5)|]|].
  - apply sr_init.
  - by intros t (l & Hl & _).
  - by intros [r Hr%not_elem_of_nil].
  - vm_compute. reflexivity.
  - apply (cl_register _ _ 100). reflexivity.
  - apply (cl_submit _ _ 100 1 (Some 100) (m_queue fresh_master)). reflexivity.
Qed.

(** The job drops the call while it waits; the guard's clean-up runs. *)
Definition sample_dropped : Call * Master :=
  let s1 := call_cleanup false (fun _ => false) (call_drop sample_submitted.1) sample_submitted.2 in call_cleanup false (fun _ => false) s1.1 s1.2.

Theorem nothing_left_behind_witness :
  (ca_phase sample_submitted.1 = WaitResult /\ get_state 1 (m_queue sample_submitted.2) = Some Queued) /\
  ca_phase sample_dropped.1 = Ended None /\ ~ unfinished (m_queue sample_dropped.2) 1.
Proof.
  split; [split; vm_compute; reflexivity|]. split; [vm_compute; reflexivity|].
  assert (Hr : call_reachable false 60 None (sample_dropped.2, sample_dropped.1)).
  { set (s1 := call_cleanup false (fun _ => false) (call_drop sample_submitted.1) sample_submitted.2).
    apply (cr_step _ _ None (s1.2, s1.1)); [apply (cr_step _ _ None (sample_submitted.2, call_drop sample_submitted.1));
      [apply (cr_step _ _ None (sample_submitted.2, sample_submitted.1)); [apply sample_submitted_reachable|]|]|].
    - apply cl_drop. vm_compute. reflexivity.
    - apply (cl_cleanup _ _ (fun _ => false)).
    - apply (cl_cleanup _ _ (fun _ => false)). }
  exact (proj2 (nothing_left_behind false 60 None sample_dropped.2 sample_dropped.1 Hr)).
Defined.

(** The call's own clean-up after a timeout disarms the guard before it has pruned and
    cancelled: dropping the call then leaves its task queued and its waiter registered. *)
Theorem drop_in_cleanup_leaks :
  let c := call_drop (call_poll 160 60 (Some 100) sample_submitted.1 sample_submitted.2) in
  call_reachable true 60 (Some NoAnswer) (sample_submitted.2, c) /\
  get_state 1 (m_queue sample_submitted.2) = Some Queued /\ m_waiters sample_submitted.2 !! 1 = Some [5].
Proof.
  split; [|vm_compute; auto]. set (c := call_poll 160 60 (Some 100) sample_submitted.1 sample_submitted.2).
  replace (Some NoAnswer) with (cut_short None c (call_drop c)) by (vm_compute; reflexivity). apply (cr_step true 60 None (sample_submitted.2, c) (sample_submitted.2, call_drop c)).
  - apply (cr_step _ _ None (sample_submitted.2, sample_submitted.1)); [apply sample_submitted_reachable|]. apply (cl_poll _ _ 160 (Some 100)). vm_compute. reflexivity.
  - apply cl_drop. vm_compute. reflexivity.
Qed.
