(* ===== verification/Protocol.v ===== *)
(** * Protocol: the AEAD record layer, message framing and feature negotiation

    Models [crates/core/src/protocol.rs]: the directional AEAD sessions of a
    connection (sequence numbers, records, fail-closed reader), the one-byte format
    tags of [serialize_message] and [deserialize_message] with their fallbacks for
    older and newer peers, [MessageTransport] with its halves, the capability bits and
    the feature announcement of a [RegisterAck].  The stream below is the list of
    frames [LengthDelimitedCodec] yields, one event per [next()].  ring's ChaCha20-
    Poly1305 and HMAC ([Aead]) and the serde encodings of a message type ([Wire]) are
    interfaces. *)

From S2P Require Import Prelude Collections RustStr Capabilities.
Local Open Scope N_scope.
Local Open Scope result_scope.

(** ** Constants and errors *)

Definition MAX_FRAME_SIZE : N := 64 * 1024 * 1024.
Definition LENGTH_FIELD_BYTES : N := 4.
Definition WIRE_FORMAT_JSON : N := 1.
Definition WIRE_FORMAT_BINCODE : N := 2.
Definition WIRE_FORMAT_AUTH : N := 3.
Definition WIRE_FORMAT_ENCRYPTED : N := 4.

Inductive WireCodec := Json | Bincode.
#[global] Instance WireCodec_eq : EqDecision WireCodec.
Proof. solve_decision. Defined.

(** [WireCodec::from_str] and its [Display]. *)
Definition wire_codec_from_str (s : Str) : option WireCodec :=
  let s := to_ascii_lowercase (trim s) in
  if bool_decide (s = str "bincode") || bool_decide (s = str "bin") || bool_decide (s = str "binary") then Some Bincode
  else if bool_decide (s = str "json") then Some Json
  else None.

Definition wire_codec_to_string (c : WireCodec) : Str :=
  match c with Json => str "json" | Bincode => str "bincode" end.

Inductive IoKind := IoUnexpectedEof | IoInvalidData | IoTimedOut | IoOther.

Inductive ProtocolError :=
| PeIo (kind : IoKind)
| PeJson
| PeBincode
| PeInvalidFormatTag (tag : N)
| PeFrameTooLarge (size max : N)
| PeUnexpectedEof
| PeConnectionClosed
| PeViolation (message : Str).

Definition AEAD_ERR_TOO_SHORT : Str := str "Encrypted frame too short to be an AEAD record".
Definition AEAD_ERR_NOT_ENCRYPTED : Str := str "Expected encrypted wire format (0x04) after the handshake".
Definition AEAD_ERR_SEQUENCE : Str :=
  str "Anti-replay check failed: record out of sequence (replayed, reordered or dropped)".
Definition AEAD_ERR_INTEGRITY : Str := str "Ciphertext integrity verification failed".
Definition AEAD_ERR_OVERFLOW : Str := str "AEAD sequence counter overflow".
Definition AEAD_ERR_CLOSED : Str := str "AEAD session closed after an earlier record failure".
Definition AEAD_ERR_NONCE : Str := str "Invalid AEAD nonce".
Definition AEAD_ERR_SEAL : Str := str "AEAD encryption failure".

Definition AEAD_RECORD_OVERHEAD : N := 1 + 8 + 16.

(** ** Byte order *)

(** [to_be_bytes] of a [k]-byte integer. *)
Fixpoint be_bytes (k : nat) (n : N) : Bytes :=
  match k with
  | O => []
  | S k => N.shiftr n (8 * N.of_nat k) mod 256 :: be_bytes k n
  end.

Definition from_be_bytes (b : Bytes) : N := foldl (fun acc x => acc * 256 + x) 0 b.
Definition from_le_bytes (b : Bytes) : N := from_be_bytes (reverse b).

(** ** Capability bits *)

Definition AEAD_ENCRYPTION : ProtocolCapabilities := 2 ^ 0.
Definition MOBILE_TELEMETRY : ProtocolCapabilities := 2 ^ 1.
Definition CHECKPOINT_DELTA : ProtocolCapabilities := 2 ^ 2.
Definition GPU_SCHEDULE_PRIO : ProtocolCapabilities := 2 ^ 3.
Definition EXTENDED_ERROR_INFO : ProtocolCapabilities := 2 ^ 4.
Definition BATCH_DISPATCH : ProtocolCapabilities := 2 ^ 5.
Definition ROLE_ARBITRAGE : ProtocolCapabilities := 2 ^ 7.
Definition ADAPTIVE_KEEPALIVE : ProtocolCapabilities := 2 ^ 8.

Definition all_supported : ProtocolCapabilities :=
  foldr N.lor 0 [AEAD_ENCRYPTION; MOBILE_TELEMETRY; CHECKPOINT_DELTA; GPU_SCHEDULE_PRIO; EXTENDED_ERROR_INFO;
                 BATCH_DISPATCH; FILE_STAGING; ADAPTIVE_KEEPALIVE; BLOB_TRANSFER].
Definition features_intersect (f g : ProtocolCapabilities) : bool := negb (N.land f g =? 0).
(** [self.0 &= !other.0] on 64 bits. *)
Definition features_remove (f g : ProtocolCapabilities) : ProtocolCapabilities := N.land f (N.lxor g u64_max).
(** What the master grants a worker that offers [worker]. *)
Definition negotiated (worker : ProtocolCapabilities) : ProtocolCapabilities := N.land worker all_supported.

(** [master_features]. *)
Definition features_prefix : Str := str "features=".
Definition announcement (features : list Str) : Str := features_prefix ++ join 44 features.
Definition announced (message : option Str) (feature : Str) : bool :=
  match message ≫= fun m => strip_prefix features_prefix (trim m) with
  | Some l => existsb (fun f => bool_decide (trim f = feature)) (split 44 l)
  | None => false
  end.

(** ** The AEAD interface *)

(** ring's [LessSafeKey] over ChaCha20-Poly1305: [seal] is
    [seal_in_place_append_tag], [unseal] is [open_in_place]; [sign] is HMAC-SHA256. *)
Class Aead := {
  AeadKey : Type;
  aead_key : Bytes -> AeadKey;
  seal : AeadKey -> Bytes -> Bytes -> Bytes -> option Bytes;
  unseal : AeadKey -> Bytes -> Bytes -> Bytes -> option Bytes;
  sign : Bytes -> Bytes -> Bytes
}.

(** What the source relies on: a sealed text opens under the same key, nonce and
    associated data to what was sealed, and the tag adds 16 bytes. *)
Class AeadLaws `{Aead} := {
  unseal_seal k n a p c : seal k n a p = Some c -> unseal k n a c = Some p;
  seal_length k n a p c : seal k n a p = Some c -> blen c = blen p + 16
}.

Section aead.
Context `{Aead}.

(** ** Sessions *)

Record AeadWriterSession := { aw_key : AeadKey; aw_seq : N }.
Record AeadReaderSession := { ar_key : AeadKey; ar_expected_seq : N; ar_failed : bool }.

Definition aead_writer_new (key : Bytes) : AeadWriterSession := {| aw_key := aead_key key; aw_seq := 0 |}.
Definition aead_reader_new (key : Bytes) : AeadReaderSession :=
  {| ar_key := aead_key key; ar_expected_seq := 0; ar_failed := false |}.

(** [nonce_bytes[4..12].copy_from_slice(&seq.to_be_bytes())]. *)
Definition nonce_bytes (seq : N) : Bytes := repeat 0 4 ++ be_bytes 8 seq.
(** [Nonce::try_assume_unique_for_key] refuses any length but 12. *)
Definition nonce_ok (b : Bytes) : bool := blen b =? 12.
Definition record_header (seq : N) : Bytes := WIRE_FORMAT_ENCRYPTED :: be_bytes 8 seq.

Definition encrypt_frame (plaintext : Bytes) (w : AeadWriterSession) : result ProtocolError Bytes * AeadWriterSession :=
  let size := blen plaintext + AEAD_RECORD_OVERHEAD in
  if MAX_FRAME_SIZE <? size then (Err (PeFrameTooLarge size MAX_FRAME_SIZE), w)
  else
    let seq := aw_seq w in
    if seq =? u64_max then (Err (PeViolation AEAD_ERR_OVERFLOW), w)
    else
      let next_seq := seq + 1 in
      if negb (nonce_ok (nonce_bytes seq)) then (Err (PeViolation AEAD_ERR_NONCE), w)
      else
        let aad := record_header seq in
        match seal (aw_key w) (nonce_bytes seq) aad plaintext with
        | None => (Err (PeViolation AEAD_ERR_SEAL), w)
        | Some in_out => (Ok (aad ++ in_out), {| aw_key := aw_key w; aw_seq := next_seq |})
        end.

Definition open_record (frame : Bytes) (r : AeadReaderSession) : result ProtocolError Bytes * AeadReaderSession :=
  if blen frame <? AEAD_RECORD_OVERHEAD then (Err (PeViolation AEAD_ERR_TOO_SHORT), r)
  else if negb (bool_decide (head frame = Some WIRE_FORMAT_ENCRYPTED)) then (Err (PeViolation AEAD_ERR_NOT_ENCRYPTED), r)
  else
    let seq := from_be_bytes (take 8 (drop 1 frame)) in
    if negb (seq =? ar_expected_seq r) then (Err (PeViolation AEAD_ERR_SEQUENCE), r)
    else if negb (nonce_ok (nonce_bytes seq)) then (Err (PeViolation AEAD_ERR_NONCE), r)
    else
      match unseal (ar_key r) (nonce_bytes seq) (take 9 frame) (drop 9 frame) with
      | None => (Err (PeViolation AEAD_ERR_INTEGRITY), r)
      | Some plaintext =>
          if ar_expected_seq r =? u64_max then (Err (PeViolation AEAD_ERR_OVERFLOW), r)
          else (Ok plaintext, {| ar_key := ar_key r; ar_expected_seq := ar_expected_seq r + 1; ar_failed := ar_failed r |})
      end.

Definition decrypt_frame (frame : Bytes) (r : AeadReaderSession) : result ProtocolError Bytes * AeadReaderSession :=
  if ar_failed r then (Err (PeViolation AEAD_ERR_CLOSED), r)
  else
    let '(opened, r) := open_record frame r in
    (opened, {| ar_key := ar_key r; ar_expected_seq := ar_expected_seq r; ar_failed := negb (is_ok opened) |}).

Inductive EndpointRole := RoleClient | RoleServer.

Definition derive_aead_keys (session_key : Bytes) (role : EndpointRole) : AeadWriterSession * AeadReaderSession :=
  let client_write_key := sign session_key (str "oxs1-aead-c2s") in
  let server_write_key := sign session_key (str "oxs1-aead-s2c") in
  match role with
  | RoleClient => (aead_writer_new client_write_key, aead_reader_new server_write_key)
  | RoleServer => (aead_writer_new server_write_key, aead_reader_new client_write_key)
  end.
End aead.

(** ** Messages on the wire *)

(** The serde encodings of a message type: bincode and JSON writers and readers
    ([None] is an error) and the decoders [deserialize_message] falls back to when a
    bincode body is not a current message. *)
Class Wire (M : Type) := {
  bin_size : M -> option N;
  bin_encode : M -> option Bytes;
  bin_decode : Bytes -> option M;
  json_encode : M -> option Bytes;
  json_decode : Bytes -> option M;
  bin_fallback : Bytes -> option M
}.

(** bincode and serde_json read back what they wrote, and [serialized_size] is the
    length of what is written. *)
Class WireLaws (M : Type) `{Wire M} := {
  bin_roundtrip m b : bin_encode m = Some b -> bin_decode b = Some m;
  bin_size_exact m n : bin_size m = Some n -> exists b, bin_encode m = Some b /\ blen b = n;
  json_roundtrip m b : json_encode m = Some b -> json_decode b = Some m
}.

(** A peer of a newer version: an unknown variant number keeps the connection. *)
Definition unknown_variant {M} (unknown : N -> Bytes -> M) (first : N) (slice : Bytes) : option M :=
  if 4 <=? blen slice then
    let tag := from_le_bytes (take 4 slice) in
    if (first <=? tag) && (tag <? 10000) then Some (unknown tag (drop 4 slice)) else None
  else None.

Definition or_else {A} (o : option A) (p : option A) : option A := match o with Some a => Some a | None => p end.

(** The fallbacks of [WorkerMessage] ([first] is 8) and [MasterMessage] ([first] is
    7); [legacy] decodes the layout of the previous release. *)
Definition peer_fallback {M} (legacy : Bytes -> option M) (unknown : N -> Bytes -> M) (first : N) (slice : Bytes) : option M :=
  or_else (legacy slice) (unknown_variant unknown first slice).
Definition worker_fallback {W} (legacy : Bytes -> option W) (unknown : N -> Bytes -> W) := peer_fallback legacy unknown 8.
Definition master_fallback {M} (legacy : Bytes -> option M) (unknown : N -> Bytes -> M) := peer_fallback legacy unknown 7.

Inductive InboundMessage (W C : Type) := InboundWorker (w : W) | InboundClient (c : C).
Arguments InboundWorker {W C} w.
Arguments InboundClient {W C} c.

(** A decoder with the cursor position it stops at: only a full read counts. *)
Definition exact {A} (decode : Bytes -> option (A * N)) (slice : Bytes) : option A :=
  match decode slice with
  | Some (a, position) => if position =? blen slice then Some a else None
  | None => None
  end.

(** The fallbacks of [InboundMessage], in the order the source tries them. *)
Definition inbound_fallback {W C} (worker : Bytes -> option (W * N)) (is_register : W -> bool) (client : Bytes -> option (C * N))
    (legacy : Bytes -> option (W * N)) (unknown : N -> Bytes -> W) (slice : Bytes) : option (InboundMessage W C) :=
  or_else (w ← exact worker slice; if is_register w then Some (InboundWorker w) else None)
  (or_else (InboundClient <$> exact client slice)
  (or_else (InboundWorker <$> exact worker slice)
  (or_else (InboundWorker <$> exact legacy slice)
  (or_else ((fun '(c, _) => InboundClient c) <$> client slice)
           (InboundWorker <$> unknown_variant unknown 8 slice))))).

Section messages.
Context {M : Type} `{Wire M}.

Definition serialize_message (msg : M) (codec : WireCodec) : result ProtocolError Bytes :=
  match codec with
  | Bincode =>
      payload_len <-? ok_or PeBincode (bin_size msg);
      let size := saturating_add usize_max 1 payload_len in
      if MAX_FRAME_SIZE <? size then Err (PeFrameTooLarge size MAX_FRAME_SIZE)
      else body <-? ok_or PeBincode (bin_encode msg); Ok (WIRE_FORMAT_BINCODE :: body)
  | Json =>
      body <-? ok_or PeJson (json_encode msg);
      let buf := WIRE_FORMAT_JSON :: body in
      if MAX_FRAME_SIZE <? blen buf then Err (PeFrameTooLarge (blen buf) MAX_FRAME_SIZE) else Ok buf
  end.

(** The bytes a legacy JSON frame may start with. *)
Definition raw_json_start (b : N) : bool :=
  (b =? 123) || (b =? 32) || (b =? 9) || (b =? 13) || (b =? 10).

Definition deserialize_message (bytes : Bytes) : result ProtocolError (M * WireCodec) :=
  match bytes with
  | [] => m <-? ok_or PeJson (json_decode bytes); Ok (m, Json)
  | tag :: body =>
      if tag =? WIRE_FORMAT_BINCODE then
        m <-? ok_or PeBincode (or_else (bin_decode body) (bin_fallback body)); Ok (m, Bincode)
      else if tag =? WIRE_FORMAT_JSON then m <-? ok_or PeJson (json_decode body); Ok (m, Json)
      else if raw_json_start tag then m <-? ok_or PeJson (json_decode bytes); Ok (m, Json)
      else Err (PeInvalidFormatTag tag)
  end.
End messages.

(** ** Transports *)

(** What [Framed::next] yields. *)
Inductive FrameEvent := Frame (bytes : Bytes) | FrameFailed (kind : IoKind) | FrameEof.

Section transport.
Context `{Aead}.

Record MessageTransport := {
  mt_codec : WireCodec;
  mt_last_detected_codec : option WireCodec;
  mt_aead_writer : option AeadWriterSession;
  mt_aead_reader : option AeadReaderSession
}.

(** The halves of [split]; the buffers travel with the stream. *)
Record MessageWriter := { mw_codec : WireCodec; mw_aead_writer : option AeadWriterSession }.
Record MessageReader := { mrd_last_detected_codec : option WireCodec; mrd_aead_reader : option AeadReaderSession }.

Definition transport_with_codec (codec : WireCodec) : MessageTransport :=
  {| mt_codec := codec; mt_last_detected_codec := None; mt_aead_writer := None; mt_aead_reader := None |}.
Definition transport_new : MessageTransport := transport_with_codec Bincode.

Definition enable_encryption (session_key : Bytes) (role : EndpointRole) (t : MessageTransport) : MessageTransport :=
  let '(writer, reader) := derive_aead_keys session_key role in
  {| mt_codec := mt_codec t; mt_last_detected_codec := mt_last_detected_codec t;
     mt_aead_writer := Some writer; mt_aead_reader := Some reader |}.

Definition is_encrypted (t : MessageTransport) : bool :=
  bool_decide (is_Some (mt_aead_writer t)) || bool_decide (is_Some (mt_aead_reader t)).

Definition set_outbound_codec (codec : WireCodec) (t : MessageTransport) : MessageTransport :=
  {| mt_codec := codec; mt_last_detected_codec := mt_last_detected_codec t;
     mt_aead_writer := mt_aead_writer t; mt_aead_reader := mt_aead_reader t |}.

Definition split_transport (t : MessageTransport) : MessageWriter * MessageReader :=
  ({| mw_codec := mt_codec t; mw_aead_writer := mt_aead_writer t |},
   {| mrd_last_detected_codec := None; mrd_aead_reader := mt_aead_reader t |}).

(** [match aead_writer { Some(w) => w.encrypt_frame(&payload)?, None => payload }]. *)
Definition protect (payload : Bytes) (w : option AeadWriterSession) : result ProtocolError Bytes * option AeadWriterSession :=
  match w with
  | Some w => let '(frame, w) := encrypt_frame payload w in (frame, Some w)
  | None => (Ok payload, None)
  end.

Definition unprotect (bytes : Bytes) (r : option AeadReaderSession) : result ProtocolError Bytes * option AeadReaderSession :=
  match r with
  | Some r => let '(plaintext, r) := decrypt_frame bytes r in (plaintext, Some r)
  | None => (Ok bytes, None)
  end.

(** The frame [MessageWriter::send_msg] hands to the codec. *)
Definition writer_send_msg {M} `{Wire M} (msg : M) (w : MessageWriter) : result ProtocolError Bytes * MessageWriter :=
  match serialize_message msg (mw_codec w) with
  | Err e => (Err e, w)
  | Ok payload =>
      let '(frame, aead) := protect payload (mw_aead_writer w) in
      (frame, {| mw_codec := mw_codec w; mw_aead_writer := aead |})
  end.

(** The frame [send_msg] and [send_msg_with_idle_timeout] hand to the codec. *)
Definition send_msg {M} `{Wire M} (msg : M) (t : MessageTransport) : result ProtocolError Bytes * MessageTransport :=
  match serialize_message msg (mt_codec t) with
  | Err e => (Err e, t)
  | Ok payload =>
      let '(frame, aead) := protect payload (mt_aead_writer t) in
      (frame, {| mt_codec := mt_codec t; mt_last_detected_codec := mt_last_detected_codec t;
                 mt_aead_writer := aead; mt_aead_reader := mt_aead_reader t |})
  end.

(** The error a failed read becomes. *)
Definition frame_error (max : N) (kind : IoKind) : ProtocolError :=
  match kind with
  | IoUnexpectedEof => PeUnexpectedEof
  | IoInvalidData => PeFrameTooLarge 0 max
  | k => PeIo k
  end.

Definition reader_recv_msg_with_codec {M} `{Wire M} (ev : FrameEvent) (r : MessageReader)
    : result ProtocolError (option (M * WireCodec)) * MessageReader :=
  match ev with
  | FrameEof => (Ok None, r)
  | FrameFailed kind => (Err (frame_error MAX_FRAME_SIZE kind), r)
  | Frame bytes =>
      let '(plaintext, aead) := unprotect bytes (mrd_aead_reader r) in
      let r := {| mrd_last_detected_codec := mrd_last_detected_codec r; mrd_aead_reader := aead |} in
      match p <-? plaintext; deserialize_message p with
      | Err e => (Err e, r)
      | Ok (msg, codec) =>
          (Ok (Some (msg, codec)), {| mrd_last_detected_codec := Some codec; mrd_aead_reader := aead |})
      end
  end.

Definition recv_msg_with_codec {M} `{Wire M} (ev : FrameEvent) (t : MessageTransport)
    : result ProtocolError (option (M * WireCodec)) * MessageTransport :=
  let '(o, r) := reader_recv_msg_with_codec ev
    {| mrd_last_detected_codec := mt_last_detected_codec t; mrd_aead_reader := mt_aead_reader t |} in
  (o, {| mt_codec := mt_codec t; mt_last_detected_codec := mrd_last_detected_codec r;
         mt_aead_writer := mt_aead_writer t; mt_aead_reader := mrd_aead_reader r |}).

Definition recv_msg {M} `{Wire M} (ev : FrameEvent) (t : MessageTransport)
    : result ProtocolError (option M) * MessageTransport :=
  let '(o, t) := recv_msg_with_codec ev t in (result_map (fmap fst) o, t).

(** Raw frames (the handshake's) pass the record layer by. *)
Definition send_raw_frame (data : Bytes) : result ProtocolError Bytes :=
  if MAX_FRAME_SIZE <? blen data then Err (PeFrameTooLarge (blen data) MAX_FRAME_SIZE) else Ok data.

Definition recv_raw_frame_limited (limit : N) (ev : FrameEvent) : result ProtocolError (option Bytes) :=
  match ev with
  | Frame bytes => Ok (Some bytes)
  | FrameFailed kind => Err (frame_error limit kind)
  | FrameEof => Ok None
  end.
Definition recv_raw_frame := recv_raw_frame_limited MAX_FRAME_SIZE.
Definition recv_raw_frame_max (max_len : N) := recv_raw_frame_limited (N.min max_len MAX_FRAME_SIZE).
End transport.
