(* ===== verification/ProtocolProps.v ===== *)
(** * ProtocolProps: what the record layer and the transport guarantee *)

From S2P Require Import Prelude Collections RustStr Capabilities Protocol.
Local Open Scope N_scope.

(** ** Byte order *)

Lemma from_be_app b x : from_be_bytes (b ++ [x]) = from_be_bytes b * 256 + x.
Proof. unfold from_be_bytes. by rewrite foldl_snoc. Qed.

Lemma length_be_bytes k n : length (be_bytes k n) = k.
Proof. induction k; cbn; congruence. Qed.

(** The [k] low bytes of [n], most significant first, from any accumulator. *)
Lemma be_bytes_value k n acc :
  foldl (fun acc x => acc * 256 + x) acc (be_bytes k n) = acc * 256 ^ N.of_nat k + n mod 256 ^ N.of_nat k.
Proof.
  revert acc. induction k as [|k IH]; intros acc; cbn [be_bytes foldl].
  { change (256 ^ N.of_nat 0) with 1. rewrite N.mod_1_r. lia. }
  rewrite IH. rewrite Nat2N.inj_succ, N.pow_succ_r'. set (B := 256 ^ N.of_nat k).
  assert (HB : B <> 0) by (apply N.pow_nonzero; done).
  assert (Hs : N.shiftr n (8 * N.of_nat k) = n / B).
  { rewrite N.shiftr_div_pow2. f_equal. subst B. rewrite N.pow_mul_r. done. }
  rewrite Hs. assert (Hm : n mod (256 * B) = n mod B + B * ((n / B) mod 256)).
  { rewrite (N.mul_comm 256 B). by rewrite N.Div0.mod_mul_r. }
  rewrite Hm. lia.
Qed.

Lemma from_be_bytes_be k n : n < 256 ^ N.of_nat k -> from_be_bytes (be_bytes k n) = n.
Proof. intros Hn. unfold from_be_bytes. rewrite be_bytes_value, N.mod_small by done. lia. Qed.

Lemma u64_bytes n : n <= u64_max -> from_be_bytes (be_bytes 8 n) = n.
Proof. intros Hn. apply from_be_bytes_be. apply N.lt_succ_r in Hn. exact Hn. Qed.

Lemma be_bytes_inj a b : a <= u64_max -> b <= u64_max -> be_bytes 8 a = be_bytes 8 b -> a = b.
Proof. intros Ha Hb Heq. rewrite <-(u64_bytes a Ha), <-(u64_bytes b Hb). by rewrite Heq. Qed.

Section aead.
Context `{AeadLaws}.

Lemma nonce_always_ok seq : nonce_ok (nonce_bytes seq) = true.
Proof. done. Qed.

(** ** The writer *)

(** The records a writer produces for the frames it is given: what it refuses is
    left out. *)
Fixpoint write_all (ps : list Bytes) (w : AeadWriterSession) : list (Bytes * Bytes) * AeadWriterSession :=
  match ps with
  | [] => ([], w)
  | p :: ps =>
      let '(o, w) := encrypt_frame p w in
      let '(out, w) := write_all ps w in
      (match o with Ok f => (p, f) :: out | Err _ => out end, w)
  end.

(** The [seq]-th record of a direction. *)
Definition record_at (key : AeadKey) (seq : N) (p f : Bytes) : Prop :=
  exists c, seal key (nonce_bytes seq) (record_header seq) p = Some c /\ f = record_header seq ++ c.

Lemma encrypt_frame_cases p w :
  match encrypt_frame p w with
  | (Ok f, w') => record_at (aw_key w) (aw_seq w) p f /\ aw_seq w <> u64_max /\ blen f <= MAX_FRAME_SIZE /\
      w' = {| aw_key := aw_key w; aw_seq := aw_seq w + 1 |}
  | (Err _, w') => w' = w
  end.
Proof.
  unfold encrypt_frame. destruct (N.ltb_spec MAX_FRAME_SIZE (blen p + AEAD_RECORD_OVERHEAD)) as [|Hsize]; [done|].
  destruct (N.eqb_spec (aw_seq w) u64_max) as [|Hmax]; [done|]. rewrite nonce_always_ok. cbn [negb].
  destruct (seal _ _ _ _) as [c|] eqn:Hc; [|done]. split_and!; [by exists c|done| |done].
  pose proof (seal_length _ _ _ _ _ Hc) as Hl. unfold blen in *. rewrite length_app. unfold record_header.
  cbn [length]. rewrite length_be_bytes. unfold AEAD_RECORD_OVERHEAD in Hsize. lia.
Qed.

Lemma write_all_spec ps w :
  aw_seq w <= u64_max ->
  let '(out, w') := write_all ps w in
  aw_key w' = aw_key w /\ aw_seq w' = aw_seq w + N.of_nat (length out) /\ aw_seq w' <= u64_max /\
  (forall i p f, out !! i = Some (p, f) ->
     record_at (aw_key w) (aw_seq w + N.of_nat i) p f /\ blen f <= MAX_FRAME_SIZE).
Proof.
  revert w. induction ps as [|p ps IH]; intros w Hw; cbn [write_all].
  { split_and!; try done. cbn. lia. }
  pose proof (encrypt_frame_cases p w) as Hc. destruct (encrypt_frame p w) as [[f|e] w1].
  - destruct Hc as (Hr & Hne & Hlen & ->). specialize (IH {| aw_key := aw_key w; aw_seq := aw_seq w + 1 |}).
    cbn [aw_key aw_seq] in IH. destruct (write_all ps _) as [out w']. destruct IH as (Hk & Hs & Hm & Hi); [lia|].
    split_and!; [done|cbn [length]; lia|done|]. intros [|i] p' f' Hp; cbn in Hp.
    + injection Hp as <- <-. by rewrite N.add_0_r.
    + destruct (Hi i p' f' Hp) as [Hr' Hl']. split; [|done].
      by replace (aw_seq w + N.of_nat (S i)) with (aw_seq w + 1 + N.of_nat i) by lia.
  - subst w1. specialize (IH w Hw). by destruct (write_all ps w).
Qed.

(** ** The reader *)

Fixpoint read_all (fs : list Bytes) (r : AeadReaderSession) : list (result ProtocolError Bytes) * AeadReaderSession :=
  match fs with
  | [] => ([], r)
  | f :: fs =>
      let '(o, r) := decrypt_frame f r in
      let '(out, r) := read_all fs r in (o :: out, r)
  end.

Lemma read_all_failed fs r : ar_failed r = true ->
  (read_all fs r).1 = repeat (Err (PeViolation AEAD_ERR_CLOSED)) (length fs).
Proof.
  intros Hf. induction fs as [|f fs IH]; [done|]. cbn [read_all length repeat]. unfold decrypt_frame at 1. rewrite Hf.
  destruct (read_all fs r) as [out r']. cbn in *. by rewrite IH.
Qed.

(** What an accepted record was. *)
Lemma decrypt_frame_ok f r p r' :
  decrypt_frame f r = (Ok p, r') ->
  ar_failed r = false /\ ar_expected_seq r <> u64_max /\
  unseal (ar_key r) (nonce_bytes (ar_expected_seq r)) (take 9 f) (drop 9 f) = Some p /\
  r' = {| ar_key := ar_key r; ar_expected_seq := ar_expected_seq r + 1; ar_failed := false |}.
Proof.
  unfold decrypt_frame, open_record. destruct (ar_failed r) eqn:Hfail; [done|].
  destruct (_ <? _); [done|]. destruct (negb (bool_decide _)); [done|].
  destruct (N.eqb_spec (from_be_bytes (take 8 (drop 1 f))) (ar_expected_seq r)) as [->|]; cbn [negb]; [|done].
  rewrite nonce_always_ok. cbn [negb]. destruct (unseal _ _ _ _) as [x|]; [|done].
  destruct (N.eqb_spec (ar_expected_seq r) u64_max); [done|]. cbn. by intros [= -> <-].
Qed.

Lemma decrypt_frame_err f r e r' : decrypt_frame f r = (Err e, r') -> ar_failed r' = true.
Proof.
  unfold decrypt_frame. destruct (ar_failed r) eqn:Hf; [by intros [= _ <-]|].
  destruct (open_record f r) as [[]]; by intros [= <- <-].
Qed.

(** A genuine record is accepted by the reader that expects it. *)
Lemma decrypt_record key seq p f :
  record_at key seq p f -> seq < u64_max ->
  decrypt_frame f {| ar_key := key; ar_expected_seq := seq; ar_failed := false |}
    = (Ok p, {| ar_key := key; ar_expected_seq := seq + 1; ar_failed := false |}).
Proof.
  intros (c & Hc & ->) Hs. pose proof (seal_length _ _ _ _ _ Hc) as Hl. pose proof (unseal_seal _ _ _ _ _ Hc) as Ho.
  unfold decrypt_frame, open_record. cbn [ar_failed ar_key ar_expected_seq].
  assert (Hh : length (record_header seq) = 9%nat) by (unfold record_header; cbn [length]; by rewrite length_be_bytes).
  destruct (N.ltb_spec (blen (record_header seq ++ c)) AEAD_RECORD_OVERHEAD) as [Hlt|_].
  { exfalso. unfold blen, AEAD_RECORD_OVERHEAD in *. rewrite length_app, Hh in Hlt. lia. }
  change (head (record_header seq ++ c)) with (Some WIRE_FORMAT_ENCRYPTED). rewrite bool_decide_true by done. cbn [negb].
  change (drop 1 (record_header seq ++ c)) with (be_bytes 8 seq ++ c).
  rewrite take_app_length' by (by rewrite length_be_bytes). rewrite u64_bytes by lia. rewrite N.eqb_refl, nonce_always_ok. cbn [negb].
  rewrite take_app_length', drop_app_length' by done. rewrite Ho.
  destruct (N.eqb_spec seq u64_max); [lia|]. done.
Qed.

(** On this wire only the writer's [i]-th record opens under nonce [i]: whoever
    touched the frames forged nothing. *)
Definition unforged (key : AeadKey) (out : list (Bytes * Bytes)) (wire : list Bytes) : Prop :=
  forall f i p, f ∈ wire -> N.of_nat i < u64_max ->
    unseal key (nonce_bytes (N.of_nat i)) (take 9 f) (drop 9 f) = Some p -> out.*2 !! i = Some f.

Lemma read_prefix key out wire j :
  (forall i p f, out !! i = Some (p, f) -> record_at key (N.of_nat i) p f) -> unforged key out wire ->
  N.of_nat j <= u64_max ->
  exists k bad, (read_all wire {| ar_key := key; ar_expected_seq := N.of_nat j; ar_failed := false |}).1
      = (Ok <$> take k (drop j out.*1)) ++ bad /\ Forall (fun o => is_ok o = false) bad.
Proof.
  intros Hout. revert j. induction wire as [|f wire IH]; intros j Hu Hj0; cbn [read_all].
  { exists 0%nat, []. by rewrite take_0. }
  set (r := {| ar_key := key; ar_expected_seq := N.of_nat j; ar_failed := false |}).
  destruct (decrypt_frame f r) as [[p|e] r'] eqn:Hd.
  - apply decrypt_frame_ok in Hd as (_ & Hmax & Ho & ->). cbn [ar_key ar_expected_seq r] in *.
    pose proof (Hu f j p ltac:(left) ltac:(lia) Ho) as Hf. apply list_lookup_fmap_Some in Hf as ([p' f'] & -> & Hj).
    destruct (Hout j p' _ Hj) as (c & Hc & Hf'). cbn [snd] in *.
    assert (p' = p) as ->.
    { apply unseal_seal in Hc. rewrite Hf' in Ho. unfold record_header in Ho. cbn [app] in Ho.
      rewrite (take_app_length' (WIRE_FORMAT_ENCRYPTED :: be_bytes 8 (N.of_nat j)) c) in Ho by reflexivity.
      rewrite (drop_app_length' (WIRE_FORMAT_ENCRYPTED :: be_bytes 8 (N.of_nat j)) c) in Ho by reflexivity.
      unfold record_header in Hc. congruence. }
    destruct (IH (S j)) as (k & bad & Heq & Hbad); [intros f2 i p2 Hin; apply Hu; by right|lia|].
    replace (N.of_nat j + 1) with (N.of_nat (S j)) by lia.
    destruct (read_all wire _) as [rest r2]. cbn [fst] in *. exists (S k), bad. split; [|done].
    rewrite (drop_S out.*1 p j); [cbn; by rewrite Heq|]. rewrite list_lookup_fmap, Hj. done.
  - apply decrypt_frame_err in Hd. pose proof (read_all_failed wire r' Hd) as Hr.
    destruct (read_all wire r') as [rest r2]. cbn [fst] in *. exists 0%nat, (Err e :: rest). rewrite take_0. split; [done|].
    constructor; [done|]. rewrite Hr. apply Forall_forall. by intros o ->%list_elem_of_In%repeat_spec.
Qed.

(** A reader that gets every record in order accepts them all. *)
Lemma read_genuine key out j :
  (forall i p f, out !! i = Some (p, f) -> record_at key (N.of_nat (j + i)) p f) ->
  N.of_nat (j + length out) <= u64_max ->
  (read_all out.*2 {| ar_key := key; ar_expected_seq := N.of_nat j; ar_failed := false |}).1 = Ok <$> out.*1.
Proof.
  revert j. induction out as [|[p f] out IH]; intros j Hout Hlen; [done|]. cbn [fmap list_fmap snd fst read_all].
  rewrite (decrypt_record key (N.of_nat j) p f).
  - specialize (IH (S j)). replace (N.of_nat j + 1) with (N.of_nat (S j)) by lia.
    destruct (read_all out.*2 _) as [rest r']. cbn [fst] in *. f_equal. apply IH.
    + intros i p' f' Hi. replace (S j + i)%nat with (j + S i)%nat by lia. by apply Hout.
    + cbn [length] in Hlen. by replace (S j + length out)%nat with (j + S (length out))%nat by lia.
  - replace j with (j + 0)%nat by lia. by apply Hout.
  - cbn [length] in Hlen. lia.
Qed.

(** A writer never uses a nonce twice.  Whatever frames it is asked to seal, the
    records it emits carry the sequence numbers 0, 1, 2, ... without gaps, also
    across refused frames; the counter stays within 64 bits, the nonces of two
    records differ, and no record exceeds the frame limit of the peer. *)
Theorem writer_never_reuses_nonce key ps :
  let '(out, w) := write_all ps (aead_writer_new key) in
  aw_seq w = N.of_nat (length out) /\ aw_seq w <= u64_max /\
  (forall i p f, out !! i = Some (p, f) ->
     record_at (aead_key key) (N.of_nat i) p f /\ blen f <= MAX_FRAME_SIZE) /\
  (forall i j, (i < length out)%nat -> (j < length out)%nat ->
     nonce_bytes (N.of_nat i) = nonce_bytes (N.of_nat j) -> i = j).
Proof.
  pose proof (write_all_spec ps (aead_writer_new key)) as Hw. destruct (write_all ps _) as [out w].
  destruct Hw as (_ & Hs & Hm & Hi); [cbn; lia|]. cbn [aw_seq aw_key aead_writer_new] in *. split_and!; [lia|done| |].
  - intros i p f Hp. destruct (Hi i p f Hp). by rewrite N.add_0_l in *.
  - intros i j Hli Hlj Hn. unfold nonce_bytes in Hn. apply app_inj_1 in Hn as [_ Hn]; [|done].
    apply be_bytes_inj in Hn; lia.
Qed.

(** C15 The record layer delivers a prefix of what was sent.  Whatever the network
    does to the frames of one direction (drop, reorder, replay, truncate or inject),
    as long as it forges no record, the reader hands on the first plaintexts of the
    writer, in order, each once, and after the first refused frame nothing more; if
    the frames arrive untouched it hands on all of them. *)
Theorem channel_delivers_prefix key ps wire :
  let out := (write_all ps (aead_writer_new key)).1 in
  unforged (aead_key key) out wire ->
  (exists k bad, (read_all wire (aead_reader_new key)).1 = (Ok <$> take k out.*1) ++ bad /\
     Forall (fun o => is_ok o = false) bad) /\
  (wire = out.*2 -> (read_all wire (aead_reader_new key)).1 = Ok <$> out.*1).
Proof.
  intros out. subst out. pose proof (write_all_spec ps (aead_writer_new key)) as Hw. destruct (write_all ps _) as [out w].
  destruct Hw as (_ & Hs & Hm & Hi); [cbn; lia|]. cbn [aw_seq aw_key aead_writer_new fst] in *. intros Hu. split.
  - destruct (read_prefix (aead_key key) out wire 0) as (k & bad & Heq & Hbad); [|done|cbn; lia|].
    + intros i p f Hp. destruct (Hi i p f Hp) as [Hr _]. by rewrite N.add_0_l in Hr.
    + exists k, bad. by rewrite drop_0 in Heq.
  - intros ->. apply (read_genuine (aead_key key) out 0); [|cbn; lia].
    intros i p f Hp. destruct (Hi i p f Hp) as [Hr _]. by rewrite N.add_0_l in Hr.
Qed.

(** ** Transports in step *)

(** What [t] sends next is what [u] reads next. *)
Definition in_step (t u : MessageTransport) : Prop :=
  match mt_aead_writer t, mt_aead_reader u with
  | Some w, Some r => ar_key r = aw_key w /\ ar_expected_seq r = aw_seq w /\ ar_failed r = false /\ aw_seq w <= u64_max
  | None, None => True
  | _, _ => False
  end.

Lemma derived_in_step session_key role role' t u :
  role <> role' -> in_step (enable_encryption session_key role t) (enable_encryption session_key role' u).
Proof. intros Hne. unfold in_step. destruct role, role'; try done; cbn; split_and!; done || lia. Qed.

Lemma serialize_decodes {M} `{WireLaws M} (msg : M) codec payload :
  serialize_message msg codec = Ok payload ->
  deserialize_message payload = Ok (msg, codec) /\ blen payload <= MAX_FRAME_SIZE.
Proof.
  destruct codec; cbn [serialize_message].
  - intros (b & Hb & Hx)%result_bind_Ok. destruct (json_encode msg) as [b'|] eqn:Hj; [|done]. injection Hb as ->.
    revert Hx. set (buf := WIRE_FORMAT_JSON :: b). destruct (N.ltb_spec MAX_FRAME_SIZE (blen buf)) as [|Hle]; [done|].
    intros [= <-]. split; [|done]. cbn. by rewrite (json_roundtrip msg b Hj).
  - intros (n & Hn & Hx)%result_bind_Ok. destruct (bin_size msg) as [n'|] eqn:Hs; [|done]. injection Hn as ->.
    destruct (bin_size_exact msg n Hs) as (b & Hb & Hl). rewrite Hb in Hx. cbn in Hx.
    revert Hx. destruct (N.ltb_spec MAX_FRAME_SIZE (saturating_add usize_max 1 n)) as [|Hle]; [done|]. intros [= <-].
    split; [cbn; by rewrite (bin_roundtrip msg b Hb)|].
    unfold saturating_add in Hle. assert (Hmax : MAX_FRAME_SIZE < usize_max) by done.
    unfold blen in *. cbn [length]. lia.
Qed.

(** C16 Two transports stay in step.  Encryption switched on at both ends from one
    session key puts both directions in step; from then on each message one side
    sends is received by the other as that very message with the sender's codec, the
    frame fits the peer's limit, and they are in step again; a message that cannot be
    sent (too large, not serializable, counter exhausted) leaves them in step. *)
Theorem transport_stays_in_step {M} `{WireLaws M} session_key (t u : MessageTransport) (msg : M) :
  in_step (enable_encryption session_key RoleClient t) (enable_encryption session_key RoleServer u) /\
  in_step (enable_encryption session_key RoleServer u) (enable_encryption session_key RoleClient t) /\
  (in_step t u ->
   let '(sent, t') := send_msg msg t in
   match sent with
   | Err _ => in_step t' u
   | Ok frame =>
       blen frame <= MAX_FRAME_SIZE /\
       exists u', recv_msg_with_codec (Frame frame) u = (Ok (Some (msg, mt_codec t)), u') /\ in_step t' u' /\
         mt_last_detected_codec u' = Some (mt_codec t)
   end).
Proof.
  split; [by apply derived_in_step|]. split; [by apply derived_in_step|]. intros Hs. unfold send_msg.
  destruct (serialize_message msg (mt_codec t)) as [payload|e] eqn:Hp; [|done].
  apply serialize_decodes in Hp as [Hd Hlen]. unfold in_step, protect in *.
  destruct (mt_aead_writer t) as [w|], (mt_aead_reader u) as [r|] eqn:Hr; try done.
  - destruct Hs as (Hk & Hseq & Hf & Hmax). pose proof (encrypt_frame_cases payload w) as Hc.
    destruct (encrypt_frame payload w) as [[frame|e] w'].
    + destruct Hc as (Hrec & Hne & Hfl & ->). split; [done|]. unfold recv_msg_with_codec, reader_recv_msg_with_codec, unprotect.
      cbn [mrd_aead_reader mrd_last_detected_codec]. rewrite Hr.
      assert (r = {| ar_key := aw_key w; ar_expected_seq := aw_seq w; ar_failed := false |}) as ->
        by (destruct r; cbn in *; congruence).
      rewrite (decrypt_record (aw_key w) (aw_seq w) payload frame Hrec) by lia. cbn [result_bind]. rewrite Hd.
      eexists. split; [reflexivity|]. cbn. split_and!; done || lia.
    + subst w'. cbn. by split_and!.
  - split; [done|]. unfold recv_msg_with_codec, reader_recv_msg_with_codec, unprotect.
    cbn [mrd_aead_reader mrd_last_detected_codec]. rewrite Hr. cbn [result_bind]. rewrite Hd.
    eexists. split; [reflexivity|]. by cbn.
Qed.
End aead.

(** ** An instance, and a replayed wire *)

Module ToyAead.

(** The tag is the nonce padded to 16 bytes: no cipher, but it obeys the laws. *)
Definition tag (n : Bytes) : Bytes := take 16 (n ++ repeat 0 16).
Definition toy_seal (k n a p : Bytes) : option Bytes := Some (p ++ tag n).
Definition toy_unseal (k n a c : Bytes) : option Bytes :=
  let cut := (length c - 16)%nat in
  if (16 <=? length c)%nat && bool_decide (drop cut c = tag n) then Some (take cut c) else None.

Lemma length_tag n : length (tag n) = 16%nat.
Proof. unfold tag. rewrite length_take, length_app, repeat_length. lia. Qed.

#[global] Instance api : Aead := {|
  AeadKey := Bytes; aead_key := id; seal := toy_seal; unseal := toy_unseal; sign := fun k m => k ++ m
|}.

#[global] Instance laws : AeadLaws.
Proof.
  split.
  - intros k n a p c [= <-]. unfold unseal, api, toy_unseal. rewrite length_app, length_tag.
    replace (length p + 16 - 16)%nat with (length p) by lia. rewrite drop_app_length, take_app_length.
    rewrite bool_decide_true by done. destruct (Nat.leb_spec 16 (length p + 16)); [done|lia].
  - intros k n a p c [= <-]. unfold blen. rewrite length_app, length_tag. lia.
Qed.

Definition key : Bytes := repeat 7 32.
Definition sent : list (Bytes * Bytes) * AeadWriterSession := write_all [str "hello"; str "bye"] (aead_writer_new key).
(** The first record, replayed, then the second. *)
Definition wire : list Bytes := match sent.1.*2 with [a; b] => [a; a; b] | l => l end.

(** A record whose tag names sequence number [j] opens under no other nonce. *)
Lemma toy_unforged f p0 j i p :
  N.of_nat i < u64_max -> N.of_nat j < u64_max -> f = record_header (N.of_nat j) ++ p0 ++ tag (nonce_bytes (N.of_nat j)) ->
  unseal key (nonce_bytes (N.of_nat i)) (take 9 f) (drop 9 f) = Some p -> i = j.
Proof.
  intros Hi Hj -> Ho. rewrite drop_app_length' in Ho by (unfold record_header; cbn [length]; by rewrite length_be_bytes).
  unfold unseal, api, toy_unseal in Ho. rewrite length_app, length_tag in Ho.
  replace (length p0 + 16 - 16)%nat with (length p0) in Ho by lia. rewrite drop_app_length in Ho.
  destruct (_ && bool_decide (tag _ = tag _)) eqn:Hb; [|done]. apply andb_true_iff in Hb as [_ Heq%bool_decide_eq_true].
  assert (Hn : nonce_bytes (N.of_nat j) = nonce_bytes (N.of_nat i)).
  { apply (f_equal (take 12)) in Heq. unfold tag in Heq. rewrite !take_take in Heq.
    replace (12 `min` 16)%nat with 12%nat in Heq by lia. by rewrite !take_app_length' in Heq. }
  unfold nonce_bytes in Hn. apply app_inj_1 in Hn as [_ Hn]; [|done]. apply be_bytes_inj in Hn; lia.
Qed.
End ToyAead.

Theorem writer_never_reuses_nonce_witness :
  length ToyAead.sent.1 = 2%nat /\ aw_seq ToyAead.sent.2 = 2 /\
  let '(out, w) := write_all [str "hello"; str "bye"] (aead_writer_new ToyAead.key) in aw_seq w = N.of_nat (length out).
Proof.
  split; [reflexivity|]. split; [vm_compute; reflexivity|].
  pose proof (writer_never_reuses_nonce ToyAead.key [str "hello"; str "bye"]) as Hw.
  destruct (write_all _ _) as [out w]. exact (proj1 Hw).
Defined.

Theorem channel_delivers_prefix_witness :
  (read_all ToyAead.wire (aead_reader_new ToyAead.key)).1
    = [Ok (str "hello"); Err (PeViolation AEAD_ERR_SEQUENCE); Err (PeViolation AEAD_ERR_CLOSED)] /\
  exists k bad, (read_all ToyAead.wire (aead_reader_new ToyAead.key)).1 = (Ok <$> take k ToyAead.sent.1.*1) ++ bad /\
    Forall (fun o => is_ok o = false) bad.
Proof.
  destruct (channel_delivers_prefix ToyAead.key [str "hello"; str "bye"] ToyAead.wire) as [(k & bad & Heq & Hbad) _].
  - intros f i p Hin Hi Ho.
    assert (Hf : f = record_header 0 ++ str "hello" ++ ToyAead.tag (nonce_bytes 0) \/
                 f = record_header 1 ++ str "bye" ++ ToyAead.tag (nonce_bytes 1)).
    { assert (Hw : ToyAead.wire = [record_header 0 ++ str "hello" ++ ToyAead.tag (nonce_bytes 0);
        record_header 0 ++ str "hello" ++ ToyAead.tag (nonce_bytes 0); record_header 1 ++ str "bye" ++ ToyAead.tag (nonce_bytes 1)])
        by (vm_compute; reflexivity).
      rewrite Hw in Hin. clear -Hin. set_solver. }
    destruct Hf as [-> | ->].
    + rewrite (ToyAead.toy_unforged _ (str "hello") 0 i p Hi eq_refl eq_refl Ho). vm_compute. reflexivity.
    + rewrite (ToyAead.toy_unforged _ (str "bye") 1 i p Hi eq_refl eq_refl Ho). vm_compute. reflexivity.
  - split; [vm_compute; reflexivity|]. exists k, bad. split; [exact Heq|exact Hbad].
Defined.

(** One byte per message. *)
#[global] Instance byte_wire : Wire N := {|
  bin_size := fun _ => Some 1; bin_encode := fun n => Some [n]; bin_decode := head;
  json_encode := fun n => Some [n]; json_decode := head; bin_fallback := fun _ => None
|}.
#[global] Instance byte_wire_laws : WireLaws N.
Proof. split; [by intros m b [= <-]| |by intros m b [= <-]]. intros m n [= <-]. by exists [m]. Qed.

Theorem transport_stays_in_step_witness :
  let t := enable_encryption ToyAead.key RoleClient transport_new in
  let u := enable_encryption ToyAead.key RoleServer transport_new in
  exists frame t' u', send_msg 42 t = (Ok frame, t') /\
    recv_msg_with_codec (Frame frame) u = (Ok (Some (42, Bincode)), u') /\ in_step t' u'.
Proof.
  cbn zeta. set (t := enable_encryption ToyAead.key RoleClient transport_new). set (u := enable_encryption ToyAead.key RoleServer transport_new).
  destruct (transport_stays_in_step ToyAead.key transport_new transport_new 42) as (H1 & _ & _).
  destruct (transport_stays_in_step ToyAead.key t u 42) as (_ & _ & H3). specialize (H3 H1).
  assert (Hs : exists frame t', send_msg 42 t = (Ok frame, t')) by (eexists _, _; vm_compute; reflexivity).
  destruct Hs as (frame & t' & Hs). rewrite Hs in H3. destruct H3 as (_ & u' & Hr & Hst & _).
  exists frame, t', u'. split; [exact Hs|]. split; [exact Hr|exact Hst].
Defined.
