(* ===== verification/BlobTransfer.v ===== *)
(** * BlobTransfer: moving blobs between peers

    Models [crates/core/src/blob_transfer.rs]: the requests and replies, the chunk
    check and the upload and download loops over a [BlobChannel].  A channel is a
    state and the function one exchange is; an [AsyncRead] source is the bytes it
    still yields, an [AsyncWrite] sink the bytes written.  BLAKE3 ([BlobHasher]) is
    the interface [BlobHash]: the hash of everything fed so far.  Failures of the
    local sink are left out. *)

From S2P Require Import Prelude Collections RustStr Capabilities Placement Blob.
Local Open Scope N_scope.
Local Open Scope result_scope.

Class BlobHash := blob_of : Bytes -> BlobId.

Definition BLOB_CHUNK_BYTES : N := 4 * 1024 * 1024.
Definition MAX_CHUNK_BYTES : N := 8 * 1024 * 1024.
Definition MAX_MISSING_QUERY : N := 65536.

Inductive ChunkError := ChunkTooLong (len allowed : N) | ChunkEmpty.

Definition check_chunk_len (len remaining : N) : result ChunkError unit :=
  if (MAX_CHUNK_BYTES <? len) || (remaining <? len) then Err (ChunkTooLong len (N.min remaining MAX_CHUNK_BYTES))
  else if (len =? 0) && (0 <? remaining) then Err ChunkEmpty
  else Ok tt.

Inductive BlobRequest :=
| ReqMissing (ids : list BlobId)
| ReqRead (id : BlobId) (offset max_len : N)
| ReqWrite (id : BlobId) (total_size offset : N) (data : Bytes).

(** The reasons of [BlobReply::Failed]. *)
Inductive BlobFailure :=
| TooManyIds (n : N)
| PastEnd (offset size : N)
| ReadFailed
| LargerThanStore (total max : N)
| AlreadyWriting
| UploadsFull (reserved max : N)
| NoUpload
| CannotStore
| TotalChanged (was now : N)
| WrongOffset (offset received : N)
| BadChunk (e : ChunkError)
| UploadAborted
| HashMismatch (actual : BlobId).

Inductive BlobReply :=
| RepMissing (ids : list BlobId)
| RepChunk (id : BlobId) (offset total_size : N) (data : Bytes)
| RepWritten (id : BlobId) (received : N) (complete : bool)
| RepNotFound (id : BlobId)
| RepFailed (why : BlobFailure).

(** The formatted reasons of [BlobError] are constructors. *)
Inductive BlobError :=
| BeNotFound (id : BlobId)
| BeSourceEnded (id : BlobId) (size : N)
| BeSizeChanged (id : BlobId) (expected total : N)
| BeBadChunk (id : BlobId) (e : ChunkError)
| BeHash (id actual : BlobId)
| BeRefused (why : BlobFailure)
| BeUnexpected (reply : BlobReply)
| BeOutOfStep (id : BlobId) (received offset : N)
| BeWrongOffset (id : BlobId) (asked got : N)
| BeTransport.

Definition unexpected (reply : BlobReply) : BlobError :=
  match reply with
  | RepFailed why => BeRefused why
  | RepNotFound id => BeNotFound id
  | other => BeUnexpected other
  end.

Section channel.
Context {St : Type} (call : BlobRequest -> St -> result BlobError BlobReply * St).

(** [ids.chunks(MAX_MISSING_QUERY)]. *)
Fixpoint chunks_of {A} (fuel : nat) (n : nat) (l : list A) : list (list A) :=
  match fuel, l with
  | _, [] => []
  | O, _ => []
  | S fuel, _ => take n l :: chunks_of fuel n (drop n l)
  end.

Fixpoint missing_loop (batches : list (list BlobId)) (missing : list BlobId) (s : St)
    : result BlobError (list BlobId) * St :=
  match batches with
  | [] => (Ok missing, s)
  | batch :: batches =>
      match call (ReqMissing batch) s with
      | (Err e, s) => (Err e, s)
      | (Ok (RepMissing ids), s) => missing_loop batches (missing ++ ids) s
      | (Ok other, s) => (Err (unexpected other), s)
      end
  end.

Definition missing_blobs (ids : list BlobId) (s : St) : result BlobError (list BlobId) * St :=
  missing_loop (chunks_of (length ids) (N.to_nat MAX_MISSING_QUERY) ids) [] s.

(** The loop of [upload_blob]; [None] is running out of fuel, and one round per chunk
    and one more are enough ([upload_fuel]). *)
Fixpoint upload_loop (fuel : nat) (id : BlobId) (size offset : N) (reader : Bytes) (s : St)
    : option (result BlobError N * St) :=
  match fuel with
  | O => None
  | S fuel =>
      let want := N.min (size - offset) BLOB_CHUNK_BYTES in
      if blen reader <? want then Some (Err (BeSourceEnded id size), s)
      else
        let data := take (N.to_nat want) reader in
        match call (ReqWrite id size offset data) s with
        | (Err e, s) => Some (Err e, s)
        | (Ok (RepWritten _ received complete), s) =>
            let offset := offset + want in
            if complete then Some (Ok offset, s)
            else if (received =? offset) && (offset <? size)
            then upload_loop fuel id size offset (drop (N.to_nat want) reader) s
            else Some (Err (BeOutOfStep id received offset), s)
        | (Ok other, s) => Some (Err (unexpected other), s)
        end
  end.

Definition upload_fuel (size : N) : nat := S (N.to_nat (size / BLOB_CHUNK_BYTES)).

Definition upload_blob (id : BlobId) (size : N) (reader : Bytes) (s : St) : option (result BlobError N * St) :=
  upload_loop (upload_fuel size) id size 0 reader s.

(** The loop of [download_blob]: the bytes written so far are the bytes hashed.
    [None] is running out of fuel: a master that keeps changing the total can keep
    the loop going. *)
Fixpoint download_loop `{BlobHash} (fuel : nat) (id : BlobId) (expected_size : option N) (written : Bytes) (s : St)
    : option (result BlobError Bytes * St) :=
  match fuel with
  | O => None
  | S fuel =>
      let offset := blen written in
      match call (ReqRead id offset BLOB_CHUNK_BYTES) s with
      | (Err e, s) => Some (Err e, s)
      | (Ok (RepChunk chunk_id chunk_offset total_size data as reply), s) =>
          if negb (bool_decide (chunk_id = id)) then Some (Err (unexpected reply), s)
          else if bool_decide (is_Some expected_size) && negb (bool_decide (expected_size = Some total_size))
          then Some (Err (BeSizeChanged id (default 0 expected_size) total_size), s)
          else if negb (chunk_offset =? offset) || (total_size <? offset)
          then Some (Err (BeWrongOffset id offset chunk_offset), s)
          else
            match check_chunk_len (blen data) (total_size - offset) with
            | Err e => Some (Err (BeBadChunk id e), s)
            | Ok _ =>
                let written := written ++ data in
                if blen written =? total_size then
                  let actual := blob_of written in
                  Some (if bool_decide (actual = id) then (Ok written, s) else (Err (BeHash id actual), s))
                else download_loop fuel id expected_size written s
            end
      | (Ok other, s) => Some (Err (unexpected other), s)
      end
  end.

(** What [download_blob] leaves in the writer, or its error. *)
Definition download_blob `{BlobHash} (fuel : nat) (id : BlobId) (expected_size : option N) (s : St)
    : option (result BlobError Bytes * St) := download_loop fuel id expected_size [] s.
End channel.
