(* ===== verification/BlobStore.v ===== *)
(** * BlobStore: the master's bounded, content-addressed blob store

    Models [crates/master/src/blob_store.rs].  [Inner] is the index under the lock;
    [bs_objects] is the object directory (what each file holds), and an upload's
    temporary file travels with the [Upload].  [Instant::now()] is an argument, and
    what the file system may refuse ([Io]) is one too.  The critical sections of a
    chunk's write ([write_begin], each [evict_batch], [append_with] ending in
    [commit_hold]) are separate definitions, since other connections run between
    them; so are those of the pin methods ([unpin_hold], [terminal_hold],
    [expire_hold]).  Counters for the
    dashboard, log lines and the private-directory modes are left out. *)

From S2P Require Import Prelude Collections RustStr Capabilities Placement Blob Task Queue BlobTransfer.
Local Open Scope N_scope.
Local Open Scope result_scope.

Definition DEFAULT_BLOB_STORE_MAX_BYTES : N := 4 * 1024 * 1024 * 1024.
Definition STALE_UPLOAD_AFTER : Duration := from_secs 600.
Definition DEFAULT_OUTPUT_PIN_RETENTION : Duration := from_secs 600.
Definition EVICTION_BATCH_SIZE : nat := 64.

(** ** The index *)

Record BlobEntry := { be_size : N; be_tick : N }.

(** [up_data] is what the temporary file holds and the hasher was fed.  The file is named by the
    blob and its owner; it belongs to this upload alone because the requests of one connection
    are answered one after the other. *)
Record Upload := { up_data : Bytes; up_received : N; up_total : N; up_last_chunk : N }.

Inductive UploadSlot := Idle (u : Upload) | Writing (total : N).
Definition slot_total (s : UploadSlot) : N := match s with Idle u => up_total u | Writing total => total end.

Record OutputPinEntry := { opn_pinned_at : N; opn_seq : N; opn_ids : list BlobId }.

Record Inner := {
  in_entries : gmap BlobId BlobEntry;
  in_lru : list (N * BlobId);
  in_tick : N;
  in_total_bytes : N;
  in_upload_bytes : N;
  in_pins : gmap TaskId (N * list BlobId);
  in_output_pins : gmap TaskId OutputPinEntry;
  in_output_pin_counts : gmap BlobId N;
  in_output_pin_seq : N;
  in_pin_counts : gmap BlobId N;
  in_uploads : gmap (N * BlobId) UploadSlot
}.

Definition inner_default : Inner := {|
  in_entries := ∅; in_lru := []; in_tick := 0; in_total_bytes := 0; in_upload_bytes := 0; in_pins := ∅;
  in_output_pins := ∅; in_output_pin_counts := ∅; in_output_pin_seq := 0; in_pin_counts := ∅; in_uploads := ∅
|}.

(** The fields the methods write together. *)
Definition set_index (entries : gmap BlobId BlobEntry) (lru : list (N * BlobId)) (tick total : N) (i : Inner) : Inner := {|
  in_entries := entries; in_lru := lru; in_tick := tick; in_total_bytes := total; in_upload_bytes := in_upload_bytes i;
  in_pins := in_pins i; in_output_pins := in_output_pins i; in_output_pin_counts := in_output_pin_counts i;
  in_output_pin_seq := in_output_pin_seq i; in_pin_counts := in_pin_counts i; in_uploads := in_uploads i
|}.
Definition set_uploads (uploads : gmap (N * BlobId) UploadSlot) (bytes : N) (i : Inner) : Inner := {|
  in_entries := in_entries i; in_lru := in_lru i; in_tick := in_tick i; in_total_bytes := in_total_bytes i;
  in_upload_bytes := bytes; in_pins := in_pins i; in_output_pins := in_output_pins i;
  in_output_pin_counts := in_output_pin_counts i; in_output_pin_seq := in_output_pin_seq i;
  in_pin_counts := in_pin_counts i; in_uploads := uploads
|}.
Definition set_pin_counts (counts : gmap BlobId N) (i : Inner) : Inner := {|
  in_entries := in_entries i; in_lru := in_lru i; in_tick := in_tick i; in_total_bytes := in_total_bytes i;
  in_upload_bytes := in_upload_bytes i; in_pins := in_pins i; in_output_pins := in_output_pins i;
  in_output_pin_counts := in_output_pin_counts i; in_output_pin_seq := in_output_pin_seq i;
  in_pin_counts := counts; in_uploads := in_uploads i
|}.
Definition set_pins (pins : gmap TaskId (N * list BlobId)) (i : Inner) : Inner := {|
  in_entries := in_entries i; in_lru := in_lru i; in_tick := in_tick i; in_total_bytes := in_total_bytes i;
  in_upload_bytes := in_upload_bytes i; in_pins := pins; in_output_pins := in_output_pins i;
  in_output_pin_counts := in_output_pin_counts i; in_output_pin_seq := in_output_pin_seq i;
  in_pin_counts := in_pin_counts i; in_uploads := in_uploads i
|}.
Definition set_output_pins (pins : gmap TaskId OutputPinEntry) (counts : gmap BlobId N) (seq : N) (i : Inner) : Inner := {|
  in_entries := in_entries i; in_lru := in_lru i; in_tick := in_tick i; in_total_bytes := in_total_bytes i;
  in_upload_bytes := in_upload_bytes i; in_pins := in_pins i; in_output_pins := pins;
  in_output_pin_counts := counts; in_output_pin_seq := seq;
  in_pin_counts := in_pin_counts i; in_uploads := in_uploads i
|}.

(** The [BTreeMap<u64, BlobId>]: ascending by tick. *)
Fixpoint lru_insert (t : N) (id : BlobId) (l : list (N * BlobId)) : list (N * BlobId) :=
  match l with
  | [] => [(t, id)]
  | (t', id') :: l' =>
      if t <? t' then (t, id) :: l
      else if t =? t' then (t, id) :: l'
      else (t', id') :: lru_insert t id l'
  end.
Definition lru_remove (t : N) (l : list (N * BlobId)) : list (N * BlobId) := List.filter (fun x => negb (x.1 =? t)) l.

Definition touch (id : BlobId) (i : Inner) : bool * Inner :=
  let tick := in_tick i + 1 in
  match in_entries i !! id with
  | Some e =>
      (true, set_index (<[id := {| be_size := be_size e; be_tick := tick |}]> (in_entries i))
               (lru_insert tick id (lru_remove (be_tick e) (in_lru i))) tick (in_total_bytes i) i)
  | None => (false, set_index (in_entries i) (in_lru i) tick (in_total_bytes i) i)
  end.

Definition index_insert (id : BlobId) (size : N) (i : Inner) : Inner :=
  if bool_decide (is_Some (in_entries i !! id)) then (touch id i).2
  else
    let tick := in_tick i + 1 in
    set_index (<[id := {| be_size := size; be_tick := tick |}]> (in_entries i)) (lru_insert tick id (in_lru i)) tick
      (in_total_bytes i + size) i.

Definition index_remove (id : BlobId) (i : Inner) : option N * Inner :=
  match in_entries i !! id with
  | Some e => (Some (be_size e), set_index (delete id (in_entries i)) (lru_remove (be_tick e) (in_lru i)) (in_tick i)
                                   (in_total_bytes i - be_size e) i)
  | None => (None, i)
  end.

Definition output_pinned_bytes (i : Inner) : N :=
  map_sum (fun e => be_size e) (filter (fun '(id, _) => is_Some (in_output_pin_counts i !! id)) (in_entries i)).

Definition used_bytes (i : Inner) : N := saturating_add u64_max (in_total_bytes i) (in_upload_bytes i).

(** The loop that picks victims: at most [room] of them, least recently used first,
    passing over pinned blobs and [keep].  [entries[id]] is there for every id of
    [lru] ([lru_indexed] of the invariant), so the lookup does not panic. *)
Fixpoint pick_victims (i : Inner) (keep : option BlobId) (room : nat) (excess : N) (l : list (N * BlobId)) : list BlobId :=
  match l with
  | [] => []
  | (_, id) :: l =>
      match room with
      | O => []
      | S room' =>
          if excess =? 0 then []
          else if bool_decide (is_Some (in_pin_counts i !! id)) || bool_decide (keep = Some id)
          then pick_victims i keep room excess l
          else
            let size := from_option be_size 0 (in_entries i !! id) in
            id :: pick_victims i keep room' (excess - N.max size 1) l
      end
  end.

Definition remove_all (ids : list BlobId) (i : Inner) : Inner := foldl (fun i id => (index_remove id i).2) i ids.

(** [eviction_victims], which has no batch limit. *)
Definition eviction_victims (max_bytes : N) (keep : option BlobId) (i : Inner) : list BlobId * Inner :=
  let excess := used_bytes i - max_bytes in
  if excess =? 0 then ([], i)
  else
    let victims := pick_victims i keep (length (in_lru i)) excess (in_lru i) in
    (victims, remove_all victims i).

(** ** The store *)

Record BlobStore := {
  bs_max_bytes : N;
  bs_output_pin_retention : Duration;
  bs_inner : Inner;
  bs_objects : gmap BlobId Bytes
}.

Definition with_inner (i : Inner) (b : BlobStore) : BlobStore :=
  {| bs_max_bytes := bs_max_bytes b; bs_output_pin_retention := bs_output_pin_retention b; bs_inner := i; bs_objects := bs_objects b |}.
Definition with_disk (i : Inner) (objects : gmap BlobId Bytes) (b : BlobStore) : BlobStore :=
  {| bs_max_bytes := bs_max_bytes b; bs_output_pin_retention := bs_output_pin_retention b; bs_inner := i; bs_objects := objects |}.

(** What the file system may refuse during one request. *)
Record Io := { io_create : bool; io_write : bool; io_sync : bool; io_mkdir : bool; io_rename : bool; io_read : bool; io_delete : bool }.
Definition io_fine : Io :=
  {| io_create := true; io_write := true; io_sync := true; io_mkdir := true; io_rename := true; io_read := true; io_delete := true |}.

(** [BlobStore::open] over the files found in the directory, in order of
    modification time; the victims' files are removed. *)
Definition store_open (io : Io) (max_bytes : N) (retention : Duration) (found : list (BlobId * Bytes)) : BlobStore :=
  let i := foldl (fun i x => index_insert x.1 (blen x.2) i) inner_default found in
  let '(victims, i) := eviction_victims max_bytes None i in
  let objects := foldl (fun m x => <[x.1 := x.2]> m) ∅ found in
  {| bs_max_bytes := max_bytes; bs_output_pin_retention := retention; bs_inner := i;
     bs_objects := if io_delete io then foldl (fun m id => delete id m) objects victims else objects |}.

Definition store_contains (id : BlobId) (b : BlobStore) : bool := bool_decide (is_Some (in_entries (bs_inner b) !! id)).
Definition size_of (id : BlobId) (b : BlobStore) : option N := be_size <$> in_entries (bs_inner b) !! id.

(** ** Eviction *)

(** One lock hold of [evict_to_fit]; [None] ends the loop. *)
Definition evict_batch (io : Io) (keep : option BlobId) (b : BlobStore) : option (nat * BlobStore) :=
  let i := bs_inner b in
  let excess := used_bytes i - bs_max_bytes b in
  if excess =? 0 then None
  else
    let victims := pick_victims i keep EVICTION_BATCH_SIZE excess (in_lru i) in
    if is_empty victims then None
    else Some (length victims,
               with_disk (remove_all victims i)
                 (if io_delete io then foldl (fun m id => delete id m) (bs_objects b) victims else bs_objects b) b).

(** Every round but the last removes blobs, so one round per blob and one more are
    fuel enough. *)
Fixpoint evict_loop (fuel : nat) (io : Io) (keep : option BlobId) (b : BlobStore) : BlobStore :=
  match fuel with
  | O => b
  | S fuel =>
      match evict_batch io keep b with
      | None => b
      | Some (batch, b) => if (batch <? EVICTION_BATCH_SIZE)%nat then b else evict_loop fuel io keep b
      end
  end.

Definition evict_to_fit (io : Io) (keep : option BlobId) (b : BlobStore) : BlobStore :=
  evict_loop (S (size (in_entries (bs_inner b)))) io keep b.

(** ** Reads *)

Fixpoint missing_ids_loop (seen : list BlobId) (ids : list BlobId) (i : Inner) : list BlobId * Inner :=
  match ids with
  | [] => ([], i)
  | id :: ids =>
      if bool_decide (id ∈ seen) then missing_ids_loop seen ids i
      else
        let '(here, i) := touch id i in
        let '(rest, i) := missing_ids_loop (id :: seen) ids i in
        (if here then rest else id :: rest, i)
  end.

Definition missing_ids (ids : list BlobId) (b : BlobStore) : list BlobId * BlobStore :=
  let '(out, i) := missing_ids_loop [] ids (bs_inner b) in (out, with_inner i b).

Definition missing (ids : list BlobId) (b : BlobStore) : BlobReply * BlobStore :=
  if MAX_MISSING_QUERY <? N.of_nat (length ids) then (RepFailed (TooManyIds (N.of_nat (length ids))), b)
  else let '(out, b) := missing_ids ids b in (RepMissing out, b).

(** [file.seek(offset)] and [read_exact] of [len] bytes. *)
Definition read_exact (file : Bytes) (offset len : N) : option Bytes :=
  if offset + len <=? blen file then Some (take (N.to_nat len) (drop (N.to_nat offset) file)) else None.

Definition read_chunk (io : Io) (id : BlobId) (offset max_len : N) (b : BlobStore) : BlobReply * BlobStore :=
  let b := with_inner (touch id (bs_inner b)).2 b in
  match size_of id b with
  | None => (RepNotFound id, b)
  | Some size =>
      if size <? offset then (RepFailed (PastEnd offset size), b)
      else
        let len := N.min (N.min (size - offset) max_len) BLOB_CHUNK_BYTES in
        match bs_objects b !! id with
        | None => (RepNotFound id, with_inner (index_remove id (bs_inner b)).2 b)
        | Some file =>
            if io_read io then
              match read_exact file offset len with
              | Some data => (RepChunk id offset size data, b)
              | None => (RepFailed ReadFailed, b)
              end
            else (RepFailed ReadFailed, b)
        end
  end.

(** ** Uploads *)

(** [if let Some(slot) = uploads.remove(&(owner, id)) { upload_bytes -= slot.total() }]. *)
Definition abandon_slot (owner : N) (id : BlobId) (b : BlobStore) : BlobStore :=
  let i := bs_inner b in
  match in_uploads i !! (owner, id) with
  | Some slot => with_inner (set_uploads (delete (owner, id) (in_uploads i)) (in_upload_bytes i - slot_total slot) i) b
  | None => b
  end.

(** The locked section [write_chunk] starts with: an answer, or the upload to go on
    with and whether to make room first. *)
Inductive Begin := BeginDone (reply : BlobReply) | BeginWrite (upload : option Upload) (need_evict : bool).

(** Reserving room for a new upload. *)
Definition reserve_upload (owner : N) (id : BlobId) (total_size max_bytes : N) (i : Inner) : Begin * Inner :=
  if max_bytes <? saturating_add u64_max (in_upload_bytes i) total_size
  then (BeginDone (RepFailed (UploadsFull (in_upload_bytes i) max_bytes)), i)
  else (BeginWrite None true,
        set_uploads (<[(owner, id) := Writing total_size]> (in_uploads i))
          (saturating_add u64_max (in_upload_bytes i) total_size) i).

Definition write_begin (owner : N) (id : BlobId) (total_size offset : N) (b : BlobStore) : Begin * BlobStore :=
  if bs_max_bytes b <? total_size then (BeginDone (RepFailed (LargerThanStore total_size (bs_max_bytes b))), b)
  else
    let '(here, i) := touch id (bs_inner b) in
    if here then (BeginDone (RepWritten id total_size true), abandon_slot owner id (with_inner i b))
    else
      match in_uploads i !! (owner, id) with
      | Some (Writing _) => (BeginDone (RepFailed AlreadyWriting), with_inner i b)
      | Some (Idle u) =>
          if negb (offset =? 0) then
            (BeginWrite (Some u) false,
             with_inner (set_uploads (<[(owner, id) := Writing (up_total u)]> (in_uploads i)) (in_upload_bytes i) i) b)
          else
            let i := set_uploads (delete (owner, id) (in_uploads i)) (in_upload_bytes i - up_total u) i in
            let '(o, i) := reserve_upload owner id total_size (bs_max_bytes b) i in (o, with_inner i b)
      | None =>
          if offset =? 0 then let '(o, i) := reserve_upload owner id total_size (bs_max_bytes b) i in (o, with_inner i b)
          else (BeginDone (RepFailed NoUpload), with_inner i b)
      end.

Section hash.
Context `{BlobHash}.

(** [commit] up to the end of its locked section. *)
Definition commit_hold (io : Io) (owner : N) (id : BlobId) (u : Upload) (b : BlobStore) : BlobReply * BlobStore :=
  let actual := blob_of (up_data u) in
  if negb (bool_decide (actual = id)) then (RepFailed (HashMismatch actual), abandon_slot owner id b)
  else if negb (io_sync io) then (RepFailed CannotStore, abandon_slot owner id b)
  else if negb (io_mkdir io) then (RepFailed CannotStore, abandon_slot owner id b)
  else
    match in_uploads (bs_inner b) !! (owner, id) with
    | None => (RepFailed UploadAborted, b)
    | Some _ =>
        let b := abandon_slot owner id b in
        if negb (io_rename io) && negb (bool_decide (is_Some (bs_objects b !! id))) then (RepFailed CannotStore, b)
        else
          let objects := if io_rename io then <[id := up_data u]> (bs_objects b) else bs_objects b in
          (RepWritten id (up_total u) true, with_disk (index_insert id (up_total u) (bs_inner b)) objects b)
    end.

Definition commit (io : Io) (owner : N) (id : BlobId) (u : Upload) (b : BlobStore) : BlobReply * BlobStore :=
  let '(reply, b) := commit_hold io owner id u b in
  match reply with
  | RepWritten _ _ true => (reply, evict_to_fit io (Some id) b)
  | _ => (reply, b)
  end.

(** [append] once it has the upload, ending with [finish] (the commit) when the last
    byte arrived. *)
Definition append_chunk (finish : Upload -> BlobStore -> BlobReply * BlobStore) (io : Io) (now owner : N) (id : BlobId)
    (total_size offset : N) (data : Bytes) (u : Upload) (b : BlobStore) : BlobReply * BlobStore :=
  if negb (up_total u =? total_size) then (RepFailed (TotalChanged (up_total u) total_size), abandon_slot owner id b)
  else if negb (offset =? up_received u) then (RepFailed (WrongOffset offset (up_received u)), abandon_slot owner id b)
  else
    match check_chunk_len (blen data) (total_size - up_received u) with
    | Err e => (RepFailed (BadChunk e), abandon_slot owner id b)
    | Ok _ =>
        if negb (io_write io) then (RepFailed CannotStore, abandon_slot owner id b)
        else
          let u := {| up_data := up_data u ++ data; up_received := up_received u + blen data; up_total := up_total u;
                      up_last_chunk := now |} in
          if up_received u <? total_size then
            match in_uploads (bs_inner b) !! (owner, id) with
            | Some (Writing _) =>
                (RepWritten id (up_received u) false,
                 with_inner (set_uploads (<[(owner, id) := Idle u]> (in_uploads (bs_inner b)))
                               (in_upload_bytes (bs_inner b)) (bs_inner b)) b)
            | _ => (RepFailed UploadAborted, b)
            end
          else finish u b
    end.

Definition new_upload (now total_size : N) : Upload :=
  {| up_data := []; up_received := 0; up_total := total_size; up_last_chunk := now |}.

Definition append_with (finish : Upload -> BlobStore -> BlobReply * BlobStore) (io : Io) (now owner : N) (id : BlobId)
    (total_size offset : N) (data : Bytes) (upload : option Upload) (b : BlobStore) : BlobReply * BlobStore :=
  match upload with
  | Some u => append_chunk finish io now owner id total_size offset data u b
  | None =>
      if io_create io then append_chunk finish io now owner id total_size offset data (new_upload now total_size) b
      else (RepFailed CannotStore, abandon_slot owner id b)
  end.

Definition append (io : Io) (now owner : N) (id : BlobId) (total_size offset : N) (data : Bytes) (upload : option Upload)
    (b : BlobStore) : BlobReply * BlobStore :=
  append_with (commit io owner id) io now owner id total_size offset data upload b.

(** A chunk's write with nobody in between. *)
Definition write_chunk (io : Io) (now owner : N) (id : BlobId) (total_size offset : N) (data : Bytes) (b : BlobStore)
    : BlobReply * BlobStore :=
  match write_begin owner id total_size offset b with
  | (BeginDone reply, b) => (reply, b)
  | (BeginWrite upload need_evict, b) =>
      let b := if need_evict then evict_to_fit io None b else b in
      append io now owner id total_size offset data upload b
  end.

Definition handle (io : Io) (now owner : N) (request : BlobRequest) (b : BlobStore) : BlobReply * BlobStore :=
  match request with
  | ReqMissing ids => missing ids b
  | ReqRead id offset max_len => read_chunk io id offset max_len b
  | ReqWrite id total_size offset data => write_chunk io now owner id total_size offset data b
  end.
End hash.

(** Removing several upload slots. *)
Definition drop_uploads (keys : list (N * BlobId)) (b : BlobStore) : BlobStore :=
  foldl (fun b key => abandon_slot key.1 key.2 b) b keys.

Definition abort_uploads (owner : N) (b : BlobStore) : BlobStore :=
  drop_uploads (filter (fun key => key.1 = owner) (map_to_list (in_uploads (bs_inner b))).*1) b.

Definition stale_upload (now : N) (s : UploadSlot) : bool :=
  match s with Idle u => STALE_UPLOAD_AFTER <? now - up_last_chunk u | Writing _ => false end.

Definition sweep_stale_uploads (now : N) (b : BlobStore) : BlobStore :=
  drop_uploads (List.filter (fun x => stale_upload now x.2) (map_to_list (in_uploads (bs_inner b)))).*1 b.

(** ** Pins *)

Definition count_up (id : BlobId) (m : gmap BlobId N) : gmap BlobId N := <[id := default 0 (m !! id) + 1]> m.
Definition count_down (id : BlobId) (m : gmap BlobId N) : gmap BlobId N :=
  match m !! id with
  | Some n => if n - 1 =? 0 then delete id m else <[id := n - 1]> m
  | None => m
  end.

Definition release_pins (ids : list BlobId) (i : Inner) : Inner :=
  set_pin_counts (foldl (fun m id => count_down id m) (in_pin_counts i) ids) i.
Definition add_pins (ids : list BlobId) (i : Inner) : Inner :=
  set_pin_counts (foldl (fun m id => count_up id m) (in_pin_counts i) ids) i.
Definition release_output_pins (ids : list BlobId) (i : Inner) : Inner :=
  release_pins ids
    (set_output_pins (in_output_pins i) (foldl (fun m id => count_down id m) (in_output_pin_counts i) ids) (in_output_pin_seq i) i).

Definition over_bound (b : BlobStore) : bool := bs_max_bytes b <? used_bytes (bs_inner b).
Definition evict_if_over (io : Io) (b : BlobStore) : BlobStore := if over_bound b then evict_to_fit io None b else b.

Definition pin_task (now : N) (tid : TaskId) (ids : list BlobId) (b : BlobStore) : list BlobId * BlobStore :=
  let i := bs_inner b in
  let gone := filter (fun id => in_entries i !! id = None) ids in
  let previous := in_pins i !! tid in
  let i := set_pins (<[tid := (now, ids)]> (in_pins i)) (add_pins ids i) in
  (gone, with_inner (match previous with Some (_, old) => release_pins old i | None => i end) b).

(** The locked section of [unpin_task]. *)
Definition unpin_hold (tid : TaskId) (b : BlobStore) : BlobStore :=
  let i := bs_inner b in
  match in_pins i !! tid with
  | Some (_, ids) => with_inner (release_pins ids (set_pins (delete tid (in_pins i)) i)) b
  | None => b
  end.

Definition unpin_task (io : Io) (tid : TaskId) (b : BlobStore) : BlobStore :=
  match in_pins (bs_inner b) !! tid with
  | Some _ => evict_if_over io (unpin_hold tid b)
  | None => b
  end.

Fixpoint touch_outputs (seen : list BlobId) (ids : list BlobId) (i : Inner) : list BlobId * list BlobId * Inner :=
  match ids with
  | [] => ([], [], i)
  | id :: ids =>
      if bool_decide (id ∈ seen) then touch_outputs seen ids i
      else
        let '(here, i) := touch id i in
        let '(unique, missing, i) := touch_outputs (id :: seen) ids i in
        (if here then (id :: unique, missing, i) else (unique, id :: missing, i))
  end.

(** The ids of the guard, or the missing ones. *)
Definition check_and_pin_outputs (ids : list BlobId) (b : BlobStore) : result (list BlobId) (list BlobId) * BlobStore :=
  let '(unique, missing, i) := touch_outputs [] ids (bs_inner b) in
  if is_empty missing then (Ok unique, with_inner (add_pins unique i) b) else (Err missing, with_inner i b).

(** [.filter(tid != task_id).min_by_key(entry.seq)]. *)
Definition oldest_other (tid : TaskId) (pins : gmap TaskId OutputPinEntry) : option TaskId :=
  fst <$> foldr (fun '(t, e) acc =>
    if bool_decide (t = tid) then acc
    else match acc with
         | Some (t', s') => if opn_seq e <=? s' then Some (t, opn_seq e) else acc
         | None => Some (t, opn_seq e)
         end) None (map_to_list pins).

Definition drop_output_pin (tid : TaskId) (i : Inner) : Inner :=
  match in_output_pins i !! tid with
  | Some e =>
      release_output_pins (opn_ids e) (set_output_pins (delete tid (in_output_pins i)) (in_output_pin_counts i) (in_output_pin_seq i) i)
  | None => i
  end.

(** The [while] of [commit_terminal]: every round drops one task's output pins. *)
Fixpoint release_oldest (fuel : nat) (max_bytes : N) (tid : TaskId) (i : Inner) : Inner :=
  match fuel with
  | O => i
  | S fuel =>
      if (1 <? size (in_output_pins i))%nat && (max_bytes <? output_pinned_bytes i) then
        match oldest_other tid (in_output_pins i) with
        | Some oldest => release_oldest fuel max_bytes tid (drop_output_pin oldest i)
        | None => i
        end
      else i
  end.

(** The locked section of [commit_terminal]. *)
Definition terminal_hold (now : N) (tid : TaskId) (ids : list BlobId) (b : BlobStore) : BlobStore :=
  let i := bs_inner b in
  let counts := foldl (fun m id => count_up id m) (in_output_pin_counts i) ids in
  let seq := in_output_pin_seq i + 1 in
  let previous := in_output_pins i !! tid in
  let i := set_output_pins (<[tid := {| opn_pinned_at := now; opn_seq := seq; opn_ids := ids |}]> (in_output_pins i)) counts seq i in
  let i := match previous with Some e => release_output_pins (opn_ids e) i | None => i end in
  with_inner (release_oldest (size (in_output_pins i)) (bs_max_bytes b) tid i) b.

Definition commit_terminal (io : Io) (now : N) (tid : TaskId) (ids : list BlobId) (b : BlobStore) : BlobStore :=
  if is_empty ids then b else evict_if_over io (terminal_hold now tid ids b).

(** [Drop for OutputPinGuard]. *)
Definition guard_drop (ids : list BlobId) (b : BlobStore) : BlobStore := with_inner (release_pins ids (bs_inner b)) b.

Definition expired_pins (now : N) (b : BlobStore) : list TaskId :=
  (List.filter (fun x => bs_output_pin_retention b <=? now - opn_pinned_at x.2) (map_to_list (in_output_pins (bs_inner b)))).*1.

(** The locked section of [sweep_expired_output_pins]. *)
Definition expire_hold (now : N) (b : BlobStore) : BlobStore :=
  with_inner (foldl (fun i tid => drop_output_pin tid i) (bs_inner b) (expired_pins now b)) b.

Definition sweep_expired_output_pins (io : Io) (now : N) (b : BlobStore) : BlobStore :=
  if is_empty (expired_pins now b) then b else evict_if_over io (expire_hold now b).

(** ** Admission of task inputs *)

Inductive AdmitError :=
| InputSizeDiffers (path : Str) (stored announced : N)
| InputMissing (path : Str)
| ReadTooLarge (size limit : N)
| ReadMissing
| ReadIo
| InputManifest (path : Str) (e : ManifestError).

Definition check_present (id : BlobId) (size : N) (path : Str) (b : BlobStore) : result AdmitError unit :=
  match size_of id b with
  | Some stored => if stored =? size then Ok tt else Err (InputSizeDiffers path stored size)
  | None => Err (InputMissing path)
  end.

Definition read_all_blob (io : Io) (id : BlobId) (limit : N) (b : BlobStore) : result AdmitError Bytes :=
  match size_of id b with
  | None => Err ReadMissing
  | Some size =>
      if limit <? size then Err (ReadTooLarge size limit)
      else match bs_objects b !! id with
           | Some data => if io_read io then Ok data else Err ReadIo
           | None => Err ReadIo
           end
  end.

Section inputs.
Context `{ManifestCodec}.

Fixpoint check_files (base : Str) (files : list BlobFile) (b : BlobStore) : result AdmitError (list BlobId) :=
  match files with
  | [] => Ok []
  | f :: fs =>
      check check_present (bf_id f) (bf_size f) (join_blob_path base (bf_path f)) b;
      ids <-? check_files base fs b;
      Ok (bf_id f :: ids)
  end.

Fixpoint collect_inputs (io : Io) (inputs : list TaskInput) (b : BlobStore) : result AdmitError (list BlobId) :=
  match inputs with
  | [] => Ok []
  | input :: inputs =>
      ids <-? match ti_source input with
        | InputFile id size _ => check check_present id size (ti_path input) b; Ok [id]
        | InputTree manifest manifest_size =>
            check check_present manifest manifest_size (ti_path input) b;
            bytes <-? read_all_blob io manifest MAX_MANIFEST_BYTES b;
            tree <-? map_err (InputManifest (ti_path input)) (manifest_decode bytes);
            files <-? check_files (ti_path input) tree b;
            Ok (manifest :: files)
        end;
      rest <-? collect_inputs io inputs b;
      Ok (ids ++ rest)
  end.

(** [ids.sort(); ids.dedup()]. *)
Fixpoint insert_sorted_id (id : BlobId) (l : list BlobId) : list BlobId :=
  match l with
  | [] => [id]
  | x :: l' => match str_cmp id x with Lt => id :: l | Eq => l | Gt => x :: insert_sorted_id id l' end
  end.

Definition resolve_inputs (io : Io) (inputs : list TaskInput) (b : BlobStore) : result AdmitError (list BlobId) :=
  ids <-? collect_inputs io inputs b; Ok (foldr insert_sorted_id [] ids).
End inputs.
