(* ===== verification/BlobStoreInv.v ===== *)
(** * BlobStoreInv: what every lock hold of the blob store keeps

    The methods of the store run on many connections at once and take the lock
    several times each; [store_hold] is one lock hold.  [store_inv] is the invariant
    between holds:
    - the index: the recency list is ordered by tick and lists exactly the stored
      blobs, and the byte total is the sum of their sizes;
    - the uploads: the reserved bytes are the sum of the announced sizes and within
      the bound, and a parked upload holds the bytes it says it received;
    - the pins: every count is the number of pins of that blob held by tasks, by
      terminal outputs and by live guards;
    - the disk: every object hashes to its name, and every stored blob has its file. *)

From S2P Require Import Prelude Collections RustStr Capabilities Placement Blob Task Queue BlobTransfer BlobStore.
Local Open Scope N_scope.
Local Open Scope result_scope.

Lemma blen_app (x y : Bytes) : blen (x ++ y) = blen x + blen y.
Proof. unfold blen. rewrite length_app. lia. Qed.

(** ** The index *)

Definition lru_sorted (l : list (N * BlobId)) : Prop := StronglySorted (fun x y => x.1 < y.1) l.

Record index_ok (i : Inner) : Prop := {
  ix_sorted : lru_sorted (in_lru i);
  ix_lru : forall t id, (t, id) ∈ in_lru i <-> exists e, in_entries i !! id = Some e /\ be_tick e = t;
  ix_tick : forall id e, in_entries i !! id = Some e -> be_tick e <= in_tick i;
  ix_total : in_total_bytes i = map_sum be_size (in_entries i)
}.

Lemma elem_of_lru_remove t l x : x ∈ lru_remove t l <-> x.1 <> t /\ x ∈ l.
Proof.
  unfold lru_remove. rewrite list_elem_of_In, filter_In, <-list_elem_of_In.
  destruct (N.eqb_spec x.1 t); simpl; naive_solver.
Qed.

Lemma lru_remove_sorted t l : lru_sorted l -> lru_sorted (lru_remove t l).
Proof.
  unfold lru_sorted. induction 1 as [|x l Hs IH Hall]; simpl; [constructor|].
  destruct (negb _); [|done]. constructor; [done|].
  rewrite Forall_forall in *. intros y [_ Hy]%elem_of_lru_remove. auto.
Qed.

Lemma lru_tick_inj t id id' l : lru_sorted l -> (t, id) ∈ l -> (t, id') ∈ l -> id = id'.
Proof.
  unfold lru_sorted. induction 1 as [|x l Hs IH Hall]; [set_solver|].
  rewrite Forall_forall in Hall. rewrite !elem_of_cons. intros [<-|H1] [H2|H2].
  - congruence.
  - specialize (Hall _ H2). simpl in Hall. lia.
  - subst x. specialize (Hall _ H1). simpl in Hall. lia.
  - auto.
Qed.

(** Ticks only grow, so a touched blob goes to the end. *)
Lemma lru_insert_fresh t id l : Forall (fun x => x.1 < t) l -> lru_insert t id l = l ++ [(t, id)].
Proof.
  induction 1 as [|[t' id'] l Hx Hl IH]; simpl in *; [done|].
  rewrite (proj2 (N.ltb_ge t t')), (proj2 (N.eqb_neq t t')) by lia. by rewrite IH.
Qed.

Lemma lru_snoc_sorted t id l : lru_sorted l -> Forall (fun x => x.1 < t) l -> lru_sorted (l ++ [(t, id)]).
Proof.
  unfold lru_sorted. induction 1 as [|x l Hs IH Hall]; intros Ht; simpl; [repeat constructor|].
  apply Forall_cons in Ht as [Hx Ht]. constructor; [auto|]. apply Forall_app_2; [done|by repeat constructor].
Qed.

Lemma ix_tick_inj i id id' e e' :
  index_ok i -> in_entries i !! id = Some e -> in_entries i !! id' = Some e' -> be_tick e = be_tick e' -> id = id'.
Proof.
  intros Hi He He' Ht. eapply lru_tick_inj; [apply Hi|apply (ix_lru i Hi)..]; eauto.
Qed.

Lemma ix_lru_below i : index_ok i -> Forall (fun x => x.1 <= in_tick i) (in_lru i).
Proof.
  intros Hi. apply Forall_forall. intros [t id] (e & He & <-)%(ix_lru i Hi). simpl. by eapply ix_tick.
Qed.

(** Giving a blob the next tick, whatever its entry becomes otherwise. *)
Lemma index_ok_stamp i id e old total :
  index_ok i ->
  match old with Some o => in_entries i !! id = Some o | None => in_entries i !! id = None end ->
  be_tick e = in_tick i + 1 ->
  total = map_sum be_size (<[id := e]> (in_entries i)) ->
  index_ok (set_index (<[id := e]> (in_entries i))
              (lru_insert (in_tick i + 1) id (match old with Some o => lru_remove (be_tick o) (in_lru i) | None => in_lru i end))
              (in_tick i + 1) total i).
Proof.
  intros Hi Hold Ht Htot. set (l := match old with Some _ => _ | None => _ end).
  assert (Hsub : forall x, x ∈ l -> x ∈ in_lru i).
  { intros x. subst l. destruct old; [|done]. by intros [_ ?]%elem_of_lru_remove. }
  assert (Hl : forall t id', (t, id') ∈ l <-> id' <> id /\ (t, id') ∈ in_lru i).
  { intros t id'. subst l. destruct old as [o|].
    - rewrite elem_of_lru_remove, (ix_lru i Hi). simpl. split; intros [Hne (e' & He' & Hte)]; (split; [|eauto]).
      + intros ->. rewrite Hold in He'. congruence.
      + intros Heq. apply Hne. eapply (ix_tick_inj i); [done..|congruence].
    - split; [|tauto]. intros Hin. split; [|done]. intros ->.
      apply (ix_lru i Hi) in Hin as (e' & He' & _). congruence. }
  assert (Hlt : Forall (fun x => x.1 < in_tick i + 1) l).
  { apply Forall_forall. intros x Hx%Hsub. pose proof (ix_lru_below i Hi) as Hb.
    rewrite Forall_forall in Hb. specialize (Hb _ Hx). simpl in Hb. lia. }
  rewrite lru_insert_fresh by done. split; simpl.
  - apply lru_snoc_sorted; [|done]. subst l. destruct old; [apply lru_remove_sorted|]; apply Hi.
  - intros t id'. rewrite elem_of_app, list_elem_of_singleton, Hl, (ix_lru i Hi). split.
    + intros [(Hne & e' & He' & Hte)|[= -> ->]]; [exists e'|exists e]; by simplify_map_eq.
    + intros (e' & He' & Hte). destruct (decide (id' = id)) as [->|Hne]; simplify_map_eq; [right; congruence|left; eauto].
  - intros id' e' He'. destruct (decide (id' = id)) as [->|Hne]; simplify_map_eq; [lia|].
    apply (ix_tick i Hi) in He'. lia.
  - done.
Qed.

Lemma touch_spec id i :
  touch id i =
    match in_entries i !! id with
    | Some e => (true, set_index (<[id := {| be_size := be_size e; be_tick := in_tick i + 1 |}]> (in_entries i))
                   (lru_insert (in_tick i + 1) id (lru_remove (be_tick e) (in_lru i))) (in_tick i + 1) (in_total_bytes i) i)
    | None => (false, set_index (in_entries i) (in_lru i) (in_tick i + 1) (in_total_bytes i) i)
    end.
Proof. done. Qed.

Lemma touch_index id i : index_ok i -> index_ok (touch id i).2.
Proof.
  intros Hi. unfold touch. destruct (in_entries i !! id) as [e|] eqn:He; simpl.
  - apply (index_ok_stamp i id _ (Some e)); [done..|]. rewrite (ix_total i Hi).
    pose proof (map_sum_insert_Some be_size (in_entries i) id e {| be_size := be_size e; be_tick := in_tick i + 1 |} He) as H.
    simpl in H. lia.
  - split; simpl; [apply Hi..| |apply Hi]. intros id' e' He'. apply (ix_tick i Hi) in He'. lia.
Qed.

Lemma index_insert_index id size i : index_ok i -> index_ok (index_insert id size i).
Proof.
  intros Hi. unfold index_insert. case_bool_decide as Hin; [by apply touch_index|].
  assert (He : in_entries i !! id = None) by (destruct (in_entries i !! id) eqn:E; [exfalso; eauto|done]).
  apply (index_ok_stamp i id _ None); [done..|]. rewrite map_sum_insert by done. rewrite (ix_total i Hi). simpl. lia.
Qed.

Lemma index_remove_index id i : index_ok i -> index_ok (index_remove id i).2.
Proof.
  intros Hi. unfold index_remove. destruct (in_entries i !! id) as [e|] eqn:He; [|done]. split; simpl.
  - apply lru_remove_sorted, Hi.
  - intros t id'. rewrite elem_of_lru_remove. simpl. split.
    + intros [Hne (e' & He' & Hte)%(ix_lru i Hi)]. exists e'. split; [|done].
      rewrite lookup_delete_ne; [done|]. intros ->. congruence.
    + intros (e' & He' & Hte). apply lookup_delete_Some in He' as [Hne He'].
      split; [|apply (ix_lru i Hi); eauto]. intros Heq. apply Hne.
      eapply (ix_tick_inj i); [done..|congruence].
  - intros id' e' [_ He']%lookup_delete_Some. by eapply ix_tick.
  - rewrite (ix_total i Hi), (map_sum_delete be_size (in_entries i) id e He). lia.
Qed.

(** ** Removing victims *)

Lemma elem_of_pick i keep room excess l id :
  id ∈ pick_victims i keep room excess l -> id ∈ l.*2 /\ in_pin_counts i !! id = None /\ keep <> Some id.
Proof.
  revert room excess. induction l as [|[t id'] l IH]; intros room excess; simpl; [set_solver|].
  destruct room as [|room]; [set_solver|]. destruct (excess =? 0); [set_solver|].
  destruct (bool_decide _ || bool_decide _) eqn:Hb.
  - intros (? & ? & ?)%IH. set_solver.
  - apply orb_false_iff in Hb as [Hp%bool_decide_eq_false Hk%bool_decide_eq_false].
    rewrite elem_of_cons. intros [->|(? & ? & ?)%IH]; [|set_solver].
    split; [set_solver|]. split; [|done]. destruct (in_pin_counts i !! id') eqn:E; [exfalso; eauto|done].
Qed.

Lemma remove_all_index ids i : index_ok i -> index_ok (remove_all ids i).
Proof. unfold remove_all. revert i. induction ids as [|id ids IH]; intros i Hi; simpl; [done|]. by apply IH, index_remove_index. Qed.

Lemma index_remove_entries id i : in_entries (index_remove id i).2 = delete id (in_entries i).
Proof. unfold index_remove. destruct (in_entries i !! id) eqn:He; simpl; [done|]. by rewrite delete_id. Qed.

Lemma foldl_delete_lookup {A} (ids : list BlobId) (m : gmap BlobId A) id :
  foldl (fun m id => delete id m) m ids !! id = if decide (id ∈ ids) then None else m !! id.
Proof.
  revert m. induction ids as [|id' ids IH]; intros m; cbn [foldl]; [by rewrite decide_False by set_solver|].
  rewrite IH. destruct (decide (id = id')) as [->|Hne].
  - rewrite lookup_delete_eq, (decide_True (P := id' ∈ id' :: ids)) by set_solver. by destruct (decide _).
  - rewrite lookup_delete_ne by done. repeat destruct (decide _); set_solver.
Qed.

Lemma remove_all_entries ids i : in_entries (remove_all ids i) = foldl (fun m id => delete id m) (in_entries i) ids.
Proof. unfold remove_all. revert i. induction ids as [|id ids IH]; intros i; simpl; [done|]. by rewrite IH, index_remove_entries. Qed.

(** Whatever else the index holds is left as it is. *)
Definition same_rest (i i' : Inner) : Prop :=
  in_upload_bytes i' = in_upload_bytes i /\ in_pins i' = in_pins i /\ in_output_pins i' = in_output_pins i /\
  in_output_pin_counts i' = in_output_pin_counts i /\ in_output_pin_seq i' = in_output_pin_seq i /\
  in_pin_counts i' = in_pin_counts i /\ in_uploads i' = in_uploads i.

#[global] Instance same_rest_preorder : PreOrder same_rest.
Proof. split; [by repeat split|]. intros i1 i2 i3. unfold same_rest. naive_solver congruence. Qed.

Lemma same_rest_index entries lru tick total i : same_rest i (set_index entries lru tick total i).
Proof. by repeat split. Qed.
Lemma same_rest_touch id i : same_rest i (touch id i).2.
Proof. unfold touch. by case_match. Qed.
Lemma same_rest_insert id size i : same_rest i (index_insert id size i).
Proof. unfold index_insert. case_bool_decide; [apply same_rest_touch|apply same_rest_index]. Qed.
Lemma same_rest_remove id i : same_rest i (index_remove id i).2.
Proof. unfold index_remove. by case_match. Qed.
Lemma same_rest_remove_all ids i : same_rest i (remove_all ids i).
Proof.
  unfold remove_all. revert i. induction ids as [|id ids IH]; intros i; simpl; [done|].
  etrans; [apply same_rest_remove|apply IH].
Qed.

(** Touching changes ticks only. *)
Lemma touch_sizes id i : be_size <$> in_entries (touch id i).2 = be_size <$> in_entries i.
Proof.
  unfold touch. destruct (in_entries i !! id) as [e|] eqn:He; simpl; [|done].
  rewrite fmap_insert. simpl. apply insert_id. by rewrite lookup_fmap, He.
Qed.

Lemma size_lookup i i' id :
  be_size <$> in_entries i' = be_size <$> in_entries i -> be_size <$> in_entries i' !! id = be_size <$> in_entries i !! id.
Proof. intros Heq. by rewrite <-!lookup_fmap, Heq. Qed.

Lemma size_present i i' id :
  be_size <$> in_entries i' = be_size <$> in_entries i -> is_Some (in_entries i' !! id) <-> is_Some (in_entries i !! id).
Proof.
  intros Heq%(size_lookup _ _ id). rewrite <-(fmap_is_Some be_size (in_entries i' !! id)), Heq. by rewrite fmap_is_Some.
Qed.

(** ** Counting pins *)

Fixpoint occ (id : BlobId) (l : list BlobId) : N :=
  match l with [] => 0 | x :: l => (if bool_decide (x = id) then 1 else 0) + occ id l end.

(** A table holds a positive count for exactly the blobs counted. *)
Definition counts_are (m : gmap BlobId N) (f : BlobId -> N) : Prop :=
  forall id, m !! id = if f id =? 0 then None else Some (f id).

Lemma counts_are_ext m f g : (forall id, f id = g id) -> counts_are m f -> counts_are m g.
Proof. intros Hfg Hm id. by rewrite Hm, Hfg. Qed.

Lemma counts_up ids m f : counts_are m f -> counts_are (foldl (fun m id => count_up id m) m ids) (fun id => f id + occ id ids).
Proof.
  revert m f. induction ids as [|x ids IH]; intros m f Hm; cbn [foldl occ].
  - eapply counts_are_ext; [|exact Hm]. intros; simpl; lia.
  - eapply (counts_are_ext _ (fun id => (f id + if bool_decide (x = id) then 1 else 0) + occ id ids)); [intros; lia|].
    apply IH. intros id. unfold count_up. case_bool_decide as Hx.
    + subst id. rewrite lookup_insert_eq, (Hm x). destruct (N.eqb_spec (f x) 0), (N.eqb_spec (f x + 1) 0); simpl; f_equal; lia.
    + rewrite lookup_insert_ne by done. rewrite (Hm id), N.add_0_r. done.
Qed.

Lemma counts_down ids m f :
  (forall id, occ id ids <= f id) -> counts_are m f ->
  counts_are (foldl (fun m id => count_down id m) m ids) (fun id => f id - occ id ids).
Proof.
  revert m f. induction ids as [|x ids IH]; intros m f Hle Hm; cbn [foldl occ].
  - eapply counts_are_ext; [|exact Hm]. intros; simpl; lia.
  - eapply (counts_are_ext _ (fun id => (f id - if bool_decide (x = id) then 1 else 0) - occ id ids)); [intros; lia|].
    apply IH; [intros id; specialize (Hle id); cbn [occ] in Hle; lia|].
    intros id. unfold count_down. specialize (Hle id). cbn [occ] in Hle. case_bool_decide as Hx.
    + subst id. rewrite (Hm x). destruct (N.eqb_spec (f x) 0); [lia|].
      destruct (N.eqb_spec (f x - 1) 0); simplify_map_eq; done.
    + rewrite N.sub_0_r. destruct (m !! x) as [n|] eqn:E; [|apply Hm].
      destruct (n - 1 =? 0); simplify_map_eq; apply Hm.
Qed.

Lemma occ_app id l k : occ id (l ++ k) = occ id l + occ id k.
Proof. induction l as [|x l IH]; simpl; [done|]. rewrite IH. lia. Qed.

Lemma occ_concat_delete id (g : list (list BlobId)) n ids :
  g !! n = Some ids -> occ id (concat g) = occ id ids + occ id (concat (delete n g)).
Proof.
  revert n. induction g as [|x g IH]; intros [|n] Hn; simplify_eq/=; rewrite ?occ_app; [done|].
  rewrite (IH n Hn). lia.
Qed.

Lemma occ_pos id l : id ∈ l -> 0 < occ id l.
Proof. induction 1 as [x l|x y l Hx IH]; simpl; [rewrite bool_decide_true by done|case_bool_decide]; lia. Qed.

(** ** The invariant *)

Definition uploads_ok (max_bytes : N) (uploads : gmap (N * BlobId) UploadSlot) (bytes : N) : Prop :=
  bytes = map_sum slot_total uploads /\ bytes <= max_bytes.

(** A parked upload: the hasher and the file saw exactly the bytes received. *)
Definition upload_ok (u : Upload) : Prop := up_received u = blen (up_data u) /\ up_received u < up_total u.
Definition parked_ok (uploads : gmap (N * BlobId) UploadSlot) : Prop :=
  forall key u, uploads !! key = Some (Idle u) -> upload_ok u.

Definition output_pins_of (outputs : gmap TaskId OutputPinEntry) (id : BlobId) : N :=
  map_sum (fun e => occ id (opn_ids e)) outputs.
Definition pins_of (pins : gmap TaskId (N * list BlobId)) (outputs : gmap TaskId OutputPinEntry) (guards : list (list BlobId))
    (id : BlobId) : N :=
  map_sum (fun p => occ id p.2) pins + output_pins_of outputs id + occ id (concat guards).

Section invariant.
Context `{BlobHash}.

Definition disk_ok (entries : gmap BlobId BlobEntry) (objects : gmap BlobId Bytes) : Prop :=
  (forall id file, objects !! id = Some file -> blob_of file = id) /\
  (forall id, is_Some (entries !! id) -> is_Some (objects !! id)).

Record store_inv (b : BlobStore) (guards : list (list BlobId)) : Prop := {
  si_index : index_ok (bs_inner b);
  si_max : bs_max_bytes b < u64_max;
  si_uploads : uploads_ok (bs_max_bytes b) (in_uploads (bs_inner b)) (in_upload_bytes (bs_inner b));
  si_parked : parked_ok (in_uploads (bs_inner b));
  si_pins : counts_are (in_pin_counts (bs_inner b)) (pins_of (in_pins (bs_inner b)) (in_output_pins (bs_inner b)) guards);
  si_outputs : counts_are (in_output_pin_counts (bs_inner b)) (output_pins_of (in_output_pins (bs_inner b)));
  si_disk : disk_ok (in_entries (bs_inner b)) (bs_objects b)
}.

(** ** Lock holds *)

(** What happens while the lock is held once, with the file operations made then. *)
Inductive StoreHold :=
| HTouch (id : BlobId)
| HVanish (id : BlobId)
| HMissing (ids : list BlobId)
| HBegin (owner : N) (id : BlobId) (total_size offset : N)
| HEvict (io : Io) (keep : option BlobId)
| HAppend (io : Io) (now owner : N) (id : BlobId) (total_size offset : N) (data : Bytes) (upload : option Upload)
| HAbandon (owner : N) (id : BlobId)
| HAbort (owner : N)
| HSweep (now : N)
| HPin (now : N) (tid : TaskId) (ids : list BlobId)
| HUnpin (tid : TaskId)
| HCheck (ids : list BlobId)
| HTerminal (now : N) (tid : TaskId) (guard : nat)
| HDrop (guard : nat)
| HExpire (now : N).

(** The store and the ids of the live [OutputPinGuard]s. *)
Definition StoreState : Type := BlobStore * list (list BlobId).

Definition run_hold (h : StoreHold) (s : StoreState) : StoreState :=
  let '(b, g) := s in
  match h with
  | HTouch id => (with_inner (touch id (bs_inner b)).2 b, g)
  | HVanish id => (with_inner (index_remove id (bs_inner b)).2 b, g)
  | HMissing ids => ((missing_ids ids b).2, g)
  | HBegin owner id total_size offset => ((write_begin owner id total_size offset b).2, g)
  | HEvict io keep => (match evict_batch io keep b with Some (_, b) => b | None => b end, g)
  | HAppend io now owner id total_size offset data upload =>
      ((append_with (commit_hold io owner id) io now owner id total_size offset data upload b).2, g)
  | HAbandon owner id => (abandon_slot owner id b, g)
  | HAbort owner => (abort_uploads owner b, g)
  | HSweep now => (sweep_stale_uploads now b, g)
  | HPin now tid ids => ((pin_task now tid ids b).2, g)
  | HUnpin tid => (unpin_hold tid b, g)
  | HCheck ids =>
      match check_and_pin_outputs ids b with
      | (Ok unique, b) => (b, unique :: g)
      | (Err _, b) => (b, g)
      end
  | HTerminal now tid n =>
      match g !! n with
      | Some ids => (if is_empty ids then b else terminal_hold now tid ids b, delete n g)
      | None => (b, g)
      end
  | HDrop n =>
      match g !! n with
      | Some ids => (guard_drop ids b, delete n g)
      | None => (b, g)
      end
  | HExpire now => (expire_hold now b, g)
  end.

(** An append goes on with the upload its [write_begin] took out of the table, and if
    the table still has the slot, it is the one reserved for that upload: the requests of one
    connection are answered one after the other, so no other append of the same owner comes
    between. *)
Definition hold_ok (h : StoreHold) (s : StoreState) : Prop :=
  match h with
  | HAppend _ _ owner id total_size _ _ upload =>
      (forall u, upload = Some u -> upload_ok u) /\
      (forall t, in_uploads (bs_inner s.1) !! (owner, id) = Some (Writing t) -> t = from_option up_total total_size upload)
  | _ => True
  end.

(** ** Every hold keeps the invariant *)

Definition rest_inv (b : BlobStore) (g : list (list BlobId)) (i : Inner) : Prop :=
  uploads_ok (bs_max_bytes b) (in_uploads i) (in_upload_bytes i) /\ parked_ok (in_uploads i) /\
  counts_are (in_pin_counts i) (pins_of (in_pins i) (in_output_pins i) g) /\
  counts_are (in_output_pin_counts i) (output_pins_of (in_output_pins i)).

Lemma rest_inv_same b g i i' : same_rest i i' -> rest_inv b g i -> rest_inv b g i'.
Proof. unfold rest_inv. by intros (-> & -> & -> & -> & _ & -> & ->). Qed.

Lemma store_inv_rest b g : store_inv b g -> rest_inv b g (bs_inner b).
Proof. intros []. unfold rest_inv. auto. Qed.

(** A hold that works on the index and the disk. *)
Lemma store_inv_index b g i objects :
  store_inv b g -> index_ok i -> same_rest (bs_inner b) i -> disk_ok (in_entries i) objects -> store_inv (with_disk i objects b) g.
Proof.
  intros Hs Hi Hr Hd. apply (rest_inv_same b g) in Hr as (? & ? & ? & ?); [|by apply store_inv_rest].
  split; simpl; try done. apply Hs.
Qed.

(** A hold that leaves the index and the disk. *)
Lemma store_inv_inner b g g' i :
  store_inv b g -> in_entries i = in_entries (bs_inner b) -> index_ok i -> rest_inv b g' i -> store_inv (with_inner i b) g'.
Proof.
  intros Hs He Hi (? & ? & ? & ?). split; simpl; try done; [apply Hs|]. rewrite He. apply Hs.
Qed.

Lemma disk_ok_sizes i i' objects :
  be_size <$> in_entries i' = be_size <$> in_entries i -> disk_ok (in_entries i) objects -> disk_ok (in_entries i') objects.
Proof. intros Heq [Ho Hf]. split; [done|]. intros id Hid. apply Hf. by apply (size_present _ _ id Heq). Qed.

Lemma with_inner_disk i b : with_inner i b = with_disk i (bs_objects b) b.
Proof. done. Qed.

Lemma touch_inv id b g : store_inv b g -> store_inv (with_inner (touch id (bs_inner b)).2 b) g.
Proof.
  intros Hs. rewrite with_inner_disk. apply store_inv_index; [done|apply touch_index, Hs|apply same_rest_touch|].
  eapply disk_ok_sizes; [apply touch_sizes|apply Hs].
Qed.

Lemma vanish_inv id b g : store_inv b g -> store_inv (with_inner (index_remove id (bs_inner b)).2 b) g.
Proof.
  intros Hs. rewrite with_inner_disk. apply store_inv_index; [done|apply index_remove_index, Hs|apply same_rest_remove|].
  destruct (si_disk b g Hs) as [Ho Hf]. split; [done|]. intros id'. rewrite index_remove_entries.
  intros [e [_ He]%lookup_delete_Some]. eauto.
Qed.

Lemma missing_loop_frame seen ids i :
  let i' := (missing_ids_loop seen ids i).2 in
  (index_ok i -> index_ok i') /\ same_rest i i' /\ be_size <$> in_entries i' = be_size <$> in_entries i.
Proof.
  revert seen i. induction ids as [|id ids IH]; intros seen i; simpl; [done|].
  case_bool_decide; [apply IH|]. specialize (IH (id :: seen) (touch id i).2).
  pose proof (touch_index id i). pose proof (same_rest_touch id i) as Hr. pose proof (touch_sizes id i) as Hz.
  destruct (touch id i) as [here i1]. simpl in *. destruct (missing_ids_loop _ ids i1) as [rest i2]. simpl in *.
  destruct IH as (? & ? & ?). split; [tauto|]. split; [by etrans|congruence].
Qed.

Lemma missing_inv ids b g : store_inv b g -> store_inv (missing_ids ids b).2 g.
Proof.
  intros Hs. unfold missing_ids. destruct (missing_loop_frame [] ids (bs_inner b)) as (Hi & Hr & Hz).
  destruct (missing_ids_loop _ _ _) as [out i]. simpl in *. rewrite with_inner_disk.
  apply store_inv_index; [done|apply Hi, Hs|done|]. eapply disk_ok_sizes; [done|apply Hs].
Qed.

Lemma remove_all_disk io victims i objects :
  disk_ok (in_entries i) objects ->
  disk_ok (in_entries (remove_all victims i)) (if io_delete io then foldl (fun m id => delete id m) objects victims else objects).
Proof.
  intros [Ho Hf]. split.
  - intros id file. destruct (io_delete io); [|apply Ho]. rewrite foldl_delete_lookup. case_decide; [done|]. apply Ho.
  - intros id. rewrite remove_all_entries, foldl_delete_lookup. case_decide; [by intros []|]. intros Hid%Hf.
    destruct (io_delete io); [|done]. rewrite foldl_delete_lookup. by case_decide.
Qed.

Lemma evict_inv io keep b g : store_inv b g -> store_inv (match evict_batch io keep b with Some (_, b) => b | None => b end) g.
Proof.
  intros Hs. unfold evict_batch. destruct (_ =? 0); [done|]. set (victims := pick_victims _ _ _ _ _).
  destruct (is_empty victims); [done|].
  apply store_inv_index; [done|apply remove_all_index, Hs|apply same_rest_remove_all|apply remove_all_disk, Hs].
Qed.

(** *** Uploads *)

(** A hold that works on the upload table. *)
Lemma store_inv_uploads b g uploads bytes :
  store_inv b g -> uploads_ok (bs_max_bytes b) uploads bytes -> parked_ok uploads ->
  store_inv (with_inner (set_uploads uploads bytes (bs_inner b)) b) g.
Proof. intros [[]] ??. split; simpl; try done. Qed.

Lemma uploads_ok_delete max uploads bytes key slot :
  uploads !! key = Some slot -> uploads_ok max uploads bytes -> uploads_ok max (delete key uploads) (bytes - slot_total slot).
Proof. intros Hk [-> Hle]. rewrite (map_sum_delete slot_total uploads key slot Hk) in *. split; lia. Qed.

Lemma parked_ok_delete uploads key : parked_ok uploads -> parked_ok (delete key uploads).
Proof. intros Hp k u [_ Hu]%lookup_delete_Some. eauto. Qed.

Lemma parked_ok_writing uploads key t : parked_ok uploads -> parked_ok (<[key := Writing t]> uploads).
Proof. intros Hp k u [[_ [=]]|[_ Hu]]%lookup_insert_Some. eauto. Qed.

Lemma abandon_inv owner id b g : store_inv b g -> store_inv (abandon_slot owner id b) g.
Proof.
  intros Hs. unfold abandon_slot. destruct (in_uploads _ !! _) as [slot|] eqn:Hk; [|done].
  apply store_inv_uploads; [done|by eapply uploads_ok_delete, Hs|by apply parked_ok_delete, Hs].
Qed.

Lemma drop_uploads_inv keys b g : store_inv b g -> store_inv (drop_uploads keys b) g.
Proof. unfold drop_uploads. revert b. induction keys; intros b Hs; simpl; [done|]. by apply IHkeys, abandon_inv. Qed.

Lemma reserve_inv owner id total b g :
  store_inv b g -> in_uploads (bs_inner b) !! (owner, id) = None ->
  store_inv (with_inner (reserve_upload owner id total (bs_max_bytes b) (bs_inner b)).2 b) g.
Proof.
  intros Hs Hk. unfold reserve_upload.
  destruct (N.ltb_spec (bs_max_bytes b) (saturating_add u64_max (in_upload_bytes (bs_inner b)) total)) as [|Hle]; simpl.
  - by destruct b, Hs.
  - destruct (si_uploads b g Hs) as [Hsum _]. pose proof (si_max b g Hs) as Hmax.
    apply store_inv_uploads; [done| |by apply parked_ok_writing, Hs].
    split; [|done]. rewrite map_sum_insert by done. simpl. rewrite <-Hsum. unfold saturating_add in *. lia.
Qed.

Lemma begin_inv owner id total offset b g : store_inv b g -> store_inv (write_begin owner id total offset b).2 g.
Proof.
  intros Hs. unfold write_begin. destruct (_ <? total); [done|].
  pose proof (touch_inv id b g Hs) as Ht. pose proof (same_rest_touch id (bs_inner b)) as Hr.
  destruct (touch id (bs_inner b)) as [here i]. simpl in *. set (b1 := with_inner i b) in *.
  destruct here; [by apply abandon_inv|].
  assert (Hres : forall b2, bs_max_bytes b2 = bs_max_bytes b -> bs_objects b2 = bs_objects b ->
    bs_output_pin_retention b2 = bs_output_pin_retention b -> store_inv b2 g ->
    in_uploads (bs_inner b2) !! (owner, id) = None ->
    store_inv (let '(o, i) := reserve_upload owner id total (bs_max_bytes b) (bs_inner b2) in (o, with_inner i b)).2 g).
  { intros b2 Hm Ho Hret Hs2 Hk2. pose proof (reserve_inv owner id total b2 g Hs2 Hk2) as Hinv. rewrite Hm in Hinv.
    destruct (reserve_upload _ _ _ _ _) as [o i2]. simpl in *. unfold with_inner in *. by rewrite Hm, Ho, Hret in Hinv. }
  destruct (in_uploads i !! (owner, id)) as [[u|t]|] eqn:Hk.
  - destruct (negb (offset =? 0)); simpl.
    + change (store_inv (with_inner (set_uploads (<[(owner, id) := Writing (up_total u)]> (in_uploads (bs_inner b1)))
                                       (in_upload_bytes (bs_inner b1)) (bs_inner b1)) b1) g).
      apply store_inv_uploads; [done| |by apply parked_ok_writing, Ht].
      destruct (si_uploads b1 g Ht) as [Hsum Hle]. split; [|done].
      pose proof (map_sum_insert_Some slot_total (in_uploads (bs_inner b1)) (owner, id) _ (Writing (up_total u)) Hk) as H'. simpl in *. lia.
    + apply (Hres (with_inner (set_uploads (delete (owner, id) (in_uploads i)) (in_upload_bytes i - up_total u) i) b)); try done.
      * change (store_inv (with_inner (set_uploads (delete (owner, id) (in_uploads (bs_inner b1)))
                                         (in_upload_bytes (bs_inner b1) - slot_total (Idle u)) (bs_inner b1)) b1) g).
        apply store_inv_uploads; [done|by apply uploads_ok_delete, Ht|by apply parked_ok_delete, Ht].
      * simpl. apply lookup_delete_eq.
  - done.
  - destruct (offset =? 0); [|done]. by apply (Hres b1).
Qed.

Lemma insert_disk id u b g :
  store_inv b g -> blob_of (up_data u) = id -> forall io,
  (io_rename io = false -> is_Some (bs_objects b !! id)) ->
  disk_ok (in_entries (index_insert id (up_total u) (bs_inner b)))
    (if io_rename io then <[id := up_data u]> (bs_objects b) else bs_objects b).
Proof.
  intros Hs Hid io Hr. destruct (si_disk b g Hs) as [Ho Hf]. split.
  - intros id' file. destruct (io_rename io); [|apply Ho].
    intros [[<- <-]|[_ ?]]%lookup_insert_Some; eauto.
  - intros id' Hin. destruct (decide (id' = id)) as [->|Hne].
    + destruct (io_rename io); [rewrite lookup_insert_eq; eauto|auto].
    + assert (is_Some (bs_objects b !! id')).
      { apply Hf. unfold index_insert in Hin. case_bool_decide; simpl in Hin; [|by rewrite lookup_insert_ne in Hin].
        by apply (size_present _ _ id' (touch_sizes id (bs_inner b))). }
      destruct (io_rename io); [|done]. by rewrite lookup_insert_ne.
Qed.

Lemma commit_inv io owner id u b g : store_inv b g -> store_inv (commit_hold io owner id u b).2 g.
Proof.
  intros Hs. unfold commit_hold. pose proof (abandon_inv owner id b g Hs) as Ha.
  destruct (negb (bool_decide _)) eqn:Hid; [done|]. apply negb_false_iff, bool_decide_eq_true in Hid.
  destruct (negb (io_sync io)); [done|]. destruct (negb (io_mkdir io)); [done|].
  destruct (in_uploads _ !! _); [|done]. destruct (negb (io_rename io) && _) eqn:Hren; [done|]. simpl.
  apply store_inv_index; [done|apply index_insert_index, Ha|apply same_rest_insert|].
  eapply insert_disk; [done..|]. intros Hio. rewrite Hio in Hren. simpl in Hren.
  by apply negb_false_iff, bool_decide_eq_true in Hren.
Qed.

Lemma check_chunk_le n r : check_chunk_len n r = Ok tt -> n <= r.
Proof.
  unfold check_chunk_len. destruct (_ || _) eqn:E; [done|]. intros _.
  apply orb_false_iff in E as [_ E%N.ltb_ge]. done.
Qed.

Lemma append_chunk_inv io now owner id total offset data u b g :
  store_inv b g -> up_received u = blen (up_data u) -> (up_total u = total -> up_received u <= total) ->
  (forall t, in_uploads (bs_inner b) !! (owner, id) = Some (Writing t) -> t = up_total u) ->
  store_inv (append_chunk (commit_hold io owner id) io now owner id total offset data u b).2 g.
Proof.
  intros Hs Hrec Hle Hown. unfold append_chunk. pose proof (abandon_inv owner id b g Hs) as Ha.
  destruct (N.eqb_spec (up_total u) total) as [Et|]; simpl; [|done].
  destruct (offset =? up_received u); simpl; [|done].
  destruct (check_chunk_len _ _) as [[]|e] eqn:Ec; [apply check_chunk_le in Ec|done].
  destruct (io_write io); simpl; [|done].
  destruct (N.ltb_spec (up_received u + blen data) total) as [Hl|]; [|by apply commit_inv].
  destruct (in_uploads _ !! _) as [[|t]|] eqn:Hk; [done| |done]. specialize (Hown t eq_refl). simpl.
  apply store_inv_uploads; [done| |].
  - destruct (si_uploads b g Hs) as [Hsum Hb]. split; [|done].
    match goal with |- _ = map_sum _ (<[_ := ?s]> _) =>
      pose proof (map_sum_insert_Some slot_total (in_uploads (bs_inner b)) (owner, id) _ s Hk) as H' end.
    simpl in *. lia.
  - intros k u' [[_ [= <-]]|[_ Hu]]%lookup_insert_Some; [|exact (si_parked b g Hs k u' Hu)].
    split; simpl; rewrite ?blen_app; lia.
Qed.

Lemma append_inv io now owner id total offset data upload b g :
  store_inv b g -> hold_ok (HAppend io now owner id total offset data upload) (b, g) ->
  store_inv (append_with (commit_hold io owner id) io now owner id total offset data upload b).2 g.
Proof.
  intros Hs [Hup Hown]. simpl in *. unfold append_with. destruct upload as [u|].
  - destruct (Hup u eq_refl) as [Hr Hl]. apply append_chunk_inv; [done..| |done]. intros <-. lia.
  - destruct (io_create io); [|by apply abandon_inv]. apply append_chunk_inv; [done..|simpl; lia|done].
Qed.

(** *** Pins *)

(** A hold that works on the pins. *)
Lemma store_inv_pins b g g' i :
  store_inv b g -> in_entries i = in_entries (bs_inner b) -> in_lru i = in_lru (bs_inner b) -> in_tick i = in_tick (bs_inner b) ->
  in_total_bytes i = in_total_bytes (bs_inner b) -> in_uploads i = in_uploads (bs_inner b) ->
  in_upload_bytes i = in_upload_bytes (bs_inner b) ->
  counts_are (in_pin_counts i) (pins_of (in_pins i) (in_output_pins i) g') ->
  counts_are (in_output_pin_counts i) (output_pins_of (in_output_pins i)) ->
  store_inv (with_inner i b) g'.
Proof.
  intros Hs He Hl Ht Hb Hu Hub Hp Ho. apply (store_inv_inner b g); [done|done| |].
  - destruct (si_index b g Hs) as [H1 H2 H3 H4]. split; rewrite ?He, ?Hl, ?Ht, ?Hb; done.
  - unfold rest_inv. rewrite Hu, Hub. split; [apply Hs|]. split; [apply Hs|done].
Qed.

Lemma pins_of_insert pins outputs g tid p id :
  pins_of (<[tid := p]> pins) outputs g id + from_option (fun q => occ id q.2) 0 (pins !! tid) = pins_of pins outputs g id + occ id p.2.
Proof.
  unfold pins_of. destruct (pins !! tid) as [q|] eqn:Hq; simpl.
  - pose proof (map_sum_insert_Some (fun p => occ id p.2) pins tid q p Hq). simpl in *. lia.
  - rewrite map_sum_insert by done. lia.
Qed.

Lemma pins_of_delete pins outputs g tid p id :
  pins !! tid = Some p -> pins_of pins outputs g id = occ id p.2 + pins_of (delete tid pins) outputs g id.
Proof. intros Hp. unfold pins_of. rewrite (map_sum_delete _ pins tid p Hp). lia. Qed.

Lemma output_pins_of_delete outputs tid e id :
  outputs !! tid = Some e -> output_pins_of outputs id = occ id (opn_ids e) + output_pins_of (delete tid outputs) id.
Proof. intros He. unfold output_pins_of. by rewrite (map_sum_delete _ outputs tid e He). Qed.

Lemma output_pins_of_insert outputs tid e id :
  output_pins_of (<[tid := e]> outputs) id + from_option (fun e => occ id (opn_ids e)) 0 (outputs !! tid)
  = output_pins_of outputs id + occ id (opn_ids e).
Proof.
  unfold output_pins_of. destruct (outputs !! tid) as [q|] eqn:Hq; simpl.
  - pose proof (map_sum_insert_Some (fun e => occ id (opn_ids e)) outputs tid q e Hq). simpl in *. lia.
  - rewrite map_sum_insert by done. lia.
Qed.

Lemma pin_inv now tid ids b g : store_inv b g -> store_inv (pin_task now tid ids b).2 g.
Proof.
  intros Hs. unfold pin_task. pose proof (counts_up ids _ _ (si_pins b g Hs)) as Hup.
  pose proof (fun id => pins_of_insert (in_pins (bs_inner b)) (in_output_pins (bs_inner b)) g tid (now, ids) id) as Hins.
  destruct (in_pins (bs_inner b) !! tid) as [[t old]|] eqn:Hp; simpl in *;
    (apply (store_inv_pins b g); try done; simpl; [|apply Hs]).
  - eapply counts_are_ext; [|apply counts_down; [|exact Hup]]; intros id; specialize (Hins id); simpl in *; lia.
  - eapply counts_are_ext; [|exact Hup]. intros id. specialize (Hins id). simpl in *. lia.
Qed.

Lemma unpin_inv tid b g : store_inv b g -> store_inv (unpin_hold tid b) g.
Proof.
  intros Hs. unfold unpin_hold. destruct (in_pins _ !! tid) as [[t ids]|] eqn:Hp; [|done].
  pose proof (fun id => pins_of_delete _ (in_output_pins (bs_inner b)) g tid _ id Hp) as Hdel. simpl in Hdel.
  apply (store_inv_pins b g); try done; simpl; [|apply Hs].
  eapply counts_are_ext; [|apply counts_down; [|apply (si_pins b g Hs)]]; intros id; specialize (Hdel id); simpl in *; lia.
Qed.

Lemma touch_outputs_frame seen ids i :
  let i' := (touch_outputs seen ids i).2 in
  (index_ok i -> index_ok i') /\ same_rest i i' /\ be_size <$> in_entries i' = be_size <$> in_entries i.
Proof.
  revert seen i. induction ids as [|id ids IH]; intros seen i; simpl; [done|].
  case_bool_decide; [apply IH|]. specialize (IH (id :: seen) (touch id i).2).
  pose proof (touch_index id i). pose proof (same_rest_touch id i) as Hr. pose proof (touch_sizes id i) as Hz.
  destruct (touch id i) as [here i1]. simpl in *. destruct (touch_outputs _ ids i1) as [[uniq miss] i2]. simpl in *.
  destruct IH as (? & ? & ?), here; simpl; (split; [tauto|]; split; [by etrans|congruence]).
Qed.

Lemma add_guard_inv ids b g : store_inv b g -> store_inv (with_inner (add_pins ids (bs_inner b)) b) (ids :: g).
Proof.
  intros Hs. apply (store_inv_pins b g); try done; simpl; [|apply Hs].
  eapply counts_are_ext; [|apply counts_up, (si_pins b g Hs)]. intros id. unfold pins_of. simpl. rewrite occ_app. lia.
Qed.

Lemma check_pin_inv ids b g :
  store_inv b g ->
  store_inv (check_and_pin_outputs ids b).2
    (match (check_and_pin_outputs ids b).1 with Ok unique => unique :: g | Err _ => g end).
Proof.
  intros Hs. unfold check_and_pin_outputs. destruct (touch_outputs_frame [] ids (bs_inner b)) as (Hi & Hr & Hz).
  destruct (touch_outputs _ _ _) as [[uniq miss] i]. simpl in *.
  assert (Ht : store_inv (with_inner i b) g).
  { rewrite with_inner_disk. apply store_inv_index; [done|apply Hi, Hs|done|]. eapply disk_ok_sizes; [done|apply Hs]. }
  destruct (is_empty miss); [|done]. simpl. apply (add_guard_inv uniq (with_inner i b) g Ht).
Qed.

Lemma guard_drop_inv n ids b g : g !! n = Some ids -> store_inv b g -> store_inv (guard_drop ids b) (delete n g).
Proof.
  intros Hn Hs. pose proof (fun id => occ_concat_delete id g n ids Hn) as Ho.
  apply (store_inv_pins b g); try done; simpl; [|apply Hs].
  eapply counts_are_ext; [|apply counts_down; [|apply (si_pins b g Hs)]]; intros id; specialize (Ho id);
    unfold pins_of in *; lia.
Qed.

Definition pins_inv (g : list (list BlobId)) (i : Inner) : Prop :=
  counts_are (in_pin_counts i) (pins_of (in_pins i) (in_output_pins i) g) /\
  counts_are (in_output_pin_counts i) (output_pins_of (in_output_pins i)).

(** What the pin methods leave alone. *)
Definition same_index (i i' : Inner) : Prop :=
  in_entries i' = in_entries i /\ in_lru i' = in_lru i /\ in_tick i' = in_tick i /\ in_total_bytes i' = in_total_bytes i /\
  in_uploads i' = in_uploads i /\ in_upload_bytes i' = in_upload_bytes i.

#[global] Instance same_index_preorder : PreOrder same_index.
Proof. split; [by repeat split|]. intros i1 i2 i3. unfold same_index. naive_solver congruence. Qed.

Lemma store_inv_pins' b g g' i :
  store_inv b g -> same_index (bs_inner b) i -> pins_inv g' i -> store_inv (with_inner i b) g'.
Proof. intros Hs (? & ? & ? & ? & ? & ?) [? ?]. by apply (store_inv_pins b g). Qed.

Lemma drop_output_inv tid g i : pins_inv g i -> pins_inv g (drop_output_pin tid i) /\ same_index i (drop_output_pin tid i).
Proof.
  intros [Hp Ho]. unfold drop_output_pin. destruct (in_output_pins i !! tid) as [e|] eqn:He; [|done].
  pose proof (fun id => output_pins_of_delete _ tid e id He) as Hdel.
  split; [|by repeat split]. split; simpl.
  - eapply counts_are_ext; [|apply counts_down; [|exact Hp]]; intros id; specialize (Hdel id); unfold pins_of in *; lia.
  - eapply counts_are_ext; [|apply counts_down; [|exact Ho]]; intros id; specialize (Hdel id); simpl in *; lia.
Qed.

Lemma release_oldest_inv fuel max tid g i :
  pins_inv g i -> pins_inv g (release_oldest fuel max tid i) /\ same_index i (release_oldest fuel max tid i).
Proof.
  revert i. induction fuel as [|fuel IH]; intros i Hi; simpl; [done|].
  destruct (_ && _); [|done]. destruct (oldest_other tid _) as [o|]; [|done].
  destruct (drop_output_inv o g i Hi) as [Hd Hx]. destruct (IH _ Hd) as [? ?]. split; [done|by etrans].
Qed.

Lemma expire_inv now b g : store_inv b g -> store_inv (expire_hold now b) g.
Proof.
  intros Hs. unfold expire_hold. generalize (expired_pins now b). intros tids.
  assert (Hf : forall i, pins_inv g i -> pins_inv g (foldl (fun i tid => drop_output_pin tid i) i tids) /\
            same_index i (foldl (fun i tid => drop_output_pin tid i) i tids)).
  { induction tids as [|tid tids IH]; intros i Hi; simpl; [done|].
    destruct (drop_output_inv tid g i Hi) as [Hd Hx]. destruct (IH _ Hd) as [? ?]. split; [done|by etrans]. }
  destruct (Hf (bs_inner b)) as [Hp Hx]; [split; apply Hs|]. by apply (store_inv_pins' b g).
Qed.

Lemma terminal_inv now tid n ids b g : g !! n = Some ids -> store_inv b g -> store_inv (terminal_hold now tid ids b) (delete n g).
Proof.
  intros Hn Hs. unfold terminal_hold. set (e := {| opn_pinned_at := now; opn_seq := _; opn_ids := ids |}).
  set (i1 := set_output_pins _ _ _ _).
  pose proof (fun id => output_pins_of_insert (in_output_pins (bs_inner b)) tid e id) as Hins.
  pose proof (fun id => occ_concat_delete id g n ids Hn) as Hg.
  pose proof (counts_up ids _ _ (si_outputs b g Hs)) as Hup.
  assert (H2 : let i2 := match in_output_pins (bs_inner b) !! tid with Some e => release_output_pins (opn_ids e) i1 | None => i1 end in
               pins_inv (delete n g) i2 /\ same_index (bs_inner b) i2).
  { destruct (in_output_pins (bs_inner b) !! tid) as [old|] eqn:Hold; simpl in *.
    - split; [|by repeat split]. split; simpl.
      + eapply counts_are_ext; [|apply counts_down; [|apply (si_pins b g Hs)]]; intros id; specialize (Hins id); specialize (Hg id);
          unfold pins_of in *; simpl in *; [lia|].
        pose proof (output_pins_of_delete _ tid old id Hold). lia.
      + eapply counts_are_ext; [|apply counts_down; [|exact Hup]]; intros id; specialize (Hins id); simpl in *; [lia|].
        pose proof (output_pins_of_delete _ tid old id Hold). lia.
    - split; [|by repeat split]. split; simpl.
      + eapply counts_are_ext; [|apply (si_pins b g Hs)]. intros id; specialize (Hins id); specialize (Hg id);
          unfold pins_of in *; simpl in *; lia.
      + eapply counts_are_ext; [|exact Hup]. intros id; specialize (Hins id); simpl in *; lia. }
  revert H2. cbv zeta. generalize (match in_output_pins (bs_inner b) !! tid with Some e => release_output_pins (opn_ids e) i1 | None => i1 end).
  intros i2 [Hp Hx]. destruct (release_oldest_inv (size (in_output_pins i2)) (bs_max_bytes b) tid _ i2 Hp) as [? ?].
  apply (store_inv_pins' b g); [done|by etrans|done].
Qed.

(** Every lock hold keeps the invariant. *)
Lemma hold_inv h s : store_inv s.1 s.2 -> hold_ok h s -> store_inv (run_hold h s).1 (run_hold h s).2.
Proof.
  destruct s as [b g]. simpl. intros Hs Hok. destruct h; simpl.
  - by apply touch_inv.
  - by apply vanish_inv.
  - by apply missing_inv.
  - by apply begin_inv.
  - by apply evict_inv.
  - by apply append_inv.
  - by apply abandon_inv.
  - by apply drop_uploads_inv.
  - by apply drop_uploads_inv.
  - by apply pin_inv.
  - by apply unpin_inv.
  - pose proof (check_pin_inv ids b g Hs) as Hc. by destruct (check_and_pin_outputs ids b) as [[] ?].
  - destruct (g !! guard) as [ids|] eqn:Hn; [|done]. simpl. destruct ids as [|id ids]; simpl.
    + by apply (guard_drop_inv guard [] b g) in Hs; [destruct b as [? ? []]|].
    + by apply terminal_inv.
  - destruct (g !! guard) as [ids|] eqn:Hn; [|done]. by apply guard_drop_inv.
  - by apply expire_inv.
Qed.
End invariant.
