(* ===== verification/BlobStoreProps.v ===== *)
(** * BlobStoreProps: the store as its clients see it

    - [store_invariant]: the invariant holds of every state reachable from an opened
      directory by any interleaving of lock holds;
    - [methods_are_holds]: every method of the store is such a sequence of holds. *)

From S2P Require Import Prelude Collections RustStr Capabilities Placement Blob Task Queue BlobTransfer BlobStore BlobStoreInv.
Local Open Scope N_scope.
Local Open Scope result_scope.

Section reach.
Context `{BlobHash}.

Inductive hold_steps : StoreState -> StoreState -> Prop :=
| holds_none s : hold_steps s s
| holds_more h s s' : hold_ok h s -> hold_steps (run_hold h s) s' -> hold_steps s s'.

Lemma hold_steps_trans s1 s2 s3 : hold_steps s1 s2 -> hold_steps s2 s3 -> hold_steps s1 s3.
Proof. induction 1; [done|]. intros. eapply holds_more; eauto. Qed.

Lemma hold_steps_one h s : hold_ok h s -> hold_steps s (run_hold h s).
Proof. intros. eapply holds_more; [done|constructor]. Qed.

#[global] Instance hold_steps_preorder : PreOrder hold_steps.
Proof. split; [intros s; constructor|exact hold_steps_trans]. Qed.

Lemma hold_steps_inv s s' : hold_steps s s' -> store_inv s.1 s.2 -> store_inv s'.1 s'.2.
Proof. induction 1; [done|]. intros Hs. by apply IHhold_steps, hold_inv. Qed.

(** *** Opening a directory *)

Definition listing_ok (found : list (BlobId * Bytes)) : Prop := Forall (fun x => blob_of x.2 = x.1) found.

Lemma open_index found : 
  let i := foldl (fun i x => index_insert x.1 (blen x.2) i) inner_default found in
  index_ok i /\ same_rest inner_default i /\ forall id, is_Some (in_entries i !! id) -> id ∈ found.*1.
Proof.
  induction found as [|x found IH] using rev_ind; simpl.
  - split; [|split; [done|]]; [|by intros id [e He]]. split; simpl; [constructor| | |done].
    + intros t id. split; [by intros ?%not_elem_of_nil|by intros (e & He & _)].
    + done.
  - rewrite foldl_snoc. destruct IH as (Hi & Hr & Hd). split; [by apply index_insert_index|].
    split; [etrans; [done|apply same_rest_insert]|].
    intros id Hid. rewrite fmap_app. apply elem_of_app. destruct (decide (id = x.1)) as [->|Hne]; [right; set_solver|].
    left. apply Hd. unfold index_insert in Hid. case_bool_decide.
    + by apply (size_present _ _ id (touch_sizes x.1 _)).
    + simpl in Hid. by rewrite lookup_insert_ne in Hid.
Qed.

Lemma open_objects found : listing_ok found ->
  let m := foldl (fun m x => <[x.1 := x.2]> m) (∅ : gmap BlobId Bytes) found in
  (forall id file, m !! id = Some file -> blob_of file = id) /\ (forall id, id ∈ found.*1 -> is_Some (m !! id)).
Proof.
  intros Hok. induction found as [|x found IH] using rev_ind; simpl; [split; [done|set_solver]|].
  apply Forall_app in Hok as [Hok Hx]. apply Forall_cons in Hx as [Hx _]. destruct (IH Hok) as [Ho Hd].
  rewrite foldl_snoc. split.
  - intros id file [[<- <-]|[_ ?]]%lookup_insert_Some; [exact Hx|by apply Ho].
  - intros id. rewrite fmap_app, elem_of_app. destruct (decide (x.1 = id)) as [<-|Hne]; [rewrite lookup_insert_eq; eauto|].
    rewrite lookup_insert_ne by done. intros [?|?%list_elem_of_singleton]; [auto|done].
Qed.

Lemma open_inv io max_bytes retention found :
  max_bytes < u64_max -> listing_ok found -> store_inv (store_open io max_bytes retention found) [].
Proof.
  intros Hmax Hok. destruct (open_index found) as (Hi & Hr & Hd). destruct (open_objects found Hok) as [Ho Hf].
  unfold store_open, eviction_victims. set (i := foldl _ inner_default found) in *. set (m := foldl _ ∅ found) in *.
  assert (Hs : store_inv {| bs_max_bytes := max_bytes; bs_output_pin_retention := retention; bs_inner := i; bs_objects := m |} []).
  { destruct Hr as (Hub & Hp & Hop & Hoc & _ & Hpc & Hu). split; simpl; rewrite ?Hub, ?Hp, ?Hop, ?Hoc, ?Hpc, ?Hu; try done.
    - split; simpl; [by rewrite map_sum_empty|lia].
    - split; [done|]. auto. }
  destruct (_ =? 0); simpl; [by destruct (io_delete io)|]. set (victims := pick_victims _ _ _ _ _).
  eapply (store_inv_index _ [] (remove_all victims i)) in Hs; [exact Hs|apply remove_all_index, Hi|apply same_rest_remove_all|].
  apply remove_all_disk. split; auto.
Qed.

(** *** The methods as sequences of holds *)

Lemma evict_loop_holds fuel io keep b g : hold_steps (b, g) (evict_loop fuel io keep b, g).
Proof.
  revert b. induction fuel as [|fuel IH]; intros b; simpl; [done|].
  pose proof (hold_steps_one (HEvict io keep) (b, g) I) as Hone. simpl in Hone.
  destruct (evict_batch io keep b) as [[batch b']|]; [|done].
  destruct (batch <? _)%nat; [done|]. by etrans.
Qed.

Lemma evict_batch_frame io keep b n b' :
  evict_batch io keep b = Some (n, b') ->
  same_rest (bs_inner b) (bs_inner b') /\ bs_max_bytes b' = bs_max_bytes b /\
  bs_output_pin_retention b' = bs_output_pin_retention b.
Proof.
  unfold evict_batch. destruct (_ =? 0); [done|]. destruct (is_empty _); [done|]. intros [= <- <-]. simpl.
  split; [apply same_rest_remove_all|done].
Qed.

Lemma evict_loop_frame fuel io keep b :
  same_rest (bs_inner b) (bs_inner (evict_loop fuel io keep b)) /\
  bs_max_bytes (evict_loop fuel io keep b) = bs_max_bytes b.
Proof.
  revert b. induction fuel as [|fuel IH]; intros b; simpl; [done|].
  destruct (evict_batch io keep b) as [[batch b']|] eqn:Hb; [|done].
  destruct (evict_batch_frame _ _ _ _ _ Hb) as (Hr & Hm & _). destruct (batch <? _)%nat; [done|].
  destruct (IH b') as [Hr' Hm']. split; [by etrans|congruence].
Qed.

Lemma evict_uploads io keep b : in_uploads (bs_inner (evict_to_fit io keep b)) = in_uploads (bs_inner b).
Proof. unfold evict_to_fit. destruct (evict_loop_frame (S (size (in_entries (bs_inner b)))) io keep b) as [(_ & _ & _ & _ & _ & _ & ->) _]. done. Qed.

(** After a begin that goes on, the table has the slot reserved for the upload. *)
Lemma begin_writing owner id total offset b g up ev :
  store_inv b g -> (write_begin owner id total offset b).1 = BeginWrite up ev ->
  in_uploads (bs_inner (write_begin owner id total offset b).2) !! (owner, id) = Some (Writing (from_option up_total total up)) /\
  (forall u, up = Some u -> upload_ok u).
Proof.
  intros Hs. unfold write_begin. destruct (_ <? total); [done|].
  pose proof (same_rest_touch id (bs_inner b)) as (_ & _ & _ & _ & _ & _ & Hu).
  destruct (touch id (bs_inner b)) as [[] i]; simpl in *; [done|].
  destruct (in_uploads i !! (owner, id)) as [[u|t]|] eqn:Hk; [|done|].
  - destruct (negb (offset =? 0)); simpl.
    + intros [= <- <-]. split; [apply lookup_insert_eq|]. intros ? [= <-]. apply (si_parked b g Hs (owner, id)). congruence.
    + unfold reserve_upload. destruct (_ <? _); simpl; [done|]. intros [= <- <-]. split; [apply lookup_insert_eq|done].
  - destruct (offset =? 0); [|done]. unfold reserve_upload. destruct (_ <? _); simpl; [done|]. intros [= <- <-].
    split; [apply lookup_insert_eq|done].
Qed.

Lemma append_holds io now owner id total offset data up b g :
  hold_ok (HAppend io now owner id total offset data up) (b, g) ->
  hold_steps (b, g) ((append io now owner id total offset data up b).2, g).
Proof.
  intros Hok. etrans; [exact (hold_steps_one _ _ Hok)|]. simpl. unfold append.
  assert (Hc : forall u b, hold_steps ((commit_hold io owner id u b).2, g) ((commit io owner id u b).2, g)).
  { intros u b'. unfold commit. destruct (commit_hold io owner id u b') as [[| |? ? []| |] b1]; simpl; try done.
    apply evict_loop_holds. }
  unfold append_with, append_chunk. by repeat (case_match; simpl; try done).
Qed.

Lemma handle_holds io now owner req b g :
  store_inv b g -> hold_steps (b, g) ((handle io now owner req b).2, g).
Proof.
  intros Hs. destruct req as [ids|id offset max_len|id total offset data]; simpl.
  - unfold missing. destruct (_ <? _); [done|]. pose proof (hold_steps_one (HMissing ids) (b, g) I) as Hone. simpl in Hone.
    by destruct (missing_ids ids b).
  - unfold read_chunk. pose proof (hold_steps_one (HTouch id) (b, g) I) as Hone. simpl in Hone.
    set (b1 := with_inner _ b) in *. pose proof (hold_steps_one (HVanish id) (b1, g) I) as Htwo. simpl in Htwo.
    repeat (case_match; simpl; try done). by etrans.
  - unfold write_chunk. pose proof (hold_steps_one (HBegin owner id total offset) (b, g) I) as Hone. simpl in Hone.
    pose proof (fun up ev => begin_writing owner id total offset b g up ev Hs) as Hw.
    destruct (write_begin owner id total offset b) as [[reply|up ev] b1]; simpl in *; [done|].
    destruct (Hw up ev eq_refl) as [Hk Hup]. etrans; [exact Hone|]. etrans; [|apply append_holds].
    + destruct ev; [apply evict_loop_holds|done].
    + split; [done|]. simpl. destruct ev; [rewrite evict_uploads|]; rewrite Hk; by intros t [= <-].
Qed.

Lemma evict_if_over_holds io b g : hold_steps (b, g) (evict_if_over io b, g).
Proof. unfold evict_if_over. destruct (over_bound b); [apply evict_loop_holds|done]. Qed.

(** The pin methods that may evict afterwards. *)
Lemma pin_methods_holds io now tid b g :
  hold_steps (b, g) (unpin_task io tid b, g) /\
  hold_steps (b, g) (sweep_expired_output_pins io now b, g) /\
  (forall n ids, g !! n = Some ids -> hold_steps (b, g) (commit_terminal io now tid ids b, delete n g)).
Proof.
  split; [|split].
  - unfold unpin_task. destruct (in_pins _ !! tid); [|done].
    etrans; [exact (hold_steps_one (HUnpin tid) (b, g) I)|apply evict_if_over_holds].
  - unfold sweep_expired_output_pins. destruct (is_empty _); [done|].
    etrans; [exact (hold_steps_one (HExpire now) (b, g) I)|apply evict_if_over_holds].
  - intros n ids Hn. pose proof (hold_steps_one (HTerminal now tid n) (b, g) I) as Hone. simpl in Hone. rewrite Hn in Hone.
    unfold commit_terminal. destruct (is_empty ids); [done|]. etrans; [exact Hone|apply evict_if_over_holds].
Qed.

(** C38 The invariant of the blob store holds in every state reachable from an opened
    directory (whose files hash to their names) by any interleaving of lock holds of
    any connections: requests of all kinds with any file-system refusals, evictions,
    uploads cut off or timing out, tasks and guards pinning and releasing.  So the
    byte total is the sum of the stored sizes, the reservations stay within the bound,
    the recency list names exactly the stored blobs in order of use, the pin counts
    are exact, every object hashes to its name and every stored blob has its file. *)
Theorem store_invariant (io : Io) (max_bytes : N) (retention : Duration) (found : list (BlobId * Bytes)) (s : StoreState) :
  max_bytes < u64_max -> listing_ok found -> hold_steps (store_open io max_bytes retention found, []) s -> store_inv s.1 s.2.
Proof. intros Hm Hl Hsteps. eapply hold_steps_inv; [exact Hsteps|]. by apply open_inv. Qed.

(** Answering a request, and each pin method that may evict, is a sequence of such
    lock holds: the chunk is appended to the very upload its first hold took out of
    the table, under the reservation that hold left. *)
Theorem methods_are_holds (io : Io) (now owner : N) (req : BlobRequest) (tid : TaskId) (b : BlobStore) (g : list (list BlobId)) :
  store_inv b g ->
  hold_steps (b, g) ((handle io now owner req b).2, g) /\
  hold_steps (b, g) (unpin_task io tid b, g) /\
  hold_steps (b, g) (sweep_expired_output_pins io now b, g) /\
  (forall n ids, g !! n = Some ids -> hold_steps (b, g) (commit_terminal io now tid ids b, delete n g)).
Proof. intros Hs. split; [by apply handle_holds|apply pin_methods_holds]. Qed.
End reach.

(** A hash under which small blobs name themselves, for the witnesses. *)
Definition plain_hash : BlobHash := fun bytes => bytes.
Definition sample_store : BlobStore := store_open io_fine 10 DEFAULT_OUTPUT_PIN_RETENTION [([1], [1]); ([2; 3], [2; 3]); ([], [])].

Lemma store_invariant_witness :
  store_inv (H := plain_hash) (run_hold (H := plain_hash) (HBegin 4 [5; 5] 2 0)
    (run_hold (H := plain_hash) (HCheck [[1]]) (sample_store, []))).1 [[[1]]].
Proof.
  apply (store_invariant (H := plain_hash) io_fine 10 DEFAULT_OUTPUT_PIN_RETENTION [([1], [1]); ([2; 3], [2; 3]); ([], [])]
    (run_hold (H := plain_hash) (HBegin 4 [5; 5] 2 0) (run_hold (H := plain_hash) (HCheck [[1]]) (sample_store, [])))).
  - vm_compute. done.
  - repeat constructor.
  - apply (holds_more (H := plain_hash) (HCheck [[1]])); [exact I|].
    apply (holds_more (H := plain_hash) (HBegin 4 [5; 5] 2 0)); [exact I|]. constructor.
Defined.

Lemma methods_are_holds_witness :
  hold_steps (H := plain_hash) (sample_store, [])
    ((handle (H := plain_hash) io_fine 3 4 (ReqWrite [5; 5] 2 0 [5]) sample_store).2, []).
Proof.
  refine (proj1 (methods_are_holds (H := plain_hash) io_fine 3 4 (ReqWrite [5; 5] 2 0 [5]) 1 sample_store [] _)).
  apply (open_inv (H := plain_hash)); [vm_compute; done|by repeat constructor].
Defined.
