(* ===== verification/BlobEvict.v ===== *)
(** * BlobEvict: what eviction removes and what it leaves

    [evicted] relates the store before and after: only blobs nobody pins go, the
    least recently used first, and everything else stays as it was.  [evict_to_fit]
    then fits its bound or has nothing left it may remove; a blob of no bytes counts
    as one freed byte, which is all the bound can be missed by. *)

From S2P Require Import Prelude Collections RustStr Capabilities Placement Blob Task Queue BlobTransfer BlobStore BlobStoreInv BlobStoreProps.
Local Open Scope N_scope.
Local Open Scope result_scope.

Definition evictable (i : Inner) (keep : option BlobId) (id : BlobId) : bool :=
  negb (bool_decide (is_Some (in_pin_counts i !! id)) || bool_decide (keep = Some id)).

(** What may go, in the order it is looked at. *)
Definition eviction_order (i : Inner) (keep : option BlobId) (l : list (N * BlobId)) : list BlobId :=
  List.filter (evictable i keep) l.*2.

Definition freed (i : Inner) (id : BlobId) : N := N.max (from_option be_size 0 (in_entries i !! id)) 1.
Definition size_in (i : Inner) (id : BlobId) : N := from_option be_size 0 (in_entries i !! id).
Definition sum_of (f : BlobId -> N) (ids : list BlobId) : N := foldr (fun id n => f id + n) 0 ids.

Lemma eviction_order_cons i keep t id l :
  eviction_order i keep ((t, id) :: l) = if evictable i keep id then id :: eviction_order i keep l else eviction_order i keep l.
Proof. done. Qed.

(** The victims are the first of these: as many as allowed, or all of them, or
    enough to free the excess. *)
Lemma pick_prefix i keep room excess l :
  let victims := pick_victims i keep room excess l in
  exists rest, eviction_order i keep l = victims ++ rest /\
    (length victims <= room)%nat /\ (length victims = room \/ rest = [] \/ excess <= sum_of (freed i) victims).
Proof.
  revert room excess. induction l as [|[t id] l IH]; intros room excess; cbn [pick_victims]; cbv zeta.
  - exists []. split; [done|]. split; [simpl; lia|auto].
  - destruct room as [|room]; [by exists (eviction_order i keep ((t, id) :: l)); auto|].
    destruct (N.eqb_spec excess 0) as [->|];
      [exists (eviction_order i keep ((t, id) :: l)); split; [done|]; simpl; split; [lia|right; right; lia]|].
    rewrite eviction_order_cons. unfold evictable. destruct (bool_decide _ || bool_decide _); cbn [negb].
    + apply (IH (S room) excess).
    + destruct (IH room (excess - freed i id)) as (rest & Heq & Hlen & Hor). unfold freed in *. exists rest.
      rewrite Heq. split; [done|]. cbn [length sum_of foldr] in *. split; [lia|].
      destruct Hor as [?|[?|?]]; [left|right; left|right; right]; [lia|done|]. unfold sum_of in *. lia.
Qed.

Lemma lru_ids_nodup i : index_ok i -> NoDup (in_lru i).*2.
Proof.
  intros Hi. pose proof (ix_lru i Hi) as Hl. pose proof (ix_sorted i Hi) as Hs.
  assert (Hinj : forall t t' id, (t, id) ∈ in_lru i -> (t', id) ∈ in_lru i -> t = t').
  { intros t t' id (e & He & <-)%Hl (e' & He' & <-)%Hl. congruence. }
  clear Hl Hi. induction Hs as [|[t id] l Hs IH Hall]; simpl; constructor.
  - intros ([t' id'] & -> & Hin)%list_elem_of_fmap. simpl in *. rewrite Forall_forall in Hall.
    specialize (Hall _ Hin). assert (t = t') by (apply (Hinj t t' id'); set_solver). simpl in *. lia.
  - apply IH. intros t1 t2 id' ??. apply (Hinj t1 t2 id'); set_solver.
Qed.

Lemma eviction_order_spec i keep id :
  index_ok i -> id ∈ eviction_order i keep (in_lru i) <-> is_Some (in_entries i !! id) /\ evictable i keep id = true.
Proof.
  intros Hi. unfold eviction_order. rewrite list_elem_of_In, filter_In, <-list_elem_of_In. f_equiv.
  rewrite list_elem_of_fmap. split.
  - intros ([t id'] & -> & (e & He & _)%(ix_lru i Hi)). eauto.
  - intros [e He]. exists (be_tick e, id). split; [done|]. apply (ix_lru i Hi). eauto.
Qed.

Lemma sum_delete {A} (f : A -> N) (ids : list BlobId) (m : gmap BlobId A) :
  NoDup ids -> map_sum f m = sum_of (fun id => from_option f 0 (m !! id)) ids + map_sum f (foldl (fun m id => delete id m) m ids).
Proof.
  intros Hnd. revert m. induction Hnd as [|id ids Hid Hnd IH]; intros m; cbn [foldl sum_of foldr]; [lia|].
  change (foldr _ 0 ids) with (sum_of (fun id => from_option f 0 (m !! id)) ids).
  assert (Hsum : sum_of (fun id => from_option f 0 (m !! id)) ids = sum_of (fun x => from_option f 0 (delete id m !! x)) ids).
  { clear IH Hnd. induction ids as [|x ids IHi]; [done|]. cbn [sum_of foldr]. apply not_elem_of_cons in Hid as [Hne Hid].
    rewrite lookup_delete_ne by congruence. f_equal. by apply IHi. }
  rewrite Hsum. specialize (IH (delete id m)).
  destruct (m !! id) as [x|] eqn:Hx; simpl.
  - rewrite (map_sum_delete f m id x Hx). lia.
  - rewrite delete_id in * by done. lia.
Qed.

Lemma NoDup_filter_list (p : BlobId -> bool) l : NoDup l -> NoDup (List.filter p l).
Proof. rewrite !NoDup_ListNoDup. apply List.NoDup_filter. Qed.

Definition empties (i : Inner) : N := map_sum (fun e => if be_size e =? 0 then 1 else 0) (in_entries i).

Section evict.
Context `{BlobHash}.

Record evicted (keep : option BlobId) (b b' : BlobStore) : Prop := {
  ev_sub : in_entries (bs_inner b') ⊆ in_entries (bs_inner b);
  ev_rest : same_rest (bs_inner b) (bs_inner b');
  ev_max : bs_max_bytes b' = bs_max_bytes b;
  ev_objects : forall id, is_Some (in_entries (bs_inner b') !! id) -> bs_objects b' !! id = bs_objects b !! id;
  ev_lru : forall id e, in_entries (bs_inner b) !! id = Some e -> in_entries (bs_inner b') !! id = None ->
    evictable (bs_inner b) keep id = true /\
    forall id' e', in_entries (bs_inner b') !! id' = Some e' -> evictable (bs_inner b) keep id' = true -> be_tick e < be_tick e'
}.

Lemma evictable_same i i' keep id : same_rest i i' -> evictable i' keep id = evictable i keep id.
Proof. intros (_ & _ & _ & _ & _ & Hp & _). unfold evictable. by rewrite Hp. Qed.

#[global] Instance evicted_preorder keep : PreOrder (evicted keep).
Proof.
  split.
  - intros b. split; try done. intros id e He Hn. congruence.
  - intros b1 b2 b3 [S1 R1 M1 O1 L1] [S2 R2 M2 O2 L2]. split.
    + by etrans.
    + by etrans.
    + congruence.
    + intros id Hid. rewrite O2 by done. apply O1. destruct Hid as [e He]. eapply lookup_weaken in He; eauto.
    + intros id e He Hn. destruct (in_entries (bs_inner b2) !! id) as [e2|] eqn:He2.
      * pose proof (lookup_weaken _ _ _ _ He2 S1). simplify_eq.
        destruct (L2 id e He2 Hn) as [Hev Hlt]. rewrite (evictable_same _ _ _ _ R1) in Hev. split; [done|].
        intros id' e' He' Hev'. eapply Hlt; [done|]. by rewrite (evictable_same _ _ _ _ R1).
      * destruct (L1 id e He He2) as [Hev Hlt]. split; [done|]. intros id' e' He' Hev'. eapply Hlt; [|done].
        by eapply lookup_weaken.
Qed.

(** Order in the recency list is order of ticks. *)
Lemma eviction_order_ticks i keep vs rest id id' e e' :
  index_ok i -> eviction_order i keep (in_lru i) = vs ++ rest -> id ∈ vs -> id' ∈ rest ->
  in_entries i !! id = Some e -> in_entries i !! id' = Some e' -> be_tick e < be_tick e'.
Proof.
  intros Hi Hc Hid Hid' He He'.
  assert (Hss : StronglySorted (fun x y => forall e e', in_entries i !! x = Some e -> in_entries i !! y = Some e' -> be_tick e < be_tick e')
                  (eviction_order i keep (in_lru i))).
  { assert (Hl : forall t x, (t, x) ∈ in_lru i -> exists e, in_entries i !! x = Some e /\ be_tick e = t) by (intros; by apply (ix_lru i Hi)).
    pose proof (ix_sorted i Hi) as Hs. unfold eviction_order. clear Hc.
    induction Hs as [|[t x] l Hs IH Hall]; simpl; [constructor|].
    assert (IHl : StronglySorted (fun x y => forall e e', in_entries i !! x = Some e -> in_entries i !! y = Some e' -> be_tick e < be_tick e')
              (List.filter (evictable i keep) l.*2)) by (apply IH; intros; apply Hl; set_solver).
    destruct (evictable i keep x); [|done]. constructor; [done|]. apply Forall_forall. intros y Hy e1 e2 H1 H2.
    apply list_elem_of_In, filter_In in Hy as [Hy _]. apply list_elem_of_In, list_elem_of_fmap in Hy as ([t2 y'] & -> & Hy).
    rewrite Forall_forall in Hall. specialize (Hall _ Hy). simpl in *.
    destruct (Hl t x) as (? & ? & ?); [set_solver|]. destruct (Hl t2 y') as (? & ? & ?); [set_solver|]. simplify_eq. lia. }
  rewrite Hc in Hss. clear Hc. induction vs as [|v vs IH]; [set_solver|]. simpl in Hss. inversion Hss as [|?? Hs' Hall]; subst.
  apply elem_of_cons in Hid as [->|Hid]; [|auto]. rewrite Forall_forall in Hall. apply (Hall id'); [set_solver|done..].
Qed.

Lemma fits_used i : in_total_bytes i + in_upload_bytes i <= u64_max -> used_bytes i = in_total_bytes i + in_upload_bytes i.
Proof. unfold used_bytes, saturating_add. lia. Qed.

Lemma freed_bound i ids :
  sum_of (freed i) ids <= sum_of (size_in i) ids + sum_of (fun id => from_option (fun e => if be_size e =? 0 then 1 else 0) 0 (in_entries i !! id)) ids
  \/ exists id, id ∈ ids /\ in_entries i !! id = None.
Proof.
  induction ids as [|id ids IH]; [left; simpl; lia|]. cbn [sum_of foldr].
  destruct (in_entries i !! id) as [e|] eqn:He; [|right; exists id; set_solver].
  destruct IH as [IH|(x & Hx & Hn)]; [left|right; exists x; set_solver].
  unfold sum_of, freed, size_in in *. rewrite He. simpl. destruct (N.eqb_spec (be_size e) 0); lia.
Qed.

(** One batch: the relation, progress, and why it may be the last one. *)
Lemma evict_batch_spec io keep b n b' :
  index_ok (bs_inner b) -> in_total_bytes (bs_inner b) + in_upload_bytes (bs_inner b) <= u64_max ->
  evict_batch io keep b = Some (n, b') ->
  evicted keep b b' /\ index_ok (bs_inner b') /\ (size (in_entries (bs_inner b')) < size (in_entries (bs_inner b)))%nat /\
  (n = EVICTION_BATCH_SIZE \/
   used_bytes (bs_inner b') <= bs_max_bytes b + empties (bs_inner b) \/
   forall id, is_Some (in_entries (bs_inner b') !! id) -> evictable (bs_inner b') keep id = false).
Proof.
  intros Hi Hfit. unfold evict_batch. set (i := bs_inner b) in *. destruct (N.eqb_spec (used_bytes i - bs_max_bytes b) 0) as [|Hex]; [done|].
  destruct (pick_prefix i keep EVICTION_BATCH_SIZE (used_bytes i - bs_max_bytes b) (in_lru i)) as (rest & Hc & Hlen & Hor).
  set (vs := pick_victims _ _ _ _ _) in *. destruct vs as [|v vs'] eqn:Hvs; [done|]. rewrite <-Hvs in *. clearbody vs.
  replace (is_empty vs) with false by (by subst). intros [= <- <-].
  assert (Hin : forall id, id ∈ vs ++ rest <-> is_Some (in_entries i !! id) /\ evictable i keep id = true).
  { intros id. rewrite <-Hc. by apply eviction_order_spec. }
  assert (Hnd : NoDup (vs ++ rest)).
  { rewrite <-Hc. unfold eviction_order. by apply NoDup_filter_list, lru_ids_nodup. }
  assert (Hlook : forall id, in_entries (remove_all vs i) !! id = if decide (id ∈ vs) then None else in_entries i !! id).
  { intros id. rewrite remove_all_entries. apply foldl_delete_lookup. }
  assert (Hsub : in_entries (remove_all vs i) ⊆ in_entries i).
  { apply map_subseteq_spec. intros id e. rewrite Hlook. by case_decide. }
  split; [|split; [by apply remove_all_index|split]].
  - split; simpl; fold i; [done|apply same_rest_remove_all|done| |].
    + intros id. rewrite Hlook. case_decide as Hid; [by intros []|]. intros _.
      destruct (io_delete io); [|done]. rewrite foldl_delete_lookup. by case_decide.
    + intros id e He. rewrite Hlook. case_decide as Hid; [|congruence]. intros _.
      split; [apply Hin; set_solver|]. intros id' e'. rewrite Hlook. case_decide as Hid'; [done|]. intros He' Hev'.
      eapply (eviction_order_ticks i keep vs rest id id'); try done.
      assert (id' ∈ vs ++ rest) by (apply Hin; eauto). set_solver.
  - simpl. apply map_subset_size. split; [done|]. intros Hsup.
    assert (Hv : v ∈ vs) by (subst; set_solver). destruct (proj1 (Hin v)) as [[e He] _]; [set_solver|].
    pose proof (lookup_weaken _ _ _ _ He Hsup) as Hw. rewrite Hlook in Hw. by case_decide.
  - destruct Hor as [Hroom|[->|Henough]]; [by left|right; right|right; left]; simpl.
    + intros id. rewrite (evictable_same i) by apply same_rest_remove_all. rewrite Hlook. case_decide as Hid; [by intros []|].
      intros He. apply not_true_iff_false. intros Hev. apply Hid. rewrite <-(app_nil_r vs). apply Hin. done.
    + destruct (freed_bound i vs) as [Hfb|(x & Hx & Hn)]; [|destruct (proj1 (Hin x)) as [[? ?] _]; [set_solver|congruence]].
      apply NoDup_app in Hnd as (Hnd & _ & _).
      pose proof (sum_delete be_size vs (in_entries i) Hnd) as Hsz. pose proof (sum_delete (fun e => if be_size e =? 0 then 1 else 0) vs (in_entries i) Hnd) as Hem.
      rewrite <-remove_all_entries in Hsz, Hem.
      pose proof (remove_all_index vs i Hi) as Hi'. pose proof (same_rest_remove_all vs i) as (Hub & _).
      unfold empties. rewrite fits_used in Hex, Henough by done.
      rewrite fits_used; rewrite (ix_total _ Hi'), Hub; rewrite (ix_total _ Hi) in *;
        unfold size_in in Hfb; lia.
Qed.

Lemma evict_rounds_spec fuel io keep b :
  index_ok (bs_inner b) -> in_total_bytes (bs_inner b) + in_upload_bytes (bs_inner b) <= u64_max ->
  (size (in_entries (bs_inner b)) < fuel)%nat ->
  let b' := evict_loop fuel io keep b in
  evicted keep b b' /\
  (used_bytes (bs_inner b') <= bs_max_bytes b + empties (bs_inner b) \/
   forall id, is_Some (in_entries (bs_inner b') !! id) -> evictable (bs_inner b') keep id = false).
Proof.
  revert b. induction fuel as [|fuel IH]; intros b Hs Hfit Hfuel; [lia|]. cbn [evict_loop]. cbv zeta.
  destruct (evict_batch io keep b) as [[n b1]|] eqn:Hb.
  - destruct (evict_batch_spec io keep b n b1 Hs Hfit Hb) as (Hev & Hs1 & Hsize & Hor).
    destruct (Nat.ltb_spec n EVICTION_BATCH_SIZE) as [Hn|Hn].
    + split; [done|]. destruct Hor as [->|Hor]; [lia|done].
    + assert (Hle : forall f, map_sum f (in_entries (bs_inner b1)) <= map_sum f (in_entries (bs_inner b))) by (intros f; apply map_sum_subseteq, Hev).
      destruct (IH b1) as [Hev' Hor']; [done| |lia|].
      * rewrite (ix_total _ Hs1), (proj1 (ev_rest _ _ _ Hev)). rewrite (ix_total _ Hs) in Hfit.
        specialize (Hle be_size). lia.
      * split; [by etrans|]. rewrite (ev_max _ _ _ Hev) in Hor'. destruct Hor' as [Hu|Hno]; [left|by right].
        unfold empties in *. specialize (Hle (fun e => if be_size e =? 0 then 1 else 0)). lia.
  - split; [done|]. unfold evict_batch in Hb. destruct (N.eqb_spec (used_bytes (bs_inner b) - bs_max_bytes b) 0) as [|Hex]; [left; lia|].
    destruct (pick_prefix (bs_inner b) keep EVICTION_BATCH_SIZE (used_bytes (bs_inner b) - bs_max_bytes b) (in_lru (bs_inner b))) as (rest & Hc & _ & Hor).
    destruct (pick_victims _ _ _ _ _) as [|v vs]; [|done]. destruct Hor as [?|[->|Hle]]; [done| |simpl in Hle; lia].
    right. intros id Hid. apply not_true_iff_false. intros Hev.
    assert (Hin : id ∈ eviction_order (bs_inner b) keep (in_lru (bs_inner b))) by (apply eviction_order_spec; done).
    rewrite Hc in Hin. set_solver.
Qed.

Lemma evictable_pins b g keep id :
  store_inv b g ->
  evictable (bs_inner b) keep id = true <->
  pins_of (in_pins (bs_inner b)) (in_output_pins (bs_inner b)) g id = 0 /\ keep <> Some id.
Proof.
  intros Hs. unfold evictable. rewrite negb_true_iff, orb_false_iff, !bool_decide_eq_false, (si_pins b g Hs).
  destruct (N.eqb_spec (pins_of (in_pins (bs_inner b)) (in_output_pins (bs_inner b)) g id) 0) as [Hz|Hz].
  - rewrite Hz. split; [by intros [_ ?]|]. intros [_ ?]. split; [by intros []|done].
  - split; [|by intros []]. intros [Hn _]. exfalso. apply Hn. eauto.
Qed.

(** Eviction: a blob pinned by a task, by a terminal output or by a live guard is
    never removed, nor is the one just committed, nor are their files; what is removed
    was used less recently than anything removable that stays; and afterwards the
    store is within its bound (give or take a byte per blob of no bytes) or has
    nothing left it may remove. *)
Theorem evict_to_fit_spec (io : Io) (keep : option BlobId) (b : BlobStore) (g : list (list BlobId)) :
  store_inv b g -> in_total_bytes (bs_inner b) + in_upload_bytes (bs_inner b) <= u64_max ->
  let b' := evict_to_fit io keep b in
  let pinned id := pins_of (in_pins (bs_inner b)) (in_output_pins (bs_inner b)) g id <> 0 \/ keep = Some id in
  (forall id, pinned id -> in_entries (bs_inner b') !! id = in_entries (bs_inner b) !! id) /\
  (forall id, is_Some (in_entries (bs_inner b') !! id) -> bs_objects b' !! id = bs_objects b !! id) /\
  (forall id e id' e', in_entries (bs_inner b) !! id = Some e -> in_entries (bs_inner b') !! id = None ->
     in_entries (bs_inner b') !! id' = Some e' -> ~ pinned id' -> be_tick e < be_tick e') /\
  (used_bytes (bs_inner b') <= bs_max_bytes b + empties (bs_inner b) \/
   forall id, is_Some (in_entries (bs_inner b') !! id) -> pinned id).
Proof.
  intros Hs Hfit. cbv zeta. unfold evict_to_fit.
  destruct (evict_rounds_spec (S (size (in_entries (bs_inner b)))) io keep b (si_index b g Hs) Hfit) as [Hev Hor]; [lia|].
  set (b' := evict_loop _ _ _ _) in *. pose proof (fun id => evictable_pins b g keep id Hs) as Hep.
  split; [|split; [apply Hev|split]].
  - intros id Hpin. destruct (in_entries (bs_inner b') !! id) as [e'|] eqn:He'.
    + symmetry. exact (lookup_weaken _ _ _ _ He' (ev_sub _ _ _ Hev)).
    + destruct (in_entries (bs_inner b) !! id) as [e|] eqn:He; [|done].
      destruct (ev_lru _ _ _ Hev id e He He') as [[Hz Hk]%Hep _]. naive_solver.
  - intros id e id' e' He Hn He' Hfree. eapply (ev_lru _ _ _ Hev id e He Hn); [done|]. apply Hep. split.
    + destruct (decide (pins_of (in_pins (bs_inner b)) (in_output_pins (bs_inner b)) g id' = 0)); [done|naive_solver].
    + intros Hk. apply Hfree. by right.
  - destruct Hor as [|Hno]; [by left|right]. intros id Hid. specialize (Hno id Hid).
    rewrite (evictable_same (bs_inner b)) in Hno by apply Hev.
    destruct (decide (pins_of (in_pins (bs_inner b)) (in_output_pins (bs_inner b)) g id = 0)) as [Hz|]; [|by left].
    right. destruct (decide (keep = Some id)) as [|Hk]; [done|].
    assert (evictable (bs_inner b) keep id = true) by (by apply Hep). congruence.
Qed.
End evict.

(** Two stored blobs and an upload that reserved more than the room left. *)
Definition sample_full : BlobStore :=
  (write_begin 4 [6; 6; 6; 6; 6; 6; 6; 6] 8 0 sample_store).2.

Lemma sample_full_inv : store_inv (H := plain_hash) sample_full [].
Proof. apply (begin_inv (H := plain_hash)), (open_inv (H := plain_hash)); [vm_compute; done|by repeat constructor]. Qed.

Lemma evict_to_fit_spec_witness :
  let b' := evict_to_fit io_fine None sample_full in
  used_bytes (bs_inner b') <= 10 + 1 \/
  forall id, is_Some (in_entries (bs_inner b') !! id) ->
    pins_of (in_pins (bs_inner sample_full)) (in_output_pins (bs_inner sample_full)) [] id <> 0 \/ None = Some id.
Proof.
  refine (proj2 (proj2 (proj2 (evict_to_fit_spec (H := plain_hash) io_fine None sample_full [] sample_full_inv _)))).
  vm_compute. done.
Defined.

(** The byte the bound is missed by: the victim is the empty blob. *)
Theorem empty_blob_frees_a_byte :
  let b := store_open io_fine 3 DEFAULT_OUTPUT_PIN_RETENTION [([], []); ([1], [1]); ([2; 3], [2; 3])] in
  let b1 := (write_begin 4 [7] 1 0 b).2 in
  let b2 := evict_to_fit io_fine None b1 in
  (used_bytes (bs_inner b1), used_bytes (bs_inner b2), in_lru (bs_inner b2)) = (4, 4, [(2, [1]); (3, [2; 3])]).
Proof. vm_compute. reflexivity. Qed.
