(* ===== verification/BlobRoundTrip.v ===== *)
(** * BlobRoundTrip: transfers over a channel, and over the store

    [download_sound] is about any peer behind the channel; [upload_then_download]
    composes the transfer loops with the store that answers them. *)

From S2P Require Import Prelude Collections RustStr Capabilities Placement Blob Task Queue BlobTransfer BlobStore BlobStoreInv BlobStoreProps.
Local Open Scope N_scope.
Local Open Scope result_scope.

Lemma chunk_bytes_pos : 0 < BLOB_CHUNK_BYTES.
Proof. done. Qed.
Lemma chunk_bytes_max : BLOB_CHUNK_BYTES <= MAX_CHUNK_BYTES.
Proof. done. Qed.

#[local] Opaque BLOB_CHUNK_BYTES MAX_CHUNK_BYTES.

Lemma check_chunk_ok n r : n <= MAX_CHUNK_BYTES -> n <= r -> (r <> 0 -> n <> 0) -> check_chunk_len n r = Ok tt.
Proof.
  intros Hm Hr Hz. unfold check_chunk_len. rewrite (proj2 (N.ltb_ge _ _) Hm), (proj2 (N.ltb_ge _ _) Hr). simpl.
  destruct (N.eqb_spec n 0), (N.ltb_spec 0 r); simpl; try done. lia.
Qed.

Lemma check_chunk_inv n r : check_chunk_len n r = Ok tt -> n <= r /\ (n = 0 -> r = 0).
Proof.
  intros Hc. split; [by apply check_chunk_le|]. intros ->. unfold check_chunk_len in Hc.
  destruct (_ || _); [done|]. simpl in Hc. destruct (N.ltb_spec 0 r); [done|lia].
Qed.

(** ** Any channel *)

Section channel.
Context `{BlobHash} {St : Type} (call : BlobRequest -> St -> result BlobError BlobReply * St).

Lemma download_loop_ok fuel id expected written s bytes s' :
  download_loop call fuel id expected written s = Some (Ok bytes, s') ->
  blob_of bytes = id /\ (forall n, expected = Some n -> blen bytes = n).
Proof.
  revert written s. induction fuel as [|fuel IH]; intros written s; cbn [download_loop]; [done|].
  destruct (call _ s) as [[reply|e] s1]; [|done]. destruct reply as [|cid coff total data| | |]; try done.
  destruct (negb (bool_decide (cid = id))); [done|].
  destruct (bool_decide (is_Some expected) && _) eqn:Hexp; [done|].
  destruct (negb _ || _); [done|]. destruct (check_chunk_len _ _) as [[]|e]; [|done].
  destruct (N.eqb_spec (blen (written ++ data)) total) as [Ht|]; [|apply IH].
  destruct (bool_decide_reflect (blob_of (written ++ data) = id)) as [Hh|]; [|done]. intros [= <- <-]. split; [done|]. intros n ->.
  rewrite bool_decide_true in Hexp by eauto. simpl in Hexp. apply negb_false_iff, bool_decide_eq_true in Hexp. congruence.
Qed.

Lemma download_loop_ends fuel id n written s :
  blen written <= n -> n < blen written + N.of_nat fuel -> is_Some (download_loop call fuel id (Some n) written s).
Proof.
  revert written s. induction fuel as [|fuel IH]; intros written s Hw Hf; [lia|]. cbn [download_loop].
  destruct (call _ s) as [[reply|e] s1]; [|by eauto]. destruct reply as [|cid coff total data| | |]; try by eauto.
  destruct (negb (bool_decide (cid = id))); [by eauto|].
  destruct (bool_decide (is_Some (Some n)) && negb (bool_decide (Some n = Some total))) eqn:Hexp; [by eauto|].
  assert (total = n) as ->.
  { rewrite (bool_decide_true (is_Some (Some n))) in Hexp by eauto. simpl in Hexp.
    apply negb_false_iff, bool_decide_eq_true in Hexp. congruence. }
  destruct (negb _ || _); [by eauto|]. destruct (check_chunk_len _ _) as [[]|e] eqn:Hc; [|by eauto].
  apply check_chunk_inv in Hc as [Hle Hz].
  destruct (N.eqb_spec (blen (written ++ data)) n) as [Ht|Hne]; [by eauto|].
  rewrite blen_app in Hne. apply IH; rewrite blen_app; lia.
Qed.

(** C40 A download never hands over other content than the blob it asked for, whoever
    answers: what it leaves in the writer hashes to the id and has the expected size.
    When the size is known beforehand, it also ends within that many exchanges and
    one, however the peer cuts the chunks. *)
Theorem download_sound (id : BlobId) (expected : option N) (s : St) (fuel : nat) :
  (forall bytes s', download_blob call fuel id expected s = Some (Ok bytes, s') ->
     blob_of bytes = id /\ (forall n, expected = Some n -> blen bytes = n)) /\
  (forall n, expected = Some n -> n < N.of_nat fuel -> is_Some (download_blob call fuel id expected s)).
Proof.
  split; [intros bytes s'; apply download_loop_ok|].
  intros n -> Hf. apply download_loop_ends; [apply N.le_0_l|exact Hf].
Qed.
End channel.

(** ** The store behind the channel *)

Section store.
Context `{BlobHash} (now : N).

Definition store_call (owner : N) (req : BlobRequest) (b : BlobStore) : result BlobError BlobReply * BlobStore :=
  let '(reply, b) := handle io_fine now owner req b in (Ok reply, b).

Lemma evict_loop_absent fuel io keep id b :
  in_entries (bs_inner b) !! id = None -> in_entries (bs_inner (evict_loop fuel io keep b)) !! id = None.
Proof.
  revert b. induction fuel as [|fuel IH]; intros b Hn; simpl; [done|].
  destruct (evict_batch io keep b) as [[n b']|] eqn:Hb; [|done].
  assert (in_entries (bs_inner b') !! id = None).
  { unfold evict_batch in Hb. destruct (_ =? 0); [done|]. destruct (is_empty _); [done|]. simplify_eq. simpl.
    rewrite remove_all_entries, foldl_delete_lookup. by case_decide. }
  destruct (n <? _)%nat; [done|]. by apply IH.
Qed.

Lemma evict_loop_keeps fuel io id b :
  in_entries (bs_inner (evict_loop fuel io (Some id) b)) !! id = in_entries (bs_inner b) !! id /\
  bs_objects (evict_loop fuel io (Some id) b) !! id = bs_objects b !! id.
Proof.
  revert b. induction fuel as [|fuel IH]; intros b; simpl; [done|].
  destruct (evict_batch io (Some id) b) as [[n b']|] eqn:Hb; [|done].
  assert (Heq : in_entries (bs_inner b') !! id = in_entries (bs_inner b) !! id /\ bs_objects b' !! id = bs_objects b !! id).
  { unfold evict_batch in Hb. destruct (_ =? 0); [done|]. destruct (is_empty _); [done|]. simplify_eq. simpl.
    match goal with |- context [remove_all ?v _] => assert (Hid : id ∉ v) end.
    { by intros (_ & _ & ?)%elem_of_pick. }
    rewrite remove_all_entries, foldl_delete_lookup, decide_False by done. split; [done|].
    destruct (io_delete io); [|done]. rewrite foldl_delete_lookup. by case_decide. }
  destruct (n <? _)%nat; [done|]. destruct (IH b') as [-> ->]. done.
Qed.

Context (owner : N) (data : Bytes).
Notation id := (blob_of data).
Notation total := (blen data).

Definition want_at (offset : N) : N := N.min (total - offset) BLOB_CHUNK_BYTES.
Definition chunk_at (offset : N) : Bytes := take (N.to_nat (want_at offset)) (drop (N.to_nat offset) data).

Lemma blen_chunk offset : offset <= total -> blen (chunk_at offset) = want_at offset.
Proof. intros Ho. unfold chunk_at, want_at, blen in *. rewrite length_take, length_drop. lia. Qed.

Lemma take_chunk offset : take (N.to_nat offset) data ++ chunk_at offset = take (N.to_nat (offset + want_at offset)) data.
Proof.
  unfold chunk_at. rewrite N2Nat.inj_add, take_take_drop. done.
Qed.

(** The upload is under way with [offset] bytes received. *)
Definition under_way (offset : N) (b : BlobStore) : Prop :=
  in_entries (bs_inner b) !! id = None /\ 0 < offset < total /\
  exists u, in_uploads (bs_inner b) !! (owner, id) = Some (Idle u) /\
    up_data u = take (N.to_nat offset) data /\ up_received u = offset /\ up_total u = total.

Definition stored (b : BlobStore) : Prop :=
  be_size <$> in_entries (bs_inner b) !! id = Some total /\ bs_objects b !! id = Some data.

Definition advanced (offset : N) (reply : BlobReply) (b : BlobStore) : Prop :=
  let next := offset + want_at offset in
  if next <? total then reply = RepWritten id next false /\ under_way next b
  else reply = RepWritten id total true /\ stored b.

Lemma insert_fresh_size size i :
  in_entries i !! id = None -> be_size <$> in_entries (index_insert id size i) !! id = Some size.
Proof.
  intros Hn. unfold index_insert. rewrite bool_decide_false; [simpl; by rewrite lookup_insert_eq|].
  rewrite Hn. by intros [].
Qed.

Lemma commit_stored u t b :
  up_data u = data -> up_total u = total -> in_entries (bs_inner b) !! id = None ->
  in_uploads (bs_inner b) !! (owner, id) = Some (Writing t) ->
  let out := commit io_fine owner id u b in out.1 = RepWritten id total true /\ stored out.2.
Proof.
  intros Hd Ht Hn Hk. unfold commit, commit_hold. rewrite Hd, bool_decide_true by done.
  cbn [negb io_fine io_sync io_mkdir io_rename andb]. unfold abandon_slot. rewrite Hk, Ht. cbn [fst snd]. split; [done|].
  match goal with |- stored (evict_to_fit _ _ ?b') => destruct (evict_loop_keeps (S (size (in_entries (bs_inner b')))) io_fine id b') as [He Ho] end.
  unfold stored, evict_to_fit. rewrite He, Ho. split; [by apply insert_fresh_size|]. simpl. apply lookup_insert_eq.
Qed.

(** One chunk, on an upload that received exactly the bytes before [offset]. *)
Lemma append_advances offset u t b :
  offset <= total -> (offset = total -> total = 0) ->
  up_data u = take (N.to_nat offset) data -> up_received u = offset -> up_total u = total ->
  in_entries (bs_inner b) !! id = None -> in_uploads (bs_inner b) !! (owner, id) = Some (Writing t) ->
  let out := append_chunk (commit io_fine owner id) io_fine now owner id total offset (chunk_at offset) u b in
  advanced offset out.1 out.2.
Proof.
  intros Ho Hz Hd Hr Ht Hn Hk. unfold append_chunk. cbn [io_fine io_create io_write].
  rewrite Ht, Hr, !N.eqb_refl. cbn [negb]. rewrite blen_chunk by done.
  pose proof chunk_bytes_pos. pose proof chunk_bytes_max.
  rewrite check_chunk_ok by (unfold want_at; lia). cbn [up_received up_total]. unfold advanced. cbv zeta.
  destruct (N.ltb_spec (offset + want_at offset) total) as [Hl|Hl].
  - rewrite Hk. cbn [fst snd]. split; [done|]. split; [done|]. split; [unfold want_at in *; lia|].
    eexists. split; [cbn; apply lookup_insert_eq|]. cbn. split; [|done]. by rewrite Hd, take_chunk.
  - apply (commit_stored _ t); [|done..]. cbn [up_data]. rewrite Hd, take_chunk.
    apply take_ge. unfold want_at, blen in *. lia.
Qed.

(** Room for the upload, and nothing of it there yet. *)
Definition admissible (b : BlobStore) : Prop :=
  in_entries (bs_inner b) !! id = None /\ in_uploads (bs_inner b) !! (owner, id) = None /\
  in_upload_bytes (bs_inner b) + total <= bs_max_bytes b /\ bs_max_bytes b < u64_max.

Lemma touch_absent i : in_entries i !! id = None ->
  touch id i = (false, set_index (in_entries i) (in_lru i) (in_tick i + 1) (in_total_bytes i) i).
Proof. intros Hn. unfold touch. by rewrite Hn. Qed.

Lemma first_chunk b :
  admissible b ->
  let out := handle io_fine now owner (ReqWrite id total 0 (chunk_at 0)) b in advanced 0 out.1 out.2.
Proof.
  intros (Hn & Hk & Hroom & Hmax). cbn [handle]. unfold write_chunk, write_begin.
  rewrite (proj2 (N.ltb_ge _ _)) by lia. rewrite touch_absent by done. cbn [in_uploads set_index]. rewrite Hk, N.eqb_refl.
  unfold reserve_upload. cbn [in_upload_bytes set_index].
  rewrite (proj2 (N.ltb_ge _ _)) by (unfold saturating_add; lia). unfold append, append_with. cbn [io_fine io_create].
  apply (append_advances 0 (new_upload now total) total); try done; [apply N.le_0_l| |].
  - apply evict_loop_absent. done.
  - rewrite evict_uploads. cbn. apply lookup_insert_eq.
Qed.

Lemma next_chunk offset b :
  under_way offset b -> total <= bs_max_bytes b ->
  let out := handle io_fine now owner (ReqWrite id total offset (chunk_at offset)) b in advanced offset out.1 out.2.
Proof.
  intros (Hn & [Hpos Hlt] & u & Hk & Hd & Hr & Ht) Hmax. cbn [handle]. unfold write_chunk, write_begin.
  rewrite (proj2 (N.ltb_ge _ _)) by lia. rewrite touch_absent by done. cbn [in_uploads set_index]. rewrite Hk.
  rewrite (proj2 (N.eqb_neq offset 0)) by lia. cbn [negb]. unfold append, append_with.
  apply (append_advances offset u total); try done; [lia|lia|]. rewrite Ht. cbn. apply lookup_insert_eq.
Qed.

Lemma handle_max req b : bs_max_bytes (handle io_fine now owner req b).2 = bs_max_bytes b.
Proof.
  assert (Ha : forall o i b, bs_max_bytes (abandon_slot o i b) = bs_max_bytes b) by (intros; unfold abandon_slot; by case_match).
  assert (He : forall io k b, bs_max_bytes (evict_to_fit io k b) = bs_max_bytes b)
    by (intros; unfold evict_to_fit; apply evict_loop_frame).
  assert (Hc : forall i u b, bs_max_bytes (commit io_fine owner i u b).2 = bs_max_bytes b).
  { intros. unfold commit, commit_hold. repeat (case_match; simplify_eq; simpl; rewrite ?He, ?Ha; try done). by simpl. }
  destruct req; simpl.
  - unfold missing, missing_ids. by repeat (case_match; simplify_eq; simpl).
  - unfold read_chunk. by repeat (case_match; simplify_eq; simpl).
  - unfold write_chunk. destruct (write_begin _ _ _ _ _) as [o b1] eqn:Hb.
    assert (H1 : bs_max_bytes b1 = bs_max_bytes b).
    { unfold write_begin, reserve_upload in Hb. by repeat (case_match; simplify_eq; simpl; rewrite ?Ha). }
    destruct o as [|up ev]; [done|]. simpl. unfold append, append_with, append_chunk.
    by repeat (case_match; simpl; rewrite ?Ha, ?Hc, ?He; try congruence).
Qed.

Lemma upload_loop_stores fuel offset b g :
  store_inv b g -> (offset = 0 /\ admissible b \/ under_way offset b /\ total <= bs_max_bytes b) ->
  total - offset < N.of_nat fuel * BLOB_CHUNK_BYTES ->
  exists b', upload_loop (store_call owner) fuel id total offset (drop (N.to_nat offset) data) b = Some (Ok total, b') /\
             store_inv b' g /\ stored b'.
Proof.
  revert offset b. induction fuel as [|fuel IH]; intros offset b Hs Hst Hf; [lia|].
  cbn [upload_loop]. fold (want_at offset). fold (chunk_at offset).
  assert (Hoff : offset <= total) by (destruct Hst as [[-> _]|[(_ & [_ ?] & _) _]]; lia).
  assert (Hmax : total <= bs_max_bytes b) by (destruct Hst as [[_ (_ & _ & ? & _)]|[_ ?]]; lia).
  rewrite (proj2 (N.ltb_ge (blen (drop _ data)) _)) by (unfold want_at, blen in *; rewrite length_drop; lia).
  assert (Hadv : let out := handle io_fine now owner (ReqWrite id total offset (chunk_at offset)) b in advanced offset out.1 out.2)
    by (destruct Hst as [[-> Hst]|[Hst _]]; [by apply first_chunk|by apply next_chunk]).
  pose proof (handle_max (ReqWrite id total offset (chunk_at offset)) b) as Hm.
  pose proof (handle_holds io_fine now owner (ReqWrite id total offset (chunk_at offset)) b g Hs) as Hh.
  apply hold_steps_inv in Hh; [|done]. unfold store_call at 1.
  destruct (handle io_fine now owner _ b) as [reply b1]. cbn [fst snd] in *. unfold advanced in Hadv. cbv zeta in Hadv.
  destruct (N.ltb_spec (offset + want_at offset) total) as [Hl|Hl]; destruct Hadv as [-> Hadv].
  - rewrite N.eqb_refl. cbn [andb].
    rewrite drop_drop, <-N2Nat.inj_add. apply IH; [done|right; split; [done|congruence]|].
    unfold want_at in *. lia.
  - exists b1. split; [|done]. do 3 f_equal. unfold want_at in *. lia.
Qed.

Lemma upload_fuel_enough size : size < N.of_nat (upload_fuel size) * BLOB_CHUNK_BYTES.
Proof.
  unfold upload_fuel. rewrite Nat2N.inj_succ, N2Nat.id. pose proof chunk_bytes_pos.
  pose proof (N.mul_succ_div_gt size BLOB_CHUNK_BYTES). lia.
Qed.

(** *** Reading it back *)

Lemma read_stored reader offset b :
  stored b -> offset <= total ->
  let out := handle io_fine now reader (ReqRead id offset BLOB_CHUNK_BYTES) b in
  out.1 = RepChunk id offset total (chunk_at offset) /\ stored out.2.
Proof.
  intros [Hsz Hob] Ho. cbn [handle]. unfold read_chunk, size_of. cbn [bs_inner with_inner].
  rewrite (size_lookup _ _ id (touch_sizes id (bs_inner b))), Hsz. rewrite (proj2 (N.ltb_ge _ _)) by done.
  cbn [bs_objects with_inner]. rewrite Hob. cbn [io_fine io_read]. rewrite <-N.min_assoc, N.min_id.
  fold (want_at offset). unfold read_exact.
  rewrite (proj2 (N.leb_le _ _)) by (unfold want_at; lia). split; [done|]. split; [|done].
  cbn [snd bs_inner with_inner]. by rewrite (size_lookup _ _ id (touch_sizes id (bs_inner b))).
Qed.

Lemma download_loop_reads fuel reader expected offset b g :
  store_inv b g -> stored b -> (forall n, expected = Some n -> n = total) ->
  offset <= total -> (offset = total -> total = 0) -> total - offset < N.of_nat fuel * BLOB_CHUNK_BYTES ->
  exists b', download_loop (store_call reader) fuel id expected (take (N.to_nat offset) data) b = Some (Ok data, b') /\
             store_inv b' g /\ stored b'.
Proof.
  revert offset b. induction fuel as [|fuel IH]; intros offset b Hs Hst Hex Ho Hz Hf; [lia|]. cbn [download_loop].
  assert (Hlen : blen (take (N.to_nat offset) data) = offset) by (unfold blen in *; rewrite length_take; lia).
  rewrite Hlen. destruct (read_stored reader offset b Hst Ho) as [Hrep Hst'].
  pose proof (handle_holds io_fine now reader (ReqRead id offset BLOB_CHUNK_BYTES) b g Hs) as Hh.
  apply hold_steps_inv in Hh; [|done]. unfold store_call at 1.
  destruct (handle io_fine now reader _ b) as [reply b1]. cbn [fst snd] in *. subst reply.
  rewrite (bool_decide_true (id = id)) by done. cbn [negb].
  replace (bool_decide (is_Some expected) && negb (bool_decide (expected = Some total))) with false.
  2:{ destruct expected as [n|]; [|by rewrite bool_decide_false by (by intros [])].
      rewrite (Hex n eq_refl), (bool_decide_true (Some total = Some total)) by done. by rewrite andb_false_r. }
  rewrite N.eqb_refl, (proj2 (N.ltb_ge _ _)) by done. cbn [negb orb].
  pose proof chunk_bytes_pos. pose proof chunk_bytes_max.
  rewrite blen_chunk, check_chunk_ok by (unfold want_at; lia). rewrite take_chunk.
  assert (Hlen' : blen (take (N.to_nat (offset + want_at offset)) data) = offset + want_at offset)
    by (unfold want_at, blen in *; rewrite length_take; lia).
  rewrite Hlen'. destruct (N.eqb_spec (offset + want_at offset) total) as [He|Hne].
  - exists b1. rewrite He. rewrite take_ge by (unfold blen; lia). by rewrite bool_decide_true.
  - apply IH; try done; unfold want_at in *; lia.
Qed.
End store.

Section theorems.
Context `{BlobHash}.

(** C39 What one connection uploads, another downloads: on a store with room for it and
    without the blob, an upload of [data] under its own id succeeds whatever the number
    of chunks, the store then holds it (it is not evicted to make room for itself), and
    a download by any connection yields the same bytes. *)
Theorem upload_then_download (data : Bytes) (now later owner reader : N) (b : BlobStore) (g : list (list BlobId)) :
  store_inv b g -> admissible owner data b ->
  exists b1 b2,
    upload_blob (store_call now owner) (blob_of data) (blen data) data b = Some (Ok (blen data), b1) /\
    size_of (blob_of data) b1 = Some (blen data) /\
    download_blob (store_call later reader) (upload_fuel (blen data)) (blob_of data) (Some (blen data)) b1 = Some (Ok data, b2) /\
    store_inv b2 g.
Proof.
  intros Hs Hadm. pose proof (upload_fuel_enough (blen data)) as Hf.
  destruct (upload_loop_stores now owner data (upload_fuel (blen data)) 0 b g Hs) as (b1 & Hup & Hs1 & Hst); [by left|lia|].
  destruct (download_loop_reads later data (upload_fuel (blen data)) reader (Some (blen data)) 0 b1 g Hs1 Hst) as (b2 & Hdown & Hs2 & _);
    [by intros n [= <-]|lia|lia|lia|].
  exists b1, b2. split; [exact Hup|]. split; [apply Hst|]. split; [exact Hdown|done].
Qed.
End theorems.

Lemma sample_admissible :
  store_inv (H := plain_hash) sample_store [] /\ admissible (H := plain_hash) 7 [9; 9; 9] sample_store.
Proof.
  split; [apply (open_inv (H := plain_hash)); [done|by repeat constructor]|]. repeat split; vm_compute; try done.
Qed.

Lemma upload_then_download_witness :
  exists b1 b2,
    upload_blob (store_call (H := plain_hash) 5 7) [9; 9; 9] 3 [9; 9; 9] sample_store = Some (Ok 3, b1) /\
    size_of [9; 9; 9] b1 = Some 3 /\
    download_blob (H := plain_hash) (store_call (H := plain_hash) 6 8) (upload_fuel 3) [9; 9; 9] (Some 3) b1 = Some (Ok [9; 9; 9], b2) /\
    store_inv (H := plain_hash) b2 [].
Proof.
  destruct sample_admissible as [Hs Ha].
  exact (upload_then_download (H := plain_hash) [9; 9; 9] 5 6 7 8 sample_store [] Hs Ha).
Defined.

Lemma download_sound_witness :
  is_Some (download_blob (H := plain_hash) (store_call (H := plain_hash) 5 7) 3 [2; 3] (Some 2) sample_store) /\ plain_hash [2; 3] = [2; 3].
Proof.
  destruct (download_sound (H := plain_hash) (store_call (H := plain_hash) 5 7) [2; 3] (Some 2) sample_store 3) as [Hok Hends].
  split; [apply (Hends 2); done|].
  refine (proj1 (Hok [2; 3] (store_call (H := plain_hash) 5 7 (ReqRead [2; 3] 0 BLOB_CHUNK_BYTES) sample_store).2 _)).
  vm_compute. reflexivity.
Defined.
