(* ===== verification/ClusterAuth.v ===== *)
(** * ClusterAuth: the shared-secret handshake

    Models [crates/core/src/cluster_auth.rs]: the cluster secret (its forms and the
    resolution of its sources) and the mutual challenge-response that both ends run
    before any message.  HMAC-SHA256 is [sign] of the [Aead] interface; what the
    generator yields ([None] when it fails) and the frames a peer's side delivers are
    arguments, and a side returns its outcome with the frames it sent.  Files are read
    through [read] and [is_file].  Writing secret files, the pause before a REJECT, a
    write that fails (the handshake then ends with its error) and the texts of the
    errors are left out. *)

From S2P Require Import Prelude Collections RustStr Capabilities Blob Protocol.
Local Open Scope N_scope.
Local Open Scope result_scope.

Definition AUTH_VERSION : N := 2.
Definition AUTH_VERSION_V1 : N := 1.
Definition MIN_SECRET_BYTES : N := 16.
Definition GENERATED_SECRET_BYTES : N := 32.
Definition MAX_SECRET_BYTES : N := 256.
Definition NONCE_LEN : nat := 32.
Definition MAC_LEN : nat := 32.
Definition PRE_AUTH_MAX_FRAME : N := 1024.
Definition MAX_REJECT_REASON : nat := 128.
Definition ENV_SECRET : Str := str "OXIDESWARM_SECRET".
Definition ENV_SECRET_FILE : Str := str "OXIDESWARM_SECRET_FILE".

Definition REJECT_AUTH_FAILED : Str := str "authentication failed".
Definition REJECT_AUTH_REQUIRED : Str := str "authentication required".
Definition REJECT_NO_SECRET : Str := str "server has no secret configured".
Definition REJECT_UNSUPPORTED_VERSION : Str := str "unsupported auth version".

Definition KIND_HELLO : N := 1.
Definition KIND_CHALLENGE : N := 2.
Definition KIND_PROOF : N := 3.
Definition KIND_OK : N := 4.
Definition KIND_REJECT : N := 5.

Definition LABEL_SERVER : Bytes := str "oxs2-srv".
Definition LABEL_CLIENT : Bytes := str "oxs2-cli".
Definition LABEL_KEY : Bytes := str "oxs2-key".
Definition LABEL_EQ : Bytes := str "oxs1-eq".

(** ** The secret *)

Record ClusterSecret := { cs_bytes : Bytes }.

(** The reasons behind [GridError::Config]. *)
Inductive SecretError :=
| SecretTooShort
| SecretTooLong
| SecretNotHex
| SecretUnreadable (path : Str)
| SecretFileEmpty (path : Str)
| SecretFileInvalid (path : Str) (e : SecretError)
| SecretBlank (source : Str)
| SecretOf (source : Str) (e : SecretError).

Definition from_bytes (bytes : Bytes) : result SecretError ClusterSecret :=
  if blen bytes <? MIN_SECRET_BYTES then Err SecretTooShort
  else if MAX_SECRET_BYTES <? blen bytes then Err SecretTooLong
  else Ok {| cs_bytes := bytes |}.

Definition from_hex (text : Str) : result SecretError ClusterSecret :=
  bytes <-? ok_or SecretNotHex (hex_decode (trim text)); from_bytes bytes.

Definition to_hex (s : ClusterSecret) : Str := hex_encode (cs_bytes s).

Definition secret_line (l : Str) : bool := negb (is_empty l) && negb (starts_with (str "#") l).

Section files.
Context (read : Str -> option Str) (is_file : Str -> bool).

Definition load_file (path : Str) : result SecretError ClusterSecret :=
  text <-? ok_or (SecretUnreadable path) (read path);
  line <-? ok_or (SecretFileEmpty path) (List.find secret_line (map trim (lines text)));
  map_err (SecretFileInvalid path) (from_hex line).

(** [is_empty] of a trimmed value. *)
Definition is_blank (value : Str) : bool := is_empty (trim value).

Definition resolve_with (explicit_value explicit_file : option Str) (env : Str -> option Str) (default_file : option Str)
    : result SecretError (option ClusterSecret) :=
  match explicit_value with
  | Some value =>
      if is_blank value then Err (SecretBlank (str "--secret"))
      else map_err (SecretOf (str "--secret")) (result_map Some (from_hex value))
  | None =>
  match explicit_file with
  | Some path => if is_empty path then Err (SecretBlank (str "--secret-file")) else result_map Some (load_file path)
  | None =>
  match env ENV_SECRET with
  | Some value =>
      if is_blank value then Err (SecretBlank ENV_SECRET)
      else map_err (SecretOf ENV_SECRET) (result_map Some (from_hex value))
  | None =>
  match env ENV_SECRET_FILE with
  | Some path => if is_blank path then Err (SecretBlank ENV_SECRET_FILE) else result_map Some (load_file (trim path))
  | None =>
  match default_file with
  | Some path => if is_file path then result_map Some (load_file path) else Ok None
  | None => Ok None
  end end end end end.
End files.

(** ** Message authentication *)

Section mac.
Context `{Aead}.

Definition mac (s : ClusterSecret) (parts : list Bytes) : Bytes := sign (cs_bytes s) (concat parts).
(** [hmac::verify] compares the whole tag. *)
Definition verify_mac (s : ClusterSecret) (parts : list Bytes) (tag : Bytes) : bool := bool_decide (tag = mac s parts).
Definition derive (s : ClusterSecret) (label : Str) : Bytes := mac s [utf8_encode label].
Definition derive_hex (s : ClusterSecret) (label : Str) : Str := hex_encode (derive s label).
Definition secret_eq (s other : ClusterSecret) : bool := verify_mac s [LABEL_EQ] (mac other [LABEL_EQ]).

(** What each tag authenticates. *)
Definition server_parts (client_nonce server_nonce : Bytes) : list Bytes := [LABEL_SERVER; client_nonce; server_nonce].
Definition client_parts (server_nonce client_nonce : Bytes) : list Bytes := [LABEL_CLIENT; server_nonce; client_nonce].
Definition key_parts (client_nonce server_nonce : Bytes) : list Bytes := [LABEL_KEY; client_nonce; server_nonce].

(** ** Frames *)

Definition auth_frame (kind : N) (parts : list Bytes) : Bytes := WIRE_FORMAT_AUTH :: kind :: concat parts.

Definition split_auth_frame (frame : Bytes) : option (N * Bytes) :=
  match frame with
  | tag :: kind :: body => if tag =? WIRE_FORMAT_AUTH then Some (kind, body) else None
  | _ => None
  end.

Definition recv_auth_frame (ev : FrameEvent) : result ProtocolError (option Bytes) := recv_raw_frame_max PRE_AUTH_MAX_FRAME ev.

(** The longest prefix of at most [max] bytes that ends between characters. *)
Fixpoint truncate_at_boundary (max : N) (s : Str) : Str :=
  match s with
  | [] => []
  | c :: s => if utf8_char_len c <=? max then c :: truncate_at_boundary (max - utf8_char_len c) s else []
  end.

Definition reject_frame (reason : Str) : Bytes :=
  auth_frame KIND_REJECT [utf8_encode (truncate_at_boundary (N.of_nat MAX_REJECT_REASON) reason)].

(** The texts of [AuthFailed] and [HandshakeFailed], by what they say. *)
Inductive AuthFailure :=
| MasterHasNoSecret | MasterRejectedSecret | MasterOtherVersion | MasterRejected (reason : Str)
| FrameOver (max : N) | NotAuthProtocol | UnexpectedFrame | MalformedChallenge | MasterUnproven | ClosedAfterProof
| FirstFrameOver (max : N) | NotHello | PeerVersion1 | PeerVersion (version : N) | EmptyHello | MalformedHello
| ProofFrameOver (max : N) | MalformedProof | InvalidProof.

Inductive AuthError :=
| AuthFailed (why : AuthFailure)
| AuthRequired
| HandshakeClosed
| ConnectionClosed
| AeProtocol (e : ProtocolError)
| RandomFailed.

Definition is_ascii_graphic (c : char) : bool := (33 <=? c) && (c <=? 126).
Definition sanitize (c : char) : char := if is_ascii_graphic c || (c =? 32) then c else 63.

Definition error_from_reject (body : Bytes) : AuthError :=
  let reason := map sanitize (from_utf8_lossy (take MAX_REJECT_REASON body)) in
  if bool_decide (reason = REJECT_AUTH_REQUIRED) then AuthRequired
  else if bool_decide (reason = REJECT_NO_SECRET) then AuthFailed MasterHasNoSecret
  else if bool_decide (reason = REJECT_AUTH_FAILED) then AuthFailed MasterRejectedSecret
  else if bool_decide (reason = REJECT_UNSUPPORTED_VERSION) then AuthFailed MasterOtherVersion
  else AuthFailed (MasterRejected reason).

Definition handshake_read_error (e : ProtocolError) : AuthError :=
  match e with PeFrameTooLarge _ max => AuthFailed (FrameOver max) | e => AeProtocol e end.

(** ** The client *)

Definition hello_frame (client_nonce : Bytes) : Bytes := auth_frame KIND_HELLO [[AUTH_VERSION]; client_nonce].

(** From the challenge to the proof: the server's nonce and the frame to send. *)
Definition client_answer (s : ClusterSecret) (client_nonce : Bytes) (ev : FrameEvent) : result AuthError (Bytes * Bytes) :=
  frame <-? map_err handshake_read_error (recv_auth_frame ev);
  frame <-? ok_or HandshakeClosed frame;
  split <-? ok_or (AuthFailed NotAuthProtocol) (split_auth_frame frame);
  let '(kind, body) := split in
  if kind =? KIND_CHALLENGE then
    if negb (length body =? NONCE_LEN + MAC_LEN)%nat then Err (AuthFailed MalformedChallenge)
    else
      let server_nonce := take NONCE_LEN body in
      if negb (verify_mac s (server_parts client_nonce server_nonce) (drop NONCE_LEN body)) then Err (AuthFailed MasterUnproven)
      else Ok (server_nonce, auth_frame KIND_PROOF [mac s (client_parts server_nonce client_nonce)])
  else if kind =? KIND_REJECT then Err (error_from_reject body)
  else Err (AuthFailed UnexpectedFrame).

Definition client_finish (s : ClusterSecret) (client_nonce server_nonce : Bytes) (ev : FrameEvent) : result AuthError Bytes :=
  frame <-? map_err handshake_read_error (recv_auth_frame ev);
  frame <-? ok_or (AuthFailed ClosedAfterProof) frame;
  match split_auth_frame frame with
  | Some (kind, body) =>
      if (kind =? KIND_OK) && is_empty body then Ok (mac s (key_parts client_nonce server_nonce))
      else if kind =? KIND_REJECT then Err (error_from_reject body)
      else Err (AuthFailed UnexpectedFrame)
  | None => Err (AuthFailed UnexpectedFrame)
  end.

(** The outcome and the frames sent; [challenge] and [verdict] are what the two reads
    yield. *)
Definition client_handshake (s : ClusterSecret) (rng : option Bytes) (challenge verdict : FrameEvent)
    : result AuthError Bytes * list Bytes :=
  match rng with
  | None => (Err RandomFailed, [])
  | Some client_nonce =>
      let hello := hello_frame client_nonce in
      match client_answer s client_nonce challenge with
      | Err e => (Err e, [hello])
      | Ok (server_nonce, proof) => (client_finish s client_nonce server_nonce verdict, [hello; proof])
      end
  end.

(** ** The server *)

(** [reject_peer]: the error for the log and the REJECT for the peer. *)
Definition reject_peer {A} (reason : Str) (why : AuthFailure) : result AuthError A * list Bytes :=
  (Err (AuthFailed why), [reject_frame reason]).

(** From the HELLO to the challenge: the client's and the server's nonce. *)
Definition server_challenge (s : ClusterSecret) (rng : option Bytes) (ev : FrameEvent) : result AuthError (Bytes * Bytes) * list Bytes :=
  match recv_auth_frame ev with
  | Err (PeFrameTooLarge _ max) => reject_peer REJECT_AUTH_REQUIRED (FirstFrameOver max)
  | Err e => (Err (AeProtocol e), [])
  | Ok None => (Err ConnectionClosed, [])
  | Ok (Some hello) =>
      match split_auth_frame hello with
      | Some (kind, body) =>
          if negb (kind =? KIND_HELLO) then reject_peer REJECT_AUTH_REQUIRED NotHello
          else
            match head body with
            | None => reject_peer REJECT_AUTH_FAILED EmptyHello
            | Some version =>
                if version =? AUTH_VERSION then
                  if negb (length body =? 1 + NONCE_LEN)%nat then reject_peer REJECT_AUTH_FAILED MalformedHello
                  else
                    match rng with
                    | None => (Err RandomFailed, [])
                    | Some server_nonce =>
                        let client_nonce := drop 1 body in
                        (Ok (client_nonce, server_nonce),
                         [auth_frame KIND_CHALLENGE [server_nonce; mac s (server_parts client_nonce server_nonce)]])
                    end
                else if version =? AUTH_VERSION_V1 then reject_peer REJECT_UNSUPPORTED_VERSION PeerVersion1
                else reject_peer REJECT_UNSUPPORTED_VERSION (PeerVersion version)
            end
      | None => reject_peer REJECT_AUTH_REQUIRED NotHello
      end
  end.

(** From the proof to the session key. *)
Definition server_verdict (s : ClusterSecret) (client_nonce server_nonce : Bytes) (ev : FrameEvent)
    : result AuthError Bytes * list Bytes :=
  match recv_auth_frame ev with
  | Err (PeFrameTooLarge _ max) => reject_peer REJECT_AUTH_FAILED (ProofFrameOver max)
  | Err e => (Err (AeProtocol e), [])
  | Ok None => (Err ConnectionClosed, [])
  | Ok (Some proof) =>
      match split_auth_frame proof with
      | Some (kind, tag) =>
          if negb ((kind =? KIND_PROOF) && (length tag =? MAC_LEN)%nat) then reject_peer REJECT_AUTH_FAILED MalformedProof
          else if negb (verify_mac s (client_parts server_nonce client_nonce) tag)
          then reject_peer REJECT_AUTH_FAILED InvalidProof
          else (Ok (mac s (key_parts client_nonce server_nonce)), [auth_frame KIND_OK []])
      | None => reject_peer REJECT_AUTH_FAILED MalformedProof
      end
  end.

Definition server_handshake (s : ClusterSecret) (rng : option Bytes) (hello proof : FrameEvent)
    : result AuthError Bytes * list Bytes :=
  match server_challenge s rng hello with
  | (Err e, sent) => (Err e, sent)
  | (Ok (client_nonce, server_nonce), sent) =>
      let '(outcome, more) := server_verdict s client_nonce server_nonce proof in (outcome, sent ++ more)
  end.
End mac.
