(* ===== verification/ClusterAuthProps.v ===== *)
(** * ClusterAuthProps: what the handshake guarantees

    [World] runs any number of client and server sessions of one cluster against a
    network that hands every session whatever frames it likes.  [agreement] shows that
    a server session only succeeds with a client session that answered this very
    challenge, and that both hold the same key. *)

From S2P Require Import Prelude Collections RustStr Capabilities Blob BlobProps Protocol ProtocolProps ClusterAuth.
Local Open Scope N_scope.
Local Open Scope result_scope.

(** HMAC-SHA256 yields 32 bytes. *)
Class HmacLaws `{Aead} := { sign_length k m : length (sign k m) = MAC_LEN }.

#[local] Opaque NONCE_LEN MAC_LEN.

Section world.
Context `{Aead} (s : ClusterSecret).

(** ** Sessions *)

(** A client session after its HELLO, after its PROOF, done, or failed (with the
    challenge it had answered, if any). *)
Inductive ClientPhase := CHello | CProved (server_nonce : Bytes) | CDone (server_nonce key : Bytes) | CFailed (answered : option Bytes).
Inductive ServerPhase := SChallenged | SDone (key : Bytes) | SFailed.

(** Sessions by the nonce they drew; a server session with the nonce its HELLO
    brought.  [w_signed] is everything the holders of the secret computed a tag of. *)
Record World := {
  w_clients : gmap Bytes ClientPhase;
  w_servers : gmap Bytes (Bytes * ServerPhase);
  w_signed : list Bytes
}.

Definition world0 : World := {| w_clients := ∅; w_servers := ∅; w_signed := [] |}.

Definition set_client (n : Bytes) (p : ClientPhase) (signed : list Bytes) (w : World) : World :=
  {| w_clients := <[n := p]> (w_clients w); w_servers := w_servers w; w_signed := signed ++ w_signed w |}.
Definition set_server (n c : Bytes) (p : ServerPhase) (signed : list Bytes) (w : World) : World :=
  {| w_clients := w_clients w; w_servers := <[n := (c, p)]> (w_servers w); w_signed := signed ++ w_signed w |}.

Definition answered (p : ClientPhase) : option Bytes :=
  match p with CHello => None | CProved sn => Some sn | CDone sn _ => Some sn | CFailed o => o end.

(** A tag that passes for one of [parts] on this network was computed by a holder of
    the secret. *)
Definition unforged_tag (w : World) (parts : list Bytes) (tag : Bytes) : Prop :=
  verify_mac s parts tag = true -> concat parts ∈ w_signed w.

Definition frame_body (ev : FrameEvent) : Bytes := match ev with Frame f => drop 2 f | _ => [] end.

(** One session draws a nonce or reads a frame.  Nonces have 32 bytes and are not
    drawn twice. *)
Inductive world_step : World -> World -> Prop :=
| ws_client_start n w :
    length n = NONCE_LEN -> w_clients w !! n = None -> world_step w (set_client n CHello [] w)
| ws_server_hello n c ev sent w :
    length n = NONCE_LEN -> w_servers w !! n = None -> server_challenge s (Some n) ev = (Ok (c, n), sent) ->
    world_step w (set_server n c SChallenged [concat (server_parts c n)] w)
| ws_client_challenge n ev w :
    w_clients w !! n = Some CHello ->
    unforged_tag w (server_parts n (take NONCE_LEN (frame_body ev))) (drop NONCE_LEN (frame_body ev)) ->
    world_step w match client_answer s n ev with
                 | Ok (sn, _) => set_client n (CProved sn) [concat (client_parts sn n)] w
                 | Err _ => set_client n (CFailed None) [] w
                 end
| ws_server_proof n c ev w :
    w_servers w !! n = Some (c, SChallenged) ->
    unforged_tag w (client_parts n c) (frame_body ev) ->
    world_step w match (server_verdict s c n ev).1 with
                 | Ok key => set_server n c (SDone key) [concat (key_parts c n)] w
                 | Err _ => set_server n c SFailed [] w
                 end
| ws_client_verdict n sn ev w :
    w_clients w !! n = Some (CProved sn) ->
    world_step w match client_finish s n sn ev with
                 | Ok key => set_client n (CDone sn key) [concat (key_parts n sn)] w
                 | Err _ => set_client n (CFailed (Some sn)) [] w
                 end
(** The secret also signs other labels: the dashboard token, the comparison. *)
| ws_other m w : take 5 m <> str "oxs2-" -> world_step w {| w_clients := w_clients w; w_servers := w_servers w; w_signed := m :: w_signed w |}.

Inductive world_reachable : World -> Prop :=
| wr_start : world_reachable world0
| wr_step w w' : world_reachable w -> world_step w w' -> world_reachable w'.

(** ** What the steps verified *)

Lemma split_auth_frame_some f kind body : split_auth_frame f = Some (kind, body) -> f = WIRE_FORMAT_AUTH :: kind :: body.
Proof.
  destruct f as [|t [|k b]]; simpl; try done. destruct (N.eqb_spec t WIRE_FORMAT_AUTH); [|done]. by intros [= <- <-]; subst.
Qed.

Lemma client_answer_ok n ev sn proof :
  client_answer s n ev = Ok (sn, proof) ->
  length sn = NONCE_LEN /\ sn = take NONCE_LEN (frame_body ev) /\
  verify_mac s (server_parts n sn) (drop NONCE_LEN (frame_body ev)) = true /\
  proof = auth_frame KIND_PROOF [mac s (client_parts sn n)].
Proof.
  unfold client_answer. destruct ev as [f|[]|]; simpl; try done.
  destruct (split_auth_frame f) as [[kind body]|] eqn:Hf; simpl; [|done].
  apply split_auth_frame_some in Hf as ->. destruct (kind =? KIND_CHALLENGE); [|by destruct (kind =? KIND_REJECT)].
  destruct (Nat.eqb_spec (length body) (NONCE_LEN + MAC_LEN)) as [Hl|]; simpl; [|done].
  destruct (verify_mac _ _ _) eqn:Hv; simpl; [|done]. intros [= <- <-]. cbn [drop].
  split; [|done]. rewrite length_take. lia.
Qed.

Lemma client_finish_ok n sn ev key : client_finish s n sn ev = Ok key -> key = mac s (key_parts n sn).
Proof.
  unfold client_finish. destruct ev as [f|[]|]; simpl; try done.
  destruct (split_auth_frame f) as [[kind body]|]; [|done]. destruct (_ && _); [by intros [= <-]|].
  by destruct (kind =? KIND_REJECT).
Qed.

Lemma server_challenge_ok n ev c n' sent :
  server_challenge s (Some n) ev = (Ok (c, n'), sent) ->
  n' = n /\ length c = NONCE_LEN /\ ev = Frame (hello_frame c) /\
  sent = [auth_frame KIND_CHALLENGE [n; mac s (server_parts c n)]].
Proof.
  unfold server_challenge, reject_peer. destruct ev as [f|[]|]; simpl; try done.
  destruct (split_auth_frame f) as [[kind body]|] eqn:Hf; [|done]. apply split_auth_frame_some in Hf as ->.
  destruct (N.eqb_spec kind KIND_HELLO) as [->|]; simpl; [|done].
  destruct body as [|v c']; simpl; [done|]. destruct (N.eqb_spec v AUTH_VERSION) as [->|]; [|by destruct (v =? AUTH_VERSION_V1)].
  destruct (Nat.eqb_spec (length c') NONCE_LEN) as [Hl|]; simpl; [|done]. intros [= <- <- <-].
  split; [done|]. split; [done|]. unfold hello_frame, auth_frame. simpl. by rewrite app_nil_r.
Qed.

Lemma server_verdict_ok c n ev key sent :
  server_verdict s c n ev = (Ok key, sent) ->
  key = mac s (key_parts c n) /\ verify_mac s (client_parts n c) (frame_body ev) = true /\
  ev = Frame (auth_frame KIND_PROOF [frame_body ev]) /\ sent = [auth_frame KIND_OK []].
Proof.
  unfold server_verdict, reject_peer. destruct ev as [f|[]|]; simpl; try done.
  destruct (split_auth_frame f) as [[kind tag]|] eqn:Hf; [|done]. apply split_auth_frame_some in Hf as ->.
  destruct (N.eqb_spec kind KIND_PROOF) as [->|]; simpl; [|done].
  destruct (Nat.eqb_spec (length tag) MAC_LEN); simpl; [|done]. destruct (verify_mac _ _ _) eqn:Hv; simpl; [|done].
  intros [= <- <-]. split; [done|]. split; [done|]. split; [|done]. unfold auth_frame. simpl. by rewrite app_nil_r.
Qed.

(** ** Tags authenticate exactly one triple *)

Lemma concat3 (a b c : Bytes) : concat [a; b; c] = a ++ b ++ c.
Proof. simpl. by rewrite app_nil_r. Qed.

Lemma parts_inj (l a b a' b' : Bytes) : length a = length a' -> concat [l; a; b] = concat [l; a'; b'] -> a = a' /\ b = b'.
Proof. rewrite !concat3. intros Hl Heq%app_inv_head. by apply app_inj_1 in Heq. Qed.

Lemma parts_label (l l' a b a' b' : Bytes) : length l = length l' -> concat [l; a; b] = concat [l'; a'; b'] -> l = l'.
Proof. rewrite !concat3. intros Hl Heq. by apply app_inj_1 in Heq as [? _]. Qed.

Lemma parts_prefix (l a b : Bytes) k : (k <= length l)%nat -> take k (concat [l; a; b]) = take k l.
Proof. intros Hk. rewrite concat3. by rewrite take_app_le. Qed.

(** ** The invariant *)

Record world_inv (w : World) : Prop := {
  wi_client_len n p : w_clients w !! n = Some p -> length n = NONCE_LEN;
  wi_server_len n c p : w_servers w !! n = Some (c, p) -> length n = NONCE_LEN /\ length c = NONCE_LEN;
  wi_signed m : m ∈ w_signed w ->
    (exists c n p, w_servers w !! n = Some (c, p) /\ m = concat (server_parts c n)) \/
    (exists c n p, w_clients w !! c = Some p /\ answered p = Some n /\ m = concat (client_parts n c)) \/
    take 8 m = LABEL_KEY \/ take 5 m <> str "oxs2-";
  wi_client c p n : w_clients w !! c = Some p -> answered p = Some n -> exists q, w_servers w !! n = Some (c, q);
  wi_client_key c n key : w_clients w !! c = Some (CDone n key) -> key = mac s (key_parts c n);
  wi_server n c key : w_servers w !! n = Some (c, SDone key) ->
    key = mac s (key_parts c n) /\ exists p, w_clients w !! c = Some p /\ answered p = Some n
}.

(** A tag of a challenge was computed for that challenge. *)
Lemma signed_server w c n :
  world_inv w -> length c = NONCE_LEN -> concat (server_parts c n) ∈ w_signed w -> exists p, w_servers w !! n = Some (c, p).
Proof.
  intros Hw Hc Hin. destruct (wi_signed w Hw _ Hin) as [(c' & n' & p & Hs & Heq)|[(c' & n' & p & _ & _ & Heq)|[Hk|Ho]]].
  - destruct (wi_server_len w Hw _ _ _ Hs) as [_ Hl]. apply parts_inj in Heq as [-> ->]; [eauto|congruence].
  - by apply parts_label in Heq.
  - unfold server_parts in Hk. by rewrite parts_prefix in Hk.
  - exfalso. apply Ho. unfold server_parts. by rewrite parts_prefix.
Qed.

Lemma signed_client w c n :
  world_inv w -> length n = NONCE_LEN -> concat (client_parts n c) ∈ w_signed w ->
  exists p, w_clients w !! c = Some p /\ answered p = Some n.
Proof.
  intros Hw Hn Hin. destruct (wi_signed w Hw _ Hin) as [(c' & n' & p & Hs & Heq)|[(c' & n' & p & Hc & Ha & Heq)|[Hk|Ho]]].
  - by apply parts_label in Heq.
  - destruct (wi_client w Hw _ _ _ Hc Ha) as [q Hq]. destruct (wi_server_len w Hw _ _ _ Hq) as [Hl _].
    apply parts_inj in Heq as [-> ->]; [eauto|congruence].
  - unfold client_parts in Hk. by rewrite parts_prefix in Hk.
  - exfalso. apply Ho. unfold client_parts. by rewrite parts_prefix.
Qed.

(** A client session moves on: it keeps the challenge it answered, what it answers
    is a server session's challenge to it, and it signs only for these. *)
Lemma set_client_inv n p signed w :
  world_inv w -> length n = NONCE_LEN ->
  (forall q sn, w_clients w !! n = Some q -> answered q = Some sn -> answered p = Some sn) ->
  (forall sn, answered p = Some sn -> exists q, w_servers w !! sn = Some (n, q)) ->
  (forall sn key, p = CDone sn key -> key = mac s (key_parts n sn)) ->
  (forall m, m ∈ signed -> (exists sn, answered p = Some sn /\ m = concat (client_parts sn n)) \/ take 8 m = LABEL_KEY) ->
  world_inv (set_client n p signed w).
Proof.
  intros Hw Hn Hkeep Hsrv Hkey Hsig.
  assert (Hext : forall c q sn, w_clients w !! c = Some q -> answered q = Some sn ->
            exists q', <[n := p]> (w_clients w) !! c = Some q' /\ answered q' = Some sn).
  { intros c q sn Hc Ha. destruct (decide (n = c)) as [<-|Hne]; [exists p; rewrite lookup_insert_eq; eauto|].
    exists q. by rewrite lookup_insert_ne. }
  split; cbn [w_clients w_servers w_signed set_client].
  - intros n' p' [[<- _]|[_ Hc]]%lookup_insert_Some; [done|by eapply wi_client_len].
  - intros n' c p'. by apply wi_server_len.
  - intros m [Hm|Hm]%elem_of_app.
    + destruct (Hsig m Hm) as [(sn & Ha & ->)|Hk]; [right; left|by right; right; left].
      exists n, sn, p. by rewrite lookup_insert_eq.
    + destruct (wi_signed w Hw m Hm) as [?|[(c & sn & q & Hc & Ha & ->)|?]]; [by left| |by right; right].
      right; left. destruct (Hext c q sn Hc Ha) as (q' & ? & ?). by exists c, sn, q'.
  - intros c p' sn [[<- <-]|[_ Hc]]%lookup_insert_Some Ha; [auto|by eapply wi_client].
  - intros c sn key [[<- ->]|[_ Hc]]%lookup_insert_Some; [auto|by eapply wi_client_key].
  - intros sn c key Hs. destruct (wi_server w Hw sn c key Hs) as [-> (q & Hc & Ha)]. split; [done|by eapply Hext].
Qed.

(** A server session moves on. *)
Lemma set_server_inv n c p signed w :
  world_inv w -> length n = NONCE_LEN -> length c = NONCE_LEN ->
  (forall c' q, w_servers w !! n = Some (c', q) -> c' = c) ->
  (forall key, p = SDone key -> key = mac s (key_parts c n) /\ exists q, w_clients w !! c = Some q /\ answered q = Some n) ->
  (forall m, m ∈ signed -> m = concat (server_parts c n) \/ take 8 m = LABEL_KEY) ->
  world_inv (set_server n c p signed w).
Proof.
  intros Hw Hn Hc Hkeep Hdone Hsig.
  assert (Hext : forall sn c' q, w_servers w !! sn = Some (c', q) -> exists q', <[n := (c, p)]> (w_servers w) !! sn = Some (c', q')).
  { intros sn c' q Hs. destruct (decide (n = sn)) as [<-|Hne]; [rewrite (Hkeep _ _ Hs), lookup_insert_eq; eauto|].
    exists q. by rewrite lookup_insert_ne. }
  split; cbn [w_clients w_servers w_signed set_server].
  - intros n' p'. by apply wi_client_len.
  - intros n' c' p' [[<- [= <- <-]]|[_ Hs]]%lookup_insert_Some; [done|by eapply wi_server_len].
  - intros m [Hm|Hm]%elem_of_app.
    + destruct (Hsig m Hm) as [->|Hk]; [left|by right; right; left]. exists c, n, p. by rewrite lookup_insert_eq.
    + destruct (wi_signed w Hw m Hm) as [(c' & sn & q & Hs & ->)|?]; [left|by right].
      destruct (Hext sn c' q Hs) as [q' ?]. by exists c', sn, q'.
  - intros c' q sn Hc' Ha. destruct (wi_client w Hw c' q sn Hc' Ha) as [q' Hs]. by eapply Hext.
  - intros c' sn key. by apply wi_client_key.
  - intros sn c' key [[<- [= <- ->]]|[_ Hs]]%lookup_insert_Some; [auto|by eapply wi_server].
Qed.

Lemma key_parts_label c n : take 8 (concat (key_parts c n)) = LABEL_KEY.
Proof. unfold key_parts. by rewrite parts_prefix. Qed.

Lemma world_step_inv w w' : world_inv w -> world_step w w' -> world_inv w'.
Proof.
  intros Hw Hstep. destruct Hstep as [n w Hn Hnew|n c ev sent w Hn Hnew Hch|n ev w Hc Hu|n c ev w Hs Hu|n sn ev w Hc|m w Hm].
  - apply set_client_inv; try done; [congruence|set_solver].
  - apply server_challenge_ok in Hch as (_ & Hl & _ & _). apply set_server_inv; try done; [congruence|set_solver].
  - pose proof (wi_client_len w Hw _ _ Hc) as Hn. destruct (client_answer s n ev) as [[sn proof]|e] eqn:Ha.
    + apply client_answer_ok in Ha as (Hl & Hsn & Hv & _). subst sn. apply Hu, signed_server in Hv as [q Hq]; [|done..].
      apply set_client_inv; try done; [intros ??; rewrite Hc; by intros [= <-]|by intros sn [= <-]; eauto|].
      intros m ->%list_elem_of_singleton. left. eauto.
    + apply set_client_inv; try done; [intros ??; rewrite Hc; by intros [= <-]|set_solver].
  - destruct (wi_server_len w Hw _ _ _ Hs) as [Hn Hl]. destruct (server_verdict s c n ev) as [[key|e] sent] eqn:Hv; cbn [fst].
    + apply server_verdict_ok in Hv as (-> & Hv & _ & _). apply Hu, signed_client in Hv; [|done..].
      apply set_server_inv; try done; [congruence|by intros key [= <-]|].
      intros m ->%list_elem_of_singleton. right. apply key_parts_label.
    + apply set_server_inv; try done; [congruence|set_solver].
  - pose proof (wi_client_len w Hw _ _ Hc) as Hn. pose proof (wi_client w Hw n _ sn Hc eq_refl) as Hq.
    destruct (client_finish s n sn ev) as [key|e] eqn:Hf.
    + apply client_finish_ok in Hf as ->. apply set_client_inv; try done.
      * intros q sn'. rewrite Hc. by intros [= <-] [= <-].
      * by intros sn' [= <-].
      * by intros sn' key [= <- <-].
      * intros m ->%list_elem_of_singleton. right. apply key_parts_label.
    + apply set_client_inv; try done; [intros q sn'; rewrite Hc; by intros [= <-] [= <-]|by intros sn' [= <-]|set_solver].
  - destruct Hw as [H1 H2 H3 H4 H5 H6]. split; try done. intros m' [->|Hm']%elem_of_cons; [by right; right; right|by apply H3].
Qed.

Lemma world_reachable_inv w : world_reachable w -> world_inv w.
Proof.
  induction 1 as [|w w' _ IH Hstep]; [|by eapply world_step_inv]. split; simpl; try done. set_solver.
Qed.

(** C17 Mutual authentication.  However the network orders, drops, repeats, redirects
    and makes up frames between any number of client and server sessions, short of
    forging a tag: a server session succeeds only when the client session whose HELLO
    it got has answered its very challenge, a client session answers only a challenge
    a server session issued for its own nonce, no two server sessions succeed with one
    client session, and two sessions that both succeed with each other hold the same
    key, derived from both nonces. *)
Theorem agreement (w : World) :
  world_reachable w ->
  (forall sn cn key, w_servers w !! sn = Some (cn, SDone key) ->
     exists p, w_clients w !! cn = Some p /\ answered p = Some sn /\
       forall key', p = CDone sn key' -> key' = key) /\
  (forall cn p sn, w_clients w !! cn = Some p -> answered p = Some sn -> exists q, w_servers w !! sn = Some (cn, q)) /\
  (forall cn sn key, w_clients w !! cn = Some (CDone sn key) -> key = mac s (key_parts cn sn)) /\
  (forall sn sn' cn key key', w_servers w !! sn = Some (cn, SDone key) -> w_servers w !! sn' = Some (cn, SDone key') -> sn = sn').
Proof.
  intros Hw%world_reachable_inv. split; [|split; [by apply wi_client|split; [by apply wi_client_key|]]].
  - intros sn cn key Hs. destruct (wi_server w Hw sn cn key Hs) as [-> (p & Hc & Ha)]. exists p. split; [done|]. split; [done|].
    intros key' ->. by eapply wi_client_key.
  - intros sn sn' cn key key' H1 H2. destruct (wi_server w Hw _ _ _ H1) as [_ (p & Hc & Ha)].
    destruct (wi_server w Hw _ _ _ H2) as [_ (p' & Hc' & Ha')]. congruence.
Qed.
End world.

Section run.
Context `{Aead} `{!HmacLaws}.

Lemma mac_length (s : ClusterSecret) parts : length (mac s parts) = MAC_LEN.
Proof. apply sign_length. Qed.

Lemma verify_own (s : ClusterSecret) parts : verify_mac s parts (mac s parts) = true.
Proof. by apply bool_decide_eq_true. Qed.

(** The handshake completes and keys the record layer.  Two holders of the secret
    that get each other's frames both succeed with one session key, and switching
    encryption on with it puts both directions in step.  The client says nothing but
    HELLO to a peer that does not prove it holds the secret; and the server succeeds
    only on a HELLO of version 2 (no older version, no unencrypted session). *)
Theorem handshake_completes (s : ClusterSecret) (cn sn : Bytes) :
  length cn = NONCE_LEN -> length sn = NONCE_LEN ->
  (exists hello challenge proof ok key,
     client_handshake s (Some cn) (Frame challenge) (Frame ok) = (Ok key, [hello; proof]) /\
     server_handshake s (Some sn) (Frame hello) (Frame proof) = (Ok key, [challenge; ok]) /\
     forall t u, in_step (enable_encryption key RoleClient t) (enable_encryption key RoleServer u) /\
                 in_step (enable_encryption key RoleServer u) (enable_encryption key RoleClient t)) /\
  (forall ev1 ev2, (client_handshake s (Some cn) ev1 ev2).2 = [hello_frame cn] \/
     verify_mac s (server_parts cn (take NONCE_LEN (frame_body ev1))) (drop NONCE_LEN (frame_body ev1)) = true) /\
  (forall ev1 ev2 key sent, server_handshake s (Some sn) ev1 ev2 = (Ok key, sent) ->
     exists cn', ev1 = Frame (auth_frame KIND_HELLO [[AUTH_VERSION]; cn']) /\ length cn' = NONCE_LEN).
Proof.
  intros Hc Hs. split; [|split].
  - exists (hello_frame cn), (auth_frame KIND_CHALLENGE [sn; mac s (server_parts cn sn)]),
      (auth_frame KIND_PROOF [mac s (client_parts sn cn)]), (auth_frame KIND_OK []), (mac s (key_parts cn sn)).
    split; [|split; [|intros t u; split; by apply derived_in_step]].
    + unfold client_handshake, client_answer. simpl. rewrite !app_nil_r, !length_app, mac_length, Hs, Nat.eqb_refl. simpl.
      rewrite take_app_length', drop_app_length' by done. rewrite verify_own. done.
    + unfold server_handshake, server_challenge. simpl. rewrite !app_nil_r, Hc, Nat.eqb_refl. simpl.
      unfold server_verdict. simpl. rewrite ?app_nil_r, mac_length, Nat.eqb_refl. simpl. rewrite verify_own. done.
  - intros ev1 ev2. unfold client_handshake. destruct (client_answer s cn ev1) as [[n proof]|e] eqn:Ha; [right|by left].
    by apply client_answer_ok in Ha as (_ & <- & Hv & _).
  - intros ev1 ev2 key sent. unfold server_handshake. destruct (server_challenge s (Some sn) ev1) as [[[c n]|e] out] eqn:Hch; [|done].
    intros _. apply server_challenge_ok in Hch as (_ & Hl & -> & _). by exists c.
Qed.
End run.

(** ** The secret *)

Lemma from_hex_to_hex bytes s : Forall (fun x => x < 256) bytes -> from_bytes bytes = Ok s -> from_hex (to_hex s) = Ok s.
Proof.
  intros Hb Hs. assert (s = {| cs_bytes := bytes |}) as ->.
  { unfold from_bytes in Hs. destruct (_ <? _); [done|]. destruct (_ <? _); [done|]. by injection Hs as <-. }
  unfold from_hex, to_hex. simpl. rewrite trim_hex, hex_decode_encode by done. done.
Qed.

Lemma hex_line bytes : Forall (fun x => x < 256) bytes -> bytes <> [] -> lines (hex_encode bytes ++ [10]) = [hex_encode bytes].
Proof.
  intros Hb Hne. pose proof (hex_encode_range bytes Hb) as Hr. rewrite Forall_forall in Hr. unfold lines.
  rewrite split_app_sep by (intros Hin%Hr; lia). simpl. f_equal. unfold strip_cr.
  destruct (last (hex_encode bytes)) as [c|] eqn:Hl; [|done]. apply last_Some_elem_of, Hr in Hl.
  destruct (decide (c = 13)) as [->|Hc]; [lia|]. repeat (case_match; try done).
Qed.

(** A secret survives its file: what [save_file] writes (one line of hexadecimal) is
    read back as the same secret, through an explicit file, the environment's file or
    the default one alike. *)
Theorem secret_file_roundtrip (bytes : Bytes) (s : ClusterSecret) (read : Str -> option Str) (is_file : Str -> bool) (path : Str) env :
  Forall (fun x => x < 256) bytes -> from_bytes bytes = Ok s -> read path = Some (to_hex s ++ [10]) -> path <> [] ->
  load_file read path = Ok s /\
  resolve_with read is_file None (Some path) env None = Ok (Some s).
Proof.
  intros Hb Hs Hr Hp. assert (Hload : load_file read path = Ok s).
  { unfold load_file. rewrite Hr. simpl. pose proof (from_hex_to_hex bytes s Hb Hs) as Hx.
    assert (Hsb : cs_bytes s = bytes /\ bytes <> []).
    { unfold from_bytes in Hs. destruct (N.ltb_spec (blen bytes) MIN_SECRET_BYTES) as [|Hl]; [done|]. destruct (_ <? _); [done|].
      injection Hs as <-. split; [done|]. by intros ->. }
    destruct Hsb as [Hsb Hne]. unfold to_hex in *. rewrite Hsb in *. rewrite hex_line by done. simpl. rewrite trim_hex by done.
    assert (Hline : secret_line (hex_encode bytes) = true).
    { pose proof (hex_encode_range bytes Hb) as Hrng. destruct bytes as [|x bytes]; [done|]. cbn [hex_encode] in *.
      apply Forall_cons in Hrng as [Hd _]. unfold secret_line, starts_with. cbn [is_empty negb andb str strip_prefix].
      change (str "#") with [35]. cbn [strip_prefix]. destruct (N.eqb_spec 35 (hex_digit (N.shiftr x 4))); [lia|done]. }
    rewrite Hline. simpl. by rewrite Hx. }
  split; [done|]. unfold resolve_with. destruct path; [done|]. simpl is_empty. cbv iota. by rewrite Hload.
Qed.

(** Authentication is never switched off by mistake.  The resolution of the secret
    yields none exactly when no source names one: a source that is given but blank,
    unreadable or malformed is an error, and the sources behind it are not consulted. *)
Theorem resolve_never_opens (read : Str -> option Str) (is_file : Str -> bool) (value file : option Str) (env : Str -> option Str)
    (default_file : option Str) :
  (resolve_with read is_file value file env default_file = Ok None <->
   value = None /\ file = None /\ env ENV_SECRET = None /\ env ENV_SECRET_FILE = None /\
   forall p, default_file = Some p -> is_file p = false) /\
  (forall v file' env' default', value = Some v ->
     resolve_with read is_file value file env default_file = resolve_with read is_file value file' env' default') /\
  (forall p env' default', value = None -> file = Some p ->
     resolve_with read is_file value file env default_file = resolve_with read is_file value file env' default').
Proof.
  assert (Hmap : forall (r : result SecretError ClusterSecret), result_map Some r <> Ok None) by (by intros []).
  assert (Herr : forall src (r : result SecretError ClusterSecret), map_err (SecretOf src) (result_map Some r) <> Ok None) by (by intros src []).
  split; [|split; [by intros v ??? ->|by intros p ?? -> ->]].
  unfold resolve_with. destruct value as [v|]; [split; [destruct (is_blank v); [done|by intros ?%Herr]|naive_solver]|].
  destruct file as [f|]; [split; [destruct (is_empty f); [done|by intros ?%Hmap]|naive_solver]|].
  destruct (env ENV_SECRET) as [v|]; [split; [destruct (is_blank v); [done|by intros ?%Herr]|naive_solver]|].
  destruct (env ENV_SECRET_FILE) as [f|]; [split; [destruct (is_blank f); [done|by intros ?%Hmap]|naive_solver]|].
  destruct default_file as [p|]; [|naive_solver]. destruct (is_file p) eqn:Hp.
  - split; [by intros ?%Hmap|]. intros (_ & _ & _ & _ & Hx). specialize (Hx p eq_refl). congruence.
  - split; [|done]. intros _. split_and!; try done. by intros p' [= <-].
Qed.

(** ** An instance, and a run *)

#[local] Transparent NONCE_LEN MAC_LEN.

Module ToyHmac.

(** The record layer of [ToyAead] with tags of 32 bytes. *)
Definition toy_sign (k m : Bytes) : Bytes := take 32 (m ++ k ++ repeat 0 32).

Definition api : Aead := {|
  AeadKey := Bytes; aead_key := id; seal := ToyAead.toy_seal; unseal := ToyAead.toy_unseal; sign := toy_sign
|}.

Lemma laws : @HmacLaws api.
Proof.
  split. intros k m. unfold sign, api, toy_sign. rewrite length_take, !length_app, repeat_length. unfold MAC_LEN. lia.
Qed.

Definition secret : ClusterSecret := {| cs_bytes := repeat 7 32 |}.
Definition cn : Bytes := repeat 1 32.
Definition sn : Bytes := repeat 2 32.
Definition challenge : FrameEvent := Frame (auth_frame KIND_CHALLENGE [sn; mac (H := api) secret (server_parts cn sn)]).
Definition proof : FrameEvent := Frame (auth_frame KIND_PROOF [mac (H := api) secret (client_parts sn cn)]).

Definition w1 : World := set_client cn CHello [] world0.
Definition w2 : World := set_server sn cn SChallenged [concat (server_parts cn sn)] w1.
Definition w3 : World := set_client cn (CProved sn) [concat (client_parts sn cn)] w2.
Definition w4 : World := set_server sn cn (SDone (mac (H := api) secret (key_parts cn sn))) [concat (key_parts cn sn)] w3.

Lemma reachable3 : world_reachable (H := api) secret w3.
Proof.
  apply (wr_step _ w2); [apply (wr_step _ w1); [apply (wr_step _ world0); [constructor|by apply ws_client_start]|]|].
  - exact (ws_server_hello (H := api) secret sn cn (Frame (hello_frame cn)) _ w1 eq_refl eq_refl eq_refl).
  - apply (ws_client_challenge (H := api) secret cn challenge w2); [vm_compute; reflexivity|].
    intros _. apply list_elem_of_In. vm_compute. by left.
Qed.

Lemma reachable4 : world_reachable (H := api) secret w4.
Proof.
  apply (wr_step _ w3); [apply reachable3|].
  apply (ws_server_proof (H := api) secret sn cn proof w3); [vm_compute; reflexivity|].
  intros _. apply list_elem_of_In. vm_compute. by left.
Qed.
End ToyHmac.

Lemma agreement_witness :
  exists p, w_clients ToyHmac.w4 !! ToyHmac.cn = Some p /\ answered p = Some ToyHmac.sn /\
    forall key', p = CDone ToyHmac.sn key' -> key' = mac (H := ToyHmac.api) ToyHmac.secret (key_parts ToyHmac.cn ToyHmac.sn).
Proof.
  refine (proj1 (agreement (H := ToyHmac.api) ToyHmac.secret ToyHmac.w4 ToyHmac.reachable4)
    ToyHmac.sn ToyHmac.cn (mac (H := ToyHmac.api) ToyHmac.secret (key_parts ToyHmac.cn ToyHmac.sn)) _).
  vm_compute. reflexivity.
Defined.

Lemma handshake_completes_witness :
  exists hello challenge proof ok key,
    client_handshake (H := ToyHmac.api) ToyHmac.secret (Some ToyHmac.cn) (Frame challenge) (Frame ok) = (Ok key, [hello; proof]) /\
    server_handshake (H := ToyHmac.api) ToyHmac.secret (Some ToyHmac.sn) (Frame hello) (Frame proof) = (Ok key, [challenge; ok]).
Proof.
  destruct (handshake_completes (H := ToyHmac.api) (H0 := ToyHmac.laws) ToyHmac.secret ToyHmac.cn ToyHmac.sn eq_refl eq_refl)
    as [(hello & challenge & proof & ok & key & Hc & Hs & _) _].
  exists hello, challenge, proof, ok, key. split; [exact Hc|exact Hs].
Defined.

Lemma secret_file_roundtrip_witness :
  load_file (fun _ => Some (to_hex ToyHmac.secret ++ [10])) (str "cluster.secret") = Ok ToyHmac.secret.
Proof.
  refine (proj1 (secret_file_roundtrip (repeat 7 32) ToyHmac.secret (fun _ => Some (to_hex ToyHmac.secret ++ [10])) (fun _ => false)
    (str "cluster.secret") (fun _ => None) _ _ _ _)); [by repeat constructor|done..].
Defined.
