(* ===== verification/Auth.v ===== *)
(** * Auth: tokens, scopes and the dashboard's access control

    Models [crates/master/src/auth.rs].  A request is the parts of it the middleware
    looks at; a header value that is not visible text ([to_str] fails) is [None].
    The standard library's address parser, which decides what a loopback host is, is
    written out.  HMAC is [sign] of the [Aead] interface.  Response bodies, log lines
    and the hardening headers are left out. *)

From S2P Require Import Prelude Collections RustStr Capabilities Blob Protocol ClusterAuth.
Local Open Scope N_scope.

(** ** Scopes *)

Inductive AuthScope := Observer | ScopeWorker | Submitter | Admin.
#[global] Instance AuthScope_eq_dec : EqDecision AuthScope.
Proof. solve_decision. Defined.
#[global] Instance AuthScope_countable : Countable AuthScope.
Proof.
  refine (inj_countable' (fun s => match s with Observer => 1 | ScopeWorker => 2 | Submitter => 3 | Admin => 4 end)
    (fun n => match n with 1 => Observer | 2 => ScopeWorker | 3 => Submitter | _ => Admin end) _). by intros [].
Defined.

Definition allows (s required : AuthScope) : bool :=
  match required with
  | Observer => true
  | ScopeWorker => match s with ScopeWorker | Admin => true | _ => false end
  | Submitter => match s with Submitter | Admin => true | _ => false end
  | Admin => match s with Admin => true | _ => false end
  end.

(** [to_lowercase], as far as a comparison with an ASCII word can tell: besides the
    capital letters only the Kelvin sign becomes an ASCII letter on its own. *)
Definition lower_to_ascii (c : char) : char := if c =? 8490 then 107 else ascii_lower c.

Definition scope_from_str (s : Str) : option AuthScope :=
  let w := map lower_to_ascii (trim s) in
  if bool_decide (w = str "observer") then Some Observer
  else if bool_decide (w = str "worker") then Some ScopeWorker
  else if bool_decide (w = str "submitter") then Some Submitter
  else if bool_decide (w = str "admin") then Some Admin
  else None.

Definition scope_to_string (s : AuthScope) : Str :=
  match s with Observer => str "observer" | ScopeWorker => str "worker" | Submitter => str "submitter" | Admin => str "admin" end.

(** ** Configuration *)

Record ApiToken := { tk_token : Str; tk_name : Str; tk_scopes : gset AuthScope }.

Record AuthConfig := {
  ac_enabled : bool;
  ac_dev_mode : bool;
  ac_loopback_bypass : bool;
  ac_tokens : gmap Str ApiToken;
  ac_allowed_origins : list Str
}.

Definition dev_mode_from_env (value : option Str) : bool :=
  match value with
  | Some v => bool_decide (v = str "1") || eq_ignore_ascii_case v (str "true")
  | None => false
  end.

Definition auth_config_default (oxide_dev_mode : option Str) : AuthConfig :=
  {| ac_enabled := true; ac_dev_mode := dev_mode_from_env oxide_dev_mode; ac_loopback_bypass := true; ac_tokens := ∅; ac_allowed_origins := [] |}.
Definition auth_config_dev : AuthConfig :=
  {| ac_enabled := true; ac_dev_mode := true; ac_loopback_bypass := true; ac_tokens := ∅; ac_allowed_origins := [] |}.

Definition set_dev_mode (on : bool) (c : AuthConfig) : AuthConfig :=
  {| ac_enabled := ac_enabled c; ac_dev_mode := on; ac_loopback_bypass := ac_loopback_bypass c; ac_tokens := ac_tokens c;
     ac_allowed_origins := ac_allowed_origins c |}.

Definition add_token (token name : Str) (scopes : list AuthScope) (c : AuthConfig) : AuthConfig :=
  {| ac_enabled := ac_enabled c; ac_dev_mode := ac_dev_mode c; ac_loopback_bypass := ac_loopback_bypass c;
     ac_tokens := <[token := {| tk_token := token; tk_name := name; tk_scopes := list_to_set scopes |}]> (ac_tokens c);
     ac_allowed_origins := ac_allowed_origins c |}.

Definition DASHBOARD_ADMIN_TOKEN_LABEL : Str := str "oxs1-dashboard-admin".
Definition dashboard_admin_token `{Aead} (s : ClusterSecret) : Str := derive_hex s DASHBOARD_ADMIN_TOKEN_LABEL.
Definition with_cluster_secret `{Aead} (s : ClusterSecret) (c : AuthConfig) : AuthConfig :=
  add_token (dashboard_admin_token s) (str "cluster-secret") [Admin] c.
Definition with_allowed_origin (origin : Str) (c : AuthConfig) : AuthConfig :=
  {| ac_enabled := ac_enabled c; ac_dev_mode := ac_dev_mode c; ac_loopback_bypass := ac_loopback_bypass c;
     ac_tokens := ac_tokens c; ac_allowed_origins := ac_allowed_origins c ++ [origin] |}.

(** ** Addresses *)

(** [IpAddr]: four octets or eight groups. *)
Inductive IpAddr := V4 (octets : list N) | V6 (groups : list N).

(** [read_number] of the standard library's parser: digits of [radix], at most
    [max_digits], no leading zero unless allowed, at most [max]. *)
Definition digit_value (radix : N) (c : char) : option N :=
  match nibble c with Some d => if d <? radix then Some d else None | None => None end.

Fixpoint read_digits (radix max : N) (budget : nat) (count : nat) (acc : N) (s : Str) : option (nat * N * Str) :=
  match s with
  | [] => Some (count, acc, [])
  | c :: s' =>
      match digit_value radix c with
      | None => Some (count, acc, s)
      | Some d =>
          match budget with
          | O => None
          | S budget => let acc := acc * radix + d in if acc <=? max then read_digits radix max budget (S count) acc s' else None
          end
      end
  end.

Definition read_number (radix max : N) (max_digits : nat) (allow_zero_prefix : bool) (s : Str) : option (N * Str) :=
  match read_digits radix max max_digits 0 0 s with
  | Some (count, value, rest) =>
      if (count =? 0)%nat then None
      else if negb allow_zero_prefix && bool_decide (head s = Some 48) && (1 <? count)%nat then None
      else Some (value, rest)
  | None => None
  end.

Definition read_given_char (c : char) (s : Str) : option Str :=
  match s with x :: s' => if x =? c then Some s' else None | [] => None end.

(** [read_separator]: the separator before every element but the first. *)
Definition read_separator {A} (sep : char) (index : nat) (read : Str -> option (A * Str)) (s : Str) : option (A * Str) :=
  if (0 <? index)%nat then match read_given_char sep s with Some s => read s | None => None end else read s.

Definition read_octet (index : nat) (s : Str) : option (N * Str) := read_separator 46 index (read_number 10 255 3 false) s.

Definition read_ipv4_addr (s : Str) : option (list N * Str) :=
  '(a, s) ← read_octet 0 s; '(b, s) ← read_octet 1 s; '(c, s) ← read_octet 2 s; '(d, s) ← read_octet 3 s; Some ([a; b; c; d], s).

(** [read_groups]: the groups read from index [i] on, and whether an embedded IPv4
    address ended them. *)
Fixpoint read_groups (left i : nat) (s : Str) : list N * bool * Str :=
  match left with
  | O => ([], false, s)
  | S left' =>
      match (if (0 <? left')%nat then read_separator 58 i read_ipv4_addr s else None) with
      | Some ([a; b; c; d], s) => ([a * 256 + b; c * 256 + d], true, s)
      | _ =>
          match read_separator 58 i (read_number 16 65535 4 true) s with
          | Some (g, s) => let '(gs, v4, s) := read_groups left' (S i) s in (g :: gs, v4, s)
          | None => ([], false, s)
          end
      end
  end.

Definition read_ipv6_addr (s : Str) : option (list N * Str) :=
  let '(front, front_v4, s) := read_groups 8 0 s in
  if (length front =? 8)%nat then Some (front, s)
  else if front_v4 then None
  else
    s ← read_given_char 58 s; s ← read_given_char 58 s;
    let '(back, _, s) := read_groups (8 - (length front + 1)) 0 s in
    Some (front ++ repeat 0 (8 - length front - length back) ++ back, s).

(** [str::parse::<IpAddr>]: the whole text, IPv4 first. *)
Definition parse_ip (s : Str) : option IpAddr :=
  match read_ipv4_addr s with
  | Some (octets, []) => Some (V4 octets)
  | _ => match read_ipv6_addr s with Some (groups, []) => Some (V6 groups) | _ => None end
  end.

(** [ip.to_canonical().is_loopback()]. *)
Definition to_canonical (ip : IpAddr) : IpAddr :=
  match ip with
  | V6 [0; 0; 0; 0; 0; 65535; x; y] => V4 [x / 256; x mod 256; y / 256; y mod 256]
  | ip => ip
  end.
Definition is_loopback (ip : IpAddr) : bool :=
  match ip with
  | V4 octets => bool_decide (head octets = Some 127)
  | V6 groups => bool_decide (groups = [0; 0; 0; 0; 0; 0; 0; 1])
  end.

Inductive DevBypass := BypassOff | BypassExplicit | BypassImplicit | RefusedNonLoopback.

Definition resolve_dashboard_auth (auth : AuthConfig) (has_secret implicit_local : bool) (listener : IpAddr) : AuthConfig * DevBypass :=
  if negb (ac_enabled auth) then (auth, BypassOff)
  else if negb (is_loopback (to_canonical listener)) then
    (set_dev_mode false auth, if ac_dev_mode auth then RefusedNonLoopback else BypassOff)
  else if ac_dev_mode auth then (auth, if ac_loopback_bypass auth then BypassExplicit else BypassOff)
  else if implicit_local && negb has_secret && bool_decide (ac_tokens auth = ∅) && ac_loopback_bypass auth
  then (set_dev_mode true auth, BypassImplicit)
  else (auth, BypassOff).

(** ** Tokens *)

Section tokens.
Context `{Aead}.

Definition COMPARE_KEY : Bytes := str "oxs1-dashboard-token-compare".

(** The last entry, in the map's order, whose tag fits. *)
Definition find_token (c : AuthConfig) (presented : Str) : option ApiToken :=
  foldl (fun found '(stored, entry) =>
    if bool_decide (sign COMPARE_KEY (utf8_encode stored) = sign COMPARE_KEY (utf8_encode presented)) then Some entry else found)
    None (map_to_list (ac_tokens c)).

Record AuthIdentity := { ai_name : Str; ai_scopes : gset AuthScope; ai_is_bypassed : bool }.
Definition has_scope (i : AuthIdentity) (required : AuthScope) : bool := existsb (fun s => allows s required) (elements (ai_scopes i)).

(** ** Requests *)

Inductive Method := GET | POST | OtherMethod.

Definition HeaderMap : Type := list (Str * option Str).

Record Request := {
  rq_method : Method;
  rq_path : Str;
  rq_query : option Str;
  rq_authority : option Str;
  rq_headers : HeaderMap;
  rq_peer : option IpAddr
}.

(** [headers.get_all(name)] and [headers.get(name)]. *)
Definition get_all (name : Str) (hs : HeaderMap) : list (option Str) := (List.filter (fun h => bool_decide (h.1 = name)) hs).*2.
Definition get_header (name : Str) (hs : HeaderMap) : option (option Str) := head (get_all name hs).

Definition or_else_opt {A} (a b : option A) : option A := match a with Some _ => a | None => b end.
Definition non_blank (s : Str) : option Str := let t := trim s in if is_empty t then None else Some t.

Fixpoint query_token (pairs : list Str) : option Str :=
  match pairs with
  | [] => None
  | p :: pairs =>
      match split_once 61 p with
      | Some (k, v) =>
          if bool_decide (k = str "token") || bool_decide (k = str "api_key")
          then or_else_opt (non_blank v) (query_token pairs) else query_token pairs
      | None => query_token pairs
      end
  end.

Definition extract_credential (hs : HeaderMap) (query : option Str) : option Str :=
  let bearer :=
    v ← mjoin (get_header (str "authorization") hs);
    t ← or_else_opt (strip_prefix (str "Bearer ") v) (strip_prefix (str "bearer ") v);
    non_blank t in
  let key := v ← mjoin (get_header (str "x-api-key") hs); non_blank v in
  or_else_opt bearer (or_else_opt key (q ← query; query_token (split 38 q))).

Definition route_required_scope (m : Method) (path : Str) : option AuthScope :=
  let starts p := starts_with (str p) path in
  match m with
  | GET =>
      if bool_decide (path = str "/") then None
      else if starts "/api/discovery/probe"%string then None
      else if starts "/api/rendezvous/master"%string then None
      else Some Observer
  | POST =>
      if starts "/api/rendezvous/register"%string then None
      else if starts "/api/tasks"%string || starts "/api/chat"%string then Some Submitter
      else Some Admin
  | OtherMethod => Some Admin
  end.

(** [rsplit_once(':')]: what precedes the last colon. *)
Definition before_last_colon (s : Str) : option Str := (fun '(_, before) => reverse before) <$> split_once 58 (reverse s).

Definition authority_host (authority : Str) : Str :=
  match strip_prefix (str "[") authority with
  | Some rest => default [] (head (split 93 rest))
  | None => default authority (before_last_colon authority)
  end.

Definition is_loopback_host (host : Str) : bool :=
  eq_ignore_ascii_case host (str "localhost") ||
  match parse_ip host with Some ip => is_loopback (to_canonical ip) | None => false end.

Definition has_forwarding_headers (hs : HeaderMap) : bool :=
  existsb (fun h => starts_with (str "x-forwarded-") h.1 || bool_decide (h.1 = str "forwarded") || bool_decide (h.1 = str "x-real-ip")) hs.

(** [origin.get(..7)] succeeds only at a character boundary; the scheme is ASCII, so
    seven bytes that equal it are seven characters. *)
Definition is_same_loopback_origin (origin host_header : Str) : bool :=
  if eq_ignore_ascii_case (take 7 origin) (str "http://") then
    let authority := drop 7 origin in
    if is_empty authority || existsb (fun c => contains_char c authority) [47; 63; 35; 64; 32] then false
    else is_loopback_host (authority_host authority) && eq_ignore_ascii_case authority host_header
  else false.

Inductive BypassRefusal :=
| DevModeOff | PeerUnknown | PeerNotLoopback | MissingHost | HostNotLoopback | ForwardingHeaders | MultipleOrigins
| CrossOrigin | CrossSite.

Definition dev_bypass_allowed (c : AuthConfig) (rq : Request) : result BypassRefusal unit :=
  if negb (ac_dev_mode c && ac_loopback_bypass c) then Err DevModeOff
  else
    match rq_peer rq with
    | None => Err PeerUnknown
    | Some peer =>
        if negb (is_loopback (to_canonical peer)) then Err PeerNotLoopback
        else
          match or_else_opt (mjoin (get_header (str "host") (rq_headers rq))) (rq_authority rq) with
          | None => Err MissingHost
          | Some host =>
              if negb (is_loopback_host (authority_host host)) then Err HostNotLoopback
              else if has_forwarding_headers (rq_headers rq) then Err ForwardingHeaders
              else
                let fetch_site :=
                  match get_header (str "sec-fetch-site") (rq_headers rq) with
                  | None => Ok tt
                  | Some site =>
                      if bool_decide (site = Some (str "same-origin")) || bool_decide (site = Some (str "none")) then Ok tt
                      else Err CrossSite
                  end in
                match get_all (str "origin") (rq_headers rq) with
                | [] => fetch_site
                | [Some origin] => if is_same_loopback_origin origin host then fetch_site else Err CrossOrigin
                | [None] => Err CrossOrigin
                | _ => Err MultipleOrigins
                end
          end
    end.

(** ** The middleware *)

Inductive Verdict :=
| PassOn (identity : option AuthIdentity)
| MissingCredential
| InvalidToken
| Forbidden (required : AuthScope).

Definition rbac_auth_middleware (c : AuthConfig) (rq : Request) : Verdict :=
  if negb (ac_enabled c) then PassOn None
  else
    match route_required_scope (rq_method rq) (rq_path rq) with
    | None => PassOn None
    | Some required =>
        match extract_credential (rq_headers rq) (rq_query rq) with
        | None =>
            match dev_bypass_allowed c rq with
            | Ok _ => PassOn (Some {| ai_name := str "loopback-dev"; ai_scopes := {[Admin]}; ai_is_bypassed := true |})
            | Err _ => MissingCredential
            end
        | Some token =>
            match find_token c token with
            | Some registered =>
                let identity := {| ai_name := tk_name registered; ai_scopes := tk_scopes registered; ai_is_bypassed := false |} in
                if has_scope identity required then PassOn (Some identity) else Forbidden required
            | None => InvalidToken
            end
        end
    end.
End tokens.
