(* ===== verification/AuthProps.v ===== *)
(** * AuthProps: who gets past the dashboard's middleware *)

From S2P Require Import Prelude Collections RustStr Capabilities Blob Protocol ProtocolProps ClusterAuth ClusterAuthProps Auth.
Local Open Scope N_scope.

(** ** Scopes *)

Lemma scope_roundtrip s : scope_from_str (scope_to_string s) = Some s.
Proof. by destruct s. Qed.

(** The lattice: [Admin] above all, [Observer] below all, the other two apart. *)
Lemma allows_order a b : allows a b = true <-> a = Admin \/ b = Observer \/ a = b.
Proof. destruct a, b; simpl; naive_solver. Qed.

(** ** Addresses *)

Example addresses :
  (parse_ip (str "127.0.0.1"), parse_ip (str "0127.0.0.1"), parse_ip (str "::1"), parse_ip (str "::ffff:127.0.0.1"),
   parse_ip (str "1:2:3:4:5:6:7:8:9"), parse_ip (str "1.2.3.256"), parse_ip (str "fe80::1:2"), parse_ip (str ":1"))
  = (Some (V4 [127; 0; 0; 1]), None, Some (V6 [0; 0; 0; 0; 0; 0; 0; 1]), Some (V6 [0; 0; 0; 0; 0; 65535; 32512; 1]),
     None, None, Some (V6 [65152; 0; 0; 0; 0; 0; 1; 2]), None).
Proof. vm_compute. reflexivity. Qed.

Example loopback_hosts :
  (is_loopback_host (authority_host (str "[::ffff:127.9.9.9]:80")), is_loopback_host (authority_host (str "LOCALHOST:80")),
   is_loopback_host (authority_host (str "127.0.0.1.evil.example:80"))) = (true, true, false).
Proof. vm_compute. reflexivity. Qed.

Section tokens.
Context `{Aead}.

(** ** Token lookup *)

(** No registered token other than [presented] has its tag. *)
Definition distinct_tag (c : AuthConfig) (presented : Str) : Prop :=
  forall stored, is_Some (ac_tokens c !! stored) ->
    sign COMPARE_KEY (utf8_encode stored) = sign COMPARE_KEY (utf8_encode presented) -> stored = presented.

Lemma find_token_fold (presented : Str) (l : list (Str * ApiToken)) acc :
  (forall x, x ∈ l -> sign COMPARE_KEY (utf8_encode x.1) = sign COMPARE_KEY (utf8_encode presented) -> x.1 = presented) ->
  NoDup l.*1 ->
  let out := foldl (fun found '(stored, entry) =>
    if bool_decide (sign COMPARE_KEY (utf8_encode stored) = sign COMPARE_KEY (utf8_encode presented)) then Some entry else found) acc l in
  (forall e, (presented, e) ∈ l -> out = Some e) /\ (presented ∉ l.*1 -> out = acc).
Proof.
  revert acc. induction l as [|[k e] l IH]; intros acc Hd Hnd; cbn [foldl fmap list_fmap fst]; [split; [set_solver|done]|].
  apply NoDup_cons in Hnd as [Hk Hnd].
  destruct (IH (if bool_decide (sign COMPARE_KEY (utf8_encode k) = sign COMPARE_KEY (utf8_encode presented)) then Some e else acc))
    as [H1 H2]; [set_solver|done|]. split.
  - intros e' [[= <- <-]|Hin]%elem_of_cons; [|by apply H1]. rewrite H2 by done. by rewrite bool_decide_true.
  - intros Hni. apply not_elem_of_cons in Hni as [Hne Hni]. rewrite H2 by done. rewrite bool_decide_false; [done|].
    intros Heq. apply Hne. symmetry. apply (Hd (k, e)); [left|done].
Qed.

Lemma find_token_lookup c presented : distinct_tag c presented -> find_token c presented = ac_tokens c !! presented.
Proof.
  intros Hd. unfold find_token.
  destruct (find_token_fold presented (map_to_list (ac_tokens c)) None) as [H1 H2].
  - intros [k e] Hin%elem_of_map_to_list. apply Hd. eauto.
  - apply NoDup_fst_map_to_list.
  - destruct (ac_tokens c !! presented) as [e|] eqn:He.
    + apply H1. by apply elem_of_map_to_list.
    + apply H2. intros ([k e] & -> & Hin)%list_elem_of_fmap. apply elem_of_map_to_list in Hin. simpl in *. congruence.
Qed.

Lemma has_scope_spec i r : has_scope i r = true <-> exists s, s ∈ ai_scopes i /\ allows s r = true.
Proof.
  unfold has_scope. rewrite existsb_exists. split; intros (s & Hs & Ha); exists s; split; try done.
  - by apply elem_of_elements, list_elem_of_In.
  - by apply list_elem_of_In, elem_of_elements.
Qed.

(** ** The bypass *)

(** A request of a developer at this machine: asked for on the command line, from a
    loopback peer, addressed to a loopback name, not through a proxy, and from no page
    but one this very listener served. *)
Record local_request (c : AuthConfig) (rq : Request) : Prop := {
  lr_dev : ac_dev_mode c = true /\ ac_loopback_bypass c = true;
  lr_peer : exists ip, rq_peer rq = Some ip /\ is_loopback (to_canonical ip) = true;
  lr_host : exists host, or_else_opt (mjoin (get_header (str "host") (rq_headers rq))) (rq_authority rq) = Some host /\
    is_loopback_host (authority_host host) = true /\
    (get_all (str "origin") (rq_headers rq) = [] \/
     exists origin, get_all (str "origin") (rq_headers rq) = [Some origin] /\
       eq_ignore_ascii_case (take 7 origin) (str "http://") = true /\ eq_ignore_ascii_case (drop 7 origin) host = true);
  lr_direct : has_forwarding_headers (rq_headers rq) = false;
  lr_site : forall site, get_header (str "sec-fetch-site") (rq_headers rq) = Some site ->
    site = Some (str "same-origin") \/ site = Some (str "none")
}.

Lemma same_origin_spec origin host :
  is_same_loopback_origin origin host = true ->
  eq_ignore_ascii_case (take 7 origin) (str "http://") = true /\ eq_ignore_ascii_case (drop 7 origin) host = true.
Proof.
  unfold is_same_loopback_origin. destruct (eq_ignore_ascii_case (take 7 origin) _); [|done].
  destruct (_ || existsb _ _); [done|]. by intros [_ ?]%andb_true_iff.
Qed.

Lemma bypass_local c rq : dev_bypass_allowed c rq = Ok tt -> local_request c rq.
Proof.
  unfold dev_bypass_allowed. destruct (ac_dev_mode c && _) eqn:Hdev; [|done]. cbn [negb].
  destruct (rq_peer rq) as [ip|] eqn:Hpeer; [|done]. destruct (is_loopback _) eqn:Hip; [|done]. cbn [negb].
  destruct (or_else_opt _ _) as [host|] eqn:Hhost; [|done]. destruct (is_loopback_host _) eqn:Hlo; [|done]. cbn [negb].
  destruct (has_forwarding_headers _) eqn:Hfwd; [done|]. set (site := match get_header _ _ with None => _ | _ => _ end).
  intros Hrest. assert (Ho : site = Ok tt /\ (get_all (str "origin") (rq_headers rq) = [] \/
     exists origin, get_all (str "origin") (rq_headers rq) = [Some origin] /\ is_same_loopback_origin origin host = true)).
  { revert Hrest. destruct (get_all (str "origin") _) as [|[origin|] [|]]; try done; [intros ?; split; [done|by left]|].
    destruct (is_same_loopback_origin origin host) eqn:Hs; [|done]. intros ?. split; [done|]. right. by exists origin. }
  destruct Ho as [Hsite Ho]. apply andb_true_iff in Hdev. split; try done; [by exists ip| |].
  - exists host. split; [done|]. split; [done|]. destruct Ho as [?|(origin & Ho & Hs)]; [by left|right].
    exists origin. split; [done|]. by apply same_origin_spec.
  - intros v Hv. unfold site in Hsite. rewrite Hv in Hsite. destruct (_ || _) eqn:Hb; [|done].
    apply orb_true_iff in Hb as [?%bool_decide_eq_true|?%bool_decide_eq_true]; auto.
Qed.

(** C34 Nobody passes a protected route without authority.  With authentication on, a
    request to a route that needs a scope reaches its handler only with a registered
    token one of whose scopes allows it, or as a local request in development mode with
    no credential at all; a request with such a token does reach it.  A listener that
    is not on a loopback address never grants the bypass. *)
Theorem protected_routes (auth : AuthConfig) (has_secret implicit_local : bool) (listener : IpAddr) (rq : Request) (required : AuthScope) :
  let c := (resolve_dashboard_auth auth has_secret implicit_local listener).1 in
  ac_enabled auth = true -> route_required_scope (rq_method rq) (rq_path rq) = Some required ->
  (forall presented, extract_credential (rq_headers rq) (rq_query rq) = Some presented -> distinct_tag c presented) ->
  ((exists i, rbac_auth_middleware c rq = PassOn i) <->
   (exists token tk s, extract_credential (rq_headers rq) (rq_query rq) = Some token /\ ac_tokens auth !! token = Some tk /\
      s ∈ tk_scopes tk /\ allows s required = true) \/
   (extract_credential (rq_headers rq) (rq_query rq) = None /\ dev_bypass_allowed c rq = Ok tt)) /\
  (dev_bypass_allowed c rq = Ok tt -> local_request c rq /\ is_loopback (to_canonical listener) = true).
Proof.
  cbv zeta. intros Hon Hroute Hd. set (c := (resolve_dashboard_auth _ _ _ _).1) in *.
  assert (Hc : ac_enabled c = true /\ ac_tokens c = ac_tokens auth /\ (ac_dev_mode c = true -> is_loopback (to_canonical listener) = true)).
  { subst c. unfold resolve_dashboard_auth. rewrite Hon. cbn [negb].
    destruct (is_loopback (to_canonical listener)) eqn:Hl; cbn [negb fst]; [|done].
    destruct (ac_dev_mode auth); [done|]. by destruct (_ && _). }
  destruct Hc as (Hen & Htok & Hlo). split.
  - unfold rbac_auth_middleware. rewrite Hen, Hroute. cbn [negb].
    destruct (extract_credential _ _) as [token|] eqn:Hx.
    + rewrite (find_token_lookup c token) by auto. rewrite Htok. split.
      * intros [i Hp]. left. destruct (ac_tokens auth !! token) as [tk|] eqn:Hk; [|done].
        destruct (has_scope _ required) eqn:Hs; [|done]. apply has_scope_spec in Hs as (s & Hin & Ha).
        exists token, tk, s. done.
      * intros [(token' & tk & s & [= <-] & Hk & Hin & Ha)|[Hn _]]; [|done]. rewrite Hk.
        rewrite (proj2 (has_scope_spec _ required)); [eauto|]. by exists s.
    + split.
      * intros [i Hp]. right. destruct (dev_bypass_allowed c rq) as [[]|]; done.
      * intros [(token' & tk & s & Hn & _)|[_ Hb]]; [done|]. rewrite Hb. eauto.
  - intros Hb%bypass_local. split; [done|]. apply Hlo. apply Hb.
Qed.
End tokens.

(** ** Samples *)

Definition sample_auth : AuthConfig := add_token (str "s3cret") (str "ci") [Submitter] (auth_config_default None).
Definition sample_request : Request := {|
  rq_method := POST; rq_path := str "/api/tasks"; rq_query := None; rq_authority := None;
  rq_headers := [(str "host", Some (str "10.0.0.5:8080")); (str "authorization", Some (str "Bearer s3cret"))];
  rq_peer := Some (V4 [10; 0; 0; 9])
|}.

Lemma protected_routes_witness :
  exists i, rbac_auth_middleware (H := ToyHmac.api)
    (resolve_dashboard_auth sample_auth true false (V4 [0; 0; 0; 0])).1 sample_request = PassOn i.
Proof.
  refine (proj2 (proj1 (protected_routes (H := ToyHmac.api) sample_auth true false (V4 [0; 0; 0; 0]) sample_request Submitter
    eq_refl eq_refl _)) (or_introl _)).
  - intros presented Hp stored Hst Heq. assert (Some presented = Some (str "s3cret")) as [= ->] by (by rewrite <-Hp).
    destruct Hst as [e He]. vm_compute in He. change (stored = str "s3cret").
    destruct (decide (stored = str "s3cret")) as [|Hne]; [done|]. exfalso.
    assert (Hn : ac_tokens sample_auth !! stored = None) by (unfold sample_auth; cbn [ac_tokens add_token]; by rewrite lookup_insert_ne).
    vm_compute in Hn. congruence.
  - exists (str "s3cret"), {| tk_token := str "s3cret"; tk_name := str "ci"; tk_scopes := {[Submitter]} |}, Submitter.
    split; [vm_compute; reflexivity|]. split; [vm_compute; reflexivity|]. split; [set_solver|done].
Defined.

(** The exempt routes are matched by prefix: a longer path needs no scope either. *)
Theorem exempt_by_prefix :
  route_required_scope GET (str "/api/rendezvous/master-secrets") = None /\ route_required_scope POST (str "/api/rendezvous/register/../x") = None.
Proof. vm_compute. done. Qed.
