(* ===== verification/MapReduce.v ===== *)
(** * MapReduce: the map/reduce engine

    Models [crates/master/src/mapreduce.rs] and the specifications of
    [crates/core/src/mapreduce.rs].  [submit_and_await] is an argument: what the grid
    answers for the task of a partition or of a key.  So are the order in which the
    tasks in flight finish ([buffer_unordered]) and the order in which a [HashMap] is
    walked.  JSON values are an interface over serde_json; the texts of the errors are
    constructors.  Progress clocks, the drop guard and log lines are left out. *)

From S2P Require Import Prelude Collections RustStr Float Capabilities Placement Blob Task.
From Stdlib Require Import SpecFloat.
Local Open Scope N_scope.
Local Open Scope result_scope.

(** ** Specifications *)

Inductive MapFunctionSpec := MapCommand (program : Str) (args : list Str) | MapShell (script : Str) | MapBuiltin (operator : Str).
Inductive ReduceFunctionSpec :=
| ReduceCommand (program : Str) (args : list Str) | ReduceShell (script : Str) | ReduceBuiltin (operator : Str).

Record MapReduceJobSpec := {
  mj_job_id : Uuid;
  mj_name : Str;
  mj_input_data : list Str;
  mj_mapper : MapFunctionSpec;
  mj_reducer : ReduceFunctionSpec;
  mj_partition_count : N;
  mj_reducer_count : N;
  mj_timeout_secs : N
}.

(** ** Numbers *)

Definition i64_min : Z := (- 2 ^ 63)%Z.
Definition i64_max : Z := (2 ^ 63 - 1)%Z.
Definition i128_min : Z := (- 2 ^ 127)%Z.
Definition i128_max : Z := (2 ^ 127 - 1)%Z.
Definition in_i64 (z : Z) : bool := ((i64_min <=? z) && (z <=? i64_max))%Z.
Definition in_i128 (z : Z) : bool := ((i128_min <=? z) && (z <=? i128_max))%Z.

(** [z as f64]. *)
Definition f64_of_Z (z : Z) : f64 := binary_normalize 53 1024 z 0 false.
Definition is_finite (x : f64) : bool := match x with S754_finite _ _ _ | S754_zero _ => true | _ => false end.
(** [f64::max] and [f64::min] of numbers that are not NaN (which of two zeros they
    return is not specified). *)
Definition f64_max (x y : f64) : f64 := if SFltb x y then y else x.
Definition f64_min (x y : f64) : f64 := if SFltb y x then y else x.

(** The digits at the front of a text: their value, how many, and the rest. *)
Fixpoint take_digits (acc : N) (count : nat) (s : Str) : N * nat * Str :=
  match s with
  | c :: s' => if (48 <=? c) && (c <=? 57) then take_digits (acc * 10 + (c - 48)) (S count) s' else (acc, count, s)
  | [] => (acc, count, [])
  end.

(** An optional sign. *)
Definition take_sign (s : Str) : bool * Str :=
  match s with c :: s' => if c =? 45 then (true, s') else if c =? 43 then (false, s') else (false, s) | [] => (false, []) end.

(** [str::parse::<i64>]. *)
Definition parse_i64 (s : Str) : option Z :=
  let '(neg, digits) := take_sign s in
  let '(v, count, rest) := take_digits 0 0 digits in
  if (0 <? count)%nat && is_empty rest then
    let z := if neg then (- Z.of_N v)%Z else Z.of_N v in
    if in_i64 z then Some z else None
  else None.

(** The nearest [f64] to [num * 10 ^ exp]. *)
Definition f64_of_decimal (neg : bool) (num : N) (exp : Z) : f64 :=
  match num with
  | 0 => S754_zero neg
  | Npos p =>
      match exp with
      | Zneg k => SFdiv 53 1024 (S754_finite neg p 0) (S754_finite false (10 ^ k)%positive 0)
      | Zpos k => binary_round 53 1024 neg (p * 10 ^ k)%positive 0
      | Z0 => binary_round 53 1024 neg p 0
      end
  end.

(** The exponent part, if any: its value and the rest. *)
Definition take_exponent (s : Str) : option (Z * Str) :=
  match s with
  | c :: s' =>
      if (c =? 101) || (c =? 69) then
        let '(neg, digits) := take_sign s' in
        let '(v, count, rest) := take_digits 0 0 digits in
        if (0 <? count)%nat then Some (if neg then (- Z.of_N v)%Z else Z.of_N v, rest) else None
      else Some (0%Z, s)
  | [] => Some (0%Z, [])
  end.

(** [str::parse::<f64>]: a decimal number, correctly rounded, or the special values. *)
Definition parse_f64 (s : Str) : option f64 :=
  let '(neg, body) := take_sign s in
  let word := to_ascii_lowercase body in
  if bool_decide (word = str "inf") || bool_decide (word = str "infinity") then Some (S754_infinity neg)
  else if bool_decide (word = str "nan") then Some S754_nan
  else
    let '(int, n_int, rest) := take_digits 0 0 body in
    let '(num, n_frac, rest) :=
      match rest with
      | c :: rest' => if c =? 46 then let '(v, k, r) := take_digits int 0 rest' in (v, k, r) else (int, 0%nat, rest)
      | [] => (int, 0%nat, [])
      end in
    if (n_int + n_frac =? 0)%nat then None
    else
      match take_exponent rest with
      | Some (e, []) => Some (f64_of_decimal neg num (e - Z.of_nat n_frac))
      | _ => None
      end.

(** ** JSON *)

(** What the engine uses of serde_json: [from_str::<Value>], [Value::to_string], the
    accessors, [json!] of an integer, a float and a string, and the encoding of the
    grouped pairs a reduce task gets. *)
Class Json := {
  Value : Type;
  json_parse : Str -> option Value;
  json_show : Value -> Str;
  as_i64 : Value -> option Z;
  as_f64 : Value -> option f64;
  as_str : Value -> option Str;
  get_field : Value -> Str -> option Value;
  json_int : Z -> Value;
  json_float : f64 -> Value;
  json_string : Str -> Value;
  json_grouped : Str -> list Value -> option Bytes
}.

(** An [i64] accessor yields what fits an [i64]; an integer made into JSON reads back. *)
Class JsonLaws `{Json} := {
  as_i64_range v n : as_i64 v = Some n -> in_i64 n = true;
  as_i64_int n : in_i64 n = true -> as_i64 (json_int n) = Some n
}.

Inductive JobError :=
| UnsupportedMapper (operator : Str)
| UnsupportedReducer (operator : Str)
| BuiltinHasNoTask (operator : Str)
| SumOverflow
| GroupNotEncodable
| TaskFailed (code : N).

Inductive JobFailure :=
| MapFailed (partition : nat) (exit_code : Z)
| MapTruncated (partition : nat)
| ReduceFailed (key : Str) (e : option JobError)
| ReduceTruncated (key : Str).

Inductive JobStatus := JobCompleted | JobFailed (why : JobFailure).

Definition OUTPUT_TRUNCATED_MARKER : Bytes := str "[rusty_grid: output truncated after exceeding size limit]".

(** [tail.windows(n).any(|w| w == marker)]. *)
Definition has_marker (b : Bytes) : bool := contains OUTPUT_TRUNCATED_MARKER b.

Definition stdout_was_truncated (r : TaskResult) : bool :=
  let out := res_stdout r in
  let n := length OUTPUT_TRUNCATED_MARKER in
  let tail := drop (length out - (n + 8)) out in
  if has_marker tail then true
  else
    let notice_len := (n + 2)%nat in
    if (notice_len <=? length out)%nat then
      let head_cap := ((length out - notice_len) / 2)%nat in
      let s := take notice_len (drop head_cap out) in
      (length s =? notice_len)%nat && bool_decide (s = [10] ++ OUTPUT_TRUNCATED_MARKER ++ [10])
    else false.

Definition stdout_str (r : TaskResult) : Str := from_utf8_lossy (res_stdout r).

(** ** Built-in operators *)

(** The shell scripts, a backquote standing for a double quote. *)
Definition script_of (text : list string) : Str := replace_char 96 34 (join 10 (map str text)).

Definition word_count_script : Str := script_of
  ["while IFS= read -r line || [ -n `$line` ]; do"; "  for word in $line; do"; "    printf `%s\t1\n` `$word`"; "  done"; "done"]%string.
Definition line_count_script : Str := script_of
  ["count=0"; "while IFS= read -r line || [ -n `$line` ]; do"; "  count=$((count + 1))"; "done"; "printf `lines\t%d\n` `$count`"]%string.
Definition identity_script : Str := script_of
  ["while IFS= read -r line || [ -n `$line` ]; do"; "  printf `%s\t1\n` `$line`"; "done"]%string.

Definition builtin_map_script (operator : Str) : result JobError Str :=
  if bool_decide (operator = str "word_count") then Ok word_count_script
  else if bool_decide (operator = str "line_count") then Ok line_count_script
  else if bool_decide (operator = str "identity") then Ok identity_script
  else Err (UnsupportedMapper operator).

Definition validate_builtin_reducer (operator : Str) : result JobError unit :=
  if existsb (fun w => bool_decide (operator = str w)) ["sum"%string; "count"%string; "max"%string; "min"%string; "concat"%string] then Ok tt
  else Err (UnsupportedReducer operator).

(** A phase of the job goes on with what it computed, or ends the job. *)
Inductive Phase (A : Type) := GoOn (a : A) | EndJob (why : JobFailure) (completed : nat).
Arguments GoOn {A} a.
Arguments EndJob {A} why completed.

Section json.
Context `{Json}.

(** How the numeric reducers read a value: an [i64], or else a finite float. *)
Inductive Parsed := PInt (n : Z) | PFloat (f : f64) | PSkip.

Definition or_opt {A} (a b : option A) : option A := match a with Some _ => a | None => b end.

Definition parse_sum (v : Value) : Parsed :=
  match or_opt (as_i64 v) (s ← as_str v; parse_i64 s) with
  | Some n => PInt n
  | None =>
      match or_opt (as_f64 v) (s ← as_str v; parse_f64 s) with
      | Some f => if is_finite f then PFloat f else PSkip
      | None => PSkip
      end
  end.

(** The [max] and [min] loops. *)
Definition parse_extremum (v : Value) : Parsed :=
  match as_i64 v with
  | Some n => PInt n
  | None =>
      match (f ← as_f64 v; if is_finite f then Some f else None) with
      | Some f => PFloat f
      | None =>
          match as_str v with
          | Some s =>
              match parse_i64 s with
              | Some n => PInt n
              | None => match parse_f64 s with Some f => if is_finite f then PFloat f else PSkip | None => PSkip end
              end
          | None => PSkip
          end
      end
  end.

Record SumState := { sm_i : Z; sm_f : f64; sm_has_float : bool; sm_overflow : bool; sm_usable : bool }.
Definition sum0 : SumState := {| sm_i := 0; sm_f := S754_zero false; sm_has_float := false; sm_overflow := false; sm_usable := false |}.

Definition check_finite (f : f64) (st : SumState) : result JobError SumState := if is_finite f then Ok st else Err SumOverflow.

Definition sum_step (st : SumState) (v : Value) : result JobError SumState :=
  match parse_sum v with
  | PInt n =>
      if negb (sm_overflow st) then
        if in_i128 (sm_i st + n) then
          Ok {| sm_i := (sm_i st + n)%Z; sm_f := sm_f st; sm_has_float := sm_has_float st; sm_overflow := false; sm_usable := true |}
        else
          let f := f64_add (sm_f st) (f64_add (f64_of_Z (sm_i st)) (f64_of_Z n)) in
          check_finite f {| sm_i := 0; sm_f := f; sm_has_float := sm_has_float st; sm_overflow := true; sm_usable := true |}
      else
        let f := f64_add (sm_f st) (f64_of_Z n) in
        check_finite f {| sm_i := sm_i st; sm_f := f; sm_has_float := sm_has_float st; sm_overflow := true; sm_usable := true |}
  | PFloat x =>
      let f := f64_add (sm_f st) x in
      check_finite f {| sm_i := sm_i st; sm_f := f; sm_has_float := true; sm_overflow := sm_overflow st; sm_usable := true |}
  | PSkip => Ok st
  end.

Fixpoint sum_loop (st : SumState) (vs : list Value) : result JobError SumState :=
  match vs with [] => Ok st | v :: vs => st <-? sum_step st v; sum_loop st vs end.

Definition reduce_sum (vs : list Value) : result JobError (option Value) :=
  st <-? sum_loop sum0 vs;
  if negb (sm_usable st) then Ok None
  else if sm_has_float st || sm_overflow st then
    let total := f64_add (sm_f st) (f64_of_Z (sm_i st)) in
    if is_finite total then Ok (Some (json_float total)) else Err SumOverflow
  else if in_i64 (sm_i st) then Ok (Some (json_int (sm_i st)))
  else Ok (Some (json_float (f64_of_Z (sm_i st)))).

(** The state of the [max] and [min] loops: best integer, best float, whether a float
    was seen. *)
Definition ExtState : Type := option Z * option f64 * bool.

Definition ext_step (pick_i : Z -> Z -> Z) (pick_f : f64 -> f64 -> f64) (st : ExtState) (v : Value) : ExtState :=
  let '(best_i, best_f, is_float) := st in
  match parse_extremum v with
  | PInt n =>
      (Some (from_option (fun m => pick_i m n) n best_i), Some (from_option (fun m => pick_f m (f64_of_Z n)) (f64_of_Z n) best_f), is_float)
  | PFloat f => (best_i, Some (from_option (fun m => pick_f m f) f best_f), true)
  | PSkip => st
  end.

Definition reduce_extremum (pick_i : Z -> Z -> Z) (pick_f : f64 -> f64 -> f64) (vs : list Value) : option Value :=
  let '(best_i, best_f, is_float) := foldl (ext_step pick_i pick_f) (None, None, false) vs in
  if is_float then json_float <$> best_f else json_int <$> best_i.

Definition reduce_builtin (operator : Str) (vs : list Value) : result JobError (option Value) :=
  if bool_decide (operator = str "sum") then reduce_sum vs
  else if bool_decide (operator = str "count") then Ok (Some (json_int (Z.of_nat (length vs))))
  else if bool_decide (operator = str "max") then Ok (reduce_extremum Z.max f64_max vs)
  else if bool_decide (operator = str "min") then Ok (reduce_extremum Z.min f64_min vs)
  else if bool_decide (operator = str "concat") then Ok (Some (json_string (join 44 (map json_show vs))))
  else Err (UnsupportedReducer operator).

(** ** Map output *)

Definition value_or_text (v : Str) : Value := default (json_string v) (json_parse v).

Definition parse_line (line : Str) : option (Str * Value) :=
  let trimmed := trim line in
  if is_empty trimmed then None
  else
    let pair :=
      val ← json_parse trimmed; k ← get_field val (str "key"); v ← get_field val (str "value"); Some (default [] (as_str k), v) in
    match pair with
    | Some kv => Some kv
    | None =>
        match split_once 9 trimmed with
        | Some (k, v) => Some (k, value_or_text v)
        | None =>
            match split_once 32 trimmed with
            | Some (k, v) => Some (k, value_or_text v)
            | None => Some (trimmed, json_int 1)
            end
        end
    end.

Definition parse_map_output (r : TaskResult) : list (Str * Value) := omap parse_line (lines (stdout_str r)).

(** ** Tasks *)

Definition sh_command (script : Str) (stdin : Bytes) : TaskSpec := Command (str "sh") [str "-c"; script] ∅ None (Some stdin).

Definition map_task_spec (mapper : MapFunctionSpec) (script : option Str) (chunk_input : Str) : TaskSpec :=
  let stdin := utf8_encode chunk_input in
  match mapper with
  | MapBuiltin _ => sh_command (default [] script) stdin
  | MapShell script => sh_command script stdin
  | MapCommand program args => Command program args ∅ None (Some stdin)
  end.

Definition reduce_task_spec (reducer : ReduceFunctionSpec) (key : Str) (vs : list Value) : result JobError TaskSpec :=
  match reducer with
  | ReduceBuiltin operator => Err (BuiltinHasNoTask operator)
  | ReduceShell script => stdin <-? ok_or GroupNotEncodable (json_grouped key vs); Ok (sh_command script stdin)
  | ReduceCommand program args =>
      stdin <-? ok_or GroupNotEncodable (json_grouped key vs); Ok (Command program args ∅ None (Some stdin))
  end.

(** [TaskRequirements::generic]. *)
Definition generic (cpu_cores timeout_secs : N) : TaskRequirements :=
  {| req_cpu_cores := cpu_cores; req_ram_mb := 512; req_gpu_required := false; req_timeout_secs := timeout_secs; req_max_retries := None |}.

Definition job_timeout_secs (spec : MapReduceJobSpec) : N := if mj_timeout_secs spec =? 0 then 60 else mj_timeout_secs spec.
Definition job_requirements (spec : MapReduceJobSpec) : TaskRequirements := generic 1 (job_timeout_secs spec).

(** ** Partitioning and grouping *)

Definition num_partitions (spec : MapReduceJobSpec) : nat :=
  N.to_nat (N.min (N.max (mj_partition_count spec) 1) (N.of_nat (length (mj_input_data spec)))).

(** [for (i, line) in input.iter().enumerate() { chunks[i % n].push(line) }]. *)
Fixpoint distribute (n i : nat) (input : list Str) (chunks : list (list Str)) : list (list Str) :=
  match input with
  | [] => chunks
  | line :: input => distribute n (S i) input (alter (fun c => c ++ [line]) (i mod n)%nat chunks)
  end.

Definition partition_input (spec : MapReduceJobSpec) : list (list Str) :=
  List.filter (fun c => negb (is_empty c)) (distribute (num_partitions spec) 0 (mj_input_data spec) (repeat [] (num_partitions spec))).

Definition group_one (m : gmap Str (list Value)) (kv : Str * Value) : gmap Str (list Value) :=
  <[kv.1 := default [] (m !! kv.1) ++ [kv.2]]> m.
Definition group_pairs (kvs : list (Str * Value)) : gmap Str (list Value) := foldl group_one ∅ kvs.

(** ** The engine *)

Record MapReduceResult := {
  mr_job_id : Uuid;
  mr_status : JobStatus;
  mr_output : gmap Str Value;
  mr_map_tasks_total : nat;
  mr_map_tasks_completed : nat;
  mr_reduce_tasks_total : nat;
  mr_reduce_tasks_completed : nat;
  mr_execution_time_ms : N
}.

(** What the grid does with a job: the answer for each partition and each key, the
    order in which the map tasks finish, the order in which the groups are walked (for
    a task reducer, the order in which their tasks finish), and the time it takes. *)
Record Grid := {
  gr_map : nat -> TaskSpec -> TaskRequirements -> result JobError TaskResult;
  gr_reduce : Str -> TaskSpec -> TaskRequirements -> result JobError TaskResult;
  gr_map_order : nat -> list nat;
  gr_walk : gmap Str (list Value) -> list (Str * list Value);
  gr_elapsed_ms : N
}.

Definition job_result (spec : MapReduceJobSpec) (g : Grid) (status : JobStatus) (output : gmap Str Value) (maps reduces : nat * nat)
    : MapReduceResult :=
  {| mr_job_id := mj_job_id spec; mr_status := status; mr_output := output; mr_map_tasks_total := maps.1;
     mr_map_tasks_completed := maps.2; mr_reduce_tasks_total := reduces.1; mr_reduce_tasks_completed := reduces.2;
     mr_execution_time_ms := gr_elapsed_ms g |}.

Fixpoint map_loop (answer : nat -> result JobError TaskResult) (order : list nat) (completed : nat)
    (per_partition : list (list (Str * Value))) : result JobError (Phase (nat * list (list (Str * Value)))) :=
  match order with
  | [] => Ok (GoOn (completed, per_partition))
  | idx :: order =>
      r <-? answer idx;
      if negb (res_exit_code r =? 0)%Z then Ok (EndJob (MapFailed idx (res_exit_code r)) completed)
      else if stdout_was_truncated r then Ok (EndJob (MapTruncated idx) completed)
      else map_loop answer order (S completed) (alter (fun kvs => kvs ++ parse_map_output r) idx per_partition)
  end.

Fixpoint builtin_loop (operator : Str) (groups : list (Str * list Value)) (completed : nat) (output : gmap Str Value)
    : Phase (nat * gmap Str Value) :=
  match groups with
  | [] => GoOn (completed, output)
  | (key, vs) :: groups =>
      match reduce_builtin operator vs with
      | Ok (Some reduced) => builtin_loop operator groups (S completed) (<[key := reduced]> output)
      | Ok None => builtin_loop operator groups (S completed) output
      | Err e => EndJob (ReduceFailed key (Some e)) completed
      end
  end.

Definition reduced_value (r : TaskResult) : Value :=
  let text := trim (stdout_str r) in default (json_string text) (json_parse text).

Fixpoint task_loop (answer : Str -> list Value -> result JobError TaskResult) (groups : list (Str * list Value)) (completed : nat)
    (output : gmap Str Value) : result JobError (Phase (nat * gmap Str Value)) :=
  match groups with
  | [] => Ok (GoOn (completed, output))
  | (key, vs) :: groups =>
      r <-? answer key vs;
      if negb (res_exit_code r =? 0)%Z then Ok (EndJob (ReduceFailed key None) completed)
      else if stdout_was_truncated r then Ok (EndJob (ReduceTruncated key) completed)
      else task_loop answer groups (S completed) (<[key := reduced_value r]> output)
  end.

Definition reduce_phase (spec : MapReduceJobSpec) (g : Grid) (grouped : gmap Str (list Value))
    : result JobError (Phase (nat * gmap Str Value)) :=
  match mj_reducer spec with
  | ReduceBuiltin operator => Ok (builtin_loop operator (gr_walk g grouped) 0 ∅)
  | reducer =>
      task_loop (fun key vs => task <-? reduce_task_spec reducer key vs; gr_reduce g key task (job_requirements spec)) (gr_walk g grouped) 0 ∅
  end.

Definition map_script (mapper : MapFunctionSpec) : result JobError (option Str) :=
  match mapper with MapBuiltin operator => script <-? builtin_map_script operator; Ok (Some script) | _ => Ok None end.

Definition check_reducer (reducer : ReduceFunctionSpec) : result JobError unit :=
  match reducer with ReduceBuiltin operator => validate_builtin_reducer operator | _ => Ok tt end.

Definition map_answer (spec : MapReduceJobSpec) (g : Grid) (script : option Str) (chunks : list (list Str)) (idx : nat)
    : result JobError TaskResult :=
  gr_map g idx (map_task_spec (mj_mapper spec) script (join 10 (default [] (chunks !! idx)))) (job_requirements spec).

Definition execute (spec : MapReduceJobSpec) (g : Grid) : result JobError MapReduceResult :=
  if is_empty (mj_input_data spec) then
    Ok {| mr_job_id := mj_job_id spec; mr_status := JobCompleted; mr_output := ∅; mr_map_tasks_total := 0; mr_map_tasks_completed := 0;
          mr_reduce_tasks_total := 0; mr_reduce_tasks_completed := 0; mr_execution_time_ms := 0 |}
  else
    script <-? map_script (mj_mapper spec);
    check check_reducer (mj_reducer spec);
    let chunks := partition_input spec in
    let total := length chunks in
    mapped <-? map_loop (map_answer spec g script chunks) (gr_map_order g total) 0 (repeat [] total);
    match mapped with
    | EndJob why completed => Ok (job_result spec g (JobFailed why) ∅ (total, completed) (0%nat, 0%nat))
    | GoOn (completed, per_partition) =>
        let grouped := group_pairs (concat per_partition) in
        reduced <-? reduce_phase spec g grouped;
        match reduced with
        | EndJob why r => Ok (job_result spec g (JobFailed why) ∅ (total, completed) (size grouped, r))
        | GoOn (r, output) => Ok (job_result spec g JobCompleted output (total, completed) (size grouped, r))
        end
    end.
End json.
