(* ===== verification/MapReduceProps.v ===== *)
(** * MapReduceProps: the result of a job does not depend on timing

    - [partition_exact]: the partitions are the input dealt out round robin;
    - [execute_exact]: a job completes exactly when every task succeeded, and its result
      is then a function of the tasks' answers, whatever order they finish in;
    - [sums_exact]: with the [sum] reducer a key's result is the sum of its integers. *)

From S2P Require Import Prelude Collections RustStr Float Capabilities Placement Blob Task MapReduce.
From Stdlib Require Import SpecFloat.
Local Open Scope N_scope.
Local Open Scope result_scope.

(** ** Partitioning *)

(** Chunk [k] holds the first [i] lines' positions [k], [k + n], [k + 2n], ... *)
Definition dealt (n i : nat) (input : list Str) (chunks : list (list Str)) : Prop :=
  length chunks = n /\
  forall k c, chunks !! k = Some c -> forall j, c !! j = if (k + j * n <? i)%nat then input !! (k + j * n)%nat else None.

Lemma dealt_length n i input chunks c :
  (0 < n)%nat -> (i < length input)%nat -> dealt n i input chunks -> chunks !! (i mod n)%nat = Some c -> length c = (i / n)%nat.
Proof.
  intros Hn Hi [_ Hd] Hc. specialize (Hd _ c Hc). pose proof (Nat.div_mod i n) as Hdm.
  assert (Hnone : c !! (i / n)%nat = None). { rewrite Hd. destruct (Nat.ltb_spec (i mod n + i / n * n) i); [lia|done]. }
  apply lookup_ge_None in Hnone. destruct (decide (i / n = 0)%nat) as [Hz|Hz]; [lia|].
  assert (Hsome : is_Some (c !! (i / n - 1)%nat)).
  { rewrite Hd. destruct (Nat.ltb_spec (i mod n + (i / n - 1) * n) i); [|nia]. apply lookup_lt_is_Some. lia. }
  apply lookup_lt_is_Some in Hsome. lia.
Qed.

Lemma dealt_step n i input chunks line :
  (0 < n)%nat -> input !! i = Some line -> dealt n i input chunks ->
  dealt n (S i) input (alter (fun c => c ++ [line]) (i mod n)%nat chunks).
Proof.
  intros Hn Hline Hd. pose proof (lookup_lt_Some _ _ _ Hline) as Hi. pose proof (Nat.div_mod i n) as Hdm.
  pose proof (Nat.mod_upper_bound i n) as Hmod. pose proof Hd as [Hlen Hin].
  split; [by rewrite length_alter|]. intros k c Hc j. destruct (decide (k = i mod n)%nat) as [->|Hk].
  - rewrite list_lookup_alter_eq in Hc; apply fmap_Some in Hc as (c0 & Hc0 & ->). pose proof (dealt_length n i input chunks c0 Hn Hi Hd Hc0) as Hl.
    destruct (decide (j = i / n)%nat) as [->|Hj].
    + rewrite lookup_app_r, Hl, Nat.sub_diag by lia. simpl.
      destruct (Nat.ltb_spec (i mod n + i / n * n) (S i)); [|lia]. by replace (i mod n + i / n * n)%nat with i by lia.
    + destruct (decide (j < i / n)%nat) as [Hlt|Hge].
      * rewrite lookup_app_l by lia. rewrite (Hin _ _ Hc0 j).
        destruct (Nat.ltb_spec (i mod n + j * n) i), (Nat.ltb_spec (i mod n + j * n) (S i)); try done; nia.
      * rewrite lookup_ge_None_2 by (rewrite length_app; simpl; lia).
        destruct (Nat.ltb_spec (i mod n + j * n) (S i)); [nia|done].
  - rewrite list_lookup_alter_ne in Hc by done. rewrite (Hin _ _ Hc j).
    destruct (Nat.ltb_spec (k + j * n) i), (Nat.ltb_spec (k + j * n) (S i)); try done; [lia|].
    exfalso. apply Hk. assert (i = k + j * n)%nat as -> by lia.
    assert (Hkn : (k < n)%nat) by (rewrite <-Hlen; by eapply lookup_lt_Some).
    by rewrite Nat.Div0.mod_add, Nat.mod_small.
Qed.

Lemma distribute_dealt n i input rest chunks :
  (0 < n)%nat -> drop i input = rest -> dealt n i input chunks -> dealt n (length input) input (distribute n i rest chunks).
Proof.
  intros Hn. revert i chunks. induction rest as [|line rest IH]; intros i chunks Hr Hd; cbn [distribute].
  - assert (length input <= i)%nat as Hle by (apply (f_equal length) in Hr; rewrite length_drop in Hr; simpl in Hr; lia).
    destruct Hd as [Hl Hin]. split; [done|]. intros k c Hc j. rewrite (Hin _ _ Hc j).
    destruct (Nat.ltb_spec (k + j * n) i), (Nat.ltb_spec (k + j * n) (length input)); try done; [|lia].
    by apply lookup_ge_None_2.
  - assert (Hline : input !! i = Some line).
    { replace i with (i + 0)%nat by lia. rewrite <-lookup_drop, Hr. done. }
    apply IH; [|by apply dealt_step]. by rewrite (drop_S _ line) in Hr by done; injection Hr.
Qed.

Lemma distribute_perm n i input chunks :
  (0 < n)%nat -> length chunks = n -> concat (distribute n i input chunks) ≡ₚ input ++ concat chunks.
Proof.
  intros Hn. revert i chunks. induction input as [|line input IH]; intros i chunks Hl; cbn [distribute]; [done|].
  rewrite IH by (by rewrite length_alter). simpl.
  assert (Halt : forall k, (k < length chunks)%nat -> concat (alter (fun c => c ++ [line]) k chunks) ≡ₚ line :: concat chunks).
  { clear -chunks. induction chunks as [|c cs IHc]; intros [|k] Hk; simpl in *; try lia.
    - rewrite <-app_assoc. simpl. by rewrite Permutation_middle.
    - change (c ++ concat (alter (fun c => c ++ [line]) k cs) ≡ₚ line :: c ++ concat cs).
      rewrite IHc by lia. by rewrite Permutation_middle. }
  rewrite Halt by (rewrite Hl; by apply Nat.mod_upper_bound; lia). by rewrite Permutation_middle.
Qed.

(** The input of a job is dealt out round robin: there are as many partitions as asked
    for, but at least one and at most one per line, partition [k] holds the lines [k],
    [k + n], [k + 2n], ... in order, none is empty, and together they hold every line
    exactly once. *)
Theorem partition_exact (spec : MapReduceJobSpec) :
  mj_input_data spec <> [] ->
  let chunks := partition_input spec in let n := num_partitions spec in
  length chunks = n /\ concat chunks ≡ₚ mj_input_data spec /\ Forall (fun c => c <> []) chunks /\
  (forall k j, (k < n)%nat -> default [] (chunks !! k) !! j = mj_input_data spec !! (k + j * n)%nat).
Proof.
  intros Hne. cbv zeta. unfold partition_input. set (n := num_partitions spec). set (input := mj_input_data spec) in *.
  assert (Hlen : (0 < length input)%nat) by (destruct input; [done|simpl; lia]).
  assert (Hn : (0 < n <= length input)%nat) by (unfold n, num_partitions; fold input; lia).
  set (chunks := distribute n 0 input (repeat [] n)).
  assert (Hd : dealt n (length input) input chunks).
  { apply distribute_dealt; [lia|done|]. split; [by rewrite repeat_length|].
    intros k c Hc j. apply list_elem_of_lookup_2, list_elem_of_In, repeat_spec in Hc as ->. rewrite lookup_nil.
    by destruct (Nat.ltb_spec (k + j * n) 0); [lia|]. }
  assert (Hp : concat chunks ≡ₚ input).
  { unfold chunks. rewrite distribute_perm by (rewrite ?repeat_length; lia).
    assert (Hz : concat (repeat ([] : list Str) n) = []) by (clear; induction n; simpl; auto). by rewrite Hz, app_nil_r. }
  destruct Hd as [Hl Hin].
  assert (Hall : Forall (fun c => c <> []) chunks).
  { apply Forall_lookup. intros k c Hc ->. specialize (Hin k [] Hc 0%nat). apply lookup_lt_Some in Hc.
    rewrite Nat.add_0_r, lookup_nil in Hin. destruct (Nat.ltb_spec k (length input)); [|lia].
    symmetry in Hin. apply lookup_ge_None in Hin. lia. }
  assert (Hfilter : List.filter (fun c => negb (is_empty c)) chunks = chunks).
  { clear -Hall. induction Hall as [|c cs Hc Hcs IH]; simpl; [done|]. destruct c; [done|]. simpl. by rewrite IH. }
  rewrite Hfilter. split; [done|]. split; [done|]. split; [done|]. intros k j Hk.
  destruct (lookup_lt_is_Some_2 chunks k) as [c Hc]; [lia|]. rewrite Hc. simpl. rewrite (Hin k c Hc j).
  destruct (Nat.ltb_spec (k + j * n) (length input)); [done|]. symmetry. by apply lookup_ge_None_2.
Qed.

Lemma lookup_repeat_lt {A} (x : A) n k : (k < n)%nat -> repeat x n !! k = Some x.
Proof. revert k. induction n as [|n IH]; intros [|k] Hk; simpl; try lia; [done|]. apply IH. lia. Qed.

Section json.
Context `{Json}.

(** ** The map phase *)

Definition succeeded (answer : result JobError TaskResult) : bool :=
  match answer with Ok r => (res_exit_code r =? 0)%Z && negb (stdout_was_truncated r) | Err _ => false end.

Definition pairs_of (answer : result JobError TaskResult) : list (Str * Value) :=
  match answer with Ok r => parse_map_output r | Err _ => [] end.

Lemma map_loop_spec answer order completed pp :
  NoDup order ->
  match map_loop answer order completed pp with
  | Ok (GoOn (c, pp')) =>
      (forall idx, idx ∈ order -> succeeded (answer idx) = true) /\ c = (completed + length order)%nat /\ length pp' = length pp /\
      forall k kvs, pp !! k = Some kvs -> pp' !! k = Some (if decide (k ∈ order) then kvs ++ pairs_of (answer k) else kvs)
  | _ => exists idx, idx ∈ order /\ succeeded (answer idx) = false
  end.
Proof.
  intros Hnd. revert completed pp. induction Hnd as [|idx order Hni Hnd IH]; intros completed pp; cbn [map_loop].
  - split; [set_solver|]. split; [simpl; lia|]. split; [done|]. intros k kvs Hk. by rewrite decide_False by set_solver.
  - unfold succeeded at 1 2. destruct (answer idx) as [r|e] eqn:Ha; cbn [result_bind]; [|exists idx; rewrite Ha; set_solver].
    destruct (res_exit_code r =? 0)%Z eqn:He; cbn [negb]; [|exists idx; rewrite Ha, He; set_solver].
    destruct (stdout_was_truncated r) eqn:Ht; [exists idx; rewrite Ha, He, Ht; set_solver|].
    specialize (IH (S completed) (alter (fun kvs => kvs ++ parse_map_output r) idx pp)).
    destruct (map_loop _ order _ _) as [[[c pp']|why c]|e];
      [|destruct IH as (i & ? & ?); exists i; set_solver|destruct IH as (i & ? & ?); exists i; set_solver].
    destruct IH as (Hall & -> & Hlen & Hpp). rewrite length_alter in Hlen. split; [|split; [simpl; lia|split; [done|]]].
    + intros i [->|Hi]%elem_of_cons; [by rewrite Ha, He, Ht|]. by apply Hall.
    + intros k kvs Hk. destruct (decide (k = idx)) as [->|Hne].
      * rewrite (Hpp idx (kvs ++ parse_map_output r)) by (by rewrite list_lookup_alter_eq, Hk).
        rewrite decide_False, decide_True by set_solver. by rewrite Ha.
      * rewrite (Hpp k kvs) by (by rewrite list_lookup_alter_ne by done).
        f_equal. destruct (decide (k ∈ order)), (decide (k ∈ idx :: order)); set_solver.
Qed.

(** In any order, the pairs end up in partition order. *)
Lemma map_loop_merged answer order n :
  order ≡ₚ seq 0 n ->
  match map_loop answer order 0 (repeat [] n) with
  | Ok (GoOn (c, pp)) =>
      (forall idx, (idx < n)%nat -> succeeded (answer idx) = true) /\ c = n /\ concat pp = concat (map (fun i => pairs_of (answer i)) (seq 0 n))
  | _ => exists idx, (idx < n)%nat /\ succeeded (answer idx) = false
  end.
Proof.
  intros Hp. assert (Hnd : NoDup order) by (rewrite Hp; apply NoDup_seq).
  assert (Hin : forall i, i ∈ order <-> (i < n)%nat). { intros i. rewrite Hp, elem_of_seq. lia. }
  pose proof (map_loop_spec answer order 0 (repeat [] n) Hnd) as Hs.
  destruct (map_loop _ _ _ _) as [[[c pp]|why c]|e]; [|destruct Hs as (i & ?%Hin & ?); eauto|destruct Hs as (i & ?%Hin & ?); eauto].
  destruct Hs as (Hall & -> & Hlen & Hpp). rewrite repeat_length in Hlen. split; [|split].
  - intros i Hi. by apply Hall, Hin.
  - rewrite (Permutation_length Hp), length_seq. lia.
  - f_equal. apply list_eq. intros k. destruct (decide (k < n)%nat) as [Hk|Hk].
    + rewrite (Hpp k []) by (by apply lookup_repeat_lt).
      rewrite decide_True by (by apply Hin). rewrite list_lookup_fmap, lookup_seq_lt by done. done.
    + rewrite !lookup_ge_None_2; [done| |lia]. rewrite length_map, length_seq. lia.
Qed.

(** ** The reduce phase *)

(** What the reducer makes of a group: [None] when it fails, [Some None] when it leaves
    the key out. *)
Definition reduce_key (spec : MapReduceJobSpec) (g : Grid) (key : Str) (vs : list Value) : option (option Value) :=
  match mj_reducer spec with
  | ReduceBuiltin operator => match reduce_builtin operator vs with Ok o => Some o | Err _ => None end
  | reducer =>
      match (task <-? reduce_task_spec reducer key vs; gr_reduce g key task (job_requirements spec)) with
      | Ok r => if succeeded (Ok r) then Some (Some (reduced_value r)) else None
      | Err _ => None
      end
  end.

Definition put_reduced (red : Str -> list Value -> option (option Value)) (output : gmap Str Value) (group : Str * list Value) : gmap Str Value :=
  match red group.1 group.2 with Some (Some v) => <[group.1 := v]> output | _ => output end.

(** A loop folded over every group, or stopped at one that fails. *)
Definition folded (red : Str -> list Value -> option (option Value)) (groups : list (Str * list Value)) (c0 : nat) (out0 : gmap Str Value)
    (p : option (Phase (nat * gmap Str Value))) : Prop :=
  match p with
  | Some (GoOn (c, output)) =>
      (forall group, group ∈ groups -> is_Some (red group.1 group.2)) /\ c = (c0 + length groups)%nat /\
      output = foldl (put_reduced red) out0 groups
  | _ => exists group, group ∈ groups /\ red group.1 group.2 = None
  end.

Definition ok_of {E A} (r : result E A) : option A := match r with Ok a => Some a | Err _ => None end.

Lemma folded_cons red group groups c0 out0 p :
  is_Some (red group.1 group.2) -> folded red groups (S c0) (put_reduced red out0 group) p -> folded red (group :: groups) c0 out0 p.
Proof.
  intros Hg Hf. destruct p as [[[c out]|why c]|]; cbn [folded] in *;
    [|destruct Hf as (gr & ? & ?); exists gr; set_solver|destruct Hf as (gr & ? & ?); exists gr; set_solver].
  destruct Hf as (Hall & -> & ->). split; [|simpl; split; [lia|done]].
  intros gr [->|Hin]%elem_of_cons; [done|by apply Hall].
Qed.

Lemma folded_nil red c0 out0 : folded red [] c0 out0 (Some (GoOn (c0, out0))).
Proof. split; [set_solver|]. simpl. split; [lia|done]. Qed.

Lemma builtin_loop_folded op red groups c0 out0 :
  (forall key vs, red key vs = ok_of (reduce_builtin op vs)) -> folded red groups c0 out0 (Some (builtin_loop op groups c0 out0)).
Proof.
  intros Hred. revert c0 out0. induction groups as [|[key vs] groups IH]; intros c0 out0; cbn [builtin_loop]; [apply folded_nil|].
  pose proof (Hred key vs) as Hk. destruct (reduce_builtin op vs) as [o|e]; [|exists (key, vs); set_solver].
  assert (Hput : put_reduced red out0 (key, vs) = match o with Some v => <[key := v]> out0 | None => out0 end)
    by (unfold put_reduced; cbn [fst snd]; by rewrite Hk).
  destruct o; (apply folded_cons; [cbn [fst snd]; rewrite Hk; by eexists|rewrite Hput; apply IH]).
Qed.

Lemma task_loop_folded answer red groups c0 out0 :
  (forall key vs, red key vs = match answer key vs with Ok r => if succeeded (Ok r) then Some (Some (reduced_value r)) else None | Err _ => None end) ->
  folded red groups c0 out0 (ok_of (task_loop answer groups c0 out0)).
Proof.
  intros Hred. revert c0 out0. induction groups as [|[key vs] groups IH]; intros c0 out0; cbn [task_loop]; [apply folded_nil|].
  pose proof (Hred key vs) as Hk. destruct (answer key vs) as [r|e]; cbn [result_bind]; [|exists (key, vs); set_solver].
  cbn [succeeded] in Hk. destruct (res_exit_code r =? 0)%Z; cbn [negb andb] in *; [|exists (key, vs); set_solver].
  destruct (stdout_was_truncated r); cbn [negb] in *; [exists (key, vs); set_solver|].
  assert (Hput : put_reduced red out0 (key, vs) = <[key := reduced_value r]> out0)
    by (unfold put_reduced; cbn [fst snd]; by rewrite Hk).
  apply folded_cons; [cbn [fst snd]; rewrite Hk; by eexists|]. rewrite Hput. apply IH.
Qed.

Lemma reduce_phase_folded spec g grouped :
  folded (reduce_key spec g) (gr_walk g grouped) 0 ∅ (ok_of (reduce_phase spec g grouped)).
Proof.
  unfold reduce_phase. destruct (mj_reducer spec) as [program args|script|operator] eqn:Hr.
  1,2: apply task_loop_folded; intros key vs; unfold reduce_key; by rewrite Hr.
  cbn [ok_of]. apply builtin_loop_folded. intros key vs. unfold reduce_key. by rewrite Hr.
Qed.

(** Over groups with different keys the fold computes one entry per group. *)
Lemma fold_reduced red groups out0 k :
  NoDup groups.*1 ->
  foldl (put_reduced red) out0 groups !! k =
    match list_to_map (M := gmap Str (list Value)) groups !! k with
    | Some vs => or_opt (default None (red k vs)) (out0 !! k)
    | None => out0 !! k
    end.
Proof.
  revert out0. induction groups as [|[key vs] groups IH]; intros out0 Hnd; [done|].
  apply NoDup_cons in Hnd as [Hni Hnd]. cbn [foldl fmap list_fmap fst] in *. rewrite IH by done. cbn [list_to_map foldr uncurry fst snd].
  destruct (decide (k = key)) as [->|Hne].
  - rewrite lookup_insert_eq, not_elem_of_list_to_map_1 by done. unfold put_reduced. cbn [fst snd].
    destruct (red key vs) as [[v|]|]; cbn [default or_opt]; [by rewrite lookup_insert_eq|done|done].
  - rewrite lookup_insert_ne by done. assert (Hsame : put_reduced red out0 (key, vs) !! k = out0 !! k).
    { unfold put_reduced. cbn [fst snd]. destruct (red key vs) as [[v|]|]; [by rewrite lookup_insert_ne by done|done|done]. }
    by rewrite Hsame.
Qed.

(** What the reducer makes of every group. *)
Definition reduced_output (red : Str -> list Value -> option (option Value)) (grouped : gmap Str (list Value)) : gmap Str Value :=
  map_imap (fun k vs => default None (red k vs)) grouped.

Lemma folded_walk (red : Str -> list Value -> option (option Value)) (grouped : gmap Str (list Value)) groups p :
  groups ≡ₚ map_to_list grouped -> folded red groups 0 ∅ p ->
  match p with
  | Some (GoOn (c, output)) =>
      map_Forall (fun k vs => is_Some (red k vs)) grouped /\ c = size grouped /\ output = reduced_output red grouped
  | _ => ~ map_Forall (fun k vs => is_Some (red k vs)) grouped
  end.
Proof.
  intros Hp Hf. assert (Hin : forall k vs, (k, vs) ∈ groups <-> grouped !! k = Some vs) by (intros; by rewrite Hp, elem_of_map_to_list).
  assert (Hbad : (exists group, group ∈ groups /\ red group.1 group.2 = None) -> ~ map_Forall (fun k vs => is_Some (red k vs)) grouped).
  { intros ([k vs] & Hg%Hin & Hr) Hall. destruct (Hall k vs Hg) as [o Ho]. cbn [fst snd] in Hr. by rewrite Hr in Ho. }
  destruct p as [[[c out]|why c]|]; cbn [folded] in Hf; [|by apply Hbad|by apply Hbad].
  destruct Hf as (Hall & -> & ->). split; [|split].
  - intros k vs Hk. by apply (Hall (k, vs)), Hin.
  - by rewrite (Permutation_length Hp), length_map_to_list.
  - apply map_eq. intros k. rewrite fold_reduced by (rewrite Hp; apply NoDup_fst_map_to_list).
    rewrite (list_to_map_proper groups (map_to_list grouped)) by (rewrite ?Hp; try apply NoDup_fst_map_to_list; done).
    rewrite list_to_map_to_list, lookup_empty. unfold reduced_output. rewrite map_lookup_imap.
    destruct (grouped !! k) as [vs|]; [simpl|done]. by destruct (default None (red k vs)).
Qed.

(** ** The job *)

(** The answer for a partition, and the groups all answers make. *)
Definition job_answer (spec : MapReduceJobSpec) (g : Grid) (script : option Str) : nat -> result JobError TaskResult :=
  map_answer spec g script (partition_input spec).
Definition job_groups (spec : MapReduceJobSpec) (g : Grid) (script : option Str) : gmap Str (list Value) :=
  group_pairs (concat (map (fun i => pairs_of (job_answer spec g script i)) (seq 0 (length (partition_input spec))))).

Definition maps_succeed (spec : MapReduceJobSpec) (g : Grid) (script : option Str) : Prop :=
  forall idx, (idx < length (partition_input spec))%nat -> succeeded (job_answer spec g script idx) = true.
Definition reduces_succeed (spec : MapReduceJobSpec) (g : Grid) (script : option Str) : Prop :=
  map_Forall (fun k vs => is_Some (reduce_key spec g k vs)) (job_groups spec g script).

Lemma execute_cases (spec : MapReduceJobSpec) (g : Grid) (script : option Str) :
  mj_input_data spec <> [] -> map_script (mj_mapper spec) = Ok script -> check_reducer (mj_reducer spec) = Ok tt ->
  (forall n, gr_map_order g n ≡ₚ seq 0 n) -> (forall m, gr_walk g m ≡ₚ map_to_list m) ->
  let total := length (partition_input spec) in let groups := job_groups spec g script in
  (maps_succeed spec g script /\ reduces_succeed spec g script ->
   execute spec g = Ok (job_result spec g JobCompleted (reduced_output (reduce_key spec g) groups) (total, total) (size groups, size groups))) /\
  (~ (maps_succeed spec g script /\ reduces_succeed spec g script) ->
   match execute spec g with Ok res => mr_status res <> JobCompleted /\ mr_output res = ∅ | Err _ => True end).
Proof.
  intros Hne Hscript Hred Horder Hwalk. cbv zeta. unfold execute.
  assert (Hemp : is_empty (mj_input_data spec) = false) by (by destruct (mj_input_data spec)).
  rewrite Hemp, Hscript, Hred. cbn [result_bind]. fold (job_answer spec g script).
  pose proof (map_loop_merged (job_answer spec g script) _ _ (Horder (length (partition_input spec)))) as Hmap.
  destruct (map_loop _ _ _ _) as [[[c pp]|why c]|e]; cbn [result_bind].
  2,3: destruct Hmap as (i & Hi & Hbad); split; [intros [Hall _]; rewrite (Hall i Hi) in Hbad; done|done].
  destruct Hmap as (Hall & -> & Hpp). rewrite Hpp. fold (job_groups spec g script).
  pose proof (folded_walk _ _ _ _ (Hwalk (job_groups spec g script)) (reduce_phase_folded spec g (job_groups spec g script))) as Hreduce.
  destruct (reduce_phase _ _ _) as [[[r out]|why r]|e]; cbn [result_bind ok_of] in *.
  2,3: split; [intros [_ Hr]; by apply Hreduce in Hr|done].
  destruct Hreduce as (Hr & -> & ->). split; [done|]. intros Hno. destruct Hno. by split.
Qed.

(** C35 A map/reduce job whose operators are known and whose input is not empty completes
    exactly when every map task and every group's reduction succeeded (exit code zero,
    output not truncated).  Its output is then what the reducer makes of each group, the
    groups holding the pairs in partition order, whatever order the tasks finish in and
    the maps are walked in; all its counters are at their totals.  A job that ends in any
    other way carries no output. *)
Theorem execute_exact (spec : MapReduceJobSpec) (g : Grid) (script : option Str) :
  mj_input_data spec <> [] -> map_script (mj_mapper spec) = Ok script -> check_reducer (mj_reducer spec) = Ok tt ->
  (forall n, gr_map_order g n ≡ₚ seq 0 n) -> (forall m, gr_walk g m ≡ₚ map_to_list m) ->
  let total := length (partition_input spec) in let groups := job_groups spec g script in
  (maps_succeed spec g script /\ reduces_succeed spec g script ->
   execute spec g = Ok (job_result spec g JobCompleted (reduced_output (reduce_key spec g) groups) (total, total) (size groups, size groups))) /\
  (~ (maps_succeed spec g script /\ reduces_succeed spec g script) ->
   match execute spec g with Ok res => mr_status res <> JobCompleted /\ mr_output res = ∅ | Err _ => True end).
Proof. apply execute_cases. Qed.

(** ** Sums *)

(** The integers a list of values reads as, when it has no others. *)
Definition ints_of (vs : list Value) (ns : list Z) : Prop := Forall2 (fun v n => parse_sum v = PInt n) vs ns.

Definition zsum (ns : list Z) : Z := foldr Z.add 0%Z ns.

Context `{!JsonLaws}.

Lemma parse_i64_range s n : parse_i64 s = Some n -> in_i64 n = true.
Proof.
  unfold parse_i64. destruct (take_sign s) as [neg digits]. destruct (take_digits 0 0 digits) as [[v count] rest].
  destruct (_ && _); [|done]. destruct (in_i64 (if neg then _ else _)) eqn:Hi; [|done]. by intros [= <-].
Qed.

Lemma parse_sum_range v n : parse_sum v = PInt n -> in_i64 n = true.
Proof.
  unfold parse_sum. destruct (as_i64 v) as [m|] eqn:Hi; cbn [or_opt].
  { intros [= <-]. by eapply as_i64_range. }
  destruct (as_str v) as [s|]; cbn [mbind option_bind] in *.
  - destruct (parse_i64 s) as [m|] eqn:Hp; cbn [or_opt]; [intros [= <-]; by eapply parse_i64_range|].
    destruct (or_opt _ _) as [f|]; [by destruct (is_finite f)|done].
  - destruct (or_opt _ _) as [f|]; [by destruct (is_finite f)|done].
Qed.

Lemma in_i64_bounds n : in_i64 n = true -> (- 2 ^ 63 <= n <= 2 ^ 63 - 1)%Z.
Proof. unfold in_i64, i64_min, i64_max. lia. Qed.

(** While [k] integers have been added the running sum is at most [k * 2^63] in size. *)
Lemma sum_loop_ints vs ns st k :
  ints_of vs ns -> sm_overflow st = false -> (Z.abs (sm_i st) <= k * 2 ^ 63)%Z -> (k + Z.of_nat (length ns) <= 2 ^ 63)%Z ->
  sum_loop st vs = Ok {| sm_i := (sm_i st + zsum ns)%Z; sm_f := sm_f st; sm_has_float := sm_has_float st; sm_overflow := false;
                         sm_usable := sm_usable st || negb (is_empty vs) |}.
Proof.
  intros Hints. revert st k. induction Hints as [|v n vs ns Hv Hints IH]; intros st k Hov Hk Hlen; cbn [sum_loop zsum foldr].
  - rewrite Z.add_0_r. destruct st as [i f hf ov us]; cbn in *. subst. by rewrite orb_false_r.
  - pose proof (in_i64_bounds n (parse_sum_range v n Hv)) as Hn. unfold sum_step. rewrite Hv, Hov. cbn [negb].
    cbn [length] in Hlen.
    assert (Hin : in_i128 (sm_i st + n) = true) by (unfold in_i128, i128_min, i128_max; lia).
    rewrite Hin. cbn [result_bind]. rewrite (IH _ (k + 1)%Z); cbn [sm_i sm_overflow sm_f sm_has_float sm_usable]; [|done|lia|lia].
    do 2 f_equal; [unfold zsum; lia|]. cbn [is_empty negb]. by rewrite !orb_true_r.
Qed.

(** The [sum] of up to [2^63] integers is their exact sum, however large. *)
Lemma reduce_sum_ints vs ns :
  ints_of vs ns -> vs <> [] -> (Z.of_nat (length vs) <= 2 ^ 63)%Z ->
  reduce_sum vs = Ok (Some (if in_i64 (zsum ns) then json_int (zsum ns) else json_float (f64_of_Z (zsum ns)))).
Proof.
  intros Hints Hne Hlen. unfold reduce_sum. rewrite (Forall2_length _ _ _ Hints) in Hlen.
  rewrite (sum_loop_ints vs ns sum0 0%Z Hints); [|done|simpl; lia|lia]. cbn [result_bind sm_usable sm_has_float sm_overflow sm_i sum0].
  destruct vs; [done|]. cbn [is_empty negb orb]. rewrite Z.add_0_l. by destruct (in_i64 (zsum ns)).
Qed.

(** The values a list of pairs holds for a key. *)
Definition values_of (k : Str) (kvs : list (Str * Value)) : list Value := omap (fun kv => if decide (kv.1 = k) then Some kv.2 else None) kvs.

Lemma group_pairs_lookup kvs k :
  group_pairs kvs !! k = if is_empty (values_of k kvs) then None else Some (values_of k kvs).
Proof.
  unfold group_pairs. induction kvs as [|kv kvs IH] using rev_ind; [done|].
  rewrite foldl_app. cbn [foldl]. unfold group_one at 1. unfold values_of in *. rewrite omap_app. cbn [omap list_omap].
  destruct (decide (kv.1 = k)) as [<-|Hne].
  - rewrite lookup_insert_eq, IH. destruct (omap _ kvs) eqn:Ho; cbn [is_empty default app]; done.
  - rewrite lookup_insert_ne, app_nil_r by done. done.
Qed.

Lemma group_pairs_keys kvs k : is_Some (group_pairs kvs !! k) <-> k ∈ kvs.*1.
Proof.
  rewrite group_pairs_lookup, list_elem_of_fmap. unfold values_of. split.
  - intros [vs Hvs]. destruct (omap _ kvs) as [|v rest] eqn:Ho; [done|].
    assert (Hv : v ∈ omap (fun kv => if decide (kv.1 = k) then Some kv.2 else None) kvs) by (rewrite Ho; set_solver).
    apply list_elem_of_omap in Hv as (kv & Hkv & Hd). exists kv. by destruct (decide (kv.1 = k)).
  - intros (kv & -> & Hkv). destruct (omap _ kvs) as [|v rest] eqn:Ho; [|by eexists].
    assert (Hin : kv.2 ∈ omap (fun p => if decide (p.1 = kv.1) then Some p.2 else None) kvs)
      by (apply list_elem_of_omap; exists kv; by rewrite decide_True by done).
    rewrite Ho in Hin. by apply elem_of_nil in Hin.
Qed.

(** The integers of a key, read off pairs and their numbers. *)
Definition ints_at (k : Str) (pairs : list (Str * Value)) (ns : list Z) : list Z :=
  omap (fun p => if decide (p.1.1 = k) then Some p.2 else None) (zip pairs ns).

Lemma ints_of_at k pairs ns :
  Forall2 (fun kv n => parse_sum kv.2 = PInt n) pairs ns -> ints_of (values_of k pairs) (ints_at k pairs ns).
Proof.
  unfold ints_of, values_of, ints_at. induction 1 as [|kv n pairs ns Hv Hrest IH]; [constructor|].
  cbn [zip zip_with omap list_omap fst snd]. destruct (decide (kv.1 = k)); [by constructor|done].
Qed.

Lemma length_values_of k kvs : (length (values_of k kvs) <= length kvs)%nat.
Proof.
  unfold values_of. induction kvs as [|kv kvs IH]; cbn [omap list_omap length]; [lia|].
  destruct (decide (kv.1 = k)); cbn [length]; [by apply le_n_S|by apply Nat.le_le_succ_r].
Qed.

(** The number a sum is reported as. *)
Definition sum_value (z : Z) : Value := if in_i64 z then json_int z else json_float (f64_of_Z z).

Lemma is_empty_nil {A} (l : list A) : is_empty l = false -> l <> [].
Proof. by destruct l. Qed.

(** All pairs a job's map tasks emit, in partition order. *)
Definition job_pairs (spec : MapReduceJobSpec) (g : Grid) (script : option Str) : list (Str * Value) :=
  concat (map (fun i => pairs_of (job_answer spec g script i)) (seq 0 (length (partition_input spec)))).

(** The built-in [sum] over integers is exact: a job with that reducer whose map tasks
    all succeeded and emitted (at most 2^63) pairs that read as integers [ns] completes,
    the keys of its output are the keys of the pairs, and the value of a key is the exact
    sum of the integers emitted for it: neither the running 128-bit sum overflows nor does
    the order of the tasks matter.  The sum is an integer when it fits 64 bits and the
    nearest float otherwise. *)
Theorem sums_exact (spec : MapReduceJobSpec) (g : Grid) (script : option Str) (ns : list Z) :
  mj_input_data spec <> [] -> map_script (mj_mapper spec) = Ok script -> mj_reducer spec = ReduceBuiltin (str "sum") ->
  (forall n, gr_map_order g n ≡ₚ seq 0 n) -> (forall m, gr_walk g m ≡ₚ map_to_list m) ->
  maps_succeed spec g script ->
  Forall2 (fun kv n => parse_sum kv.2 = PInt n) (job_pairs spec g script) ns -> (Z.of_nat (length ns) <= 2 ^ 63)%Z ->
  exists res, execute spec g = Ok res /\ mr_status res = JobCompleted /\
    forall k, mr_output res !! k = if decide (k ∈ (job_pairs spec g script).*1) then Some (sum_value (zsum (ints_at k (job_pairs spec g script) ns))) else None.
Proof.
  intros Hne Hscript Hsum Horder Hwalk Hmaps Hints Hlen.
  assert (Hkey : forall k vs, job_groups spec g script !! k = Some vs ->
    reduce_key spec g k vs = Some (Some (sum_value (zsum (ints_at k (job_pairs spec g script) ns))))).
  { intros k vs. unfold job_groups. fold (job_pairs spec g script). rewrite group_pairs_lookup.
    destruct (is_empty (values_of k _)) eqn:He; [done|]. intros [= <-]. unfold reduce_key. rewrite Hsum.
    unfold reduce_builtin. rewrite bool_decide_true by done.
    rewrite (reduce_sum_ints _ (ints_at k (job_pairs spec g script) ns)); [done|by apply ints_of_at|by apply is_empty_nil|].
    rewrite <-(Forall2_length _ _ _ Hints) in Hlen. etransitivity; [|exact Hlen]. apply Nat2Z.inj_le, length_values_of. }
  destruct (execute_cases spec g script Hne Hscript) as [Hdone _]; [by rewrite Hsum|done|done|]. eexists. split; [apply Hdone|].
  { split; [done|]. intros k vs Hk. rewrite (Hkey k vs Hk). by eexists. }
  split; [done|]. intros k. cbn [job_result mr_output]. unfold reduced_output. rewrite map_lookup_imap.
  pose proof (group_pairs_keys (job_pairs spec g script) k) as Hk. fold (job_groups spec g script) in Hk.
  destruct (job_groups spec g script !! k) as [vs|] eqn:Hg; cbn [mbind option_bind].
  - rewrite (Hkey k vs Hg). cbn [default]. rewrite decide_True; [done|]. apply Hk. by eexists.
  - rewrite decide_False; [done|]. intros Hin. apply Hk in Hin. destruct Hin as [vs Hvs]. by pose proof (eq_trans (eq_sym Hg) Hvs).
Qed.
End json.

(** ** A sample job *)

(** Enough JSON for integers and texts. *)
Module ToyJson.
#[export] Instance json : Json := {|
  Value := Z + Str;
  json_parse s := inl <$> parse_i64 s;
  json_show v := match v with inl _ => [] | inr s => s end;
  as_i64 v := match v with inl n => if in_i64 n then Some n else None | inr _ => None end;
  as_f64 v := None;
  as_str v := match v with inl _ => None | inr s => Some s end;
  get_field _ _ := None;
  json_int n := inl n;
  json_float f := inr [];
  json_string s := inr s;
  json_grouped key vs := Some (utf8_encode key)
|}.

#[export] Instance laws : JsonLaws.
Proof.
  split.
  - intros [m|s] n; simpl; [|done]. destruct (in_i64 m) eqn:Hm; [|done]. by intros [= <-].
  - intros n Hn. simpl. by rewrite Hn.
Qed.
End ToyJson.
Import ToyJson.

Definition word_count_job : MapReduceJobSpec := {|
  mj_job_id := 1; mj_name := str "words"; mj_input_data := [str "a b"; str "b"]; mj_mapper := MapBuiltin (str "word_count");
  mj_reducer := ReduceBuiltin (str "sum"); mj_partition_count := 2; mj_reducer_count := 1; mj_timeout_secs := 60
|}.

(** The second partition finishes first. *)
Definition word_count_grid : Grid := {|
  gr_map idx _ _ := Ok (result_success 7 1 (if (idx =? 0)%nat then [97; 9; 49; 10; 98; 9; 49; 10] else [98; 9; 49; 10]) 5 false);
  gr_reduce _ _ _ := Err (TaskFailed 0);
  gr_map_order n := rev (seq 0 n);
  gr_walk m := map_to_list m;
  gr_elapsed_ms := 5
|}.

Lemma partition_exact_witness :
  mj_input_data word_count_job <> [] /\ concat (partition_input word_count_job) ≡ₚ [str "a b"; str "b"].
Proof. split; [done|]. apply (partition_exact word_count_job). done. Defined.

Lemma sample_order n : gr_map_order word_count_grid n ≡ₚ seq 0 n.
Proof. cbn [gr_map_order word_count_grid]. symmetry. apply Permutation_rev. Qed.

Lemma sample_maps : maps_succeed word_count_job word_count_grid (Some word_count_script).
Proof. intros [|[|idx]] Hi; [vm_compute; reflexivity|vm_compute; reflexivity|]. vm_compute in Hi. lia. Qed.

Lemma execute_exact_witness :
  exists res, execute word_count_job word_count_grid = Ok res /\ mr_status res = JobCompleted /\ mr_output res !! str "b" = Some (inl 2%Z).
Proof.
  destruct (execute_exact word_count_job word_count_grid (Some word_count_script)) as [Hdone _].
  - done.
  - reflexivity.
  - vm_compute; reflexivity.
  - exact sample_order.
  - done.
  - eexists. split; [apply Hdone|split; [done|vm_compute; reflexivity]]. split; [exact sample_maps|].
    unfold reduces_succeed. apply (bool_decide_unpack (map_Forall (fun k vs => is_Some (reduce_key word_count_job word_count_grid k vs)) _)).
    vm_compute. exact I.
Defined.

Lemma sums_exact_witness :
  exists res, execute word_count_job word_count_grid = Ok res /\ mr_status res = JobCompleted /\ mr_output res !! str "b" = Some (inl 2%Z).
Proof.
  destruct (sums_exact word_count_job word_count_grid (Some word_count_script) [1; 1; 1]%Z) as (res & Hres & Hst & Hout).
  - done.
  - reflexivity.
  - reflexivity.
  - exact sample_order.
  - done.
  - exact sample_maps.
  - repeat constructor.
  - vm_compute. done.
  - exists res. split; [done|]. split; [done|]. rewrite Hout. vm_compute. reflexivity.
Defined.
