(* ===== verification/Mesh.v ===== *)
(** * Mesh: the agent mesh's envelopes and relay hub

    Models [crates/agent_mesh/src/protocol.rs] and [crates/agent_mesh/src/hub.rs].  A
    socket's outbound queue is shared by reference: it is named by its connection and
    kept in the hub ([hub_boxes]), so that [NodeSession] holds the name.  A function of
    a [Connection] takes and returns the hub; what the command bridge is asked is
    recorded in [hub_spawned] and answered by [bridge_reply].  JSON is an interface; log
    lines and HTTP bodies are left out. *)

From S2P Require Import Prelude Collections RustStr Float Capabilities Placement Blob Protocol ClusterAuth Auth.
Local Open Scope N_scope.

(** ** Node ids *)

Definition ERR_UNAUTHORIZED : Str := str "ERR_UNAUTHORIZED".
Definition ERR_NOT_REGISTERED : Str := str "ERR_NOT_REGISTERED".
Definition ERR_DUPLICATE_NODE_ID : Str := str "ERR_DUPLICATE_NODE_ID".
Definition ERR_INVALID_NODE_ID : Str := str "ERR_INVALID_NODE_ID".
Definition ERR_SENDER_MISMATCH : Str := str "ERR_SENDER_MISMATCH".
Definition ERR_NODE_UNAVAILABLE : Str := str "ERR_NODE_UNAVAILABLE".
Definition RESERVED_NODE_IDS : list Str := [str "hub"; str "grid"; str "grid-master"; str "all"].
Definition MAX_NODE_ID_LEN : N := 128.

(** [char::is_control]: the general category Cc. *)
Definition is_control (c : char) : bool := (c <? 32) || ((127 <=? c) && (c <? 160)).

Inductive NodeIdError := IdEmpty | IdTooLong | IdControl | IdReserved.

Definition validate_node_id (id : Str) : result NodeIdError unit :=
  if is_empty id then Err IdEmpty
  else if MAX_NODE_ID_LEN <? str_len id then Err IdTooLong
  else if existsb is_control id then Err IdControl
  else if existsb (fun r => eq_ignore_ascii_case r id) RESERVED_NODE_IDS then Err IdReserved
  else Ok tt.

(** ** Envelopes *)

(** What the hub uses of serde_json. *)
Class MeshValue := {
  JValue : Type;
  JString : Str -> JValue;
  JNumber : N -> JValue;
  JArray : list JValue -> JValue;
  as_object : JValue -> option (gmap Str JValue);
  of_object : gmap Str JValue -> JValue
}.

Section envelope.
Context `{MeshValue}.

Record NodeDescriptor := {
  nd_node_id : Str; nd_platform : Str; nd_hostname : Str; nd_status : Str; nd_capabilities : JValue; nd_connected_at : N
}.

(** What each kind of envelope carries besides the fields every kind has. *)
Inductive Body :=
| NodeRegistration (platform hostname : Str) (capabilities : JValue) (token : option Str)
| NodeRegistrationAck (status assigned_node_id : Str) (heartbeat_interval_ms : N) (cluster_id : Str) (message : option Str)
| NodeList (filter_platform : option Str)
| NodeListResponse (nodes : list NodeDescriptor)
| Heartbeat (cpu_usage_pct : option f32) (memory_free_mb active_commands : option N)
| HeartbeatAck
| CommandRequest (command : Str) (args : JValue) (payload : option JValue) (timeout_ms : option N) (require_ack : bool)
| CommandResponse (command : option Str) (status : Str) (exit_code : Z) (stdout stderr : Str) (execution_duration_ms : N)
    (payload : option JValue) (error : option Str)
| DataPayload (payload_type : option Str) (sequence_number total_chunks chunk_size_bytes : N) (data checksum_sha256 : option Str)
    (payload : option JValue) (metadata : option (gmap Str Str))
| DeliveryAck (status : Str)
| DeliveryNack (error_code reason : Str)
| Broadcast (topic event : option Str) (data : option JValue).

Record AgentMeshEnvelope := {
  ev_version : Str; correlation_id : Str; from_node : Str; to_node : Str; ev_timestamp : N; ev_body : Body
}.

(** Moving a field under its canonical name; the alternate name never stays. *)
Definition rename_field (canonical alternate : Str) (obj : gmap Str JValue) : gmap Str JValue :=
  match obj !! canonical with
  | None => match obj !! alternate with Some v => <[canonical := v]> (delete alternate obj) | None => obj end
  | Some _ => delete alternate obj
  end.

Definition normalize_json_value (val : JValue) : JValue :=
  match as_object val with
  | Some obj =>
      of_object (rename_field (str "from") (str "node_id") (rename_field (str "correlation_id") (str "id") (rename_field (str "type") (str "msg_type") obj)))
  | None => val
  end.

Definition hub_envelope (now : N) (to corr_id : Str) (body : Body) : AgentMeshEnvelope :=
  {| ev_version := str "1.0"; correlation_id := corr_id; from_node := str "hub"; to_node := to; ev_timestamp := now; ev_body := body |}.
Definition new_delivery_ack (now : N) (to corr_id status : Str) : AgentMeshEnvelope := hub_envelope now to corr_id (DeliveryAck status).
Definition new_delivery_nack (now : N) (to corr_id error_code reason : Str) : AgentMeshEnvelope :=
  hub_envelope now to corr_id (DeliveryNack error_code reason).
End envelope.

(** Reading and writing envelopes: [serde_json::from_str], the derived decoder and
    encoder. *)
Class MeshJson `{MeshValue} := {
  mesh_parse : Str -> option JValue;
  envelope_of : JValue -> option AgentMeshEnvelope;
  to_json_string : AgentMeshEnvelope -> option Str
}.

Definition from_json_str `{MeshJson} (s : Str) : option AgentMeshEnvelope :=
  val ← mesh_parse s; envelope_of (normalize_json_value val).

(** ** Outbound queues *)

Inductive Message := MText (s : Str) | MBinary (b : Bytes) | MPing (b : Bytes) | MPong (b : Bytes) | MClose.
Definition message_weight (m : Message) : N :=
  match m with MText s => str_len s | MBinary b | MPing b | MPong b => blen b | MClose => 0 end.

Inductive PushError := Full | Closed.

(** [ob_queue] is what the channel holds, [ob_capacity] its capacity; [ob_closed] is set
    when its receiver (the write pump) is gone. *)
Record Outbox := {
  ob_queue : list Message; ob_capacity : nat; ob_queued_bytes : N; ob_max_bytes : N; ob_closed : bool; ob_kicked : bool
}.

Definition is_dead (o : Outbox) : bool := ob_closed o || ob_kicked o.

Definition set_outbox (queue : list Message) (bytes : N) (kicked : bool) (o : Outbox) : Outbox :=
  {| ob_queue := queue; ob_capacity := ob_capacity o; ob_queued_bytes := bytes; ob_max_bytes := ob_max_bytes o; ob_closed := ob_closed o;
     ob_kicked := kicked |}.

(** The three atomic parts of [push]: the reservation, giving it back, the send. *)
Definition push_reserve (weight : N) (o : Outbox) : bool * Outbox :=
  let before := ob_queued_bytes o in
  let o := set_outbox (ob_queue o) (before + weight) (ob_kicked o) o in
  (negb (before =? 0) && (ob_max_bytes o <? saturating_add usize_max before weight), o).
Definition push_release (weight : N) (kick : bool) (o : Outbox) : Outbox :=
  set_outbox (ob_queue o) (ob_queued_bytes o - weight) (kick || ob_kicked o) o.
Definition try_send (m : Message) (o : Outbox) : result PushError unit * Outbox :=
  if ob_closed o then (Err Closed, o)
  else if (ob_capacity o <=? length (ob_queue o))%nat then (Err Full, o)
  else (Ok tt, set_outbox (ob_queue o ++ [m]) (ob_queued_bytes o) (ob_kicked o) o).

Definition push (m : Message) (o : Outbox) : result PushError unit * Outbox :=
  if is_dead o then (Err Closed, o)
  else
    let weight := message_weight m in
    let '(over, o) := push_reserve weight o in
    if over then (Err Full, push_release weight true o)
    else
      match try_send m o with
      | (Ok _, o) => (Ok tt, o)
      | (Err Full, o) => (Err Full, push_release weight true o)
      | (Err Closed, o) => (Err Closed, push_release weight false o)
      end.

(** ** The hub *)

Definition MAX_NODE_IDS_PER_SOCKET : nat := 16.
Definition PRE_REGISTRATION_MAX_BYTES : N := 64 * 1024.

Record HubConfig := {
  hc_auth_token : option Str;
  hc_allow_insecure_bind : bool;
  hc_max_queued_messages : nat;
  hc_max_queued_bytes : N;
  hc_max_message_bytes : N;
  hc_registration_timeout : Duration;
  hc_ping_interval : Duration;
  hc_idle_timeout : Duration
}.

Definition hub_config_default : HubConfig := {|
  hc_auth_token := None; hc_allow_insecure_bind := false; hc_max_queued_messages := 1024; hc_max_queued_bytes := 32 * 1024 * 1024;
  hc_max_message_bytes := 16 * 1024 * 1024; hc_registration_timeout := from_secs 10; hc_ping_interval := from_secs 15;
  hc_idle_timeout := from_secs 60
|}.

Record HubStats := { routed_commands : N; routed_responses : N; routed_data : N; delivered_acks : N; delivered_nacks : N }.
Definition hub_stats_default : HubStats :=
  {| routed_commands := 0; routed_responses := 0; routed_data := 0; delivered_acks := 0; delivered_nacks := 0 |}.

Section hub.
Context `{MeshValue}.

Record NodeSession := {
  ns_node_id : Str; ns_platform : Str; ns_hostname : Str; ns_capabilities : JValue; ns_connected_at : N; ns_last_heartbeat : N;
  ns_tx : N; ns_conn_id : N
}.

(** [hub_spawned]: the commands the bridge is working on, with the connection and the
    node that asked. *)
Record HubState := {
  hub_nodes : gmap Str NodeSession;
  hub_stats : HubStats;
  hub_bridge : bool;
  hub_config : HubConfig;
  hub_next_conn_id : N;
  hub_boxes : gmap N Outbox;
  hub_spawned : list (N * Str * AgentMeshEnvelope)
}.

Definition with_config (config : HubConfig) : HubState := {|
  hub_nodes := ∅; hub_stats := hub_stats_default; hub_bridge := false; hub_config := config; hub_next_conn_id := 1; hub_boxes := ∅; hub_spawned := []
|}.

Definition set_nodes (nodes : gmap Str NodeSession) (h : HubState) : HubState := {|
  hub_nodes := nodes; hub_stats := hub_stats h; hub_bridge := hub_bridge h; hub_config := hub_config h; hub_next_conn_id := hub_next_conn_id h;
  hub_boxes := hub_boxes h; hub_spawned := hub_spawned h |}.
Definition set_stats (f : HubStats -> HubStats) (h : HubState) : HubState := {|
  hub_nodes := hub_nodes h; hub_stats := f (hub_stats h); hub_bridge := hub_bridge h; hub_config := hub_config h;
  hub_next_conn_id := hub_next_conn_id h; hub_boxes := hub_boxes h; hub_spawned := hub_spawned h |}.
Definition set_boxes (boxes : gmap N Outbox) (h : HubState) : HubState := {|
  hub_nodes := hub_nodes h; hub_stats := hub_stats h; hub_bridge := hub_bridge h; hub_config := hub_config h; hub_next_conn_id := hub_next_conn_id h;
  hub_boxes := boxes; hub_spawned := hub_spawned h |}.
Definition set_spawned (spawned : list (N * Str * AgentMeshEnvelope)) (h : HubState) : HubState := {|
  hub_nodes := hub_nodes h; hub_stats := hub_stats h; hub_bridge := hub_bridge h; hub_config := hub_config h; hub_next_conn_id := hub_next_conn_id h;
  hub_boxes := hub_boxes h; hub_spawned := spawned |}.

Definition count_command (s : HubStats) : HubStats := {| routed_commands := routed_commands s + 1; routed_responses := routed_responses s;
  routed_data := routed_data s; delivered_acks := delivered_acks s; delivered_nacks := delivered_nacks s |}.
Definition count_response (s : HubStats) : HubStats := {| routed_commands := routed_commands s; routed_responses := routed_responses s + 1;
  routed_data := routed_data s; delivered_acks := delivered_acks s; delivered_nacks := delivered_nacks s |}.
Definition count_data (s : HubStats) : HubStats := {| routed_commands := routed_commands s; routed_responses := routed_responses s;
  routed_data := routed_data s + 1; delivered_acks := delivered_acks s; delivered_nacks := delivered_nacks s |}.
Definition count_ack (s : HubStats) : HubStats := {| routed_commands := routed_commands s; routed_responses := routed_responses s;
  routed_data := routed_data s; delivered_acks := delivered_acks s + 1; delivered_nacks := delivered_nacks s |}.
Definition count_nack (s : HubStats) : HubStats := {| routed_commands := routed_commands s; routed_responses := routed_responses s;
  routed_data := routed_data s; delivered_acks := delivered_acks s; delivered_nacks := delivered_nacks s + 1 |}.

(** Pushing to a connection's queue. *)
Definition box_of (c : N) (h : HubState) : Outbox :=
  default {| ob_queue := []; ob_capacity := 1; ob_queued_bytes := 0; ob_max_bytes := 0; ob_closed := true; ob_kicked := false |} (hub_boxes h !! c).
Definition push_to (c : N) (m : Message) (h : HubState) : result PushError unit * HubState :=
  let '(r, o) := push m (box_of c h) in (r, set_boxes (<[c := o]> (hub_boxes h)) h).

Definition remove_node (node_id : Str) (h : HubState) : HubState := set_nodes (delete node_id (hub_nodes h)) h.
Definition remove_connection (conn_id : N) (h : HubState) : HubState :=
  set_nodes (filter (fun p => ns_conn_id p.2 <> conn_id) (hub_nodes h)) h.
Definition outbox_of (node_id : Str) (h : HubState) : option N := ns_tx <$> hub_nodes h !! node_id.
Definition prune_if_dead (node_id : Str) (h : HubState) : HubState :=
  match hub_nodes h !! node_id with
  | Some s => if is_dead (box_of (ns_tx s) h) then set_nodes (delete node_id (hub_nodes h)) h else h
  | None => h
  end.

Definition descriptor (s : NodeSession) : NodeDescriptor :=
  {| nd_node_id := ns_node_id s; nd_platform := ns_platform s; nd_hostname := ns_hostname s; nd_status := str "online";
     nd_capabilities := ns_capabilities s; nd_connected_at := ns_connected_at s |}.
Definition grid_commands : list Str :=
  [str "grid_compute"; str "grid_compile"; str "grid_submit"; str "grid_status"; str "grid_3d_generate"; str "grid_auto_rig";
   str "compute"; str "compile"; str "status"; str "submit"; str "3d_generate"; str "auto_rig"].
Definition grid_descriptor (uptime_secs : N) : NodeDescriptor :=
  {| nd_node_id := str "grid"; nd_platform := str "grid-supercomputer"; nd_hostname := str "rusty-grid-master"; nd_status := str "online";
     nd_capabilities := of_object (<[str "supported_commands" := JArray (map JString grid_commands)]>
       (<[str "engine" := JString (str "OxideSwarm Supercomputing Grid")]> (<[str "layer" := JNumber 1]> ∅)));
     nd_connected_at := uptime_secs |}.

(** [walk] is the order in which the node map is iterated. *)
Definition get_catalog (walk : gmap Str NodeSession -> list (Str * NodeSession)) (uptime_secs : N) (h : HubState) : list NodeDescriptor :=
  map (fun p => descriptor p.2) (walk (hub_nodes h)) ++ (if hub_bridge h then [grid_descriptor uptime_secs] else []).
End hub.

(** ** Connections *)

(** The node ids registered on a socket, in order; none means anonymous. *)
Record Connection := { cn_id : N; cn_owned : list Str }.
Inductive Flow := Continue | CloseConn (graceful : bool).

Definition owns (c : Connection) (id : Str) : bool := existsb (fun o => bool_decide (o = id)) (cn_owned c).

Definition clip (s : Str) : Str := map (fun c => if is_control c then 65533 else c) (take 64 s).
Definition echo_id (id : Str) : Str :=
  if (str_len id <=? MAX_NODE_ID_LEN) && negb (existsb is_control id) then id else clip id.

Definition node_id_error_text (e : NodeIdError) : Str :=
  match e with
  | IdEmpty => str "node id must not be empty"
  | IdTooLong => str "node id is longer than 128 bytes"
  | IdControl => str "node id must not contain control characters"
  | IdReserved => str "node id is reserved by the hub"
  end.

Definition MESH_COMPARE_KEY : Bytes := str "oxs1-mesh-token-compare".
Definition secrets_equal `{Aead} (a b : Str) : bool := bool_decide (sign MESH_COMPARE_KEY (utf8_encode b) = sign MESH_COMPARE_KEY (utf8_encode a)).

Section connection.
Context `{Aead} `{MeshJson}.

Definition queue (c : Connection) (env : AgentMeshEnvelope) (h : HubState) : HubState :=
  match to_json_string env with Some json => (push_to (cn_id c) (MText json) h).2 | None => h end.
Definition nack (now : N) (c : Connection) (to corr_id code reason : Str) (h : HubState) : HubState :=
  queue c (new_delivery_nack now to corr_id code reason) h.
Definition routing_nack (now : N) (c : Connection) (to corr_id code reason : Str) (h : HubState) : HubState :=
  nack now c to corr_id code reason (set_stats count_nack h).

Definition token_ok (config : HubConfig) (presented : option Str) : bool :=
  match hc_auth_token config, presented with
  | None, _ => true
  | Some expected, Some given => secrets_equal given expected
  | Some expected, None => false
  end.

(** The critical section of a registration: [true] when the id is taken. *)
Definition held_by_live_peer (c : Connection) (id : Str) (h : HubState) : bool :=
  match hub_nodes h !! id with
  | Some s => negb (ns_conn_id s =? cn_id c) && negb (is_dead (box_of (ns_tx s) h))
  | None => false
  end.
Definition claim_node (now : N) (c : Connection) (id platform hostname : Str) (capabilities : JValue) (h : HubState) : bool * HubState :=
  if held_by_live_peer c id h then (true, h)
  else
    (false, set_nodes (<[id := {| ns_node_id := id; ns_platform := platform; ns_hostname := hostname; ns_capabilities := capabilities;
       ns_connected_at := now; ns_last_heartbeat := now; ns_tx := cn_id c; ns_conn_id := cn_id c |}]> (hub_nodes h)) h).

Definition own (id : Str) (c : Connection) : Connection :=
  if owns c id then c else {| cn_id := cn_id c; cn_owned := cn_owned c ++ [id] |}.

Definition handle_registration (now : N) (env : AgentMeshEnvelope) (platform hostname : Str) (capabilities : JValue) (token : option Str)
    (c : Connection) (h : HubState) : Flow * Connection * HubState :=
  let from := from_node env in
  let corr_id := correlation_id env in
  let first := is_empty (cn_owned c) in
  let reply_to := echo_id from in
  if first && negb (token_ok (hub_config h) token) then
    (CloseConn true, c,
     nack now c reply_to corr_id ERR_UNAUTHORIZED
       (match token with
        | None => str "Authentication required: the hub needs its token (--token or OXIDE_MESH_TOKEN)."
        | Some _ => str "Authentication failed."
        end) h)
  else
    let close_if_first := if first then CloseConn true else Continue in
    match validate_node_id from with
    | Err why =>
        (close_if_first, c, nack now c reply_to corr_id ERR_INVALID_NODE_ID (str "Invalid node id: " ++ node_id_error_text why ++ str ".") h)
    | Ok _ =>
        if negb (owns c from) && (MAX_NODE_IDS_PER_SOCKET <=? length (cn_owned c))%nat then
          (close_if_first, c, nack now c reply_to corr_id ERR_INVALID_NODE_ID (str "A connection may register at most 16 node ids.") h)
        else
          let '(taken, h) := claim_node now c from platform hostname capabilities h in
          if taken then
            (close_if_first, c,
             nack now c reply_to corr_id ERR_DUPLICATE_NODE_ID
               (str "Node id '" ++ reply_to ++ str "' is already registered by another live connection.") h)
          else
            let c := own from c in
            (Continue, c,
             queue c (hub_envelope now from corr_id
               (NodeRegistrationAck (str "accepted") from 10000 (str "oxideswarm-mesh") (Some (str "Node registered successfully")))) h)
    end.

Definition deliver (dest raw_text : Str) (h : HubState) : result PushError unit * HubState :=
  match outbox_of dest h with
  | None => (Err Closed, h)
  | Some tx =>
      match push_to tx (MText raw_text) h with
      | (Ok _, h) => (Ok tt, h)
      | (Err Full, h) => (Err Full, h)
      | (Err Closed, h) => (Err Closed, prune_if_dead dest h)
      end
  end.

Definition is_grid_targeted (to command : Str) : bool :=
  bool_decide (to = str "grid") || bool_decide (to = str "grid-master") || starts_with (str "grid_") command ||
  (bool_decide (to = str "hub") && (bool_decide (command = str "grid_status") || starts_with (str "grid_") command)).

Definition forwarded_ack (now : N) (c : Connection) (from corr_id : Str) (require_ack : bool) (h : HubState) : HubState :=
  if require_ack then queue c (new_delivery_ack now from corr_id (str "target_forwarded")) (set_stats count_ack h) else h.

Definition broadcast_to (raw_text : Str) (h : HubState) (txs : list N) : HubState := foldl (fun h tx => (push_to tx (MText raw_text) h).2) h txs.

(** [walk] is the order in which the node map is iterated. *)
Definition route (walk : gmap Str NodeSession -> list (Str * NodeSession)) (now uptime_secs : N) (env : AgentMeshEnvelope) (raw_text : Str)
    (c : Connection) (h : HubState) : HubState :=
  let from := from_node env in let to := to_node env in let corr_id := correlation_id env in
  match ev_body env with
  | NodeList _ => queue c (hub_envelope now from corr_id (NodeListResponse (get_catalog walk uptime_secs h))) h
  | Heartbeat _ _ _ =>
      let h := match hub_nodes h !! from with
        | Some s =>
            if ns_conn_id s =? cn_id c then
              set_nodes (<[from := {| ns_node_id := ns_node_id s; ns_platform := ns_platform s; ns_hostname := ns_hostname s;
                ns_capabilities := ns_capabilities s; ns_connected_at := ns_connected_at s; ns_last_heartbeat := now; ns_tx := ns_tx s;
                ns_conn_id := ns_conn_id s |}]> (hub_nodes h)) h
            else h
        | None => h
        end in
      queue c (hub_envelope now from corr_id HeartbeatAck) h
  | CommandRequest command args payload timeout_ms require_ack =>
      let h := set_stats count_command h in
      if is_grid_targeted to command then
        if hub_bridge h then
          let h := forwarded_ack now c from corr_id require_ack h in
          set_spawned (hub_spawned h ++ [(cn_id c, from,
            {| ev_version := str "1.0"; correlation_id := corr_id; from_node := from; to_node := to; ev_timestamp := now;
               ev_body := CommandRequest command args payload timeout_ms require_ack |})]) h
        else routing_nack now c from corr_id (str "ERR_BRIDGE_NOT_CONFIGURED") (str "AgentGridBridge is not attached to this hub") h
      else
        match deliver to raw_text h with
        | (Ok _, h) => forwarded_ack now c from corr_id require_ack h
        | (Err Full, h) =>
            routing_nack now c from corr_id ERR_NODE_UNAVAILABLE
              (str "Target node '" ++ clip to ++ str "' is not keeping up and was disconnected.") h
        | (Err Closed, h) =>
            routing_nack now c from corr_id (str "ERR_NODE_NOT_FOUND")
              (str "Target node '" ++ to ++ str "' is not registered with the hub.") h
        end
  | CommandResponse _ _ _ _ _ _ _ _ => (deliver to raw_text (set_stats count_response h)).2
  | DataPayload _ _ _ _ _ _ _ _ =>
      match deliver to raw_text (set_stats count_data h) with
      | (Ok _, h) => h
      | (Err Full, h) =>
          nack now c from corr_id ERR_NODE_UNAVAILABLE (str "Data target '" ++ clip to ++ str "' is not keeping up and was disconnected.") h
      | (Err Closed, h) => nack now c from corr_id (str "ERR_NODE_NOT_FOUND") (str "Data target '" ++ to ++ str "' not found.") h
      end
  | DeliveryAck _ | DeliveryNack _ _ => if bool_decide (to = str "hub") then h else (deliver to raw_text h).2
  | Broadcast _ _ _ =>
      broadcast_to raw_text h (map (fun p => ns_tx p.2) (List.filter (fun p => negb (bool_decide (p.1 = from))) (walk (hub_nodes h))))
  | _ => h
  end.

Definition hub_only (b : Body) : bool :=
  match b with NodeRegistrationAck _ _ _ _ _ | NodeListResponse _ | HeartbeatAck => true | _ => false end.

Definition handle_text (walk : gmap Str NodeSession -> list (Str * NodeSession)) (now uptime_secs : N) (raw_text : Str) (c : Connection)
    (h : HubState) : Flow * Connection * HubState :=
  let registered := negb (is_empty (cn_owned c)) in
  if negb registered && (PRE_REGISTRATION_MAX_BYTES <? str_len raw_text) then (CloseConn false, c, h)
  else
    match from_json_str raw_text with
    | None => (if registered then Continue else CloseConn false, c, h)
    | Some env =>
        match ev_body env with
        | NodeRegistration platform hostname capabilities token => handle_registration now env platform hostname capabilities token c h
        | body =>
            if negb registered then
              (CloseConn true, c,
               nack now c (echo_id (from_node env)) (correlation_id env) ERR_NOT_REGISTERED
                 (str "Register with a NodeRegistration envelope (and the hub token, if one is required) before sending anything else.") h)
            else if hub_only body then (Continue, c, h)
            else if negb (owns c (from_node env)) then
              (Continue, c,
               nack now c (default [] (head (cn_owned c))) (correlation_id env) ERR_SENDER_MISMATCH
                 (str "Envelope 'from' ('" ++ clip (from_node env) ++ str "') is not a node id registered on this connection.") h)
            else (Continue, c, route walk now uptime_secs env raw_text c h)
        end
    end.

(** What the bridge's answer to a spawned command does. *)
Definition bridge_reply (resp : AgentMeshEnvelope) (asked : N * Str * AgentMeshEnvelope) (h : HubState) : HubState :=
  match to_json_string resp with
  | None => h
  | Some json =>
      match push_to asked.1.1 (MText json) h with
      | (Ok _, h) => h
      | (Err _, h) => match outbox_of asked.1.2 h with Some tx => (push_to tx (MText json) h).2 | None => h end
      end
  end.
End connection.

(** ** Sockets *)

Section socket.
Context `{Aead} `{MeshJson}.

Definition open_socket (h : HubState) : Connection * HubState :=
  let id := hub_next_conn_id h in
  let box := {| ob_queue := []; ob_capacity := Nat.max (hc_max_queued_messages (hub_config h)) 1; ob_queued_bytes := 0;
                ob_max_bytes := hc_max_queued_bytes (hub_config h); ob_closed := false; ob_kicked := false |} in
  ({| cn_id := id; cn_owned := [] |},
   {| hub_nodes := hub_nodes h; hub_stats := hub_stats h; hub_bridge := hub_bridge h; hub_config := hub_config h; hub_next_conn_id := id + 1;
      hub_boxes := <[id := box]> (hub_boxes h); hub_spawned := hub_spawned h |}).

(** The branches of the socket's [select!]. *)
Inductive SocketEvent :=
| EvKicked
| EvRegistrationDeadline
| EvTick (silent_for : Duration)
| EvFrame (m : Message)
| EvEnd.

Definition socket_event (walk : gmap Str NodeSession -> list (Str * NodeSession)) (now uptime_secs : N) (ev : SocketEvent) (c : Connection)
    (h : HubState) : Flow * Connection * HubState :=
  match ev with
  | EvKicked => (if ob_kicked (box_of (cn_id c) h) then CloseConn false else Continue, c, h)
  | EvRegistrationDeadline => (if is_empty (cn_owned c) then CloseConn false else Continue, c, h)
  | EvTick silent_for =>
      if hc_idle_timeout (hub_config h) <? silent_for then (CloseConn false, c, h) else (Continue, c, (push_to (cn_id c) (MPing []) h).2)
  | EvFrame (MText raw_text) => handle_text walk now uptime_secs raw_text c h
  | EvFrame MClose => (CloseConn false, c, h)
  | EvFrame (MPing payload) => (Continue, c, (push_to (cn_id c) (MPong payload) h).2)
  | EvFrame _ => (Continue, c, h)
  | EvEnd => (CloseConn false, c, h)
  end.

(** After the loop: the ids are released; a graceful close still queues a close frame. *)
Definition close_socket (graceful : bool) (c : Connection) (h : HubState) : HubState :=
  let h := remove_connection (cn_id c) h in
  if graceful then (push_to (cn_id c) MClose h).2 else h.

(** One round of the write pump; it ends when sending fails or a close frame was sent,
    and then nobody receives from the queue any more. *)
Definition pump (sent : bool) (o : Outbox) : Outbox :=
  match ob_queue o with
  | [] => o
  | m :: rest =>
      {| ob_queue := rest; ob_capacity := ob_capacity o; ob_queued_bytes := ob_queued_bytes o - message_weight m; ob_max_bytes := ob_max_bytes o;
         ob_closed := ob_closed o || negb sent || match m with MClose => true | _ => false end; ob_kicked := ob_kicked o |}
  end.
Definition end_pump (o : Outbox) : Outbox :=
  {| ob_queue := ob_queue o; ob_capacity := ob_capacity o; ob_queued_bytes := ob_queued_bytes o; ob_max_bytes := ob_max_bytes o;
     ob_closed := true; ob_kicked := ob_kicked o |}.
End socket.

(** ** Who may connect *)

(** [split_once] at the scheme separator. *)
Fixpoint split_scheme (s : Str) : option (Str * Str) :=
  match strip_prefix (str "://") s with
  | Some rest => Some ([], rest)
  | None => match s with c :: s => '(a, b) ← split_scheme s; Some (c :: a, b) | [] => None end
  end.

(** [rest.split(['/', '?', '#']).next()]. *)
Fixpoint authority_part (s : Str) : Str :=
  match s with c :: s' => if (c =? 47) || (c =? 63) || (c =? 35) then [] else c :: authority_part s' | [] => [] end.

Definition rsplit_colon (s : Str) : option (Str * Str) := (fun '(after, before) => (reverse before, reverse after)) <$> split_once 58 (reverse s).
Definition is_ascii_digit (c : char) : bool := (48 <=? c) && (c <=? 57).

Definition origin_host (authority : Str) : option Str :=
  match strip_prefix (str "[") authority with
  | Some bracketed =>
      match split_once 93 bracketed with
      | Some (h, tail) => if is_empty tail || starts_with (str ":") tail then Some h else None
      | None => None
      end
  | None =>
      match rsplit_colon authority with
      | Some (h, port) => if negb (is_empty port) && forallb is_ascii_digit port then Some h else None
      | None => Some authority
      end
  end.

Definition loopback_name (host : Str) : bool :=
  eq_ignore_ascii_case host (str "localhost") || ends_with (str ".localhost") (to_ascii_lowercase host) ||
  match parse_ip host with
  | Some (V4 octets) => is_loopback (V4 octets)
  | Some (V6 groups) => is_loopback (V6 groups) || match to_canonical (V6 groups) with V4 o => is_loopback (V4 o) | V6 _ => false end
  | None => false
  end.

Definition origin_is_loopback (origin : Str) : bool :=
  match split_scheme (trim origin) with
  | None => false
  | Some (scheme, rest) =>
      if negb (existsb (fun s => bool_decide (to_ascii_lowercase scheme = s)) [str "http"; str "https"; str "ws"; str "wss"]) then false
      else
        let authority := authority_part rest in
        if is_empty authority || contains_char 64 authority then false
        else match origin_host authority with Some host => loopback_name host | None => false end
  end.

(** The upgrade handler's check: a missing [Origin] is a native client. *)
Definition upgrade_allowed (hs : HeaderMap) : bool :=
  match get_header (str "origin") hs with None => true | Some None => false | Some (Some origin) => origin_is_loopback origin end.

(** [start] refuses to serve an open hub beyond loopback. *)
Definition may_listen (config : HubConfig) (local_addr : IpAddr) : bool :=
  is_loopback local_addr || bool_decide (is_Some (hc_auth_token config)) || hc_allow_insecure_bind config.

Definition rest_authorized `{Aead} (config : HubConfig) (hs : HeaderMap) : bool :=
  match hc_auth_token config with
  | None => true
  | Some expected =>
      match mjoin (get_header (str "authorization") hs) ≫= strip_prefix (str "Bearer ") with
      | Some given => secrets_equal given expected
      | None => false
      end
  end.

Definition request_host (hs : HeaderMap) (authority : option Str) : option Str := or_else_opt (mjoin (get_header (str "host") hs)) authority.

Definition rest_host_allowed (config : HubConfig) (hs : HeaderMap) (authority : option Str) : bool :=
  bool_decide (is_Some (hc_auth_token config)) ||
  match request_host hs authority with Some host => origin_is_loopback (str "http://" ++ host) | None => false end.

Inductive RestVerdict := RestUnauthorized | RestForbidden | RestServed.
Definition rest_verdict `{Aead} (config : HubConfig) (hs : HeaderMap) (authority : option Str) : RestVerdict :=
  if negb (rest_authorized config hs) then RestUnauthorized
  else if negb (rest_host_allowed config hs authority) then RestForbidden
  else RestServed.
