(* ===== verification/MeshProps.v ===== *)
(** * MeshProps: what the relay hub guarantees

    - [outbox_bounded]: a peer that does not read cannot make the hub hold more than its
      budget, with any number of senders at once;
    - [mesh_ids_exclusive]: a node id belongs to one live connection and routes to it;
    - [no_impersonation]: what is put into any queue is the hub's own, or comes from the
      connection that registered the sender it names;
    - [registration_exact]: who gets registered. *)

From S2P Require Import Prelude Collections RustStr Float Capabilities Placement Blob Protocol ProtocolProps ClusterAuth ClusterAuthProps Auth Mesh.
Local Open Scope N_scope.

(** ** Queues under concurrent senders *)

Definition weights (l : list Message) : N := foldr (fun m acc => message_weight m + acc) 0 l.

Lemma weights_cons m l : weights (m :: l) = message_weight m + weights l.
Proof. done. Qed.

Lemma weights_nil : weights [] = 0.
Proof. done. Qed.

Lemma weights_app l1 l2 : weights (l1 ++ l2) = weights l1 + weights l2.
Proof. induction l1 as [|m l1 IH]; simpl; [done|]. rewrite IH. lia. Qed.

Lemma weights_perm l1 l2 : l1 ≡ₚ l2 -> weights l1 = weights l2.
Proof. induction 1; simpl; lia. Qed.

#[local] Opaque weights.
Ltac weigh := rewrite ?fmap_app, ?fmap_cons, ?weights_app, ?weights_cons, ?weights_nil in *; cbn [fst] in *; rewrite ?weights_cons, ?weights_app, ?weights_cons, ?weights_nil in *.

(** A queue with its senders between the atomic parts of [push]: those whose reservation
    stands ([sb_accepted]), those about to give it back ([sb_refused], with whether they
    kick), and the message the pump is sending. *)
Record SharedBox := {
  sb_box : Outbox;
  sb_accepted : list Message;
  sb_refused : list (Message * bool);
  sb_in_flight : option Message
}.

Definition flight (s : SharedBox) : list Message := match sb_in_flight s with Some m => [m] | None => [] end.
(** What the hub holds for the peer. *)
Definition held (s : SharedBox) : list Message := ob_queue (sb_box s) ++ flight s.

Inductive box_step (largest : N) : SharedBox -> SharedBox -> Prop :=
| bs_reserve m o acc ref fl : is_dead o = false -> message_weight m <= largest ->
    let r := push_reserve (message_weight m) o in
    box_step largest {| sb_box := o; sb_accepted := acc; sb_refused := ref; sb_in_flight := fl |}
      {| sb_box := r.2; sb_accepted := if r.1 then acc else m :: acc; sb_refused := if r.1 then (m, true) :: ref else ref; sb_in_flight := fl |}
| bs_release m kick o acc ref1 ref2 fl :
    box_step largest {| sb_box := o; sb_accepted := acc; sb_refused := ref1 ++ (m, kick) :: ref2; sb_in_flight := fl |}
      {| sb_box := push_release (message_weight m) kick o; sb_accepted := acc; sb_refused := ref1 ++ ref2; sb_in_flight := fl |}
| bs_send m o acc1 acc2 ref fl :
    box_step largest {| sb_box := o; sb_accepted := acc1 ++ m :: acc2; sb_refused := ref; sb_in_flight := fl |}
      match try_send m o with
      | (Ok _, o') => {| sb_box := o'; sb_accepted := acc1 ++ acc2; sb_refused := ref; sb_in_flight := fl |}
      | (Err Full, o') => {| sb_box := o'; sb_accepted := acc1 ++ acc2; sb_refused := (m, true) :: ref; sb_in_flight := fl |}
      | (Err Closed, o') => {| sb_box := o'; sb_accepted := acc1 ++ acc2; sb_refused := (m, false) :: ref; sb_in_flight := fl |}
      end
| bs_receive m rest o acc ref : ob_queue o = m :: rest -> ob_closed o = false ->
    box_step largest {| sb_box := o; sb_accepted := acc; sb_refused := ref; sb_in_flight := None |}
      {| sb_box := set_outbox rest (ob_queued_bytes o) (ob_kicked o) o; sb_accepted := acc; sb_refused := ref; sb_in_flight := Some m |}
| bs_sent m o acc ref :
    box_step largest {| sb_box := o; sb_accepted := acc; sb_refused := ref; sb_in_flight := Some m |}
      {| sb_box := push_release (message_weight m) false o; sb_accepted := acc; sb_refused := ref; sb_in_flight := None |}
| bs_end o acc ref fl :
    box_step largest {| sb_box := o; sb_accepted := acc; sb_refused := ref; sb_in_flight := fl |}
      {| sb_box := end_pump o; sb_accepted := acc; sb_refused := ref; sb_in_flight := fl |}.

Definition empty_box (capacity : nat) (max_bytes : N) : SharedBox := {|
  sb_box := {| ob_queue := []; ob_capacity := capacity; ob_queued_bytes := 0; ob_max_bytes := max_bytes; ob_closed := false; ob_kicked := false |};
  sb_accepted := []; sb_refused := []; sb_in_flight := None |}.

Record box_inv (capacity : nat) (max_bytes largest : N) (s : SharedBox) : Prop := {
  bi_limits : ob_capacity (sb_box s) = capacity /\ ob_max_bytes (sb_box s) = max_bytes;
  bi_count : (length (ob_queue (sb_box s)) <= capacity)%nat;
  bi_bytes : ob_queued_bytes (sb_box s) = weights (held s) + weights (sb_accepted s) + weights (sb_refused s).*1;
  bi_bound : weights (held s) + weights (sb_accepted s) <= N.max max_bytes largest
}.

Lemma box_step_inv capacity max_bytes largest s s' :
  max_bytes < usize_max -> box_inv capacity max_bytes largest s -> box_step largest s s' -> box_inv capacity max_bytes largest s'.
Proof.
  intros Hmax [[Hc Hm] Hn Hb Hl] Hst. unfold held, flight in *.
  destruct Hst as [m o acc ref fl Hd Hw r|m kick o acc ref1 ref2 fl|m o acc1 acc2 ref fl|m rest o acc ref Hq Hcl|m o acc ref|o acc ref fl];
    cbn [sb_box sb_accepted sb_refused sb_in_flight] in *.
  - subst r. unfold push_reserve. cbn [fst snd].
    destruct (negb (ob_queued_bytes o =? 0) && _) eqn:Hover; split; unfold held, flight; cbn [sb_box sb_accepted sb_refused sb_in_flight set_outbox
      ob_queue ob_capacity ob_max_bytes ob_queued_bytes]; try done; weigh; try lia.
    apply andb_false_iff in Hover as [Hz|Hle].
    + apply negb_false_iff, N.eqb_eq in Hz. lia.
    + unfold set_outbox, saturating_add in Hle. cbn [ob_max_bytes] in Hle. apply N.ltb_ge in Hle. lia.
  - split; unfold held, flight; cbn; try done; weigh; lia.
  - unfold try_send.
    destruct (ob_closed o); [|destruct (Nat.leb_spec (ob_capacity o) (length (ob_queue o)))]; split; unfold held, flight; cbn; try done;
      rewrite ?length_app; cbn; weigh; lia.
  - rewrite Hq in *. split; unfold held, flight; cbn in *; try done; weigh; lia.
  - split; unfold held, flight; cbn in *; try done; weigh; lia.
  - split; unfold held, flight; cbn; done.
Qed.

(** A slow peer costs the hub a bounded amount of memory.  Whatever number of senders
    push at once, with their reservations, sends and retreats interleaved with the write
    pump in any order: the queue holds at most its capacity of messages, the bytes the hub
    holds for the peer (queued and being sent) never exceed the byte budget, or the largest
    single message when that is more, and the byte counter is exact: it is what is held
    plus what senders have reserved and not yet sent or given back. *)
Theorem outbox_bounded capacity max_bytes largest s :
  max_bytes < usize_max -> rtc (box_step largest) (empty_box capacity max_bytes) s ->
  (length (ob_queue (sb_box s)) <= capacity)%nat /\ weights (held s) <= N.max max_bytes largest /\
  ob_queued_bytes (sb_box s) = weights (held s) + weights (sb_accepted s) + weights (sb_refused s).*1.
Proof.
  intros Hmax Hr. assert (Hi : box_inv capacity max_bytes largest s).
  { assert (H0 : box_inv capacity max_bytes largest (empty_box capacity max_bytes)) by (split; cbn; rewrite ?weights_nil; try done; lia).
    revert H0. induction Hr as [|s1 s2 s3 H12 _ IH]; [done|]. intros H1. apply IH. by eapply box_step_inv. }
  destruct Hi as [_ Hn Hb Hl]. split; [done|]. split; [lia|done].
Qed.

(** ** The hub's tables *)

Section mesh.
Context `{Aead} `{MeshJson}.

(** The locked sections of all handlers, in any order: the hub and the ids each running
    socket has registered. *)
Inductive mesh_prim : HubState * gmap N (list Str) -> HubState * gmap N (list Str) -> Prop :=
| mp_open h cs : mesh_prim (h, cs) ((open_socket h).2, <[cn_id (open_socket h).1 := []]> cs)
| mp_push tx m h cs : mesh_prim (h, cs) ((push_to tx m h).2, cs)
| mp_claim now c owned id platform hostname cap h h' cs :
    cs !! c = Some owned -> validate_node_id id = Ok tt ->
    owns {| cn_id := c; cn_owned := owned |} id = true \/ (length owned < MAX_NODE_IDS_PER_SOCKET)%nat ->
    claim_node now {| cn_id := c; cn_owned := owned |} id platform hostname cap h = (false, h') ->
    mesh_prim (h, cs) (h', <[c := cn_owned (own id {| cn_id := c; cn_owned := owned |})]> cs)
| mp_beat id s now h cs : hub_nodes h !! id = Some s ->
    mesh_prim (h, cs) (set_nodes (<[id := {| ns_node_id := ns_node_id s; ns_platform := ns_platform s; ns_hostname := ns_hostname s;
                ns_capabilities := ns_capabilities s; ns_connected_at := ns_connected_at s; ns_last_heartbeat := now; ns_tx := ns_tx s;
                ns_conn_id := ns_conn_id s |}]> (hub_nodes h)) h, cs)
| mp_prune id h cs : mesh_prim (h, cs) (prune_if_dead id h, cs)
| mp_stats f h cs : mesh_prim (h, cs) (set_stats f h, cs)
| mp_spawn l h cs : mesh_prim (h, cs) (set_spawned l h, cs)
| mp_pump c sent h cs : mesh_prim (h, cs) (set_boxes (<[c := pump sent (box_of c h)]> (hub_boxes h)) h, cs)
| mp_end_pump c h cs : mesh_prim (h, cs) (set_boxes (<[c := end_pump (box_of c h)]> (hub_boxes h)) h, cs)
| mp_close c h cs : mesh_prim (h, cs) (remove_connection c h, delete c cs).

Definition mesh_reachable (config : HubConfig) : HubState * gmap N (list Str) -> Prop := rtc mesh_prim (with_config config, ∅).

Record mesh_inv (h : HubState) (cs : gmap N (list Str)) : Prop := {
  mi_entry id s : hub_nodes h !! id = Some s ->
    ns_node_id s = id /\ ns_tx s = ns_conn_id s /\ exists owned, cs !! ns_conn_id s = Some owned /\ id ∈ owned;
  mi_owned c owned id : cs !! c = Some owned -> is_dead (box_of c h) = false -> id ∈ owned ->
    exists s, hub_nodes h !! id = Some s /\ ns_conn_id s = c;
  mi_conn c owned : cs !! c = Some owned ->
    NoDup owned /\ (length owned <= MAX_NODE_IDS_PER_SOCKET)%nat /\ Forall (fun id => validate_node_id id = Ok tt) owned /\ c < hub_next_conn_id h
}.

(** A queue that is dead stays dead. *)
Definition dies (o o' : Outbox) : Prop := is_dead o = true -> is_dead o' = true.

Lemma push_dies m o : dies o (push m o).2.
Proof.
  unfold dies, push. intros Hd. by rewrite Hd.
Qed.

Lemma box_of_insert c o h c' : box_of c' (set_boxes (<[c := o]> (hub_boxes h)) h) = if decide (c' = c) then o else box_of c' h.
Proof.
  unfold box_of. cbn [hub_boxes set_boxes]. case_decide as Hc; [subst; by rewrite lookup_insert_eq|by rewrite lookup_insert_ne].
Qed.

Lemma push_to_box tx m h c : box_of c (push_to tx m h).2 = if decide (c = tx) then (push m (box_of tx h)).2 else box_of c h.
Proof. unfold push_to. destruct (push m (box_of tx h)) as [r o]. cbn [snd]. apply box_of_insert. Qed.

Lemma push_to_same tx m h : hub_nodes (push_to tx m h).2 = hub_nodes h /\ hub_next_conn_id (push_to tx m h).2 = hub_next_conn_id h /\
  hub_config (push_to tx m h).2 = hub_config h.
Proof. unfold push_to. by destruct (push m (box_of tx h)). Qed.

(** Only the queues changed, and none came back to life. *)
Lemma mesh_inv_boxes h h' cs :
  mesh_inv h cs -> hub_nodes h' = hub_nodes h -> hub_next_conn_id h' = hub_next_conn_id h -> (forall c, dies (box_of c h) (box_of c h')) -> mesh_inv h' cs.
Proof.
  intros [E O C] Hn Hx Hd. split; rewrite ?Hn, ?Hx; [done| |done].
  intros c owned id Hc Hl Hin. apply (O c owned id Hc); [|done]. destruct (is_dead (box_of c h)) eqn:Hb; [|done].
  by rewrite (Hd c Hb) in Hl.
Qed.

Lemma box_of_nodes nodes h c : box_of c (set_nodes nodes h) = box_of c h.
Proof. done. Qed.

Lemma owns_elem c id : owns c id = true <-> id ∈ cn_owned c.
Proof.
  unfold owns. rewrite existsb_exists. split.
  - intros (x & Hin & Hx%bool_decide_eq_true). subst. by apply list_elem_of_In.
  - intros Hin%list_elem_of_In. exists id. split; [done|]. by apply bool_decide_eq_true.
Qed.

Lemma own_spec c id : forall x, x ∈ cn_owned (own id c) <-> x = id \/ x ∈ cn_owned c.
Proof.
  intros x. unfold own. destruct (owns c id) eqn:Ho; cbn [cn_owned].
  - apply owns_elem in Ho. split; [by right|]. by intros [->|?].
  - rewrite elem_of_app, list_elem_of_singleton. tauto.
Qed.

Lemma claim_inv now c owned id platform hostname cap h h' cs :
  mesh_inv h cs -> cs !! c = Some owned -> validate_node_id id = Ok tt ->
  owns {| cn_id := c; cn_owned := owned |} id = true \/ (length owned < MAX_NODE_IDS_PER_SOCKET)%nat ->
  claim_node now {| cn_id := c; cn_owned := owned |} id platform hostname cap h = (false, h') ->
  mesh_inv h' (<[c := cn_owned (own id {| cn_id := c; cn_owned := owned |})]> cs).
Proof.
  intros [E O C] Hc Hv Hroom Hcl. unfold claim_node in Hcl. destruct (held_by_live_peer _ _ _) eqn:Hheld; [done|]. injection Hcl as <-.
  set (conn := {| cn_id := c; cn_owned := owned |}) in *. pose proof (own_spec conn id) as Hown. split; cbn [hub_nodes set_nodes hub_next_conn_id].
  - intros id' s. destruct (decide (id' = id)) as [->|Hne].
    + rewrite lookup_insert_eq. intros [= <-]. cbn. split; [done|]. split; [done|]. eexists. rewrite lookup_insert_eq. split; [done|].
      apply Hown. by left.
    + rewrite lookup_insert_ne by done. intros (Hid & Htx & o & Ho & Hin)%E. split; [done|]. split; [done|].
      destruct (decide (ns_conn_id s = c)) as [Hcc|Hcc]; [|exists o; by rewrite lookup_insert_ne].
      rewrite Hcc, lookup_insert_eq. eexists. split; [done|]. apply Hown. right. cbn. by rewrite Hcc, Hc in Ho; simplify_eq.
  - intros c' owned' id' Hc' Hl Hin. rewrite box_of_nodes in Hl. destruct (decide (c' = c)) as [->|Hcc].
    + rewrite lookup_insert_eq in Hc'. injection Hc' as <-. apply Hown in Hin as [->|Hin]; [rewrite lookup_insert_eq; by eexists|].
      destruct (decide (id' = id)) as [->|Hne]; [rewrite lookup_insert_eq; by eexists|]. rewrite lookup_insert_ne by done. by eapply O.
    + rewrite lookup_insert_ne in Hc' by done. destruct (O c' owned' id' Hc' Hl Hin) as (s & Hs & Hsc).
      destruct (decide (id' = id)) as [->|Hne]; [|rewrite lookup_insert_ne by done; by exists s]. exfalso.
      unfold held_by_live_peer in Hheld. rewrite Hs in Hheld. destruct (E id s Hs) as (_ & Htx & _). rewrite Htx, Hsc, Hl in Hheld.
      cbn in Hheld. apply andb_false_iff in Hheld as [Hx|Hx]; [|done]. apply negb_false_iff, N.eqb_eq in Hx. done.
  - intros c' owned'. destruct (decide (c' = c)) as [->|Hcc]; [|rewrite lookup_insert_ne by done; apply C].
    rewrite lookup_insert_eq. intros [= <-]. destruct (C c owned Hc) as (Hnd & Hlen & Hval & Hlt). unfold own. destruct (owns conn id) eqn:Ho; [done|].
    cbn [cn_owned conn]. split_and!; [| | |done].
    + apply NoDup_app. split; [done|]. split; [|apply NoDup_singleton]. intros x Hx Hx'%list_elem_of_singleton. subst.
      assert (owns conn id = true) by (by apply owns_elem). congruence.
    + rewrite length_app. cbn. destruct Hroom; [congruence|lia].
    + apply Forall_app. split; [done|]. by constructor.
Qed.

Lemma prune_inv id h cs : mesh_inv h cs -> mesh_inv (prune_if_dead id h) cs.
Proof.
  intros [E O C]. unfold prune_if_dead. destruct (hub_nodes h !! id) as [s|] eqn:Hs; [|by split].
  destruct (is_dead (box_of (ns_tx s) h)) eqn:Hd; [|by split]. split; cbn [hub_nodes set_nodes hub_next_conn_id]; [| |done].
  - intros id' s' [_ Hs']%lookup_delete_Some. by apply E.
  - intros c owned id' Hc Hl Hin. rewrite box_of_nodes in Hl. destruct (O c owned id' Hc Hl Hin) as (s' & Hs' & Hsc). exists s'.
    split; [|done]. rewrite lookup_delete_ne; [done|]. intros <-. destruct (E id s Hs) as (_ & Htx & _). simplify_eq. congruence.
Qed.

Lemma close_inv c h cs : mesh_inv h cs -> mesh_inv (remove_connection c h) (delete c cs).
Proof.
  intros [E O C]. split; cbn [hub_nodes set_nodes remove_connection hub_next_conn_id].
  - intros id s [Hs Hne]%map_lookup_filter_Some. cbn in Hne. destruct (E id s Hs) as (? & ? & o & Ho & ?). split; [done|]. split; [done|].
    exists o. by rewrite lookup_delete_ne.
  - intros c' owned id [Hne Hc]%lookup_delete_Some Hl Hin. destruct (O c' owned id Hc Hl Hin) as (s & Hs & Hsc). exists s. split; [|done].
    apply map_lookup_filter_Some. split; [done|]. cbn. congruence.
  - intros c' owned [_ Hc]%lookup_delete_Some. by apply C.
Qed.

Lemma open_inv_mesh h cs : mesh_inv h cs -> mesh_inv (open_socket h).2 (<[cn_id (open_socket h).1 := []]> cs).
Proof.
  intros [E O C]. cbn [open_socket fst snd cn_id]. set (id0 := hub_next_conn_id h).
  assert (Hnew : cs !! id0 = None). { destruct (cs !! id0) as [o|] eqn:Ho; [|done]. destruct (C id0 o Ho) as (_ & _ & _ & Hlt). unfold id0 in Hlt. lia. }
  split; cbn [hub_nodes hub_next_conn_id].
  - intros id s (? & ? & o & Ho & ?)%E. split; [done|]. split; [done|]. exists o. rewrite lookup_insert_ne; [done|]. intros Heq. by rewrite <-Heq, Hnew in Ho.
  - intros c owned id Hc Hl Hin. destruct (decide (c = id0)) as [->|Hne].
    + rewrite lookup_insert_eq in Hc. injection Hc as <-. by apply not_elem_of_nil in Hin.
    + rewrite lookup_insert_ne in Hc by done. apply (O c owned id Hc); [|done]. revert Hl. unfold box_of. cbn [hub_boxes]. by rewrite lookup_insert_ne.
  - intros c owned. destruct (decide (c = id0)) as [->|Hne].
    + rewrite lookup_insert_eq. intros [= <-]. split_and!; [constructor|cbn; unfold MAX_NODE_IDS_PER_SOCKET; lia|constructor|unfold id0; lia].
    + rewrite lookup_insert_ne by done. intros (? & ? & ? & ?)%C. split_and!; try done. lia.
Qed.

Lemma mesh_prim_inv s s' : mesh_inv s.1 s.2 -> mesh_prim s s' -> mesh_inv s'.1 s'.2.
Proof.
  intros Hi Hp. destruct Hp as [h cs|tx m h cs|now c owned id platform hostname cap h h' cs Hc Hv Hroom Hcl|id s0 now h cs Hs|id h cs|f h cs|l h cs|c sent h cs|c h cs|c h cs];
    cbn [fst snd] in *.
  - by apply open_inv_mesh.
  - destruct (push_to_same tx m h) as (Hn & Hx & _). apply (mesh_inv_boxes h); try done. intros c. rewrite push_to_box.
    case_decide; [subst; apply push_dies|by intros ?].
  - by eapply claim_inv.
  - destruct Hi as [E O C]. split; cbn [hub_nodes set_nodes hub_next_conn_id]; [| |done].
    + intros id' s. destruct (decide (id' = id)) as [->|Hne]; [|rewrite lookup_insert_ne by done; apply E].
      rewrite lookup_insert_eq. intros [= <-]. cbn. exact (E id s0 Hs).
    + intros c owned id' Hc Hl Hin. destruct (O c owned id' Hc Hl Hin) as (s & Hs' & Hsc).
      destruct (decide (id' = id)) as [->|Hne]; [|exists s; by rewrite lookup_insert_ne]. rewrite lookup_insert_eq. eexists. split; [done|]. cbn. by simplify_eq.
  - by apply prune_inv.
  - apply (mesh_inv_boxes h); try done. by intros c ?.
  - apply (mesh_inv_boxes h); try done. by intros c ?.
  - apply (mesh_inv_boxes h); try done. intros c'. rewrite box_of_insert. case_decide; [subst|by intros ?]. unfold dies, is_dead, pump.
    destruct (ob_queue (box_of c h)); [done|]. cbn. intros [->| ->]%orb_true_iff; by rewrite ?orb_true_r.
  - apply (mesh_inv_boxes h); try done. intros c'. rewrite box_of_insert. case_decide; [subst|by intros ?]. by unfold dies, is_dead, end_pump.
  - by apply close_inv.
Qed.

Lemma mesh_reachable_inv config h cs : mesh_reachable config (h, cs) -> mesh_inv h cs.
Proof.
  unfold mesh_reachable. intros Hr. change (mesh_inv (h, cs).1 (h, cs).2). assert (Hinit : mesh_inv (with_config config, ∅ : gmap N (list Str)).1 (with_config config, ∅ : gmap N (list Str)).2).
  { cbn [fst snd]. by split. }
  revert Hinit. induction Hr as [|s1 s2 s3 H12 _ IH]; [done|]. intros Hi. apply IH. by eapply mesh_prim_inv.
Qed.

Lemma valid_not_reserved id r : validate_node_id id = Ok tt -> r ∈ RESERVED_NODE_IDS -> eq_ignore_ascii_case r id = false.
Proof.
  unfold validate_node_id. intros Hv Hr. destruct (is_empty id); [done|]. destruct (_ <? _); [done|]. destruct (existsb is_control id); [done|].
  destruct (existsb _ RESERVED_NODE_IDS) eqn:Hex; [done|]. destruct (eq_ignore_ascii_case r id) eqn:Heq; [|done].
  assert (Hx : existsb (fun r => eq_ignore_ascii_case r id) RESERVED_NODE_IDS = true)
    by (apply existsb_exists; exists r; split; [by apply list_elem_of_In|done]). congruence.
Qed.

(** Node ids on the relay hub are exclusive.  With the locked sections of any number of
    sockets interleaved in any order: an entry of the routing table belongs to a running
    socket that registered that id; as long as a socket's queue is alive (it reads what it
    is sent), each of its ids routes to it, and no other live socket holds one of them; and
    no socket ever holds an id that is reserved for the hub, or more than sixteen. *)
Theorem mesh_ids_exclusive config h cs :
  mesh_reachable config (h, cs) ->
  (forall id s, hub_nodes h !! id = Some s -> exists owned, cs !! ns_conn_id s = Some owned /\ id ∈ owned) /\
  (forall c owned id, cs !! c = Some owned -> id ∈ owned -> is_dead (box_of c h) = false -> outbox_of id h = Some c) /\
  (forall c1 c2 o1 o2 id, cs !! c1 = Some o1 -> cs !! c2 = Some o2 -> id ∈ o1 -> id ∈ o2 ->
     is_dead (box_of c1 h) = false -> is_dead (box_of c2 h) = false -> c1 = c2) /\
  (forall c owned, cs !! c = Some owned -> (length owned <= MAX_NODE_IDS_PER_SOCKET)%nat /\
     forall id r, id ∈ owned -> r ∈ RESERVED_NODE_IDS -> eq_ignore_ascii_case r id = false).
Proof.
  intros Hr. destruct (mesh_reachable_inv _ _ _ Hr) as [E O C].
  assert (Hroute : forall c owned id, cs !! c = Some owned -> id ∈ owned -> is_dead (box_of c h) = false -> outbox_of id h = Some c).
  { intros c owned id Hc Hin Hl. destruct (O c owned id Hc Hl Hin) as (s & Hs & Hsc). unfold outbox_of. rewrite Hs. cbn.
    destruct (E id s Hs) as (_ & Htx & _). congruence. }
  split; [intros id s (_ & _ & ?)%E; done|]. split; [done|]. split.
  - intros c1 c2 o1 o2 id Hc1 Hc2 I1 I2 L1 L2. pose proof (Hroute c1 o1 id Hc1 I1 L1) as R1. pose proof (Hroute c2 o2 id Hc2 I2 L2) as R2. congruence.
  - intros c owned (_ & Hlen & Hval & _)%C. split; [done|]. intros id r Hin Hr'.
    apply valid_not_reserved; [|done]. by apply (proj1 (Forall_forall _ _) Hval).
Qed.

(** ** What is put into queues *)

(** Every queue only grows, by messages allowed for it. *)
Definition pushes (P : N -> Message -> Prop) (h h' : HubState) : Prop :=
  forall tx, exists new, ob_queue (box_of tx h') = ob_queue (box_of tx h) ++ new /\ Forall (P tx) new.

Lemma pushes_refl P h : pushes P h h.
Proof. intros tx. exists []. by rewrite app_nil_r. Qed.

Lemma pushes_same P h h' : hub_boxes h' = hub_boxes h -> pushes P h h'.
Proof. intros Hb tx. exists []. unfold box_of. by rewrite Hb, app_nil_r. Qed.

Lemma pushes_trans P h1 h2 h3 : pushes P h1 h2 -> pushes P h2 h3 -> pushes P h1 h3.
Proof.
  intros Ha1 Ha2 tx. destruct (Ha1 tx) as (n1 & E1 & F1). destruct (Ha2 tx) as (n2 & E2 & F2). exists (n1 ++ n2).
  rewrite E2, E1, app_assoc. split; [done|]. by apply Forall_app.
Qed.

Lemma push_queue m o : exists new, ob_queue (push m o).2 = ob_queue o ++ new /\ (new = [] \/ new = [m]).
Proof.
  unfold push. destruct (is_dead o); [exists []; rewrite app_nil_r; auto|]. cbn [push_reserve]. destruct (_ && _); cbn; [exists []; rewrite app_nil_r; auto|].
  unfold try_send. cbn. destruct (ob_closed o); cbn; [exists []; rewrite app_nil_r; auto|].
  destruct (_ <=? _)%nat; cbn; [exists []; rewrite app_nil_r; auto|]. exists [m]. auto.
Qed.

Lemma push_to_pushes (P : N -> Message -> Prop) tx m h : P tx m -> pushes P h (push_to tx m h).2.
Proof.
  intros Hp c. rewrite push_to_box. case_decide as Hc; [subst|exists []; by rewrite app_nil_r].
  destruct (push_queue m (box_of tx h)) as (new & -> & [->| ->]); eexists; (split; [done|]); by repeat constructor.
Qed.

(** The hub's own messages, to the socket it answers; and a routed text. *)
Definition from_hub (c : N) (tx : N) (m : Message) : Prop :=
  tx = c /\ exists env json, m = MText json /\ to_json_string env = Some json /\ from_node env = str "hub".
Definition allowed (c : N) (routed : option Str) (tx : N) (m : Message) : Prop :=
  from_hub c tx m \/ exists raw, routed = Some raw /\ m = MText raw.

Lemma queue_pushes routed c env h : from_node env = str "hub" -> pushes (allowed (cn_id c) routed) h (queue c env h).
Proof.
  intros He. unfold queue. destruct (to_json_string env) as [json|] eqn:Hj; [|apply pushes_refl]. apply push_to_pushes. left. split; [done|]. eauto.
Qed.

Lemma nack_pushes routed now c to corr code reason h : pushes (allowed (cn_id c) routed) h (nack now c to corr code reason h).
Proof. by apply queue_pushes. Qed.

Lemma deliver_pushes c dest raw h : pushes (allowed c (Some raw)) h (deliver dest raw h).2.
Proof.
  unfold deliver. destruct (outbox_of dest h) as [tx|]; [|apply pushes_refl].
  pose proof (push_to_pushes (allowed c (Some raw)) tx (MText raw) h) as Hp. assert (Ha : allowed c (Some raw) tx (MText raw)) by (right; eauto).
  specialize (Hp Ha). destruct (push_to tx (MText raw) h) as [[u|[]] h']; cbn [snd] in *; try done.
  eapply pushes_trans; [exact Hp|]. apply pushes_same. unfold prune_if_dead. destruct (hub_nodes h' !! dest) as [s|]; [|done]. by destruct (is_dead _).
Qed.

Lemma routing_nack_pushes routed now c to corr code reason h : pushes (allowed (cn_id c) routed) h (routing_nack now c to corr code reason h).
Proof. unfold routing_nack. eapply pushes_trans; [|apply nack_pushes]. by apply pushes_same. Qed.

Lemma forwarded_pushes routed now c from corr ack h : pushes (allowed (cn_id c) routed) h (forwarded_ack now c from corr ack h).
Proof. unfold forwarded_ack. destruct ack; [|apply pushes_refl]. eapply pushes_trans; [|by apply queue_pushes]. by apply pushes_same. Qed.

Lemma broadcast_pushes c raw h txs : pushes (allowed c (Some raw)) h (broadcast_to raw h txs).
Proof.
  unfold broadcast_to. revert h. induction txs as [|tx txs IH]; intros h; [apply pushes_refl|]. cbn [foldl].
  eapply pushes_trans; [|apply IH]. apply push_to_pushes. right. eauto.
Qed.

Lemma route_pushes walk now up env raw c h : pushes (allowed (cn_id c) (Some raw)) h (route walk now up env raw c h).
Proof.
  unfold route. destruct (ev_body env) as [| |f|nodes|cpu mem act| |command args payload timeout ack|co st ex out err dur pay er|pt sn tc cs da su pay me|st|code reason|t e d];
    try apply pushes_refl.
  - by apply queue_pushes.
  - eapply pushes_trans; [|by apply queue_pushes]. destruct (hub_nodes h !! from_node env) as [s|]; [|apply pushes_refl].
    destruct (_ =? _); [by apply pushes_same|apply pushes_refl].
  - eapply pushes_trans; [by apply (pushes_same _ h (set_stats count_command h))|]. set (h1 := set_stats count_command h).
    destruct (is_grid_targeted _ _).
    + destruct (hub_bridge h1); [|apply routing_nack_pushes]. eapply pushes_trans; [apply forwarded_pushes|]. by apply pushes_same.
    + pose proof (deliver_pushes (cn_id c) (to_node env) raw h1) as Hd. destruct (deliver _ _ h1) as [[u|[]] h2]; cbn [snd] in Hd;
        (eapply pushes_trans; [exact Hd|]); [apply forwarded_pushes|apply routing_nack_pushes|apply routing_nack_pushes].
  - eapply pushes_trans; [by apply (pushes_same _ h (set_stats count_response h))|apply deliver_pushes].
  - eapply pushes_trans; [by apply (pushes_same _ h (set_stats count_data h))|]. set (h1 := set_stats count_data h).
    pose proof (deliver_pushes (cn_id c) (to_node env) raw h1) as Hd. destruct (deliver _ _ h1) as [[u|[]] h2]; cbn [snd] in Hd;
      [done|eapply pushes_trans; [exact Hd|apply nack_pushes]..].
  - case_bool_decide; [apply pushes_refl|apply deliver_pushes].
  - case_bool_decide; [apply pushes_refl|apply deliver_pushes].
  - apply broadcast_pushes.
Qed.

Lemma registration_pushes now env platform hostname cap token c h :
  pushes (allowed (cn_id c) None) h (handle_registration now env platform hostname cap token c h).2.
Proof.
  unfold handle_registration. destruct (_ && _); [apply nack_pushes|]. destruct (validate_node_id _) as [u|e]; [|apply nack_pushes].
  destruct (_ && _); [apply nack_pushes|]. unfold claim_node. destruct (held_by_live_peer _ _ _); [apply nack_pushes|]. cbn [snd].
  eapply pushes_trans; [|match goal with |- pushes _ _ (queue ?cc _ _) => replace (cn_id c) with (cn_id cc) end; [by apply queue_pushes|]].
  - by apply pushes_same.
  - unfold own. by destruct (owns c (from_node env)).
Qed.

Lemma pushes_impl (P Q : N -> Message -> Prop) h h' : (forall tx m, P tx m -> Q tx m) -> pushes P h h' -> pushes Q h h'.
Proof. intros HPQ Hp tx. destruct (Hp tx) as (new & E & F). exists new. split; [done|]. eapply Forall_impl; [exact F|]. auto. Qed.

(** What handling a text queues: the hub's answers, or the text itself when it comes from
    a sender the socket registered. *)
Definition sound_push (c : Connection) (raw : Str) (tx : N) (m : Message) : Prop :=
  from_hub (cn_id c) tx m \/ (m = MText raw /\ exists env, from_json_str raw = Some env /\ from_node env ∈ cn_owned c).

Lemma handle_text_pushes walk now up raw c h : pushes (sound_push c raw) h (handle_text walk now up raw c h).2.
Proof.
  assert (Hhub : forall h h', pushes (allowed (cn_id c) None) h h' -> pushes (sound_push c raw) h h').
  { intros h1 h2. apply pushes_impl. intros tx m [Hf|(r & Hr & _)]; [by left|done]. }
  unfold handle_text. destruct (_ && (PRE_REGISTRATION_MAX_BYTES <? str_len raw)); [apply pushes_refl|].
  destruct (from_json_str raw) as [env|] eqn:Henv; [|apply pushes_refl].
  assert (Hrest : forall body, ev_body env = body ->
    pushes (sound_push c raw) h (if negb (negb (is_empty (cn_owned c))) then
      (CloseConn true, c, nack now c (echo_id (from_node env)) (correlation_id env) ERR_NOT_REGISTERED
        (str "Register with a NodeRegistration envelope (and the hub token, if one is required) before sending anything else.") h)
      else if hub_only body then (Continue, c, h)
      else if negb (owns c (from_node env)) then
        (Continue, c, nack now c (default [] (head (cn_owned c))) (correlation_id env) ERR_SENDER_MISMATCH
          (str "Envelope 'from' ('" ++ clip (from_node env) ++ str "') is not a node id registered on this connection.") h)
      else (Continue, c, route walk now up env raw c h)).2).
  { intros body _. destruct (negb (negb _)); [apply Hhub, nack_pushes|]. destruct (hub_only body); [apply pushes_refl|].
    destruct (owns c (from_node env)) eqn:Ho; cbn [negb]; [|apply Hhub, nack_pushes]. apply owns_elem in Ho. cbn [snd].
    eapply pushes_impl; [|apply route_pushes]. intros tx m [Hf|(r & [= <-] & ->)]; [by left|right]. eauto. }
  destruct (ev_body env) eqn:Hb; try (apply (Hrest _ eq_refl)). apply Hhub, registration_pushes.
Qed.

(** C37 Nobody speaks for another node.  Whatever a socket sends, what it makes the hub put
    into any queue is either an envelope of the hub itself, for that very socket, or the
    text it sent, and then the text is an envelope whose sender is a node id this socket
    registered: never an id reserved for the hub, and, while the socket is alive, an id that
    routes to this socket and to no other. *)
Theorem no_impersonation config h cs c owned walk now uptime raw :
  mesh_reachable config (h, cs) -> cs !! c = Some owned ->
  let h' := (handle_text walk now uptime raw {| cn_id := c; cn_owned := owned |} h).2 in
  forall tx, exists new, ob_queue (box_of tx h') = ob_queue (box_of tx h) ++ new /\
    forall m, m ∈ new ->
      (tx = c /\ exists env json, m = MText json /\ to_json_string env = Some json /\ from_node env = str "hub") \/
      (m = MText raw /\ exists env, from_json_str raw = Some env /\ from_node env ∈ owned /\
         (forall r, r ∈ RESERVED_NODE_IDS -> eq_ignore_ascii_case r (from_node env) = false) /\
         (is_dead (box_of c h) = false -> outbox_of (from_node env) h = Some c)).
Proof.
  intros Hr Hc. cbv zeta. intros tx. destruct (handle_text_pushes walk now uptime raw {| cn_id := c; cn_owned := owned |} h tx) as (new & E & F).
  exists new. split; [done|]. intros m Hm. apply (proj1 (Forall_forall _ _) F) in Hm as [Hf|(-> & env & Henv & Hin)]; [by left|right].
  split; [done|]. exists env. split; [done|]. cbn [cn_owned] in Hin. split; [done|]. destruct (mesh_reachable_inv _ _ _ Hr) as [En O C].
  destruct (C c owned Hc) as (_ & _ & Hval & _). split.
  - intros r Hres. by apply valid_not_reserved; [apply (proj1 (Forall_forall _ _) Hval)|].
  - intros Hl. destruct (O c owned _ Hc Hl Hin) as (s & Hs & Hsc). unfold outbox_of. rewrite Hs. cbn. destruct (En _ s Hs) as (_ & Htx & _). congruence.
Qed.

(** Who is registered.  A registration is accepted exactly when the socket is already
    registered or presents the hub's token (if one is set), the id is valid, the socket has
    room for it, and no other live connection holds it.  An accepted id is the socket's and
    routes to it; a refused one changes neither the routing table nor the socket's ids, and
    ends a socket that has none. *)
Theorem registration_exact now env platform hostname cap token c h :
  let '(flow, c', h') := handle_registration now env platform hostname cap token c h in
  let id := from_node env in
  if (negb (is_empty (cn_owned c)) || token_ok (hub_config h) token) && (match validate_node_id id with Ok _ => true | Err _ => false end) &&
     (owns c id || (length (cn_owned c) <? MAX_NODE_IDS_PER_SOCKET)%nat) && negb (held_by_live_peer c id h)
  then flow = Continue /\ c' = own id c /\ id ∈ cn_owned c' /\ outbox_of id h' = Some (cn_id c)
  else c' = c /\ hub_nodes h' = hub_nodes h /\ flow = (if is_empty (cn_owned c) then CloseConn true else Continue).
Proof.
  assert (Hnack : forall to corr code reason h, hub_nodes (nack now c to corr code reason h) = hub_nodes h).
  { intros to corr code reason h0. unfold nack, queue. destruct (to_json_string _); [|done]. by destruct (push_to_same (cn_id c) (MText l) h0). }
  unfold handle_registration. destruct (is_empty (cn_owned c)) eqn:Hfirst, (token_ok (hub_config h) token) eqn:Htok; cbn [negb andb orb].
  2: by rewrite Hnack.
  all: destruct (validate_node_id (from_node env)) as [[]|why] eqn:Hval;
    cbn [andb]; [|by rewrite Hnack].
  all: destruct (owns c (from_node env)) eqn:Ho; cbn [negb andb orb];
    [|destruct (Nat.leb_spec MAX_NODE_IDS_PER_SOCKET (length (cn_owned c))), (Nat.ltb_spec (length (cn_owned c)) MAX_NODE_IDS_PER_SOCKET); try lia;
      cbn [negb andb orb]; try (by rewrite Hnack)].
  all: unfold claim_node; destruct (held_by_live_peer c (from_node env) h); cbn [negb]; [by rewrite Hnack|].
  all: split_and!; try done; [apply own_spec; by left|].
  all: unfold outbox_of, queue; destruct (to_json_string _) as [json|]; cbn [hub_nodes set_nodes]; [|by rewrite lookup_insert_eq].
  all: match goal with |- context [push_to ?a ?b ?d] => destruct (push_to_same a b d) as (-> & _) end; cbn [hub_nodes set_nodes]; by rewrite lookup_insert_eq.
Qed.

(** ** Handlers as sequences of locked sections *)

(** Sections that change no socket's ids. *)
Definition sections (h h' : HubState) : Prop := forall cs, rtc mesh_prim (h, cs) (h', cs).

#[local] Instance sections_preorder : PreOrder sections.
Proof. split; [by intros h cs|]. intros h1 h2 h3 Ha1 Ha2 cs. etrans; [apply Ha1|apply Ha2]. Qed.

Lemma push_sections tx m h : sections h (push_to tx m h).2.
Proof. intros cs. apply rtc_once, mp_push. Qed.
Lemma stats_sections f h : sections h (set_stats f h).
Proof. intros cs. apply rtc_once, mp_stats. Qed.
Lemma queue_sections c env h : sections h (queue c env h).
Proof. unfold queue. destruct (to_json_string env); [apply push_sections|done]. Qed.
Lemma nack_sections now c to corr code reason h : sections h (nack now c to corr code reason h).
Proof. apply queue_sections. Qed.
Lemma routing_nack_sections now c to corr code reason h : sections h (routing_nack now c to corr code reason h).
Proof. unfold routing_nack. etrans; [apply stats_sections|apply nack_sections]. Qed.
Lemma forwarded_sections now c from corr ack h : sections h (forwarded_ack now c from corr ack h).
Proof. unfold forwarded_ack. destruct ack; [|done]. etrans; [apply stats_sections|apply queue_sections]. Qed.

Lemma deliver_sections dest raw h : sections h (deliver dest raw h).2.
Proof.
  unfold deliver. destruct (outbox_of dest h) as [tx|]; [|done]. pose proof (push_sections tx (MText raw) h) as Hp.
  destruct (push_to tx (MText raw) h) as [[u|[]] h']; cbn [snd] in *; try done. etrans; [exact Hp|]. intros cs. apply rtc_once, mp_prune.
Qed.

Lemma broadcast_sections raw h txs : sections h (broadcast_to raw h txs).
Proof. unfold broadcast_to. revert h. induction txs as [|tx txs IH]; intros h; [done|]. cbn [foldl]. etrans; [apply push_sections|apply IH]. Qed.

Lemma route_sections walk now up env raw c h : sections h (route walk now up env raw c h).
Proof.
  unfold route. destruct (ev_body env) as [| |f|nodes|cpu mem act| |command args payload timeout ack|co st ex out err dur pay er|pt sn tc ch da su pay me|st|code reason|t e d];
    try done.
  - apply queue_sections.
  - etrans; [|apply queue_sections]. destruct (hub_nodes h !! from_node env) as [s|] eqn:Hs; [|done].
    destruct (_ =? _); [|done]. intros cs. apply rtc_once. by apply mp_beat.
  - etrans; [apply (stats_sections count_command)|]. set (h1 := set_stats count_command h). destruct (is_grid_targeted _ _).
    + destruct (hub_bridge h1); [|apply routing_nack_sections]. etrans; [apply forwarded_sections|]. intros cs. apply rtc_once, mp_spawn.
    + pose proof (deliver_sections (to_node env) raw h1) as Hd. destruct (deliver _ _ h1) as [[u|[]] h2]; cbn [snd] in Hd;
        (etrans; [exact Hd|]); [apply forwarded_sections|apply routing_nack_sections|apply routing_nack_sections].
  - etrans; [apply (stats_sections count_response)|apply deliver_sections].
  - etrans; [apply (stats_sections count_data)|]. pose proof (deliver_sections (to_node env) raw (set_stats count_data h)) as Hd.
    destruct (deliver _ _ _) as [[u|[]] h2]; cbn [snd] in Hd; [done|etrans; [exact Hd|apply nack_sections]..].
  - case_bool_decide; [done|apply deliver_sections].
  - case_bool_decide; [done|apply deliver_sections].
  - apply broadcast_sections.
Qed.

Lemma handle_text_sections walk now up raw c owned h cs flow c' h' :
  cs !! c = Some owned -> handle_text walk now up raw {| cn_id := c; cn_owned := owned |} h = (flow, c', h') ->
  cn_id c' = c /\ rtc mesh_prim (h, cs) (h', <[c := cn_owned c']> cs).
Proof.
  intros Hc. set (conn := {| cn_id := c; cn_owned := owned |}).
  assert (Hsame : forall h1, sections h h1 -> cn_id conn = c /\ rtc mesh_prim (h, cs) (h1, <[c := cn_owned conn]> cs)).
  { intros h1 Hs. split; [done|]. rewrite insert_id by done. apply Hs. }
  unfold handle_text. destruct (_ && (PRE_REGISTRATION_MAX_BYTES <? str_len raw)); [intros [= <- <- <-]; by apply Hsame|].
  destruct (from_json_str raw) as [env|]; [|intros [= <- <- <-]; by apply Hsame].
  destruct (ev_body env) eqn:Hb.
  2-12: destruct (negb (negb _)); [intros [= <- <- <-]; apply Hsame, nack_sections|];
    match goal with |- context [hub_only ?b] => destruct (hub_only b) end; [intros [= <- <- <-]; by apply Hsame|];
    destruct (negb _); [intros [= <- <- <-]; apply Hsame, nack_sections|intros [= <- <- <-]; apply Hsame, route_sections].
  unfold handle_registration. destruct (_ && _); [intros [= <- <- <-]; apply Hsame, nack_sections|].
  destruct (validate_node_id (from_node env)) as [[]|why] eqn:Hval; [|intros [= <- <- <-]; apply Hsame, nack_sections].
  destruct (negb (owns conn (from_node env)) && _) eqn:Hroom; [intros [= <- <- <-]; apply Hsame, nack_sections|].
  destruct (claim_node now conn (from_node env) platform hostname capabilities h) as [taken h1] eqn:Hclaim.
  destruct taken; intros [= <- <- <-].
  - apply Hsame. unfold claim_node in Hclaim. destruct (held_by_live_peer _ _ _); [|done]. injection Hclaim as <-. apply nack_sections.
  - split; [unfold own; by destruct (owns conn (from_node env))|]. etrans.
    + apply rtc_once. eapply (mp_claim now c owned (from_node env)); [done|done| |exact Hclaim].
      apply andb_false_iff in Hroom as [Hx|Hx]; [left; by apply negb_false_iff|right; by apply Nat.leb_gt].
    + apply queue_sections.
Qed.

(** Every event of a socket (a frame, a tick, a deadline, its end), the bridge's answer
    to a command and the close after its loop are sequences of the hub's locked sections, so
    what holds of every interleaving of those holds of the hub. *)
Theorem events_are_sections walk now uptime ev c owned h cs flow c' h' resp asked graceful :
  cs !! c = Some owned -> socket_event walk now uptime ev {| cn_id := c; cn_owned := owned |} h = (flow, c', h') ->
  cn_id c' = c /\ rtc mesh_prim (h, cs) (h', <[c := cn_owned c']> cs) /\
  rtc mesh_prim (h, cs) (bridge_reply resp asked h, cs) /\
  rtc mesh_prim (h, cs) (close_socket graceful {| cn_id := c; cn_owned := owned |} h, delete c cs).
Proof.
  intros Hc Hev. assert (Hown : cn_id c' = c /\ rtc mesh_prim (h, cs) (h', <[c := cn_owned c']> cs)).
  { set (conn := {| cn_id := c; cn_owned := owned |}) in *.
    assert (Hsame : forall h1, sections h h1 -> cn_id conn = c /\ rtc mesh_prim (h, cs) (h1, <[c := cn_owned conn]> cs)).
    { intros h1 Hs. split; [done|]. rewrite insert_id by done. apply Hs. }
    destruct ev as [| |silent|[raw|b|b|b|]|]; cbn [socket_event] in Hev; try (injection Hev as <- <- <-; by apply Hsame).
    - destruct (_ <? _); injection Hev as <- <- <-; apply Hsame; [done|apply push_sections].
    - by eapply handle_text_sections.
    - injection Hev as <- <- <-. apply Hsame, push_sections. }
  destruct Hown as [Hid Hown]. split; [done|]. split; [done|]. split.
  - assert (Hb : sections h (bridge_reply resp asked h)); [|apply Hb]. unfold bridge_reply. destruct (to_json_string resp) as [json|]; [|done].
    pose proof (push_sections asked.1.1 (MText json) h) as Hp. destruct (push_to asked.1.1 (MText json) h) as [[u|e] h2]; cbn [snd] in Hp; [done|].
    etrans; [exact Hp|]. destruct (outbox_of _ _); [apply push_sections|done].
  - unfold close_socket. etrans; [apply rtc_once, mp_close|]. destruct graceful; [|done]. apply push_sections.
Qed.
End mesh.

(** ** A sample hub *)

(** Texts [R:id] register, [B:id] broadcast; the hub's envelopes are rendered as their
    receiver. *)
Module ToyMesh.
#[export] Instance value : MeshValue := {|
  JValue := Str; JString s := s; JNumber n := [n]; JArray l := concat l; as_object _ := None; of_object _ := []
|}.

Definition toy_envelope (from : Str) (body : Body) : AgentMeshEnvelope :=
  {| ev_version := str "1.0"; correlation_id := str "c"; from_node := from; to_node := str "hub"; ev_timestamp := 0; ev_body := body |}.

#[export] Instance json : MeshJson := {|
  mesh_parse s := Some s;
  envelope_of v :=
    match v with
    | 82 :: 58 :: id => Some (toy_envelope id (NodeRegistration (str "linux") (str "host") [] None))
    | 66 :: 58 :: id => Some (toy_envelope id (Broadcast None None None))
    | _ => None
    end;
  to_json_string env := Some (to_node env)
|}.
End ToyMesh.
Import ToyMesh ToyHmac.

Definition mesh_walk (m : gmap Str NodeSession) : list (Str * NodeSession) := map_to_list m.
Definition mesh_h0 : HubState := with_config hub_config_default.
Definition mesh_h2 : HubState := (open_socket (open_socket mesh_h0).2).2.
Definition mesh_alice : Flow * Connection * HubState := handle_text mesh_walk 5 0 (str "R:alice") {| cn_id := 1; cn_owned := [] |} mesh_h2.
Definition mesh_bob : Flow * Connection * HubState := handle_text mesh_walk 6 0 (str "R:bob") {| cn_id := 2; cn_owned := [] |} mesh_alice.2.
Definition mesh_sockets : gmap N (list Str) := <[2 := [str "bob"]]> (<[1 := [str "alice"]]> (<[2 := []]> (<[1 := []]> ∅))).

Lemma sample_mesh_reachable : mesh_reachable hub_config_default (mesh_bob.2, mesh_sockets).
Proof.
  unfold mesh_reachable. etrans; [apply rtc_once, mp_open|]. etrans; [apply rtc_once, mp_open|].
  etrans; [apply (handle_text_sections mesh_walk 5 0 (str "R:alice") 1 [] _ _ Continue {| cn_id := 1; cn_owned := [str "alice"] |} mesh_alice.2);
    [vm_compute; reflexivity|vm_compute; reflexivity]|].
  apply (handle_text_sections mesh_walk 6 0 (str "R:bob") 2 [] _ _ Continue {| cn_id := 2; cn_owned := [str "bob"] |} mesh_bob.2);
    [vm_compute; reflexivity|vm_compute; reflexivity].
Qed.

Theorem mesh_ids_exclusive_witness : outbox_of (str "alice") mesh_bob.2 = Some 1.
Proof.
  apply (proj1 (proj2 (mesh_ids_exclusive _ _ _ sample_mesh_reachable)) 1 [str "alice"]);
    [vm_compute; reflexivity|apply list_elem_of_singleton; reflexivity|vm_compute; reflexivity].
Defined.

(** Bob broadcasts: alice's queue gets his text, and its sender is his. *)
Theorem no_impersonation_witness :
  let h' := (handle_text mesh_walk 7 0 (str "B:bob") {| cn_id := 2; cn_owned := [str "bob"] |} mesh_bob.2).2 in
  ob_queue (box_of 1 h') = ob_queue (box_of 1 mesh_bob.2) ++ [MText (str "B:bob")] /\
  exists new, ob_queue (box_of 1 h') = ob_queue (box_of 1 mesh_bob.2) ++ new.
Proof.
  split; [vm_compute; reflexivity|].
  destruct (no_impersonation _ _ _ 2 [str "bob"] mesh_walk 7 0 (str "B:bob") sample_mesh_reachable eq_refl 1) as (new & E & _).
  exists new. exact E.
Defined.

Definition mesh_spoken : Flow * Connection * HubState :=
  socket_event mesh_walk 7 0 (EvFrame (MText (str "B:bob"))) {| cn_id := 2; cn_owned := [str "bob"] |} mesh_bob.2.

Theorem events_are_sections_witness : rtc mesh_prim (mesh_bob.2, mesh_sockets) (mesh_spoken.2, <[2 := cn_owned mesh_spoken.1.2]> mesh_sockets).
Proof.
  exact (proj1 (proj2 (events_are_sections mesh_walk 7 0 (EvFrame (MText (str "B:bob"))) 2 [str "bob"] mesh_bob.2 mesh_sockets mesh_spoken.1.1
    mesh_spoken.1.2 mesh_spoken.2 (toy_envelope [] HeartbeatAck) (2, [], toy_envelope [] HeartbeatAck) true
    ltac:(vm_compute; reflexivity) ltac:(unfold mesh_spoken; destruct (socket_event _ _ _ _ _ _) as [[f c'] h']; reflexivity)))).
Defined.

(** A budget of four bytes: a message of three, then one of two, which is refused. *)
Definition sample_box : SharedBox := {|
  sb_box := {| ob_queue := [MText (str "abc")]; ob_capacity := 8; ob_queued_bytes := 5; ob_max_bytes := 4; ob_closed := false; ob_kicked := false |};
  sb_accepted := []; sb_refused := [(MText (str "de"), true)]; sb_in_flight := None |}.

Lemma sample_box_reachable : rtc (box_step 3) (empty_box 8 4) sample_box.
Proof.
  eapply rtc_l; [apply (bs_reserve 3 (MText (str "abc"))); vm_compute; done|].
  eapply rtc_l; [apply (bs_send 3 (MText (str "abc")) _ [] [])|]. apply rtc_once.
  refine (bs_reserve 3 (MText (str "de")) _ [] [] None _ _); vm_compute; done.
Qed.

Theorem outbox_bounded_witness : weights (held sample_box) <= 4 /\ sb_refused sample_box <> [].
Proof.
  split; [|done]. exact (proj1 (proj2 (outbox_bounded 8 4 3 sample_box ltac:(vm_compute; reflexivity) sample_box_reachable))).
Defined.

(** Origins and hosts. *)
Example loopback_origins :
  map (fun s => origin_is_loopback (str s)) ["http://localhost:3000"%string; "http://127.0.0.1.evil.com"%string; "https://[::1]:9"%string;
    "http://localhost@evil.com"%string; "null"%string; "http://[::ffff:127.0.0.1]"%string; "http://app.localhost"%string]
  = [true; false; true; false; false; true; true].
Proof. vm_compute. reflexivity. Qed.
