(* ===== verification/Arbitrage.v ===== *)
(** * Arbitrage: who may coordinate, and the tickets that prove it

    Models [crates/core/src/arbitrage.rs]: the refusal matrix for phones, the authority
    score, the election order and the signed lease tickets.  Scores are [i32] as [Z],
    times [u64] milliseconds; [u64] addition wraps, as in release builds.  The texts of
    [Display] are left out. *)

From S2P Require Import Prelude Collections RustStr Float Capabilities Placement Blob Task Protocol ClusterAuth.
Local Open Scope N_scope.

Definition MIN_MASTER_BATTERY_PCT : N := 50.
Definition MAX_MASTER_BATTERY_TEMP_C : f32 := f32_of_N 40.
Definition ELECTION_THRESHOLD_SCORE : Z := 2500.
Definition SCORE_MIN : Z := -10000.
Definition SCORE_MAX : Z := 10000.
Definition LEASE_VALIDITY_DURATION_MS : N := 30000.
Definition LEASE_HMAC_LABEL : Bytes := utf8_encode (str "oxs1-master-lease").

(** ** Phones *)

(** [temp_bits] carries the bits of the temperature: the temperature itself here. *)
Inductive MasterRefusalReason :=
| NotCharging
| BatteryBelowThreshold (pct threshold : N)
| CellularOrMeteredNetwork (network_type : Str)
| ThermalHeadroomExceeded (temp : option f32) (throttled : bool)
| ForegroundServiceInactive.

Record MobileEnvironmentTelemetry := {
  env_is_charging : option bool;
  env_battery_pct : option N;
  env_network_type : option Str;
  env_thermal_throttled : bool;
  env_battery_temperature : option f32;
  env_has_fgs_active : bool
}.

Definition is_ascii_alphanumeric (c : char) : bool :=
  ((48 <=? c) && (c <=? 57)) || ((65 <=? c) && (c <=? 90)) || ((97 <=? c) && (c <=? 122)).

(** [split(|c| p(c))]. *)
Fixpoint split_on (p : char -> bool) (s : Str) : list Str :=
  match s with
  | [] => [[]]
  | c :: s =>
      if p c then [] :: split_on p s
      else match split_on p s with [] => [[c]] | x :: xs => (c :: x) :: xs end
  end.

Definition metered_markers : list Str :=
  [str "cell"; str "mobile"; str "lte"; str "4g"; str "3g"; str "cgnat"; str "metered"].

Definition is_cellular_or_metered (net : Str) : bool :=
  let net_lower := to_ascii_lowercase net in
  let has_5g_cellular_token :=
    existsb (fun token => bool_decide (token = str "5g") || bool_decide (token = str "5gnr"))
      (split_on (fun c => negb (is_ascii_alphanumeric c)) net_lower) in
  has_5g_cellular_token || existsb (fun m => contains m net_lower) metered_markers.

(** [is_some_and(|t| t > limit)]. *)
Definition hotter_than (limit : f32) (temp : option f32) : bool := from_option (fun t => f_gt t limit) false temp.

Definition evaluate_mobile_master_refusal_matrix (t : MobileEnvironmentTelemetry) : list MasterRefusalReason :=
  (if bool_decide (env_is_charging t = Some true) then [] else [NotCharging])
  ++ (let pct := default 0 (env_battery_pct t) in
      if pct <? MIN_MASTER_BATTERY_PCT then [BatteryBelowThreshold pct MIN_MASTER_BATTERY_PCT] else [])
  ++ (match env_network_type t with
      | Some net => if is_cellular_or_metered (to_ascii_lowercase net) then [CellularOrMeteredNetwork net] else []
      | None => []
      end)
  ++ (if env_thermal_throttled t || hotter_than MAX_MASTER_BATTERY_TEMP_C (env_battery_temperature t)
      then [ThermalHeadroomExceeded (env_battery_temperature t) (env_thermal_throttled t)] else [])
  ++ (if env_has_fgs_active t then [] else [ForegroundServiceInactive]).

Definition check_mobile_master_eligibility (t : MobileEnvironmentTelemetry) : result MasterRefusalReason unit :=
  match evaluate_mobile_master_refusal_matrix t with
  | first :: _ => Err first
  | [] => Ok tt
  end.

(** ** The authority score *)

Inductive PlatformType := LinuxServer | MacOs | Windows | Android | UnknownPlatform.

#[global] Instance PlatformType_eq : EqDecision PlatformType.
Proof. solve_decision. Defined.

Definition weight (p : PlatformType) : Z :=
  match p with LinuxServer => 5000 | MacOs => 4500 | Windows => 4000 | Android => 500 | UnknownPlatform => 0 end.

Record AuthorityEvaluation := {
  ae_total_score : Z;
  ae_platform_weight : Z;
  ae_power_weight : Z;
  ae_net_weight : Z;
  ae_thermal_weight : Z;
  ae_uptime_weight : Z;
  ae_uptime_seconds : N;
  ae_is_eligible : bool
}.

Definition power_weight (is_charging : option bool) (battery_pct : option N) : Z :=
  match is_charging, battery_pct with
  | Some true, _ | None, None => 2000
  | Some false, Some pct | None, Some pct => if 80 <? pct then 500 else if 30 <=? pct then 100 else -3000
  | Some false, None => 0
  end.

Definition net_weight (platform : PlatformType) (network_type : option Str) : Z :=
  match network_type with
  | Some net =>
      let net_lower := to_ascii_lowercase net in
      let has m := contains (str m) net_lower in
      if is_cellular_or_metered net_lower then -2000
      else if has "ethernet" || has "eth" || has "lan" || has "gigabit" then 1500
      else if has "wifi6" || has "wifi 6" || has "5ghz" || has "5 ghz" then 1000
      else if has "wifi" || has "wlan" then 700
      else 0
  | None => if bool_decide (platform = Android) then 0 else 1500
  end.

Definition thermal_weight (thermal_throttled : bool) (battery_temperature : option f32) : Z :=
  if thermal_throttled || hotter_than (f32_of_N 40) battery_temperature then -5000
  else if hotter_than (f32_of_N 37) battery_temperature then -1500
  else 0.

Definition uptime_weight (uptime_seconds : N) : Z := Z.of_N (N.min (uptime_seconds / 10) 1000).

Definition clamp_score (z : Z) : Z := Z.min (Z.max z SCORE_MIN) SCORE_MAX.

Definition raw_score (platform : PlatformType) (t : MobileEnvironmentTelemetry) (uptime_seconds : N) : Z :=
  (weight platform + power_weight (env_is_charging t) (env_battery_pct t) + net_weight platform (env_network_type t)
   + thermal_weight (env_thermal_throttled t) (env_battery_temperature t) + uptime_weight uptime_seconds)%Z.

(** The parameters after [platform] and before [uptime_seconds] are the telemetry's fields. *)
Definition calculate_authority_score (platform : PlatformType) (t : MobileEnvironmentTelemetry) (uptime_seconds : N) : AuthorityEvaluation :=
  if bool_decide (platform = Android) && negb (is_ok (check_mobile_master_eligibility t)) then {|
    ae_total_score := SCORE_MIN; ae_platform_weight := weight platform; ae_power_weight := -3000; ae_net_weight := -2000;
    ae_thermal_weight := -5000; ae_uptime_weight := 0; ae_uptime_seconds := uptime_seconds; ae_is_eligible := false
  |} else
    let total_score := clamp_score (raw_score platform t uptime_seconds) in {|
    ae_total_score := total_score; ae_platform_weight := weight platform;
    ae_power_weight := power_weight (env_is_charging t) (env_battery_pct t); ae_net_weight := net_weight platform (env_network_type t);
    ae_thermal_weight := thermal_weight (env_thermal_throttled t) (env_battery_temperature t);
    ae_uptime_weight := uptime_weight uptime_seconds; ae_uptime_seconds := uptime_seconds;
    ae_is_eligible := (ELECTION_THRESHOLD_SCORE <=? total_score)%Z
  |}.

(** ** The election order *)

Record CandidateRanking := { cr_node_id : Uuid; cr_authority_score : Z; cr_platform_weight : Z; cr_uptime_seconds : N }.

(** [impl Ord]: the byte order of UUIDs is their numeric order. *)
Definition resolve_election_tie (a b : CandidateRanking) : comparison :=
  then_with (cr_authority_score a ?= cr_authority_score b)%Z
    (then_with (cr_platform_weight a ?= cr_platform_weight b)%Z
      (then_with (cr_uptime_seconds a ?= cr_uptime_seconds b) (cr_node_id b ?= cr_node_id a))).

(** ** Lease tickets *)

Record MasterLeaseTicket := {
  lt_cluster_id : Uuid;
  lt_master_id : Uuid;
  lt_lease_sequence : N;
  lt_authority_score : Z;
  lt_issued_at_epoch_ms : N;
  lt_expires_at_epoch_ms : N;
  lt_signature : Bytes
}.

Inductive LeaseValidationError :=
| LeaseExpired (expired_at current : N)
| InvalidTimeRange
| InvalidSignatureLength (len : N)
| SignatureMismatch
| ScoreBelowThreshold (score : Z).

(** [u64] addition, and [i32::to_be_bytes]. *)
Definition wrapping_add_u64 (a b : N) : N := (a + b) mod 2 ^ 64.
Definition i32_be_bytes (z : Z) : Bytes := be_bytes 4 (Z.to_N (z mod 2 ^ 32)).

Definition ticket_new (cluster_id master_id : Uuid) (lease_sequence : N) (authority_score : Z) (now_epoch_ms : N) : MasterLeaseTicket := {|
  lt_cluster_id := cluster_id; lt_master_id := master_id; lt_lease_sequence := lease_sequence; lt_authority_score := authority_score;
  lt_issued_at_epoch_ms := now_epoch_ms; lt_expires_at_epoch_ms := wrapping_add_u64 now_epoch_ms LEASE_VALIDITY_DURATION_MS; lt_signature := []
|}.

Definition canonical_bytes (t : MasterLeaseTicket) : Bytes :=
  be_bytes 16 (lt_cluster_id t) ++ be_bytes 16 (lt_master_id t) ++ be_bytes 8 (lt_lease_sequence t) ++ i32_be_bytes (lt_authority_score t)
  ++ be_bytes 8 (lt_issued_at_epoch_ms t) ++ be_bytes 8 (lt_expires_at_epoch_ms t).

Inductive ClaimVerdict := AcceptedAndStepDown | RejectedInferiorScore | RejectedInvalidTicket (e : LeaseValidationError).

Section leases.
Context `{Aead}.

Definition sign_with_secret (s : ClusterSecret) (t : MasterLeaseTicket) : MasterLeaseTicket := {|
  lt_cluster_id := lt_cluster_id t; lt_master_id := lt_master_id t; lt_lease_sequence := lt_lease_sequence t;
  lt_authority_score := lt_authority_score t; lt_issued_at_epoch_ms := lt_issued_at_epoch_ms t; lt_expires_at_epoch_ms := lt_expires_at_epoch_ms t;
  lt_signature := mac s [LEASE_HMAC_LABEL; canonical_bytes t]
|}.

(** [validity.as_millis() as u64]. *)
Definition as_millis_u64 (d : Duration) : N := (d / 1000000) mod 2 ^ 64.

Definition issue (cluster_id master_id : Uuid) (lease_sequence : N) (authority_score : Z) (now_epoch_ms : N) (validity : Duration)
    (s : ClusterSecret) : MasterLeaseTicket :=
  sign_with_secret s {|
    lt_cluster_id := cluster_id; lt_master_id := master_id; lt_lease_sequence := lease_sequence; lt_authority_score := authority_score;
    lt_issued_at_epoch_ms := now_epoch_ms; lt_expires_at_epoch_ms := wrapping_add_u64 now_epoch_ms (as_millis_u64 validity); lt_signature := []
  |}.

Definition ticket_verify (s : option ClusterSecret) (current_epoch_ms : N) (t : MasterLeaseTicket) : result LeaseValidationError unit :=
  if lt_expires_at_epoch_ms t <? current_epoch_ms then Err (LeaseExpired (lt_expires_at_epoch_ms t) current_epoch_ms)
  else if lt_expires_at_epoch_ms t <=? lt_issued_at_epoch_ms t then Err InvalidTimeRange
  else
    match s with
    | Some s =>
        if negb (blen (lt_signature t) =? 32) then Err (InvalidSignatureLength (blen (lt_signature t)))
        else if negb (verify_mac s [LEASE_HMAC_LABEL; canonical_bytes t] (lt_signature t)) then Err SignatureMismatch
        else Ok tt
    | None => Ok tt
    end.

Definition ticket_is_valid (s : ClusterSecret) (current_epoch_ms : N) (t : MasterLeaseTicket) : bool := is_ok (ticket_verify (Some s) current_epoch_ms t).

Definition evaluate_master_claim (incumbent claimant : MasterLeaseTicket) (s : ClusterSecret) (now_epoch_ms : N) : ClaimVerdict :=
  match ticket_verify (Some s) now_epoch_ms claimant with
  | Err e => RejectedInvalidTicket e
  | Ok _ =>
      if (lt_authority_score claimant <? ELECTION_THRESHOLD_SCORE)%Z then RejectedInferiorScore
      else if (lt_authority_score claimant <=? lt_authority_score incumbent)%Z then RejectedInferiorScore
      else AcceptedAndStepDown
  end.

End leases.
