(* ===== verification/ArbitrageProps.v ===== *)
(** * ArbitrageProps: elections have one winner, tickets bind what they say *)

From S2P Require Import Prelude Collections RustStr Float FloatOrder Capabilities Placement Blob Task Protocol ProtocolProps ClusterAuth ClusterAuthProps Arbitrage.
Local Open Scope N_scope.

(** ** Scores *)

Lemma power_weight_range c b : (-3000 <= power_weight c b <= 2000)%Z.
Proof. unfold power_weight. repeat case_match; lia. Qed.
Lemma net_weight_range p n : (-2000 <= net_weight p n <= 1500)%Z.
Proof. unfold net_weight. repeat case_match; lia. Qed.
Lemma thermal_weight_range t temp : (-5000 <= thermal_weight t temp <= 0)%Z.
Proof. unfold thermal_weight. repeat case_match; lia. Qed.
Lemma uptime_weight_range s : (0 <= uptime_weight s <= 1000)%Z.
Proof. unfold uptime_weight. generalize (s / 10). intros n. pose proof (N.le_min_r n 1000). lia. Qed.
Lemma weight_range p : (0 <= weight p <= 5000)%Z.
Proof. destruct p; cbn; lia. Qed.

Lemma raw_score_range p t up : (SCORE_MIN <= raw_score p t up <= 9500)%Z.
Proof.
  unfold raw_score, SCORE_MIN. pose proof (weight_range p). pose proof (power_weight_range (env_is_charging t) (env_battery_pct t)).
  pose proof (net_weight_range p (env_network_type t)). pose proof (thermal_weight_range (env_thermal_throttled t) (env_battery_temperature t)).
  pose proof (uptime_weight_range up). lia.
Qed.

Lemma refusals_none t : is_ok (check_mobile_master_eligibility t) = true -> evaluate_mobile_master_refusal_matrix t = [].
Proof. unfold check_mobile_master_eligibility. by destruct (evaluate_mobile_master_refusal_matrix t). Qed.

Lemma matrix_empty t : evaluate_mobile_master_refusal_matrix t = [] <->
  env_is_charging t = Some true /\ MIN_MASTER_BATTERY_PCT <= default 0 (env_battery_pct t)
  /\ (forall net, env_network_type t = Some net -> is_cellular_or_metered (to_ascii_lowercase net) = false)
  /\ env_thermal_throttled t = false /\ hotter_than MAX_MASTER_BATTERY_TEMP_C (env_battery_temperature t) = false /\ env_has_fgs_active t = true.
Proof.
  unfold evaluate_mobile_master_refusal_matrix. cbn zeta. rewrite !app_nil. split.
  - intros (H1 & H2 & H3 & H4 & H5). case_bool_decide; [|done]. destruct (N.ltb_spec (default 0 (env_battery_pct t)) MIN_MASTER_BATTERY_PCT); [done|].
    destruct (env_thermal_throttled t || _) eqn:E; [done|]. apply orb_false_elim in E as [? ?]. destruct (env_has_fgs_active t); [|done].
    split_and!; try done. intros net Hnet. rewrite Hnet in H3. by destruct (is_cellular_or_metered _).
  - intros (Hc & Hb & Hn & Ht & Hh & Hf). rewrite bool_decide_eq_true_2, Ht, Hh, Hf by done. split; [done|]. split; [|split; [|done]].
    + destruct (N.ltb_spec (default 0 (env_battery_pct t)) MIN_MASTER_BATTERY_PCT); [lia|done].
    + destruct (env_network_type t) as [net|]; [|done]. by rewrite (Hn net eq_refl).
Qed.

(** A phone is eligible to coordinate only if none of the five refusal rules applies: it
    is charging, has at least half its battery, is on no cellular or metered network, is
    neither throttled nor above 40 degrees, and its foreground service runs; otherwise its
    score is the lowest there is.  On any platform the sum of the weights lies between the
    bounds of the scale, so the clamp never changes it and eligibility is exactly the
    threshold. *)
Theorem authority_score_spec p t up :
  let e := calculate_authority_score p t up in
  (SCORE_MIN <= ae_total_score e <= 9500)%Z
  /\ (ae_is_eligible e = true <-> (p = Android -> evaluate_mobile_master_refusal_matrix t = []) /\ (ELECTION_THRESHOLD_SCORE <= raw_score p t up)%Z)
  /\ ((p = Android -> evaluate_mobile_master_refusal_matrix t = []) -> ae_total_score e = raw_score p t up)
  /\ (p = Android -> ae_is_eligible e = true ->
      env_is_charging t = Some true /\ MIN_MASTER_BATTERY_PCT <= default 0 (env_battery_pct t)
      /\ (forall net, env_network_type t = Some net -> is_cellular_or_metered (to_ascii_lowercase net) = false)
      /\ env_thermal_throttled t = false /\ hotter_than MAX_MASTER_BATTERY_TEMP_C (env_battery_temperature t) = false /\ env_has_fgs_active t = true).
Proof.
  cbn zeta. pose proof (raw_score_range p t up) as Hr. unfold SCORE_MIN in Hr.
  assert (Hclamp : clamp_score (raw_score p t up) = raw_score p t up) by (unfold clamp_score, SCORE_MIN, SCORE_MAX; lia).
  unfold calculate_authority_score. destruct (bool_decide (p = Android) && negb (is_ok (check_mobile_master_eligibility t))) eqn:E.
  - apply andb_prop in E as [->%bool_decide_eq_true Hneg]. cbn.
    assert (Hm : evaluate_mobile_master_refusal_matrix t <> []).
    { intros Hm. unfold check_mobile_master_eligibility in Hneg. by rewrite Hm in Hneg. }
    split; [unfold SCORE_MIN; lia|]. split; [|split; [intros Hx; by destruct Hm, Hx|done]]. split; [done|]. intros [Hx _]. by destruct Hm, Hx.
  - cbn zeta. cbn [ae_total_score ae_is_eligible]. rewrite Hclamp, Z.leb_le. unfold SCORE_MIN. split; [done|].
    assert (Hok : p = Android -> evaluate_mobile_master_refusal_matrix t = []).
    { intros ->. apply refusals_none. rewrite bool_decide_eq_true_2 in E by done. by destruct (is_ok _). }
    split; [tauto|]. split; [done|]. intros Hp _. by apply matrix_empty, Hok.
Qed.

(** ** The election order *)

#[global] Instance CandidateRanking_eq : EqDecision CandidateRanking.
Proof. solve_decision. Defined.

Lemma tie_opp a b : resolve_election_tie b a = CompOpp (resolve_election_tie a b).
Proof.
  unfold resolve_election_tie. rewrite !then_with_opp. rewrite <-!Z.compare_antisym, <-!N.compare_antisym. done.
Qed.

Lemma tie_eq a b : resolve_election_tie a b = Eq <-> a = b.
Proof.
  unfold resolve_election_tie. rewrite !then_with_eq, !Z.compare_eq_iff, !N.compare_eq_iff. split; [|by intros ->].
  destruct a, b. cbn. intros (-> & -> & -> & ->). done.
Qed.

Lemma tie_lt_trans a b c : resolve_election_tie a b = Lt -> resolve_election_tie b c = Lt -> resolve_election_tie a c = Lt.
Proof.
  unfold resolve_election_tie. rewrite !then_with_lt, !Z.compare_lt_iff, !Z.compare_eq_iff, !N.compare_lt_iff, !N.compare_eq_iff. lia.
Qed.

(** The candidate every other one ranks below. *)
Definition wins (cs : list CandidateRanking) (w : CandidateRanking) : Prop :=
  w ∈ cs /\ forall c, c ∈ cs -> c = w \/ resolve_election_tie c w = Lt.

(** An election has exactly one winner, whatever order the candidates are heard in and
    whoever counts: the four-stage tie break is a total order in which only equal candidates
    tie. *)
Theorem election_has_one_winner cs cs' : cs <> [] -> cs ≡ₚ cs' ->
  exists w, wins cs w /\ wins cs' w /\ forall w', wins cs w' \/ wins cs' w' -> w' = w.
Proof.
  intros Hne Hp. assert (Hsame : forall w, wins cs w <-> wins cs' w) by (intros w; unfold wins; by setoid_rewrite Hp).
  assert (Hex : exists w, wins cs w).
  { clear Hp Hsame cs'. induction cs as [|c cs IH]; [done|]. destruct cs as [|d cs].
    { exists c. split; [left|]. intros x ->%list_elem_of_singleton. by left. }
    destruct IH as (w & Hw & Hmax); [done|]. destruct (resolve_election_tie c w) eqn:E.
    - apply tie_eq in E as ->. exists w. split; [left|]. intros x [->|?]%elem_of_cons; [by left|by apply Hmax].
    - exists w. split; [by right|]. intros x [->|?]%elem_of_cons; [by right|by apply Hmax].
    - exists c. assert (resolve_election_tie w c = Lt) by (rewrite tie_opp, E; done). split; [left|].
      intros x [->|Hx]%elem_of_cons; [by left|]. right. destruct (Hmax x Hx) as [->|?]; [done|]. by eapply tie_lt_trans. }
  destruct Hex as [w Hw]. exists w. split; [done|]. split; [by apply Hsame|].
  assert (Huniq : forall w', wins cs w' -> w' = w).
  { intros w' [Hin Hmax]. destruct Hw as [Hinw Hmaxw]. destruct (Hmaxw w' Hin) as [?|Hlt]; [done|]. destruct (Hmax w Hinw) as [?|Hlt']; [done|].
    rewrite tie_opp, Hlt in Hlt'. done. }
  intros w' [?|?%Hsame]; by apply Huniq.
Qed.

(** ** Tickets *)

(** The fields fit their machine widths. *)
Definition ticket_wf (t : MasterLeaseTicket) : Prop :=
  lt_cluster_id t < 2 ^ 128 /\ lt_master_id t < 2 ^ 128 /\ lt_lease_sequence t <= u64_max
  /\ (- 2 ^ 31 <= lt_authority_score t < 2 ^ 31)%Z /\ lt_issued_at_epoch_ms t <= u64_max /\ lt_expires_at_epoch_ms t <= u64_max.

Lemma be_bytes_inj_k k a b : a < 256 ^ N.of_nat k -> b < 256 ^ N.of_nat k -> be_bytes k a = be_bytes k b -> a = b.
Proof. intros Ha Hb Heq. rewrite <-(from_be_bytes_be k a Ha), <-(from_be_bytes_be k b Hb). by rewrite Heq. Qed.

Lemma i32_bytes_inj x y : (- 2 ^ 31 <= x < 2 ^ 31)%Z -> (- 2 ^ 31 <= y < 2 ^ 31)%Z -> i32_be_bytes x = i32_be_bytes y -> x = y.
Proof.
  intros Hx Hy Heq. unfold i32_be_bytes in Heq.
  assert (Hlt : forall z, Z.to_N (z mod 2 ^ 32) < 256 ^ N.of_nat 4).
  { intros z. change (256 ^ N.of_nat 4) with (Z.to_N (2 ^ 32)). apply Z2N.inj_lt; [apply Z.mod_pos_bound; lia|lia|apply Z.mod_pos_bound; lia]. }
  apply be_bytes_inj_k in Heq; [|apply Hlt|apply Hlt]. apply Z2N.inj in Heq; [|apply Z.mod_pos_bound; lia|apply Z.mod_pos_bound; lia].
  pose proof (Z.div_mod x (2 ^ 32)) as E1. pose proof (Z.div_mod y (2 ^ 32)) as E2. rewrite Heq in E1.
  pose proof (Z.mod_pos_bound y (2 ^ 32)). lia.
Qed.

(** The canonical payload determines every field. *)
Lemma canonical_bytes_inj t t' : ticket_wf t -> ticket_wf t' -> canonical_bytes t = canonical_bytes t' ->
  lt_cluster_id t = lt_cluster_id t' /\ lt_master_id t = lt_master_id t' /\ lt_lease_sequence t = lt_lease_sequence t'
  /\ lt_authority_score t = lt_authority_score t' /\ lt_issued_at_epoch_ms t = lt_issued_at_epoch_ms t' /\ lt_expires_at_epoch_ms t = lt_expires_at_epoch_ms t'.
Proof.
  intros (W1 & W2 & W3 & W4 & W5 & W6) (V1 & V2 & V3 & V4 & V5 & V6) Heq. unfold canonical_bytes in Heq.
  apply app_inj_1 in Heq as [E1 Heq]; [|by rewrite !length_be_bytes]. apply app_inj_1 in Heq as [E2 Heq]; [|by rewrite !length_be_bytes].
  apply app_inj_1 in Heq as [E3 Heq]; [|by rewrite !length_be_bytes]. apply app_inj_1 in Heq as [E4 Heq]; [|unfold i32_be_bytes; by rewrite !length_be_bytes].
  apply app_inj_1 in Heq as [E5 E6]; [|by rewrite !length_be_bytes].
  split_and!; [by apply (be_bytes_inj_k 16)|by apply (be_bytes_inj_k 16)|by apply be_bytes_inj|by apply i32_bytes_inj|by apply be_bytes_inj|by apply be_bytes_inj].
Qed.

(** What a ticket's tag is computed over. *)
Definition lease_payload (t : MasterLeaseTicket) : Bytes := LEASE_HMAC_LABEL ++ canonical_bytes t ++ [].

Section leases.
Context `{Aead}.

Lemma ticket_verify_ok s now t : ticket_verify (Some s) now t = Ok tt <->
  now <= lt_expires_at_epoch_ms t /\ lt_issued_at_epoch_ms t < lt_expires_at_epoch_ms t /\ blen (lt_signature t) = 32
  /\ lt_signature t = mac s [LEASE_HMAC_LABEL; canonical_bytes t].
Proof.
  unfold ticket_verify, verify_mac. destruct (N.ltb_spec (lt_expires_at_epoch_ms t) now); [split; [done|lia]|].
  destruct (N.leb_spec (lt_expires_at_epoch_ms t) (lt_issued_at_epoch_ms t)); [split; [done|lia]|].
  destruct (N.eqb_spec (blen (lt_signature t)) 32); cbn [negb]; [|split; [done|tauto]].
  case_bool_decide; cbn [negb]; split; try done; tauto.
Qed.

(** A lease ticket binds what it says: two tickets that carry the same signature and both
    verify under the secret agree in every field, so no field of a signed ticket can be
    altered, as long as HMAC does not collide on the two payloads. *)
Theorem lease_binds_fields s now now' t t' : (sign (cs_bytes s) (lease_payload t) = sign (cs_bytes s) (lease_payload t') -> lease_payload t = lease_payload t') ->
  ticket_wf t -> ticket_wf t' -> ticket_verify (Some s) now t = Ok tt -> ticket_verify (Some s) now' t' = Ok tt ->
  lt_signature t = lt_signature t' -> t = t'.
Proof.
  intros Hinj Hw Hw' (_ & _ & _ & E)%ticket_verify_ok (_ & _ & _ & E')%ticket_verify_ok Hsig.
  assert (Hm : mac s [LEASE_HMAC_LABEL; canonical_bytes t] = mac s [LEASE_HMAC_LABEL; canonical_bytes t']) by congruence.
  apply Hinj in Hm. unfold lease_payload in Hm. apply app_inj_1 in Hm as [_ Hm]; [|done]. rewrite !app_nil_r in Hm.
  destruct (canonical_bytes_inj t t' Hw Hw' Hm) as (? & ? & ? & ? & ? & ?). destruct t, t'. cbn in *. congruence.
Qed.

(** A ticket issued now verifies under the secret it was issued with exactly until it
    expires, for any validity of at least a millisecond that does not overflow the clock. *)
Theorem issued_lease_verifies `{!HmacLaws} cluster master seq score now validity s later :
  1000000 <= validity -> now + validity / 1000000 <= u64_max ->
  ticket_verify (Some s) later (issue cluster master seq score now validity s)
  = if later <=? now + validity / 1000000 then Ok tt else Err (LeaseExpired (now + validity / 1000000) later).
Proof.
  intros Hv Ho. assert (Hms : 1 <= validity / 1000000) by (apply (N.div_le_mono 1000000 validity 1000000) in Hv; [exact Hv|done]).
  assert (Hexp : wrapping_add_u64 now (as_millis_u64 validity) = now + validity / 1000000).
  { unfold wrapping_add_u64, as_millis_u64. assert (Hlt : now + validity / 1000000 < 2 ^ 64) by (apply N.lt_succ_r in Ho; exact Ho).
    rewrite (N.mod_small (validity / 1000000)), N.mod_small; lia. }
  set (t := issue cluster master seq score now validity s).
  assert (E1 : lt_expires_at_epoch_ms t = now + validity / 1000000) by exact Hexp.
  destruct (N.leb_spec later (now + validity / 1000000)) as [Hle|Hgt].
  - apply ticket_verify_ok. rewrite E1. split; [done|]. split; [cbn; lia|]. split; [|done].
    unfold blen. cbn [t issue sign_with_secret lt_signature]. unfold mac. by rewrite sign_length.
  - unfold ticket_verify. rewrite E1. destruct (N.ltb_spec (now + validity / 1000000) later); [done|lia].
Qed.

(** Two coordinators never both step down for each other: if a claim is accepted, the
    claimant's ticket is valid and its score is at least the threshold and strictly above the
    incumbent's, so no claim of the incumbent against it is accepted, then or ever. *)
Theorem no_mutual_step_down s s' now now' a b : evaluate_master_claim a b s now = AcceptedAndStepDown ->
  ticket_is_valid s now b = true /\ (ELECTION_THRESHOLD_SCORE <= lt_authority_score b)%Z /\ (lt_authority_score a < lt_authority_score b)%Z
  /\ evaluate_master_claim b a s' now' <> AcceptedAndStepDown.
Proof.
  unfold evaluate_master_claim, ticket_is_valid. destruct (ticket_verify (Some s) now b) as [[]|]; [|done].
  destruct (Z.ltb_spec (lt_authority_score b) ELECTION_THRESHOLD_SCORE); [done|]. destruct (Z.leb_spec (lt_authority_score b) (lt_authority_score a)); [done|].
  intros _. split; [done|]. split; [done|]. split; [done|]. destruct (ticket_verify (Some s') now' a); [|done].
  destruct (Z.ltb_spec (lt_authority_score a) ELECTION_THRESHOLD_SCORE); [done|]. destruct (Z.leb_spec (lt_authority_score a) (lt_authority_score b)); [done|lia].
Qed.

End leases.

(** ** Witnesses *)

Definition sample_candidate (id : Uuid) (score : Z) : CandidateRanking :=
  {| cr_node_id := id; cr_authority_score := score; cr_platform_weight := 5000; cr_uptime_seconds := 60 |}.

Lemma election_has_one_winner_witness :
  let cs := [sample_candidate 1 8500; sample_candidate 2 8500] in let cs' := [sample_candidate 2 8500; sample_candidate 1 8500] in
  exists w, wins cs w /\ wins cs' w /\ forall w', wins cs w' \/ wins cs' w' -> w' = w.
Proof. apply (election_has_one_winner [sample_candidate 1 8500; sample_candidate 2 8500] [sample_candidate 2 8500; sample_candidate 1 8500]); [done|apply perm_swap]. Defined.

Definition sample_ticket (id : Uuid) (score : Z) : MasterLeaseTicket := issue (H := ToyHmac.api) 9 id 1 score 1000 30000000000 ToyHmac.secret.

Lemma issued_lease_verifies_witness :
  ticket_verify (H := ToyHmac.api) (Some ToyHmac.secret) 31000 (sample_ticket 1 8500) = Ok tt
  /\ ticket_verify (H := ToyHmac.api) (Some ToyHmac.secret) 31001 (sample_ticket 1 8500) = Err (LeaseExpired 31000 31001).
Proof.
  split.
  - exact (issued_lease_verifies (H := ToyHmac.api) (H0 := ToyHmac.laws) 9 1 1 8500 1000 30000000000 ToyHmac.secret 31000 ltac:(vm_compute; discriminate) ltac:(vm_compute; discriminate)).
  - exact (issued_lease_verifies (H := ToyHmac.api) (H0 := ToyHmac.laws) 9 1 1 8500 1000 30000000000 ToyHmac.secret 31001 ltac:(vm_compute; discriminate) ltac:(vm_compute; discriminate)).
Defined.

Lemma sample_ticket_wf : ticket_wf (sample_ticket 1 8500).
Proof. unfold ticket_wf. split_and!; vm_compute; first [reflexivity|discriminate]. Qed.

Lemma lease_binds_fields_witness : sample_ticket 1 8500 = sample_ticket 1 8500.
Proof.
  apply (lease_binds_fields (H := ToyHmac.api) ToyHmac.secret 2000 3000); try exact sample_ticket_wf; try reflexivity; vm_compute; reflexivity.
Defined.

Lemma no_mutual_step_down_witness :
  evaluate_master_claim (H := ToyHmac.api) (sample_ticket 2 9000) (sample_ticket 1 8500) ToyHmac.secret 2000 <> AcceptedAndStepDown.
Proof.
  apply (no_mutual_step_down (H := ToyHmac.api) ToyHmac.secret ToyHmac.secret 2000 2000 (sample_ticket 1 8500) (sample_ticket 2 9000)). vm_compute. reflexivity.
Defined.

(** The keepalive of a worker takes a 5 GHz network for a cellular one, which the election
    does not: its marker is the substring ["5g"]. *)
Lemma five_ghz_taken_for_cellular :
  is_cellular_network (str "WiFi 5GHz") = true /\ is_cellular_or_metered (str "WiFi 5GHz") = false.
Proof. vm_compute. done. Qed.
