(* ===== verification/WorkerTasks.v ===== *)
(** * WorkerTasks: the life of a task on a worker

    Models the task handling of [crates/worker/src/client.rs]:
    [handle_assign_task_with_checkpoint], [handle_cancel_task],
    [cancel_all_active_tasks] and the task each assignment spawns, with what
    [upload_task_outputs] of [blob_client.rs] does to a result.

    A run is named by its attempt number; the fields of a [TaskExecutionHandle] other than
    its attempt (the sender of the cancel channel, the abort handle, [suppress_result], the
    join handle) refer to state shared with the run, so the table maps a task id to an
    attempt and [Run] keeps that state.  A run is a state machine whose phases are its await
    points; [run_event] takes it from one to the next.  The session loop runs one handler at
    a time, and [Handler] is where it waits.  Runs and the handler interleave at these
    points.  What the runner and the blob cache answer is an argument of the event; the calls
    that change them are recorded in [wk_calls].  The semaphore is never closed.  Log lines,
    the child's pid and the start time are left out. *)

From S2P Require Import Prelude Collections RustStr Float Capabilities Placement Blob Task.
Local Open Scope N_scope.

Definition EXIT_CODE_GENERAL_ERROR : Z := 1.
Definition EXIT_CODE_CANCELLED : Z := 130.
Definition CANCELLED_UNSEEN_MEMORY : nat := 256.

(** ** Slots *)

Definition default_max_concurrency (detected_cores : N) : N := N.max (detected_cores - 1) 1.

Definition concurrency_permits (max_concurrency cores : option N) (cpu_cores : N) : N :=
  N.max (default (if cores then cpu_cores else default_max_concurrency cpu_cores) max_concurrency) 1.

(** [decrement_active_tasks]: never below zero. *)
Definition decrement_active_tasks (n : N) : N := n - 1.

(** ** Results *)

Definition NEWLINE : N := 10.

Definition append_note (bytes : Bytes) (note : Str) : Bytes :=
  bytes ++ (if negb (is_empty bytes) && negb (bool_decide (last bytes = Some NEWLINE)) && negb (bool_decide (head note = Some NEWLINE))
            then [NEWLINE] else []) ++ utf8_encode note.

(** [fail] of [blob_client.rs]. *)
Definition fail_result (message : Str) (r : TaskResult) : TaskResult := {|
  res_worker_id := res_worker_id r; res_task_id := res_task_id r;
  res_exit_code := if (res_exit_code r =? 0)%Z then EXIT_CODE_GENERAL_ERROR else res_exit_code r;
  res_stdout := res_stdout r; res_stderr := append_note (res_stderr r) message;
  res_execution_time_ms := res_execution_time_ms r; res_is_gpu_executed := res_is_gpu_executed r;
  res_device_name := res_device_name r;
  res_error := Some (match res_error r with Some e => e ++ str "; " ++ message | None => message end);
  res_asset_bytes := res_asset_bytes r; res_artifacts := res_artifacts r; res_outputs := res_outputs r
|}.

Definition set_outcome (exit_code : Z) (stderr : Bytes) (error : option Str) (asset : option Bytes) (artifacts : list OutputArtifact)
    (outputs : list BlobFile) (r : TaskResult) : TaskResult := {|
  res_worker_id := res_worker_id r; res_task_id := res_task_id r; res_exit_code := exit_code; res_stdout := res_stdout r;
  res_stderr := stderr; res_execution_time_ms := res_execution_time_ms r; res_is_gpu_executed := res_is_gpu_executed r;
  res_device_name := res_device_name r; res_error := error; res_asset_bytes := asset; res_artifacts := artifacts; res_outputs := outputs
|}.

(** [result.outputs.clear()]. *)
Definition clear_outputs (r : TaskResult) : TaskResult :=
  set_outcome (res_exit_code r) (res_stderr r) (res_error r) (res_asset_bytes r) (res_artifacts r) [] r.

Definition no_store_note (count : N) : Str :=
  show_N count ++ str " output files were not returned: the master has no blob store (start it with `oxideswarm master`, which keeps one)".

(** What [upload_task_outputs] makes of the result: [uploaded] is the outcome of the
    transfer, when the session has a blob client. *)
Definition upload_task_outputs (t : Task) (uploaded : option (result Str unit)) (r : TaskResult) : TaskResult :=
  if is_empty (res_outputs r) then r
  else
    match uploaded with
    | None =>
        let note := no_store_note (N.of_nat (length (res_outputs r))) in
        let r := clear_outputs r in
        if is_empty (task_output_globs t)
        then set_outcome (res_exit_code r) (append_note (res_stderr r) note) (res_error r) (res_asset_bytes r) (res_artifacts r) (res_outputs r) r
        else fail_result note r
    | Some (Ok _) => r
    | Some (Err e) => fail_result (str "uploading output files to the master failed: " ++ e) (clear_outputs r)
    end.

Definition cancelled_error (reason : Str) : Str := str "Cancelled: " ++ reason.
Definition cancelled_result (worker_id : Uuid) (tid : TaskId) (reason : Str) : TaskResult :=
  result_failure worker_id tid EXIT_CODE_CANCELLED [] [] 0 (Some (cancelled_error reason)).

(** The block before the result is sent: a cancelled run reports no products. *)
Definition apply_cancelled (cancelled : option Str) (r : TaskResult) : TaskResult :=
  match cancelled with
  | None => r
  | Some reason =>
      let code_error :=
        if (res_exit_code r =? EXIT_CODE_CANCELLED)%Z then (res_exit_code r, res_error r)
        else (EXIT_CODE_CANCELLED, Some (cancelled_error reason)) in
      set_outcome code_error.1 (res_stderr r) code_error.2 None [] [] r
  end.

(** ** Runs *)

(** The oneshot channel a run is cancelled through, as its sender left it. *)
Inductive CancelChan := ChanEmpty | ChanReason (reason : Str) | ChanClosed.

Inductive RunPhase :=
| RunQueued                                                (* waits for a permit or a cancellation *)
| RunUnlisting (reason : Str)                              (* cancelled while queued: waits for the table *)
| RunReporting (r : TaskResult)                            (* ... and sends that result *)
| RunProgress                                              (* has a slot; sends TaskProgress *)
| RunFetching
| RunExecuting (cancelled : option Str)
| RunUploading (r : TaskResult)
| RunEvicting (r : TaskResult) (cancelled : option Str)
| RunSending (r : TaskResult)
| RunCleaning                                              (* the guard's clean-up waits for the table *)
| RunDone.

Record Run := {
  rn_task : Task;
  rn_checkpoint : option CheckpointData;
  rn_cancel : CancelChan;
  rn_rx : bool;              (* the receiver can still be polled *)
  rn_taken : option Str;     (* the reason the run received *)
  rn_suppress : bool;
  rn_aborted : bool;
  rn_phase : RunPhase
}.

(** An [ActiveTaskGuard] exists, with its permit. *)
Definition holds_guard (p : RunPhase) : bool :=
  match p with RunProgress | RunFetching | RunExecuting _ | RunUploading _ | RunEvicting _ _ | RunSending _ => true | _ => false end.

(** The spawned task has not returned. *)
Definition run_live (p : RunPhase) : bool := match p with RunCleaning | RunDone => false | _ => true end.

Definition run_new (t : Task) (c : option CheckpointData) : Run := {|
  rn_task := t; rn_checkpoint := c; rn_cancel := ChanEmpty; rn_rx := true; rn_taken := None;
  rn_suppress := false; rn_aborted := false; rn_phase := RunQueued
|}.

Definition set_phase (p : RunPhase) (r : Run) : Run := {|
  rn_task := rn_task r; rn_checkpoint := rn_checkpoint r; rn_cancel := rn_cancel r; rn_rx := rn_rx r; rn_taken := rn_taken r;
  rn_suppress := rn_suppress r; rn_aborted := rn_aborted r; rn_phase := p
|}.

(** Leaving the spawned task drops what it owns, the receiver among it. *)
Definition end_run (p : RunPhase) (r : Run) : Run := {|
  rn_task := rn_task r; rn_checkpoint := rn_checkpoint r; rn_cancel := rn_cancel r; rn_rx := false; rn_taken := rn_taken r;
  rn_suppress := rn_suppress r; rn_aborted := rn_aborted r; rn_phase := p
|}.

Definition set_received (taken : option Str) (r : Run) : Run := {|
  rn_task := rn_task r; rn_checkpoint := rn_checkpoint r; rn_cancel := rn_cancel r; rn_rx := false; rn_taken := taken;
  rn_suppress := rn_suppress r; rn_aborted := rn_aborted r; rn_phase := rn_phase r
|}.

(** [runner::cancellation]: it resolves only with a reason; a sender that vanished is not
    a cancellation, and a receiver that completed is not polled again. *)
Definition cancellation (r : Run) : Run * option Str :=
  if rn_rx r then
    match rn_cancel r with
    | ChanReason reason => (set_received (Some reason) r, Some reason)
    | ChanClosed => (set_received (rn_taken r) r, None)
    | ChanEmpty => (r, None)
    end
  else (r, None).

(** [tx.send(reason)], and [abort_handle.abort()] when nobody receives it. *)
Definition signal (reason : Str) (r : Run) : Run :=
  let sent := rn_rx r && match rn_cancel r with ChanEmpty => true | _ => false end in {|
  rn_task := rn_task r; rn_checkpoint := rn_checkpoint r;
  rn_cancel := if sent then ChanReason reason else rn_cancel r; rn_rx := rn_rx r; rn_taken := rn_taken r;
  rn_suppress := rn_suppress r; rn_aborted := if sent then rn_aborted r else true; rn_phase := rn_phase r
|}.

Definition suppress (r : Run) : Run := {|
  rn_task := rn_task r; rn_checkpoint := rn_checkpoint r; rn_cancel := rn_cancel r; rn_rx := rn_rx r; rn_taken := rn_taken r;
  rn_suppress := true; rn_aborted := rn_aborted r; rn_phase := rn_phase r
|}.

Definition abort_run (r : Run) : Run := {|
  rn_task := rn_task r; rn_checkpoint := rn_checkpoint r; rn_cancel := rn_cancel r; rn_rx := rn_rx r; rn_taken := rn_taken r;
  rn_suppress := rn_suppress r; rn_aborted := true; rn_phase := rn_phase r
|}.

(** Dropping a handle drops the sender it still has. *)
Definition drop_sender (r : Run) : Run := {|
  rn_task := rn_task r; rn_checkpoint := rn_checkpoint r;
  rn_cancel := match rn_cancel r with ChanEmpty => ChanClosed | c => c end; rn_rx := rn_rx r; rn_taken := rn_taken r;
  rn_suppress := rn_suppress r; rn_aborted := rn_aborted r; rn_phase := rn_phase r
|}.

(** ** The worker *)

Inductive WorkerOut :=
| OutResult (r : TaskResult)
| OutProgress (worker_id : Uuid) (tid : TaskId) (status : TaskStatus).

(** Calls that change the runner, its sandboxes or its blob cache. *)
Inductive RunnerCall :=
| ReclaimStaleSandbox (tid : TaskId)
| FetchTaskInputs (attempt : N)
| ExecuteTask (attempt : N) (checkpoint : option CheckpointData)
| CancelExecution (attempt : N) (reason : Str)
| ReleaseTaskOutputs (tid : TaskId)
| EvictToFit.

(** Where the session loop's handler waits. *)
Inductive Handler :=
| HIdle
| HRetire (t : Task) (c : option CheckpointData)                       (* for the table *)
| HRetireStop (t : Task) (c : option CheckpointData) (previous : N)    (* the old run's handle in hand *)
| HRetireWait (t : Task) (c : option CheckpointData) (previous : N)    (* for the old run to end *)
| HPrepare (t : Task) (c : option CheckpointData)                      (* for the check of the sandbox base *)
| HLaunch (t : Task) (c : option CheckpointData)                       (* for the table *)
| HStopAll (reason : Str) (todo joins : list N)
| HDrain (joins : list N).

Record Worker := {
  wk_table : gmap TaskId N;
  wk_runs : gmap N Run;
  wk_permits : N;
  wk_active : N;
  wk_next : N;
  wk_unseen : list TaskId;
  wk_out : list (option N * WorkerOut);
  wk_calls : list RunnerCall;
  wk_handler : Handler
}.

Definition worker_new (permits : N) : Worker := {|
  wk_table := ∅; wk_runs := ∅; wk_permits := permits; wk_active := 0; wk_next := 0; wk_unseen := [];
  wk_out := []; wk_calls := []; wk_handler := HIdle
|}.

Definition set_runs (runs : gmap N Run) (w : Worker) : Worker := {|
  wk_table := wk_table w; wk_runs := runs; wk_permits := wk_permits w; wk_active := wk_active w; wk_next := wk_next w;
  wk_unseen := wk_unseen w; wk_out := wk_out w; wk_calls := wk_calls w; wk_handler := wk_handler w
|}.
Definition set_table (table : gmap TaskId N) (w : Worker) : Worker := {|
  wk_table := table; wk_runs := wk_runs w; wk_permits := wk_permits w; wk_active := wk_active w; wk_next := wk_next w;
  wk_unseen := wk_unseen w; wk_out := wk_out w; wk_calls := wk_calls w; wk_handler := wk_handler w
|}.
Definition set_slots (permits active : N) (w : Worker) : Worker := {|
  wk_table := wk_table w; wk_runs := wk_runs w; wk_permits := permits; wk_active := active; wk_next := wk_next w;
  wk_unseen := wk_unseen w; wk_out := wk_out w; wk_calls := wk_calls w; wk_handler := wk_handler w
|}.
Definition set_unseen (unseen : list TaskId) (w : Worker) : Worker := {|
  wk_table := wk_table w; wk_runs := wk_runs w; wk_permits := wk_permits w; wk_active := wk_active w; wk_next := wk_next w;
  wk_unseen := unseen; wk_out := wk_out w; wk_calls := wk_calls w; wk_handler := wk_handler w
|}.
Definition set_handler (h : Handler) (w : Worker) : Worker := {|
  wk_table := wk_table w; wk_runs := wk_runs w; wk_permits := wk_permits w; wk_active := wk_active w; wk_next := wk_next w;
  wk_unseen := wk_unseen w; wk_out := wk_out w; wk_calls := wk_calls w; wk_handler := h
|}.
(** [outbound_tx.send]: nothing arrives once the session's queue is gone. *)
Definition send (open : bool) (by_run : option N) (o : WorkerOut) (w : Worker) : Worker :=
  if open then {|
    wk_table := wk_table w; wk_runs := wk_runs w; wk_permits := wk_permits w; wk_active := wk_active w; wk_next := wk_next w;
    wk_unseen := wk_unseen w; wk_out := wk_out w ++ [(by_run, o)]; wk_calls := wk_calls w; wk_handler := wk_handler w
  |} else w.
Definition call (c : RunnerCall) (w : Worker) : Worker := {|
  wk_table := wk_table w; wk_runs := wk_runs w; wk_permits := wk_permits w; wk_active := wk_active w; wk_next := wk_next w;
  wk_unseen := wk_unseen w; wk_out := wk_out w; wk_calls := wk_calls w ++ [c]; wk_handler := wk_handler w
|}.

Definition put_run (a : N) (r : Run) (w : Worker) : Worker := set_runs (<[a := r]> (wk_runs w)) w.
Definition change_run (f : Run -> Run) (a : N) (w : Worker) : Worker := set_runs (alter f a (wk_runs w)) w.

(** [remove_active]: only the entry of this very run. *)
Definition remove_active (tid : TaskId) (attempt : N) (w : Worker) : Worker :=
  if bool_decide (wk_table w !! tid = Some attempt)
  then change_run drop_sender attempt (set_table (delete tid (wk_table w)) w)
  else w.

Section worker.
Context (worker_id : Uuid) (capabilities : WorkerCapabilities).

(** ** What a run does between two await points *)

(** Dropping the guard: the counter, the output pins and the permit; the table entry goes
    when the clean-up it spawns gets the table. *)
Definition guard_drop (a : N) (r : Run) (w : Worker) : Worker :=
  put_run a (end_run RunCleaning r)
    (call (ReleaseTaskOutputs (task_id (rn_task r)))
      (set_slots (wk_permits w + 1) (decrement_active_tasks (wk_active w)) w)).

(** [if !suppress.load { send }] of a run that holds a guard, up to the send. *)
Definition report (a : N) (result : TaskResult) (r : Run) (w : Worker) : Worker :=
  if rn_suppress r then guard_drop a r w else put_run a (set_phase (RunSending result) r) w.

Definition start_execution (a : N) (r : Run) (w : Worker) : Worker :=
  let checkpoint := match rn_checkpoint r with Some c => Some c | None => task_latest_checkpoint (rn_task r) end in
  put_run a (set_phase (RunExecuting None) r) (call (ExecuteTask a checkpoint) w).

(** From the end of the uploads: output pins go, blobs are evicted if the run used any
    (and the cache, opened once, is there). *)
Definition after_upload (a : N) (used_blobs : bool) (result : TaskResult) (cancelled : option Str) (r : Run) (w : Worker) : Worker :=
  let w := call (ReleaseTaskOutputs (task_id (rn_task r))) w in
  if used_blobs then put_run a (set_phase (RunEvicting result cancelled) r) (call EvictToFit w)
  else report a (apply_cancelled cancelled result) r w.

Inductive RunEvent :=
| EvPermit                                              (* [acquire_owned] resolved *)
| EvQueuedCancel                                        (* the cancel channel resolved while queued *)
| EvUnlist                                              (* the table lock was granted *)
| EvReported (open : bool)
| EvProgress (open : bool)
| EvFetched (r : result Str unit)
| EvCancelled                                           (* [cancellation] was polled *)
| EvExecuted (r : TaskResult) (cache : result Str unit) (* the run's result, and [blob_cache()] *)
| EvUploaded (r : option (result Str unit))
| EvEvicted
| EvSent (open : bool)
| EvAborted                                             (* the runtime drops an aborted task *)
| EvCleaned.                                            (* the spawned clean-up got the table *)

Definition run_event (a : N) (ev : RunEvent) (w : Worker) : option Worker :=
  r ← wk_runs w !! a;
  let tid := task_id (rn_task r) in
  match ev, rn_phase r with
  | EvPermit, RunQueued =>
      if wk_permits w =? 0 then None
      else Some (put_run a (set_phase RunProgress r) (set_slots (wk_permits w - 1) (wk_active w + 1) w))
  | EvQueuedCancel, RunQueued =>
      match rn_cancel r with
      | ChanReason reason => Some (put_run a (set_phase (RunUnlisting reason) (set_received (Some reason) r)) w)
      | ChanClosed => Some (put_run a (set_phase (RunUnlisting (str "Cancelled while queued")) (set_received (rn_taken r) r)) w)
      | ChanEmpty => None
      end
  | EvUnlist, RunUnlisting reason =>
      let w := remove_active tid a w in
      if rn_suppress r then Some (change_run (end_run RunDone) a w)
      else Some (change_run (set_phase (RunReporting (cancelled_result worker_id tid reason))) a w)
  | EvReported open, RunReporting result => Some (put_run a (end_run RunDone r) (send open (Some a) (OutResult result) w))
  | EvProgress open, RunProgress =>
      let w := send open (Some a) (OutProgress worker_id tid StRunning) w in
      if negb open then Some (guard_drop a r w)
      else if is_empty (task_inputs (rn_task r)) then Some (start_execution a r w)
      else Some (put_run a (set_phase RunFetching r) (call (FetchTaskInputs a) w))
  | EvFetched (Ok _), RunFetching => Some (start_execution a r w)
  | EvFetched (Err e), RunFetching =>
      Some (report a (result_failure worker_id tid EXIT_CODE_GENERAL_ERROR [] (utf8_encode (str "Fetching input files failed: " ++ e)) 0
                        (Some (str "Input files: " ++ e))) r w)
  | EvCancelled, RunFetching =>
      let '(r, reason) := cancellation r in
      match reason with
      | Some reason => Some (report a (cancelled_result worker_id tid reason) r w)
      | None => Some (put_run a r w)
      end
  | EvCancelled, RunExecuting cancelled =>
      let '(r, reason) := cancellation r in
      match reason with
      | Some reason => Some (put_run a (set_phase (RunExecuting (Some reason)) r) (call (CancelExecution a reason) w))
      | None => Some (put_run a r w)
      end
  | EvExecuted result cache, RunExecuting cancelled =>
      let used_blobs := (negb (is_empty (task_inputs (rn_task r))) || negb (is_empty (res_outputs result))) && is_ok cache in
      if is_none cancelled && negb (is_empty (res_outputs result)) && negb (rn_suppress r) then
        match cache with
        | Ok _ => Some (put_run a (set_phase (RunUploading result) r) w)
        | Err e =>
            let result := clear_outputs result in
            Some (after_upload a used_blobs
                    (set_outcome (res_exit_code result) (res_stderr result) (Some e) (res_asset_bytes result) (res_artifacts result) [] result)
                    cancelled r w)
        end
      else Some (after_upload a used_blobs result cancelled r w)
  | EvUploaded uploaded, RunUploading result =>
      Some (after_upload a true (upload_task_outputs (rn_task r) uploaded result) None r w)
  | EvCancelled, RunUploading result =>
      let '(r, reason) := cancellation r in
      match reason with
      | Some reason => Some (after_upload a true result (Some reason) r w)
      | None => Some (put_run a r w)
      end
  | EvEvicted, RunEvicting result cancelled => Some (report a (apply_cancelled cancelled result) r w)
  | EvSent open, RunSending result => Some (guard_drop a r (send open (Some a) (OutResult result) w))
  | EvAborted, p =>
      if rn_aborted r && run_live p then
        if holds_guard p then Some (guard_drop a r w) else Some (put_run a (end_run RunDone r) w)
      else None
  | EvCleaned, RunCleaning => Some (change_run (end_run RunDone) a (remove_active tid a w))
  | _, _ => None
  end.

(** ** What the session loop's handlers do *)

Definition battery_too_low (mobile : option MobileCapabilities) : bool :=
  match mobile with
  | Some m => match mob_battery_pct m, mob_is_charging m with Some pct, Some false => pct <? 15 | _, _ => false end
  | None => false
  end.

Definition MSG_CAPABILITIES : Str := str "Task requirements exceed worker capabilities (CPU, RAM, or GPU)".
Definition MSG_BATTERY : Str := str "Task rejected by worker: Critical battery preservation (<15% discharging)".

(** [seen.remove(position)] of the first occurrence. *)
Fixpoint remove_first (tid : TaskId) (l : list TaskId) : list TaskId :=
  match l with [] => [] | x :: l => if x =? tid then l else x :: remove_first tid l end.

(** [handle_assign_task_with_checkpoint] up to its first lock. *)
Definition assign_task (open : bool) (mobile : option MobileCapabilities) (t : Task) (c : option CheckpointData) (w : Worker) : Worker :=
  let refuse code stderr error := send open None (OutResult (result_failure worker_id (task_id t) code [] (utf8_encode stderr) 0 (Some error))) in
  if bool_decide (task_id t ∈ wk_unseen w) then
    refuse EXIT_CODE_CANCELLED [] (str "Cancelled before it was assigned") (set_unseen (remove_first (task_id t) (wk_unseen w)) w)
  else if negb (cap_satisfies capabilities (task_requirements t)) then
    refuse 1%Z MSG_CAPABILITIES (str "Worker capabilities insufficient for task requirements") w
  else if battery_too_low mobile then refuse 1%Z MSG_BATTERY (str "Battery critically low (<15% discharging)") w
  else set_handler (HRetire t c) w.

(** [retire_previous_run]: the entry leaves the table, then the run is stopped. *)
Definition retire_take (t : Task) (c : option CheckpointData) (w : Worker) : Worker :=
  match wk_table w !! task_id t with
  | None => set_handler (HPrepare t c) w
  | Some previous => set_handler (HRetireStop t c previous) (set_table (delete (task_id t) (wk_table w)) w)
  end.

(** [begin_stop]. *)
Definition begin_stop (reason : Str) (r : Run) : Run := signal reason (suppress r).

Definition REASON_SUPERSEDED : Str := str "superseded by a new assignment of the same task".
Definition retire_stop (t : Task) (c : option CheckpointData) (previous : N) (w : Worker) : Worker :=
  set_handler (HRetireWait t c previous) (change_run (begin_stop REASON_SUPERSEDED) previous w).

(** The wait for a join handle: over when the run's task ended, or at the deadline, which
    aborts it. *)
Definition join_wait (timed_out : bool) (a : N) (w : Worker) : option Worker :=
  if timed_out then Some (change_run abort_run a w)
  else
    match wk_runs w !! a with
    | Some r => if run_live (rn_phase r) then None else Some w
    | None => None
    end.

(** The check of the sandbox base, and the reclaim of a stale sandbox. *)
Definition prepare_sandbox (open : bool) (root : result Str unit) (t : Task) (c : option CheckpointData) (w : Worker) : Worker :=
  match root with
  | Err e =>
      set_handler HIdle
        (send open None (OutResult (result_failure worker_id (task_id t) EXIT_CODE_GENERAL_ERROR [] (utf8_encode e) 0
                                      (Some (str "Sandbox base: " ++ e)))) w)
  | Ok _ => set_handler (HLaunch t c) (call (ReclaimStaleSandbox (task_id t)) w)
  end.

(** The spawn and the insertion, under one hold of the table. *)
Definition launch (t : Task) (c : option CheckpointData) (w : Worker) : Worker :=
  let attempt := wk_next w + 1 in
  let runs := match wk_table w !! task_id t with Some old => alter drop_sender old (wk_runs w) | None => wk_runs w end in
  {| wk_table := <[task_id t := attempt]> (wk_table w); wk_runs := <[attempt := run_new t c]> runs; wk_permits := wk_permits w;
     wk_active := wk_active w; wk_next := attempt; wk_unseen := wk_unseen w; wk_out := wk_out w; wk_calls := wk_calls w;
     wk_handler := HIdle |}.

Definition remember_unseen (tid : TaskId) (seen : list TaskId) : list TaskId :=
  if bool_decide (tid ∈ seen) then seen
  else (if (CANCELLED_UNSEEN_MEMORY <=? length seen)%nat then tail seen else seen) ++ [tid].

Definition handle_cancel_task (tid : TaskId) (reason : option Str) (w : Worker) : Worker :=
  match wk_table w !! tid with
  | Some a =>
      change_run (signal (default (str "Cancelled by master directive") reason)) a (set_table (delete tid (wk_table w)) w)
  | None => set_unseen (remember_unseen tid (wk_unseen w)) w
  end.

(** [reason.to_ascii_uppercase().contains(...)]. *)
Definition is_fast_evac (reason : Str) : bool :=
  let r := to_ascii_uppercase reason in
  contains (str "EVAC") r || contains (str "BATTERY") r || contains (str "SHUTDOWN") r || contains (str "FAST") r.

(** [cancel_all_active_tasks]: the table is drained in [order], every handle is stopped,
    then the runs are aborted at once or awaited until the deadline. *)
Definition cancel_all_take (reason : Str) (order : list N) (w : Worker) : Worker :=
  if is_empty order then w else set_handler (HStopAll reason order []) (set_table ∅ w).

Definition cancel_all_stop (w : Worker) : option Worker :=
  match wk_handler w with
  | HStopAll reason (a :: todo) joins =>
      Some (set_handler (HStopAll reason todo (joins ++ [a])) (change_run (begin_stop reason) a w))
  | HStopAll reason [] joins =>
      if is_fast_evac reason then Some (set_handler HIdle (foldl (fun w a => change_run abort_run a w) w joins))
      else Some (set_handler (HDrain joins) w)
  | _ => None
  end.

Definition drain_step (timed_out : bool) (w : Worker) : option Worker :=
  match wk_handler w with
  | HDrain [] => Some (set_handler HIdle w)
  | HDrain (a :: joins) => w ← join_wait timed_out a w; Some (set_handler (HDrain joins) w)
  | _ => None
  end.

(** ** The worker's steps *)

Inductive worker_step (w : Worker) : Worker -> Prop :=
| wk_run a ev w' : run_event a ev w = Some w' -> worker_step w w'
| wk_assign open mobile t c : wk_handler w = HIdle -> worker_step w (assign_task open mobile t c w)
| wk_retire t c : wk_handler w = HRetire t c -> worker_step w (retire_take t c w)
| wk_retire_stop t c a : wk_handler w = HRetireStop t c a -> worker_step w (retire_stop t c a w)
| wk_retire_wait t c a timed_out w' : wk_handler w = HRetireWait t c a -> join_wait timed_out a w = Some w' ->
    worker_step w (set_handler (HPrepare t c) w')
| wk_prepare open root t c : wk_handler w = HPrepare t c -> worker_step w (prepare_sandbox open root t c w)
| wk_launch t c : wk_handler w = HLaunch t c -> worker_step w (launch t c w)
| wk_cancel tid reason : wk_handler w = HIdle -> worker_step w (handle_cancel_task tid reason w)
| wk_cancel_all reason order : wk_handler w = HIdle -> order ≡ₚ (map_to_list (wk_table w)).*2 -> worker_step w (cancel_all_take reason order w)
| wk_stop_next w' : cancel_all_stop w = Some w' -> worker_step w w'
| wk_drain timed_out w' : drain_step timed_out w = Some w' -> worker_step w w'.

Definition worker_reachable (permits : N) (w : Worker) : Prop := rtc worker_step (worker_new permits) w.

End worker.
