(* ===== verification/WorkerTasksInv.v ===== *)
(** * WorkerTasksInv: the invariant of a worker's runs

    The handler of the session loop and the runs interleave at their await points
    ([worker_step]).  [run_effect] summarises what a run does between two of them,
    [handler_move] what a handler does.  [table_inv] says that the table, the runs and the
    handler agree, [slots_inv] that permits and counter match the guards, [log_inv] what
    the outbound queue holds. *)

From S2P Require Import Prelude Collections RustStr Float Capabilities Placement Blob Task WorkerTasks.
Local Open Scope N_scope.

(** ** Vocabulary *)

Definition guard_count (r : Run) : N := if holds_guard (rn_phase r) then 1 else 0.
Definition guards (w : Worker) : N := map_sum guard_count (wk_runs w).

(** Phases a run with a table entry can be in. *)
Definition listed_phase (p : RunPhase) : bool :=
  match p with RunUnlisting _ | RunReporting _ | RunDone => false | _ => true end.

(** Nobody asked the run to end. *)
Definition untouched (r : Run) : Prop := rn_cancel r = ChanEmpty /\ rn_aborted r = false /\ rn_suppress r = false.

(** Runs whose handle the handler took from the table and has not stopped yet. *)
Definition holding (h : Handler) : list N :=
  match h with HRetireStop _ _ a => [a] | HStopAll _ todo _ => todo | _ => [] end.
(** Runs it stopped and waits for. *)
Definition awaiting (h : Handler) : list N :=
  match h with HRetireWait _ _ a => [a] | HStopAll _ _ joins => joins | HDrain joins => joins | _ => [] end.
(** The task a handler is about to start, its id being out of the table. *)
Definition starting (h : Handler) : option Task :=
  match h with HRetireStop t _ _ | HRetireWait t _ _ | HPrepare t _ | HLaunch t _ => Some t | _ => None end.
(** While a session ends, the table is empty. *)
Definition ending (h : Handler) : bool := match h with HStopAll _ _ _ | HDrain _ => true | _ => false end.

(** A run that was aborted, or that the Master cancelled. *)
Definition told_to_end (r : Run) : Prop := rn_aborted r = true \/ (exists s, rn_cancel r = ChanReason s) /\ rn_suppress r = false.

(** The result of a run that received a cancellation: no products. *)
Definition cancelled_shape (res : TaskResult) : Prop :=
  res_exit_code res = EXIT_CODE_CANCELLED /\ res_outputs res = [] /\ res_artifacts res = [] /\ res_asset_bytes res = None.

(** What a run knows of its cancellation agrees with the reason it received. *)
Definition taken_ok (r : Run) : Prop :=
  match rn_phase r with
  | RunQueued | RunProgress | RunFetching | RunUploading _ => rn_taken r = None
  | RunExecuting c | RunEvicting _ c => rn_taken r = c
  | RunReporting res | RunSending res => rn_taken r <> None -> cancelled_shape res
  | RunUnlisting _ | RunCleaning | RunDone => True
  end.

(** The run has not yet decided to send its result. *)
Definition undecided (p : RunPhase) : bool := match p with RunReporting _ | RunSending _ => false | _ => true end.

Definition pending_result (p : RunPhase) : option TaskResult :=
  match p with RunReporting res | RunSending res => Some res | _ => None end.

(** ** One run between two await points *)

(** What a run leaves in the outbound queue. *)
Inductive out_step (a : N) (r : Run) (w w' : Worker) : Prop :=
| out_same : wk_out w' = wk_out w -> out_step a r w w'
| out_progress u tid st : wk_out w' = wk_out w ++ [(Some a, OutProgress u tid st)] -> out_step a r w w'
| out_result res : pending_result (rn_phase r) = Some res -> wk_out w' = wk_out w ++ [(Some a, OutResult res)] -> out_step a r w w'.

Record run_effect (a : N) (r r' : Run) (w w' : Worker) : Prop := {
  re_runs : wk_runs w' = <[a := r']> (wk_runs w);
  re_task : rn_task r' = rn_task r;
  re_flags : rn_suppress r' = rn_suppress r /\ rn_aborted r' = rn_aborted r;
  re_live : run_live (rn_phase r') = true -> run_live (rn_phase r) = true;
  re_rest : wk_next w' = wk_next w /\ wk_unseen w' = wk_unseen w /\ wk_handler w' = wk_handler w;
  re_table : wk_table w' = wk_table w /\ rn_cancel r' = rn_cancel r
    \/ wk_table w !! task_id (rn_task r) = Some a /\ wk_table w' = delete (task_id (rn_task r)) (wk_table w)
       /\ (run_live (rn_phase r') = false \/ listed_phase (rn_phase r) = false);
  re_listed : listed_phase (rn_phase r) = true -> rn_cancel r = ChanEmpty -> rn_aborted r = false ->
    listed_phase (rn_phase r') = true \/ wk_table w' !! task_id (rn_task r) <> Some a;
  re_slots : guard_count r' = guard_count r /\ wk_permits w' = wk_permits w /\ wk_active w' = wk_active w
    \/ guard_count r = 0 /\ guard_count r' = 1 /\ wk_permits w = wk_permits w' + 1 /\ wk_active w' = wk_active w + 1
    \/ guard_count r = 1 /\ guard_count r' = 0 /\ wk_permits w' = wk_permits w + 1 /\ wk_active w' = wk_active w - 1;
  re_out : out_step a r w w';
  re_spent : pending_result (rn_phase r) <> None -> run_live (rn_phase r') = false;
  re_taken : taken_ok r -> taken_ok r';
  re_kept : pending_result (rn_phase r) <> None \/ run_live (rn_phase r) = false -> rn_taken r' = rn_taken r;
  re_silent : rn_suppress r = true -> undecided (rn_phase r) = true -> undecided (rn_phase r') = true
}.

(** Everything but the queue and the calls. *)
Definition same_rest (w w1 : Worker) : Prop :=
  wk_runs w1 = wk_runs w /\ wk_table w1 = wk_table w /\ wk_next w1 = wk_next w /\ wk_unseen w1 = wk_unseen w
  /\ wk_handler w1 = wk_handler w /\ wk_permits w1 = wk_permits w /\ wk_active w1 = wk_active w.

(** Everything but the receiver and the phase. *)
Definition same_run (r r1 : Run) : Prop :=
  rn_task r1 = rn_task r /\ rn_suppress r1 = rn_suppress r /\ rn_aborted r1 = rn_aborted r /\ rn_cancel r1 = rn_cancel r.

Lemma alter_Some {A} (f : A -> A) (m : gmap N A) a x : m !! a = Some x -> alter f a m = <[a := f x]> m.
Proof.
  intros Hx. apply map_eq. intros b. destruct (decide (b = a)) as [->|Hne].
  - by rewrite lookup_alter_eq, lookup_insert_eq, Hx.
  - by rewrite lookup_alter_ne, lookup_insert_ne.
Qed.

Lemma remove_active_spec tid a r w : wk_runs w !! a = Some r ->
  exists r', wk_runs (remove_active tid a w) = <[a := r']> (wk_runs w)
    /\ rn_task r' = rn_task r /\ rn_suppress r' = rn_suppress r /\ rn_aborted r' = rn_aborted r /\ rn_phase r' = rn_phase r /\ rn_taken r' = rn_taken r
    /\ (wk_table (remove_active tid a w) = wk_table w /\ rn_cancel r' = rn_cancel r /\ wk_table w !! tid <> Some a
        \/ wk_table w !! tid = Some a /\ wk_table (remove_active tid a w) = delete tid (wk_table w))
    /\ wk_permits (remove_active tid a w) = wk_permits w /\ wk_active (remove_active tid a w) = wk_active w
    /\ wk_next (remove_active tid a w) = wk_next w /\ wk_unseen (remove_active tid a w) = wk_unseen w
    /\ wk_handler (remove_active tid a w) = wk_handler w /\ wk_out (remove_active tid a w) = wk_out w.
Proof.
  intros Hr. unfold remove_active. case_bool_decide as Ht.
  - exists (drop_sender r). cbn. split; [by apply alter_Some|]. do 5 (split; [done|]). split; [by right|done].
  - exists r. rewrite insert_id by done. do 6 (split; [done|]). split; [by left|done].
Qed.

Lemma cancellation_spec r r1 reason : cancellation r = (r1, reason) ->
  same_run r r1 /\ rn_phase r1 = rn_phase r /\ rn_taken r1 = match reason with Some s => Some s | None => rn_taken r end.
Proof. unfold cancellation, same_run. destruct (rn_rx r), (rn_cancel r) eqn:Hc; intros; simplify_eq; cbn; auto. Qed.

Section worker.
Context (worker_id : Uuid) (capabilities : WorkerCapabilities).

Local Ltac effect Hp :=
  constructor; cbn; unfold guard_count, taken_ok; cbn; rewrite ?Hp; cbn; try done; try (by apply out_same); auto.

Lemma guard_drop_effect a r r1 w w1 :
  holds_guard (rn_phase r) = true -> same_run r r1 -> same_rest w w1 -> out_step a r w w1 ->
  (pending_result (rn_phase r) <> None -> rn_taken r1 = rn_taken r) ->
  run_effect a r (end_run RunCleaning r1) w (guard_drop a r1 w1).
Proof.
  intros Hg (Ht & Hs & Hab & Hc) (Hw1 & Hw2 & Hw3 & Hw4 & Hw5 & Hw6 & Hw7) Ho Htk. constructor; cbn; try done.
  - by rewrite Hw1.
  - left. by rewrite Hw2.
  - intros. by left.
  - right. right. unfold guard_count. cbn. by rewrite Hg, Hw6, Hw7.
  - destruct Ho; [by apply out_same|by eapply out_progress|by eapply out_result].
  - intros [?|Hl]; [by apply Htk|by destruct (rn_phase r)].
Qed.

Lemma put_run_effect a r r1 w w1 :
  holds_guard (rn_phase r) = true -> holds_guard (rn_phase r1) = true -> pending_result (rn_phase r) = None ->
  same_run r r1 -> same_rest w w1 -> out_step a r w w1 -> (taken_ok r -> taken_ok r1) ->
  (rn_suppress r = true -> undecided (rn_phase r1) = true) ->
  run_effect a r r1 w (put_run a r1 w1).
Proof.
  intros Hg Hg1 Hp (Ht & Hs & Hab & Hc) (Hw1 & Hw2 & Hw3 & Hw4 & Hw5 & Hw6 & Hw7) Ho Htk Hsil. constructor; cbn; try done; auto.
  - by rewrite Hw1.
  - by destruct (rn_phase r).
  - intros. left. by destruct (rn_phase r1).
  - left. unfold guard_count. by rewrite Hg, Hg1.
  - destruct Ho; [by apply out_same|by eapply out_progress|by eapply out_result].
  - rewrite Hp. intros [?|?]; [done|by destruct (rn_phase r)].
Qed.

Lemma report_effect a r r1 res w w1 :
  holds_guard (rn_phase r) = true -> pending_result (rn_phase r) = None -> same_run r r1 -> same_rest w w1 -> out_step a r w w1 ->
  (taken_ok r -> rn_taken r1 <> None -> cancelled_shape res) ->
  exists r', run_effect a r r' w (report a res r1 w1).
Proof.
  intros Hg Hp Hr Hw Ho Htk. unfold report. destruct (rn_suppress r1) eqn:Hs.
  - eexists. apply guard_drop_effect; try done.
  - eexists. apply put_run_effect; try done. destruct Hr as (_ & Hs' & _). congruence.
Qed.

Lemma apply_cancelled_shape s res : cancelled_shape (apply_cancelled (Some s) res).
Proof. unfold apply_cancelled, cancelled_shape. cbn. case (Z.eqb_spec (res_exit_code res) EXIT_CODE_CANCELLED) as [E|E]; cbn; rewrite ?E; done. Qed.

Lemma after_upload_effect a r r1 used res c w w1 :
  holds_guard (rn_phase r) = true -> pending_result (rn_phase r) = None -> same_run r r1 -> same_rest w w1 -> out_step a r w w1 ->
  (taken_ok r -> rn_taken r1 = c) ->
  exists r', run_effect a r r' w (after_upload a used res c r1 w1).
Proof.
  intros Hg Hp Hr Hw Ho Htk. unfold after_upload. cbn zeta. destruct used.
  - eexists. apply put_run_effect; try done. by destruct Ho; [apply out_same|eapply out_progress|eapply out_result].
  - apply report_effect; try done.
    + by destruct Ho; [apply out_same|eapply out_progress|eapply out_result].
    + intros Hok Hne. apply Htk in Hok. subst c. destruct (rn_taken r1); [apply apply_cancelled_shape|done].
Qed.

Lemma start_execution_effect a r w w1 :
  holds_guard (rn_phase r) = true -> pending_result (rn_phase r) = None -> same_rest w w1 -> out_step a r w w1 ->
  (taken_ok r -> rn_taken r = None) -> exists r', run_effect a r r' w (start_execution a r w1).
Proof.
  intros Hg Hp Hw Ho Htk. eexists. apply put_run_effect; try done. by destruct Ho; [apply out_same|eapply out_progress|eapply out_result].
Qed.

(** The events of a run that holds a guard. *)
Lemma guarded_event_effect a ev r w w' : wk_runs w !! a = Some r -> holds_guard (rn_phase r) = true ->
  run_event worker_id a ev w = Some w' -> exists r', run_effect a r r' w w'.
Proof.
  intros Hr Hg He. unfold run_event in He. rewrite Hr in He. cbn [mbind option_bind] in He.
  assert (Hok : forall p, rn_phase r = p -> taken_ok r -> match p with RunExecuting c | RunEvicting _ c => rn_taken r = c | RunProgress | RunFetching | RunUploading _ => rn_taken r = None | _ => True end).
  { intros p Hp Hok. unfold taken_ok in Hok. rewrite Hp in Hok. by destruct p. }
  destruct ev as [| | |o|o|[fu|fe]| |er ec|ur| |o| |], (rn_phase r) eqn:Hp; try done; specialize (Hok _ eq_refl); cbn in Hok.
  all: try match type of He with context [cancellation] => destruct (cancellation r) as [r1 [reason|]] eqn:Hcan; apply cancellation_spec in Hcan as (Hsame & Hph & Htk) end.
  all: try match type of He with context [rn_aborted _] => destruct (rn_aborted _ && _); [|done]; cbn in He; simplify_eq; eexists;
    apply guard_drop_effect; rewrite ?Hp; try done; by apply out_same end.
  - (* EvProgress *) destruct o; cbn in He; [case_match|]; simplify_eq.
    + apply start_execution_effect; rewrite ?Hp; try done. by eapply out_progress.
    + eexists. apply put_run_effect; rewrite ?Hp; try done. by eapply out_progress.
    + eexists. apply guard_drop_effect; rewrite ?Hp; try done. by apply out_same.
  - (* EvFetched *) simplify_eq. apply start_execution_effect; rewrite ?Hp; try done. by apply out_same.
  - simplify_eq. apply report_effect; rewrite ?Hp; try done; [by apply out_same|]. intros ? Hn. by rewrite Hok in Hn.
  - simplify_eq. apply report_effect; rewrite ?Hp; try done; by apply out_same.
  - simplify_eq. eexists. apply put_run_effect; rewrite ?Hph, ?Hp; try done; try (by apply out_same).
    unfold taken_ok. rewrite Hph, Hp. congruence.
  - simplify_eq. eexists. apply put_run_effect; rewrite ?Hph, ?Hp; try done; by apply out_same.
  - simplify_eq. eexists. apply put_run_effect; rewrite ?Hph, ?Hp; try done; try (by apply out_same).
    unfold taken_ok. rewrite Hph, Hp. congruence.
  - simplify_eq. apply after_upload_effect; rewrite ?Hp; try done; by apply out_same.
  - simplify_eq. eexists. apply put_run_effect; rewrite ?Hph, ?Hp; try done; try (by apply out_same).
    unfold taken_ok. rewrite Hph, Hp. congruence.
  - (* EvExecuted *) destruct cancelled as [s|]; cbn in He.
    + simplify_eq. apply after_upload_effect; rewrite ?Hp; try done; by apply out_same.
    + case_match; [destruct ec|]; simplify_eq.
      * eexists. apply put_run_effect; rewrite ?Hp; try done; by apply out_same.
      * apply after_upload_effect; rewrite ?Hp; try done; by apply out_same.
      * apply after_upload_effect; rewrite ?Hp; try done; by apply out_same.
  - simplify_eq. apply after_upload_effect; rewrite ?Hp; try done; by apply out_same.
  - simplify_eq. apply report_effect; rewrite ?Hp; try done; [by apply out_same|].
    intros Htk Hn. apply Hok in Htk. subst cancelled. destruct (rn_taken r); [apply apply_cancelled_shape|done].
  - (* EvSent *) simplify_eq. eexists. apply guard_drop_effect; rewrite ?Hp; try done; [by destruct o|].
    destruct o; [by eapply out_result; [rewrite Hp|]|by apply out_same].
Qed.

(** A run takes its own entry out of the table, and ends or goes on to report. *)
Lemma unlist_effect a r w w' : wk_runs w !! a = Some r -> holds_guard (rn_phase r) = false -> pending_result (rn_phase r) = None ->
  (w' = change_run (end_run RunDone) a (remove_active (task_id (rn_task r)) a w)
   \/ rn_suppress r = false /\ listed_phase (rn_phase r) = false /\ run_live (rn_phase r) = true
      /\ exists reason, w' = change_run (set_phase (RunReporting (cancelled_result worker_id (task_id (rn_task r)) reason))) a
                               (remove_active (task_id (rn_task r)) a w)) ->
  exists r', run_effect a r r' w w'.
Proof.
  intros Hr Hg Hp Hw. destruct (remove_active_spec (task_id (rn_task r)) a r w Hr)
    as (r1 & Hruns & Ht & Hs & Hab & Hph & Htk & Htab & H1 & H2 & H3 & H4 & H5 & H6).
  assert (Hset : forall f, wk_runs (change_run f a (remove_active (task_id (rn_task r)) a w)) = <[a := f r1]> (wk_runs w)).
  { intros f. cbn. rewrite Hruns, (alter_Some _ _ _ r1) by apply lookup_insert_eq. by rewrite insert_insert_eq. }
  assert (Hout : wk_table (remove_active (task_id (rn_task r)) a w) !! task_id (rn_task r) <> Some a).
  { destruct Htab as [(-> & _ & ?)|(_ & ->)]; [done|]. by rewrite lookup_delete_eq. }
  assert (Hgc : guard_count r = 0) by (unfold guard_count; by rewrite Hg).
  destruct Hw as [->|(Hsup & Hl & Hlive & reason & ->)]; eexists; (constructor; [apply Hset|..]); cbn; rewrite ?Hph, ?Hp; try done; auto.
  all: try (by left); try (by apply out_same); try (intros; by right).
  all: try (left; by rewrite Hgc).
  all: try congruence.
  all: destruct Htab as [(? & ? & ?)|(? & ?)]; auto.
Qed.

(** The events of a run without one: queued, or winding up. *)
Lemma unguarded_event_effect a ev r w w' : wk_runs w !! a = Some r -> holds_guard (rn_phase r) = false ->
  run_event worker_id a ev w = Some w' -> exists r', run_effect a r r' w w'.
Proof.
  intros Hr Hg He. unfold run_event in He. rewrite Hr in He. cbn [mbind option_bind] in He.
  destruct ev as [| | |o|o|[fu|fe]| |er ec|ur| |o| |], (rn_phase r) eqn:Hp; try done.
  - (* EvPermit *) destruct (N.eqb_spec (wk_permits w) 0) as [|Hn]; simplify_eq. exists (set_phase RunProgress r).
    effect Hp. right. left. repeat split; lia.
  - (* EvQueuedCancel *) destruct (rn_cancel r) eqn:Hc; simplify_eq.
    + exists (set_phase (RunUnlisting reason) (set_received (Some reason) r)). effect Hp; [by rewrite Hc|by intros [?|?]].
    + eexists (set_phase (RunUnlisting _) (set_received (rn_taken r) r)). effect Hp. by rewrite Hc.
  - (* EvUnlist *) eapply unlist_effect; [done|..]; rewrite ?Hp; try done. destruct (rn_suppress r); simplify_eq; [by left|right].
    do 3 (split; [done|]). by exists reason.
  - (* EvReported *) simplify_eq. exists (end_run RunDone r). effect Hp; try (by destruct o).
    + left. by destruct o.
    + left. by destruct o.
    + destruct o; [apply (out_result _ _ _ _ r0); [by rewrite Hp|done]|by apply out_same].
  - (* EvAborted *) destruct (rn_aborted r) eqn:Hab; [|done]. cbn in He. simplify_eq. exists (end_run RunDone r). effect Hp. by rewrite Hab.
  - destruct (rn_aborted r) eqn:Hab; [|done]. cbn in He. simplify_eq. exists (end_run RunDone r). effect Hp.
  - destruct (rn_aborted r) eqn:Hab; [|done]. cbn in He. simplify_eq. exists (end_run RunDone r). effect Hp.
  - by destruct (rn_aborted r).
  - by destruct (rn_aborted r).
  - (* EvCleaned *) eapply unlist_effect; [done|..]; rewrite ?Hp; try done. simplify_eq. by left.
Qed.

Lemma run_event_effect a ev w w' : run_event worker_id a ev w = Some w' ->
  exists r r', wk_runs w !! a = Some r /\ run_effect a r r' w w'.
Proof.
  intros He. assert (exists r, wk_runs w !! a = Some r) as [r Hr].
  { unfold run_event in He. destruct (wk_runs w !! a) as [r|]; [by exists r|done]. }
  exists r. destruct (holds_guard (rn_phase r)) eqn:Hg.
  - destruct (guarded_event_effect a ev r w w' Hr Hg He) as [r' ?]. by exists r'.
  - destruct (unguarded_event_effect a ev r w w' Hr Hg He) as [r' ?]. by exists r'.
Qed.

(** ** The table, the runs and the handler agree *)

Record table_inv (w : Worker) : Prop := {
  ti_next : forall a r, wk_runs w !! a = Some r -> a <= wk_next w;
  ti_table : forall tid a, wk_table w !! tid = Some a ->
    exists r, wk_runs w !! a = Some r /\ task_id (rn_task r) = tid /\ untouched r /\ listed_phase (rn_phase r) = true;
  ti_hold : forall a, a ∈ holding (wk_handler w) ->
    (exists r, wk_runs w !! a = Some r /\ untouched r) /\ forall tid, wk_table w !! tid <> Some a;
  ti_nodup : NoDup (holding (wk_handler w));
  ti_starting : forall t, starting (wk_handler w) = Some t -> wk_table w !! task_id t = None;
  ti_ending : ending (wk_handler w) = true -> wk_table w = ∅;
  ti_reach : forall a r, wk_runs w !! a = Some r -> run_live (rn_phase r) = true -> rn_aborted r = false ->
    (exists s, rn_cancel r = ChanReason s)
    \/ rn_cancel r = ChanEmpty /\ (wk_table w !! task_id (rn_task r) = Some a \/ a ∈ holding (wk_handler w));
  ti_silent : forall a r, wk_runs w !! a = Some r -> run_live (rn_phase r) = true -> rn_suppress r = true ->
    rn_aborted r = true \/ a ∈ awaiting (wk_handler w);
  ti_wait : forall a, a ∈ awaiting (wk_handler w) -> exists r, wk_runs w !! a = Some r /\ rn_suppress r = true;
  ti_once : forall a b ra rb, wk_runs w !! a = Some ra -> wk_runs w !! b = Some rb -> a < b ->
    run_live (rn_phase ra) = true -> run_live (rn_phase rb) = true -> task_id (rn_task ra) = task_id (rn_task rb) -> told_to_end ra
}.

Lemma table_inv_new n : table_inv (worker_new n).
Proof. constructor; cbn; try done; [by intros ??%elem_of_nil|constructor|by intros ??%elem_of_nil]. Qed.

(** Only the runs, the table and what the handler holds matter. *)
Lemma table_inv_same w w' : table_inv w -> wk_runs w' = wk_runs w -> wk_table w' = wk_table w -> wk_next w' = wk_next w ->
  holding (wk_handler w') = holding (wk_handler w) -> (forall a, a ∈ awaiting (wk_handler w) <-> a ∈ awaiting (wk_handler w')) ->
  (forall t, starting (wk_handler w') = Some t -> wk_table w !! task_id t = None) -> (ending (wk_handler w') = true -> wk_table w = ∅) ->
  table_inv w'.
Proof.
  intros [In It Ih Id Is Ie Ir Il Iw Io] Hr Ht Hn Hh Ha Hs He. constructor; rewrite ?Hr, ?Ht, ?Hn, ?Hh; try done.
  - intros a r Har Hlive Hsup. rewrite <-Ha. by apply (Il a r).
  - intros a. rewrite <-Ha. apply Iw.
Qed.

Lemma run_effect_table a r r' w w' : wk_runs w !! a = Some r -> run_effect a r r' w w' -> table_inv w -> table_inv w'.
Proof.
  intros Hr [Eruns Etask [Esup Eab] Elive (En & _ & Eh) Etab Elist _ _ _ _ _ _] [In It Ih Id Is Ie Ir Il Iw Io].
  assert (Hsub : forall tid b, wk_table w' !! tid = Some b -> wk_table w !! tid = Some b).
  { intros tid b Hb. destruct Etab as [(Et & _)|(_ & Et & _)]; rewrite Et in Hb; [done|by apply lookup_delete_Some in Hb as [_ ?]]. }
  assert (Huntouched : wk_table w !! task_id (rn_task r) = Some a -> untouched r /\ listed_phase (rn_phase r) = true).
  { intros Ht. destruct (It _ _ Ht) as (r1 & Hr1 & _ & Hu & Hl). by simplify_eq. }
  assert (Hnone : forall tid, wk_table w !! tid = None -> wk_table w' !! tid = None).
  { intros tid Ht. destruct (wk_table w' !! tid) as [b|] eqn:Hb; [|done]. apply Hsub in Hb. congruence. }
  assert (Hback : forall b rb, wk_runs w' !! b = Some rb -> exists rb0, wk_runs w !! b = Some rb0 /\ rn_task rb = rn_task rb0
    /\ (run_live (rn_phase rb) = true -> run_live (rn_phase rb0) = true) /\ (told_to_end rb0 -> told_to_end rb)).
  { intros b rb Hb. rewrite Eruns in Hb. destruct (decide (b = a)) as [->|]; [|rewrite lookup_insert_ne in Hb by done; by exists rb].
    rewrite lookup_insert_eq in Hb. simplify_eq. exists r. unfold told_to_end. rewrite Eab, Esup.
    destruct Etab as [(_ & ->)|(Ht & _)]; [done|]. destruct (Huntouched Ht) as [(Hc & _) _]. rewrite Hc. naive_solver. }
  constructor; rewrite ?En, ?Eh, ?Eruns; try done.
  - intros b rb Hb. destruct (decide (b = a)) as [->|]; [by apply (In a r)|]. rewrite lookup_insert_ne in Hb by done. by apply (In b rb).
  - intros tid b Hb. pose proof (Hsub _ _ Hb) as Hb0. destruct (It _ _ Hb0) as (rb & Hrb & Htb & (Hc & Hab & Hsu) & Hl).
    destruct (decide (b = a)) as [->|]; [|rewrite lookup_insert_ne by done; by exists rb].
    simplify_eq. rewrite lookup_insert_eq. exists r'. unfold untouched. rewrite Etask, Eab, Esup.
    destruct Etab as [(Et & Ec)|(_ & Et & _)]; [|rewrite Et, lookup_delete_eq in Hb; done].
    rewrite Ec. destruct (Elist Hl Hc Hab); done.
  - intros b Hb. destruct (Ih b Hb) as [(rb & Hrb & Hu) Hnt]. split; [|intros tid Ht; by apply (Hnt tid), Hsub].
    destruct (decide (b = a)) as [->|]; [|rewrite lookup_insert_ne by done; by exists rb].
    simplify_eq. rewrite lookup_insert_eq. exists r'. split; [done|]. unfold untouched. rewrite Eab, Esup.
    destruct Etab as [(_ & ->)|(Ht & _)]; [done|by destruct (Hnt (task_id (rn_task r)))].
  - intros t Ht. by apply Hnone, Is.
  - intros Hh. apply map_empty. intros tid. apply Hnone. by rewrite (Ie Hh).
  - intros b rb Hb Hlive Hab. destruct (decide (b = a)) as [->|Hne].
    + rewrite lookup_insert_eq in Hb. simplify_eq. rewrite Eab in Hab. rewrite Etask.
      destruct Etab as [(-> & ->)|(Ht & _ & Hd)]; [by apply Ir; auto|].
      destruct (Huntouched Ht) as [_ Hl]. destruct Hd; congruence.
    + rewrite lookup_insert_ne in Hb by done. destruct (Ir b rb Hb Hlive Hab) as [?|[Hc [Ht|?]]]; [by left|right|by right; auto].
      split; [done|left]. destruct Etab as [(-> & _)|(Hta & -> & _)]; [done|]. rewrite lookup_delete_ne; [done|]. intros He. rewrite He in Hta. congruence.
  - intros b rb Hb Hlive Hsu. destruct (decide (b = a)) as [->|Hne].
    + rewrite lookup_insert_eq in Hb. simplify_eq. rewrite Eab. rewrite Esup in Hsu. by apply (Il a r); auto.
    + rewrite lookup_insert_ne in Hb by done. by apply (Il b rb).
  - intros b Hb. destruct (Iw b Hb) as (rb & Hrb & Hsu). destruct (decide (b = a)) as [->|].
    + exists r'. rewrite lookup_insert_eq. split; [done|]. congruence.
    + exists rb. by rewrite lookup_insert_ne.
  - intros b c rb rc Hb Hc Hlt Hlb Hlc Htid. rewrite <-Eruns in Hb, Hc.
    destruct (Hback b rb Hb) as (rb0 & Hb0 & Htb & Hlb0 & Htold). destruct (Hback c rc Hc) as (rc0 & Hc0 & Htc & Hlc0 & _).
    apply Htold, (Io b c rb0 rc0); auto. congruence.
Qed.

(** ** What the handlers do to the agreement *)

(** A handler changes one run's flags, not its phase. *)
Lemma change_run_lookup f a w b r : wk_runs (change_run f a w) !! b = Some r ->
  exists r0, wk_runs w !! b = Some r0 /\ r = if decide (b = a) then f r0 else r0.
Proof.
  cbn. destruct (decide (b = a)) as [->|Hne].
  - rewrite lookup_alter_eq. destruct (wk_runs w !! a) as [r0|]; [|done]. intros [= <-]. by exists r0.
  - rewrite lookup_alter_ne by done. intros Hb. by exists r.
Qed.

Record flags_only (f : Run -> Run) : Prop := {
  fo_task : forall r, rn_task (f r) = rn_task r;
  fo_phase : forall r, rn_phase (f r) = rn_phase r;
  fo_reason : forall r s, rn_cancel r = ChanReason s -> rn_cancel (f r) = ChanReason s;
  fo_aborted : forall r, rn_aborted r = true -> rn_aborted (f r) = true;
  fo_suppress : forall r, rn_suppress r = true -> rn_suppress (f r) = true;
  fo_taken : forall r, rn_taken (f r) = rn_taken r
}.

Lemma signal_flags s : flags_only (signal s).
Proof. constructor; cbn; try done; intros r; destruct (rn_cancel r); rewrite ?andb_false_r; try done; by destruct (_ && _). Qed.
Lemma begin_stop_flags s : flags_only (begin_stop s).
Proof. constructor; cbn; try done; intros r; destruct (rn_cancel r); rewrite ?andb_false_r; try done; by destruct (_ && _). Qed.
Lemma abort_run_flags : flags_only abort_run.
Proof. by constructor. Qed.

(** Signalled, a run has the reason or is aborted. *)
Lemma signal_told s r : rn_aborted (signal s r) = true \/ exists s', rn_cancel (signal s r) = ChanReason s'.
Proof. cbn. destruct (rn_rx r && _); [right; by eexists|by left]. Qed.

(** Entries leave the table for the handler's hands, and at most run [a] is changed. *)
Record handler_move (f : Run -> Run) (a : N) (w w' : Worker) : Prop := {
  hm_runs : wk_runs w' = alter f a (wk_runs w);
  hm_next : wk_next w' = wk_next w;
  hm_table : forall tid b, wk_table w' !! tid = Some b -> wk_table w !! tid = Some b /\ b <> a;
  hm_hold : forall b, b ∈ holding (wk_handler w') ->
    b <> a /\ (b ∈ holding (wk_handler w) \/ exists tid, wk_table w !! tid = Some b) /\ forall tid, wk_table w' !! tid <> Some b;
  hm_nodup : NoDup (holding (wk_handler w'));
  hm_starting : forall t, starting (wk_handler w') = Some t -> wk_table w' !! task_id t = None;
  hm_ending : ending (wk_handler w') = true -> wk_table w' = ∅;
  hm_reach : forall tid b, b <> a -> wk_table w !! tid = Some b -> wk_table w' !! tid = Some b \/ b ∈ holding (wk_handler w');
  hm_kept : forall b, b <> a -> b ∈ holding (wk_handler w) -> b ∈ holding (wk_handler w');
  hm_await : forall b r, b <> a -> b ∈ awaiting (wk_handler w) -> wk_runs w !! b = Some r ->
    b ∈ awaiting (wk_handler w') \/ run_live (rn_phase r) = false \/ rn_aborted r = true;
  hm_wait : forall b, b ∈ awaiting (wk_handler w') ->
    b ∈ awaiting (wk_handler w) \/ b = a /\ exists r, wk_runs w !! a = Some r /\ rn_suppress (f r) = true;
  hm_told : forall r, wk_runs w !! a = Some r -> run_live (rn_phase r) = true ->
    (rn_aborted (f r) = true \/ exists s, rn_cancel (f r) = ChanReason s)
    /\ (rn_suppress (f r) = true -> rn_aborted (f r) = true \/ a ∈ awaiting (wk_handler w'))
    /\ (told_to_end r -> told_to_end (f r))
}.

Lemma handler_move_inv f a w w' : flags_only f -> handler_move f a w w' -> table_inv w -> table_inv w'.
Proof.
  intros [Ft Fp Fr Fa Fs _] [Mr Mn Mt Mh Md Ms Me Mre Mk Mw Mwa Mto] [In It Ih Id Is Ie Ir Il Iw Io].
  assert (Hback : forall b rb, wk_runs w' !! b = Some rb -> exists r0, wk_runs w !! b = Some r0
    /\ rb = (if decide (b = a) then f r0 else r0) /\ rn_task rb = rn_task r0 /\ rn_phase rb = rn_phase r0).
  { intros b rb Hb. rewrite Mr in Hb. destruct (change_run_lookup f a w b rb Hb) as (r0 & Hr0 & ->). exists r0. case_decide; auto. }
  assert (Hother : forall b r, b <> a -> wk_runs w !! b = Some r -> wk_runs w' !! b = Some r).
  { intros b r Hne Hb. by rewrite Mr, lookup_alter_ne. }
  constructor; try done.
  - intros b rb Hb. destruct (Hback b rb Hb) as (r0 & Hr0 & _). rewrite Mn. by apply (In b r0).
  - intros tid b Hb. destruct (Mt _ _ Hb) as [Hb0 Hne]. destruct (It _ _ Hb0) as (r & Hr & ?). exists r. split; [by apply Hother|done].
  - intros b Hb. destruct (Mh b Hb) as (Hne & [Hh|[tid Ht]] & Hnt); (split; [|done]).
    + destruct (Ih b Hh) as [(r & Hr & ?) _]. exists r. split; [by apply Hother|done].
    + destruct (It _ _ Ht) as (r & Hr & _ & ? & _). exists r. split; [by apply Hother|done].
  - intros b rb Hb Hlive Hab. destruct (Hback b rb Hb) as (r0 & Hr0 & -> & Hta & Hph). rewrite Hph in Hlive. rewrite Hta. clear Hta Hph.
    destruct (decide (b = a)) as [->|Hne].
    + destruct (Mto r0 Hr0 Hlive) as ([?|?] & _); [congruence|by left].
    + destruct (Ir b r0 Hr0 Hlive Hab) as [?|[Hc [Ht|Hh]]]; [by left| |]; right; split; try done; [by apply Mre|right; by apply Mk].
  - intros b rb Hb Hlive Hsu. destruct (Hback b rb Hb) as (r0 & Hr0 & -> & Hta & Hph). rewrite Hph in Hlive. clear Hta Hph.
    destruct (decide (b = a)) as [->|Hne]; [by apply (Mto r0 Hr0 Hlive)|].
    destruct (Il b r0 Hr0 Hlive Hsu) as [?|Hw]; [by left|]. destruct (Mw b r0 Hne Hw Hr0) as [?|[?|?]]; auto; congruence.
  - intros b Hb. rewrite Mr. destruct (Mwa b Hb) as [Hw|[-> (r & Hr & Hs)]].
    + destruct (Iw b Hw) as (r & Hr & Hs). destruct (decide (b = a)) as [->|]; [|rewrite lookup_alter_ne by done; by exists r].
      exists (f r). rewrite lookup_alter_eq, Hr. auto.
    + exists (f r). by rewrite lookup_alter_eq, Hr.
  - intros b c rb rc Hb Hc Hlt Hlb Hlc Htid. destruct (Hback b rb Hb) as (rb0 & Hb0 & -> & Htb & Hpb). destruct (Hback c rc Hc) as (rc0 & Hc0 & _ & Htc & Hpc).
    assert (Htold : told_to_end rb0) by (apply (Io b c rb0 rc0); congruence).
    destruct (decide (b = a)) as [->|]; [|done]. apply (Mto rb0 Hb0); [congruence|done].
Qed.

Lemma table_inj w t1 t2 a : table_inv w -> wk_table w !! t1 = Some a -> wk_table w !! t2 = Some a -> t1 = t2.
Proof.
  intros Hi H1 H2. destruct (ti_table w Hi _ _ H1) as (r1 & Hr1 & <- & _), (ti_table w Hi _ _ H2) as (r2 & Hr2 & <- & _). by simplify_eq.
Qed.

Lemma listed_live w tid a r : table_inv w -> wk_table w !! tid = Some a -> wk_runs w !! a = Some r -> untouched r.
Proof. intros Hi Ht Hr. destruct (ti_table w Hi _ _ Ht) as (r1 & Hr1 & _ & Hu & _). by simplify_eq. Qed.

Lemma awaited_unlisted w a : table_inv w -> a ∈ awaiting (wk_handler w) -> forall tid, wk_table w !! tid <> Some a.
Proof.
  intros Hi Ha tid Ht. destruct (ti_wait w Hi a Ha) as (r & Hr & Hs). destruct (listed_live w tid a r Hi Ht Hr) as (_ & _ & Hs'). congruence.
Qed.

(** The steps that change no run. *)
Lemma handler_take_inv w w' : table_inv w -> wk_runs w' = wk_runs w -> wk_next w' = wk_next w ->
  (forall tid b, wk_table w' !! tid = Some b -> wk_table w !! tid = Some b) ->
  (forall b, b ∈ holding (wk_handler w') -> (b ∈ holding (wk_handler w) \/ exists tid, wk_table w !! tid = Some b) /\ forall tid, wk_table w' !! tid <> Some b) ->
  NoDup (holding (wk_handler w')) -> (forall t, starting (wk_handler w') = Some t -> wk_table w' !! task_id t = None) ->
  (ending (wk_handler w') = true -> wk_table w' = ∅) ->
  (forall tid b, wk_table w !! tid = Some b -> wk_table w' !! tid = Some b \/ b ∈ holding (wk_handler w')) ->
  (forall b, b ∈ holding (wk_handler w) -> b ∈ holding (wk_handler w')) ->
  (forall b r, b ∈ awaiting (wk_handler w) -> wk_runs w !! b = Some r ->
    b ∈ awaiting (wk_handler w') \/ run_live (rn_phase r) = false \/ rn_aborted r = true) ->
  (forall b, b ∈ awaiting (wk_handler w') -> b ∈ awaiting (wk_handler w)) -> table_inv w'.
Proof.
  intros Hi Hr Hn Ht Hh Hd Hs He Hre Hk Hw Hwa.
  assert (Hno : wk_runs w !! (wk_next w + 1) = None).
  { destruct (wk_runs w !! (wk_next w + 1)) as [r|] eqn:E; [|done]. apply (ti_next w Hi) in E. lia. }
  assert (Hne : forall b, b ∈ holding (wk_handler w) \/ (exists tid, wk_table w !! tid = Some b) -> b <> wk_next w + 1).
  { intros b [Hb|[tid Hb]] ->; [destruct (ti_hold w Hi _ Hb) as [(r & Hr' & _) _]|destruct (ti_table w Hi _ _ Hb) as (r & Hr' & _)]; congruence. }
  apply (handler_move_inv abort_run (wk_next w + 1) w); [apply abort_run_flags| |done]. constructor; try done.
  - apply map_eq. intros b. rewrite Hr. destruct (decide (b = wk_next w + 1)) as [->|]; [by rewrite lookup_alter_eq, Hno|by rewrite lookup_alter_ne].
  - intros tid b Hb. split; [by apply Ht|]. apply Hne. right. eauto.
  - intros b Hb. destruct (Hh b Hb) as [Hor Hnt]. auto.
  - intros tid b _. apply Hre.
  - intros b _. apply Hk.
  - intros b r _. apply Hw.
  - intros b Hb. left. by apply Hwa.
  - intros r. by rewrite Hno.
Qed.

Lemma retire_take_inv t c w : table_inv w -> wk_handler w = HRetire t c -> table_inv (retire_take t c w).
Proof.
  intros Hi Hh. unfold retire_take. destruct (wk_table w !! task_id t) as [p|] eqn:Ht.
  - apply (handler_take_inv w); cbn; rewrite ?Hh; cbn; try done.
    + intros tid b [_ ?]%lookup_delete_Some. done.
    + intros b ->%list_elem_of_singleton. split; [right; by exists (task_id t)|]. intros tid [Hne Hp]%lookup_delete_Some.
      apply Hne. by apply (table_inj w _ _ p).
    + apply NoDup_singleton.
    + intros t' [= <-]. apply lookup_delete_eq.
    + intros tid b Hb. destruct (decide (tid = task_id t)) as [->|]; [right; simplify_eq; by apply list_elem_of_singleton|left; by rewrite lookup_delete_ne].
    + by intros b ?%elem_of_nil.
    + by intros b r ?%elem_of_nil.
  - apply (table_inv_same w); cbn; rewrite ?Hh; try done. by intros t' [= <-].
Qed.

Lemma retire_stop_inv t c a w : table_inv w -> wk_handler w = HRetireStop t c a -> table_inv (retire_stop t c a w).
Proof.
  intros Hi Hh. assert (Hhold : a ∈ holding (wk_handler w)) by (rewrite Hh; by apply list_elem_of_singleton).
  destruct (ti_hold w Hi a Hhold) as [(r & Hr & Hu) Hnt].
  apply (handler_move_inv (begin_stop REASON_SUPERSEDED) a w); [apply begin_stop_flags| |done].
  constructor; cbn; rewrite ?Hh; cbn; try done.
  - intros tid b Hb. split; [done|]. intros ->. by destruct (Hnt tid).
  - by intros b ?%elem_of_nil.
  - constructor.
  - intros t' [= <-]. apply (ti_starting w Hi). by rewrite Hh.
  - intros tid b _ Hb. by left.
  - intros b Hne ->%list_elem_of_singleton. done.
  - by intros b r0 _ ?%elem_of_nil.
  - intros b ->%list_elem_of_singleton. right. split; [done|]. exists r. done.
  - intros r0 Hr0 _. simplify_eq. destruct Hu as (Hc & Hab & Hsu). split; [apply (signal_told REASON_SUPERSEDED (suppress r))|]. split.
    + intros _. right. by apply list_elem_of_singleton.
    + intros [?|[[s Hs] _]]; congruence.
Qed.

Lemma join_wait_inv timed_out a h w w1 : table_inv w -> join_wait timed_out a w = Some w1 -> a ∈ awaiting (wk_handler w) ->
  holding (wk_handler w) = [] -> holding h = [] -> starting h = starting (wk_handler w) -> (ending h = true -> ending (wk_handler w) = true) ->
  (forall b, b <> a -> b ∈ awaiting (wk_handler w) -> b ∈ awaiting h) -> (forall b, b ∈ awaiting h -> b ∈ awaiting (wk_handler w)) ->
  table_inv (set_handler h w1).
Proof.
  intros Hi Hj Ha Hh0 Hh1 Hst He Hk Hb. unfold join_wait in Hj. destruct timed_out; simplify_eq.
  - apply (handler_move_inv abort_run a w); [apply abort_run_flags| |done]. constructor; cbn; rewrite ?Hh0, ?Hh1, ?Hst; cbn; try done.
    + intros tid b Ht. split; [done|]. intros ->. by destruct (awaited_unlisted w a Hi Ha tid).
    + by intros b ?%elem_of_nil.
    + constructor.
    + apply (ti_starting w Hi).
    + intros Hen. by apply (ti_ending w Hi), He.
    + intros tid b _ Ht. by left.
    + intros b r Hne Hw _. left. by apply Hk.
    + intros b Hw. left. by apply Hb.
    + intros r Hr Hl. unfold told_to_end. cbn. auto.
  - destruct (wk_runs w !! a) as [r|] eqn:Hr; [|done]. destruct (run_live (rn_phase r)) eqn:Hl; simplify_eq.
    apply (handler_take_inv w1); cbn; rewrite ?Hh0, ?Hh1, ?Hst; cbn; try done.
    + by intros b ?%elem_of_nil.
    + constructor.
    + apply (ti_starting w1 Hi).
    + intros Hen. by apply (ti_ending w1 Hi), He.
    + intros tid b Ht. by left.
    + intros b r0 Hw Hr0. destruct (decide (b = a)) as [->|]; [right; left; congruence|left; by apply Hk].
Qed.

Lemma launch_inv t c w : table_inv w -> wk_handler w = HLaunch t c -> table_inv (launch t c w).
Proof.
  intros Hi Hh. assert (Hnone : wk_table w !! task_id t = None) by (apply (ti_starting w Hi); by rewrite Hh).
  assert (Hfresh : forall b r, wk_runs w !! b = Some r -> b <> wk_next w + 1).
  { intros b r Hb ->. apply (ti_next w Hi) in Hb. lia. }
  assert (Hold : forall b r, wk_runs w !! b = Some r -> wk_runs (launch t c w) !! b = Some r).
  { intros b r Hb. unfold launch. cbn. rewrite Hnone, lookup_insert_ne; [done|]. symmetry. by eapply Hfresh. }
  assert (Hnew : forall b r, wk_runs (launch t c w) !! b = Some r -> b = wk_next w + 1 /\ r = run_new t c \/ wk_runs w !! b = Some r).
  { intros b r. unfold launch. cbn. rewrite Hnone. intros [(<- & <-)|[_ ?]]%lookup_insert_Some; auto. }
  assert (Htell : forall b r, wk_runs w !! b = Some r -> run_live (rn_phase r) = true -> task_id (rn_task r) = task_id t -> told_to_end r).
  { intros b r Hb Hl Ht. destruct (rn_aborted r) eqn:Hab; [by left|].
    destruct (ti_reach w Hi b r Hb Hl Hab) as [Hs|[_ [Hx|Hx]]]; [|congruence|rewrite Hh in Hx; by apply elem_of_nil in Hx].
    right. split; [done|]. destruct (rn_suppress r) eqn:Hsu; [|done].
    destruct (ti_silent w Hi b r Hb Hl Hsu) as [?|Hx]; [congruence|rewrite Hh in Hx; by apply elem_of_nil in Hx]. }
  constructor.
  - intros b r [(-> & _)|Hb]%Hnew; cbn; [lia|]. apply (ti_next w Hi) in Hb. lia.
  - intros tid b. cbn [launch wk_table]. intros [(<- & <-)|[Hne Hb]]%lookup_insert_Some.
    + exists (run_new t c). split; [apply lookup_insert_eq|]. done.
    + destruct (ti_table w Hi _ _ Hb) as (r & Hr & ?). exists r. split; [by apply Hold|done].
  - by intros b ?%elem_of_nil.
  - constructor.
  - done.
  - done.
  - intros b r [(-> & ->)|Hb]%Hnew Hl Hab; [right; split; [done|left; apply lookup_insert_eq]|].
    destruct (ti_reach w Hi b r Hb Hl Hab) as [?|[Hc [Ht|Hx]]]; [by left| |rewrite Hh in Hx; by apply elem_of_nil in Hx].
    right. split; [done|left]. cbn. rewrite lookup_insert_ne; [done|]. intros He. rewrite <-He in Ht. congruence.
  - intros b r [(-> & ->)|Hb]%Hnew Hl Hs; [done|]. left.
    destruct (ti_silent w Hi b r Hb Hl Hs) as [?|Hx]; [done|rewrite Hh in Hx; by apply elem_of_nil in Hx].
  - by intros b ?%elem_of_nil.
  - intros a b ra rb [(-> & ->)|Ha]%Hnew Hb Hlt Hla Hlb Htid.
    + apply Hnew in Hb as [(-> & _)|Hb]; [lia|]. apply (ti_next w Hi) in Hb. lia.
    + apply Hnew in Hb as [(-> & ->)|Hb]; [by eapply Htell|]. by apply (ti_once w Hi a b ra rb).
Qed.

Lemma handle_cancel_inv tid reason w : table_inv w -> wk_handler w = HIdle -> table_inv (handle_cancel_task tid reason w).
Proof.
  intros Hi Hh. unfold handle_cancel_task. destruct (wk_table w !! tid) as [a|] eqn:Ht; [|by apply (table_inv_same w); cbn; rewrite ?Hh].
  destruct (ti_table w Hi _ _ Ht) as (r & Hr & _ & Hu & _).
  eapply (handler_move_inv (signal _) a w); [apply signal_flags| |done]. constructor; cbn; rewrite ?Hh; cbn; try done.
  - intros tid' b [Hne Hb]%lookup_delete_Some. split; [done|]. intros ->. apply Hne. by apply (table_inj w _ _ a).
  - by intros b ?%elem_of_nil.
  - constructor.
  - intros tid' b Hne Hb. left. rewrite lookup_delete_ne; [done|]. congruence.
  - by intros b r0 _ ?%elem_of_nil.
  - by intros b ?%elem_of_nil.
  - intros r0 Hr0 _. simplify_eq. destruct Hu as (Hc & Hab & Hsu). split; [apply (signal_told _ r)|]. cbn. split; [congruence|].
    intros [?|[[s Hs] _]]; congruence.
Qed.

Lemma elem_of_order w order b : order ≡ₚ (map_to_list (wk_table w)).*2 -> b ∈ order <-> exists tid, wk_table w !! tid = Some b.
Proof.
  intros Hp. rewrite Hp, list_elem_of_fmap. split.
  - intros ([tid x] & -> & Hx%elem_of_map_to_list). by exists tid.
  - intros [tid Ht]. exists (tid, b). split; [done|]. by apply elem_of_map_to_list.
Qed.

Lemma order_nodup w order : table_inv w -> order ≡ₚ (map_to_list (wk_table w)).*2 -> NoDup order.
Proof.
  intros Hi ->. apply NoDup_fmap_2_strong; [|apply NoDup_map_to_list].
  intros [t1 a1] [t2 a2] Ht1%elem_of_map_to_list Ht2%elem_of_map_to_list Heq. cbn in Heq. subst a2. f_equal. by apply (table_inj w _ _ a1).
Qed.

Lemma cancel_all_take_inv reason order w : table_inv w -> wk_handler w = HIdle -> order ≡ₚ (map_to_list (wk_table w)).*2 ->
  table_inv (cancel_all_take reason order w).
Proof.
  intros Hi Hh Hp. unfold cancel_all_take. destruct (is_empty order); [done|].
  apply (handler_take_inv w); cbn; rewrite ?Hh; cbn; try done.
  - intros b Hb. split; [right; by apply (elem_of_order w order)|done].
  - by eapply order_nodup.
  - intros tid b Hb. right. apply (elem_of_order w order); eauto.
  - by intros b ?%elem_of_nil.
  - by intros b r ?%elem_of_nil.
Qed.

Lemma stop_next_inv reason a todo joins w : table_inv w -> wk_handler w = HStopAll reason (a :: todo) joins ->
  table_inv (set_handler (HStopAll reason todo (joins ++ [a])) (change_run (begin_stop reason) a w)).
Proof.
  intros Hi Hh. assert (Hhold : a ∈ holding (wk_handler w)) by (rewrite Hh; left).
  destruct (ti_hold w Hi a Hhold) as [(r & Hr & Hu) Hnt]. pose proof (ti_ending w Hi) as He. rewrite Hh in He. specialize (He eq_refl).
  pose proof (ti_nodup w Hi) as Hd. rewrite Hh in Hd. apply NoDup_cons in Hd as [Hnin Hd].
  apply (handler_move_inv (begin_stop reason) a w); [apply begin_stop_flags| |done]. constructor; cbn; rewrite ?Hh, ?He; cbn; try done.
  - intros b Hb. split; [by intros ->|]. split; [left; by right|done].
  - intros b Hne [?|?]%elem_of_cons; done.
  - intros b r0 Hne Hb _. left. apply elem_of_app. by left.
  - intros b [?| ->%list_elem_of_singleton]%elem_of_app; [by left|]. right. split; [done|]. by exists r.
  - intros r0 Hr0 _. simplify_eq. destruct Hu as (Hc & Hab & Hsu). split; [apply (signal_told reason (suppress r))|]. split.
    + intros _. right. apply elem_of_app. right. by apply list_elem_of_singleton.
    + intros [?|[[s Hs] _]]; congruence.
Qed.

(** Aborting every run that was stopped. *)
Lemma abort_all_spec reason joins todo w : table_inv w -> wk_handler w = HStopAll reason [] joins -> (forall b, b ∈ todo -> b ∈ joins) ->
  let w' := foldl (fun w a => change_run abort_run a w) w todo in
  table_inv w' /\ wk_handler w' = wk_handler w
  /\ (forall b r, wk_runs w' !! b = Some r -> b ∈ todo \/ (exists r0, wk_runs w !! b = Some r0 /\ rn_aborted r0 = true) -> rn_aborted r = true).
Proof.
  revert w. induction todo as [|a todo IH]; intros w Hi Hh Hsub; cbn.
  { split; [done|]. split; [done|]. intros b r Hb [?%elem_of_nil|(r0 & Hr0 & ?)]; [done|congruence]. }
  assert (Ha : a ∈ awaiting (wk_handler w)) by (rewrite Hh; apply Hsub; left).
  assert (Hi1 : table_inv (change_run abort_run a w)).
  { apply (handler_move_inv abort_run a w); [apply abort_run_flags| |done]. pose proof (ti_ending w Hi) as He. rewrite Hh in He. specialize (He eq_refl).
    constructor; cbn; rewrite ?Hh, ?He; cbn; try done; auto; [by intros b ?%elem_of_nil|constructor|].
    intros r Hr Hl. unfold told_to_end. cbn. auto. }
  destruct (IH (change_run abort_run a w) Hi1 Hh) as (Hi2 & Hh2 & Hab).
  { intros b Hb. apply Hsub. by right. }
  split; [done|]. split; [done|]. intros b r Hb Hor. apply (Hab b r Hb).
  destruct (decide (b ∈ todo)) as [|Hnt]; [by left|right]. cbn. destruct (decide (b = a)) as [->|Hne].
  - destruct (ti_wait w Hi a Ha) as (r0 & Hr0 & _). exists (abort_run r0). by rewrite lookup_alter_eq, Hr0.
  - rewrite lookup_alter_ne by done. destruct Hor as [[?|?]%elem_of_cons|?]; done.
Qed.

Lemma cancel_all_stop_inv w w' : table_inv w -> cancel_all_stop w = Some w' -> table_inv w'.
Proof.
  intros Hi Hs. unfold cancel_all_stop in Hs. destruct (wk_handler w) as [| | | | | |reason todo joins|] eqn:Hh; try done.
  destruct todo as [|a todo]; [|simplify_eq; by apply stop_next_inv].
  pose proof (ti_ending w Hi) as He. rewrite Hh in He. specialize (He eq_refl).
  destruct (is_fast_evac reason); simplify_eq.
  - destruct (abort_all_spec reason joins joins w Hi Hh (fun _ H => H)) as (Hi2 & Hh2 & Hab).
    apply (handler_take_inv _ _ Hi2); cbn; rewrite ?Hh2, ?Hh; cbn; try done; [by intros b ?%elem_of_nil|constructor|by left| |by intros b ?%elem_of_nil].
    intros b r Hb Hr. right. right. apply (Hab b r Hr). by left.
  - apply (table_inv_same w); cbn; rewrite ?Hh; done.
Qed.

Lemma drain_step_inv timed_out w w' : table_inv w -> drain_step timed_out w = Some w' -> table_inv w'.
Proof.
  intros Hi Hs. unfold drain_step in Hs. destruct (wk_handler w) as [| | | | | | |[|a joins]] eqn:Hh; try done; simplify_eq.
  - apply (table_inv_same w); cbn; rewrite ?Hh; done.
  - destruct (join_wait timed_out a w) as [w1|] eqn:Hj; [|done]. cbn in Hs. simplify_eq.
    apply (join_wait_inv timed_out a _ w w1); rewrite ?Hh; cbn; try done; [by left| |by right]. intros b Hne [?|?]%elem_of_cons; done.
Qed.

Lemma worker_step_table w w' : table_inv w -> worker_step worker_id capabilities w w' -> table_inv w'.
Proof.
  intros Hi Hs. destruct Hs as [a ev w' He|open mobile t c Hh|t c Hh|t c a Hh|t c a tm w' Hh Hj|open root t c Hh|t c Hh|tid reason Hh|reason order Hh Hp|w' Hs|tm w' Hs].
  - destruct (run_event_effect a ev w w' He) as (r & r' & Hr & Heff). by eapply run_effect_table.
  - unfold assign_task. destruct open; repeat case_match; apply (table_inv_same w); cbn; rewrite ?Hh; done.
  - by apply retire_take_inv.
  - by apply retire_stop_inv.
  - apply (join_wait_inv tm a _ w w'); rewrite ?Hh; cbn; try done; [by left| |by intros b ?%elem_of_nil].
    intros b Hne ->%list_elem_of_singleton. done.
  - pose proof (ti_starting w Hi) as Hst. rewrite Hh in Hst. unfold prepare_sandbox. destruct root, open; apply (table_inv_same w); cbn; rewrite ?Hh; done.
  - by apply launch_inv.
  - by apply handle_cancel_inv.
  - by apply cancel_all_take_inv.
  - by eapply cancel_all_stop_inv.
  - by eapply drain_step_inv.
Qed.

Lemma reachable_table n w : worker_reachable worker_id capabilities n w -> table_inv w.
Proof. apply (rtc_ind_r table_inv); [apply table_inv_new|]. intros w1 w2 _ Hs Hi. by eapply worker_step_table. Qed.

(** ** Slots and reports *)

(** A step of the handler that starts no run: phases stay, and at most a refusal is sent. *)
Record quiet (w w' : Worker) : Prop := {
  qu_slots : wk_permits w' = wk_permits w /\ wk_active w' = wk_active w;
  qu_out : wk_out w' = wk_out w \/ exists o, wk_out w' = wk_out w ++ [(None, o)];
  qu_back : forall b r', wk_runs w' !! b = Some r' -> exists r, wk_runs w !! b = Some r
    /\ rn_phase r' = rn_phase r /\ rn_taken r' = rn_taken r /\ (rn_suppress r = true -> rn_suppress r' = true);
  qu_forth : forall b r, wk_runs w !! b = Some r -> is_Some (wk_runs w' !! b)
}.

Lemma quiet_same w w' : wk_runs w' = wk_runs w -> wk_permits w' = wk_permits w -> wk_active w' = wk_active w ->
  (wk_out w' = wk_out w \/ exists o, wk_out w' = wk_out w ++ [(None, o)]) -> quiet w w'.
Proof. intros Hr Hp Ha Ho. constructor; rewrite ?Hr; eauto. Qed.

Lemma quiet_change f a w w' : flags_only f -> wk_runs w' = alter f a (wk_runs w) -> wk_permits w' = wk_permits w -> wk_active w' = wk_active w ->
  wk_out w' = wk_out w -> quiet w w'.
Proof.
  intros [Ft Fp Fr Fa Fs Ftk] Hr Hp Ha Ho. constructor; auto.
  - intros b r' Hb. rewrite Hr in Hb. destruct (change_run_lookup f a w b r' Hb) as (r0 & Hr0 & ->). exists r0. case_decide; auto.
  - intros b r Hb. rewrite Hr. destruct (decide (b = a)) as [->|]; [rewrite lookup_alter_eq, Hb; by eexists|by rewrite lookup_alter_ne].
Qed.

Lemma quiet_trans w1 w2 w3 : quiet w1 w2 -> wk_out w2 = wk_out w1 -> quiet w2 w3 -> quiet w1 w3.
Proof.
  intros [[Hp Ha] _ Hb Hf] Ho [[Hp' Ha'] Ho' Hb' Hf']. rewrite Ho in Ho'. constructor; rewrite ?Hp', ?Ha'; auto.
  - intros b r3 H3. destruct (Hb' b r3 H3) as (r2 & H2 & E1 & E2 & E3). destruct (Hb b r2 H2) as (r1 & H1 & E4 & E5 & E6).
    exists r1. repeat split; try congruence. auto.
  - intros b r Hr. destruct (Hf b r Hr) as [r2 H2]. by apply (Hf' b r2).
Qed.

Lemma quiet_abort_all joins w : quiet w (foldl (fun w a => change_run abort_run a w) w joins)
  /\ wk_out (foldl (fun w a => change_run abort_run a w) w joins) = wk_out w.
Proof.
  revert w. induction joins as [|a joins IH]; intros w; cbn; [split; [by apply quiet_same; auto|done]|].
  destruct (IH (change_run abort_run a w)) as [Hq Ho]. split; [|done].
  apply (quiet_trans w (change_run abort_run a w)); [apply (quiet_change abort_run a w); [apply abort_run_flags|done..]|done|done].
Qed.

Lemma quiet_join timed_out a h w w1 : join_wait timed_out a w = Some w1 -> quiet w (set_handler h w1).
Proof.
  unfold join_wait. destruct timed_out; intros Hj; simplify_eq.
  - by apply (quiet_change abort_run a); [apply abort_run_flags|..].
  - repeat case_match; simplify_eq. by apply quiet_same; auto.
Qed.

(** Every step is a run between two await points, a launch, or quiet. *)
Lemma worker_step_view w w' : table_inv w -> worker_step worker_id capabilities w w' ->
  (exists a r r', wk_runs w !! a = Some r /\ run_effect a r r' w w') \/ quiet w w'
  \/ exists t c, w' = launch t c w /\ wk_table w !! task_id t = None.
Proof.
  intros Hi Hs. destruct Hs as [a ev w' He|open mobile t c Hh|t c Hh|t c a Hh|t c a tm w' Hh Hj|open root t c Hh|t c Hh|tid reason Hh|reason order Hh Hp|w' Hs|tm w' Hs].
  1: left; destruct (run_event_effect a ev w w' He) as (r & r' & ? & ?); by exists a, r, r'.
  6: right; right; exists t, c; split; [done|]; apply (ti_starting w Hi); by rewrite Hh.
  all: right; left.
  - unfold assign_task. destruct open; repeat case_match; apply quiet_same; cbn; eauto.
  - unfold retire_take. case_match; apply quiet_same; auto.
  - by eapply quiet_change; [apply begin_stop_flags|..].
  - by eapply quiet_join.
  - unfold prepare_sandbox. destruct root, open; apply quiet_same; cbn; eauto.
  - unfold handle_cancel_task. case_match; [by eapply quiet_change; [apply signal_flags|..]|by apply quiet_same; auto].
  - unfold cancel_all_take. case_match; apply quiet_same; auto.
  - unfold cancel_all_stop in Hs. repeat case_match; simplify_eq.
    + eapply quiet_trans; [apply quiet_abort_all|apply quiet_abort_all|]. apply quiet_same; auto.
    + apply quiet_same; auto.
    + by eapply quiet_change; [apply begin_stop_flags|..].
  - unfold drain_step in Hs. repeat case_match; simplify_eq; [by apply quiet_same; auto|].
    destruct (join_wait _ _ _) eqn:Hj; [|done]. cbn in Hs. simplify_eq. by eapply quiet_join.
Qed.

Record slots_inv (n : N) (w : Worker) : Prop := {
  si_permits : wk_permits w + guards w = n;
  si_active : wk_active w = guards w
}.

Lemma quiet_guards w w' : quiet w w' -> guards w' = guards w.
Proof.
  intros [_ _ Hb Hf]. apply map_sum_agree. intros b. destruct (wk_runs w' !! b) as [r'|] eqn:E.
  - destruct (Hb b r' E) as (r & -> & Hp & _). unfold guard_count. by rewrite Hp.
  - destruct (wk_runs w !! b) as [r|] eqn:E2; [|done]. destruct (Hf b r E2) as [? ?]. congruence.
Qed.

Lemma worker_step_slots n w w' : table_inv w -> slots_inv n w -> worker_step worker_id capabilities w w' -> slots_inv n w'.
Proof.
  intros Hi [Hp Ha] Hs. destruct (worker_step_view w w' Hi Hs) as [(a & r & r' & Hr & He)|[Hq|(t & c & -> & Hn)]].
  - pose proof (map_sum_insert_Some guard_count (wk_runs w) a r r' Hr) as Hsum. fold (guards w) in Hsum.
    assert (Hg : guards w' + guard_count r = guard_count r' + guards w) by (unfold guards at 1; by rewrite (re_runs _ _ _ _ _ He)).
    destruct (re_slots _ _ _ _ _ He) as [(? & ? & ?)|[(? & ? & ? & ?)|(? & ? & ? & ?)]]; constructor; lia.
  - pose proof (quiet_guards w w' Hq). destruct (qu_slots w w' Hq). constructor; lia.
  - assert (Hg : guards (launch t c w) = guards w); [|constructor; cbn; lia].
    unfold guards, launch. cbn. rewrite Hn. rewrite map_sum_insert; [done|].
    destruct (wk_runs w !! (wk_next w + 1)) as [r|] eqn:E; [|done]. apply (ti_next w Hi) in E. lia.
Qed.

(** The results in the queue that run [a] sent. *)
Definition results_of (a : N) (out : list (option N * WorkerOut)) : list TaskResult :=
  omap (fun p => match p with (Some b, OutResult r) => if b =? a then Some r else None | _ => None end) out.

Lemma elem_of_results a out res : res ∈ results_of a out <-> (Some a, OutResult res) ∈ out.
Proof.
  unfold results_of. rewrite list_elem_of_omap. split.
  - intros ([[b|] [r|]] & Hin & Hf); simplify_eq. by destruct (N.eqb_spec b a) as [->|]; simplify_eq.
  - intros Hin. exists (Some a, OutResult res). split; [done|]. by rewrite N.eqb_refl.
Qed.

Lemma results_of_app a o1 o2 : results_of a (o1 ++ o2) = results_of a o1 ++ results_of a o2.
Proof. apply omap_app. Qed.

Lemma results_of_step a r w w' b : out_step a r w w' ->
  results_of b (wk_out w') = results_of b (wk_out w)
  \/ b = a /\ exists res, pending_result (rn_phase r) = Some res /\ results_of b (wk_out w') = results_of b (wk_out w) ++ [res].
Proof.
  intros [Ho|u tid st Ho|res Hp Ho]; rewrite Ho; [by left|left; by rewrite results_of_app, app_nil_r|].
  rewrite results_of_app. cbn. destruct (N.eqb_spec a b) as [->|Hne]; [right|left; by rewrite app_nil_r]. split; [done|]. by exists res.
Qed.

Record log_inv (w : Worker) : Prop := {
  li_taken : forall a r, wk_runs w !! a = Some r -> taken_ok r;
  li_sent : forall a res, res ∈ results_of a (wk_out w) ->
    exists r, wk_runs w !! a = Some r /\ run_live (rn_phase r) = false /\ (rn_taken r <> None -> cancelled_shape res);
  li_once : forall a, (length (results_of a (wk_out w)) <= 1)%nat
}.

Lemma taken_ok_same r r' : rn_phase r' = rn_phase r -> rn_taken r' = rn_taken r -> taken_ok r -> taken_ok r'.
Proof. unfold taken_ok. by intros -> ->. Qed.

Lemma pending_taken r res : taken_ok r -> pending_result (rn_phase r) = Some res -> rn_taken r <> None -> cancelled_shape res.
Proof. unfold taken_ok. destruct (rn_phase r); intros Hok Hp; cbn in Hp; simplify_eq; exact Hok. Qed.

Lemma pending_live p res : pending_result p = Some res -> run_live p = true.
Proof. by destruct p. Qed.

Lemma run_effect_log a r r' w w' : wk_runs w !! a = Some r -> run_effect a r r' w w' -> log_inv w -> log_inv w'.
Proof.
  intros Hr He [Ht Hs Ho]. pose proof (re_runs _ _ _ _ _ He) as Hruns. constructor.
  - intros b rb Hb. rewrite Hruns in Hb. apply lookup_insert_Some in Hb as [(<- & <-)|[_ Hb]]; [|by apply (Ht b)].
    apply (re_taken _ _ _ _ _ He), (Ht a r Hr).
  - intros b res Hres. rewrite Hruns. destruct (results_of_step a r w w' b (re_out _ _ _ _ _ He)) as [Heq|[-> (x & Hp & Heq)]]; rewrite Heq in Hres.
    + destruct (Hs b res Hres) as (rb & Hb & Hl & Htk). destruct (decide (b = a)) as [->|]; [|rewrite lookup_insert_ne by done; by exists rb].
      simplify_eq. exists r'. rewrite lookup_insert_eq, (re_kept _ _ _ _ _ He) by auto. split; [done|split; [|done]].
      destruct (run_live (rn_phase r')) eqn:E; [|done]. apply (re_live _ _ _ _ _ He) in E. congruence.
    + exists r'. rewrite lookup_insert_eq, (re_kept _ _ _ _ _ He) by (left; by rewrite Hp). split; [done|].
      split; [apply (re_spent _ _ _ _ _ He); by rewrite Hp|]. apply elem_of_app in Hres as [Hres| ->%list_elem_of_singleton].
      * destruct (Hs a res Hres) as (rb & Hb & Hl & _). simplify_eq. apply pending_live in Hp. congruence.
      * apply (pending_taken r); [by apply (Ht a)|done].
  - intros b. destruct (results_of_step a r w w' b (re_out _ _ _ _ _ He)) as [->|[-> (x & Hp & ->)]]; [apply Ho|].
    destruct (results_of a (wk_out w)) as [|y l] eqn:E; [cbn; lia|].
    destruct (Hs a y) as (rb & Hb & Hl & _); [rewrite E; left|]. simplify_eq. apply pending_live in Hp. congruence.
Qed.

Lemma quiet_results w w' a : quiet w w' -> results_of a (wk_out w') = results_of a (wk_out w).
Proof. intros [_ [->|[o ->]] _ _]; [done|]. by rewrite results_of_app, app_nil_r. Qed.

Lemma worker_step_log w w' : table_inv w -> log_inv w -> worker_step worker_id capabilities w w' -> log_inv w'.
Proof.
  intros Hi Hl Hs. destruct (worker_step_view w w' Hi Hs) as [(a & r & r' & Hr & He)|[Hq|(t & c & -> & Hn)]]; [by eapply run_effect_log| |].
  - destruct Hl as [Ht Hs' Ho]. constructor.
    + intros b rb Hb. destruct (qu_back _ _ Hq b rb Hb) as (r & Hr & Hp & Htk & _). by apply (taken_ok_same r), (Ht b).
    + intros b res. rewrite (quiet_results w w') by done. intros Hres. destruct (Hs' b res Hres) as (r & Hr & Hlv & Htk).
      destruct (qu_forth _ _ Hq b r Hr) as [r' Hr']. exists r'. destruct (qu_back _ _ Hq b r' Hr') as (r0 & Hr0 & -> & -> & _). by simplify_eq.
    + intros b. by rewrite (quiet_results w w').
  - destruct Hl as [Ht Hs' Ho]. assert (Hnew : forall b r, wk_runs (launch t c w) !! b = Some r -> r = run_new t c \/ wk_runs w !! b = Some r).
    { intros b r. unfold launch. cbn. rewrite Hn. intros [(_ & <-)|[_ ?]]%lookup_insert_Some; auto. }
    constructor; [|intros b res Hres|done].
    + intros b r [->|Hb]%Hnew; [done|by apply (Ht b)].
    + destruct (Hs' b res Hres) as (r & Hr & ?). exists r. split; [|done]. unfold launch. cbn. rewrite Hn, lookup_insert_ne; [done|].
      apply (ti_next w Hi) in Hr. lia.
Qed.

Lemma reachable_all n w : worker_reachable worker_id capabilities n w -> table_inv w /\ slots_inv n w /\ log_inv w.
Proof.
  apply (rtc_ind_r (fun w => table_inv w /\ slots_inv n w /\ log_inv w)).
  - split; [apply table_inv_new|]. split; [by constructor; cbn; unfold guards; cbn; rewrite map_sum_empty; lia|].
    constructor; cbn; [done|by intros a res ?%elem_of_nil|lia].
  - intros w1 w2 _ Hs (Hi & Hsl & Hl). split; [by eapply worker_step_table|]. split; [by eapply worker_step_slots|by eapply worker_step_log].
Qed.

End worker.
