(* ===== verification/WorkerTasksProps.v ===== *)
(** * WorkerTasksProps: what holds of a worker's runs, in every interleaving

    Slots are accounted for, every run can be cancelled, a task runs once at a time, a
    session's end leaves no run behind, and a run reports at most once, truthfully about
    its cancellation and not at all once it is silenced. *)

From S2P Require Import Prelude Collections RustStr Float Capabilities Placement Blob Task Samples WorkerTasks WorkerTasksInv.
Local Open Scope N_scope.

Section worker.
Context (worker_id : Uuid) (capabilities : WorkerCapabilities).

Local Notation reachable := (worker_reachable worker_id capabilities).
Local Notation step := (worker_step worker_id capabilities).

(** C7 Whatever interleaving the worker took, the free permits and the runs that hold a
    guard add up to the slots it started with, and the counter its heartbeats report is the
    number of those runs: it never runs more tasks than its limit, never loses a slot, and
    never reports another load than it has. *)
Theorem slots_accounted n w : reachable n w ->
  wk_permits w + guards w = n /\ wk_active w = guards w /\ wk_active w <= n.
Proof. intros Hr. destruct (reachable_all _ _ n w Hr) as (_ & [Hp Ha] & _). lia. Qed.

(** What the table says of a run that has not returned. *)
Lemma live_run_known n w a r : reachable n w -> wk_handler w = HIdle -> wk_runs w !! a = Some r -> run_live (rn_phase r) = true ->
  told_to_end r \/ untouched r /\ wk_table w !! task_id (rn_task r) = Some a.
Proof.
  intros Hr Hh Ha Hl. destruct (reachable_all _ _ n w Hr) as (Hi & _ & _). destruct (rn_aborted r) eqn:Hab; [by left; left|].
  assert (Hs : rn_suppress r = false).
  { destruct (rn_suppress r) eqn:Hs; [|done]. destruct (ti_silent w Hi a r Ha Hl Hs) as [?|Hx]; [congruence|]. rewrite Hh in Hx. by apply elem_of_nil in Hx. }
  destruct (ti_reach w Hi a r Ha Hl Hab) as [?|[Hc [Ht|Hx]]]; [by left; right|by right|]. rewrite Hh in Hx. by apply elem_of_nil in Hx.
Qed.

(** C8 A [CancelTask] reaches every run of the task it names that has not returned: whatever
    interleaving led here, after [handle_cancel_task] each of them is aborted or has a
    cancellation reason in its channel. *)
Theorem cancel_reaches n w tid reason a r : reachable n w -> wk_handler w = HIdle -> wk_runs w !! a = Some r ->
  run_live (rn_phase r) = true -> task_id (rn_task r) = tid ->
  exists r', wk_runs (handle_cancel_task tid reason w) !! a = Some r' /\ (rn_aborted r' = true \/ exists s, rn_cancel r' = ChanReason s).
Proof.
  intros Hr Hh Ha Hl <-. unfold handle_cancel_task. destruct (live_run_known n w a r Hr Hh Ha Hl) as [Htold|[_ Ht]].
  - destruct (wk_table w !! _) as [b|]; cbn; [|exists r; split; [done|]; destruct Htold as [?|[? _]]; auto].
    destruct (decide (a = b)) as [->|]; [|rewrite lookup_alter_ne by done; exists r; split; [done|]; destruct Htold as [?|[? _]]; auto].
    rewrite lookup_alter_eq, Ha. eexists. split; [done|]. destruct (signal_told (default (str "Cancelled by master directive") reason) r); auto.
  - rewrite Ht. cbn. rewrite lookup_alter_eq, Ha. eexists. split; [done|].
    destruct (signal_told (default (str "Cancelled by master directive") reason) r); auto.
Qed.

(** A task has one run at a time: when two runs of the same task have not returned, the
    older one was aborted, or the Master cancelled it. *)
Theorem one_run_per_task n w a b ra rb : reachable n w -> wk_runs w !! a = Some ra -> wk_runs w !! b = Some rb -> a < b ->
  run_live (rn_phase ra) = true -> run_live (rn_phase rb) = true -> task_id (rn_task ra) = task_id (rn_task rb) -> told_to_end ra.
Proof. intros Hr. destruct (reachable_all _ _ n w Hr) as (Hi & _ & _). by apply (ti_once w Hi). Qed.

Lemma abort_all_rest l w : let w' := foldl (fun w a => change_run abort_run a w) w l in wk_table w' = wk_table w /\ wk_unseen w' = wk_unseen w.
Proof. revert w. induction l as [|a l IH]; intros w; cbn; [done|]. apply (IH (change_run abort_run a w)). Qed.

Lemma ending_step_table w w' : table_inv w -> ending (wk_handler w) = true -> step w w' -> wk_handler w' = HIdle -> wk_table w' = ∅.
Proof.
  intros Hi He Hs Hh'. pose proof (ti_ending w Hi He) as Hempty.
  destruct Hs as [a ev w' Hev|open mobile t c Hh|t c Hh|t c a Hh|t c a tm w' Hh Hj|open root t c Hh|t c Hh|tid reason Hh|reason order Hh Hp|w' Hs|tm w' Hs].
  1: destruct (run_event_effect worker_id a ev w w' Hev) as (r & r' & _ & Heff); destruct (re_rest _ _ _ _ _ Heff) as (_ & _ & E);
     rewrite <-E, Hh' in He; done.
  1-8: rewrite Hh in He; done.
  - unfold cancel_all_stop in Hs. repeat case_match; simplify_eq; try done. cbn.
    by destruct (abort_all_rest joins w) as [-> _].
  - unfold drain_step in Hs. repeat case_match; simplify_eq; try done. destruct (join_wait _ _ _); cbn in Hs; simplify_eq; done.
Qed.

(** The end of a session leaves nothing running unnoticed: when [cancel_all_active_tasks]
    returns, the table is empty and every run that has not returned was aborted, or the
    Master had cancelled it. *)
Theorem session_end_stops_all n w w' : reachable n w -> ending (wk_handler w) = true -> step w w' -> wk_handler w' = HIdle ->
  wk_table w' = ∅ /\ forall a r, wk_runs w' !! a = Some r -> run_live (rn_phase r) = true -> told_to_end r.
Proof.
  intros Hr He Hs Hh. assert (Hr' : reachable n w') by (eapply rtc_r; [exact Hr|exact Hs]).
  destruct (reachable_all _ _ n w Hr) as (Hi & _ & _). pose proof (ending_step_table w w' Hi He Hs Hh) as Hempty. split; [done|].
  intros a r Ha Hl. destruct (live_run_known n w' a r Hr' Hh Ha Hl) as [?|[_ Ht]]; [done|]. by rewrite Hempty in Ht.
Qed.

(** A run reports at most one result, and only when it returns; if it had received a
    cancellation, the result says so: exit code 130, and neither outputs nor artifacts nor
    an asset. *)
Theorem reports_once n w a : reachable n w ->
  (length (results_of a (wk_out w)) <= 1)%nat
  /\ forall res, res ∈ results_of a (wk_out w) ->
       exists r, wk_runs w !! a = Some r /\ run_live (rn_phase r) = false /\ (rn_taken r <> None -> cancelled_shape res).
Proof. intros Hr. destruct (reachable_all _ _ n w Hr) as (_ & _ & Hl). split; [apply (li_once w Hl)|apply (li_sent w Hl)]. Qed.

Lemma silent_step w w' a r : table_inv w -> step w w' -> wk_runs w !! a = Some r -> rn_suppress r = true -> undecided (rn_phase r) = true ->
  results_of a (wk_out w') = results_of a (wk_out w)
  /\ exists r', wk_runs w' !! a = Some r' /\ rn_suppress r' = true /\ undecided (rn_phase r') = true.
Proof.
  intros Hi Hs Ha Hsu Hu. destruct (worker_step_view _ _ w w' Hi Hs) as [(b & rb & rb' & Hb & He)|[Hq|(t & c & -> & Hn)]].
  - rewrite (re_runs _ _ _ _ _ He). split.
    + destruct (results_of_step b rb w w' a (re_out _ _ _ _ _ He)) as [?|[-> (res & Hp & _)]]; [done|]. simplify_eq. by destruct (rn_phase r).
    + destruct (decide (a = b)) as [->|]; [|rewrite lookup_insert_ne by done; by exists r]. rewrite lookup_insert_eq. simplify_eq. exists rb'.
      destruct (re_flags _ _ _ _ _ He) as [-> _]. split; [done|]. split; [done|]. by apply (re_silent _ _ _ _ _ He).
  - split; [by apply quiet_results|]. destruct (qu_forth _ _ Hq a r Ha) as [r' Hr']. exists r'.
    destruct (qu_back _ _ Hq a r' Hr') as (r0 & Hr0 & -> & _ & Hsup). simplify_eq. auto.
  - split; [done|]. exists r. unfold launch. cbn. rewrite Hn, lookup_insert_ne; [done|]. apply (ti_next w Hi) in Ha. lia.
Qed.

(** A run the worker itself stops stays silent: once [suppress_result] is set on a run
    that has not yet decided to send, no later step puts a result of it in the queue.  (A
    stray exit code 130 would make the Master record the requeued task as cancelled.) *)
Theorem suppressed_stays_silent n w w' a r : reachable n w -> rtc step w w' -> wk_runs w !! a = Some r ->
  rn_suppress r = true -> undecided (rn_phase r) = true -> results_of a (wk_out w') = results_of a (wk_out w).
Proof.
  intros Hr Hs. revert r Hr. induction Hs as [w|w w1 w2 Hs _ IH]; intros r Hr Ha Hsu Hu; [done|].
  destruct (reachable_all _ _ n w Hr) as (Hi & _ & _). destruct (silent_step w w1 a r Hi Hs Ha Hsu Hu) as (Heq & r1 & Hr1 & Hs1 & Hu1).
  rewrite <-Heq. apply (IH r1); try done. by eapply rtc_r.
Qed.

(** ** Cancellations that overtake their assignment *)

Lemma remove_first_sub tid l x : x ∈ remove_first tid l -> x ∈ l.
Proof. induction l as [|y l IH]; cbn; [done|]. destruct (y =? tid); rewrite ?elem_of_cons; naive_solver. Qed.
Lemma remove_first_length tid l : (length (remove_first tid l) <= length l)%nat.
Proof. induction l as [|y l IH]; cbn; [lia|]. destruct (y =? tid); cbn; lia. Qed.
Lemma remove_first_NoDup tid l : NoDup l -> NoDup (remove_first tid l) /\ tid ∉ remove_first tid l.
Proof.
  induction l as [|y l IH]; cbn; intros Hd; [split; [done|apply not_elem_of_nil]|]. apply NoDup_cons in Hd as [Hn Hd].
  destruct (N.eqb_spec y tid) as [->|Hne]; [done|]. destruct (IH Hd) as [Hd' Hn']. split.
  - apply NoDup_cons. split; [|done]. intros Hx. by apply Hn, (remove_first_sub tid).
  - intros [?|?]%elem_of_cons; [by subst|done].
Qed.

Lemma remember_unseen_spec tid l : NoDup l -> (length l <= CANCELLED_UNSEEN_MEMORY)%nat ->
  NoDup (remember_unseen tid l) /\ (length (remember_unseen tid l) <= CANCELLED_UNSEEN_MEMORY)%nat /\ tid ∈ remember_unseen tid l.
Proof.
  intros Hd Hlen. unfold remember_unseen. case_bool_decide as Hin; [done|].
  assert (Hk : forall k, NoDup k -> (forall x, x ∈ k -> x ∈ l) -> (length k < CANCELLED_UNSEEN_MEMORY)%nat ->
    NoDup (k ++ [tid]) /\ (length (k ++ [tid]) <= CANCELLED_UNSEEN_MEMORY)%nat /\ tid ∈ k ++ [tid]).
  { intros k Hdk Hsub Hk. rewrite NoDup_app, length_app, elem_of_app, list_elem_of_singleton. split; [|cbn; split; [lia|by right]].
    split; [done|]. split; [|apply NoDup_singleton]. intros x Hx ->%list_elem_of_singleton. by apply Hin, Hsub. }
  destruct (Nat.leb_spec CANCELLED_UNSEEN_MEMORY (length l)).
  - destruct l as [|y l]; [cbn in *; unfold CANCELLED_UNSEEN_MEMORY in *; lia|]. apply NoDup_cons in Hd as [_ Hd].
    apply Hk; [done|by right|cbn in *; lia].
  - by apply Hk.
Qed.

Lemma unseen_step w w' : step w w' -> wk_unseen w' = wk_unseen w \/ exists tid, wk_unseen w' = remove_first tid (wk_unseen w) \/ wk_unseen w' = remember_unseen tid (wk_unseen w).
Proof.
  assert (Hj : forall tm a w w1, join_wait tm a w = Some w1 -> wk_unseen w1 = wk_unseen w) by (intros tm a w0 w1; unfold join_wait; intros; repeat case_match; by simplify_eq).
  intros Hs. destruct Hs as [a ev w' Hev|open mobile t c Hh|t c Hh|t c a Hh|t c a tm w' Hh Hj'|open root t c Hh|t c Hh|tid reason Hh|reason order Hh Hp|w' Hs|tm w' Hs].
  - destruct (run_event_effect worker_id a ev w w' Hev) as (r & r' & _ & Heff). left. apply (re_rest _ _ _ _ _ Heff).
  - unfold assign_task. destruct open; repeat case_match; cbn; eauto.
  - unfold retire_take. case_match; by left.
  - by left.
  - left. cbn. by eapply Hj.
  - unfold prepare_sandbox. destruct root, open; by left.
  - by left.
  - unfold handle_cancel_task. case_match; cbn; eauto.
  - unfold cancel_all_take. case_match; by left.
  - unfold cancel_all_stop in Hs. left. repeat case_match; simplify_eq; try done. by apply abort_all_rest.
  - unfold drain_step in Hs. left. repeat case_match; simplify_eq; [done|]. destruct (join_wait _ _ _) eqn:E; cbn in Hs; simplify_eq. cbn. by eapply Hj.
Qed.

Lemma reachable_unseen n w : reachable n w -> NoDup (wk_unseen w) /\ (length (wk_unseen w) <= CANCELLED_UNSEEN_MEMORY)%nat.
Proof.
  apply (rtc_ind_r (fun w => NoDup (wk_unseen w) /\ (length (wk_unseen w) <= CANCELLED_UNSEEN_MEMORY)%nat)).
  - split; [constructor|cbn; lia].
  - intros w1 w2 _ Hs [Hd Hl]. destruct (unseen_step w1 w2 Hs) as [->|[tid [->| ->]]]; [done| |].
    + split; [by apply remove_first_NoDup|]. etrans; [apply remove_first_length|done].
    + destruct (remember_unseen_spec tid _ Hd Hl) as (? & ? & _). done.
Qed.

Definition runs_only (w w' : Worker) : Prop := exists a ev, run_event worker_id a ev w = Some w'.

(** A cancellation that overtakes its assignment is honoured: when [CancelTask] names a
    task the worker does not have, and the task is then assigned, whatever the runs did in
    between, the worker reports it cancelled and starts nothing; the memory of such ids
    stays within its 256 entries. *)
Theorem overtaken_assignment_refused n w w' tid reason open mobile t c : reachable n w -> wk_handler w = HIdle -> wk_table w !! tid = None ->
  rtc runs_only (handle_cancel_task tid reason w) w' -> task_id t = tid ->
  let w'' := assign_task worker_id capabilities open mobile t c w' in
  wk_runs w'' = wk_runs w' /\ wk_table w'' = wk_table w' /\ wk_handler w'' = HIdle
  /\ wk_out w'' = wk_out w' ++ (if open then [(None, OutResult (result_failure worker_id tid EXIT_CODE_CANCELLED [] [] 0 (Some (str "Cancelled before it was assigned"))))] else [])
  /\ tid ∉ wk_unseen w'' /\ (length (wk_unseen w') <= CANCELLED_UNSEEN_MEMORY)%nat.
Proof.
  intros Hr Hh Hn Hs Htid. destruct (reachable_unseen n w Hr) as [Hd Hl]. destruct (remember_unseen_spec tid (wk_unseen w) Hd Hl) as (Hd1 & Hl1 & Hin).
  assert (Hkeep : wk_unseen w' = remember_unseen tid (wk_unseen w) /\ wk_handler w' = HIdle).
  { apply (rtc_ind_r (fun w' => wk_unseen w' = remember_unseen tid (wk_unseen w) /\ wk_handler w' = HIdle)) in Hs; [done| |].
    - unfold handle_cancel_task. by rewrite Hn.
    - intros w1 w2 _ (a & ev & Hev) [Hu Hha]. destruct (run_event_effect worker_id a ev w1 w2 Hev) as (r & r' & _ & Heff).
      destruct (re_rest _ _ _ _ _ Heff) as (_ & -> & ->). done. }
  destruct Hkeep as [Hu Hha]. unfold assign_task. rewrite Hu, Htid. rewrite bool_decide_eq_true_2 by done. cbn zeta.
  destruct (remove_first_NoDup tid _ Hd1) as [_ Hnot]. destruct open; cbn; rewrite ?app_nil_r; done.
Qed.

End worker.

(** ** Samples: one slot; task 7 runs, and is cancelled or assigned again *)

Module WorkerSamples.

Definition caps : WorkerCapabilities := {|
  cap_name := str "w"; cap_cpu_cores := 4; cap_ram_mb := 4096; cap_has_gpu := false; cap_is_simulated_gpu := false; cap_gpu_device_name := None;
  cap_tags := []; cap_mobile := None; cap_has_blender := false; cap_blender_version := None; cap_vram_mb := None; cap_has_cuda := false
|}.
Definition t7 : Task := sample_task 7.
Definition event (a : N) (ev : RunEvent) (w : Worker) : Worker := default w (run_event 70 a ev w).

Definition queued : Worker := launch t7 None (prepare_sandbox 70 true (Ok tt) t7 None (retire_take t7 None (assign_task 70 caps true None t7 None (worker_new 1)))).
Definition executing : Worker := event 1 (EvProgress true) (event 1 EvPermit queued).
Definition waiting_for_old : Worker := retire_stop t7 None 1 (retire_take t7 None (assign_task 70 caps true None t7 None executing)).
Definition superseded : Worker := launch t7 None (prepare_sandbox 70 true (Ok tt) t7 None (set_handler (HPrepare t7 None) (change_run abort_run 1 waiting_for_old))).
Definition stopped : Worker := event 1 EvAborted superseded.
Definition cancelled : Worker := event 1 EvCancelled (handle_cancel_task 7 None executing).
Definition answer : TaskResult := result_success 70 7 [104; 105] 12 false.
Definition reported : Worker := event 1 (EvSent true) (event 1 (EvExecuted answer (Ok tt)) cancelled).
Definition lost : Str := str "connection to the Master ended".
Definition stopping : Worker := cancel_all_take lost [1] executing.
Definition silenced : Worker := set_handler (HStopAll lost [] [1]) (change_run (begin_stop lost) 1 stopping).
Definition draining : Worker := set_handler (HDrain [1]) silenced.
Definition drained : Worker := set_handler (HDrain []) (change_run abort_run 1 draining).

Lemma event_step a ev w : is_none (run_event 70 a ev w) = false -> worker_step 70 caps w (event a ev w).
Proof. unfold event. destruct (run_event 70 a ev w) as [w'|] eqn:E; [|done]. intros _. by apply (wk_run _ _ w a ev). Qed.

Lemma launched w t : worker_reachable 70 caps 1 w -> wk_handler w = HPrepare t None ->
  worker_reachable 70 caps 1 (launch t None (prepare_sandbox 70 true (Ok tt) t None w)).
Proof. intros Hr Hh. eapply rtc_r; [eapply rtc_r; [exact Hr|by apply wk_prepare]|by apply wk_launch]. Qed.

Lemma executing_reachable : worker_reachable 70 caps 1 executing.
Proof.
  do 2 (eapply rtc_r; [|by apply event_step]). apply launched; [|done].
  eapply rtc_r; [eapply rtc_r; [apply rtc_refl|by apply wk_assign]|by apply wk_retire].
Qed.

Lemma waiting_reachable : worker_reachable 70 caps 1 waiting_for_old.
Proof.
  eapply rtc_r; [|by apply wk_retire_stop]. eapply rtc_r; [|by apply wk_retire]. eapply rtc_r; [exact executing_reachable|by apply wk_assign].
Qed.

Lemma superseded_reachable : worker_reachable 70 caps 1 superseded.
Proof. apply launched; [|done]. eapply rtc_r; [exact waiting_reachable|by apply (wk_retire_wait _ _ waiting_for_old t7 None 1 true)]. Qed.

Lemma reported_reachable : worker_reachable 70 caps 1 reported.
Proof. do 3 (eapply rtc_r; [|by apply event_step]). eapply rtc_r; [exact executing_reachable|by apply wk_cancel]. Qed.

Lemma drained_reachable : worker_reachable 70 caps 1 drained.
Proof.
  apply (rtc_r _ draining); [|by apply (wk_drain _ _ draining true)]. apply (rtc_r _ silenced); [|by apply wk_stop_next].
  apply (rtc_r _ stopping); [|by apply wk_stop_next]. apply (rtc_r _ executing); [exact executing_reachable|by apply wk_cancel_all].
Qed.

End WorkerSamples.
Import WorkerSamples.

Lemma slots_accounted_witness : wk_permits executing + guards executing = 1 /\ wk_active executing = guards executing /\ wk_active executing <= 1.
Proof. exact (slots_accounted 70 caps 1 executing executing_reachable). Defined.

Lemma cancel_reaches_witness : exists r', wk_runs (handle_cancel_task 7 None executing) !! 1 = Some r' /\ (rn_aborted r' = true \/ exists s, rn_cancel r' = ChanReason s).
Proof. by eapply (cancel_reaches 70 caps 1 executing 7 None 1 _ executing_reachable). Defined.

Lemma one_run_per_task_witness : exists r, wk_runs superseded !! 1 = Some r /\ told_to_end r.
Proof. eexists. split; [reflexivity|]. by eapply (one_run_per_task 70 caps 1 superseded 1 2 _ _ superseded_reachable). Defined.

Lemma session_end_stops_all_witness : wk_table (set_handler HIdle drained) = ∅
  /\ forall a r, wk_runs (set_handler HIdle drained) !! a = Some r -> run_live (rn_phase r) = true -> told_to_end r.
Proof. apply (session_end_stops_all 70 caps 1 drained _ drained_reachable); [done| |done]. by apply (wk_drain _ _ drained true). Defined.

Lemma reports_once_witness : (length (results_of 1 (wk_out reported)) <= 1)%nat
  /\ forall res, res ∈ results_of 1 (wk_out reported) ->
       exists r, wk_runs reported !! 1 = Some r /\ run_live (rn_phase r) = false /\ (rn_taken r <> None -> cancelled_shape res).
Proof. exact (reports_once 70 caps 1 reported 1 reported_reachable). Defined.

Lemma suppressed_stays_silent_witness : results_of 1 (wk_out stopped) = results_of 1 (wk_out superseded).
Proof.
  eapply (suppressed_stays_silent 70 caps 1 superseded stopped 1 _ superseded_reachable); [|reflexivity|reflexivity|reflexivity].
  apply rtc_once. by apply event_step.
Defined.

Lemma overtaken_assignment_refused_witness :
  let w' := handle_cancel_task 7 None (worker_new 1) in
  let w'' := assign_task 70 caps true None t7 None w' in
  wk_runs w'' = wk_runs w' /\ wk_table w'' = wk_table w' /\ wk_handler w'' = HIdle
  /\ wk_out w'' = wk_out w' ++ [(None, OutResult (result_failure 70 7 EXIT_CODE_CANCELLED [] [] 0 (Some (str "Cancelled before it was assigned"))))]
  /\ 7 ∉ wk_unseen w'' /\ (length (wk_unseen w') <= CANCELLED_UNSEEN_MEMORY)%nat.
Proof.
  apply (overtaken_assignment_refused 70 caps 1 (worker_new 1) (handle_cancel_task 7 None (worker_new 1)) 7 None true None t7 None);
    [apply rtc_refl|done|done|apply rtc_refl|done].
Defined.
