(* ===== verification/WorkerLane.v ===== *)
(** * WorkerLane: what a worker writes, and results too large for a frame

    Models [lane_writer], [rewrite_oversized_task_result] and [truncate_utf8_prefix] of
    [crates/worker/src/client.rs] over the message writer of [Protocol].  One round of the
    writer's loop is [lane_write]; the queues are filled by others between rounds.  How a
    message is encoded is the interface [Wire]. *)

From S2P Require Import Prelude Collections RustStr Float Capabilities Placement Blob Task Protocol BlobTransfer Arbitrage WorkerTasks.
Local Open Scope N_scope.

(** ** Messages *)

Inductive WorkerMessage :=
| WmRegister (worker_id : Uuid) (capabilities : WorkerCapabilities) (protocol_version : N) (features : ProtocolCapabilities)
| WmHeartbeat (worker_id : Uuid) (timestamp active_tasks : N) (cpu_usage_pct : f32) (ram_available_mb : N)
| WmTaskProgress (worker_id : Uuid) (tid : TaskId) (status : TaskStatus)
| WmTaskResult (r : TaskResult)
| WmCheckpoint (tid : TaskId) (sequence : N) (delta_state : Bytes)
| WmDisconnecting (worker_id : Uuid) (reason : Str)
| WmMobileTelemetry (worker_id : Uuid) (s : MobileLiveStatus)
| WmClaimMasterRole (ticket : MasterLeaseTicket)
| WmUnknownVariant (tag : N) (raw_bytes : Bytes)
| WmBlobRequest (request_id : N) (request : BlobRequest).

Definition worker_message (o : WorkerOut) : WorkerMessage :=
  match o with OutResult r => WmTaskResult r | OutProgress u tid st => WmTaskProgress u tid st end.

(** ** Cutting text at a character boundary *)

Fixpoint is_char_boundary (s : Str) (i : N) : bool :=
  if i =? 0 then true
  else match s with [] => false | c :: s => if i <? utf8_char_len c then false else is_char_boundary s (i - utf8_char_len c) end.

(** [&text[..end]]. *)
Fixpoint str_slice_to (s : Str) (end_ : N) : Str :=
  if end_ =? 0 then [] else match s with [] => [] | c :: s => c :: str_slice_to s (end_ - utf8_char_len c) end.

(** [while end > 0 && !text.is_char_boundary(end) { end -= 1 }]. *)
Fixpoint floor_boundary (s : Str) (end_ : nat) : nat :=
  match end_ with
  | O => O
  | S end' => if is_char_boundary s (N.of_nat end_) then end_ else floor_boundary s end'
  end.

Definition truncate_utf8_prefix (text : Str) (max_bytes : N) : Str :=
  if str_len text <=? max_bytes then text
  else str_slice_to text (N.of_nat (floor_boundary text (N.to_nat max_bytes))).

(** ** Results too large for a frame *)

Definition MAX_PRESERVED_ERROR_BYTES : N := 4096.

Definition dropped_parts (keep_artifacts keep_streams : bool) (r : TaskResult) : list Str :=
  let dropped :=
    (if bool_decide (is_Some (res_asset_bytes r)) then [str "asset_bytes"] else [])
    ++ (if negb keep_artifacts && negb (is_empty (res_artifacts r)) then [str "artifacts"] else [])
    ++ (if keep_streams then []
        else (if is_empty (res_stdout r) then [] else [str "stdout"]) ++ (if is_empty (res_stderr r) then [] else [str "stderr"])) in
  if is_empty dropped then [str "stdout, stderr"] else dropped.

Definition oversized_reason (size max : N) (dropped : list Str) : Str :=
  str "Task result size (" ++ show_N size ++ str " bytes) exceeds maximum frame limit (" ++ show_N max ++ str " bytes); dropped "
  ++ join_with (str ", ") dropped.

Definition combined_error (error : option Str) (reason : Str) : Str :=
  match error with
  | Some orig => if is_empty orig then reason else truncate_utf8_prefix orig MAX_PRESERVED_ERROR_BYTES ++ str "; " ++ reason
  | None => reason
  end.

Definition rewrite_build (size max : N) (r : TaskResult) (keep_artifacts keep_streams : bool) : TaskResult :=
  let exit_code := if (res_exit_code r =? 0)%Z then EXIT_CODE_GENERAL_ERROR else res_exit_code r in
  let reason := oversized_reason size max (dropped_parts keep_artifacts keep_streams r) in
  let streams :=
    if keep_streams then
      (res_stdout r,
       res_stderr r ++ (if negb (is_empty (res_stderr r)) && negb (bool_decide (last (res_stderr r) = Some NEWLINE)) then [NEWLINE] else []) ++ utf8_encode reason)
    else ([], utf8_encode reason) in {|
  res_worker_id := res_worker_id r; res_task_id := res_task_id r; res_exit_code := exit_code;
  res_stdout := streams.1; res_stderr := streams.2; res_execution_time_ms := res_execution_time_ms r;
  res_is_gpu_executed := res_is_gpu_executed r; res_device_name := res_device_name r;
  res_error := Some (combined_error (res_error r) reason); res_asset_bytes := None;
  res_artifacts := if keep_artifacts then res_artifacts r else []; res_outputs := res_outputs r
|}.

Section lane.
Context `{Aead} `{Wire WorkerMessage}.

Definition fits (max : N) (codec : WireCodec) (encrypted : bool) (m : WorkerMessage) : bool :=
  match serialize_message m codec with
  | Ok bytes => saturating_add usize_max (blen bytes) (if encrypted then AEAD_RECORD_OVERHEAD else 0) <=? max
  | Err _ => false
  end.

Definition rewrite_oversized_task_result (r : TaskResult) (size max : N) (codec : WireCodec) (encrypted : bool) : WorkerMessage :=
  let build keep_artifacts keep_streams := WmTaskResult (rewrite_build size max r keep_artifacts keep_streams) in
  if bool_decide (is_Some (res_asset_bytes r)) && fits max codec encrypted (build true true) then build true true
  else if negb (is_empty (res_artifacts r)) && fits max codec encrypted (build false true) then build false true
  else build false false.

(** ** The writer's loop *)

Inductive LaneState := LaneRunning | LaneReturned | LaneFailed (e : ProtocolError).

(** [ln_wire]: the messages whose frames were written, each with the queue it came from
    ([true] for control). *)
Record Lane := {
  ln_writer : MessageWriter;
  ln_control : list WorkerMessage;
  ln_data : list WorkerMessage;
  ln_closing : bool;
  ln_wire : list (bool * WorkerMessage);
  ln_state : LaneState
}.

Definition lane_new (w : MessageWriter) : Lane :=
  {| ln_writer := w; ln_control := []; ln_data := []; ln_closing := false; ln_wire := []; ln_state := LaneRunning |}.

Definition writer_is_encrypted (w : MessageWriter) : bool := bool_decide (is_Some (mw_aead_writer w)).

(** [writer.send_msg(&msg).await]: [io] is the outcome of the write. *)
Definition lane_send (io : option IoKind) (m : WorkerMessage) (w : MessageWriter) : option ProtocolError * MessageWriter :=
  match writer_send_msg m w with
  | (Err e, w) => (Some e, w)
  | (Ok _, w) => (PeIo <$> io, w)
  end.

(** The body of the loop for message [m] of queue [ctl]; [io'] is the outcome of writing
    the fallback. *)
Definition lane_write (io io' : option IoKind) (ctl : bool) (m : WorkerMessage) (l : Lane) : Lane :=
  let put w wire state := {| ln_writer := w; ln_control := ln_control l; ln_data := ln_data l; ln_closing := ln_closing l;
                             ln_wire := ln_wire l ++ wire; ln_state := state |} in
  match lane_send io m (ln_writer l) with
  | (None, w) => put w [(ctl, m)] LaneRunning
  | (Some (PeFrameTooLarge size max), w) =>
      match m with
      | WmTaskResult r =>
          let fallback := rewrite_oversized_task_result r size max (mw_codec w) (writer_is_encrypted w) in
          match lane_send io' fallback w with
          | (None, w) => put w [(ctl, fallback)] LaneRunning
          | (Some e, w) => put w [] (LaneFailed e)
          end
      | WmCheckpoint _ _ _ => put w [] LaneRunning
      | _ => put w [] (LaneFailed (PeFrameTooLarge size max))
      end
  | (Some e, w) => put w [] (LaneFailed e)
  end.

(** One round: the control queue first; then, unless closing, the data queue. *)
Definition lane_round (io io' : option IoKind) (l : Lane) : option Lane :=
  match ln_state l with
  | LaneRunning =>
      match ln_control l with
      | m :: control =>
          Some (lane_write io io' true m
                  {| ln_writer := ln_writer l; ln_control := control; ln_data := ln_data l; ln_closing := ln_closing l; ln_wire := ln_wire l; ln_state := ln_state l |})
      | [] =>
          if ln_closing l then
            Some {| ln_writer := ln_writer l; ln_control := []; ln_data := ln_data l; ln_closing := true; ln_wire := ln_wire l; ln_state := LaneReturned |}
          else
            match ln_data l with
            | m :: data =>
                Some (lane_write io io' false m
                        {| ln_writer := ln_writer l; ln_control := []; ln_data := data; ln_closing := false; ln_wire := ln_wire l; ln_state := ln_state l |})
            | [] => None
            end
      end
  | _ => None
  end.

(** What others do: the heartbeat task, the runs and the session's end. *)
Definition lane_push (ctl : bool) (m : WorkerMessage) (l : Lane) : Lane :=
  {| ln_writer := ln_writer l; ln_control := if ctl then ln_control l ++ [m] else ln_control l;
     ln_data := if ctl then ln_data l else ln_data l ++ [m]; ln_closing := ln_closing l; ln_wire := ln_wire l; ln_state := ln_state l |}.
Definition lane_close (l : Lane) : Lane :=
  {| ln_writer := ln_writer l; ln_control := ln_control l; ln_data := ln_data l; ln_closing := true; ln_wire := ln_wire l; ln_state := ln_state l |}.

(** A lane and what was queued on it, in order. *)
Inductive lane_step : Lane * list (bool * WorkerMessage) -> Lane * list (bool * WorkerMessage) -> Prop :=
| lane_pushes ctl m l q : lane_step (l, q) (lane_push ctl m l, q ++ [(ctl, m)])
| lane_closes l q : lane_step (l, q) (lane_close l, q)
| lane_rounds io io' l l' q : lane_round io io' l = Some l' -> lane_step (l, q) (l', q).

End lane.
