(* ===== verification/WorkerLaneProps.v ===== *)
(** * WorkerLaneProps: nothing is lost on a lane but what the code says

    The cut of a long error is the longest that fits, an oversized result becomes a failure
    of the same task that keeps what it can, and a lane writes its queues in order. *)

From S2P Require Import Prelude Collections RustStr Float Capabilities Placement Blob Task Protocol ProtocolProps BlobTransfer Arbitrage WorkerTasks WorkerLane.
Local Open Scope N_scope.

(** ** Cutting text *)

Lemma utf8_char_len_pos c : 1 <= utf8_char_len c.
Proof. unfold utf8_char_len. repeat case_match; lia. Qed.

Lemma char_boundary_spec s i : is_char_boundary s i = true <-> exists p, p `prefix_of` s /\ str_len p = i.
Proof.
  revert i. induction s as [|c s IH]; intros i; cbn; destruct (N.eqb_spec i 0) as [->|Hi].
  - split; [|done]. intros _. by exists [].
  - split; [done|]. intros (p & Hp & Hl). apply prefix_nil_inv in Hp. subst p. by destruct Hi.
  - split; [|done]. intros _. exists []. split; [apply prefix_nil|done].
  - destruct (N.ltb_spec i (utf8_char_len c)).
    + split; [done|]. intros (p & Hp & <-). destruct p as [|d p]; [done|]. apply prefix_cons_inv_1 in Hp as ->. rewrite str_len_cons in *. lia.
    + rewrite IH. split; intros (p & Hp & Hl).
      * exists (c :: p). rewrite str_len_cons. split; [by apply prefix_cons|lia].
      * destruct p as [|d p]; [by destruct Hi|]. pose proof (prefix_cons_inv_1 _ _ _ _ Hp) as ->. apply prefix_cons_inv_2 in Hp.
        rewrite str_len_cons in Hl. exists p. split; [done|lia].
Qed.

Lemma slice_prefix s p : p `prefix_of` s -> str_slice_to s (str_len p) = p.
Proof.
  revert p. induction s as [|c s IH]; intros p Hp; [by apply prefix_nil_inv in Hp as ->|].
  destruct p as [|d p]; [done|]. pose proof (prefix_cons_inv_1 _ _ _ _ Hp) as ->. apply prefix_cons_inv_2 in Hp.
  pose proof (utf8_char_len_pos c). rewrite str_len_cons. cbn [str_slice_to]. destruct (N.eqb_spec (utf8_char_len c + str_len p) 0); [lia|].
  f_equal. rewrite <-(IH p Hp) at 2. f_equal. lia.
Qed.

Lemma floor_boundary_spec s e : (floor_boundary s e <= e)%nat /\ is_char_boundary s (N.of_nat (floor_boundary s e)) = true
  /\ forall i, (i <= e)%nat -> is_char_boundary s (N.of_nat i) = true -> (i <= floor_boundary s e)%nat.
Proof.
  induction e as [|e (IH1 & IH2 & IH3)]; cbn [floor_boundary].
  - split; [lia|]. split; [|lia]. by destruct s.
  - destruct (is_char_boundary s (N.of_nat (S e))) eqn:Hb; [auto with lia|]. split; [lia|]. split; [done|].
    intros i Hi Hbi. apply IH3; [|done]. destruct (decide (i = S e)) as [->|]; [congruence|lia].
Qed.

Lemma prefix_len_order (s p q : Str) : p `prefix_of` s -> q `prefix_of` s -> str_len q <= str_len p -> q `prefix_of` p.
Proof.
  revert p q. induction s as [|c s IH]; intros p q Hp Hq Hl; [apply prefix_nil_inv in Hq as ->; apply prefix_nil|].
  destruct q as [|d q]; [apply prefix_nil|]. pose proof (prefix_cons_inv_1 _ _ _ _ Hq) as ->. apply prefix_cons_inv_2 in Hq. rewrite str_len_cons in Hl.
  destruct p as [|d p]; [pose proof (utf8_char_len_pos c); cbn in Hl; lia|]. pose proof (prefix_cons_inv_1 _ _ _ _ Hp) as ->. apply prefix_cons_inv_2 in Hp.
  rewrite str_len_cons in Hl. apply prefix_cons, IH; try done. lia.
Qed.

(** [truncate_utf8_prefix] cuts at a character boundary and loses nothing it need not:
    its result is a prefix of the text of at most [max_bytes] bytes, and every such prefix
    is a prefix of it. *)
Theorem truncate_is_longest text max_bytes :
  truncate_utf8_prefix text max_bytes `prefix_of` text /\ str_len (truncate_utf8_prefix text max_bytes) <= max_bytes
  /\ forall q, q `prefix_of` text -> str_len q <= max_bytes -> q `prefix_of` truncate_utf8_prefix text max_bytes.
Proof.
  unfold truncate_utf8_prefix. destruct (N.leb_spec (str_len text) max_bytes); [done|].
  destruct (floor_boundary_spec text (N.to_nat max_bytes)) as (Hle & Hb & Hmax).
  apply char_boundary_spec in Hb as (p & Hp & Hl). rewrite <-Hl, (slice_prefix text p Hp). split; [done|]. split; [lia|].
  intros q Hq Hql. apply (prefix_len_order text); try done. rewrite Hl.
  assert (N.to_nat (str_len q) <= floor_boundary text (N.to_nat max_bytes))%nat; [|lia].
  apply Hmax; [lia|]. rewrite N2Nat.id. apply char_boundary_spec. by exists q.
Qed.

(** ** Oversized results *)

(** What every candidate has in common. *)
Definition failed_for (size max : N) (r r' : TaskResult) : Prop :=
  res_worker_id r' = res_worker_id r /\ res_task_id r' = res_task_id r /\ is_success r' = false /\ (res_exit_code r' <> 0)%Z
  /\ (res_exit_code r <> 0 -> res_exit_code r' = res_exit_code r)%Z
  /\ res_outputs r' = res_outputs r /\ res_asset_bytes r' = None
  /\ exists reason, str_len (default [] (res_error r')) <= MAX_PRESERVED_ERROR_BYTES + 2 + str_len reason
       /\ exists dropped, dropped <> [] /\ reason = oversized_reason size max dropped.

Lemma rewrite_build_failed size max r a s : failed_for size max r (rewrite_build size max r a s).
Proof.
  assert (Hcode : (res_exit_code (rewrite_build size max r a s) <> 0)%Z).
  { cbn. destruct (Z.eqb_spec (res_exit_code r) 0); [unfold EXIT_CODE_GENERAL_ERROR; lia|done]. }
  unfold failed_for. do 2 (split; [done|]). split; [unfold is_success; by rewrite (proj2 (Z.eqb_neq _ 0) Hcode)|]. split; [done|].
  split; [intros Hn; cbn; by rewrite (proj2 (Z.eqb_neq _ 0) Hn)|]. do 2 (split; [done|]).
  exists (oversized_reason size max (dropped_parts a s r)). split.
  - change (default [] (res_error (rewrite_build size max r a s))) with (combined_error (res_error r) (oversized_reason size max (dropped_parts a s r))).
    generalize (oversized_reason size max (dropped_parts a s r)). intros reason.
    unfold combined_error. destruct (res_error r) as [orig|]; [destruct (is_empty orig)|]; try lia.
    rewrite !str_len_app. destruct (truncate_is_longest orig MAX_PRESERVED_ERROR_BYTES) as (_ & ? & _). change (str_len (str "; ")) with 2. lia.
  - eexists. split; [|done]. unfold dropped_parts. cbn zeta. match goal with |- (if is_empty ?l then _ else _) <> [] => by destruct l end.
Qed.

Section lane.
Context `{Aead} `{Wire WorkerMessage}.

(** A result too large for a frame becomes a failure of the same task and no other: it
    keeps the worker, the task, the outputs and a non-zero exit code, never reports success,
    drops the asset, and its error keeps at most 4096 bytes of the original.  The artifacts
    and the streams are kept when there was an asset to drop and the rest fits, the streams
    alone when there were artifacts to drop and the rest fits. *)
Theorem oversized_fails_its_task r size max codec encrypted :
  exists r', rewrite_oversized_task_result r size max codec encrypted = WmTaskResult r' /\ failed_for size max r r'
  /\ (is_Some (res_asset_bytes r) -> fits max codec encrypted (WmTaskResult (rewrite_build size max r true true)) = true ->
      fits max codec encrypted (WmTaskResult r') = true /\ res_artifacts r' = res_artifacts r /\ res_stdout r' = res_stdout r /\ res_stderr r `prefix_of` res_stderr r')
  /\ (res_asset_bytes r = None -> res_artifacts r <> [] -> fits max codec encrypted (WmTaskResult (rewrite_build size max r false true)) = true ->
      fits max codec encrypted (WmTaskResult r') = true /\ res_artifacts r' = [] /\ res_stdout r' = res_stdout r /\ res_stderr r `prefix_of` res_stderr r').
Proof.
  unfold rewrite_oversized_task_result. cbn zeta.
  destruct (bool_decide (is_Some (res_asset_bytes r)) && _) eqn:E1; [|destruct (negb (is_empty (res_artifacts r)) && _) eqn:E2];
    eexists; (split; [reflexivity|]); (split; [apply rewrite_build_failed|]).
  - apply andb_prop in E1 as [Ha%bool_decide_eq_true Hf]. split; [|intros Hn; destruct Ha; congruence].
    intros _ _. split; [done|]. do 2 (split; [done|]). by eapply prefix_app_r.
  - apply andb_prop in E2 as [_ Hf]. split; [intros Ha Hx; by rewrite (bool_decide_eq_true_2 _ Ha), Hx in E1|].
    intros _ _ _. split; [done|]. do 2 (split; [done|]). by eapply prefix_app_r.
  - split; [intros Ha Hx; by rewrite (bool_decide_eq_true_2 _ Ha), Hx in E1|].
    intros _ Hne Hx. rewrite Hx in E2. by destruct (res_artifacts r).
Qed.

(** ** The lane *)

(** The size a writer refuses a message for. *)
Definition oversize (codec : WireCodec) (encrypted : bool) (m : WorkerMessage) : option (N * N) :=
  match serialize_message m codec with
  | Ok bytes =>
      if encrypted && (MAX_FRAME_SIZE <? blen bytes + AEAD_RECORD_OVERHEAD) then Some (blen bytes + AEAD_RECORD_OVERHEAD, MAX_FRAME_SIZE) else None
  | Err (PeFrameTooLarge size max) => Some (size, max)
  | Err _ => None
  end.

(** What a queued message becomes on the wire. *)
Definition delivered (codec : WireCodec) (encrypted : bool) (m : WorkerMessage) : list WorkerMessage :=
  match oversize codec encrypted m with
  | None => [m]
  | Some (size, max) =>
      match m with
      | WmTaskResult r => [rewrite_oversized_task_result r size max codec encrypted]
      | _ => []
      end
  end.

Definition of_queue (ctl : bool) (l : list (bool * WorkerMessage)) : list WorkerMessage :=
  omap (fun p => if Bool.eqb p.1 ctl then Some p.2 else None) l.
Definition waiting (ctl : bool) (l : Lane) : list WorkerMessage := if ctl then ln_control l else ln_data l.

Lemma of_queue_app ctl l1 l2 : of_queue ctl (l1 ++ l2) = of_queue ctl l1 ++ of_queue ctl l2.
Proof. apply omap_app. Qed.

Lemma lane_send_spec io m w o w' : lane_send io m w = (o, w') ->
  mw_codec w' = mw_codec w /\ writer_is_encrypted w' = writer_is_encrypted w
  /\ match o with
     | Some (PeFrameTooLarge size max) => oversize (mw_codec w) (writer_is_encrypted w) m = Some (size, max)
     | Some _ => True
     | None => oversize (mw_codec w) (writer_is_encrypted w) m = None
     end.
Proof.
  unfold lane_send, writer_send_msg, oversize, writer_is_encrypted. destruct (serialize_message m (mw_codec w)) as [payload|e].
  2: { intros [= <- <-]. split; [done|]. split; [done|]. by destruct e. }
  unfold protect. destruct (mw_aead_writer w) as [aw|]; cbn.
  - unfold encrypt_frame. destruct (MAX_FRAME_SIZE <? blen payload + AEAD_RECORD_OVERHEAD) eqn:Hs; [intros [= <- <-]; done|].
    repeat case_match; intros; simplify_eq/=; try done; destruct io; done.
  - intros [= <- <-]. split; [done|]. split; [done|]. by destruct io.
Qed.

Definition lane_failed (s : LaneState) : bool := match s with LaneFailed _ => true | _ => false end.

Lemma lane_write_spec io io' ctl m l : exists ws,
  ln_control (lane_write io io' ctl m l) = ln_control l /\ ln_data (lane_write io io' ctl m l) = ln_data l
  /\ mw_codec (ln_writer (lane_write io io' ctl m l)) = mw_codec (ln_writer l)
  /\ writer_is_encrypted (ln_writer (lane_write io io' ctl m l)) = writer_is_encrypted (ln_writer l)
  /\ ln_wire (lane_write io io' ctl m l) = ln_wire l ++ ((fun m => (ctl, m)) <$> ws)
  /\ (ws = [] /\ lane_failed (ln_state (lane_write io io' ctl m l)) = true
      \/ ws = delivered (mw_codec (ln_writer l)) (writer_is_encrypted (ln_writer l)) m).
Proof.
  unfold lane_write, delivered. cbn zeta. destruct (lane_send io m (ln_writer l)) as [o w] eqn:Hs.
  destruct (lane_send_spec _ _ _ _ _ Hs) as (Hc & He & Ho). destruct o as [e|]; [|exists [m]; cbn; rewrite Hc, He, Ho; split_and!; auto].
  destruct e; try (exists []; cbn; rewrite app_nil_r; split_and!; by auto). rewrite Ho.
  destruct m; try (exists []; cbn; rewrite app_nil_r; split_and!; by auto).
  rewrite Hc, He. destruct (lane_send io' _ w) as [o' w'] eqn:Hs'. destruct (lane_send_spec _ _ _ _ _ Hs') as (Hc' & He' & _).
  destruct o'; [exists []|eexists [_]]; cbn; rewrite ?app_nil_r; (do 2 (split; [done|])); (split; [congruence|]); (split; [congruence|]); auto.
Qed.

Record lane_inv (codec : WireCodec) (encrypted : bool) (l : Lane) (q : list (bool * WorkerMessage)) : Prop := {
  la_codec : mw_codec (ln_writer l) = codec;
  la_enc : writer_is_encrypted (ln_writer l) = encrypted;
  la_queue : forall ctl, exists taken, of_queue ctl q = taken ++ waiting ctl l
    /\ of_queue ctl (ln_wire l) `prefix_of` (taken ≫= delivered codec encrypted)
    /\ (lane_failed (ln_state l) = false -> of_queue ctl (ln_wire l) = taken ≫= delivered codec encrypted)
}.

Lemma of_queue_tag ctl ctl' ws : of_queue ctl ((fun m => (ctl', m)) <$> ws) = if Bool.eqb ctl' ctl then ws else [].
Proof. induction ws as [|m ws IH]; cbn; [by case_match|]. unfold of_queue in IH. rewrite IH. by destruct (Bool.eqb ctl' ctl). Qed.

(** Message [m], taken from the queue [ctl], is written. *)
Lemma lane_write_inv codec encrypted io io' ctl m l l0 q : lane_inv codec encrypted l q -> lane_failed (ln_state l) = false ->
  ln_writer l0 = ln_writer l -> ln_wire l0 = ln_wire l -> waiting ctl l = m :: waiting ctl l0 -> waiting (negb ctl) l = waiting (negb ctl) l0 ->
  lane_inv codec encrypted (lane_write io io' ctl m l0) q.
Proof.
  intros [Hc He Hq] Hrun Hw Hwire Hm Hother. destruct (lane_write_spec io io' ctl m l0) as (ws & E1 & E2 & E3 & E4 & E5 & E6).
  constructor; [congruence|congruence|]. intros c. destruct (Hq c) as (taken & Ht & _ & Heq). specialize (Heq Hrun).
  assert (Hwait : waiting c (lane_write io io' ctl m l0) = waiting c l0) by (unfold waiting; by rewrite E1, E2).
  rewrite Hwait, E5, Hwire, of_queue_app, of_queue_tag. destruct (Bool.eqb ctl c) eqn:Hcc.
  - apply Bool.eqb_prop in Hcc. subst c. exists (taken ++ [m]). rewrite Ht, Hm, <-app_assoc. split; [done|].
    rewrite bind_app, Heq. cbn. rewrite app_nil_r, Hw, Hc, He in *.
    destruct E6 as [[-> Hf]| ->]; [rewrite app_nil_r; split; [by eexists|congruence]|done].
  - assert (c = negb ctl) as -> by (by destruct ctl, c). exists taken. rewrite <-Hother, app_nil_r, Heq. auto.
Qed.

Lemma lane_step_inv codec encrypted s s' : lane_inv codec encrypted s.1 s.2 -> lane_step s s' -> lane_inv codec encrypted s'.1 s'.2.
Proof.
  intros Hi Hs. destruct Hs as [ctl m l q|l q|io io' l l' q Hr]; cbn in *.
  - destruct Hi as [Hc He Hq]. constructor; [done|done|]. intros c. destruct (Hq c) as (taken & Ht & Hp & Heq). exists taken. split; [|done].
    rewrite of_queue_app, Ht, <-app_assoc. f_equal. unfold waiting, lane_push. by destruct ctl, c; cbn; rewrite ?app_nil_r.
  - destruct Hi as [Hc He Hq]. by constructor.
  - unfold lane_round in Hr. destruct (ln_state l) eqn:Hst; try done. assert (Hrun : lane_failed (ln_state l) = false) by (by rewrite Hst).
    destruct (ln_control l) as [|m control] eqn:Hctl.
    + destruct (ln_closing l).
      * simplify_eq. destruct Hi as [Hc He Hq]. constructor; [done|done|]. intros c. destruct (Hq c) as (taken & Ht & Hp & Heq).
        exists taken. cbn. split; [|auto]. rewrite Ht. f_equal. unfold waiting. destruct c; [by rewrite Hctl|done].
      * destruct (ln_data l) as [|m data] eqn:Hd; [done|]. simplify_eq. by eapply (lane_write_inv _ _ _ _ false m l).
    + simplify_eq. by eapply (lane_write_inv _ _ _ _ true m l).
Qed.

(** A lane loses and reorders nothing but what its writer says: however messages were
    queued while it wrote, the frames written for a queue are those of the messages taken
    from it, in order, an oversized result replaced by its failure and an oversized
    checkpoint left out; a write that fails ends the lane, and only there may the last
    message be missing. *)
Theorem lane_writes_in_order w l q ctl : rtc lane_step (lane_new w, []) (l, q) ->
  exists taken, of_queue ctl q = taken ++ waiting ctl l
  /\ of_queue ctl (ln_wire l) `prefix_of` (taken ≫= delivered (mw_codec w) (writer_is_encrypted w))
  /\ (lane_failed (ln_state l) = false -> of_queue ctl (ln_wire l) = taken ≫= delivered (mw_codec w) (writer_is_encrypted w)).
Proof.
  intros Hs. assert (Hi : lane_inv (mw_codec w) (writer_is_encrypted w) l q); [|apply (la_queue _ _ _ _ Hi)].
  change (lane_inv (mw_codec w) (writer_is_encrypted w) (l, q).1 (l, q).2).
  revert Hs. apply (rtc_ind_r (fun s => lane_inv (mw_codec w) (writer_is_encrypted w) s.1 s.2)).
  - constructor; [done|done|]. intros c. exists []. by destruct c.
  - intros s1 s2 _ Hstep Hi. by eapply lane_step_inv.
Qed.

(** A data message is started only while no control message waits, and never once the
    session is closing. *)
Lemma control_first io io' l l' m : lane_round io io' l = Some l' -> ln_wire l' = ln_wire l ++ [(false, m)] -> ln_control l = [] /\ ln_closing l = false.
Proof.
  unfold lane_round. destruct (ln_state l); try done. destruct (ln_control l) as [|c control].
  - destruct (ln_closing l); [|done]. intros [= <-]. cbn. intros Hw%(f_equal length). rewrite length_app in Hw. cbn in Hw. lia.
  - intros [= <-]. match goal with |- context [lane_write io io' true c ?l0] => destruct (lane_write_spec io io' true c l0) as (ws & _ & _ & _ & _ & -> & _) end.
    cbn. intros Hw%app_inv_head. by destruct ws.
Qed.

End lane.

(** ** A lane with an oversized checkpoint, a progress report and a farewell *)

Module LaneSamples.

Definition toy_size (m : WorkerMessage) : N := match m with WmCheckpoint _ sequence _ => sequence | _ => 8 end.
#[global] Instance toy_wire : Wire WorkerMessage := {|
  bin_size m := Some (toy_size m); bin_encode m := Some (repeat 0 (N.to_nat (toy_size m))); bin_decode _ := None;
  json_encode _ := None; json_decode _ := None; bin_fallback _ := None
|}.

Definition writer : MessageWriter := {| mw_codec := Bincode; mw_aead_writer := None |}.
Definition checkpoint : WorkerMessage := WmCheckpoint 7 MAX_FRAME_SIZE [].
Definition progress : WorkerMessage := WmTaskProgress 70 7 StRunning.
Definition farewell : WorkerMessage := WmDisconnecting 70 (str "bye").
Definition queued : list (bool * WorkerMessage) := [(false, checkpoint); (false, progress); (true, farewell)].
Definition filled : Lane := lane_push true farewell (lane_push false progress (lane_push false checkpoint (lane_new writer))).
Definition round (l : Lane) : Lane := default l (lane_round None None l).
Definition written : Lane := round (round (round filled)).

Lemma written_spec : lane_round None None filled = Some (round filled) /\ lane_round None None (round filled) = Some (round (round filled))
  /\ lane_round None None (round (round filled)) = Some written /\ ln_wire written = [(true, farewell); (false, progress)] /\ ln_state written = LaneRunning.
Proof. split_and!; vm_compute; reflexivity. Qed.

Lemma written_reachable : rtc lane_step (lane_new writer, []) (written, queued).
Proof.
  destruct written_spec as (E1 & E2 & E3 & _).
  eapply rtc_l; [exact (lane_pushes false checkpoint _ _)|]. eapply rtc_l; [exact (lane_pushes false progress _ _)|].
  eapply rtc_l; [exact (lane_pushes true farewell _ _)|]. eapply rtc_l; [exact (lane_rounds _ _ filled _ _ E1)|].
  eapply rtc_l; [exact (lane_rounds _ _ _ _ _ E2)|]. apply rtc_once. exact (lane_rounds _ _ _ _ _ E3).
Qed.

End LaneSamples.
Import LaneSamples.

Lemma lane_writes_in_order_witness : exists taken, of_queue false queued = taken ++ waiting false written
  /\ of_queue false (ln_wire written) `prefix_of` (taken ≫= delivered Bincode false)
  /\ (lane_failed (ln_state written) = false -> of_queue false (ln_wire written) = taken ≫= delivered Bincode false).
Proof. exact (lane_writes_in_order writer written queued false written_reachable). Defined.
