(* ===== verification/Discovery.v ===== *)
(** * Discovery: finding the master, and which answers a client believes

    Models [crates/core/src/discovery.rs], with the responder of [crates/master/src/server.rs]
    and the discovery and rendezvous routes of [crates/master/src/web_ui.rs].  Datagrams,
    HTTP answers and the clock are arguments; sockets and timers are left out.  How a beacon
    or a lease is written as JSON is the interface [BeaconJson]. *)

From S2P Require Import Prelude Collections RustStr Float Capabilities Placement Blob Task Protocol ClusterAuth Auth.
Local Open Scope N_scope.

Definition DISCOVERY_MAGIC_REQUEST : Bytes := utf8_encode (str "OX_DISCOVER").
Definition DISCOVERY_AUTH_PROBE_PREFIX : Bytes := utf8_encode (str "OX_DISCOVER:").
Definition DISCOVERY_PROBE_NONCE_LEN : nat := 16.
Definition BEACON_MAC_LABEL : Bytes := utf8_encode (str "oxs1-beacon").
Definition RENDEZVOUS_MAC_LABEL : Bytes := utf8_encode (str "oxs1-rendezvous").
Definition DISCOVERY_SERVICE_NAME : Str := str "oxideswarm-master".
Definition DISCOVERY_PROTOCOL_VERSION : N := 1.
Definition MAX_CONFIGURED_CANDIDATES : nat := 16.
Definition DEFAULT_WEB_UI_PORT : N := 8080.

(** ** Text *)

(** [s.parse::<u16>()]. *)
Definition u16_max : N := 65535.
Definition parse_u16 (s : Str) : option N :=
  match s with
  | [] => None
  | c :: s' =>
      let digits := if c =? 43 then s' else s in
      if is_empty digits then None else parse_digits u16_max 0 digits
  end.

(** [.filter(|p| *p != 0)]. *)
Definition nonzero (n : N) : option N := if n =? 0 then None else Some n.

(** [rsplit_once(c)]: at the last [c]. *)
Fixpoint rsplit_once (c : char) (s : Str) : option (Str * Str) :=
  match s with
  | [] => None
  | x :: s' =>
      match rsplit_once c s' with
      | Some (a, b) => Some (x :: a, b)
      | None => if x =? c then Some ([], s') else None
      end
  end.

Definition strip_suffix_char (c : char) (s : Str) : option Str :=
  match last s with Some x => if x =? c then Some (removelast s) else None | None => None end.

(** The text after the first occurrence of [p], from [s.find(p)]. *)
Fixpoint text_after (p s : Str) : option Str :=
  match strip_prefix p s with
  | Some r => Some r
  | None => match s with [] => None | _ :: s' => text_after p s' end
  end.

(** [str::from_utf8]: the text whose encoding the bytes are. *)
Definition from_utf8 (b : Bytes) : option Str :=
  let s := from_utf8_lossy b in if bool_decide (utf8_encode s = b) then Some s else None.

(** [split(|c| p(c))]. *)
Fixpoint split_by (p : char -> bool) (s : Str) : list Str :=
  match s with
  | [] => [[]]
  | c :: s =>
      if p c then [] :: split_by p s
      else match split_by p s with [] => [[c]] | x :: xs => (c :: x) :: xs end
  end.

(** ** Addresses *)

#[global] Instance IpAddr_eq : EqDecision IpAddr.
Proof. solve_decision. Defined.

Definition is_unspecified (ip : IpAddr) : bool :=
  match ip with V4 o => bool_decide (o = [0; 0; 0; 0]) | V6 g => bool_decide (g = [0; 0; 0; 0; 0; 0; 0; 0]) end.
Definition is_multicast (ip : IpAddr) : bool :=
  match ip with
  | V4 o => from_option (fun x => (224 <=? x) && (x <=? 239)) false (head o)
  | V6 g => from_option (fun x => N.land x 65280 =? 65280) false (head g)
  end.
Definition is_broadcast (ip : IpAddr) : bool := bool_decide (ip = V4 [255; 255; 255; 255]).

(** [{:x}]: the significant hexadecimal digits, at least one. *)
Definition show_hex (n : N) : Str :=
  match trim_start_matches (N.eqb 48) (map hex_digit [N.land (N.shiftr n 12) 15; N.land (N.shiftr n 8) 15; N.land (N.shiftr n 4) 15; N.land n 15]) with
  | [] => [48]
  | s => s
  end.

(** The first longest run of zero groups: (start, length). *)
Fixpoint zero_span (i : nat) (cur best : nat * nat) (groups : list N) : nat * nat :=
  match groups with
  | [] => best
  | g :: groups =>
      if g =? 0 then
        let cur := (if (cur.2 =? 0)%nat then i else cur.1, S cur.2) in
        zero_span (S i) cur (if (best.2 <? cur.2)%nat then cur else best) groups
      else zero_span (S i) (0, 0)%nat best groups
  end.

Definition show_octets (o : list N) : Str := join 46 (map show_N o).
Definition show_groups (g : list N) : Str := match g with [] => [] | _ => join 58 (map show_hex g) end.

(** [Display] of an address. *)
Definition show_ipv6 (g : list N) : Str :=
  match (if bool_decide (take 6 g = [0; 0; 0; 0; 0; 65535]) then drop 6 g else []) with
  | [x; y] => str "::ffff:" ++ show_octets [x / 256; x mod 256; y / 256; y mod 256]
  | _ =>
      let '(start, len) := zero_span 0 (0, 0)%nat (0, 0)%nat g in
      if (1 <? len)%nat then show_groups (take start g) ++ str "::" ++ show_groups (drop (start + len) g)
      else show_groups g
  end.
Definition show_ip (ip : IpAddr) : Str := match ip with V4 o => show_octets o | V6 g => show_ipv6 g end.

Record SocketAddr := { sa_ip : IpAddr; sa_port : N }.

(** [Display] of a socket address without a scope. *)
Definition show_socket_addr (a : SocketAddr) : Str :=
  match sa_ip a with
  | V4 o => show_octets o ++ str ":" ++ show_N (sa_port a)
  | V6 g => str "[" ++ show_ipv6 g ++ str "]:" ++ show_N (sa_port a)
  end.

Definition parse_ipv6 (s : Str) : option (list N) := match read_ipv6_addr s with Some (g, []) => Some g | _ => None end.

(** ** Hosts and origins *)

Definition split_host_port (addr : Str) : option (Str * N) :=
  '(host, port) ← rsplit_once 58 addr;
  port ← parse_u16 port;
  port ← nonzero port;
  let host := default host (h ← strip_prefix (str "[") host; strip_suffix_char 93 h) in
  if is_empty host then None else Some (host, port).

Definition is_alnum (b : N) : bool := ((48 <=? b) && (b <=? 57)) || ((65 <=? b) && (b <=? 90)) || ((97 <=? b) && (b <=? 122)).

Definition valid_label (label : Str) : bool :=
  negb (is_empty label) && (str_len label <=? 63) && negb (bool_decide (head label = Some 45)) && negb (bool_decide (last label = Some 45))
  && forallb (fun b => is_alnum b || (b =? 45) || (b =? 95)) (utf8_encode label).

Definition is_valid_host (host : Str) : bool :=
  if is_empty host || (253 <? str_len host) then false
  else if bool_decide (is_Some (parse_ip host)) then true
  else forallb valid_label (split 46 host).

Definition sanitize_host_port (addr : Str) : option Str :=
  '(host, port) ← split_host_port addr;
  if is_valid_host host then
    Some (match parse_ip host with
          | Some (V6 v6) => str "[" ++ show_ipv6 v6 ++ str "]:" ++ show_N port
          | _ => host ++ str ":" ++ show_N port
          end)
  else None.

(** [lower_prefix(p)] and [&url[p.len()..]]; [p] is ASCII, so its bytes are characters. *)
Definition strip_prefix_ignore_case (p url : Str) : option Str :=
  if eq_ignore_ascii_case (take (length p) url) p then Some (drop (length p) url) else None.

Definition split_http_scheme (url : Str) : option (Str * Str) :=
  match strip_prefix_ignore_case (str "https://") url with
  | Some rest => Some (str "https", rest)
  | None => match strip_prefix_ignore_case (str "http://") url with Some rest => Some (str "http", rest) | None => None end
  end.

(** The host, in its brackets if it had them, and the text of the port. *)
Definition split_authority (authority : Str) : option (Str * option Str) :=
  match strip_prefix (str "[") authority with
  | Some bracketed =>
      '(inner, tail) ← split_once 93 bracketed;
      _ ← parse_ipv6 inner;
      port ← (match tail with [] => Some None | t => Some <$> strip_prefix (str ":") t end);
      Some (str "[" ++ inner ++ str "]", port)
  | None =>
      match split_once 58 authority with
      | Some (host, port) => Some (host, Some port)
      | None => Some (authority, None)
      end
  end.

Definition is_digit (b : N) : bool := (48 <=? b) && (b <=? 57).

Definition parse_origin_port (p : Str) : option N :=
  if forallb is_digit (utf8_encode p) then n ← parse_u16 p; nonzero n else None.

Definition bare_host (host : Str) : Str := trim_end_matches (N.eqb 93) (trim_start_matches (N.eqb 91) host).

Definition sanitize_http_origin (url : Str) : option Str :=
  '(scheme, rest) ← split_http_scheme url;
  let authority := default rest (strip_suffix_char 47 rest) in
  '(host, port) ← split_authority authority;
  if negb (is_valid_host (bare_host host)) then None
  else
    match port with
    | None => Some (scheme ++ str "://" ++ host)
    | Some p => n ← parse_origin_port p; Some (scheme ++ str "://" ++ host ++ str ":" ++ show_N n)
    end.

Definition parse_candidate_hosts (hosts : Str) : list Str :=
  take MAX_CONFIGURED_CANDIDATES
    (List.filter (fun h => if is_valid_host h then true
                           else match split_host_port h with Some (host, _) => is_valid_host host | None => false end)
       (split_by (fun c => (c =? 44) || is_whitespace c) hosts)).

Definition parse_http_url (url_str : Str) : option (Str * N * Str) :=
  stripped ← or_else_opt (strip_prefix (str "http://") (trim url_str)) (strip_prefix (str "https://") (trim url_str));
  let '(authority, path_prefix) :=
    match split_once 47 stripped with
    | Some (auth, path) => (auth, 47 :: trim_end_matches (N.eqb 47) path)
    | None => (stripped, [])
    end in
  '(host, port) ←
    (match strip_prefix (str "[") authority with
     | Some tail =>
         '(host, rest) ← split_once 93 tail;
         port ← (match strip_prefix (str ":") rest with Some p => parse_u16 p | None => Some 80 end);
         Some (host, port)
     | None =>
         match split_once 58 authority with
         | Some (h, p) => port ← parse_u16 p; Some (h, port)
         | None => Some (authority, 80)
         end
     end);
  Some (host, port, path_prefix).

(** ** Beacons and leases *)

Record MasterBeacon := {
  mb_service : Str;
  mb_version : N;
  mb_cluster_addr : Str;
  mb_web_ui_url : Str;
  mb_hostname : Str;
  mb_worker_count : N;
  mb_timestamp : N;
  mb_mac : option Str
}.

Record RendezvousLease := {
  rl_service : Str;
  rl_version : N;
  rl_cluster_addr : Str;
  rl_web_ui_url : Str;
  rl_hostname : Str;
  rl_p2p_ticket : option Str;
  rl_worker_count : N;
  rl_timestamp : N;
  rl_ttl_secs : N;
  rl_signature : option Str
}.

Definition beacon_new (cluster_addr web_ui_url hostname : Str) (worker_count now : N) : MasterBeacon := {|
  mb_service := DISCOVERY_SERVICE_NAME; mb_version := DISCOVERY_PROTOCOL_VERSION; mb_cluster_addr := cluster_addr; mb_web_ui_url := web_ui_url;
  mb_hostname := hostname; mb_worker_count := worker_count; mb_timestamp := now; mb_mac := None
|}.

Definition set_mac (mac : option Str) (b : MasterBeacon) : MasterBeacon := {|
  mb_service := mb_service b; mb_version := mb_version b; mb_cluster_addr := mb_cluster_addr b; mb_web_ui_url := mb_web_ui_url b;
  mb_hostname := mb_hostname b; mb_worker_count := mb_worker_count b; mb_timestamp := mb_timestamp b; mb_mac := mac
|}.
Definition set_cluster_addr (addr : Str) (b : MasterBeacon) : MasterBeacon := {|
  mb_service := mb_service b; mb_version := mb_version b; mb_cluster_addr := addr; mb_web_ui_url := mb_web_ui_url b;
  mb_hostname := mb_hostname b; mb_worker_count := mb_worker_count b; mb_timestamp := mb_timestamp b; mb_mac := mb_mac b
|}.

Definition lease_new (cluster_addr web_ui_url hostname : Str) (p2p_ticket : option Str) (worker_count ttl_secs now : N) : RendezvousLease := {|
  rl_service := DISCOVERY_SERVICE_NAME; rl_version := DISCOVERY_PROTOCOL_VERSION; rl_cluster_addr := cluster_addr; rl_web_ui_url := web_ui_url;
  rl_hostname := hostname; rl_p2p_ticket := p2p_ticket; rl_worker_count := worker_count; rl_timestamp := now; rl_ttl_secs := ttl_secs; rl_signature := None
|}.

Definition set_signature (signature : option Str) (l : RendezvousLease) : RendezvousLease := {|
  rl_service := rl_service l; rl_version := rl_version l; rl_cluster_addr := rl_cluster_addr l; rl_web_ui_url := rl_web_ui_url l;
  rl_hostname := rl_hostname l; rl_p2p_ticket := rl_p2p_ticket l; rl_worker_count := rl_worker_count l; rl_timestamp := rl_timestamp l;
  rl_ttl_secs := rl_ttl_secs l; rl_signature := signature
|}.
Definition set_p2p_ticket (ticket : option Str) (l : RendezvousLease) : RendezvousLease := {|
  rl_service := rl_service l; rl_version := rl_version l; rl_cluster_addr := rl_cluster_addr l; rl_web_ui_url := rl_web_ui_url l;
  rl_hostname := rl_hostname l; rl_p2p_ticket := ticket; rl_worker_count := rl_worker_count l; rl_timestamp := rl_timestamp l;
  rl_ttl_secs := rl_ttl_secs l; rl_signature := rl_signature l
|}.

(** [label || (len || field)*]; [len() as u32] keeps the low 32 bits. *)
Definition mac_fields (label : Bytes) (fields : list Bytes) : Bytes :=
  label ++ (fields ≫= fun f => be_bytes 4 (blen f mod 2 ^ 32) ++ f).
Definition beacon_mac_input (b : MasterBeacon) (probe_nonce : Bytes) : Bytes :=
  mac_fields BEACON_MAC_LABEL [probe_nonce; utf8_encode (mb_cluster_addr b); utf8_encode (mb_web_ui_url b)].
Definition lease_mac_input (l : RendezvousLease) : Bytes :=
  mac_fields RENDEZVOUS_MAC_LABEL
    [utf8_encode (rl_cluster_addr l); utf8_encode (rl_web_ui_url l); utf8_encode (rl_hostname l);
     utf8_encode (show_N (rl_timestamp l)); utf8_encode (show_N (rl_ttl_secs l))].

Definition to_beacon (l : RendezvousLease) : MasterBeacon := {|
  mb_service := DISCOVERY_SERVICE_NAME; mb_version := DISCOVERY_PROTOCOL_VERSION; mb_cluster_addr := rl_cluster_addr l;
  mb_web_ui_url := rl_web_ui_url l; mb_hostname := rl_hostname l; mb_worker_count := rl_worker_count l; mb_timestamp := rl_timestamp l; mb_mac := None
|}.

(** serde_json's readers and writers, and its view of an answer of unknown shape. *)
Class BeaconJson := {
  beacon_to_vec : MasterBeacon -> option Bytes;
  beacon_from_slice : Bytes -> option MasterBeacon;
  lease_from_slice : Bytes -> option RendezvousLease;
  StatusValue : Type;
  status_from_slice : Bytes -> option StatusValue;
  status_get : Str -> StatusValue -> option StatusValue;
  status_as_str : StatusValue -> option Str;
  status_array_len : StatusValue -> option N
}.

(** What is written reads back. *)
Class BeaconJsonLaws `{BeaconJson} := {
  beacon_reads_back b bytes : beacon_to_vec b = Some bytes -> beacon_from_slice bytes = Some b
}.

(** ** Probes *)

Inductive DiscoveryProbe := ProbePlain | ProbeAuthenticated (nonce : Bytes).

Definition build_auth_probe (nonce : Bytes) : Bytes := DISCOVERY_AUTH_PROBE_PREFIX ++ utf8_encode (hex_encode nonce).

Definition parse_probe (datagram : Bytes) : option DiscoveryProbe :=
  if bool_decide (datagram = DISCOVERY_MAGIC_REQUEST) then Some ProbePlain
  else
    hex ← strip_prefix DISCOVERY_AUTH_PROBE_PREFIX datagram;
    if negb (length hex =? DISCOVERY_PROBE_NONCE_LEN * 2)%nat then None
    else
      text ← from_utf8 hex;
      bytes ← hex_decode text;
      if (length bytes =? DISCOVERY_PROBE_NONCE_LEN)%nat then Some (ProbeAuthenticated bytes) else None.

(** ** Where an answer may point *)

Definition check_advertised_addr (cluster_addr : Str) (from : SocketAddr) : option (Str * N) :=
  '(host, port) ← split_host_port cluster_addr;
  if negb (is_valid_host host) then None
  else
    let sender_is_local := is_loopback (sa_ip from) in
    match parse_ip host with
    | Some ip =>
        if is_multicast ip || is_broadcast ip || (negb sender_is_local && (is_loopback ip || is_unspecified ip)) then None
        else Some (host, port)
    | None => if negb sender_is_local && eq_ignore_ascii_case host (str "localhost") then None else Some (host, port)
    end.

Definition normalize_beacon_source (b : MasterBeacon) (from : SocketAddr) : option MasterBeacon :=
  '(_, port) ← check_advertised_addr (mb_cluster_addr b) from;
  Some (set_cluster_addr (show_socket_addr {| sa_ip := sa_ip from; sa_port := port |}) b).

Definition accept_verified_beacon (b : MasterBeacon) (from : SocketAddr) : option MasterBeacon :=
  _ ← check_advertised_addr (mb_cluster_addr b) from; Some b.

Definition subnet_ip (last : N) (local_ip : option IpAddr) : option IpAddr :=
  match local_ip with Some (V4 [a; b; c; _]) => Some (V4 [a; b; c; last]) | _ => None end.
Definition get_subnet_broadcast_ip (local_ip : option IpAddr) : IpAddr := default (V4 [255; 255; 255; 255]) (subnet_ip 255 local_ip).
Definition get_default_gateway_candidate (local_ip : option IpAddr) : option IpAddr := subnet_ip 1 local_ip.
Definition LOOPBACK_V4 : IpAddr := V4 [127; 0; 0; 1].
Definition get_local_ip_or_loopback (local_ip : option IpAddr) : IpAddr := default LOOPBACK_V4 local_ip.

(** The addresses a UDP probe is sent to. *)
Definition probe_targets (local_ip : option IpAddr) (candidates : list Str) (port : N) : list SocketAddr :=
  map (fun ip => {| sa_ip := ip; sa_port := port |})
    ([V4 [255; 255; 255; 255]; get_subnet_broadcast_ip local_ip; LOOPBACK_V4] ++ omap parse_ip candidates).

(** The hosts and ports the HTTP tier asks. *)
Definition http_targets (local_ip : option IpAddr) (candidates : list Str) (web_ui_port : N) : list (Str * N) :=
  let candidates := candidates ++ (match get_default_gateway_candidate local_ip with Some gw => [show_ip gw] | None => [] end) ++ [str "127.0.0.1"] in
  map (fun target => default (target, web_ui_port) (split_host_port target)) (dedup (sort_strs candidates)).

(** [advertised_web_ui_url] of [server.rs]. *)
Definition advertised_web_ui_url (dashboard_addr : option SocketAddr) (lan_ip : IpAddr) : Str :=
  match dashboard_addr with
  | None => []
  | Some addr =>
      let bound := to_canonical (sa_ip addr) in
      let host := if is_unspecified bound then to_canonical lan_ip else bound in
      if is_loopback host || is_unspecified host then []
      else str "http://" ++ show_socket_addr {| sa_ip := host; sa_port := sa_port addr |}
  end.

(** The address a master advertises for its listener. *)
Definition advertised_ip (listen_ip : IpAddr) (local_ip : option IpAddr) : IpAddr :=
  if is_loopback listen_ip then listen_ip
  else if is_unspecified listen_ip then get_local_ip_or_loopback local_ip
  else listen_ip.
Definition advertised_cluster_addr (listen_ip : IpAddr) (local_ip : option IpAddr) (port : N) : Str :=
  show_ip (advertised_ip listen_ip local_ip) ++ str ":" ++ show_N port.

(** ** Answers to an HTTP probe *)

Definition CRLF2 : Str := [13; 10; 13; 10].
Definition MAX_RESPONSE : N := 16384.

(** The read loop: [chunks] is what the reads returned, [complete] whether the body
    received so far can be read. *)
Fixpoint read_response (complete : Bytes -> bool) (buf : Bytes) (chunks : list Bytes) : Bytes :=
  match chunks with
  | [] => buf
  | c :: chunks =>
      if is_empty c then buf
      else
        let buf := buf ++ c in
        if MAX_RESPONSE <? blen buf then buf
        else if from_option complete false (text_after CRLF2 buf) then buf
        else read_response complete buf chunks
  end.

Definition is_200 (resp : Str) : bool := starts_with (str "HTTP/1.1 200") resp || starts_with (str "HTTP/1.0 200") resp.

(** [serde_json::from_str] of the lossily decoded body. *)
Definition response_body (resp : Str) : option Bytes := utf8_encode <$> text_after CRLF2 resp.

Section discovery.
Context `{Aead} `{BeaconJson}.

Definition is_readable {A} (parse : Bytes -> option A) (b : Bytes) : bool := match parse b with Some _ => true | None => false end.

Definition beacon_sign (s : ClusterSecret) (probe_nonce : Bytes) (b : MasterBeacon) : MasterBeacon :=
  set_mac (Some (hex_encode (mac s [beacon_mac_input b probe_nonce]))) b.
Definition beacon_verify (s : ClusterSecret) (probe_nonce : Bytes) (b : MasterBeacon) : bool :=
  match mb_mac b ≫= hex_decode with
  | Some tag => verify_mac s [beacon_mac_input b probe_nonce] tag
  | None => false
  end.
Definition beacon_from_bytes (bytes : Bytes) : option MasterBeacon :=
  b ← beacon_from_slice bytes; if bool_decide (mb_service b = DISCOVERY_SERVICE_NAME) then Some b else None.

Definition lease_sign (s : ClusterSecret) (l : RendezvousLease) : RendezvousLease :=
  set_signature (Some (hex_encode (mac s [lease_mac_input l]))) l.
(** [now + max_skew_secs] wraps, as in release builds. *)
Definition lease_verify (s : ClusterSecret) (max_skew_secs now : N) (l : RendezvousLease) : bool :=
  if (now + max_skew_secs) mod 2 ^ 64 <? rl_timestamp l then false
  else if saturating_add u64_max (saturating_add u64_max (rl_timestamp l) (rl_ttl_secs l)) max_skew_secs <? now then false
  else
    match rl_signature l ≫= hex_decode with
    | Some tag => verify_mac s [lease_mac_input l] tag
    | None => false
    end.

Definition beacon_reply (datagram : Bytes) (b : MasterBeacon) (secret : option ClusterSecret) : option Bytes :=
  probe ← parse_probe datagram;
  beacon_to_vec (match probe, secret with
                 | ProbeAuthenticated nonce, Some s => beacon_sign s nonce b
                 | _, _ => set_mac None b
                 end).

(** The master's UDP service: the answer to a datagram, and the periodic broadcast, which a
    master with a secret does not send. *)
Definition service_beacon (listen_ip : IpAddr) (local_ip : option IpAddr) (cluster_port : N) (dashboard_addr : option SocketAddr)
    (hostname : option Str) (workers_count now : N) : MasterBeacon :=
  beacon_new (advertised_cluster_addr listen_ip local_ip cluster_port) (advertised_web_ui_url dashboard_addr (get_local_ip_or_loopback local_ip))
    (default (str "OxideMaster") hostname) workers_count now.
Definition service_answer (secret : option ClusterSecret) (datagram : Bytes) (beacon : MasterBeacon) : option Bytes :=
  match parse_probe datagram with Some _ => beacon_reply datagram beacon secret | None => None end.
Definition service_tick (secret : option ClusterSecret) (local_ip : option IpAddr) (discovery_port : N) (beacon : MasterBeacon) : list (Bytes * SocketAddr) :=
  match secret with
  | Some _ => []
  | None =>
      match beacon_to_vec beacon with
      | Some bytes =>
          let to ip := (bytes, {| sa_ip := ip; sa_port := discovery_port |}) in
          let subnet := get_subnet_broadcast_ip local_ip in
          [to (V4 [255; 255; 255; 255])] ++ (if bool_decide (subnet = V4 [255; 255; 255; 255]) then [] else [to subnet]) ++ [to LOOPBACK_V4]
      | None => []
      end
  end.

(** One renewal of the master's lease at the registry. *)
Definition renewed_lease (secret : option ClusterSecret) (cluster_addr web_ui_url hostname : Str) (p2p_ticket : option Str) (workers_count now : N) : RendezvousLease :=
  let lease := lease_new cluster_addr web_ui_url hostname p2p_ticket workers_count 120 now in
  match secret with Some s => lease_sign s lease | None => lease end.

(** ** The client's tiers *)

(** What the UDP loop makes of one datagram. *)
Definition udp_accept (secret : option ClusterSecret) (nonce : Bytes) (datagram : Bytes) (from : SocketAddr) : option MasterBeacon :=
  b ← beacon_from_bytes datagram;
  match secret with
  | Some s => if beacon_verify s nonce b then accept_verified_beacon b from else None
  | None => normalize_beacon_source b from
  end.

(** The loop returns the first datagram it accepts; [datagrams] arrived before the timeout. *)
Fixpoint discover_master_udp (secret : option ClusterSecret) (nonce : Bytes) (datagrams : list (Bytes * SocketAddr)) : option MasterBeacon :=
  match datagrams with
  | [] => None
  | (d, from) :: datagrams => or_else_opt (udp_accept secret nonce d from) (discover_master_udp secret nonce datagrams)
  end.

(** The probe the loop sends. *)
Definition udp_probe (secret : option ClusterSecret) (nonce : Bytes) : Bytes :=
  match secret with Some _ => build_auth_probe nonce | None => DISCOVERY_MAGIC_REQUEST end.

(** [authority] of an origin, without port and brackets. *)
Definition portal_target_host (origin : Str) : Str :=
  default [] (authority ← text_after (str "://") origin;
              or_else_opt (v6 ← strip_prefix (str "[") authority; '(inner, _) ← split_once 93 v6; Some inner)
                (head (split 58 authority))).

Definition get_str (field : Str) (v : StatusValue) : option Str := status_get field v ≫= status_as_str.

Definition probe_http_candidate (host : Str) (port : N) (chunks : list Bytes) (now : N) : option MasterBeacon :=
  if negb (is_valid_host host) then None
  else
    let resp := from_utf8_lossy (read_response (is_readable status_from_slice) [] chunks) in
    body ← response_body resp;
    json ← status_from_slice body;
    let master :=
      m ← status_get (str "master") json;
      if bool_decide (get_str (str "role") m = Some (str "MASTER")) then Some m else None in
    match master with
    | Some m =>
        Some (beacon_new (host ++ str ":8088") (str "http://" ++ host ++ str ":" ++ show_N port)
                (default (str "OxideMaster") (get_str (str "host") m)) (default 0 (status_get (str "workers") json ≫= status_array_len)) now)
    | None =>
        if bool_decide (get_str (str "role") json = Some (str "WORKER_PORTAL")) then
          origin ← get_str (str "redirect_url") json ≫= sanitize_http_origin;
          let target_host := portal_target_host origin in
          let is_local := eq_ignore_ascii_case target_host (str "localhost")
                          || from_option (fun ip => is_loopback ip || is_unspecified ip) false (parse_ip target_host) in
          if is_empty target_host || is_local then None
          else
            Some (beacon_new (default (target_host ++ str ":8088") (get_str (str "master_cluster_addr") json ≫= sanitize_host_port))
                    origin (str "DiscoveredViaPortal") 1 now)
        else None
    end.

Definition probe_http_candidate_with_secret (secret : option ClusterSecret) (host : Str) (port : N) (peer : SocketAddr) (nonce : Bytes)
    (chunks : list Bytes) (now : N) : option MasterBeacon :=
  match secret with
  | None => probe_http_candidate host port chunks now
  | Some s =>
      if negb (is_valid_host host) then None
      else
        let resp := from_utf8_lossy (read_response (is_readable beacon_from_slice) [] chunks) in
        if negb (is_200 resp) then None
        else
          body ← response_body resp;
          b ← beacon_from_slice body;
          if beacon_verify s nonce b then accept_verified_beacon b peer else None
  end.

Definition RENDEZVOUS_SKEW_SECS : N := 30.

Definition discover_master_rendezvous (url : Str) (secret : option ClusterSecret) (chunks : list Bytes) (now : N) : option MasterBeacon :=
  _ ← parse_http_url url;
  let resp := from_utf8_lossy (read_response (is_readable lease_from_slice) [] chunks) in
  if negb (is_200 resp) then None
  else
    body ← response_body resp;
    lease ← lease_from_slice body;
    match secret with
    | Some s => if lease_verify s RENDEZVOUS_SKEW_SECS now lease then Some (to_beacon lease) else None
    | None => Some (to_beacon lease)
    end.

(** What the network answered: the datagrams, the answers of the HTTP candidates in the
    order they finished, and the registry's answer, if a URL is configured. *)
Record HttpAnswer := { ha_host : Str; ha_port : N; ha_peer : SocketAddr; ha_nonce : Bytes; ha_chunks : list Bytes }.

Fixpoint first_some {A B} (f : A -> option B) (l : list A) : option B :=
  match l with [] => None | x :: l => or_else_opt (f x) (first_some f l) end.

Definition discover_master_tiered (secret : option ClusterSecret) (nonce : Bytes) (datagrams : list (Bytes * SocketAddr))
    (http : list HttpAnswer) (rendezvous : option (Str * list Bytes)) (now : N) : option MasterBeacon :=
  or_else_opt (discover_master_udp secret nonce datagrams)
    (or_else_opt (first_some (fun a => probe_http_candidate_with_secret secret (ha_host a) (ha_port a) (ha_peer a) (ha_nonce a) (ha_chunks a) now) http)
       ('(url, chunks) ← rendezvous;
        if is_empty (trim url) then None else discover_master_rendezvous url secret chunks now)).

(** ** The dashboard's routes *)

(** [hex_decode] of [web_ui.rs]: the text is cut every two bytes and each cut must fall
    between characters; [None] is the panic of a cut inside one. *)
Definition from_str_radix_16 (a b : char) : option N :=
  if a =? 43 then nibble b else x ← nibble a; y ← nibble b; Some (x * 16 + y).

Fixpoint hex_slices (s : Str) : option (option Bytes) :=
  match s with
  | [] => Some (Some [])
  | a :: s =>
      if utf8_char_len a =? 1 then
        match s with
        | b :: s =>
            if utf8_char_len b =? 1 then
              match from_str_radix_16 a b with
              | Some x => rest ← hex_slices s; Some (option_map (cons x) rest)
              | None => Some None
              end
            else None
        | [] => None
        end
      else if utf8_char_len a =? 2 then Some None
      else None
  end.

Definition web_hex_decode (text : Str) : option (option Bytes) := if N.odd (str_len text) then Some None else hex_slices text.

Inductive ProbeError := MissingNonce | InvalidNonceLength | InvalidNonceHex | InvalidNonceCount.

(** The beacon of the route, of the server's addresses; [local_ip] is what
    [get_local_ip] finds, and [hostname] what the system is called. *)
Definition probe_route_beacon (server_addr : SocketAddr) (dashboard_addr : option SocketAddr) (local_ip : option IpAddr) (hostname : option Str)
    (worker_count now : N) : MasterBeacon :=
  let web_ui_url :=
    match dashboard_addr with
    | Some addr =>
        let host := if is_unspecified (sa_ip addr) then get_local_ip_or_loopback local_ip else sa_ip addr in
        str "http://" ++ show_ip host ++ str ":" ++ show_N (sa_port addr)
    | None => []
    end in
  beacon_new (advertised_cluster_addr (sa_ip server_addr) local_ip (sa_port server_addr)) web_ui_url (default (str "OxideMaster") hostname) worker_count now.

(** [api_discovery_probe], with the beacon above. *)
Definition api_discovery_probe (secret : option ClusterSecret) (nonce : option Str) (beacon : MasterBeacon) : option (result ProbeError MasterBeacon) :=
  match nonce with
  | None => Some (Err MissingNonce)
  | Some text =>
      if negb (str_len text =? 32) then Some (Err InvalidNonceLength)
      else
        decoded ← web_hex_decode text;
        Some match decoded with
             | None => Err InvalidNonceHex
             | Some bytes =>
                 if negb (length bytes =? DISCOVERY_PROBE_NONCE_LEN)%nat then Err InvalidNonceCount
                 else Ok (match secret with Some s => beacon_sign s bytes beacon | None => beacon end)
             end
  end.

Inductive RegisterError := InvalidService | InvalidSignature.

(** The registry holds one lease. *)
Definition api_rendezvous_register (secret : option ClusterSecret) (now : N) (lease : RendezvousLease) (registry : option RendezvousLease)
  : result RegisterError unit * option RendezvousLease :=
  if negb (bool_decide (rl_service lease = DISCOVERY_SERVICE_NAME)) then (Err InvalidService, registry)
  else if from_option (fun s => negb (lease_verify s RENDEZVOUS_SKEW_SECS now lease)) false secret then (Err InvalidSignature, registry)
  else (Ok tt, Some lease).

Definition api_rendezvous_master (auth : AuthConfig) (hs : HeaderMap) (query : option Str) (now : N) (registry : option RendezvousLease) : option RendezvousLease :=
  lease ← registry;
  if now <=? saturating_add u64_max (saturating_add u64_max (rl_timestamp lease) (rl_ttl_secs lease)) 30 then
    let is_authenticated :=
      match extract_credential hs query ≫= find_token auth with
      | Some registered => existsb (fun s => allows s Observer) (elements (tk_scopes registered))
      | None => false
      end in
    Some (if is_authenticated then lease else set_p2p_ticket None lease)
  else None.

End discovery.
