(* ===== verification/DiscoveryAddr.v ===== *)
(** * DiscoveryAddr: the text of addresses

    What an address parser reads, what it leaves, and that an address is read back from its
    [Display]: the lemmas on which the properties of discovery rest. *)

From S2P Require Import Prelude Collections RustStr Float Capabilities Placement Blob BlobProps Task Protocol ClusterAuth Auth Discovery.
Local Open Scope N_scope.

(** ** What a reader consumes *)

(** The characters of an address literal. *)
Definition ip_char (c : char) : bool := bool_decide (is_Some (nibble c)) || (c =? 46) || (c =? 58).

(** [s] is a text of [P] followed by [r]. *)
Definition reads (P : char -> Prop) (s r : Str) : Prop := exists p, s = p ++ r /\ Forall P p.

Lemma reads_refl P s : reads P s s.
Proof. by exists []. Qed.
Lemma reads_trans P s r t : reads P s r -> reads P r t -> reads P s t.
Proof. intros (p & -> & Hp) (q & -> & Hq). exists (p ++ q). rewrite <-app_assoc. split; [done|]. by apply Forall_app. Qed.
Lemma reads_cons (P : char -> Prop) c s : P c -> reads P (c :: s) s.
Proof. intros. exists [c]. split; [done|]. by constructor. Qed.
#[local] Hint Resolve reads_refl reads_cons : core.

Notation ip_reads := (reads ip_char).

Lemma nibble_ip_char c : is_Some (nibble c) -> ip_char c.
Proof. intros Hc. unfold ip_char. by rewrite bool_decide_true. Qed.

Lemma read_digits_reads radix max budget count acc s c v r :
  acc <= max -> read_digits radix max budget count acc s = Some (c, v, r) -> ip_reads s r /\ v <= max.
Proof.
  revert count acc s. induction budget as [|budget IH]; intros count acc s Ha; (destruct s as [|x s]; cbn; [intros [= <- <- <-]; auto|]);
    unfold digit_value; (destruct (nibble x) as [d|] eqn:En; [|intros [= <- <- <-]; auto]); (destruct (d <? radix); [|intros [= <- <- <-]; auto]); [done|].
  destruct (N.leb_spec (acc * radix + d) max); [|done]. intros [Hr ?]%IH; [|done]. split; [|done].
  eapply reads_trans; [|exact Hr]. apply reads_cons, nibble_ip_char. by rewrite En.
Qed.

Lemma read_number_reads radix max digits zero s v r : read_number radix max digits zero s = Some (v, r) -> ip_reads s r /\ v <= max.
Proof.
  unfold read_number. destruct (read_digits radix max digits 0 0 s) as [[[c v'] r']|] eqn:E; [|done].
  destruct (c =? 0)%nat; [done|]. destruct (negb zero && _ && _); [done|]. intros [= <- <-]. eapply read_digits_reads; [|done]. lia.
Qed.

Lemma read_given_char_reads c s r : ip_char c -> read_given_char c s = Some r -> ip_reads s r /\ s = c :: r.
Proof. destruct s as [|x s]; cbn; [done|]. destruct (N.eqb_spec x c) as [->|]; [|done]. intros ? [= <-]. auto. Qed.

Lemma read_separator_reads {A} sep i (read : Str -> option (A * Str)) s v r (P : A -> Prop) : ip_char sep ->
  (forall s r v, read s = Some (v, r) -> ip_reads s r /\ P v) -> read_separator sep i read s = Some (v, r) -> ip_reads s r /\ P v.
Proof.
  intros Hsep Hread. unfold read_separator. destruct (0 <? i)%nat; [|apply Hread].
  destruct (read_given_char sep s) as [s'|] eqn:E; [|done]. intros [Hr ?]%Hread. apply read_given_char_reads in E as [? _]; [|done].
  split; [by eapply reads_trans|done].
Qed.

Definition octets_wf (o : list N) : Prop := length o = 4%nat /\ Forall (fun x => x <= 255) o.
Definition ip_wf (ip : IpAddr) : Prop :=
  match ip with V4 o => octets_wf o | V6 g => length g = 8%nat /\ Forall (fun x => x <= 65535) g end.

Lemma read_octet_reads i s v r : read_octet i s = Some (v, r) -> ip_reads s r /\ v <= 255.
Proof. apply (read_separator_reads 46 i _ s v r (fun v => v <= 255)); [done|]. intros ???; apply read_number_reads. Qed.

Lemma read_ipv4_reads s o r : read_ipv4_addr s = Some (o, r) -> ip_reads s r /\ octets_wf o.
Proof.
  unfold read_ipv4_addr. destruct (read_octet 0 s) as [[a s1]|] eqn:E1; [|done]. cbn [mbind option_bind]. destruct (read_octet 1 s1) as [[b s2]|] eqn:E2; [|done]. cbn [mbind option_bind].
  destruct (read_octet 2 s2) as [[c s3]|] eqn:E3; [|done]. cbn [mbind option_bind]. destruct (read_octet 3 s3) as [[d s4]|] eqn:E4; [|done]. cbn [mbind option_bind]. intros [= <- <-].
  apply read_octet_reads in E1 as [? ?]. apply read_octet_reads in E2 as [? ?]. apply read_octet_reads in E3 as [? ?]. apply read_octet_reads in E4 as [? ?].
  split; [eauto using reads_trans|]. split; [done|]. by repeat constructor.
Qed.

Lemma read_groups_reads left i s gs v4 r : read_groups left i s = (gs, v4, r) ->
  ip_reads s r /\ (length gs <= left)%nat /\ Forall (fun x => x <= 65535) gs.
Proof.
  revert i s gs v4 r. induction left as [|left IH]; intros i s gs v4 r; cbn [read_groups].
  - intros [= <- <- <-]. auto.
  - assert (Hnum : (match read_separator 58 i (read_number 16 65535 4 true) s with
                    | Some (g, s) => let '(gs, v4, s) := read_groups left (S i) s in (g :: gs, v4, s)
                    | None => ([], false, s) end) = (gs, v4, r) -> ip_reads s r /\ (length gs <= S left)%nat /\ Forall (fun x => x <= 65535) gs).
    { destruct (read_separator 58 i _ s) as [[g s']|] eqn:E; [|intros [= <- <- <-]; split; [auto|]; split; [cbn; lia|done]].
      apply (read_separator_reads 58 i _ s g s' (fun v => v <= 65535)) in E as [? ?]; [|done|intros ???; apply read_number_reads].
      destruct (read_groups left (S i) s') as [[gs' v4'] s''] eqn:Er. intros [= <- <- <-]. apply IH in Er as (? & ? & ?).
      split; [by eapply reads_trans|]. split; [cbn; lia|by constructor]. }
    destruct (if (0 <? left)%nat then _ else None) as [[o s']|] eqn:E; [|exact Hnum].
    destruct (0 <? left)%nat eqn:Hl; [|done]. apply Nat.ltb_lt in Hl.
    apply (read_separator_reads 58 i _ s o s' octets_wf) in E as [? [Hlen Ho]]; [|done|intros ???; apply read_ipv4_reads].
    destruct o as [|a [|b [|c [|d [|]]]]]; try done. intros [= <- <- <-].
    split; [done|]. split; [cbn; lia|]. rewrite !Forall_cons in Ho. destruct Ho as (? & ? & ? & ? & _). repeat constructor; lia.
Qed.

Lemma read_ipv6_reads s g r : read_ipv6_addr s = Some (g, r) -> ip_reads s r /\ length g = 8%nat /\ Forall (fun x => x <= 65535) g.
Proof.
  unfold read_ipv6_addr. destruct (read_groups 8 0 s) as [[front v4] s1] eqn:E1. apply read_groups_reads in E1 as (? & Hl & ?).
  destruct (Nat.eqb_spec (length front) 8); [intros [= <- <-]; auto|]. destruct v4; [done|].
  destruct (read_given_char 58 s1) as [s2|] eqn:E2; [|done]. cbn [mbind option_bind]. destruct (read_given_char 58 s2) as [s3|] eqn:E3; [|done]. cbn [mbind option_bind].
  apply read_given_char_reads in E2 as [? _]; [|done]. apply read_given_char_reads in E3 as [? _]; [|done].
  destruct (read_groups _ 0 s3) as [[back v4'] s4] eqn:E4. apply read_groups_reads in E4 as (? & Hl' & ?). intros [= <- <-].
  split; [eauto using reads_trans|]. split; [rewrite !length_app, repeat_length; lia|].
  rewrite !Forall_app. split; [done|]. split; [|done]. apply Forall_forall. intros x Hx. apply list_elem_of_In, repeat_spec in Hx. lia.
Qed.

(** What parses as an address is an address, and its text has only its characters. *)
Lemma parse_ipv6_wf s g : parse_ipv6 s = Some g -> Forall ip_char s /\ ip_wf (V6 g).
Proof.
  unfold parse_ipv6. destruct (read_ipv6_addr s) as [[g' [|]]|] eqn:E; [|done|done]. intros [= <-].
  apply read_ipv6_reads in E as [(p & -> & Hp) ?]. rewrite app_nil_r. done.
Qed.

Lemma parse_ip_cases s ip : parse_ip s = Some ip ->
  (exists o, read_ipv4_addr s = Some (o, []) /\ ip = V4 o) \/ (exists g, parse_ipv6 s = Some g /\ ip = V6 g).
Proof.
  unfold parse_ip, parse_ipv6. generalize (read_ipv4_addr s) (read_ipv6_addr s). intros r4 r6.
  destruct r4 as [[o [|]]|]; [intros [= <-]; left; eauto| |]; (destruct r6 as [[g [|]]|]; [intros [= <-]; right; eauto|done|done]).
Qed.

Lemma parse_ip_wf s ip : parse_ip s = Some ip -> Forall ip_char s /\ ip_wf ip.
Proof.
  intros [(o & [(p & Es & Hp) Ho]%read_ipv4_reads & ->)|(g & Hg & ->)]%parse_ip_cases; [|exact (parse_ipv6_wf s g Hg)].
  rewrite Es, app_nil_r. exact (conj Hp Ho).
Qed.

(** ** Numbers read back *)

(** A property of all 16-bit numbers, decided by trying them. *)
Definition all_u16 (p : N -> bool) : bool :=
  forallb (fun a => forallb (fun b => p (256 * N.of_nat a + N.of_nat b)) (seq 0 256)) (seq 0 256).

Lemma forallb_seq (p : nat -> bool) k n : forallb p (seq 0 k) = true -> (n < k)%nat -> p n = true.
Proof. intros Hall Hn. rewrite forallb_forall in Hall. apply Hall, in_seq. lia. Qed.

Lemma all_u16_spec p n : all_u16 p = true -> n <= u16_max -> p n = true.
Proof.
  intros Hall Hn. unfold u16_max in Hn.
  assert (Hd : n / 256 < 256) by (apply N.Div0.div_lt_upper_bound; lia). assert (Hm : n mod 256 < 256) by (apply N.mod_lt; lia).
  pose proof (N.div_mod n 256 ltac:(lia)) as Hdm. revert Hd Hm Hdm. generalize (n / 256) (n mod 256). intros a b Ha Hb ->.
  apply (forallb_seq _ 256 (N.to_nat a)) in Hall; [|lia]. apply (forallb_seq _ 256 (N.to_nat b)) in Hall; [|lia].
  by rewrite !N2Nat.id in Hall.
Qed.

(** The next character ends a number. *)
Definition no_digit (radix : N) (r : Str) : Prop := match r with [] => True | c :: _ => digit_value radix c = None end.

Lemma read_digits_app radix max budget count acc s c v r : no_digit radix r ->
  read_digits radix max budget count acc s = Some (c, v, []) -> read_digits radix max budget count acc (s ++ r) = Some (c, v, r).
Proof.
  intros Hr. revert count acc s. induction budget as [|budget IH]; intros count acc s; (destruct s as [|x s]; cbn;
    [intros [= <- <-]; destruct r; cbn in *; [done|by rewrite Hr]|]); (destruct (digit_value radix x); [|done]); [done|].
  destruct (_ <=? max); [|done]. apply IH.
Qed.

Definition reads_whole (radix max : N) (digits : nat) (zero : bool) (s : Str) (n : N) : bool :=
  bool_decide (read_number radix max digits zero s = Some (n, [])).

Lemma read_number_app radix max digits zero s n r : s <> [] -> no_digit radix r ->
  reads_whole radix max digits zero s n = true -> read_number radix max digits zero (s ++ r) = Some (n, r).
Proof.
  intros Hne Hr Hw%bool_decide_eq_true. unfold read_number in *.
  destruct (read_digits radix max digits 0 0 s) as [[[c v] [|]]|] eqn:E; try done.
  - apply (read_digits_app _ _ _ _ _ _ _ _ r) in E; [|done]. rewrite E. destruct s; [done|]. cbn [app head] in *.
    destruct (c =? 0)%nat; [done|]. destruct (negb zero && _ && _); [done|]. injection Hw as ->. done.
  - destruct (c =? 0)%nat; [done|]. destruct (negb zero && _ && _); done.
Qed.

Lemma decimal_checks : all_u16 (fun n =>
  bool_decide (parse_u16 (show_N n) = Some n) && forallb is_digit (show_N n) && negb (is_empty (show_N n))
  && ((255 <? n) || (reads_whole 10 255 3 false (show_N n) n && (length (show_N n) <=? 3)%nat))) = true.
Proof. vm_compute. reflexivity. Qed.

Lemma hex_checks : all_u16 (fun n =>
  reads_whole 16 65535 4 true (show_hex n) n && forallb ip_char (show_hex n) && negb (contains_char 46 (show_hex n)) && negb (contains_char 58 (show_hex n))
  && (length (show_hex n) <=? 4)%nat && negb (is_empty (show_hex n))) = true.
Proof. vm_compute. reflexivity. Qed.

Lemma not_is_empty {A} (l : list A) : negb (is_empty l) = true -> l <> [].
Proof. by destruct l. Qed.

Lemma decimal_spec n : n <= u16_max -> parse_u16 (show_N n) = Some n /\ Forall is_digit (show_N n) /\ show_N n <> [].
Proof.
  intros Hn. pose proof (all_u16_spec _ n decimal_checks Hn) as [[[Hp Hd]%andb_prop He]%andb_prop _]%andb_prop.
  split; [by apply bool_decide_eq_true in Hp|]. split; [by apply Forall_forall; intros x Hx%list_elem_of_In; rewrite forallb_forall in Hd; apply Is_true_true, Hd|].
  by apply not_is_empty.
Qed.

Lemma octet_spec n : n <= 255 -> reads_whole 10 255 3 false (show_N n) n = true /\ show_N n <> [] /\ (length (show_N n) <= 3)%nat.
Proof.
  intros Hn. assert (Hu : n <= u16_max) by (unfold u16_max; lia).
  pose proof (all_u16_spec _ n decimal_checks Hu) as [[_ He]%andb_prop [Hw|Hw]%orb_prop]%andb_prop.
  - apply N.ltb_lt in Hw. lia.
  - apply andb_prop in Hw as [? ?%Nat.leb_le]. split; [done|]. split; [by apply not_is_empty|done].
Qed.

Lemma hex_spec n : n <= 65535 ->
  reads_whole 16 65535 4 true (show_hex n) n = true /\ Forall ip_char (show_hex n) /\ 46 ∉ show_hex n /\ 58 ∉ show_hex n
  /\ (length (show_hex n) <= 4)%nat /\ show_hex n <> [].
Proof.
  intros Hn. pose proof (all_u16_spec _ n hex_checks Hn) as [[[[[? Hf]%andb_prop H46]%andb_prop H58]%andb_prop ?%Nat.leb_le]%andb_prop ?%not_is_empty]%andb_prop.
  rewrite <-!contains_char_spec. split_and!; try done; [|by apply not_true_iff_false, negb_true_iff|by apply not_true_iff_false, negb_true_iff].
  apply Forall_forall. intros x Hx%list_elem_of_In. rewrite forallb_forall in Hf. by apply Is_true_true, Hf.
Qed.

(** ** Addresses read back *)

Lemma read_octet_show i n r : n <= 255 -> no_digit 10 r -> read_octet i ((if (0 <? i)%nat then [46] else []) ++ show_N n ++ r) = Some (n, r).
Proof.
  intros Hn Hr. destruct (octet_spec n Hn) as (Hw & Hne & _). unfold read_octet, read_separator.
  destruct (0 <? i)%nat; cbn [app read_given_char]; rewrite ?N.eqb_refl; by apply read_number_app.
Qed.

Lemma read_ipv4_show o r : octets_wf o -> no_digit 10 r -> read_ipv4_addr (show_octets o ++ r) = Some (o, r).
Proof.
  intros [Hl Ho] Hr. destruct o as [|a [|b [|c [|d [|]]]]]; try done. rewrite !Forall_cons in Ho. destruct Ho as (Ha & Hb & Hc & Hd & _).
  change (show_octets [a; b; c; d]) with (show_N a ++ 46 :: show_N b ++ 46 :: show_N c ++ 46 :: show_N d).
  unfold read_ipv4_addr. rewrite <-!app_assoc, <-!app_comm_cons, <-!app_assoc, <-!app_comm_cons, <-!app_assoc, <-!app_comm_cons.
  pose proof (read_octet_show 0 a) as Ra. pose proof (read_octet_show 1 b) as Rb. pose proof (read_octet_show 2 c) as Rc. pose proof (read_octet_show 3 d) as Rd.
  cbn [Nat.ltb Nat.leb app] in Ra, Rb, Rc, Rd.
  rewrite Ra by done. cbn [mbind option_bind]. rewrite Rb by done. cbn [mbind option_bind]. rewrite Rc by done. cbn [mbind option_bind]. by rewrite Rd.
Qed.

Lemma read_octet_dot i s v r : (0 < i)%nat -> read_octet i s = Some (v, r) -> 46 ∈ s.
Proof.
  intros Hi. unfold read_octet, read_separator. rewrite (proj2 (Nat.ltb_lt 0 i) Hi). destruct s as [|x s]; [done|]. cbn [read_given_char].
  destruct (N.eqb_spec x 46) as [->|]; [|done]. intros _. left.
Qed.

(** Without a dot there is no IPv4 address. *)
Lemma read_ipv4_no_dot s : 46 ∉ s -> read_ipv4_addr s = None.
Proof.
  intros Hs. unfold read_ipv4_addr. destruct (read_octet 0 s) as [[a s1]|] eqn:E1; [|done]. cbn [mbind option_bind].
  destruct (read_octet 1 s1) as [[b s2]|] eqn:E2; [|done]. apply read_octet_dot in E2; [|lia].
  apply read_octet_reads in E1 as [(p & -> & _) _]. destruct Hs. rewrite elem_of_app. auto.
Qed.

(** Groups, each after a colon. *)
Definition colon_groups (g : list N) : Str := g ≫= fun x => 58 :: show_hex x.

Lemma show_groups_cons x g : show_groups (x :: g) = show_hex x ++ colon_groups g.
Proof.
  unfold show_groups. revert x. induction g as [|y g IH]; intros x; [cbn; by rewrite app_nil_r|]. change (map show_hex (x :: y :: g)) with (show_hex x :: map show_hex (y :: g)).
  rewrite join_cons by done. rewrite IH. done.
Qed.

(** Where the reading of groups stops. *)
Definition group_end (r : Str) : Prop := r = [] \/ exists r', r = 58 :: 58 :: r'.

Lemma group_end_stops r i : group_end r -> read_separator 58 i (read_number 16 65535 4 true) r = None /\ no_digit 16 r.
Proof. intros [->|(r' & ->)]; (split; [|done]); unfold read_separator; by destruct (0 <? i)%nat. Qed.

Lemma no_dot_groups g : Forall (fun x => x <= 65535) g -> 46 ∉ colon_groups g.
Proof.
  induction 1 as [|x g Hx _ IH]; [apply not_elem_of_nil|]. unfold colon_groups. cbn [mbind list_bind]. rewrite elem_of_app, elem_of_cons.
  intros [[?|Hin]|Hin]; [done| |by apply IH]. by destruct (hex_spec x Hx) as (_ & _ & ? & _).
Qed.

Lemma no_digit_groups g r : no_digit 16 r -> no_digit 16 (colon_groups g ++ r).
Proof. by destruct g. Qed.

Lemma read_groups_stop left i r : 46 ∉ r -> group_end r -> read_groups left i r = ([], false, r).
Proof.
  intros Hd He. destruct left as [|left]; [done|]. cbn [read_groups]. destruct (group_end_stops r i He) as [-> _].
  assert (Hs : read_separator 58 i read_ipv4_addr r = None).
  { unfold read_separator. destruct (0 <? i)%nat; [|by apply read_ipv4_no_dot]. destruct He as [->|(r' & ->)]; [done|]. cbn [read_given_char]. rewrite N.eqb_refl.
    apply read_ipv4_no_dot. intros Hin. apply Hd. by right. }
  rewrite Hs. by destruct (0 <? left)%nat.
Qed.

Lemma read_groups_colons g : forall left i r, Forall (fun x => x <= 65535) g -> (length g <= left)%nat -> (0 < i)%nat -> 46 ∉ r -> group_end r ->
  read_groups left i (colon_groups g ++ r) = (g, false, r).
Proof.
  induction g as [|x g IH]; intros left i r Hg Hl Hi Hd He; [by apply read_groups_stop|].
  apply Forall_cons in Hg as [Hx Hg]. destruct left as [|left]; [cbn in Hl; lia|]. cbn [read_groups].
  assert (Hs : forall A (read : Str -> option (A * Str)), read_separator 58 i read (colon_groups (x :: g) ++ r) = read (show_hex x ++ colon_groups g ++ r)).
  { intros A read. unfold read_separator. rewrite (proj2 (Nat.ltb_lt 0 i) Hi). unfold colon_groups. cbn [mbind list_bind]. rewrite <-app_assoc. cbn [app read_given_char].
    by rewrite N.eqb_refl. }
  rewrite !Hs. destruct (hex_spec x Hx) as (Hw & _ & Hnd & _ & _ & Hne).
  assert (H4 : read_ipv4_addr (show_hex x ++ colon_groups g ++ r) = None).
  { apply read_ipv4_no_dot. rewrite !elem_of_app. pose proof (no_dot_groups g Hg). tauto. }
  rewrite H4. rewrite (read_number_app 16 65535 4 true (show_hex x) x) by (try done; apply no_digit_groups; by apply (group_end_stops r i)).
  rewrite IH by (try done; cbn in Hl; lia). by destruct (0 <? left)%nat.
Qed.

Lemma read_groups_show g left r : Forall (fun x => x <= 65535) g -> (length g <= left)%nat -> 46 ∉ r -> group_end r ->
  read_groups left 0 (show_groups g ++ r) = (g, false, r).
Proof.
  destruct g as [|x g]; intros Hg Hl Hd He; [by apply read_groups_stop|]. rewrite show_groups_cons, <-app_assoc.
  apply Forall_cons in Hg as [Hx Hg]. destruct left as [|left]; [cbn in Hl; lia|]. cbn [read_groups]. unfold read_separator. change (0 <? 0)%nat with false.
  destruct (hex_spec x Hx) as (Hw & _ & Hnd & _ & _ & Hne).
  assert (H4 : read_ipv4_addr (show_hex x ++ colon_groups g ++ r) = None).
  { apply read_ipv4_no_dot. rewrite !elem_of_app. pose proof (no_dot_groups g Hg). tauto. }
  rewrite H4. rewrite (read_number_app 16 65535 4 true (show_hex x) x) by (try done; apply no_digit_groups; by apply (group_end_stops r 0)).
  rewrite read_groups_colons by (try done; cbn in Hl; lia). by destruct (0 <? left)%nat.
Qed.

(** ** The run of zeros that [Display] leaves out *)

Definition zeros (l : list N) (span : nat * nat) : Prop := (span.1 + span.2 <= length l)%nat /\ take span.2 (drop span.1 l) = repeat 0 span.2.

Lemma zeros_app l m span : zeros l span -> zeros (l ++ m) span.
Proof.
  intros [Hl Hz]. split; [rewrite length_app; lia|]. rewrite drop_app_le by lia. rewrite take_app_le by (rewrite length_drop; lia). done.
Qed.

Lemma zeros_snoc l st ln : zeros l (st, ln) -> (st + ln = length l)%nat -> zeros (l ++ [0]) (st, S ln).
Proof.
  cbn. intros [_ Hz] Hl. split; [cbn; rewrite length_app; cbn; lia|]. cbn [fst snd] in *. rewrite drop_app_le by lia.
  assert (Hd : drop st l = repeat 0 ln) by (rewrite <-Hz; symmetry; apply take_ge; rewrite length_drop; lia).
  rewrite Hd, take_ge by (rewrite length_app, repeat_length; cbn; lia). change [0] with (repeat 0 1). rewrite <-repeat_app. f_equal. lia.
Qed.

Lemma zero_span_ok groups pre cur best :
  (cur.2 = 0%nat \/ (cur.1 + cur.2 = length pre)%nat /\ zeros pre cur) -> zeros pre best -> zeros (pre ++ groups) (zero_span (length pre) cur best groups).
Proof.
  revert pre cur best. induction groups as [|g groups IH]; intros pre cur best Hc Hb; cbn [zero_span]; [by rewrite app_nil_r|].
  replace (pre ++ g :: groups) with ((pre ++ [g]) ++ groups) by (by rewrite <-app_assoc). replace (S (length pre)) with (length (pre ++ [g])) by (rewrite length_app; cbn; lia).
  destruct (N.eqb_spec g 0) as [->|]; [|apply IH; [by left|by apply zeros_app]].
  assert (Hcur : let cur' := (if (cur.2 =? 0)%nat then length pre else cur.1, S cur.2) in (cur'.1 + cur'.2 = length (pre ++ [0%N]))%nat /\ zeros (pre ++ [0]) cur').
  { cbn zeta. rewrite length_app. cbn [length]. destruct cur as [st ln]; cbn [fst snd] in *. destruct (Nat.eqb_spec ln 0) as [->|Hn].
    - cbn [fst snd]. split; [lia|]. apply zeros_snoc; [|lia]. split; [cbn; lia|done].
    - destruct Hc as [?|[Hl Hz]]; [done|]. split; [cbn [fst snd]; lia|by apply zeros_snoc]. }
  apply IH; [right; apply Hcur|]. destruct (_ <? _)%nat; [apply Hcur|by apply zeros_app].
Qed.

Lemma zero_span_spec g : zeros g (zero_span 0 (0, 0)%nat (0, 0)%nat g).
Proof. apply (zero_span_ok g [] (0, 0)%nat (0, 0)%nat); [by left|]. split; cbn; [lia|done]. Qed.

Lemma zeros_split l st ln : zeros l (st, ln) -> l = take st l ++ repeat 0 ln ++ drop (st + ln) l.
Proof. intros [Hl Hz]. cbn [fst snd] in *. rewrite <-Hz, <-drop_drop, take_drop, take_drop. done. Qed.

(** ** The round trip *)

Lemma no_dot_show_groups g : Forall (fun x => x <= 65535) g -> 46 ∉ show_groups g.
Proof.
  intros Hg. destruct g as [|x g]; [apply not_elem_of_nil|]. rewrite show_groups_cons, elem_of_app. apply Forall_cons in Hg as [Hx Hg].
  destruct (hex_spec x Hx) as (_ & _ & ? & _). pose proof (no_dot_groups g Hg). tauto.
Qed.

Lemma mapped_octets x y : x <= 65535 -> y <= 65535 ->
  octets_wf [x / 256; x mod 256; y / 256; y mod 256] /\ x / 256 * 256 + x mod 256 = x /\ y / 256 * 256 + y mod 256 = y.
Proof.
  intros Hx Hy. assert (Hd : forall z, z <= 65535 -> z / 256 <= 255 /\ z mod 256 <= 255 /\ z / 256 * 256 + z mod 256 = z).
  { intros z Hz. pose proof (N.mod_lt z 256 ltac:(lia)). pose proof (N.Div0.div_lt_upper_bound z 256 256 ltac:(lia)). pose proof (N.div_mod z 256 ltac:(lia)). lia. }
  destruct (Hd x Hx) as (? & ? & ?). destruct (Hd y Hy) as (? & ? & ?). split; [|done]. split; [done|]. by repeat constructor.
Qed.

(** An IPv4-mapped address, with its embedded address in dotted form. *)
Lemma read_mapped o a b c d : octets_wf o -> o = [a; b; c; d] ->
  read_ipv6_addr (str "::ffff:" ++ show_octets o) = Some ([0; 0; 0; 0; 0; 65535; a * 256 + b; c * 256 + d], []).
Proof.
  intros Hw ->. pose proof (read_ipv4_show [a; b; c; d] [] Hw I) as R4. rewrite app_nil_r in R4. revert R4. generalize (show_octets [a; b; c; d]). intros X R4.
  unfold read_ipv6_addr. assert (E1 : read_groups 8 0 (str "::ffff:" ++ X) = ([], false, str "::ffff:" ++ X)) by reflexivity. rewrite E1.
  assert (E2 : read_groups 7 0 (str "ffff:" ++ X) = ([65535; a * 256 + b; c * 256 + d], true, [])).
  { assert (E3 : forall l, read_groups (S l) 0 (str "ffff:" ++ X) = let '(gs, v4, s) := read_groups l 1 (58 :: X) in (65535 :: gs, v4, s)) by (intros []; reflexivity).
    rewrite E3. assert (E4 : forall l, read_groups (S (S l)) 1 (58 :: X) = ([a * 256 + b; c * 256 + d], true, [])); [|by rewrite E4].
    intros l. cbn [read_groups]. unfold read_separator at 1. change (0 <? S l)%nat with true. change (0 <? 1)%nat with true. cbn [read_given_char]. rewrite N.eqb_refl. by rewrite R4. }
  change (str "::ffff:" ++ X) with (58 :: 58 :: str "ffff:" ++ X). revert E2. generalize (str "ffff:" ++ X). intros Y E2. cbn [length Nat.eqb read_given_char]. rewrite !N.eqb_refl. cbn [mbind option_bind].
  cbn [read_given_char]. rewrite N.eqb_refl. cbn [mbind option_bind]. change (8 - (0 + 1))%nat with 7%nat. rewrite E2. done.
Qed.

Lemma read_ipv6_show g : ip_wf (V6 g) -> read_ipv6_addr (show_ipv6 g) = Some (g, []).
Proof.
  intros [Hlen Hg]. unfold show_ipv6. case_bool_decide as Hm.
  - assert (Hs : g = [0; 0; 0; 0; 0; 65535] ++ drop 6 g) by (rewrite <-Hm; symmetry; apply take_drop). clear Hm. rewrite Hs in Hlen, Hg. rewrite length_app in Hlen.
    apply Forall_app in Hg as [_ Hg]. destruct (drop 6 g) as [|x [|y [|]]]; try done. rewrite !Forall_cons in Hg. destruct Hg as (Hx & Hy & _).
    destruct (mapped_octets x y Hx Hy) as (Hw & Ex & Ey). rewrite (read_mapped _ _ _ _ _ Hw eq_refl), Ex, Ey, Hs. done.
  - destruct (zero_span 0 (0, 0)%nat (0, 0)%nat g) as [st ln] eqn:E. pose proof (zero_span_spec g) as Hz. rewrite E in Hz.
    unfold read_ipv6_addr. destruct (Nat.ltb_spec 1 ln) as [Hl|_].
    + pose proof (zeros_split g st ln Hz) as Hs. destruct Hz as [Hb _]. cbn [fst snd] in Hb.
      assert (Hf : Forall (fun x => x <= 65535) (take st g)) by by apply Forall_take. assert (Hk : Forall (fun x => x <= 65535) (drop (st + ln) g)) by by apply Forall_drop.
      change (str "::") with [58; 58]. cbn [app].
      rewrite read_groups_show; [|done|rewrite length_take; lia| |right; eauto].
      2: { rewrite !elem_of_cons. pose proof (no_dot_show_groups _ Hk). naive_solver. }
      rewrite length_take_le by lia. destruct (Nat.eqb_spec st 8); [lia|]. do 2 (cbn [read_given_char]; rewrite N.eqb_refl; cbn [mbind option_bind]).
      rewrite <-(app_nil_r (show_groups (drop (st + ln) g))). rewrite read_groups_show; [|done|rewrite length_drop; lia|apply not_elem_of_nil|by left].
      rewrite length_drop. replace (8 - st - (length g - (st + ln)))%nat with ln by lia. by rewrite <-Hs.
    + rewrite <-(app_nil_r (show_groups g)). rewrite read_groups_show; [|done|lia|apply not_elem_of_nil|by left]. by rewrite Hlen.
Qed.

Lemma no_dot_show_ipv6 g : ip_wf (V6 g) -> read_ipv4_addr (show_ipv6 g) = None.
Proof.
  intros [Hlen Hg]. unfold show_ipv6. assert (Hplain : read_ipv4_addr (let '(start, len) := zero_span 0 (0, 0)%nat (0, 0)%nat g in
      if (1 <? len)%nat then show_groups (take start g) ++ str "::" ++ show_groups (drop (start + len) g) else show_groups g) = None).
  { destruct (zero_span 0 _ _ g) as [st ln]. apply read_ipv4_no_dot. destruct (1 <? ln)%nat; [|by apply no_dot_show_groups].
    rewrite !elem_of_app. pose proof (no_dot_show_groups _ (Forall_take _ st _ Hg)). pose proof (no_dot_show_groups _ (Forall_drop _ (st + ln) _ Hg)).
    change (str "::") with [58; 58]. rewrite !elem_of_cons, elem_of_nil. naive_solver. }
  destruct (if bool_decide _ then drop 6 g else []) as [|x [|y [|]]]; try exact Hplain. done.
Qed.

(** An address is read back from its text. *)
Lemma parse_show_ip ip : ip_wf ip -> parse_ip (show_ip ip) = Some ip.
Proof.
  intros Hw. unfold parse_ip. destruct ip as [o|g]; cbn [show_ip].
  - rewrite <-(app_nil_r (show_octets o)). by rewrite (read_ipv4_show o []).
  - rewrite no_dot_show_ipv6, read_ipv6_show by done. done.
Qed.
