(* ===== verification/DiscoveryHosts.v ===== *)
(** * DiscoveryHosts: what passes for a host or an origin

    The theorems on the text a peer may advertise: what [sanitize_host_port] and
    [sanitize_http_origin] let through, and where an accepted beacon points. *)

From S2P Require Import Prelude Collections RustStr Float Capabilities Placement Blob BlobProps Task Protocol ClusterAuth Auth Discovery DiscoveryAddr.
Local Open Scope N_scope.

(** ** Text *)

Lemma rsplit_once_app c a b : c ∉ b -> rsplit_once c (a ++ c :: b) = Some (a, b).
Proof.
  intros Hb. assert (Hn : rsplit_once c b = None).
  { induction b as [|x b IH]; [done|]. rewrite not_elem_of_cons in Hb. destruct Hb as [Hx Hb]. cbn. rewrite IH by done. by destruct (N.eqb_spec x c). }
  induction a as [|x a IH]; cbn; [by rewrite Hn, N.eqb_refl|]. by rewrite IH.
Qed.

Lemma rsplit_once_spec c s a b : rsplit_once c s = Some (a, b) -> s = a ++ c :: b /\ c ∉ b.
Proof.
  revert a b. induction s as [|x s IH]; intros a b; cbn; [done|]. destruct (rsplit_once c s) as [[a' b']|] eqn:E.
  - intros [= <- <-]. destruct (IH a' b' eq_refl) as [-> ?]. done.
  - destruct (N.eqb_spec x c) as [->|]; [|done]. intros [= <- <-]. split; [done|]. clear IH. induction s as [|y s IH]; [apply not_elem_of_nil|]. cbn in E.
    destruct (rsplit_once c s) as [[]|]; [done|]. destruct (N.eqb_spec y c); [done|]. rewrite not_elem_of_cons. auto.
Qed.

Lemma split_once_spec c s a b : split_once c s = Some (a, b) -> s = a ++ c :: b /\ c ∉ a.
Proof.
  revert a b. induction s as [|x s IH]; intros a b; cbn; [done|]. destruct (N.eqb_spec x c) as [->|]; [intros [= <- <-]; split; [done|apply not_elem_of_nil]|].
  destruct (split_once c s) as [[a' b']|]; [|done]. intros [= <- <-]. destruct (IH a' b' eq_refl) as [-> ?]. split; [done|]. rewrite not_elem_of_cons. auto.
Qed.

Lemma split_once_none c s : split_once c s = None <-> c ∉ s.
Proof.
  induction s as [|x s IH]; cbn; [split; [intros; apply not_elem_of_nil|done]|]. rewrite not_elem_of_cons. destruct (N.eqb_spec x c) as [->|]; [naive_solver|].
  destruct (split_once c s) as [[]|]; naive_solver.
Qed.

Lemma parse_digits_bound max acc s n : acc <= max -> parse_digits max acc s = Some n -> n <= max.
Proof.
  revert acc. induction s as [|c s IH]; intros acc Ha; cbn; [by intros [= <-]|]. destruct (_ && _); [|done].
  destruct (N.leb_spec (acc * 10 + (c - 48)) max); [|done]. by apply IH.
Qed.

Lemma parse_u16_bound s n : parse_u16 s = Some n -> n <= u16_max.
Proof. unfold parse_u16. destruct s as [|c s]; [done|]. destruct (is_empty _); [done|]. apply parse_digits_bound. done. Qed.

Lemma nonzero_Some n m : nonzero n = Some m <-> n = m /\ m <> 0.
Proof. unfold nonzero. destruct (N.eqb_spec n 0); naive_solver. Qed.

(** ** Characters of a host *)

Definition host_char (c : char) : bool := is_alnum c || (c =? 45) || (c =? 95) || (c =? 46).
Definition safe_char (c : char) : bool := host_char c || (c =? 58) || (c =? 47) || (c =? 91) || (c =? 93).

Lemma nibble_alnum c : is_Some (nibble c) -> is_alnum c.
Proof.
  unfold nibble, is_alnum. destruct (_ && _) eqn:E1; [done|]. destruct ((97 <=? c) && _) eqn:E2; [|destruct ((65 <=? c) && (c <=? 70)) eqn:E3; [|by intros []]].
  - apply andb_prop in E2 as [?%N.leb_le ?%N.leb_le]. intros _. apply orb_True. right. apply Is_true_true, andb_true_intro. split; apply N.leb_le; lia.
  - apply andb_prop in E3 as [?%N.leb_le ?%N.leb_le]. intros _. apply orb_True. left. apply orb_True. right. apply Is_true_true, andb_true_intro. split; apply N.leb_le; lia.
Qed.

Lemma ip_char_cases c : ip_char c -> host_char c \/ c = 58.
Proof.
  unfold ip_char. rewrite !orb_True. intros [[Hn%bool_decide_spec|Hd%Is_true_true%N.eqb_eq]|Hc%Is_true_true%N.eqb_eq].
  - left. unfold host_char. rewrite !orb_True. left. left. left. by apply nibble_alnum.
  - left. by subst.
  - by right.
Qed.

Lemma host_char_safe c : host_char c -> safe_char c.
Proof. unfold safe_char. rewrite !orb_True. auto. Qed.
Lemma ip_char_safe c : ip_char c -> safe_char c.
Proof. intros [?%host_char_safe| ->]%ip_char_cases; done. Qed.

(** A byte test of ASCII bytes is a test of the characters. *)
Lemma bytes_all (p : N -> bool) s : (forall b, p b -> b < 128) -> forallb p (utf8_encode s) = true -> Forall p s.
Proof.
  intros Hp. unfold utf8_encode. induction s as [|c s IH]; [done|]. cbn [mbind list_bind]. rewrite forallb_app. intros [Hc Hs]%andb_prop. constructor; [|by apply IH].
  assert (Hh : exists b r, utf8_encode_char c = b :: r /\ (b < 128 -> b = c)).
  { unfold utf8_encode_char. repeat case_match; eexists _, _; (split; [reflexivity|]); try done; match goal with |- _ + ?x < _ -> _ => generalize x; lia end. }
  destruct Hh as (b & r & E & Hb). rewrite E in Hc. cbn in Hc. apply andb_prop in Hc as [Hc%Is_true_true _]. rewrite Hb in Hc by (by apply Hp). done.
Qed.

Lemma valid_label_chars l : valid_label l = true -> Forall host_char l /\ l <> [].
Proof.
  unfold valid_label. intros [[[[He _]%andb_prop _]%andb_prop _]%andb_prop Hb]%andb_prop. split; [|by destruct l].
  apply bytes_all in Hb; [|]. 2: { intros b. rewrite !orb_True. unfold is_alnum. rewrite !orb_True, !andb_True. intros Hc.
    repeat match goal with H : _ \/ _ |- _ => destruct H | H : _ /\ _ |- _ => destruct H end; repeat match goal with H : Is_true (_ <=? _) |- _ => apply Is_true_true, N.leb_le in H | H : Is_true (_ =? _) |- _ => apply Is_true_true, N.eqb_eq in H end; lia. }
  eapply Forall_impl; [exact Hb|]. intros c. unfold host_char. rewrite !orb_True. tauto.
Qed.

Lemma split_chars (P : char -> Prop) c s : P c -> Forall (Forall P) (split c s) -> Forall P s.
Proof.
  intros Hc. rewrite <-(join_split c s) at 2. generalize (split c s). intros l Hl. induction Hl as [|x l Hx Hl IH]; [done|].
  destruct l as [|y l]; [done|]. rewrite join_cons by done. apply Forall_app. split; [done|]. by constructor.
Qed.

(** A valid host is an address literal, or a name of host characters. *)
Lemma valid_host_cases h : is_valid_host h = true -> h <> [] /\ ((exists ip, parse_ip h = Some ip) \/ parse_ip h = None /\ Forall host_char h).
Proof.
  unfold is_valid_host. destruct (is_empty h) eqn:E; [done|]. destruct (253 <? str_len h); [done|]. cbn [orb]. intros Hv.
  split; [by destruct h|]. case_bool_decide as Hip; [left; exact Hip|]. right. split; [by apply eq_None_not_Some|].
  apply (split_chars _ 46); [done|]. apply Forall_forall. intros l Hl%list_elem_of_In. rewrite forallb_forall in Hv. by apply valid_label_chars, Hv.
Qed.

Lemma valid_host_chars h : is_valid_host h = true -> Forall safe_char h /\ (parse_ip h = None -> 58 ∉ h).
Proof.
  intros [_ [[ip Hip]|[Hn Hh]]]%valid_host_cases; (split; [|intros Hp]).
  - apply parse_ip_wf in Hip as [Hip _]. eapply Forall_impl; [exact Hip|]. apply ip_char_safe.
  - congruence.
  - eapply Forall_impl; [exact Hh|]. apply host_char_safe.
  - rewrite Forall_forall in Hh. intros Hin. by apply Hh in Hin.
Qed.

Lemma show_ip_nonempty ip : ip_wf ip -> show_ip ip <> [].
Proof. intros Hw Hn. pose proof (parse_show_ip ip Hw) as Hp. by rewrite Hn in Hp. Qed.

Lemma str_len_of_ascii s : Forall (fun c => c < 128) s -> str_len s = N.of_nat (length s).
Proof.
  induction 1 as [|c s Hc _ IH]; [done|]. cbn [str_len foldr length]. change (foldr _ 0 s) with (str_len s). rewrite IH. unfold utf8_char_len.
  apply N.ltb_lt in Hc as ->. lia.
Qed.

Lemma safe_char_ascii c : safe_char c -> c < 128.
Proof.
  unfold safe_char, host_char, is_alnum. rewrite !orb_True, !andb_True. intros Hc.
  repeat match goal with H : _ \/ _ |- _ => destruct H | H : _ /\ _ |- _ => destruct H end;
  repeat match goal with H : Is_true (_ <=? _) |- _ => apply Is_true_true, N.leb_le in H | H : Is_true (_ =? _) |- _ => apply Is_true_true, N.eqb_eq in H end; lia.
Qed.

Lemma length_colon_groups g : Forall (fun x => x <= 65535) g -> (length (colon_groups g) <= 5 * length g)%nat.
Proof.
  induction 1 as [|x g Hx _ IH]; [done|]. unfold colon_groups in *. cbn [mbind list_bind]. rewrite length_app. cbn [length].
  destruct (hex_spec x Hx) as (_ & _ & _ & _ & ? & _). lia.
Qed.

Lemma length_show_groups g : Forall (fun x => x <= 65535) g -> (length (show_groups g) <= 5 * length g)%nat.
Proof.
  intros Hg. destruct g as [|x g]; [cbn; lia|]. rewrite show_groups_cons, length_app. apply Forall_cons in Hg as [Hx Hg].
  destruct (hex_spec x Hx) as (_ & _ & _ & _ & ? & _). pose proof (length_colon_groups g Hg). cbn [length]. lia.
Qed.

Lemma length_show_octets o : octets_wf o -> (length (show_octets o) <= 15)%nat.
Proof.
  intros [Hl Ho]. destruct o as [|a [|b [|c [|d [|]]]]]; try done. rewrite !Forall_cons in Ho. destruct Ho as (Ha & Hb & Hc & Hd & _).
  change (show_octets [a; b; c; d]) with (show_N a ++ 46 :: show_N b ++ 46 :: show_N c ++ 46 :: show_N d).
  destruct (octet_spec a Ha) as (_ & _ & ?), (octet_spec b Hb) as (_ & _ & ?), (octet_spec c Hc) as (_ & _ & ?), (octet_spec d Hd) as (_ & _ & ?).
  repeat (rewrite length_app; cbn [length]). lia.
Qed.

Lemma length_show_ip ip : ip_wf ip -> (length (show_ip ip) <= 253)%nat.
Proof.
  destruct ip as [o|g]; intros Hw; cbn [show_ip]; [pose proof (length_show_octets o Hw); lia|]. destruct Hw as [Hl Hg]. unfold show_ipv6.
  assert (Hplain : (length (let '(start, len) := zero_span 0 (0, 0)%nat (0, 0)%nat g in
      if (1 <? len)%nat then show_groups (take start g) ++ str "::" ++ show_groups (drop (start + len) g) else show_groups g) <= 253)%nat).
  { destruct (zero_span 0 _ _ g) as [st ln]. destruct (1 <? ln)%nat; [|pose proof (length_show_groups g Hg); lia]. change (str "::") with [58; 58]. rewrite !length_app. cbn [length].
    pose proof (length_show_groups _ (Forall_take _ st _ Hg)) as H1. pose proof (length_show_groups _ (Forall_drop _ (st + ln) _ Hg)) as H2.
    rewrite length_take in H1. rewrite length_drop in H2. lia. }
  destruct (bool_decide _); [|exact Hplain]. pose proof (Forall_drop _ 6 _ Hg) as Hd. destruct (drop 6 g) as [|x [|y [|]]]; try exact Hplain.
  rewrite !Forall_cons in Hd. destruct Hd as (Hx & Hy & _). destruct (mapped_octets x y Hx Hy) as (Hw & _). pose proof (length_show_octets _ Hw).
  rewrite length_app. change (length (str "::ffff:")) with 7%nat. lia.
Qed.

(** The text of an address is a valid host that reads back as that address. *)
Lemma show_ip_valid ip : ip_wf ip -> is_valid_host (show_ip ip) = true /\ Forall safe_char (show_ip ip).
Proof.
  intros Hw. pose proof (parse_show_ip ip Hw) as Hp. pose proof (show_ip_nonempty ip Hw) as Hne. pose proof (length_show_ip ip Hw) as Hlen.
  destruct (parse_ip_wf _ _ Hp) as [Hc _].
  assert (Hs : Forall safe_char (show_ip ip)) by (eapply Forall_impl; [exact Hc|apply ip_char_safe]). split; [|done].
  unfold is_valid_host. rewrite str_len_of_ascii by (eapply Forall_impl; [exact Hs|apply safe_char_ascii]).
  destruct (show_ip ip) eqn:E; [done|]. rewrite <-E in *. assert (Hb : 253 <? N.of_nat (length (show_ip ip)) = false) by (apply N.ltb_ge; lia).
  rewrite Hb, Hp. rewrite E. done.
Qed.

(** ** [host:port] *)

Lemma port_text n : n <= u16_max -> n <> 0 -> parse_u16 (show_N n) = Some n /\ nonzero n = Some n /\ 58 ∉ show_N n /\ Forall safe_char (show_N n) /\ parse_origin_port (show_N n) = Some n
  /\ last (show_N n) <> Some 47 /\ show_N n <> [].
Proof.
  intros Hn Hz. destruct (decimal_spec n Hn) as (Hp & Hd & Hne).
  assert (Hnz : nonzero n = Some n) by (by apply nonzero_Some).
  assert (Hsafe : Forall safe_char (show_N n)).
  { eapply Forall_impl; [exact Hd|]. intros c Hc. apply host_char_safe. unfold host_char, is_alnum. rewrite !orb_True. left. left. left. by left; left. }
  split; [done|]. split; [done|]. rewrite Forall_forall in Hd. split; [by intros Hin%Hd|]. split; [done|]. split; [|split; [|done]].
  - unfold parse_origin_port. rewrite utf8_encode_ascii by (eapply Forall_impl; [exact Hsafe|apply safe_char_ascii]).
    assert (Ha : forallb is_digit (show_N n) = true) by (apply forallb_forall; intros x Hx%list_elem_of_In; by apply Is_true_true, Hd).
    by rewrite Ha, Hp.
  - intros Hl%last_Some_elem_of. by apply Hd in Hl.
Qed.

Lemma split_host_port_bracket h n : n <= u16_max -> n <> 0 -> h <> [] -> split_host_port (str "[" ++ h ++ str "]:" ++ show_N n) = Some (h, n).
Proof.
  intros Hn Hz Hh. destruct (port_text n Hn Hz) as (Hp & Hnz & H58 & _). unfold split_host_port.
  replace (str "[" ++ h ++ str "]:" ++ show_N n) with ((91 :: h ++ [93]) ++ 58 :: show_N n) by (change (str "[") with [91]; change (str "]:") with [93; 58]; cbn; by rewrite <-app_assoc).
  rewrite rsplit_once_app by done. cbn [mbind option_bind]. rewrite Hp. cbn [mbind option_bind]. rewrite Hnz. cbn [mbind option_bind].
  change (strip_prefix (str "[") (91 :: h ++ [93])) with (Some (h ++ [93])). cbn [mbind option_bind]. unfold strip_suffix_char. rewrite last_snoc, N.eqb_refl, removelast_last. cbn [default].
  by destruct h.
Qed.

Lemma split_host_port_plain h n : n <= u16_max -> n <> 0 -> h <> [] -> 91 ∉ h -> split_host_port (h ++ str ":" ++ show_N n) = Some (h, n).
Proof.
  intros Hn Hz Hh Hb. destruct (port_text n Hn Hz) as (Hp & Hnz & H58 & _). unfold split_host_port. change (str ":") with [58]. cbn [app].
  rewrite rsplit_once_app by done. cbn [mbind option_bind]. rewrite Hp. cbn [mbind option_bind]. rewrite Hnz. cbn [mbind option_bind].
  assert (Hs : strip_prefix (str "[") h = None).
  { destruct h as [|x h]; [done|]. rewrite not_elem_of_cons in Hb. change (str "[") with [91]. cbn [strip_prefix]. destruct (N.eqb_spec 91 x); [naive_solver|done]. }
  rewrite Hs. cbn [mbind option_bind default]. by destruct h.
Qed.

Lemma split_host_port_port a h n : split_host_port a = Some (h, n) -> n <= u16_max /\ n <> 0 /\ h <> [].
Proof.
  unfold split_host_port. destruct (rsplit_once 58 a) as [[host port]|]; [|done]. cbn [mbind option_bind]. destruct (parse_u16 port) as [m|] eqn:E; [|done]. cbn [mbind option_bind].
  destruct (nonzero m) as [m'|] eqn:Ez; [|done]. cbn [mbind option_bind]. apply nonzero_Some in Ez as [-> Hz]. apply parse_u16_bound in E.
  destruct (default host _) as [|x h']; cbn [is_empty]; [done|]. intros [= <- <-]. done.
Qed.

Lemma valid_host_excludes h c : is_valid_host h = true -> host_char c = false -> c <> 58 -> c ∉ h.
Proof.
  intros [_ [[ip [Hip _]%parse_ip_wf]|[_ Hh]]]%valid_host_cases Hc H58 Hin.
  - rewrite Forall_forall in Hip. destruct (ip_char_cases c (Hip c Hin)) as [Hb|?]; [by rewrite Hc in Hb|done].
  - rewrite Forall_forall in Hh. apply Hh in Hin. by rewrite Hc in Hin.
Qed.

(** What [sanitize_host_port] returns is canonical and safe to reflect: it has only
    characters that need no escaping in a header, an attribute or a script, it names a valid
    host and a nonzero 16-bit port, and sanitizing it again changes nothing. *)
Theorem host_port_canonical a s : sanitize_host_port a = Some s ->
  Forall safe_char s /\ sanitize_host_port s = Some s
  /\ exists h n, split_host_port s = Some (h, n) /\ is_valid_host h = true /\ 0 < n <= u16_max.
Proof.
  unfold sanitize_host_port at 1. destruct (split_host_port a) as [[h n]|] eqn:E; [|done]. cbn [mbind option_bind].
  apply split_host_port_port in E as (Hn & Hz & Hne). destruct (is_valid_host h) eqn:Hv; [|done].
  assert (Hn' : 0 < n <= u16_max) by lia. destruct (port_text n Hn Hz) as (_ & _ & _ & Hps & _).
  destruct (valid_host_chars h Hv) as [Hc _]. pose proof (valid_host_excludes h 91 Hv eq_refl ltac:(done)) as H91.
  assert (Hplain : parse_ip h = None \/ (exists o, parse_ip h = Some (V4 o)) ->
    Forall safe_char (h ++ str ":" ++ show_N n) /\ sanitize_host_port (h ++ str ":" ++ show_N n) = Some (h ++ str ":" ++ show_N n)
    /\ exists h' n', split_host_port (h ++ str ":" ++ show_N n) = Some (h', n') /\ is_valid_host h' = true /\ 0 < n' <= u16_max).
  { intros Hip. pose proof (split_host_port_plain h n Hn Hz Hne H91) as Hs. split; [rewrite !Forall_app; split; [done|]; split; [by repeat constructor|done]|].
    split; [|eauto]. unfold sanitize_host_port. rewrite Hs. cbn [mbind option_bind]. rewrite Hv. destruct Hip as [->|[o ->]]; done. }
  destruct (parse_ip h) as [[o|g]|] eqn:Hip; intros Hr; apply (inj Some) in Hr as <-; [apply Hplain; eauto| |apply Hplain; auto].
  apply parse_ip_wf in Hip as [_ Hw]. destruct (show_ip_valid (V6 g) Hw) as [Hv' Hc']. cbn [show_ip] in Hv', Hc'.
  pose proof (split_host_port_bracket (show_ipv6 g) n Hn Hz (show_ip_nonempty (V6 g) Hw)) as Hs.
  split; [rewrite !Forall_app; split; [by repeat constructor|]; split; [done|]; split; [by repeat constructor|done]|]. split; [|eauto].
  unfold sanitize_host_port. rewrite Hs. cbn [mbind option_bind]. rewrite Hv'. by rewrite (parse_show_ip (V6 g) Hw : parse_ip (show_ipv6 g) = _).
Qed.

(** ** Origins *)

Lemma strip_suffix_char_none c s : last s <> Some c -> strip_suffix_char c s = None.
Proof. unfold strip_suffix_char. destruct (last s) as [x|]; [|done]. destruct (N.eqb_spec x c); naive_solver. Qed.

Lemma trim_start_split p s : exists q, s = q ++ trim_start_matches p s /\ Forall p q.
Proof.
  induction s as [|x s (q & Hs & Hq)]; [by exists []|]. cbn [trim_start_matches]. destruct (p x) eqn:E; [|by exists []].
  exists (x :: q). split; [cbn; by f_equal|]. constructor; [by apply Is_true_true|done].
Qed.

Lemma trim_end_split p s : exists q, s = trim_end_matches p s ++ q /\ Forall p q.
Proof.
  destruct (trim_start_split p (reverse s)) as (q & Hs & Hq). exists (reverse q). split; [|by apply Forall_reverse].
  unfold trim_end_matches. rewrite <-reverse_app, <-Hs. by rewrite reverse_involutive.
Qed.

Lemma bare_host_chars h : is_valid_host (bare_host h) = true -> Forall safe_char h /\ h <> [] /\ 47 ∉ h.
Proof.
  intros Hv. destruct (valid_host_chars _ Hv) as [Hc _]. pose proof (valid_host_excludes _ 47 Hv eq_refl ltac:(done)) as H47.
  destruct (trim_start_split (N.eqb 91) h) as (q & Hh & Hq). destruct (trim_end_split (N.eqb 93) (trim_start_matches (N.eqb 91) h)) as (r & Ht & Hr).
  fold (bare_host h) in Ht. rewrite Ht in Hh. rewrite Forall_forall in Hq, Hr.
  assert (Hq' : forall c, c ∈ q -> c = 91) by (intros c Hin%Hq; by apply Is_true_true, N.eqb_eq in Hin).
  assert (Hr' : forall c, c ∈ r -> c = 93) by (intros c Hin%Hr; by apply Is_true_true, N.eqb_eq in Hin).
  split; [|split; [by intros -> |]].
  - rewrite Hh, !Forall_app. split; [apply Forall_forall; by intros c ->%Hq'|]. split; [done|]. apply Forall_forall. by intros c ->%Hr'.
  - rewrite Hh, !elem_of_app. intros [?%Hq'|[?|?%Hr']]; done.
Qed.

(** An authority is a bracketed IPv6 literal or a text without a colon before the port. *)
Lemma split_authority_cases a h p : split_authority a = Some (h, p) ->
  (exists inner g, h = 91 :: inner ++ [93] /\ 93 ∉ inner /\ parse_ipv6 inner = Some g) \/ (58 ∉ h /\ head a <> Some 91 /\ h `prefix_of` a).
Proof.
  unfold split_authority. generalize parse_ipv6 as read. intros read. destruct (strip_prefix (str "[") a) as [br|] eqn:Eb.
  - intros Hs. left. destruct (split_once 93 br) as [[inner tail]|] eqn:E; [|done]. cbn [mbind option_bind] in Hs. apply split_once_spec in E as [_ H93].
    destruct (read inner) as [g|] eqn:Ei; [|done]. cbn [mbind option_bind] in Hs. destruct (match tail with [] => _ | _ => _ end) as [port|]; [|done].
    cbn [mbind option_bind] in Hs. apply (inj Some), (f_equal fst) in Hs. cbn [fst] in Hs. exists inner, g. by rewrite <-Hs.
  - intros Hs. right. assert (Hh : head a <> Some 91) by (destruct a as [|x a]; [done|]; intros [= ->]; done).
    destruct (split_once 58 a) as [[h' p']|] eqn:E; apply (inj Some), (f_equal fst) in Hs; cbn [fst] in Hs; subst h.
    + apply split_once_spec in E as [-> ?]. split; [done|]. split; [done|]. by exists (58 :: p').
    + split; [by apply split_once_none|done].
Qed.

Lemma split_authority_bracket inner g tail port : 93 ∉ inner -> parse_ipv6 inner = Some g ->
  (tail = [] /\ port = None \/ exists p, tail = 58 :: p /\ port = Some p) -> split_authority ((91 :: inner ++ [93]) ++ tail) = Some (91 :: inner ++ [93], port).
Proof.
  intros H93 Hg Ht. unfold split_authority. revert Hg. generalize parse_ipv6 as read. intros read Hg. cbn [app]. rewrite <-app_assoc. cbn [app].
  replace (strip_prefix (str "[") (91 :: inner ++ 93 :: tail)) with (Some (inner ++ 93 :: tail)) by done.
  rewrite split_once_app by done. cbn [mbind option_bind]. rewrite Hg. cbn [mbind option_bind]. destruct Ht as [[-> ->]|(p & -> & ->)]; [done|].
  replace (strip_prefix (str ":") (58 :: p)) with (Some p) by done. done.
Qed.

Lemma split_authority_plain h tail port : 58 ∉ h -> h <> [] -> head h <> Some 91 ->
  (tail = [] /\ port = None \/ exists p, tail = 58 :: p /\ port = Some p) -> split_authority (h ++ tail) = Some (h, port).
Proof.
  intros H58 Hne Hh Ht. unfold split_authority. generalize parse_ipv6 as read. intros read. assert (Hs : strip_prefix (str "[") (h ++ tail) = None).
  { destruct h as [|x h]; [done|]. replace (str "[") with [91] by done. cbn [strip_prefix app]. destruct (N.eqb_spec 91 x); [naive_solver|done]. }
  rewrite Hs. destruct Ht as [[-> ->]|(p & -> & ->)]; [|by rewrite split_once_app]. rewrite app_nil_r. by rewrite (proj2 (split_once_none 58 h)).
Qed.

(** A host as [split_authority] finds it again. *)
Lemma split_authority_stable a h p : split_authority a = Some (h, p) -> is_valid_host (bare_host h) = true ->
  split_authority h = Some (h, None) /\ forall p', split_authority (h ++ 58 :: p') = Some (h, Some p').
Proof.
  intros Hs Hv. destruct (bare_host_chars h Hv) as (_ & Hne & _). destruct (split_authority_cases _ _ _ Hs) as [(inner & g & -> & H93 & Hg)|(H58 & Hh & [k ->])].
  - split; [|intros p'; apply (split_authority_bracket inner g); eauto]. rewrite <-(app_nil_r (91 :: inner ++ [93])) at 1. apply (split_authority_bracket inner g); auto.
  - assert (Hh' : head h <> Some 91) by by destruct h. split; [|intros p'; apply split_authority_plain; eauto].
    rewrite <-(app_nil_r h) at 1. apply split_authority_plain; auto.
Qed.

Definition http_scheme (scheme : Str) : Prop := scheme = str "http" \/ scheme = str "https".

Lemma split_http_scheme_http url scheme rest : split_http_scheme url = Some (scheme, rest) -> http_scheme scheme.
Proof. unfold split_http_scheme, http_scheme. repeat case_match; intros Hs; try done; apply (inj Some), (f_equal fst) in Hs; cbn [fst] in Hs; auto. Qed.

Lemma split_http_scheme_again scheme rest : http_scheme scheme -> split_http_scheme (scheme ++ str "://" ++ rest) = Some (scheme, rest).
Proof. intros [->| ->]; reflexivity. Qed.

Lemma last_host_port h n : n <= u16_max -> n <> 0 -> 47 ∉ h -> strip_suffix_char 47 (h ++ str ":" ++ show_N n) = None.
Proof.
  intros Hn Hz H47. destruct (port_text n Hn Hz) as (_ & _ & _ & _ & _ & Hl & Hne). apply strip_suffix_char_none.
  rewrite app_assoc, last_app. destruct (last (show_N n)) as [x|] eqn:E; [done|]. by apply last_None in E.
Qed.

(** What [sanitize_http_origin] returns can be reflected verbatim: it is [http://] or
    [https://], a host and an optional nonzero port, without any character that needs
    escaping, and sanitizing it again changes nothing. *)
Theorem origin_canonical url o : sanitize_http_origin url = Some o ->
  Forall safe_char o /\ sanitize_http_origin o = Some o
  /\ exists scheme h, http_scheme scheme /\ is_valid_host (bare_host h) = true
     /\ (o = scheme ++ str "://" ++ h \/ exists n, 0 < n <= u16_max /\ o = scheme ++ str "://" ++ h ++ str ":" ++ show_N n).
Proof.
  unfold sanitize_http_origin at 1. destruct (split_http_scheme url) as [[scheme rest]|] eqn:Es; [|done]. cbn [mbind option_bind]. apply split_http_scheme_http in Es.
  destruct (split_authority _) as [[h port]|] eqn:Ea; [|done]. cbn [mbind option_bind]. destruct (is_valid_host (bare_host h)) eqn:Hv; [|done]. cbn [negb].
  destruct (bare_host_chars h Hv) as (Hc & Hne & H47). destruct (split_authority_stable _ _ _ Ea Hv) as [Hsame Hport].
  assert (Hcs : Forall safe_char scheme /\ Forall safe_char (str "://")) by (split; [destruct Es as [->| ->]|]; by repeat constructor).
  destruct port as [p|].
  - unfold parse_origin_port at 1. destruct (forallb _ _); [|done]. destruct (parse_u16 p) as [m|] eqn:Em; [|done]. apply parse_u16_bound in Em. cbn [mbind option_bind].
    destruct (nonzero m) as [n|] eqn:Enz; [|done]. apply nonzero_Some in Enz as [-> Hz]. cbn [mbind option_bind]. intros Hr; apply (inj Some) in Hr as <-.
    destruct (port_text n Em Hz) as (_ & _ & _ & Hps & Hop & _). split; [rewrite !Forall_app; repeat split; try apply Hcs; try done; by repeat constructor|].
    split; [|exists scheme, h; repeat split; try done; right; exists n; split; [lia|done]].
    unfold sanitize_http_origin. rewrite split_http_scheme_again by done. cbn [mbind option_bind]. rewrite last_host_port by done. cbn [default].
    replace (h ++ str ":" ++ show_N n) with (h ++ 58 :: show_N n) by done. rewrite Hport. cbn [mbind option_bind]. by rewrite Hv, Hop.
  - intros Hr; apply (inj Some) in Hr as <-. split; [rewrite !Forall_app; repeat split; try apply Hcs; done|].
    split; [|exists scheme, h; repeat split; try done; by left].
    unfold sanitize_http_origin. rewrite split_http_scheme_again by done. cbn [mbind option_bind].
    rewrite strip_suffix_char_none by (intros ?%last_Some_elem_of; done). cbn [default]. rewrite Hsame. cbn [mbind option_bind]. by rewrite Hv.
Qed.

Lemma origin_canonical_witness : exists o, sanitize_http_origin (str "HTTPS://[2001:DB8::1]:0443/") = Some o
  /\ o = str "https://[2001:DB8::1]:443" /\ Forall safe_char o.
Proof. eexists. split; [vm_compute; reflexivity|]. split; [reflexivity|]. refine (proj1 (origin_canonical (str "HTTPS://[2001:DB8::1]:0443/") _ _)). vm_compute. reflexivity. Defined.

Lemma host_port_canonical_witness : exists s, sanitize_host_port (str "2001:db8:0:0::1:8088") = Some s
  /\ s = str "[2001:db8::1]:8088" /\ sanitize_host_port s = Some s.
Proof. eexists. split; [vm_compute; reflexivity|]. split; [reflexivity|]. refine (proj1 (proj2 (host_port_canonical (str "2001:db8:0:0::1:8088") _ _))). vm_compute. reflexivity. Defined.

(** The documentation says that everything but [scheme://host[:port]] is refused; a host
    name followed by a closing bracket passes. *)
Lemma stray_bracket_accepted : sanitize_http_origin (str "http://example.com]") = Some (str "http://example.com]")
  /\ is_valid_host (str "example.com]") = false.
Proof. by vm_compute. Qed.

(** ** Beacons *)

(** An address a client may be sent to by [from]: not multicast or broadcast, and nothing
    that points home unless the sender is the machine itself. *)
Definition usable_host (from : SocketAddr) (h : Str) : Prop :=
  is_valid_host h = true
  /\ (forall ip, parse_ip h = Some ip -> is_multicast ip = false /\ is_broadcast ip = false
        /\ (is_loopback (sa_ip from) = false -> is_loopback ip = false /\ is_unspecified ip = false))
  /\ (is_loopback (sa_ip from) = false -> parse_ip h = None -> eq_ignore_ascii_case h (str "localhost") = false).

Lemma check_advertised_spec a from h n : check_advertised_addr a from = Some (h, n) <->
  split_host_port a = Some (h, n) /\ usable_host from h.
Proof.
  unfold check_advertised_addr, usable_host. destruct (split_host_port a) as [[h' n']|]; cbn [mbind option_bind]; [|naive_solver].
  destruct (is_valid_host h') eqn:Hv; cbn [negb]; [|naive_solver congruence].
  destruct (parse_ip h') as [ip|] eqn:Hip; destruct (is_loopback (sa_ip from)) eqn:Hl; cbn [negb andb].
  - rewrite orb_false_r. destruct (is_multicast ip) eqn:E1, (is_broadcast ip) eqn:E2; cbn [orb]; naive_solver congruence.
  - destruct (is_multicast ip) eqn:E1, (is_broadcast ip) eqn:E2, (is_loopback ip) eqn:E3, (is_unspecified ip) eqn:E4; cbn [orb]; naive_solver congruence.
  - naive_solver congruence.
  - destruct (eq_ignore_ascii_case h' (str "localhost")) eqn:E; naive_solver congruence.
Qed.

(** Where an accepted beacon points.  An unsigned one is re-addressed: its address reads
    back as the address the datagram came from, with the advertised port, whatever host the
    payload named.  A signed one is kept as it was signed.  Neither is accepted if the
    advertised host is multicast, broadcast or, from another machine, points home. *)
Theorem accepted_address b from b' : ip_wf (sa_ip from) ->
  (normalize_beacon_source b from = Some b' ->
     exists h n, split_host_port (mb_cluster_addr b) = Some (h, n) /\ usable_host from h
     /\ split_host_port (mb_cluster_addr b') = Some (show_ip (sa_ip from), n) /\ parse_ip (show_ip (sa_ip from)) = Some (sa_ip from)
     /\ sanitize_host_port (mb_cluster_addr b') = Some (mb_cluster_addr b') /\ b' = set_cluster_addr (mb_cluster_addr b') b)
  /\ (accept_verified_beacon b from = Some b' -> b' = b /\ exists h n, split_host_port (mb_cluster_addr b) = Some (h, n) /\ usable_host from h).
Proof.
  intros Hw. split.
  - unfold normalize_beacon_source. destruct (check_advertised_addr _ from) as [[h n]|] eqn:E; [|done]. cbn [mbind option_bind]. intros Hr; apply (inj Some) in Hr as <-.
    apply check_advertised_spec in E as [Hs Hu]. exists h, n. split; [done|]. split; [done|]. destruct (split_host_port_port _ _ _ Hs) as (Hn & Hz & _).
    pose proof (parse_show_ip _ Hw) as Hp. pose proof (show_ip_nonempty _ Hw) as Hne. destruct (show_ip_valid _ Hw) as [Hv _]. cbn [mb_cluster_addr set_cluster_addr].
    assert (Hsplit : split_host_port (show_socket_addr {| sa_ip := sa_ip from; sa_port := n |}) = Some (show_ip (sa_ip from), n)).
    { unfold show_socket_addr. cbn [sa_ip sa_port]. destruct (sa_ip from) as [o|g]; cbn [show_ip] in *; [|by apply split_host_port_bracket].
      apply split_host_port_plain; try done. by apply (valid_host_excludes _ 91 Hv). }
    split; [done|]. split; [done|]. split; [|done]. unfold sanitize_host_port. rewrite Hsplit. cbn [mbind option_bind]. rewrite Hv, Hp.
    unfold show_socket_addr. cbn [sa_ip sa_port]. by destruct (sa_ip from).
  - unfold accept_verified_beacon. destruct (check_advertised_addr _ from) as [[h n]|] eqn:E; [|done]. cbn [mbind option_bind]. intros Hr; apply (inj Some) in Hr as <-.
    apply check_advertised_spec in E. eauto.
Qed.

Definition sample_beacon : MasterBeacon := beacon_new (str "10.9.9.9:8088") (str "http://10.9.9.9:8080") (str "master") 3 1700000000.
Definition sample_from : SocketAddr := {| sa_ip := V6 [65152; 0; 0; 0; 0; 0; 0; 7]; sa_port := 8089 |}.

Lemma sample_from_wf : ip_wf (sa_ip sample_from).
Proof. split; [done|]. cbn [sa_ip sample_from]. rewrite !Forall_cons. repeat split; try lia. constructor. Qed.

Lemma accepted_address_witness : exists b', normalize_beacon_source sample_beacon sample_from = Some b'
  /\ mb_cluster_addr b' = str "[fe80::7]:8088" /\ exists h n, split_host_port (mb_cluster_addr b') = Some (h, n).
Proof.
  eexists. split; [vm_compute; reflexivity|]. split; [reflexivity|].
  destruct (proj1 (accepted_address sample_beacon sample_from _ sample_from_wf) ltac:(vm_compute; reflexivity)) as (h & n & _ & _ & Hs & _).
  eauto.
Defined.

(** ** Candidates *)

Definition valid_candidate (h : Str) : Prop := is_valid_host h = true \/ exists host n, split_host_port h = Some (host, n) /\ is_valid_host host = true.

(** A candidate list yields at most sixteen hosts, each valid, in the order given. *)
Lemma candidates_bounded hosts :
  (length (parse_candidate_hosts hosts) <= MAX_CONFIGURED_CANDIDATES)%nat /\ Forall valid_candidate (parse_candidate_hosts hosts)
  /\ parse_candidate_hosts hosts `sublist_of` split_by (fun c => (c =? 44) || is_whitespace c) hosts.
Proof.
  unfold parse_candidate_hosts. generalize (split_by (fun c => (c =? 44) || is_whitespace c) hosts) as l. intros l.
  split; [rewrite length_take; lia|]. split.
  - apply Forall_take, Forall_forall. intros h [_ Hh]%list_elem_of_In%filter_In. unfold valid_candidate. destruct (is_valid_host h); [by left|].
    destruct (split_host_port h) as [[host n]|]; [|done]. right. eauto.
  - etrans; [apply sublist_take|]. induction l as [|x l IH]; [done|]. cbn [List.filter]. destruct (if is_valid_host x then true else _); by constructor.
Qed.
