(* ===== verification/DiscoveryProps.v ===== *)
(** * DiscoveryProps: what a signature of the cluster secret vouches for

    Theorems on discovery: the messages authenticated with the cluster secret never pass for
    one another, a client that holds the secret follows only addresses signed for its own
    probe or in a current lease, and the master's answers are accepted. *)

From Stdlib Require Import DecimalFacts DecimalN.
From S2P Require Import Prelude Collections RustStr Float Capabilities Placement Blob BlobProps Task Protocol ProtocolProps ClusterAuth ClusterAuthProps Auth Arbitrage ArbitrageProps Discovery DiscoveryAddr DiscoveryHosts.
Local Open Scope N_scope.

(** ** Injectivity *)

Definition text (s : Str) : Prop := Forall (fun c => is_scalar c = true) s /\ blen (utf8_encode s) < 2 ^ 32.

Lemma utf8_encode_inj s t : text s -> text t -> utf8_encode s = utf8_encode t -> s = t.
Proof. intros [Hs _] [Ht _] E. rewrite <-(from_utf8_lossy_encode s Hs), <-(from_utf8_lossy_encode t Ht). by rewrite E. Qed.

Lemma show_uint_inj a b : show_uint a = show_uint b -> a = b.
Proof. revert b. induction a; intros []; cbn; intros E; try done; injection E as E; f_equal; auto. Qed.

Lemma show_N_inj a b : show_N a = show_N b -> a = b.
Proof. intros E%show_uint_inj. rewrite <-(DecimalN.Unsigned.of_to a), <-(DecimalN.Unsigned.of_to b). by rewrite E. Qed.

(** A number has at most as many decimal digits as bits. *)
Lemma little_double_digits d :
  (Decimal.nb_digits (Decimal.Little.double d) <= S (Decimal.nb_digits d) /\ Decimal.nb_digits (Decimal.Little.succ_double d) <= S (Decimal.nb_digits d))%nat.
Proof. induction d as [|d [? ?]|d [? ?]|d [? ?]|d [? ?]|d [? ?]|d [? ?]|d [? ?]|d [? ?]|d [? ?]|d [? ?]]; cbn in *; lia. Qed.

Lemma little_digits p k : (Npos p < 2 ^ N.of_nat k)%N -> (Decimal.nb_digits (Pos.to_little_uint p) <= k)%nat.
Proof.
  revert k. induction p as [p IH|p IH|]; intros k Hp; cbn [Pos.to_little_uint]; (destruct k as [|k]; [cbn in Hp; lia|]);
    rewrite Nat2N.inj_succ, N.pow_succ_r' in Hp.
  - pose proof (little_double_digits (Pos.to_little_uint p)) as [_ Hd]. specialize (IH k). lia.
  - pose proof (little_double_digits (Pos.to_little_uint p)) as [Hd _]. specialize (IH k). lia.
  - cbn. lia.
Qed.

Lemma length_show_uint d : length (show_uint d) = Decimal.nb_digits d.
Proof. induction d; cbn; congruence. Qed.

Lemma length_show_N n : n <= u64_max -> (length (show_N n) <= 64)%nat.
Proof.
  intros Hn. unfold show_N. rewrite length_show_uint. destruct n as [|p]; [cbn; lia|]. cbn [N.to_uint]. unfold Pos.to_uint. rewrite nb_digits_rev.
  apply little_digits. apply N.lt_succ_r in Hn. exact Hn.
Qed.

Lemma show_uint_digits d : Forall (fun c => c < 128) (show_uint d).
Proof. induction d; cbn; [constructor|constructor; [lia|done]..]. Qed.
Lemma show_N_encode n : utf8_encode (show_N n) = show_N n.
Proof. apply utf8_encode_ascii, show_uint_digits. Qed.

Definition short (f : Bytes) : Prop := blen f < 2 ^ 32.

Lemma show_N_short n : n <= u64_max -> short (utf8_encode (show_N n)).
Proof. intros Hn%length_show_N. rewrite show_N_encode. unfold short, blen. lia. Qed.

Lemma mac_fields_inj label fs fs' : Forall short fs -> Forall short fs' -> length fs = length fs' ->
  mac_fields label fs = mac_fields label fs' -> fs = fs'.
Proof.
  intros Hs Hs' Hl E. unfold mac_fields in E. apply app_inv_head in E. revert fs' Hs' Hl E.
  induction Hs as [|f fs Hf _ IH]; intros [|f' fs'] Hs' Hl E; try done. apply Forall_cons in Hs' as [Hf' Hs']. cbn [mbind list_bind] in E. rewrite <-!app_assoc in E.
  apply app_inj_1 in E as [Eb E]; [|by rewrite !length_be_bytes]. rewrite !N.mod_small in Eb by done.
  apply be_bytes_inj_k in Eb; [|exact Hf|exact Hf']. unfold blen in Eb. apply Nat2N.inj in Eb. apply app_inj_1 in E as [-> E]; [|done].
  f_equal. apply IH; [done|by injection Hl|done].
Qed.

(** ** Everything the cluster secret authenticates *)

Inductive SecretUse :=
| UseEquality
| UseAdminToken
| UseServerProof (client_nonce server_nonce : Bytes)
| UseClientProof (server_nonce client_nonce : Bytes)
| UseSessionKey (client_nonce server_nonce : Bytes)
| UseTicket (t : MasterLeaseTicket)
| UseBeacon (b : MasterBeacon) (nonce : Bytes)
| UseLease (l : RendezvousLease).

(** The bytes under the tag. *)
Definition use_bytes (u : SecretUse) : Bytes :=
  match u with
  | UseEquality => concat [LABEL_EQ]
  | UseAdminToken => concat [utf8_encode DASHBOARD_ADMIN_TOKEN_LABEL]
  | UseServerProof cn sn => concat (server_parts cn sn)
  | UseClientProof sn cn => concat (client_parts sn cn)
  | UseSessionKey cn sn => concat (key_parts cn sn)
  | UseTicket t => concat [LEASE_HMAC_LABEL; canonical_bytes t]
  | UseBeacon b nonce => concat [beacon_mac_input b nonce]
  | UseLease l => concat [lease_mac_input l]
  end.

Definition beacon_text (b : MasterBeacon) : Prop := text (mb_cluster_addr b) /\ text (mb_web_ui_url b).
Definition lease_text (l : RendezvousLease) : Prop :=
  text (rl_cluster_addr l) /\ text (rl_web_ui_url l) /\ text (rl_hostname l) /\ rl_timestamp l <= u64_max /\ rl_ttl_secs l <= u64_max.

(** Nonces have their lengths, strings are text, integers fit. *)
Definition use_wf (u : SecretUse) : Prop :=
  match u with
  | UseEquality | UseAdminToken => True
  | UseServerProof a b | UseClientProof a b | UseSessionKey a b => length a = NONCE_LEN /\ length b = NONCE_LEN
  | UseTicket t => ticket_wf t
  | UseBeacon b nonce => beacon_text b /\ short nonce
  | UseLease l => lease_text l
  end.

(** The same purpose, and the same in everything the tag covers. *)
Definition same_use (u u' : SecretUse) : Prop :=
  match u, u' with
  | UseEquality, UseEquality | UseAdminToken, UseAdminToken => True
  | UseServerProof a b, UseServerProof a' b' | UseClientProof a b, UseClientProof a' b' | UseSessionKey a b, UseSessionKey a' b' => a = a' /\ b = b'
  | UseTicket t, UseTicket t' =>
      lt_cluster_id t = lt_cluster_id t' /\ lt_master_id t = lt_master_id t' /\ lt_lease_sequence t = lt_lease_sequence t'
      /\ lt_authority_score t = lt_authority_score t' /\ lt_issued_at_epoch_ms t = lt_issued_at_epoch_ms t' /\ lt_expires_at_epoch_ms t = lt_expires_at_epoch_ms t'
  | UseBeacon b n, UseBeacon b' n' => n = n' /\ mb_cluster_addr b = mb_cluster_addr b' /\ mb_web_ui_url b = mb_web_ui_url b'
  | UseLease l, UseLease l' =>
      rl_cluster_addr l = rl_cluster_addr l' /\ rl_web_ui_url l = rl_web_ui_url l' /\ rl_hostname l = rl_hostname l'
      /\ rl_timestamp l = rl_timestamp l' /\ rl_ttl_secs l = rl_ttl_secs l'
  | _, _ => False
  end.

(** The sixth byte tells the purposes of one version apart, the fourth the versions. *)
Definition purpose_of (u : SecretUse) : N * N :=
  match u with
  | UseEquality => (49, 101) | UseAdminToken => (49, 100) | UseServerProof _ _ => (50, 115) | UseClientProof _ _ => (50, 99)
  | UseSessionKey _ _ => (50, 107) | UseTicket _ => (49, 109) | UseBeacon _ _ => (49, 98) | UseLease _ => (49, 114)
  end.

Lemma use_bytes_purpose u : use_bytes u !! 3%nat = Some (purpose_of u).1 /\ use_bytes u !! 5%nat = Some (purpose_of u).2.
Proof. destruct u; split; reflexivity. Qed.

Lemma pair_parts_inj label (a b a' b' : Bytes) : length a = NONCE_LEN -> length a' = NONCE_LEN ->
  concat [label; a; b] = concat [label; a'; b'] -> a = a' /\ b = b'.
Proof. intros Ha Ha' E. cbn [concat] in E. apply app_inv_head in E. rewrite !app_nil_r in E. apply app_inj_1 in E; [done|]. by rewrite Ha, Ha'. Qed.

Lemma purposes_separate_aux u u' : use_wf u -> use_wf u' -> use_bytes u = use_bytes u' -> same_use u u'.
Proof.
  intros Hw Hw' E. assert (Hp : purpose_of u = purpose_of u').
  { destruct (use_bytes_purpose u) as [H1 H2], (use_bytes_purpose u') as [H3 H4]. rewrite E in H1, H2. destruct (purpose_of u), (purpose_of u'). cbn in *. congruence. }
  destruct u, u'; try discriminate Hp; clear Hp; cbn [use_wf same_use use_bytes] in *; try exact I.
  1-3: destruct Hw as [? _], Hw' as [? _]; by eapply pair_parts_inj.
  - cbn [concat] in E. rewrite !app_nil_r in E. apply app_inv_head in E. by apply canonical_bytes_inj.
  - cbn [concat] in E. rewrite !app_nil_r in E. destruct Hw as [[Ha Hu] Hn], Hw' as [[Ha' Hu'] Hn'].
    apply mac_fields_inj in E; [|repeat constructor; try done; first [apply Ha|apply Hu]|repeat constructor; try done; first [apply Ha'|apply Hu']|done].
    injection E as -> Ea Eu. split; [done|]. split; by apply utf8_encode_inj.
  - cbn [concat] in E. rewrite !app_nil_r in E. destruct Hw as (Ha & Hu & Hh & Ht & Hl), Hw' as (Ha' & Hu' & Hh' & Ht' & Hl').
    assert (Hnum : forall n, n <= u64_max -> short (utf8_encode (show_N n))) by exact show_N_short.
    apply mac_fields_inj in E; [|repeat constructor; first [apply Ha|apply Hu|apply Hh|by apply Hnum]|repeat constructor; first [apply Ha'|apply Hu'|apply Hh'|by apply Hnum]|done].
    injection E as Ea Eu Eh Et El. rewrite !show_N_encode in Et, El. split; [by apply utf8_encode_inj|]. split; [by apply utf8_encode_inj|]. split; [by apply utf8_encode_inj|].
    split; by apply show_N_inj.
Qed.

(** C32 Every message the cluster secret authenticates starts with the label of its purpose,
    and the fields after it cannot slide into each other: two messages with the same bytes
    have the same purpose and agree in every field.  So a tag made for one purpose (a beacon,
    a lease, a handshake proof, a session key, the dashboard token) is never one for another. *)
Theorem purposes_separate u u' : use_wf u -> use_wf u' -> use_bytes u = use_bytes u' -> same_use u u'.
Proof. apply purposes_separate_aux. Qed.

(** ** What a client with the secret follows *)

Section client.
Context `{Aead} `{BeaconJson} (s : ClusterSecret).

(** Beacons and leases the network offers to one discovery call, with the nonce of the
    probe they answer. *)
Inductive offered_beacon (nonce : Bytes) (datagrams : list (Bytes * SocketAddr)) (http : list HttpAnswer) : Bytes -> MasterBeacon -> Prop :=
| offered_udp d from b : (d, from) ∈ datagrams -> beacon_from_bytes d = Some b -> offered_beacon nonce datagrams http nonce b
| offered_http a body b : a ∈ http -> response_body (from_utf8_lossy (read_response (is_readable beacon_from_slice) [] (ha_chunks a))) = Some body ->
    beacon_from_slice body = Some b -> offered_beacon nonce datagrams http (ha_nonce a) b.

Inductive offered_lease (rendezvous : option (Str * list Bytes)) : RendezvousLease -> Prop :=
| offered_registry url chunks body l : rendezvous = Some (url, chunks) ->
    response_body (from_utf8_lossy (read_response (is_readable lease_from_slice) [] chunks)) = Some body -> lease_from_slice body = Some l ->
    offered_lease rendezvous l.

(** Nobody makes up a tag: what verifies was authenticated by a holder of the secret. *)
Record unforged_network (uses : list SecretUse) nonce datagrams http rendezvous : Prop := {
  un_uses : Forall use_wf uses;
  un_beacon n b : offered_beacon nonce datagrams http n b -> beacon_text b /\ short n /\ (beacon_verify s n b = true -> beacon_mac_input b n ∈ map use_bytes uses);
  un_lease l : offered_lease rendezvous l -> lease_text l
    /\ ((exists skew now, lease_verify s skew now l = true) -> lease_mac_input l ∈ map use_bytes uses)
}.

Lemma or_else_opt_Some {A} (a b : option A) x : or_else_opt a b = Some x -> a = Some x \/ b = Some x.
Proof. destruct a; auto. Qed.

Lemma first_some_Some {A B} (f : A -> option B) l y : first_some f l = Some y -> exists x, x ∈ l /\ f x = Some y.
Proof. induction l as [|x l IH]; cbn; [done|]. intros [?|(z & ? & ?)%IH]%or_else_opt_Some; [exists x; split; [left|done]|exists z; split; [by right|done]]. Qed.

Lemma udp_first secret nonce datagrams b : discover_master_udp secret nonce datagrams = Some b -> exists d from, (d, from) ∈ datagrams /\ udp_accept secret nonce d from = Some b.
Proof.
  induction datagrams as [|[d from] ds IH]; cbn; [done|]. intros [?|(d' & from' & ? & ?)%IH]%or_else_opt_Some; [exists d, from; split; [left|done]|exists d', from'; split; [by right|done]].
Qed.

Lemma accept_inv b from b' : accept_verified_beacon b from = Some b' -> b' = b /\ exists h n, split_host_port (mb_cluster_addr b) = Some (h, n) /\ usable_host from h.
Proof.
  unfold accept_verified_beacon. destruct (check_advertised_addr _ from) as [[h n]|] eqn:E; [|done]. cbn [mbind option_bind]. intros Hr; apply (inj Some) in Hr as <-.
  apply check_advertised_spec in E. eauto.
Qed.

(** The lease's window, when the clock is far from its end. *)
Lemma lease_window skew now l : now + skew <= u64_max -> lease_verify s skew now l = true ->
  rl_timestamp l <= now + skew /\ now <= rl_timestamp l + rl_ttl_secs l + skew.
Proof.
  intros Hov. unfold lease_verify. rewrite N.mod_small by (apply N.lt_succ_r in Hov; exact Hov). destruct (N.ltb_spec (now + skew) (rl_timestamp l)); [done|].
  destruct (N.ltb_spec (saturating_add u64_max (saturating_add u64_max (rl_timestamp l) (rl_ttl_secs l)) skew) now) as [|Hw]; [done|]. intros _.
  split; [done|]. unfold saturating_add in Hw. lia.
Qed.

(** What a client came to believe: a beacon signed for one of its own probes, or a lease
    in its window. *)
Definition vouched (uses : list SecretUse) (nonce : Bytes) (http : list HttpAnswer) (now : N) (b : MasterBeacon) : Prop :=
  (exists b0 n, UseBeacon b0 n ∈ uses /\ (n = nonce \/ n ∈ map ha_nonce http)
     /\ mb_cluster_addr b = mb_cluster_addr b0 /\ mb_web_ui_url b = mb_web_ui_url b0
     /\ exists from h p, split_host_port (mb_cluster_addr b) = Some (h, p) /\ usable_host from h)
  \/ (exists l0, UseLease l0 ∈ uses /\ mb_cluster_addr b = rl_cluster_addr l0 /\ mb_web_ui_url b = rl_web_ui_url l0 /\ mb_hostname b = rl_hostname l0
     /\ rl_timestamp l0 <= now + RENDEZVOUS_SKEW_SECS /\ now <= rl_timestamp l0 + rl_ttl_secs l0 + RENDEZVOUS_SKEW_SECS).

Lemma known_beacon uses b n : Forall use_wf uses -> beacon_text b -> short n -> beacon_mac_input b n ∈ map use_bytes uses ->
  exists b0, UseBeacon b0 n ∈ uses /\ mb_cluster_addr b = mb_cluster_addr b0 /\ mb_web_ui_url b = mb_web_ui_url b0.
Proof.
  intros Hu Hb Hn (u & E & Hin)%list_elem_of_fmap. rewrite Forall_forall in Hu.
  pose proof (purposes_separate_aux (UseBeacon b n) u (conj Hb Hn) (Hu u Hin)) as Hs. cbn [use_bytes concat] in Hs. rewrite app_nil_r in Hs. specialize (Hs E).
  destruct u as [| | | | | |b0 n0|]; try done. destruct Hs as (-> & ? & ?). eauto.
Qed.

Lemma known_lease uses l : Forall use_wf uses -> lease_text l -> lease_mac_input l ∈ map use_bytes uses ->
  exists l0, UseLease l0 ∈ uses /\ same_use (UseLease l) (UseLease l0).
Proof.
  intros Hu Hl (u & E & Hin)%list_elem_of_fmap. rewrite Forall_forall in Hu.
  pose proof (purposes_separate_aux (UseLease l) u Hl (Hu u Hin)) as Hs. cbn [use_bytes concat] in Hs. rewrite app_nil_r in Hs. specialize (Hs E).
  destruct u as [| | | | | | |l0]; try done. eauto.
Qed.

(** C33 A client that holds the cluster secret follows only addresses a holder signed: whatever
    the network sends in answer to its probes, a master it finds is named, address and
    dashboard alike, by a beacon signed for the nonce of one of its own probes (and the
    address is usable), or by a signed lease that is neither from the future nor expired.
    Tags made for handshakes, tickets or tokens do not help. *)
Theorem secret_client_follows_signed uses nonce datagrams http rendezvous now b :
  unforged_network uses nonce datagrams http rendezvous -> now + RENDEZVOUS_SKEW_SECS <= u64_max ->
  discover_master_tiered (Some s) nonce datagrams http rendezvous now = Some b -> vouched uses nonce http now b.
Proof.
  intros Hnet Hnow Hd. unfold discover_master_tiered in Hd. apply or_else_opt_Some in Hd as [Hd|Hd]; [|apply or_else_opt_Some in Hd as [Hd|Hd]].
  - left. apply udp_first in Hd as (d & from & Hin & Hd). unfold udp_accept in Hd. destruct (beacon_from_bytes d) as [b0|] eqn:E; [|done]. cbn [mbind option_bind] in Hd.
    destruct (beacon_verify s nonce b0) eqn:Hv; [|done]. apply accept_inv in Hd as [-> (h & p & Hsp & Hu)].
    destruct (un_beacon _ _ _ _ _ Hnet _ _ (offered_udp nonce datagrams http d from b0 Hin E)) as (Ht & Hn & Hk).
    destruct (known_beacon uses b0 nonce (un_uses _ _ _ _ _ Hnet) Ht Hn (Hk Hv)) as (b1 & ? & ? & ?). exists b1, nonce. eauto 10.
  - left. apply first_some_Some in Hd as (a & Hin & Hd). cbn beta in Hd. unfold probe_http_candidate_with_secret in Hd. destruct (negb (is_valid_host (ha_host a))); [done|].
    destruct (negb (is_200 _)); [done|]. destruct (response_body _) as [body|] eqn:Eb; [|done]. cbn [mbind option_bind] in Hd.
    destruct (beacon_from_slice body) as [b0|] eqn:E; [|done]. cbn [mbind option_bind] in Hd. destruct (beacon_verify s (ha_nonce a) b0) eqn:Hv; [|done].
    apply accept_inv in Hd as [-> (h & p & Hsp & Hu)].
    destruct (un_beacon _ _ _ _ _ Hnet _ _ (offered_http nonce datagrams http a body b0 Hin Eb E)) as (Ht & Hn & Hk).
    destruct (known_beacon uses b0 (ha_nonce a) (un_uses _ _ _ _ _ Hnet) Ht Hn (Hk Hv)) as (b1 & ? & ? & ?). exists b1, (ha_nonce a). split; [done|].
    split; [right; by apply list_elem_of_fmap_2|]. eauto 10.
  - right. destruct rendezvous as [[url chunks]|] eqn:Er; [|done]. cbn [mbind option_bind] in Hd. destruct (is_empty (trim url)); [done|].
    unfold discover_master_rendezvous in Hd. destruct (parse_http_url url); [|done]. cbn [mbind option_bind] in Hd. destruct (negb (is_200 _)); [done|].
    destruct (response_body _) as [body|] eqn:Eb; [|done]. cbn [mbind option_bind] in Hd. destruct (lease_from_slice body) as [l|] eqn:E; [|done]. cbn [mbind option_bind] in Hd.
    destruct (lease_verify s _ now l) eqn:Hv; [|done]. apply (inj Some) in Hd as <-.
    destruct (un_lease _ _ _ _ _ Hnet l (offered_registry _ url chunks body l eq_refl Eb E)) as [Ht Hk].
    destruct (known_lease uses l (un_uses _ _ _ _ _ Hnet) Ht (Hk ltac:(eauto))) as (l0 & Hin & Ea & Eu & Eh & Et & El).
    pose proof (lease_window _ _ _ Hnow Hv) as Hw. rewrite Et, El in Hw. exists l0. split; [done|]. tauto.
Qed.

End client.

(** ** The master's answers *)

(** A tag is a list of bytes. *)
Class MacBytes `{Aead} := { sign_bytes k m : Forall (fun b => b < 256) (sign k m) }.

Definition byte_ok (b : N) : bool :=
  match hex_digit (N.shiftr b 4), hex_digit (N.land b 15) with
  | x, y => (utf8_char_len x =? 1) && (utf8_char_len y =? 1) && bool_decide (from_str_radix_16 x y = Some b)
  end.
Lemma all_bytes_ok : forallb (fun n => byte_ok (N.of_nat n)) (seq 0 256) = true.
Proof. vm_compute. reflexivity. Qed.

Lemma hex_slices_encode bytes : Forall (fun b => b < 256) bytes -> hex_slices (hex_encode bytes) = Some (Some bytes).
Proof.
  induction 1 as [|b bytes Hb _ IH]; [done|]. cbn [hex_encode hex_slices].
  pose proof (forallb_seq _ 256 (N.to_nat b) all_bytes_ok ltac:(lia)) as Hok. cbn beta in Hok. rewrite N2Nat.id in Hok. unfold byte_ok in Hok.
  apply andb_prop in Hok as [[Hx Hy]%andb_prop Hr%bool_decide_eq_true]. rewrite Hx, Hy, Hr, IH. done.
Qed.

Lemma hex_ascii bytes : Forall (fun b => b < 256) bytes -> Forall (fun c => c < 128) (hex_encode bytes).
Proof. intros Hb. eapply Forall_impl; [by apply hex_encode_range|]. cbn. lia. Qed.

Lemma from_utf8_ascii s : Forall (fun c => c < 128) s -> from_utf8 s = Some s.
Proof.
  intros Hs. assert (Hl : from_utf8_lossy s = s).
  { rewrite <-(utf8_encode_ascii s Hs) at 1. apply from_utf8_lossy_encode. eapply Forall_impl; [exact Hs|]. intros c Hc. unfold is_scalar. cbn beta in *.
    apply orb_true_iff. left. apply N.ltb_lt. lia. }
  unfold from_utf8. rewrite Hl, utf8_encode_ascii by done. by rewrite bool_decide_true.
Qed.

Definition is_nonce (nonce : Bytes) : Prop := length nonce = DISCOVERY_PROBE_NONCE_LEN /\ Forall (fun b => b < 256) nonce.

(** A probe is read as the nonce it was built from. *)
Lemma parse_build_probe nonce : is_nonce nonce -> parse_probe (build_auth_probe nonce) = Some (ProbeAuthenticated nonce).
Proof.
  intros [Hl Hb]. unfold parse_probe, build_auth_probe. rewrite (utf8_encode_ascii (hex_encode nonce)) by by apply hex_ascii.
  rewrite bool_decide_false. 2: { intros E. apply (f_equal length) in E. rewrite length_app, length_hex_encode, Hl in E. done. }
  rewrite strip_prefix_app. cbn [mbind option_bind]. rewrite length_hex_encode, Hl, Nat.mul_comm, Nat.eqb_refl. cbn [negb].
  rewrite from_utf8_ascii by by apply hex_ascii. cbn [mbind option_bind]. rewrite hex_decode_encode by done. cbn [mbind option_bind]. by rewrite Hl, Nat.eqb_refl.
Qed.

Section replies.
Context `{Aead} `{BeaconJson} `{!BeaconJsonLaws} `{!MacBytes} (s : ClusterSecret).

Lemma own_signature nonce b : beacon_verify s nonce (beacon_sign s nonce b) = true.
Proof.
  unfold beacon_verify. cbn [mb_mac beacon_sign set_mac mbind option_bind]. rewrite hex_decode_encode by apply sign_bytes.
  unfold verify_mac. by rewrite bool_decide_true.
Qed.

(** Discovery finds the master: both responders, the UDP service and the dashboard's
    probe route, answer an authenticated probe with the same signed beacon, and the client
    that sent the probe accepts it unchanged, if the advertised address is usable. *)
Theorem reply_accepted nonce b from h p bytes : is_nonce nonce -> mb_service b = DISCOVERY_SERVICE_NAME ->
  split_host_port (mb_cluster_addr b) = Some (h, p) -> usable_host from h -> service_answer (Some s) (udp_probe (Some s) nonce) b = Some bytes ->
  udp_accept (Some s) nonce bytes from = Some (beacon_sign s nonce b)
  /\ api_discovery_probe (Some s) (Some (hex_encode nonce)) b = Some (Ok (beacon_sign s nonce b))
  /\ mb_cluster_addr (beacon_sign s nonce b) = mb_cluster_addr b.
Proof.
  intros Hn Hserv Hsp Hu Hr. unfold service_answer, beacon_reply, udp_probe in Hr. rewrite !parse_build_probe in Hr by done. cbn [mbind option_bind] in Hr.
  apply beacon_reads_back in Hr. split; [|split; [|done]].
  - unfold udp_accept, beacon_from_bytes. rewrite Hr. cbn [mbind option_bind]. rewrite bool_decide_true by exact Hserv. cbn [mbind option_bind]. rewrite own_signature.
    unfold accept_verified_beacon. change (mb_cluster_addr (beacon_sign s nonce b)) with (mb_cluster_addr b).
    rewrite (proj2 (check_advertised_spec _ from h p) (conj Hsp Hu)). done.
  - destruct Hn as [Hl Hb]. unfold api_discovery_probe, web_hex_decode. rewrite str_len_of_ascii by by apply hex_ascii. rewrite length_hex_encode, Hl.
    change (N.of_nat (2 * DISCOVERY_PROBE_NONCE_LEN) =? 32) with true. change (N.odd (N.of_nat (2 * DISCOVERY_PROBE_NONCE_LEN))) with false. cbn [negb].
    rewrite hex_slices_encode by done. cbn [mbind option_bind]. by rewrite Hl, Nat.eqb_refl.
Qed.

(** A renewed lease verifies exactly in its window: from half a minute before its time
    stamp to half a minute after its two minutes. *)
Lemma renewed_lease_verifies addr url host ticket workers now later : now + 150 <= u64_max -> later + 30 <= u64_max ->
  lease_verify s RENDEZVOUS_SKEW_SECS later (renewed_lease (Some s) addr url host ticket workers now) = (now <=? later + 30) && (later <=? now + 150).
Proof.
  intros Hn Hl. unfold renewed_lease. set (l := lease_new addr url host ticket workers 120 now). unfold lease_verify.
  change (rl_signature (lease_sign s l)) with (Some (hex_encode (mac s [lease_mac_input l]))). cbn [mbind option_bind]. rewrite hex_decode_encode by apply sign_bytes.
  change (lease_mac_input (lease_sign s l)) with (lease_mac_input l). change (rl_timestamp (lease_sign s l)) with now. change (rl_ttl_secs (lease_sign s l)) with 120.
  assert (Hm : (later + RENDEZVOUS_SKEW_SECS) mod 2 ^ 64 = later + 30) by (apply N.mod_small; apply N.lt_succ_r in Hl; exact Hl).
  assert (Hsat : saturating_add u64_max (saturating_add u64_max now 120) RENDEZVOUS_SKEW_SECS = now + 150) by (unfold saturating_add, RENDEZVOUS_SKEW_SECS; lia).
  rewrite Hm, Hsat. unfold verify_mac. rewrite bool_decide_true by done.
  destruct (N.ltb_spec (later + 30) now), (N.leb_spec now (later + 30)), (N.ltb_spec (now + 150) later), (N.leb_spec later (now + 150)); try done; lia.
Qed.

End replies.

(** The probe route decodes its nonce by cutting the text every two bytes: a nonce of 32
    bytes with a three-byte character in it makes the handler panic. *)
Lemma probe_route_panics `{Aead} secret beacon :
  let nonce := 8364 :: repeat 48 29 in str_len nonce = 32 /\ api_discovery_probe secret (Some nonce) beacon = None.
Proof. split; reflexivity. Qed.

(** ** The rendezvous registry *)

Section registry.
Context `{Aead} (s : ClusterSecret) (auth : AuthConfig).

(** The registry after a sequence of registrations, each with its time. *)
Definition registry_run (regs : list (N * RendezvousLease)) : option RendezvousLease :=
  foldl (fun reg '(now, l) => (api_rendezvous_register (Some s) now l reg).2) None regs.

Lemma registry_run_verified regs l : registry_run regs = Some l ->
  exists now, (now, l) ∈ regs /\ rl_service l = DISCOVERY_SERVICE_NAME /\ lease_verify s RENDEZVOUS_SKEW_SECS now l = true.
Proof.
  unfold registry_run. induction regs as [|[now x] regs IH] using rev_ind; [done|]. rewrite foldl_app. cbn [foldl]. unfold api_rendezvous_register at 1.
  case_bool_decide as Hs; cbn [negb]; [|cbn [snd]; intros (t & ? & ?)%IH; exists t; rewrite elem_of_app; auto].
  cbn [from_option]. destruct (lease_verify s _ now x) eqn:Hv; cbn [negb snd].
  - intros [= <-]. exists now. rewrite elem_of_app, list_elem_of_singleton. auto.
  - intros (t & ? & ?)%IH. exists t. rewrite elem_of_app. auto.
Qed.

(** The rendezvous registry of a master with a secret serves only leases that verified
    when they were registered, never past their end, and shows the P2P ticket only to the
    holder of a registered token with the observer scope. *)
Theorem registry_serves_verified regs hs query now l : api_rendezvous_master auth hs query now (registry_run regs) = Some l ->
  exists t l0, (t, l0) ∈ regs /\ lease_verify s RENDEZVOUS_SKEW_SECS t l0 = true /\ rl_service l0 = DISCOVERY_SERVICE_NAME
  /\ l = set_p2p_ticket (rl_p2p_ticket l) l0 /\ now <= rl_timestamp l0 + rl_ttl_secs l0 + 30
  /\ (rl_p2p_ticket l <> None -> exists token tk scope, extract_credential hs query = Some token /\ find_token auth token = Some tk
        /\ scope ∈ tk_scopes tk /\ allows scope Observer = true).
Proof.
  unfold api_rendezvous_master. destruct (registry_run regs) as [l0|] eqn:E; [|done]. cbn [mbind option_bind].
  apply registry_run_verified in E as (t & Hin & Hserv & Hv). destruct (N.leb_spec now (saturating_add u64_max (saturating_add u64_max (rl_timestamp l0) (rl_ttl_secs l0)) 30)) as [Hle|]; [|done].
  intros Hr; apply (inj Some) in Hr as <-. exists t, l0. split; [done|]. split; [done|]. split; [done|].
  assert (Hnow : now <= rl_timestamp l0 + rl_ttl_secs l0 + 30) by (unfold saturating_add in Hle; lia).
  destruct (extract_credential hs query) as [token|] eqn:Ec; cbn [mbind option_bind]; [|done]. destruct (find_token auth token) as [tk|] eqn:Et; [|done].
  destruct (existsb (fun sc => allows sc Observer) (elements (tk_scopes tk))) eqn:Ee; [|done]. split; [by destruct l0|]. split; [done|]. intros _.
  apply existsb_exists in Ee as (scope & Hi%list_elem_of_In%elem_of_elements & Ha). exists token, tk, scope. done.
Qed.

End registry.

(** A response is cut off: the buffer never grows past its limit by more than one read. *)
Lemma response_bounded complete chunks : Forall (fun c => blen c <= 1024) chunks -> blen (read_response complete [] chunks) <= MAX_RESPONSE + 1024.
Proof.
  intros Hc. cut (forall buf, blen buf <= MAX_RESPONSE -> blen (read_response complete buf chunks) <= MAX_RESPONSE + 1024); [intros Hx; apply Hx; done|].
  induction Hc as [|c chunks Hc _ IH]; intros buf Hb; cbn [read_response]; [lia|]. destruct (is_empty c); [lia|].
  assert (Ha : blen (buf ++ c) = blen buf + blen c) by (unfold blen; rewrite length_app; lia).
  destruct (N.ltb_spec MAX_RESPONSE (blen (buf ++ c))); [lia|]. destruct (from_option complete false _); [lia|]. by apply IH.
Qed.

(** ** An instance, and a run *)

#[global] Instance MasterBeacon_eq : EqDecision MasterBeacon.
Proof. solve_decision. Defined.

Module ToyDiscovery.

(** [ToyHmac] with its tags cut to bytes. *)
Definition api : Aead := {|
  AeadKey := Bytes; aead_key := id; seal := ToyAead.toy_seal; unseal := ToyAead.toy_unseal;
  sign := fun k m => map (fun b => b mod 256) (ToyHmac.toy_sign k m)
|}.

Lemma mac_bytes : @MacBytes api.
Proof. split. intros k m. apply Forall_fmap, Forall_forall. intros b _. apply N.mod_lt. done. Qed.

Definition secret : ClusterSecret := ToyHmac.secret.
Definition nonce : Bytes := seq 0 16 ≫= fun n => [N.of_nat n].
Definition from : SocketAddr := {| sa_ip := V4 [192; 168; 1; 7]; sa_port := 8089 |}.
Definition signed : MasterBeacon := beacon_sign (H := api) secret nonce sample_beacon.
Definition lease : RendezvousLease :=
  lease_sign (H := api) secret (lease_new (str "10.9.9.9:8088") [] (str "master") (Some (str "ticket")) 3 120 1700000000).

(** A codec that knows one beacon, one lease and no other answer. *)
Definition json : BeaconJson := {|
  beacon_to_vec := fun b => if bool_decide (b = signed) then Some [1] else None;
  beacon_from_slice := fun bytes => if bool_decide (bytes = [1]) then Some signed else None;
  lease_from_slice := fun bytes => if bool_decide (bytes = [2]) then Some lease else None;
  StatusValue := unit; status_from_slice := fun _ => None; status_get := fun _ _ => None; status_as_str := fun _ => None; status_array_len := fun _ => None
|}.

Lemma json_laws : @BeaconJsonLaws json.
Proof. split. intros b bytes. cbn. case_bool_decide; [|done]. intros [= <-]. by subst. Qed.

Lemma is_sample_nonce : is_nonce nonce.
Proof. split; [reflexivity|]. unfold nonce. cbn. repeat constructor; lia. Qed.

Lemma sample_usable : usable_host from (str "10.9.9.9").
Proof.
  assert (Hc : check_advertised_addr (str "10.9.9.9:8088") from = Some (str "10.9.9.9", 8088)) by (vm_compute; reflexivity).
  apply check_advertised_spec in Hc. apply Hc.
Qed.

Lemma ascii_text (x : Str) : forallb (fun c => c <? 128) x = true -> (length x <= 1000)%nat -> text x.
Proof.
  intros Ha Hl. rewrite forallb_forall in Ha. assert (Hf : Forall (fun c => c < 128) x) by (apply Forall_forall; intros c Hc%list_elem_of_In; by apply N.ltb_lt, Ha).
  split; [|rewrite utf8_encode_ascii by done; unfold blen; lia]. eapply Forall_impl; [exact Hf|]. intros c Hc. unfold is_scalar. apply orb_true_iff. left. apply N.ltb_lt. cbn beta in Hc. lia.
Qed.

Lemma sample_text : beacon_text sample_beacon.
Proof. split; apply ascii_text; first [reflexivity|vm_compute; lia]. Qed.

(** The network delivers the signed beacon; only it was signed. *)
Lemma unforged : unforged_network (H := api) (H0 := json) secret [UseBeacon sample_beacon nonce] nonce [([9], from); ([1], from)] [] None.
Proof.
  split.
  - apply Forall_cons. split; [|constructor]. split; [exact sample_text|vm_compute; reflexivity].
  - intros n b [d fr b0 _ Hb|a body b0 Hin _ _]; [|by apply elem_of_nil in Hin]. unfold beacon_from_bytes in Hb. cbn [beacon_from_slice json] in Hb.
    case_bool_decide; [|done]. cbn [mbind option_bind] in Hb. destruct (bool_decide _); [|done]. injection Hb as <-.
    split; [exact sample_text|]. split; [vm_compute; reflexivity|]. intros _. rewrite list_elem_of_fmap. exists (UseBeacon sample_beacon nonce). split; [|left].
    cbn [use_bytes concat]. by rewrite app_nil_r.
  - intros l [url chunks body l0 Hr _ _]. done.
Qed.

End ToyDiscovery.

Lemma purposes_separate_witness : same_use (UseServerProof ToyHmac.cn ToyHmac.sn) (UseServerProof ToyHmac.cn ToyHmac.sn).
Proof. apply (purposes_separate (UseServerProof ToyHmac.cn ToyHmac.sn) (UseServerProof ToyHmac.cn ToyHmac.sn)); [done|done|reflexivity]. Defined.

Lemma secret_client_follows_signed_witness : exists b,
  discover_master_tiered (H := ToyDiscovery.api) (H0 := ToyDiscovery.json) (Some ToyDiscovery.secret) ToyDiscovery.nonce
    [([9], ToyDiscovery.from); ([1], ToyDiscovery.from)] [] None 5 = Some b
  /\ vouched [UseBeacon sample_beacon ToyDiscovery.nonce] ToyDiscovery.nonce [] 5 b.
Proof.
  exists ToyDiscovery.signed. assert (Hd : discover_master_tiered (H := ToyDiscovery.api) (H0 := ToyDiscovery.json) (Some ToyDiscovery.secret) ToyDiscovery.nonce
    [([9], ToyDiscovery.from); ([1], ToyDiscovery.from)] [] None 5 = Some ToyDiscovery.signed) by (vm_compute; reflexivity).
  split; [exact Hd|]. exact (secret_client_follows_signed (H := ToyDiscovery.api) (H0 := ToyDiscovery.json) ToyDiscovery.secret _ _ _ _ _ 5 _ ToyDiscovery.unforged ltac:(vm_compute; discriminate) Hd).
Defined.

Lemma reply_accepted_witness :
  udp_accept (H := ToyDiscovery.api) (H0 := ToyDiscovery.json) (Some ToyDiscovery.secret) ToyDiscovery.nonce [1] ToyDiscovery.from = Some ToyDiscovery.signed.
Proof.
  refine (proj1 (reply_accepted (H := ToyDiscovery.api) (H0 := ToyDiscovery.json) (H1 := ToyDiscovery.json_laws) (H2 := ToyDiscovery.mac_bytes) ToyDiscovery.secret
    ToyDiscovery.nonce sample_beacon ToyDiscovery.from (str "10.9.9.9") 8088 [1] ToyDiscovery.is_sample_nonce eq_refl _ ToyDiscovery.sample_usable _)); vm_compute; reflexivity.
Defined.

Lemma registry_serves_verified_witness : exists l,
  api_rendezvous_master (H := ToyDiscovery.api) auth_config_dev [] None 1700000010
    (registry_run (H := ToyDiscovery.api) ToyDiscovery.secret [(1700000000, ToyDiscovery.lease)]) = Some l
  /\ rl_p2p_ticket l = None /\ 1700000010 <= rl_timestamp l + rl_ttl_secs l + 30.
Proof.
  eexists. assert (Hr : api_rendezvous_master (H := ToyDiscovery.api) auth_config_dev [] None 1700000010
    (registry_run (H := ToyDiscovery.api) ToyDiscovery.secret [(1700000000, ToyDiscovery.lease)]) = Some (set_p2p_ticket None ToyDiscovery.lease)) by (vm_compute; reflexivity).
  split; [exact Hr|]. split; [reflexivity|].
  destruct (registry_serves_verified (H := ToyDiscovery.api) ToyDiscovery.secret auth_config_dev _ [] None 1700000010 _ Hr) as (t & l0 & _ & _ & _ & E & Hle & _). rewrite E. exact Hle.
Defined.
