(* ===== verification/BlobCache.v ===== *)
(** * BlobCache: the worker's bounded, content-addressed cache

    Models [crates/worker/src/blob_cache.rs].  [CacheInner] is the index under the lock,
    [bc_objects] the object directory, [bc_guards] the ids of the live [CachePin]s, each
    under a name.  Every function that takes the lock once is one definition; the methods that
    take it twice are composed of them, since other tasks run in between.  What the file
    system answers is an argument; a file's content travels as its bytes.  The fan-out
    directories, modes and log lines are left out. *)

From S2P Require Import Prelude Collections RustStr Capabilities Placement Blob Task Queue BlobTransfer BlobStore.
Local Open Scope N_scope.

Definition DEFAULT_BLOB_CACHE_MAX_BYTES : N := 2 * 1024 * 1024 * 1024.
Definition CACHE_EVICTION_BATCH_SIZE : nat := 64.

(** ** The index *)

Record CacheInner := {
  ci_entries : gmap BlobId BlobEntry;
  ci_lru : list (N * BlobId);
  ci_tick : N;
  ci_total_bytes : N;
  ci_pins : gmap BlobId N;
  ci_task_pins : gmap TaskId (list BlobId)
}.

Definition cache_inner_default : CacheInner :=
  {| ci_entries := ∅; ci_lru := []; ci_tick := 0; ci_total_bytes := 0; ci_pins := ∅; ci_task_pins := ∅ |}.

Definition set_cache_index (entries : gmap BlobId BlobEntry) (lru : list (N * BlobId)) (tick total : N) (i : CacheInner) : CacheInner :=
  {| ci_entries := entries; ci_lru := lru; ci_tick := tick; ci_total_bytes := total; ci_pins := ci_pins i; ci_task_pins := ci_task_pins i |}.
Definition set_cache_pins (pins : gmap BlobId N) (task_pins : gmap TaskId (list BlobId)) (i : CacheInner) : CacheInner :=
  {| ci_entries := ci_entries i; ci_lru := ci_lru i; ci_tick := ci_tick i; ci_total_bytes := ci_total_bytes i; ci_pins := pins; ci_task_pins := task_pins |}.

Definition cache_touch (id : BlobId) (i : CacheInner) : bool * CacheInner :=
  let tick := ci_tick i + 1 in
  match ci_entries i !! id with
  | Some e =>
      (true, set_cache_index (<[id := {| be_size := be_size e; be_tick := tick |}]> (ci_entries i))
               (lru_insert tick id (lru_remove (be_tick e) (ci_lru i))) tick (ci_total_bytes i) i)
  | None => (false, set_cache_index (ci_entries i) (ci_lru i) tick (ci_total_bytes i) i)
  end.

Definition cache_insert (id : BlobId) (size : N) (i : CacheInner) : CacheInner :=
  let '(hit, i) := cache_touch id i in
  if hit then i
  else set_cache_index (<[id := {| be_size := size; be_tick := ci_tick i |}]> (ci_entries i)) (lru_insert (ci_tick i) id (ci_lru i)) (ci_tick i)
         (ci_total_bytes i + size) i.

Definition cache_remove (id : BlobId) (i : CacheInner) : CacheInner :=
  match ci_entries i !! id with
  | Some e => set_cache_index (delete id (ci_entries i)) (lru_remove (be_tick e) (ci_lru i)) (ci_tick i) (ci_total_bytes i - be_size e) i
  | None => i
  end.

Definition unpin_one (id : BlobId) (pins : gmap BlobId N) : gmap BlobId N :=
  match pins !! id with
  | Some count => if count - 1 =? 0 then delete id pins else <[id := count - 1]> pins
  | None => pins
  end.
Definition unpin_ids (ids : list BlobId) (i : CacheInner) : CacheInner :=
  set_cache_pins (foldl (fun m id => unpin_one id m) (ci_pins i) ids) (ci_task_pins i) i.
Definition pin_one (id : BlobId) (pins : gmap BlobId N) : gmap BlobId N := <[id := default 0 (pins !! id) + 1]> pins.
Definition pin_ids (ids : list BlobId) (i : CacheInner) : CacheInner :=
  set_cache_pins (foldl (fun m id => pin_one id m) (ci_pins i) ids) (ci_task_pins i) i.

(** ** The cache *)

Record BlobCache := {
  bc_max_bytes : N;
  bc_inner : CacheInner;
  bc_objects : gmap BlobId Bytes;
  bc_guards : gmap N (list BlobId);
  bc_next_guard : N
}.

Definition with_cache (i : CacheInner) (objects : gmap BlobId Bytes) (guards : gmap N (list BlobId)) (c : BlobCache) : BlobCache :=
  {| bc_max_bytes := bc_max_bytes c; bc_inner := i; bc_objects := objects; bc_guards := guards; bc_next_guard := bc_next_guard c |}.
Definition with_index (i : CacheInner) (c : BlobCache) : BlobCache := with_cache i (bc_objects c) (bc_guards c) c.
(** A new [CachePin] that holds [ids]. *)
Definition new_guard (ids : list BlobId) (c : BlobCache) : N * BlobCache :=
  (bc_next_guard c, {| bc_max_bytes := bc_max_bytes c; bc_inner := bc_inner c; bc_objects := bc_objects c;
                       bc_guards := <[bc_next_guard c := ids]> (bc_guards c); bc_next_guard := bc_next_guard c + 1 |}).

(** [open]: [found] is what the directory holds, sorted by modification time. *)
Definition cache_open (max_bytes : N) (found : list (BlobId * Bytes)) : BlobCache := {|
  bc_max_bytes := max_bytes;
  bc_inner := foldl (fun i x => cache_insert x.1 (blen x.2) i) cache_inner_default found;
  bc_objects := foldl (fun m x => <[x.1 := x.2]> m) ∅ found;
  bc_guards := ∅; bc_next_guard := 0
|}.

Definition cache_contains (id : BlobId) (c : BlobCache) : bool * BlobCache :=
  let '(hit, i) := cache_touch id (bc_inner c) in (hit, with_index i c).

Definition cache_usage (c : BlobCache) : N * N := (N.of_nat (size (ci_entries (bc_inner c))), ci_total_bytes (bc_inner c)).

(** ** Pins *)

(** [CachePin::extend] and the drop of a [CachePin]. *)
Definition pin_extend (g : N) (ids : list BlobId) (c : BlobCache) : BlobCache :=
  match bc_guards c !! g with
  | Some held => with_cache (pin_ids ids (bc_inner c)) (bc_objects c) (<[g := held ++ ids]> (bc_guards c)) c
  | None => c
  end.
Definition pin_drop (g : N) (c : BlobCache) : BlobCache :=
  match bc_guards c !! g with
  | Some held => with_cache (unpin_ids held (bc_inner c)) (bc_objects c) (delete g (bc_guards c)) c
  | None => c
  end.
Definition cache_pin (ids : list BlobId) (c : BlobCache) : N * BlobCache :=
  let '(g, c) := new_guard [] c in (g, pin_extend g ids c).

Definition keep_task_outputs (tid : TaskId) (g : N) (c : BlobCache) : BlobCache :=
  match bc_guards c !! g with
  | Some ids =>
      let guards := delete g (bc_guards c) in
      if is_empty ids then with_cache (bc_inner c) (bc_objects c) guards c
      else
        let previous := default [] (ci_task_pins (bc_inner c) !! tid) in
        let i := set_cache_pins (ci_pins (bc_inner c)) (<[tid := ids]> (ci_task_pins (bc_inner c))) (bc_inner c) in
        with_cache (unpin_ids previous i) (bc_objects c) guards c
  | None => c
  end.

Definition take_task_outputs (tid : TaskId) (c : BlobCache) : option N * BlobCache :=
  match ci_task_pins (bc_inner c) !! tid with
  | Some ids =>
      let i := set_cache_pins (ci_pins (bc_inner c)) (delete tid (ci_task_pins (bc_inner c))) (bc_inner c) in
      let '(g, c) := new_guard ids (with_index i c) in (Some g, c)
  | None => (None, c)
  end.

Definition release_task_outputs (tid : TaskId) (c : BlobCache) : BlobCache :=
  match ci_task_pins (bc_inner c) !! tid with
  | Some ids =>
      let i := set_cache_pins (ci_pins (bc_inner c)) (delete tid (ci_task_pins (bc_inner c))) (bc_inner c) in
      with_index (unpin_ids ids i) c
  | None => c
  end.

(** ** Taking over a file *)

Inductive CacheError := CeIo | CeNotFound | CeTooLarge (size limit : N) | CeCorrupt (id : BlobId) | CeAlreadyExists.

(** [adopt_inner]: [mkdir] and [rename] are what the file system answered. *)
Definition cache_adopt (mkdir rename : bool) (data : Bytes) (id : BlobId) (size : N) (pin : option N) (c : BlobCache) : result CacheError unit * BlobCache :=
  if negb mkdir then (Err CeIo, c)
  else if negb rename && negb (bool_decide (is_Some (bc_objects c !! id))) then (Err CeIo, c)
  else
    let objects := if rename then <[id := data]> (bc_objects c) else bc_objects c in
    let c := with_cache (cache_insert id size (bc_inner c)) objects (bc_guards c) c in
    (Ok tt, match pin with Some g => pin_extend g [id] c | None => c end).

(** The first lock hold of [insert_file]: the blob may be there already. *)
Definition insert_probe (id : BlobId) (pin : option N) (c : BlobCache) : bool * BlobCache :=
  let '(hit, i) := cache_touch id (bc_inner c) in
  let c := with_index i c in
  if hit && bool_decide (is_Some (bc_objects c !! id)) then (true, match pin with Some g => pin_extend g [id] c | None => c end)
  else (false, c).

Definition drop_corrupt (deleted : bool) (id : BlobId) (c : BlobCache) : BlobCache :=
  with_cache (cache_remove id (bc_inner c)) (if deleted then delete id (bc_objects c) else bc_objects c) (bc_guards c) c.

(** ** Eviction *)

Fixpoint pick_cache_victims (i : CacheInner) (room : nat) (excess : N) (l : list (N * BlobId)) : list BlobId :=
  match l with
  | [] => []
  | (_, id) :: l =>
      match room with
      | O => []
      | S room' =>
          if excess =? 0 then []
          else if bool_decide (is_Some (ci_pins i !! id)) then pick_cache_victims i room excess l
          else id :: pick_cache_victims i room' (excess - N.max (from_option be_size 0 (ci_entries i !! id)) 1) l
      end
  end.

(** One lock hold of [evict_to_fit]; [None] ends the loop. *)
Definition cache_evict_batch (deleted : bool) (c : BlobCache) : option (nat * BlobCache) :=
  let i := bc_inner c in
  let excess := ci_total_bytes i - bc_max_bytes c in
  if excess =? 0 then None
  else
    let victims := pick_cache_victims i CACHE_EVICTION_BATCH_SIZE excess (ci_lru i) in
    if is_empty victims then None
    else Some (length victims,
               with_cache (foldl (fun i id => cache_remove id i) i victims)
                 (if deleted then foldl (fun m id => delete id m) (bc_objects c) victims else bc_objects c) (bc_guards c) c).

(** Every round but the last removes blobs, so a round per blob and one more are enough. *)
Fixpoint cache_evict_loop (fuel : nat) (deleted : bool) (evicted : nat) (c : BlobCache) : nat * BlobCache :=
  match fuel with
  | O => (evicted, c)
  | S fuel =>
      match cache_evict_batch deleted c with
      | None => (evicted, c)
      | Some (batch, c) =>
          if (batch <? CACHE_EVICTION_BATCH_SIZE)%nat then ((evicted + batch)%nat, c)
          else cache_evict_loop fuel deleted (evicted + batch) c
      end
  end.
Definition cache_evict_to_fit (deleted : bool) (c : BlobCache) : nat * BlobCache :=
  cache_evict_loop (S (size (ci_entries (bc_inner c)))) deleted 0 c.

(** ** Lock holds *)

(** What any task of the worker may do while it holds the lock once.  [ChDisk] is a change of
    an object file by something else. *)
Inductive CacheHold :=
| ChTouch (id : BlobId)
| ChPin (ids : list BlobId)
| ChExtend (g : N) (ids : list BlobId)
| ChDrop (g : N)
| ChKeep (tid : TaskId) (g : N)
| ChTake (tid : TaskId)
| ChRelease (tid : TaskId)
| ChAdopt (mkdir rename : bool) (data : Bytes) (id : BlobId) (size : N) (pin : option N)
| ChProbe (id : BlobId) (pin : option N)
| ChCorrupt (deleted : bool) (id : BlobId)
| ChForget (id : BlobId)
| ChEvict (deleted : bool)
| ChDisk (id : BlobId) (content : option Bytes).

Definition run_cache_hold (h : CacheHold) (c : BlobCache) : BlobCache :=
  match h with
  | ChTouch id => (cache_contains id c).2
  | ChPin ids => (cache_pin ids c).2
  | ChExtend g ids => pin_extend g ids c
  | ChDrop g => pin_drop g c
  | ChKeep tid g => keep_task_outputs tid g c
  | ChTake tid => (take_task_outputs tid c).2
  | ChRelease tid => release_task_outputs tid c
  | ChAdopt mkdir rename data id size pin => (cache_adopt mkdir rename data id size pin c).2
  | ChProbe id pin => (insert_probe id pin c).2
  | ChCorrupt deleted id => drop_corrupt deleted id c
  | ChForget id => with_index (cache_remove id (bc_inner c)) c
  | ChEvict deleted => from_option snd c (cache_evict_batch deleted c)
  | ChDisk id content => with_cache (bc_inner c) (partial_alter (fun _ => content) id (bc_objects c)) (bc_guards c) c
  end.

Definition cache_run (hs : list CacheHold) (c : BlobCache) : BlobCache := foldl (fun c h => run_cache_hold h c) c hs.

(** ** Storing and reading files *)

Section cache.
Context `{BlobHash}.

(** [copy_verified]: the content read from the source, when it is blob [id]. *)
Definition copy_verified (data : Bytes) (id : BlobId) : result CacheError Bytes :=
  if bool_decide (blob_of data = id) then Ok data else Err (CeCorrupt id).

(** [insert_file_inner]: [hashed] is the file as [hash_file] read it, [later] as the copy
    read it, or as it was moved; [others] is what other tasks do to the cache in between. *)
Definition insert_file_inner (hashed later : option Bytes) (others : list CacheHold) (moved mkdir rename : bool) (pin : option N) (c : BlobCache)
  : result CacheError (BlobId * N) * BlobCache :=
  match hashed with
  | None => (Err CeIo, c)
  | Some data =>
      let id := blob_of data in
      let '(stored, c) := insert_probe id pin c in
      if stored then (Ok (id, blen data), c)
      else
        let c := cache_run others c in
        match later with
        | None => (Err CeIo, c)
        | Some later =>
            match (if moved then Ok later else copy_verified later id) with
            | Err e => (Err e, c)
            | Ok copied =>
                match cache_adopt mkdir rename copied id (blen data) pin c with
                | (Ok _, c) => (Ok (id, blen data), c)
                | (Err e, c) => (Err e, c)
                end
            end
        end
  end.

(** What a read finds on disk, before the index is touched. *)
Definition read_checked (id : BlobId) (limit : N) (c : BlobCache) : result CacheError Bytes :=
  match bc_objects c !! id with
  | None => Err CeNotFound
  | Some data =>
      if limit <? blen data then Err (CeTooLarge (blen data) limit)
      else if bool_decide (blob_of data = id) then Ok data else Err (CeCorrupt id)
  end.

Definition read_verified (deleted : bool) (id : BlobId) (limit : N) (c : BlobCache) : result CacheError Bytes * BlobCache :=
  match read_checked id limit c with
  | Ok data => (Ok data, (cache_contains id c).2)
  | Err (CeCorrupt id) => (Err (CeCorrupt id), drop_corrupt deleted id c)
  | Err e => (Err e, c)
  end.

(** [materialize]: [create] is whether the destination could be created (it must not exist),
    [readable] whether the source could be read to its end, [chmod] whether its mode could be
    set.  The content placed, if any. *)
Definition materialize (create readable chmod deleted : bool) (id : BlobId) (c : BlobCache) : result CacheError Bytes * BlobCache :=
  match bc_objects c !! id with
  | None => (Err CeNotFound, with_index (cache_remove id (bc_inner c)) c)
  | Some data =>
      if negb create then (Err CeAlreadyExists, c)
      else if negb readable then (Err CeIo, c)
      else
        match copy_verified data id with
        | Ok data => (if chmod then Ok data else Err CeIo, (cache_contains id c).2)
        | Err e => (Err e, drop_corrupt deleted id c)
        end
  end.

End cache.
