(* ===== verification/BlobCacheProps.v ===== *)
(** * BlobCacheProps: the worker's cache keeps its books, its pins and its bound

    The index of [BlobCache] is that of the master's store ([BlobStore]), so its lemmas are
    used through the view [cview]; the eviction loops of the two are shown to be one. *)

From S2P Require Import Prelude Collections RustStr Capabilities Placement Blob Task Queue BlobTransfer BlobStore BlobStoreInv BlobStoreProps BlobEvict BlobCache.
Local Open Scope N_scope.

(** ** The index as the store's *)

Definition cview (i : CacheInner) : Inner := {|
  in_entries := ci_entries i; in_lru := ci_lru i; in_tick := ci_tick i; in_total_bytes := ci_total_bytes i; in_upload_bytes := 0;
  in_pins := ∅; in_output_pins := ∅; in_output_pin_counts := ∅; in_output_pin_seq := 0; in_pin_counts := ci_pins i; in_uploads := ∅
|}.

Lemma cview_touch id i : cview (cache_touch id i).2 = (touch id (cview i)).2 /\ (cache_touch id i).1 = (touch id (cview i)).1.
Proof. unfold cache_touch, touch. cbn [cview in_entries]. by destruct (ci_entries i !! id). Qed.

Lemma cview_insert id size i : cview (cache_insert id size i) = index_insert id size (cview i).
Proof.
  unfold cache_insert, index_insert, cache_touch, touch. cbn [cview in_entries]. destruct (ci_entries i !! id) as [e|] eqn:E; [done|].
  rewrite bool_decide_false by (by intros []). done.
Qed.

Lemma cview_remove id i : cview (cache_remove id i) = (index_remove id (cview i)).2.
Proof. unfold cache_remove, index_remove. cbn [cview in_entries]. by destruct (ci_entries i !! id). Qed.

Lemma cview_remove_all ids i : cview (foldl (fun i id => cache_remove id i) i ids) = remove_all ids (cview i).
Proof. unfold remove_all. revert i. induction ids as [|id ids IH]; intros i; cbn [foldl]; [done|]. by rewrite IH, cview_remove. Qed.

Lemma cview_victims i room excess l : pick_cache_victims i room excess l = pick_victims (cview i) None room excess l.
Proof.
  revert room excess. induction l as [|[t id] l IH]; intros room excess; cbn [pick_cache_victims pick_victims]; [done|]. destruct room; [done|].
  destruct (excess =? 0); [done|]. cbn [cview in_pin_counts in_entries]. rewrite orb_false_r. destruct (bool_decide _); by rewrite IH.
Qed.

(** A store with the cache's contents and no uploads. *)
Definition as_store (c : BlobCache) : BlobStore :=
  {| bs_max_bytes := bc_max_bytes c; bs_output_pin_retention := 0; bs_inner := cview (bc_inner c); bs_objects := bc_objects c |}.

Definition fits_u64 (c : BlobCache) : Prop := ci_total_bytes (bc_inner c) <= u64_max.

Lemma cache_batch_as_store io c : fits_u64 c ->
  evict_batch io None (as_store c) = option_map (fun '(n, c) => (n, as_store c)) (cache_evict_batch (io_delete io) c).
Proof.
  intros Hf. unfold evict_batch, cache_evict_batch. cbn [as_store bs_inner bs_max_bytes bs_objects].
  assert (Hu : used_bytes (cview (bc_inner c)) = ci_total_bytes (bc_inner c)).
  { unfold used_bytes, saturating_add, fits_u64 in *. cbn [cview in_total_bytes in_upload_bytes]. lia. }
  rewrite Hu. destruct (_ =? 0); [done|]. change (in_lru (cview (bc_inner c))) with (ci_lru (bc_inner c)). rewrite <-cview_victims. change CACHE_EVICTION_BATCH_SIZE with EVICTION_BATCH_SIZE.
  destruct (is_empty _); [done|]. cbn [option_map]. unfold with_disk, as_store, with_cache. cbn [bc_inner bc_objects bc_max_bytes bs_max_bytes bs_output_pin_retention].
  by rewrite cview_remove_all.
Qed.

Lemma removals_shrink ids i : ci_total_bytes (foldl (fun i id => cache_remove id i) i ids) <= ci_total_bytes i.
Proof.
  revert i. induction ids as [|id ids IH]; intros i; cbn [foldl]; [done|]. etrans; [apply IH|]. unfold cache_remove. destruct (ci_entries i !! id); [cbn; lia|done].
Qed.

Lemma cache_evicts_aux io c : fits_u64 c -> as_store (cache_evict_to_fit (io_delete io) c).2 = evict_to_fit io None (as_store c).
Proof.
  intros Hf. unfold cache_evict_to_fit, evict_to_fit. cbn [as_store bs_inner cview in_entries]. generalize (S (size (ci_entries (bc_inner c)))) 0%nat. intros fuel.
  revert c Hf. induction fuel as [|fuel IH]; intros c Hf n; cbn [cache_evict_loop evict_loop]; [done|]. rewrite cache_batch_as_store by done.
  destruct (cache_evict_batch (io_delete io) c) as [[batch c']|] eqn:E; cbn [option_map]; [|done]. change CACHE_EVICTION_BATCH_SIZE with EVICTION_BATCH_SIZE.
  destruct (batch <? EVICTION_BATCH_SIZE)%nat; [done|]. apply IH. unfold cache_evict_batch in E. destruct (_ =? 0); [done|]. destruct (is_empty _); [done|]. injection E as _ <-.
  unfold fits_u64 in *. cbn [bc_inner with_cache]. etrans; [apply removals_shrink|done].
Qed.

(** The worker's cache evicts as the master's store does: whatever the file system does
    with the deletions, the loop of [BlobCache::evict_to_fit] removes the same blobs, in the
    same batches, as the store's on the same contents. *)
Theorem cache_evicts_like_store io c : fits_u64 c -> as_store (cache_evict_to_fit (io_delete io) c).2 = evict_to_fit io None (as_store c).
Proof. apply cache_evicts_aux. Qed.

Lemma evict_shrinks deleted c : ci_total_bytes (bc_inner (cache_evict_to_fit deleted c).2) <= ci_total_bytes (bc_inner c).
Proof.
  unfold cache_evict_to_fit. generalize (S (size (ci_entries (bc_inner c)))) 0%nat. intros fuel. revert c. induction fuel as [|fuel IH]; intros c n; cbn [cache_evict_loop]; [done|].
  destruct (cache_evict_batch deleted c) as [[batch c']|] eqn:E; [|done]. assert (Hs : ci_total_bytes (bc_inner c') <= ci_total_bytes (bc_inner c)).
  { unfold cache_evict_batch in E. destruct (_ =? 0); [done|]. destruct (is_empty _); [done|]. injection E as _ <-. apply removals_shrink. }
  destruct (_ <? _)%nat; [done|]. etrans; [apply IH|done].
Qed.

(** ** The invariant *)

(** The pins a blob has: by live guards and by tasks whose outputs are kept. *)
Definition pins_held (c : BlobCache) (id : BlobId) : N := map_sum (occ id) (bc_guards c) + map_sum (occ id) (ci_task_pins (bc_inner c)).

Record cache_inv (c : BlobCache) : Prop := {
  cv_index : index_ok (cview (bc_inner c));
  cv_pins : counts_are (ci_pins (bc_inner c)) (pins_held c);
  cv_names : forall g ids, bc_guards c !! g = Some ids -> g < bc_next_guard c
}.

Lemma index_ok_fields i i' : in_entries i' = in_entries i -> in_lru i' = in_lru i -> in_tick i' = in_tick i -> in_total_bytes i' = in_total_bytes i ->
  index_ok i -> index_ok i'.
Proof. intros E1 E2 E3 E4 [H1 H2 H3 H4]. split; rewrite ?E1, ?E2, ?E3, ?E4; done. Qed.

Lemma pins_index i i' : ci_entries i' = ci_entries i -> ci_lru i' = ci_lru i -> ci_tick i' = ci_tick i -> ci_total_bytes i' = ci_total_bytes i ->
  index_ok (cview i) -> index_ok (cview i').
Proof. intros E1 E2 E3 E4. by apply index_ok_fields. Qed.

(** What changes only the index leaves the pins. *)
Lemma index_pins id size i :
  ci_pins (cache_touch id i).2 = ci_pins i /\ ci_task_pins (cache_touch id i).2 = ci_task_pins i
  /\ ci_pins (cache_insert id size i) = ci_pins i /\ ci_task_pins (cache_insert id size i) = ci_task_pins i
  /\ ci_pins (cache_remove id i) = ci_pins i /\ ci_task_pins (cache_remove id i) = ci_task_pins i.
Proof. unfold cache_insert, cache_touch, cache_remove. by destruct (ci_entries i !! id). Qed.

Lemma remove_all_pins ids i : ci_pins (foldl (fun i id => cache_remove id i) i ids) = ci_pins i
  /\ ci_task_pins (foldl (fun i id => cache_remove id i) i ids) = ci_task_pins i.
Proof.
  revert i. induction ids as [|id ids IH]; intros i; cbn [foldl]; [done|]. destruct (IH (cache_remove id i)) as [-> ->]. destruct (index_pins id 0 i) as (_ & _ & _ & _ & -> & ->). done.
Qed.

(** A new index over the same pins. *)
Lemma inv_index i objects c : cache_inv c -> index_ok (cview i) -> ci_pins i = ci_pins (bc_inner c) -> ci_task_pins i = ci_task_pins (bc_inner c) ->
  cache_inv (with_cache i objects (bc_guards c) c).
Proof.
  intros [Hi Hp Hn] Hi' Ep Et. split; cbn [bc_inner bc_guards bc_next_guard with_cache]; [done| |done]. rewrite Ep. eapply counts_are_ext; [|exact Hp].
  intros id. unfold pins_held. cbn [bc_inner bc_guards with_cache]. by rewrite Et.
Qed.

Lemma inv_touch id objects c : cache_inv c -> cache_inv (with_cache (cache_touch id (bc_inner c)).2 objects (bc_guards c) c).
Proof.
  intros Hc. destruct (index_pins id 0 (bc_inner c)) as (? & ? & _). apply inv_index; try done. rewrite (proj1 (cview_touch id (bc_inner c))). apply touch_index, Hc.
Qed.

Lemma inv_insert id size objects c : cache_inv c -> cache_inv (with_cache (cache_insert id size (bc_inner c)) objects (bc_guards c) c).
Proof. intros Hc. destruct (index_pins id size (bc_inner c)) as (_ & _ & ? & ? & _). apply inv_index; try done. rewrite cview_insert. apply index_insert_index, Hc. Qed.

Lemma inv_remove id objects c : cache_inv c -> cache_inv (with_cache (cache_remove id (bc_inner c)) objects (bc_guards c) c).
Proof. intros Hc. destruct (index_pins id 0 (bc_inner c)) as (_ & _ & _ & _ & ? & ?). apply inv_index; try done. rewrite cview_remove. apply index_remove_index, Hc. Qed.

Lemma inv_extend g ids c : cache_inv c -> cache_inv (pin_extend g ids c).
Proof.
  intros [Hi Hp Hn]. unfold pin_extend. destruct (bc_guards c !! g) as [held|] eqn:E; [|done]. split; cbn [bc_inner bc_guards bc_next_guard with_cache].
  - by eapply pins_index, Hi.
  - eapply (counts_are_ext _ (fun id => pins_held c id + occ id ids)); [|by apply counts_up]. intros id. unfold pins_held. cbn [bc_inner bc_guards with_cache pin_ids set_cache_pins ci_task_pins].
    pose proof (map_sum_insert_Some (occ id) _ g held (held ++ ids) E) as Hs. rewrite occ_app in Hs. lia.
  - intros g' ids'. destruct (decide (g' = g)) as [->|]; [intros _; by eapply Hn|]. rewrite lookup_insert_ne by done. apply Hn.
Qed.

Lemma inv_drop g c : cache_inv c -> cache_inv (pin_drop g c).
Proof.
  intros [Hi Hp Hn]. unfold pin_drop. destruct (bc_guards c !! g) as [held|] eqn:E; [|done].
  assert (Hs : forall id, map_sum (occ id) (bc_guards c) = occ id held + map_sum (occ id) (delete g (bc_guards c))) by (intros id; by apply map_sum_delete).
  split; cbn [bc_inner bc_guards bc_next_guard with_cache].
  - by eapply pins_index, Hi.
  - eapply (counts_are_ext _ (fun id => pins_held c id - occ id held)); [|apply counts_down; [|done]]; intros id; unfold pins_held;
      cbn [bc_inner bc_guards with_cache unpin_ids set_cache_pins ci_task_pins]; rewrite (Hs id); lia.
  - intros g' ids' [_ Hl]%lookup_delete_Some. by eapply Hn.
Qed.

Lemma inv_new ids i c : cache_inv c -> index_ok (cview i) -> counts_are (ci_pins i) (fun id => occ id ids + (map_sum (occ id) (bc_guards c) + map_sum (occ id) (ci_task_pins i))) ->
  cache_inv (new_guard ids (with_index i c)).2.
Proof.
  intros [_ _ Hn] Hi Hp. assert (Hf : bc_guards c !! bc_next_guard c = None) by (destruct (bc_guards c !! _) eqn:E; [|done]; apply Hn in E; lia).
  split; cbn [snd new_guard bc_inner bc_guards bc_next_guard with_index with_cache]; [done| |].
  - eapply counts_are_ext; [|exact Hp]. intros id. unfold pins_held. cbn [bc_inner bc_guards snd new_guard with_index with_cache]. rewrite map_sum_insert by done. lia.
  - intros g ids'. destruct (decide (g = bc_next_guard c)) as [->|]; [intros _; lia|]. rewrite lookup_insert_ne by done. intros ?%Hn. lia.
Qed.

Lemma inv_pin ids c : cache_inv c -> cache_inv (cache_pin ids c).2.
Proof.
  intros Hc. unfold cache_pin. assert (Hn : cache_inv (new_guard [] c).2).
  { replace c with (with_index (bc_inner c) c) at 1 by by destruct c. apply inv_new; [done|apply Hc|]. eapply counts_are_ext; [|apply Hc]. done. }
  destruct (new_guard [] c) as [g c']. by apply inv_extend.
Qed.

Lemma inv_keep tid g c : cache_inv c -> cache_inv (keep_task_outputs tid g c).
Proof.
  intros [Hi Hp Hn]. unfold keep_task_outputs. destruct (bc_guards c !! g) as [ids|] eqn:E; [|done].
  assert (Hs : forall id, map_sum (occ id) (bc_guards c) = occ id ids + map_sum (occ id) (delete g (bc_guards c))) by (intros id; by apply map_sum_delete).
  assert (Hn' : forall g' ids', delete g (bc_guards c) !! g' = Some ids' -> g' < bc_next_guard c) by (intros g' ids' [_ Hl]%lookup_delete_Some; by eapply Hn).
  destruct ids as [|x ids]; cbn [is_empty].
  - split; cbn [bc_inner bc_guards bc_next_guard with_cache]; [done| |done]. eapply counts_are_ext; [|exact Hp]. intros id. unfold pins_held. cbn [bc_inner bc_guards with_cache]. by rewrite (Hs id).
  - set (ids' := x :: ids) in *. set (previous := default [] (ci_task_pins (bc_inner c) !! tid)).
    assert (Ht : forall id, map_sum (occ id) (<[tid := ids']> (ci_task_pins (bc_inner c))) + occ id previous = occ id ids' + map_sum (occ id) (ci_task_pins (bc_inner c))).
    { intros id. unfold previous. destruct (ci_task_pins (bc_inner c) !! tid) as [prev|] eqn:Ep; cbn [default]; [by apply map_sum_insert_Some|]. rewrite map_sum_insert by done. cbn [occ]. lia. }
    split; cbn [bc_inner bc_guards bc_next_guard with_cache]; [by eapply pins_index, Hi| |done].
    eapply (counts_are_ext _ (fun id => pins_held c id - occ id previous)); [|apply counts_down; [|done]]; intros id; unfold pins_held;
      cbn [bc_inner bc_guards with_cache unpin_ids set_cache_pins ci_task_pins]; specialize (Hs id); specialize (Ht id); [lia|].
    unfold previous in *. destruct (ci_task_pins (bc_inner c) !! tid) as [prev|] eqn:Ep; cbn [default] in *; [|cbn [occ]; lia].
    pose proof (map_sum_lookup_le (occ id) _ _ _ Ep). lia.
Qed.

Lemma inv_take tid c : cache_inv c -> cache_inv (take_task_outputs tid c).2.
Proof.
  intros Hc. unfold take_task_outputs. destruct (ci_task_pins (bc_inner c) !! tid) as [ids|] eqn:E; [|done].
  assert (Hnew : cache_inv (new_guard ids (with_index (set_cache_pins (ci_pins (bc_inner c)) (delete tid (ci_task_pins (bc_inner c))) (bc_inner c)) c)).2).
  { apply inv_new; [done|by eapply pins_index, Hc|]. eapply counts_are_ext; [|apply Hc]. intros id. unfold pins_held. cbn [ci_task_pins set_cache_pins].
    rewrite (map_sum_delete (occ id) _ _ _ E). lia. }
  by destruct (new_guard ids _).
Qed.

Lemma inv_release tid c : cache_inv c -> cache_inv (release_task_outputs tid c).
Proof.
  intros [Hi Hp Hn]. unfold release_task_outputs. destruct (ci_task_pins (bc_inner c) !! tid) as [ids|] eqn:E; [|done].
  split; cbn [bc_inner bc_guards bc_next_guard with_index with_cache]; [by eapply pins_index, Hi| |done].
  eapply (counts_are_ext _ (fun id => pins_held c id - occ id ids)); [|apply counts_down; [|done]]; intros id; unfold pins_held;
    cbn [bc_inner bc_guards with_index with_cache unpin_ids set_cache_pins ci_task_pins]; rewrite (map_sum_delete (occ id) _ _ _ E); lia.
Qed.

Lemma inv_opt_extend pin ids c : cache_inv c -> cache_inv (match pin with Some g => pin_extend g ids c | None => c end).
Proof. destruct pin; [apply inv_extend|done]. Qed.

Lemma inv_evict deleted c : cache_inv c -> cache_inv (from_option snd c (cache_evict_batch deleted c)).
Proof.
  intros Hc. unfold cache_evict_batch. destruct (_ =? 0); [done|]. destruct (is_empty _); [done|]. cbn [from_option snd].
  destruct (remove_all_pins (pick_cache_victims (bc_inner c) CACHE_EVICTION_BATCH_SIZE (ci_total_bytes (bc_inner c) - bc_max_bytes c) (ci_lru (bc_inner c))) (bc_inner c)).
  apply inv_index; try done. rewrite cview_remove_all. apply remove_all_index, Hc.
Qed.

Lemma run_hold_inv h c : cache_inv c -> cache_inv (run_cache_hold h c).
Proof.
  intros Hc. destruct h as [id|ids|g ids|g|tid g|tid|tid|mkdir rename data id size pin|id pin|deleted id|id|deleted|id content]; cbn [run_cache_hold].
  - unfold cache_contains. pose proof (inv_touch id (bc_objects c) c Hc) as Ht. by destruct (cache_touch id (bc_inner c)).
  - by apply inv_pin.
  - by apply inv_extend.
  - by apply inv_drop.
  - by apply inv_keep.
  - by apply inv_take.
  - by apply inv_release.
  - unfold cache_adopt. destruct mkdir; [|done]. cbn [negb]. destruct (negb rename && _); [done|]. cbn [snd]. by apply inv_opt_extend, inv_insert.
  - unfold insert_probe. pose proof (inv_touch id (bc_objects c) c Hc) as Ht. destruct (cache_touch id (bc_inner c)) as [hit i]. cbn [snd] in Ht.
    destruct (hit && _); [|done]. by apply inv_opt_extend.
  - by apply inv_remove.
  - by apply inv_remove.
  - by apply inv_evict.
  - by apply inv_index; [|apply Hc| |].
Qed.

Lemma open_cache_inv max found : cache_inv (cache_open max found).
Proof.
  assert (Hi : forall i, index_ok (cview i) /\ ci_pins i = ∅ /\ ci_task_pins i = ∅ ->
    let i' := foldl (fun i x => cache_insert x.1 (blen x.2) i) i found in index_ok (cview i') /\ ci_pins i' = ∅ /\ ci_task_pins i' = ∅).
  { induction found as [|[id data] found IH]; intros i (Hi & Hp & Ht); cbn [foldl fst snd]; [done|]. apply IH. destruct (index_pins id (blen data) i) as (_ & _ & -> & -> & _).
    split; [|done]. rewrite cview_insert. by apply index_insert_index. }
  destruct (Hi cache_inner_default) as (H1 & H2 & H3).
  { split; [|done]. split; cbn; [constructor| |done|by rewrite map_sum_empty]. intros t id. rewrite elem_of_nil. split; [done|]. by intros (e & ? & _). }
  split; cbn [cache_open bc_inner bc_guards bc_next_guard]; [done| |intros g ids; by rewrite lookup_empty]. rewrite H2. intros id. unfold pins_held.
  cbn [cache_open bc_inner bc_guards]. rewrite H3, !map_sum_empty. by rewrite lookup_empty.
Qed.

Lemma run_inv hs c : cache_inv c -> cache_inv (cache_run hs c).
Proof. unfold cache_run. revert c. induction hs as [|h hs IH]; intros c Hc; cbn [foldl]; [done|]. by apply IH, run_hold_inv. Qed.

(** However the tasks of a worker interleave their holds of the cache's lock, and whatever
    happens to the files, the cache keeps exact books: the byte total is the sum of the
    entries, the recency list names each entry once, in order, and the pin count of a blob is
    the number of times live guards and kept outputs hold it. *)
Theorem cache_books_exact max found hs : let c := cache_run hs (cache_open max found) in
  ci_total_bytes (bc_inner c) = map_sum be_size (ci_entries (bc_inner c))
  /\ StronglySorted (fun x y => x.1 < y.1) (ci_lru (bc_inner c))
  /\ (forall t id, (t, id) ∈ ci_lru (bc_inner c) <-> exists e, ci_entries (bc_inner c) !! id = Some e /\ be_tick e = t)
  /\ forall id, default 0 (ci_pins (bc_inner c) !! id) = pins_held c id /\ ci_pins (bc_inner c) !! id <> Some 0.
Proof.
  cbv zeta. destruct (run_inv hs _ (open_cache_inv max found)) as [Hi Hp _]. destruct Hi as [H1 H2 _ H4]. split; [exact H4|]. split; [exact H1|]. split; [exact H2|].
  intros id. rewrite (Hp id). destruct (N.eqb_spec (pins_held (cache_run hs (cache_open max found)) id) 0) as [->|Hne]; [done|]. split; [done|]. congruence.
Qed.

(** ** Pinned blobs *)

Definition guard_holds (c : BlobCache) (g : N) (id : BlobId) : Prop := exists ids, bc_guards c !! g = Some ids /\ id ∈ ids.
Definition cached (c : BlobCache) (id : BlobId) : Prop := is_Some (ci_entries (bc_inner c) !! id).

(** A hold that neither consumes guard [g] nor finds blob [id] corrupt or gone. *)
Definition spares (g : N) (id : BlobId) (h : CacheHold) : Prop :=
  match h with
  | ChDrop g' | ChKeep _ g' => g' <> g
  | ChCorrupt _ id' | ChForget id' => id' <> id
  | _ => True
  end.
(** ... and does not write the file of [id]. *)
Definition spares_file (id : BlobId) (h : CacheHold) : Prop :=
  match h with ChAdopt _ _ _ id' _ _ | ChDisk id' _ | ChCorrupt _ id' => id' <> id | _ => True end.

Lemma cached_touch id id' i : is_Some (ci_entries i !! id') -> is_Some (ci_entries (cache_touch id i).2 !! id').
Proof.
  intros Hc. unfold cache_touch. destruct (ci_entries i !! id) eqn:E; [|done]. cbn. destruct (decide (id = id')) as [->|]; [rewrite lookup_insert_eq; eauto|by rewrite lookup_insert_ne].
Qed.

Lemma cached_insert id size id' i : is_Some (ci_entries i !! id') \/ id' = id -> is_Some (ci_entries (cache_insert id size i) !! id').
Proof.
  intros Hc. unfold cache_insert, cache_touch. destruct (ci_entries i !! id) eqn:E; cbn; (destruct (decide (id = id')) as [->|]; [rewrite lookup_insert_eq; eauto|rewrite lookup_insert_ne by done]);
    destruct Hc; done.
Qed.

Lemma cached_remove id id' i : id <> id' -> is_Some (ci_entries i !! id') -> is_Some (ci_entries (cache_remove id i) !! id').
Proof. intros Hn Hc. unfold cache_remove. destruct (ci_entries i !! id); [|done]. cbn. by rewrite lookup_delete_ne. Qed.

Lemma cached_remove_all ids id' i : id' ∉ ids -> is_Some (ci_entries i !! id') -> is_Some (ci_entries (foldl (fun i id => cache_remove id i) i ids) !! id').
Proof.
  revert i. induction ids as [|id ids IH]; intros i Hn Hc; cbn [foldl]; [done|]. rewrite not_elem_of_cons in Hn. apply IH; [naive_solver|]. apply cached_remove; naive_solver.
Qed.

Lemma pinned_counted c g id : cache_inv c -> guard_holds c g id -> is_Some (ci_pins (bc_inner c) !! id).
Proof.
  intros [_ Hp _] (ids & Hg & Hin). rewrite (Hp id). assert (Hpos : 0 < pins_held c id).
  { unfold pins_held. pose proof (map_sum_lookup_le (occ id) _ _ _ Hg). pose proof (occ_pos id ids Hin). lia. }
  destruct (N.eqb_spec (pins_held c id) 0); [lia|eauto].
Qed.

Lemma victims_unpinned c deleted n c' g id : cache_inv c -> guard_holds c g id -> cache_evict_batch deleted c = Some (n, c') ->
  (cached c id -> cached c' id) /\ bc_guards c' = bc_guards c /\ bc_objects c' !! id = bc_objects c !! id.
Proof.
  intros Hc Hg. unfold cache_evict_batch. destruct (_ =? 0); [done|]. set (vs := pick_cache_victims _ _ _ _). destruct (is_empty vs); [done|]. intros [= _ <-].
  assert (Hv : id ∉ vs).
  { unfold vs. rewrite cview_victims. intros (_ & Hn & _)%elem_of_pick. destruct (pinned_counted c g id Hc Hg) as [k Hk]. cbn [cview in_pin_counts] in Hn. congruence. }
  split; [|split; [done|]]; cbn [bc_objects with_cache].
  - by apply cached_remove_all.
  - destruct deleted; [|done]. rewrite foldl_delete_lookup. by case_decide.
Qed.

Lemma guard_extend c g g' id ids : guard_holds c g id -> guard_holds (pin_extend g' ids c) g id.
Proof.
  intros (held & Hg & Hin). unfold pin_extend. destruct (bc_guards c !! g') as [held'|] eqn:E; [|by exists held]. unfold guard_holds. cbn [bc_guards with_cache].
  destruct (decide (g' = g)) as [->|]; [|exists held; by rewrite lookup_insert_ne]. assert (held' = held) as -> by congruence. exists (held ++ ids). rewrite lookup_insert_eq, elem_of_app. auto.
Qed.

Lemma extend_index g ids c : bc_objects (pin_extend g ids c) = bc_objects c /\ ci_entries (bc_inner (pin_extend g ids c)) = ci_entries (bc_inner c).
Proof. unfold pin_extend. by destruct (bc_guards c !! g). Qed.

Lemma opt_extend_keeps pin ids c g id : guard_holds c g id ->
  let c' := match pin with Some g' => pin_extend g' ids c | None => c end in
  guard_holds c' g id /\ (cached c id -> cached c' id) /\ bc_objects c' !! id = bc_objects c !! id.
Proof.
  intros Hg. destruct pin as [g'|]; [|done]. cbv zeta. destruct (extend_index g' ids c) as [Ho He]. unfold cached. rewrite He, Ho. split; [by apply guard_extend|done].
Qed.

Lemma new_guard_keeps ids c g id : cache_inv c -> guard_holds c g id -> guard_holds (new_guard ids c).2 g id.
Proof.
  intros Hc (held & Hg & Hin). exists held. split; [|done]. cbn [snd new_guard bc_guards]. rewrite lookup_insert_ne; [done|]. pose proof (cv_names c Hc _ _ Hg). lia.
Qed.

Lemma hold_keeps_pinned h c g id : cache_inv c -> guard_holds c g id -> spares g id h ->
  guard_holds (run_cache_hold h c) g id /\ (cached c id -> cached (run_cache_hold h c) id)
  /\ (spares_file id h -> bc_objects (run_cache_hold h c) !! id = bc_objects c !! id).
Proof.
  intros Hc Hg Hs. destruct h as [id'|ids|g' ids|g'|tid g'|tid|tid|mkdir rename data id' size pin|id' pin|deleted id'|id'|deleted|id' content]; cbn [run_cache_hold spares spares_file] in *.
  - unfold cache_contains. pose proof (cached_touch id' id (bc_inner c)). destruct (cache_touch id' (bc_inner c)). done.
  - unfold cache_pin. pose proof (new_guard_keeps [] c g id Hc Hg) as Hg'. destruct (new_guard [] c) as [n c'] eqn:E. injection E as _ <-. cbn [snd] in *.
    destruct (opt_extend_keeps (Some n) ids _ g id Hg') as (? & ? & ?). done.
  - destruct (opt_extend_keeps (Some g') ids c g id Hg) as (? & ? & ?). done.
  - unfold pin_drop. destruct (bc_guards c !! g') as [held|]; [|done]. destruct Hg as (ids & ? & ?). split; [exists ids; cbn [bc_guards with_cache]; by rewrite lookup_delete_ne|done].
  - unfold keep_task_outputs. destruct (bc_guards c !! g') as [held|]; [|done]. destruct Hg as (ids & ? & ?).
    destruct (is_empty held); (split; [exists ids; cbn [bc_guards with_cache]; by rewrite lookup_delete_ne|done]).
  - unfold take_task_outputs. destruct (ci_task_pins (bc_inner c) !! tid) as [ids|]; [|done].
    destruct Hg as (held & Hg & Hin). split; [|done]. exists held. split; [|done]. cbn [snd new_guard bc_guards with_index with_cache].
    rewrite lookup_insert_ne; [done|]. cbn [bc_next_guard with_index with_cache]. pose proof (cv_names c Hc _ _ Hg). lia.
  - unfold release_task_outputs. by destruct (ci_task_pins (bc_inner c) !! tid).
  - unfold cache_adopt. destruct mkdir; [|done]. cbn [negb]. destruct (negb rename && _); [done|]. cbn [snd].
    destruct (opt_extend_keeps pin [id'] (with_cache (cache_insert id' size (bc_inner c)) (if rename then <[id' := data]> (bc_objects c) else bc_objects c) (bc_guards c) c) g id Hg) as (H1 & H2 & H3).
    split; [done|]. split; [intros Hx; apply H2, cached_insert; by left|]. intros Hn. rewrite H3. cbn [bc_objects with_cache]. destruct rename; [by rewrite lookup_insert_ne|done].
  - unfold insert_probe. pose proof (cached_touch id' id (bc_inner c)) as Ht. destruct (cache_touch id' (bc_inner c)) as [hit i]. cbn [snd] in Ht.
    destruct (hit && _); [|done]. cbn [snd]. destruct (opt_extend_keeps pin [id'] (with_index i c) g id Hg) as (? & H2 & ?). split; [done|]. split; [|done]. intros Hx. by apply H2, Ht.
  - split; [done|]. unfold drop_corrupt, cached. cbn [bc_inner bc_objects with_cache]. split; [intros; by apply cached_remove|]. intros Hn. destruct deleted; [by rewrite lookup_delete_ne|done].
  - split; [done|]. split; [|done]. intros Hx. by apply cached_remove.
  - destruct (cache_evict_batch deleted c) as [[n c']|] eqn:E; [|done]. cbn [from_option snd]. destruct (victims_unpinned c deleted n c' g id Hc Hg E) as (H1 & H2 & H3).
    split; [unfold guard_holds; by rewrite H2|done].
  - split; [done|]. split; [done|]. intros Hn. cbn [bc_objects with_cache]. by rewrite lookup_partial_alter_ne.
Qed.

Lemma run_keeps_pinned hs c g id : cache_inv c -> guard_holds c g id -> Forall (spares g id) hs ->
  guard_holds (cache_run hs c) g id /\ (cached c id -> cached (cache_run hs c) id)
  /\ (Forall (spares_file id) hs -> bc_objects (cache_run hs c) !! id = bc_objects c !! id).
Proof.
  unfold cache_run. revert c. induction hs as [|h hs IH]; intros c Hc Hg Hs; cbn [foldl]; [done|]. apply Forall_cons in Hs as [Hh Hs].
  destruct (hold_keeps_pinned h c g id Hc Hg Hh) as (H1 & H2 & H3). destruct (IH (run_cache_hold h c) (run_hold_inv h c Hc) H1 Hs) as (I1 & I2 & I3).
  split; [done|]. split; [auto|]. intros [Hf Hfs]%Forall_cons. rewrite I3, H3; done.
Qed.

(** A hold that does not consume guard [g] leaves it alive, with all it held. *)
Definition keeps_guard (g : N) (h : CacheHold) : Prop := match h with ChDrop g' | ChKeep _ g' => g' <> g | _ => True end.

Lemma extend_guards g g' ids held c : bc_guards c !! g = Some held -> exists more, bc_guards (pin_extend g' ids c) !! g = Some (held ++ more).
Proof.
  intros Hg. unfold pin_extend. destruct (bc_guards c !! g') as [held'|] eqn:E; [|exists []; by rewrite app_nil_r]. cbn [bc_guards with_cache].
  destruct (decide (g' = g)) as [->|]; [|exists []; by rewrite lookup_insert_ne, app_nil_r]. rewrite lookup_insert_eq. exists ids. congruence.
Qed.

Lemma hold_keeps_guard h c g held : cache_inv c -> bc_guards c !! g = Some held -> keeps_guard g h ->
  exists more, bc_guards (run_cache_hold h c) !! g = Some (held ++ more).
Proof.
  intros Hc Hg Hk. pose proof (cv_names c Hc _ _ Hg) as Hlt.
  assert (Hsame : forall c', bc_guards c' !! g = Some held -> exists more, bc_guards c' !! g = Some (held ++ more)) by (intros c' ->; exists []; by rewrite app_nil_r).
  destruct h as [id'|ids|g' ids|g'|tid g'|tid|tid|mkdir rename data id' size pin|id' pin|deleted id'|id'|deleted|id' content]; cbn [run_cache_hold keeps_guard] in *.
  - apply Hsame. unfold cache_contains. by destruct (cache_touch id' (bc_inner c)).
  - unfold cache_pin. destruct (new_guard [] c) as [n c'] eqn:E. injection E as _ <-. cbn [snd]. apply extend_guards. cbn [bc_guards]. rewrite lookup_insert_ne; [done|lia].
  - by apply extend_guards.
  - apply Hsame. unfold pin_drop. destruct (bc_guards c !! g'); [|done]. cbn [bc_guards with_cache]. by rewrite lookup_delete_ne.
  - apply Hsame. unfold keep_task_outputs. destruct (bc_guards c !! g') as [ids|]; [|done]. destruct (is_empty ids); cbn [bc_guards with_cache]; by rewrite lookup_delete_ne.
  - apply Hsame. unfold take_task_outputs. destruct (ci_task_pins (bc_inner c) !! tid) as [ids|]; [|done]. cbn [snd new_guard bc_guards with_index with_cache bc_next_guard].
    rewrite lookup_insert_ne; [done|lia].
  - apply Hsame. unfold release_task_outputs. by destruct (ci_task_pins (bc_inner c) !! tid).
  - unfold cache_adopt. destruct mkdir; [|by apply Hsame]. cbn [negb]. destruct (negb rename && _); [by apply Hsame|]. cbn [snd]. destruct pin; [by apply extend_guards|by apply Hsame].
  - unfold insert_probe. destruct (cache_touch id' (bc_inner c)). destruct (_ && _); cbn [snd]; [|by apply Hsame]. destruct pin; [by apply extend_guards|by apply Hsame].
  - by apply Hsame.
  - by apply Hsame.
  - apply Hsame. unfold cache_evict_batch. destruct (_ =? 0); [done|]. by destruct (is_empty _).
  - by apply Hsame.
Qed.

Lemma run_keeps_guard hs c g held : cache_inv c -> bc_guards c !! g = Some held -> Forall (keeps_guard g) hs ->
  exists more, bc_guards (cache_run hs c) !! g = Some (held ++ more).
Proof.
  unfold cache_run. revert c held. induction hs as [|h hs IH]; intros c held Hc Hg Hs; cbn [foldl]; [exists []; by rewrite app_nil_r|]. apply Forall_cons in Hs as [Hh Hs].
  destruct (hold_keeps_guard h c g held Hc Hg Hh) as [m1 H1]. destruct (IH _ _ (run_hold_inv h c Hc) H1 Hs) as [m2 H2]. exists (m1 ++ m2). by rewrite H2, app_assoc.
Qed.

Lemma spares_keeps_guard g id h : spares g id h -> keeps_guard g h.
Proof. by destruct h. Qed.


(** ** The bound *)

(** [evict_to_fit] keeps every pinned blob, removes the least recently used of the others
    first, and ends with the cache within its bound (give or take a byte per empty blob) or
    with nothing left but pinned blobs; its loop ends within the rounds given. *)
Theorem cache_fits_or_pinned deleted c : cache_inv c -> fits_u64 c -> let c' := (cache_evict_to_fit deleted c).2 in
  (forall id, pins_held c id <> 0 -> ci_entries (bc_inner c') !! id = ci_entries (bc_inner c) !! id)
  /\ (forall id e id' e', ci_entries (bc_inner c) !! id = Some e -> ci_entries (bc_inner c') !! id = None ->
        ci_entries (bc_inner c') !! id' = Some e' -> pins_held c id' = 0 -> be_tick e < be_tick e')
  /\ (ci_total_bytes (bc_inner c') <= bc_max_bytes c + empties (cview (bc_inner c)) \/ forall id, cached c' id -> pins_held c id <> 0).
Proof.
  intros Hc Hf. cbv zeta. set (io := {| io_create := true; io_write := true; io_sync := true; io_mkdir := true; io_rename := true; io_read := true; io_delete := deleted |}).
  pose proof (cache_evicts_aux io c Hf) as He. cbn [io_delete io] in He. set (c' := (cache_evict_to_fit deleted c).2) in *.
  assert (Hfit : in_total_bytes (bs_inner (as_store c)) + in_upload_bytes (bs_inner (as_store c)) <= u64_max) by (unfold fits_u64 in Hf; cbn; lia).
  destruct (evict_rounds_spec (S (size (ci_entries (bc_inner c)))) io None (as_store c) (cv_index c Hc) Hfit) as [Hev Hor]; [cbn; lia|].
  change (evict_loop (S (size (ci_entries (bc_inner c)))) io None (as_store c)) with (evict_to_fit io None (as_store c)) in Hev, Hor. rewrite <-He in Hev, Hor.
  assert (Hep : forall id, evictable (cview (bc_inner c)) None id = true <-> pins_held c id = 0).
  { intros id. unfold evictable. cbn [cview in_pin_counts]. rewrite orb_false_r, negb_true_iff, bool_decide_eq_false, (cv_pins c Hc id).
    destruct (N.eqb_spec (pins_held c id) 0) as [->|Hn]; (split; [intros Hx|intros Hz]); try done. destruct Hx; eauto. }
  pose proof (ev_sub _ _ _ Hev) as Hsub. pose proof (ev_lru _ _ _ Hev) as Hlru. cbn [as_store bs_inner cview in_entries] in Hsub, Hlru.
  split; [|split].
  - intros id Hp. destruct (ci_entries (bc_inner c') !! id) as [e'|] eqn:E'; [symmetry; exact (lookup_weaken _ _ _ _ E' Hsub)|].
    destruct (ci_entries (bc_inner c) !! id) as [e|] eqn:E; [|done]. destruct (Hlru id e E E') as [?%Hep _]. done.
  - intros id e id' e' E En E' Hz. apply (Hlru id e E En) with (id' := id'); [done|]. by apply Hep.
  - destruct Hor as [Hu|Hno]; [left|right].
    + unfold used_bytes, saturating_add in Hu. cbn [as_store bs_inner cview in_total_bytes in_upload_bytes bs_max_bytes] in Hu.
      assert (Hle : ci_total_bytes (bc_inner c') <= u64_max); [|lia]. unfold fits_u64 in Hf. etrans; [apply evict_shrinks|exact Hf].
    + intros id Hid Hz. apply Hep in Hz. specialize (Hno id Hid). rewrite (evictable_same (bs_inner (as_store c))) in Hno by apply Hev. cbn [as_store bs_inner] in Hno. congruence.
Qed.

(** ** What is handed over *)

Section content.
Context `{BlobHash}.

Lemma materialize_checked create readable chmod deleted id c data : (materialize create readable chmod deleted id c).1 = Ok data ->
  blob_of data = id /\ bc_objects c !! id = Some data.
Proof.
  unfold materialize, copy_verified. destruct (bc_objects c !! id) as [file|]; [|done]. destruct create; [|done]. destruct readable; [|done]. cbn [negb].
  case_bool_decide; [|done]. destruct chmod; [|done]. cbn. by intros [= <-].
Qed.

Lemma read_checked_ok id limit c data : read_checked id limit c = Ok data -> blob_of data = id /\ bc_objects c !! id = Some data /\ blen data <= limit.
Proof.
  unfold read_checked. destruct (bc_objects c !! id) as [file|]; [|done]. destruct (N.ltb_spec limit (blen file)); [done|]. case_bool_decide; [|done]. by intros [= <-].
Qed.

Lemma read_verified_checked deleted id limit c data : (read_verified deleted id limit c).1 = Ok data -> blob_of data = id /\ bc_objects c !! id = Some data /\ blen data <= limit.
Proof.
  unfold read_verified. destruct (read_checked id limit c) as [d|e] eqn:E; [|by destruct e]. intros [= <-]. by apply read_checked_ok.
Qed.

(** Whatever became of the files, the cache hands over only content that is the blob asked
    for: a manifest read and a file placed in a sandbox hash to their id, a read stays within
    its limit, and content that does not match is an error that drops the entry and the file. *)
Theorem handed_over_is_the_blob deleted create readable chmod id limit c data :
  ((read_verified deleted id limit c).1 = Ok data \/ (materialize create readable chmod deleted id c).1 = Ok data ->
     blob_of data = id /\ bc_objects c !! id = Some data)
  /\ ((read_verified deleted id limit c).1 = Ok data -> blen data <= limit)
  /\ (forall bad, bc_objects c !! id = Some bad -> blob_of bad <> id -> blen bad <= limit ->
        let after c' := ci_entries (bc_inner c') !! id = None /\ bc_objects c' !! id = if deleted then None else Some bad in
        (read_verified deleted id limit c).1 = Err (CeCorrupt id) /\ after (read_verified deleted id limit c).2
        /\ (materialize true true chmod deleted id c).1 = Err (CeCorrupt id) /\ after (materialize true true chmod deleted id c).2).
Proof.
  assert (Hdrop : forall bad, bc_objects c !! id = Some bad ->
    ci_entries (bc_inner (drop_corrupt deleted id c)) !! id = None /\ bc_objects (drop_corrupt deleted id c) !! id = if deleted then None else Some bad).
  { intros bad Hb. unfold drop_corrupt. cbn [bc_inner bc_objects with_cache]. split.
    - unfold cache_remove. destruct (ci_entries (bc_inner c) !! id) eqn:E; [|done]. cbn. apply lookup_delete_eq.
    - destruct deleted; [apply lookup_delete_eq|done]. }
  split; [|split].
  - intros [(? & ? & _)%read_verified_checked|?%materialize_checked]; done.
  - by intros (_ & _ & ?)%read_verified_checked.
  - intros bad Hb Hne Hle. unfold read_verified, read_checked, materialize, copy_verified. rewrite Hb. destruct (N.ltb_spec limit (blen bad)); [lia|].
    rewrite bool_decide_false by done. cbn [negb fst snd]. destruct (Hdrop bad Hb). done.
Qed.

(** An output enters the cache pinned: the hold that records it also counts the pin. *)
Lemma probe_pins id g c c' : is_Some (bc_guards c !! g) -> insert_probe id (Some g) c = (true, c') -> guard_holds c' g id /\ cached c' id.
Proof.
  intros [held Hg]. unfold insert_probe, cache_touch. destruct (ci_entries (bc_inner c) !! id) as [e|] eqn:E; [|done]. cbn [andb]. destruct (bool_decide _); [|done]. intros [= <-].
  unfold pin_extend. cbn [bc_guards with_index with_cache]. rewrite Hg. split.
  - exists (held ++ [id]). cbn [bc_guards with_cache]. rewrite lookup_insert_eq, elem_of_app, list_elem_of_singleton. auto.
  - unfold cached. cbn. rewrite lookup_insert_eq. eauto.
Qed.

Lemma adopt_pins mkdir rename data id size g c c' : is_Some (bc_guards c !! g) -> cache_adopt mkdir rename data id size (Some g) c = (Ok tt, c') ->
  guard_holds c' g id /\ cached c' id /\ (rename = true -> bc_objects c' !! id = Some data).
Proof.
  intros [held Hg]. unfold cache_adopt. destruct mkdir; [|done]. cbn [negb]. destruct (negb rename && _); [done|]. intros [= <-].
  unfold pin_extend. cbn [bc_guards with_cache]. rewrite Hg. split; [|split].
  - exists (held ++ [id]). cbn [bc_guards with_cache]. rewrite lookup_insert_eq, elem_of_app, list_elem_of_singleton. auto.
  - unfold cached. cbn [bc_inner with_cache pin_ids set_cache_pins ci_entries]. apply cached_insert. by right.
  - intros ->. cbn [bc_objects with_cache]. apply lookup_insert_eq.
Qed.

Lemma insert_file_pins hashed later others moved mkdir rename g c id n c' : cache_inv c -> is_Some (bc_guards c !! g) -> Forall (keeps_guard g) others ->
  insert_file_inner hashed later others moved mkdir rename (Some g) c = (Ok (id, n), c') ->
  (exists data, hashed = Some data /\ id = blob_of data /\ n = blen data) /\ guard_holds c' g id /\ cached c' id /\ cache_inv c'.
Proof.
  intros Hc [held Hg] Ho Hi. unfold insert_file_inner in Hi. destruct hashed as [data|]; [|done].
  pose proof (run_hold_inv (ChProbe (blob_of data) (Some g)) c Hc) as Hpi. cbn [run_cache_hold] in Hpi.
  destruct (hold_keeps_guard (ChProbe (blob_of data) (Some g)) c g held Hc Hg I) as [m1 Hg1]. cbn [run_cache_hold] in Hg1.
  destruct (insert_probe (blob_of data) (Some g) c) as [[] c1] eqn:Ep; cbn [snd] in Hpi, Hg1.
  - injection Hi as <- <- <-. destruct (probe_pins (blob_of data) g c c1) as [? ?]; [eauto|done|]. split; [by exists data|done].
  - pose proof (run_inv others c1 Hpi) as Hoi. destruct (run_keeps_guard others c1 g _ Hpi Hg1 Ho) as [m2 Hg2].
    destruct later as [later|]; [|done]. destruct (if moved then Ok later else copy_verified later (blob_of data)) as [copied|]; [|done].
    pose proof (run_hold_inv (ChAdopt mkdir rename copied (blob_of data) (blen data) (Some g)) _ Hoi) as Hai. cbn [run_cache_hold] in Hai.
    destruct (cache_adopt mkdir rename copied (blob_of data) (blen data) (Some g) (cache_run others c1)) as [[[]|] c2] eqn:Ea; [|done]. cbn [snd] in Hai. injection Hi as <- <- <-.
    assert (Hs2 : is_Some (bc_guards (cache_run others c1) !! g)) by eauto.
    destruct (adopt_pins _ _ _ _ _ _ _ _ Hs2 Ea) as (? & ? & _). split; [by exists data|done].
Qed.

(** A task's output cannot be evicted before its upload: when [insert_file_pinned] returns,
    the blob is in the cache under the hash of the file, the guard holds it, and (by the
    theorem on pinned blobs) it stays until the guard is consumed.  A copy that read other
    bytes than were hashed is refused. *)
Theorem inserted_output_pinned hashed later others moved mkdir rename g c id n c' : cache_inv c -> is_Some (bc_guards c !! g) -> Forall (keeps_guard g) others ->
  insert_file_inner hashed later others moved mkdir rename (Some g) c = (Ok (id, n), c') ->
  (exists data, hashed = Some data /\ id = blob_of data /\ n = blen data) /\ guard_holds c' g id /\ cached c' id
  /\ forall hs, Forall (spares g id) hs -> cached (cache_run hs c') id.
Proof.
  intros Hc Hg Ho Hi. destruct (insert_file_pins _ _ _ _ _ _ _ _ _ _ _ Hc Hg Ho Hi) as (Hd & Hgh & Hca & Hci).
  split; [done|]. split; [done|]. split; [done|]. intros hs Hs. by apply (run_keeps_pinned hs c' g id).
Qed.

(** Moved, not copied: the bytes of a file that changes after it was hashed enter the cache
    under the old hash, and the next reader drops them. *)
Lemma moved_file_unverified : exists (data other : Bytes) c, blob_of data <> blob_of other ->
  bc_objects (insert_file_inner (Some data) (Some other) [] true true true None c).2 !! blob_of data = Some other.
Proof. exists [1], [2], (cache_open 10 []). intros _. unfold insert_file_inner, insert_probe. cbn. apply lookup_insert_eq. Qed.

End content.

(** ** Witnesses *)

(** Three blobs of three bytes in a cache of six; the oldest is pinned. *)
Definition sample_found : list (BlobId * Bytes) := [([1], [1; 1; 1]); ([2], [2; 2; 2]); ([3], [3; 3; 3])].
Definition sample_holds : list CacheHold := [ChPin [[1]]].
Definition sample_cache : BlobCache := cache_run sample_holds (cache_open 6 sample_found).

Lemma sample_cache_inv : cache_inv sample_cache.
Proof. apply run_inv, open_cache_inv. Qed.


Lemma cache_evicts_like_store_witness : as_store (cache_evict_to_fit true sample_cache).2 = evict_to_fit io_fine None (as_store sample_cache).
Proof. apply (cache_evicts_like_store io_fine sample_cache). vm_compute. discriminate. Defined.

Lemma cache_fits_or_pinned_witness : let c' := (cache_evict_to_fit true sample_cache).2 in
  ci_total_bytes (bc_inner c') = 6 /\ ci_entries (bc_inner c') !! [1] = ci_entries (bc_inner sample_cache) !! [1].
Proof.
  split; [vm_compute; reflexivity|]. apply (cache_fits_or_pinned true sample_cache sample_cache_inv); vm_compute; discriminate.
Defined.

Lemma inserted_output_pinned_witness :
  let r := insert_file_inner (H := plain_hash) (Some [7; 7]) (Some [7; 7]) [ChEvict true; ChRelease 5] false true true (Some 0) sample_cache in
  r.1 = Ok ([7; 7], 2) /\ guard_holds r.2 0 [7; 7].
Proof.
  split; [vm_compute; reflexivity|].
  refine (proj1 (proj2 (inserted_output_pinned (H := plain_hash) (Some [7; 7]) (Some [7; 7]) [ChEvict true; ChRelease 5] false true true 0 sample_cache [7; 7] 2 _ sample_cache_inv _ _ _))).
  - eexists. vm_compute. reflexivity.
  - repeat constructor.
  - vm_compute. reflexivity.
Defined.

Lemma handed_over_is_the_blob_witness : let c := cache_run [ChDisk [2] (Some [9])] sample_cache in
  (read_verified (H := plain_hash) true [2] 5 c).1 = Err (CeCorrupt [2])
  /\ ci_entries (bc_inner (materialize (H := plain_hash) true true true true [2] c).2) !! [2] = None.
Proof.
  intros c. destruct (handed_over_is_the_blob (H := plain_hash) true true true true [2] 5 c []) as (_ & _ & Hc).
  destruct (Hc [9]) as (H1 & _ & _ & H2 & _); [vm_compute; reflexivity|done|vm_compute; discriminate|]. split; [exact H1|exact H2].
Defined.
