(* ===== verification/Staging.v ===== *)
(** * Staging: a task's files in and out of its sandbox

    Models [crates/worker/src/staging.rs] over the worker's blob cache: placing the inputs of a
    task into its sandbox and collecting the files its output patterns select.  The sandbox is a
    tree as the file system shows it: files, directories, symbolic links, anything else, and
    entries whose type cannot be read.  What else the file system may refuse is an argument,
    and so are the holds of the cache's lock by other tasks in between.  The texts of messages
    and the rules of Windows are left out. *)

From S2P Require Import Prelude Collections RustStr Capabilities Placement Blob Task Queue BlobTransfer BlobStore BlobCache.
Local Open Scope N_scope.

Definition DEFAULT_OUTPUT_LIMIT_BYTES : N := 1024 * 1024 * 1024.
Definition DEFAULT_MAX_OUTPUT_FILES : N := 10000.
Definition MAX_WALK_ENTRIES : N := 1000000.

Record OutputLimits := { ol_max_bytes : N; ol_max_files : N }.
Definition output_limits_default : OutputLimits :=
  {| ol_max_bytes := DEFAULT_OUTPUT_LIMIT_BYTES; ol_max_files := DEFAULT_MAX_OUTPUT_FILES |}.

(** ** The sandbox *)

(** A node of the tree.  An entry of a directory has its name as [to_string_lossy] gives it and
    whether the name is UTF-8; [stat] is whether a file's metadata can be read, [readable]
    whether a directory can be listed. *)
Inductive FsNode :=
| FsFile (data : Bytes) (executable stat : bool)
| FsDir (readable : bool) (entries : list (Str * bool * FsNode))
| FsLink
| FsOther
| FsBroken.

Abbreviation FsEntry := (Str * bool * FsNode)%type (only parsing).

Inductive Lookup := LkFound (n : FsNode) | LkMissing | LkRefused | LkThroughLink.

Definition fs_child (name : Str) (entries : list FsEntry) : option FsNode :=
  snd <$> List.find (fun e : FsEntry => bool_decide (e.1 = (name, true))) entries.

(** What [symlink_metadata] finds at a path below a directory. *)
Fixpoint fs_lookup (n : FsNode) (path : list Str) : Lookup :=
  match path with
  | [] => match n with FsBroken => LkRefused | _ => LkFound n end
  | name :: path =>
      match n with
      | FsDir _ entries => match fs_child name entries with Some child => fs_lookup child path | None => LkMissing end
      | FsLink => LkThroughLink
      | FsBroken => LkRefused
      | FsFile _ _ _ | FsOther => LkMissing
      end
  end.

(** ** Errors *)

(** [SeOutside] is no error of the code: a path went through a link, about whose target the tree
    says nothing.  It is shown never to happen when outputs are collected, nor when inputs are
    placed into a sandbox without links. *)
Inductive StageError :=
| SePattern (e : PatternError)
| SeNoSandbox
| SeBadPath (path : Str) (e : BlobPathError)
| SeTraversesLink (pattern : Str)
| SeNotRegular (pattern : Str)
| SeCannotRead (path : Str)
| SeTooManyEntries
| SeNotUtf8 (path : Str)
| SeNotProduced (patterns : list Str)
| SeOverLimits (files total : N) (largest : Str * N)
| SeStore (path : Str) (e : CacheError)
| SeManifestRead (path : Str) (e : CacheError)
| SeManifest (path : Str) (e : ManifestError)
| SeMakeDir (path : Str)
| SeCollides (path : Str)
| SeOutside.

Definition sandbox_path (rel : Str) : result BlobPathError (list Str) :=
  match validate_blob_path rel with Ok _ => Ok (split SLASH rel) | Err e => Err e end.

(** ** Collecting outputs *)

Record Found := { fd_data : Bytes; fd_executable : bool }.
Abbreviation Founds := (gmap Str Found) (only parsing).
Definition fd_size (f : Found) : N := blen (fd_data f).

(** [found.entry(rel).or_insert(file)]. *)
Definition or_insert (rel : Str) (f : Found) (found : Founds) : Founds :=
  match found !! rel with Some _ => found | None => <[rel := f]> found end.

Definition check_selected_entry_path (rel : Str) (entry_utf8 : bool) : result StageError unit :=
  if negb entry_utf8 then Err (SeNotUtf8 rel) else map_err (SeBadPath rel) (validate_blob_path rel).

Record WalkState := {
  ws_stack : list (FsNode * Str * bool);
  ws_found : Founds;
  ws_visited : N
}.

Definition entry_path (rel_dir name : Str) : Str := if is_empty rel_dir then name else rel_dir ++ SLASH :: name.

(** The body of the loop over the entries of a directory in [walk]. *)
Definition walk_entry (pattern : OutputPattern) (rel_dir : Str) (dir_utf8 : bool) (e : FsEntry) (w : WalkState) : result StageError WalkState :=
  let '(name, name_utf8, node) := e in
  let visited := ws_visited w + 1 in
  if MAX_WALK_ENTRIES <? visited then Err SeTooManyEntries
  else
    let rel := entry_path rel_dir name in
    let entry_utf8 := dir_utf8 && name_utf8 in
    match node with
    | FsBroken => Err (SeCannotRead rel)
    | FsDir _ _ => Ok {| ws_stack := (node, rel, entry_utf8) :: ws_stack w; ws_found := ws_found w; ws_visited := visited |}
    | FsFile data executable stat =>
        if pattern_selects pattern rel then
          match check_selected_entry_path rel entry_utf8 with
          | Err e => Err e
          | Ok _ =>
              if negb stat then Err (SeCannotRead rel)
              else Ok {| ws_stack := ws_stack w; ws_found := or_insert rel {| fd_data := data; fd_executable := executable |} (ws_found w);
                         ws_visited := visited |}
          end
        else Ok {| ws_stack := ws_stack w; ws_found := ws_found w; ws_visited := visited |}
    | FsLink | FsOther => Ok {| ws_stack := ws_stack w; ws_found := ws_found w; ws_visited := visited |}
    end.

Fixpoint walk_entries (pattern : OutputPattern) (rel_dir : Str) (dir_utf8 : bool) (es : list FsEntry) (w : WalkState) : result StageError WalkState :=
  match es with
  | [] => Ok w
  | e :: es =>
      match walk_entry pattern rel_dir dir_utf8 e w with
      | Ok w => walk_entries pattern rel_dir dir_utf8 es w
      | Err e => Err e
      end
  end.

(** The loop over the stack of directories in [walk]; [None] when the fuel is used up. *)
Fixpoint walk_loop (fuel : nat) (pattern : OutputPattern) (w : WalkState) : option (result StageError WalkState) :=
  match fuel with
  | O => None
  | S fuel =>
      match ws_stack w with
      | [] => Some (Ok w)
      | (dir, rel_dir, dir_utf8) :: stack =>
          match dir with
          | FsDir true es =>
              match walk_entries pattern rel_dir dir_utf8 es {| ws_stack := stack; ws_found := ws_found w; ws_visited := ws_visited w |} with
              | Ok w => walk_loop fuel pattern w
              | Err e => Some (Err e)
              end
          | FsDir false _ => Some (Err (SeCannotRead rel_dir))
          | _ => Some (Err SeOutside)
          end
      end
  end.

(** Every directory is taken from the stack once, so its nodes bound the rounds. *)
Fixpoint fs_size (n : FsNode) : nat :=
  match n with
  | FsDir _ es => S (sum_list_with (fun e : FsEntry => fs_size e.2) es)
  | _ => 1%nat
  end.

Definition walk (dir : FsNode) (rel_dir : Str) (pattern : OutputPattern) (found : Founds) (visited : N) : result StageError (Founds * N) :=
  match walk_loop (S (fs_size dir)) pattern {| ws_stack := [(dir, rel_dir, true)]; ws_found := found; ws_visited := visited |} with
  | Some (Ok w) => Ok (ws_found w, ws_visited w)
  | Some (Err e) => Err e
  | None => Err SeOutside
  end.

Record Collected := { co_found : Founds; co_not_produced : list Str; co_visited : N }.
Definition collected_init : Collected := {| co_found := ∅; co_not_produced := []; co_visited := 0 |}.

(** The loop over the directories above the start of a pattern: whether one is a link. *)
Fixpoint crosses_link (root : FsNode) (ancestor parts : list Str) : bool :=
  match parts with
  | part :: ((_ :: _) as rest) =>
      let ancestor := ancestor ++ [part] in
      match fs_lookup root ancestor with LkFound FsLink => true | _ => crosses_link root ancestor rest end
  | _ => false
  end.

(** The body of the loop over the patterns. *)
Definition collect_pattern (root : FsNode) (pattern : OutputPattern) (c : Collected) : result StageError Collected :=
  let prefix := literal_prefix pattern in
  let literal := pattern_is_literal pattern in
  match (if is_empty prefix then Ok [] else sandbox_path prefix) with
  | Err e => Err (SeBadPath (op_text pattern) e)
  | Ok parts =>
      if crosses_link root [] parts then (if literal then Err (SeTraversesLink (op_text pattern)) else Ok c)
      else
        match fs_lookup root parts with
        | LkMissing =>
            Ok (if literal then {| co_found := co_found c; co_not_produced := co_not_produced c ++ [op_text pattern]; co_visited := co_visited c |} else c)
        | LkRefused => Err (SeCannotRead (op_text pattern))
        | LkThroughLink => Err SeOutside
        | LkFound (FsFile data executable _) =>
            Ok (if pattern_selects pattern prefix
                then {| co_found := or_insert prefix {| fd_data := data; fd_executable := executable |} (co_found c);
                        co_not_produced := co_not_produced c; co_visited := co_visited c |}
                else c)
        | LkFound (FsDir _ _ as dir) =>
            match walk dir prefix pattern (co_found c) (co_visited c) with
            | Ok (found, visited) => Ok {| co_found := found; co_not_produced := co_not_produced c; co_visited := visited |}
            | Err e => Err e
            end
        | LkFound _ => if literal then Err (SeNotRegular (op_text pattern)) else Ok c
        end
  end.

Fixpoint collect_patterns (root : FsNode) (patterns : list OutputPattern) (c : Collected) : result StageError Collected :=
  match patterns with
  | [] => Ok c
  | p :: ps => match collect_pattern root p c with Ok c => collect_patterns root ps c | Err e => Err e end
  end.

Fixpoint parse_patterns (patterns : list Str) : result StageError (list OutputPattern) :=
  match patterns with
  | [] => Ok []
  | p :: ps =>
      match pattern_parse p with
      | Err e => Err (SePattern e)
      | Ok pat => match parse_patterns ps with Ok pats => Ok (pat :: pats) | Err e => Err e end
      end
  end.

(** The selected files in the order of the [BTreeMap]. *)
Definition found_list (found : Founds) : list (Str * Found) :=
  omap (fun rel => pair rel <$> found !! rel) (dedup (sort_strs (map fst (map_to_list found)))).

(** [max_by_key]: the last of the largest. *)
Definition largest_file (l : list (Str * Found)) : Str * N :=
  foldl (fun best x => if best.2 <=? fd_size x.2 then (x.1, fd_size x.2) else best) ([], 0) l.

(** The first half of [collect_outputs_inner]: what to return, within the limits.  The sum of
    the sizes is a [u64]. *)
Definition select_outputs (root : option FsNode) (patterns : list Str) (limits : OutputLimits) (process_failed : bool) : result StageError (list (Str * Found)) :=
  match parse_patterns patterns with
  | Err e => Err e
  | Ok patterns =>
      match root with
      | None => Err SeNoSandbox
      | Some root =>
          match collect_patterns root patterns collected_init with
          | Err e => Err e
          | Ok c =>
              if negb (is_empty (co_not_produced c)) && negb process_failed then Err (SeNotProduced (co_not_produced c))
              else
                let files := found_list (co_found c) in
                let count := N.of_nat (size (co_found c)) in
                let total := map_sum fd_size (co_found c) mod 2 ^ 64 in
                if (ol_max_files limits <? count) || (ol_max_bytes limits <? total) then Err (SeOverLimits count total (largest_file files))
                else Ok files
          end
      end
  end.

(** What happens around the storing of one output: the answers of the file system, and the
    holds of other tasks before it and in the middle of it. *)
Record PutIo := {
  pi_hash : bool;
  pi_copy : bool;
  pi_moved : bool;
  pi_mkdir : bool;
  pi_rename : bool;
  pi_before : list CacheHold;
  pi_between : list CacheHold
}.

Section staging.
Context `{BlobHash}.

Fixpoint store_outputs (io : Str -> PutIo) (pin : option N) (files : list (Str * Found)) (c : BlobCache) : result StageError (list BlobFile) * BlobCache :=
  match files with
  | [] => (Ok [], c)
  | (rel, f) :: files =>
      let i := io rel in
      let content (ok : bool) := if ok then Some (fd_data f) else None in
      match insert_file_inner (content (pi_hash i)) (content (pi_copy i)) (pi_between i) (pi_moved i) (pi_mkdir i) (pi_rename i) pin
              (cache_run (pi_before i) c) with
      | (Err e, c) => (Err (SeStore rel e), c)
      | (Ok (id, size), c) =>
          match store_outputs io pin files c with
          | (Ok outputs, c) => (Ok ({| bf_path := rel; bf_id := id; bf_size := size; bf_executable := fd_executable f |} :: outputs), c)
          | (Err e, c) => (Err e, c)
          end
      end
  end.

Definition collect_outputs_inner (io : Str -> PutIo) (root : option FsNode) (patterns : list Str) (limits : OutputLimits) (process_failed : bool)
  (pin : option N) (c : BlobCache) : result StageError (list BlobFile) * BlobCache :=
  match select_outputs root patterns limits process_failed with
  | Err e => (Err e, c)
  | Ok files => store_outputs io pin files c
  end.

(** A failure drops the guard. *)
Definition collect_outputs_pinned (io : Str -> PutIo) (root : option FsNode) (patterns : list Str) (limits : OutputLimits) (process_failed : bool)
  (c : BlobCache) : result StageError (list BlobFile * N) * BlobCache :=
  let '(g, c) := cache_pin [] c in
  match collect_outputs_inner io root patterns limits process_failed (Some g) c with
  | (Ok outputs, c) => (Ok (outputs, g), c)
  | (Err e, c) => (Err e, pin_drop g c)
  end.

End staging.

(** ** Placing inputs *)

(** [name] in a directory becomes [child]. *)
Definition fs_set (name : Str) (child : FsNode) (entries : list FsEntry) : list FsEntry :=
  match fs_child name entries with
  | Some _ => map (fun e : FsEntry => if bool_decide (e.1 = (name, true)) then ((name, true), child) else e) entries
  | None => entries ++ [((name, true), child)]
  end.

Inductive Made := MdOk (n : FsNode) | MdRefused | MdThroughLink.

(** [create_dir_all] below a directory. *)
Fixpoint create_dir_all (n : FsNode) (path : list Str) : Made :=
  match path with
  | [] => match n with FsDir _ _ => MdOk n | FsLink => MdThroughLink | _ => MdRefused end
  | name :: path =>
      match n with
      | FsDir readable entries =>
          match create_dir_all (default (FsDir true []) (fs_child name entries)) path with
          | MdOk child => MdOk (FsDir readable (fs_set name child entries))
          | failed => failed
          end
      | FsLink => MdThroughLink
      | _ => MdRefused
      end
  end.

(** A new file in a directory that is there. *)
Fixpoint create_file (n : FsNode) (path : list Str) (file : FsNode) : FsNode :=
  match path, n with
  | [name], FsDir readable entries => FsDir readable (fs_set name file entries)
  | name :: path, FsDir readable entries =>
      match fs_child name entries with
      | Some child => FsDir readable (fs_set name (create_file child path file) entries)
      | None => n
      end
  | _, _ => n
  end.

(** What happens around the placing of one file. *)
Record PlaceIo := {
  pl_mkdir : bool;
  pl_readable : bool;
  pl_chmod : bool;
  pl_deleted : bool;
  pl_before : list CacheHold
}.

Section placing.
Context `{BlobHash} `{ManifestCodec}.

(** Placing returns the error, if any, with the sandbox and the cache it leaves. *)
Definition place_blob (io : PlaceIo) (root : FsNode) (rel : Str) (id : BlobId) (executable : bool) (c : BlobCache)
  : result StageError unit * FsNode * BlobCache :=
  match sandbox_path rel with
  | Err e => (Err (SeBadPath rel e), root, c)
  | Ok path =>
      if negb (pl_mkdir io) then (Err (SeMakeDir rel), root, c)
      else
        match create_dir_all root (removelast path) with
        | MdRefused => (Err (SeMakeDir rel), root, c)
        | MdThroughLink => (Err SeOutside, root, c)
        | MdOk root =>
            let free := match fs_lookup root path with LkMissing => true | _ => false end in
            match materialize free (pl_readable io) (pl_chmod io) (pl_deleted io) id (cache_run (pl_before io) c) with
            | (Ok data, c) => (Ok tt, create_file root path (FsFile data executable true), c)
            | (Err CeAlreadyExists, c) => (Err (SeCollides rel), root, c)
            | (Err e, c) => (Err (SeStore rel e), root, c)
            end
        end
  end.

Fixpoint place_files (io : Str -> PlaceIo) (root : FsNode) (base : Str) (files : list BlobFile) (placed : N) (c : BlobCache)
  : result StageError N * FsNode * BlobCache :=
  match files with
  | [] => (Ok placed, root, c)
  | f :: files =>
      let rel := join_blob_path base (bf_path f) in
      match place_blob (io rel) root rel (bf_id f) (bf_executable f) c with
      | (Ok _, root, c) => place_files io root base files (placed + 1) c
      | (Err e, root, c) => (Err e, root, c)
      end
  end.

(** One round of [materialize_inputs]. *)
Definition place_input (io : Str -> PlaceIo) (root : FsNode) (input : TaskInput) (placed : N) (c : BlobCache) : result StageError N * FsNode * BlobCache :=
  match ti_source input with
  | InputFile id _ executable =>
      match place_blob (io (ti_path input)) root (ti_path input) id executable c with
      | (Ok _, root, c) => (Ok (placed + 1), root, c)
      | (Err e, root, c) => (Err e, root, c)
      end
  | InputTree manifest _ =>
      match read_verified (pl_deleted (io (ti_path input))) manifest MAX_MANIFEST_BYTES (cache_run (pl_before (io (ti_path input))) c) with
      | (Err e, c) => (Err (SeManifestRead (ti_path input) e), root, c)
      | (Ok bytes, c) =>
          match manifest_decode bytes with
          | Err e => (Err (SeManifest (ti_path input) e), root, c)
          | Ok files => place_files io root (ti_path input) files placed c
          end
      end
  end.

Fixpoint place_inputs (io : Str -> PlaceIo) (root : FsNode) (inputs : list TaskInput) (placed : N) (c : BlobCache) : result StageError N * FsNode * BlobCache :=
  match inputs with
  | [] => (Ok placed, root, c)
  | input :: inputs =>
      match place_input io root input placed c with
      | (Ok placed, root, c) => place_inputs io root inputs placed c
      | (Err e, root, c) => (Err e, root, c)
      end
  end.

Definition materialize_inputs (io : Str -> PlaceIo) (root : FsNode) (inputs : list TaskInput) (c : BlobCache) : result StageError N * FsNode * BlobCache :=
  place_inputs io root inputs 0 c.

End placing.
