(* ===== verification/StagingProps.v ===== *)
(** * StagingProps: what a worker takes out of a sandbox

    The output patterns select exactly the regular files that can be reached through
    directories, never through a link; every walk ends; the limits hold; and what is collected
    is pinned in the cache. *)

From S2P Require Import Prelude Collections RustStr Capabilities Placement Blob BlobProps Task Queue BlobTransfer BlobStore BlobStoreProps BlobCache BlobCacheProps Staging.
Local Open Scope N_scope.

(** ** Reaching a node through directories *)

(** [reaches n path m]: [m] is at [path] below [n], every step an entry of a directory. *)
Inductive reaches : FsNode -> list Str -> FsNode -> Prop :=
| reaches_here n : reaches n [] n
| reaches_in readable es name child path n :
    ((name, true), child) ∈ es -> reaches child path n -> reaches (FsDir readable es) (name :: path) n.

(** What a file system guarantees of a directory: names are not empty and have no slash, and a
    name stands for one entry. *)
Inductive fs_ok : FsNode -> Prop :=
| fs_ok_dir readable es :
    (forall name n n', ((name, true), n) ∈ es -> ((name, true), n') ∈ es -> n = n') ->
    (forall name utf8 n, ((name, utf8), n) ∈ es -> name <> [] /\ SLASH ∉ name) ->
    (forall name utf8 n, ((name, utf8), n) ∈ es -> fs_ok n) -> fs_ok (FsDir readable es)
| fs_ok_file data executable stat : fs_ok (FsFile data executable stat)
| fs_ok_link : fs_ok FsLink
| fs_ok_other : fs_ok FsOther
| fs_ok_broken : fs_ok FsBroken.

Definition names_ok (names : list Str) : Prop := Forall (fun name => name <> [] /\ SLASH ∉ name) names.

Lemma reaches_nil_inv n m : reaches n [] m -> n = m.
Proof. by inversion 1. Qed.

Lemma reaches_cons_inv n name path m : reaches n (name :: path) m ->
  exists readable es child, n = FsDir readable es /\ ((name, true), child) ∈ es /\ reaches child path m.
Proof. inversion 1; subst; eauto 6. Qed.

Lemma reaches_app n p q m : reaches n (p ++ q) m <-> exists k, reaches n p k /\ reaches k q m.
Proof.
  revert n. induction p as [|name p IH]; intros n; cbn [app].
  - split; [eauto using reaches_here|]. by intros (k & ->%reaches_nil_inv & ?).
  - split.
    + intros (r & es & child & -> & Hin & Hr)%reaches_cons_inv. apply IH in Hr as (k & ? & ?). exists k. split; [by eapply reaches_in|done].
    + intros (k & (r & es & child & -> & Hin & Hr)%reaches_cons_inv & Hk). eapply reaches_in; [done|]. apply IH. eauto.
Qed.

Lemma reaches_ok n path m : fs_ok n -> reaches n path m -> fs_ok m /\ names_ok path.
Proof.
  intros Hok Hr. induction Hr as [|r es name child path m Hin Hr IH]; [split; [done|constructor]|]. inversion Hok; subst.
  destruct IH as [? ?]; [eauto|]. split; [done|]. constructor; eauto.
Qed.

Lemma reaches_det n path m m' : fs_ok n -> reaches n path m -> reaches n path m' -> m = m'.
Proof.
  intros Hok Hr. induction Hr as [|r es name child path m Hin Hr IH]; [apply reaches_nil_inv|].
  intros (r' & es' & child' & Hd & Hin' & Hr')%reaches_cons_inv. injection Hd as <- <-. inversion Hok as [? ? Hf _ Hc| | | |]; subst.
  assert (child' = child) as -> by eauto. apply IH; eauto.
Qed.

Lemma fs_child_Some name es n : fs_child name es = Some n -> ((name, true), n) ∈ es.
Proof.
  unfold fs_child. destruct (List.find _ es) as [e|] eqn:E; [|done]. intros [= <-]. apply find_some in E as [Hin He%bool_decide_eq_true].
  apply list_elem_of_In. destruct e as [k n]. cbn in *. by rewrite <-He.
Qed.

Lemma fs_child_in name es n : (forall n n', ((name, true), n) ∈ es -> ((name, true), n') ∈ es -> n = n') -> ((name, true), n) ∈ es -> fs_child name es = Some n.
Proof.
  intros Hf Hin. destruct (fs_child name es) as [n'|] eqn:E; [f_equal; apply Hf; [by apply fs_child_Some|done]|].
  unfold fs_child in E. destruct (List.find _ es) eqn:Ef; [done|]. apply list_elem_of_In in Hin. eapply find_none in Hin; [|exact Ef]. by rewrite bool_decide_eq_false in Hin.
Qed.

Lemma lookup_reaches n path m : fs_lookup n path = LkFound m -> reaches n path m.
Proof.
  revert n. induction path as [|name path IH]; intros n; cbn [fs_lookup]; [destruct n; intros [= <-]; constructor|].
  destruct n as [| readable es | | |]; try done. destruct (fs_child name es) as [child|] eqn:E; [|done]. intros Hl. eapply reaches_in; [by apply fs_child_Some|auto].
Qed.

Lemma reaches_lookup n path m : fs_ok n -> reaches n path m -> m <> FsBroken -> fs_lookup n path = LkFound m.
Proof.
  intros Hok Hr Hm. induction Hr as [n|r es name child path m Hin Hr IH]; cbn [fs_lookup]; [by destruct n|]. inversion Hok as [? ? Hf _ Hc| | | |]; subst.
  rewrite (fs_child_in name es child) by eauto. apply IH; eauto.
Qed.

(** ** Links *)

Lemma fs_lookup_app n p q : fs_lookup n (p ++ q) = match fs_lookup n p with LkFound m => fs_lookup m q | failed => failed end.
Proof.
  revert n. induction p as [|name p IH]; intros n; cbn [app fs_lookup]; [by destruct n, q|]. destruct n as [| readable es | | |]; try done. by destruct (fs_child name es).
Qed.

Lemma crosses_link_sound root ancestor parts : crosses_link root ancestor parts = false ->
  fs_lookup root ancestor <> LkThroughLink -> fs_lookup root ancestor <> LkFound FsLink -> fs_lookup root (ancestor ++ parts) <> LkThroughLink.
Proof.
  assert (Hone : forall ancestor part, fs_lookup root ancestor <> LkThroughLink -> fs_lookup root ancestor <> LkFound FsLink -> fs_lookup root (ancestor ++ [part]) <> LkThroughLink).
  { intros anc part H1 H2. rewrite fs_lookup_app. destruct (fs_lookup root anc) as [m| | |]; try done. cbn [fs_lookup]. destruct m as [| r es | | |]; try done.
    destruct (fs_child part es) as [k|]; [|done]. by destruct k. }
  revert ancestor. induction parts as [|part parts IH]; intros ancestor Hc H1 H2; [by rewrite app_nil_r|].
  destruct parts as [|next rest]; [by apply Hone|]. cbn [crosses_link] in Hc. replace (ancestor ++ part :: next :: rest) with ((ancestor ++ [part]) ++ next :: rest) by (by rewrite <-app_assoc).
  specialize (Hone ancestor part H1 H2). destruct (fs_lookup root (ancestor ++ [part])) as [[]| | |] eqn:E; try done; (apply IH; [exact Hc|by rewrite E..]).
Qed.

Lemma reaches_crosses root ancestor parts m : fs_ok root -> reaches root (ancestor ++ parts) m -> crosses_link root ancestor parts = false.
Proof.
  intros Hok. revert ancestor. induction parts as [|part parts IH]; intros ancestor Hr; [done|]. destruct parts as [|next rest]; [done|]. cbn [crosses_link].
  replace (ancestor ++ part :: next :: rest) with ((ancestor ++ [part]) ++ next :: rest) in Hr by (by rewrite <-app_assoc).
  pose proof Hr as (k & Hk & (r & es & child & -> & _)%reaches_cons_inv)%reaches_app. rewrite (reaches_lookup _ _ _ Hok Hk) by done. by apply IH.
Qed.

(** ** Paths and patterns *)

Lemma join_nonempty names : names_ok names -> names <> [] -> join SLASH names <> [].
Proof. destruct 1 as [|name names [Hn _] _]; [done|]. intros _. destruct names; [done|]. rewrite join_cons by done. by destruct name. Qed.

Lemma join_snoc names name : names <> [] -> join SLASH (names ++ [name]) = join SLASH names ++ SLASH :: name.
Proof.
  induction names as [|a names IH]; [done|]. intros _. destruct names as [|b names]; [done|]. cbn [app]. rewrite !join_cons by done. cbn [app] in IH. rewrite IH by done.
  rewrite (join_cons SLASH a (b :: names)) by done. by rewrite <-app_assoc.
Qed.

Lemma entry_path_join names name : names_ok names -> entry_path (join SLASH names) name = join SLASH (names ++ [name]).
Proof.
  intros Hn. unfold entry_path. destruct (decide (names = [])) as [->|Hne]; [done|]. pose proof (join_nonempty names Hn Hne). rewrite join_snoc by done. by destruct (join SLASH names).
Qed.

Lemma split_names names : names_ok names -> names <> [] -> split SLASH (join SLASH names) = names.
Proof. intros Hn Hne. apply split_join; [done|]. eapply Forall_impl; [exact Hn|]. by intros ? []. Qed.

Lemma parse_segments_names acc raws segs : parse_segments acc raws = Ok segs -> forall name, Literal name ∈ segs -> Literal name ∈ acc \/ (name ∈ raws /\ name <> []).
Proof.
  revert acc. induction raws as [|raw raws IH]; intros acc; cbn [parse_segments]; [intros [= <-]; auto|]. intros Hp name Hin. rewrite elem_of_cons.
  case_bool_decide; cbn [orb] in Hp; [apply (IH _ Hp) in Hin; naive_solver|]. case_bool_decide; [apply (IH _ Hp) in Hin; naive_solver|]. case_bool_decide; [done|].
  case_bool_decide; [|destruct (_ || _)]; apply (IH _ Hp) in Hin; (destruct Hin as [Hin|[? ?]]; [|by auto]).
  - destruct (bool_decide _); [by left|]. apply elem_of_app in Hin as [?|Hin]; [by left|]. by apply list_elem_of_singleton in Hin.
  - apply elem_of_app in Hin as [?|Hin]; [by left|]. by apply list_elem_of_singleton in Hin.
  - apply elem_of_app in Hin as [?|Hin]; [by left|]. apply list_elem_of_singleton in Hin as [= ->]. auto.
Qed.

Lemma literal_names_in segs name : name ∈ literal_names segs -> Literal name ∈ segs.
Proof.
  induction segs as [|[a| |] segs IH]; cbn [literal_names]; intros Hin; try by apply elem_of_nil in Hin. apply elem_of_cons in Hin as [->|Hin]; [by left|right; auto].
Qed.

Lemma pattern_names_ok text pat : pattern_parse text = Ok pat -> names_ok (literal_names (op_segments pat)).
Proof.
  unfold pattern_parse. destruct (is_empty _); [done|]. destruct (_ <? _); [done|]. destruct (contains_char 0 _); [done|]. destruct (starts_with _ _); [done|].
  destruct (contains_char 58 _); [done|]. destruct (parse_segments _ _) as [segs|] eqn:E; [|done]. destruct (is_empty segs); [done|]. intros [= <-]. cbn [op_segments].
  apply Forall_forall. intros name Hin%literal_names_in. apply (parse_segments_names _ _ _ E) in Hin as [Hn%elem_of_nil|[Hin Hne]]; [done|]. split; [done|]. by eapply split_no_sep.
Qed.

(** Where a pattern starts: its leading names, whether written as text or not. *)
Lemma pattern_start pat parts : names_ok (literal_names (op_segments pat)) ->
  (if is_empty (literal_prefix pat) then Ok [] else sandbox_path (literal_prefix pat)) = Ok parts ->
  parts = literal_names (op_segments pat) /\ (parts <> [] -> validate_blob_path (literal_prefix pat) = Ok tt).
Proof.
  unfold literal_prefix. intros Hn. set (names := literal_names (op_segments pat)) in *. destruct (decide (names = [])) as [->|Hne]; [by intros [= <-]|].
  pose proof (join_nonempty names Hn Hne). replace (is_empty (join SLASH names)) with false by (by destruct (join SLASH names)). unfold sandbox_path.
  destruct (validate_blob_path (join SLASH names)) as [[]|]; [|done]. intros [= <-]. by rewrite split_names.
Qed.

Lemma match_segments_prefix segs path : match_segments segs path = true -> literal_names segs `prefix_of` path.
Proof.
  revert path. induction segs as [|seg segs IH]; intros path Hm; [apply prefix_nil|]. destruct seg as [name| |]; cbn [literal_names]; try apply prefix_nil.
  cbn [match_segments match_segment] in Hm. destruct path as [|x path]; [done|]. apply andb_true_iff in Hm as [->%bool_decide_eq_true Hm]. by apply prefix_cons, IH.
Qed.

Lemma selects_below pat names : names_ok names -> names <> [] -> pattern_selects pat (join SLASH names) = true -> literal_names (op_segments pat) `prefix_of` names.
Proof.
  intros Hn Hne. unfold pattern_selects. rewrite split_names by done. intros (len & _ & Hm%match_segments_prefix)%existsb_exists. etrans; [exact Hm|apply prefix_take].
Qed.

Lemma join_inj names names' : names_ok names -> names_ok names' -> names <> [] -> names' <> [] -> join SLASH names = join SLASH names' -> names = names'.
Proof. intros H1 H2 N1 N2 Hj. rewrite <-(split_names names), <-(split_names names') by done. by rewrite Hj. Qed.

(** ** The walk *)

Lemma or_insert_mono rel f found : found ⊆ or_insert rel f found.
Proof. unfold or_insert. destruct (found !! rel) eqn:E; [done|]. by apply insert_subseteq. Qed.

Lemma or_insert_there rel f found : is_Some (or_insert rel f found !! rel).
Proof. unfold or_insert. destruct (found !! rel) eqn:E; [by rewrite E|]. rewrite lookup_insert_eq. eauto. Qed.

Lemma or_insert_inv rel f found k g : or_insert rel f found !! k = Some g -> found !! k = Some g \/ (k = rel /\ g = f).
Proof. unfold or_insert. destruct (found !! rel); [by left|]. rewrite lookup_insert_Some. naive_solver. Qed.

Definition is_dir (n : FsNode) : Prop := match n with FsDir _ _ => True | _ => False end.
Definition stack_size (stack : list (FsNode * Str * bool)) : nat := sum_list_with (fun x => fs_size x.1.1) stack.
Definition entries_size (es : list FsEntry) : nat := sum_list_with (fun e : FsEntry => fs_size e.2) es.

(** What the entries of one directory add to the state of the walk. *)
Record entries_spec (pat : OutputPattern) (rel_dir : Str) (utf8 : bool) (es : list FsEntry) (w w' : WalkState) : Prop := {
  en_stack : exists news, ws_stack w' = news ++ ws_stack w
    /\ (forall n rel u, (n, rel, u) ∈ news <-> exists name nu, ((name, nu), n) ∈ es /\ is_dir n /\ rel = entry_path rel_dir name /\ u = utf8 && nu)
    /\ (stack_size news <= entries_size es)%nat;
  en_mono : ws_found w ⊆ ws_found w';
  en_complete : forall name data ex st, ((name, true), FsFile data ex st) ∈ es -> utf8 = true -> pattern_selects pat (entry_path rel_dir name) = true ->
    is_Some (ws_found w' !! entry_path rel_dir name);
  en_sound : forall rel f, ws_found w' !! rel = Some f -> ws_found w !! rel = Some f
    \/ (utf8 = true /\ validate_blob_path rel = Ok tt /\ pattern_selects pat rel = true
        /\ exists name st, ((name, true), FsFile (fd_data f) (fd_executable f) st) ∈ es /\ rel = entry_path rel_dir name)
}.

Lemma entries_nil pat rel_dir utf8 w : entries_spec pat rel_dir utf8 [] w w.
Proof.
  split; [|done| |by left].
  - exists []. split; [done|]. split; [|cbn; lia]. intros n rel u. rewrite elem_of_nil. split; [done|]. by intros (? & ? & ?%elem_of_nil & _).
  - by intros ? ? ? ? ?%elem_of_nil.
Qed.

Lemma entries_cons pat rel_dir utf8 e es w w1 w' : entries_spec pat rel_dir utf8 [e] w w1 -> entries_spec pat rel_dir utf8 es w1 w' -> entries_spec pat rel_dir utf8 (e :: es) w w'.
Proof.
  intros [(n1 & Hs1 & He1 & Hz1) M1 C1 S1] [(n2 & Hs2 & He2 & Hz2) M2 C2 S2]. split.
  - exists (n2 ++ n1). split; [by rewrite Hs2, Hs1, app_assoc|]. split.
    + intros n rel u. rewrite elem_of_app, He1, He2. split.
      * intros [(name & nu & Hin & ?)|(name & nu & Hin%list_elem_of_singleton & ?)]; exists name, nu; (split; [|done]); [by right|]. rewrite Hin. left.
      * intros (name & nu & [Hin|Hin]%elem_of_cons & ?); [right|left]; exists name, nu; (split; [|done]); [|done]. by rewrite Hin, list_elem_of_singleton.
    + unfold stack_size, entries_size in *. cbn [sum_list_with] in *. rewrite sum_list_with_app. lia.
  - by etrans.
  - intros name data ex st Hin Hu Hp. apply elem_of_cons in Hin as [<-|Hin]; [|eauto]. destruct (C1 name data ex st) as [f Hf]; [by left|done|done|].
    exists f. eapply lookup_weaken; [exact Hf|done].
  - intros rel f Hf. apply S2 in Hf as [Hf|(? & ? & ? & name & st & ? & ?)].
    + apply S1 in Hf as [?|(? & ? & ? & name & st & Hin%list_elem_of_singleton & ?)]; [by left|]. right. repeat (split; [done|]). exists name, st. rewrite Hin. split; [left|done].
    + right. repeat (split; [done|]). exists name, st. split; [by right|done].
Qed.

(** An entry that is neither a directory nor a file to return. *)
Lemma entry_skipped pat rel_dir utf8 name nu n w w' : ~ is_dir n -> ws_stack w' = ws_stack w -> ws_found w' = ws_found w ->
  (forall data ex st, n = FsFile data ex st -> pattern_selects pat (entry_path rel_dir name) = false) -> entries_spec pat rel_dir utf8 [((name, nu), n)] w w'.
Proof.
  intros Hd Hs Hf Hn. split.
  - exists []. split; [done|]. split; [|cbn; lia]. intros k rel u. rewrite elem_of_nil. split; [done|]. intros (? & ? & [= <- <- <-]%list_elem_of_singleton & ? & _). done.
  - by rewrite Hf.
  - intros name' data ex st [= -> <- <-]%list_elem_of_singleton _ Hp. by rewrite (Hn data ex st) in Hp.
  - rewrite Hf. by left.
Qed.

Lemma walk_entry_spec pat rel_dir utf8 e w w' : walk_entry pat rel_dir utf8 e w = Ok w' -> entries_spec pat rel_dir utf8 [e] w w'.
Proof.
  destruct e as [[name nu] n]. unfold walk_entry. destruct (_ <? _); [done|]. destruct n as [data ex stat|r es| | |]; [| |intros [= <-]; apply entry_skipped; cbn; (done || tauto)..|done].
  - destruct (pattern_selects pat (entry_path rel_dir name)) eqn:Ep; [|intros [= <-]; apply entry_skipped; cbn; (done || tauto)].
    unfold check_selected_entry_path. destruct (utf8 && nu) eqn:Eu; [|done]. apply andb_true_iff in Eu as [-> ->]. cbn [negb].
    destruct (validate_blob_path (entry_path rel_dir name)) as [[]|] eqn:Ev; [|done]. cbn [map_err]. destruct stat; [|done]. intros [= <-]. split; cbn [ws_stack ws_found].
    + exists []. split; [done|]. split; [|cbn; lia]. intros k rel u. rewrite elem_of_nil. split; [done|]. intros (? & ? & [= <- <- ->]%list_elem_of_singleton & ? & _). done.
    + apply or_insert_mono.
    + intros name' ? ? ? [= -> -> ->]%list_elem_of_singleton _ _. apply or_insert_there.
    + intros rel f [Hf|[-> ->]]%or_insert_inv; [by left|]. right. repeat (split; [done|]). exists name, true. by rewrite list_elem_of_singleton.
  - intros [= <-]. split; cbn [ws_stack ws_found]; [|done| |by left].
    + exists [(FsDir r es, entry_path rel_dir name, utf8 && nu)]. split; [done|]. split; [|cbn; lia]. intros k rel u. rewrite list_elem_of_singleton. split.
      * intros [= -> -> ->]. exists name, nu. by rewrite list_elem_of_singleton.
      * by intros (? & ? & [= <- <- <-]%list_elem_of_singleton & _ & -> & ->).
    + by intros ? ? ? ? [= ]%list_elem_of_singleton.
Qed.

Lemma walk_entries_spec pat rel_dir utf8 es w w' : walk_entries pat rel_dir utf8 es w = Ok w' -> entries_spec pat rel_dir utf8 es w w'.
Proof.
  revert w. induction es as [|e es IH]; intros w; cbn [walk_entries]; [intros [= <-]; apply entries_nil|].
  destruct (walk_entry pat rel_dir utf8 e w) as [w1|] eqn:E; [|done]. intros Hw. eapply entries_cons; [by apply walk_entry_spec|auto].
Qed.

Lemma walk_entries_inside pat rel_dir utf8 es w : walk_entries pat rel_dir utf8 es w <> Err SeOutside.
Proof.
  revert w. induction es as [|e es IH]; intros w; cbn [walk_entries]; [done|]. destruct (walk_entry pat rel_dir utf8 e w) as [w1|err] eqn:E; [apply IH|].
  intros [= ->]. destruct e as [[name nu] n]. unfold walk_entry, check_selected_entry_path in E. destruct (_ <? _); [done|].
  destruct n; try done. destruct (pattern_selects _ _); [|done]. destruct (utf8 && nu); [|done]. cbn [negb] in E. destruct (validate_blob_path _) as [[]|]; [|done]. cbn [map_err] in E. by destruct stat.
Qed.

(** What is on the stack: directories of the sandbox under their paths. *)
Definition stack_ok (root : FsNode) (stack : list (FsNode * Str * bool)) : Prop :=
  forall n rel u, (n, rel, u) ∈ stack -> is_dir n /\ fs_ok n /\ exists names, names_ok names /\ rel = join SLASH names /\ (u = true -> reaches root names n).

(** A file to return: regular, reached through directories, with a valid path, selected. *)
Definition wanted (root : FsNode) (pats : list OutputPattern) (rel : Str) (f : Found) : Prop :=
  exists names st, names <> [] /\ rel = join SLASH names /\ reaches root names (FsFile (fd_data f) (fd_executable f) st)
    /\ exists pat, pat ∈ pats /\ pattern_selects pat rel = true.
Definition found_ok (root : FsNode) (pats : list OutputPattern) (found : Founds) : Prop :=
  forall rel f, found !! rel = Some f -> wanted root pats rel f /\ validate_blob_path rel = Ok tt.

Lemma reaches_snoc root names r es name n : reaches root names (FsDir r es) -> ((name, true), n) ∈ es -> reaches root (names ++ [name]) n.
Proof. intros Hr Hin. apply reaches_app. eexists. split; [exact Hr|]. eapply reaches_in; [done|constructor]. Qed.

Lemma names_ok_snoc names name : names_ok names -> name <> [] -> SLASH ∉ name -> names_ok (names ++ [name]).
Proof. intros. apply Forall_app. split; [done|]. by repeat constructor. Qed.

Lemma entries_stack root pat r es rel u w w' : stack_ok root ((FsDir r es, rel, u) :: ws_stack w) -> entries_spec pat rel u es w w' -> stack_ok root (ws_stack w').
Proof.
  intros Hst [(news & Hs & He & _) _ _ _]. destruct (Hst (FsDir r es) rel u) as (_ & Hok & names & Hn & -> & Hr); [by left|]. inversion Hok as [? ? Huniq Hnames Hokc| | | |]; subst.
  intros n rel u'. rewrite Hs, elem_of_app, He. intros [(name & nu & Hin & Hd & -> & ->)|Hin]; [|apply Hst; by right].
  destruct (Hnames _ _ _ Hin) as [Hne Hsl]. split; [done|]. split; [eauto|]. exists (names ++ [name]). split; [by apply names_ok_snoc|]. split; [by apply entry_path_join|].
  intros [-> ->]%andb_true_iff. by eapply reaches_snoc; [apply Hr|].
Qed.

Lemma entries_found root pats pat r es rel u w w' : pat ∈ pats -> stack_ok root ((FsDir r es, rel, u) :: ws_stack w) -> found_ok root pats (ws_found w) ->
  entries_spec pat rel u es w w' -> found_ok root pats (ws_found w').
Proof.
  intros Hpat Hst Hf [_ _ _ Hso]. destruct (Hst (FsDir r es) rel u) as (_ & Hok & names & Hn & -> & Hr); [by left|]. inversion Hok as [? ? Huniq Hnames Hokc| | | |]; subst.
  intros rel f [Hx|(-> & Hv & Hp & name & st & Hin & ->)]%Hso; [by apply Hf|]. split; [|done].
  exists (names ++ [name]), st. split; [by destruct names|]. split; [by apply entry_path_join|]. split; [by eapply reaches_snoc; [apply Hr|]|]. exists pat. done.
Qed.

(** The loop ends within its fuel, never leaves the tree, keeps what was found, finds only
    what is wanted, and finds every selected file below the directories on the stack. *)
Lemma walk_loop_ends fuel pat w : (stack_size (ws_stack w) < fuel)%nat -> is_Some (walk_loop fuel pat w).
Proof.
  revert w. induction fuel as [|fuel IH]; intros w Hlt; [lia|]. cbn [walk_loop]. destruct (ws_stack w) as [|[[n rel] u] stack]; [eauto|].
  destruct n as [| [] es | | |]; eauto. destruct (walk_entries _ _ _ _ _) as [w1|] eqn:E; [|eauto].
  destruct (en_stack _ _ _ _ _ _ (walk_entries_spec _ _ _ _ _ _ E)) as (news & Hs & _ & Hz). apply IH. rewrite Hs. cbn [ws_stack].
  unfold stack_size, entries_size in *. rewrite sum_list_with_app. cbn [sum_list_with fst fs_size] in Hlt. lia.
Qed.

Lemma walk_loop_sound fuel root pats pat w r : pat ∈ pats -> stack_ok root (ws_stack w) -> found_ok root pats (ws_found w) -> walk_loop fuel pat w = Some r ->
  r <> Err SeOutside /\ forall w', r = Ok w' -> ws_found w ⊆ ws_found w' /\ found_ok root pats (ws_found w').
Proof.
  intros Hpat. revert w. induction fuel as [|fuel IH]; intros w Hst Hf; [done|]. cbn [walk_loop]. destruct (ws_stack w) as [|[[n rel] u] stack] eqn:Ew; [intros [= <-]; split; [done|]; intros w' [= <-]; done|].
  destruct (Hst n rel u) as (Hd & _); [by left|]. destruct n as [| readable es | | |]; try done. destruct readable; [|intros [= <-]; done].
  set (w0 := {| ws_stack := stack; ws_found := ws_found w; ws_visited := ws_visited w |}).
  pose proof (walk_entries_inside pat rel u es w0). destruct (walk_entries pat rel u es w0) as [w1|] eqn:E; [|intros [= <-]; split; [congruence|done]]. apply walk_entries_spec in E.
  pose proof (entries_stack root pat true es rel u w0 w1 Hst E) as Hst1. pose proof (entries_found root pats pat true es rel u w0 w1 Hpat Hst Hf E) as Hf1.
  intros Hr. destruct (IH w1 Hst1 Hf1 Hr) as [Hn Hk]. split; [done|].
  intros w' Hw'. destruct (Hk w' Hw') as [? ?]. split; [|done]. etrans; [exact (en_mono _ _ _ _ _ _ E)|done].
Qed.

Lemma walk_loop_complete fuel root pat w w' : stack_ok root (ws_stack w) -> walk_loop fuel pat w = Some (Ok w') -> ws_found w ⊆ ws_found w'
  /\ forall n names path data ex st, (n, join SLASH names, true) ∈ ws_stack w -> names_ok names -> path <> [] -> reaches n path (FsFile data ex st) ->
       pattern_selects pat (join SLASH (names ++ path)) = true -> is_Some (ws_found w' !! join SLASH (names ++ path)).
Proof.
  revert w. induction fuel as [|fuel IH]; intros w Hst; [done|]. cbn [walk_loop]. destruct (ws_stack w) as [|[[n rel] u] stack] eqn:Ew.
  { intros [= <-]. split; [done|]. by intros ? ? ? ? ? ? ?%elem_of_nil. }
  destruct n as [| [] es | | |]; try done. set (w0 := {| ws_stack := stack; ws_found := ws_found w; ws_visited := ws_visited w |}).
  destruct (walk_entries pat rel u es w0) as [w1|] eqn:E; [|done]. apply walk_entries_spec in E. intros Hr.
  pose proof (entries_stack root pat true es rel u w0 w1 Hst E) as Hst1. destruct (IH w1 Hst1 Hr) as [Hm Hc]. pose proof (en_mono _ _ _ _ _ _ E) as Hm0. split; [by etrans|].
  intros n names path data ex st Hin Hn Hne Hrt Hp. destruct (en_stack _ _ _ _ _ _ E) as (news & Hs & He & _). apply elem_of_cons in Hin as [Heq|Hin].
  - injection Heq as -> <- <-. destruct path as [|name path]; [done|]. apply reaches_cons_inv in Hrt as (? & ? & child & [= <- <-] & Hch & Hrt).
    destruct (Hst (FsDir true es) (join SLASH names) true) as (_ & Hok & _); [by left|]. inversion Hok as [? ? _ Hnames _| | | |]; subst. destruct (Hnames _ _ _ Hch) as [Hnn Hsl].
    replace (names ++ name :: path) with ((names ++ [name]) ++ path) in * by (by rewrite <-app_assoc). destruct path as [|next path].
    + rewrite app_nil_r in *. apply reaches_nil_inv in Hrt as ->. rewrite <-entry_path_join in * by done. destruct (en_complete _ _ _ _ _ _ E name data ex st) as [f Hf]; [done..|].
      exists f. by eapply lookup_weaken.
    + pose proof Hrt as (r' & es' & ? & -> & _)%reaches_cons_inv. eapply (Hc _ (names ++ [name]) (next :: path)); [|by apply names_ok_snoc|done|done|done].
      rewrite Hs, elem_of_app, He. left. exists name, true. split; [done|]. split; [done|]. by rewrite entry_path_join.
  - eapply Hc; try done. rewrite Hs, elem_of_app. by right.
Qed.

(** ** A pattern *)

Definition finds (root : FsNode) (pat : OutputPattern) (found : Founds) : Prop :=
  forall names data ex st, names <> [] -> reaches root names (FsFile data ex st) -> pattern_selects pat (join SLASH names) = true -> is_Some (found !! join SLASH names).

Lemma walk_spec root pats pat names dir found visited : pat ∈ pats -> fs_ok root -> is_dir dir -> reaches root names dir -> found_ok root pats found ->
  literal_names (op_segments pat) = names ->
  walk dir (join SLASH names) pat found visited <> Err SeOutside
  /\ forall found' visited', walk dir (join SLASH names) pat found visited = Ok (found', visited') -> found ⊆ found' /\ found_ok root pats found' /\ finds root pat found'.
Proof.
  intros Hpat Hok Hd Hr Hf Hl. destruct (reaches_ok _ _ _ Hok Hr) as [Hdok Hn]. unfold walk. set (w := {| ws_stack := [(dir, join SLASH names, true)]; ws_found := found; ws_visited := visited |}).
  assert (Hst : stack_ok root (ws_stack w)).
  { intros n rel u [= -> -> ->]%list_elem_of_singleton. split; [done|]. split; [done|]. by exists names. }
  destruct (walk_loop_ends (S (fs_size dir)) pat w) as [r Er]; [cbn; lia|]. rewrite Er.
  destruct (walk_loop_sound _ root pats pat w r Hpat Hst Hf Er) as [Hne Hs]. destruct r as [w'|e]; [|split; [congruence|done]].
  split; [done|]. intros found' visited' [= <- <-]. destruct (Hs w' eq_refl) as [Hm Hf']. split; [done|]. split; [done|].
  intros path data ex st Hp Hrp Hsel. destruct (reaches_ok _ _ _ Hok Hrp) as [_ Hnp]. pose proof (selects_below pat path Hnp Hp Hsel) as [tail ->]. rewrite Hl in *.
  apply reaches_app in Hrp as (k & Hk & Hrt). pose proof (reaches_det _ _ _ _ Hok Hr Hk) as <-. destruct (walk_loop_complete _ root pat w w' Hst Er) as [_ Hc].
  eapply (Hc dir names tail data ex st); [by left|done| |done|done]. intros ->. apply reaches_nil_inv in Hrt as ->. done.
Qed.

(** What a pattern names when it has no wildcards. *)
Definition produced (root : FsNode) (pat : OutputPattern) : Prop :=
  exists m, reaches root (literal_names (op_segments pat)) m /\ match m with FsFile _ _ _ | FsDir _ _ => True | _ => False end.

Lemma selects_literal pat : pattern_is_literal pat = true -> names_ok (literal_names (op_segments pat)) -> literal_names (op_segments pat) <> [] ->
  pattern_selects pat (literal_prefix pat) = true.
Proof.
  intros (names & Hs)%literal_segments Hn Hne. assert (Hl : literal_names (op_segments pat) = names) by (rewrite Hs; clear; induction names; cbn; congruence).
  unfold literal_prefix, pattern_selects. rewrite Hl in *. rewrite split_names, existsb_exists by done. exists (length names). rewrite Hs, match_literals, take_ge by done.
  split; [|done]. apply in_seq. destruct names; [done|]. cbn. lia.
Qed.

Record pattern_spec (root : FsNode) (pats : list OutputPattern) (pat : OutputPattern) (c c' : Collected) : Prop := {
  ps_mono : co_found c ⊆ co_found c';
  ps_ok : found_ok root pats (co_found c');
  ps_finds : finds root pat (co_found c');
  ps_more : exists l, co_not_produced c' = co_not_produced c ++ l;
  ps_produced : pattern_is_literal pat = true -> co_not_produced c' = co_not_produced c -> produced root pat
}.

(** A selected file goes through the node its pattern starts at. *)
Lemma selected_through root pat path data ex st : fs_ok root -> path <> [] -> reaches root path (FsFile data ex st) -> pattern_selects pat (join SLASH path) = true ->
  exists tail m, path = literal_names (op_segments pat) ++ tail /\ reaches root (literal_names (op_segments pat)) m /\ reaches m tail (FsFile data ex st).
Proof.
  intros Hok Hp Hr Hsel. destruct (reaches_ok _ _ _ Hok Hr) as [_ Hnp]. destruct (selects_below pat path Hnp Hp Hsel) as [tail ->].
  apply reaches_app in Hr as (m & ? & ?). eauto.
Qed.

Lemma nothing_to_find root pat found : fs_ok root ->
  (forall m, reaches root (literal_names (op_segments pat)) m -> ~ is_dir m /\ forall data ex st, m <> FsFile data ex st) -> finds root pat found.
Proof.
  intros Hok Hm path data ex st Hp Hr Hsel. destruct (selected_through _ _ _ _ _ _ Hok Hp Hr Hsel) as (tail & m & -> & Hrm & Hrt). destruct (Hm m Hrm) as [Hnd Hnf].
  destruct tail; [apply reaches_nil_inv in Hrt as ->; by destruct (Hnf data ex st)|]. apply reaches_cons_inv in Hrt as (? & ? & ? & -> & _). by destruct Hnd.
Qed.

Lemma pattern_skipped root pats pat c : found_ok root pats (co_found c) -> finds root pat (co_found c) -> pattern_is_literal pat = false -> pattern_spec root pats pat c c.
Proof. intros. split; [done|done|done|exists []; by rewrite app_nil_r|congruence]. Qed.

Lemma pattern_at_file root pats pat c data ex st : pat ∈ pats -> fs_ok root -> is_dir root -> found_ok root pats (co_found c) ->
  reaches root (literal_names (op_segments pat)) (FsFile data ex st) ->
  (literal_names (op_segments pat) <> [] -> validate_blob_path (literal_prefix pat) = Ok tt) ->
  pattern_spec root pats pat c
    (if pattern_selects pat (literal_prefix pat)
     then {| co_found := or_insert (literal_prefix pat) {| fd_data := data; fd_executable := ex |} (co_found c); co_not_produced := co_not_produced c; co_visited := co_visited c |}
     else c).
Proof.
  intros Hpat Hok Hdir Hf Hr Hv. unfold literal_prefix in *. set (names := literal_names (op_segments pat)) in *.
  assert (Hne : names <> []) by (intros Hn; rewrite Hn in Hr; apply reaches_nil_inv in Hr; by rewrite Hr in Hdir).
  assert (Hself : forall path d x s, path <> [] -> reaches root path (FsFile d x s) -> pattern_selects pat (join SLASH path) = true -> path = names).
  { intros path d x s Hp Hrp Hsel. destruct (selected_through _ _ _ _ _ _ Hok Hp Hrp Hsel) as (tail & m & -> & Hrm & Hrt). rewrite <-(reaches_det _ _ _ _ Hok Hr Hrm) in Hrt.
    destruct tail; [by rewrite app_nil_r|]. by apply reaches_cons_inv in Hrt as (? & ? & ? & ? & _). }
  assert (Hprod : produced root pat) by (exists (FsFile data ex st); done).
  destruct (pattern_selects pat (join SLASH names)) eqn:Es.
  - split; cbn [co_found co_not_produced]; [apply or_insert_mono| | |exists []; by rewrite app_nil_r|done].
    + intros rel f [?|[-> ->]]%or_insert_inv; [by apply Hf|]. split; [|by apply Hv]. exists names, st. split; [done|]. split; [done|]. split; [done|]. by exists pat.
    + intros path d x s Hp Hrp Hsel. rewrite (Hself path d x s) by done. apply or_insert_there.
  - split; [done|done| |exists []; by rewrite app_nil_r|done]. intros path d x s Hp Hrp Hsel. rewrite (Hself path d x s Hp Hrp Hsel) in Hsel. congruence.
Qed.

Lemma collect_pattern_spec root pats pat c : pat ∈ pats -> fs_ok root -> is_dir root -> names_ok (literal_names (op_segments pat)) -> found_ok root pats (co_found c) ->
  collect_pattern root pat c <> Err SeOutside /\ forall c', collect_pattern root pat c = Ok c' -> pattern_spec root pats pat c c'.
Proof.
  intros Hpat Hok Hdir Hnames Hf. unfold collect_pattern. destruct (if is_empty (literal_prefix pat) then _ else _) as [parts|e] eqn:Ep; [|done].
  destruct (pattern_start pat parts Hnames Ep) as [-> Hv]. set (names := literal_names (op_segments pat)) in *.
  destruct (crosses_link root [] names) eqn:Ec.
  { destruct (pattern_is_literal pat) eqn:El; [done|]. split; [done|]. intros c' [= <-]. apply pattern_skipped; [done| |done]. apply nothing_to_find; [done|]. intros m Hr.
    by rewrite (reaches_crosses root [] names m Hok Hr) in Ec. }
  assert (Hin : fs_lookup root names <> LkThroughLink) by (apply (crosses_link_sound root [] names Ec); by destruct root).
  destruct (fs_lookup root names) as [m| | |] eqn:El; [|split; [done|]; intros c' [= <-]|done|done].
  2: { assert (Hno : forall m, reaches root names m -> m = FsBroken).
       { intros m Hr. destruct m; try done; by rewrite (reaches_lookup _ _ _ Hok Hr) in El by done. }
       assert (Hfi : finds root pat (co_found c)) by (apply nothing_to_find; [done|]; intros m ->%Hno; split; [by intros []|done]).
       destruct (pattern_is_literal pat) eqn:Elit; [|by apply pattern_skipped]. split; cbn [co_found co_not_produced]; [done|done|done|eauto|].
       intros _ Heq%(f_equal length). rewrite length_app in Heq. cbn in Heq. lia. }
  apply lookup_reaches in El as Hr.
  assert (Hother : ~ is_dir m -> (forall data ex st, m <> FsFile data ex st) -> finds root pat (co_found c)).
  { intros Hnd Hnf. apply nothing_to_find; [done|]. intros m' Hr'. by rewrite <-(reaches_det _ _ _ _ Hok Hr Hr'). }
  destruct m as [data ex st|readable es| | |]; [| |destruct (pattern_is_literal pat) eqn:Elit; (split; [done|]); [done|]; intros c' [= <-];
    apply pattern_skipped; [done|apply Hother; [by intros []|done]|done]..].
  - split; [done|]. intros c' [= <-]. by apply (pattern_at_file root pats pat c data ex st).
  - change (literal_prefix pat) with (join SLASH names). destruct (walk_spec root pats pat names (FsDir readable es) (co_found c) (co_visited c)) as [Hnw Hw]; [done..|].
    destruct (walk (FsDir readable es) (join SLASH names) pat (co_found c) (co_visited c)) as [[found visited]|] eqn:Ew; [|split; [congruence|done]].
    split; [done|]. intros c' [= <-]. destruct (Hw found visited eq_refl) as (? & ? & ?). split; cbn [co_found co_not_produced]; [done|done|done|exists []; by rewrite app_nil_r|].
    intros _ _. by exists (FsDir readable es).
Qed.

(** ** All patterns *)

Lemma finds_mono root pat found found' : finds root pat found -> found ⊆ found' -> finds root pat found'.
Proof. intros Hf Hm names data ex st Hn Hr Hs. destruct (Hf names data ex st Hn Hr Hs) as [f Hx]. exists f. by eapply lookup_weaken. Qed.

Lemma collect_patterns_spec root pats todo c : (forall pat, pat ∈ todo -> pat ∈ pats /\ names_ok (literal_names (op_segments pat))) -> fs_ok root -> is_dir root ->
  found_ok root pats (co_found c) ->
  collect_patterns root todo c <> Err SeOutside
  /\ forall c', collect_patterns root todo c = Ok c' -> co_found c ⊆ co_found c' /\ found_ok root pats (co_found c')
       /\ (exists l, co_not_produced c' = co_not_produced c ++ l)
       /\ forall pat, pat ∈ todo -> finds root pat (co_found c') /\ (pattern_is_literal pat = true -> co_not_produced c' = [] -> produced root pat).
Proof.
  intros Hin Hok Hdir. revert c. induction todo as [|pat todo IH]; intros c Hf; cbn [collect_patterns].
  { split; [done|]. intros c' [= <-]. split; [done|]. split; [done|]. split; [exists []; by rewrite app_nil_r|]. by intros ? ?%elem_of_nil. }
  destruct (Hin pat) as [Hpat Hn]; [by left|]. destruct (collect_pattern_spec root pats pat c Hpat Hok Hdir Hn Hf) as [Ho Hsp].
  destruct (collect_pattern root pat c) as [c1|]; [|split; [congruence|done]]. destruct (Hsp c1 eq_refl) as [M1 F1 C1 [l1 N1] P1].
  destruct (IH (fun p Hp => Hin p (list_elem_of_further _ _ _ Hp)) c1 F1) as [Ho1 H1]. split; [done|]. intros c' Hc'. destruct (H1 c' Hc') as (M2 & F2 & [l2 N2] & R2).
  split; [by etrans|]. split; [done|]. split; [exists (l1 ++ l2); by rewrite N2, N1, app_assoc|].
  intros p [->|Hp]%elem_of_cons; [|by apply R2]. split; [by eapply finds_mono|]. intros Hl Hnil. rewrite N2, N1 in Hnil. apply P1; [done|]. rewrite N1.
  apply app_eq_nil in Hnil as [[-> ->]%app_eq_nil ->]. done.
Qed.

Lemma elem_of_found_list found rel f : (rel, f) ∈ found_list found <-> found !! rel = Some f.
Proof.
  unfold found_list. rewrite list_elem_of_omap. split.
  - intros (k & _ & Hk). destruct (found !! k) as [g|] eqn:E; [|done]. by injection Hk as -> ->.
  - intros Hf. exists rel. rewrite Hf. split; [|done]. apply elem_of_sort_dedup, list_elem_of_fmap. exists (rel, f). by rewrite elem_of_map_to_list.
Qed.

Lemma found_list_keys found : map fst (found_list found) = dedup (sort_strs (map fst (map_to_list found))).
Proof.
  unfold found_list. assert (Hall : forall rel, rel ∈ dedup (sort_strs (map fst (map_to_list found))) -> is_Some (found !! rel)).
  { intros rel ([k f] & -> & Hf%elem_of_map_to_list)%elem_of_sort_dedup%list_elem_of_fmap. cbn. rewrite Hf. eauto. }
  induction (dedup _) as [|rel l IH]; [done|]. cbn. destruct (Hall rel) as [f ->]; [by left|]. cbn. f_equal. apply IH. intros k Hk. apply Hall. by right.
Qed.

Lemma found_list_size found : length (found_list found) = size found.
Proof.
  rewrite <-(length_map fst), found_list_keys. rewrite <-length_map_to_list, <-(length_map fst (map_to_list found)). apply Permutation_length, NoDup_Permutation.
  - apply bt_wf_NoDup, sort_dedup_wf.
  - apply NoDup_fst_map_to_list.
  - intros rel. apply elem_of_sort_dedup.
Qed.

Lemma parse_patterns_spec texts pats : parse_patterns texts = Ok pats -> forall pat, pat ∈ pats <-> exists text, text ∈ texts /\ pattern_parse text = Ok pat.
Proof.
  revert pats. induction texts as [|text texts IH]; intros pats; cbn [parse_patterns].
  - intros [= <-] pat. split; [by intros ?%elem_of_nil|]. by intros (? & ?%elem_of_nil & _).
  - destruct (pattern_parse text) as [p|] eqn:E; [|done]. destruct (parse_patterns texts) as [ps|]; [|done]. intros [= <-] pat. rewrite elem_of_cons, (IH ps) by done. split.
    + intros [->|(t & ? & ?)]; [exists text; split; [left|done]|exists t; split; [by right|done]].
    + intros (t & [->|Hin]%elem_of_cons & Ht); [left; congruence|eauto].
Qed.

(** The root of a sandbox, and a file that some pattern of the task selects there. *)
Definition selected (root : FsNode) (patterns : list Str) (rel : Str) (f : Found) : Prop :=
  exists names st, names <> [] /\ rel = join SLASH names /\ reaches root names (FsFile (fd_data f) (fd_executable f) st)
    /\ exists text pat, text ∈ patterns /\ pattern_parse text = Ok pat /\ pattern_selects pat rel = true.

Lemma select_outputs_inv root patterns limits failed files : fs_ok root -> is_dir root -> select_outputs (Some root) patterns limits failed = Ok files ->
  exists pats c, parse_patterns patterns = Ok pats /\ files = found_list (co_found c) /\ found_ok root pats (co_found c)
    /\ (forall pat, pat ∈ pats -> finds root pat (co_found c) /\ (pattern_is_literal pat = true -> failed = false -> produced root pat))
    /\ N.of_nat (size (co_found c)) <= ol_max_files limits /\ map_sum fd_size (co_found c) mod 2 ^ 64 <= ol_max_bytes limits.
Proof.
  intros Hok Hdir. unfold select_outputs. destruct (parse_patterns patterns) as [pats|] eqn:Ep; [|done].
  destruct (collect_patterns_spec root pats pats collected_init) as [_ Hc]; [|done..|].
  { intros pat Hin. split; [done|]. apply (parse_patterns_spec _ _ Ep) in Hin as (text & _ & Hp). by eapply pattern_names_ok. }
  destruct (collect_patterns root pats collected_init) as [c|]; [|done]. destruct (Hc c eq_refl) as (_ & Hf & _ & Hpat).
  destruct (negb (is_empty (co_not_produced c)) && negb failed) eqn:En; [done|]. destruct ((_ <? _) || (_ <? _)) eqn:El; [done|]. intros [= <-].
  apply orb_false_iff in El as [H1%N.ltb_ge H2%N.ltb_ge]. exists pats, c. split; [done|]. split; [done|]. split; [done|]. split; [|done].
  intros pat Hin. destruct (Hpat pat Hin) as [? Hp]. split; [done|]. intros Hl ->. apply Hp; [done|]. destruct (co_not_produced c); done.
Qed.

Lemma outputs_exact_aux root patterns limits failed files : fs_ok root -> is_dir root -> select_outputs (Some root) patterns limits failed = Ok files ->
  (forall rel f, (rel, f) ∈ files <-> selected root patterns rel f)
  /\ bt_wf (map fst files)
  /\ (forall rel f, (rel, f) ∈ files -> validate_blob_path rel = Ok tt)
  /\ N.of_nat (length files) <= ol_max_files limits
  /\ (failed = false -> forall text pat, text ∈ patterns -> pattern_parse text = Ok pat -> pattern_is_literal pat = true -> produced root pat).
Proof.
  intros Hok Hdir Hs. destruct (select_outputs_inv _ _ _ _ _ Hok Hdir Hs) as (pats & c & Ep & -> & Hf & Hpat & Hn & _). pose proof (parse_patterns_spec _ _ Ep) as Hpp.
  split; [|split; [|split; [|split]]].
  - intros rel f. rewrite elem_of_found_list. split.
    + intros Hx. destruct (Hf rel f Hx) as [(names & st & Hne & -> & Hr & pat & Hin & Hsel) _]. apply Hpp in Hin as (text & ? & ?). exists names, st. eauto 8.
    + intros (names & st & Hne & -> & Hr & text & pat & Hin & Hp & Hsel). destruct (Hpat pat) as [Hfi _]; [apply Hpp; eauto|].
      destruct (Hfi names _ _ st Hne Hr Hsel) as [g Hg]. rewrite Hg. f_equal. destruct (Hf _ g Hg) as [(names' & st' & Hne' & Hj & Hr' & _) _].
      destruct (reaches_ok _ _ _ Hok Hr) as [_ Hn1]. destruct (reaches_ok _ _ _ Hok Hr') as [_ Hn2]. apply join_inj in Hj as <-; [|done..].
      pose proof (reaches_det _ _ _ _ Hok Hr Hr') as Heq. injection Heq as Hd He _. destruct f, g. cbn in *. congruence.
  - rewrite found_list_keys. apply sort_dedup_wf.
  - intros rel f [_ Hv]%elem_of_found_list%Hf. done.
  - by rewrite found_list_size.
  - intros Hfail text pat Hin Hp Hl. apply Hpat; [apply Hpp; eauto|done|done].
Qed.

(** Exactly the right files leave a sandbox: what the output patterns of a task select is
    every regular file reached through directories (never through a link) that a pattern
    selects, each under its path with its content, once, in order, with a valid path, and
    within the limits; and a task that did not fail has produced what it declared without
    wildcards. *)
Theorem outputs_exact root patterns limits failed files : fs_ok root -> is_dir root -> select_outputs (Some root) patterns limits failed = Ok files ->
  (forall rel f, (rel, f) ∈ files <-> selected root patterns rel f)
  /\ bt_wf (map fst files)
  /\ (forall rel f, (rel, f) ∈ files -> validate_blob_path rel = Ok tt)
  /\ N.of_nat (length files) <= ol_max_files limits
  /\ (failed = false -> forall text pat, text ∈ patterns -> pattern_parse text = Ok pat -> pattern_is_literal pat = true -> produced root pat).
Proof. apply outputs_exact_aux. Qed.

(** Collecting never follows a link out of the sandbox, whatever the task left there. *)
Theorem links_never_followed root patterns limits failed : fs_ok root -> is_dir root -> select_outputs (Some root) patterns limits failed <> Err SeOutside.
Proof.
  intros Hok Hdir. unfold select_outputs. destruct (parse_patterns patterns) as [pats|e] eqn:Ep; [|].
  2: { clear -Ep. revert e Ep. induction patterns as [|p ps IH]; intros e; cbn [parse_patterns]; [done|]. destruct (pattern_parse p); [|by intros [= <-]].
       destruct (parse_patterns ps); [done|]. intros [= <-]. eauto. }
  destruct (collect_patterns_spec root pats pats collected_init) as [Ho _]; [|done..|].
  { intros pat Hin. split; [done|]. apply (parse_patterns_spec _ _ Ep) in Hin as (text & _ & Hp). by eapply pattern_names_ok. }
  destruct (collect_patterns root pats collected_init) as [c|]; [|congruence]. destruct (_ && _); [done|]. by destruct (_ || _).
Qed.

(** ** Into the cache *)

Section stored.
Context `{BlobHash}.

Definition own_hold (h : CacheHold) : Prop := match h with ChProbe _ _ | ChAdopt _ _ _ _ _ _ => True | _ => False end.

(** Storing a file is a sequence of lock holds: its own, and those of other tasks. *)
Lemma insert_file_holds hashed later others moved mkdir rename pin c :
  exists hs, (insert_file_inner hashed later others moved mkdir rename pin c).2 = cache_run hs c /\ forall h, h ∈ hs -> h ∈ others \/ own_hold h.
Proof.
  unfold insert_file_inner. destruct hashed as [data|]; [|by exists []; split; [|intros ? ?%elem_of_nil]].
  assert (Hp : (insert_probe (blob_of data) pin c).2 = cache_run [ChProbe (blob_of data) pin] c) by done.
  destruct (insert_probe (blob_of data) pin c) as [stored c1]. cbn [snd] in Hp. subst c1.
  assert (Hone : forall h, h ∈ [ChProbe (blob_of data) pin] -> h ∈ others \/ own_hold h) by (intros ? ->%list_elem_of_singleton; by right).
  assert (Htwo : forall h, h ∈ ChProbe (blob_of data) pin :: others -> h ∈ others \/ own_hold h) by (intros ? [->|?]%elem_of_cons; [by right|by left]).
  destruct stored; [by eexists|].
  destruct later as [later|]; [|by exists (ChProbe (blob_of data) pin :: others)].
  destruct (if moved then _ else _) as [copied|]; [|by exists (ChProbe (blob_of data) pin :: others)].
  assert (Ha : (cache_adopt mkdir rename copied (blob_of data) (blen data) pin (cache_run others (cache_run [ChProbe (blob_of data) pin] c))).2
    = cache_run ((ChProbe (blob_of data) pin :: others) ++ [ChAdopt mkdir rename copied (blob_of data) (blen data) pin]) c) by (unfold cache_run; by rewrite foldl_app).
  destruct (cache_adopt _ _ _ _ _ _ _) as [[]c2]; cbn [snd] in *; (eexists; split; [exact Ha|]); (intros h [?| ->%list_elem_of_singleton]%elem_of_app; [by apply Htwo|by right]).
Qed.

Definition others_around (io : Str -> PutIo) (h : CacheHold) : Prop := exists rel, h ∈ pi_before (io rel) \/ h ∈ pi_between (io rel).

Lemma store_outputs_holds io pin files c : exists hs, (store_outputs io pin files c).2 = cache_run hs c /\ forall h, h ∈ hs -> others_around io h \/ own_hold h.
Proof.
  revert c. induction files as [|[rel f] files IH]; intros c; cbn [store_outputs]; [by exists []; split; [|intros ? ?%elem_of_nil]|].
  destruct (insert_file_holds (if pi_hash (io rel) then Some (fd_data f) else None) (if pi_copy (io rel) then Some (fd_data f) else None) (pi_between (io rel)) (pi_moved (io rel))
    (pi_mkdir (io rel)) (pi_rename (io rel)) pin (cache_run (pi_before (io rel)) c)) as (hs1 & H1 & O1).
  destruct (insert_file_inner _ _ _ _ _ _ _ _) as [[[id n]|e] c1]; cbn [snd] in H1; subst c1.
  - destruct (IH (cache_run hs1 (cache_run (pi_before (io rel)) c))) as (hs2 & H2 & O2). exists (pi_before (io rel) ++ hs1 ++ hs2). split.
    + destruct (store_outputs _ _ _ _) as [[]?]; cbn [snd] in *; rewrite H2; unfold cache_run; by rewrite !foldl_app.
    + intros h [?|[Hh|?]%elem_of_app]%elem_of_app; [left; exists rel; auto| |auto]. apply O1 in Hh as [?|?]; [left; exists rel; auto|by right].
  - exists (pi_before (io rel) ++ hs1). split; [cbn [snd]; unfold cache_run; by rewrite foldl_app|].
    intros h [?|Hh]%elem_of_app; [left; exists rel; auto|]. apply O1 in Hh as [?|?]; [left; exists rel; auto|by right].
Qed.

Lemma own_hold_spares h g id : own_hold h -> spares g id h.
Proof. by destruct h. Qed.

Definition describe (x : Str * Found) : BlobFile := {| bf_path := x.1; bf_id := blob_of (fd_data x.2); bf_size := blen (fd_data x.2); bf_executable := fd_executable x.2 |}.

Lemma store_outputs_spec io g files c outs c' : cache_inv c -> is_Some (bc_guards c !! g) -> (forall h, others_around io h -> keeps_guard g h) ->
  store_outputs io (Some g) files c = (Ok outs, c') -> outs = map describe files
  /\ forall o, o ∈ outs -> guard_holds c' g (bf_id o) /\ ((forall h, others_around io h -> spares g (bf_id o) h) -> cached c' (bf_id o)).
Proof.
  intros Hc Hg Ho. revert c Hc Hg outs c'. induction files as [|[rel f] files IH]; intros c Hc Hg outs c'; cbn [store_outputs].
  { intros [= <- <-]. split; [done|]. by intros ? ?%elem_of_nil. }
  assert (Hb : Forall (keeps_guard g) (pi_before (io rel))) by (apply Forall_forall; intros h ?; apply Ho; exists rel; auto).
  assert (Hm : Forall (keeps_guard g) (pi_between (io rel))) by (apply Forall_forall; intros h ?; apply Ho; exists rel; auto).
  pose proof (run_inv (pi_before (io rel)) c Hc) as Hc0. destruct Hg as [held Hg]. destruct (run_keeps_guard _ c g held Hc Hg Hb) as [m0 Hg0].
  destruct (insert_file_inner _ _ _ _ _ _ _ _) as [[[id n]|e] c1] eqn:Ei; [|done].
  destruct (insert_file_pins _ _ _ _ _ _ _ _ _ _ _ Hc0 (ex_intro _ _ Hg0) Hm Ei) as ((data & Hd & -> & ->) & Hgh & Hca & Hc1).
  assert (data = fd_data f) as -> by (destruct (pi_hash (io rel)); [by injection Hd|done]).
  destruct (store_outputs_holds io (Some g) files c1) as (hs & Hrun & Hhs). destruct (store_outputs io (Some g) files c1) as [[outs1|] c2] eqn:Es; [|done]. intros [= <- <-]. cbn [snd] in Hrun.
  destruct Hgh as (held1 & Hg1 & Hin1). destruct (IH c1 Hc1 (ex_intro _ _ Hg1) _ _ Es) as [-> Hrest]. split; [done|].
  intros o [->|Hin]%elem_of_cons; [|by apply Hrest]. cbn [bf_id]. rewrite Hrun. split.
  - assert (Hk : Forall (keeps_guard g) hs) by (apply Forall_forall; intros h [?|Hx]%Hhs; [by apply Ho|by apply (spares_keeps_guard g []), own_hold_spares]).
    destruct (run_keeps_guard hs c1 g held1 Hc1 Hg1 Hk) as [more ?]. eexists. split; [done|]. rewrite elem_of_app. by left.
  - intros Hs. apply (run_keeps_pinned hs c1 g); [done|by exists held1| |done]. apply Forall_forall. intros h [?|?]%Hhs; [by apply Hs|by apply own_hold_spares].
Qed.

(** From the sandbox to the cache: when [collect_outputs_pinned] returns files, they are
    exactly the selected ones with the hash and size of their content, and, whatever other
    tasks did to the cache meanwhile, each is held by the returned guard and, unless found
    corrupt or gone, still in the cache.  When it fails, its guard is released. *)
Theorem collected_outputs_held io root patterns limits failed c r c' : fs_ok root -> is_dir root -> cache_inv c ->
  (forall h, others_around io h -> keeps_guard (bc_next_guard c) h) ->
  collect_outputs_pinned io (Some root) patterns limits failed c = (r, c') ->
  match r with
  | Ok (outs, g) =>
      (forall o, o ∈ outs <-> exists f, selected root patterns (bf_path o) f /\ o = describe (bf_path o, f))
      /\ (forall o, o ∈ outs -> guard_holds c' g (bf_id o) /\ ((forall h, others_around io h -> spares g (bf_id o) h) -> cached c' (bf_id o)))
      /\ cache_inv c'
  | Err _ => bc_guards c' !! bc_next_guard c = None /\ cache_inv c'
  end.
Proof.
  intros Hok Hdir Hc Ho. unfold collect_outputs_pinned, cache_pin. cbn [new_guard]. set (g := bc_next_guard c) in *.
  match goal with |- context [pin_extend g [] ?x] => set (c0 := pin_extend g [] x) end.
  assert (Hc0 : cache_inv c0) by (change c0 with (cache_pin [] c).2; by apply (run_hold_inv (ChPin []) c)).
  assert (Hg0 : bc_guards c0 !! g = Some []) by (unfold c0, pin_extend; cbn [bc_guards]; rewrite lookup_insert_eq; cbn; by rewrite lookup_insert_eq).
  clearbody c0. unfold collect_outputs_inner. destruct (select_outputs (Some root) patterns limits failed) as [files|e] eqn:Es.
  - destruct (store_outputs_holds io (Some g) files c0) as (hs & Hrun & Hhs). pose proof (run_inv hs c0 Hc0) as Hi. rewrite <-Hrun in Hi.
    destruct (store_outputs io (Some g) files c0) as [[outs|e] c1] eqn:Et; intros [= <- <-]; cbn [snd] in Hi.
    + destruct (store_outputs_spec io g files c0 outs c1 Hc0 (ex_intro _ _ Hg0) Ho Et) as [-> Hall]. split; [|split; [exact Hall|done]].
      destruct (outputs_exact_aux root patterns limits failed files Hok Hdir Es) as (Hex & _). intros o. rewrite list_elem_of_fmap. split.
      * intros ([rel f] & -> & Hin%Hex). by exists f.
      * intros (f & Hsel%Hex & Heq). by exists (bf_path o, f).
    + split; [|by apply (run_hold_inv (ChDrop g) c1)]. unfold pin_drop. destruct (bc_guards c1 !! g) eqn:E; [cbn [bc_guards with_cache]; apply lookup_delete_eq|done].
  - intros [= <- <-]. split; [|by apply (run_hold_inv (ChDrop g) c0)]. unfold pin_drop. rewrite Hg0. cbn [bc_guards with_cache]. apply lookup_delete_eq.
Qed.

End stored.

(** ** Witnesses *)

(** A sandbox with a file [a], and a directory [d] that holds a file [b] and a link [c]. *)
Definition sample_dir : FsNode := FsDir true [([98], true, FsFile [5; 5] true true); ([99], true, FsLink)].
Definition sample_root : FsNode := FsDir true [([97], true, FsFile [7] false true); ([100], true, sample_dir)].

Ltac solve_fs_ok :=
  apply fs_ok_dir; intros *; rewrite ?elem_of_cons, ?elem_of_nil; intros; destruct_or?; simplify_eq/=; try done;
  try (split; [done|]; intros ?%list_elem_of_singleton; done); try by constructor.

Lemma sample_dir_ok : fs_ok sample_dir.
Proof. solve_fs_ok. Qed.
Lemma sample_root_ok : fs_ok sample_root.
Proof. solve_fs_ok. apply sample_dir_ok. Qed.

Lemma outputs_exact_witness : exists files, select_outputs (Some sample_root) [str "d"; str "?"] output_limits_default false = Ok files
  /\ map fst files = [[97]; [100; 47; 98]] /\ forall rel f, (rel, f) ∈ files -> validate_blob_path rel = Ok tt.
Proof.
  eexists. split; [vm_compute; reflexivity|]. split; [vm_compute; reflexivity|].
  eapply (outputs_exact sample_root [str "d"; str "?"] output_limits_default false); [exact sample_root_ok|done|vm_compute; reflexivity].
Defined.

Lemma links_never_followed_witness : select_outputs (Some sample_root) [str "d/c/x"] output_limits_default false = Err (SeTraversesLink (str "d/c/x"))
  /\ select_outputs (Some sample_root) [str "d/*/x"] output_limits_default false <> Err SeOutside.
Proof. split; [vm_compute; reflexivity|]. apply (links_never_followed sample_root); [exact sample_root_ok|done]. Defined.

Definition sample_put (rel : Str) : PutIo :=
  {| pi_hash := true; pi_copy := true; pi_moved := false; pi_mkdir := true; pi_rename := true; pi_before := [ChEvict true]; pi_between := [ChTouch [2]] |}.

Lemma collected_outputs_held_witness : exists outs c', collect_outputs_pinned (H := plain_hash) sample_put (Some sample_root) [str "d"] output_limits_default false sample_cache = (Ok (outs, 1), c')
  /\ map bf_id outs = [[5; 5]] /\ forall o, o ∈ outs -> cached c' (bf_id o).
Proof.
  eassert (E : collect_outputs_pinned (H := plain_hash) sample_put (Some sample_root) [str "d"] output_limits_default false sample_cache = (Ok (_, 1), _)) by (vm_compute; reflexivity).
  eexists _, _. split; [exact E|]. split; [vm_compute; reflexivity|].
  assert (Ho : forall g id h, others_around sample_put h -> spares g id h) by (intros g id h (rel & [Hh|Hh]); apply list_elem_of_singleton in Hh as ->; done).
  refine (let Hx := collected_outputs_held (H := plain_hash) sample_put sample_root [str "d"] output_limits_default false sample_cache _ _ sample_root_ok I sample_cache_inv _ E in _).
  - intros o Hin. exact (proj2 (proj1 (proj2 Hx) o Hin) (Ho 1 (bf_id o))).
  Unshelve. intros h Hh. exact (spares_keeps_guard _ [] h (Ho _ [] h Hh)).
Defined.
