(* ===== verification/StagingInputs.v ===== *)
(** * StagingInputs: what a worker puts into a sandbox

    Placing the inputs of a task adds exactly their files, with verified content, at paths that
    were free; nothing in the sandbox is overwritten and no link is followed. *)

From S2P Require Import Prelude Collections RustStr Capabilities Placement Blob BlobProps Task Queue BlobTransfer BlobStore BlobStoreProps BlobCache BlobCacheProps Staging StagingProps.
Local Open Scope N_scope.

(** ** Directories *)

Lemma elem_of_fs_set name child es (e : FsEntry) : e ∈ fs_set name child es <-> e = ((name, true), child) \/ (e.1 <> (name, true) /\ e ∈ es).
Proof.
  unfold fs_set. destruct (fs_child name es) as [old|] eqn:E.
  - rewrite list_elem_of_fmap. split.
    + intros (x & -> & Hx). case_bool_decide as Hk; auto.
    + intros [->|[Hk Hx]].
      * exists ((name, true), old). rewrite bool_decide_true by done. split; [done|]. by apply fs_child_Some.
      * exists e. by rewrite bool_decide_false.
  - rewrite elem_of_app, list_elem_of_singleton. split; [|tauto]. intros [Hx|]; [|by left]. right. split; [|done]. intros Hk. unfold fs_child in E.
    destruct (List.find _ es) eqn:Ef; [done|]. apply list_elem_of_In in Hx. eapply find_none in Hx; [|exact Ef]. by apply bool_decide_eq_false in Hx.
Qed.

(** A node that is not a directory. *)
Definition leaf (n : FsNode) : Prop := ~ is_dir n.

Lemma reaches_name r es name p m : fs_ok (FsDir r es) -> reaches (FsDir r es) (name :: p) m <-> exists child, fs_child name es = Some child /\ reaches child p m.
Proof.
  intros Hok. inversion Hok as [? ? Hf _ _| | | |]; subst. split.
  - intros (? & ? & child & [= <- <-] & Hin & Hr)%reaches_cons_inv. exists child. split; [|done]. apply fs_child_in; eauto.
  - intros (child & Hc & Hr). eapply reaches_in; [by apply fs_child_Some|done].
Qed.

Lemma reaches_set r es name child p m : leaf m ->
  reaches (FsDir r (fs_set name child es)) p m <-> match p with [] => False | k :: q => if decide (k = name) then reaches child q m else reaches (FsDir r es) p m end.
Proof.
  intros Hl. destruct p as [|k q]; [split; [intros <-%reaches_nil_inv; by apply Hl|done]|]. split.
  - intros (? & ? & x & [= <- <-] & [Hx|[Hk Hx]]%elem_of_fs_set & Hr)%reaches_cons_inv.
    + injection Hx as -> ->. by rewrite decide_True.
    + cbn in Hk. rewrite decide_False by congruence. by eapply reaches_in.
  - case_decide as Hk; [subst k; intros Hr; eapply reaches_in; [apply elem_of_fs_set; by left|done]|].
    intros (? & ? & x & [= <- <-] & Hx & Hr)%reaches_cons_inv. eapply reaches_in; [|exact Hr]. apply elem_of_fs_set. right. split; [|done]. cbn. congruence.
Qed.

Lemma fs_ok_set r es name child : fs_ok (FsDir r es) -> fs_ok child -> name <> [] -> SLASH ∉ name -> fs_ok (FsDir r (fs_set name child es)).
Proof.
  intros Hok Hc Hn Hs. inversion Hok as [? ? Hf Hnm Hch| | | |]; subst. constructor.
  - intros k n n' [H1|[K1 H1]]%elem_of_fs_set [H2|[K2 H2]]%elem_of_fs_set; [congruence|injection H1; cbn in *; congruence|injection H2; cbn in *; congruence|eauto].
  - intros k u n [[= -> -> ->]|[_ ?]]%elem_of_fs_set; eauto.
  - intros k u n [[= -> -> ->]|[_ ?]]%elem_of_fs_set; eauto.
Qed.

Lemma fs_child_set name child es : fs_child name (fs_set name child es) = Some child.
Proof. apply fs_child_in; [|apply elem_of_fs_set; by left]. intros n n' [H1|[K1 _]]%elem_of_fs_set [H2|[K2 _]]%elem_of_fs_set; cbn in *; congruence. Qed.

Lemma fs_ok_child r es name child : fs_ok (FsDir r es) -> fs_child name es = Some child -> fs_ok child.
Proof. intros Hok Hc%fs_child_Some. inversion Hok; subst; eauto. Qed.

Lemma new_dir_ok : fs_ok (FsDir true []).
Proof. constructor; intros *; intros ?%elem_of_nil; done. Qed.

Lemma default_child_ok r es name : fs_ok (FsDir r es) -> fs_ok (default (FsDir true []) (fs_child name es)).
Proof. intros Hok. destruct (fs_child name es) eqn:E; [by eapply fs_ok_child|apply new_dir_ok]. Qed.

(** The leaves below [n], by their paths. *)
Definition same_leaves (n n' : FsNode) : Prop := forall p m, leaf m -> reaches n' p m <-> reaches n p m.

Lemma create_dir_all_spec path n n' : fs_ok n -> names_ok path -> create_dir_all n path = MdOk n' ->
  fs_ok n' /\ is_dir n' /\ same_leaves n n' /\ exists r es, reaches n' path (FsDir r es).
Proof.
  revert n n'. induction path as [|name path IH]; intros n n' Hok Hn; cbn [create_dir_all].
  - destruct n as [|r es| | |]; try done. intros [= <-]. split; [done|]. split; [done|]. split; [done|]. exists r, es. constructor.
  - destruct n as [|r es| | |]; try done. apply Forall_cons in Hn as [[Hne Hsl] Hn].
    destruct (create_dir_all _ path) as [child| |] eqn:E; try done. intros [= <-]. destruct (IH _ _ (default_child_ok r es name Hok) Hn E) as (Hc & _ & Hl & r' & es' & Hr).
    split; [by apply fs_ok_set|]. split; [done|]. split; [|exists r', es'; eapply reaches_in; [apply elem_of_fs_set; by left|done]].
    intros p m Hm. rewrite reaches_set by done. destruct p as [|k q]; [split; [done|intros <-%reaches_nil_inv; by apply Hm]|].
    case_decide as Hk; [subst k|done]. rewrite (Hl q m Hm), reaches_name by done. destruct (fs_child name es) as [old|]; cbn [default].
    + naive_solver.
    + split; [|naive_solver]. destruct q as [|x q]; [intros <-%reaches_nil_inv; by destruct Hm|]. by intros (? & ? & ? & [= <- <-] & ?%elem_of_nil & _)%reaches_cons_inv.
Qed.

Lemma create_file_spec path n file r es : fs_ok n -> names_ok path -> path <> [] -> reaches n (removelast path) (FsDir r es) -> fs_lookup n path = LkMissing -> leaf file -> fs_ok file ->
  fs_ok (create_file n path file) /\ is_dir (create_file n path file)
  /\ forall p m, leaf m -> reaches (create_file n path file) p m <-> reaches n p m \/ (p = path /\ m = file).
Proof.
  intros Hok Hn Hne Hr Hfree Hlf Hfo. revert n Hok Hn Hne Hr Hfree. induction path as [|name path IH]; intros n Hok Hn Hne Hr Hfree; [done|]. apply Forall_cons in Hn as [[Hnn Hsl] Hn].
  destruct path as [|next path].
  - cbn [removelast] in Hr. apply reaches_nil_inv in Hr as ->. cbn [create_file]. cbn [fs_lookup] in Hfree. split; [by apply fs_ok_set|]. split; [done|].
    intros p m Hm. rewrite reaches_set by done. destruct p as [|k q]; [split; [done|intros [<-%reaches_nil_inv|[? _]]; [by apply Hm|done]]|].
    case_decide as Hk; [subst k|naive_solver]. rewrite reaches_name by done. destruct (fs_child name es) as [old|] eqn:E.
    + exfalso. destruct old; done.
    + split; [|intros [(? & ? & _)|[[= ->] ->]]; [done|constructor]]. intros Hx. right. destruct q; [apply reaches_nil_inv in Hx as ->; done|].
      apply reaches_cons_inv in Hx as (? & ? & ? & -> & _). by destruct Hlf.
  - change (removelast (name :: next :: path)) with (name :: removelast (next :: path)) in Hr. apply reaches_cons_inv in Hr as (r0 & es0 & child & -> & Hin & Hr).
    inversion Hok as [? ? Hf _ _| | | |]; subst. assert (Hc : fs_child name es0 = Some child) by (apply fs_child_in; eauto).
    assert (Hcok : fs_ok child) by (by eapply fs_ok_child). cbn [fs_lookup] in Hfree. rewrite Hc in Hfree.
    destruct (IH child Hcok Hn ltac:(done) Hr Hfree) as (H1 & H2 & H3). change (create_file (FsDir r0 es0) (name :: next :: path) file) with
      (match fs_child name es0 with Some child => FsDir r0 (fs_set name (create_file child (next :: path) file) es0) | None => FsDir r0 es0 end). rewrite Hc.
    split; [by apply fs_ok_set|]. split; [done|]. intros p m Hm. rewrite reaches_set by done. destruct p as [|k q]; [split; [done|intros [<-%reaches_nil_inv|[? _]]; [by apply Hm|done]]|].
    case_decide as Hk; [subst k|split; [auto|intros [?|[[= -> _] _]]; done]]. rewrite (H3 q m Hm), reaches_name by done. rewrite Hc. naive_solver.
Qed.

(** ** Files placed *)

Section placed.
Context `{BlobHash} `{ManifestCodec}.

Record Placed := { pd_path : Str; pd_id : BlobId; pd_executable : bool; pd_data : Bytes }.
Definition pd_file (x : Placed) : FsNode := FsFile (pd_data x) (pd_executable x) true.
Definition pd_key (x : Placed) : Str * BlobId * bool := (pd_path x, pd_id x, pd_executable x).

(** [root'] is [root] with the files of [l] added, at paths where nothing was, each with the
    content its blob id names. *)
Record adds (root root' : FsNode) (l : list Placed) : Prop := {
  ad_ok : fs_ok root' /\ is_dir root';
  ad_leaves : forall p m, leaf m -> reaches root' p m <-> reaches root p m \/ exists x, x ∈ l /\ p = split SLASH (pd_path x) /\ m = pd_file x;
  ad_each : forall x, x ∈ l -> validate_blob_path (pd_path x) = Ok tt /\ blob_of (pd_data x) = pd_id x /\ forall m, leaf m -> ~ reaches root (split SLASH (pd_path x)) m;
  ad_distinct : NoDup (map pd_path l)
}.

Lemma same_adds root root' : fs_ok root' -> is_dir root' -> same_leaves root root' -> adds root root' [].
Proof.
  intros Hok Hd Hs. split; [done| | |constructor].
  - intros p m Hm. rewrite (Hs p m Hm). split; [by left|]. intros [?|(x & ?%elem_of_nil & _)]; done.
  - by intros x ?%elem_of_nil.
Qed.

Lemma adds_nil root : fs_ok root -> is_dir root -> adds root root [].
Proof. intros Hok Hd. by apply same_adds. Qed.

Lemma adds_app root root1 root' l1 l2 : adds root root1 l1 -> adds root1 root' l2 -> adds root root' (l1 ++ l2).
Proof.
  intros [_ L1 E1 D1] [O2 L2 E2 D2]. split; [done| | |].
  - intros p m Hm. rewrite (L2 p m Hm), (L1 p m Hm). setoid_rewrite elem_of_app. split.
    + intros [[?|(x & ? & ?)]|(x & ? & ?)]; [by left|right; exists x; auto..].
    + intros [?|(x & [?|?] & ?)]; [auto|left; right; eauto|right; eauto].
  - intros x [Hx|Hx]%elem_of_app; [by apply E1|]. destruct (E2 x Hx) as (? & ? & Hfree). split; [done|]. split; [done|]. intros m Hm Hr. apply (Hfree m Hm). apply L1; auto.
  - rewrite map_app. apply NoDup_app. split; [done|]. split; [|done]. intros rel (x & -> & Hx)%list_elem_of_fmap (y & Hp & Hy)%list_elem_of_fmap.
    destruct (E2 y Hy) as (_ & _ & Hfree). apply (Hfree (pd_file x)); [by intros []|]. rewrite <-Hp. apply L1; [by intros []|]. right. by exists x.
Qed.

Lemma sandbox_path_spec rel path : sandbox_path rel = Ok path -> validate_blob_path rel = Ok tt /\ path = split SLASH rel /\ names_ok path /\ path <> [].
Proof.
  unfold sandbox_path. destruct (validate_blob_path rel) as [[]|] eqn:E; [|done]. intros [= <-]. split; [done|]. split; [done|]. split; [|apply split_not_nil].
  apply validate_blob_path_Ok in E as (_ & _ & _ & Hs). apply Forall_forall. intros name Hin. rewrite Forall_forall in Hs.
  pose proof (proj1 (check_segment_Ok name) (Hs name Hin)) as Hc. split; [by destruct Hc|]. by apply (split_no_sep SLASH rel).
Qed.

Lemma broken_lookup n path : fs_ok n -> reaches n path FsBroken -> fs_lookup n path = LkRefused.
Proof.
  intros Hok Hr. remember FsBroken as m eqn:Hm. induction Hr as [|r es name child path m Hin Hr IH]; cbn [fs_lookup]; [by subst|]. inversion Hok as [? ? Hf _ Hch| | | |]; subst.
  rewrite (fs_child_in name es child) by eauto. apply IH; eauto.
Qed.

Definition linkless (n : FsNode) : Prop := forall p, ~ reaches n p FsLink.

Lemma create_dir_all_inside path n : linkless n -> create_dir_all n path <> MdThroughLink.
Proof.
  revert n. induction path as [|name path IH]; intros n Hl; cbn [create_dir_all]; destruct n as [|r es| | |]; try done; [by destruct (Hl []); constructor| |by destruct (Hl []); constructor].
  assert (Hd : linkless (default (FsDir true []) (fs_child name es))).
  { intros p Hr. destruct (fs_child name es) as [child|] eqn:E; cbn [default] in Hr.
    - apply (Hl (name :: p)). eapply reaches_in; [by apply fs_child_Some|done].
    - destruct p; [by apply reaches_nil_inv in Hr|]. by apply reaches_cons_inv in Hr as (? & ? & ? & [= <- <-] & ?%elem_of_nil & _). }
  specialize (IH _ Hd). by destruct (create_dir_all _ path).
Qed.

(** Placing one file: added, or an error that leaves all there was. *)
Lemma place_spec io root rel id ex c r root' c' : fs_ok root -> is_dir root -> place_blob io root rel id ex c = (r, root', c') ->
  match r with
  | Ok _ => exists x, pd_key x = (rel, id, ex) /\ adds root root' [x]
  | Err e => adds root root' [] /\ (linkless root -> e <> SeOutside)
  end.
Proof.
  intros Hok Hd. pose proof (adds_nil root Hok Hd) as Hnil. unfold place_blob. destruct (sandbox_path rel) as [path|e] eqn:Ep; [|by intros [= <- <- <-]]. destruct (sandbox_path_spec _ _ Ep) as (Hv & -> & Hn & Hne).
  destruct (pl_mkdir io); [|by intros [= <- <- <-]]. cbn [negb]. set (path := split SLASH rel) in *. pose proof (create_dir_all_inside (removelast path) root) as Hin.
  assert (Hnr : names_ok (removelast path)) by (unfold names_ok in *; rewrite (app_removelast_last [] Hne) in Hn; by apply Forall_app in Hn as [? _]).
  destruct (create_dir_all root (removelast path)) as [root1| |] eqn:Em; [|by intros [= <- <- <-]|intros [= <- <- <-]; split; [done|]; by intros Hx%Hin].
  destruct (create_dir_all_spec _ _ _ Hok Hnr Em) as (Hok1 & Hd1 & Hl1 & r1 & es1 & Hr1).
  destruct (materialize _ _ _ _ _ _) as [[data|err] c1] eqn:Ema; [|assert (adds root root1 []) by (by apply same_adds); destruct err; by intros [= <- <- <-]].
  intros [= <- <- <-]. destruct (fs_lookup root1 path) eqn:El; try (exfalso; unfold materialize in Ema; destruct (bc_objects _ !! id); by cbn [negb] in Ema).
  assert (Hdata : blob_of data = id) by (apply (materialize_checked true (pl_readable io) (pl_chmod io) (pl_deleted io) id (cache_run (pl_before io) c) data); by rewrite Ema).
  destruct (create_file_spec path root1 (FsFile data ex true) r1 es1) as (Hok2 & Hd2 & Hl2); [done..|by intros []|constructor|].
  exists {| pd_path := rel; pd_id := id; pd_executable := ex; pd_data := data |}. split; [done|]. split; [done| | |apply NoDup_singleton].
  - intros p m Hm. rewrite (Hl2 p m Hm), (Hl1 p m Hm). setoid_rewrite list_elem_of_singleton. unfold pd_file. split; [intros [?|[-> ->]]; [by left|right; by eexists]|].
    intros [?|(x & -> & -> & ->)]; [by left|by right].
  - intros x ->%list_elem_of_singleton. cbn [pd_path pd_data pd_id]. split; [done|]. split; [done|]. intros m Hm Hr. fold path in Hr. apply Hl1 in Hr; [|done].
    destruct m; [|by destruct Hm| | |]; try by rewrite (reaches_lookup _ _ _ Hok1 Hr) in El by done. by rewrite (broken_lookup _ _ Hok1 Hr) in El.
Qed.

Lemma adds_linkless root root' l : adds root root' l -> linkless root -> linkless root'.
Proof. intros Ha Hl p Hr. apply (ad_leaves _ _ _ Ha) in Hr as [Hr|(x & _ & _ & ?)]; [by apply (Hl p)|done|by intros []]. Qed.

(** How a run of placings ends: with the files of [keys] added, or with some of them and an
    error. *)
Definition placing (root : FsNode) (keys : list Placed -> Prop) (r : result StageError N) (placed : N) (root' : FsNode) : Prop :=
  match r with
  | Ok n => exists l, keys l /\ adds root root' l /\ n = placed + N.of_nat (length l)
  | Err e => exists l, adds root root' l /\ (linkless root -> e <> SeOutside)
  end.

Lemma placing_after root root1 l1 keys keys' r placed root' : adds root root1 l1 -> (forall l, keys l -> keys' (l1 ++ l)) ->
  placing root1 keys r (placed + N.of_nat (length l1)) root' -> placing root keys' r placed root'.
Proof.
  intros Ha Hk. destruct r as [n|e]; cbn [placing].
  - intros (l & Hl & Ha2 & ->). exists (l1 ++ l). split; [auto|]. split; [by eapply adds_app|]. rewrite length_app. lia.
  - intros (l & Ha2 & Hn). exists (l1 ++ l). split; [by eapply adds_app|]. intros Hl. apply Hn. by eapply adds_linkless.
Qed.

Definition tree_keys (base : Str) (files : list BlobFile) : list (Str * BlobId * bool) := map (fun f => (join_blob_path base (bf_path f), bf_id f, bf_executable f)) files.

Lemma place_files_spec io base files root placed c r root' c' : fs_ok root -> is_dir root -> place_files io root base files placed c = (r, root', c') ->
  placing root (fun l => map pd_key l = tree_keys base files) r placed root'.
Proof.
  revert root placed c. induction files as [|f files IH]; intros root placed c Hok Hd; cbn [place_files].
  { intros [= <- <- <-]. exists []. split; [done|]. split; [by apply adds_nil|cbn; lia]. }
  destruct (place_blob _ _ _ _ _ _) as [[r1 root1] c1] eqn:Ep. apply place_spec in Ep; [|done..]. destruct r1 as [u|e].
  - destruct Ep as (x & Hx & Ha). destruct (ad_ok _ _ _ Ha) as [Hok1 Hd1]. intros Hf. apply (placing_after root root1 [x] (fun l => map pd_key l = tree_keys base files)); [done| |by eapply IH].
    intros l Hl. cbn. by rewrite Hx, Hl.
  - intros [= <- <- <-]. exists []. done.
Qed.

(** What an input puts into the sandbox: the file, or the files its manifest lists. *)
Definition input_plan (input : TaskInput) (l : list Placed) : Prop :=
  match ti_source input with
  | InputFile id _ executable => map pd_key l = [(ti_path input, id, executable)]
  | InputTree manifest _ => exists bytes files, blob_of bytes = manifest /\ manifest_decode bytes = Ok files /\ map pd_key l = tree_keys (ti_path input) files
  end.

Lemma place_input_spec io input root placed c r root' c' : fs_ok root -> is_dir root -> place_input io root input placed c = (r, root', c') ->
  placing root (input_plan input) r placed root'.
Proof.
  intros Hok Hd. unfold place_input, input_plan. destruct (ti_source input) as [id size ex|manifest size].
  - destruct (place_blob _ _ _ _ _ _) as [[r1 root1] c1] eqn:Ep. apply place_spec in Ep; [|done..]. destruct r1 as [u|e]; intros [= <- <- <-].
    + destruct Ep as (x & Hx & Ha). exists [x]. cbn. by rewrite Hx.
    + by exists [].
  - destruct (read_verified _ _ _ _) as [[bytes|e] c1] eqn:Er; [|intros [= <- <- <-]; exists []; split; [by apply adds_nil|done]].
    assert (Hb : blob_of bytes = manifest) by (eapply read_verified_checked; by rewrite Er).
    destruct (manifest_decode bytes) as [files|e] eqn:Ed; [|intros [= <- <- <-]; exists []; split; [by apply adds_nil|done]].
    intros Hf. apply place_files_spec in Hf; [|done..]. destruct r; [|done]. destruct Hf as (l & Hl & Ha & ->). exists l. split; [by exists bytes, files|done].
Qed.

Lemma place_inputs_spec io inputs root placed c r root' c' : fs_ok root -> is_dir root -> place_inputs io root inputs placed c = (r, root', c') ->
  placing root (fun l => exists plans, Forall2 input_plan inputs plans /\ l = concat plans) r placed root'.
Proof.
  revert root placed c. induction inputs as [|input inputs IH]; intros root placed c Hok Hd; cbn [place_inputs].
  { intros [= <- <- <-]. exists []. split; [by exists []|]. split; [by apply adds_nil|cbn; lia]. }
  destruct (place_input _ _ _ _ _) as [[r1 root1] c1] eqn:Ep. apply place_input_spec in Ep; [|done..]. destruct r1 as [n|e].
  - destruct Ep as (l1 & Hl1 & Ha & ->). destruct (ad_ok _ _ _ Ha) as [Hok1 Hd1]. intros Hf.
    apply (placing_after root root1 l1 (fun l => exists plans, Forall2 input_plan inputs plans /\ l = concat plans)); [done| |by eapply IH].
    intros l (plans & Hp & ->). exists (l1 :: plans). split; [by constructor|done].
  - by intros [= <- <- <-].
Qed.

(** The sandbox a task starts in: when [materialize_inputs] succeeds, the sandbox is what it was
    plus exactly the files of the inputs (for a directory, those its manifest lists), each at
    a valid path where nothing was, with content that hashes to its blob id; the count
    returned is their number. *)
Theorem inputs_placed io root inputs c n root' c' : fs_ok root -> is_dir root -> materialize_inputs io root inputs c = (Ok n, root', c') ->
  exists plans, Forall2 input_plan inputs plans /\ adds root root' (concat plans) /\ n = N.of_nat (length (concat plans)).
Proof.
  intros Hok Hd Hm. apply place_inputs_spec in Hm; [|done..]. destruct Hm as (l & (plans & Hp & ->) & Ha & ->). exists plans. split; [done|]. split; [done|lia].
Qed.

(** Whether placing succeeds or fails, every file, link or other leaf that was in the sandbox
    is still there, unchanged; and in a sandbox without links nothing is placed through one. *)
Theorem nothing_overwritten io root inputs c r root' c' : fs_ok root -> is_dir root -> materialize_inputs io root inputs c = (r, root', c') ->
  (forall p m, leaf m -> reaches root p m -> reaches root' p m) /\ (linkless root -> r <> Err SeOutside /\ linkless root').
Proof.
  intros Hok Hd Hm. apply place_inputs_spec in Hm; [|done..].
  assert (Hx : exists l, adds root root' l /\ (linkless root -> r <> Err SeOutside)).
  { destruct r; cbn [placing] in Hm; [destruct Hm as (l & _ & ? & _); by exists l|]. destruct Hm as (l & ? & Hn). exists l. split; [done|]. intros Hl%Hn. congruence. }
  destruct Hx as (l & Ha & Hn). split; [intros p m Hl Hr; apply (ad_leaves _ _ _ Ha); auto|]. intros Hl. split; [auto|by eapply adds_linkless].
Qed.

End placed.

(** ** Witnesses *)

(** A cache with a file and the manifest of a directory that holds it; a task that wants the
    file as [f] and the directory as [p]. *)
Definition sample_listing : list BlobFile := [{| bf_path := str "x/y"; bf_id := [7; 7]; bf_size := 2; bf_executable := true |}].
Definition sample_manifest : Bytes := @manifest_encode ToyCodec.codec sample_listing.
Definition input_cache : BlobCache := cache_open 1000 [([7; 7], [7; 7]); (sample_manifest, sample_manifest)].
Definition sample_inputs : list TaskInput :=
  [{| ti_path := str "f"; ti_source := InputFile [7; 7] 2 false |}; {| ti_path := str "p"; ti_source := InputTree sample_manifest (blen sample_manifest) |}].
Definition sample_place (rel : Str) : PlaceIo := {| pl_mkdir := true; pl_readable := true; pl_chmod := true; pl_deleted := true; pl_before := [ChTouch [7; 7]] |}.

Lemma inputs_placed_witness : exists root' c', materialize_inputs (H := plain_hash) (H0 := ToyCodec.codec) sample_place sample_root sample_inputs input_cache = (Ok 2, root', c')
  /\ exists plans, Forall2 (input_plan (H := plain_hash) (H0 := ToyCodec.codec)) sample_inputs plans /\ adds (H := plain_hash) sample_root root' (concat plans).
Proof.
  eassert (E : materialize_inputs (H := plain_hash) (H0 := ToyCodec.codec) sample_place sample_root sample_inputs input_cache = (Ok 2, _, _)) by (vm_compute; reflexivity).
  eexists _, _. split; [exact E|].
  destruct (inputs_placed (H := plain_hash) (H0 := ToyCodec.codec) sample_place sample_root sample_inputs input_cache 2 _ _ sample_root_ok I E) as (plans & Hp & Ha & _).
  exists plans. split; [exact Hp|exact Ha].
Defined.

(** The file [a] is in the way of an input. *)
Lemma nothing_overwritten_witness : exists root' c', materialize_inputs (H := plain_hash) (H0 := ToyCodec.codec) sample_place sample_root
    [{| ti_path := [97]; ti_source := InputFile [7; 7] 2 false |}] input_cache = (Err (SeCollides [97]), root', c')
  /\ reaches root' [[97]] (FsFile [7] false true).
Proof.
  eassert (E : materialize_inputs (H := plain_hash) (H0 := ToyCodec.codec) sample_place sample_root
    [{| ti_path := [97]; ti_source := InputFile [7; 7] 2 false |}] input_cache = (Err (SeCollides [97]), _, _)) by (vm_compute; reflexivity).
  eexists _, _. split; [exact E|].
  destruct (nothing_overwritten (H := plain_hash) (H0 := ToyCodec.codec) sample_place sample_root _ input_cache _ _ _ sample_root_ok I E) as [Hk _].
  apply Hk; [by intros []|]. eapply reaches_in; [left|constructor].
Defined.
