(* ===== verification/BlobClient.v ===== *)
(** * BlobClient: a worker's blob requests, and fetching a task's inputs

    Models [crates/worker/src/blob_client.rs] but for what becomes of a result
    ([WorkerTasks.upload_task_outputs]).  A call is a future with an await point between any two
    accesses to the state the calls of a session share (the semaphore, the flag, the counter,
    the table of waiting requests, the session's outbound queue); [client_step] is one such
    access, by a call, by the loop that reads from the master, or by the end of the session.
    A dropped future gives its permit back and nothing else.  [cl_outstanding] are the
    requests that were queued to the master and not answered. *)

From S2P Require Import Prelude Collections RustStr Capabilities Placement Blob Task Queue BlobTransfer BlobStore BlobCache Staging.
Local Open Scope N_scope.

Definition MAX_IN_FLIGHT_REQUESTS : N := 16.
Definition U64 : N := 2 ^ 64.

(** ** Calls *)

(** The receiving end of the channel a reply comes through. *)
Inductive ReplyBox := BoxEmpty | BoxFilled (reply : BlobReply) | BoxDropped.

Inductive BlobCallPhase :=
| CpAcquiring
| CpPermitted
| CpChecked
| CpNumbered (rid : N)
| CpRegistered (rid : N) (box : ReplyBox)
| CpWaiting (rid : N) (box : ReplyBox)
| CpDone (rid : option N) (r : result BlobError BlobReply).

Record BlobCall := { ca_request : BlobRequest; ca_phase : BlobCallPhase }.

Record ClientState := {
  cl_free : N;
  cl_sem_closed : bool;
  cl_closed : bool;
  cl_next_id : N;
  cl_pending : gmap N N;
  cl_calls : gmap N BlobCall;
  cl_outstanding : list (N * BlobRequest)
}.

(** [BlobClient::new]. *)
Definition client_new : ClientState :=
  {| cl_free := MAX_IN_FLIGHT_REQUESTS; cl_sem_closed := false; cl_closed := false; cl_next_id := 1; cl_pending := ∅; cl_calls := ∅; cl_outstanding := [] |}.

Definition set_calls (calls : gmap N BlobCall) (s : ClientState) : ClientState :=
  {| cl_free := cl_free s; cl_sem_closed := cl_sem_closed s; cl_closed := cl_closed s; cl_next_id := cl_next_id s; cl_pending := cl_pending s; cl_calls := calls;
     cl_outstanding := cl_outstanding s |}.
Definition set_free (free : N) (s : ClientState) : ClientState :=
  {| cl_free := free; cl_sem_closed := cl_sem_closed s; cl_closed := cl_closed s; cl_next_id := cl_next_id s; cl_pending := cl_pending s; cl_calls := cl_calls s;
     cl_outstanding := cl_outstanding s |}.
Definition set_pending (pending : gmap N N) (s : ClientState) : ClientState :=
  {| cl_free := cl_free s; cl_sem_closed := cl_sem_closed s; cl_closed := cl_closed s; cl_next_id := cl_next_id s; cl_pending := pending; cl_calls := cl_calls s;
     cl_outstanding := cl_outstanding s |}.
Definition set_outstanding (outstanding : list (N * BlobRequest)) (s : ClientState) : ClientState :=
  {| cl_free := cl_free s; cl_sem_closed := cl_sem_closed s; cl_closed := cl_closed s; cl_next_id := cl_next_id s; cl_pending := cl_pending s; cl_calls := cl_calls s;
     cl_outstanding := outstanding |}.

Definition phase_to (k : N) (c : BlobCall) (p : BlobCallPhase) (s : ClientState) : ClientState :=
  set_calls (<[k := {| ca_request := ca_request c; ca_phase := p |}]> (cl_calls s)) s.

Definition holds_permit (p : BlobCallPhase) : bool :=
  match p with CpAcquiring | CpDone _ _ => false | _ => true end.

(** The end of a call, which drops its permit. *)
Definition call_end (k : N) (c : BlobCall) (rid : option N) (r : result BlobError BlobReply) (s : ClientState) : ClientState :=
  let s := phase_to k c (CpDone rid r) s in
  if holds_permit (ca_phase c) then set_free (cl_free s + 1) s else s.

(** What a call does between two await points. *)
Inductive CallEvent :=
| CeAcquire
| CeCheckClosed
| CeNumber
| CeRegister
| CeSend (sent : bool)
| CeReceive
| CeTimeout.

Definition call_event (k : N) (e : CallEvent) (s : ClientState) : ClientState :=
  match cl_calls s !! k with
  | None => s
  | Some c =>
      match e, ca_phase c with
      | CeAcquire, CpAcquiring =>
          if cl_sem_closed s then call_end k c None (Err BeTransport) s
          else if cl_free s =? 0 then s
          else phase_to k c CpPermitted (set_free (cl_free s - 1) s)
      | CeCheckClosed, CpPermitted =>
          if cl_closed s then call_end k c None (Err BeTransport) s else phase_to k c CpChecked s
      | CeNumber, CpChecked =>
          phase_to k c (CpNumbered (cl_next_id s))
            {| cl_free := cl_free s; cl_sem_closed := cl_sem_closed s; cl_closed := cl_closed s; cl_next_id := (cl_next_id s + 1) mod U64;
               cl_pending := cl_pending s; cl_calls := cl_calls s; cl_outstanding := cl_outstanding s |}
      | CeRegister, CpNumbered rid => phase_to k c (CpRegistered rid BoxEmpty) (set_pending (<[rid := k]> (cl_pending s)) s)
      | CeSend true, CpRegistered rid box => phase_to k c (CpWaiting rid box) (set_outstanding (cl_outstanding s ++ [(rid, ca_request c)]) s)
      | CeSend false, CpRegistered rid _ => call_end k c (Some rid) (Err BeTransport) (set_pending (delete rid (cl_pending s)) s)
      | CeReceive, CpWaiting rid (BoxFilled reply) => call_end k c (Some rid) (Ok reply) s
      | CeReceive, CpWaiting rid BoxDropped => call_end k c (Some rid) (Err BeTransport) s
      | CeTimeout, CpWaiting rid _ => call_end k c (Some rid) (Err BeTransport) (set_pending (delete rid (cl_pending s)) s)
      | _, _ => s
      end
  end.

(** ** The session *)

(** The sender of request [rid]'s channel gives [box] to whoever holds the receiver. *)
Definition settle_box (box : ReplyBox) (rid : N) (c : BlobCall) : BlobCall :=
  match ca_phase c with
  | CpRegistered rid' BoxEmpty => if rid' =? rid then {| ca_request := ca_request c; ca_phase := CpRegistered rid box |} else c
  | CpWaiting rid' BoxEmpty => if rid' =? rid then {| ca_request := ca_request c; ca_phase := CpWaiting rid box |} else c
  | _ => c
  end.

Definition waits_for (rid : N) (c : BlobCall) : bool :=
  match ca_phase c with CpRegistered rid' _ | CpWaiting rid' _ => rid' =? rid | _ => false end.

(** [deliver]: the reply goes to the call that registered the id, if it still waits. *)
Definition client_deliver (rid : N) (reply : BlobReply) (s : ClientState) : bool * ClientState :=
  let s := set_outstanding (List.filter (fun x => negb (x.1 =? rid)) (cl_outstanding s)) s in
  match cl_pending s !! rid with
  | None => (false, s)
  | Some k =>
      let s := set_pending (delete rid (cl_pending s)) s in
      match cl_calls s !! k with
      | Some c => (waits_for rid c, set_calls (<[k := settle_box (BoxFilled reply) rid c]> (cl_calls s)) s)
      | None => (false, s)
      end
  end.

(** [close] in its three steps. *)
Definition close_flag (s : ClientState) : ClientState :=
  {| cl_free := cl_free s; cl_sem_closed := cl_sem_closed s; cl_closed := true; cl_next_id := cl_next_id s; cl_pending := cl_pending s; cl_calls := cl_calls s;
     cl_outstanding := cl_outstanding s |}.
Definition close_semaphore (s : ClientState) : ClientState :=
  {| cl_free := cl_free s; cl_sem_closed := true; cl_closed := cl_closed s; cl_next_id := cl_next_id s; cl_pending := cl_pending s; cl_calls := cl_calls s;
     cl_outstanding := cl_outstanding s |}.
(** Clearing the table drops the senders in it. *)
Definition cleared (pending : gmap N N) (k : N) (c : BlobCall) : BlobCall :=
  match ca_phase c with
  | CpRegistered rid _ | CpWaiting rid _ => if bool_decide (pending !! rid = Some k) then settle_box BoxDropped rid c else c
  | _ => c
  end.
Definition close_clear (s : ClientState) : ClientState :=
  set_pending ∅ (set_calls (map_imap (fun k c => Some (cleared (cl_pending s) k c)) (cl_calls s)) s).
Definition client_close (s : ClientState) : ClientState := close_clear (close_semaphore (close_flag s)).

(** A future dropped before it returned. *)
Definition client_call_drop (k : N) (s : ClientState) : ClientState :=
  match cl_calls s !! k with
  | Some c =>
      let s := set_calls (delete k (cl_calls s)) s in
      if holds_permit (ca_phase c) then set_free (cl_free s + 1) s else s
  | None => s
  end.

Inductive ClientAction :=
| CaStart (k : N) (request : BlobRequest)
| CaEvent (k : N) (e : CallEvent)
| CaDrop (k : N)
| CaDeliver (rid : N) (reply : BlobReply)
| CaCloseFlag
| CaCloseSemaphore
| CaCloseClear.

Definition client_step (a : ClientAction) (s : ClientState) : ClientState :=
  match a with
  | CaStart k request =>
      if bool_decide (is_Some (cl_calls s !! k)) then s
      else set_calls (<[k := {| ca_request := request; ca_phase := CpAcquiring |}]> (cl_calls s)) s
  | CaEvent k e => call_event k e s
  | CaDrop k => client_call_drop k s
  | CaDeliver rid reply => (client_deliver rid reply s).2
  | CaCloseFlag => close_flag s
  | CaCloseSemaphore => close_semaphore s
  | CaCloseClear => close_clear s
  end.

Definition client_run (acts : list ClientAction) (s : ClientState) : ClientState := foldl (fun s a => client_step a s) s acts.
