(* ===== verification/BlobClientProps.v ===== *)
(** * BlobClientProps: replies, permits and the end of a session

    Whatever the order of the accesses: a reply reaches the call whose request it answers and no
    other, permits are accounted for, and the end of a session fails the calls that wait.  Two
    promises of the comments are narrower than they read: the bound on requests in flight
    holds only while no call is abandoned, and a call can slip past the end of the session. *)

From S2P Require Import Prelude Collections RustStr Capabilities Placement Blob Task Queue BlobTransfer BlobStore BlobCache Staging BlobClient.
Local Open Scope N_scope.

Definition call_rid (p : BlobCallPhase) : option N :=
  match p with
  | CpNumbered rid | CpRegistered rid _ | CpWaiting rid _ => Some rid
  | CpDone rid _ => rid
  | _ => None
  end.
Definition empty_box (p : BlobCallPhase) (rid : N) : Prop := p = CpRegistered rid BoxEmpty \/ p = CpWaiting rid BoxEmpty.
(** The reply a call has, or has returned, for request [rid]. *)
Definition has_reply (p : BlobCallPhase) (rid : N) (reply : BlobReply) : Prop :=
  p = CpRegistered rid (BoxFilled reply) \/ p = CpWaiting rid (BoxFilled reply) \/ p = CpDone (Some rid) (Ok reply).
Definition permits_held (calls : gmap N BlobCall) : N := map_sum (fun c => if holds_permit (ca_phase c) then 1 else 0) calls.

(** What holds of one call; it depends on the shared tables only at the call's own id. *)
Record call_ok (acts : list ClientAction) (next : N) (pending : gmap N N) (outstanding : list (N * BlobRequest)) (k : N) (c : BlobCall) : Prop := {
  ck_fresh : forall rid, call_rid (ca_phase c) = Some rid -> rid < next;
  ck_pending : forall rid, empty_box (ca_phase c) rid -> pending !! rid = Some k;
  ck_sent : forall rid, ca_phase c = CpWaiting rid BoxEmpty -> (rid, ca_request c) ∈ outstanding;
  ck_unsent : forall rid, ca_phase c = CpNumbered rid \/ (exists box, ca_phase c = CpRegistered rid box) -> forall req, (rid, req) ∉ outstanding;
  ck_own : forall rid req, call_rid (ca_phase c) = Some rid -> (rid, req) ∈ outstanding -> req = ca_request c;
  ck_replies : forall rid reply, has_reply (ca_phase c) rid reply -> CaDeliver rid reply ∈ acts
}.

Record client_inv (acts : list ClientAction) (s : ClientState) : Prop := {
  cn_permits : cl_free s + permits_held (cl_calls s) = MAX_IN_FLIGHT_REQUESTS;
  cn_next : 1 <= cl_next_id s <= 1 + N.of_nat (length acts);
  cn_sent_fresh : forall rid req, (rid, req) ∈ cl_outstanding s -> rid < cl_next_id s;
  cn_distinct : forall k k' c c' rid, cl_calls s !! k = Some c -> cl_calls s !! k' = Some c' ->
    call_rid (ca_phase c) = Some rid -> call_rid (ca_phase c') = Some rid -> k = k';
  cn_calls : forall k c, cl_calls s !! k = Some c -> call_ok acts (cl_next_id s) (cl_pending s) (cl_outstanding s) k c
}.

Lemma client_new_inv : client_inv [] client_new.
Proof.
  split; cbn [client_new cl_free cl_calls cl_next_id cl_pending cl_outstanding]; try (intros *; rewrite lookup_empty; done).
  - unfold permits_held. by rewrite map_sum_empty.
  - cbn. lia.
  - by intros ? ? ?%elem_of_nil.
Qed.

(** Another call's step: the tables agree at this call's id. *)
Lemma call_ok_other acts a next next' pending pending' outstanding outstanding' k c :
  call_ok acts next pending outstanding k c -> next <= next' ->
  (forall rid, call_rid (ca_phase c) = Some rid -> pending' !! rid = pending !! rid /\ forall req, (rid, req) ∈ outstanding' <-> (rid, req) ∈ outstanding) ->
  call_ok (acts ++ [a]) next' pending' outstanding' k c.
Proof.
  intros [F P S U O R] Hn He. split.
  - intros rid Hr. specialize (F rid Hr). lia.
  - intros rid Hb. assert (Hr : call_rid (ca_phase c) = Some rid) by (by destruct Hb as [-> | ->]). rewrite (proj1 (He rid Hr)). auto.
  - intros rid Hb. apply He; [by rewrite Hb|auto].
  - intros rid Hb req. rewrite (proj2 (He rid ltac:(by destruct Hb as [-> | [? ->]])) req). auto.
  - intros rid req Hr Hin. apply He in Hin; [eauto|done].
  - intros rid reply Hr. apply elem_of_app. left. eauto.
Qed.

(** A call that waits for nothing is indifferent to what leaves the tables. *)
Lemma call_ok_quiet acts a next pending pending' outstanding outstanding' k c :
  call_ok acts next pending outstanding k c -> (forall rid, empty_box (ca_phase c) rid -> pending' !! rid = Some k /\ forall req, (rid, req) ∈ outstanding -> (rid, req) ∈ outstanding') ->
  (forall rid req, (rid, req) ∈ outstanding' -> (rid, req) ∈ outstanding) ->
  call_ok (acts ++ [a]) next pending' outstanding' k c.
Proof.
  intros [F P S U O R] He Hsub. split; [done| | | | |].
  - intros rid Hb. by apply He.
  - intros rid Hb. apply He; [by right|auto].
  - intros rid Hb req Hin%Hsub. by eapply U.
  - eauto.
  - intros rid reply Hr. apply elem_of_app. left. eauto.
Qed.

(** One call moves to phase [p]; the tables change at its id only. *)
Lemma move_inv acts a s k c p free b1 b2 next pending outstanding :
  client_inv acts s -> cl_calls s !! k = Some c ->
  free + (if holds_permit p then 1 else 0) = cl_free s + (if holds_permit (ca_phase c) then 1 else 0) ->
  cl_next_id s <= next <= cl_next_id s + 1 -> (forall rid req, (rid, req) ∈ outstanding -> rid < next) ->
  (call_rid p = None \/ call_rid p = call_rid (ca_phase c) \/ call_rid p = Some (cl_next_id s)) ->
  (forall rid, call_rid p <> Some rid -> call_rid (ca_phase c) <> Some rid -> pending !! rid = cl_pending s !! rid /\ forall req, (rid, req) ∈ outstanding <-> (rid, req) ∈ cl_outstanding s) ->
  call_ok (acts ++ [a]) next pending outstanding k {| ca_request := ca_request c; ca_phase := p |} ->
  client_inv (acts ++ [a]) {| cl_free := free; cl_sem_closed := b1; cl_closed := b2; cl_next_id := next; cl_pending := pending;
    cl_calls := <[k := {| ca_request := ca_request c; ca_phase := p |}]> (cl_calls s); cl_outstanding := outstanding |}.
Proof.
  intros [Hper Hnext Hsf Hdis Hcalls] Hk Hfree Hn Hof Hrid Henv Hok.
  assert (Hdiff : forall k' c' rid, k' <> k -> cl_calls s !! k' = Some c' -> call_rid (ca_phase c') = Some rid -> call_rid p <> Some rid /\ call_rid (ca_phase c) <> Some rid).
  { intros k' c' rid Hne Hk' Hr. assert (Hold : call_rid (ca_phase c) <> Some rid) by (intros Hc; apply Hne; by apply (Hdis k' k c' c rid)). split; [|done].
    destruct Hrid as [->|[->| ->]]; [done|done|]. intros [= <-]. pose proof (ck_fresh _ _ _ _ _ _ (Hcalls k' c' Hk') _ Hr). lia. }
  split; cbn [cl_free cl_calls cl_next_id cl_outstanding cl_pending].
  - unfold permits_held in *. pose proof (map_sum_insert_Some (fun c => if holds_permit (ca_phase c) then 1 else 0) (cl_calls s) k c {| ca_request := ca_request c; ca_phase := p |} Hk) as Hs.
    cbn [ca_phase] in Hs. lia.
  - rewrite length_app. cbn. lia.
  - done.
  - intros k1 k2 c1 c2 rid. rewrite !lookup_insert_Some. intros [[<- <-]|[N1 H1]] [[<- <-]|[N2 H2]] R1 R2; [done| | |by eauto].
    + by destruct (Hdiff k2 c2 rid) as [? _].
    + by destruct (Hdiff k1 c1 rid) as [? _].
  - intros k' c'. rewrite lookup_insert_Some. intros [[<- <-]|[Hne Hk']]; [done|]. apply (call_ok_other acts a (cl_next_id s) next (cl_pending s) pending (cl_outstanding s)); [auto|lia|].
    intros rid Hr. apply Henv; by eapply Hdiff.
Qed.

(** The calls stay; something leaves the tables. *)
Lemma same_calls_inv acts a s s' : client_inv acts s -> cl_free s' = cl_free s -> cl_next_id s' = cl_next_id s -> cl_calls s' = cl_calls s ->
  (forall rid req, (rid, req) ∈ cl_outstanding s' -> (rid, req) ∈ cl_outstanding s) ->
  (forall k c rid, cl_calls s !! k = Some c -> empty_box (ca_phase c) rid -> cl_pending s' !! rid = Some k /\ forall req, (rid, req) ∈ cl_outstanding s -> (rid, req) ∈ cl_outstanding s') ->
  client_inv (acts ++ [a]) s'.
Proof.
  intros [Hper Hnext Hsf Hdis Hcalls] Hf Hn Hc Hsub He. split; rewrite ?Hf, ?Hn, ?Hc; [done| |eauto|done|].
  - rewrite length_app. cbn. lia.
  - intros k c Hk. eapply call_ok_quiet; [by apply Hcalls| |done]. intros rid Hb. by apply (He k c).
Qed.

(** ** The steps *)

(** The events of a call, each an instance of [move_inv]. *)
Lemma end_inv acts a s k c rid r pending : client_inv acts s -> cl_calls s !! k = Some c ->
  (rid = None \/ rid = call_rid (ca_phase c)) -> (forall rid', call_rid (ca_phase c) <> Some rid' -> pending !! rid' = cl_pending s !! rid') ->
  (forall rid' reply, rid = Some rid' -> r = Ok reply -> has_reply (ca_phase c) rid' reply) ->
  client_inv (acts ++ [a]) (call_end k c rid r (set_pending pending s)).
Proof.
  intros Hi Hk Hrid Hp Hr. pose proof (cn_calls _ _ Hi k c Hk) as [F P S U O R]. unfold call_end.
  assert (Hok : call_ok (acts ++ [a]) (cl_next_id s) pending (cl_outstanding s) k {| ca_request := ca_request c; ca_phase := CpDone rid r |}).
  { split; cbn [ca_phase ca_request call_rid].
    - intros rid' ->. destruct Hrid as [?|?]; [done|auto].
    - by intros rid' [?|?].
    - done.
    - by intros rid' [?|[? ?]].
    - intros rid' req ->. destruct Hrid as [?|?]; [done|]. eauto.
    - intros rid' reply [?|[?|[= -> ->]]]; [done|done|]. apply elem_of_app. left. eauto. }
  assert (Hrid' : call_rid (CpDone rid r) = None \/ call_rid (CpDone rid r) = call_rid (ca_phase c) \/ call_rid (CpDone rid r) = Some (cl_next_id s)) by (cbn; tauto).
  assert (Hsf := cn_sent_fresh _ _ Hi).
  destruct (holds_permit (ca_phase c)) eqn:Eh; cbn [set_pending phase_to set_calls set_free cl_free cl_calls]; (apply (move_inv acts a s k c); [done|done|rewrite Eh; cbn; lia|cbn; lia|done|done| |done]);
    (intros rid' _ Hne; split; [by apply Hp|done]).
Qed.

(** A call before it has an id. *)
Lemma call_ok_plain acts next pending outstanding k c : call_rid (ca_phase c) = None -> (forall r, ca_phase c <> CpDone None r) -> call_ok acts next pending outstanding k c.
Proof.
  destruct c as [req p]. cbn [ca_phase]. intros Hr Hd. split; cbn [ca_phase ca_request].
  - by rewrite Hr.
  - by intros rid [-> | ->].
  - by intros rid ->.
  - by intros rid [->|[box ->]].
  - by rewrite Hr.
  - by intros rid reply [-> |[-> | ->]].
Qed.

Lemma set_pending_same s : set_pending (cl_pending s) s = s.
Proof. by destruct s. Qed.

Lemma end_inv_same acts a s k c rid r : client_inv acts s -> cl_calls s !! k = Some c -> (rid = None \/ rid = call_rid (ca_phase c)) ->
  (forall rid' reply, rid = Some rid' -> r = Ok reply -> has_reply (ca_phase c) rid' reply) -> client_inv (acts ++ [a]) (call_end k c rid r s).
Proof. intros. rewrite <-(set_pending_same s) at 1. by apply end_inv. Qed.

Lemma same_inv acts a s : client_inv acts s -> client_inv (acts ++ [a]) s.
Proof. intros Hi. apply (same_calls_inv acts a s s); try done. intros k c rid Hk Hb. split; [|done]. by apply (ck_pending _ _ _ _ _ _ (cn_calls _ _ Hi k c Hk)). Qed.

Ltac fields := unfold phase_to, set_calls, set_pending, set_outstanding, set_free; cbn [cl_free cl_sem_closed cl_closed cl_next_id cl_pending cl_calls cl_outstanding].

Lemma event_inv acts a k e s : N.of_nat (length acts) + 2 < U64 -> client_inv acts s -> client_inv (acts ++ [a]) (call_event k e s).
Proof.
  intros Hlen Hi. unfold call_event. destruct (cl_calls s !! k) as [c|] eqn:Hk; [|by apply same_inv].
  pose proof (cn_calls _ _ Hi k c Hk) as [F P S U O R]. pose proof (cn_sent_fresh _ _ Hi) as Hsf. pose proof (cn_next _ _ Hi) as Hnx. pose proof (cn_permits _ _ Hi) as Hpm.
  destruct (ca_phase c) as [| | |rid|rid box|rid box|rid r] eqn:Ep; destruct e as [| | | |[]| |]; try by apply same_inv.
  - destruct (cl_sem_closed s); [apply end_inv_same; auto; by intros ? ? ?|]. destruct (N.eqb_spec (cl_free s) 0); [by apply same_inv|].
    fields; apply (move_inv acts a s k c); rewrite ?Ep; [done|done|cbn; lia|cbn; lia|done|by left|done|]. by apply call_ok_plain.
  - destruct (cl_closed s); [apply end_inv_same; auto; by intros ? ? ?|]. fields; apply (move_inv acts a s k c); rewrite ?Ep; [done|done|done|cbn; lia|done|by left|done|]. by apply call_ok_plain.
  - rewrite N.mod_small by lia. fields; apply (move_inv acts a s k c); rewrite ?Ep; [done|done|done|cbn; lia| |by right; right|done|].
    + intros rid req Hin%Hsf. cbn. lia.
    + split; cbn [ca_phase ca_request call_rid].
      * intros rid [= <-]. cbn. lia.
      * by intros rid [?|?].
      * done.
      * intros rid [[= <-]|[? ?]] req; [|done]. intros Hin%Hsf. cbn in Hin. lia.
      * intros rid req [= <-] Hin%Hsf. cbn in Hin. lia.
      * by intros rid reply [?|[?|?]].
  - fields; apply (move_inv acts a s k c); rewrite ?Ep; [done|done|done|cbn; lia|done|by right; left| |].
    + intros rid' Hne _. split; [|done]. rewrite lookup_insert_ne; [done|]. cbn in Hne. congruence.
    + split; cbn [ca_phase ca_request call_rid].
      * intros rid' [= <-]. by apply F.
      * intros rid' [[= <-]|?]; [apply lookup_insert_eq|done].
      * done.
      * intros rid' [?|[box [= <- <-]]] req; [done|]. apply U. by left.
      * intros rid' req [= <-] Hin. by destruct (U rid (or_introl eq_refl) req).
      * by intros rid' reply [[= ]|[?|?]].
  - assert (Hu : forall req, (rid, req) ∉ cl_outstanding s) by (apply U; right; eauto).
    fields; apply (move_inv acts a s k c); rewrite ?Ep; [done|done|done|cbn; lia| |by right; left| |].
    + intros rid' req [Hin|[= -> ->]%list_elem_of_singleton]%elem_of_app; [by apply Hsf in Hin|by apply F].
    + intros rid' Hne _. split; [done|]. intros req. rewrite elem_of_app, list_elem_of_singleton. cbn in Hne. split; [intros [?|[= -> ->]]; done|by left].
    + split; cbn [ca_phase ca_request call_rid].
      * intros rid' [= <-]. by apply F.
      * intros rid' [?|[= <- ->]]; [done|]. apply P. by left.
      * intros rid' [= <- ->]. apply elem_of_app. right. by apply list_elem_of_singleton.
      * by intros rid' [?|[? ?]].
      * intros rid' req [= <-] [Hin|[= ->]%list_elem_of_singleton]%elem_of_app; [by destruct (Hu req)|done].
      * intros rid' reply [?|[[= <- ->]|?]]; [done| |done]. apply elem_of_app. left. apply R. by left.
  - apply end_inv; [done|done|right; by rewrite Ep| |done]. rewrite Ep. intros rid' Hne. rewrite lookup_delete_ne; [done|]. cbn in Hne. congruence.
  - destruct box as [|reply|]; [by apply same_inv| |].
    + apply end_inv_same; [done|done|right; by rewrite Ep|]. intros rid' reply' [= <-] [= <-]. rewrite Ep. right. by left.
    + apply end_inv_same; [done|done|right; by rewrite Ep|done].
  - apply end_inv; [done|done|right; by rewrite Ep| |done]. rewrite Ep. intros rid' Hne. rewrite lookup_delete_ne; [done|]. cbn in Hne. congruence.
Qed.

Lemma settle_rid box rid c : call_rid (ca_phase (settle_box box rid c)) = call_rid (ca_phase c) /\ holds_permit (ca_phase (settle_box box rid c)) = holds_permit (ca_phase c)
  /\ ca_request (settle_box box rid c) = ca_request c.
Proof. unfold settle_box. destruct (ca_phase c) as [| | | |? []|? []|] eqn:E; rewrite ?E; try done; destruct (N.eqb_spec rid0 rid) as [->|]; rewrite ?E; done. Qed.

(** A settled call waits no longer, and has the reply it was given. *)
Lemma settle_ok acts a next pending pending' outstanding outstanding' k c box rid : call_ok acts next pending outstanding k c -> box <> BoxEmpty ->
  (forall reply, box = BoxFilled reply -> a = CaDeliver rid reply) ->
  (forall rid', empty_box (ca_phase c) rid' -> rid' <> rid -> pending' !! rid' = Some k /\ forall req, (rid', req) ∈ outstanding -> (rid', req) ∈ outstanding') ->
  (forall rid' req, (rid', req) ∈ outstanding' -> (rid', req) ∈ outstanding) ->
  call_ok (acts ++ [a]) next pending' outstanding' k (settle_box box rid c).
Proof.
  intros Hok Hbox Ha He Hsub. assert (Hq : (forall rid', empty_box (ca_phase c) rid' -> rid' <> rid) -> call_ok (acts ++ [a]) next pending' outstanding' k c).
  { intros Hne. eapply call_ok_quiet; [done| |done]. intros rid' Hb. apply He; auto. }
  pose proof Hok as [F P S U O R]. unfold settle_box. destruct (ca_phase c) as [| | | |rid' []|rid' []|] eqn:E; try (apply Hq; by intros ? [?|?]).
  - destruct (N.eqb_spec rid' rid) as [->|Hne]; [|apply Hq; by intros ? [[= <-]|?]]. split; cbn [ca_phase ca_request].
    + intros ? [= <-]. by apply F.
    + by intros ? [[= ? ?]|?].
    + done.
    + intros ? [?|[? [= <- <-]]] req Hin%Hsub; [done|]. exact (U rid (or_intror (ex_intro _ BoxEmpty eq_refl)) req Hin).
    + intros ? req [= <-] Hin%Hsub. by apply (O rid).
    + intros ? reply [[= <- Hb]|[?|?]]; [|done..]. apply elem_of_app. right. rewrite (Ha reply Hb). by apply list_elem_of_singleton.
  - destruct (N.eqb_spec rid' rid) as [->|Hne]; [|apply Hq; by intros ? [?|[= <-]]]. split; cbn [ca_phase ca_request].
    + intros ? [= <-]. by apply F.
    + by intros ? [?|[= ? ?]].
    + by intros ? [= <- ?].
    + by intros ? [?|[? ?]].
    + intros ? req [= <-] Hin%Hsub. by apply (O rid).
    + intros ? reply [?|[[= <- Hb]|?]]; [done| |done]. apply elem_of_app. right. rewrite (Ha reply Hb). by apply list_elem_of_singleton.
Qed.

Lemma elem_of_sent rid' rid req l : (rid', req) ∈ List.filter (fun x : N * BlobRequest => negb (x.1 =? rid)) l <-> (rid', req) ∈ l /\ rid' <> rid.
Proof. rewrite !list_elem_of_In, filter_In. cbn. destruct (N.eqb_spec rid' rid); cbn; naive_solver. Qed.

Lemma deliver_inv acts rid reply s : client_inv acts s -> client_inv (acts ++ [CaDeliver rid reply]) (client_deliver rid reply s).2.
Proof.
  intros Hi. pose proof Hi as [Hper Hnext Hsf Hdis Hcalls]. unfold client_deliver. cbn [set_outstanding cl_pending].
  assert (Hsub : forall rid' req, (rid', req) ∈ List.filter (fun x : N * BlobRequest => negb (x.1 =? rid)) (cl_outstanding s) -> (rid', req) ∈ cl_outstanding s) by (by intros ? ? [? _]%elem_of_sent).
  assert (Hkeep : forall k c rid', cl_calls s !! k = Some c -> empty_box (ca_phase c) rid' -> rid' <> rid ->
    delete rid (cl_pending s) !! rid' = Some k /\ forall req, (rid', req) ∈ cl_outstanding s -> (rid', req) ∈ List.filter (fun x : N * BlobRequest => negb (x.1 =? rid)) (cl_outstanding s)).
  { intros k c rid' Hk Hb Hne. rewrite lookup_delete_ne by done. split; [by apply (ck_pending _ _ _ _ _ _ (Hcalls k c Hk))|]. intros req ?. by apply elem_of_sent. }
  destruct (cl_pending s !! rid) as [k|] eqn:Ep.
  2: { apply (same_calls_inv acts _ s); try done. cbn. intros k c rid' Hk Hb. assert (Hne : rid' <> rid) by (intros ->; pose proof (ck_pending _ _ _ _ _ _ (Hcalls k c Hk) _ Hb); congruence).
       destruct (Hkeep k c rid' Hk Hb Hne) as [Hd ?]. split; [|done]. by rewrite lookup_delete_ne in Hd by done. }
  cbn [set_pending set_outstanding cl_calls]. destruct (cl_calls s !! k) as [c|] eqn:Ek.
  2: { apply (same_calls_inv acts _ s); try done. cbn. intros k' c' rid' Hk Hb. apply (Hkeep k' c' rid' Hk Hb). intros ->.
       pose proof (ck_pending _ _ _ _ _ _ (Hcalls k' c' Hk) _ Hb). congruence. }
  destruct (settle_rid (BoxFilled reply) rid c) as (Hr & Hh & Hq). split; cbn [snd set_calls cl_free cl_calls cl_next_id cl_outstanding cl_pending].
  - unfold permits_held in *. rewrite <-Hper. f_equal. pose proof (map_sum_insert_Some (fun c => if holds_permit (ca_phase c) then 1 else 0) (cl_calls s) k c (settle_box (BoxFilled reply) rid c) Ek) as Hs.
    cbn beta in Hs. rewrite Hh in Hs. lia.
  - rewrite length_app. cbn. lia.
  - intros ? ? ?%Hsub. eauto.
  - assert (Hsame : forall k' c', <[k := settle_box (BoxFilled reply) rid c]> (cl_calls s) !! k' = Some c' -> exists c0, cl_calls s !! k' = Some c0 /\ call_rid (ca_phase c') = call_rid (ca_phase c0)).
    { intros k' c' [[<- <-]|[? ?]]%lookup_insert_Some; [exists c; done|exists c'; done]. }
    intros k1 k2 c1 c2 rid' (d1 & ? & ->)%Hsame (d2 & ? & ->)%Hsame. eauto.
  - intros k' c' [[<- <-]|[Hne Hk']]%lookup_insert_Some.
    + apply (settle_ok acts _ _ (cl_pending s) _ (cl_outstanding s)); [auto|done|by intros ? [= ->]|eauto|done].
    + apply (call_ok_quiet acts _ _ (cl_pending s) _ (cl_outstanding s)); [auto| |done]. intros rid' Hb. apply (Hkeep k' c' rid' Hk' Hb). intros ->.
      pose proof (ck_pending _ _ _ _ _ _ (Hcalls k' c' Hk') _ Hb). congruence.
Qed.

Lemma clear_calls s k : cl_calls (close_clear s) !! k = cleared (cl_pending s) k <$> cl_calls s !! k.
Proof. unfold close_clear. cbn [set_pending set_calls cl_calls]. rewrite map_lookup_imap. by destruct (cl_calls s !! k). Qed.

Lemma permits_imap (f : N -> BlobCall -> BlobCall) calls : (forall k c, holds_permit (ca_phase (f k c)) = holds_permit (ca_phase c)) ->
  permits_held (map_imap (fun k c => Some (f k c)) calls) = permits_held calls.
Proof.
  intros Hf. unfold permits_held. induction calls as [|k c calls Hk IH] using map_ind; [done|]. erewrite map_imap_insert_Some by done.
  rewrite !map_sum_insert; [by rewrite Hf, IH|done|]. by rewrite map_lookup_imap, Hk.
Qed.

Lemma cleared_same pending k c : call_rid (ca_phase (cleared pending k c)) = call_rid (ca_phase c) /\ holds_permit (ca_phase (cleared pending k c)) = holds_permit (ca_phase c).
Proof. unfold cleared. destruct (ca_phase c) eqn:E; rewrite ?E; try done; destruct (bool_decide _); rewrite ?E; try done; by destruct (settle_rid BoxDropped rid c) as (-> & -> & _); rewrite E. Qed.

Lemma clear_inv acts s : client_inv acts s -> client_inv (acts ++ [CaCloseClear]) (close_clear s).
Proof.
  intros [Hper Hnext Hsf Hdis Hcalls]. split; [| |done| |].
  - rewrite <-Hper. f_equal. apply (permits_imap (cleared (cl_pending s))). intros k c. apply cleared_same.
  - rewrite length_app. cbn. lia.
  - intros k k' c c' rid. rewrite !clear_calls. intros (c0 & Hk & ->)%fmap_Some (c1 & Hk' & ->)%fmap_Some.
    rewrite (proj1 (cleared_same (cl_pending s) k c0)), (proj1 (cleared_same (cl_pending s) k' c1)). by apply Hdis.
  - intros k c. rewrite clear_calls. intros (c0 & Hk & ->)%fmap_Some. specialize (Hcalls k c0 Hk). cbn [close_clear set_pending set_calls cl_next_id cl_pending cl_outstanding].
    assert (Hset : forall rid, empty_box (ca_phase c0) rid -> call_ok (acts ++ [CaCloseClear]) (cl_next_id s) ∅ (cl_outstanding s) k (settle_box BoxDropped rid c0)).
    { intros rid Hb. eapply settle_ok; [exact Hcalls|done|done| |done]. intros rid' Hb' Hne. exfalso. destruct Hb as [Hb|Hb], Hb' as [Hb'|Hb']; rewrite Hb in Hb'; congruence. }
    assert (Hq : (forall rid, ~ empty_box (ca_phase c0) rid) -> call_ok (acts ++ [CaCloseClear]) (cl_next_id s) ∅ (cl_outstanding s) k c0).
    { intros Hn. eapply call_ok_quiet; [exact Hcalls| |done]. intros rid Hb. by destruct (Hn rid). }
    unfold cleared. destruct (ca_phase c0) as [| | | |rid box|rid box|] eqn:E; try (apply Hq; intros ? [?|?]; done).
    + destruct box; [rewrite bool_decide_true by (apply (ck_pending _ _ _ _ _ _ Hcalls); rewrite E; by left); apply Hset; by left| |];
        (replace (if bool_decide _ then _ else _) with c0 by (unfold settle_box; rewrite E; by destruct (bool_decide _))); apply Hq; intros ? [?|?]; done.
    + destruct box; [rewrite bool_decide_true by (apply (ck_pending _ _ _ _ _ _ Hcalls); rewrite E; by right); apply Hset; by right| |];
        (replace (if bool_decide _ then _ else _) with c0 by (unfold settle_box; rewrite E; by destruct (bool_decide _))); apply Hq; intros ? [?|?]; done.
Qed.

Lemma client_drop_inv acts k s : client_inv acts s -> client_inv (acts ++ [CaDrop k]) (client_call_drop k s).
Proof.
  intros Hi. unfold client_call_drop. destruct (cl_calls s !! k) as [c|] eqn:Hk; [|by apply same_inv]. pose proof Hi as [Hper Hnext Hsf Hdis Hcalls].
  assert (Hp : permits_held (cl_calls s) = (if holds_permit (ca_phase c) then 1 else 0) + permits_held (delete k (cl_calls s))) by (unfold permits_held; by rewrite (map_sum_delete _ _ k c)).
  assert (Hd : forall k' c', delete k (cl_calls s) !! k' = Some c' -> cl_calls s !! k' = Some c') by (by intros k' c' [_ ?]%lookup_delete_Some).
  assert (Hn : N.of_nat (length (acts ++ [CaDrop k])) = N.of_nat (length acts) + 1) by (rewrite length_app; cbn; lia).
  destruct (holds_permit (ca_phase c)); (split; cbn [set_calls set_free cl_free cl_calls cl_next_id cl_outstanding cl_pending]; [lia|lia|done|eauto|]);
    (intros k' c' Hk'%Hd; eapply call_ok_other; [by apply Hcalls|done|done]).
Qed.

Lemma start_inv acts k req s : client_inv acts s -> client_inv (acts ++ [CaStart k req]) (client_step (CaStart k req) s).
Proof.
  intros Hi. cbn [client_step]. case_bool_decide as Hk; [by apply same_inv|]. apply eq_None_not_Some in Hk. pose proof Hi as [Hper Hnext Hsf Hdis Hcalls].
  split; cbn [set_calls cl_free cl_calls cl_next_id cl_outstanding cl_pending].
  - rewrite <-Hper. f_equal. unfold permits_held. by rewrite map_sum_insert.
  - rewrite length_app. cbn. lia.
  - done.
  - intros k1 k2 c1 c2 rid. rewrite !lookup_insert_Some. intros [[<- <-]|[N1 H1]] [[<- <-]|[N2 H2]] R1 R2; try done. eauto.
  - intros k' c' [[<- <-]|[Hne Hk']]%lookup_insert_Some; [by apply call_ok_plain|]. eapply call_ok_other; [by apply Hcalls|done|done].
Qed.

Lemma step_inv acts a s : N.of_nat (length acts) + 2 < U64 -> client_inv acts s -> client_inv (acts ++ [a]) (client_step a s).
Proof.
  intros Hlen Hi. destruct a as [k req|k e|k|rid reply| | |]; cbn [client_step].
  - by apply start_inv.
  - by apply event_inv.
  - by apply client_drop_inv.
  - by apply deliver_inv.
  - apply (same_calls_inv acts _ s); try done. intros k c rid Hk Hb. split; [|done]. by apply (ck_pending _ _ _ _ _ _ (cn_calls _ _ Hi k c Hk)).
  - apply (same_calls_inv acts _ s); try done. intros k c rid Hk Hb. split; [|done]. by apply (ck_pending _ _ _ _ _ _ (cn_calls _ _ Hi k c Hk)).
  - by apply clear_inv.
Qed.

Lemma client_run_app acts a s : client_run (acts ++ [a]) s = client_step a (client_run acts s).
Proof. unfold client_run. by rewrite foldl_app. Qed.

Lemma client_run_inv acts : N.of_nat (length acts) + 2 < U64 -> client_inv acts (client_run acts client_new).
Proof.
  induction acts as [|a acts IH] using rev_ind; intros Hlen; [apply client_new_inv|]. rewrite length_app in Hlen. cbn [length] in Hlen. rewrite client_run_app. apply step_inv; [lia|]. apply IH. lia.
Qed.

(** ** Replies *)

(** C31 Replies are matched to requests, in every interleaving of calls, replies, time-outs, drops
    and the end of the session: ids are never shared; a call that returns a reply returns one
    that was delivered under its own id; a call that waits is registered under its id and
    the master has its request, and only its request, under that id; and permits in use and
    free permits add up. *)
Theorem replies_matched acts : N.of_nat (length acts) + 2 < U64 -> let s := client_run acts client_new in
  (forall k k' c c' rid, cl_calls s !! k = Some c -> cl_calls s !! k' = Some c' -> call_rid (ca_phase c) = Some rid -> call_rid (ca_phase c') = Some rid -> k = k')
  /\ (forall k c rid reply, cl_calls s !! k = Some c -> ca_phase c = CpDone (Some rid) (Ok reply) -> CaDeliver rid reply ∈ acts)
  /\ (forall k c rid, cl_calls s !! k = Some c -> ca_phase c = CpWaiting rid BoxEmpty ->
        cl_pending s !! rid = Some k /\ forall req, (rid, req) ∈ cl_outstanding s <-> req = ca_request c)
  /\ cl_free s + permits_held (cl_calls s) = MAX_IN_FLIGHT_REQUESTS.
Proof.
  intros Hlen. cbv zeta. destruct (client_run_inv acts Hlen) as [Hper _ _ Hdis Hcalls]. split; [exact Hdis|]. split; [|split; [|exact Hper]].
  - intros k c rid reply Hk Hp. apply (ck_replies _ _ _ _ _ _ (Hcalls k c Hk)). right. by right.
  - intros k c rid Hk Hp. pose proof (Hcalls k c Hk) as [_ P S _ O _]. split; [apply P; by right|]. intros req. split; [apply O; by rewrite Hp|]. intros ->. by apply S.
Qed.

(** A reply reaches the call that waits for it, whichever order led there: delivering it is
    reported as done, touches no other call, and the call's next step returns it. *)
Theorem reply_reaches_its_call acts k c rid reply : N.of_nat (length acts) + 2 < U64 -> let s := client_run acts client_new in
  cl_calls s !! k = Some c -> ca_phase c = CpWaiting rid BoxEmpty ->
  let s' := (client_deliver rid reply s).2 in
  (client_deliver rid reply s).1 = true
  /\ (exists c', cl_calls (call_event k CeReceive s') !! k = Some c' /\ ca_phase c' = CpDone (Some rid) (Ok reply))
  /\ (forall k', k' <> k -> cl_calls s' !! k' = cl_calls s !! k') /\ cl_pending s' !! rid = None.
Proof.
  intros Hlen s Hk Hp. pose proof (cn_calls _ _ (client_run_inv acts Hlen) k c Hk) as [_ P _ _ _ _]. assert (Hpe : cl_pending s !! rid = Some k) by (apply P; by right).
  unfold client_deliver. cbn [set_outstanding cl_pending]. rewrite Hpe. cbn [set_pending set_outstanding cl_calls]. rewrite Hk. cbn [fst snd set_calls cl_calls cl_pending].
  split; [unfold waits_for; rewrite Hp; apply N.eqb_refl|]. split; [|split; [|apply lookup_delete_eq]].
  - unfold call_event. cbn [set_calls cl_calls]. rewrite lookup_insert_eq. unfold settle_box. rewrite Hp, N.eqb_refl. cbn [ca_phase].
    unfold call_end. cbn [ca_phase holds_permit]. eexists. split; [apply lookup_insert_eq|done].
  - intros k' Hne. by rewrite lookup_insert_ne.
Qed.

(** ** The end of a session *)

(** [close] fails every call that waits for a reply, and every call that has not yet looked at
    the flag: none is left with an empty channel, and those still to come end with an error at
    their next step. *)
Theorem close_fails_waiting acts k c : N.of_nat (length acts) + 2 < U64 -> let s := client_close (client_run acts client_new) in
  cl_calls s !! k = Some c ->
  (forall rid, ~ empty_box (ca_phase c) rid)
  /\ (forall e, (e = CeAcquire /\ ca_phase c = CpAcquiring) \/ (e = CeCheckClosed /\ ca_phase c = CpPermitted) ->
        exists c', cl_calls (call_event k e s) !! k = Some c' /\ ca_phase c' = CpDone None (Err BeTransport))
  /\ cl_pending s = ∅.
Proof.
  intros Hlen s Hk. pose proof (client_run_inv acts Hlen) as Hi. set (s0 := client_run acts client_new) in *. split; [|split; [|done]].
  - pose proof Hk as Hk0. unfold s, client_close in Hk0. rewrite clear_calls in Hk0. apply fmap_Some in Hk0 as (c0 & Hc0 & ->).
    pose proof (cn_calls _ _ Hi k c0 Hc0) as [_ P _ _ _ _]. intros rid Hb. unfold cleared in Hb. cbn [close_semaphore close_flag cl_pending] in Hb.
    destruct (ca_phase c0) as [| | | |rid' box|rid' box|] eqn:E; rewrite ?E in Hb; try (destruct Hb as [?|?]; congruence).
    + destruct box; [rewrite bool_decide_true in Hb by (apply P; by left)|..]; [unfold settle_box in Hb; rewrite E, N.eqb_refl in Hb; by destruct Hb|..];
        (destruct (bool_decide _); [unfold settle_box in Hb; rewrite E in Hb|]; rewrite E in Hb; by destruct Hb as [?|?]).
    + destruct box; [rewrite bool_decide_true in Hb by (apply P; by right)|..]; [unfold settle_box in Hb; rewrite E, N.eqb_refl in Hb; by destruct Hb|..];
        (destruct (bool_decide _); [unfold settle_box in Hb; rewrite E in Hb|]; rewrite E in Hb; by destruct Hb as [?|?]).
  - intros e [[-> Hp]|[-> Hp]]; unfold call_event; rewrite Hk, Hp; unfold s, client_close; cbn [close_clear close_semaphore close_flag set_pending set_calls cl_sem_closed cl_closed];
      unfold call_end; rewrite Hp; cbn [holds_permit set_free cl_calls]; (eexists; split; [apply lookup_insert_eq|done]).
Qed.

(** The calls between their look at the flag and their registration slip through: one of them
    registers after the table was cleared, its request is still accepted by the queue, and
    it waits on a closed client. *)
Definition start_call (k : N) : list ClientAction := [CaStart k (ReqMissing []); CaEvent k CeAcquire; CaEvent k CeCheckClosed; CaEvent k CeNumber].
Definition finish_send (k : N) : list ClientAction := [CaEvent k CeRegister; CaEvent k (CeSend true)].
Theorem late_call_waits_on_closed : let s := client_run (start_call 0 ++ [CaCloseFlag; CaCloseSemaphore; CaCloseClear] ++ finish_send 0) client_new in
  cl_closed s = true /\ cl_pending s = {[1 := 0]} /\ ca_phase <$> cl_calls s !! 0 = Some (CpWaiting 1 BoxEmpty).
Proof. vm_compute. done. Qed.

(** ** Requests in flight *)

(** No call is abandoned (dropped, timed out, failed by the end of the session), and the master
    answers only what it was asked. *)
Definition attended (a : ClientAction) (s : ClientState) : Prop :=
  match a with
  | CaDeliver rid _ => exists req, (rid, req) ∈ cl_outstanding s
  | CaDrop _ | CaEvent _ CeTimeout | CaCloseClear => False
  | _ => True
  end.
Fixpoint attended_run (acts : list ClientAction) (s : ClientState) : Prop :=
  match acts with
  | [] => True
  | a :: acts => attended a s /\ attended_run acts (client_step a s)
  end.

Record waiting_inv (s : ClientState) : Prop := {
  wi_distinct : NoDup (map fst (cl_outstanding s));
  wi_waited : forall rid req, (rid, req) ∈ cl_outstanding s -> exists k c, cl_calls s !! k = Some c /\ ca_phase c = CpWaiting rid BoxEmpty;
  wi_unsent : forall k c rid box, cl_calls s !! k = Some c -> ca_phase c = CpRegistered rid box -> box = BoxEmpty
}.

Lemma outstanding_permits (l : list (N * BlobRequest)) calls : NoDup (map fst l) ->
  (forall rid req, (rid, req) ∈ l -> exists k c, calls !! k = Some c /\ ca_phase c = CpWaiting rid BoxEmpty) -> N.of_nat (length l) <= permits_held calls.
Proof.
  revert calls. induction l as [|[rid req] l IH]; intros calls Hnd Hw; [cbn; lia|]. cbn [map fst] in Hnd. apply NoDup_cons in Hnd as [Hni Hnd].
  destruct (Hw rid req) as (k & c & Hk & Hp); [by left|]. assert (Hd : permits_held calls = 1 + permits_held (delete k calls)).
  { unfold permits_held. rewrite (map_sum_delete _ _ k c) by done. by rewrite Hp. }
  specialize (IH (delete k calls) Hnd). cbn [length]. rewrite Hd. enough (N.of_nat (length l) <= permits_held (delete k calls)) by lia. apply IH.
  intros rid' req' Hin. destruct (Hw rid' req') as (k' & c' & Hk' & Hp'); [by right|]. exists k', c'. split; [|done]. rewrite lookup_delete_ne; [done|]. intros <-.
  assert (c' = c) as -> by congruence. assert (rid' = rid) as -> by congruence. apply Hni, list_elem_of_fmap. by exists (rid, req').
Qed.

(** A call moves that does not wait with an empty channel; nothing new is sent. *)
Lemma waiting_move s s' k c p : waiting_inv s -> cl_calls s !! k = Some c -> cl_calls s' = <[k := {| ca_request := ca_request c; ca_phase := p |}]> (cl_calls s) ->
  cl_outstanding s' = cl_outstanding s -> (forall rid, ca_phase c <> CpWaiting rid BoxEmpty) -> (forall rid box, p = CpRegistered rid box -> box = BoxEmpty) -> waiting_inv s'.
Proof.
  intros [D W U] Hk Hc Ho Hn Hp. split; rewrite ?Ho; [done| |].
  - intros rid req Hin. destruct (W rid req Hin) as (k' & c' & Hk' & Hw). exists k', c'. split; [|done]. rewrite Hc, lookup_insert_ne; [done|]. intros <-. assert (c' = c) as -> by congruence. by destruct (Hn rid).
  - intros k' c' rid box. rewrite Hc, lookup_insert_Some. intros [[<- <-]|[? ?]]; [apply Hp|eauto].
Qed.

Lemma call_end_calls k c rid r s : cl_calls (call_end k c rid r s) = <[k := {| ca_request := ca_request c; ca_phase := CpDone rid r |}]> (cl_calls s)
  /\ cl_outstanding (call_end k c rid r s) = cl_outstanding s.
Proof. unfold call_end. by destruct (holds_permit _). Qed.

Lemma waiting_event acts k e s : client_inv acts s -> waiting_inv s -> e <> CeTimeout -> waiting_inv (call_event k e s).
Proof.
  intros Hi Hw He. unfold call_event. destruct (cl_calls s !! k) as [c|] eqn:Hk; [|done].
  assert (Hend : forall rid r pending, (forall rid', ca_phase c <> CpWaiting rid' BoxEmpty) -> waiting_inv (call_end k c rid r (set_pending pending s))).
  { intros rid r pending Hn. destruct (call_end_calls k c rid r (set_pending pending s)) as [H1 H2]. by eapply (waiting_move s _ k c). }
  assert (Hend' : forall rid r, (forall rid', ca_phase c <> CpWaiting rid' BoxEmpty) -> waiting_inv (call_end k c rid r s)) by (intros rid r Hn; pose proof (Hend rid r (cl_pending s) Hn) as Hx; by rewrite set_pending_same in Hx).
  destruct (ca_phase c) as [| | |rid|rid box|rid box|rid r] eqn:Ep; destruct e as [| | | |[]| |]; try done.
  - destruct (cl_sem_closed s); [by apply Hend'|]. destruct (_ =? 0); [done|]. eapply (waiting_move s _ k c); [done|done|done|done|by rewrite Ep|done].
  - destruct (cl_closed s); [by apply Hend'|]. eapply (waiting_move s _ k c); [done|done|done|done|by rewrite Ep|done].
  - eapply (waiting_move s _ k c); [done|done|done|done|by rewrite Ep|done].
  - eapply (waiting_move s _ k c); [done|done|done|done|by rewrite Ep|by intros ? ? [= _ <-]].
  - destruct Hw as [D W U]. pose proof (U k c rid box Hk Ep) as ->. pose proof (ck_unsent _ _ _ _ _ _ (cn_calls _ _ Hi k c Hk) rid (or_intror (ex_intro _ _ Ep))) as Hns. fields. split; cbn [cl_outstanding cl_calls].
    + rewrite map_app. apply NoDup_app. split; [done|]. split; [|apply NoDup_singleton]. intros x ([r q] & Hx & Hin)%list_elem_of_fmap Hy%list_elem_of_singleton. cbn in Hx, Hy. subst. by apply (Hns q).
    + intros rid' req [Hin|[= -> ->]%list_elem_of_singleton]%elem_of_app; [|exists k; eexists; rewrite lookup_insert_eq; done].
      destruct (W rid' req Hin) as (k' & c' & Hk' & Hp'). exists k', c'. split; [|done]. rewrite lookup_insert_ne; [done|]. intros <-. congruence.
    + intros k' c' rid' box [[<- <-]|[? ?]]%lookup_insert_Some; [done|eauto].
  - by apply Hend.
  - destruct box; [done|by apply Hend'..].
Qed.

Lemma waiting_deliver acts rid reply s : client_inv acts s -> waiting_inv s -> (exists req, (rid, req) ∈ cl_outstanding s) -> waiting_inv (client_deliver rid reply s).2.
Proof.
  intros Hi [D W U] [req0 Hin0]. destruct (W rid req0 Hin0) as (k & c & Hk & Hp). pose proof (cn_calls _ _ Hi k c Hk) as [_ P _ _ _ _]. assert (Hpe : cl_pending s !! rid = Some k) by (apply P; by right).
  unfold client_deliver. cbn [set_outstanding cl_pending]. rewrite Hpe. cbn [set_pending set_outstanding cl_calls]. rewrite Hk. split; cbn [snd set_calls cl_outstanding cl_calls].
  - clear -D. induction (cl_outstanding s) as [|[r q] l IH]; [done|]. cbn [map fst] in D. apply NoDup_cons in D as [Hni D]. cbn [List.filter fst]. destruct (negb (r =? rid)); [|auto]. cbn [map fst].
    apply NoDup_cons. split; [|auto]. intros ([r' q'] & Hr & [Hx _]%elem_of_sent)%list_elem_of_fmap. apply Hni, list_elem_of_fmap. by exists (r', q').
  - intros rid' req [Hin Hne]%elem_of_sent. destruct (W rid' req Hin) as (k' & c' & Hk' & Hp'). exists k', c'. split; [|done]. rewrite lookup_insert_ne; [done|]. intros <-. congruence.
  - intros k' c' rid' box [[<- <-]|[? ?]]%lookup_insert_Some; [|eauto]. unfold settle_box. rewrite Hp, N.eqb_refl. done.
Qed.

Lemma waiting_step acts a s : client_inv acts s -> waiting_inv s -> attended a s -> waiting_inv (client_step a s).
Proof.
  intros Hi Hw Ha. destruct a as [k req|k e|k|rid reply| | |]; cbn [client_step attended] in *; try done.
  - case_bool_decide as Hk; [done|]. apply eq_None_not_Some in Hk. destruct Hw as [D W U]. split; cbn [set_calls cl_outstanding cl_calls]; [done| |].
    + intros rid q Hin. destruct (W rid q Hin) as (k' & c' & Hk' & Hp'). exists k', c'. split; [|done]. rewrite lookup_insert_ne; [done|]. intros <-. congruence.
    + intros k' c' rid' box [[<- <-]|[? ?]]%lookup_insert_Some; [done|eauto].
  - apply (waiting_event acts); [done|done|]. by intros ->.
  - by apply (waiting_deliver acts).
  - destruct Hw. by split.
  - destruct Hw. by split.
Qed.

(** While no call is abandoned and the master answers what it was asked, a session has at most
    [MAX_IN_FLIGHT_REQUESTS] unanswered requests, half of what the master's queue holds. *)
Theorem in_flight_bounded acts : N.of_nat (length acts) + 2 < U64 -> attended_run acts client_new ->
  N.of_nat (length (cl_outstanding (client_run acts client_new))) <= MAX_IN_FLIGHT_REQUESTS.
Proof.
  intros Hlen Hat. enough (Hboth : exists hist, client_inv hist (client_run acts client_new) /\ waiting_inv (client_run acts client_new)).
  { destruct Hboth as (hist & Hi & [D W _]). pose proof (outstanding_permits _ _ D W). pose proof (cn_permits _ _ Hi). lia. }
  assert (Hgen : forall acts hist s, N.of_nat (length hist) + N.of_nat (length acts) + 2 < U64 -> client_inv hist s -> waiting_inv s -> attended_run acts s ->
    exists hist', client_inv hist' (client_run acts s) /\ waiting_inv (client_run acts s)).
  { clear. induction acts as [|a acts IH]; intros hist s Hlen Hi Hw Ha; [eauto|]. destruct Ha as [Ha Hat]. cbn [length] in Hlen. apply (IH (hist ++ [a])); [rewrite length_app; cbn [length]; lia| | |done].
    - apply step_inv; [lia|done].
    - by eapply waiting_step. }
  apply (Hgen acts [] client_new); [cbn [length]; lia|apply client_new_inv| |done]. split; cbn; [constructor|by intros ? ? ?%elem_of_nil|]. intros *. by rewrite lookup_empty.
Qed.

(** A dropped call gives its permit back while the master still has its request, so a worker
    whose tasks are cancelled while they fetch can have more requests in flight than the
    bound, and more than the master's queue of twice the bound holds. *)
Definition abandon (n : nat) : list ClientAction := seq 0 n ≫= fun i => start_call (N.of_nat i) ++ finish_send (N.of_nat i) ++ [CaDrop (N.of_nat i)].
Theorem in_flight_exceeded : let s := client_run (abandon 40) client_new in
  (2 * MAX_IN_FLIGHT_REQUESTS <? N.of_nat (length (cl_outstanding s))) = true /\ cl_free s = MAX_IN_FLIGHT_REQUESTS.
Proof. vm_compute. done. Qed.

(** ** Witnesses *)

(** Two calls; the second one's reply comes first. *)
Definition sample_acts : list ClientAction := start_call 0 ++ start_call 1 ++ finish_send 1 ++ finish_send 0 ++ [CaDeliver 2 (RepMissing [[9]]); CaEvent 1 CeReceive].

Lemma replies_matched_witness : let s := client_run sample_acts client_new in
  ca_phase <$> cl_calls s !! 1 = Some (CpDone (Some 2) (Ok (RepMissing [[9]]))) /\ cl_pending s !! 1 = Some 0 /\ CaDeliver 2 (RepMissing [[9]]) ∈ sample_acts.
Proof.
  intros s. destruct (replies_matched sample_acts) as (_ & Hr & Hw & _); [vm_compute; reflexivity|]. split; [vm_compute; reflexivity|]. split.
  - refine (proj1 (Hw 0 {| ca_request := ReqMissing []; ca_phase := CpWaiting 1 BoxEmpty |} 1 _ _)); vm_compute; reflexivity.
  - refine (Hr 1 {| ca_request := ReqMissing []; ca_phase := CpDone (Some 2) (Ok (RepMissing [[9]])) |} 2 _ _ _); vm_compute; reflexivity.
Defined.

Lemma reply_reaches_its_call_witness : (client_deliver 1 (RepMissing []) (client_run sample_acts client_new)).1 = true.
Proof.
  refine (proj1 (reply_reaches_its_call sample_acts 0 {| ca_request := ReqMissing []; ca_phase := CpWaiting 1 BoxEmpty |} 1 (RepMissing []) _ _ _)); vm_compute; reflexivity.
Defined.

Lemma close_fails_waiting_witness : let s := client_close (client_run sample_acts client_new) in
  cl_pending s = ∅ /\ ca_phase <$> cl_calls s !! 0 = Some (CpWaiting 1 BoxDropped).
Proof.
  split; [|vm_compute; reflexivity].
  refine (proj2 (proj2 (close_fails_waiting sample_acts 0 {| ca_request := ReqMissing []; ca_phase := CpWaiting 1 BoxDropped |} _ _))); vm_compute; reflexivity.
Defined.

Lemma in_flight_bounded_witness : N.of_nat (length (cl_outstanding (client_run sample_acts client_new))) <= MAX_IN_FLIGHT_REQUESTS
  /\ cl_outstanding (client_run sample_acts client_new) = [(1, ReqMissing [])].
Proof.
  split; [|vm_compute; reflexivity]. apply (in_flight_bounded sample_acts); [vm_compute; reflexivity|].
  repeat (split; [first [exact I|exists (ReqMissing []); vm_compute; left]|]). exact I.
Defined.
