(* ===== verification/BlobFetch.v ===== *)
(** * BlobFetch: the inputs of a task come into the worker's cache

    Models [fetch_task_inputs] and what it calls in [crates/worker/src/blob_client.rs], and the
    upload of outputs, over any channel to the master.  The downloads that run at the same time
    are taken in some order, an argument.  Every use of the cache is a hold of its lock, and
    other tasks hold it in between.  Sizes are added up for a log line only, and left out. *)

From S2P Require Import Prelude Collections RustStr Capabilities Placement Blob BlobProps Task Queue BlobTransfer BlobStore BlobStoreProps BlobCache BlobCacheProps Staging BlobClient BlobRoundTrip.
Local Open Scope N_scope.

(** What happens around one blob: the answers of the file system, and what other tasks do to
    the cache before the blob is looked for and before it is stored. *)
Record FetchIo := {
  fi_create : bool;
  fi_sync : bool;
  fi_mkdir : bool;
  fi_rename : bool;
  fi_deleted : bool;
  fi_check : list CacheHold;
  fi_store : list CacheHold
}.

Inductive FetchError :=
| FeLocal
| FeTransfer (e : BlobError)
| FeCache (e : CacheError)
| FeNotConnected (missing : N)
| FeManifestRead (path : Str) (e : CacheError)
| FeManifest (path : Str) (e : ManifestError)
| FeStuck.

Section fetch.
Context `{BlobHash} `{ManifestCodec} {St : Type} (call : BlobRequest -> St -> result BlobError BlobReply * St).
Context (io : BlobId -> FetchIo) (order : list (BlobId * N) -> list (BlobId * N)).

(** [FeStuck] is running out of fuel, which does not happen: the size is known. *)
Definition fetch_one (id : BlobId) (size : N) (s : St) (c : BlobCache) : result FetchError N * St * BlobCache :=
  if negb (fi_create (io id)) then (Err FeLocal, s, c)
  else
    match download_blob call (S (N.to_nat size)) id (Some size) s with
    | None => (Err FeStuck, s, c)
    | Some (Err e, s) => (Err (FeTransfer e), s, c)
    | Some (Ok bytes, s) =>
        if negb (fi_sync (io id)) then (Err FeLocal, s, c)
        else
          match cache_adopt (fi_mkdir (io id)) (fi_rename (io id)) bytes id size None (cache_run (fi_store (io id)) c) with
          | (Ok _, c) => (Ok (blen bytes), s, c)
          | (Err e, c) => (Err (FeCache e), s, c)
          end
    end.

(** The blobs the cache lacks, each once. *)
Fixpoint not_cached (seen : list BlobId) (blobs : list (BlobId * N)) (c : BlobCache) : list (BlobId * N) * BlobCache :=
  match blobs with
  | [] => ([], c)
  | (id, size) :: blobs =>
      if bool_decide (id ∈ seen) then not_cached seen blobs c
      else
        let '(hit, c) := cache_contains id (cache_run (fi_check (io id)) c) in
        let '(missing, c) := not_cached (id :: seen) blobs c in
        (if hit then missing else (id, size) :: missing, c)
  end.

Fixpoint fetch_all (blobs : list (BlobId * N)) (s : St) (c : BlobCache) : result FetchError unit * St * BlobCache :=
  match blobs with
  | [] => (Ok tt, s, c)
  | (id, size) :: blobs =>
      match fetch_one id size s c with
      | (Ok _, s, c) => fetch_all blobs s c
      | (Err e, s, c) => (Err e, s, c)
      end
  end.

(** [connected] is whether there is a client. *)
Definition fetch_missing (connected : bool) (blobs : list (BlobId * N)) (s : St) (c : BlobCache) : result FetchError unit * St * BlobCache :=
  let '(missing, c) := not_cached [] blobs c in
  if is_empty missing then (Ok tt, s, c)
  else if negb connected then (Err (FeNotConnected (N.of_nat (length missing))), s, c)
  else fetch_all (order missing) s c.

Definition input_blob (i : TaskInput) : BlobId * N :=
  match ti_source i with InputFile id size _ => (id, size) | InputTree manifest size => (manifest, size) end.

(** The loop over the inputs that are directories. *)
Fixpoint fetch_trees (connected : bool) (g : N) (inputs : list TaskInput) (s : St) (c : BlobCache) : result FetchError unit * St * BlobCache :=
  match inputs with
  | [] => (Ok tt, s, c)
  | i :: inputs =>
      match ti_source i with
      | InputFile _ _ _ => fetch_trees connected g inputs s c
      | InputTree manifest _ =>
          match read_verified (fi_deleted (io manifest)) manifest MAX_MANIFEST_BYTES c with
          | (Err e, c) => (Err (FeManifestRead (ti_path i) e), s, c)
          | (Ok bytes, c) =>
              match manifest_decode bytes with
              | Err e => (Err (FeManifest (ti_path i) e), s, c)
              | Ok files =>
                  let c := pin_extend g (map bf_id files) c in
                  match fetch_missing connected (map (fun f => (bf_id f, bf_size f)) files) s c with
                  | (Ok _, s, c) => fetch_trees connected g inputs s c
                  | (Err e, s, c) => (Err e, s, c)
                  end
              end
          end
      end
  end.

(** The guard on success; a failure drops it. *)
Definition fetch_task_inputs (connected : bool) (inputs : list TaskInput) (s : St) (c : BlobCache) : result FetchError N * St * BlobCache :=
  let '(g, c) := cache_pin [] c in
  let top := map input_blob inputs in
  let c := pin_extend g (map fst top) c in
  match fetch_missing connected top s c with
  | (Err e, s, c) => (Err e, s, pin_drop g c)
  | (Ok _, s, c) =>
      match fetch_trees connected g inputs s c with
      | (Err e, s, c) => (Err e, s, pin_drop g c)
      | (Ok _, s, c) => (Ok g, s, c)
      end
  end.

(** ** Uploading outputs *)

(** [upload_one]: [object] is the content of the blob's file in the cache. *)
Definition upload_one (id : BlobId) (size : N) (object : option Bytes) (s : St) : result FetchError N * St :=
  match object with
  | None => (Err FeLocal, s)
  | Some data =>
      match upload_blob call id size data s with
      | Some (Ok n, s) => (Ok n, s)
      | Some (Err e, s) => (Err (FeTransfer e), s)
      | None => (Err FeStuck, s)
      end
  end.

Fixpoint upload_all (objects : BlobId -> option Bytes) (blobs : list (BlobId * N)) (s : St) : result FetchError unit * St :=
  match blobs with
  | [] => (Ok tt, s)
  | (id, size) :: blobs =>
      match upload_one id size (objects id) s with
      | (Ok _, s) => upload_all objects blobs s
      | (Err e, s) => (Err e, s)
      end
  end.

(** The distinct blobs of the outputs, in order of their first file. *)
Fixpoint output_blobs (seen : list BlobId) (files : list BlobFile) : list (BlobId * N) :=
  match files with
  | [] => []
  | f :: files => if bool_decide (bf_id f ∈ seen) then output_blobs seen files else (bf_id f, bf_size f) :: output_blobs (bf_id f :: seen) files
  end.

(** The transfer of [upload_task_outputs]: what the master lacks of the outputs. *)
Definition upload_outputs (objects : BlobId -> option Bytes) (files : list BlobFile) (s : St) : result FetchError unit * St :=
  let blobs := output_blobs [] files in
  match missing_blobs call (map fst blobs) s with
  | (Err e, s) => (Err (FeTransfer e), s)
  | (Ok missing, s) => upload_all objects (order (List.filter (fun b => bool_decide (b.1 ∈ missing)) blobs)) s
  end.

End fetch.
