(* ===== verification/BlobFetchProps.v ===== *)
(** * BlobFetchProps: a task runs with all its inputs pinned in the cache *)

From S2P Require Import Prelude Collections RustStr Capabilities Placement Blob BlobProps Task Queue BlobTransfer BlobStore BlobStoreProps BlobCache BlobCacheProps Staging StagingProps StagingInputs BlobClient BlobRoundTrip BlobFetch.
Local Open Scope N_scope.

(** ** Runs of lock holds *)

(** [c'] comes from [c] by holds that satisfy [P]. *)
Definition leads (P : CacheHold -> Prop) (c c' : BlobCache) : Prop := exists hs, c' = cache_run hs c /\ Forall P hs.

Lemma leads_refl P c : leads P c c.
Proof. by exists []. Qed.

Lemma leads_trans P c1 c2 c3 : leads P c1 c2 -> leads P c2 c3 -> leads P c1 c3.
Proof. intros (hs & -> & H1) (hs' & -> & H2). exists (hs ++ hs'). split; [unfold cache_run; by rewrite foldl_app|]. by apply Forall_app. Qed.

Lemma leads_one (P : CacheHold -> Prop) h c : P h -> leads P c (run_cache_hold h c).
Proof. intros. exists [h]. split; [done|]. by repeat constructor. Qed.

Lemma leads_run (P : CacheHold -> Prop) hs c : (forall h, h ∈ hs -> P h) -> leads P c (cache_run hs c).
Proof. intros Hp. exists hs. split; [done|]. by apply Forall_forall. Qed.

Lemma leads_inv P c c' : leads P c c' -> cache_inv c -> cache_inv c'.
Proof. intros (hs & -> & _). apply run_inv. Qed.

Lemma leads_holds P c c' g id : leads P c c' -> cache_inv c -> (forall h, P h -> keeps_guard g h) -> guard_holds c g id -> guard_holds c' g id.
Proof.
  intros (hs & -> & Hp) Hc Hk (ids & Hg & Hin). destruct (run_keeps_guard hs c g ids Hc Hg) as [more Hm]; [by eapply Forall_impl|].
  exists (ids ++ more). split; [done|]. apply elem_of_app. by left.
Qed.

Lemma leads_alive P c c' g : leads P c c' -> cache_inv c -> (forall h, P h -> keeps_guard g h) -> is_Some (bc_guards c !! g) -> is_Some (bc_guards c' !! g).
Proof. intros (hs & -> & Hp) Hc Hk [ids Hg]. destruct (run_keeps_guard hs c g ids Hc Hg) as [more Hm]; [by eapply Forall_impl|]. eauto. Qed.

Lemma leads_cached P c c' g id : leads P c c' -> cache_inv c -> guard_holds c g id -> (forall h, P h -> spares g id h) -> cached c id -> cached c' id.
Proof. intros (hs & -> & Hp) Hc Hg Hs Hca. apply (run_keeps_pinned hs c g id); [done|done|by eapply Forall_impl|done]. Qed.

#[local] Hint Resolve leads_refl : core.

Section fetched.
Context `{BlobHash} `{ManifestCodec} {St : Type} (call : BlobRequest -> St -> result BlobError BlobReply * St).
Context (io : BlobId -> FetchIo) (order : list (BlobId * N) -> list (BlobId * N)).
Context (order_same : forall l, order l ≡ₚ l).

(** What other tasks do meanwhile, and what fetching itself does. *)
Definition fetch_others (h : CacheHold) : Prop := exists id, h ∈ fi_check (io id) \/ h ∈ fi_store (io id).
Definition fetch_own (h : CacheHold) : Prop :=
  match h with ChTouch _ | ChExtend _ _ | ChAdopt _ _ _ _ _ None => True | _ => False end.
Definition fetch_hold (h : CacheHold) : Prop := fetch_others h \/ fetch_own h.

Lemma fetch_own_spares h g id : fetch_own h -> spares g id h.
Proof. by destruct h. Qed.

Lemma adopt_cached mkdir rename data id size c c' : cache_adopt mkdir rename data id size None c = (Ok tt, c') -> cached c' id.
Proof.
  unfold cache_adopt. destruct mkdir; [|done]. cbn [negb]. destruct (negb rename && _); [done|]. intros [= <-]. unfold cached. cbn [bc_inner with_cache]. apply cached_insert. by right.
Qed.

Lemma fetch_one_spec id size s c r s' c' : fetch_one call io id size s c = (r, s', c') ->
  r <> Err FeStuck /\ forall n, r = Ok n -> n = size /\ leads fetch_hold c c' /\ cached c' id.
Proof.
  unfold fetch_one. destruct (fi_create (io id)); [|by intros [= <- <- <-]]. cbn [negb].
  destruct (download_loop_ends call (S (N.to_nat size)) id size [] s) as [[rd s1] Ed]; [apply N.le_0_l|cbn; lia|]. unfold download_blob. rewrite Ed.
  destruct rd as [bytes|e]; [|by intros [= <- <- <-]]. apply download_loop_ok in Ed as [_ Hsz]. specialize (Hsz size eq_refl).
  destruct (fi_sync (io id)); [|by intros [= <- <- <-]]. cbn [negb].
  destruct (cache_adopt _ _ _ _ _ _ _) as [[[]|e] c1] eqn:Ea; intros [= <- <- <-]; [|done]. split; [done|]. intros n [= <-]. split; [done|]. split; [|by eapply adopt_cached].
  eapply leads_trans; [apply (leads_run fetch_hold (fi_store (io id))); intros h Hh; left; exists id; by right|].
  pose proof (leads_one fetch_hold (ChAdopt (fi_mkdir (io id)) (fi_rename (io id)) bytes id size None) (cache_run (fi_store (io id)) c)) as Hl. cbn [run_cache_hold] in Hl. rewrite Ea in Hl. apply Hl. by right.
Qed.

Lemma contains_leads id c : leads fetch_hold c (cache_contains id (cache_run (fi_check (io id)) c)).2.
Proof.
  eapply leads_trans; [apply (leads_run fetch_hold (fi_check (io id))); intros h Hh; left; exists id; by left|]. apply (leads_one fetch_hold (ChTouch id)). by right.
Qed.

Lemma contains_cached id c c' : cache_contains id c = (true, c') -> cached c' id.
Proof. unfold cache_contains, cache_touch. destruct (ci_entries (bc_inner c) !! id); [|done]. intros [= <-]. unfold cached. cbn. rewrite lookup_insert_eq. eauto. Qed.

Lemma not_cached_leads seen blobs c : leads fetch_hold c (not_cached io seen blobs c).2.
Proof.
  revert seen c. induction blobs as [|[id size] blobs IH]; intros seen c; cbn [not_cached]; [done|]. case_bool_decide; [apply IH|].
  pose proof (contains_leads id c) as Hl1. destruct (cache_contains id _) as [hit c1]. specialize (IH (id :: seen) c1). destruct (not_cached io (id :: seen) blobs c1) as [m c2]. cbn [snd] in *. by eapply leads_trans.
Qed.

(** The holds of a fetch keep guard [g], and spare blob [id] under it. *)
Section kept.
Context (g : N) (keeps : forall h, fetch_others h -> keeps_guard g h).

Lemma fetch_hold_keeps h : fetch_hold h -> keeps_guard g h.
Proof. intros [Ho|Ho]; [auto|]. by apply (spares_keeps_guard g []), fetch_own_spares. Qed.

(** No other task finds the blob corrupt or gone, or consumes this task's guard. *)
Definition undisturbed (id : BlobId) : Prop := forall h, fetch_others h -> spares g id h.
Lemma fetch_hold_spares id h : undisturbed id -> fetch_hold h -> spares g id h.
Proof. intros Hu [Ho|Ho]; [auto|by apply fetch_own_spares]. Qed.

Lemma fetch_keeps_cached id c c' : leads fetch_hold c c' -> cache_inv c -> guard_holds c g id -> undisturbed id -> cached c id -> cached c' id.
Proof. intros Hl Hc Hg Hu. apply (leads_cached fetch_hold c c' g); [done|done|done|]. intros h. by apply fetch_hold_spares. Qed.

Lemma not_cached_spec seen blobs c missing c' : cache_inv c -> not_cached io seen blobs c = (missing, c') ->
  forall id size, (id, size) ∈ blobs -> guard_holds c g id -> undisturbed id -> id ∈ seen \/ cached c' id \/ exists size', (id, size') ∈ missing.
Proof.
  revert seen c missing. induction blobs as [|[id size] blobs IH]; intros seen c missing Hc; cbn [not_cached]; [intros _ ? ? ?%elem_of_nil; done|].
  case_bool_decide as Hseen.
  - intros Hn id' size' [[= -> ->]|Hin]%elem_of_cons; [by left|]. by apply (IH _ _ _ Hc Hn id' size').
  - pose proof (contains_leads id c) as Hl. destruct (cache_contains id _) as [hit c1] eqn:Ec. cbn [snd] in Hl. pose proof (leads_inv _ _ _ Hl Hc) as Hc1.
    pose proof (not_cached_leads (id :: seen) blobs c1) as Hl2. destruct (not_cached io (id :: seen) blobs c1) as [m c2] eqn:En. intros [= <- <-] id' size' Hin Hg Hu. cbn [snd] in Hl2.
    pose proof (leads_holds fetch_hold c c1 g id' Hl Hc fetch_hold_keeps Hg) as Hg1.
    assert (Hmore : forall x, x ∈ m -> x ∈ (if hit then m else (id, size) :: m)) by (intros x ?; destruct hit; [done|by right]).
    assert (Hself : cached c2 id' \/ (exists size', (id', size') ∈ (if hit then m else (id, size) :: m)) \/ id' <> id).
    { destruct (decide (id' = id)) as [->|]; [|by auto]. destruct hit; [left|right; left; exists size; by left]. apply (fetch_keeps_cached id c1); [done|done|done|done|by eapply contains_cached]. }
    apply elem_of_cons in Hin as [Heq|Hin]; [injection Heq as -> ->; naive_solver|].
    destruct (IH _ _ _ Hc1 En id' size' Hin Hg1 Hu) as [[->|?]%elem_of_cons|[?|(z & ?)]]; [naive_solver|by left|by auto|]. right. right. exists z. auto.
Qed.

Lemma fetch_all_spec blobs s c r s' c' : cache_inv c -> fetch_all call io blobs s c = (r, s', c') ->
  r <> Err FeStuck /\ (r = Ok tt -> leads fetch_hold c c' /\ forall id size, (id, size) ∈ blobs -> guard_holds c g id -> undisturbed id -> cached c' id).
Proof.
  revert s c. induction blobs as [|[id size] blobs IH]; intros s c Hc; cbn [fetch_all].
  { intros [= <- <- <-]. split; [done|]. intros _. split; [done|]. by intros ? ? ?%elem_of_nil. }
  destruct (fetch_one call io id size s c) as [[r1 s1] c1] eqn:Ef. apply fetch_one_spec in Ef as [Hns Hok]. destruct r1 as [n|e]; [|intros [= <- <- <-]; split; [congruence|done]].
  destruct (Hok n eq_refl) as (_ & Hl & Hca). pose proof (leads_inv _ _ _ Hl Hc) as Hc1. intros Hf. destruct (IH _ _ Hc1 Hf) as [? Hrest]. split; [done|]. intros Hr. destruct (Hrest Hr) as [Hl2 Hall].
  split; [by eapply leads_trans|]. intros id' size' Hin Hg Hu. pose proof (leads_holds fetch_hold c c1 g id' Hl Hc fetch_hold_keeps Hg) as Hg1.
  apply elem_of_cons in Hin as [[= -> ->]|Hin]; [|by eapply Hall]. by apply (fetch_keeps_cached id c1).
Qed.

Lemma fetch_missing_spec connected blobs s c r s' c' : cache_inv c -> fetch_missing call io order connected blobs s c = (r, s', c') ->
  r <> Err FeStuck /\ (r = Ok tt -> leads fetch_hold c c' /\ forall id size, (id, size) ∈ blobs -> guard_holds c g id -> undisturbed id -> cached c' id).
Proof.
  intros Hc. unfold fetch_missing. pose proof (not_cached_leads [] blobs c) as Hl. destruct (not_cached io [] blobs c) as [missing c1] eqn:En. cbn [snd] in Hl.
  pose proof (leads_inv _ _ _ Hl Hc) as Hc1. pose proof (not_cached_spec _ _ _ _ _ Hc En) as Hn.
  destruct missing as [|m ms]; cbn [is_empty].
  { intros [= <- <- <-]. split; [done|]. intros _. split; [done|]. intros id size Hin Hg Hu. destruct (Hn id size Hin Hg Hu) as [?%elem_of_nil|[?|(z & ?%elem_of_nil)]]; done. }
  destruct connected; [|by intros [= <- <- <-]]. cbn [negb]. intros Hf. destruct (fetch_all_spec _ _ _ _ _ _ Hc1 Hf) as [? Hall]. split; [done|]. intros Hr. destruct (Hall Hr) as [Hl2 Hca].
  split; [by eapply leads_trans|]. intros id size Hin Hg Hu. destruct (Hn id size Hin Hg Hu) as [?%elem_of_nil|[Hx|(z & Hz)]]; [done| |].
  - apply (fetch_keeps_cached id c1); [done|done|by apply (leads_holds fetch_hold c c1 g id Hl Hc fetch_hold_keeps)|done|done].
  - apply (Hca id z); [by rewrite order_same|by apply (leads_holds fetch_hold c c1 g id Hl Hc fetch_hold_keeps)|done].
Qed.

Lemma read_verified_leads deleted id limit c bytes c' : read_verified deleted id limit c = (Ok bytes, c') -> leads fetch_hold c c' /\ blob_of bytes = id.
Proof.
  unfold read_verified. destruct (read_checked id limit c) as [data|e] eqn:E; [|by destruct e]. intros [= <- <-]. split; [apply (leads_one fetch_hold (ChTouch id)); by right|].
  by apply read_checked_ok in E as [? _].
Qed.

Lemma extend_holds ids c id : is_Some (bc_guards c !! g) -> id ∈ ids -> guard_holds (pin_extend g ids c) g id.
Proof. intros [held Hg] Hin. unfold pin_extend. rewrite Hg. exists (held ++ ids). cbn [bc_guards with_cache]. rewrite lookup_insert_eq, elem_of_app. auto. Qed.

(** [id] is held by the guard, and in the cache unless someone found it corrupt or gone. *)
Definition ready (c : BlobCache) (id : BlobId) : Prop := guard_holds c g id /\ (undisturbed id -> cached c id).

Lemma ready_leads c c' id : leads fetch_hold c c' -> cache_inv c -> ready c id -> ready c' id.
Proof. intros Hl Hc [Hg Hca]. split; [by apply (leads_holds fetch_hold c c' g id Hl Hc fetch_hold_keeps)|]. intros Hu. apply (fetch_keeps_cached id c); auto. Qed.

(** The files of a directory input, once fetched. *)
Definition tree_ready (c : BlobCache) (i : TaskInput) : Prop :=
  match ti_source i with
  | InputFile _ _ _ => True
  | InputTree manifest _ => exists bytes files, blob_of bytes = manifest /\ manifest_decode bytes = Ok files /\ forall f, f ∈ files -> ready c (bf_id f)
  end.

Lemma fetch_trees_spec connected inputs s c r s' c' : cache_inv c -> is_Some (bc_guards c !! g) -> fetch_trees call io order connected g inputs s c = (r, s', c') ->
  r <> Err FeStuck /\ (r = Ok tt -> leads fetch_hold c c' /\ forall i, i ∈ inputs -> tree_ready c' i).
Proof.
  revert s c. induction inputs as [|i inputs IH]; intros s c Hc Hg; cbn [fetch_trees].
  { intros [= <- <- <-]. split; [done|]. intros _. split; [done|]. by intros ? ?%elem_of_nil. }
  destruct (ti_source i) as [id size ex|manifest size] eqn:Ei.
  { intros Hf. destruct (IH _ _ Hc Hg Hf) as [? Hrest]. split; [done|]. intros Hr. destruct (Hrest Hr) as [? Hall]. split; [done|]. intros x [->|?]%elem_of_cons; [unfold tree_ready; by rewrite Ei|auto]. }
  destruct (read_verified _ manifest _ c) as [[bytes|e] c1] eqn:Er; [|by intros [= <- <- <-]]. apply read_verified_leads in Er as [Hl1 Hb]. pose proof (leads_inv _ _ _ Hl1 Hc) as Hc1.
  pose proof (leads_alive _ _ _ g Hl1 Hc fetch_hold_keeps Hg) as Hg1. destruct (manifest_decode bytes) as [files|e] eqn:Ed; [|by intros [= <- <- <-]].
  assert (Hl2 : leads fetch_hold c1 (pin_extend g (map bf_id files) c1)) by (apply (leads_one fetch_hold (ChExtend g (map bf_id files))); by right).
  set (c2 := pin_extend g (map bf_id files) c1) in *. pose proof (leads_inv _ _ _ Hl2 Hc1) as Hc2. pose proof (leads_alive _ _ _ g Hl2 Hc1 fetch_hold_keeps Hg1) as Hg2.
  destruct (fetch_missing call io order connected _ s c2) as [[r1 s1] c3] eqn:Ef. destruct (fetch_missing_spec _ _ _ _ _ _ _ Hc2 Ef) as [Hns Hok].
  destruct r1 as [[]|e]; [|intros [= <- <- <-]; split; [congruence|done]]. destruct (Hok eq_refl) as [Hl3 Hall]. pose proof (leads_inv _ _ _ Hl3 Hc2) as Hc3.
  pose proof (leads_alive _ _ _ g Hl3 Hc2 fetch_hold_keeps Hg2) as Hg3. intros Hf. destruct (IH _ _ Hc3 Hg3 Hf) as [? Hrest]. split; [done|]. intros Hr. destruct (Hrest Hr) as [Hl4 Htree].
  split; [by repeat (eapply leads_trans; [eassumption|])|]. intros x [->|Hx]%elem_of_cons; [|auto]. unfold tree_ready. rewrite Ei. exists bytes, files. split; [done|]. split; [done|].
  intros f Hin. apply (ready_leads c3); [done|done|]. assert (Hh : guard_holds c2 g (bf_id f)) by (apply extend_holds; [done|]; apply list_elem_of_fmap; by exists f).
  split; [by apply (leads_holds fetch_hold c2 c3 g _ Hl3 Hc2 fetch_hold_keeps)|]. apply (Hall _ (bf_size f)); [|done]. apply list_elem_of_fmap. by exists f.
Qed.
End kept.

(** C29 A task starts with its inputs held: when [fetch_task_inputs] succeeds, whatever order
    the downloads finished in and whatever other tasks did to the cache meanwhile (except to
    consume this task's guard), the guard it returns holds the blob of every input and of every
    file its manifests list; and each of these blobs that no other task finds corrupt or gone
    ([undisturbed]) is in the cache.  When it fails, it holds nothing; and it always returns. *)
Theorem inputs_fetched connected inputs s c r s' c' : cache_inv c -> (forall h, fetch_others h -> keeps_guard (bc_next_guard c) h) ->
  fetch_task_inputs call io order connected inputs s c = (r, s', c') ->
  match r with
  | Ok g => (forall i, i ∈ inputs -> ready g c' (input_blob i).1 /\ tree_ready g c' i) /\ cache_inv c'
  | Err e => bc_guards c' !! bc_next_guard c = None /\ e <> FeStuck
  end.
Proof.
  intros Hc Hk. unfold fetch_task_inputs. destruct (cache_pin [] c) as [g c0] eqn:Ep. pose proof (run_hold_inv (ChPin []) c Hc) as Hc0. cbn [run_cache_hold] in Hc0. rewrite Ep in Hc0. cbn [snd] in Hc0.
  assert (g = bc_next_guard c) as -> by (unfold cache_pin in Ep; by injection Ep). set (g := bc_next_guard c) in *.
  assert (Hg0 : is_Some (bc_guards c0 !! g)) by (unfold cache_pin in Ep; injection Ep as <-; unfold pin_extend; cbn [bc_guards new_guard]; rewrite lookup_insert_eq; cbn [bc_guards with_cache]; rewrite lookup_insert_eq; eauto).
  set (c1 := pin_extend g (map fst (map input_blob inputs)) c0). assert (Hl1 : leads fetch_hold c0 c1) by (apply (leads_one fetch_hold (ChExtend g (map fst (map input_blob inputs)))); by right).
  pose proof (leads_inv _ _ _ Hl1 Hc0) as Hc1. pose proof (leads_alive _ _ _ g Hl1 Hc0 (fetch_hold_keeps g Hk) Hg0) as Hg1.
  assert (Hgone : forall c, bc_guards (pin_drop g c) !! g = None).
  { intros x. unfold pin_drop. destruct (bc_guards x !! g) eqn:E; [cbn [bc_guards with_cache]; apply lookup_delete_eq|done]. }
  destruct (fetch_missing call io order connected _ s c1) as [[r1 s1] c2] eqn:Ef. destruct (fetch_missing_spec g Hk _ _ _ _ _ _ _ Hc1 Ef) as [Hns Hok].
  destruct r1 as [[]|e]; [|intros [= <- <- <-]; split; [apply Hgone|congruence]]. destruct (Hok eq_refl) as [Hl2 Hall]. pose proof (leads_inv _ _ _ Hl2 Hc1) as Hc2.
  pose proof (leads_alive _ _ _ g Hl2 Hc1 (fetch_hold_keeps g Hk) Hg1) as Hg2.
  destruct (fetch_trees call io order connected g inputs s1 c2) as [[r2 s2] c3] eqn:Et. destruct (fetch_trees_spec g Hk _ _ _ _ _ _ _ Hc2 Hg2 Et) as [Hns2 Hok2].
  destruct r2 as [[]|e]; [|intros [= <- <- <-]; split; [apply Hgone|congruence]]. destruct (Hok2 eq_refl) as [Hl3 Htree]. intros [= <- <- <-]. split; [|by eapply leads_inv].
  intros i Hi. split; [|auto]. apply (ready_leads g Hk c2); [done|done|]. assert (Hin : input_blob i ∈ map input_blob inputs) by (apply list_elem_of_fmap; by exists i).
  assert (Hh : guard_holds c1 g (input_blob i).1) by (apply extend_holds; [done|]; apply list_elem_of_fmap; by exists (input_blob i)).
  split; [by apply (leads_holds fetch_hold c1 c2 g _ Hl2 Hc1 (fetch_hold_keeps g Hk))|]. intros Hu. apply (Hall _ (input_blob i).2); [by rewrite <-surjective_pairing|done|done].
Qed.
End fetched.

(** ** Witness *)

(** A master that has every blob (in the instance where a blob's id is its content), an empty
    cache, downloads that finish in the reverse order. *)
Definition full_master (req : BlobRequest) (s : unit) : result BlobError BlobReply * unit :=
  match req with
  | ReqRead id offset _ => (Ok (RepChunk id offset (blen id) (drop (N.to_nat offset) id)), s)
  | _ => (Err BeTransport, s)
  end.
Definition sample_fetch_io (id : BlobId) : FetchIo :=
  {| fi_create := true; fi_sync := true; fi_mkdir := true; fi_rename := true; fi_deleted := true; fi_check := [ChEvict true]; fi_store := [ChPin [[1]]; ChEvict false] |}.

Lemma sample_fetch_spares g id h : fetch_others sample_fetch_io h -> spares g id h.
Proof.
  intros (x & [Hh|Hh]).
  - apply list_elem_of_singleton in Hh as ->. exact I.
  - apply elem_of_cons in Hh as [->|Hh]; [exact I|]. apply list_elem_of_singleton in Hh as ->. exact I.
Qed.

Lemma rev_same (l : list (BlobId * N)) : rev l ≡ₚ l.
Proof. apply Permutation_sym, Permutation_rev. Qed.
Definition sample_fetch : result FetchError N * unit * BlobCache :=
  fetch_task_inputs (H := plain_hash) (H0 := ToyCodec.codec) full_master sample_fetch_io (@rev _) true sample_inputs tt (cache_open 1000 []).

Lemma inputs_fetched_witness : sample_fetch.1.1 = Ok 0 /\ cached sample_fetch.2 [7; 7].
Proof.
  assert (Hr : sample_fetch.1.1 = Ok 0) by (vm_compute; reflexivity). split; [exact Hr|].
  pose proof (inputs_fetched (H := plain_hash) (H0 := ToyCodec.codec) full_master sample_fetch_io (@rev _) rev_same true sample_inputs tt (cache_open 1000 [])
    sample_fetch.1.1 sample_fetch.1.2 sample_fetch.2 (open_cache_inv 1000 []) (fun h Hh => spares_keeps_guard _ [] h (sample_fetch_spares _ [] h Hh))) as Hall.
  rewrite Hr in Hall. destruct Hall as [Hall _]; [exact (eq_trans (surjective_pairing sample_fetch) (f_equal2 pair (eq_trans (surjective_pairing sample_fetch.1) (f_equal2 pair Hr eq_refl)) eq_refl))|].
  exact (proj2 (proj1 (Hall {| ti_path := str "f"; ti_source := InputFile [7; 7] 2 false |} (list_elem_of_here _ _))) (sample_fetch_spares 0 _)).
Defined.
