(* ===== verification/Process.v ===== *)
(** * Process: how a worker runs a task's process and reports how it ended

    Models the process side of [crates/worker/src/runner.rs]: the bounded capture of an output
    stream, the environment of the child, the verdict on how the run ended and the result it
    becomes.  What the operating system does (starting the process, what it writes, how it
    ends, whether its pipes close in time) is an argument; so are the texts of I/O errors and
    the printed form of identifiers.  The rules of Windows are left out.

    The capture of a stream does not depend on how the stream was cut into reads, keeps all of
    it up to the limit and both its ends beyond, in a form the master recognises.  Exit code 130
    means cancelled and nothing else.  The worker's secrets do not reach the child. *)

From S2P Require Import Prelude Collections RustStr Capabilities Placement Blob Task ClusterAuth WorkerTasks MapReduce.
Local Open Scope N_scope.

(** ** Exit codes *)

Definition EXIT_CODE_SUCCESS : Z := 0.
Definition EXIT_CODE_TIMEOUT : Z := 124.
Definition EXIT_CODE_INTERRUPTED : Z := 130 + 256.
Definition DEFAULT_MAX_OUTPUT_BYTES : N := 10 * 1024 * 1024.

(** ** Bounded capture of a stream *)

Definition TRUNCATION_NOTICE : Bytes := [10] ++ str "[rusty_grid: output truncated after exceeding size limit]" ++ [10].

Record StreamCapture := { sc_head : Bytes; sc_tail : Bytes; sc_truncated : bool }.
Definition capture_default : StreamCapture := {| sc_head := []; sc_tail := []; sc_truncated := false |}.

Definition capture_push (chunk : Bytes) (max_bytes : N) (c : StreamCapture) : StreamCapture :=
  if is_empty chunk then c
  else
    let head_cap := max_bytes / 2 in
    let tail_cap := max_bytes - head_cap in
    let head_room := head_cap - blen (sc_head c) in
    let to_head := N.min (blen chunk) head_room in
    let head := sc_head c ++ take (N.to_nat to_head) chunk in
    let rest := drop (N.to_nat to_head) chunk in
    if is_empty rest then {| sc_head := head; sc_tail := sc_tail c; sc_truncated := sc_truncated c |}
    else if tail_cap =? 0 then {| sc_head := head; sc_tail := sc_tail c; sc_truncated := true |}
    else if tail_cap <=? blen rest then
      {| sc_head := head; sc_tail := drop (N.to_nat (blen rest - tail_cap)) rest;
         sc_truncated := if tail_cap <? blen (sc_tail c) + blen rest then true else sc_truncated c |}
    else
      let overflow := blen (sc_tail c) + blen rest - tail_cap in
      if 0 <? overflow then {| sc_head := head; sc_tail := drop (N.to_nat overflow) (sc_tail c) ++ rest; sc_truncated := true |}
      else {| sc_head := head; sc_tail := sc_tail c ++ rest; sc_truncated := sc_truncated c |}.

Definition capture_finish (c : StreamCapture) : Bytes * bool :=
  (sc_head c ++ (if sc_truncated c then TRUNCATION_NOTICE else []) ++ sc_tail c, sc_truncated c).

(** What a read of the pipe answers: [RdData] at least one byte. *)
Inductive Read := RdData (chunk : Bytes) | RdEof | RdInterrupted | RdError.

Fixpoint read_into_capture (reads : list Read) (max_bytes : N) (c : StreamCapture) : StreamCapture :=
  match reads with
  | [] => c
  | RdEof :: _ => c
  | RdData chunk :: reads => read_into_capture reads max_bytes (capture_push chunk max_bytes c)
  | RdInterrupted :: reads => read_into_capture reads max_bytes c
  | RdError :: _ => c
  end.

Definition read_bounded_stream (reads : list Read) (max_bytes : N) : Bytes * bool :=
  capture_finish (read_into_capture reads max_bytes capture_default).

(** ** How a process ends *)

(** [ExitStatus]: [code()], [signal()] or neither. *)
Inductive ExitStatus := ExitedWith (code : Z) | KilledBy (signal : N) | NoExitStatus.

Definition exit_success (s : ExitStatus) : bool := match s with ExitedWith code => (code =? 0)%Z | _ => false end.

Definition signal_name (signal : N) : Str :=
  match signal with
  | 1 => str " (SIGHUP)" | 2 => str " (SIGINT)" | 3 => str " (SIGQUIT)" | 6 => str " (SIGABRT)" | 9 => str " (SIGKILL)"
  | 11 => str " (SIGSEGV)" | 13 => str " (SIGPIPE)" | 14 => str " (SIGALRM)" | 15 => str " (SIGTERM)"
  | _ => []
  end.

Definition because_cancelled : Str :=
  str "; reported as 386 because 130 means " ++ [34] ++ str "cancelled" ++ [34].

Definition describe_exit (s : ExitStatus) : Z * option Str :=
  match s with
  | ExitedWith code =>
      if (code =? 130)%Z then (EXIT_CODE_INTERRUPTED, Some (str "Process exited with status 130 (interrupted)" ++ because_cancelled))
      else (code, None)
  | KilledBy signal =>
      if signal =? 2 then (EXIT_CODE_INTERRUPTED, Some (str "Process terminated by signal 2 (SIGINT)" ++ because_cancelled))
      else ((128 + Z.of_N signal)%Z, Some (str "Process terminated by signal " ++ show_N signal ++ signal_name signal))
  | NoExitStatus => (EXIT_CODE_GENERAL_ERROR, Some (str "Process ended without an exit status"))
  end.

(** The cancel channel of a run: nothing sent yet, a reason sent, or its sender gone. *)
Inductive CancelChannel := ChWaiting | ChReason (reason : Str) | ChSenderGone.

(** What [cancellation] resolves to; [None] is never. *)
Definition resolved_cancellation (slot : option CancelChannel) : option Str :=
  match slot with Some (ChReason reason) => Some reason | _ => None end.

Inductive RunEnd := RunExited (status : result Str ExitStatus) | RunCancelled (reason : Str) | RunTimedOut.

(** The branches [tokio::select!] may take: one whose future has resolved. *)
Inductive may_end (exited : option (result Str ExitStatus)) (slot : option CancelChannel) (expired : bool) : RunEnd -> Prop :=
| end_exited status : exited = Some status -> may_end exited slot expired (RunExited status)
| end_cancelled reason : resolved_cancellation slot = Some reason -> may_end exited slot expired (RunCancelled reason)
| end_expired : expired = true -> may_end exited slot expired RunTimedOut.

(** ** The environment of the child *)

Definition ENV_MESH_TOKEN : Str := str "OXIDE_MESH_TOKEN".
Definition SECRET_ENV_VARS : list Str := [ENV_SECRET; ENV_SECRET_FILE; ENV_MESH_TOKEN].
Definition PATH : Str := str "PATH".

Definition effective_path (worker_env env : gmap Str Str) : Str :=
  match env !! PATH with Some p => p | None => default [] (worker_env !! PATH) end.

Definition framework_env (task_id worker_id sandbox_path : Str) : gmap Str Str :=
  <[str "RUSTY_GRID_SANDBOX_DIR" := sandbox_path]>
    (<[str "RUSTY_GRID_WORKER_ID" := worker_id]> (<[str "RUSTY_GRID_TASK_ID" := task_id]> ∅)).

(** The variables of the child: the worker's own without its secrets, the search path, the
    task's own and the framework's, each over the ones before.  Names and values are text (a
    search path that is not UTF-8 is left out), and names are compared as on Unix. *)
Definition child_env (worker_env env : gmap Str Str) (task_id worker_id sandbox_path : Str) : gmap Str Str :=
  let inherited := foldr delete worker_env SECRET_ENV_VARS in
  let with_path := <[PATH := effective_path worker_env env]> inherited in
  framework_env task_id worker_id sandbox_path ∪ (delete PATH env ∪ with_path).

(** ** A supervised run *)

(** What the operating system does with a process that was started. *)
Record Supervised := {
  su_ended : RunEnd;
  su_stdout : list Read;
  su_stderr : list Read;
  su_drained : bool;
  su_elapsed_ms : N
}.

Inductive Spawn := SpawnFailed (error : Str) (elapsed_ms : N) | SpawnOk (run : Supervised).

Definition timeout_message (timeout_secs : N) : Str := str "Task timed out after " ++ show_N timeout_secs ++ str "s".

Definition PIPES_HELD_NOTE : Str :=
  [10] ++ str "[rusty_grid: background processes kept the output pipes open after the task exited and were terminated]" ++ [10].

(** [execute_process_supervised], from the start of the process on. *)
Definition supervised_result (worker_id : Uuid) (tid : TaskId) (program : Str) (timeout_secs max_output_bytes : N) (spawn : Spawn) : TaskResult :=
  match spawn with
  | SpawnFailed e elapsed =>
      let at_ := str "'" ++ program ++ str "' (resolved: '" ++ program ++ str "'): " ++ e in
      result_failure worker_id tid EXIT_CODE_GENERAL_ERROR [] (utf8_encode (str "Failed to spawn process " ++ at_)) elapsed
        (Some (str "Process spawn error for " ++ at_))
  | SpawnOk run =>
      let stdout_bytes := fst (read_bounded_stream (su_stdout run) max_output_bytes) in
      let stderr_bytes := fst (read_bounded_stream (su_stderr run) max_output_bytes) in
      match su_ended run with
      | RunExited status_res =>
          let stderr_bytes := if su_drained run then stderr_bytes else append_note stderr_bytes PIPES_HELD_NOTE in
          match status_res with
          | Ok status =>
              if exit_success status then
                let res := result_success worker_id tid stdout_bytes (su_elapsed_ms run) false in
                {| res_worker_id := res_worker_id res; res_task_id := res_task_id res; res_exit_code := res_exit_code res;
                   res_stdout := res_stdout res; res_stderr := stderr_bytes; res_execution_time_ms := res_execution_time_ms res;
                   res_is_gpu_executed := res_is_gpu_executed res; res_device_name := res_device_name res; res_error := res_error res;
                   res_asset_bytes := res_asset_bytes res; res_artifacts := res_artifacts res; res_outputs := res_outputs res |}
              else
                let (code, error) := describe_exit status in
                result_failure worker_id tid code stdout_bytes stderr_bytes (su_elapsed_ms run) error
          | Err e =>
              result_failure worker_id tid EXIT_CODE_GENERAL_ERROR stdout_bytes stderr_bytes (su_elapsed_ms run)
                (Some (str "Process wait error: " ++ e))
          end
      | RunCancelled reason =>
          result_failure worker_id tid EXIT_CODE_CANCELLED stdout_bytes stderr_bytes (su_elapsed_ms run) (Some (str "Cancelled: " ++ reason))
      | RunTimedOut =>
          let msg := timeout_message timeout_secs in
          result_failure worker_id tid EXIT_CODE_TIMEOUT stdout_bytes (append_note stderr_bytes ([10] ++ msg)) (su_elapsed_ms run) (Some msg)
      end
  end.

(** ** Capture *)

(** What is kept of a stream: all of it up to [max_bytes], else its first half and its last
    half with a notice in between. *)
Definition captured (max_bytes : N) (s : Bytes) : Bytes * bool :=
  if blen s <=? max_bytes then (s, false)
  else (take (N.to_nat (max_bytes / 2)) s ++ TRUNCATION_NOTICE ++ drop (length s - N.to_nat (max_bytes - max_bytes / 2)) s, true).

(** The last [n] elements. *)
Definition last_n {A} (n : nat) (l : list A) : list A := drop (length l - n) l.

Lemma last_n_app {A} n (l k : list A) : last_n n (l ++ k) = last_n n (last_n n l ++ k).
Proof.
  unfold last_n. rewrite !length_app, length_drop. rewrite !drop_app, drop_drop, length_drop. f_equal; f_equal; lia.
Qed.

Lemma length_last_n {A} n (l : list A) : length (last_n n l) = Nat.min n (length l).
Proof. unfold last_n. rewrite length_drop. lia. Qed.

Lemma last_n_long {A} n (l k : list A) : (n <= length k)%nat -> last_n n (l ++ k) = last_n n k.
Proof. intros Hk. unfold last_n. rewrite length_app, drop_app_ge by lia. f_equal. lia. Qed.

Lemma last_n_short {A} n (l k : list A) : (length l <= n)%nat -> (length k <= n)%nat -> last_n n (l ++ k) = drop (length l + length k - n) l ++ k.
Proof. intros Hl Hk. unfold last_n. rewrite length_app, drop_app. f_equal. replace (length l + length k - n - length l)%nat with 0%nat by lia. done. Qed.

(** The capture after the bytes [s]. *)
Record holds (max_bytes : N) (s : Bytes) (c : StreamCapture) : Prop := {
  ho_head : sc_head c = take (N.to_nat (max_bytes / 2)) s;
  ho_tail : sc_tail c = last_n (N.to_nat (max_bytes - max_bytes / 2)) (drop (N.to_nat (max_bytes / 2)) s);
  ho_truncated : sc_truncated c = (max_bytes <? blen s)
}.

Lemma holds_default max_bytes : holds max_bytes [] capture_default.
Proof. split; cbn [capture_default sc_head sc_tail sc_truncated]; [by rewrite take_nil|unfold last_n; by rewrite !drop_nil|]. symmetry. apply N.ltb_ge. apply N.le_0_l. Qed.

Lemma half_le n : n / 2 <= n.
Proof. pose proof (N.Div0.div_le_upper_bound n 2 n). lia. Qed.

Lemma push_holds max_bytes s chunk c : holds max_bytes s c -> holds max_bytes (s ++ chunk) (capture_push chunk max_bytes c).
Proof.
  intros [Hh Ht Htr]. unfold capture_push. destruct chunk as [|x chunk']; [by rewrite app_nil_r; split|]. cbn [is_empty]. set (chunk := x :: chunk'). assert (Hchunk : (0 < length chunk)%nat) by (cbn; lia). clearbody chunk. clear x chunk'.
  pose proof (half_le max_bytes) as Hhalf. remember (max_bytes / 2) as hc eqn:Ehc. remember (max_bytes - hc) as tc eqn:Etc.
  assert (Hm : max_bytes = hc + tc) by lia.
  assert (Hroom : N.to_nat (N.min (blen chunk) (hc - blen (sc_head c))) = Nat.min (length chunk) (N.to_nat hc - length s)).
  { unfold blen. rewrite Hh, length_take. lia. }
  rewrite Hroom. set (k := Nat.min (length chunk) (N.to_nat hc - length s)) in *. assert (Hk : k = Nat.min (length chunk) (N.to_nat hc - length s)) by done.
  assert (Hhead : sc_head c ++ take k chunk = take (N.to_nat hc) (s ++ chunk)).
  { rewrite Hh, take_app. f_equal. unfold k. destruct (Nat.le_gt_cases (length chunk) (N.to_nat hc - length s)); [rewrite !take_ge by lia; done|f_equal; lia]. }
  assert (Hrest : drop (N.to_nat hc) (s ++ chunk) = drop (N.to_nat hc) s ++ drop k chunk).
  { rewrite drop_app. f_equal. unfold k. destruct (Nat.le_gt_cases (length chunk) (N.to_nat hc - length s)); [rewrite !drop_ge by lia; done|f_equal; lia]. }
  pose proof (length_drop chunk k) as Hlr. pose proof (length_drop s (N.to_nat hc)) as Hls.
  assert (Hkl : (0 < length (drop k chunk))%nat -> (N.to_nat hc <= length s + k)%nat) by lia.
  assert (Htrunc : forall b, (b = true <-> N.to_nat max_bytes < length (s ++ chunk))%nat -> b = (max_bytes <? blen (s ++ chunk))).
  { intros b Hb. unfold blen. destruct b, (N.ltb_spec max_bytes (N.of_nat (length (s ++ chunk)))); try done; [assert (true = true) as ?%Hb by done; lia|]. apply Hb. lia. }
  assert (Hold : sc_truncated c = true <-> (N.to_nat max_bytes < length s)%nat) by (rewrite Htr, N.ltb_lt; unfold blen; lia).
  assert (Hlt : length (sc_tail c) = Nat.min (N.to_nat tc) (length s - N.to_nat hc)) by (rewrite Ht, length_last_n; lia).
  rewrite length_app in Htrunc. set (rest := drop k chunk) in *. clearbody rest. rewrite Hhead.
  destruct rest as [|y rest']; cbn [is_empty].
  { split; cbn [sc_head sc_tail sc_truncated]; rewrite <- ?Ehc, <- ?Etc; [done|by rewrite Hrest, app_nil_r|]. apply Htrunc. rewrite Hold. change (length (@nil N)) with 0%nat in Hlr. lia. }
  set (rest := y :: rest') in *. assert (Hpos : (0 < length rest)%nat) by (unfold rest; cbn; lia). clearbody rest. unfold blen in *.
  destruct (N.eqb_spec tc 0) as [->|Htc].
  { split; cbn [sc_head sc_tail sc_truncated]; rewrite <- ?Ehc, <- ?Etc; [done| |apply Htrunc; lia]. unfold last_n. rewrite drop_ge by lia. destruct (sc_tail c); [done|]. cbn in Hlt. lia. }
  destruct (N.leb_spec tc (N.of_nat (length rest))) as [Hlong|Hlong].
  - split; cbn [sc_head sc_tail sc_truncated]; rewrite <- ?Ehc, <- ?Etc; [done| |].
    + rewrite Hrest, last_n_long by lia. unfold last_n. f_equal. lia.
    + apply Htrunc. destruct (N.ltb_spec tc (N.of_nat (length (sc_tail c)) + N.of_nat (length rest))); split; intros; try done; try lia. assert (N.to_nat max_bytes < length s)%nat by (by apply Hold). lia.
  - assert (Htail : last_n (N.to_nat tc) (drop (N.to_nat hc) (s ++ chunk)) = drop (length (sc_tail c) + length rest - N.to_nat tc) (sc_tail c) ++ rest).
    { rewrite Hrest, last_n_app, <-Ht. apply last_n_short; lia. }
    destruct (N.ltb_spec 0 (N.of_nat (length (sc_tail c)) + N.of_nat (length rest) - tc)); (split; cbn [sc_head sc_tail sc_truncated]; rewrite <- ?Ehc, <- ?Etc; [done| |]).
    + rewrite Htail. do 2 f_equal. lia.
    + apply Htrunc. split; [lia|done].
    + rewrite Htail. by replace (length (sc_tail c) + length rest - N.to_nat tc)%nat with 0%nat by lia.
    + apply Htrunc. rewrite Hold. lia.
Qed.

(** The bytes a reader got before the end of the stream. *)
Fixpoint bytes_read (reads : list Read) : Bytes :=
  match reads with
  | RdData chunk :: reads => chunk ++ bytes_read reads
  | RdInterrupted :: reads => bytes_read reads
  | _ => []
  end.

Lemma read_into_capture_holds reads max_bytes s c : holds max_bytes s c -> holds max_bytes (s ++ bytes_read reads) (read_into_capture reads max_bytes c).
Proof.
  revert s c. induction reads as [|[chunk| | |] reads IH]; intros s c Hc; cbn [read_into_capture bytes_read]; rewrite ?app_nil_r; try done.
  - rewrite app_assoc. by apply IH, push_holds.
  - by apply IH.
Qed.

Lemma finish_holds max_bytes s c : holds max_bytes s c -> capture_finish c = captured max_bytes s.
Proof.
  intros [Hh Ht Htr]. unfold capture_finish, captured. rewrite Hh, Ht, Htr. pose proof (half_le max_bytes). unfold blen. rewrite N.ltb_antisym.
  destruct (N.leb_spec (N.of_nat (length s)) max_bytes) as [Hs|Hs]; cbn [negb]; f_equal.
  - cbn [app]. rewrite <-(take_drop (N.to_nat (max_bytes / 2)) s) at 3. f_equal. unfold last_n. by replace (_ - _)%nat with 0%nat by (rewrite length_drop; lia).
  - do 2 f_equal. unfold last_n. rewrite length_drop, drop_drop. f_equal. revert H Hs. clear. generalize (max_bytes / 2). lia.
Qed.

Lemma read_bounded reads max_bytes : read_bounded_stream reads max_bytes = captured max_bytes (bytes_read reads).
Proof. apply finish_holds. apply (read_into_capture_holds reads max_bytes []), holds_default. Qed.

Lemma captured_length max_bytes s : max_bytes < blen s -> length (captured max_bytes s).1 = (N.to_nat max_bytes + length TRUNCATION_NOTICE)%nat.
Proof.
  intros Hs. unfold captured. rewrite (proj2 (N.leb_gt _ _) Hs). cbn [fst]. unfold blen in Hs. pose proof (half_le max_bytes) as H. rewrite !length_app, length_take, length_drop.
  revert H Hs. generalize (max_bytes / 2). lia.
Qed.

(** The output of a task: however the stream is cut into reads, interrupted ones
    included, what the worker keeps of it is all of it up to the limit, and beyond the limit
    its first half and its last half with the notice between. *)
Theorem capture_exact reads max_bytes : read_bounded_stream reads max_bytes = captured max_bytes (bytes_read reads).
Proof. apply read_bounded. Qed.

(** What is kept of a stream is never longer than the limit and the notice. *)
Theorem capture_bounded reads max_bytes : blen (read_bounded_stream reads max_bytes).1 <= max_bytes + blen TRUNCATION_NOTICE.
Proof.
  rewrite read_bounded. destruct (N.le_gt_cases (blen (bytes_read reads)) max_bytes) as [Hs|Hs]; [|unfold blen; rewrite captured_length by done; lia].
  unfold captured. rewrite (proj2 (N.leb_le _ _) Hs). cbn [fst]. lia.
Qed.

(** ** What the master makes of it *)

Lemma captured_seen max_bytes s r : max_bytes < blen s -> res_stdout r = (captured max_bytes s).1 -> stdout_was_truncated r = true.
Proof.
  intros Hs Hr. pose proof (captured_length max_bytes s Hs) as Hl. rewrite <-Hr in Hl. unfold stdout_was_truncated. destruct (has_marker _); [done|].
  change (length OUTPUT_TRUNCATED_MARKER + 2)%nat with (length TRUNCATION_NOTICE). rewrite Hl. rewrite (proj2 (Nat.leb_le _ _)) by lia.
  replace (N.to_nat max_bytes + length TRUNCATION_NOTICE - length TRUNCATION_NOTICE)%nat with (N.to_nat max_bytes) by lia.
  assert (Hm : drop (N.to_nat max_bytes / 2) (res_stdout r) = TRUNCATION_NOTICE ++ drop (length s - N.to_nat (max_bytes - max_bytes / 2)) s).
  { rewrite Hr. unfold captured. rewrite (proj2 (N.leb_gt _ _) Hs). cbn [fst]. change 2%nat with (N.to_nat 2). rewrite <-N2Nat.inj_div. apply drop_app_length'.
    rewrite length_take. pose proof (half_le max_bytes) as H. unfold blen in Hs. revert H Hs. generalize (max_bytes / 2). lia. }
  rewrite Hm, take_app_length, Nat.eqb_refl. by apply bool_decide_eq_true.
Qed.

Lemma supervised_stdout wid tid program secs max_bytes run :
  res_stdout (supervised_result wid tid program secs max_bytes (SpawnOk run)) = (captured max_bytes (bytes_read (su_stdout run))).1.
Proof.
  unfold supervised_result. rewrite !read_bounded. destruct (su_ended run) as [[status|e]| |]; try done. destruct (exit_success status); [done|]. by destruct (describe_exit status).
Qed.

(** From the worker's pipe to the master's verdict: when the master finds no truncation in
    the output of a process, the output it has is everything the process wrote that was read. *)
Theorem unmarked_output_whole wid tid program secs max_bytes run :
  stdout_was_truncated (supervised_result wid tid program secs max_bytes (SpawnOk run)) = false ->
  res_stdout (supervised_result wid tid program secs max_bytes (SpawnOk run)) = bytes_read (su_stdout run).
Proof.
  pose proof (supervised_stdout wid tid program secs max_bytes run) as Hs. intros Hf. destruct (N.le_gt_cases (blen (bytes_read (su_stdout run))) max_bytes) as [Hle|Hgt].
  - rewrite Hs. unfold captured. by rewrite (proj2 (N.leb_le _ _) Hle).
  - by rewrite (captured_seen max_bytes _ _ Hgt Hs) in Hf.
Qed.

(** ** Verdicts *)

Lemma describe_exit_not_cancelled s : (describe_exit s).1 <> EXIT_CODE_CANCELLED.
Proof. destruct s as [code|signal|]; cbn [describe_exit]; [destruct (Z.eqb_spec code 130)|destruct (N.eqb_spec signal 2)|]; cbn [fst]; unfold EXIT_CODE_CANCELLED, EXIT_CODE_INTERRUPTED, EXIT_CODE_GENERAL_ERROR; lia. Qed.

Lemma describe_exit_failed s : exit_success s = false -> (describe_exit s).1 <> 0%Z.
Proof. destruct s as [code|signal|]; cbn [describe_exit exit_success]; [destruct (Z.eqb_spec code 130), (Z.eqb_spec code 0)|destruct (N.eqb_spec signal 2)|]; cbn [fst]; unfold EXIT_CODE_INTERRUPTED, EXIT_CODE_GENERAL_ERROR; lia. Qed.

Lemma verdict_of wid tid program secs max_bytes run :
  (res_exit_code (supervised_result wid tid program secs max_bytes (SpawnOk run)) = EXIT_CODE_CANCELLED <-> exists reason, su_ended run = RunCancelled reason)
  /\ (is_success (supervised_result wid tid program secs max_bytes (SpawnOk run)) = true <-> su_ended run = RunExited (Ok (ExitedWith 0))).
Proof.
  unfold supervised_result. destruct (su_ended run) as [[status|e]|reason|] eqn:E; [|split; split; naive_solver..].
  pose proof (describe_exit_not_cancelled status) as Hn. pose proof (describe_exit_failed status) as Hz. destruct (exit_success status) eqn:Es.
  - destruct status as [code| |]; cbn in Es; try done. apply Z.eqb_eq in Es as ->. split; [split; [done|naive_solver]|done].
  - destruct (describe_exit status) as [code err] eqn:Ed. cbn [fst] in *. split; [cbn; naive_solver|]. split; [|intros [= ->]; done].
    unfold is_success. cbn. destruct (Z.eqb_spec code 0); [by destruct Hz|done].
Qed.

(** C23 The exit code the master reads as cancelled, 130, is reported for a run that was
    cancelled by a reason sent on its cancel channel, and for no other: not for a process
    that exits with 130 or dies of an interrupt, nor when the sender of the channel is
    gone.  A run is a success exactly when the process exited with 0. *)
Theorem verdict_exact wid tid program secs max_bytes run exited slot expired :
  may_end exited slot expired (su_ended run) ->
  (res_exit_code (supervised_result wid tid program secs max_bytes (SpawnOk run)) = EXIT_CODE_CANCELLED
     <-> exists reason, slot = Some (ChReason reason) /\ su_ended run = RunCancelled reason)
  /\ (is_success (supervised_result wid tid program secs max_bytes (SpawnOk run)) = true <-> su_ended run = RunExited (Ok (ExitedWith 0))).
Proof.
  intros Hend. destruct (verdict_of wid tid program secs max_bytes run) as [Hc Hs]. split; [|done]. rewrite Hc. split; [|naive_solver]. intros [reason E]. exists reason. split; [|done].
  rewrite E in Hend. inversion Hend as [|? Hx|]; subst. destruct slot as [[| |]|]; try done. by injection Hx as ->.
Qed.

(** ** The environment of the child *)

Lemma framework_lookup k tid wid dir : framework_env tid wid dir !! k =
  if decide (k = str "RUSTY_GRID_SANDBOX_DIR") then Some dir
  else if decide (k = str "RUSTY_GRID_WORKER_ID") then Some wid
  else if decide (k = str "RUSTY_GRID_TASK_ID") then Some tid else None.
Proof. unfold framework_env. repeat case_decide; subst; by simplify_map_eq. Qed.

Lemma inherited_lookup (worker_env : gmap Str Str) k : foldr delete worker_env SECRET_ENV_VARS !! k = if bool_decide (k ∈ SECRET_ENV_VARS) then None else worker_env !! k.
Proof.
  induction SECRET_ENV_VARS as [|x l IH]; cbn [foldr]; [by rewrite bool_decide_false by set_solver|].
  destruct (decide (k = x)) as [->|Hk]; [rewrite lookup_delete_eq, bool_decide_true by set_solver; done|]. rewrite lookup_delete_ne, IH by done.
  rewrite (bool_decide_ext (k ∈ x :: l) (k ∈ l)) by set_solver. done.
Qed.

(** What is at a name: the framework's, the search path, the task's own, then the worker's. *)
Lemma child_env_lookup worker_env env tid wid dir k :
  child_env worker_env env tid wid dir !! k =
  match framework_env tid wid dir !! k with
  | Some v => Some v
  | None =>
      if bool_decide (k = PATH) then Some (effective_path worker_env env)
      else match env !! k with
           | Some v => Some v
           | None => if bool_decide (k ∈ SECRET_ENV_VARS) then None else worker_env !! k
           end
  end.
Proof.
  unfold child_env. rewrite lookup_union. destruct (framework_env tid wid dir !! k) eqn:Ef; [by rewrite union_Some_l|]. rewrite left_id by apply _.
  rewrite lookup_union. destruct (decide (k = PATH)) as [->|Hk].
  - by rewrite bool_decide_true, lookup_delete_eq, lookup_insert_eq.
  - rewrite bool_decide_false, lookup_delete_ne, lookup_insert_ne, inherited_lookup by done. by destruct (env !! k); [rewrite union_Some_l|rewrite left_id by apply _].
Qed.

(** Environments that differ in nothing but the secrets give the same child environment. *)
Lemma child_env_public (worker_env worker_env' : gmap Str Str) env tid wid dir :
  (forall k, k ∉ SECRET_ENV_VARS -> worker_env' !! k = worker_env !! k) -> child_env worker_env' env tid wid dir = child_env worker_env env tid wid dir.
Proof.
  intros Hsame. apply map_eq. intros k. rewrite !child_env_lookup. destruct (framework_env _ _ _ !! k); [done|].
  replace (effective_path worker_env' env) with (effective_path worker_env env); [|unfold effective_path; by rewrite Hsame by (vm_compute; set_solver)].
  destruct (bool_decide (k = PATH)); [done|]. destruct (env !! k); [done|]. case_bool_decide; [done|]. by apply Hsame.
Qed.

(** ** Witnesses *)

(** A run that writes five bytes in two reads and exits with 130. *)
Definition sample_run (e : RunEnd) : Supervised :=
  {| su_ended := e; su_stdout := [RdData [1; 2; 3]; RdInterrupted; RdData [4; 5]; RdEof]; su_stderr := []; su_drained := true; su_elapsed_ms := 7 |}.

Lemma unmarked_output_whole_witness : res_stdout (supervised_result 1 2 [97] 60 5 (SpawnOk (sample_run (RunExited (Ok (ExitedWith 0)))))) = [1; 2; 3; 4; 5].
Proof. rewrite unmarked_output_whole; [vm_compute; reflexivity|vm_compute; reflexivity]. Defined.

Lemma verdict_exact_witness : res_exit_code (supervised_result 1 2 [97] 60 5 (SpawnOk (sample_run (RunCancelled [98])))) = EXIT_CODE_CANCELLED.
Proof. apply (verdict_exact 1 2 [97] 60 5 (sample_run (RunCancelled [98])) None (Some (ChReason [98])) false); [by constructor|by exists [98]]. Defined.

(** Seven bytes with room for four: the first two, the notice, the last two. *)
Example capture_sample : read_bounded_stream [RdData [1; 2; 3]; RdData [4; 5; 6; 7]] 4 = ([1; 2] ++ TRUNCATION_NOTICE ++ [6; 7], true).
Proof. vm_compute. reflexivity. Qed.
