(* ===== verification/BuiltinTest.v ===== *)
(** * BuiltinTest: the in-memory test workload and its checkpoints

    Models [execute_builtin_test] of [crates/worker/src/runner.rs]: the gates, the choice of the
    workload, the hash computation that can be resumed from a checkpoint, and the verdict.  A
    checkpoint too short for the binary form is read by serde_json, an argument, as is the
    report of the floating-point workload.

    However often a hash computation fails over to another worker, and whichever of its
    checkpoints the master kept, it arrives at the digest of a run without a checkpoint. *)

From stdpp Require Import relations.
From S2P Require Import Prelude Collections RustStr Capabilities Placement Blob Task Queue QueueOps Protocol WorkerTasks Process Samples ProtocolProps.
Local Open Scope N_scope.

(** ** Machine words *)

Definition wrapping_mul_u64 (a b : N) : N := (a * b) mod 2 ^ 64.
Definition rotate_left_u64 (x k : N) : N := N.lor (N.shiftl x k mod 2 ^ 64) (N.shiftr x (64 - k)).
Definition to_le_bytes_u64 (x : N) : Bytes := reverse (be_bytes 8 x).

(** ** The hash computation *)

Definition FNV_OFFSET : N := 14695981039346656037.
Definition FNV_PRIME : N := 1099511628211.

Section builtin.
(** The fields [iteration] and [state] of a JSON object, as [u64]; the report of the
    arithmetic workload after so many iterations. *)
Context (json_checkpoint : Bytes -> option (N * N)) (arithmetic_report : N -> Str).

Definition restore_checkpoint (checkpoint : option CheckpointData) : N * N :=
  match checkpoint with
  | None => (0, FNV_OFFSET)
  | Some cp =>
      let slice := cp_delta_state cp in
      if 16 <=? blen slice then (from_le_bytes (take 8 slice) mod 2 ^ 32, from_le_bytes (take 8 (drop 8 slice)))
      else match json_checkpoint slice with
           | Some (iter, st) => (iter mod 2 ^ 32, st)
           | None => (0, FNV_OFFSET)
           end
  end.

Definition seed_state (task_id : TaskId) (state : N) : N :=
  foldl (fun state b => wrapping_mul_u64 (N.lxor state b) FNV_PRIME) state (be_bytes 16 task_id).

Definition hash_step (i state : N) : N := rotate_left_u64 (wrapping_mul_u64 (N.lxor state i) FNV_PRIME) 13.

Definition emits_at (iters current_count : N) : bool :=
  let checkpoint_interval := if 2 <=? iters then iters / 2 else 1 in
  (current_count <? iters) && ((current_count mod checkpoint_interval =? 0) || ((100 <=? iters) && (current_count =? 50))).

Definition checkpoint_delta (current_count state : N) : Bytes := to_le_bytes_u64 current_count ++ to_le_bytes_u64 state.

(** The loop over [i..iters], [n] rounds from [i]: the state and the checkpoints sent, as
    sequence and delta. *)
Fixpoint hash_loop (emit : bool) (iters : N) (n : nat) (i sequence state : N) : N * list (N * Bytes) :=
  match n with
  | O => (state, [])
  | S n =>
      let state := hash_step i state in
      let current_count := i + 1 in
      if emit && emits_at iters current_count then
        let sequence := (sequence + 1) mod 2 ^ 64 in
        let (final, sent) := hash_loop emit iters n current_count sequence state in
        (final, (sequence, checkpoint_delta current_count state) :: sent)
      else hash_loop emit iters n current_count sequence state
  end.

Definition effective_iters (iterations : N) : N := if iterations =? 0 then 100000 else iterations.

(** Where the computation starts, what it arrives at and what it sends. *)
Definition hash_compute (task_id : TaskId) (iterations : N) (checkpoint : option CheckpointData) (emit : bool) : N * N * list (N * Bytes) :=
  let iters := effective_iters iterations in
  let (start_iter, restored) := restore_checkpoint checkpoint in
  let state := if start_iter =? 0 then seed_state task_id restored else restored in
  let sequence := match checkpoint with Some c => cp_sequence c | None => 0 end in
  let (final, sent) := hash_loop emit iters (N.to_nat (iters - start_iter)) start_iter sequence state in
  (start_iter, final, sent).

(** ** The workload *)

Definition sleeps (test_name : Str) (duration_ms : N) : bool :=
  bool_decide (test_name = str "sleep") || bool_decide (test_name = str "duration")
  || ((0 <? duration_ms) && negb (bool_decide (test_name = str "checkpoint")) && negb (bool_decide (test_name = str "checkpoint_iterative"))
      && negb (bool_decide (test_name = str "hash_compute"))).

Definition hash_report (iters start_iter state : N) : Str :=
  str "BuiltinTest hash_compute complete: " ++ show_N iters ++ str " iterations"
  ++ (if 0 <? start_iter then str " (resumed from " ++ show_N start_iter ++ str ")" else [])
  ++ str ", digest = " ++ hex_encode (be_bytes 8 state) ++ [10].

(** The output of the workload, and the checkpoints it sends when it runs to its end. *)
Definition builtin_output (task_id : TaskId) (test_name : Str) (iterations duration_ms : N) (checkpoint : option CheckpointData) (emit : bool)
    : Str * list (N * Bytes) :=
  if sleeps test_name duration_ms then (str "BuiltinTest sleep complete: " ++ show_N duration_ms ++ str " ms" ++ [10], [])
  else if bool_decide (test_name = str "arithmetic_stress") || bool_decide (test_name = str "arithmetic") then
    (arithmetic_report (effective_iters iterations), [])
  else
    let '(start_iter, state, sent) := hash_compute task_id iterations checkpoint emit in
    (hash_report (effective_iters iterations) start_iter state, sent).

(** The branch the [select!] at the end takes. *)
Inductive BuiltinEnd := BuiltinDone | BuiltinCancelled (reason : Str) | BuiltinTimedOut.

Definition execute_builtin_test (worker_id : Uuid) (capabilities : WorkerCapabilities) (task_id : TaskId) (test_name : Str)
    (iterations duration_ms : N) (should_fail require_gpu : bool) (checkpoint : option CheckpointData) (emit : bool) (timeout_secs elapsed_ms : N)
    (ended : BuiltinEnd) : TaskResult :=
  if require_gpu && negb (can_execute_gpu capabilities) then
    result_failure worker_id task_id EXIT_CODE_GENERAL_ERROR []
      (utf8_encode (str "Execution Error: BuiltinTest requires GPU, but worker has no GPU capability (Worker lacks GPU capability).")) 0
      (Some (str "Worker lacks GPU capability"))
  else if should_fail || bool_decide (test_name = str "fail") then
    result_failure worker_id task_id EXIT_CODE_GENERAL_ERROR [] (utf8_encode (str "BuiltinTest: intentional failure requested")) elapsed_ms
      (Some (str "Intentional failure"))
  else
    match ended with
    | BuiltinDone =>
        result_success worker_id task_id (utf8_encode (fst (builtin_output task_id test_name iterations duration_ms checkpoint emit))) elapsed_ms require_gpu
    | BuiltinCancelled reason => result_failure worker_id task_id EXIT_CODE_CANCELLED [] [] elapsed_ms (Some (str "Cancelled: " ++ reason))
    | BuiltinTimedOut =>
        let msg := timeout_message timeout_secs in
        result_failure worker_id task_id EXIT_CODE_TIMEOUT [] (utf8_encode msg) elapsed_ms (Some msg)
    end.

End builtin.

(** ** Machine words *)

Definition is_u64 (x : N) : Prop := x < 2 ^ 64.

Lemma lxor_u64 x y : is_u64 x -> is_u64 y -> is_u64 (N.lxor x y).
Proof.
  unfold is_u64. intros Hx Hy. destruct (N.eq_dec (N.lxor x y) 0) as [->|H0]; [done|]. apply N.log2_lt_pow2; [lia|]. eapply N.le_lt_trans; [apply N.log2_lxor|].
  apply N.max_lub_lt; [destruct (N.eq_dec x 0) as [->|]|destruct (N.eq_dec y 0) as [->|]]; try done; apply N.log2_lt_pow2; lia.
Qed.

Lemma mul_u64 a b : is_u64 (wrapping_mul_u64 a b).
Proof. by apply N.mod_lt. Qed.

Lemma rotate_u64 x : is_u64 x -> is_u64 (rotate_left_u64 x 13).
Proof.
  intros Hx. unfold rotate_left_u64. assert (H1 : is_u64 (N.shiftl x 13 mod 2 ^ 64)) by (by apply N.mod_lt).
  assert (H2 : is_u64 (N.shiftr x (64 - 13))) by (unfold is_u64 in *; rewrite N.shiftr_div_pow2; eapply N.le_lt_trans; [apply N.Div0.div_le_upper_bound with (q := x)|exact Hx]; change (2 ^ (64 - 13)) with 2251799813685248; lia).
  revert H1 H2. generalize (N.shiftl x 13 mod 2 ^ 64), (N.shiftr x (64 - 13)). clear. unfold is_u64. intros a b Ha Hb.
  destruct (N.eq_dec (N.lor a b) 0) as [->|H0]; [done|]. apply N.log2_lt_pow2; [lia|]. rewrite N.log2_lor.
  apply N.max_lub_lt; [destruct (N.eq_dec a 0) as [->|]|destruct (N.eq_dec b 0) as [->|]]; try done; apply N.log2_lt_pow2; lia.
Qed.

Lemma hash_step_u64 i state : is_u64 (hash_step i state).
Proof. apply rotate_u64, mul_u64. Qed.

Lemma le_bytes_u64 x : is_u64 x -> from_le_bytes (to_le_bytes_u64 x) = x.
Proof. intros Hx. unfold from_le_bytes, to_le_bytes_u64. rewrite reverse_involutive. by apply from_be_bytes_be. Qed.

Lemma length_le_bytes x : length (to_le_bytes_u64 x) = 8%nat.
Proof. unfold to_le_bytes_u64. by rewrite length_reverse, length_be_bytes. Qed.

Section resume.
Context (json_checkpoint : Bytes -> option (N * N)).

(** A checkpoint reads back as what it holds. *)
Lemma restore_delta sequence ts count state : count < 2 ^ 32 -> is_u64 state ->
  restore_checkpoint json_checkpoint (Some {| cp_sequence := sequence; cp_delta_state := checkpoint_delta count state; cp_timestamp := ts |}) = (count, state).
Proof.
  intros Hc Hs. unfold restore_checkpoint, checkpoint_delta. cbn [cp_delta_state]. assert (Hl : blen (to_le_bytes_u64 count ++ to_le_bytes_u64 state) = 16) by (unfold blen; by rewrite length_app, !length_le_bytes).
  rewrite Hl. cbn [N.leb N.compare Pos.compare Pos.compare_cont]. rewrite take_app_length', drop_app_length' by (by rewrite length_le_bytes).
  rewrite (take_ge _ 8) by (by rewrite length_le_bytes). rewrite !le_bytes_u64 by (unfold is_u64 in *; lia). by rewrite N.mod_small.
Qed.

(** Where the loop is when it sends a checkpoint. *)
Lemma cons_inj {A} (x y : A) l k : x :: l = y :: k -> x = y /\ l = k.
Proof. by intros [= -> ->]. Qed.

Lemma hash_loop_sent emit iters n i sequence state final sent before s d after :
  i + N.of_nat n = iters -> hash_loop emit iters n i sequence state = (final, sent) -> sent = before ++ (s, d) :: after ->
  exists count st, d = checkpoint_delta count st /\ 0 < count <= iters /\ is_u64 st /\ emit = true
    /\ hash_loop emit iters (N.to_nat (iters - count)) count s st = (final, after).
Proof.
  revert i sequence state final sent before. induction n as [|n IH]; intros i sequence state final sent before Hn; cbn [hash_loop]; [intros [= <- <-] ?; by destruct before|].
  assert (Hn' : i + 1 + N.of_nat n = iters) by lia. destruct (emit && emits_at iters (i + 1)) eqn:He; [|by eauto].
  destruct (hash_loop _ _ n _ _ _) as [fin rest] eqn:El. intros [= <- <-] Hs. destruct before as [|b before]; cbn [app] in Hs.
  - apply cons_inj in Hs as [Hh <-]. apply pair_equal_spec in Hh as [<- <-]. exists (i + 1), (hash_step i state). apply andb_true_iff in He as [-> _]. split; [done|]. split; [lia|]. split; [apply hash_step_u64|]. split; [done|].
    by replace (N.to_nat (iters - (i + 1))) with n by lia.
  - apply cons_inj in Hs as [_ ->]. by eapply IH.
Qed.

Definition run_digest (tid : TaskId) (iterations : N) (cp : option CheckpointData) : N := (hash_compute json_checkpoint tid iterations cp true).1.2.
Definition run_sent (tid : TaskId) (iterations : N) (cp : option CheckpointData) : list (N * Bytes) := (hash_compute json_checkpoint tid iterations cp true).2.

Lemma resume_from_sent tid iterations cp before s d after ts : iterations <= u32_max -> run_sent tid iterations cp = before ++ (s, d) :: after ->
  let cp' := Some {| cp_sequence := s; cp_delta_state := d; cp_timestamp := ts |} in
  run_digest tid iterations cp' = run_digest tid iterations cp /\ run_sent tid iterations cp' = after.
Proof.
  intros Hi Hs. unfold run_sent, run_digest, hash_compute in *. set (iters := effective_iters iterations) in *.
  assert (Hit : iters <= u32_max) by (unfold iters, effective_iters; destruct (iterations =? 0); [by vm_compute|done]). clearbody iters.
  destruct (restore_checkpoint _ cp) as [start restored]. destruct (hash_loop _ _ _ _ _ _) as [final sent] eqn:El. cbn [fst snd] in *.
  destruct (N.le_gt_cases start iters) as [Hle|Hgt]; [|replace (N.to_nat (iters - start)) with 0%nat in El by lia; injection El as <- <-; by destruct before].
  assert (Hn : start + N.of_nat (N.to_nat (iters - start)) = iters) by lia.
  destruct (hash_loop_sent _ _ _ _ _ _ _ _ _ _ _ _ Hn El Hs) as (count & st & -> & [Hc0 Hc] & Hst & _ & Hl).
  assert (Hc32 : count < 2 ^ 32) by (unfold u32_max in Hit; change (2 ^ 32) with 4294967296 in *; lia). rewrite restore_delta by done. cbn [cp_sequence]. rewrite (proj2 (N.eqb_neq count 0)) by lia. by rewrite Hl.
Qed.

(** ** Failover *)

Definition received_as (ts : N) (m : N * Bytes) : CheckpointData := {| cp_sequence := m.1; cp_delta_state := m.2; cp_timestamp := ts |}.

(** The master's entry of the task after the checkpoint messages [received], in their order. *)
Definition after_checkpoints (received : list CheckpointData) (e : TaskEntry) : TaskEntry :=
  foldl (fun e cp => (apply_checkpoint e cp).2) e received.

Lemma latest_after received e : let latest := task_latest_checkpoint (te_task (after_checkpoints received e)) in
  latest = task_latest_checkpoint (te_task e) \/ exists cp, cp ∈ received /\ latest = Some cp.
Proof.
  cbn. revert e. induction received as [|cp received IH]; intros e; cbn [after_checkpoints foldl]; [by left|]. change (foldl _ ?x received) with (after_checkpoints received x).
  destruct (IH (apply_checkpoint e cp).2) as [Hl|(x & Hx & Hl)]; [|right; exists x; set_solver]. rewrite Hl. unfold apply_checkpoint. destruct (is_newer_checkpoint e cp); cbn; [|by left].
  right. exists cp. set_solver.
Qed.

(** One failover of the task of the entry [e]: its run, started from the latest checkpoint, was
    lost after the master had received some of the checkpoints it sends, in any order. *)
Inductive failover (tid : TaskId) (iterations : N) : TaskEntry -> TaskEntry -> Prop :=
| fail_over e received :
    (forall cp, cp ∈ received -> exists m ts, m ∈ run_sent tid iterations (task_latest_checkpoint (te_task e)) /\ cp = received_as ts m) ->
    failover tid iterations e (after_checkpoints received e).

Lemma failover_digest tid iterations e e' : iterations <= u32_max -> failover tid iterations e e' ->
  run_digest tid iterations (task_latest_checkpoint (te_task e')) = run_digest tid iterations (task_latest_checkpoint (te_task e)).
Proof.
  intros Hi Hf. inversion Hf as [? received Hr]; subst. destruct (latest_after received e) as [->|(cp & Hcp & ->)]; [done|].
  destruct (Hr cp Hcp) as ([s d] & ts & (before & after & Hs)%list_elem_of_split & ->). by destruct (resume_from_sent tid iterations _ before s d after ts Hi Hs).
Qed.

(** C18 Failover keeps the work: however often the run of a hash computation is lost and
    started again from the latest checkpoint the master kept, whichever of the checkpoints
    arrived and in whichever order, the digest is that of one uninterrupted run. *)
Theorem failover_same_digest tid iterations e e' : iterations <= u32_max -> task_latest_checkpoint (te_task e) = None -> rtc (failover tid iterations) e e' ->
  run_digest tid iterations (task_latest_checkpoint (te_task e')) = run_digest tid iterations None.
Proof.
  intros Hi <- Hr. induction Hr as [|e e1 e' Hf _ IH]; [done|]. rewrite IH. by apply failover_digest.
Qed.

(** ** The checkpoints of a run *)

(** Resuming sends what the lost run had still to send, under the same numbers. *)
Theorem resume_sends_rest tid iterations cp before s d after ts : iterations <= u32_max -> run_sent tid iterations cp = before ++ (s, d) :: after ->
  run_sent tid iterations (Some (received_as ts (s, d))) = after.
Proof. intros Hi Hs. by destruct (resume_from_sent tid iterations cp before s d after ts Hi Hs). Qed.

(** The checkpoints of a run are numbered on from the one it started from, so the master takes
    each of them for newer than the ones before. *)
Lemma hash_loop_numbers iters n i sequence state : i + N.of_nat n = iters -> sequence + N.of_nat n < 2 ^ 64 ->
  map fst (hash_loop true iters n i sequence state).2 = map (fun k => sequence + N.of_nat k) (seq 1 (length (hash_loop true iters n i sequence state).2)).
Proof.
  revert i sequence state. induction n as [|n IH]; intros i sequence state Hn Hs; cbn [hash_loop]; [done|]. cbn [andb]. destruct (emits_at _ _); [|apply IH; lia].
  rewrite N.mod_small by lia. specialize (IH (i + 1) (sequence + 1) (hash_step i state) ltac:(lia) ltac:(lia)). destruct (hash_loop _ _ n _ _ _) as [final sent]. cbn [fst snd map length] in *.
  cbn [seq map]. f_equal. rewrite IH, <-(seq_shift (length sent) 1), map_map. apply map_ext. intros k. lia.
Qed.

Theorem checkpoints_numbered tid iterations cp : iterations <= u32_max -> match cp with Some c => cp_sequence c < 2 ^ 63 | None => True end ->
  map fst (run_sent tid iterations cp) = map (fun k => match cp with Some c => cp_sequence c | None => 0 end + N.of_nat k) (seq 1 (length (run_sent tid iterations cp))).
Proof.
  intros Hi Hc. unfold run_sent, hash_compute. assert (Hit : effective_iters iterations <= u32_max) by (unfold effective_iters; destruct (iterations =? 0); [by vm_compute|done]).
  set (iters := effective_iters iterations) in *. clearbody iters. destruct (restore_checkpoint _ cp) as [start restored].
  set (s0 := match cp with Some c => cp_sequence c | None => 0 end). set (st := if start =? 0 then _ else _). clearbody st.
  assert (Hs0 : s0 < 2 ^ 63) by (unfold s0; by destruct cp). clearbody s0. unfold u32_max in Hit. change (2 ^ 32) with 4294967296 in Hit. change (2 ^ 63) with 9223372036854775808 in Hs0.
  destruct (N.le_gt_cases start iters) as [Hle|Hgt].
  - pose proof (hash_loop_numbers iters (N.to_nat (iters - start)) start s0 st ltac:(lia) ltac:(change (2 ^ 64) with 18446744073709551616; lia)) as Hl. by destruct (hash_loop _ _ _ _ _ _) as [final sent].
  - by replace (N.to_nat (iters - start)) with 0%nat by lia.
Qed.
End resume.

(** ** Witnesses *)

Definition no_json (slice : Bytes) : option (N * N) := None.

(** A task of eight rounds that failed over after its checkpoint of the fourth round arrived. *)
Definition fresh_entry : TaskEntry := new_entry (sample_task 2) 5 2 11 1.
Definition sample_sent : list CheckpointData := map (received_as 9) (run_sent no_json 2 8 None).
Definition resumed_entry : TaskEntry := after_checkpoints sample_sent fresh_entry.

Lemma failover_same_digest_witness : is_Some (task_latest_checkpoint (te_task resumed_entry))
  /\ run_digest no_json 2 8 (task_latest_checkpoint (te_task resumed_entry)) = run_digest no_json 2 8 None.
Proof.
  split; [vm_compute; by eexists|]. apply (failover_same_digest no_json 2 8 fresh_entry); [by vm_compute|reflexivity|]. apply rtc_once. constructor.
  intros cp (m & -> & Hm)%list_elem_of_fmap. exists m, 9. split; [exact Hm|done].
Defined.

Lemma resume_sends_rest_witness : exists d1 d2, run_sent no_json 2 103 None = [(1, d1); (2, d2)] ++ [(3, checkpoint_delta 102 (run_digest no_json 2 102 None))]
  /\ run_sent no_json 2 103 (Some (received_as 0 (2, d2))) = [(3, checkpoint_delta 102 (run_digest no_json 2 102 None))].
Proof.
  eassert (E : run_sent no_json 2 103 None = [(1, _)] ++ (2, _) :: [(3, _)]) by (vm_compute; reflexivity). eexists _, _. split; [rewrite E; vm_compute; reflexivity|].
  etransitivity; [apply (fun H => resume_sends_rest no_json 2 103 None _ _ _ _ 0 H E); by vm_compute|vm_compute; reflexivity].
Defined.

Lemma checkpoints_numbered_witness : map fst (run_sent no_json 2 103 None) = [1; 2; 3].
Proof. rewrite checkpoints_numbered; [vm_compute; reflexivity|by vm_compute|exact I]. Defined.
