(* ===== verification/Sandbox.v ===== *)
(** * Sandbox: the private directory a task runs in

    Models [crates/worker/src/sandbox.rs]: the normalisation of the paths a task names, where
    sandboxes go and when that place is safe, and what is written into a sandbox before the task
    starts.  A sandbox is the tree of [Staging].  What the file system answers is an argument;
    the texts of messages and the rules of Windows are left out, and so are the modes of
    directories inside a sandbox. *)

From S2P Require Import Prelude Collections RustStr Capabilities Placement Blob Task Staging.
Local Open Scope N_scope.

(** ** Paths *)

Definition WINDOWS_RESERVED_NAMES : list Str :=
  str <$> ["CON"; "PRN"; "AUX"; "NUL"; "COM1"; "COM2"; "COM3"; "COM4"; "COM5"; "COM6"; "COM7"; "COM8";
           "COM9"; "LPT1"; "LPT2"; "LPT3"; "LPT4"; "LPT5"; "LPT6"; "LPT7"; "LPT8"; "LPT9"].

(** One round of the loop over the segments: skipped, kept trimmed, or refused. *)
Definition normalize_segment (segment : Str) : result SandboxPathError (option Str) :=
  let seg_trimmed := trim segment in
  if is_empty seg_trimmed || bool_decide (seg_trimmed = str ".") then Ok None
  else if bool_decide (seg_trimmed = str "..") then Err SPTraversal
  else
    let cleaned := trim_end_matches is_dot_or_space seg_trimmed in
    if is_empty cleaned then Err SPDotsOnly
    else
      let stem := to_ascii_uppercase (trim_end_matches is_dot_or_space (default cleaned (head (split 46 cleaned)))) in
      if bool_decide (stem ∈ WINDOWS_RESERVED_NAMES) then Err SPReserved else Ok (Some seg_trimmed).

Fixpoint normalize_segments (segments : list Str) (normalized : list Str) : result SandboxPathError (list Str) :=
  match normalized with
  | [] => Ok segments
  | segment :: normalized =>
      match normalize_segment segment with
      | Err e => Err e
      | Ok None => normalize_segments segments normalized
      | Ok (Some s) => normalize_segments (segments ++ [s]) normalized
      end
  end.

Definition normalize_relative_path_str (raw : Str) : result SandboxPathError Str :=
  let trimmed_raw := trim raw in
  if is_empty trimmed_raw then Err SPEmpty
  else if contains_char 0 raw then Err SPNull
  else if starts_with [47] trimmed_raw || starts_with [92] trimmed_raw then Err SPAbsolute
  else if contains_char 58 raw then Err SPColon
  else
    let normalized := replace_char 92 47 trimmed_raw in
    match normalize_segments [] (split 47 normalized) with
    | Err e => Err e
    | Ok segments => if is_empty segments then Err SPNothingLeft else Ok (join 47 segments)
    end.

(** [Path::components] on Unix.  A path is its bytes. *)
Inductive Component := RootDir | CurDir | ParentDir | Normal (name : Bytes).

Definition component_of (first : bool) (name : Bytes) : option Component :=
  if is_empty name then None
  else if bool_decide (name = str ".") then (if first then Some CurDir else None)
  else if bool_decide (name = str "..") then Some ParentDir
  else Some (Normal name).

Definition is_absolute (path : Bytes) : bool := starts_with [47] path.

Definition components (path : Bytes) : list Component :=
  (if is_absolute path then [RootDir] else [])
  ++ match split 47 path with
     | [] => []
     | name :: names => omap (component_of true) [name] ++ omap (component_of false) names
     end.

(** [Path::to_str]: bytes that are UTF-8. *)
Definition to_str (path : Bytes) : option Str :=
  let s := from_utf8_lossy path in if bool_decide (utf8_encode s = path) then Some s else None.

Inductive TraversalReason :=
| TrPath (e : SandboxPathError)
| TrAbsolute
| TrParentDir
| TrRoot
| TrNotUtf8
| TrFileTooLarge
| TrAggregateTooLarge
| TrChecksum.

Definition check_component (c : Component) : result TraversalReason unit :=
  match c with
  | Normal _ | CurDir => Ok tt
  | ParentDir => Err TrParentDir
  | RootDir => Err TrRoot
  end.

Fixpoint check_components (cs : list Component) : result TraversalReason unit :=
  match cs with
  | [] => Ok tt
  | c :: cs => match check_component c with Ok _ => check_components cs | Err e => Err e end
  end.

(** The path below the sandbox, by its names: the result is [base_dir] joined with them. *)
Definition sanitize_relative_path (rel_path : Bytes) : result TraversalReason Str :=
  if is_absolute rel_path then Err TrAbsolute
  else
    match check_components (components rel_path) with
    | Err e => Err e
    | Ok _ =>
        match to_str rel_path with
        | None => Err TrNotUtf8
        | Some raw_str => map_err TrPath (normalize_relative_path_str raw_str)
        end
    end.

(** ** Where sandboxes go *)

Definition SANDBOX_BASE_DIR_ENV : Str := str "RUSTY_GRID_SANDBOX_BASE_DIR".

Record SandboxConfig := { sx_base_dir : Str; sx_keep_sandboxes : bool; sx_private_root : option Str }.

(** [Path::join] with a relative name. *)
Definition path_join (dir name : Str) : Str := if is_empty dir || bool_decide (last dir = Some 47) then dir ++ name else dir ++ 47 :: name.

Definition default_root_name (euid : N) : Str := str "rusty_grid-" ++ show_N euid.

Definition default_base (env : Str -> option Str) (platform_temp : Str) (euid : N) : Str * option Str :=
  let non_empty name := match env name with Some v => if is_empty (trim v) then None else Some v | None => None end in
  match non_empty SANDBOX_BASE_DIR_ENV with
  | Some dir => (dir, None)
  | None =>
      let temp := default platform_temp (non_empty (str "TMPDIR")) in
      let root := path_join temp (default_root_name euid) in
      (path_join root (str "sandboxes"), Some root)
  end.

Definition resolve_default_base_dir (env : Str -> option Str) (platform_temp : Str) (euid : N) : Str := fst (default_base env platform_temp euid).

Definition config_new (base_dir : Str) : SandboxConfig := {| sx_base_dir := base_dir; sx_keep_sandboxes := false; sx_private_root := None |}.

Definition config_from_env (env : Str -> option Str) (platform_temp : Str) (euid : N) : SandboxConfig :=
  let (base_dir, private_root) := default_base env platform_temp euid in
  {| sx_base_dir := base_dir; sx_keep_sandboxes := false; sx_private_root := private_root |}.

#[global] Instance Component_eq : EqDecision Component.
Proof. solve_decision. Defined.

(** [Path::starts_with]. *)
Definition path_starts_with (path base : Str) : bool := bool_decide (components base `prefix_of` components path).

Definition checked_private_root (c : SandboxConfig) : option Str :=
  match sx_private_root c with
  | Some root => if path_starts_with (sx_base_dir c) root then Some root else None
  | None => None
  end.

(** ** Whether that place is private *)

Record Meta := { mt_uid : N; mt_mode : N; mt_is_dir : bool; mt_is_symlink : bool }.

(** Why the directory that holds the private root is unsafe. *)
Inductive ParentRefusal := PrOwner (uid : N) | PrWritable (mode : N).

Definition parent_refusal (meta : Meta) (euid : N) : option ParentRefusal :=
  if negb (mt_uid meta =? 0) && negb (mt_uid meta =? euid) then Some (PrOwner (mt_uid meta))
  else
    let mode := mt_mode meta in
    if negb (N.land mode 18 =? 0) && (N.land mode 512 =? 0) then Some (PrWritable (N.land mode 4095)) else None.

Inductive RootRefusal := RrSymlink | RrNotDirectory | RrOwner (uid euid : N) | RrOpen (mode : N).

Definition root_refusal (meta : Meta) (euid : N) : option RootRefusal :=
  if mt_is_symlink meta then Some RrSymlink
  else if negb (mt_is_dir meta) then Some RrNotDirectory
  else if negb (mt_uid meta =? euid) then Some (RrOwner (mt_uid meta) euid)
  else
    let mode := N.land (mt_mode meta) 4095 in
    if negb (N.land mode 63 =? 0) then Some (RrOpen mode) else None.

(** [SbOutside] is no error of the code: a write went to a link or to something that is neither
    file nor directory, about which the tree says nothing.  It is shown never to happen in a
    sandbox that was created empty. *)
Inductive SandboxError :=
| SbIo
| SbPathTraversal (reason : TraversalReason)
| SbAlreadyExists
| SbBaseDirUnusable
| SbParentUnsafe (reason : ParentRefusal)
| SbRootUnsafe (reason : RootRefusal)
| SbOutside.

Inductive MkdirAnswer := MkCreated | MkAlreadyExists | MkFailed.

(** What the file system answers while the private root is made and checked. *)
Record PrivateIo := {
  pv_has_parent : bool;
  pv_parent_made : bool;
  pv_parent_meta : option Meta;
  pv_mkdir : MkdirAnswer;
  pv_root_meta : option Meta
}.

Definition ensure_parent (io : PrivateIo) (euid : N) : result SandboxError unit :=
  if pv_has_parent io then
    if negb (pv_parent_made io) then Err SbBaseDirUnusable
    else match pv_parent_meta io with
         | None => Err SbBaseDirUnusable
         | Some meta => match parent_refusal meta euid with Some reason => Err (SbParentUnsafe reason) | None => Ok tt end
         end
  else Ok tt.

Definition ensure_private_dir (io : PrivateIo) (euid : N) : result SandboxError unit :=
  match ensure_parent io euid with
  | Err e => Err e
  | Ok _ =>
      match pv_mkdir io with
      | MkFailed => Err SbBaseDirUnusable
      | MkCreated | MkAlreadyExists =>
          match pv_root_meta io with
          | None => Err SbBaseDirUnusable
          | Some meta => match root_refusal meta euid with Some reason => Err (SbRootUnsafe reason) | None => Ok tt end
          end
      end
  end.

Definition ensure_private_root (c : SandboxConfig) (io : PrivateIo) (euid : N) : result SandboxError unit :=
  match checked_private_root c with None => Ok tt | Some _ => ensure_private_dir io euid end.

(** ** A sandbox *)

(** [Sandbox::create]: [exists_] is the answer of [try_exists], [made] what [create_dir_all]
    leaves at the path. *)
Definition sandbox_create (c : SandboxConfig) (io : PrivateIo) (euid : N) (exists_ : option bool) (made : option FsNode) : result SandboxError FsNode :=
  match ensure_private_root c io euid with
  | Err e => Err e
  | Ok _ =>
      if default false exists_ then Err SbAlreadyExists
      else match made with Some root => Ok root | None => Err SbIo end
  end.

(** What the file system answers while one file is written. *)
Record WriteIo := { wi_mkdir : bool; wi_write : bool; wi_chmod : bool }.

(** [tokio::fs::write], then the mode [executable]; a mode that cannot be set stays. *)
Definition write_target (io : WriteIo) (root : FsNode) (path : list Str) (data : Bytes) (executable : bool) : result SandboxError FsNode :=
  if negb (wi_write io) then Err SbIo
  else
    match fs_lookup root path with
    | LkMissing => Ok (create_file root path (FsFile data (wi_chmod io && executable) true))
    | LkFound (FsFile _ was stat) => Ok (create_file root path (FsFile data (if wi_chmod io then executable else was) stat))
    | LkFound (FsDir _ _) => Err SbIo
    | LkRefused => Err SbIo
    | LkFound _ | LkThroughLink => Err SbOutside
    end.

(** The directories above the file, then the file. *)
Definition write_below (io : WriteIo) (root : FsNode) (rel : Str) (data : Bytes) (executable : bool) : result SandboxError FsNode :=
  let path := split SLASH rel in
  if negb (wi_mkdir io) then Err SbIo
  else
    match create_dir_all root (removelast path) with
    | MdRefused => Err SbIo
    | MdThroughLink => Err SbOutside
    | MdOk root => write_target io root path data executable
    end.

(** [write_file]: mode 600. *)
Definition write_file (io : WriteIo) (root : FsNode) (rel_path : Bytes) (content : Bytes) : result SandboxError FsNode :=
  match sanitize_relative_path rel_path with
  | Err reason => Err (SbPathTraversal reason)
  | Ok rel => write_below io root rel content false
  end.

(** The mode 700 on a file that was just written. *)
Definition make_executable (root : FsNode) (path : list Str) : FsNode :=
  match fs_lookup root path with LkFound (FsFile data _ stat) => create_file root path (FsFile data true stat) | _ => root end.

(** [write_script]: [write_file], then mode 700 if it can be set. *)
Definition write_script (io : WriteIo) (chmod : bool) (root : FsNode) (name content : Str) : result SandboxError FsNode :=
  match write_file io root (utf8_encode name) (utf8_encode content) with
  | Err e => Err e
  | Ok root => Ok (match sanitize_relative_path (utf8_encode name) with Ok rel => if chmod then make_executable root (split SLASH rel) else root | Err _ => root end)
  end.

Class Sha256 := sha256_digest : Bytes -> Bytes.

Section staged.
Context `{Sha256}.

Definition verify_checksum (f : StagedFile) : bool :=
  if negb (blen (sf_data f) =? sf_size f) then false else bool_decide (sha256_digest (sf_data f) = sf_sha256 f).

(** The first loop of [stage_files]. *)
Fixpoint check_staged_files (total_bytes : N) (files : list StagedFile) : result SandboxError unit :=
  match files with
  | [] => Ok tt
  | staged :: files =>
      if MAX_STAGED_FILE_BYTES <? sf_size staged then Err (SbPathTraversal TrFileTooLarge)
      else
        let total_bytes := saturating_add u64_max total_bytes (sf_size staged) in
        if MAX_AGGREGATE_STAGED_BYTES <? total_bytes then Err (SbPathTraversal TrAggregateTooLarge)
        else if negb (verify_checksum staged) then Err (SbPathTraversal TrChecksum)
        else check_staged_files total_bytes files
  end.

(** The second loop. *)
Fixpoint write_staged_files (io : Str -> WriteIo) (root : FsNode) (files : list StagedFile) : result SandboxError FsNode :=
  match files with
  | [] => Ok root
  | staged :: files =>
      match normalize_relative_path_str (sf_path staged) with
      | Err e => Err (SbPathTraversal (TrPath e))
      | Ok rel_path =>
          match write_below (io rel_path) root rel_path (sf_data staged) (sf_executable staged) with
          | Err e => Err e
          | Ok root => write_staged_files io root files
          end
      end
  end.

Definition stage_files (io : Str -> WriteIo) (root : FsNode) (files : list StagedFile) : result SandboxError FsNode :=
  match check_staged_files 0 files with
  | Err e => Err e
  | Ok _ => write_staged_files io root files
  end.

End staged.

Fixpoint write_sources (io : Str -> WriteIo) (root : FsNode) (files : list (Str * Str)) : result SandboxError FsNode :=
  match files with
  | [] => Ok root
  | (rel_path, content) :: files =>
      match write_file (io rel_path) root (utf8_encode rel_path) (utf8_encode content) with
      | Err e => Err e
      | Ok root => write_sources io root files
      end
  end.

(** [source_files] are written in the order the map yields them. *)
Definition prepare_spec (io : Str -> WriteIo) (chmod : bool) (root : FsNode) (spec : TaskSpec) (order : list (Str * Str)) : result SandboxError FsNode :=
  match spec with
  | ShellScript script _ _ => write_script (io (str "task_script.sh")) chmod root (str "task_script.sh") script
  | RustCompilation _ _ _ _ => write_sources io root order
  | _ => Ok root
  end.

(** [destroy]: the flag, and what is left at the path.  [probed] is whether [try_exists] could
    tell, [removed] whether the tree could be removed. *)
Definition destroy (keep_sandboxes destroyed probed removed : bool) (left_ : option FsNode) : result SandboxError unit * bool * option FsNode :=
  if destroyed then (Ok tt, true, left_)
  else if keep_sandboxes then (Ok tt, true, left_)
  else match left_ with
       | None => (Ok tt, true, None)
       | Some _ =>
           if probed then (if removed then (Ok tt, true, None) else (Err SbIo, true, left_))
           else (Ok tt, true, left_)
       end.

(** ** The cache of older workers *)

(** The answer of [symlink_metadata]. *)
Inductive Stat := StFound (m : Meta) | StMissing | StFailed.

Definition is_real_owned_dir (meta : Meta) (euid : N) : bool := negb (mt_is_symlink meta) && mt_is_dir meta && (mt_uid meta =? euid).

Definition real_owned (st : Stat) (euid : N) : bool := match st with StFound m => is_real_owned_dir m euid | _ => false end.

(** The directories below [cache] that [remove_legacy_staging_cache] removes. *)
Definition remove_legacy_staging_cache (base cache : Stat) (child : Str -> Stat) (euid : N) : list Str :=
  if negb (real_owned base euid) then []
  else if negb (real_owned cache euid) then []
  else List.filter (fun name => real_owned (child name) euid) [str "objects"; str "tmp"].
