(* ===== verification/SandboxPaths.v ===== *)
(** * SandboxPaths: the paths a task names, as the worker reads them

    The worker reads the paths of a task as the master that validated them does, in a canonical
    form that stays below the sandbox. *)

From S2P Require Import Prelude Collections RustStr Capabilities Placement Blob Task Staging Sandbox.
Local Open Scope N_scope.

(** ** Paths *)

Lemma trim_start_map (f : char -> char) s : (forall c, is_whitespace (f c) = is_whitespace c) ->
  trim_start_matches is_whitespace (map f s) = map f (trim_start_matches is_whitespace s).
Proof. intros Hf. induction s as [|c s IH]; [done|]. cbn [map trim_start_matches]. rewrite Hf. by destruct (is_whitespace c). Qed.

Lemma trim_map (f : char -> char) s : (forall c, is_whitespace (f c) = is_whitespace c) -> trim (map f s) = map f (trim s).
Proof.
  intros Hf. unfold trim, trim_end_matches. rewrite trim_start_map by done. rewrite <-fmap_reverse. change (f <$> ?l) with (map f l). by rewrite trim_start_map, <-fmap_reverse by done.
Qed.

Lemma trim_replace s : trim (replace_char 92 47 s) = replace_char 92 47 (trim s).
Proof. apply trim_map. intros c. by destruct (N.eqb_spec c 92) as [->|]. Qed.

Lemma normalize_segments_eq acc segs : normalize_segments acc segs = match sandbox_segments segs with Ok kept => Ok (acc ++ kept) | Err e => Err e end.
Proof.
  revert acc. induction segs as [|seg segs IH]; intros acc; cbn [normalize_segments sandbox_segments]; [by rewrite app_nil_r|].
  change (normalize_segment seg) with (sandbox_segment seg). destruct (sandbox_segment seg) as [[s|]|e]; [| |done]; rewrite IH; destruct (sandbox_segments segs); try done.
  by rewrite <-app_assoc.
Qed.

Lemma trim_start_snoc p s c : p c = false -> trim_start_matches p (s ++ [c]) = trim_start_matches p s ++ [c].
Proof. intros Hc. induction s as [|d s IH]; cbn [app trim_start_matches]; [by rewrite Hc|]. by destruct (p d). Qed.

Lemma trim_end_cons p s c : p c = false -> trim_end_matches p (c :: s) = c :: trim_end_matches p s.
Proof. intros Hc. unfold trim_end_matches. by rewrite reverse_cons, trim_start_snoc, reverse_snoc. Qed.

Lemma trim_keeps_head s c : is_whitespace c = false -> trim (c :: s) = c :: trim_end_matches is_whitespace s.
Proof. intros Hc. unfold trim. cbn [trim_start_matches]. rewrite Hc. by apply trim_end_cons. Qed.

Lemma starts_with_char c s : starts_with [c] s = match s with [] => false | x :: _ => bool_decide (x = c) end.
Proof.
  apply eq_true_iff_eq. rewrite starts_with_spec. destruct s as [|x s].
  - split; [|done]. by intros [? ?].
  - rewrite bool_decide_eq_true. split; [by intros [k [= -> _]]|]. intros ->. by exists s.
Qed.

Lemma starts_with_trim c s : is_whitespace c = false -> starts_with [c] s = true -> starts_with [c] (trim s) = true.
Proof. intros Hc. rewrite !starts_with_char. destruct s as [|x s]; [done|]. intros ->%bool_decide_eq_true. rewrite trim_keeps_head by done. by apply bool_decide_eq_true. Qed.

Lemma starts_with_replace s : starts_with [47] (replace_char 92 47 s) = starts_with [47] s || starts_with [92] s.
Proof.
  rewrite !starts_with_char. destruct s as [|x s]; [done|]. cbn [replace_char map]. apply eq_true_iff_eq. rewrite orb_true_iff, !bool_decide_eq_true.
  destruct (N.eqb_spec x 92); naive_solver.
Qed.

Lemma two_slashes s : starts_with [47; 47] s = true -> starts_with [47] s = true.
Proof. rewrite !starts_with_spec. intros [k ->]. by exists (47 :: k). Qed.

Lemma is_empty_true {A} (l : list A) : is_empty l = true <-> l = [].
Proof. by destruct l. Qed.

Lemma normalize_validates raw p : normalize_relative_path_str raw = Ok p <-> validate_relative_sandbox_path raw = Ok p.
Proof.
  unfold normalize_relative_path_str, validate_relative_sandbox_path. rewrite trim_replace, normalize_segments_eq.
  assert (He : is_empty (replace_char 92 47 (trim raw)) = is_empty (trim raw)) by (by destruct (trim raw)). rewrite He, starts_with_replace. clear He.
  destruct (is_empty (trim raw)) eqn:Et.
  { split; [done|]. repeat (case_match; try done). }
  assert (Hr : is_empty raw = false) by (destruct raw; [done|done]). rewrite Hr. destruct (contains_char 0 raw); [done|].
  destruct (starts_with [47] (trim raw) || starts_with [92] (trim raw)) eqn:Es.
  { split; [done|]. repeat (case_match; try done). }
  assert (Hs : starts_with [47] raw || starts_with [92] raw = false).
  { apply orb_false_iff in Es as [E1 E2]. apply orb_false_iff. split; apply not_true_is_false; intros Hx%starts_with_trim; congruence || done. }
  rewrite Hs. destruct (contains_char 58 raw); [done|].
  assert (Hu : starts_with [47; 47] (replace_char 92 47 (trim raw)) = false) by (apply not_true_is_false; intros Hx%two_slashes; rewrite starts_with_replace in Hx; congruence).
  rewrite Hu. by destruct (sandbox_segments _).
Qed.

(** A name as the worker uses it: kept as it is by the loop over the segments, and free of
    separators, drive prefixes and NUL. *)
Record canonical_name (s : Str) : Prop := {
  cn_kept : sandbox_segment s = Ok (Some s);
  cn_clean : forall c, c ∈ s -> c <> 47 /\ c <> 92 /\ c <> 58 /\ c <> 0
}.

Lemma segment_kept seg s : sandbox_segment seg = Ok (Some s) -> s = trim seg /\ sandbox_segment s = Ok (Some s) /\ s <> [] /\ s <> str "." /\ s <> str "..".
Proof.
  unfold sandbox_segment. intros Hs. assert (s = trim seg) as -> by (repeat (case_match; try done); by simplify_eq). rewrite trim_trim. split; [done|]. split; [done|].
  destruct (is_empty (trim seg)) eqn:E1; [done|]. cbn [orb] in Hs. case_bool_decide as E2; [done|]. case_bool_decide as E3; [done|]. split; [by intros E; rewrite E in E1|done].
Qed.

Lemma canonical_parts s : canonical_name s -> trim s = s /\ s <> [] /\ s <> str "." /\ s <> str ".." /\ 47 ∉ s.
Proof. intros [(Ht & _ & H0 & H1 & H2)%segment_kept Hc]. split; [done|]. do 3 (split; [done|]). intros (? & _)%Hc. done. Qed.

Lemma segments_kept segs kept : sandbox_segments segs = Ok kept -> forall s, s ∈ kept -> exists seg, seg ∈ segs /\ s = trim seg /\ sandbox_segment s = Ok (Some s).
Proof.
  revert kept. induction segs as [|seg segs IH]; intros kept; cbn [sandbox_segments]; [intros [= <-] s ?%elem_of_nil; done|].
  destruct (sandbox_segment seg) as [o|] eqn:Eo; [|done]. destruct (sandbox_segments segs) as [kept'|]; [|done]. intros [= <-] s Hs.
  assert (Hs' : o = Some s \/ s ∈ kept') by (destruct o; set_solver). destruct Hs' as [-> | (x & Hx & ?)%(IH kept' eq_refl)].
  - apply segment_kept in Eo as (? & ? & _). exists seg. set_solver.
  - exists x. set_solver.
Qed.

Lemma elem_of_replace x c d s : x ∈ replace_char c d s -> x = d \/ (x ∈ s /\ x <> c).
Proof. intros (y & -> & Hy)%list_elem_of_fmap. destruct (N.eqb_spec y c); naive_solver. Qed.

Lemma elem_of_split_char c s name x : name ∈ split c s -> x ∈ name -> x ∈ s /\ x <> c.
Proof.
  intros Hn Hx. split; [|intros ->; by apply (split_no_sep c s name)]. rewrite <-(join_split c s). revert Hn. generalize (split c s). intros l. induction l as [|a l IH]; [by intros ?%elem_of_nil|].
  intros Hn. destruct l as [|b l]; [cbn; set_solver|]. rewrite join_cons by done. set_solver.
Qed.

Lemma contains_char_false c s : contains_char c s = false -> c ∉ s.
Proof. intros Hf Hc%contains_char_spec. congruence. Qed.

Lemma normalize_Ok raw p : normalize_relative_path_str raw = Ok p -> exists names, p = join 47 names /\ names <> [] /\ Forall canonical_name names.
Proof.
  unfold normalize_relative_path_str. rewrite normalize_segments_eq. destruct (is_empty (trim raw)); [done|]. destruct (contains_char 0 raw) eqn:E0; [done|].
  destruct (_ || _); [done|]. destruct (contains_char 58 raw) eqn:E1; [done|]. destruct (sandbox_segments _) as [names|] eqn:Es; [|done]. cbn [app].
  destruct (is_empty names) eqn:En; [done|]. intros [= <-]. exists names. split; [done|]. split; [by intros ->|]. apply Forall_forall. intros s Hs.
  destruct (segments_kept _ _ Es s Hs) as (seg & Hseg & Ht & Hk). split; [done|]. intros c Hc. rewrite Ht in Hc. apply trim_elem_of in Hc.
  destruct (elem_of_split_char _ _ _ _ Hseg Hc) as [[?|[Hr ?]]%elem_of_replace Hn]; [done|]. apply trim_elem_of in Hr. apply contains_char_false in E0, E1. split; [done|]. split; [done|]. split; congruence.
Qed.

Lemma segments_canonical names : Forall canonical_name names -> sandbox_segments names = Ok names.
Proof. induction 1 as [|s names [Hk _] _ IH]; cbn [sandbox_segments]; [done|]. by rewrite Hk, IH. Qed.

Lemma elem_of_join c names x : x ∈ join c names -> x = c \/ exists s, s ∈ names /\ x ∈ s.
Proof.
  induction names as [|s names IH]; [by intros ?%elem_of_nil|]. destruct names as [|s' names]; [cbn; set_solver|]. rewrite join_cons by done. intros [?|[->|Hx]%elem_of_cons]%elem_of_app; [set_solver|by left|].
  destruct (IH Hx) as [?|(t & ? & ?)]; [by left|]. right. exists t. set_solver.
Qed.

Lemma canonical_split names : names <> [] -> Forall canonical_name names -> split 47 (join 47 names) = names.
Proof. intros Hn Hc. apply split_join; [done|]. eapply Forall_impl; [exact Hc|]. by intros s (_ & _ & _ & _ & ?)%canonical_parts. Qed.

Lemma join_head c names s : head names = Some s -> s <> [] -> head (join c names) = head s.
Proof. destruct names as [|x names]; [done|]. intros [= ->] Hs. destruct names; [done|]. rewrite join_cons by done. by destruct s. Qed.

Lemma join_last c names s : last names = Some s -> s <> [] -> last (join c names) = last s.
Proof.
  induction names as [|x names IH]; [done|]. destruct names as [|y names]; [by intros [= ->]|]. intros Hl Hs. rewrite join_cons by done. rewrite last_app_cons, last_cons, IH by done.
  destruct (last s) eqn:E; [done|]. by apply last_None in E.
Qed.

Lemma canonical_trim names : names <> [] -> Forall canonical_name names -> trim (join 47 names) = join 47 names.
Proof.
  intros Hn Hc. rewrite Forall_forall in Hc. apply trim_id.
  - destruct names as [|s names]; [done|]. destruct (canonical_parts s) as (Ht & H0 & _); [apply Hc; set_solver|]. intros c. rewrite (join_head 47 _ s) by done. rewrite <-Ht. apply trim_head.
  - destruct (last names) as [s|] eqn:El; [|by apply last_None in El]. destruct (canonical_parts s) as (Ht & H0 & _); [apply Hc; by apply last_Some_elem_of|].
    intros c. rewrite (join_last 47 _ s) by done. rewrite <-Ht. apply trim_last.
Qed.

Lemma normalize_canonical_join names : names <> [] -> Forall canonical_name names -> normalize_relative_path_str (join 47 names) = Ok (join 47 names).
Proof.
  intros Hn Hc. pose proof (canonical_split names Hn Hc) as Hs. pose proof (canonical_trim names Hn Hc) as Ht. pose proof Hc as Hc'. rewrite Forall_forall in Hc'.
  assert (Hch : forall c, c ∈ join 47 names -> c = 47 \/ c <> 92 /\ c <> 58 /\ c <> 0) by (intros c [?|(s & [_ Hcl]%Hc' & Hx)]%elem_of_join; [by left|right; by apply Hcl in Hx as (? & ? & ? & ?)]).
  unfold normalize_relative_path_str. rewrite Ht, normalize_segments_eq.
  assert (He : is_empty (join 47 names) = false) by (destruct names as [|s names]; [done|]; destruct (canonical_parts s) as (_ & H0 & _); [apply Hc'; set_solver|]; destruct names; [by destruct s|rewrite join_cons by done; by destruct s]).
  rewrite He. destruct (contains_char 0 _) eqn:E0; [apply contains_char_spec, Hch in E0; naive_solver|].
  assert (Hsl : starts_with [47] (join 47 names) || starts_with [92] (join 47 names) = false).
  { destruct names as [|s names]; [done|]. destruct (canonical_parts s) as (_ & H0 & _ & _ & H4); [apply Hc'; set_solver|]. pose proof (join_head 47 (s :: names) s eq_refl H0) as Hh.
    destruct s as [|x s]; [done|]. rewrite !starts_with_char. destruct (join 47 _) as [|y l]; [done|]. injection Hh as ->. destruct (Hch x ltac:(left)) as [->|(? & _)]; [set_solver|].
    apply orb_false_iff. split; apply bool_decide_eq_false; [set_solver|done]. }
  rewrite Hsl. destruct (contains_char 58 _) eqn:E1; [apply contains_char_spec, Hch in E1; naive_solver|].
  assert (Hrep : replace_char 92 47 (join 47 names) = join 47 names).
  { clear -Hch. revert Hch. generalize (join 47 names). intros l Hch. induction l as [|x l IH]; [done|]. cbn [replace_char map]. change (map _ l) with (replace_char 92 47 l). rewrite IH by set_solver.
    destruct (N.eqb_spec x 92) as [->|]; [|done]. destruct (Hch 92 ltac:(left)) as [?|(? & _)]; done. }
  rewrite Hrep, Hs, segments_canonical by done. cbn [app]. by destruct names.
Qed.

(** ** Paths of the operating system *)

Lemma split_cons_other c x s : x <> c -> split c (x :: s) = match split c s with [] => [[x]] | p :: ps => (x :: p) :: ps end.
Proof. intros Hx. cbn [split]. by rewrite (proj2 (N.eqb_neq x c)). Qed.

Lemma split_app_plain c a s p ps : c ∉ a -> split c s = p :: ps -> split c (a ++ s) = (a ++ p) :: ps.
Proof. intros Ha Hs. induction a as [|x a IH]; [done|]. cbn [app]. rewrite split_cons_other by set_solver. by rewrite IH by set_solver. Qed.

Lemma encode_char_plain c : c <> 47 -> 47 ∉ utf8_encode_char c.
Proof.
  intros Hc. unfold utf8_encode_char. repeat case_match; repeat (apply not_elem_of_cons; split; [first [by apply not_eq_sym|apply N.lt_neq; eapply N.lt_le_trans; [|apply N.le_add_r]; done]|]); apply not_elem_of_nil.
Qed.

Lemma split_encode s : split 47 (utf8_encode s) = map utf8_encode (split 47 s).
Proof.
  induction s as [|c s IH]; [done|]. change (utf8_encode (c :: s)) with (utf8_encode_char c ++ utf8_encode s). destruct (decide (c = 47)) as [->|Hc].
  - change (utf8_encode_char 47 ++ utf8_encode s) with (47 :: utf8_encode s). cbn [split N.eqb Pos.eqb map]. by rewrite IH.
  - rewrite split_cons_other by done. destruct (split 47 s) as [|p ps] eqn:E; [by apply split_not_nil in E|]. cbn [map] in *.
    by rewrite (split_app_plain 47 _ _ _ _ (encode_char_plain c Hc) IH).
Qed.

Lemma map_trim_split_start s : map trim (split 47 (trim_start_matches is_whitespace s)) = map trim (split 47 s).
Proof.
  induction s as [|c s IH]; [done|]. cbn [trim_start_matches]. destruct (is_whitespace c) eqn:Ec; [|done]. rewrite IH, split_cons_other by (by intros ->).
  destruct (split 47 s) as [|p ps] eqn:E; [by apply split_not_nil in E|]. cbn [map]. f_equal. unfold trim. cbn [trim_start_matches]. by rewrite Ec.
Qed.

Lemma split_snoc_other c s x : x <> c -> exists init p, split c s = init ++ [p] /\ split c (s ++ [x]) = init ++ [p ++ [x]].
Proof.
  intros Hx. induction s as [|y s (init & p & Hs & Hsx)]; [exists [], []; cbn [app]; by rewrite split_cons_other|]. cbn [app]. destruct (decide (y = c)) as [->|Hy].
  - cbn [split]. rewrite N.eqb_refl, Hs, Hsx. by exists ([] :: init), p.
  - rewrite !split_cons_other, Hs, Hsx by done. destruct init as [|i init]; [by exists [], (y :: p)|by exists ((y :: i) :: init), p].
Qed.

Lemma trim_snoc_space s x : is_whitespace x = true -> trim (s ++ [x]) = trim s.
Proof.
  intros Hx. unfold trim. assert (Ha : trim_start_matches is_whitespace (s ++ [x]) = match trim_start_matches is_whitespace s with [] => [] | t => t ++ [x] end).
  { induction s as [|c s IH]; cbn [app trim_start_matches]; [by rewrite Hx|]. by destruct (is_whitespace c). }
  rewrite Ha. destruct (trim_start_matches _ s) as [|c t]; [done|]. unfold trim_end_matches. rewrite reverse_snoc. cbn [trim_start_matches]. by rewrite Hx.
Qed.

Lemma map_trim_split_end s : map trim (split 47 (trim_end_matches is_whitespace s)) = map trim (split 47 s).
Proof.
  induction s as [|x s IH] using rev_ind; [done|]. unfold trim_end_matches. rewrite reverse_snoc. cbn [trim_start_matches]. destruct (is_whitespace x) eqn:Ex; [|by rewrite reverse_cons, reverse_involutive].
  change (reverse _) with (trim_end_matches is_whitespace s). rewrite IH. destruct (split_snoc_other 47 s x) as (init & p & -> & ->); [by intros ->|]. rewrite !map_app. cbn [map]. by rewrite (trim_snoc_space p).
Qed.

Lemma map_trim_split s : map trim (split 47 (trim s)) = map trim (split 47 s).
Proof. unfold trim at 2. by rewrite map_trim_split_end, map_trim_split_start. Qed.

Lemma split_replace_keeps seg s : 92 ∉ seg ->
  (head (split 47 s) = Some seg -> head (split 47 (replace_char 92 47 s)) = Some seg) /\ (seg ∈ tail (split 47 s) -> seg ∈ tail (split 47 (replace_char 92 47 s))).
Proof.
  revert seg. induction s as [|x s IH]; intros seg Hseg; [done|]. cbn [replace_char map]. change (map _ s) with (replace_char 92 47 s).
  destruct (split 47 (replace_char 92 47 s)) as [|q qs] eqn:Er; [by apply split_not_nil in Er|]. destruct (split 47 s) as [|p ps] eqn:Es; [by apply split_not_nil in Es|].
  assert (Hh : 92 ∉ p -> q = p) by (intros Hp; destruct (IH p Hp) as [Hh _]; by injection (Hh eq_refl)). destruct (IH seg Hseg) as [_ Ht]. cbn [tail] in Ht.
  destruct (N.eqb_spec x 92) as [->|Hx].
  - rewrite split_cons_other, Es by done. cbn [split N.eqb Pos.eqb]. rewrite Er. cbn [head tail]. split; [intros [= <-]; set_solver|]. intros Hin. right. auto.
  - destruct (decide (x = 47)) as [->|Hx']; [cbn [split N.eqb Pos.eqb]; rewrite Es, Er; cbn [head tail]; split; [done|]; intros [->|Hin]%elem_of_cons; [rewrite Hh by done; left|right; auto]|].
    rewrite !split_cons_other, Es, Er by done. cbn [head tail]. split; [intros [= <-]; rewrite Hh by set_solver; done|done].
Qed.

Lemma split_replace_elem seg s : 92 ∉ seg -> seg ∈ split 47 s -> seg ∈ split 47 (replace_char 92 47 s).
Proof.
  intros Hs. destruct (split_replace_keeps seg s Hs) as [Hh Ht]. destruct (split 47 s) as [|p ps]; [by intros ?%elem_of_nil|]. intros [->|Hin]%elem_of_cons.
  - specialize (Hh eq_refl). destruct (split 47 (replace_char _ _ _)); [done|]. injection Hh as ->. left.
  - specialize (Ht Hin). destruct (split 47 (replace_char _ _ _)); [done|]. by right.
Qed.

Lemma segments_fail segs seg : seg ∈ segs -> trim seg = str ".." -> exists e, sandbox_segments segs = Err e.
Proof.
  intros Hin Ht. induction segs as [|x segs IH]; [by apply elem_of_nil in Hin|]. cbn [sandbox_segments]. apply elem_of_cons in Hin as [<-|Hin].
  - unfold sandbox_segment. rewrite Ht. by eexists.
  - destruct (IH Hin) as [e ->]. destruct (sandbox_segment x); by eexists.
Qed.

(** A path the worker normalises is relative and has no [..]. *)
Lemma normalize_components raw p : Forall (fun c => is_scalar c = true) raw -> normalize_relative_path_str raw = Ok p ->
  is_absolute (utf8_encode raw) = false /\ check_components (components (utf8_encode raw)) = Ok tt.
Proof.
  intros Hsc Hn. assert (Hab : is_absolute (utf8_encode raw) = false).
  { unfold is_absolute. rewrite starts_with_char. destruct raw as [|c raw]; [done|]. change (utf8_encode (c :: raw)) with (utf8_encode_char c ++ utf8_encode raw). destruct (decide (c = 47)) as [->|Hc].
    - unfold normalize_relative_path_str in Hn. rewrite trim_keeps_head in Hn by done. cbn [is_empty] in Hn. rewrite (starts_with_char 47) in Hn. rewrite (bool_decide_true (47 = 47)) in Hn by done. cbn [orb] in Hn. by destruct (contains_char 0 (47 :: raw)).
    - pose proof (encode_char_plain c Hc) as Hx. destruct (utf8_encode_char c) eqn:E; [unfold utf8_encode_char in E; repeat case_match; done|]. cbn [app]. apply bool_decide_eq_false. set_solver. }
  split; [done|]. unfold components. rewrite Hab. cbn [app]. rewrite split_encode.
  assert (Hdots : str ".." ∉ map utf8_encode (split 47 raw)).
  { intros (seg & Hseg & Hin)%list_elem_of_fmap. assert (Hs : seg = str "..").
    { rewrite <-(from_utf8_lossy_encode seg); [by rewrite <-Hseg|]. apply Forall_forall. intros c Hc. rewrite Forall_forall in Hsc. apply Hsc. by apply (elem_of_split_char 47 raw seg). }
    subst seg. apply split_replace_elem in Hin; [|by vm_compute; set_solver]. apply (list_elem_of_fmap_2 trim) in Hin. change (trim (str "..")) with (str "..") in Hin. change (trim <$> ?l) with (map trim l) in Hin.
    rewrite <-map_trim_split, trim_replace in Hin. apply list_elem_of_fmap in Hin as (seg & Ht & Hin). unfold normalize_relative_path_str in Hn. rewrite normalize_segments_eq in Hn.
    destruct (segments_fail _ seg Hin (eq_sym Ht)) as [e He]. rewrite He in Hn. repeat (case_match; try done). }
  revert Hdots. generalize (map utf8_encode (split 47 raw)). clear. intros l Hl. destruct l as [|n l]; [done|].
  assert (Hc : forall first l, str ".." ∉ l -> check_components (omap (component_of first) l) = Ok tt).
  { clear. intros first l. induction l as [|n l IH]; [done|]. intros Hl. cbn [omap list_omap]. unfold component_of at 1. destruct (is_empty n); [apply IH; set_solver|].
    case_bool_decide; [destruct first; cbn [check_components check_component]; apply IH; set_solver|]. rewrite bool_decide_false by set_solver. cbn [check_components check_component]. apply IH; set_solver. }
  assert (Happ : forall a b, check_components a = Ok tt -> check_components b = Ok tt -> check_components (a ++ b) = Ok tt).
  { clear. intros a b Ha Hb. induction a as [|x a IH]; [done|]. cbn [app check_components] in *. destruct (check_component x); [by apply IH|done]. }
  apply Happ; apply Hc; set_solver.
Qed.

Lemma sanitize_normalizes raw p : Forall (fun c => is_scalar c = true) raw -> sanitize_relative_path (utf8_encode raw) = Ok p <-> normalize_relative_path_str raw = Ok p.
Proof.
  intros Hsc. assert (Ht : to_str (utf8_encode raw) = Some raw) by (unfold to_str; rewrite from_utf8_lossy_encode by done; by rewrite bool_decide_true).
  unfold sanitize_relative_path. rewrite Ht. split.
  - destruct (is_absolute _); [done|]. destruct (check_components _); [|done]. destruct (normalize_relative_path_str raw); cbn [map_err]; [by intros [= ->]|done].
  - intros Hn. destruct (normalize_components raw p Hsc Hn) as [-> ->]. by rewrite Hn.
Qed.

(** C21 One reading of a path on both sides: the worker's two ways of reading a path a task
    names, as text and as a path of the operating system, accept exactly the paths the
    validator of tasks accepts, and make the same of them. *)
Theorem path_readings_agree raw p : Forall (fun c => is_scalar c = true) raw ->
  (normalize_relative_path_str raw = Ok p <-> validate_relative_sandbox_path raw = Ok p)
  /\ (sanitize_relative_path (utf8_encode raw) = Ok p <-> validate_relative_sandbox_path raw = Ok p).
Proof. intros Hsc. split; [apply normalize_validates|]. rewrite sanitize_normalizes by done. apply normalize_validates. Qed.

(** C22 Where a path of a task can point: below the sandbox.  Its names are not empty, not [.]
    or [..], and hold no separator, drive prefix or NUL; and reading the result again changes
    nothing. *)
Theorem paths_stay_below raw p : normalize_relative_path_str raw = Ok p ->
  normalize_relative_path_str p = Ok p
  /\ Forall (fun name => name <> [] /\ name <> str "." /\ name <> str ".." /\ forall c, c ∈ name -> c <> 47 /\ c <> 92 /\ c <> 58 /\ c <> 0) (split SLASH p).
Proof.
  intros (names & -> & Hn & Hc)%normalize_Ok. split; [by apply normalize_canonical_join|]. change SLASH with 47. rewrite canonical_split by done.
  eapply Forall_impl; [exact Hc|]. intros s Hs. pose proof (canonical_parts s Hs) as (_ & ? & ? & ? & _). split_and!; try done. apply Hs.
Qed.

(** ** Witnesses *)

Lemma path_readings_agree_witness : normalize_relative_path_str (str " a\b/./c ") = Ok (str "a/b/c") /\ sanitize_relative_path (utf8_encode (str " a\b/./c ")) = Ok (str "a/b/c").
Proof. split; apply (path_readings_agree (str " a\b/./c ") (str "a/b/c")); try reflexivity; repeat constructor. Defined.

Lemma paths_stay_below_witness : normalize_relative_path_str (str " a\b/./c ") = Ok (str "a/b/c") /\ normalize_relative_path_str (str "a/b/c") = Ok (str "a/b/c").
Proof. split; [reflexivity|]. apply (paths_stay_below (str " a\b/./c ")). reflexivity. Defined.
