(* ===== verification/SandboxProps.v ===== *)
(** * SandboxProps: what is written into a sandbox

    What is staged into a fresh sandbox is exactly the task's files, with verified contents; of
    a validated task only a wrong checksum or the file system can be refused.  The place of
    sandboxes is private. *)

From S2P Require Import Prelude Collections RustStr Capabilities Placement Blob BlobProps Task Queue BlobTransfer BlobStore BlobStoreProps BlobCache BlobCacheProps Staging StagingProps StagingInputs Sandbox SandboxPaths.
Local Open Scope N_scope.

(** ** One file *)

Lemma file_leaf data ex st : leaf (FsFile data ex st).
Proof. by intros []. Qed.

Lemma reaches_leaf n q m : leaf n -> reaches n q m -> q = [] /\ n = m.
Proof. intros Hn Hr. destruct q; [by apply reaches_nil_inv in Hr|]. apply reaches_cons_inv in Hr as (? & ? & ? & -> & _). by destruct Hn. Qed.

(** Writing a file where nothing or a file was. *)
Lemma overwrite_spec path n file r es : fs_ok n -> names_ok path -> path <> [] -> reaches n (removelast path) (FsDir r es) ->
  match fs_lookup n path with LkMissing | LkFound (FsFile _ _ _) => True | _ => False end -> leaf file -> fs_ok file ->
  fs_ok (create_file n path file) /\ is_dir (create_file n path file)
  /\ forall p m, leaf m -> reaches (create_file n path file) p m <-> (p = path /\ m = file) \/ (p <> path /\ reaches n p m).
Proof.
  intros Hok Hn Hne Hr Hfree Hlf Hfo. revert n Hok Hn Hne Hr Hfree. induction path as [|name path IH]; intros n Hok Hn Hne Hr Hfree; [done|]. apply Forall_cons in Hn as [[Hnn Hsl] Hn].
  destruct path as [|next path].
  - cbn [removelast] in Hr. apply reaches_nil_inv in Hr as ->. cbn [create_file]. cbn [fs_lookup] in Hfree. split; [by apply fs_ok_set|]. split; [done|].
    intros p m Hm. rewrite reaches_set by done. destruct p as [|k q]; [split; [done|intros [[? _]|[_ <-%reaches_nil_inv]]; [done|by apply Hm]]|].
    case_decide as Hk; [subst k|naive_solver]. split; [intros [-> ->]%reaches_leaf; auto|]. intros [[[= ->] ->]|[Hq Hx]]; [constructor|]. exfalso. apply reaches_name in Hx as (child & Hc & Hx); [|done].
    rewrite Hc in Hfree. destruct child as [d x s|?|?|?|?]; cbn [fs_lookup] in Hfree; try done. apply reaches_leaf in Hx as [-> _]; [done|apply file_leaf].
  - change (removelast (name :: next :: path)) with (name :: removelast (next :: path)) in Hr. apply reaches_cons_inv in Hr as (r0 & es0 & child & -> & Hin & Hr).
    inversion Hok as [? ? Hf _ _| | | |]; subst. assert (Hc : fs_child name es0 = Some child) by (apply fs_child_in; eauto).
    assert (Hcok : fs_ok child) by (by eapply fs_ok_child). cbn [fs_lookup] in Hfree. rewrite Hc in Hfree.
    destruct (IH child Hcok Hn ltac:(done) Hr Hfree) as (H1 & H2 & H3). change (create_file (FsDir r0 es0) (name :: next :: path) file) with
      (match fs_child name es0 with Some child => FsDir r0 (fs_set name (create_file child (next :: path) file) es0) | None => FsDir r0 es0 end). rewrite Hc.
    split; [by apply fs_ok_set|]. split; [done|]. intros p m Hm. rewrite reaches_set by done. destruct p as [|k q]; [split; [done|intros [[? _]|[_ <-%reaches_nil_inv]]; [done|by apply Hm]]|].
    case_decide as Hk; [subst k|naive_solver]. rewrite (H3 q m Hm), reaches_name by done. rewrite Hc. naive_solver.
Qed.

(** A tree of directories and readable files only. *)
Definition plain (n : FsNode) : Prop := fs_ok n /\ is_dir n /\ forall p m, leaf m -> reaches n p m -> exists data ex, m = FsFile data ex true.

Lemma plain_empty : plain (FsDir true []).
Proof.
  split; [apply new_dir_ok|]. split; [done|]. intros p m Hm Hr. destruct p; [apply reaches_nil_inv in Hr as <-; by destruct Hm|].
  by apply reaches_cons_inv in Hr as (? & ? & ? & [= <- <-] & ?%elem_of_nil & _).
Qed.

Lemma plain_linkless n : plain n -> linkless n.
Proof. intros (_ & _ & Hp) p Hr. destruct (Hp p FsLink) as (? & ? & ?); [by intros []|done|done]. Qed.

Lemma write_below_spec io root rel data ex : plain root -> names_ok (split SLASH rel) ->
  match write_below io root rel data ex with
  | Ok root' => plain root' /\ exists ex', (wi_chmod io = true -> ex' = ex)
      /\ forall p m, leaf m -> reaches root' p m <-> (p = split SLASH rel /\ m = FsFile data ex' true) \/ (p <> split SLASH rel /\ reaches root p m)
  | Err e => e = SbIo
  end.
Proof.
  intros Hpl Hn. pose proof Hpl as (Hok & Hd & Hleaf). unfold write_below. set (path := split SLASH rel) in *. assert (Hne : path <> []) by apply split_not_nil.
  destruct (wi_mkdir io); [|done]. cbn [negb]. pose proof (create_dir_all_inside (removelast path) root (plain_linkless _ Hpl)) as Hin.
  assert (Hnr : names_ok (removelast path)) by (unfold names_ok in *; rewrite (app_removelast_last [] Hne) in Hn; by apply Forall_app in Hn as [? _]).
  destruct (create_dir_all root (removelast path)) as [root1| |] eqn:Em; [|done..]. destruct (create_dir_all_spec _ _ _ Hok Hnr Em) as (Hok1 & Hd1 & Hl1 & r1 & es1 & Hr1).
  unfold write_target. destruct (wi_write io); [|done]. cbn [negb].
  assert (Hlook : forall m, fs_lookup root1 path = LkFound m -> leaf m -> exists d x, m = FsFile d x true) by (intros m Hm%lookup_reaches Hlm; apply (Hleaf path); [done|by apply Hl1]).
  assert (Hsafe : forall ex', match fs_lookup root1 path with LkMissing | LkFound (FsFile _ _ _) => True | _ => False end -> (wi_chmod io = true -> ex' = ex) ->
    plain (create_file root1 path (FsFile data ex' true)) /\ exists x, (wi_chmod io = true -> x = ex) /\ forall p m, leaf m ->
      reaches (create_file root1 path (FsFile data ex' true)) p m <-> (p = path /\ m = FsFile data x true) \/ (p <> path /\ reaches root p m)).
  { intros ex' Hfree Hex. destruct (overwrite_spec path root1 (FsFile data ex' true) r1 es1) as (Hok2 & Hd2 & Hl2); [done..|apply file_leaf|constructor|].
    assert (Hr2 : forall p m, leaf m -> reaches (create_file root1 path (FsFile data ex' true)) p m <-> (p = path /\ m = FsFile data ex' true) \/ (p <> path /\ reaches root p m)).
    { intros p m Hm. rewrite (Hl2 p m Hm), (Hl1 p m Hm). done. }
    split; [|by exists ex']. split; [done|]. split; [done|]. intros p m Hm [[_ ->]|[_ Hx]]%(Hr2 p m Hm); [by eexists _, _|by apply (Hleaf p)]. }
  destruct (fs_lookup root1 path) as [m| | |] eqn:El.
  - destruct m as [d was st|?|?|?|?]; try done; try (destruct (Hlook _ eq_refl) as (? & ? & ?); [by intros []|done]).
    destruct (Hlook _ eq_refl (file_leaf _ _ _)) as (? & ? & [= <- <- ->]). apply Hsafe; [done|]. intros Hc. by rewrite Hc.
  - apply Hsafe; [done|]. intros Hc. by rewrite Hc.
  - done.
  - exfalso. rewrite (app_removelast_last [] Hne), fs_lookup_app, (reaches_lookup _ _ _ Hok1 Hr1) in El by done. cbn [fs_lookup] in El. destruct (fs_child _ es1) as [c|]; [|done]. by destruct c.
Qed.

Lemma canonical_names_ok raw rel : normalize_relative_path_str raw = Ok rel -> names_ok (split SLASH rel).
Proof.
  intros (names & -> & Hn & Hc)%normalize_Ok. change SLASH with 47. rewrite canonical_split by done. eapply Forall_impl; [exact Hc|].
  by intros s (_ & ? & _ & _ & ?)%canonical_parts.
Qed.

(** ** Staged files *)

Section staged.
Context `{Sha256}.

(** Where a staged file goes, and what it becomes there. *)
Definition staged_path (f : StagedFile) : option (list Str) := match normalize_relative_path_str (sf_path f) with Ok rel => Some (split SLASH rel) | Err _ => None end.
Definition staged_node (f : StagedFile) : FsNode := FsFile (sf_data f) (sf_executable f) true.

(** [f] is the last of [files] that goes to the path [p]. *)
Definition staged_last (files : list StagedFile) (p : list Str) (f : StagedFile) : Prop :=
  exists before after, files = before ++ f :: after /\ staged_path f = Some p /\ Forall (fun g => staged_path g <> Some p) after.

Definition overlay (files : list StagedFile) (root : FsNode) (p : list Str) (m : FsNode) : Prop :=
  (exists f, staged_last files p f /\ m = staged_node f) \/ (Forall (fun g => staged_path g <> Some p) files /\ reaches root p m).

Lemma staged_last_cons f files p g : staged_last (f :: files) p g <-> staged_last files p g \/ (g = f /\ staged_path f = Some p /\ Forall (fun g => staged_path g <> Some p) files).
Proof.
  split.
  - intros ([|x before] & after & [= <- ->] & Hp & Hf); [by right|]. left. by exists before, after.
  - intros [(before & after & -> & Hp & Hf)|(-> & Hp & Hf)]; [by exists (f :: before), after|by exists [], files].
Qed.

Lemma staged_dec files p : Forall (fun g => staged_path g <> Some p) files \/ exists f, staged_last files p f.
Proof.
  induction files as [|f files [IH|[g Hg]]]; [by left| |right; exists g; apply staged_last_cons; by left].
  destruct (decide (staged_path f = Some p)) as [Hp|Hp]; [right; exists f; apply staged_last_cons; by right|left; by constructor].
Qed.

Lemma staged_last_not files p f : staged_last files p f -> ~ Forall (fun g => staged_path g <> Some p) files.
Proof. intros (before & after & -> & Hp & _) Hf. rewrite Forall_app, Forall_cons in Hf. naive_solver. Qed.

Lemma write_staged_spec io files root : (forall rel, wi_chmod (io rel) = true) -> plain root ->
  match write_staged_files io root files with
  | Ok root' => plain root' /\ forall p m, leaf m -> reaches root' p m <-> overlay files root p m
  | Err e => e = SbIo \/ exists f e', f ∈ files /\ normalize_relative_path_str (sf_path f) = Err e' /\ e = SbPathTraversal (TrPath e')
  end.
Proof.
  intros Hch. revert root. induction files as [|f files IH]; intros root Hpl; cbn [write_staged_files].
  { split; [done|]. intros p m Hm. split; [intros Hr; by right|]. intros [(f & (before & after & Hf & _) & _)|[_ ?]]; [by destruct before|done]. }
  destruct (normalize_relative_path_str (sf_path f)) as [rel|e'] eqn:En; [|right; exists f, e'; set_solver].
  pose proof (write_below_spec (io rel) root rel (sf_data f) (sf_executable f) Hpl (canonical_names_ok _ _ En)) as Hw. destruct (write_below _ _ _ _ _) as [root1|e]; [|by left].
  destruct Hw as (Hpl1 & ex' & Hex & Hr1). rewrite (Hex (Hch rel)) in Hr1. specialize (IH root1 Hpl1). destruct (write_staged_files io root1 files) as [root'|e].
  - destruct IH as [Hpl' Hr']. split; [done|]. intros p m Hm. rewrite (Hr' p m Hm). unfold overlay. setoid_rewrite staged_last_cons. rewrite (Hr1 p m Hm), Forall_cons.
    assert (Hsp : staged_path f = Some p <-> p = split SLASH rel) by (unfold staged_path; rewrite En; naive_solver). setoid_rewrite Hsp. unfold staged_node. pose proof (staged_last_not files p) as Hnot.
    split; [intros [(g & ? & ?)|[Hf [[-> ->]|[Hp Hr]]]]|intros [(g & [?|(-> & -> & Hf)] & ->)|[[Hp Hf] Hr]]]; [left; exists g; auto|left; exists f; auto|right; auto|left; exists g; auto|right; auto|right; auto].
  - destruct IH as [?|(g & e' & Hg & ?)]; [by left|right; exists g, e'; set_solver].
Qed.

Lemma check_staged_files_sums total files : check_staged_files total files = Ok tt -> Forall (fun f => verify_checksum f = true) files.
Proof.
  revert total. induction files as [|f files IH]; intros total; cbn [check_staged_files]; [constructor|]. repeat (case_match; try done). intros Hc. constructor; [by apply negb_false_iff|by eapply IH].
Qed.

Lemma empty_leaves p m : leaf m -> ~ reaches (FsDir true []) p m.
Proof.
  intros Hm Hx. destruct p; [apply reaches_nil_inv in Hx as <-; by destruct Hm|]. by apply reaches_cons_inv in Hx as (? & ? & ? & [= <- <-] & ?%elem_of_nil & _).
Qed.

Lemma stage_fresh io files root' : (forall rel, wi_chmod (io rel) = true) -> stage_files io (FsDir true []) files = Ok root' ->
  plain root' /\ forall p m, leaf m -> reaches root' p m <-> exists f, staged_last files p f /\ m = staged_node f.
Proof.
  intros Hch. unfold stage_files. destruct (check_staged_files 0 files); [|done]. intros Hw.
  pose proof (write_staged_spec io files (FsDir true []) Hch plain_empty) as Hs. rewrite Hw in Hs. destruct Hs as [Hpl Hr]. split; [done|]. intros p m Hm. rewrite (Hr p m Hm).
  split; [|by left]. intros [?|[_ Hx]]; [done|]. by apply empty_leaves in Hx.
Qed.

(** What a task's sandbox holds once its staged files are in: in a sandbox that was
    created empty, at every path the last file the task stages there, with its content and
    mode, and nothing else.  Each content has the length and the digest the task states. *)
Theorem staged_exact io files root' : (forall rel, wi_chmod (io rel) = true) -> stage_files io (FsDir true []) files = Ok root' ->
  Forall (fun f => verify_checksum f = true) files
  /\ plain root' /\ forall p m, leaf m -> reaches root' p m <-> exists f, staged_last files p f /\ m = staged_node f.
Proof.
  intros Hch Hs. split; [|by eapply stage_fresh]. unfold stage_files in Hs. destruct (check_staged_files 0 files) as [[]|] eqn:Ec; [|done]. by eapply check_staged_files_sums.
Qed.

(** ** Tasks the master accepted *)

Lemma check_staged_ok total files : check_staged total files = Ok tt ->
  (check_staged_files total files = Ok tt \/ check_staged_files total files = Err (SbPathTraversal TrChecksum))
  /\ forall f, f ∈ files -> exists rel, normalize_relative_path_str (sf_path f) = Ok rel.
Proof.
  revert total. induction files as [|f files IH]; intros total; cbn [check_staged check_staged_files]; [split; [by left|by intros ? ?%elem_of_nil]|].
  destruct (negb _) eqn:E1; [done|]. destruct (MAX_STAGED_FILE_BYTES <? _); [done|]. destruct (MAX_AGGREGATE_STAGED_BYTES <? _); [done|].
  destruct (validate_relative_sandbox_path (sf_path f)) as [rel|] eqn:Ev; [|done]. intros [Hc Hp]%IH. split.
  - destruct (negb (verify_checksum f)); [by right|done].
  - intros g [->|Hg]%elem_of_cons; [exists rel; by apply normalize_validates|by apply Hp].
Qed.

Lemma task_validate_staged t : task_validate t = Ok tt -> check_staged 0 (task_staged_files t) = Ok tt.
Proof.
  unfold task_validate, result_bind. destruct (spec_validate _); [|done]. destruct (requirements_validate _); [|done]. destruct (if _ && _ then _ else _); [|done].
  destruct (map_err _ _); [|done]. by destruct (check_staged 0 _) as [[]|].
Qed.

(** What can still go wrong when the files of an accepted task are staged: a task that
    passed validation is refused by the worker for a wrong checksum or because the file
    system refused, never for a path or a size. *)
Theorem validated_task_stages t io e : task_validate t = Ok tt -> (forall rel, wi_chmod (io rel) = true) ->
  stage_files io (FsDir true []) (task_staged_files t) = Err e -> e = SbIo \/ e = SbPathTraversal TrChecksum.
Proof.
  intros Hv Hch. destruct (check_staged_ok _ _ (task_validate_staged t Hv)) as [Hc Hp]. unfold stage_files. destruct Hc as [-> | ->]; [|intros [= <-]; by right].
  intros Hw. pose proof (write_staged_spec io (task_staged_files t) (FsDir true []) Hch plain_empty) as Hs. rewrite Hw in Hs. destruct Hs as [?|(f & e' & Hf & He & _)]; [by left|].
  destruct (Hp f Hf) as [rel ?]. congruence.
Qed.
End staged.

(** ** A private place *)

Lemma split_app_both c a b : split c (a ++ c :: b) = split c a ++ split c b.
Proof.
  induction a as [|x a IH]; cbn [app split]; [by rewrite N.eqb_refl|]. rewrite IH. destruct (x =? c); [done|]. destruct (split c a) as [|p ps] eqn:E; [by apply split_not_nil in E|done].
Qed.

Lemma components_below a b : a <> [] -> components (a ++ 47 :: b) = components a ++ omap (component_of false) (split 47 b).
Proof.
  intros Ha. unfold components, is_absolute. rewrite !starts_with_char, split_app_both. destruct a as [|x a]; [done|]. cbn [app]. destruct (split 47 (x :: a)) as [|p ps] eqn:E; [by apply split_not_nil in E|].
  cbn [app]. rewrite omap_app. by rewrite !app_assoc.
Qed.

Lemma show_uint_range u : Forall (fun c => 48 <= c <= 57) (show_uint u).
Proof. induction u; cbn [show_uint]; repeat constructor; try done; lia. Qed.

Lemma root_name_last euid : last (default_root_name euid) <> Some 47.
Proof.
  unfold default_root_name. rewrite last_app. destruct (last (show_N euid)) as [c|] eqn:E; [|done]. intros [= ->]. apply last_Some_elem_of in E.
  pose proof (show_uint_range (N.to_uint euid)) as Hd. rewrite Forall_forall in Hd. apply Hd in E. lia.
Qed.

Lemma root_path_last t euid : path_join t (default_root_name euid) <> [] /\ last (path_join t (default_root_name euid)) <> Some 47.
Proof.
  pose proof (root_name_last euid) as Hl. assert (Hn : default_root_name euid <> []) by (unfold default_root_name; by intros [? _]%app_eq_nil).
  assert (Hs : exists c, last (default_root_name euid) = Some c) by (destruct (last (default_root_name euid)) eqn:E; [by eexists|by apply last_None in E]). destruct Hs as [c Hc].
  unfold path_join. case_match; (split; [intros Hx; by apply app_eq_nil in Hx as [_ ?]|]); rewrite ?last_app_cons, ?last_cons, ?last_app, Hc; congruence.
Qed.

(** Without a directory of the operator the private root is the one that is checked. *)
Lemma default_root_checked env temp euid : match env SANDBOX_BASE_DIR_ENV with Some v => trim v = [] | None => True end ->
  exists r, checked_private_root (config_from_env env temp euid) = Some r.
Proof.
  intros Henv. unfold config_from_env, default_base.
  assert (Hn : match env SANDBOX_BASE_DIR_ENV with Some v => if is_empty (trim v) then None else Some v | None => None end = None) by (destruct (env SANDBOX_BASE_DIR_ENV) as [v|]; [by rewrite Henv|done]).
  rewrite Hn. set (t := default temp _). set (r := path_join t (default_root_name euid)). exists r. unfold checked_private_root. cbn [sx_private_root sx_base_dir].
  destruct (root_path_last t euid) as [Hr0 Hr1]. fold r in Hr0, Hr1. unfold path_join. destruct (is_empty r) eqn:Er; [by destruct r|]. cbn [orb].
  rewrite bool_decide_false by done. unfold path_starts_with. rewrite bool_decide_true; [done|]. rewrite components_below by done. by eexists.
Qed.

Lemma root_refusal_None meta euid : root_refusal meta euid = None -> mt_is_symlink meta = false /\ mt_is_dir meta = true /\ mt_uid meta = euid /\ N.land (mt_mode meta) 63 = 0.
Proof.
  unfold root_refusal. destruct (mt_is_symlink meta); [done|]. destruct (mt_is_dir meta); [|done]. cbn [negb]. destruct (N.eqb_spec (mt_uid meta) euid); [|done]. cbn [negb].
  destruct (N.eqb_spec (N.land (N.land (mt_mode meta) 4095) 63) 0) as [Hm|]; [|done]. by rewrite <-N.land_assoc in Hm.
Qed.

Lemma parent_refusal_None meta euid : parent_refusal meta euid = None -> (mt_uid meta = 0 \/ mt_uid meta = euid) /\ (N.land (mt_mode meta) 18 = 0 \/ N.land (mt_mode meta) 512 <> 0).
Proof.
  unfold parent_refusal. destruct (N.eqb_spec (mt_uid meta) 0), (N.eqb_spec (mt_uid meta) euid); cbn [negb andb]; try done;
    intros Hm; (split; [auto|]); destruct (N.eqb_spec (N.land (mt_mode meta) 18) 0), (N.eqb_spec (N.land (mt_mode meta) 512) 0); auto; done.
Qed.

Definition private_to (euid : N) (io : PrivateIo) : Prop :=
  exists meta, pv_root_meta io = Some meta /\ mt_is_symlink meta = false /\ mt_is_dir meta = true /\ mt_uid meta = euid /\ N.land (mt_mode meta) 63 = 0
    /\ (pv_has_parent io = true -> exists above, pv_parent_meta io = Some above /\ (mt_uid above = 0 \/ mt_uid above = euid)
                                                 /\ (N.land (mt_mode above) 18 = 0 \/ N.land (mt_mode above) 512 <> 0)).

Lemma private_dir_safe io euid : ensure_private_dir io euid = Ok tt -> private_to euid io.
Proof.
  unfold ensure_private_dir. destruct (ensure_parent io euid) as [[]|] eqn:Ep; [|done]. intros Hd.
  assert (Hm : exists meta, pv_root_meta io = Some meta /\ root_refusal meta euid = None) by (destruct (pv_mkdir io), (pv_root_meta io) as [meta|]; try done; exists meta; by destruct (root_refusal meta euid)).
  destruct Hm as (meta & Hmeta & (Hs & Hdir & Hu & Hmo)%root_refusal_None). exists meta. do 5 (split; [done|]). intros Hpar. unfold ensure_parent in Ep. rewrite Hpar in Ep.
  destruct (pv_parent_made io); [|done]. cbn [negb] in Ep. destruct (pv_parent_meta io) as [above|]; [|done]. exists above. split; [done|]. apply parent_refusal_None. by destruct (parent_refusal above euid).
Qed.

(** A sandbox no other user can reach into: unless the operator names a directory, the
    place of the sandboxes is inside a directory that is real, belongs to the worker's user and
    lets nobody else in, itself in a directory whose owner is root or that user and where
    others can write only under the sticky bit; otherwise no sandbox is created. *)
Theorem default_root_private env temp euid io exists_ made root : match env SANDBOX_BASE_DIR_ENV with Some v => trim v = [] | None => True end ->
  sandbox_create (config_from_env env temp euid) io euid exists_ made = Ok root -> private_to euid io.
Proof.
  intros Henv. destruct (default_root_checked env temp euid Henv) as [r Hr]. unfold sandbox_create, ensure_private_root. rewrite Hr.
  destruct (ensure_private_dir io euid) as [[]|] eqn:Ed; [|done]. intros _. by apply private_dir_safe.
Qed.

(** What is removed of an older worker's cache is the worker's own, and real. *)
Lemma legacy_cleanup_own base cache child euid name : name ∈ remove_legacy_staging_cache base cache child euid ->
  (name = str "objects" \/ name = str "tmp") /\ real_owned base euid = true /\ real_owned cache euid = true /\ real_owned (child name) euid = true.
Proof.
  unfold remove_legacy_staging_cache. destruct (real_owned base euid); [|by intros ?%elem_of_nil]. destruct (real_owned cache euid); [|by intros ?%elem_of_nil]. cbn [negb].
  intros [Hin Hc]%list_elem_of_In%filter_In. split; [|done]. apply list_elem_of_In in Hin. set_solver.
Qed.

(** ** Witnesses *)

Definition plain_sha : Sha256 := fun data => data.
Definition all_ok (rel : Str) : WriteIo := {| wi_mkdir := true; wi_write := true; wi_chmod := true |}.
Definition staged (path data : Str) (executable : bool) : StagedFile :=
  {| sf_path := path; sf_size := blen data; sf_sha256 := data; sf_executable := executable; sf_data := data |}.

(** Two files and a second version of the first. *)
Definition sample_staged : list StagedFile := [staged (str "a/x") [1] false; staged (str "y") [2] true; staged (str "a\x") [3] true].

Lemma staged_exact_witness : exists root', stage_files (H := plain_sha) all_ok (FsDir true []) sample_staged = Ok root' /\ reaches root' [str "a"; str "x"] (FsFile [3] true true).
Proof.
  eassert (E : stage_files (H := plain_sha) all_ok (FsDir true []) sample_staged = Ok _) by (vm_compute; reflexivity). eexists. split; [exact E|].
  destruct (staged_exact (H := plain_sha) all_ok sample_staged _ (fun _ => eq_refl) E) as (_ & _ & Hr). apply Hr; [by intros []|]. exists (staged (str "a\x") [3] true). split; [|reflexivity].
  exists [staged (str "a/x") [1] false; staged (str "y") [2] true], []. split; [reflexivity|]. split; [vm_compute; reflexivity|constructor].
Defined.

(** A task whose file has a wrong checksum. *)
Definition sample_staging_task : Task := {|
  task_id := 1; task_spec := ShellScript (str "true") None ∅; task_requirements := requirements_default; task_created_at_utc := 0; task_tags := [];
  task_latest_checkpoint := None; task_staged_files := [{| sf_path := str "a"; sf_size := 1; sf_sha256 := []; sf_executable := false; sf_data := [7] |}];
  task_expected_outputs := []; task_inputs := []; task_output_globs := [] |}.

Lemma validated_task_stages_witness : task_validate sample_staging_task = Ok tt
  /\ exists e, stage_files (H := plain_sha) all_ok (FsDir true []) (task_staged_files sample_staging_task) = Err e /\ (e = SbIo \/ e = SbPathTraversal TrChecksum).
Proof.
  assert (Hv : task_validate sample_staging_task = Ok tt) by (vm_compute; reflexivity). split; [exact Hv|].
  eassert (E : stage_files (H := plain_sha) all_ok (FsDir true []) (task_staged_files sample_staging_task) = Err _) by (vm_compute; reflexivity). eexists. split; [exact E|].
  exact (validated_task_stages (H := plain_sha) sample_staging_task all_ok _ Hv (fun _ => eq_refl) E).
Defined.

Definition sample_private : PrivateIo := {|
  pv_has_parent := true; pv_parent_made := true; pv_parent_meta := Some {| mt_uid := 0; mt_mode := 1023; mt_is_dir := true; mt_is_symlink := false |};
  pv_mkdir := MkAlreadyExists; pv_root_meta := Some {| mt_uid := 5; mt_mode := 448; mt_is_dir := true; mt_is_symlink := false |} |}.

Lemma default_root_private_witness : sandbox_create (config_from_env (fun _ => None) (str "/tmp") 5) sample_private 5 (Some false) (Some (FsDir true [])) = Ok (FsDir true []) /\ private_to 5 sample_private.
Proof.
  assert (E : sandbox_create (config_from_env (fun _ => None) (str "/tmp") 5) sample_private 5 (Some false) (Some (FsDir true [])) = Ok (FsDir true [])) by (vm_compute; reflexivity).
  split; [exact E|]. exact (default_root_private (fun _ => None) (str "/tmp") 5 sample_private (Some false) (Some (FsDir true [])) (FsDir true []) I E).
Defined.
