(* ===== verification/Runner.v ===== *)
(** * Runner: a task that runs a process, from its sandbox to its result

    Models the three workloads of [crates/worker/src/runner.rs] that run a process in a sandbox:
    commands, shell scripts and Rust compilations.  Each creates a sandbox, stages files, places
    blob inputs, runs the process, harvests declared artifacts, collects the files its output
    patterns select, and destroys the sandbox.  What the operating system does is the argument
    [Host]; the printed forms of the errors of the sandbox and of staging are arguments too.
    Files do not change while they are harvested.  The rules of Windows are left out. *)

From S2P Require Import Prelude Collections RustStr Capabilities Placement Blob Task Queue ClusterAuth BlobTransfer BlobStore BlobCache Staging WorkerTasks Process Sandbox.
Local Open Scope N_scope.

Definition MAX_OUTPUT_ARTIFACT_BYTES : N := 10 * 1024 * 1024.
Definition MAX_AGGREGATE_ARTIFACT_BYTES : N := 32 * 1024 * 1024.

(** What the file system finds at a path that goes through a link: the node, and whether the
    two canonical paths, if both can be had, say it is inside the sandbox. *)
Record Through := { th_node : option FsNode; th_inside : option bool }.

(** The process the runner asks for; [la_cwd] is below the sandbox. *)
Record Launch := { la_program : Str; la_args : list Str; la_cwd : Str; la_env : gmap Str Str; la_stdin : option Bytes }.

Record Host := {
  w_euid : N;
  w_private : PrivateIo;
  w_exists : option bool;
  w_made : option FsNode;
  w_write : Str -> WriteIo;
  w_script_chmod : bool;
  w_place : Str -> PlaceIo;
  w_env : gmap Str Str;
  w_is_file : Str -> bool;
  w_process : Launch -> FsNode -> Spawn * FsNode;
  w_through : list Str -> Through;
  w_read_error : Str -> option Str;
  w_put : Str -> PutIo;
  w_after_put : list CacheHold;
  w_probed : bool;
  w_removed : bool;
  w_elapsed_ms : N
}.

(** The parts of [TaskRunner] and its configuration the workloads use; the blob cache as it was
    opened on first use, or why it could not be. *)
Record TaskRunner := {
  tr_worker_id : Uuid;
  tr_sandbox : SandboxConfig;
  tr_max_output_bytes : N;
  tr_output_limits : OutputLimits;
  tr_cache : result Str BlobCache
}.

Definition with_cache_of (c : result Str BlobCache) (r : TaskRunner) : TaskRunner := {|
  tr_worker_id := tr_worker_id r; tr_sandbox := tr_sandbox r; tr_max_output_bytes := tr_max_output_bytes r;
  tr_output_limits := tr_output_limits r; tr_cache := c
|}.

(** ** Results *)

Definition upd_result (r : TaskResult) (code : Z) (stdout stderr : Bytes) (error : option Str) (artifacts : list OutputArtifact) (outputs : list BlobFile) : TaskResult := {|
  res_worker_id := res_worker_id r; res_task_id := res_task_id r; res_exit_code := code; res_stdout := stdout; res_stderr := stderr;
  res_execution_time_ms := res_execution_time_ms r; res_is_gpu_executed := res_is_gpu_executed r; res_device_name := res_device_name r;
  res_error := error; res_asset_bytes := res_asset_bytes r; res_artifacts := artifacts; res_outputs := outputs
|}.

Definition with_artifacts (artifacts : list OutputArtifact) (r : TaskResult) : TaskResult :=
  upd_result r (res_exit_code r) (res_stdout r) (res_stderr r) (res_error r) artifacts (res_outputs r).
Definition with_outputs (outputs : list BlobFile) (r : TaskResult) : TaskResult :=
  upd_result r (res_exit_code r) (res_stdout r) (res_stderr r) (res_error r) (res_artifacts r) outputs.
Definition with_stdout (stdout : Bytes) (r : TaskResult) : TaskResult :=
  upd_result r (res_exit_code r) stdout (res_stderr r) (res_error r) (res_artifacts r) (res_outputs r).

(** A failure to bring files back fails the task. *)
Definition output_files_failed (e : Str) (r : TaskResult) : TaskResult :=
  let message := str "Output files: " ++ e in
  upd_result r (if (res_exit_code r =? EXIT_CODE_SUCCESS)%Z then EXIT_CODE_GENERAL_ERROR else res_exit_code r) (res_stdout r)
    (append_note (res_stderr r) (str "[rusty_grid: " ++ message ++ str "]" ++ [10]))
    (Some (match res_error r with Some error => error ++ str "; " ++ message | None => message end)) (res_artifacts r) (res_outputs r).

(** ** Declared artifacts *)

Definition quoted (prefix : string) (expected : Str) (rest : string) : Str := str prefix ++ str " '" ++ expected ++ str "'" ++ str rest.

Section runner.
Context `{Sha256} `{BlobHash} `{ManifestCodec}.
Context (show_sandbox : SandboxError -> Str) (show_stage : StageError -> Str) (show_uuid : N -> Str).

(** What is at a path, links on the way followed, and whether it is known to be outside. *)
Definition look (w : Host) (root : FsNode) (path : list Str) : option FsNode * option bool :=
  match fs_lookup root path with
  | LkFound n => (Some n, Some true)
  | LkMissing | LkRefused => (None, None)
  | LkThroughLink => (th_node (w_through w path), th_inside (w_through w path))
  end.

(** One round of the loop of [harvest_output_artifacts]: the artifact, if the file is there. *)
Definition harvest_one (w : Host) (root : FsNode) (expected : Str) (process_failed : bool) (total_bytes : N) : result Str (option OutputArtifact) :=
  match sanitize_relative_path (utf8_encode expected) with
  | Err _ => Err (quoted "output artifact" expected " resolves outside sandbox root")
  | Ok rel =>
      match look w root (split SLASH rel) with
      | (None, _) => if negb process_failed then Err (quoted "the task did not produce" expected "") else Ok None
      | (Some FsLink, _) =>
          Err (quoted "output artifact" expected " is a symbolic link (symbolic links are prohibited for security isolation)")
      | (Some (FsFile data _ _), inside) =>
          let size := blen data in
          if MAX_OUTPUT_ARTIFACT_BYTES <? size then
            Err (quoted "output artifact" expected " is " ++ show_N size ++ str " bytes; exceeds single file limit of 10 MiB")
          else if MAX_AGGREGATE_ARTIFACT_BYTES <? total_bytes + size then
            Err (quoted "output artifact" expected " causes aggregate size to exceed limit of 32 MiB")
          else if bool_decide (inside = Some false) then Err (quoted "output artifact" expected " resolves outside sandbox root")
          else
            match w_read_error w expected with
            | Some err => Err (quoted "failed to read output artifact" expected ": " ++ err)
            | None => Ok (Some {| oa_path := expected; oa_size := size; oa_sha256 := sha256_digest data; oa_data := data |})
            end
      | (Some _, _) => Err (quoted "output artifact" expected " is not a regular file")
      end
  end.

Fixpoint harvest_loop (w : Host) (root : FsNode) (expected_outputs : list Str) (process_failed : bool) (total_bytes : N) : result Str (list OutputArtifact) :=
  match expected_outputs with
  | [] => Ok []
  | expected :: expected_outputs =>
      match harvest_one w root expected process_failed total_bytes with
      | Err e => Err e
      | Ok None => harvest_loop w root expected_outputs process_failed total_bytes
      | Ok (Some a) =>
          match harvest_loop w root expected_outputs process_failed (total_bytes + oa_size a) with
          | Ok collected => Ok (a :: collected)
          | Err e => Err e
          end
      end
  end.

Definition harvest_output_artifacts (w : Host) (root : FsNode) (expected_outputs : list Str) (process_failed : bool) : result Str (list OutputArtifact) :=
  harvest_loop w root expected_outputs process_failed 0.

Definition harvest_and_apply_artifacts (w : Host) (root : FsNode) (t : Task) (r : TaskResult) (process_failed : bool) : TaskResult :=
  if is_empty (task_expected_outputs t) then r
  else match harvest_output_artifacts w root (task_expected_outputs t) process_failed with
       | Ok artifacts => with_artifacts artifacts r
       | Err e => output_files_failed e r
       end.

(** ** Files in and out *)

Definition prepare_staged_files (w : Host) (root : FsNode) (t : Task) : result SandboxError FsNode :=
  if is_empty (task_staged_files t) then Ok root else stage_files (w_write w) root (task_staged_files t).

(** The inputs, from the cache; the sandbox also when it fails. *)
Definition prepare_blob_inputs (w : Host) (root : FsNode) (t : Task) (cache : result Str BlobCache) : result Str unit * FsNode * result Str BlobCache :=
  if is_empty (task_inputs t) then (Ok tt, root, cache)
  else match cache with
       | Err e => (Err e, root, cache)
       | Ok c =>
           match materialize_inputs (w_place w) root (task_inputs t) c with
           | (Ok _, root, c) => (Ok tt, root, Ok c)
           | (Err e, root, c) => (Err (show_stage e), root, Ok c)
           end
       end.

Definition collect_blob_outputs (w : Host) (limits : OutputLimits) (root : FsNode) (t : Task) (r : TaskResult) (extra_patterns : list Str) (cache : result Str BlobCache)
    : TaskResult * result Str BlobCache :=
  let patterns := task_output_globs t ++ extra_patterns in
  if is_empty patterns || (res_exit_code r =? EXIT_CODE_CANCELLED)%Z then (r, cache)
  else match cache with
       | Err e => (output_files_failed e r, cache)
       | Ok c =>
           match collect_outputs_pinned (w_put w) (Some root) patterns limits (negb (is_success r)) c with
           | (Ok (outputs, pin), c) => (with_outputs outputs r, Ok (keep_task_outputs (task_id t) pin (cache_run (w_after_put w) c)))
           | (Err e, c) => (output_files_failed (show_stage e) r, Ok c)
           end
       end.

(** ** The workloads *)

(** What a workload leaves: its result, the runner with its cache, and whether its sandbox is
    still there. *)
Record Done := { dn_result : TaskResult; dn_runner : TaskRunner; dn_left : bool }.

Definition stop_early (w : Host) (r : TaskRunner) (t : Task) (stderr error : Str) : TaskResult :=
  result_failure (tr_worker_id r) (task_id t) EXIT_CODE_GENERAL_ERROR [] (utf8_encode stderr) (w_elapsed_ms w) (Some error).

(** [let _ = sandbox.destroy().await]. *)
Definition left_after (w : Host) (r : TaskRunner) (root : FsNode) : bool :=
  let '(_, _, l) := destroy (sx_keep_sandboxes (tr_sandbox r)) false (w_probed w) (w_removed w) (Some root) in negb (is_none l).

Definition failed_in (w : Host) (r : TaskRunner) (t : Task) (root : FsNode) (stderr error : Str) : Done :=
  {| dn_result := stop_early w r t stderr error; dn_runner := r; dn_left := left_after w r root |}.

(** The start the three workloads share: a sandbox with the staged files and the inputs, or the
    early end. *)
Definition open_sandbox (w : Host) (r : TaskRunner) (t : Task) : Done + (FsNode * TaskRunner) :=
  match sandbox_create (tr_sandbox r) (w_private w) (w_euid w) (w_exists w) (w_made w) with
  | Err e => inl {| dn_result := stop_early w r t (str "Failed to initialize sandbox: " ++ show_sandbox e) (str "Sandbox initialization error: " ++ show_sandbox e);
                    dn_runner := r; dn_left := false |}
  | Ok root =>
      match prepare_staged_files w root t with
      | Err e => inl (failed_in w r t root (str "Failed to stage input files: " ++ show_sandbox e) (str "File staging error: " ++ show_sandbox e))
      | Ok root =>
          match prepare_blob_inputs w root t (tr_cache r) with
          | (Err e, root, c) => inl (failed_in w (with_cache_of c r) t root (str "Failed to place input files: " ++ e) (str "Input files: " ++ e))
          | (Ok _, root, c) => inr (root, with_cache_of c r)
          end
      end
  end.

Definition effective_timeout (t : Task) : N := if req_timeout_secs (task_requirements t) =? 0 then 60 else req_timeout_secs (task_requirements t).

(** [execute_process_supervised]: the result and the sandbox the process leaves. *)
Definition execute_process_supervised (w : Host) (r : TaskRunner) (t : Task) (sandbox_path program : Str) (args : list Str) (cwd : Str) (env : gmap Str Str)
    (stdin : option Bytes) (root : FsNode) : TaskResult * FsNode :=
  let launch := {| la_program := program; la_args := args; la_cwd := cwd;
                   la_env := child_env (w_env w) env (show_uuid (task_id t)) (show_uuid (tr_worker_id r)) sandbox_path; la_stdin := stdin |} in
  let (spawn, root) := w_process w launch root in
  (supervised_result (tr_worker_id r) (task_id t) program (effective_timeout t) (tr_max_output_bytes r) spawn, root).

(** The end the three share: artifacts, outputs, and the sandbox destroyed. *)
Definition close_sandbox (w : Host) (r : TaskRunner) (t : Task) (res : TaskResult) (extra_patterns : list Str) (root : FsNode) : Done :=
  let res := harvest_and_apply_artifacts w root t res (negb (is_success res)) in
  let (res, c) := collect_blob_outputs w (tr_output_limits r) root t res extra_patterns (tr_cache r) in
  {| dn_result := res; dn_runner := with_cache_of c r; dn_left := left_after w r root |}.

Definition make_dirs (root : FsNode) (rel : Str) : FsNode := match create_dir_all root (split SLASH rel) with MdOk root => root | _ => root end.

Definition execute_command_workload (w : Host) (r : TaskRunner) (t : Task) (sandbox_path program : Str) (args : list Str) (env : gmap Str Str)
    (working_dir stdin : option Bytes) : Done :=
  match open_sandbox w r t with
  | inl d => d
  | inr (root, r) =>
      match working_dir with
      | Some sub =>
          match sanitize_relative_path sub with
          | Err e => failed_in w r t root (str "Illegal working_dir: " ++ show_sandbox (SbPathTraversal e)) (str "Invalid working directory path: " ++ show_sandbox (SbPathTraversal e))
          | Ok rel =>
              let (res, root) := execute_process_supervised w r t sandbox_path program args rel env stdin (make_dirs root rel) in
              close_sandbox w r t res [] root
          end
      | None =>
          let (res, root) := execute_process_supervised w r t sandbox_path program args [] env stdin root in
          close_sandbox w r t res [] root
      end
  end.

(** [pick_shell]: the preferred, then the first on the search path, then the fallbacks. *)
Definition pick_shell (is_file : Str -> bool) (preferred : list Str) (path : Str) (fallbacks : list Str) : Str :=
  match List.find is_file preferred with
  | Some found => found
  | None =>
      match List.find is_file (map (fun dir => path_join dir (str "sh")) (split 58 path)) with
      | Some found => found
      | None => default (str "sh") (List.find is_file fallbacks)
      end
  end.

Definition resolve_default_shell (is_file : Str -> bool) (path : Str) : Str := pick_shell is_file [str "/bin/sh"] path [str "/system/bin/sh"].

Definition SCRIPT_NAME : Str := str "task_script.sh".

Definition execute_shell_script_workload (w : Host) (r : TaskRunner) (t : Task) (sandbox_path script : Str) (interpreter : option Str) (env : gmap Str Str) : Done :=
  match open_sandbox w r t with
  | inl d => d
  | inr (root, r) =>
      match write_script (w_write w SCRIPT_NAME) (w_script_chmod w) root SCRIPT_NAME script with
      | Err e => failed_in w r t root (str "Failed to materialize shell script: " ++ show_sandbox e) (str "Script write error: " ++ show_sandbox e)
      | Ok root =>
          let prog := match interpreter with Some interp => interp | None => resolve_default_shell (w_is_file w) (effective_path (w_env w) env) end in
          let (res, root) := execute_process_supervised w r t sandbox_path prog [path_join sandbox_path SCRIPT_NAME] [] env None root in
          close_sandbox w r t res [] root
      end
  end.

(** ** Rust compilations *)

Definition entry_candidates : list (Str * Str) :=
  [(str "src/lib.rs", str "lib"); (str "src/main.rs", str "bin"); (str "lib.rs", str "lib"); (str "main.rs", str "bin")].

(** The entry file and the default crate type; [order] is the order the map yields its files. *)
Definition entry_point (order : list (Str * Str)) : Str * Str :=
  match List.find (fun c : Str * Str => existsb (fun f : Str * Str => bool_decide (f.1 = c.1)) order) entry_candidates with
  | Some c => c
  | None =>
      match List.find (fun f : Str * Str => ends_with (str ".rs") f.1) order with
      | Some f => (f.1, str "lib")
      | None => (str "src/lib.rs", str "lib")
      end
  end.

Definition rustc_args (entry_file crate_name out_dir default_crate_type : Str) (compiler_flags : list Str) : list Str :=
  [entry_file; str "--crate-name"; crate_name; str "--out-dir"; out_dir]
  ++ (if existsb (fun f => bool_decide (f = str "--crate-type")) compiler_flags then [] else [str "--crate-type"; default_crate_type])
  ++ compiler_flags.

Definition is_build_artifact (crate_name fname : Str) : bool :=
  ends_with (str ".rlib") fname || ends_with (str ".dylib") fname || ends_with (str ".so") fname || ends_with (str ".a") fname
  || bool_decide (fname = crate_name) || bool_decide (fname = crate_name ++ str ".exe").

(** What [read_dir] lists in the output directory. *)
Definition list_names (w : Host) (root : FsNode) (path : list Str) : list Str :=
  let found := match fs_lookup root path with LkFound FsLink | LkThroughLink => th_node (w_through w path) | LkFound n => Some n | _ => None end in
  match found with Some (FsDir true entries) => map (fun e : FsEntry => e.1.1) entries | _ => [] end.

(** On success the artifacts are named in the output and returned. *)
Definition report_artifacts (w : Host) (root : FsNode) (crate_name rel_out_dir : Str) (res : TaskResult) : TaskResult * list Str :=
  if is_success res then
    let found_artifacts := List.filter (is_build_artifact crate_name) (list_names w root (split SLASH rel_out_dir)) in
    (if is_empty found_artifacts then res
     else with_stdout (res_stdout res ++ utf8_encode ([10] ++ str "[rusty_grid: compilation artifacts generated in target/: " ++ join_with (str ", ") found_artifacts ++ str "]" ++ [10])) res,
     [rel_out_dir ++ str "/*"])
  else (res, []).

Fixpoint write_source_files (w : Host) (root : FsNode) (order : list (Str * Str)) : result (Str * SandboxError) FsNode :=
  match order with
  | [] => Ok root
  | (rel_path, content) :: order =>
      match write_file (w_write w rel_path) root (utf8_encode rel_path) (utf8_encode content) with
      | Err e => Err (rel_path, e)
      | Ok root => write_source_files w root order
      end
  end.

Definition execute_rust_compilation_workload (w : Host) (r : TaskRunner) (t : Task) (sandbox_path crate_name : Str) (order : list (Str * Str))
    (compiler_flags : list Str) (target_dir : option Bytes) : Done :=
  match open_sandbox w r t with
  | inl d => d
  | inr (root, r) =>
      match write_source_files w root order with
      | Err (rel_path, e) => failed_in w r t root (str "Failed to write source file '" ++ rel_path ++ str "': " ++ show_sandbox e) (str "Source materialization error: " ++ show_sandbox e)
      | Ok root =>
          let (entry_rel, default_crate_type) := entry_point order in
          match (match target_dir with Some td => sanitize_relative_path td | None => Ok (str "target") end) with
          | Err e => failed_in w r t root (str "Invalid target_dir: " ++ show_sandbox (SbPathTraversal e)) (str "Target directory path error: " ++ show_sandbox (SbPathTraversal e))
          | Ok rel_out_dir =>
              let args := rustc_args (path_join sandbox_path entry_rel) crate_name (path_join sandbox_path rel_out_dir) default_crate_type compiler_flags in
              let (res, root) := execute_process_supervised w r t sandbox_path (str "rustc") args [] ∅ None (make_dirs root rel_out_dir) in
              let (res, artifact_patterns) := report_artifacts w root crate_name rel_out_dir res in
              close_sandbox w r t res artifact_patterns root
          end
      end
  end.

(** The branches of [execute_task_with_checkpoint] that run a process. *)
Definition execute_process_task (w : Host) (r : TaskRunner) (t : Task) (sandbox_path : Str) (order : list (Str * Str)) : option Done :=
  match task_spec t with
  | Command program args env working_dir stdin => Some (execute_command_workload w r t sandbox_path program args env working_dir stdin)
  | ShellScript script interpreter env => Some (execute_shell_script_workload w r t sandbox_path script interpreter env)
  | RustCompilation crate_name _ compiler_flags target_dir => Some (execute_rust_compilation_workload w r t sandbox_path crate_name order compiler_flags target_dir)
  | _ => None
  end.

End runner.
