(* ===== verification/RunnerProps.v ===== *)
(** * RunnerProps: what the result of a process task says

    Which process a task starts and in which sandbox, what its artifacts and outputs are, what
    a success and a cancellation mean once everything around the process is done, that nothing
    of it depends on the worker's secrets, and that no sandbox is left. *)

From S2P Require Import Prelude Collections RustStr Capabilities Placement Blob BlobProps Task Queue ClusterAuth BlobTransfer BlobStore BlobStoreProps BlobCache BlobCacheProps Staging StagingProps StagingInputs WorkerTasks Process Sandbox SandboxPaths SandboxProps Runner.
Local Open Scope N_scope.

Section runner.
Context `{Sha256} `{BlobHash} `{ManifestCodec}.
Context (show_sandbox : SandboxError -> Str) (show_stage : StageError -> Str) (show_uuid : N -> Str).

(** ** Artifacts *)

(** [data] is what the sandbox holds at the path [expected] names: in a file reached through
    directories, or through links to a place that is not known to be outside. *)
Definition artifact_source (w : Host) (root : FsNode) (expected : Str) (data : Bytes) : Prop :=
  exists rel, sanitize_relative_path (utf8_encode expected) = Ok rel /\ exists ex st,
    fs_lookup root (split SLASH rel) = LkFound (FsFile data ex st)
    \/ (fs_lookup root (split SLASH rel) = LkThroughLink /\ th_node (w_through w (split SLASH rel)) = Some (FsFile data ex st)
        /\ th_inside (w_through w (split SLASH rel)) <> Some false).

Record artifact_ok (w : Host) (root : FsNode) (expected : Str) (a : OutputArtifact) : Prop := {
  ao_path : oa_path a = expected;
  ao_size : oa_size a = blen (oa_data a);
  ao_limit : oa_size a <= MAX_OUTPUT_ARTIFACT_BYTES;
  ao_digest : oa_sha256 a = sha256_digest (oa_data a);
  ao_source : artifact_source w root expected (oa_data a)
}.

Lemma harvest_one_spec w root expected failed total : match harvest_one w root expected failed total with
  | Ok (Some a) => artifact_ok w root expected a /\ total + oa_size a <= MAX_AGGREGATE_ARTIFACT_BYTES
  | Ok None => failed = true
  | Err _ => True
  end.
Proof.
  unfold harvest_one. destruct (sanitize_relative_path _) as [rel|] eqn:Es; [|done]. destruct (look w root (split SLASH rel)) as [found inside] eqn:El.
  destruct found as [[data ex st|r es| | |]|]; try done; [|by destruct failed]. destruct (N.ltb_spec MAX_OUTPUT_ARTIFACT_BYTES (blen data)); [done|].
  destruct (N.ltb_spec MAX_AGGREGATE_ARTIFACT_BYTES (total + blen data)); [done|]. case_bool_decide as Hi; [done|]. destruct (w_read_error w expected); [done|].
  split; [|done]. split; try done. exists rel. split; [done|]. exists ex, st. unfold look in El. destruct (fs_lookup root (split SLASH rel)); try done; injection El as El1 El2.
  - left. by subst.
  - right. split; [done|]. split; [done|]. by rewrite El2.
Qed.

(** [l] picks the artifacts of some of [expected], in their order. *)
Inductive picks (w : Host) (root : FsNode) : list Str -> list OutputArtifact -> Prop :=
| picks_nil : picks w root [] []
| picks_skip expected es l : picks w root es l -> picks w root (expected :: es) l
| picks_take expected a es l : artifact_ok w root expected a -> picks w root es l -> picks w root (expected :: es) (a :: l).

Definition artifact_bytes (l : list OutputArtifact) : N := foldr (fun a acc => oa_size a + acc) 0 l.

Lemma harvest_loop_spec w root es failed total l : harvest_loop w root es failed total = Ok l -> total <= MAX_AGGREGATE_ARTIFACT_BYTES ->
  picks w root es l /\ (failed = false -> Forall2 (artifact_ok w root) es l) /\ total + artifact_bytes l <= MAX_AGGREGATE_ARTIFACT_BYTES.
Proof.
  revert total l. induction es as [|e es IH]; intros total l; cbn [harvest_loop]; [intros [= <-] Ht; split; [constructor|]; split; [constructor|cbn; lia]|].
  pose proof (harvest_one_spec w root e failed total) as Ho. destruct (harvest_one w root e failed total) as [[a|]|]; [| |done].
  - destruct Ho as [Ha Ht]. destruct (harvest_loop w root es failed (total + oa_size a)) as [l'|] eqn:El; [|done]. intros [= <-] _. destruct (IH _ _ El Ht) as (Hp & Hf & Hs).
    split; [by constructor|]. split; [intros Hx; constructor; auto|]. change (artifact_bytes (a :: l')) with (oa_size a + artifact_bytes l'). lia.
  - subst failed. intros Hl Ht. destruct (IH _ _ Hl Ht) as (Hp & _ & Hs). split; [by constructor|]. done.
Qed.

(** The artifacts a task returns: each is the content, size and digest of the file at the
    path the task declared, never a link and never a place known to be outside the sandbox; a
    task that did not fail returns one for every declared path, a failed one those that are
    there; and together they are within the limit. *)
Theorem harvest_exact w root expected failed artifacts : harvest_output_artifacts w root expected failed = Ok artifacts ->
  picks w root expected artifacts /\ (failed = false -> Forall2 (artifact_ok w root) expected artifacts) /\ artifact_bytes artifacts <= MAX_AGGREGATE_ARTIFACT_BYTES.
Proof. intros Hh. by apply harvest_loop_spec in Hh. Qed.

(** ** The end of a workload *)














(** ** From the start to the end *)

(** The directory below the sandbox a compilation writes to, and the patterns it adds. *)
Definition target_of (target_dir : option Bytes) : result TraversalReason Str :=
  match target_dir with Some td => sanitize_relative_path td | None => Ok (str "target") end.

Definition extra_patterns (s : TaskSpec) : list Str :=
  match s with
  | RustCompilation _ _ _ target_dir => match target_of target_dir with Ok out => [out ++ str "/*"] | Err _ => [] end
  | _ => []
  end.

Definition task_env (s : TaskSpec) : gmap Str Str := match s with Command _ _ env _ _ | ShellScript _ _ env => env | _ => ∅ end.

(** The process the task asks for, in the sandbox at [sandbox_path]: its program, arguments,
    working directory below the sandbox, standard input and environment. *)
Definition asked_for (w : Host) (r : TaskRunner) (t : Task) (sandbox_path : Str) (order : list (Str * Str)) (l : Launch) : Prop :=
  la_env l = child_env (w_env w) (task_env (task_spec t)) (show_uuid (task_id t)) (show_uuid (tr_worker_id r)) sandbox_path
  /\ match task_spec t with
     | Command program args _ working_dir stdin =>
         la_program l = program /\ la_args l = args /\ la_stdin l = stdin
         /\ match working_dir with None => la_cwd l = [] | Some sub => sanitize_relative_path sub = Ok (la_cwd l) end
     | ShellScript _ interpreter env =>
         la_program l = default (resolve_default_shell (w_is_file w) (effective_path (w_env w) env)) interpreter
         /\ la_args l = [path_join sandbox_path (str "task_script.sh")] /\ la_stdin l = None /\ la_cwd l = []
     | RustCompilation crate_name _ flags target_dir => exists out, target_of target_dir = Ok out
         /\ la_program l = str "rustc" /\ la_stdin l = None /\ la_cwd l = []
         /\ la_args l = [path_join sandbox_path (entry_point order).1; str "--crate-name"; crate_name; str "--out-dir"; path_join sandbox_path out]
              ++ (if decide (str "--crate-type" ∈ flags) then [] else [str "--crate-type"; (entry_point order).2]) ++ flags
     | _ => False
     end.

(** What the workload writes on top of the staged files and the inputs before it starts. *)
Definition prepared (w : Host) (s : TaskSpec) (order : list (Str * Str)) (root0 root : FsNode) : Prop :=
  match s with
  | Command _ _ _ working_dir _ =>
      match working_dir with None => root = root0 | Some sub => exists rel, sanitize_relative_path sub = Ok rel /\ root = make_dirs root0 rel end
  | ShellScript script _ _ => write_script (w_write w SCRIPT_NAME) (w_script_chmod w) root0 SCRIPT_NAME script = Ok root
  | RustCompilation _ _ _ target_dir => exists root1 out, write_source_files w root0 order = Ok root1 /\ target_of target_dir = Ok out /\ root = make_dirs root1 out
  | _ => False
  end.

Definition starts_in (w : Host) (r : TaskRunner) (t : Task) (order : list (Str * Str)) (root : FsNode) : Prop :=
  exists root0 r', open_sandbox show_sandbox show_stage w r t = inr (root0, r') /\ prepared w (task_spec t) order root0 root.

(** How a process task goes: it stops early with a failure, or the process it asks for is
    handed to the operating system, in the sandbox prepared for it, and its result is closed. *)
Inductive goes (w : Host) (r : TaskRunner) (t : Task) (sandbox_path : Str) (order : list (Str * Str)) : Done -> Prop :=
| goes_early r' stderr error d : dn_result d = stop_early w r' t stderr error -> goes w r t sandbox_path order d
| goes_on r' launch root0 spawn root' res extra : asked_for w r t sandbox_path order launch -> starts_in w r t order root0 ->
    w_process w launch root0 = (spawn, root') -> res_artifacts res = [] -> res_outputs res = [] ->
    (is_success res = true -> extra = extra_patterns (task_spec t)) ->
    (is_success res = true <-> exists run, spawn = SpawnOk run /\ su_ended run = RunExited (Ok (ExitedWith 0))) ->
    (res_exit_code res = EXIT_CODE_CANCELLED <-> exists run reason, spawn = SpawnOk run /\ su_ended run = RunCancelled reason) ->
    goes w r t sandbox_path order (close_sandbox show_stage w r' t res extra root').

Lemma supervised_meaning wid tid program secs max_bytes spawn : let res := supervised_result wid tid program secs max_bytes spawn in
  (res_artifacts res = [] /\ res_outputs res = []) /\ (is_success res = true <-> exists run, spawn = SpawnOk run /\ su_ended run = RunExited (Ok (ExitedWith 0)))
  /\ (res_exit_code res = EXIT_CODE_CANCELLED <-> exists run reason, spawn = SpawnOk run /\ su_ended run = RunCancelled reason).
Proof.
  cbn zeta. destruct spawn as [e elapsed|run]; [split; [done|]; split; split; naive_solver|]. destruct (verdict_of wid tid program secs max_bytes run) as [Hc Hs]. split.
  - unfold supervised_result. destruct (su_ended run) as [[status|]| |]; try done. destruct (exit_success status); [done|]. by destruct (describe_exit status).
  - rewrite Hs, Hc. naive_solver.
Qed.

Lemma process_goes w r r' t sandbox_path order program args cwd env stdin root res root' :
  execute_process_supervised show_uuid w r' t sandbox_path program args cwd env stdin root = (res, root') ->
  asked_for w r t sandbox_path order {| la_program := program; la_args := args; la_cwd := cwd;
    la_env := child_env (w_env w) env (show_uuid (task_id t)) (show_uuid (tr_worker_id r')) sandbox_path; la_stdin := stdin |} ->
  starts_in w r t order root -> extra_patterns (task_spec t) = [] -> goes w r t sandbox_path order (close_sandbox show_stage w r' t res [] root').
Proof.
  intros Hp Ha Hst He. revert Hp. unfold execute_process_supervised. set (launch := {| la_program := _ |}) in *. destruct (w_process w launch root) as [spawn root1] eqn:Ew. intros [= <- <-].
  destruct (supervised_meaning (tr_worker_id r') (task_id t) program (effective_timeout t) (tr_max_output_bytes r') spawn) as ([? ?] & Hs & Hc). by econstructor.
Qed.

Lemma open_early w r t sandbox_path order d : open_sandbox show_sandbox show_stage w r t = inl d -> goes w r t sandbox_path order d.
Proof.
  unfold open_sandbox. destruct (sandbox_create _ _ _ _ _); [|intros [= <-]; by econstructor]. destruct (prepare_staged_files _ _ _); [|intros [= <-]; by econstructor].
  destruct (prepare_blob_inputs _ _ _ _ _) as [[[]?]?]; [done|]. intros [= <-]. by econstructor.
Qed.

Lemma open_worker w r t root r' : open_sandbox show_sandbox show_stage w r t = inr (root, r') -> tr_worker_id r' = tr_worker_id r.
Proof. unfold open_sandbox. destruct (sandbox_create _ _ _ _ _); [|done]. destruct (prepare_staged_files _ _ _); [|done]. destruct (prepare_blob_inputs _ _ _ _ _) as [[[]?]?]; [|done]. by intros [= _ <-]. Qed.

Lemma report_meaning w root crate_name dir res : let res' := (report_artifacts w root crate_name dir res).1 in
  is_success res' = is_success res /\ res_exit_code res' = res_exit_code res /\ res_artifacts res' = res_artifacts res /\ res_outputs res' = res_outputs res
  /\ (is_success res = true -> (report_artifacts w root crate_name dir res).2 = [dir ++ str "/*"]).
Proof. unfold report_artifacts. destruct (is_success res) eqn:E; [|done]. cbn [fst snd]. by destruct (is_empty _). Qed.

Lemma rust_args_asked entry crate out ctype flags : rustc_args entry crate out ctype flags =
  [entry; str "--crate-name"; crate; str "--out-dir"; out] ++ (if decide (str "--crate-type" ∈ flags) then [] else [str "--crate-type"; ctype]) ++ flags.
Proof.
  unfold rustc_args. f_equal. f_equal. destruct (existsb _ _) eqn:Ex; case_decide as Hd; try done.
  - destruct Hd. apply existsb_exists in Ex as (f & Hf & ->%bool_decide_eq_true). by apply list_elem_of_In.
  - apply not_true_iff_false in Ex. destruct Ex. apply existsb_exists. exists (str "--crate-type"). split; [by apply list_elem_of_In|]. by apply bool_decide_eq_true.
Qed.

Lemma command_goes w r t sandbox_path order program args env dir stdin : task_spec t = Command program args env dir stdin ->
  goes w r t sandbox_path order (execute_command_workload show_sandbox show_stage show_uuid w r t sandbox_path program args env dir stdin).
Proof.
  intros Hs. unfold execute_command_workload. destruct (open_sandbox _ _ _ _ _) as [d|[root r']] eqn:Eo; [by eapply open_early|].
  assert (Hst : forall root', prepared w (task_spec t) order root root' -> starts_in w r t order root') by (intros; by exists root, r').
  destruct dir as [sub|]; [destruct (sanitize_relative_path sub) as [rel|] eqn:Er; [|by econstructor]|];
    (destruct (execute_process_supervised _ _ _ _ _ _ _ _ _ _ _) as [res root'] eqn:Ep; eapply process_goes; [exact Ep| |apply Hst|]; [|rewrite Hs..]); try done.
  - unfold asked_for. rewrite Hs, (open_worker _ _ _ _ _ Eo). done.
  - by exists rel.
  - unfold asked_for. rewrite Hs, (open_worker _ _ _ _ _ Eo). done.
Qed.

Lemma script_goes w r t sandbox_path order script interp env : task_spec t = ShellScript script interp env ->
  goes w r t sandbox_path order (execute_shell_script_workload show_sandbox show_stage show_uuid w r t sandbox_path script interp env).
Proof.
  intros Hs. unfold execute_shell_script_workload. destruct (open_sandbox _ _ _ _ _) as [d|[root r']] eqn:Eo; [by eapply open_early|].
  destruct (write_script _ _ _ _ _) as [root1|] eqn:Ew; [|by econstructor]. destruct (execute_process_supervised _ _ _ _ _ _ _ _ _ _ _) as [res root'] eqn:Ep.
  eapply process_goes; [exact Ep| | |by rewrite Hs].
  - unfold asked_for. rewrite Hs, (open_worker _ _ _ _ _ Eo). destruct interp; split; [done| |done|]; split_and!; reflexivity.
  - exists root, r'. split; [done|]. by rewrite Hs.
Qed.

Lemma compilation_goes w r t sandbox_path order crate files flags dir : task_spec t = RustCompilation crate files flags dir ->
  goes w r t sandbox_path order (execute_rust_compilation_workload show_sandbox show_stage show_uuid w r t sandbox_path crate order flags dir).
Proof.
  intros Hs. unfold execute_rust_compilation_workload. destruct (open_sandbox _ _ _ _ _) as [d|[root r']] eqn:Eo; [by eapply open_early|].
  destruct (write_source_files _ _ _) as [root1|[rel e]] eqn:Es; [|by econstructor]. destruct (entry_point order) as [entry ctype] eqn:En.
  fold (target_of dir). destruct (target_of dir) as [out|] eqn:Et; [|by econstructor].
  unfold execute_process_supervised. set (launch := {| la_program := _ |}). destruct (w_process w launch _) as [spawn root2] eqn:Ew.
  destruct (supervised_meaning (tr_worker_id r') (task_id t) (str "rustc") (effective_timeout t) (tr_max_output_bytes r') spawn) as ([Ha Hout] & Hsu & Hc).
  destruct (report_meaning w root2 crate out (supervised_result (tr_worker_id r') (task_id t) (str "rustc") (effective_timeout t) (tr_max_output_bytes r') spawn)) as (Es1 & Ec & Ea & Eo' & Ex).
  destruct (report_artifacts _ _ _ _ _) as [res patterns]. cbn [fst snd] in *. econstructor; [| |exact Ew|by rewrite Ea|by rewrite Eo'| |by rewrite Es1|by rewrite Ec].
  - unfold asked_for. rewrite Hs, En. cbn [launch la_program la_args la_cwd la_env la_stdin fst snd]. rewrite (open_worker _ _ _ _ _ Eo), rust_args_asked. split; [done|]. by exists out.
  - exists root, r'. split; [done|]. rewrite Hs. by exists root1, out.
  - rewrite Es1, Hs. intros Hx. rewrite (Ex Hx). cbn [extra_patterns]. by rewrite Et.
Qed.

Lemma task_goes w r t sandbox_path order d : execute_process_task show_sandbox show_stage show_uuid w r t sandbox_path order = Some d -> goes w r t sandbox_path order d.
Proof.
  unfold execute_process_task. destruct (task_spec t) eqn:Hs; try done; intros [= <-]; [by apply command_goes|by apply script_goes|by eapply compilation_goes].
Qed.


(** ** The worker's secrets *)

(** The same worker with another environment. *)
Definition with_env (env : gmap Str Str) (w : Host) : Host := {|
  w_euid := w_euid w; w_private := w_private w; w_exists := w_exists w; w_made := w_made w; w_write := w_write w; w_script_chmod := w_script_chmod w;
  w_place := w_place w; w_env := env; w_is_file := w_is_file w; w_process := w_process w; w_through := w_through w; w_read_error := w_read_error w;
  w_put := w_put w; w_after_put := w_after_put w; w_probed := w_probed w; w_removed := w_removed w; w_elapsed_ms := w_elapsed_ms w
|}.

(** The environments agree on every variable but the three secrets. *)
Definition same_but_secrets (env env' : gmap Str Str) : Prop :=
  forall k, k <> str "OXIDESWARM_SECRET" -> k <> str "OXIDESWARM_SECRET_FILE" -> k <> str "OXIDE_MESH_TOKEN" -> env' !! k = env !! k.

Lemma same_public env env' : same_but_secrets env env' -> forall k, k ∉ SECRET_ENV_VARS -> env' !! k = env !! k.
Proof. intros Hs k Hk. apply Hs; intros ->; apply Hk; vm_compute; set_solver. Qed.

Lemma harvest_public w env' root es failed total : harvest_loop (with_env env' w) root es failed total = harvest_loop w root es failed total.
Proof.
  revert total. induction es as [|e es IH]; intros total; [done|]. cbn [harvest_loop]. change (harvest_one (with_env env' w) root e failed total) with (harvest_one w root e failed total).
  destruct (harvest_one w root e failed total) as [[a|]|]; [by rewrite IH|apply IH|done].
Qed.

Lemma close_public w env' r t res extra root : close_sandbox show_stage (with_env env' w) r t res extra root = close_sandbox show_stage w r t res extra root.
Proof. unfold close_sandbox, harvest_and_apply_artifacts, harvest_output_artifacts. rewrite harvest_public. reflexivity. Qed.

Lemma sources_public w env' root order : write_source_files (with_env env' w) root order = write_source_files w root order.
Proof. revert root. induction order as [|[name text] order IH]; intros root; [done|]. cbn [write_source_files with_env w_write]. by destruct (write_file _ _ _ _). Qed.

Lemma supervised_public w env' r t sandbox_path program args cwd env stdin root : same_but_secrets (w_env w) env' ->
  execute_process_supervised show_uuid (with_env env' w) r t sandbox_path program args cwd env stdin root
  = execute_process_supervised show_uuid w r t sandbox_path program args cwd env stdin root.
Proof. intros Hs. unfold execute_process_supervised. cbn [with_env w_env w_process]. by rewrite (child_env_public _ _ _ _ _ _ (same_public _ _ Hs)). Qed.

Lemma shell_public w env' env : same_but_secrets (w_env w) env' -> effective_path env' env = effective_path (w_env w) env.
Proof. intros Hs. unfold effective_path. by rewrite (Hs PATH) by done. Qed.

(** C24 The secrets of a worker do not flow into its tasks.  Two workers whose environments
    differ in nothing but the cluster secret, the file it is read from and the token of the
    mesh hub ask the operating system for the same process in the same sandbox, whatever it
    does, and end with the same result, cache and sandbox: for every command, script and
    compilation, so nothing a task can return depends on them. *)
Theorem secrets_do_not_flow w env' r t sandbox_path order : same_but_secrets (w_env w) env' ->
  execute_process_task show_sandbox show_stage show_uuid (with_env env' w) r t sandbox_path order
  = execute_process_task show_sandbox show_stage show_uuid w r t sandbox_path order.
Proof.
  intros Hs. unfold execute_process_task. destruct (task_spec t) as [program args env dir stdin|script interp env|crate files flags dir| | | |]; try done; f_equal.
  - unfold execute_command_workload. change (open_sandbox show_sandbox show_stage (with_env env' w) r t) with (open_sandbox show_sandbox show_stage w r t).
    destruct (open_sandbox _ _ _ _ _) as [d|[root r']]; [done|]. destruct dir as [sub|]; [destruct (sanitize_relative_path sub); [|done]|]; rewrite supervised_public by done; destruct (execute_process_supervised _ _ _ _ _ _ _ _ _ _ _); apply close_public.
  - unfold execute_shell_script_workload. change (open_sandbox show_sandbox show_stage (with_env env' w) r t) with (open_sandbox show_sandbox show_stage w r t).
    destruct (open_sandbox _ _ _ _ _) as [d|[root r']]; [done|]. cbn [with_env w_write w_script_chmod w_is_file w_env]. rewrite (shell_public _ _ _ Hs).
    destruct (write_script _ _ _ _ _); [|done]. rewrite supervised_public by done; destruct (execute_process_supervised _ _ _ _ _ _ _ _ _ _ _); apply close_public.
  - unfold execute_rust_compilation_workload. change (open_sandbox show_sandbox show_stage (with_env env' w) r t) with (open_sandbox show_sandbox show_stage w r t).
    destruct (open_sandbox _ _ _ _ _) as [d|[root r']]; [done|]. rewrite sources_public.
    destruct (write_source_files _ _ _) as [root1|[rel e]]; [|done]. destruct (entry_point order). destruct (match dir with Some td => _ | None => _ end); [|done]. rewrite supervised_public by done; destruct (execute_process_supervised _ _ _ _ _ _ _ _ _ _ _) as [res root2].
    change (report_artifacts (with_env env' w) root2 crate) with (report_artifacts w root2 crate). destruct (report_artifacts _ _ _ _ _). apply close_public.
Qed.

(** ** No sandbox is left *)

Definition cleans (w : Host) (r : TaskRunner) : Prop := sx_keep_sandboxes (tr_sandbox r) = false /\ w_probed w = true /\ w_removed w = true.

Lemma left_none w r root : cleans w r -> left_after w r root = false.
Proof. intros (Hk & Hp & Hr). unfold left_after, destroy. by rewrite Hk, Hp, Hr. Qed.

Lemma cleans_cache w r c : cleans w r -> cleans w (with_cache_of c r).
Proof. done. Qed.

Lemma close_clean w r t res extra root : cleans w r -> dn_left (close_sandbox show_stage w r t res extra root) = false.
Proof. intros Hc. unfold close_sandbox. destruct (collect_blob_outputs _ _ _ _ _ _ _ _). by apply left_none. Qed.

Lemma open_clean w r t : cleans w r -> match open_sandbox show_sandbox show_stage w r t with inl d => dn_left d = false | inr (_, r') => cleans w r' end.
Proof.
  intros Hc. unfold open_sandbox. destruct (sandbox_create _ _ _ _ _); [|done]. destruct (prepare_staged_files _ _ _); [|by apply left_none].
  destruct (prepare_blob_inputs _ _ _ _ _) as [[[]?]?]; [by apply cleans_cache|by apply left_none].
Qed.

(** Nothing of a task stays on the worker: whichever way a process task ends, an early
    failure included, its sandbox is gone, unless the worker keeps sandboxes or the file
    system refuses to remove it. *)
Theorem no_sandbox_left w r t sandbox_path order d : cleans w r -> execute_process_task show_sandbox show_stage show_uuid w r t sandbox_path order = Some d -> dn_left d = false.
Proof.
  intros Hc. pose proof (open_clean w r t Hc) as Ho. unfold execute_process_task. destruct (task_spec t) as [program args env dir stdin|script interp env|crate files flags dir| | | |]; try done; intros [= <-].
  - unfold execute_command_workload. destruct (open_sandbox _ _ _ _ _) as [d|[root r']]; [done|].
    destruct dir as [sub|]; [destruct (sanitize_relative_path sub); [|by apply left_none]|]; destruct (execute_process_supervised _ _ _ _ _ _ _ _ _ _ _); by apply close_clean.
  - unfold execute_shell_script_workload. destruct (open_sandbox _ _ _ _ _) as [d|[root r']]; [done|]. destruct (write_script _ _ _ _ _); [|by apply left_none].
    destruct (execute_process_supervised _ _ _ _ _ _ _ _ _ _ _). by apply close_clean.
  - unfold execute_rust_compilation_workload. destruct (open_sandbox _ _ _ _ _) as [d|[root r']]; [done|]. destruct (write_source_files _ _ _) as [root1|[rel e]]; [|by apply left_none].
    destruct (entry_point order) as [entry ctype]. destruct (match dir with Some td => _ | None => _ end) as [out|]; [|by apply left_none].
    destruct (execute_process_supervised _ _ _ _ _ _ _ _ _ _ _). destruct (report_artifacts _ _ _ _ _). by apply close_clean.
Qed.

(** ** What the process starts in *)

(** The directories made for a process change no file. *)
Lemma make_dirs_same root rel : plain root -> names_ok (split SLASH rel) -> plain (make_dirs root rel) /\ same_leaves root (make_dirs root rel).
Proof.
  intros Hpl Hn. pose proof Hpl as (Hok & Hd & Hleaf). unfold make_dirs. destruct (create_dir_all root (split SLASH rel)) as [root1| |] eqn:Em; [|done..].
  destruct (create_dir_all_spec _ _ _ Hok Hn Em) as (Hok1 & Hd1 & Hl & _). split; [|done]. split; [done|]. split; [done|]. intros p m Hm Hr. apply (Hleaf p m Hm). by apply Hl.
Qed.

Lemma sanitized_names_ok raw rel : sanitize_relative_path raw = Ok rel -> names_ok (split SLASH rel).
Proof.
  unfold sanitize_relative_path. destruct (is_absolute raw); [done|]. destruct (check_components _); [|done]. destruct (to_str raw) as [text|]; [|done].
  destruct (normalize_relative_path_str text) as [rel'|] eqn:En; [|done]. intros [= <-]. by eapply canonical_names_ok.
Qed.

Lemma target_names_ok td rel : target_of td = Ok rel -> names_ok (split SLASH rel).
Proof. destruct td as [td|]; [by apply sanitized_names_ok|]. intros [= <-]. vm_compute. repeat constructor; try done. intros Hx. by repeat (apply elem_of_cons in Hx as [?|Hx]; [done|]); apply elem_of_nil in Hx. Qed.

(** Where a text goes that the workload writes under a name. *)
Definition write_path (name : Str) : option (list Str) := match sanitize_relative_path (utf8_encode name) with Ok rel => Some (split SLASH rel) | Err _ => None end.

(** What is at [p] in [root'], given that [texts] were written over [root] in their order, as
    files with the mode [ex]. *)
Definition written_over (texts : list (Str * Str)) (ex : bool) (root : FsNode) (p : list Str) (m : FsNode) : Prop :=
  (exists before name text after, texts = before ++ (name, text) :: after /\ write_path name = Some p
     /\ Forall (fun x => write_path x.1 <> Some p) after /\ m = FsFile (utf8_encode text) ex true)
  \/ (Forall (fun x => write_path x.1 <> Some p) texts /\ reaches root p m).

Lemma written_over_nil ex root p m : written_over [] ex root p m <-> reaches root p m.
Proof. split; [|by right]. intros [(before & ? & ? & ? & Hf & _)|[_ ?]]; [by destruct before|done]. Qed.

Lemma written_over_cons name text texts ex root root1 p m : 
  (reaches root1 p m <-> (write_path name = Some p /\ m = FsFile (utf8_encode text) ex true) \/ (write_path name <> Some p /\ reaches root p m)) ->
  written_over texts ex root1 p m <-> written_over ((name, text) :: texts) ex root p m.
Proof.
  intros Hr. unfold written_over. rewrite Hr, Forall_cons. cbn [fst]. split.
  - intros [(b & n & x & a & -> & Hp & Ha & ->)|[Hf [[Hp ->]|[Hp Hx]]]]; [left; by exists ((name, text) :: b), n, x, a|left; by exists [], name, text, texts|by right].
  - intros [(b & n & x & a & Heq & Hp & Ha & ->)|[[Hp Hf] Hx]]; [|by right; split; [|right]]. destruct b as [|y b]; cbn in Heq; [injection Heq as -> -> ->; right; split; [done|by left]|].
    injection Heq as <- ->. left. by exists b, n, x, a.
Qed.

Lemma write_file_spec io root name text root1 : wi_chmod io = true -> plain root -> write_file io root (utf8_encode name) (utf8_encode text) = Ok root1 ->
  plain root1 /\ forall p m, leaf m -> reaches root1 p m <-> (write_path name = Some p /\ m = FsFile (utf8_encode text) false true) \/ (write_path name <> Some p /\ reaches root p m).
Proof.
  intros Hch Hpl. unfold write_file, write_path. destruct (sanitize_relative_path (utf8_encode name)) as [rel|] eqn:Es; [|done]. intros Hw.
  pose proof (write_below_spec io root rel (utf8_encode text) false Hpl (sanitized_names_ok _ _ Es)) as Hb. rewrite Hw in Hb. destruct Hb as (Hpl1 & ex & Hex & Hr).
  split; [done|]. intros p m Hm. rewrite (Hr p m Hm), (Hex Hch). naive_solver.
Qed.

Lemma write_source_files_spec w root order root1 : (forall rel, wi_chmod (w_write w rel) = true) -> plain root -> write_source_files w root order = Ok root1 ->
  plain root1 /\ forall p m, leaf m -> reaches root1 p m <-> written_over order false root p m.
Proof.
  intros Hch. revert root. induction order as [|[name text] order IH]; intros root Hpl; cbn [write_source_files].
  { intros [= <-]. split; [done|]. intros p m Hm. by rewrite written_over_nil. }
  destruct (write_file _ _ _ _) as [root0|] eqn:Ew; [|done]. destruct (write_file_spec _ _ _ _ _ (Hch name) Hpl Ew) as [Hpl0 Hr]. intros Hs.
  destruct (IH root0 Hpl0 Hs) as [Hpl1 Hr1]. split; [done|]. intros p m Hm. rewrite (Hr1 p m Hm). by apply written_over_cons, Hr.
Qed.

Lemma script_path : write_path SCRIPT_NAME = Some [SCRIPT_NAME] /\ sanitize_relative_path (utf8_encode SCRIPT_NAME) = Ok SCRIPT_NAME /\ split SLASH SCRIPT_NAME = [SCRIPT_NAME]
  /\ names_ok [SCRIPT_NAME].
Proof.
  split_and!; [by vm_compute..|]. constructor; [|constructor]. split; [done|]. intros Hx. unfold SCRIPT_NAME in Hx. vm_compute in Hx.
  by repeat (apply elem_of_cons in Hx as [?|Hx]; [done|]); apply elem_of_nil in Hx.
Qed.

Lemma write_script_spec w root script root1 : (forall rel, wi_chmod (w_write w rel) = true) -> w_script_chmod w = true -> plain root ->
  write_script (w_write w SCRIPT_NAME) (w_script_chmod w) root SCRIPT_NAME script = Ok root1 ->
  plain root1 /\ forall p m, leaf m -> reaches root1 p m <-> written_over [(SCRIPT_NAME, script)] true root p m.
Proof.
  intros Hch Hsc Hpl. destruct script_path as (Hwp & Hsa & Hsp & Hno). unfold write_script. destruct (write_file _ _ _ _) as [root0|] eqn:Ew; [|done].
  destruct (write_file_spec _ _ _ _ _ (Hch SCRIPT_NAME) Hpl Ew) as [(Hok0 & Hd0 & Hp0) Hr]. rewrite Hsa, Hsc, Hsp. intros [= <-].
  assert (Hat : reaches root0 [SCRIPT_NAME] (FsFile (utf8_encode script) false true)) by (apply Hr; [apply file_leaf|by left]).
  unfold make_executable. pose proof (reaches_lookup _ _ _ Hok0 Hat ltac:(done)) as Hlk. rewrite Hlk. destruct root0 as [|rd es| | |]; [destruct Hd0| |destruct Hd0..].
  destruct (overwrite_spec [SCRIPT_NAME] (FsDir rd es) (FsFile (utf8_encode script) true true) rd es Hok0 Hno) as (Hok1 & Hd1 & Hl1); [done|constructor|by rewrite Hlk|apply file_leaf|constructor|].
  assert (Hfin : forall p m, leaf m -> reaches (create_file (FsDir rd es) [SCRIPT_NAME] (FsFile (utf8_encode script) true true)) p m <-> written_over [(SCRIPT_NAME, script)] true root p m).
  { intros p m Hm. rewrite <-(written_over_cons SCRIPT_NAME script [] true root (create_file (FsDir rd es) [SCRIPT_NAME] (FsFile (utf8_encode script) true true))), written_over_nil; [done|].
    assert (Hpp : p = [SCRIPT_NAME] <-> Some [SCRIPT_NAME] = Some p) by (split; [by intros ->|by intros [= <-]]). rewrite (Hl1 p m Hm), (Hr p m Hm), Hwp, Hpp. tauto. }
  split; [|done]. split; [done|]. split; [done|]. intros p m Hm [[_ ->]|[_ Hx]]%(Hl1 p m Hm); [by eexists _, _|by apply (Hp0 p)].
Qed.

(** What lies at [p] once the staged files and the inputs, as [plans] lists them, are in. *)
Definition given (t : Task) (plans : list (list Placed)) (p : list Str) (m : FsNode) : Prop :=
  (exists f, staged_last (task_staged_files t) p f /\ m = staged_node f) \/ (exists x, x ∈ concat plans /\ p = split SLASH (pd_path x) /\ m = pd_file x).

Definition input_plans (t : Task) (plans : list (list Placed)) : Prop :=
  Forall2 input_plan (task_inputs t) plans /\ forall x, x ∈ concat plans -> blob_of (pd_data x) = pd_id x /\ forall f, ~ staged_last (task_staged_files t) (split SLASH (pd_path x)) f.

Lemma open_fresh w r t root r' : (forall rel, wi_chmod (w_write w rel) = true) -> w_made w = Some (FsDir true []) ->
  open_sandbox show_sandbox show_stage w r t = inr (root, r') ->
  plain root /\ exists plans, input_plans t plans /\ forall p m, leaf m -> reaches root p m <-> given t plans p m.
Proof.
  intros Hch Hmade. unfold open_sandbox, sandbox_create. rewrite Hmade. destruct (ensure_private_root _ _ _); [|done]. destruct (default false _); [done|].
  destruct (prepare_staged_files w (FsDir true []) t) as [root1|] eqn:Es; [|done].
  assert (Hst : plain root1 /\ forall p m, leaf m -> reaches root1 p m <-> exists f, staged_last (task_staged_files t) p f /\ m = staged_node f).
  { unfold prepare_staged_files in Es. destruct (is_empty (task_staged_files t)) eqn:Ee; [|by eapply stage_fresh]. injection Es as <-. destruct (task_staged_files t); [|done].
    split; [apply plain_empty|]. intros p m Hm. split; [by intros ?%empty_leaves|]. intros (f & (before & after & Hf & _) & _). by destruct before. }
  destruct Hst as [(Hok & Hd & Hp1) Hr1]. unfold prepare_blob_inputs. destruct (is_empty (task_inputs t)) eqn:Ei.
  { intros [= <- _]. split; [done|]. exists []. split; [split; [destruct (task_inputs t); [constructor|done]|by intros ? ?%elem_of_nil]|]. intros p m Hm. rewrite (Hr1 p m Hm). split; [by left|].
    intros [?|(x & ?%elem_of_nil & _)]; done. }
  destruct (tr_cache r) as [c|]; [|done]. destruct (materialize_inputs _ _ _ _) as [[[n|] root2] c2] eqn:Em; [|done]. intros [= <- _].
  apply place_inputs_spec in Em; [|done..]. destruct Em as (l & (plans & Hp & ->) & [[Hok2 Hd2] Hl2 He2 _] & _). split.
  - split; [done|]. split; [done|]. intros p m Hm [Hx|(x & _ & _ & ->)]%(Hl2 p m Hm); [by apply (Hp1 p)|by eexists _, _].
  - exists plans. split; [split; [done|]|].
    + intros x Hx. destruct (He2 x Hx) as (_ & Hb & Hfree). split; [done|]. intros f Hf. apply (Hfree (staged_node f)); [by intros []|]. apply Hr1; [by intros []|]. by exists f.
    + intros p m Hm. by rewrite (Hl2 p m Hm), (Hr1 p m Hm).
Qed.

(** What the workload itself writes: a script its text, a compilation its sources. *)
Definition own_texts (s : TaskSpec) (order : list (Str * Str)) : list (Str * Str) :=
  match s with ShellScript script _ _ => [(str "task_script.sh", script)] | RustCompilation _ _ _ _ => order | _ => [] end.

Definition is_script (s : TaskSpec) : bool := match s with ShellScript _ _ _ => true | _ => false end.

(** [text] is what the task asks to be written under [name]. *)
Definition text_of (s : TaskSpec) (name text : Str) : Prop :=
  match s with
  | ShellScript script _ _ => name = str "task_script.sh" /\ text = script
  | RustCompilation _ files _ _ => files !! name = Some text
  | _ => False
  end.

(** The order in which the sources of a compilation are written: any order of its map. *)
Definition lists_sources (s : TaskSpec) (order : list (Str * Str)) : Prop :=
  match s with RustCompilation _ files _ _ => order ≡ₚ map_to_list files | _ => True end.

Lemma own_texts_of s order before name text after : lists_sources s order -> own_texts s order = before ++ (name, text) :: after -> text_of s name text.
Proof.
  intros Hl Heq. assert (Hin : (name, text) ∈ own_texts s order) by (rewrite Heq; apply elem_of_app; right; apply elem_of_cons; by left).
  destruct s; cbn [own_texts lists_sources text_of] in *; try by apply elem_of_nil in Hin.
  - apply list_elem_of_singleton in Hin. by injection Hin as -> ->.
  - rewrite Hl in Hin. by apply elem_of_map_to_list in Hin.
Qed.

Lemma prepared_spec w s order root0 root : (forall rel, wi_chmod (w_write w rel) = true) -> w_script_chmod w = true -> plain root0 -> prepared w s order root0 root ->
  forall p m, leaf m -> reaches root p m <-> written_over (own_texts s order) (is_script s) root0 p m.
Proof.
  intros Hch Hsc Hpl. unfold prepared. destruct s as [program args env dir stdin|script interp env|crate files flags dir| | | |]; try done; cbn [own_texts is_script].
  - destruct dir as [sub|]; [intros (rel & Hs & ->)|intros ->]; intros p m Hm; rewrite written_over_nil; [|done]. by apply (proj2 (make_dirs_same root0 rel Hpl (sanitized_names_ok _ _ Hs))).
  - intros Hw p m Hm. by apply (proj2 (write_script_spec _ _ _ _ Hch Hsc Hpl Hw)).
  - intros (root1 & out & Hw & Ht & ->) p m Hm. destruct (write_source_files_spec _ _ _ _ Hch Hpl Hw) as [Hpl1 Hr].
    by rewrite <-(Hr p m Hm), (proj2 (make_dirs_same root1 out Hpl1 (target_names_ok _ _ Ht)) p m Hm).
Qed.

(** C20 The files a process finds.  On a worker whose file system makes the sandbox an empty
    directory and sets the modes it is asked for, a task stops early, or its process is
    started in a sandbox with exactly these files: at a path where the workload writes itself
    (a script its [task_script.sh], executable; a compilation its sources), the last text it
    writes there; elsewhere the last file the task stages there, or the file of an input,
    whose content hashes to its blob id, where nothing was staged. *)
Theorem start_files_exact w r t sandbox_path order d : (forall rel, wi_chmod (w_write w rel) = true) -> w_script_chmod w = true -> w_made w = Some (FsDir true []) ->
  lists_sources (task_spec t) order -> execute_process_task show_sandbox show_stage show_uuid w r t sandbox_path order = Some d ->
  (exists r' stderr error, dn_result d = stop_early w r' t stderr error)
  \/ exists launch root spawn root' plans, asked_for w r t sandbox_path order launch /\ w_process w launch root = (spawn, root') /\ input_plans t plans
      /\ forall p m, leaf m -> reaches root p m <->
           (exists before name text after, own_texts (task_spec t) order = before ++ (name, text) :: after /\ text_of (task_spec t) name text /\ write_path name = Some p
              /\ Forall (fun x => write_path x.1 <> Some p) after /\ m = FsFile (utf8_encode text) (is_script (task_spec t)) true)
           \/ (Forall (fun x => write_path x.1 <> Some p) (own_texts (task_spec t) order) /\ given t plans p m).
Proof.
  intros Hch Hsc Hmade Hls Hg%task_goes. destruct Hg as [r' stderr error d Hd|r' launch root spawn root' res extra Hl (root0 & r0 & Ho & Hp) Hw _ _ _ _ _]; [left; by exists r', stderr, error|].
  right. destruct (open_fresh _ _ _ _ _ Hch Hmade Ho) as (Hpl & plans & Hin & Hr0). exists launch, root, spawn, root', plans. split_and!; [done..|]. intros p m Hm.
  rewrite (prepared_spec _ _ _ _ _ Hch Hsc Hpl Hp p m Hm). unfold written_over. rewrite (Hr0 p m Hm).
  split; (intros [(before & name & text & after & Heq & Hx)|?]; [left; exists before, name, text, after|by right]); [|naive_solver].
  split; [done|]. split; [by eapply own_texts_of|done].
Qed.
End runner.

(** ** Witnesses *)

(** A script that writes a file [out] beside what it finds. *)
Definition sample_process (l : Launch) (root : FsNode) : Spawn * FsNode :=
  (SpawnOk (sample_run (RunExited (Ok (ExitedWith 0)))), create_file root [str "out"] (FsFile [9; 9] false true)).

Definition sample_host : Host := {|
  w_euid := 5; w_private := sample_private; w_exists := Some false; w_made := Some (FsDir true []); w_write := all_ok; w_script_chmod := true;
  w_place := sample_place; w_env := ∅; w_is_file := fun _ => true; w_process := sample_process; w_through := fun _ => {| th_node := None; th_inside := None |};
  w_read_error := fun _ => None; w_put := sample_put; w_after_put := []; w_probed := true; w_removed := true; w_elapsed_ms := 3
|}.

Definition sample_runner : TaskRunner := {|
  tr_worker_id := 70; tr_sandbox := config_from_env (fun _ => None) (str "/tmp") 5; tr_max_output_bytes := DEFAULT_MAX_OUTPUT_BYTES;
  tr_output_limits := output_limits_default; tr_cache := Ok input_cache
|}.

(** A script with a staged file, two inputs, a declared artifact and an output pattern. *)
Definition sample_process_task : Task := {|
  task_id := 1; task_spec := ShellScript (str "true") None ∅; task_requirements := requirements_default; task_created_at_utc := 0; task_tags := [];
  task_latest_checkpoint := None; task_staged_files := [staged (str "s") [4] false]; task_expected_outputs := [str "out"]; task_inputs := sample_inputs;
  task_output_globs := [str "o*"] |}.

Definition show_nothing {A} (x : A) : Str := [].
Definition sample_done : option Done :=
  execute_process_task (H := plain_sha) (H0 := plain_hash) (H1 := ToyCodec.codec) show_nothing show_nothing show_nothing sample_host sample_runner sample_process_task (str "/sb") [].

Lemma harvest_exact_witness : exists a, harvest_output_artifacts (H := plain_sha) sample_host (FsDir true [(str "out", true, FsFile [9; 9] false true)]) [str "out"; str "gone"] true = Ok [a]
  /\ picks (H := plain_sha) sample_host (FsDir true [(str "out", true, FsFile [9; 9] false true)]) [str "out"; str "gone"] [a].
Proof.
  eassert (E : harvest_output_artifacts (H := plain_sha) sample_host (FsDir true [(str "out", true, FsFile [9; 9] false true)]) [str "out"; str "gone"] true = Ok [_]) by (vm_compute; reflexivity).
  eexists. split; [exact E|]. exact (proj1 (harvest_exact (H := plain_sha) _ _ _ _ _ E)).
Defined.


(** A process that fails unless it finds the token [{7}] of the mesh hub. *)
Definition token_process (l : Launch) (root : FsNode) : Spawn * FsNode :=
  (SpawnOk (sample_run (RunExited (Ok (ExitedWith (if bool_decide (la_env l !! str "OXIDE_MESH_TOKEN" = Some [7]) then 0 else 1))))), root).

Definition token_host : Host := {|
  w_euid := 5; w_private := sample_private; w_exists := Some false; w_made := Some (FsDir true []); w_write := all_ok; w_script_chmod := true;
  w_place := sample_place; w_env := ∅; w_is_file := fun _ => true; w_process := token_process; w_through := fun _ => {| th_node := None; th_inside := None |};
  w_read_error := fun _ => None; w_put := sample_put; w_after_put := []; w_probed := true; w_removed := true; w_elapsed_ms := 3
|}.

(** It fails on a worker that has the token as it does on one that has not. *)
Lemma secrets_do_not_flow_witness : exists d,
  execute_process_task (H := plain_sha) (H0 := plain_hash) (H1 := ToyCodec.codec) show_nothing show_nothing show_nothing
    (with_env {[str "OXIDE_MESH_TOKEN" := [7]]} token_host) sample_runner sample_process_task (str "/sb") [] = Some d /\ is_success (dn_result d) = false.
Proof.
  eexists. split.
  - rewrite (secrets_do_not_flow (H := plain_sha) (H0 := plain_hash) (H1 := ToyCodec.codec) show_nothing show_nothing show_nothing token_host {[str "OXIDE_MESH_TOKEN" := [7]]}
      sample_runner sample_process_task (str "/sb") []); [vm_compute; reflexivity|]. intros k _ _ Hk. cbn [token_host w_env]. by rewrite lookup_singleton_ne.
  - vm_compute. reflexivity.
Defined.

Lemma no_sandbox_left_witness : exists d, sample_done = Some d /\ dn_left d = false.
Proof.
  eassert (E : sample_done = Some _) by (vm_compute; reflexivity). eexists. split; [exact E|].
  exact (no_sandbox_left (H := plain_sha) (H0 := plain_hash) (H1 := ToyCodec.codec) show_nothing show_nothing show_nothing sample_host sample_runner sample_process_task (str "/sb") [] _
    (conj eq_refl (conj eq_refl eq_refl)) E).
Defined.

(** The sample script finds its own text, executable, whatever else is there. *)
Lemma start_files_exact_witness : exists d, sample_done = Some d /\ is_success (dn_result d) = true
  /\ exists launch root spawn root', sample_process launch root = (spawn, root') /\ reaches root [str "task_script.sh"] (FsFile (utf8_encode (str "true")) true true)
     /\ reaches root [str "s"] (FsFile [4] false true).
Proof.
  eassert (E : sample_done = Some _) by (vm_compute; reflexivity). eexists. split; [exact E|]. split; [vm_compute; reflexivity|].
  destruct (start_files_exact (H := plain_sha) (H0 := plain_hash) (H1 := ToyCodec.codec) show_nothing show_nothing show_nothing sample_host sample_runner sample_process_task (str "/sb") [] _
    (fun _ => eq_refl) eq_refl eq_refl I E) as [(r' & stderr & error & Hx)|(launch & root & spawn & root' & plans & _ & Hw & _ & Hr)].
  - exfalso. apply (f_equal is_success) in Hx. vm_compute in Hx. discriminate Hx.
  - exists launch, root, spawn, root'. split; [exact Hw|]. split.
    + apply Hr; [by intros []|]. left. exists [], (str "task_script.sh"), (str "true"), []. split; [reflexivity|]. split; [split; reflexivity|]. split; [vm_compute; reflexivity|]. split; [constructor|reflexivity].
    + apply Hr; [by intros []|]. right. split.
      * constructor; [|constructor]. vm_compute. discriminate.
      * left. exists (staged (str "s") [4] false). split; [|reflexivity]. exists [], []. split; [reflexivity|]. split; [vm_compute; reflexivity|constructor].
Defined.
