(* ===== verification/Gpu.v ===== *)
(** * Gpu: what a worker claims about its GPU, and GPU-class tasks

    Models [crates/worker/src/gpu.rs] (the limits a request is checked against and what the
    worker advertises) and [execute_gpu_compute] of [crates/worker/src/runner.rs].  What the
    search for an adapter finds, and what the thread that multiplies answers, are arguments. *)

From S2P Require Import Prelude Collections RustStr Float Capabilities Placement Blob Task WorkerTasks Process.
From Stdlib Require Import SpecFloat.
Local Open Scope N_scope.

Definition GPU_MAX_DIM : N := 8192.
Definition SIMULATOR_MAX_DIM : N := 2048.

Inductive GpuError :=
| InvalidRequest (msg : Str) | Unavailable (msg : Str) | Interrupted (msg : Str) | Device (msg : Str) | VerificationFailed (msg : Str).

Definition show_gpu_error (e : GpuError) : Str :=
  match e with
  | InvalidRequest msg => str "invalid GPU request: " ++ msg
  | Unavailable msg => str "GPU unavailable: " ++ msg
  | Interrupted msg => str "GPU work interrupted: " ++ msg
  | Device msg => str "GPU device error: " ++ msg
  | VerificationFailed msg => str "GPU result failed CPU verification: " ++ msg
  end.

(** ** Limits *)

Record DeviceLimits := {
  dl_max_dim : N;
  dl_max_matrix_bytes : N;
  dl_max_workgroups_per_dimension : N;
  dl_max_workgroup_edge : N;
  dl_max_workgroup_invocations : N;
  dl_max_workgroup_shared_bytes : N
}.

Definition simulator : DeviceLimits := {|
  dl_max_dim := SIMULATOR_MAX_DIM; dl_max_matrix_bytes := SIMULATOR_MAX_DIM * SIMULATOR_MAX_DIM * 4;
  dl_max_workgroups_per_dimension := 65535; dl_max_workgroup_edge := 32; dl_max_workgroup_invocations := 1024;
  dl_max_workgroup_shared_bytes := 32 * 1024
|}.

(** [f64::sqrt], and [f64::floor] followed by the cast to [u64]. *)
Definition f64_sqrt (x : f64) : f64 := SFsqrt 53 1024 x.
Definition f64_floor_as_u64 (x : f64) : N :=
  match x with
  | S754_finite false m e => clamp_u64 (fst (fst (floor_frac m e)))
  | S754_infinity false => u64_max
  | _ => 0
  end.

Definition max_supported_dim (l : DeviceLimits) : N :=
  let by_bytes := f64_floor_as_u64 (f64_sqrt (f64_of_N (dl_max_matrix_bytes l / 4))) in
  N.min (N.min by_bytes (dl_max_dim l)) u32_max.

(** [u32::div_ceil]. *)
Definition div_ceil (a b : N) : N := if a mod b =? 0 then a / b else a / b + 1.

Definition check_gemm_request (dim tile : N) (limits : DeviceLimits) : result GpuError (N * N) :=
  let invalid msg := Err (InvalidRequest msg) in
  if dim =? 0 then invalid (str "simulated_matrix_dim must be at least 1 (got 0)")
  else if tile =? 0 then invalid (str "work_group_size must be at least 1 (got 0)")
  else
    let max_dim := max_supported_dim limits in
    if max_dim <? dim then
      invalid (str "simulated_matrix_dim " ++ show_N dim ++ str " is above what this device accepts (at most " ++ show_N max_dim ++ str ": one "
               ++ show_N dim ++ str "x" ++ show_N dim ++ str " f32 matrix is " ++ show_N (dim * dim * 4) ++ str " bytes, the device allows "
               ++ show_N (dl_max_matrix_bytes limits) ++ str " per buffer, and the worker caps the dimension at " ++ show_N (dl_max_dim limits) ++ str ")")
    else if dl_max_workgroup_edge limits <? tile then
      invalid (str "work_group_size " ++ show_N tile ++ str " is above this device's workgroup edge limit of " ++ show_N (dl_max_workgroup_edge limits))
    else
      let invocations := tile * tile in
      if dl_max_workgroup_invocations limits <? invocations then
        invalid (str "work_group_size " ++ show_N tile ++ str " needs " ++ show_N invocations ++ str " threads per workgroup, the device allows "
                 ++ show_N (dl_max_workgroup_invocations limits))
      else
        let shared_bytes := 2 * invocations * 4 in
        if dl_max_workgroup_shared_bytes limits <? shared_bytes then
          invalid (str "work_group_size " ++ show_N tile ++ str " needs " ++ show_N shared_bytes ++ str " bytes of workgroup memory, the device allows "
                   ++ show_N (dl_max_workgroup_shared_bytes limits))
        else
          let groups := div_ceil dim tile in
          if dl_max_workgroups_per_dimension limits <? groups then
            invalid (str "simulated_matrix_dim " ++ show_N dim ++ str " with work_group_size " ++ show_N tile ++ str " needs " ++ show_N groups
                     ++ str " workgroups per dimension, the device allows " ++ show_N (dl_max_workgroups_per_dimension limits))
          else Ok (dim, tile).

(** ** What is advertised *)

Inductive NoticeLevel := NoticeInfo | NoticeWarn.

Record GpuRequest := { gq_no_gpu : bool; gq_simulate_gpu : bool; gq_gpu : option bool; gq_auto_detect : bool; gq_gpu_name : option Str }.
Record GpuProbe := { gp_device_name : Str; gp_backend : Str; gp_device_type : Str }.
Inductive GpuProbeOutcome := NotCompiled | NoAdapter | ProbeFailed (reason : Str) | ProbeFound (probe : GpuProbe).

Definition set_gpu (has_gpu simulated : bool) (name : option Str) (c : WorkerCapabilities) : WorkerCapabilities := {|
  cap_name := cap_name c; cap_cpu_cores := cap_cpu_cores c; cap_ram_mb := cap_ram_mb c; cap_has_gpu := has_gpu; cap_is_simulated_gpu := simulated;
  cap_gpu_device_name := name; cap_tags := cap_tags c; cap_mobile := cap_mobile c; cap_has_blender := cap_has_blender c;
  cap_blender_version := cap_blender_version c; cap_vram_mb := cap_vram_mb c; cap_has_cuda := cap_has_cuda c
|}.

Definition clear_gpu (c : WorkerCapabilities) : WorkerCapabilities := set_gpu false false None c.

(** The capabilities and the levels of the notices.  [probe] is what the search for an adapter
    finds if it is made. *)
Definition apply_gpu_policy (caps : WorkerCapabilities) (q : GpuRequest) (probe : GpuProbeOutcome) : WorkerCapabilities * list NoticeLevel :=
  if gq_no_gpu q then (clear_gpu caps, [])
  else if gq_simulate_gpu q then (caps, [NoticeInfo])
  else if bool_decide (gq_gpu q = Some false) then (clear_gpu caps, [])
  else
    let explicit := bool_decide (gq_gpu q = Some true) in
    if negb explicit && negb (gq_auto_detect q) then (clear_gpu caps, [])
    else
      match probe with
      | ProbeFound found => (set_gpu true false (Some (default (gp_device_name found) (gq_gpu_name q))) caps, [NoticeInfo])
      | NotCompiled | NoAdapter | ProbeFailed _ => (clear_gpu caps, [if explicit then NoticeWarn else NoticeInfo])
      end.

(** ** GPU-class tasks *)

Record GpuJobDone := { gj_stdout : Str; gj_elapsed_ms : N; gj_device_name : Str }.

(** How the wait for the job ends; the thread may also be lost. *)
Inductive GpuEnd := GpuJob (answer : result GpuError GpuJobDone) | GpuThreadLost (panicked : bool) | GpuCancelled (reason : Str) | GpuTimedOut.

Definition gpu_failure (worker_id : Uuid) (tid : TaskId) (e : GpuError) (timeout_secs elapsed_ms : N) : TaskResult :=
  match e with
  | Interrupted _ => let msg := timeout_message timeout_secs in result_failure worker_id tid EXIT_CODE_TIMEOUT [] (utf8_encode msg) elapsed_ms (Some msg)
  | _ =>
      let msg := show_gpu_error e in
      result_failure worker_id tid EXIT_CODE_GENERAL_ERROR [] (utf8_encode (str "Execution Error: " ++ msg)) elapsed_ms (Some msg)
  end.

Definition no_gpu_result (worker_id : Uuid) (tid : TaskId) : TaskResult :=
  result_failure worker_id tid EXIT_CODE_GENERAL_ERROR []
    (utf8_encode (str "Execution Error: Task requires GPU capability, but this worker has no GPU (Worker lacks GPU capability).")) 0 (Some (str "Worker lacks GPU capability")).

(** The gate of [execute_task_with_checkpoint], then [execute_gpu_compute]. *)
Definition execute_gpu_compute (worker_id : Uuid) (capabilities : WorkerCapabilities) (tid : TaskId) (work_group_size simulated_matrix_dim timeout_secs elapsed_ms : N)
    (ended : GpuEnd) : TaskResult :=
  if negb (can_execute_gpu capabilities) then no_gpu_result worker_id tid
  else
    match (if cap_is_simulated_gpu capabilities then check_gemm_request simulated_matrix_dim work_group_size simulator else Ok (simulated_matrix_dim, work_group_size)) with
    | Err e => gpu_failure worker_id tid e timeout_secs elapsed_ms
    | Ok _ =>
        match ended with
        | GpuJob (Ok done) => {|
            res_worker_id := worker_id; res_task_id := tid; res_exit_code := 0; res_stdout := utf8_encode (gj_stdout done); res_stderr := [];
            res_execution_time_ms := gj_elapsed_ms done; res_is_gpu_executed := true; res_device_name := Some (gj_device_name done); res_error := None;
            res_asset_bytes := None; res_artifacts := []; res_outputs := [] |}
        | GpuJob (Err e) => gpu_failure worker_id tid e timeout_secs elapsed_ms
        | GpuThreadLost panicked =>
            gpu_failure worker_id tid (Device (if panicked then str "the GPU compute thread panicked" else str "the GPU compute thread was dropped before it finished")) timeout_secs elapsed_ms
        | GpuCancelled reason => result_failure worker_id tid EXIT_CODE_CANCELLED [] [] elapsed_ms (Some (str "Cancelled: " ++ reason))
        | GpuTimedOut => let msg := timeout_message timeout_secs in result_failure worker_id tid EXIT_CODE_TIMEOUT [] (utf8_encode msg) elapsed_ms (Some msg)
        end
    end.

(** ** Properties *)

(** What a request that is let through fits, whatever the device. *)
Theorem gemm_accepted_fits dim tile l d t : check_gemm_request dim tile l = Ok (d, t) ->
  d = dim /\ t = tile /\ 1 <= dim <= dl_max_dim l /\ 1 <= tile <= dl_max_workgroup_edge l /\ tile * tile <= dl_max_workgroup_invocations l
  /\ 8 * (tile * tile) <= dl_max_workgroup_shared_bytes l /\ dim <= dl_max_workgroups_per_dimension l * tile.
Proof.
  unfold check_gemm_request. destruct (N.eqb_spec dim 0); [done|]. destruct (N.eqb_spec tile 0) as [|Ht]; [done|]. destruct (N.ltb_spec (max_supported_dim l) dim) as [|Hd]; [done|].
  destruct (N.ltb_spec (dl_max_workgroup_edge l) tile); [done|]. destruct (N.ltb_spec (dl_max_workgroup_invocations l) (tile * tile)); [done|].
  destruct (N.ltb_spec (dl_max_workgroup_shared_bytes l) (2 * (tile * tile) * 4)); [done|]. destruct (N.ltb_spec (dl_max_workgroups_per_dimension l) (div_ceil dim tile)) as [|Hg]; [done|].
  intros [= <- <-]. unfold max_supported_dim in Hd. split; [done|]. split; [done|]. split; [lia|]. split; [lia|]. split; [done|]. split; [lia|].
  etransitivity; [|apply N.mul_le_mono_r, Hg]. unfold div_ceil. pose proof (N.div_mod dim tile Ht) as Hm. pose proof (N.mod_lt dim tile Ht) as Hl.
  destruct (N.eqb_spec (dim mod tile) 0); nia.
Qed.

(** Exactly what the simulated GPU takes: the documented ranges, nothing clamped. *)
Theorem simulator_accepts dim tile : check_gemm_request dim tile simulator = Ok (dim, tile) <-> 1 <= dim <= 2048 /\ 1 <= tile <= 32.
Proof.
  split; [intros (_ & _ & ? & ? & _)%gemm_accepted_fits; done|]. intros [[H1 H2] [H3 H4]]. unfold check_gemm_request. rewrite (proj2 (N.eqb_neq dim 0)), (proj2 (N.eqb_neq tile 0)) by lia.
  assert (Hm : max_supported_dim simulator = 2048) by (vm_compute; reflexivity). rewrite Hm.
  rewrite (proj2 (N.ltb_ge 2048 dim)) by lia. cbn [dl_max_workgroup_edge dl_max_workgroup_invocations dl_max_workgroup_shared_bytes dl_max_workgroups_per_dimension simulator].
  rewrite (proj2 (N.ltb_ge 32 tile)) by lia. rewrite (proj2 (N.ltb_ge 1024 (tile * tile))) by nia. rewrite (proj2 (N.ltb_ge (32 * 1024) _)) by nia.
  rewrite (proj2 (N.ltb_ge 65535 _)); [done|]. unfold div_ceil. assert (dim / tile <= dim) by (apply N.Div0.div_le_upper_bound; nia). destruct (_ =? 0); lia.
Qed.

(** When an adapter is looked for. *)
Definition wants_probe (q : GpuRequest) : bool :=
  negb (gq_no_gpu q) && negb (gq_simulate_gpu q) && negb (bool_decide (gq_gpu q = Some false)) && (bool_decide (gq_gpu q = Some true) || gq_auto_detect q).

(** A worker does not claim a GPU it has not: after the policy it advertises a real GPU only
    if it looked for one and found it, under the name the owner gave or the adapter's own, and
    is able to take GPU tasks at all only then or when the owner asked for the simulator; of
    the other capabilities none changes. *)
Theorem gpu_claims_true caps q probe : let caps' := fst (apply_gpu_policy caps q probe) in
  (can_execute_gpu caps' = true -> (gq_simulate_gpu q = true /\ caps' = caps) \/ (wants_probe q = true /\ exists p, probe = ProbeFound p
     /\ cap_has_gpu caps' = true /\ cap_is_simulated_gpu caps' = false /\ cap_gpu_device_name caps' = Some (default (gp_device_name p) (gq_gpu_name q))))
  /\ caps' = set_gpu (cap_has_gpu caps') (cap_is_simulated_gpu caps') (cap_gpu_device_name caps') caps.
Proof.
  cbn zeta. assert (Hself : caps = set_gpu (cap_has_gpu caps) (cap_is_simulated_gpu caps) (cap_gpu_device_name caps) caps) by (by destruct caps).
  unfold apply_gpu_policy, wants_probe. destruct (gq_no_gpu q); [done|]. destruct (gq_simulate_gpu q); [split; [auto|done]|]. cbn [negb andb].
  destruct (bool_decide (gq_gpu q = Some false)); [done|]. cbn [negb andb]. destruct (bool_decide (gq_gpu q = Some true)), (gq_auto_detect q); cbn [negb andb orb]; try done;
    (destruct probe as [| |reason|p]; try done; split; [|done]; intros _; right; split; [done|]; by exists p).
Qed.
