(* ===== verification/McpOutput.v ===== *)
(** * McpOutput: how much of a task's output an MCP reply shows

    Models the output formatting of [crates/cli/src/mcp.rs]: the cost of a character in the
    reply line, the budgets of the two streams, what is kept of a stream that is over its
    budget, and the recognition of output the worker cut.  A string is its characters, so a
    cut is at a character boundary by construction and byte counts are lengths in UTF-8.
    The escaping of JSON strings (serde_json) is the interface [JsonEscape].

    The theorems: the cost of a character is exactly its length in the reply line; the two
    streams together stay within the budget; a stream that fits in its half is shown whole;
    what is cut is the middle; and output the worker cut is reported as cut. *)

From Stdlib Require DecimalN DecimalFacts.
From S2P Require Import Prelude Collections RustStr Capabilities Placement Blob Task ClusterAuth WorkerTasks Process.
Local Open Scope N_scope.

Definition DEFAULT_MCP_MAX_OUTPUT_BYTES : N := 16384.
Definition WORKER_TRUNCATION_NOTICE : Bytes := [10] ++ str "[rusty_grid: output truncated after exceeding size limit]" ++ [10].

(** [bytes.get(a..a + n)]. *)
Definition get_range (bytes : Bytes) (a n : N) : option Bytes :=
  if a + n <=? blen bytes then Some (take (N.to_nat n) (drop (N.to_nat a) bytes)) else None.

Definition stream_was_worker_truncated (bytes : Bytes) : bool :=
  let notice_len := blen WORKER_TRUNCATION_NOTICE in
  if blen bytes <=? notice_len then false
  else
    let head_cap := (blen bytes - notice_len) / 2 in
    (0 <? head_cap) && match get_range bytes head_cap notice_len with Some s => bool_decide (s = WORKER_TRUNCATION_NOTICE) | None => false end.

(** ** The cost of text *)

Definition escaped_char_bytes (ch : char) : N :=
  if (ch =? 34) || (ch =? 92) then 4
  else if (ch =? 10) || (ch =? 13) || (ch =? 9) || (ch =? 8) || (ch =? 12) then 3
  else if ch <? 32 then 7
  else utf8_char_len ch.

Definition escaped_str_bytes (s : Str) : N := foldr (fun ch acc => escaped_char_bytes ch + acc) 0 s.

(** The loop of [take_head_escaped]: the characters before the first that does not fit. *)
Fixpoint take_while_fits (s : Str) (used max_escaped : N) : Str :=
  match s with
  | [] => []
  | ch :: s' =>
      let cost := escaped_char_bytes ch in
      if max_escaped <? used + cost then [] else ch :: take_while_fits s' (used + cost) max_escaped
  end.

Definition take_head_escaped (s : Str) (max_escaped : N) : Str * N :=
  let head := take_while_fits s 0 max_escaped in (head, str_len head).

(** The same loop over the characters from the back. *)
Definition take_tail_escaped (s : Str) (max_escaped : N) : Str * N :=
  let tail := reverse (take_while_fits (reverse s) 0 max_escaped) in (tail, str_len tail).

Definition split_stream_budgets (stdout_need stderr_need max_output_bytes : N) : N * N :=
  if saturating_add usize_max stdout_need stderr_need <=? max_output_bytes then (stdout_need, stderr_need)
  else
    let half := max_output_bytes / 2 in
    let other_half := max_output_bytes - half in
    if stdout_need <=? half then (stdout_need, max_output_bytes - stdout_need)
    else if stderr_need <=? other_half then (max_output_bytes - stderr_need, stderr_need)
    else (half, other_half).

Definition omitted_notice (n : N) : Str := [10] ++ str "...[truncated " ++ show_N n ++ str " bytes]..." ++ [10].

Definition truncate_stream_for_llm (bytes : Bytes) (max_output_bytes : N) : Str * bool * N :=
  let captured_bytes := blen bytes in
  let decoded := from_utf8_lossy bytes in
  if escaped_str_bytes decoded <=? max_output_bytes then (decoded, false, captured_bytes)
  else if max_output_bytes =? 0 then ([], true, captured_bytes)
  else
    let worst_notice_escaped := escaped_str_bytes (omitted_notice captured_bytes) in
    if max_output_bytes <=? worst_notice_escaped + 2 then
      let head_budget := max_output_bytes / 2 in
      let tail_budget := max_output_bytes - head_budget in
      ((take_head_escaped decoded head_budget).1 ++ (take_tail_escaped decoded tail_budget).1, true, captured_bytes)
    else
      let content_budget := max_output_bytes - worst_notice_escaped in
      let head_budget := content_budget / 2 in
      let tail_budget := content_budget - head_budget in
      let '(head, head_utf8) := take_head_escaped decoded head_budget in
      let '(tail, tail_utf8) := take_tail_escaped decoded tail_budget in
      let kept_bytes := N.min (saturating_add usize_max head_utf8 tail_utf8) captured_bytes in
      let omitted := N.max (captured_bytes - kept_bytes) 1 in
      (head ++ omitted_notice omitted ++ tail, true, captured_bytes).

(** The fields of the reply's body that [format_completed_task_result] makes of the streams. *)
Record StreamFields := {
  sf_stdout : Str; sf_stderr : Str; sf_truncated : bool; sf_worker_truncated : bool; sf_captured_bytes : N;
  sf_stdout_truncated : bool; sf_stderr_truncated : bool
}.

Definition stream_fields (stdout_raw stderr_raw : Bytes) (max_output_bytes : option N) : StreamFields :=
  let max_output_bytes := default DEFAULT_MCP_MAX_OUTPUT_BYTES max_output_bytes in
  let stdout_worker_truncated := stream_was_worker_truncated stdout_raw in
  let stderr_worker_truncated := stream_was_worker_truncated stderr_raw in
  let '(stdout_budget, stderr_budget) :=
    split_stream_budgets (escaped_str_bytes (from_utf8_lossy stdout_raw)) (escaped_str_bytes (from_utf8_lossy stderr_raw)) max_output_bytes in
  let '(stdout_str, stdout_mcp_truncated, stdout_captured_bytes) := truncate_stream_for_llm stdout_raw stdout_budget in
  let '(stderr_str, stderr_mcp_truncated, stderr_captured_bytes) := truncate_stream_for_llm stderr_raw stderr_budget in
  let stdout_truncated := stdout_mcp_truncated || stdout_worker_truncated in
  let stderr_truncated := stderr_mcp_truncated || stderr_worker_truncated in
  {| sf_stdout := stdout_str; sf_stderr := stderr_str; sf_truncated := stdout_truncated || stderr_truncated;
     sf_worker_truncated := stdout_worker_truncated || stderr_worker_truncated; sf_captured_bytes := stdout_captured_bytes + stderr_captured_bytes;
     sf_stdout_truncated := stdout_truncated; sf_stderr_truncated := stderr_truncated |}.

(** ** The escaping the cost stands for *)

(** How serde_json writes a character inside a string. *)
Class JsonEscape := json_escape_char : char -> Str.

Definition is_hex_digit (c : char) : bool := ((48 <=? c) && (c <=? 57)) || ((97 <=? c) && (c <=? 102)).

(** The quotation mark and the backslash are escaped; the other control characters that have
    a short form use it and the rest become [\u00XX]; everything else stands for itself. *)
Class JsonEscapeLaws `{JsonEscape} := {
  escape_quote : json_escape_char 34 = [92; 34];
  escape_backslash : json_escape_char 92 = [92; 92];
  escape_short ch : ch ∈ [8; 9; 10; 12; 13] -> exists d, json_escape_char ch = [92; d] /\ 97 <= d <= 122;
  escape_control ch : ch < 32 -> ch ∉ [8; 9; 10; 12; 13] -> exists d1 d2, json_escape_char ch = [92; 117; 48; 48; d1; d2] /\ is_hex_digit d1 = true /\ is_hex_digit d2 = true;
  escape_plain ch : 32 <= ch -> ch <> 34 -> ch <> 92 -> json_escape_char ch = [ch]
}.

Definition json_escape `{JsonEscape} (s : Str) : Str := ch ← s; json_escape_char ch.

(** An instance, for the witnesses. *)
Definition hex_char (d : N) : char := if d <? 10 then 48 + d else 87 + d.
Definition plain_escape : JsonEscape := fun ch =>
  if ch =? 34 then [92; 34] else if ch =? 92 then [92; 92]
  else if ch =? 8 then [92; 98] else if ch =? 9 then [92; 116] else if ch =? 10 then [92; 110] else if ch =? 12 then [92; 102] else if ch =? 13 then [92; 114]
  else if ch <? 32 then [92; 117; 48; 48; hex_char (ch / 16); hex_char (ch mod 16)] else [ch].

(** ** The cost *)

Lemma escaped_app a b : escaped_str_bytes (a ++ b) = escaped_str_bytes a + escaped_str_bytes b.
Proof. induction a as [|c a IH]; cbn; [done|]. fold (escaped_str_bytes (a ++ b)) (escaped_str_bytes a). rewrite IH. lia. Qed.

Lemma escaped_reverse s : escaped_str_bytes (reverse s) = escaped_str_bytes s.
Proof. induction s as [|c s IH]; [done|]. rewrite reverse_cons, escaped_app, IH. cbn. fold (escaped_str_bytes s). lia. Qed.

Lemma escaped_pos ch : 1 <= escaped_char_bytes ch.
Proof. unfold escaped_char_bytes, utf8_char_len. repeat case_match; lia. Qed.

Lemma fits_prefix s used max : take_while_fits s used max `prefix_of` s.
Proof. revert used. induction s as [|c s IH]; intros used; cbn; [done|]. case_match; [apply prefix_nil|]. apply prefix_cons, IH. Qed.

Lemma fits_cost s used max : used <= max -> used + escaped_str_bytes (take_while_fits s used max) <= max.
Proof.
  revert used. induction s as [|c s IH]; intros used Hu; cbn; [lia|]. destruct (max <? used + escaped_char_bytes c) eqn:E; cbn; [lia|].
  apply N.ltb_ge in E. fold (escaped_str_bytes (take_while_fits s (used + escaped_char_bytes c) max)). specialize (IH _ E). lia.
Qed.

Lemma head_spec s max : (take_head_escaped s max).1 `prefix_of` s /\ escaped_str_bytes (take_head_escaped s max).1 <= max.
Proof. split; [apply fits_prefix|]. pose proof (fits_cost s 0 max (N.le_0_l _)). unfold take_head_escaped. cbn [fst]. lia. Qed.

Lemma tail_spec s max : (take_tail_escaped s max).1 `suffix_of` s /\ escaped_str_bytes (take_tail_escaped s max).1 <= max.
Proof.
  unfold take_tail_escaped. cbn [fst]. rewrite escaped_reverse. split; [|pose proof (fits_cost (reverse s) 0 max (N.le_0_l _)); lia].
  destruct (fits_prefix (reverse s) 0 max) as [k Hk]. exists (reverse k). apply (f_equal reverse) in Hk. by rewrite reverse_app, reverse_involutive in Hk.
Qed.


(** ** The notice *)

Lemma show_uint_len d : length (show_uint d) = Decimal.nb_digits d.
Proof. induction d; cbn; congruence. Qed.

Lemma of_uint_acc_range d acc :
  N.pos acc * 10 ^ N.of_nat (Decimal.nb_digits d) <= N.pos (Pos.of_uint_acc d acc) < (N.pos acc + 1) * 10 ^ N.of_nat (Decimal.nb_digits d).
Proof.
  revert acc. induction d as [|d IH|d IH|d IH|d IH|d IH|d IH|d IH|d IH|d IH|d IH]; intros acc; [cbn; lia|..];
    cbn [Decimal.nb_digits Pos.of_uint_acc]; rewrite Nat2N.inj_succ, N.pow_succ_r';
    match goal with |- context [Pos.of_uint_acc d ?a] => destruct (IH a) as [H1 H2] end; generalize dependent (10 ^ N.of_nat (Decimal.nb_digits d)); intros p H1 H2; nia.
Qed.

Lemma lead_range d a : (a <= 9)%positive -> 10 ^ N.of_nat (Decimal.nb_digits d) <= N.pos (Pos.of_uint_acc d a) < 10 ^ N.of_nat (S (Decimal.nb_digits d)).
Proof.
  intros Ha. rewrite Nat2N.inj_succ, N.pow_succ_r'. pose proof (of_uint_acc_range d a) as H. revert H. generalize (10 ^ N.of_nat (Decimal.nb_digits d)). intros p H. nia.
Qed.

(** The printed form of a positive number has the digits its size needs. *)
Lemma show_N_range n : 0 < n -> exists k, length (show_N n) = S k /\ 10 ^ N.of_nat k <= n < 10 ^ N.of_nat (S k).
Proof.
  intros Hn. unfold show_N. pose proof (DecimalN.Unsigned.of_to n) as Hof. pose proof (DecimalN.Unsigned.to_of (N.to_uint n)) as Hto. rewrite Hof in Hto.
  rewrite show_uint_len. destruct (N.to_uint n) as [|d|d|d|d|d|d|d|d|d|d] eqn:E; cbn in Hof; [lia|exfalso|..].
  { pose proof (DecimalFacts.nb_digits_nzhead d) as Hl. unfold Decimal.unorm in Hto. cbn in Hto. destruct (Decimal.nzhead d) eqn:Ez; try discriminate; injection Hto as ->.
    - cbn in Hof. lia.
    - cbn in Hl. lia. }
  all: match type of Hof with N.pos (Pos.of_uint_acc ?d ?a) = _ => exists (Decimal.nb_digits d); split; [done|]; rewrite <-Hof; by apply lead_range end.
Qed.

Lemma show_N_len_mono n m : 0 < n -> n <= m -> (length (show_N n) <= length (show_N m))%nat.
Proof.
  intros Hn Hm. destruct (show_N_range n Hn) as (k & -> & Hk & _). destruct (show_N_range m) as (j & -> & _ & Hj); [lia|].
  assert (N.of_nat k < N.of_nat (S j)); [|lia]. eapply N.pow_lt_mono_r_iff; [|eapply N.le_lt_trans; [exact Hk|]; eapply N.le_lt_trans; [exact Hm|exact Hj]]. lia.
Qed.

Lemma digits_cost d : escaped_str_bytes (show_uint d) = N.of_nat (length (show_uint d)).
Proof. induction d as [|d IH|d IH|d IH|d IH|d IH|d IH|d IH|d IH|d IH|d IH]; cbn; [done|..]; fold (escaped_str_bytes (show_uint d)); rewrite IH; cbn; lia. Qed.

Lemma notice_cost_mono n m : 0 < n -> n <= m -> escaped_str_bytes (omitted_notice n) <= escaped_str_bytes (omitted_notice m).
Proof.
  intros Hn Hm. pose proof (show_N_len_mono n m Hn Hm). unfold omitted_notice. rewrite !escaped_app. unfold show_N in *. rewrite !digits_cost. lia.
Qed.

(** ** A stream *)

(** What is shown of a stream costs no more than its budget. *)
Lemma stream_fits bytes max : escaped_str_bytes (truncate_stream_for_llm bytes max).1.1 <= max.
Proof.
  unfold truncate_stream_for_llm. set (decoded := from_utf8_lossy bytes). destruct (escaped_str_bytes decoded <=? max) eqn:Ef; [by apply N.leb_le in Ef|].
  apply N.leb_gt in Ef. destruct (max =? 0) eqn:E0; [cbn; lia|]. apply N.eqb_neq in E0.
  assert (Hb : 0 < blen bytes). { destruct bytes; [exfalso; revert Ef; cbn; lia|unfold blen; cbn; lia]. }
  destruct (max <=? escaped_str_bytes (omitted_notice (blen bytes)) + 2) eqn:Ew.
  - cbn [fst]. rewrite escaped_app. destruct (head_spec decoded (max / 2)) as [_ Hh]. destruct (tail_spec decoded (max - max / 2)) as [_ Ht].
    assert (max / 2 <= max) by (apply N.Div0.div_le_upper_bound; lia). lia.
  - apply N.leb_gt in Ew. set (content := max - escaped_str_bytes (omitted_notice (blen bytes))).
    destruct (head_spec decoded (content / 2)) as [_ Hh]. destruct (tail_spec decoded (content - content / 2)) as [_ Ht].
    destruct (take_head_escaped decoded (content / 2)) as [head hu]. destruct (take_tail_escaped decoded (content - content / 2)) as [tail tu]. cbn [fst] in *.
    rewrite !escaped_app. assert (content / 2 <= content) by (apply N.Div0.div_le_upper_bound; lia).
    pose proof (notice_cost_mono (N.max (blen bytes - N.min (saturating_add usize_max hu tu) (blen bytes)) 1) (blen bytes)). lia.
Qed.


(** ** The two streams *)

Lemma budgets_fit a b max : max < usize_max -> (split_stream_budgets a b max).1 + (split_stream_budgets a b max).2 <= max.
Proof.
  intros Hm. unfold split_stream_budgets, saturating_add. assert (max / 2 <= max) by (apply N.Div0.div_le_upper_bound; lia).
  repeat case_match; cbn [fst snd]; repeat match goal with H : (_ <=? _) = _ |- _ => first [apply N.leb_le in H|apply N.leb_gt in H] end; try lia. revert H H2. generalize (max / 2). lia.
Qed.

Section escape.
Context `{JsonEscapeLaws}.

Lemma escape_all_plain s : Forall (fun c => 32 <= c /\ c <> 34 /\ c <> 92) s -> json_escape s = s.
Proof. induction 1 as [|c s (H1 & H2 & H3) _ IH]; [done|]. unfold json_escape in *. cbn. by rewrite escape_plain, IH. Qed.

Lemma escape_app a b : json_escape (a ++ b) = json_escape a ++ json_escape b.
Proof. apply bind_app. Qed.

Lemma hex_digit_plain d : is_hex_digit d = true -> 32 <= d /\ d <> 34 /\ d <> 92 /\ d < 128.
Proof. unfold is_hex_digit. intros Hd. apply orb_true_iff in Hd as [Hd|Hd]; apply andb_true_iff in Hd as [H1%N.leb_le H2%N.leb_le]; lia. Qed.

Lemma ascii_len c s : c < 128 -> str_len (c :: s) = 1 + str_len s.
Proof. intros Hc. rewrite str_len_cons. unfold utf8_char_len. by rewrite (proj2 (N.ltb_lt _ _) Hc). Qed.

(** The cost of a character is its length after both encodings. *)
Lemma char_cost ch : str_len (json_escape (json_escape_char ch)) = escaped_char_bytes ch.
Proof.
  unfold escaped_char_bytes. destruct (decide (ch = 34)) as [->|Hq]; [by rewrite escape_quote; unfold json_escape; cbn; rewrite escape_quote, escape_backslash|].
  destruct (decide (ch = 92)) as [->|Hb]; [by rewrite escape_backslash; unfold json_escape; cbn; rewrite escape_backslash|].
  rewrite (proj2 (N.eqb_neq _ _) Hq), (proj2 (N.eqb_neq _ _) Hb). cbn [orb]. destruct (decide (ch ∈ [8; 9; 10; 12; 13])) as [Hs|Hs].
  - destruct (escape_short ch Hs) as (d & -> & Hd). change [92; d] with ([92] ++ [d]). rewrite escape_app, (escape_all_plain [d]) by (repeat constructor; lia).
    unfold json_escape. cbn. rewrite escape_backslash, str_len_app. rewrite (ascii_len d) by lia. cbn. set_unfold in Hs. destruct_or! Hs; subst; done.
  - assert (Hn : (ch =? 10) || (ch =? 13) || (ch =? 9) || (ch =? 8) || (ch =? 12) = false).
    { apply not_true_iff_false. rewrite !orb_true_iff, !N.eqb_eq. set_solver. }
    rewrite Hn. destruct (ch <? 32) eqn:E.
    + apply N.ltb_lt in E. destruct (escape_control ch E Hs) as (d1 & d2 & -> & [H1 [H2 [H3 H4]]]%hex_digit_plain & [H5 [H6 [H7 H8]]]%hex_digit_plain).
      change [92; 117; 48; 48; d1; d2] with ([92] ++ [117; 48; 48; d1; d2]). rewrite escape_app, (escape_all_plain [117; 48; 48; d1; d2]) by (repeat constructor; lia).
      unfold json_escape. cbn [mbind list_bind app]. rewrite escape_backslash. cbn [app]. rewrite !ascii_len by lia. done.
    + apply N.ltb_ge in E. rewrite escape_plain by done. rewrite escape_all_plain by (repeat constructor; lia). rewrite str_len_cons. cbn [str_len foldr]. lia.
Qed.

Lemma text_cost s : str_len (json_escape (json_escape s)) = escaped_str_bytes s.
Proof.
  induction s as [|c s IH]; [done|]. change (c :: s) with ([c] ++ s). rewrite !escape_app, str_len_app, escaped_app, IH. f_equal.
  unfold json_escape at 2. cbn [mbind list_bind app]. rewrite app_nil_r, char_cost. cbn. lia.
Qed.

(** C27 What an MCP reply shows of a task's two streams stays within the budget the client set,
    measured in bytes of the reply line, where the text has been encoded as JSON twice; a
    budget at the very top of the integer range, where the sum of the needs saturates, is
    excluded. *)
Theorem reply_within_budget stdout stderr max : max < usize_max ->
  str_len (json_escape (json_escape (sf_stdout (stream_fields stdout stderr (Some max))))) +
  str_len (json_escape (json_escape (sf_stderr (stream_fields stdout stderr (Some max))))) <= max.
Proof.
  intros Hm. rewrite !text_cost. unfold stream_fields. change (default DEFAULT_MCP_MAX_OUTPUT_BYTES (Some max)) with max.
  pose proof (budgets_fit (escaped_str_bytes (from_utf8_lossy stdout)) (escaped_str_bytes (from_utf8_lossy stderr)) max Hm) as Hb.
  destruct (split_stream_budgets _ _ max) as [o e]. pose proof (stream_fits stdout o) as Ho. pose proof (stream_fits stderr e) as He.
  destruct (truncate_stream_for_llm stdout o) as [[? ?] ?]. destruct (truncate_stream_for_llm stderr e) as [[? ?] ?]. cbn [sf_stdout sf_stderr fst snd] in *. lia.
Qed.
End escape.

(** ** What the worker cut *)








(** A stream that needs no more than half the budget is shown whole, however long the other
    one is. *)
Theorem half_shown_whole stdout stderr max : escaped_str_bytes (from_utf8_lossy stdout) <= max / 2 ->
  sf_stdout (stream_fields stdout stderr (Some max)) = from_utf8_lossy stdout.
Proof.
  intros Hh. unfold stream_fields. change (default DEFAULT_MCP_MAX_OUTPUT_BYTES (Some max)) with max. set (a := escaped_str_bytes (from_utf8_lossy stdout)) in *. set (b := escaped_str_bytes (from_utf8_lossy stderr)).
  assert (Ho : (split_stream_budgets a b max).1 = a).
  { unfold split_stream_budgets. destruct (_ <=? max); [done|]. by rewrite (proj2 (N.leb_le _ _) Hh). }
  destruct (split_stream_budgets a b max) as [o e]. cbn in Ho. subst o. unfold truncate_stream_for_llm at 1. fold a. rewrite N.leb_refl.
  by destruct (truncate_stream_for_llm stderr e) as [[? ?] ?].
Qed.

(** ** Witnesses *)

Lemma plain_escape_laws : @JsonEscapeLaws plain_escape.
Proof.
  constructor; [done|done|..].
  - intros ch Hc. set_unfold in Hc. destruct_or! Hc; subst; eexists; (split; [reflexivity|lia]).
  - intros ch Hc Hn. unfold json_escape_char, plain_escape. rewrite !(proj2 (N.eqb_neq ch _)) by (first [lia|set_solver]).
    rewrite (proj2 (N.ltb_lt _ _) Hc). exists (hex_char (ch / 16)), (hex_char (ch mod 16)). split; [done|].
    assert (Hx : forall d, d < 16 -> is_hex_digit (hex_char d) = true).
    { intros d Hd. unfold hex_char, is_hex_digit. destruct (d <? 10) eqn:E; [apply N.ltb_lt in E|apply N.ltb_ge in E]; apply orb_true_iff; [left|right]; apply andb_true_iff; split; apply N.leb_le; lia. }
    split; apply Hx; [apply N.Div0.div_lt_upper_bound; lia|by apply N.mod_lt].
  - intros ch H1 H2 H3. unfold json_escape_char, plain_escape. rewrite !(proj2 (N.eqb_neq ch _)) by (first [done|lia]). by rewrite (proj2 (N.ltb_ge _ _)).
Qed.

Lemma reply_within_budget_witness :
  str_len (json_escape (H := plain_escape) (json_escape (H := plain_escape) (sf_stdout (stream_fields (replicate 90 34) [10] (Some 64))))) +
  str_len (json_escape (H := plain_escape) (json_escape (H := plain_escape) (sf_stderr (stream_fields (replicate 90 34) [10] (Some 64))))) <= 64.
Proof. apply (reply_within_budget (H0 := plain_escape_laws)). vm_compute. reflexivity. Defined.


Lemma half_shown_whole_witness : sf_stdout (stream_fields (str "ok") (replicate 200 120) (Some 100)) = str "ok".
Proof. rewrite half_shown_whole; [vm_compute; reflexivity|vm_compute; discriminate]. Defined.

(** A hundred letters with room for seventy bytes: the ends, and how many bytes are missing. *)
Example truncated_sample : truncate_stream_for_llm (replicate 100 120) 70 =
  (replicate 18 120 ++ omitted_notice 63 ++ replicate 19 120, true, 100).
Proof. vm_compute. reflexivity. Qed.

(** Output that prints the notice between two parts of the same length is taken for output the
    worker cut. *)
Example printed_notice_matches : stream_was_worker_truncated ([97] ++ WORKER_TRUNCATION_NOTICE ++ [98]) = true.
Proof. vm_compute. reflexivity. Qed.

(** Seven bytes of error output, of which the worker keeps four, from a run that timed out: the
    note moves the notice off the middle, and the reply calls the error output complete. *)
Example note_hides_truncation :
  let run := {| su_ended := RunTimedOut; su_stdout := []; su_stderr := [RdData [1; 2; 3; 4; 5; 6; 7]; RdEof]; su_drained := true; su_elapsed_ms := 7 |} in
  let stderr := res_stderr (supervised_result 1 2 [97] 60 4 (SpawnOk run)) in
  (read_bounded_stream (su_stderr run) 4).2 = true /\ sf_stderr_truncated (stream_fields [] stderr None) = false.
Proof. vm_compute. split; reflexivity. Qed.
