(* ===== verification/McpCalls.v ===== *)
(** * McpCalls: the MCP tools, their arguments and how they talk to the master

    Models the tools of [crates/cli/src/mcp.rs]: the checks of their arguments
    ([validate_tool_arguments]), the task a submission makes of them, the request over the
    pooled connection ([request_with_retry_info]), [tool_submit], [tool_cancel] and
    [tool_task_result].  The values of serde_json are an interface: which of the six kinds a
    value is, and what it holds; the fields of an object come in the order the map iterates.
    What the network, the file system and the clock answer is an argument; what a function asks
    of the master, in order, is part of its result.  A reply is the one to the oldest request
    of its connection that has none, as the master answers a connection in order.  The texts of
    messages are constructors, and the bodies of replies keep the fields that carry
    information.

    The theorems: arguments that pass the checks make a task; a reply read from the pooled
    connection answers the request that was just written, and a submission is never written
    twice by one request; a submission that is cancelled after it was sent asks for the
    cancellation, and one that reports success was confirmed. *)

From S2P Require Import Prelude Collections RustStr Capabilities Placement Blob Task Auth McpOutput.
Local Open Scope N_scope.
Local Open Scope result_scope.

(** ** JSON values *)

(** The kinds of [serde_json::Value]; of a number, what [as_u64] answers. *)
Inductive JsonView (V : Type) :=
| VNull | VBool (b : bool) | VNumber (u : option N) | VString (s : Str) | VArray (l : list V) | VObject (fields : list (Str * V)).
Arguments VNull {V}. Arguments VBool {V} b. Arguments VNumber {V} u. Arguments VString {V} s. Arguments VArray {V} l. Arguments VObject {V} fields.

Class McpJson := {
  JVal : Type;
  json_view : JVal -> JsonView JVal;
  json_from_str : Str -> option JVal;
  json_to_string : JVal -> option Str;
  json_empty : JVal
}.

Inductive ArgError :=
| ArgumentsNotObject | NotBoolean (key : Str) | NotString (key : Str) | NotUnsigned (key : Str) | NotStringArray (key : Str)
| BadTaskId (text : Str) | MissingTaskId | BadTaskType (raw : Str) | CommandNeeded | ScriptNeeded
| EnvNotObject | EnvNotString (key : Str) | BadConstraints (e : PlacementError) | BadOutputs (e : PatternError) | UnknownTool (name : Str).

Section tools.
Context `{McpJson} `{UuidApi}.

Fixpoint field (key : Str) (fields : list (Str * JVal)) : option JVal :=
  match fields with
  | [] => None
  | (k, v) :: fields => if bool_decide (k = key) then Some v else field key fields
  end.

Definition value_object (v : JVal) : option (list (Str * JVal)) := match json_view v with VObject l => Some l | _ => None end.
Definition value_array (v : JVal) : option (list JVal) := match json_view v with VArray l => Some l | _ => None end.
Definition value_str (v : JVal) : option Str := match json_view v with VString s => Some s | _ => None end.
Definition value_u64 (v : JVal) : option N := match json_view v with VNumber u => u | _ => None end.
Definition value_bool (v : JVal) : option bool := match json_view v with VBool b => Some b | _ => None end.
Definition value_is_null (v : JVal) : bool := match json_view v with VNull => true | _ => false end.
Definition value_get (v : JVal) (key : Str) : option JVal := value_object v ≫= field key.

(** ** Checks *)

Definition check_opt_bool (obj : list (Str * JVal)) (key : Str) : result ArgError unit :=
  match field key obj with
  | Some v => match json_view v with VNull | VBool _ => Ok tt | _ => Err (NotBoolean key) end
  | None => Ok tt
  end.

Definition check_opt_str (obj : list (Str * JVal)) (key : Str) : result ArgError (option Str) :=
  match field key obj with
  | None => Ok None
  | Some v => if value_is_null v then Ok None else match value_str v with Some s => Ok (Some s) | None => Err (NotString key) end
  end.

Definition check_opt_u64 (obj : list (Str * JVal)) (key : Str) : result ArgError (option N) :=
  match field key obj with
  | None => Ok None
  | Some v => if value_is_null v then Ok None else match value_u64 v with Some n => Ok (Some n) | None => Err (NotUnsigned key) end
  end.

Fixpoint strings_of (key : Str) (arr : list JVal) : result ArgError (list Str) :=
  match arr with
  | [] => Ok []
  | item :: arr => match value_str item with Some s => result_map (cons s) (strings_of key arr) | None => Err (NotStringArray key) end
  end.

Definition check_opt_str_array (obj : list (Str * JVal)) (key : Str) : result ArgError (option (list Str)) :=
  match field key obj with
  | None => Ok None
  | Some v =>
      if value_is_null v then Ok None
      else match value_array v with Some arr => result_map Some (strings_of key arr) | None => Err (NotStringArray key) end
  end.

Definition check_task_id (tid : Str) : result ArgError unit := match uuid_parse tid with Some _ => Ok tt | None => Err (BadTaskId tid) end.

Fixpoint check_env (fields : list (Str * JVal)) : result ArgError unit :=
  match fields with
  | [] => Ok tt
  | (k, v) :: fields => match value_str v with Some _ => check_env fields | None => Err (EnvNotString k) end
  end.

Inductive TaskType := TyCommand | TyShell | TyGpu.
Definition task_type_of (raw : Str) : option TaskType :=
  let w := map lower_to_ascii raw in
  if bool_decide (w = str "command") then Some TyCommand
  else if bool_decide (w = str "shell") then Some TyShell
  else if bool_decide (w = str "gpu") then Some TyGpu
  else None.

Definition blank_text (s : Str) : bool := is_empty (trim s).

Definition placement_tags (os arch worker : option Str) (tags : list Str) : list Str :=
  (match os with Some os => [REQUIRE_PREFIX ++ str "os=" ++ os] | None => [] end)
  ++ (match arch with Some arch => [REQUIRE_PREFIX ++ str "arch=" ++ arch] | None => [] end)
  ++ (match worker with Some w => [REQUIRE_PREFIX ++ str "worker=" ++ w] | None => [] end)
  ++ map (fun t => REQUIRE_PREFIX ++ str "tag=" ++ t) tags.

Definition check_submit_text (ty : TaskType) (cmd_opt script_opt : option Str) : result ArgError unit :=
  match ty with
  | TyCommand => if from_option blank_text true cmd_opt then Err CommandNeeded else Ok tt
  | TyShell =>
      let has_script := from_option (fun s => negb (blank_text s)) false script_opt in
      let has_cmd := from_option (fun c => negb (blank_text c)) false cmd_opt in
      if negb has_script && negb has_cmd then Err ScriptNeeded else Ok tt
  | TyGpu => Ok tt
  end.

Definition validate_submit (obj : list (Str * JVal)) : result ArgError unit :=
  type_opt <-? check_opt_str obj (str "type");
  let raw_type := default (str "command") type_opt in
  match task_type_of raw_type with
  | None => Err (BadTaskType raw_type)
  | Some ty =>
      cmd_opt <-? check_opt_str obj (str "command");
      script_opt <-? check_opt_str obj (str "script");
      check check_submit_text ty cmd_opt script_opt;
      check check_opt_str_array obj (str "args");
      check check_opt_str obj (str "interpreter");
      check check_opt_str obj (str "stdin");
      check match field (str "env") obj with
            | None => Ok tt
            | Some v => if value_is_null v then Ok tt else match value_object v with Some env => check_env env | None => Err EnvNotObject end
            end;
      check check_opt_u64 obj (str "cores");
      check check_opt_u64 obj (str "ram_mb");
      check check_opt_bool obj (str "gpu");
      os_opt <-? check_opt_str obj (str "os");
      arch_opt <-? check_opt_str obj (str "arch");
      worker_opt <-? check_opt_str obj (str "worker");
      req_tags <-? check_opt_str_array obj (str "require_tags");
      check map_err BadConstraints (from_task_tags (placement_tags os_opt arch_opt worker_opt (default [] req_tags)));
      check check_opt_u64 obj (str "timeout_secs");
      check check_opt_u64 obj (str "wait_secs");
      check check_opt_u64 obj (str "max_retries");
      check check_opt_bool obj (str "wait");
      check check_opt_u64 obj (str "matrix_dim");
      check check_opt_u64 obj (str "work_group_size");
      check check_opt_str_array obj (str "files");
      outputs <-? check_opt_str_array obj (str "outputs");
      check match outputs with
            | Some outputs => if is_empty outputs then Ok tt else map_err BadOutputs (validate_output_patterns outputs)
            | None => Ok tt
            end;
      check check_opt_str obj (str "output_dir");
      check check_opt_u64 obj (str "max_output_bytes");
      Ok tt
  end.

(** The required id of [task_result] and [cancel]. *)
Definition check_required_id (obj : list (Str * JVal)) : result ArgError unit :=
  tid <-? check_opt_str obj (str "task_id");
  match tid with Some tid => check_task_id tid | None => Err MissingTaskId end.

Definition validate_tool_arguments (name : Str) (args : JVal) : result ArgError unit :=
  match value_object args with
  | None => Err ArgumentsNotObject
  | Some obj =>
      if bool_decide (name = str "status") then
        tid <-? check_opt_str obj (str "task_id");
        check match tid with Some tid => check_task_id tid | None => Ok tt end;
        check_opt_bool obj (str "workers")
      else if bool_decide (name = str "workers") then
        check check_opt_bool obj (str "connected_only");
        check check_opt_str obj (str "os");
        check check_opt_str obj (str "arch");
        check_opt_bool obj (str "gpu_only")
      else if bool_decide (name = str "submit") then validate_submit obj
      else if bool_decide (name = str "task_result") then
        check check_required_id obj;
        check check_opt_bool obj (str "wait");
        check check_opt_u64 obj (str "timeout_secs");
        check check_opt_u64 obj (str "wait_secs");
        check check_opt_str obj (str "output_dir");
        check check_opt_u64 obj (str "max_output_bytes");
        Ok tt
      else if bool_decide (name = str "cancel") then check_required_id obj
      else if bool_decide (name = str "doctor") then
        check check_opt_u64 obj (str "expect_workers");
        check check_opt_u64 obj (str "timeout_secs");
        check check_opt_u64 obj (str "gpu_dim");
        check check_opt_u64 obj (str "spread_tasks");
        check check_opt_bool obj (str "skip_gpu");
        check_opt_bool obj (str "skip_spread")
      else Err (UnknownTool name)
  end.

(** ** The task of a submission *)

Definition arg_str (args : JVal) (key : Str) : option Str := value_get args key ≫= value_str.
Definition arg_u64 (args : JVal) (key : Str) : option N := value_get args key ≫= value_u64.
Definition arg_bool (args : JVal) (key : Str) : option bool := value_get args key ≫= value_bool.
(** The strings among the items of an array. *)
Definition arg_strings (args : JVal) (key : Str) : option (list Str) :=
  match value_get args key ≫= value_array with Some arr => Some (omap value_str arr) | None => None end.
Definition not_blank (s : Str) : option Str := if blank_text s then None else Some s.
Definition as_u32 (n : N) : N := n mod 2 ^ 32.

Definition submit_env (args : JVal) : gmap Str Str :=
  match value_get args (str "env") ≫= value_object with
  | Some env => foldl (fun m '(k, v) => match value_str v with Some s => <[k := s]> m | None => m end) ∅ env
  | None => ∅
  end.

Definition submit_type (args : JVal) : option TaskType := task_type_of (default (str "command") (arg_str args (str "type"))).

Definition submitted_spec (args : JVal) : result ArgError TaskSpec :=
  let env_map := submit_env args in
  match submit_type args with
  | Some TyGpu =>
      let dim := as_u32 (default 64 (arg_u64 args (str "matrix_dim"))) in
      let tile := as_u32 (default 16 (arg_u64 args (str "work_group_size"))) in
      Ok (GpuCompute (str "matrix_multiply") [1; 2; 3; 4] tile dim 10)
  | Some TyShell =>
      match arg_str args (str "script") ≫= not_blank with
      | Some s => Ok (ShellScript s (arg_str args (str "interpreter")) env_map)
      | None =>
          match arg_str args (str "command") ≫= not_blank with
          | Some c => Ok (ShellScript c (arg_str args (str "interpreter")) env_map)
          | None => Err ScriptNeeded
          end
      end
  | Some TyCommand =>
      match arg_str args (str "command") ≫= not_blank with
      | Some program => Ok (Command program (default [] (arg_strings args (str "args"))) env_map None (utf8_encode <$> arg_str args (str "stdin")))
      | None => Err CommandNeeded
      end
  | None => Err (BadTaskType (default (str "command") (arg_str args (str "type"))))
  end.

Definition DEFAULT_WAIT_MARGIN_SECS : N := 5.
Definition submit_timeout_secs (args : JVal) : N := default 60 (arg_u64 args (str "timeout_secs")).
Definition submit_wait_secs (args : JVal) : N :=
  match arg_u64 args (str "wait_secs") with Some n => n | None => saturating_add u64_max (submit_timeout_secs args) DEFAULT_WAIT_MARGIN_SECS end.

Definition submit_requirements (args : JVal) : TaskRequirements :=
  {| req_cpu_cores := default 1 (arg_u64 args (str "cores")); req_ram_mb := default 0 (arg_u64 args (str "ram_mb"));
     req_gpu_required := default (match submit_type args with Some TyGpu => true | _ => false end) (arg_bool args (str "gpu"));
     req_timeout_secs := submit_timeout_secs args; req_max_retries := as_u32 <$> arg_u64 args (str "max_retries") |}.

Definition submit_placement (args : JVal) : result ArgError Placement :=
  map_err BadConstraints (from_task_tags (placement_tags (arg_str args (str "os")) (arg_str args (str "arch")) (arg_str args (str "worker"))
    (default [] (arg_strings args (str "require_tags"))))).

Definition submit_globs (args : JVal) : result ArgError (list Str) :=
  match arg_strings args (str "outputs") with
  | Some outputs => if is_empty outputs then Ok [] else check map_err BadOutputs (validate_output_patterns outputs); Ok outputs
  | None => Ok []
  end.

(** [Task::new] with its builders; the id and the time are drawn. *)
Definition submit_task_of (tid : TaskId) (epoch : N) (spec : TaskSpec) (requirements : TaskRequirements) (placement : Placement) (inputs : list TaskInput) (globs : list Str) : Task :=
  {| task_id := tid; task_spec := spec; task_requirements := requirements; task_created_at_utc := epoch; task_tags := to_task_tags placement;
     task_latest_checkpoint := None; task_staged_files := []; task_expected_outputs := []; task_inputs := inputs; task_output_globs := globs |}.
End tools.

(** Payloads the MCP server neither sends nor reads are left out. *)
Inductive ClientMessage :=
| CmSubmitTask (task : Task) (wait : bool) | CmGetTaskStatus (tid : TaskId) | CmCancelTask (tid : TaskId) | CmClusterStatus | CmListWorkers
| CmSubmitMapReduce | CmGetTaskResult (tid : TaskId) | CmBlobRequest.

Inductive ClientResponse :=
| CrTaskSubmitted (tid : TaskId) | CrTaskCompleted (tid : TaskId) (result : TaskResult)
| CrTaskStatusInfo (tid : TaskId) (status : TaskStatus) (state_name : Str) (assigned_worker : option Uuid) (error : option Str)
| CrTaskCancelled (tid : TaskId) (success : bool) | CrClusterStatus | CrWorkerList (workers : list WorkerCapabilities)
| CrMapReduceSubmitted | CrMapReduceCompleted | CrError (message : Str) | CrBlobReply.

(** ** Requests over the pooled connection *)

(** A connection to the master: the requests written to it that have no reply yet. *)
Record Conn := { cn_name : N; cn_awaiting : list ClientMessage }.

Inductive Recv := Got (r : ClientResponse) | Closed | RecvTimedOut | RecvBroken.
Inductive Send := Sent | SendTimedOut | SendBroken.
Record Exchange := { ex_send : Send; ex_recv : Recv }.

Inductive ReqError := TimedOutWaiting | ClosedUnexpectedly | ReceiveFailed | ConnectFailed | TimedOutSending | SendFailed.

Definition is_idempotent (msg : ClientMessage) : bool := match msg with CmSubmitTask _ _ => false | _ => true end.

Definition conn_write (msg : ClientMessage) (c : Conn) : Conn := {| cn_name := cn_name c; cn_awaiting := cn_awaiting c ++ [msg] |}.
Definition conn_read (c : Conn) : Conn := {| cn_name := cn_name c; cn_awaiting := drop 1 (cn_awaiting c) |}.

(** What the network does during a request, and the pool when it is looked at again, which
    other calls share. *)
Record RequestIo := { ri_pooled : Exchange; ri_connect : option N; ri_fresh : Exchange; ri_pool_then : option Conn }.

(** The reply with the request it answers, whether it came after a retry, the pool, and the
    requests that were written. *)
Record Answer := {
  an_reply : result ReqError (ClientResponse * bool); an_answers : option ClientMessage; an_pool : option Conn; an_written : list ClientMessage
}.

Definition keep_transport (now : option Conn) (c : Conn) : option Conn := match now with None => Some c | Some d => Some d end.

Definition fresh_request (msg : ClientMessage) (retried : bool) (written : list ClientMessage) (io : RequestIo) : Answer :=
  let failed e w := {| an_reply := Err e; an_answers := None; an_pool := ri_pool_then io; an_written := w |} in
  match ri_connect io with
  | None => failed ConnectFailed written
  | Some name =>
      match ex_send (ri_fresh io) with
      | SendTimedOut => failed TimedOutSending written
      | SendBroken => failed SendFailed written
      | Sent =>
          let c := conn_write msg {| cn_name := name; cn_awaiting := [] |} in
          match ex_recv (ri_fresh io) with
          | RecvTimedOut => failed TimedOutWaiting (written ++ [msg])
          | RecvBroken => failed ReceiveFailed (written ++ [msg])
          | Closed => failed ClosedUnexpectedly (written ++ [msg])
          | Got resp =>
              {| an_reply := Ok (resp, retried); an_answers := head (cn_awaiting c); an_pool := keep_transport (ri_pool_then io) (conn_read c); an_written := written ++ [msg] |}
          end
      end
  end.

Definition request_with_retry_info (msg : ClientMessage) (pool : option Conn) (io : RequestIo) : Answer :=
  match pool with
  | None => fresh_request msg false [] io
  | Some transport =>
      match ex_send (ri_pooled io) with
      | Sent =>
          let c := conn_write msg transport in
          let failed e := {| an_reply := Err e; an_answers := None; an_pool := ri_pool_then io; an_written := [msg] |} in
          match ex_recv (ri_pooled io) with
          | Got resp => {| an_reply := Ok (resp, false); an_answers := head (cn_awaiting c); an_pool := keep_transport (ri_pool_then io) (conn_read c); an_written := [msg] |}
          | RecvTimedOut => if is_idempotent msg then fresh_request msg true [msg] io else failed TimedOutWaiting
          | Closed => if is_idempotent msg then fresh_request msg true [msg] io else failed ClosedUnexpectedly
          | RecvBroken => if is_idempotent msg then fresh_request msg true [msg] io else failed ReceiveFailed
          end
      | _ => fresh_request msg false [] io
      end
  end.

(** ** Results of the tools *)

Inductive ToolReply :=
| TrError (why : Str) | TrArgError (e : ArgError) | TrRequestError (e : ReqError) | TrMasterError (message : Str) | TrUnexpected (r : ClientResponse)
| TrCancelledByClient (tid : TaskId)
| TrCompleted (result : TaskResult) (warned : bool)
| TrTimedOut (tid : TaskId) (status : option (TaskStatus * Str)) (warned : bool)
| TrSubmitted (tid : TaskId) (warned : bool)
| TrMaybeSubmitted (tid : TaskId) (status : option (TaskStatus * Str)) (warned : bool)
| TrCancelled (tid : TaskId) (cancelled : bool)
| TrStatus (tid : TaskId) (status : TaskStatus) (state_name : Str) (assigned_worker : option Uuid) (error : option Str).

Definition reply_is_error (r : ToolReply) : bool :=
  match r with
  | TrError _ | TrArgError _ | TrRequestError _ | TrMasterError _ | TrUnexpected _ | TrCancelledByClient _ => true
  | _ => false
  end.

(** What a call did: its reply, whether it ended because it was cancelled, and what it asked of
    the master, in order. *)
Record Outcome := { oc_reply : ToolReply; oc_aborted : bool; oc_asked : list ClientMessage }.

Section tools.
Context `{McpJson} `{UuidApi}.

(** ** submit *)

(** What a round of the wait finds: first what the cancellation flag says, then which branch of
    the selection is ready. *)
Inductive WaitEvent := EvCancelChanged (flag : bool) | EvCancelClosed | EvReceived (r : Recv) | EvDeadline | EvTick.

Record SubmitIo := {
  si_output_dir : option Str; si_scan : result Str (list TaskInput); si_task_id : TaskId; si_epoch : N;
  si_cancelled : nat -> bool; si_resolved : option Str; si_upload : option Str; si_workers : result ReqError ClientResponse;
  si_connected : option ReqError; si_sent : Send; si_rounds : list (bool * WaitEvent); si_status : result ReqError ClientResponse;
  si_submit : result ReqError ClientResponse; si_resubmit : result ReqError ClientResponse
}.

Definition fails (why : option Str) : bool := bool_decide (is_Some why).

Definition status_answer (r : result ReqError ClientResponse) : option (TaskStatus * Str) :=
  match r with Ok (CrTaskStatusInfo _ status state_name _ _) => Some (status, state_name) | _ => None end.

(** Whether a listed worker could run the task. *)
Definition worker_matches (placement : Placement) (requirements : TaskRequirements) (w : WorkerCapabilities) : bool :=
  let connected := negb (bool_decide (tag_value (cap_tags w) STATE_TAG_PREFIX = Some (str "disconnected"))) in
  connected && matches_listed placement w && (negb (req_gpu_required requirements) || cap_has_gpu w)
  && (req_cpu_cores requirements <=? cap_cpu_cores w) && (req_ram_mb requirements <=? cap_ram_mb w).

(** [check_matching_worker_warning]: whether it warns. *)
Definition warns (placement : Placement) (requirements : TaskRequirements) (r : result ReqError ClientResponse) : bool :=
  match r with Ok (CrWorkerList workers) => negb (existsb (worker_matches placement requirements) workers) | _ => false end.

(** The wait for a submitted task; [None] while it still waits. *)
Fixpoint submit_wait (tid : TaskId) (warned : bool) (status : result ReqError ClientResponse) (asked : list ClientMessage) (rounds : list (bool * WaitEvent)) : option Outcome :=
  let aborted := Some {| oc_reply := TrCancelledByClient tid; oc_aborted := true; oc_asked := asked ++ [CmCancelTask tid] |} in
  let ends r := Some {| oc_reply := r; oc_aborted := false; oc_asked := asked |} in
  match rounds with
  | [] => None
  | (flag, ev) :: rounds =>
      if flag then aborted
      else
        match ev with
        | EvCancelChanged true => aborted
        | EvCancelChanged false | EvCancelClosed | EvTick => submit_wait tid warned status asked rounds
        | EvReceived (Got (CrTaskCompleted _ result)) => ends (TrCompleted result warned)
        | EvReceived (Got (CrError message)) => ends (TrMasterError message)
        | EvReceived (Got other) => ends (TrUnexpected other)
        | EvReceived Closed => ends (TrRequestError ClosedUnexpectedly)
        | EvReceived _ => ends (TrRequestError ReceiveFailed)
        | EvDeadline => Some {| oc_reply := TrTimedOut tid (status_answer status) warned; oc_aborted := false; oc_asked := asked ++ [CmGetTaskStatus tid] |}
        end
  end.

(** The answer to a submission that does not wait. *)
Definition submitted (flag : bool) (tid : TaskId) (warned : bool) (asked : list ClientMessage) : Outcome :=
  if flag then {| oc_reply := TrCancelledByClient tid; oc_aborted := true; oc_asked := asked ++ [CmCancelTask tid] |}
  else {| oc_reply := TrSubmitted tid warned; oc_aborted := false; oc_asked := asked |}.

Definition submit_nowait (task : Task) (warned : bool) (io : SubmitIo) (asked : list ClientMessage) : Outcome :=
  let tid := task_id task in
  let msg := CmSubmitTask task false in
  let asked := asked ++ [msg] in
  let ends r a := {| oc_reply := r; oc_aborted := false; oc_asked := a |} in
  match si_submit io with
  | Ok (CrTaskSubmitted task_id) => submitted (si_cancelled io 3) task_id warned asked
  | Ok (CrError message) => ends (TrMasterError message) asked
  | Ok other => ends (TrUnexpected other) asked
  | Err ((TimedOutWaiting | ClosedUnexpectedly | ReceiveFailed) as e) =>
      if si_cancelled io 3 then {| oc_reply := TrCancelledByClient tid; oc_aborted := true; oc_asked := asked ++ [CmCancelTask tid] |}
      else
        let asked := asked ++ [CmGetTaskStatus tid] in
        match si_status io with
        | Ok (CrTaskStatusInfo _ status state_name _ _) => ends (TrMaybeSubmitted tid (Some (status, state_name)) warned) asked
        | Ok (CrError message) =>
            if contains (str "not found") message then
              let asked := asked ++ [msg] in
              match si_resubmit io with
              | Ok (CrTaskSubmitted task_id) => submitted (si_cancelled io 4) task_id warned asked
              | Ok (CrError message) =>
                  if contains (str "already exists") message then submitted (si_cancelled io 4) tid warned asked else ends (TrMasterError message) asked
              | _ => ends (TrMaybeSubmitted tid None warned) asked
              end
            else ends (TrMaybeSubmitted tid None warned) asked
        | _ => ends (TrMaybeSubmitted tid None warned) asked
        end
  | Err e => ends (TrRequestError e) asked
  end.

(** From the task on: the checks of the cancellation flag, the upload of inputs, the warning,
    the submission. *)
Definition submit_flow (args : JVal) (placement : Placement) (task : Task) (io : SubmitIo) : option Outcome :=
  let tid := task_id task in
  let stops r := Some {| oc_reply := r; oc_aborted := false; oc_asked := [] |} in
  let aborted asked := Some {| oc_reply := TrCancelledByClient tid; oc_aborted := true; oc_asked := asked |} in
  if si_cancelled io 0 then aborted []
  else
    match si_resolved io with
    | Some e => stops (TrError e)
    | None =>
        if si_cancelled io 1 then aborted []
        else
          match (if is_empty (task_inputs task) then None else si_upload io) with
          | Some e => stops (TrError e)
          | None =>
              let warned := warns placement (task_requirements task) (si_workers io) in
              let asked := [CmListWorkers] in
              if si_cancelled io 2 then aborted asked
              else if default false (arg_bool args (str "wait")) then
                match si_connected io with
                | Some e => Some {| oc_reply := TrRequestError e; oc_aborted := false; oc_asked := asked |}
                | None =>
                    let asked := asked ++ [CmSubmitTask task true] in
                    match si_sent io with
                    | Sent => submit_wait tid warned (si_status io) asked (si_rounds io)
                    | SendTimedOut => Some {| oc_reply := TrRequestError TimedOutSending; oc_aborted := false; oc_asked := asked |}
                    | SendBroken => Some {| oc_reply := TrRequestError SendFailed; oc_aborted := false; oc_asked := asked |}
                    end
                end
              else Some (submit_nowait task warned io asked)
          end
    end.

(** The files a submission names, if it names any. *)
Definition submit_files (args : JVal) : list Str := default [] (arg_strings args (str "files")).

Definition tool_submit (args : JVal) (io : SubmitIo) : option Outcome :=
  let stops r := Some {| oc_reply := r; oc_aborted := false; oc_asked := [] |} in
  match submitted_spec args with
  | Err e => stops (TrArgError e)
  | Ok spec =>
      match submit_placement args with
      | Err e => stops (TrArgError e)
      | Ok placement =>
          match (if bool_decide (is_Some (arg_str args (str "output_dir"))) then si_output_dir io else None) with
          | Some e => stops (TrError e)
          | None =>
              match (if is_empty (submit_files args) then Ok [] else si_scan io) with
              | Err e => stops (TrError e)
              | Ok inputs =>
                  match submit_globs args with
                  | Err e => stops (TrArgError e)
                  | Ok globs => submit_flow args placement (submit_task_of (si_task_id io) (si_epoch io) spec (submit_requirements args) placement inputs globs) io
                  end
              end
          end
      end
  end.

(** ** cancel and task_result *)

Definition tool_cancel (args : JVal) (answer : result ReqError (ClientResponse * bool)) (status : result ReqError ClientResponse) : Outcome :=
  let ends r a := {| oc_reply := r; oc_aborted := false; oc_asked := a |} in
  match arg_str args (str "task_id") with
  | None => ends (TrArgError MissingTaskId) []
  | Some text =>
      match uuid_parse text with
      | None => ends (TrArgError (BadTaskId text)) []
      | Some tid =>
          let asked := [CmCancelTask tid] in
          match answer with
          | Ok (CrTaskCancelled task_id success, retried_after_pooled_write) =>
              if negb success && retried_after_pooled_write then
                let cancelled := match status with Ok (CrTaskStatusInfo _ StCancelled _ _ _) => true | _ => false end in
                ends (TrCancelled task_id cancelled) (asked ++ [CmGetTaskStatus task_id])
              else ends (TrCancelled task_id success) asked
          | Ok (CrError message, _) => ends (TrMasterError message) asked
          | Ok (other, _) => ends (TrUnexpected other) asked
          | Err e => ends (TrRequestError e) asked
          end
      end
  end.

(** A round of the wait for a result: the flag; what the selection around the write finds, and
    what the one around the read finds; the time; what the pause ends with. *)
Inductive PollSend := PsCancel (flag : option bool) | PsSent | PsBroken | PsDeadline.
Inductive PollRecv := PrCancel (flag : option bool) | PrReceived (r : Recv) | PrDeadline.
Inductive PollPause := PpCancel (flag : option bool) | PpSlept (past_deadline : bool).
Record PollRound := { pr_flag : bool; pr_send : PollSend; pr_recv : PollRecv; pr_past_deadline : bool; pr_pause : PollPause }.

Fixpoint result_poll (tid : TaskId) (asked : list ClientMessage) (rounds : list PollRound) : option Outcome :=
  let ends r a := Some {| oc_reply := r; oc_aborted := false; oc_asked := a |} in
  let aborted a := Some {| oc_reply := TrCancelledByClient tid; oc_aborted := true; oc_asked := a |} in
  match rounds with
  | [] => None
  | rd :: rounds =>
      if pr_flag rd then aborted asked
      else
        match pr_send rd with
        | PsCancel (Some true) => aborted asked
        | PsCancel _ => result_poll tid asked rounds
        | PsBroken => ends (TrRequestError SendFailed) asked
        | PsDeadline => ends (TrTimedOut tid None false) asked
        | PsSent =>
            let asked := asked ++ [CmGetTaskResult tid] in
            match pr_recv rd with
            | PrCancel (Some true) => aborted asked
            | PrCancel _ => result_poll tid asked rounds
            | PrDeadline => ends (TrTimedOut tid None false) asked
            | PrReceived (Got (CrTaskCompleted _ result)) => ends (TrCompleted result false) asked
            | PrReceived (Got (CrTaskStatusInfo t status state_name _ _)) =>
                if pr_past_deadline rd then ends (TrTimedOut t (Some (status, state_name)) false) asked
                else
                  match pr_pause rd with
                  | PpCancel (Some true) => aborted asked
                  | PpCancel _ => result_poll tid asked rounds
                  | PpSlept true => ends (TrTimedOut t (Some (status, state_name)) false) asked
                  | PpSlept false => result_poll tid asked rounds
                  end
            | PrReceived (Got (CrError message)) => ends (TrMasterError message) asked
            | PrReceived (Got other) => ends (TrUnexpected other) asked
            | PrReceived Closed => ends (TrRequestError ClosedUnexpectedly) asked
            | PrReceived _ => ends (TrRequestError ReceiveFailed) asked
            end
        end
  end.

Record ResultIo := {
  rs_output_dir : option Str; rs_resolved : option Str; rs_connected : option ReqError; rs_rounds : list PollRound; rs_answer : result ReqError ClientResponse
}.

Definition result_timeout_secs (args : JVal) : N :=
  default 60 ((match value_get args (str "wait_secs") with Some v => Some v | None => value_get args (str "timeout_secs") end) ≫= value_u64).

Definition tool_task_result (args : JVal) (io : ResultIo) : option Outcome :=
  let ends r a := Some {| oc_reply := r; oc_aborted := false; oc_asked := a |} in
  match arg_str args (str "task_id") with
  | None => ends (TrArgError MissingTaskId) []
  | Some text =>
      match uuid_parse text with
      | None => ends (TrArgError (BadTaskId text)) []
      | Some tid =>
          match (if bool_decide (is_Some (arg_str args (str "output_dir"))) then rs_output_dir io else None) with
          | Some e => ends (TrError e) []
          | None =>
              if default false (arg_bool args (str "wait")) && (0 <? result_timeout_secs args) then
                match rs_resolved io with
                | Some e => ends (TrError e) []
                | None => match rs_connected io with Some e => ends (TrRequestError e) [] | None => result_poll tid [] (rs_rounds io) end
                end
              else
                let asked := [CmGetTaskResult tid] in
                match rs_answer io with
                | Ok (CrTaskCompleted _ result) => ends (TrCompleted result false) asked
                | Ok (CrTaskStatusInfo t status state_name worker error) => ends (TrStatus t status state_name worker error) asked
                | Ok (CrError message) => ends (TrMasterError message) asked
                | Ok other => ends (TrUnexpected other) asked
                | Err e => ends (TrRequestError e) asked
                end
          end
      end
  end.
End tools.

(** ** Requests *)

Definition clean (pool : option Conn) : Prop := forall c, pool = Some c -> cn_awaiting c = [].

Lemma keep_clean now c : clean now -> cn_awaiting c = [] -> clean (keep_transport now c).
Proof. destruct now; cbn; intros Hn Hc d [= <-]; auto. Qed.

Lemma fresh_spec msg retried written io : clean (ri_pool_then io) ->
  clean (an_pool (fresh_request msg retried written io))
  /\ (is_ok (an_reply (fresh_request msg retried written io)) = true -> an_answers (fresh_request msg retried written io) = Some msg)
  /\ (an_written (fresh_request msg retried written io) = written \/ an_written (fresh_request msg retried written io) = written ++ [msg]).
Proof.
  intros Hp. unfold fresh_request. destruct (ri_connect io) as [name|]; [|by split_and!; [|intros [=]|left]].
  destruct (ex_send (ri_fresh io)); [|by split_and!; [|intros [=]|left]..].
  destruct (ex_recv (ri_fresh io)); [split_and!; [by apply keep_clean|done|by right]|by split_and!; [|intros [=]|right]..].
Qed.

(** A reply the MCP server reads over its pooled connection is the reply to the request it
    has just written, and the connection it puts back owes nobody a reply, so no call ever
    reads an answer meant for another. *)
Theorem reply_answers_request msg pool io : clean pool -> clean (ri_pool_then io) ->
  clean (an_pool (request_with_retry_info msg pool io))
  /\ (is_ok (an_reply (request_with_retry_info msg pool io)) = true -> an_answers (request_with_retry_info msg pool io) = Some msg).
Proof.
  intros Hp Hn. assert (Hf : forall r w, _) by (intros r w; exact (fresh_spec msg r w io Hn)). unfold request_with_retry_info.
  destruct pool as [c|]; [|split; apply Hf]. specialize (Hp c eq_refl). destruct (ex_send (ri_pooled io)); [|split; apply Hf..].
  destruct (ex_recv (ri_pooled io)) as [resp| | |].
  - split; [apply keep_clean; [done|]|intros _]; cbn; by rewrite Hp.
  - destruct (is_idempotent msg); [split; apply Hf|by split].
  - destruct (is_idempotent msg); [split; apply Hf|by split].
  - destruct (is_idempotent msg); [split; apply Hf|by split].
Qed.

(** A request writes a submission at most once; any other message at most twice. *)
Theorem submission_written_once task wait pool io : (length (an_written (request_with_retry_info (CmSubmitTask task wait) pool io)) <= 1)%nat.
Proof.
  unfold request_with_retry_info. assert (Hf : forall r, (length (an_written (fresh_request (CmSubmitTask task wait) r [] io)) <= 1)%nat).
  { intros r. unfold fresh_request. repeat case_match; cbn; lia. }
  destruct pool; [|apply Hf]. destruct (ex_send (ri_pooled io)); [|apply Hf..]. by destruct (ex_recv (ri_pooled io)).
Qed.

Section tools.
Context `{McpJson} `{UuidApi}.

(** ** Arguments *)

Lemma checked_str obj args key o : value_object args = Some obj -> check_opt_str obj key = Ok o -> arg_str args key = o.
Proof.
  intros Ho. unfold check_opt_str, arg_str, value_get. rewrite Ho. cbn. destruct (field key obj) as [v|]; [|by intros [=]]. cbn. unfold value_is_null, value_str.
  destruct (json_view v); cbn; congruence.
Qed.

Lemma strings_all key arr l : strings_of key arr = Ok l -> omap value_str arr = l.
Proof.
  revert l. induction arr as [|v arr IH]; cbn; [congruence|]. intros l. destruct (value_str v); [|done]. destruct (strings_of key arr) as [l'|]; [|done].
  intros [= <-]. by rewrite (IH l').
Qed.

Lemma checked_strings obj args key o : value_object args = Some obj -> check_opt_str_array obj key = Ok o -> arg_strings args key = o.
Proof.
  intros Ho. unfold check_opt_str_array, arg_strings, value_get. rewrite Ho. cbn. destruct (field key obj) as [v|]; [|by intros [=]]. cbn. unfold value_is_null, value_array.
  destruct (json_view v); cbn; try congruence. destruct (strings_of key l) eqn:E; cbn; [|done]. intros [= <-]. by rewrite (strings_all _ _ _ E).
Qed.

Lemma text_builds ty cmd script : check_submit_text ty cmd script = Ok tt ->
  match ty with TyCommand => is_Some (cmd ≫= not_blank) | TyShell => is_Some (script ≫= not_blank) \/ is_Some (cmd ≫= not_blank) | TyGpu => True end.
Proof.
  unfold check_submit_text, not_blank. destruct ty; [| |done].
  - destruct cmd as [c|]; [|done]. cbn. destruct (blank_text c); [done|eauto].
  - destruct script as [s|], cmd as [c|]; cbn; [destruct (blank_text s), (blank_text c)|destruct (blank_text s)|destruct (blank_text c)|]; cbn; intros; try done; eauto.
Qed.

Ltac next_check Hv := apply result_bind_Ok in Hv; let a := fresh "a" in let Ha := fresh "Ha" in destruct Hv as (a & Ha & Hv).

(** The arguments of a submission that pass the check make a task: a command, a placement
    and output patterns without error; and the checks leave no other reason to refuse before
    files and network come in. *)
Theorem validated_submit_builds args : validate_tool_arguments (str "submit") args = Ok tt ->
  is_ok (submitted_spec args) = true /\ is_ok (submit_placement args) = true /\ is_ok (submit_globs args) = true.
Proof.
  unfold validate_tool_arguments. destruct (value_object args) as [obj|] eqn:Ho; [|done]. decide_literals. unfold validate_submit. intros Hv.
  next_check Hv. destruct (task_type_of (default (str "command") a)) as [ty|] eqn:Et; [|done]. do 25 next_check Hv. clear Hv.
  apply (checked_str _ _ _ _ Ho) in Ha, Ha0, Ha1, Ha10, Ha11, Ha12. apply (checked_strings _ _ _ _ Ho) in Ha13, Ha22.
  split_and!.
  - destruct a2. apply text_builds in Ha2. unfold submitted_spec, submit_type. rewrite Ha, Et, Ha0, Ha1. destruct ty; [by destruct Ha2 as [c ->]| |done].
    destruct (a1 ≫= not_blank); [done|]. destruct Ha2 as [[? [=]]|[c ->]]; done.
  - unfold submit_placement. rewrite Ha10, Ha11, Ha12, Ha13. by destruct (from_task_tags _).
  - unfold submit_globs. rewrite Ha22. destruct a22 as [outputs|]; [|done]. destruct (is_empty outputs); [done|]. by destruct (validate_output_patterns outputs).
Qed.

(** ** submit *)

Definition submits (asked : list ClientMessage) : Prop := exists task wait, CmSubmitTask task wait ∈ asked.

(** What a submission guarantees, whichever way it ends: it submits one task only; if it was
    cancelled after that, the last thing it asks is the task's cancellation; if it reports the
    task as submitted, the master said so. *)
Definition submit_good (task : Task) (io : SubmitIo) (o : Outcome) : Prop :=
  (forall t w, CmSubmitTask t w ∈ oc_asked o -> t = task)
  /\ (oc_aborted o = true -> submits (oc_asked o) -> last (oc_asked o) = Some (CmCancelTask (task_id task)))
  /\ (oc_aborted o = true -> reply_is_error (oc_reply o) = true)
  /\ (forall t w, oc_reply o = TrSubmitted t w -> t = task_id task /\ submits (oc_asked o)
       /\ (exists r, (si_submit io = Ok r \/ si_resubmit io = Ok r) /\ (r = CrTaskSubmitted t \/ exists m, r = CrError m /\ contains (str "already exists") m = true))).

(** The master names the task it was given. *)
Definition names_task (tid : TaskId) (r : result ReqError ClientResponse) : Prop := forall t, r = Ok (CrTaskSubmitted t) -> t = tid.

Definition only_task (task : Task) (asked : list ClientMessage) : Prop := forall t w, CmSubmitTask t w ∈ asked -> t = task.

Lemma only_snoc task asked m : only_task task asked -> (forall t w, m = CmSubmitTask t w -> t = task) -> only_task task (asked ++ [m]).
Proof. intros Ha Hm t w [Hin|Hin%list_elem_of_singleton]%elem_of_app; eauto. Qed.

Lemma ended_good task io r asked : only_task task asked -> (forall t w, r <> TrSubmitted t w) -> submit_good task io {| oc_reply := r; oc_aborted := false; oc_asked := asked |}.
Proof. intros Ha Hr. split_and!; cbn; [exact Ha|done|done|]. intros t w Hx. by destruct (Hr t w). Qed.

Lemma aborted_good task io asked : only_task task asked -> submit_good task io {| oc_reply := TrCancelledByClient (task_id task); oc_aborted := true; oc_asked := asked ++ [CmCancelTask (task_id task)] |}.
Proof. intros Ha. split_and!; cbn; [by apply only_snoc|intros _ _; by rewrite last_snoc|done|done]. Qed.

Lemma submitted_good flag task io r warned asked : only_task task asked -> submits asked -> (si_submit io = Ok r \/ si_resubmit io = Ok r) ->
  (r = CrTaskSubmitted (task_id task) \/ exists m, r = CrError m /\ contains (str "already exists") m = true) -> submit_good task io (submitted flag (task_id task) warned asked).
Proof. intros Ha Hs Hr Hm. unfold submitted. destruct flag; [by apply aborted_good|]. split_and!; cbn; [exact Ha|done|done|]. intros t w [= <- <-]. eauto. Qed.

Lemma wait_good task io warned status asked rounds o : only_task task asked -> submit_wait (task_id task) warned status asked rounds = Some o -> submit_good task io o.
Proof.
  intros Ha. induction rounds as [|[flag ev] rounds IH]; cbn [submit_wait]; [done|]. destruct flag; [intros [= <-]; by apply aborted_good|].
  destruct ev as [[]| |[[]| | |]| |]; try exact IH; intros [= <-]; first [by apply aborted_good|apply ended_good; [|done]]; first [exact Ha|by apply only_snoc].
Qed.

Lemma nowait_good task io warned asked : only_task task asked -> names_task (task_id task) (si_submit io) -> names_task (task_id task) (si_resubmit io) -> submit_good task io (submit_nowait task warned io asked).
Proof.
  intros Ha Hn Hn'. unfold submit_nowait. set (msg := CmSubmitTask task false).
  assert (H1 : only_task task (asked ++ [msg])) by (apply only_snoc; [done|by intros t w [= <- <-]]).
  assert (H2 : only_task task ((asked ++ [msg]) ++ [CmGetTaskStatus (task_id task)])) by by apply only_snoc.
  assert (H3 : only_task task (((asked ++ [msg]) ++ [CmGetTaskStatus (task_id task)]) ++ [msg])) by (apply only_snoc; [done|by intros t w [= <- <-]]).
  assert (S1 : submits (asked ++ [msg])) by (exists task, false; set_solver).
  assert (S3 : submits (((asked ++ [msg]) ++ [CmGetTaskStatus (task_id task)]) ++ [msg])) by (exists task, false; set_solver).
  destruct (si_submit io) as [r|e] eqn:Es.
  - destruct r; try (apply ended_good; done). pose proof (Hn _ eq_refl) as ->. eapply submitted_good; eauto.
  - destruct e; try (apply ended_good; done); (destruct (si_cancelled io 3); [by apply aborted_good|]);
    (destruct (si_status io) as [r|e']; [|by apply ended_good]); destruct r; try (by apply ended_good);
    (destruct (contains (str "not found") message); [|by apply ended_good]); (destruct (si_resubmit io) as [r|e'] eqn:Er; [|by apply ended_good]);
    destruct r as [t'| | | | | | | |m| ]; try (by apply ended_good).
    all: try (pose proof (Hn' _ eq_refl) as ->; eapply submitted_good; by eauto).
    all: destruct (contains (str "already exists") m) eqn:Em; [|by apply ended_good]; eapply submitted_good; eauto 6.
Qed.

Lemma no_task_good task io r : (forall t w, r <> TrSubmitted t w) -> submit_good task io {| oc_reply := r; oc_aborted := false; oc_asked := [] |}.
Proof. intros Hr. apply ended_good; [|done]. intros t w Hin. by apply elem_of_nil in Hin. Qed.

Lemma not_sent_good task io asked : (forall m, m ∈ asked -> m = CmListWorkers) -> submit_good task io {| oc_reply := TrCancelledByClient (task_id task); oc_aborted := true; oc_asked := asked |}.
Proof. intros Ha. split_and!; cbn; [|intros _ (t & w & Hin)|done|done]; [intros t w Hin|]; by apply Ha in Hin. Qed.

Lemma flow_good args pl task io o : names_task (task_id task) (si_submit io) -> names_task (task_id task) (si_resubmit io) ->
  submit_flow args pl task io = Some o -> submit_good task io o.
Proof.
  intros Hn Hn'. unfold submit_flow. destruct (si_cancelled io 0); [intros [= <-]; apply not_sent_good; set_solver|].
  destruct (si_resolved io); [intros [= <-]; by apply no_task_good|]. destruct (si_cancelled io 1); [intros [= <-]; apply not_sent_good; set_solver|].
  destruct (if is_empty (task_inputs task) then _ else _); [intros [= <-]; by apply no_task_good|].
  destruct (si_cancelled io 2); [intros [= <-]; apply not_sent_good; set_solver|].
  assert (H1 : only_task task [CmListWorkers]) by (intros t w Hin; set_solver). assert (H2 : only_task task ([CmListWorkers] ++ [CmSubmitTask task true])).
  { apply only_snoc; [done|]. by intros t w [= <- <-]. }
  destruct (default false _); [|intros [= <-]; by apply nowait_good].
  destruct (si_connected io); [intros [= <-]; by apply ended_good|]. destruct (si_sent io); [by apply wait_good|intros [= <-]; by apply ended_good..].
Qed.

(** C26 A submission through the MCP server submits one task, whatever the network does and
    whenever it is cancelled; one that ends by cancellation after the task may have reached
    the master asks the master to cancel it as its last act; and one that reports the task as
    submitted was told so by the master, or told that it already has the task. *)
Theorem submit_keeps_its_word args io o : names_task (si_task_id io) (si_submit io) -> names_task (si_task_id io) (si_resubmit io) ->
  tool_submit args io = Some o -> exists task, task_id task = si_task_id io /\ submit_good task io o.
Proof.
  intros Hn Hn'. unfold tool_submit. set (mk := fun spec pl ins globs => submit_task_of (si_task_id io) (si_epoch io) spec (submit_requirements args) pl ins globs).
  assert (Hstop : forall r, (forall t w, r <> TrSubmitted t w) -> Some {| oc_reply := r; oc_aborted := false; oc_asked := [] |} = Some o -> exists task, task_id task = si_task_id io /\ submit_good task io o).
  { intros r Hr [= <-]. exists (mk (Command [] [] ∅ None None) placement_default [] []). split; [done|]. by apply no_task_good. }
  destruct (submitted_spec args) as [spec|]; [|by apply Hstop]. destruct (submit_placement args) as [pl|]; [|by apply Hstop].
  destruct (if bool_decide _ then _ else _); [by apply Hstop|]. destruct (if is_empty _ then _ else _) as [ins|]; [|by apply Hstop].
  destruct (submit_globs args) as [globs|]; [|by apply Hstop]. intros Ho. exists (mk spec pl ins globs). split; [done|]. by apply (flow_good args pl (mk spec pl ins globs) io o).
Qed.

(** The warning of a submission agrees with the requirements the scheduler applies: it is given
    exactly when the master's list has no connected worker at the right place that satisfies
    them, where a simulated GPU is listed as one. *)
Theorem warning_agrees placement requirements workers : (forall w, w ∈ workers -> cap_is_simulated_gpu w = true -> cap_has_gpu w = true) ->
  warns placement requirements (Ok (CrWorkerList workers)) = true <->
  forall w, w ∈ workers -> tag_value (cap_tags w) STATE_TAG_PREFIX = Some (str "disconnected") \/ matches_listed placement w = false \/ cap_satisfies w requirements = false.
Proof.
  intros Hsim. unfold warns. rewrite negb_true_iff, <-not_true_iff_false, existsb_exists. setoid_rewrite <-list_elem_of_In.
  assert (Hm : forall w, w ∈ workers -> worker_matches placement requirements w = true <->
    tag_value (cap_tags w) STATE_TAG_PREFIX <> Some (str "disconnected") /\ matches_listed placement w = true /\ cap_satisfies w requirements = true).
  { intros w Hw. specialize (Hsim w Hw). unfold worker_matches, cap_satisfies, can_execute_gpu. rewrite !andb_true_iff, negb_true_iff, bool_decide_eq_false, !N.leb_le.
    destruct (req_gpu_required requirements), (cap_has_gpu w), (cap_is_simulated_gpu w); cbn; try (specialize (Hsim eq_refl); done);
      destruct (0 <? req_cpu_cores requirements) eqn:E1, (cap_cpu_cores w <? req_cpu_cores requirements) eqn:E2, (0 <? req_ram_mb requirements) eqn:E3, (cap_ram_mb w <? req_ram_mb requirements) eqn:E4; cbn;
      rewrite ?N.ltb_lt, ?N.ltb_ge in *; naive_solver lia. }
  split.
  - intros Hn w Hw. destruct (decide (tag_value (cap_tags w) STATE_TAG_PREFIX = Some (str "disconnected"))); [by left|right].
    destruct (matches_listed placement w) eqn:E1; [|by left]. destruct (cap_satisfies w requirements) eqn:E2; [|by right]. destruct Hn. exists w. rewrite Hm by done. done.
  - intros Ha (w & Hw & Hx). apply Hm in Hx as (H1 & H2 & H3); [|done]. destruct (Ha w Hw) as [|[|]]; congruence.
Qed.

(** A wait is over by the time its deadline passes, or the client cancels. *)
Theorem submit_wait_ends tid warned status asked rounds : Exists (fun '(flag, ev) => flag = true \/ ev = EvDeadline \/ ev = EvCancelChanged true) rounds ->
  is_Some (submit_wait tid warned status asked rounds).
Proof.
  induction 1 as [[flag ev] rounds He|[flag ev] rounds _ IH]; cbn [submit_wait].
  - destruct flag; [eauto|]. destruct He as [He|[->| ->]]; [done|eauto..].
  - destruct flag; [eauto|]. destruct ev as [[]| |[[]| | |]| |]; eauto.
Qed.

(** ** task_result and cancel *)

Lemma poll_asks tid asked rounds o : Forall (eq (CmGetTaskResult tid)) asked -> result_poll tid asked rounds = Some o -> Forall (eq (CmGetTaskResult tid)) (oc_asked o).
Proof.
  revert asked. induction rounds as [|rd rounds IH]; intros asked Ha; cbn [result_poll]; [done|]. destruct (pr_flag rd); [by intros [= <-]|].
  assert (Ha' : Forall (eq (CmGetTaskResult tid)) (asked ++ [CmGetTaskResult tid])) by (apply Forall_app; split; [done|by constructor]).
  destruct (pr_send rd) as [[[]|]| | |]; try (by apply IH); try (by intros [= <-]).
  destruct (pr_recv rd) as [[[]|]|[[]| | |]|]; try (by apply IH); try (by intros [= <-]).
  destruct (pr_past_deadline rd); [by intros [= <-]|]. destruct (pr_pause rd) as [[[]|]|[]]; first [by apply IH|by intros [= <-]].
Qed.

(** Waiting for a result never asks for anything but the result: giving up the wait, by
    deadline or by cancellation, leaves the task alone. *)
Theorem waiting_leaves_task args io o : tool_task_result args io = Some o -> exists tid, Forall (eq (CmGetTaskResult tid)) (oc_asked o).
Proof.
  unfold tool_task_result. destruct (arg_str args (str "task_id")) as [text|]; [|intros [= <-]; by exists 0]. destruct (uuid_parse text) as [tid|]; [|intros [= <-]; by exists 0].
  destruct (if bool_decide _ then _ else _); [intros [= <-]; by exists 0|]. destruct (_ && _).
  - destruct (rs_resolved io); [intros [= <-]; by exists 0|]. destruct (rs_connected io); [intros [= <-]; by exists 0|]. intros Ho. exists tid. eapply poll_asks; [|exact Ho]. constructor.
  - intros Ho. exists tid. destruct (rs_answer io) as [r|e]; [destruct r|]; injection Ho as <-; cbn; by repeat constructor.
Qed.

(** A task is reported as cancelled only if the master said that it cancelled it, or if a first
    attempt may have and the master has it as cancelled. *)
Theorem cancelled_means_told args answer status t : oc_reply (tool_cancel args answer status) = TrCancelled t true ->
  (exists retried, answer = Ok (CrTaskCancelled t true, retried))
  \/ (answer = Ok (CrTaskCancelled t false, true) /\ exists tid state worker error, status = Ok (CrTaskStatusInfo tid StCancelled state worker error)).
Proof.
  unfold tool_cancel. destruct (arg_str args (str "task_id")) as [text|]; [|done]. destruct (uuid_parse text) as [tid|]; [|done].
  destruct answer as [[r retried]|e]; [|done]. destruct r as [| | |t' success| | | | | |]; try done. destruct success, retried; cbn; intros [= <-]; eauto.
  right. split; [done|]. destruct status as [r|]; [|done]. destruct r as [| |? st| | | | | | |]; try done. destruct st; try done. eauto.
Qed.
End tools.

(** ** Witnesses *)

(** A toy of JSON: objects of strings and numbers. *)
Module ToyJson.
Inductive tree := TNull | TBool (b : bool) | TNum (n : N) | TStr (s : Str) | TArr (l : list tree) | TObj (l : list (Str * tree)).
Definition view (t : tree) : JsonView tree :=
  match t with TNull => VNull | TBool b => VBool b | TNum n => VNumber (Some n) | TStr s => VString s | TArr l => VArray l | TObj l => VObject l end.
Definition json : McpJson := {| JVal := tree; json_view := view; json_from_str := fun _ => None; json_to_string := fun t => match t with TNum n => Some (show_N n) | _ => None end; json_empty := TObj [] |}.
Definition uuid : UuidApi := {| uuid_to_string := show_N; uuid_parse := fun s => parse_usize s |}.
End ToyJson.

Definition sample_args (wait : bool) : ToyJson.tree :=
  ToyJson.TObj [(str "command", ToyJson.TStr (str "ls")); (str "wait", ToyJson.TBool wait); (str "outputs", ToyJson.TArr [ToyJson.TStr (str "out.txt")])].

Definition sample_io (flags : nat -> bool) (rounds : list (bool * WaitEvent)) : SubmitIo :=
  {| si_output_dir := None; si_scan := Ok []; si_task_id := 7; si_epoch := 0; si_cancelled := flags; si_resolved := None; si_upload := None; si_workers := Ok (CrWorkerList []);
     si_connected := None; si_sent := Sent; si_rounds := rounds; si_status := Ok (CrError (str "Task not found")); si_submit := Err ClosedUnexpectedly;
     si_resubmit := Ok (CrError (str "Task already exists")) |}.

Lemma validated_submit_builds_witness :
  is_ok (submitted_spec (H := ToyJson.json) (sample_args true)) = true /\ is_ok (submit_placement (H := ToyJson.json) (sample_args true)) = true
  /\ is_ok (submit_globs (H := ToyJson.json) (sample_args true)) = true.
Proof. apply (validated_submit_builds (H := ToyJson.json) (H0 := ToyJson.uuid)). vm_compute. reflexivity. Defined.

Lemma reply_answers_request_witness :
  let io := {| ri_pooled := {| ex_send := Sent; ex_recv := Closed |}; ri_connect := Some 2; ri_fresh := {| ex_send := Sent; ex_recv := Got (CrError []) |}; ri_pool_then := None |} in
  an_answers (request_with_retry_info CmListWorkers (Some {| cn_name := 1; cn_awaiting := [] |}) io) = Some CmListWorkers.
Proof. intros io. apply reply_answers_request; [by intros c [= <-]|done|reflexivity]. Defined.

(** The connection closes before the answer, the master does not know the task, the second
    submission finds that it does: submitted once. *)
Lemma submit_keeps_its_word_witness : exists o task, tool_submit (H := ToyJson.json) (H0 := ToyJson.uuid) (sample_args false) (sample_io (fun _ => false) []) = Some o
  /\ oc_reply o = TrSubmitted 7 true /\ submit_good task (sample_io (fun _ => false) []) o.
Proof.
  eassert (E : tool_submit (H := ToyJson.json) (H0 := ToyJson.uuid) (sample_args false) (sample_io (fun _ => false) []) = Some _) by (vm_compute; reflexivity).
  destruct (submit_keeps_its_word (H := ToyJson.json) (H0 := ToyJson.uuid) (sample_args false) (sample_io (fun _ => false) []) _ ltac:(done) ltac:(done) E) as (task & _ & Hg).
  eexists _, task. split; [exact E|]. split; [reflexivity|exact Hg].
Defined.

Lemma warning_agrees_witness : warns (H0 := ToyJson.uuid) placement_default (submit_requirements (H := ToyJson.json) (sample_args true)) (Ok (CrWorkerList [])) = true.
Proof. apply (warning_agrees (H0 := ToyJson.uuid)); intros w Hw; by apply elem_of_nil in Hw. Defined.

Lemma submit_wait_ends_witness : is_Some (submit_wait 7 false (Err ConnectFailed) [] [(false, EvTick); (false, EvDeadline)]).
Proof. apply submit_wait_ends. apply Exists_cons_tl, Exists_cons_hd. auto. Defined.

Lemma waiting_leaves_task_witness : exists o tid, tool_task_result (H := ToyJson.json) (H0 := ToyJson.uuid) (ToyJson.TObj [(str "task_id", ToyJson.TStr (str "7"))])
  {| rs_output_dir := None; rs_resolved := None; rs_connected := None; rs_rounds := []; rs_answer := Err ConnectFailed |} = Some o /\ Forall (eq (CmGetTaskResult tid)) (oc_asked o).
Proof.
  eassert (E : tool_task_result (H := ToyJson.json) (H0 := ToyJson.uuid) (ToyJson.TObj [(str "task_id", ToyJson.TStr (str "7"))])
    {| rs_output_dir := None; rs_resolved := None; rs_connected := None; rs_rounds := []; rs_answer := Err ConnectFailed |} = Some _) by (vm_compute; reflexivity).
  destruct (waiting_leaves_task (H := ToyJson.json) (H0 := ToyJson.uuid) _ _ _ E) as [tid Ht]. eexists _, tid. split; [exact E|exact Ht].
Defined.

Lemma cancelled_means_told_witness : (exists retried, Ok (CrTaskCancelled 7 true, false) = @Ok ReqError _ (CrTaskCancelled 7 true, retried)) \/
  (@Ok ReqError _ (CrTaskCancelled 7 true, false) = Ok (CrTaskCancelled 7 false, true) /\ exists tid state worker error, @Err ReqError _ ConnectFailed = Ok (CrTaskStatusInfo tid StCancelled state worker error)).
Proof.
  apply (cancelled_means_told (H := ToyJson.json) (H0 := ToyJson.uuid) (ToyJson.TObj [(str "task_id", ToyJson.TStr (str "7"))])). vm_compute. reflexivity.
Defined.

(** A wait that is null counts as absent for the checks and for [submit], but in [task_result]
    it hides the timeout that is given. *)
Example null_wait_hides_timeout :
  let args := ToyJson.TObj [(str "task_id", ToyJson.TStr (str "7")); (str "wait_secs", ToyJson.TNull); (str "timeout_secs", ToyJson.TNum 5)] in
  result_timeout_secs (H := ToyJson.json) args = 60 /\ submit_wait_secs (H := ToyJson.json) args = 10.
Proof. split; vm_compute; reflexivity. Qed.

(** A retry count above the range of [u32] is accepted and wraps. *)
Example large_retries_wrap :
  let args := ToyJson.TObj [(str "command", ToyJson.TStr (str "ls")); (str "max_retries", ToyJson.TNum (2 ^ 32))] in
  validate_tool_arguments (H := ToyJson.json) (H0 := ToyJson.uuid) (str "submit") args = Ok tt /\ req_max_retries (submit_requirements (H := ToyJson.json) args) = Some 0.
Proof. split; vm_compute; reflexivity. Qed.
