(* ===== verification/McpServer.v ===== *)
(** * McpServer: the MCP server on standard input and output

    Models [run_stdio_server] of [crates/cli/src/mcp.rs]: the reading of a line, the dispatch
    of a request, the calls of tools that run beside the reader, their cancellation and their
    replies.  The reader and every call are sequences of holds of the server's locks, and a run
    interleaves them.  What a tool does is a sequence of events: it may submit a task, notice
    that it was cancelled, and return.  Lines are numbered as they are read and a response
    carries the number of the line it answers.  Progress notifications, the texts of messages
    and the 64-bit wrap of the call counter are left out; a response is what
    [send_response_line] queues.  A call submits at most one task, as [tool_submit] does.

    The theorems are invariants over every interleaving of the reader and the calls: what each
    line that was read is owed and got; which calls hold which request ids; and which tasks a
    cancellation can reach. *)

From S2P Require Import Prelude Collections RustStr Capabilities Placement Blob Task Auth McpCalls McpOutput.
Local Open Scope N_scope.

Definition PARSE_ERROR : Z := -32700.
Definition INVALID_REQUEST : Z := -32600.
Definition METHOD_NOT_FOUND : Z := -32601.
Definition INVALID_PARAMS : Z := -32602.
Definition INTERNAL_ERROR : Z := -32603.

Inductive RpcError :=
| InvalidJson | RequestNotObject | BadRequestId | BadMethod | BadVersion | BadParams | ParamsNotObject | BadToolName | BadArguments
| ToolArguments (e : ArgError) | DuplicateId (key : Str) | SerializationFailed | MethodNotFound (method : Str).

Section server.
Context `{McpJson} `{UuidApi}.
(** What the tools return. *)
Context {R : Type}.

Inductive RpcResult := RpInitialize | RpEmpty | RpTools | RpTool (r : R).

(** The line a response answers is not part of the response. *)
Record JsonRpcResponse := { rp_id : option JVal; rp_body : RpcResult + Z * RpcError }.
Definition response_success (id : option JVal) (r : RpcResult) : JsonRpcResponse := {| rp_id := id; rp_body := inl r |}.
Definition response_error (id : option JVal) (code : Z) (message : RpcError) : JsonRpcResponse := {| rp_id := id; rp_body := inr (code, message) |}.

(** ** Reading a line *)

Definition request_id_key (id : JVal) : option Str := if value_is_null id then None else json_to_string id.

Record RpcRequest := { rq_id : JVal; rq_method : Str; rq_params : option JVal }.
Inductive Incoming := Ignored | Refused (r : JsonRpcResponse) | CancelNote (key : Str) | Asked (rq : RpcRequest).

Definition valid_id (v : JVal) : bool := match json_view v with VString _ | VNumber _ | VNull => true | _ => false end.
Definition valid_params (p : option JVal) : bool := match json_view <$> p with None | Some VNull | Some (VObject _) | Some (VArray _) => true | _ => false end.
Definition nonempty_str (s : Str) : option Str := if is_empty s then None else Some s.

(** [notifications/cancelled]: the request it names. *)
Definition cancelled_key (params : option JVal) : option Str :=
  match params with
  | Some p => (match value_get p (str "requestId") with Some v => Some v | None => value_get p (str "id") end) ≫= request_id_key
  | None => None
  end.

Definition read_line (line : Str) : Incoming :=
  if is_empty (trim line) then Ignored
  else
    match json_from_str (trim line) with
    | None => Refused (response_error None PARSE_ERROR InvalidJson)
    | Some raw =>
        match value_object raw with
        | None => Refused (response_error None INVALID_REQUEST RequestNotObject)
        | Some map =>
            let method_opt := (field (str "method") map ≫= value_str) ≫= nonempty_str in
            let valid_version := bool_decide (field (str "jsonrpc") map ≫= value_str = Some (str "2.0")) in
            let params := field (str "params") map in
            match field (str "id") map with
            | None =>
                match method_opt with
                | Some method =>
                    if valid_version && valid_params params && bool_decide (method = str "notifications/cancelled") then
                      match cancelled_key params with Some key => CancelNote key | None => Ignored end
                    else Ignored
                | None => Refused (response_error None INVALID_REQUEST BadMethod)
                end
            | Some id =>
                if negb (valid_id id) then Refused (response_error None INVALID_REQUEST BadRequestId)
                else if negb valid_version then Refused (response_error (Some id) INVALID_REQUEST BadVersion)
                else
                  match method_opt with
                  | None => Refused (response_error (Some id) INVALID_REQUEST BadMethod)
                  | Some method =>
                      if negb (valid_params params) then Refused (response_error (Some id) INVALID_REQUEST BadParams)
                      else Asked {| rq_id := id; rq_method := method; rq_params := params |}
                  end
            end
        end
    end.

(** ** Dispatch *)

Record ToolCall := { tc_id : JVal; tc_key : option Str; tc_name : Str; tc_arguments : JVal }.
Inductive Dispatch := Answered (r : JsonRpcResponse) | Calls (c : ToolCall).

Definition tool_call (rq : RpcRequest) : Dispatch :=
  let refuse e := Answered (response_error (Some (rq_id rq)) INVALID_PARAMS e) in
  match rq_params rq ≫= value_object with
  | None => refuse ParamsNotObject
  | Some params_obj =>
      match (field (str "name") params_obj ≫= value_str) ≫= nonempty_str with
      | None => refuse BadToolName
      | Some name =>
          match (match field (str "arguments") params_obj with
                 | None => Some json_empty
                 | Some v => match json_view v with VNull => Some json_empty | VObject _ => Some v | _ => None end
                 end) with
          | None => refuse BadArguments
          | Some arguments =>
              match validate_tool_arguments name arguments with
              | Err e => refuse (ToolArguments e)
              | Ok _ => Calls {| tc_id := rq_id rq; tc_key := request_id_key (rq_id rq); tc_name := name; tc_arguments := arguments |}
              end
          end
      end
  end.

Definition dispatch_request (rq : RpcRequest) : Dispatch :=
  let id := Some (rq_id rq) in
  if bool_decide (rq_method rq = str "initialize") then Answered (response_success id RpInitialize)
  else if bool_decide (rq_method rq = str "ping") then Answered (response_success id RpEmpty)
  else if bool_decide (rq_method rq = str "tools/list") then Answered (response_success id RpTools)
  else if bool_decide (rq_method rq = str "tools/call") then tool_call rq
  else Answered (response_error id METHOD_NOT_FOUND (MethodNotFound (rq_method rq))).

(** ** The state *)

(** Where the task of a call is: the tool runs; it has returned; its canceller is dropped; its
    submission is to be remembered; it is to leave the table of calls in flight; it is to
    reply; it is over; it was aborted. *)
Inductive ToolPhase := CpRunning | CpReturned (r : R) | CpUnlisted (r : R) | CpPushing (r : R) (tid : TaskId) | CpLeaving (r : R) | CpFinal (r : R) | CpDone | CpAborted.

Record ToolRun := {
  cl_line : nat; cl_id : JVal; cl_key : option Str; cl_cancel : bool; cl_client_cancelled : bool; cl_aborted : bool; cl_submitted : option TaskId; cl_phase : ToolPhase
}.
Definition call_with_flags (cancel client aborted : bool) (c : ToolRun) : ToolRun :=
  {| cl_line := cl_line c; cl_id := cl_id c; cl_key := cl_key c; cl_cancel := cancel; cl_client_cancelled := client; cl_aborted := aborted; cl_submitted := cl_submitted c; cl_phase := cl_phase c |}.
Definition call_with_task (tid : TaskId) (c : ToolRun) : ToolRun :=
  {| cl_line := cl_line c; cl_id := cl_id c; cl_key := cl_key c; cl_cancel := cl_cancel c; cl_client_cancelled := cl_client_cancelled c; cl_aborted := cl_aborted c; cl_submitted := Some tid; cl_phase := cl_phase c |}.
Definition call_with_phase (p : ToolPhase) (c : ToolRun) : ToolRun :=
  {| cl_line := cl_line c; cl_id := cl_id c; cl_key := cl_key c; cl_cancel := cl_cancel c; cl_client_cancelled := cl_client_cancelled c; cl_aborted := cl_aborted c; cl_submitted := cl_submitted c; cl_phase := p |}.
Definition call_silenced (c : ToolRun) : bool := cl_client_cancelled c || cl_aborted c.

(** Where the reader is between two holds of a lock. *)
Inductive Reader :=
| RdIdle | RdForget (key : Str) (rq : RpcRequest) | RdCheck (key : Str) (tc : ToolCall) | RdRegister (tc : ToolCall) | RdList (seq : N) (tc : ToolCall)
| RdLook (key : Str) | RdTask (key : Str) (seq : N) | RdSearch (key : Str) | RdClosed.

(** A cancellation asked of the master: the request it is for, the task, and whether the call
    was in flight; if not, the master is asked first whether the task is still active. *)
Record Cancel := { ca_key : Str; ca_task : TaskId; ca_in_flight : bool }.

Record Server := {
  sv_lines : list Str; sv_reader : Reader; sv_calls : gmap N ToolRun; sv_in_flight : gmap Str N; sv_completed : list (Str * TaskId);
  sv_active : gset N; sv_next : N; sv_out : list (nat * JsonRpcResponse); sv_cancels : list Cancel
}.
Definition server_new : Server :=
  {| sv_lines := []; sv_reader := RdIdle; sv_calls := ∅; sv_in_flight := ∅; sv_completed := []; sv_active := ∅; sv_next := 1; sv_out := []; sv_cancels := [] |}.

Definition set_reader (r : Reader) (s : Server) : Server :=
  {| sv_lines := sv_lines s; sv_reader := r; sv_calls := sv_calls s; sv_in_flight := sv_in_flight s; sv_completed := sv_completed s; sv_active := sv_active s; sv_next := sv_next s; sv_out := sv_out s; sv_cancels := sv_cancels s |}.
Definition set_calls (m : gmap N ToolRun) (s : Server) : Server :=
  {| sv_lines := sv_lines s; sv_reader := sv_reader s; sv_calls := m; sv_in_flight := sv_in_flight s; sv_completed := sv_completed s; sv_active := sv_active s; sv_next := sv_next s; sv_out := sv_out s; sv_cancels := sv_cancels s |}.
Definition put_call (seq : N) (c : ToolRun) (s : Server) : Server := set_calls (<[seq := c]> (sv_calls s)) s.
Definition set_in_flight (m : gmap Str N) (s : Server) : Server :=
  {| sv_lines := sv_lines s; sv_reader := sv_reader s; sv_calls := sv_calls s; sv_in_flight := m; sv_completed := sv_completed s; sv_active := sv_active s; sv_next := sv_next s; sv_out := sv_out s; sv_cancels := sv_cancels s |}.
Definition set_completed (l : list (Str * TaskId)) (s : Server) : Server :=
  {| sv_lines := sv_lines s; sv_reader := sv_reader s; sv_calls := sv_calls s; sv_in_flight := sv_in_flight s; sv_completed := l; sv_active := sv_active s; sv_next := sv_next s; sv_out := sv_out s; sv_cancels := sv_cancels s |}.
Definition set_active (a : gset N) (next : N) (s : Server) : Server :=
  {| sv_lines := sv_lines s; sv_reader := sv_reader s; sv_calls := sv_calls s; sv_in_flight := sv_in_flight s; sv_completed := sv_completed s; sv_active := a; sv_next := next; sv_out := sv_out s; sv_cancels := sv_cancels s |}.
Definition respond (line : nat) (r : JsonRpcResponse) (s : Server) : Server :=
  {| sv_lines := sv_lines s; sv_reader := sv_reader s; sv_calls := sv_calls s; sv_in_flight := sv_in_flight s; sv_completed := sv_completed s; sv_active := sv_active s; sv_next := sv_next s; sv_out := sv_out s ++ [(line, r)]; sv_cancels := sv_cancels s |}.
Definition ask_cancel (c : Cancel) (s : Server) : Server :=
  {| sv_lines := sv_lines s; sv_reader := sv_reader s; sv_calls := sv_calls s; sv_in_flight := sv_in_flight s; sv_completed := sv_completed s; sv_active := sv_active s; sv_next := sv_next s; sv_out := sv_out s; sv_cancels := sv_cancels s ++ [c] |}.
Definition push_line (l : Str) (s : Server) : Server :=
  {| sv_lines := sv_lines s ++ [l]; sv_reader := sv_reader s; sv_calls := sv_calls s; sv_in_flight := sv_in_flight s; sv_completed := sv_completed s; sv_active := sv_active s; sv_next := sv_next s; sv_out := sv_out s; sv_cancels := sv_cancels s |}.

(** The number of the line the reader is on. *)
Definition this_line (s : Server) : nat := pred (length (sv_lines s)).

(** ** The reader *)

Definition without_key (key : Str) (l : list (Str * TaskId)) : list (Str * TaskId) := filter (fun e => e.1 <> key) l.

Definition MAX_COMPLETED : nat := 256.

(** What remembers the submission of a finished call. *)
Definition remember (key : Str) (tid : TaskId) (l : list (Str * TaskId)) : list (Str * TaskId) :=
  let l := without_key key l in
  (if (MAX_COMPLETED <=? length l)%nat then drop 1 l else l) ++ [(key, tid)].

(** [rposition] and [remove]: the last entry of the key, and the rest. *)
Fixpoint take_last (key : Str) (l : list (Str * TaskId)) : option (TaskId * list (Str * TaskId)) :=
  match l with
  | [] => None
  | e :: l =>
      match take_last key l with
      | Some (tid, rest) => Some (tid, e :: rest)
      | None => if bool_decide (e.1 = key) then Some (e.2, l) else None
      end
  end.

Definition after_dispatch (rq : RpcRequest) (s : Server) : Server :=
  match dispatch_request rq with
  | Answered r => set_reader RdIdle (respond (this_line s) r s)
  | Calls tc => set_reader (match tc_key tc with Some key => RdCheck key tc | None => RdRegister tc end) s
  end.

Definition on_line (line : Str) (s : Server) : Server :=
  let s := push_line line s in
  match read_line line with
  | Ignored => s
  | Refused r => respond (this_line s) r s
  | CancelNote key => set_reader (RdLook key) s
  | Asked rq =>
      match (if bool_decide (rq_method rq = str "notifications/cancelled") then None else request_id_key (rq_id rq)) with
      | Some key => set_reader (RdForget key rq) s
      | None => after_dispatch rq s
      end
  end.

Definition new_call (line : nat) (tc : ToolCall) : ToolRun :=
  {| cl_line := line; cl_id := tc_id tc; cl_key := tc_key tc; cl_cancel := false; cl_client_cancelled := false; cl_aborted := false; cl_submitted := None; cl_phase := CpRunning |}.

(** The next hold of a lock by the reader. *)
Definition reader_step (s : Server) : option Server :=
  match sv_reader s with
  | RdIdle | RdClosed => None
  | RdForget key rq => Some (after_dispatch rq (set_completed (without_key key (sv_completed s)) s))
  | RdCheck key tc =>
      if bool_decide (is_Some (sv_in_flight s !! key)) then
        Some (set_reader RdIdle (respond (this_line s) (response_error (Some (tc_id tc)) INVALID_REQUEST (DuplicateId key)) s))
      else Some (set_reader (RdRegister tc) s)
  | RdRegister tc => Some (set_reader (RdList (sv_next s) tc) (set_active ({[sv_next s]} ∪ sv_active s) (sv_next s + 1) s))
  | RdList seq tc =>
      let s := match tc_key tc with Some key => set_in_flight (<[key := seq]> (sv_in_flight s)) s | None => s end in
      Some (set_reader RdIdle (put_call seq (new_call (this_line s) tc) s))
  | RdLook key =>
      match sv_in_flight s !! key with
      | Some seq =>
          match sv_calls s !! seq with
          | Some c => Some (set_reader (RdTask key seq) (put_call seq (call_with_flags true true (cl_aborted c) c) s))
          | None => None
          end
      | None => Some (set_reader (RdSearch key) s)
      end
  | RdTask key seq =>
      match sv_calls s !! seq ≫= cl_submitted with
      | Some tid => Some (set_reader RdIdle (ask_cancel {| ca_key := key; ca_task := tid; ca_in_flight := true |} s))
      | None => Some (set_reader RdIdle s)
      end
  | RdSearch key =>
      match take_last key (sv_completed s) with
      | Some (tid, rest) => Some (set_reader RdIdle (ask_cancel {| ca_key := key; ca_task := tid; ca_in_flight := false |} (set_completed rest s)))
      | None => Some (set_reader RdIdle s)
      end
  end.

(** ** Calls *)

(** What a call does once its canceller is dropped: a call with an id remembers the task it
    submitted, unless it was cancelled, and leaves the table. *)
Definition next_phase (r : R) (c : ToolRun) : ToolPhase :=
  match cl_key c with
  | None => CpFinal r
  | Some _ => if call_silenced c then CpLeaving r else match cl_submitted c with Some tid => CpPushing r tid | None => CpLeaving r end
  end.

(** The next hold of a lock by a call whose tool has returned; [encodes]: whether its result
    has a JSON form. *)
Definition tool_task_step (encodes : bool) (seq : N) (s : Server) : option Server :=
  match sv_calls s !! seq with
  | None => None
  | Some c =>
      match cl_phase c with
      | CpRunning | CpDone | CpAborted => None
      | CpReturned r => Some (put_call seq (call_with_phase (CpUnlisted r) c) (set_active (sv_active s ∖ {[seq]}) (sv_next s) s))
      | CpUnlisted r =>
          Some (put_call seq (call_with_phase (next_phase r c) c) s)
      | CpPushing r tid =>
          match cl_key c with
          | Some key => Some (put_call seq (call_with_phase (CpLeaving r) c) (set_completed (remember key tid (sv_completed s)) s))
          | None => None
          end
      | CpLeaving r =>
          match cl_key c with
          | Some key => Some (put_call seq (call_with_phase (CpFinal r) c) (set_in_flight (delete key (sv_in_flight s)) s))
          | None => None
          end
      | CpFinal r =>
          let s := put_call seq (call_with_phase CpDone c) s in
          if call_silenced c then Some s
          else
            Some (respond (cl_line c) (if encodes then response_success (Some (cl_id c)) (RpTool r) else response_error (Some (cl_id c)) INTERNAL_ERROR SerializationFailed) s)
      end
  end.

Definition tool_event (seq : N) (f : ToolRun -> option ToolRun) (s : Server) : option Server :=
  match sv_calls s !! seq with
  | Some c => match cl_phase c with CpRunning => (fun c => put_call seq c s) <$> f c | _ => None end
  | None => None
  end.

(** ** Runs *)

Inductive Event :=
| EvLine (line : Str) | EvReader | EvEof
| EvSubmitted (seq : N) (tid : TaskId) | EvAborted (seq : N) | EvReturns (seq : N) (r : R) | EvCall (encodes : bool) (seq : N)
| EvCancelAll | EvAbortAll.

Definition is_over (c : ToolRun) : bool := match cl_phase c with CpDone | CpAborted => true | _ => false end.

Definition server_step (s : Server) (e : Event) : option Server :=
  match e with
  | EvLine line => match sv_reader s with RdIdle => Some (on_line line s) | _ => None end
  | EvReader => reader_step s
  | EvEof => match sv_reader s with RdIdle => Some (set_reader RdClosed s) | _ => None end
  | EvSubmitted seq tid => tool_event seq (fun c => match cl_submitted c with None => Some (call_with_task tid c) | Some _ => None end) s
  | EvAborted seq => tool_event seq (fun c => if cl_cancel c then Some (call_with_flags (cl_cancel c) (cl_client_cancelled c) true c) else None) s
  | EvReturns seq r => tool_event seq (fun c => Some (call_with_phase (CpReturned r) c)) s
  | EvCall encodes seq => tool_task_step encodes seq s
  | EvCancelAll =>
      match sv_reader s with
      | RdClosed => Some (set_calls (map_imap (fun seq c => Some (if decide (seq ∈ sv_active s) then call_with_flags true (cl_client_cancelled c) (cl_aborted c) c else c)) (sv_calls s)) s)
      | _ => None
      end
  | EvAbortAll =>
      match sv_reader s with
      | RdClosed => Some (set_calls ((fun c => if is_over c then c else call_with_phase CpAborted c) <$> sv_calls s) s)
      | _ => None
      end
  end.

Fixpoint server_run (s : Server) (es : list Event) : option Server :=
  match es with
  | [] => Some s
  | e :: es => match server_step s e with Some s => server_run s es | None => None end
  end.
End server.

Section props.
Context `{McpJson} `{UuidApi}.
Context {R : Type}.
Implicit Types s : Server (R := R).
Implicit Types c : ToolRun (R := R).

(** ** What lines are owed *)

Definition answers s (ln : nat) : list (JsonRpcResponse (R := R)) := snd <$> filter (fun p => p.1 = ln) (sv_out s).

(** The id of the request the reader works on. *)
Definition on_request (r : Reader) : option JVal :=
  match r with
  | RdForget _ rq => Some (rq_id rq)
  | RdCheck _ tc | RdRegister tc | RdList _ tc => Some (tc_id tc)
  | _ => None
  end.
Definition reader_call (r : Reader) : option ToolCall := match r with RdCheck _ tc | RdRegister tc | RdList _ tc => Some tc | _ => None end.

(** One answer, with the id of the request, by the reader or by a call that is over. *)
Definition answered s (ln : nat) (id : JVal) : Prop :=
  exists r, answers s ln = [r] /\ rp_id r = Some id
  /\ forall seq c, sv_calls s !! seq = Some c -> cl_line c = ln -> cl_phase c = CpDone /\ call_silenced c = false.

(** No answer, and a call that is not over, or was aborted, or was cancelled. *)
Definition unanswered s (ln : nat) : Prop :=
  answers s ln = [] /\ exists seq c, sv_calls s !! seq = Some c /\ cl_line c = ln /\ (is_over c = false \/ cl_phase c = CpAborted \/ call_silenced c = true).

Definition owed s (ln : nat) (line : Str) : Prop :=
  match read_line (R := R) line with
  | Ignored | CancelNote _ => answers s ln = []
  | Refused r => answers s ln = [r]
  | Asked rq => (is_Some (on_request (sv_reader s)) /\ ln = this_line s) \/ answered s ln (rq_id rq) \/ unanswered s ln
  end.

Definition asked_line s (ln : nat) (id : JVal) : Prop := exists line rq, sv_lines s !! ln = Some line /\ read_line (R := R) line = Asked rq /\ rq_id rq = id.

Record log_inv s : Prop := {
  li_calls : forall seq c, sv_calls s !! seq = Some c -> asked_line s (cl_line c) (cl_id c) /\ cl_key c = request_id_key (cl_id c) /\ seq < sv_next s;
  li_inj : forall seq1 seq2 c1 c2, sv_calls s !! seq1 = Some c1 -> sv_calls s !! seq2 = Some c2 -> cl_line c1 = cl_line c2 -> seq1 = seq2;
  li_list : forall seq tc, sv_reader s = RdList seq tc -> sv_calls s !! seq = None /\ seq < sv_next s;
  li_reader : forall id, on_request (sv_reader s) = Some id ->
    asked_line s (this_line s) id /\ answers s (this_line s) = [] /\ (forall seq c, sv_calls s !! seq = Some c -> cl_line c <> this_line s);
  li_tc : forall tc, reader_call (sv_reader s) = Some tc -> tc_key tc = request_id_key (tc_id tc);
  li_out : forall ln r, (ln, r) ∈ sv_out s -> (ln < length (sv_lines s))%nat;
  li_owed : forall ln line, sv_lines s !! ln = Some line -> owed s ln line
}.

Definition same_log s s' : Prop :=
  sv_lines s' = sv_lines s /\ sv_reader s' = sv_reader s /\ sv_calls s' = sv_calls s /\ sv_next s' = sv_next s /\ sv_out s' = sv_out s.

Lemma log_same s s' : same_log s s' -> log_inv s -> log_inv s'.
Proof.
  intros (Hl & Hr & Hc & Hn & Ho) Hi. destruct Hi as [H1 H2 H3 H4 H5 H6 H7].
  constructor; unfold owed, answered, unanswered, answers, asked_line, this_line in *; rewrite ?Hl, ?Hr, ?Hc, ?Hn, ?Ho; assumption.
Qed.

Lemma answers_respond ln r s ln' : answers (respond ln r s) ln' = answers s ln' ++ (if decide (ln = ln') then [r] else []).
Proof.
  unfold answers. cbn [sv_out respond]. rewrite filter_app, fmap_app. f_equal. destruct (decide (ln = ln')) as [->|Hn].
  - by rewrite filter_cons_True by done.
  - by rewrite filter_cons_False by done.
Qed.

Lemma answers_none s ln : (forall r, (ln, r) ∉ sv_out s) -> answers s ln = [].
Proof.
  intros Hn. unfold answers. destruct (filter (fun p => p.1 = ln) (sv_out s)) as [|[l r] rest] eqn:E; [done|]. exfalso.
  assert (Hin : (l, r) ∈ filter (fun p => p.1 = ln) (sv_out s)) by (rewrite E; left). apply list_elem_of_filter in Hin as [Hl Hin]. cbn in Hl. subst. by apply (Hn r).
Qed.

(** The reader moves on with the same request, or with none where it had none. *)
Lemma log_reader r s : log_inv s -> on_request r = on_request (sv_reader s) -> (forall seq tc, r = RdList seq tc -> sv_calls s !! seq = None /\ seq < sv_next s) ->
  (forall tc, reader_call r = Some tc -> tc_key tc = request_id_key (tc_id tc)) -> log_inv (set_reader r s).
Proof.
  intros Hi Hr Hl Ht. destruct Hi as [H1 H2 H3 H4 H5 H6 H7]. constructor; try assumption.
  - intros id Hid. cbn in Hid. rewrite Hr in Hid. by apply H4.
  - intros ln line Hln. specialize (H7 ln line Hln). revert H7. unfold owed, answered, unanswered, answers. cbn. by rewrite Hr.
Qed.

(** The reader answers the request it is on. *)
Lemma log_answer id r s : log_inv s -> on_request (sv_reader s) = Some id -> rp_id r = Some id -> log_inv (set_reader RdIdle (respond (this_line s) r s)).
Proof.
  intros Hi Hon Hid. destruct (li_reader s Hi id Hon) as ((line & rq & Hl & Hrq & Hrid) & Ha & Hc). destruct Hi as [H1 H2 H3 H4 H5 H6 H7].
  constructor; [exact H1|exact H2|done|done|done|..].
  - intros ln r' [Hin|Hin%list_elem_of_singleton]%elem_of_app; [by apply (H6 ln r')|]. injection Hin as -> ->. by apply lookup_lt_is_Some; eauto.
  - intros ln line' Hln. cbn [sv_lines set_reader respond] in Hln. specialize (H7 ln line' Hln). unfold owed in *. change (sv_reader (set_reader RdIdle _)) with RdIdle.
    assert (Han : forall ln', answers (set_reader RdIdle (respond (this_line s) r s)) ln' = answers s ln' ++ (if decide (this_line s = ln') then [r] else [])) by (intros; apply answers_respond).
    destruct (decide (this_line s = ln)) as [<-|Hne].
    + assert (line' = line) as -> by (rewrite Hl in Hln; by injection Hln). rewrite Hrq. right. left. exists r. rewrite Han, Ha, decide_True by done. split_and!; [done|congruence|].
      intros seq c Hs Hcl. by destruct (Hc seq c Hs).
    + destruct (read_line line'); [by rewrite Han, decide_False, app_nil_r|by rewrite Han, decide_False, app_nil_r|by rewrite Han, decide_False, app_nil_r|].
      destruct H7 as [[_ ->]|[(r' & Hr' & Hi')|[Hu Hc']]]; [done|..]; right; [left; exists r'|right; split; [|exact Hc']]; rewrite Han, decide_False, app_nil_r; done.
Qed.

Lemma tool_call_id rq : match tool_call (R := R) rq with
  | Answered r => rp_id r = Some (rq_id rq) | Calls tc => tc_id tc = rq_id rq /\ tc_key tc = request_id_key (rq_id rq) end.
Proof.
  unfold tool_call. destruct (rq_params rq ≫= value_object); [|done]. destruct (_ ≫= nonempty_str); [|done].
  destruct (match field (str "arguments") _ with Some _ => _ | None => _ end); [|done]. by destruct (validate_tool_arguments _ _).
Qed.

Lemma dispatch_id rq : match dispatch_request (R := R) rq with
  | Answered r => rp_id r = Some (rq_id rq) | Calls tc => tc_id tc = rq_id rq /\ tc_key tc = request_id_key (rq_id rq) end.
Proof. unfold dispatch_request. repeat (destruct (bool_decide _); [first [apply tool_call_id|done]|]). done. Qed.

Lemma log_dispatch key rq s : log_inv (set_reader (RdForget key rq) s) -> log_inv (after_dispatch rq s).
Proof.
  intros Hi. unfold after_dispatch. pose proof (dispatch_id rq) as Hd. destruct (dispatch_request rq) as [r|tc].
  - exact (log_answer (rq_id rq) r (set_reader (RdForget key rq) s) Hi eq_refl Hd).
  - destruct Hd as [Hd Hk]. refine (log_reader _ (set_reader (RdForget key rq) s) Hi _ _ _).
    + destruct (tc_key tc); cbn; congruence.
    + destruct (tc_key tc); done.
    + intros tc'. destruct (tc_key tc) eqn:E; cbn; intros [= <-]; congruence.
Qed.

(** [s'] is [s] with a line more, and perhaps an answer to it. *)
Record reads (line : Str) (extra : option (JsonRpcResponse (R := R))) s s' : Prop := {
  rd_idle : sv_reader s = RdIdle;
  rd_lines : sv_lines s' = sv_lines s ++ [line];
  rd_calls : sv_calls s' = sv_calls s;
  rd_next : sv_next s' = sv_next s;
  rd_out : sv_out s' = match extra with Some r => sv_out s ++ [(length (sv_lines s), r)] | None => sv_out s end
}.

Section reads.
Context (line : Str) (extra : option (JsonRpcResponse (R := R))) (s s' : Server (R := R)) (Hi : log_inv s) (Hr : reads line extra s s').

Lemma reads_old ln : (ln < length (sv_lines s))%nat -> answers s' ln = answers s ln.
Proof.
  intros Hlt. unfold answers. rewrite (rd_out _ _ _ _ Hr). destruct extra as [r|]; [|done]. rewrite filter_app, filter_cons_False by (cbn; lia). by rewrite filter_nil, app_nil_r.
Qed.

Lemma reads_new : answers s' (length (sv_lines s)) = option_list extra.
Proof.
  assert (Hn : answers s (length (sv_lines s)) = []) by (apply answers_none; intros r Hin; apply (li_out s Hi) in Hin; lia). revert Hn.
  unfold answers. rewrite (rd_out _ _ _ _ Hr). destruct extra as [r|]; [|done]. intros Hn. rewrite filter_app, filter_cons_True by done. by rewrite fmap_app, Hn.
Qed.

Lemma reads_this : this_line s' = length (sv_lines s).
Proof. unfold this_line. rewrite (rd_lines _ _ _ _ Hr), length_app. cbn. lia. Qed.

Lemma reads_line : sv_lines s' !! length (sv_lines s) = Some line.
Proof. rewrite (rd_lines _ _ _ _ Hr), lookup_app_r, Nat.sub_diag by lia. done. Qed.

Lemma reads_asked ln id : asked_line s ln id -> asked_line s' ln id.
Proof. intros (l & rq & Hl & Hx). exists l, rq. split; [|done]. rewrite (rd_lines _ _ _ _ Hr). by apply lookup_app_l_Some. Qed.

Lemma reads_call_line seq c : sv_calls s' !! seq = Some c -> (cl_line c < length (sv_lines s))%nat.
Proof. rewrite (rd_calls _ _ _ _ Hr). intros Hc. destruct (li_calls s Hi seq c Hc) as ((l & rq & Hl & _) & _). by apply lookup_lt_Some in Hl. Qed.

Lemma reads_owed ln old : (ln < length (sv_lines s))%nat -> owed s ln old -> owed s' ln old.
Proof.
  intros Hlt. unfold owed, answered, unanswered. rewrite (rd_calls _ _ _ _ Hr), !reads_old by done. destruct (read_line old); [done..|]. rewrite (rd_idle _ _ _ _ Hr).
  intros [[[? [=]] _]|Hx]. by right.
Qed.

Lemma log_reads : reader_call (sv_reader s') = None -> (forall id, on_request (sv_reader s') = Some id -> extra = None /\ exists rq, read_line (R := R) line = Asked rq /\ rq_id rq = id) ->
  owed s' (length (sv_lines s)) line -> log_inv s'.
Proof.
  intros Hnc Hon Howed. pose proof reads_line as Hline. destruct Hi as [H1 H2 H3 H4 H5 H6 H7]. constructor.
  - intros seq c Hc. rewrite (rd_next _ _ _ _ Hr). rewrite (rd_calls _ _ _ _ Hr) in Hc. destruct (H1 seq c Hc) as (Ha & Hb). split; [by apply reads_asked|exact Hb].
  - rewrite (rd_calls _ _ _ _ Hr). exact H2.
  - intros seq tc Hx. by rewrite Hx in Hnc.
  - intros id Hid. destruct (Hon id Hid) as (He & rq & Hrq & Hrid). rewrite reads_this. split_and!; [by exists line, rq|by rewrite reads_new, He|].
    intros seq c Hc Hcl. apply reads_call_line in Hc. lia.
  - intros tc Hx. by rewrite Hx in Hnc.
  - intros ln r Hin. rewrite (rd_lines _ _ _ _ Hr), length_app. cbn. rewrite (rd_out _ _ _ _ Hr) in Hin. destruct extra as [e|]; [|apply H6 in Hin; lia].
    apply elem_of_app in Hin as [Hin|Hin%list_elem_of_singleton]; [apply H6 in Hin; lia|]. injection Hin as -> ->. lia.
  - intros ln old Hln. destruct (decide (ln = length (sv_lines s))) as [->|Hne]; [rewrite Hline in Hln; by injection Hln as <-|].
    assert (Hlt : (ln < length (sv_lines s))%nat). { apply lookup_lt_Some in Hln. rewrite (rd_lines _ _ _ _ Hr), length_app in Hln. cbn in Hln. lia. }
    apply reads_owed; [done|]. apply H7. rewrite (rd_lines _ _ _ _ Hr) in Hln. by rewrite lookup_app_l in Hln.
Qed.
End reads.

Lemma log_line line s : log_inv s -> sv_reader s = RdIdle -> log_inv (on_line line s).
Proof.
  intros Hi Hidle. assert (Hr : forall r, reads line None s (set_reader r (push_line line s))) by by constructor.
  assert (Hthis : this_line (push_line line s) = length (sv_lines s)) by (unfold this_line; cbn; rewrite length_app; cbn; lia).
  unfold on_line. destruct (read_line (R := R) line) as [|r|key|rq] eqn:E.
  - assert (Hp : reads line None s (push_line line s)) by by constructor. apply (log_reads line None s _ Hi Hp); cbn; [by rewrite Hidle|by rewrite Hidle|].
    unfold owed. rewrite E. by apply (reads_new line None).
  - assert (Hp : reads line (Some r) s (respond (this_line (push_line line s)) r (push_line line s))) by (constructor; [done..|]; cbn; by rewrite Hthis).
    apply (log_reads line (Some r) s _ Hi Hp); cbn; [by rewrite Hidle|by rewrite Hidle|]. unfold owed. rewrite E. exact (reads_new line (Some r) s _ Hi Hp).
  - apply (log_reads line None s _ Hi (Hr _)); [done..|]. unfold owed. rewrite E. exact (reads_new line None s _ Hi (Hr _)).
  - assert (Hf : forall key, log_inv (set_reader (RdForget key rq) (push_line line s))).
    { intros key. apply (log_reads line None s _ Hi (Hr _)); [done|intros id [= <-]; eauto|]. unfold owed. rewrite E. left. split; [by eexists|]. exact (eq_sym Hthis). }
    destruct (if bool_decide _ then None else _) as [key|]; [apply Hf|]. by apply (log_dispatch []).
Qed.

(** ** Calls move on *)

Record upd c c' : Prop := {
  up_line : cl_line c' = cl_line c; up_id : cl_id c' = cl_id c; up_key : cl_key c' = cl_key c;
  up_over : is_over c = true -> cl_phase c' = cl_phase c;
  up_done : cl_phase c = CpDone -> call_silenced c' = call_silenced c;
  up_runs : is_over c = false -> is_over c' = false \/ cl_phase c' = CpAborted \/ call_silenced c' = true
}.

Definition upds (m m' : gmap N (ToolRun (R := R))) : Prop :=
  forall seq, match m !! seq, m' !! seq with Some c, Some c' => upd c c' | None, None => True | _, _ => False end.

Lemma upd_refl c : upd c c.
Proof. constructor; try done. intros ->. by left. Qed.

Lemma upds_new m m' seq c' : upds m m' -> m' !! seq = Some c' -> exists c, m !! seq = Some c /\ upd c c'.
Proof. intros Hu Hc. specialize (Hu seq). rewrite Hc in Hu. destruct (m !! seq) as [c|]; [eauto|done]. Qed.

Lemma upds_old m m' seq c : upds m m' -> m !! seq = Some c -> exists c', m' !! seq = Some c' /\ upd c c'.
Proof. intros Hu Hc. specialize (Hu seq). rewrite Hc in Hu. destruct (m' !! seq) as [c'|]; [eauto|done]. Qed.

Lemma upds_put m seq c c' : m !! seq = Some c -> upd c c' -> upds m (<[seq := c']> m).
Proof.
  intros Hc Hu seq'. destruct (decide (seq' = seq)) as [->|Hn]; [by rewrite lookup_insert_eq, Hc|]. rewrite lookup_insert_ne by done.
  destruct (m !! seq'); [apply upd_refl|done].
Qed.

Lemma log_calls m s : log_inv s -> upds (sv_calls s) m -> log_inv (set_calls m s).
Proof.
  intros Hi Hu. destruct Hi as [H1 H2 H3 H4 H5 H6 H7]. constructor; cbn [sv_calls set_calls].
  - intros seq c' Hc'. destruct (upds_new _ _ _ _ Hu Hc') as (c & Hc & Hup). rewrite (up_line _ _ Hup), (up_id _ _ Hup), (up_key _ _ Hup). exact (H1 seq c Hc).
  - intros seq1 seq2 c1' c2' Hc1' Hc2' Hl. destruct (upds_new _ _ _ _ Hu Hc1') as (c1 & Hc1 & Hu1). destruct (upds_new _ _ _ _ Hu Hc2') as (c2 & Hc2 & Hu2).
    apply (H2 seq1 seq2 c1 c2 Hc1 Hc2). by rewrite <-(up_line _ _ Hu1), <-(up_line _ _ Hu2).
  - intros seq tc Hr. destruct (H3 seq tc Hr) as [Hn Hlt]. split; [|exact Hlt]. specialize (Hu seq). rewrite Hn in Hu. by destruct (m !! seq).
  - intros id Hid. destruct (H4 id Hid) as (Ha & Hb & Hc). split_and!; [exact Ha|exact Hb|]. intros seq c' Hc'. destruct (upds_new _ _ _ _ Hu Hc') as (c & Hcs & Hup).
    rewrite (up_line _ _ Hup). by apply (Hc seq c).
  - exact H5.
  - exact H6.
  - intros ln line Hln. specialize (H7 ln line Hln). revert H7. unfold owed. change (answers (set_calls m s)) with (answers s). cbn [sv_reader set_calls]. destruct (read_line line); try done.
    change (this_line (set_calls m s)) with (this_line s). intros [Hx|[(r & Ha & Hid & Hc)|(Ha & seq & c & Hc & Hl & Hx)]]; [by left|right; left|right; right].
    + exists r. split_and!; [done|done|]. intros seq c' Hc' Hl'. destruct (upds_new _ _ _ _ Hu Hc') as (c & Hcs & Hup). rewrite (up_line _ _ Hup) in Hl'.
      destruct (Hc seq c Hcs Hl') as [Hd Hs]. rewrite (up_done _ _ Hup Hd), (up_over _ _ Hup); [done|]. unfold is_over. by rewrite Hd.
    + split; [done|]. destruct (upds_old _ _ _ _ Hu Hc) as (c' & Hc' & Hup). exists seq, c'. split_and!; [done|by rewrite (up_line _ _ Hup)|].
      destruct (is_over c) eqn:Eo; [|by apply (up_runs _ _ Hup)]. rewrite (up_over _ _ Hup Eo). unfold is_over in Eo. destruct Hx as [Hx|[Hx|Hx]]; [done|auto|].
      destruct (cl_phase c) eqn:Ep; try done; [|auto]. rewrite (up_done _ _ Hup Ep). auto.
Qed.

Lemma log_put seq c c' s : log_inv s -> sv_calls s !! seq = Some c -> upd c c' -> log_inv (put_call seq c' s).
Proof. intros Hi Hc Hu. apply log_calls; [done|]. by eapply upds_put. Qed.

(** A call that is to reply has not been answered. *)
Lemma running_unanswered seq c s : log_inv s -> sv_calls s !! seq = Some c -> is_over c = false -> answers s (cl_line c) = [].
Proof.
  intros Hi Hc Ho. destruct (li_calls s Hi seq c Hc) as ((line & rq & Hl & Hrq & _) & _). pose proof (li_owed s Hi _ _ Hl) as Hw. unfold owed in Hw. rewrite Hrq in Hw.
  destruct Hw as [[[id Hid] Ht]|[(r & _ & _ & Hd)|[Ha _]]]; [| |done].
  - destruct (li_reader s Hi id Hid) as (_ & _ & Hx). by destruct (Hx seq c Hc).
  - destruct (Hd seq c Hc eq_refl) as [Hp _]. unfold is_over in Ho. by rewrite Hp in Ho.
Qed.

Lemma log_reply seq c r s : log_inv s -> sv_calls s !! seq = Some c -> is_over c = false -> call_silenced c = false -> rp_id r = Some (cl_id c) ->
  log_inv (respond (cl_line c) r (put_call seq (call_with_phase CpDone c) s)).
Proof.
  intros Hi Hc Ho Hs Hid. pose proof (running_unanswered seq c s Hi Hc Ho) as Hnone. destruct (li_calls s Hi seq c Hc) as ((line & rq & Hl & Hrq & Hrid) & _).
  assert (Hnr : forall id, on_request (sv_reader s) = Some id -> cl_line c <> this_line s) by (intros id Hon; by apply (li_reader s Hi id Hon) in Hc).
  set (c' := call_with_phase CpDone c). assert (Hl' : forall q d', <[seq := c']> (sv_calls s) !! q = Some d' -> exists d, sv_calls s !! q = Some d /\ cl_line d' = cl_line d /\ cl_id d' = cl_id d /\ cl_key d' = cl_key d /\ (q <> seq -> d' = d)).
  { intros q d' Hd. destruct (decide (q = seq)) as [->|Hn]; [rewrite lookup_insert_eq in Hd; injection Hd as <-; by exists c|]. rewrite lookup_insert_ne in Hd by done. by exists d'. }
  destruct Hi as [H1 H2 H3 H4 H5 H6 H7]. constructor; cbn [sv_calls respond put_call set_calls].
  - intros q d' Hd'. destruct (Hl' q d' Hd') as (d & Hd & -> & -> & -> & _). exact (H1 q d Hd).
  - intros q1 q2 d1' d2' Hd1 Hd2. destruct (Hl' q1 d1' Hd1) as (d1 & Hq1 & -> & _). destruct (Hl' q2 d2' Hd2) as (d2 & Hq2 & -> & _). by apply H2.
  - intros q tc Hr. destruct (H3 q tc Hr) as [Hn Hlt]. split; [|exact Hlt]. rewrite lookup_insert_ne; [done|]. intros ->. by rewrite Hn in Hc.
  - intros id Hon. destruct (H4 id Hon) as (Ha & Hb & Hx). split_and!; [exact Ha| |].
    + rewrite answers_respond, decide_False by exact (Hnr id Hon). rewrite app_nil_r. exact Hb.
    + intros q d' Hd'. destruct (Hl' q d' Hd') as (d & Hd & -> & _). by apply (Hx q d).
  - exact H5.
  - intros ln r' [Hin|Hin%list_elem_of_singleton]%elem_of_app; [by apply (H6 ln r')|]. injection Hin as -> ->. by apply lookup_lt_Some in Hl.
  - intros ln line' Hln. cbn [sv_lines respond put_call set_calls] in Hln. unfold owed, answered, unanswered. rewrite !answers_respond.
    change (answers (put_call seq c' s)) with (answers s). cbn [sv_calls respond put_call set_calls sv_reader]. destruct (decide (cl_line c = ln)) as [<-|Hne].
    + assert (line' = line) as -> by (rewrite Hl in Hln; by injection Hln). rewrite Hrq, Hnone. right. left. exists r. split_and!; [done|by rewrite Hid, Hrid|].
      intros q d' Hd' Hdl. destruct (decide (q = seq)) as [->|Hn]; [rewrite lookup_insert_eq in Hd'; by injection Hd' as <-|]. rewrite lookup_insert_ne in Hd' by done.
      destruct Hn. exact (H2 q seq d' c Hd' Hc Hdl).
    + rewrite app_nil_r. specialize (H7 ln line' Hln). unfold owed in H7. destruct (read_line line'); try done. destruct H7 as [Hx|[(r' & Ha & Hi' & Hd)|(Ha & q & d & Hd & Hdl & Hx)]]; [by left|right; left|right; right].
      * exists r'. split_and!; [done|done|]. intros q d' Hd' Hdl. destruct (Hl' q d' Hd') as (d & Hq & Hll & _ & _ & He). rewrite (He ltac:(intros ->; congruence)). apply (Hd q d Hq). congruence.
      * split; [done|]. exists q, d. split_and!; [|done|done]. rewrite lookup_insert_ne; [done|]. intros ->. congruence.
Qed.

(** The reader starts the call it has prepared. *)
Lemma log_start seq tc m s : log_inv s -> sv_reader s = RdList seq tc -> log_inv (set_reader RdIdle (put_call seq (new_call (this_line s) tc) (set_in_flight m s))).
Proof.
  intros Hi Hr. assert (Hon : on_request (sv_reader s) = Some (tc_id tc)) by by rewrite Hr. destruct (li_reader s Hi _ Hon) as (Hask & Hnone & Hnc). destruct (li_list s Hi seq tc Hr) as [Hfree Hlt].
  assert (Hk : tc_key tc = request_id_key (tc_id tc)) by (apply (li_tc s Hi); by rewrite Hr).
  destruct Hi as [H1 H2 H3 H4 H5 H6 H7]. constructor; cbn [sv_calls set_reader put_call set_calls set_in_flight].
  - intros q d [[<- <-]|[Hn Hd]]%lookup_insert_Some; [by split_and!|exact (H1 q d Hd)].
  - intros q1 q2 d1 d2 [[<- <-]|[Hn1 Hd1]]%lookup_insert_Some [[<- <-]|[Hn2 Hd2]]%lookup_insert_Some Hl; [done|..|by apply (H2 q1 q2 d1 d2)].
    + by destruct (Hnc q2 d2 Hd2).
    + by destruct (Hnc q1 d1 Hd1).
  - done.
  - done.
  - done.
  - exact H6.
  - intros ln line Hln. specialize (H7 ln line Hln). revert H7. unfold owed, answered, unanswered. cbn [sv_calls sv_reader set_reader put_call set_calls set_in_flight].
    change (answers (set_reader _ _)) with (answers s). destruct (read_line (R := R) line) as [| | |rq]; try done. destruct (decide (ln = this_line s)) as [->|Hne].
    + intros _. right. right. split; [done|]. exists seq, (new_call (this_line s) tc). split_and!; [apply lookup_insert_eq|done|by left].
    + intros [[_ Hx]|[(r & Ha & Hid & Hd)|(Ha & q & d & Hd & Hdl & Hx)]]; [done|right; left|right; right].
      * exists r. split_and!; [done|done|]. intros q d [[<- <-]|[Hn Hq]]%lookup_insert_Some Hl; [by destruct Hne|by apply (Hd q d)].
      * split; [done|]. exists q, d. split_and!; [|done|done]. rewrite lookup_insert_ne; [done|]. intros <-. by rewrite Hfree in Hd.
Qed.

Lemma log_new : log_inv (server_new (R := R)).
Proof. constructor; cbn; try done; intros; set_solver. Qed.

Lemma log_register tc a s : log_inv s -> sv_reader s = RdRegister tc -> log_inv (set_reader (RdList (sv_next s) tc) (set_active a (sv_next s + 1) s)).
Proof.
  intros Hi Hr. assert (Hn : sv_calls s !! sv_next s = None). { destruct (sv_calls s !! sv_next s) eqn:E; [|done]. apply (li_calls s Hi) in E. lia. }
  assert (Hp : log_inv (set_active a (sv_next s + 1) s)).
  { destruct Hi as [H1 H2 H3 H4 H5 H6 H7]. constructor; try assumption.
    - intros q c Hc. destruct (H1 q c Hc) as (Ha & Hb & Hlt). split_and!; [done|done|]. cbn. lia.
    - intros q tc' Hx. cbn in Hx. by rewrite Hr in Hx. }
  apply log_reader; [done|cbn; by rewrite Hr| |].
  - intros q tc' [= <- <-]. cbn. split; [done|lia].
  - intros tc' [= <-]. apply (li_tc s Hi). by rewrite Hr.
Qed.

(** ** RpcRequest ids in flight *)

Definition listed c : bool := match cl_phase c with CpRunning | CpReturned _ | CpUnlisted _ | CpPushing _ _ | CpLeaving _ => true | _ => false end.

Record key_inv s : Prop := {
  ki_entry : forall key seq, sv_in_flight s !! key = Some seq -> exists c, sv_calls s !! seq = Some c /\ cl_key c = Some key /\ (listed c = true \/ cl_phase c = CpAborted);
  ki_listed : forall seq c key, sv_calls s !! seq = Some c -> cl_key c = Some key -> listed c = true -> sv_in_flight s !! key = Some seq;
  ki_reader : forall tc key, (sv_reader s = RdRegister tc \/ exists seq, sv_reader s = RdList seq tc) -> tc_key tc = Some key -> sv_in_flight s !! key = None;
  ki_fresh : forall seq tc, sv_reader s = RdList seq tc -> sv_calls s !! seq = None;
  ki_check : forall key tc, sv_reader s = RdCheck key tc -> tc_key tc = Some key;
  ki_task : forall key seq, sv_reader s = RdTask key seq -> exists c, sv_calls s !! seq = Some c /\ cl_key c = Some key
}.

Lemma flags_upd cancel client aborted c : cl_phase c <> CpDone -> upd c (call_with_flags cancel client aborted c).
Proof. intros Hd. constructor; try done. unfold is_over. cbn. intros ->. by left. Qed.

Lemma log_reader_step s s' : log_inv s -> key_inv s -> reader_step s = Some s' -> log_inv s'.
Proof.
  intros Hi Hk. unfold reader_step. destruct (sv_reader s) as [|key rq|key tc|tc|seq tc|key|key seq|key|] eqn:Er; try done.
  - intros [= <-]. apply (log_dispatch key). apply (log_same s); [|done]. by rewrite <-Er.
  - destruct (bool_decide _); intros [= <-]; [apply (log_answer (tc_id tc)); [done|by rewrite Er|done]|].
    apply log_reader; [done|by rewrite Er|done|]. intros tc' [= <-]. apply (li_tc s Hi). by rewrite Er.
  - intros [= <-]. by apply log_register.
  - intros [= <-]. destruct (tc_key tc) as [key|]; [exact (log_start seq tc _ s Hi Er)|].
    apply (log_same (set_reader RdIdle (put_call seq (new_call (this_line s) tc) (set_in_flight (sv_in_flight s) s)))); [done|by apply log_start].
  - destruct (sv_in_flight s !! key) as [seq|] eqn:Ef; [|intros [= <-]; apply log_reader; [done|by rewrite Er|done..]].
    destruct (sv_calls s !! seq) as [c|] eqn:Ec; [|done]. intros [= <-]. apply log_reader; [|cbn; by rewrite Er|done..].
    eapply log_put; [done|exact Ec|]. apply flags_upd. destruct (ki_entry s Hk key seq Ef) as (c' & Hc' & _ & Hx). rewrite Ec in Hc'. injection Hc' as <-.
    intros Hd. unfold listed in Hx. rewrite Hd in Hx. by destruct Hx.
  - destruct (sv_calls s !! seq ≫= cl_submitted); intros [= <-]; [|apply log_reader; [done|by rewrite Er|done..]].
    refine (log_same (set_reader RdIdle s) _ _ _); [done|]. apply log_reader; [done|by rewrite Er|done..].
  - destruct (take_last key (sv_completed s)) as [[tid rest]|]; intros [= <-]; [|apply log_reader; [done|by rewrite Er|done..]].
    refine (log_same (set_reader RdIdle s) _ _ _); [done|]. apply log_reader; [done|by rewrite Er|done..].
Qed.

Lemma phase_upd p c : is_over c = false -> (is_over (call_with_phase p c) = false \/ p = CpAborted \/ call_silenced c = true) -> upd c (call_with_phase p c).
Proof. intros Ho Hp. constructor; try done. by rewrite Ho. Qed.

Lemma log_call_step encodes seq s s' : log_inv s -> tool_task_step encodes seq s = Some s' -> log_inv s'.
Proof.
  intros Hi. unfold tool_task_step. destruct (sv_calls s !! seq) as [c|] eqn:Ec; [|done].
  assert (Hmove : forall p s1, same_log s s1 -> is_over c = false -> (is_over (call_with_phase p c) = false \/ p = CpAborted \/ call_silenced c = true) -> log_inv (put_call seq (call_with_phase p c) s1)).
  { intros p s1 Hs Ho Hp. apply (log_put seq c); [by apply (log_same s)| |by apply phase_upd]. destruct Hs as (_ & _ & -> & _). done. }
  assert (Hover : is_over c = match cl_phase c with CpDone | CpAborted => true | _ => false end) by done. revert Hover.
  destruct (cl_phase c) as [|r|r|r tid|r|r| |] eqn:Ep; try done; intros Hover.
  - intros [= <-]. apply Hmove; [done|done|by left].
  - intros [= <-]. apply Hmove; [done|done|left]. unfold is_over, next_phase. cbn. destruct (cl_key c); [|done]. destruct (call_silenced c); [done|]. by destruct (cl_submitted c).
  - destruct (cl_key c); [|done]. intros [= <-]. apply Hmove; [done|done|by left].
  - destruct (cl_key c); [|done]. intros [= <-]. apply Hmove; [done|done|by left].
  - destruct (call_silenced c) eqn:Es; intros [= <-]; [apply Hmove; auto; done|]. apply log_reply; try done. by destruct encodes.
Qed.

Lemma log_tool_event seq f s s' : log_inv s -> (forall c c', cl_phase c = CpRunning -> f c = Some c' -> upd c c') -> tool_event seq f s = Some s' -> log_inv s'.
Proof.
  intros Hi Hf. unfold tool_event. destruct (sv_calls s !! seq) as [c|] eqn:Ec; [|done]. destruct (cl_phase c) eqn:Ep; try done.
  destruct (f c) as [c'|] eqn:Ef; [|done]. intros [= <-]. eapply log_put; [done|exact Ec|by apply Hf].
Qed.

Lemma run_upd c c' : cl_phase c = CpRunning -> cl_line c' = cl_line c -> cl_id c' = cl_id c -> cl_key c' = cl_key c -> is_over c' = false -> upd c c'.
Proof. intros Hp Hl Hi Hk Ho. constructor; try done; [unfold is_over; by rewrite Hp|by rewrite Hp|by left]. Qed.

Lemma log_step s e s' : log_inv s -> key_inv s -> server_step s e = Some s' -> log_inv s'.
Proof.
  intros Hi Hk. destruct e as [line| | |seq tid|seq|seq r|encodes seq| |]; cbn [server_step].
  - destruct (sv_reader s) eqn:Er; try done. intros [= <-]. by apply log_line.
  - by apply log_reader_step.
  - destruct (sv_reader s) eqn:Er; try done. intros [= <-]. apply log_reader; [done|by rewrite Er|done..].
  - apply log_tool_event; [done|]. intros c c' Hp Hc. destruct (cl_submitted c); [done|]. injection Hc as <-. apply run_upd; try done. unfold is_over. cbn. by rewrite Hp.
  - apply log_tool_event; [done|]. intros c c' Hp Hc. destruct (cl_cancel c); [|done]. injection Hc as <-. apply run_upd; try done. unfold is_over. cbn. by rewrite Hp.
  - apply log_tool_event; [done|]. intros c c' Hp Hc. injection Hc as <-. by apply run_upd.
  - by apply log_call_step.
  - destruct (sv_reader s) eqn:Er; try done. intros [= <-]. apply log_calls; [done|]. intros q. rewrite map_lookup_imap. destruct (sv_calls s !! q) as [c|]; cbn; [|done].
    destruct (decide _); [|apply upd_refl]. constructor; try done. unfold is_over. cbn. intros ->. by left.
  - destruct (sv_reader s) eqn:Er; try done. intros [= <-]. apply log_calls; [done|]. intros q. rewrite lookup_fmap. destruct (sv_calls s !! q) as [c|]; cbn; [|done].
    destruct (is_over c) eqn:Eo; [apply upd_refl|]. apply phase_upd; auto.
Qed.

(** ** RpcRequest ids in flight *)

Lemma key_new : key_inv (server_new (R := R)).
Proof. constructor; cbn; try done. Qed.

Definition same_keys s s' : Prop := sv_in_flight s' = sv_in_flight s /\ sv_calls s' = sv_calls s.

(** The reader moves to where it holds nothing. *)
Lemma key_reader s s' : key_inv s -> same_keys s s' -> (forall tc, sv_reader s' = RdRegister tc -> tc_key tc = None) -> (forall seq tc, sv_reader s' <> RdList seq tc) -> (forall key seq, sv_reader s' <> RdTask key seq) ->
  (forall key tc, sv_reader s' = RdCheck key tc -> tc_key tc = Some key) -> key_inv s'.
Proof.
  intros Hk [Hf Hc] H1 H2 H3 H4. destruct Hk as [K1 K2 K3 K4 K6 K5]. constructor; rewrite ?Hf, ?Hc; try assumption.
  - intros tc key [Hr|[seq Hr]]; [by rewrite (H1 tc Hr)|by destruct (H2 seq tc)].
  - intros seq tc Hr. by destruct (H2 seq tc).
  - intros key seq Hr. by destruct (H3 key seq).
Qed.

(** Calls keep their keys, and stay in the table or leave it, as far as it says. *)
Lemma key_calls m s : key_inv s -> (forall q, match sv_calls s !! q, m !! q with
    | Some c, Some c' => cl_key c' = cl_key c /\ (listed c' = true -> listed c = true) /\ (is_Some (cl_key c) -> listed c = true \/ cl_phase c = CpAborted -> listed c' = true \/ cl_phase c' = CpAborted)
    | None, None => True | _, _ => False end) -> key_inv (set_calls m s).
Proof.
  intros [K1 K2 K3 K4 K6 K5] Hm. constructor; cbn [sv_in_flight sv_calls set_calls sv_reader]; [..|exact K3| |exact K6|].
  - intros key q Hq. destruct (K1 key q Hq) as (c & Hc & Hkey & Hl). specialize (Hm q). rewrite Hc in Hm. destruct (m !! q) as [c'|]; [|done]. destruct Hm as (Hk' & _ & Hx).
    exists c'. split_and!; [done|congruence|]. apply Hx; [by rewrite Hkey|done].
  - intros q c' key Hc' Hkey Hl. specialize (Hm q). rewrite Hc' in Hm. destruct (sv_calls s !! q) as [c|] eqn:Ec; [|done]. destruct Hm as (Hk' & Hx & _). apply (K2 q c key); [done|congruence|auto].
  - intros q tc Hr. specialize (Hm q). rewrite (K4 q tc Hr) in Hm. by destruct (m !! q).
  - intros key q Hr. destruct (K5 key q Hr) as (c & Hc & Hkey). specialize (Hm q). rewrite Hc in Hm. destruct (m !! q) as [c'|]; [|done]. destruct Hm as (Hk' & _). exists c'. split; [done|congruence].
Qed.

Lemma key_put q c c' s : key_inv s -> sv_calls s !! q = Some c -> cl_key c' = cl_key c -> (listed c' = true -> listed c = true) -> (is_Some (cl_key c) -> listed c = true \/ cl_phase c = CpAborted -> listed c' = true \/ cl_phase c' = CpAborted) -> key_inv (put_call q c' s).
Proof.
  intros Hk Hc H1 H2 H3. apply key_calls; [done|]. intros q'. destruct (decide (q' = q)) as [->|Hn]; [by rewrite lookup_insert_eq, Hc|]. rewrite lookup_insert_ne by done.
  by destruct (sv_calls s !! q').
Qed.

(** A call that leaves the table. *)
Lemma key_leave q c key p s : key_inv s -> sv_calls s !! q = Some c -> cl_key c = Some key -> listed c = true -> listed (call_with_phase p c) = false ->
  key_inv (put_call q (call_with_phase p c) (set_in_flight (delete key (sv_in_flight s)) s)).
Proof.
  intros [K1 K2 K3 K4 K6 K5] Hc Hkey Hl Hp. pose proof (K2 q c key Hc Hkey Hl) as Hq. constructor; cbn [sv_in_flight sv_calls put_call set_calls set_in_flight sv_reader].
  - intros key' q' [Hne Hq']%lookup_delete_Some. destruct (K1 key' q' Hq') as (c' & Hc' & Hk' & Hl'). exists c'. split_and!; [|done|done]. rewrite lookup_insert_ne; [done|]. intros <-. congruence.
  - intros q' c' key' [[<- <-]|[Hne Hc']]%lookup_insert_Some Hk' Hl'; [congruence|]. rewrite lookup_delete_ne; [by apply (K2 q' c')|]. intros <-. pose proof (K2 q' c' key Hc' Hk' Hl'). congruence.
  - intros tc key' Hr Hk'. rewrite lookup_delete_None. right. by apply (K3 tc).
  - intros q' tc Hr. rewrite lookup_insert_ne; [by apply (K4 q' tc)|]. intros <-. pose proof (K4 q tc Hr). congruence.
  - exact K6.
  - intros key' q' Hr. destruct (K5 key' q' Hr) as (c' & Hc' & Hk'). destruct (decide (q' = q)) as [->|Hn]; [exists (call_with_phase p c); rewrite lookup_insert_eq; split; [done|cbn; congruence]|].
    exists c'. by rewrite lookup_insert_ne.
Qed.

(** The call the reader starts. *)
Lemma key_start seq tc ln s : key_inv s -> sv_reader s = RdList seq tc ->
  key_inv (set_reader RdIdle (put_call seq (new_call ln tc) (match tc_key tc with Some key => set_in_flight (<[key := seq]> (sv_in_flight s)) s | None => s end))).
Proof.
  intros [K1 K2 K3 K4 K6 K5] Hr. pose proof (K4 seq tc Hr) as Hfree. assert (Hk : forall key, tc_key tc = Some key -> sv_in_flight s !! key = None) by (intros key; apply (K3 tc key); eauto).
  assert (Hold : forall q c, sv_calls s !! q = Some c -> q <> seq) by (intros q c Hq ->; congruence).
  assert (Hc : sv_calls (match tc_key tc with Some key => set_in_flight (<[key := seq]> (sv_in_flight s)) s | None => s end) = sv_calls s) by by destruct (tc_key tc).
  constructor; cbn [sv_in_flight sv_calls set_reader put_call set_calls sv_reader]; rewrite ?Hc; [..|intros tc' key' [[=]|[? [=]]]|done|done|done].
  - intros key q Hq. assert (Hx : (q = seq /\ tc_key tc = Some key) \/ sv_in_flight s !! key = Some q).
    { destruct (tc_key tc) as [k|]; [|by right]. cbn in Hq. apply lookup_insert_Some in Hq as [[-> <-]|[_ Hq]]; auto. }
    destruct Hx as [[-> Hx]|Hx]; [exists (new_call ln tc); rewrite lookup_insert_eq; auto|]. destruct (K1 key q Hx) as (c & Hcq & Hkey & Hl). exists c. rewrite lookup_insert_ne by (symmetry; by eapply Hold). done.
  - intros q c key [[<- <-]|[Hne Hcq]]%lookup_insert_Some Hkey Hl; [cbn in Hkey; rewrite Hkey; cbn; apply lookup_insert_eq|].
    pose proof (K2 q c key Hcq Hkey Hl) as Hq. destruct (tc_key tc) as [k|] eqn:Ek; [|done]. cbn. rewrite lookup_insert_ne; [done|]. intros ->. rewrite (Hk key eq_refl) in Hq. done.
Qed.

Lemma key_reader_step s s' : key_inv s -> log_inv s -> reader_step s = Some s' -> key_inv s'.
Proof.
  intros Hk Hi. unfold reader_step. destruct (sv_reader s) as [|key rq|key tc|tc|seq tc|key|key seq|key|] eqn:Er; try done.
  - intros [= <-]. unfold after_dispatch. destruct (dispatch_request rq) as [r|tc]; [by apply (key_reader s)|]. apply (key_reader s); [done|done|..]; destruct (tc_key tc) eqn:Ek; try done; [by intros tc' [= <-]|by intros key' tc' [= <- <-]].
  - destruct (bool_decide _) eqn:Eb; intros [= <-]; [by apply (key_reader s)|]. apply bool_decide_eq_false in Eb. destruct Hk as [K1 K2 K3 K4 K6 K5]. constructor; try assumption; try done.
    intros tc' key' [Hx|[? [=]]] Hkey. injection Hx as <-. rewrite (K6 key tc Er) in Hkey. injection Hkey as <-. by apply eq_None_not_Some.
  - intros [= <-]. destruct Hk as [K1 K2 K3 K4 K6 K5]. constructor; try assumption; try done.
    + intros tc' key' [[=]|[seq [= <- <-]]] Hkey. apply (K3 tc); auto.
    + intros seq tc' [= <- <-]. cbn. destruct (sv_calls s !! sv_next s) eqn:E; [|done]. apply (li_calls s Hi) in E. lia.
  - intros [= <-]. by apply key_start.
  - destruct (sv_in_flight s !! key) as [seq|] eqn:Ef; [|intros [= <-]; by apply (key_reader s)].
    destruct (sv_calls s !! seq) as [c|] eqn:Ec; [|done]. intros [= <-]. destruct (ki_entry s Hk key seq Ef) as (c' & Hc' & Hkey & Hx). rewrite Ec in Hc'. injection Hc' as <-.
    assert (Hp : key_inv (put_call seq (call_with_flags true true (cl_aborted c) c) s)) by (apply (key_put seq c); done). destruct Hp as [K1 K2 K3 K4 K6 K5]. constructor; try assumption; try done.
    + intros tc' key' [[=]|[? [=]]].
    + intros key' seq' [= <- <-]. cbn. rewrite lookup_insert_eq. eauto.
  - destruct (sv_calls s !! seq ≫= cl_submitted); intros [= <-]; by apply (key_reader s).
  - destruct (take_last key (sv_completed s)) as [[tid rest]|]; intros [= <-]; by apply (key_reader s).
Qed.

Lemma key_line line s : key_inv s -> sv_reader s = RdIdle -> key_inv (on_line line s).
Proof.
  intros Hk Hr. assert (Hp : key_inv (push_line line s)) by (apply (key_reader s); cbn; rewrite ?Hr; done). unfold on_line. destruct (read_line line) as [|r|key|rq].
  - exact Hp.
  - apply (key_reader s); cbn; rewrite ?Hr; done.
  - by apply (key_reader s).
  - destruct (if bool_decide _ then None else _) as [key|]; [by apply (key_reader s)|]. unfold after_dispatch. destruct (dispatch_request rq) as [r|tc]; [by apply (key_reader s)|].
    apply (key_reader s); [done|done|..]; destruct (tc_key tc) eqn:Ek; try done; [by intros tc' [= <-]|by intros key' tc' [= <- <-]].
Qed.

Lemma key_call_step encodes seq s s' : key_inv s -> tool_task_step encodes seq s = Some s' -> key_inv s'.
Proof.
  intros Hk. unfold tool_task_step. destruct (sv_calls s !! seq) as [c|] eqn:Ec; [|done].
  assert (Hsame : forall s1, same_keys s s1 -> sv_reader s1 = sv_reader s -> key_inv s1).
  { intros s1 [Hf Hc] Hr. destruct Hk as [K1 K2 K3 K4 K6 K5]. constructor; rewrite ?Hf, ?Hc, ?Hr; assumption. }
  assert (Hmove : forall p s1, same_keys s s1 -> sv_reader s1 = sv_reader s -> listed c = listed (call_with_phase p c) -> cl_phase c <> CpAborted -> key_inv (put_call seq (call_with_phase p c) s1)).
  { intros p s1 Hs Hr Hl Hn. apply (key_put seq c); [by apply Hsame|destruct Hs as [_ ->]; done|done|by rewrite Hl|]. rewrite Hl. intros _ [Hx|Hx]; [by left|done]. }
  destruct (cl_phase c) as [|r|r|r tid|r|r| |] eqn:Ep; try done.
  - intros [= <-]. apply Hmove; try done. unfold listed. by rewrite Ep.
  - intros [= <-]. destruct (cl_key c) as [key|] eqn:Ek.
    + apply Hmove; try done. unfold listed. rewrite Ep. cbn. unfold next_phase. rewrite Ek. destruct (call_silenced c); [done|]. by destruct (cl_submitted c).
    + apply (key_put seq c); [done|done|done|unfold listed; by rewrite Ep|]. rewrite Ek. by intros [? [=]].
  - destruct (cl_key c) eqn:Ek; [|done]. intros [= <-]. apply Hmove; try done. unfold listed. by rewrite Ep.
  - destruct (cl_key c) as [key|] eqn:Ek; [|done]. intros [= <-]. apply (key_leave seq c key); try done. unfold listed. by rewrite Ep.
  - assert (Hd : key_inv (put_call seq (call_with_phase CpDone c) s)) by (apply Hmove; try done; unfold listed; by rewrite Ep).
    destruct (call_silenced c); intros [= <-]; [done|]. destruct Hd as [K1 K2 K3 K4 K6 K5]. by constructor.
Qed.

Lemma key_tool_event seq f s s' : key_inv s -> (forall c c', cl_phase c = CpRunning -> f c = Some c' -> cl_key c' = cl_key c /\ listed c' = true) -> tool_event seq f s = Some s' -> key_inv s'.
Proof.
  intros Hk Hf. unfold tool_event. destruct (sv_calls s !! seq) as [c|] eqn:Ec; [|done]. destruct (cl_phase c) eqn:Ep; try done.
  destruct (f c) as [c'|] eqn:Ef; [|done]. intros [= <-]. destruct (Hf c c' Ep Ef) as [H1 H2]. apply (key_put seq c); auto. unfold listed. by rewrite Ep.
Qed.

Lemma key_step s e s' : log_inv s -> key_inv s -> server_step s e = Some s' -> key_inv s'.
Proof.
  intros Hi Hk. destruct e as [line| | |seq tid|seq|seq r|encodes seq| |]; cbn [server_step].
  - destruct (sv_reader s) eqn:Er; try done. intros [= <-]. by apply key_line.
  - by apply key_reader_step.
  - destruct (sv_reader s) eqn:Er; try done. intros [= <-]. by apply (key_reader s).
  - apply key_tool_event; [done|]. intros c c' Hp Hc. destruct (cl_submitted c); [done|]. injection Hc as <-. split; [done|]. unfold listed. cbn. by rewrite Hp.
  - apply key_tool_event; [done|]. intros c c' Hp Hc. destruct (cl_cancel c); [|done]. injection Hc as <-. split; [done|]. unfold listed. cbn. by rewrite Hp.
  - apply key_tool_event; [done|]. intros c c' Hp Hc. by injection Hc as <-.
  - by apply key_call_step.
  - destruct (sv_reader s) eqn:Er; try done. intros [= <-]. apply key_calls; [done|]. intros q. rewrite map_lookup_imap. destruct (sv_calls s !! q) as [c|]; cbn; [|done]. by destruct (decide _).
  - destruct (sv_reader s) eqn:Er; try done. intros [= <-]. apply key_calls; [done|]. intros q. rewrite lookup_fmap. destruct (sv_calls s !! q) as [c|]; cbn; [|done].
    destruct (is_over c); [done|]. split_and!; [done|done|]. auto.
Qed.

(** ** The tasks cancellations reach *)

Definition submitted_by s (key : Str) (tid : TaskId) : Prop := exists seq c, sv_calls s !! seq = Some c /\ cl_key c = Some key /\ cl_submitted c = Some tid.

Record task_inv s : Prop := {
  ti_completed : forall key tid, (key, tid) ∈ sv_completed s -> submitted_by s key tid;
  ti_cancels : forall ca, ca ∈ sv_cancels s -> submitted_by s (ca_key ca) (ca_task ca);
  ti_pushing : forall seq c r tid, sv_calls s !! seq = Some c -> cl_phase c = CpPushing r tid -> cl_submitted c = Some tid;
  ti_bound : (length (sv_completed s) <= MAX_COMPLETED)%nat;
  ti_keys : NoDup (sv_completed s).*1
}.

Definition keeps (m m' : gmap N (ToolRun (R := R))) : Prop := forall seq c, m !! seq = Some c -> exists c', m' !! seq = Some c' /\ cl_key c' = cl_key c /\ forall tid, cl_submitted c = Some tid -> cl_submitted c' = Some tid.
Definition pushing_ok (m : gmap N (ToolRun (R := R))) : Prop := forall seq c r tid, m !! seq = Some c -> cl_phase c = CpPushing r tid -> cl_submitted c = Some tid.

Lemma keeps_refl m : keeps m m.
Proof. intros seq c Hc. exists c. done. Qed.

Lemma keeps_put m seq c c' : m !! seq = Some c -> cl_key c' = cl_key c -> (forall tid, cl_submitted c = Some tid -> cl_submitted c' = Some tid) -> keeps m (<[seq := c']> m).
Proof.
  intros Hc Hk Hs q d Hd. destruct (decide (q = seq)) as [->|Hn]; [exists c'; rewrite lookup_insert_eq; replace d with c by congruence; done|]. exists d. by rewrite lookup_insert_ne.
Qed.

Lemma pushing_put m seq c' : pushing_ok m -> (forall r tid, cl_phase c' = CpPushing r tid -> cl_submitted c' = Some tid) -> pushing_ok (<[seq := c']> m).
Proof. intros Hm Hc q d r tid [[<- <-]|[Hn Hd]]%lookup_insert_Some Hp; [by eapply Hc|by eapply Hm]. Qed.

Lemma without_length key l : (length (without_key key l) <= length l)%nat.
Proof. apply length_filter. Qed.

Lemma without_keys key l : NoDup l.*1 -> NoDup (without_key key l).*1.
Proof.
  unfold without_key. induction l as [|e l IH]; [done|]. rewrite fmap_cons. intros [Hn Hd]%NoDup_cons. rewrite filter_cons. destruct (decide _); [|auto]. rewrite fmap_cons. apply NoDup_cons. split; [|auto].
  intros (e' & He & Hin)%list_elem_of_fmap. apply list_elem_of_filter in Hin as [_ Hin]. apply Hn, list_elem_of_fmap. eauto.
Qed.

Lemma without_no_key key l : key ∉ (without_key key l).*1.
Proof. intros (e & -> & Hin)%list_elem_of_fmap. apply list_elem_of_filter in Hin as [Hne _]. done. Qed.

Lemma remember_spec key tid l : NoDup l.*1 -> (length l <= MAX_COMPLETED)%nat ->
  NoDup (remember key tid l).*1 /\ (length (remember key tid l) <= MAX_COMPLETED)%nat /\ forall e, e ∈ remember key tid l -> e ∈ l \/ e = (key, tid).
Proof.
  intros Hd Hl. unfold remember. pose proof (without_length key l) as Hw. pose proof (without_keys key l Hd) as Hwd. pose proof (without_no_key key l) as Hn.
  assert (Hin : forall e, e ∈ without_key key l -> e ∈ l) by (intros e He; by apply list_elem_of_filter in He as [_ He]).
  assert (Hg : forall w, NoDup w.*1 -> (length w < MAX_COMPLETED)%nat -> w ⊆ without_key key l ->
    NoDup (w ++ [(key, tid)]).*1 /\ (length (w ++ [(key, tid)]) <= MAX_COMPLETED)%nat /\ forall e, e ∈ w ++ [(key, tid)] -> e ∈ l \/ e = (key, tid)).
  { intros w Hw1 Hw2 Hw3. split_and!; [|rewrite length_app; cbn; lia|set_solver]. rewrite fmap_app. apply NoDup_app. split_and!; [done| |by apply NoDup_singleton].
    intros x Hx Hk%list_elem_of_singleton. cbn in Hk. subst x. apply Hn. apply list_elem_of_fmap in Hx as (e & -> & He). apply list_elem_of_fmap. eauto. }
  destruct (MAX_COMPLETED <=? length (without_key key l))%nat eqn:E; [|apply Nat.leb_gt in E; by apply Hg].
  destruct (without_key key l) as [|e w]; [done|]. change (drop 1 (e :: w)) with w. apply Hg; [by apply NoDup_cons in Hwd as [_ ?]|cbn [length] in Hw; lia|set_solver].
Qed.

Lemma take_last_spec key l tid rest : take_last key l = Some (tid, rest) -> exists l1 l2, l = l1 ++ (key, tid) :: l2 /\ rest = l1 ++ l2 /\ key ∉ l2.*1.
Proof.
  revert tid rest. induction l as [|e l IH]; cbn; [done|]. intros tid rest. destruct (take_last key l) as [[t r]|] eqn:E.
  - intros [= <- <-]. destruct (IH t r eq_refl) as (l1 & l2 & -> & -> & Hn). by exists (e :: l1), l2.
  - case_bool_decide as Hk; [|done]. intros [= <- <-]. exists [], l. destruct e as [k t]. cbn in *. subst k. split_and!; [done|done|]. clear -E.
    induction l as [|[k' t'] l IH]; cbn in *; [set_solver|]. destruct (take_last key l) as [[? ?]|]; [done|]. case_bool_decide; [done|]. specialize (IH eq_refl). set_solver.
Qed.

Lemma task_new : task_inv (server_new (R := R)).
Proof. constructor; cbn; try done; [set_solver..|unfold MAX_COMPLETED; lia|constructor]. Qed.

(** Steps that neither remember nor cancel anything. *)
Lemma task_keeps s s' : task_inv s -> keeps (sv_calls s) (sv_calls s') -> pushing_ok (sv_calls s') -> sv_completed s' = sv_completed s -> sv_cancels s' = sv_cancels s -> task_inv s'.
Proof.
  intros [T1 T2 T3 T4 T5] Hk Hp Hc Ha. assert (Hs : forall key tid, submitted_by s key tid -> submitted_by s' key tid).
  { intros key tid (q & c & Hq & Hkey & Ht). destruct (Hk q c Hq) as (c' & Hc' & Hk' & Ht'). exists q, c'. split_and!; [done|congruence|auto]. }
  constructor; rewrite ?Hc, ?Ha; auto.
Qed.

Lemma task_reader s s' : task_inv s -> sv_calls s' = sv_calls s -> sv_completed s' = sv_completed s -> sv_cancels s' = sv_cancels s -> task_inv s'.
Proof. intros Ht Hc Hl Ha. apply (task_keeps s); rewrite ?Hc; [done|apply keeps_refl|exact (ti_pushing s Ht)|done|done]. Qed.

Lemma task_completed l s : task_inv s -> (forall e, e ∈ l -> e ∈ sv_completed s) -> NoDup l.*1 -> (length l <= MAX_COMPLETED)%nat -> task_inv (set_completed l s).
Proof. intros [T1 T2 T3 T4 T5] Hin Hd Hl. constructor; auto. intros key tid Hx. apply T1. by apply Hin. Qed.

Lemma task_dispatch rq s : task_inv s -> task_inv (after_dispatch rq s).
Proof. intros Ht. unfold after_dispatch. by destruct (dispatch_request rq); apply (task_reader s). Qed.

Lemma task_cancel ca s : task_inv s -> submitted_by s (ca_key ca) (ca_task ca) -> task_inv (ask_cancel ca s).
Proof. intros [T1 T2 T3 T4 T5] Hs. constructor; try assumption. intros ca' [Hin|Hin%list_elem_of_singleton]%elem_of_app; [by apply T2|by rewrite Hin]. Qed.

Lemma task_put seq c c' s : task_inv s -> sv_calls s !! seq = Some c -> cl_key c' = cl_key c -> (forall tid, cl_submitted c = Some tid -> cl_submitted c' = Some tid) ->
  (forall r tid, cl_phase c' = CpPushing r tid -> cl_submitted c' = Some tid) -> task_inv (put_call seq c' s).
Proof. intros Ht Hc Hk Hs Hp. apply (task_keeps s); [done|by eapply keeps_put|apply pushing_put; [exact (ti_pushing s Ht)|done]|done|done]. Qed.

Lemma task_reader_step s s' : task_inv s -> key_inv s -> reader_step s = Some s' -> task_inv s'.
Proof.
  intros Ht Hk. unfold reader_step. destruct (sv_reader s) as [|key rq|key tc|tc|seq tc|key|key seq|key|] eqn:Er; try done.
  - intros [= <-]. apply task_dispatch, task_completed; [done| |apply without_keys, (ti_keys s Ht)|].
    + intros e He. by apply list_elem_of_filter in He as [_ He].
    + pose proof (without_length key (sv_completed s)). pose proof (ti_bound s Ht). lia.
  - destruct (bool_decide _); intros [= <-]; by apply (task_reader s).
  - intros [= <-]. by apply (task_reader s).
  - intros [= <-]. apply (task_keeps s); [done|..|by destruct (tc_key tc)|by destruct (tc_key tc)].
    + replace (sv_calls (set_reader _ _)) with (<[seq := new_call (this_line s) tc]> (sv_calls s)) by by destruct (tc_key tc).
      intros q c Hq. exists c. split; [|done]. rewrite lookup_insert_ne; [done|]. intros <-. pose proof (ki_fresh s Hk seq tc Er). congruence.
    + replace (sv_calls (set_reader _ _)) with (<[seq := new_call (this_line s) tc]> (sv_calls s)) by by destruct (tc_key tc). apply pushing_put; [exact (ti_pushing s Ht)|done].
  - destruct (sv_in_flight s !! key) as [seq|]; [|intros [= <-]; by apply (task_reader s)]. destruct (sv_calls s !! seq) as [c|] eqn:Ec; [|done]. intros [= <-].
    apply (task_reader (put_call seq (call_with_flags true true (cl_aborted c) c) s)); [|done..]. apply (task_put seq c); try done. intros r tid Hp. exact (ti_pushing s Ht seq c r tid Ec Hp).
  - destruct (ki_task s Hk key seq Er) as (c & Hc & Hkey). rewrite Hc. cbn. destruct (cl_submitted c) as [tid|] eqn:Es; intros [= <-]; [|by apply (task_reader s)].
    apply (task_reader (ask_cancel {| ca_key := key; ca_task := tid; ca_in_flight := true |} s)); [|done..]. apply task_cancel; [done|]. by exists seq, c.
  - destruct (take_last key (sv_completed s)) as [[tid rest]|] eqn:Et; intros [= <-]; [|by apply (task_reader s)].
    destruct (take_last_spec _ _ _ _ Et) as (l1 & l2 & Hl & -> & _). assert (Hin : (key, tid) ∈ sv_completed s) by (rewrite Hl; set_solver).
    apply (task_reader (ask_cancel {| ca_key := key; ca_task := tid; ca_in_flight := false |} (set_completed (l1 ++ l2) s))); [|done..]. apply task_cancel.
    + apply task_completed; [done|rewrite Hl; set_solver| |].
      * pose proof (ti_keys s Ht) as Hd. rewrite Hl in Hd. rewrite fmap_app in *. cbn in Hd. apply NoDup_app in Hd as (Hd1 & Hd2 & Hd3). apply NoDup_cons in Hd3 as [Hn Hd3]. apply NoDup_app. split_and!; [done|set_solver|done].
      * pose proof (ti_bound s Ht) as Hb. rewrite Hl, length_app in Hb. rewrite length_app. cbn in Hb. lia.
    + destruct (ti_completed s Ht key tid Hin) as (q & c & Hx). by exists q, c.
Qed.

Lemma task_call_step encodes seq s s' : task_inv s -> tool_task_step encodes seq s = Some s' -> task_inv s'.
Proof.
  intros Ht. unfold tool_task_step. destruct (sv_calls s !! seq) as [c|] eqn:Ec; [|done].
  assert (Hmove : forall p s1, task_inv s1 -> sv_calls s1 = sv_calls s -> (forall r tid, p = CpPushing r tid -> cl_submitted c = Some tid) -> task_inv (put_call seq (call_with_phase p c) s1)).
  { intros p s1 Hs Hc Hp. apply (task_put seq c); try done. by rewrite Hc. }
  destruct (cl_phase c) as [|r|r|r tid|r|r| |] eqn:Ep; try done.
  - intros [= <-]. apply Hmove; [by apply (task_reader s)|done|done].
  - intros [= <-]. apply Hmove; [done|done|]. intros r' tid. unfold next_phase. destruct (cl_key c); [|done]. destruct (call_silenced c); [done|]. destruct (cl_submitted c); [|done]. by intros [= <- <-].
  - destruct (cl_key c) as [key|] eqn:Ek; [|done]. intros [= <-]. apply Hmove; [|done|done]. destruct (remember_spec key tid (sv_completed s) (ti_keys s Ht) (ti_bound s Ht)) as (H1 & H2 & H3).
    destruct Ht as [T1 T2 T3 T4 T5]. constructor; try assumption. intros key' tid' [Hin|Hin]%H3; [by apply T1|]. injection Hin as -> ->. exists seq, c. split_and!; [done|done|exact (T3 seq c r tid Ec Ep)].
  - destruct (cl_key c); [|done]. intros [= <-]. apply Hmove; [by apply (task_reader s)|done|done].
  - assert (Hd : task_inv (put_call seq (call_with_phase CpDone c) s)) by by apply Hmove. destruct (call_silenced c); intros [= <-]; [done|by apply (task_reader (put_call seq (call_with_phase CpDone c) s))].
Qed.

Lemma task_tool_event seq f s s' : task_inv s -> (forall c c', cl_phase c = CpRunning -> f c = Some c' -> cl_key c' = cl_key c /\ (forall tid, cl_submitted c = Some tid -> cl_submitted c' = Some tid) /\ forall r tid, cl_phase c' <> CpPushing r tid) ->
  tool_event seq f s = Some s' -> task_inv s'.
Proof.
  intros Ht Hf. unfold tool_event. destruct (sv_calls s !! seq) as [c|] eqn:Ec; [|done]. destruct (cl_phase c) eqn:Ep; try done.
  destruct (f c) as [c'|] eqn:Ef; [|done]. intros [= <-]. destruct (Hf c c' Ep Ef) as (H1 & H2 & H3). apply (task_put seq c); auto. intros r tid Hx. by destruct (H3 r tid).
Qed.

Lemma task_step s e s' : task_inv s -> key_inv s -> server_step s e = Some s' -> task_inv s'.
Proof.
  intros Ht Hk. destruct e as [line| | |seq tid|seq|seq r|encodes seq| |]; cbn [server_step].
  - destruct (sv_reader s) eqn:Er; try done. intros [= <-]. unfold on_line. destruct (read_line line) as [|r|key|rq]; try by apply (task_reader s).
    destruct (if bool_decide _ then None else _); [by apply (task_reader s)|]. apply task_dispatch. by apply (task_reader s).
  - by apply task_reader_step.
  - destruct (sv_reader s) eqn:Er; try done. intros [= <-]. by apply (task_reader s).
  - apply task_tool_event; [done|]. intros c c' Hp Hc. destruct (cl_submitted c); [done|]. injection Hc as <-. cbn. by rewrite Hp.
  - apply task_tool_event; [done|]. intros c c' Hp Hc. destruct (cl_cancel c); [|done]. injection Hc as <-. cbn. by rewrite Hp.
  - apply task_tool_event; [done|]. intros c c' Hp Hc. by injection Hc as <-.
  - by apply task_call_step.
  - destruct (sv_reader s) eqn:Er; try done. intros [= <-]. apply (task_keeps s); [done|..|done|done]; cbn [sv_calls set_calls].
    + intros q c Hq. rewrite map_lookup_imap, Hq. cbn. eexists. split; [done|]. by destruct (decide _).
    + intros q c' r tid Hq Hp. rewrite map_lookup_imap in Hq. destruct (sv_calls s !! q) as [c|] eqn:Eq; [|done]. cbn in Hq. injection Hq as <-.
      destruct (decide _); exact (ti_pushing s Ht q c r tid Eq Hp).
  - destruct (sv_reader s) eqn:Er; try done. intros [= <-]. apply (task_keeps s); [done|..|done|done]; cbn [sv_calls set_calls].
    + intros q c Hq. rewrite lookup_fmap, Hq. cbn. eexists. split; [done|]. by destruct (is_over c).
    + intros q c' r tid Hq Hp. rewrite lookup_fmap in Hq. destruct (sv_calls s !! q) as [c|] eqn:Eq; [|done]. cbn in Hq. injection Hq as <-.
      destruct (is_over c); [exact (ti_pushing s Ht q c r tid Eq Hp)|done].
Qed.

(** ** Runs *)

Lemma run_invs es s s' : log_inv s -> key_inv s -> task_inv s -> server_run s es = Some s' -> log_inv s' /\ key_inv s' /\ task_inv s'.
Proof.
  revert s. induction es as [|e es IH]; cbn; intros s Hi Hk Ht; [by intros [= <-]|]. destruct (server_step s e) as [s1|] eqn:E; [|done].
  apply IH; [by apply (log_step s e)|by apply (key_step s e)|by apply (task_step s e)].
Qed.

Lemma server_reached es s : server_run (server_new (R := R)) es = Some s -> log_inv s /\ key_inv s /\ task_inv s.
Proof. apply run_invs; [apply log_new|apply key_new|apply task_new]. Qed.

(** C25 Over every interleaving of the MCP server's reader and calls, a line gets what it is
    owed: a notification nothing, a line that is refused its one refusal, and a request one
    response, which carries its id; a request has none yet only while the reader is on it or
    its call runs, and never gets one only if its call was cancelled or aborted. *)
Theorem one_answer_per_request es s ln line : server_run (server_new (R := R)) es = Some s -> sv_lines s !! ln = Some line ->
  match read_line (R := R) line with
  | Ignored | CancelNote _ => answers s ln = []
  | Refused r => answers s ln = [r]
  | Asked rq =>
      (exists r, answers s ln = [r] /\ rp_id r = Some (rq_id rq))
      \/ (answers s ln = [] /\ (ln = this_line s /\ is_Some (on_request (sv_reader s))
            \/ exists seq c, sv_calls s !! seq = Some c /\ cl_line c = ln /\ (is_over c = false \/ cl_phase c = CpAborted \/ call_silenced c = true)))
  end.
Proof.
  intros Hr Hl. destruct (server_reached es s Hr) as (Hi & _ & _). pose proof (li_owed s Hi ln line Hl) as Ho. unfold owed in Ho. destruct (read_line line); try done.
  destruct Ho as [[[id Hon] Hln]|[(r & Ha & Hid & _)|(Ha & Hx)]]; [right|left; eauto|right; auto]. split; [|left; eauto]. rewrite Hln. by apply (li_reader s Hi id).
Qed.

(** A request that was cancelled while its call was in flight is never answered. *)
Theorem cancelled_never_answered es s seq c : server_run (server_new (R := R)) es = Some s -> sv_calls s !! seq = Some c -> call_silenced c = true -> answers s (cl_line c) = [].
Proof.
  intros Hr Hc Hs. destruct (server_reached es s Hr) as (Hi & _ & _). destruct (li_calls s Hi seq c Hc) as ((line & rq & Hl & Hrq & _) & _). pose proof (li_owed s Hi _ _ Hl) as Hw.
  unfold owed in Hw. rewrite Hrq in Hw. destruct Hw as [[[id Hid] Ht]|[(r & _ & _ & Hd)|[Ha _]]]; [| |done].
  - destruct (li_reader s Hi id Hid) as (_ & _ & Hx). by destruct (Hx seq c Hc).
  - destruct (Hd seq c Hc eq_refl) as [_ Hx]. congruence.
Qed.

(** No two calls that have not left the table have the same request id. *)
Theorem ids_unique_in_flight es s seq1 seq2 c1 c2 key : server_run (server_new (R := R)) es = Some s ->
  sv_calls s !! seq1 = Some c1 -> sv_calls s !! seq2 = Some c2 -> listed c1 = true -> listed c2 = true -> cl_key c1 = Some key -> cl_key c2 = Some key -> seq1 = seq2.
Proof.
  intros Hr H1 H2 L1 L2 K1 K2. destruct (server_reached es s Hr) as (_ & Hk & _). pose proof (ki_listed s Hk seq1 c1 key H1 K1 L1). pose proof (ki_listed s Hk seq2 c2 key H2 K2 L2). congruence.
Qed.

(** A cancellation reaches no other request's task: every task the MCP server asks the
    master to cancel was submitted by a call of the request the client named; and the memory
    of finished submissions holds at most 256 requests, each once. *)
Theorem cancels_own_task es s : server_run (server_new (R := R)) es = Some s ->
  (forall ca, ca ∈ sv_cancels s -> submitted_by s (ca_key ca) (ca_task ca)) /\ (length (sv_completed s) <= 256)%nat /\ NoDup (sv_completed s).*1.
Proof. intros Hr. destruct (server_reached es s Hr) as (_ & _ & Ht). split_and!; [exact (ti_cancels s Ht)|exact (ti_bound s Ht)|exact (ti_keys s Ht)]. Qed.

(** When a cancellation is looked for among the finished submissions, no call of its request
    is between its last look at the flags and the end of its stay in the table: what it will
    remember it has remembered. *)
Theorem no_gap_between_tables es s key seq c : server_run (server_new (R := R)) es = Some s -> sv_in_flight s !! key = None -> sv_calls s !! seq = Some c -> cl_key c = Some key -> listed c = false.
Proof.
  intros Hr Hn Hc Hk. destruct (server_reached es s Hr) as (_ & Hki & _). destruct (listed c) eqn:El; [|done]. pose proof (ki_listed s Hki seq c key Hc Hk El). congruence.
Qed.

(** Left to itself, the call is over after [n] holds of a lock. *)
Definition ends_in (n : nat) (seq : N) s : Prop :=
  exists s' c', server_run s (replicate n (EvCall true seq)) = Some s' /\ sv_calls s' !! seq = Some c' /\ cl_phase c' = CpDone.

Lemma ends_next n seq s s1 : tool_task_step true seq s = Some s1 -> ends_in n seq s1 -> ends_in (S n) seq s.
Proof. intros Hs (s' & c' & Hr & Hx). exists s', c'. cbn. by rewrite Hs. Qed.

Lemma final_ends seq c r s : sv_calls s !! seq = Some c -> cl_phase c = CpFinal r -> ends_in 1 seq s.
Proof.
  intros Hc Hp. unfold ends_in. cbn. unfold tool_task_step. rewrite Hc, Hp. destruct (call_silenced c); eexists _, (call_with_phase CpDone c); (split; [done|]; cbn; by rewrite lookup_insert_eq).
Qed.

Lemma leaving_ends seq c r key s : sv_calls s !! seq = Some c -> cl_phase c = CpLeaving r -> cl_key c = Some key -> ends_in 2 seq s.
Proof.
  intros Hc Hp Hk. eapply ends_next; [unfold tool_task_step; by rewrite Hc, Hp, Hk|]. eapply (final_ends _ (call_with_phase (CpFinal r) c) r); [cbn; by rewrite lookup_insert_eq|done].
Qed.

Lemma pushing_ends seq c r tid key s : sv_calls s !! seq = Some c -> cl_phase c = CpPushing r tid -> cl_key c = Some key -> ends_in 3 seq s.
Proof.
  intros Hc Hp Hk. eapply ends_next; [unfold tool_task_step; by rewrite Hc, Hp, Hk|]. eapply (leaving_ends _ (call_with_phase (CpLeaving r) c) r key); [cbn; by rewrite lookup_insert_eq|done|done].
Qed.

Lemma unlisted_ends seq c r s : sv_calls s !! seq = Some c -> cl_phase c = CpUnlisted r -> exists n, (n <= 4)%nat /\ ends_in n seq s.
Proof.
  intros Hc Hp. assert (Hst : forall p n, next_phase r c = p -> ends_in n seq (put_call seq (call_with_phase p c) s) -> ends_in (S n) seq s).
  { intros p n <-. apply ends_next. unfold tool_task_step. rewrite Hc, Hp. reflexivity. }
  assert (Hl : forall p, sv_calls (put_call seq (call_with_phase p c) s) !! seq = Some (call_with_phase p c)) by (intros p; cbn; by rewrite lookup_insert_eq).
  unfold next_phase in Hst. destruct (cl_key c) as [key|] eqn:Ek; [|exists 2%nat; split; [lia|]; by eapply Hst, (final_ends _ _ r); [|apply Hl|]].
  destruct (call_silenced c); [exists 3%nat; split; [lia|]; by eapply Hst, (leaving_ends _ _ r key); [|apply Hl|..]|].
  destruct (cl_submitted c) as [tid|]; [exists 4%nat|exists 3%nat]; (split; [lia|]); [by eapply Hst, (pushing_ends _ _ r tid key); [|apply Hl|..]|by eapply Hst, (leaving_ends _ _ r key); [|apply Hl|..]].
Qed.

(** A call of the MCP server whose tool has returned is over after at most five holds of a
    lock of its own, whatever state the server is in. *)
Theorem returned_call_ends seq c r s : sv_calls s !! seq = Some c -> cl_phase c = CpReturned r -> exists n, (n <= 5)%nat /\ ends_in n seq s.
Proof.
  intros Hc Hp. destruct (unlisted_ends seq (call_with_phase (CpUnlisted r) c) r (put_call seq (call_with_phase (CpUnlisted r) c) (set_active (sv_active s ∖ {[seq]}) (sv_next s) s))) as (n & Hn & He);
    [cbn; by rewrite lookup_insert_eq|done|]. exists (S n). split; [lia|]. eapply ends_next; [|exact He]. unfold tool_task_step. by rewrite Hc, Hp.
Qed.
End props.

(** ** Witnesses *)

Module ToyLines.
Import ToyJson.
Definition message (id : option N) (method : Str) (params : list (Str * tree)) : tree :=
  TObj ((str "jsonrpc", TStr (str "2.0")) :: (str "method", TStr method) :: (str "params", TObj params) :: match id with Some n => [(str "id", TNum n)] | None => [] end).
Definition submit_params : list (Str * tree) := [(str "name", TStr (str "submit")); (str "arguments", TObj [(str "command", TStr (str "ls"))])].
(** A client that writes one of three lines. *)
Definition parse (s : Str) : option tree :=
  if bool_decide (s = str "call") then Some (message (Some 1) (str "tools/call") submit_params)
  else if bool_decide (s = str "cancel") then Some (message None (str "notifications/cancelled") [(str "requestId", TNum 1)])
  else if bool_decide (s = str "ping") then Some (message (Some 2) (str "ping") [])
  else None.
Definition json : McpJson := {| JVal := tree; json_view := view; json_from_str := parse; json_to_string := fun t => match t with TNum n => Some (show_N n) | _ => None end; json_empty := TObj [] |}.
End ToyLines.
#[local] Existing Instance ToyLines.json.
#[local] Existing Instance ToyJson.uuid.

(** A call starts, another request is answered, the call submits a task and returns; the
    cancellation comes before it replies. *)
Definition cancelled_run : list (Event (R := N)) :=
  [EvLine (str "call"); EvReader; EvReader; EvReader; EvReader; EvLine (str "ping"); EvReader; EvSubmitted 1 7; EvReturns 1 9; EvCall true 1; EvCall true 1;
   EvLine (str "cancel"); EvReader; EvReader; EvCall true 1; EvCall true 1; EvCall true 1].
(** The same without the cancellation, which comes after the reply. *)
Definition answered_run : list (Event (R := N)) :=
  [EvLine (str "call"); EvReader; EvReader; EvReader; EvReader; EvSubmitted 1 7; EvReturns 1 9; EvCall true 1; EvCall true 1; EvCall true 1; EvCall true 1; EvCall true 1;
   EvLine (str "cancel"); EvReader; EvReader].

Definition after_run (es : list (Event (R := N))) : Server (R := N) := default server_new (server_run server_new es).

Lemma one_answer_per_request_witness : (exists r, answers (after_run answered_run) 0 = [r] /\ rp_id r = Some (ToyJson.TNum 1))
  \/ (answers (after_run answered_run) 0 = [] /\ (0%nat = this_line (after_run answered_run) /\ is_Some (on_request (sv_reader (after_run answered_run)))
      \/ exists seq c, sv_calls (after_run answered_run) !! seq = Some c /\ cl_line c = 0%nat /\ (is_over c = false \/ cl_phase c = CpAborted \/ call_silenced c = true))).
Proof.
  assert (E : server_run server_new answered_run = Some (after_run answered_run)) by (vm_compute; reflexivity).
  exact (one_answer_per_request answered_run (after_run answered_run) 0 (str "call") E eq_refl).
Defined.

(** The three runs the statement distinguishes. *)
Example answered_run_answers : (fun p => (p.1, rp_body p.2)) <$> sv_out (after_run answered_run) = [(0%nat, inl (RpTool 9))]
  /\ sv_cancels (after_run answered_run) = [{| ca_key := str "1"; ca_task := 7; ca_in_flight := false |}].
Proof. split; vm_compute; reflexivity. Qed.

Lemma cancelled_never_answered_witness : answers (after_run cancelled_run) 0 = [].
Proof.
  assert (E : server_run server_new cancelled_run = Some (after_run cancelled_run)) by (vm_compute; reflexivity).
  eassert (Ec : sv_calls (after_run cancelled_run) !! 1%N = Some _) by (vm_compute; reflexivity).
  exact (cancelled_never_answered cancelled_run (after_run cancelled_run) 1 _ E Ec eq_refl).
Defined.

Lemma ids_unique_in_flight_witness : 1%N = 1%N.
Proof.
  eassert (E : server_run server_new (take 5 answered_run) = Some _) by (vm_compute; reflexivity).
  eassert (Ec : sv_calls (after_run (take 5 answered_run)) !! 1%N = Some _) by (vm_compute; reflexivity).
  exact (ids_unique_in_flight (take 5 answered_run) _ 1 1 _ _ (str "1") E Ec Ec eq_refl eq_refl eq_refl eq_refl).
Defined.

Lemma cancels_own_task_witness : submitted_by (after_run answered_run) (str "1") 7.
Proof.
  assert (E : server_run server_new answered_run = Some (after_run answered_run)) by (vm_compute; reflexivity).
  destruct (cancels_own_task answered_run _ E) as (Hc & _). apply (Hc {| ca_key := str "1"; ca_task := 7; ca_in_flight := false |}). vm_compute. left.
Defined.

Lemma no_gap_between_tables_witness : exists c, sv_calls (after_run answered_run) !! 1%N = Some c /\ listed c = false.
Proof.
  assert (E : server_run server_new answered_run = Some (after_run answered_run)) by (vm_compute; reflexivity).
  eassert (Ec : sv_calls (after_run answered_run) !! 1%N = Some _) by (vm_compute; reflexivity).
  eexists. split; [exact Ec|]. exact (no_gap_between_tables answered_run _ (str "1") 1 _ E eq_refl Ec eq_refl).
Defined.

Lemma returned_call_ends_witness : exists n, (n <= 5)%nat /\ ends_in n 1 (after_run (take 7 answered_run)).
Proof.
  eassert (Ec : sv_calls (after_run (take 7 answered_run)) !! 1%N = Some _) by (vm_compute; reflexivity).
  exact (returned_call_ends 1 _ 9 (after_run (take 7 answered_run)) Ec eq_refl).
Defined.
